(* ===== verification/_CoqProject ===== *)
-Q . S2P
Prelude.v
GoStd.v
SiteState.v
Intervals.v
GtidSet.v
PlanSet.v
Effects.v
Fencing.v
Failover.v
GoTime.v
FailoverRecord.v
Sha256.v
PlannedRun.v
DeploymentLeases.v
ClaimSlot.v
Claims.v
PlanIndex.v
PlanSearch.v
PlanHash.v
PlanGraph.v
PlanReplay.v
PlanSegments.v
EngineData.v
EngineSteps.v
Protocol.v
EngineProtocol.v
EngineHistory.v
FacadeData.v
FacadeSteps.v
FacadePromote.v
FacadeRollback.v
FacadeSafety.v
FacadeUnfence.v
FacadeFence.v
FacadeCalls.v
PollData.v
PollSteps.v
PollBootstrap.v
PollAct.v
PollFollow.v
PollRecover.v
PollCycle.v
PollSafety.v
PollProofs.v
PollRepoint.v
PollHistory.v
PollGates.v
PollBlocks.v
PollDebounce.v
PollChoice.v
Clone.v
CloneProofs.v
CloneOutcome.v
PodReadiness.v
Updater.v
UpdaterProofs.v
UpdateWait.v
UpdateOrder.v
