(* ===== verification/Prelude.v ===== *)
(** * Bloodraven: a verification development

    Bloodraven is a Kubernetes operator that runs MySQL failover groups: one writable
    primary site, standby sites fenced by [super_read_only], and automation that moves
    the primary - by emergency failover, by a planned run, or beside an ordered update -
    without ever leaving two writable sites or losing acknowledged transactions. This
    library models the decisions and protocols that promise depends on, from the Go
    source under [src/], and proves them.

    ** How the program's parts interact

    - The operator's topology manager ([internal/controller/topology.go]) polls each
      site, feeds the observations to the cross-site matrix ([internal/state]) and acts
      on its decision: it fences, promotes, re-asserts, seeds, clones, repoints and
      recovers sites. Every act first takes a claim ([topology_claims.go]); planned
      failovers hold theirs in a slot that outlives managers
      ([planned_failover_claim.go]); what changes followers is admitted at the
      follower-mutation gate ([follower_mutation.go]), at which handoffs wait.
    - A planned failover is a run of an engine ([planned_failover_engine.go]) that writes
      its phase to the group's status and acts through a facade of the topology
      ([planned_failover_ops.go]).
    - A promotion runs the statements of [failover.go] and [handoff.go], decided by GTID
      sets ([internal/mysql/gtid.go]), and is recorded durably
      ([failover_state.go], [planned_failover_contract.go]).
    - Deployments elsewhere take leases on a group ([deployment_leases.go]), which the
      operator revokes before it changes the topology.
    - On each site a sidecar ([internal/sidecar/fencing.go]) fences the server when the
      operator names another site or nobody is reachable.
    - Point-in-time restores are planned over GTID sets of their own
      ([internal/pitrplan]).

    ** The library

    - [Prelude]: tactics, hint databases, list and option lemmas, the [Eta] class and
      record updates. [GoStd]: Go's integers ([wrap64]), [strings], [strconv] and sort.
      [GoTime]: [time.Time] as nanoseconds since the zero time, its RFC 3339 text and
      truncation. [Sha256]: the hash, executable. [Effects]: programs over external
      calls, their traces, and a Hoare-style triple on traces, against which every
      effectful component is proved.
    - [SiteState]: [internal/state] in full - per-site transitions, [EvalCrossSite],
      [RankPromotionCandidates], [ResolveSplitBrain].
    - [Intervals]: what a list of ranges denotes, shared by both GTID arithmetics.
      [GtidSet]: [internal/mysql/gtid.go] with its int64 wrap-around. [PlanSet]:
      [internal/pitrplan/gtidset.go].
    - [Fencing]: the sidecar's monitor and startup safety net ([fencing.go],
      [topology_cache.go]); one tick is a program over calls to the clock, the operator,
      the peers and MySQL, whose answers are unconstrained.
    - [Failover]: the staged promotion, the catch-up wait, the maintenance handoff and
      the emergency failover ([failover.go], [handoff.go], the memo stages of
      [planned_failover_ops.go]).
    - [FailoverRecord]: the durable failover record - codec, ordering, optimistic-lock
      writer against an API server with interleaved writers, and the restart's reader.
    - [PlannedRun]: terminal markers, automation holds and the status predicates of a
      planned run ([planned_failover_contract.go] and the restore predicates it reads).
    - [DeploymentLeases]: every lease operation of [deployment_leases.go] against an
      unconstrained API server, clock and random source.
    - [ClaimSlot]: the claim slot and the in-memory failover record
      ([planned_failover_claim.go], [recordFailover]). [Claims]: the claims under
      [tm.mu], the gate, the rotation reservations, and the interleavings of the poll
      loop, the update worker and the engine as a step relation.
    - [EngineData], [EngineSteps]: the planned-failover engine's pass over an admitted run,
      phase by phase, over the answers of the API server and the facade.
      [Protocol]: two calculi over programs ([wp], a protocol as a state machine over the
      calls; [cwp], a condition on the calls so far), what a program calls ([frees]) and
      what it keeps of its state ([preserves]). [EngineProtocol]: the engine follows its
      protocol; [EngineHistory]: what that says of every run.
    - [FacadeData], [FacadeSteps], [FacadePromote], [FacadeRollback]: the facade's
      operations over pinned and pooled MySQL sessions, with its memos between passes.
      [FacadeSafety], [FacadeUnfence], [FacadeFence], [FacadeCalls]: its guarantees.
    - [PollData]: the poll goroutine's trackers, the fields it shares under [tm.mu] and its
      calls: a section of [tm.mu] is a [Lock], answered with unconstrained fields since
      other goroutines write them, and an [Unlock] with the fields it leaves. [PollSteps]:
      guards, fences, the choice of a candidate, the failover record, DNS.
      [PollBootstrap]: fresh deploys, seeds, empty sites. [PollAct]: cross-site actions and
      the re-assert. [PollFollow]: admissions, source convergence, the divergence audit.
      [PollRecover]: old primaries and reclones. [PollCycle]: debounce and one poll.
      [PollSafety], [PollProofs], [PollRepoint], [PollHistory], [PollGates], [PollBlocks],
      [PollDebounce], [PollChoice]: the proofs over one poll.
    - [PodReadiness]: when a site's pod counts as Ready, and why not ([pod_readiness.go]).
      [Updater]: the ordered update of a group's Deployments ([updater.go]'s
      [ExecuteTargets]) around [Failover]'s handoff, whose calls it embeds.
      [UpdaterProofs], [UpdateOrder], [UpdateWait]: its order, its one writer, its waits.
    - [Clone]: the goroutine of a clone ([runBootstrap], [bootstrap.go]); [CloneProofs] and
      [CloneOutcome]: its guarantees.
    - [PlanIndex]: the planner's memory budget ([budget.go]) and the index of a binlog
      file, event by event ([index.go]). [PlanSearch]: the search for a replay plan
      ([search.go]) - position hash, graph, deque, 0-1 breadth-first search, walk - and
      the proof that its distances are exact. [PlanHash]: the hash in closed form is the
      sum it stands for. [PlanGraph]: the graph's arrays stand for the files' positions
      and their executed sets, as one interface ([graph_spec]). [PlanReplay]: what a
      replay plan is apart from the graph, and the search proved against that. [PlanSegments]: the
      files to stage and the segments to replay ([latest.go], [checkL5] of [lineage.go]).

    ** What the theorems show

    - The matrix promotes a site exactly on the evidence its contract names, and ranking
      and split-brain resolution refine reference definitions ([SiteState]).
    - GTID arithmetic decides inclusion and difference of transaction sets, printing and
      parsing are inverse, and where int64 wraps ([GtidSet], [PlanSet]).
    - A tick of the sidecar fences only when justified and always when its rules say so;
      its [fenced] flag is never wrong; [super_read_only] is cleared only on the
      operator's word ([Fencing]).
    - A promotion opens a site only after every proof it needs; a handoff keeps one
      writer and loses no transaction; waits terminate soundly ([Failover]).
    - The failover record never goes back - durably, across restarts, in memory
      ([FailoverRecord], [ClaimSlot]).
    - Claims exclude one another in every interleaving, and the exact condition under
      which the gate's refusal lapses ([Claims]).
    - Leases are written only for their holder, never stolen while live, and a revoked
      operation never regains one ([DeploymentLeases]).
    - The engine acts only under a claim granted in the same pass, whatever it remembers of
      an earlier grant, rolls back only what cannot have been written,
      publishes after confirmation and concludes after its last write
      ([EngineHistory]); the facade fences the source it was granted, clears
      [super_read_only] only on the gate's proofs and its memos and outcomes are honest
      ([FacadeFence], [FacadeCalls]).
    - A poll opens a site to writes, starts a replica or repoints one only with evidence
      seen in the same poll ([PollHistory]); it never forgets a divergence report without
      proof ([PollBlocks]); it gives back its admissions, but for one path that leaks
      ([PollGates]); over any history of polls the debounce is a verdict on the
      answers ([PollDebounce]); the freshest candidate wins ([PollChoice]).
    - An ordered update takes one site out of service at a time, hands off only to a proved
      standby, never leaves two writers and loses nothing ([UpdateOrder]); its waits end
      ([UpdateWait]); a pod counts as Ready exactly when its contract says ([PodReadiness]).
    - A clone drops data once, guarded; it ends fenced unless the wait for its restart gave
      up or a clear returned an error; when one is reported that did not happen ([CloneProofs], [CloneOutcome]).
    - An index lists exactly the transactions its file's events announce, with what they
      say of each ([PlanIndex]); the plan search
      returns a replay plan with the fewest segments and refuses for another reason than
      memory only when there is none ([PlanReplay]). The
      segments of a plan replay what the search found ([PlanSegments]).

    ** Bounds and fuel

    [FormatInt] prints at most 20 digits, which an int64 fits; [search_loop] takes the
    list's length as fuel; the catch-up wait's fuel is its number of polls, and
    [Failover.wait_sound] is stated for every fuel and proves that enough fuel ends the
    wait; a rolled site's wait takes as fuel its number of ticks, and
    [UpdateWait.rolled_wait_ends] proves how many are enough; the recorder tries three times and [Snapshot] three times, as the code does;
    [raise_pending] takes as fuel the number of increments left to reach the wanted
    epoch. [bfs_fuel] lets every position be queued once by each other and
    [walk_fuel] bounds the pair of distance and position; [PlanSearch.loop_spec] and
    [PlanReplay.walk_spec] prove that the loops end before they run out. A
    clone's wait for its outcome takes as fuel one pass more than its timeout holds poll
    intervals, and [CloneOutcome.outcome_wait_ends] proves that it ends before; the reads
    that verify a follower are three, as in the code. Integers are [Z] with [wrap64] wherever the source can overflow.

    ** Not modelled

    Of the topology manager: the start of an ordered update and the restore's guards (opaque
    calls of the poll), the construction of a manager, its setters, status snapshots and
    broadcasts; the reconcile loops, the engine's admission of a run, the runner's
    registration of managers, the Kubernetes reconcilers (backups, verification, restores,
    databases, standby clusters, Dragonfly, encryption, TLS), the
    binlog archiver and its storage, the replay planner's frontier, coverage, identity and
    lineage, and the rest of the sidecar: most of their lines call the Kubernetes API,
    MySQL or object storage. Logging, metrics, error texts, the command-line tools, the
    playground, the simulator, generated deepcopy code and API types that no modelled
    decision reads are left out for good. External calls are never given a made-up
    behaviour: they are parameters with unconstrained answers, or relations stating what
    the API server guarantees. Unicode's case tables are parameters ([unicode_fold],
    [unicode_lower]); ASCII is modelled. The poll's probes run in parallel in the program
    and in sequence here, which loses nothing: their answers are unconstrained.

    ** What could come next

    The poll's start of an ordered update; the restore state machines that the
    poll's guards serve; the replay planner's frontier and coverage over [PlanSet]. *)
From Stdlib Require Export Ascii ZArith Lia.
From stdpp Require Export base numbers option strings sorting gmap.
From stdpp Require Export list.

(** ** Scopes, hint databases, tactics *)

Declare Scope go_scope.
Delimit Scope go_scope with go.

Create HintDb go_int discriminated.
Create HintDb go_list discriminated.

(** Split every conditional and match of the goal, discarding the impossible
    branches. *)
Ltac split_cases :=
  repeat (case_match; simplify_eq/=; try done).

(** Turn boolean comparisons on [Z] in the hypotheses and the goal into
    propositions. *)
Ltac zify_bool :=
  repeat match goal with
  | H : (_ && _)%bool = true |- _ => apply andb_true_iff in H as [? ?]
  | H : (_ || _)%bool = false |- _ => apply orb_false_iff in H as [? ?]
  | H : negb _ = true |- _ => apply negb_true_iff in H
  | H : negb _ = false |- _ => apply negb_false_iff in H
  | H : (_ <=? _)%Z = true |- _ => apply Z.leb_le in H
  | H : (_ <=? _)%Z = false |- _ => apply Z.leb_gt in H
  | H : (_ <? _)%Z = true |- _ => apply Z.ltb_lt in H
  | H : (_ <? _)%Z = false |- _ => apply Z.ltb_ge in H
  | H : (_ =? _)%Z = true |- _ => apply Z.eqb_eq in H
  | H : (_ =? _)%Z = false |- _ => apply Z.eqb_neq in H
  | H : (_ >? _)%Z = true |- _ => rewrite Z.gtb_ltb in H
  | H : (_ >? _)%Z = false |- _ => rewrite Z.gtb_ltb in H
  | H : (_ >=? _)%Z = true |- _ => rewrite Z.geb_leb in H
  | H : (_ >=? _)%Z = false |- _ => rewrite Z.geb_leb in H
  | H : bool_decide _ = true |- _ => apply bool_decide_eq_true in H
  | H : bool_decide _ = false |- _ => apply bool_decide_eq_false in H
  end.

(** Case analysis on the integer comparisons the goal branches on. *)
Ltac zcases :=
  repeat (case_match; zify_bool; simplify_eq/=; try lia; try done).

(** ** 64-bit signed integers *)

Definition MaxInt64 : Z := 9223372036854775807.

Definition MinInt64 : Z := -9223372036854775808.

(** Two's-complement wrap-around: the value an [int64] operation stores. *)
Definition wrap64 (z : Z) : Z := (z - MinInt64) mod 18446744073709551616 + MinInt64.

Definition is_int64 (z : Z) : Prop := (MinInt64 <= z <= MaxInt64)%Z.

(** Saturation to the [int64] range, as [time.Time.Sub] does on [Duration]. *)
Definition clamp64 (z : Z) : Z := Z.max MinInt64 (Z.min MaxInt64 z).

(** ** Errors as values *)

(** A Go [(T, error)] result. *)
Inductive res (E A : Type) : Type :=
| Ok (a : A)
| Err (e : E).
Arguments Ok {E A} _.
Arguments Err {E A} _.

Definition res_bind {E A B} (m : res E A) (k : A -> res E B) : res E B :=
  match m with
  | Ok a => k a
  | Err e => Err e
  end.

Notation "'let?' x := m 'in' k" := (res_bind m (fun x => k))
  (at level 10, x pattern, m at level 100, k at level 200,
   format "'[v' 'let?'  x  :=  m  'in' '/' k ']'") : go_scope.

Open Scope go_scope.

(** A [for _, x := range l] loop whose body can return an error. *)
Fixpoint res_fold {E S X} (f : S -> X -> res E S) (l : list X) (s : S) : res E S :=
  match l with
  | [] => Ok s
  | x :: l => let? s' := f s x in res_fold f l s'
  end.

Definition res_ok {E A} (m : res E A) : option A :=
  match m with
  | Ok a => Some a
  | Err _ => None
  end.

(** Go's [len(l) > 0]. *)
Definition nonempty {A} (l : list A) : bool := match l with [] => false | _ => true end.

(** ** Assignment to a struct field

    [s <| field := v |>] is the Go statement [s.field = v]. A record type
    declares its constructor applied to its projections as an [Eta] instance;
    the assignment replaces one projection there. *)

Class Eta (R : Type) : Type := eta : R -> R.

Class Assign {R T : Type} (field : R -> T) : Type := assign : T -> R -> R.

Arguments assign {R T} field {Assign} v r /.

Ltac build_assign field :=
  lazymatch type of field with
  | ?R -> ?T =>
      let inst := constr:(_ : Eta R) in
      let body := eval hnf in (inst : R -> R) in
      lazymatch eval pattern field in body with
      | ?put _ => let t := eval cbv beta in (fun (v : T) => put (fun _ => v)) in exact t
      end
  end.

#[export] Hint Extern 1 (Assign ?field) => build_assign field : typeclass_instances.

Notation "s <| field := v |>" := (assign field v s)
  (at level 12, left associativity, format "s  <| field  :=  v |>") : go_scope.

(** ** Generic lemmas *)

Lemma wrap64_id z : is_int64 z -> wrap64 z = z.
Proof.
  unfold is_int64, wrap64, MinInt64, MaxInt64. intros H.
  rewrite Z.mod_small; lia.
Qed.

Lemma wrap64_range z : is_int64 (wrap64 z).
Proof.
  unfold is_int64, wrap64, MinInt64, MaxInt64.
  pose proof (Z.mod_pos_bound (z - -9223372036854775808) 18446744073709551616).
  lia.
Qed.

Lemma clamp64_id z : is_int64 z -> clamp64 z = z.
Proof. unfold is_int64, clamp64. lia. Qed.

Lemma clamp64_range z : is_int64 (clamp64 z).
Proof. unfold is_int64, clamp64, MinInt64, MaxInt64. lia. Qed.

#[export] Hint Resolve wrap64_range clamp64_range : go_int.

Lemma res_fold_app {E S X} (f : S -> X -> res E S) l1 l2 s :
  res_fold f (l1 ++ l2) s = (let? s' := res_fold f l1 s in res_fold f l2 s').
Proof.
  revert s. induction l1 as [|x l1 IH]; intros s; simpl; [done|].
  destruct (f s x); simpl; auto.
Qed.

(** A loop invariant carries through [res_fold]. *)
Lemma res_fold_inv {E S X} (f : S -> X -> res E S) (P : S -> Prop) l s s' :
  P s -> (forall t x t', x ∈ l -> P t -> f t x = Ok t' -> P t') ->
  res_fold f l s = Ok s' -> P s'.
Proof.
  revert s. induction l as [|x l IH]; simpl; intros s Hs Hstep Heq.
  - by simplify_eq.
  - destruct (f s x) as [t|] eqn:Hf; simpl in Heq; [|done].
    eapply IH; [|by intros; eapply Hstep; eauto; right|exact Heq].
    eapply Hstep; [left|done|done].
Qed.

(** Sorting twice gives the same list when the order is antisymmetric. *)
Lemma merge_sort_unique {A} (R : relation A) `{!RelDecision R, !Transitive R, !AntiSymm (=) R, !Total R}
    (l1 l2 : list A) : l1 ≡ₚ l2 -> merge_sort R l1 = merge_sort R l2.
Proof.
  intros Hp. apply (StronglySorted_unique R).
  - apply StronglySorted_merge_sort; apply _.
  - apply StronglySorted_merge_sort; apply _.
  - by rewrite !merge_sort_Permutation.
Qed.

(** *** Boolean filters *)

Lemma filter_snoc_bool {A} (p : A -> bool) l x :
  List.filter p (l ++ [x]) = List.filter p l ++ (if p x then [x] else []).
Proof. rewrite List.filter_app. simpl. by destruct (p x). Qed.

Lemma fold_left_if {S X Y} (p : X -> bool) (f : S -> Y -> S) (g : X -> Y) l s :
  fold_left (fun s x => if p x then f s (g x) else s) l s
  = fold_left f (map g (List.filter p l)) s.
Proof.
  revert s. induction l as [|x l IH]; intros s; simpl; [done|].
  rewrite IH. by destruct (p x).
Qed.

Lemma elem_of_filter_bool {A} (p : A -> bool) l x : x ∈ List.filter p l <-> x ∈ l /\ p x = true.
Proof. by rewrite !list_elem_of_In, List.filter_In. Qed.

Lemma elem_of_map {A B} (f : A -> B) l y : y ∈ map f l <-> exists x, y = f x /\ x ∈ l.
Proof.
  rewrite list_elem_of_In, in_map_iff.
  split; intros (x & H1 & H2); exists x; rewrite list_elem_of_In in *; auto.
Qed.

Lemma nonempty_true {A} (l : list A) : nonempty l = true <-> exists x, x ∈ l.
Proof.
  destruct l as [|x l]; simpl; split; try done.
  - by intros [x Hx%not_elem_of_nil].
  - intros _. exists x. left.
Qed.

Lemma nonempty_false {A} (l : list A) : nonempty l = false <-> forall x, x ∉ l.
Proof.
  destruct l as [|x l]; simpl; split; try done.
  - intros _ x. apply not_elem_of_nil.
  - intros H. destruct (H x). left.
Qed.

Lemma nonempty_length {A} (l : list A) : nonempty l = negb (length l =? 0)%nat.
Proof. by destruct l. Qed.

Lemma filter_nil_iff {A} (p : A -> bool) l : List.filter p l = [] <-> forall x, x ∈ l -> p x = false.
Proof.
  induction l as [|y l IH]; simpl; [split; [intros _ x []%not_elem_of_nil|done]|].
  setoid_rewrite elem_of_cons.
  destruct (p y) eqn:Hy; [split; [done|]|rewrite IH; naive_solver].
  intros H. specialize (H y (or_introl eq_refl)). congruence.
Qed.

(** An implied filter is no longer; it is strictly shorter when it misses an
    element. *)
Lemma length_filter_le {A} (p q : A -> bool) l :
  (forall x, x ∈ l -> p x = true -> q x = true) ->
  (length (List.filter p l) <= length (List.filter q l))%nat.
Proof.
  induction l as [|y l IH]; simpl; intros H; [done|].
  assert (length (List.filter p l) <= length (List.filter q l))%nat
    by (apply IH; intros x Hx; apply H; by right).
  destruct (p y) eqn:Hy; [|destruct (q y); simpl; lia].
  rewrite (H y) by (left || done). simpl. lia.
Qed.

Lemma length_filter_lt {A} (p q : A -> bool) l z :
  (forall x, x ∈ l -> p x = true -> q x = true) -> z ∈ l -> q z = true -> p z = false ->
  (length (List.filter p l) < length (List.filter q l))%nat.
Proof.
  intros H (l1 & l2 & ->)%list_elem_of_split Hq Hp.
  setoid_rewrite elem_of_app in H. setoid_rewrite elem_of_cons in H.
  rewrite !List.filter_app, !length_app. simpl. rewrite Hq, Hp. simpl.
  assert (length (List.filter p l1) <= length (List.filter q l1))%nat
    by (apply length_filter_le; auto).
  assert (length (List.filter p l2) <= length (List.filter q l2))%nat
    by (apply length_filter_le; auto).
  lia.
Qed.
