(* ===== verification/GoStd.v ===== *)
(** * Go's standard library

    The parts of Go's [strings], [strconv], [sort] and [unicode] packages the
    modelled code uses. A Go [string] is a byte sequence, modelled as a Rocq
    [string] (a list of 8-bit [ascii]). *)
From S2P Require Import Prelude.

Local Open Scope Z_scope.

(** ** Bytes *)

Definition byte_in (lo hi c : ascii) : bool :=
  ((N_of_ascii lo <=? N_of_ascii c) && (N_of_ascii c <=? N_of_ascii hi))%N.

Definition is_digit (c : ascii) : bool := byte_in "0" "9" c.

Definition is_lower (c : ascii) : bool := byte_in "a" "z" c.

Definition is_upper (c : ascii) : bool := byte_in "A" "Z" c.

(** [utf8.RuneSelf]: bytes below it are single-byte runes. *)
Definition is_ascii_byte (c : ascii) : bool := (N_of_ascii c <? 128)%N.

Definition digit_val (c : ascii) : Z := Z.of_N (N_of_ascii c) - 48.

Definition digit_char (d : Z) : ascii := ascii_of_N (Z.to_N (d + 48)).

Fixpoint str_forallb (p : ascii -> bool) (s : string) : bool :=
  match s with
  | EmptyString => true
  | String c s => p c && str_forallb p s
  end.

(** ** [strings.TrimSpace]

    White space is Unicode's: six ASCII bytes, U+0085 and U+00A0 in two bytes,
    and the three-byte U+1680, U+2000..U+200A, U+2028, U+2029, U+202F, U+205F,
    U+3000. A rune is white space exactly when its bytes are one of these
    encodings, since UTF-8 encodings are unique. *)
Definition space1 (c : ascii) : bool :=
  byte_in "009" "013" c || Ascii.eqb c " ".

Definition space2 (a b : ascii) : bool :=
  Ascii.eqb a "194" && (Ascii.eqb b "133" || Ascii.eqb b "160").

Definition space3 (a b c : ascii) : bool :=
  (Ascii.eqb a "225" && Ascii.eqb b "154" && Ascii.eqb c "128")
  || (Ascii.eqb a "226" && Ascii.eqb b "128"
        && (byte_in "128" "138" c || Ascii.eqb c "168" || Ascii.eqb c "169" || Ascii.eqb c "175"))
  || (Ascii.eqb a "226" && Ascii.eqb b "129" && Ascii.eqb c "159")
  || (Ascii.eqb a "227" && Ascii.eqb b "128" && Ascii.eqb c "128").

Fixpoint trim_left (s : string) : string :=
  match s with
  | String a s1 =>
      if space1 a then trim_left s1 else
      match s1 with
      | String b s2 =>
          if space2 a b then trim_left s2 else
          match s2 with
          | String c s3 => if space3 a b c then trim_left s3 else s
          | EmptyString => s
          end
      | EmptyString => s
      end
  | EmptyString => s
  end.

(** [trim_left] on the reversed string: the encodings are read backwards. *)
Fixpoint trim_left_rev (s : string) : string :=
  match s with
  | String a s1 =>
      if space1 a then trim_left_rev s1 else
      match s1 with
      | String b s2 =>
          if space2 b a then trim_left_rev s2 else
          match s2 with
          | String c s3 => if space3 c b a then trim_left_rev s3 else s
          | EmptyString => s
          end
      | EmptyString => s
      end
  | EmptyString => s
  end.

Definition TrimSpace (s : string) : string :=
  String.rev (trim_left_rev (String.rev (trim_left s))).

(** ** Splitting and joining on a one-byte separator *)

(** [strings.Split(s, sep)]: always at least one element. *)
Fixpoint Split (sep : ascii) (s : string) : list string :=
  match s with
  | EmptyString => [""]
  | String c s =>
      if Ascii.eqb c sep then "" :: Split sep s
      else match Split sep s with
           | p :: ps => String c p :: ps
           | [] => [String c ""]
           end
  end.

(** [strings.Cut(s, sep)]: the text before the first [sep], and the text after
    it when there is one. *)
Fixpoint Cut (sep : ascii) (s : string) : string * option string :=
  match s with
  | EmptyString => ("", None)
  | String c s =>
      if Ascii.eqb c sep then ("", Some s)
      else let '(before, after) := Cut sep s in (String c before, after)
  end.

(** [strings.SplitN(s, sep, 2)]. *)
Definition SplitN2 (sep : ascii) (s : string) : list string :=
  match Cut sep s with
  | (before, Some after) => [before; after]
  | (before, None) => [before]
  end.

(** [strings.Contains(s, sub)]. *)
Fixpoint StrContains (s sub : string) : bool :=
  String.prefix sub s || match s with EmptyString => false | String _ s => StrContains s sub end.

(** [strings.Join(parts, sep)]. *)
Fixpoint Join (sep : string) (parts : list string) : string :=
  match parts with
  | [] => ""
  | [p] => p
  | p :: ps => p +:+ sep +:+ Join sep ps
  end.

(** [strings.ReplaceAll(s, from, to)] for one-byte [from] and [to]. *)
Fixpoint ReplaceByte (from to : ascii) (s : string) : string :=
  match s with
  | EmptyString => ""
  | String c s => String (if Ascii.eqb c from then to else c) (ReplaceByte from to s)
  end.

(** ** [strings.ToLower] *)

Definition lower_byte (c : ascii) : ascii :=
  if is_upper c then ascii_of_N (N_of_ascii c + 32) else c.

Fixpoint lower_ascii (s : string) : string :=
  match s with
  | EmptyString => ""
  | String c s => String (lower_byte c) (lower_ascii s)
  end.

(** ** [strconv.ParseInt(s, 10, 64)] and [strconv.FormatInt(n, 10)] *)

Fixpoint parse_digits (acc : Z) (s : string) : option Z :=
  match s with
  | EmptyString => Some acc
  | String c s => if is_digit c then parse_digits (acc * 10 + digit_val c) s else None
  end.

(** An unsigned decimal: at least one digit, digits only. *)
Definition parse_decimal (s : string) : option Z :=
  match s with
  | EmptyString => None
  | _ => parse_digits 0 s
  end.

(** The syntax and the range error are not told apart. *)
Definition ParseInt (s : string) : option Z :=
  let '(sign, digits) :=
    match s with
    | String "-" s' => (-1, s')
    | String "+" s' => (1, s')
    | _ => (1, s)
    end in
  match parse_decimal digits with
  | Some n => if decide (MinInt64 <= sign * n <= MaxInt64) then Some (sign * n) else None
  | None => None
  end.

Fixpoint format_digits (fuel : nat) (n : Z) (acc : string) : string :=
  match fuel with
  | O => acc
  | S fuel =>
      let acc := String (digit_char (n mod 10)) acc in
      if n <? 10 then acc else format_digits fuel (n / 10) acc
  end.

(** Twenty digits print every [int64]: 2^63 < 10^19. *)
Definition FormatInt (n : Z) : string :=
  if n <? 0 then String "-" (format_digits 20 (- n) "") else format_digits 20 n "".

(** ** [sort.Strings] *)

Definition sort_strings (l : list string) : list string := merge_sort String.le l.

(** ** [sort.Search(n, f)]: binary search for the first index where [f] holds

    Every iteration shrinks the interval, so [n] iterations are enough. *)
Fixpoint search_loop (fuel : nat) (f : nat -> bool) (i j : nat) : nat :=
  match fuel with
  | O => i
  | S fuel =>
      if (i <? j)%nat then
        let h := ((i + j) / 2)%nat in
        if f h then search_loop fuel f i h else search_loop fuel f (h + 1) j
      else i
  end.

Definition Search (n : nat) (f : nat -> bool) : nat := search_loop n f 0 n.

(** ** Lemmas *)

(** Facts about single bytes are checked on all 256 of them. *)
Definition all_bytes : list ascii := map ascii_of_nat (seq 0 256).

Lemma byte_check (p : ascii -> bool) : forallb p all_bytes = true -> forall c, p c = true.
Proof.
  rewrite forallb_forall. intros H c. apply H. unfold all_bytes.
  rewrite <- (ascii_nat_embedding c). apply in_map, in_seq.
  pose proof (nat_ascii_bounded c). lia.
Qed.

Lemma byte_impl (p q : ascii -> bool) :
  forallb (fun c => implb (p c) (q c)) all_bytes = true -> forall c, p c = true -> q c = true.
Proof.
  intros H c Hp. pose proof (byte_check _ H c) as Hc. simpl in Hc. by rewrite Hp in Hc.
Qed.

(** Close an implication between byte predicates by computation. *)
Ltac byte_solve := apply byte_impl; vm_compute; reflexivity.

Lemma str_forallb_app p s1 s2 :
  str_forallb p (s1 +:+ s2) = str_forallb p s1 && str_forallb p s2.
Proof.
  induction s1 as [|c s1 IH]; [done|].
  change (String c s1 +:+ s2) with (String c (s1 +:+ s2)). simpl.
  by rewrite IH, andb_assoc.
Qed.

Lemma str_forallb_impl p q s :
  (forall c, p c = true -> q c = true) -> str_forallb p s = true -> str_forallb q s = true.
Proof.
  intros Hpq. induction s as [|c s IH]; simpl; [done|].
  rewrite !andb_true_iff. naive_solver.
Qed.

Lemma app_cons_str c s1 s2 : String c s1 +:+ s2 = String c (s1 +:+ s2).
Proof. done. Qed.

Lemma app_nil_str s : s +:+ "" = s.
Proof. induction s as [|c s IH]; [done|]. by rewrite app_cons_str, IH. Qed.

Lemma app_assoc_str s1 s2 s3 : (s1 +:+ s2) +:+ s3 = s1 +:+ (s2 +:+ s3).
Proof. induction s1 as [|c s1 IH]; [done|]. by rewrite !app_cons_str, IH. Qed.

Lemma rev_app_spec s1 s2 : String.rev_app s1 s2 = String.rev s1 +:+ s2.
Proof.
  unfold String.rev. revert s2. induction s1 as [|c s1 IH]; intros s2; simpl; [done|].
  rewrite IH, (IH (String c "")), app_assoc_str. done.
Qed.

Lemma rev_cons_str c s : String.rev (String c s) = String.rev s +:+ String c "".
Proof. unfold String.rev at 1. simpl. apply rev_app_spec. Qed.

Lemma rev_snoc_str s c : String.rev (s +:+ String c "") = String c (String.rev s).
Proof.
  induction s as [|d s IH]; [done|].
  by rewrite app_cons_str, rev_cons_str, IH, rev_cons_str.
Qed.

Lemma rev_rev_str s : String.rev (String.rev s) = s.
Proof. induction s as [|c s IH]; [done|]. by rewrite rev_cons_str, rev_snoc_str, IH. Qed.

(** *** Decimal round trip *)

Lemma digit_char_spec d : 0 <= d < 10 ->
  is_digit (digit_char d) = true /\ digit_val (digit_char d) = d.
Proof.
  intros H. assert (d = 0 \/ d = 1 \/ d = 2 \/ d = 3 \/ d = 4 \/ d = 5 \/ d = 6 \/ d = 7
    \/ d = 8 \/ d = 9) as Hd by lia.
  repeat destruct Hd as [-> | Hd]; try subst d; split; reflexivity.
Qed.

Lemma parse_format_acc fuel n acc : (0 < fuel)%nat -> 0 <= n < 10 ^ Z.of_nat fuel ->
  parse_digits 0 (format_digits fuel n acc) = parse_digits n acc.
Proof.
  revert n acc. induction fuel as [|fuel IH]; intros n acc Hf Hn; [lia|].
  pose proof (Z.mod_pos_bound n 10 ltac:(lia)) as Hm.
  destruct (digit_char_spec (n mod 10) Hm) as [Hd Hv].
  pose proof (Z.div_mod n 10 ltac:(lia)) as Hdm.
  cbn [format_digits]. destruct (n <? 10) eqn:Hlt; zify_bool.
  - cbn [parse_digits]. rewrite Hd, Hv. f_equal. rewrite Z.mod_small; lia.
  - assert (0 <= n / 10 < 10 ^ Z.of_nat fuel) as Hq.
    { rewrite Nat2Z.inj_succ, Z.pow_succ_r in Hn by lia.
      split; [apply Z.div_pos; lia|]. apply Z.div_lt_upper_bound; lia. }
    rewrite IH; [|destruct fuel; [simpl in Hq; lia|lia]|done].
    cbn [parse_digits]. rewrite Hd, Hv. f_equal. lia.
Qed.

Lemma format_digits_shape fuel n acc : (0 < fuel)%nat -> 0 <= n ->
  str_forallb is_digit acc = true ->
  str_forallb is_digit (format_digits fuel n acc) = true /\ format_digits fuel n acc <> "".
Proof.
  revert n acc. induction fuel as [|fuel IH]; intros n acc Hf Hn Hacc; [lia|].
  destruct (digit_char_spec (n mod 10) (Z.mod_pos_bound n 10 ltac:(lia))) as [Hd _].
  assert (str_forallb is_digit (String (digit_char (n mod 10)) acc) = true) as Hacc'.
  { cbn [str_forallb]. by rewrite Hd. }
  cbn [format_digits]. destruct (n <? 10); [done|].
  destruct fuel as [|fuel]; [done|].
  apply IH; [lia|by apply Z.div_pos; lia|done].
Qed.

Lemma FormatInt_nonneg n : 0 <= n -> FormatInt n = format_digits 20 n "".
Proof. intros H. unfold FormatInt. by rewrite (proj2 (Z.ltb_ge n 0) H). Qed.

Lemma FormatInt_digits n : 0 <= n ->
  str_forallb is_digit (FormatInt n) = true /\ FormatInt n <> "".
Proof. intros H. rewrite FormatInt_nonneg by done. apply format_digits_shape; [lia|done..]. Qed.

Lemma parse_decimal_digits s : s <> "" -> parse_decimal s = parse_digits 0 s.
Proof. by destruct s. Qed.

Lemma parse_decimal_format n : 0 <= n < 10 ^ 20 ->
  parse_decimal (format_digits 20 n "") = Some n.
Proof.
  intros Hn. rewrite parse_decimal_digits.
  - rewrite parse_format_acc by (simpl; lia). done.
  - apply format_digits_shape; [lia|lia|done].
Qed.

(** A digits-only text has no sign to strip. *)
Lemma ParseInt_unsigned s : str_forallb is_digit s = true ->
  ParseInt s = match parse_decimal s with
               | Some n => if decide (MinInt64 <= n <= MaxInt64) then Some n else None
               | None => None
               end.
Proof.
  intros Hs. unfold ParseInt.
  assert ((match s with
           | String "-" s' => (-1, s') | String "+" s' => (1, s') | _ => (1, s)
           end) = (1, s)) as ->.
  { destruct s as [|c s]; [done|]. simpl in Hs. apply andb_true_iff in Hs as [Hc _].
    destruct c as [[][][][][][][][]]; try done. }
  destruct (parse_decimal s) as [n|]; [|done]. by rewrite Z.mul_1_l.
Qed.

Lemma ParseInt_FormatInt_nonneg n : 0 <= n <= MaxInt64 -> ParseInt (FormatInt n) = Some n.
Proof.
  intros Hn. unfold MaxInt64 in Hn.
  rewrite ParseInt_unsigned by (apply FormatInt_digits; lia).
  rewrite FormatInt_nonneg, parse_decimal_format by lia.
  rewrite decide_True; [done|]. unfold MinInt64, MaxInt64; lia.
Qed.

(** *** Splitting *)

(** No byte of [s] is [c]. *)
Definition lacks (c : ascii) (s : string) : bool :=
  str_forallb (fun d => negb (Ascii.eqb d c)) s.

Lemma lacks_app c s1 s2 : lacks c (s1 +:+ s2) = lacks c s1 && lacks c s2.
Proof. apply str_forallb_app. Qed.

Lemma lacks_impl p c s : p c = false -> str_forallb p s = true -> lacks c s = true.
Proof.
  intros Hp. apply str_forallb_impl. intros d Hd.
  destruct (Ascii.eqb_spec d c); [congruence|done].
Qed.

Lemma Split_not_nil c s : Split c s <> [].
Proof. destruct s; simpl; [done|]. by split_cases. Qed.

Lemma Split_lacks c s : lacks c s = true -> Split c s = [s].
Proof.
  induction s as [|d s IH]; [done|]. unfold lacks in *; cbn [str_forallb Split].
  rewrite andb_true_iff, negb_true_iff. intros [-> Hs]. by rewrite IH.
Qed.

Lemma Split_cons c p s : lacks c p = true ->
  Split c (p +:+ String c s) = p :: Split c s.
Proof.
  induction p as [|d p IH].
  - intros _. change ("" +:+ String c s) with (String c s). cbn [Split].
    by rewrite Ascii.eqb_refl.
  - unfold lacks in *; cbn [str_forallb]. rewrite andb_true_iff, negb_true_iff.
    intros [Hd Hp]. rewrite app_cons_str. cbn [Split]. by rewrite Hd, IH.
Qed.

(** [strings.Split] inverts [strings.Join] on separator-free parts. *)
Lemma Split_Join c ps : ps <> [] -> Forall (fun p => lacks c p = true) ps ->
  Split c (Join (String c "") ps) = ps.
Proof.
  intros Hne Hall. induction Hall as [|p ps Hp Hps IH]; [done|].
  destruct ps as [|q ps]; [by apply Split_lacks|].
  change (Join (String c "") (p :: q :: ps))
    with (p +:+ String c "" +:+ Join (String c "") (q :: ps)).
  change (String c "" +:+ Join (String c "") (q :: ps))
    with (String c (Join (String c "") (q :: ps))).
  rewrite Split_cons by done. by rewrite IH.
Qed.

Lemma Cut_found c p s : lacks c p = true -> Cut c (p +:+ String c s) = (p, Some s).
Proof.
  induction p as [|d p IH].
  - intros _. change ("" +:+ String c s) with (String c s). cbn [Cut].
    by rewrite Ascii.eqb_refl.
  - unfold lacks in *; cbn [str_forallb]. rewrite andb_true_iff, negb_true_iff.
    intros [Hd Hp]. rewrite app_cons_str. cbn [Cut]. by rewrite Hd, IH.
Qed.

Lemma Cut_absent c s : lacks c s = true -> Cut c s = (s, None).
Proof.
  induction s as [|d s IH]; [done|]. unfold lacks in *; cbn [str_forallb Cut].
  rewrite andb_true_iff, negb_true_iff. intros [-> Hs]. by rewrite IH.
Qed.

Lemma ReplaceByte_lacks a b s : lacks a s = true -> ReplaceByte a b s = s.
Proof.
  induction s as [|d s IH]; [done|]. unfold lacks in *; cbn [str_forallb ReplaceByte].
  rewrite andb_true_iff, negb_true_iff. intros [-> Hs]. by rewrite IH.
Qed.

(** *** Trimming *)

(** A byte that can neither be nor begin nor end a white-space encoding. *)
Definition solid (c : ascii) : bool := is_ascii_byte c && negb (space1 c).

Lemma solid_not_space c : solid c = true ->
  space1 c = false /\ (forall b, space2 c b = false) /\ (forall b, space2 b c = false)
  /\ (forall b d, space3 c b d = false) /\ (forall b d, space3 b d c = false).
Proof.
  intros H.
  assert (Hne : forall d, solid d = false -> Ascii.eqb c d = false).
  { intros d Hd. destruct (Ascii.eqb_spec c d); [congruence|done]. }
  assert (byte_in "128" "138" c = false) as Hr.
  { apply negb_true_iff. revert c H Hne. intros c H _. revert c H.
    apply (byte_impl solid (fun c => negb (byte_in "128" "138" c))). vm_compute. reflexivity. }
  split; [by apply andb_true_iff in H as [_ ?%negb_true_iff]|].
  unfold space2, space3. split; [intros b; by rewrite Hne|].
  split; [intros b; by rewrite !(Hne "133"%char), !(Hne "160"%char), andb_false_r|].
  split; intros b d; rewrite ?Hr, !Hne by reflexivity; by rewrite ?andb_false_r.
Qed.

Lemma trim_left_solid c s : solid c = true -> trim_left (String c s) = String c s.
Proof.
  intros (H1 & H2 & _ & H3 & _)%solid_not_space. simpl. rewrite H1.
  destruct s as [|b [|d s]]; simpl; rewrite ?H2, ?H3; done.
Qed.

Lemma trim_left_rev_solid c s : solid c = true -> trim_left_rev (String c s) = String c s.
Proof.
  intros (H1 & _ & H2 & _ & H3)%solid_not_space. simpl. rewrite H1.
  destruct s as [|b [|d s]]; simpl; rewrite ?H2, ?H3; done.
Qed.

(** A text whose first and last byte are solid is already trimmed. *)
Lemma TrimSpace_id c s d t : solid c = true -> solid d = true ->
  String c s = t +:+ String d "" -> TrimSpace (String c s) = String c s.
Proof.
  intros Hc Hd Heq. unfold TrimSpace. rewrite trim_left_solid by done.
  rewrite Heq, rev_snoc_str, trim_left_rev_solid by done.
  rewrite <- rev_snoc_str. apply rev_rev_str.
Qed.

Lemma snoc_str c s : exists t d, String c s = t +:+ String d "".
Proof.
  revert c. induction s as [|d s IH]; intros c; [by exists "", c|].
  destruct (IH d) as (t & e & ->). by exists (String c t), e.
Qed.

(** A non-empty text of solid bytes is already trimmed. *)
Lemma TrimSpace_solid s : str_forallb solid s = true -> TrimSpace s = s.
Proof.
  destruct s as [|c s]; [done|]. intros Hs. destruct (snoc_str c s) as (t & d & Heq).
  assert (solid c = true) by (simpl in Hs; apply andb_true_iff in Hs; tauto).
  assert (solid d = true).
  { rewrite Heq, str_forallb_app in Hs. simpl in Hs.
    rewrite !andb_true_iff in Hs. tauto. }
  by eapply TrimSpace_id.
Qed.

Lemma is_digit_solid c : is_digit c = true -> solid c = true.
Proof. revert c. byte_solve. Qed.

Lemma is_digit_neq c d : is_digit c = true -> is_digit d = false -> Ascii.eqb c d = false.
Proof. intros. destruct (Ascii.eqb_spec c d); [congruence|done]. Qed.

#[export] Hint Resolve is_digit_solid : go_list.

(** *** Binary search *)

Lemma search_loop_spec fuel f i j n :
  (i <= j <= n)%nat -> (j - i <= fuel)%nat ->
  (forall a b, (a <= b < n)%nat -> f a = true -> f b = true) ->
  (forall k, (k < i)%nat -> f k = false) -> (forall k, (j <= k < n)%nat -> f k = true) ->
  (search_loop fuel f i j <= n)%nat
  /\ (forall k, (k < search_loop fuel f i j)%nat -> f k = false)
  /\ (forall k, (search_loop fuel f i j <= k < n)%nat -> f k = true).
Proof.
  revert i j. induction fuel as [|fuel IH]; intros i j Hij Hf Hmono Hlo Hhi; cbn [search_loop].
  - split; [lia|]. split; [done|]. intros k Hk. apply Hhi. lia.
  - destruct (Nat.ltb_spec i j) as [Hlt|Hge]; cycle 1.
    { split; [lia|]. split; [done|]. intros k Hk. apply Hhi. lia. }
    pose proof (Nat.div_lt_upper_bound (i + j) 2 j ltac:(lia) ltac:(lia)) as Hhj.
    pose proof (Nat.div_le_lower_bound (i + j) 2 i ltac:(lia) ltac:(lia)) as Hih.
    destruct (f ((i + j) / 2)%nat) eqn:Hm; apply IH; try lia; try done.
    + intros k Hk. apply (Hmono ((i + j) / 2)%nat); [lia|done].
    + intros k Hk. destruct (f k) eqn:Hfk; [|done].
      rewrite (Hmono k ((i + j) / 2)%nat) in Hm; [done|lia|done].
Qed.

(** [Search] on a predicate that stays true once true: the first true index. *)
Lemma Search_spec n f :
  (forall a b, (a <= b < n)%nat -> f a = true -> f b = true) ->
  (Search n f <= n)%nat
  /\ (forall k, (k < Search n f)%nat -> f k = false)
  /\ (forall k, (Search n f <= k < n)%nat -> f k = true).
Proof. intros Hmono. apply (search_loop_spec n f 0 n n); [lia|lia|done|intros k Hk; lia|intros k Hk; lia]. Qed.

Lemma Search_unique n f i :
  (forall a b, (a <= b < n)%nat -> f a = true -> f b = true) ->
  (i <= n)%nat -> (forall k, (k < i)%nat -> f k = false) ->
  (i = n \/ f i = true) -> Search n f = i.
Proof.
  intros Hmono Hi Hlo Hat. destruct (Search_spec n f Hmono) as (H1 & H2 & H3).
  destruct (Nat.lt_trichotomy (Search n f) i) as [Hlt|[|Hgt]]; [|done|].
  - specialize (Hlo _ Hlt). specialize (H3 (Search n f) ltac:(lia)). congruence.
  - destruct Hat as [->|Hat]; [lia|]. rewrite (H2 i Hgt) in Hat. done.
Qed.
