(* ===== verification/SiteState.v ===== *)
(** * The site state machine and the cross-site decision

    [internal/state/machine.go] and [internal/state/matrix.go]: what one poll
    cycle of observations asks the operator to do. *)
From S2P Require Import Prelude GoStd.

(** ** Per-site state machine (machine.go) *)

Module Machine.

Inductive SiteState : Type :=
| StateUnknown
| StateWritable
| StateReadOnly
| StateUnreachable.

#[export] Instance SiteState_eq_dec : EqDecision SiteState.
Proof. solve_decision. Defined.

Definition SiteState_String (s : SiteState) : string :=
  match s with
  | StateWritable => "writable"
  | StateReadOnly => "read-only"
  | StateUnreachable => "unreachable"
  | StateUnknown => "unknown"
  end.

(** [nil]: no change; [true]: apply the taint; [false]: remove it. *)
Record Action : Type := { Taint : option bool }.

Definition EvalPerSiteTransition (prev curr : SiteState) : Action :=
  if decide (prev = curr) then {| Taint := None |}
  else match curr with
       | StateWritable => {| Taint := Some false |}
       | StateReadOnly | StateUnreachable =>
           if decide (prev = StateWritable \/ prev = StateUnknown)
           then {| Taint := Some true |} else {| Taint := None |}
       | StateUnknown => {| Taint := None |}
       end.

(** The node taint after the action, given the taint before it. *)
Definition apply_taint (tainted : option bool) (a : Action) : option bool :=
  match Taint a with
  | Some b => Some b
  | None => tainted
  end.

(** A site's history: its current state and the taint last written. *)
Fixpoint run_site (cur : SiteState) (tainted : option bool) (next : list SiteState)
  : SiteState * option bool :=
  match next with
  | [] => (cur, tainted)
  | s :: next => run_site s (apply_taint tainted (EvalPerSiteTransition cur s)) next
  end.

End Machine.

(** ** Cross-site evaluation (matrix.go) *)

Module Matrix.

Export Machine.

Definition SiteRole := string.

Definition SiteRolePrimaryCandidate : SiteRole := "primary-candidate".

Definition SiteRoleDROnly : SiteRole := "dr-only".

Definition SiteRoleReadOnly : SiteRole := "read-only".

Definition PromotionBlockedRotation : string := "Rotation".

Definition PromotionBlockedPendingReclone : string := "PendingReclone".

Record SiteObservation : Type := {
  Name : string;
  Role : SiteRole;
  State : SiteState;
  PromotionBlocked : bool;
  PromotionBlockedReason : string;
  PendingWritable : bool;
  ClassificationOverdue : bool;
}.

Record CrossSiteAction : Type := {
  FenceSites : list string;
  PromotionCandidates : list string;
  SplitBrain : bool;
  Alert : string;
  Reason : string;
}.

Definition siteNames (s : list SiteObservation) : list string := map Name s.

Definition is_candidate (o : SiteObservation) : bool :=
  bool_decide (Role o = SiteRolePrimaryCandidate).

(** A primary-candidate the ranking does not leave out. *)
Definition promotable (o : SiteObservation) : bool :=
  is_candidate o && negb (PromotionBlocked o).

(** The two loops of [RankPromotionCandidates] share their [out] and [seen]. *)
Definition rank_state : Type := list string * gset string.

Definition rank_push (st : rank_state) (name : string) : rank_state :=
  let '(out, seen) := st in
  if decide (name ∈ seen) then st else (out ++ [name], {[name]} ∪ seen).

Definition rank_priority (obs : list SiteObservation) (st : rank_state) (name : string) : rank_state :=
  if existsb (fun c => bool_decide (Name c = name) && promotable c) obs
  then rank_push st name else st.

Definition rank_declared (st : rank_state) (c : SiteObservation) : rank_state :=
  if promotable c then rank_push st (Name c) else st.

Definition RankPromotionCandidates (obs : list SiteObservation) (sitePriorities : list string)
  : list string :=
  let st := fold_left (rank_priority obs) sitePriorities ([], ∅) in
  fst (fold_left rank_declared obs st).

Definition blockedCandidateNames (obs : list SiteObservation) : list string * list string :=
  fold_left (fun '(rotating, pendingReclone) c =>
    if negb (is_candidate c) || negb (PromotionBlocked c) then (rotating, pendingReclone)
    else if decide (PromotionBlockedReason c = PromotionBlockedPendingReclone)
    then (rotating, pendingReclone ++ [Name c])
    else (rotating ++ [Name c], pendingReclone)) obs ([], []).

(** The accumulators of [EvalCrossSite]'s classification loop. *)
Record tally : Type := {
  fence : list string;
  writable : list SiteObservation;
  readOnly : list SiteObservation;
  unreachable : list SiteObservation;
  unclassified : list SiteObservation;
  overdue : list SiteObservation;
  pending : list SiteObservation;
  coreCount : nat;
}.

Definition tally0 : tally :=
  {| fence := []; writable := []; readOnly := []; unreachable := []; unclassified := [];
     overdue := []; pending := []; coreCount := 0 |}.

Definition is_reader (o : SiteObservation) : bool := bool_decide (Role o = SiteRoleReadOnly).

(** One iteration: counts the core site, then files the observation. *)
Definition classify (t : tally) (obs : SiteObservation) : tally :=
  let core := if is_reader obs then coreCount t else S (coreCount t) in
  let t := {| fence := fence t; writable := writable t; readOnly := readOnly t;
              unreachable := unreachable t; unclassified := unclassified t;
              overdue := overdue t; pending := pending t; coreCount := core |} in
  if bool_decide (State obs = StateWritable) && negb (is_candidate obs) then
    {| fence := fence t ++ [Name obs]; writable := writable t; readOnly := readOnly t;
       unreachable := unreachable t; unclassified := unclassified t; overdue := overdue t;
       pending := pending t; coreCount := core |}
  else if is_reader obs then t
  else match State obs with
  | StateWritable =>
      {| fence := fence t; writable := writable t ++ [obs]; readOnly := readOnly t;
         unreachable := unreachable t; unclassified := unclassified t; overdue := overdue t;
         pending := pending t; coreCount := core |}
  | StateReadOnly =>
      {| fence := fence t; writable := writable t; readOnly := readOnly t ++ [obs];
         unreachable := unreachable t; unclassified := unclassified t; overdue := overdue t;
         pending := pending t; coreCount := core |}
  | StateUnreachable =>
      {| fence := fence t; writable := writable t; readOnly := readOnly t;
         unreachable := unreachable t ++ [obs]; unclassified := unclassified t;
         overdue := overdue t; pending := pending t; coreCount := core |}
  | StateUnknown =>
      if is_candidate obs then
        {| fence := fence t; writable := writable t; readOnly := readOnly t;
           unreachable := unreachable t;
           unclassified := if ClassificationOverdue obs then unclassified t
                           else unclassified t ++ [obs];
           overdue := if ClassificationOverdue obs then overdue t ++ [obs] else overdue t;
           pending := if PendingWritable obs then pending t ++ [obs] else pending t;
           coreCount := core |}
      else t
  end.

Definition classify_all (observations : list SiteObservation) : tally :=
  fold_left classify observations tally0.

Definition fence_alert (t : tally) : string :=
  "writable non-promotable site requires fencing (" +:+ Join ", " (fence t) +:+ ")".

Definition split_brain_alert (names : list string) : string :=
  "SPLIT BRAIN: " +:+ FormatInt (Z.of_nat (length names)) +:+ " sites are writable ("
    +:+ Join ", " names +:+ ")".

Definition refusals (rotating pendingReclone : list string) : list string :=
  (if nonempty rotating then
     ["refusing to promote " +:+ Join ", " rotating
        +:+ " (UnsealReason=Rotation); finish the rotation before this site can be promoted"]
   else [])
  ++ (if nonempty pendingReclone then
     ["refusing to promote " +:+ Join ", " pendingReclone
        +:+ " (pending post-restore reclone; holds pre-restore data); "
        +:+ "bring the primary back, or remove status.restoreReclones (kubectl patch --subresource=status) to accept that data"]
   else []).

(** The action of a row of the decision: nothing to fence or to promote. *)
Definition report (alert reason : string) : CrossSiteAction :=
  {| FenceSites := []; PromotionCandidates := []; SplitBrain := false;
     Alert := alert; Reason := reason |}.

(** The tail of the no-writable row: no promotion is warranted. *)
Definition no_primary (t : tally) : CrossSiteAction :=
  if nonempty (unclassified t) then report "" "Initializing"
  else if nonempty (overdue t) then
    report ("NO PRIMARY: no writable site available; " +:+ Join ", " (siteNames (overdue t))
              +:+ " not classified (probes alternate between answers and errors)") "NoPrimary"
  else if (length (readOnly t) =? 2)%nat && (length (unreachable t) =? 0)%nat then
    report "NO PRIMARY: both sites are read-only" "NoPrimary"
  else report "NO PRIMARY: no writable site available" "NoPrimary".

(** The no-writable row. *)
Definition no_writable (t : tally) (sitePriorities : list string) : CrossSiteAction :=
  if negb (nonempty (pending t)) && nonempty (unreachable t) && nonempty (readOnly t) then
    let candidates := RankPromotionCandidates (readOnly t) sitePriorities in
    if nonempty candidates then
      {| FenceSites := []; PromotionCandidates := candidates; SplitBrain := false;
         Alert := ""; Reason := "Degraded" |}
    else
      let '(rotating, pendingReclone) := blockedCandidateNames (readOnly t) in
      let r := refusals rotating pendingReclone in
      if nonempty r then report ("NO PRIMARY: " +:+ Join "; " r) "NoPrimary"
      else no_primary t
  else no_primary t.

Definition decide_action (t : tally) (sitePriorities : list string) : CrossSiteAction :=
  if (coreCount t =? 0)%nat then
    {| FenceSites := fence t; PromotionCandidates := []; SplitBrain := false;
       Alert := if nonempty (fence t) then fence_alert t else "";
       Reason := if nonempty (fence t) then "Degraded" else "Healthy" |}
  else if nonempty (fence t) then
    {| FenceSites := fence t; PromotionCandidates := []; SplitBrain := false;
       Alert := fence_alert t; Reason := "Degraded" |}
  else if (length (unreachable t) =? coreCount t)%nat then
    report "TOTAL LOSS: all sites are unreachable" "TotalLoss"
  else if (1 <? length (writable t))%nat then
    {| FenceSites := []; PromotionCandidates := []; SplitBrain := true;
       Alert := split_brain_alert (siteNames (writable t)); Reason := "SplitBrain" |}
  else if (1 <? length (writable t) + length (pending t))%nat then
    report (split_brain_alert (siteNames (writable t) ++ siteNames (pending t)) +:+ "; "
              +:+ Join ", " (siteNames (pending t)) +:+ " not yet confirmed") "SplitBrain"
  else match writable t with
  | [] => no_writable t sitePriorities
  | w :: _ =>
      if nonempty (unreachable t) then
        report (Join ", " (siteNames (unreachable t)) +:+ " unreachable while "
                  +:+ Name w +:+ " is primary") "Degraded"
      else report "" "Healthy"
  end.

Definition EvalCrossSite (observations : list SiteObservation) (sitePriorities : list string)
  : CrossSiteAction :=
  decide_action (classify_all observations) sitePriorities.

(** The winner loop: the earliest priority naming a writable primary-candidate;
    an empty name never stops it. *)
Fixpoint split_brain_winner (writable : list SiteObservation) (sitePriorities : list string)
  : string :=
  match sitePriorities with
  | [] => ""
  | name :: rest =>
      if existsb (fun c => bool_decide (Name c = name) && is_candidate c) writable
         && negb (bool_decide (name = ""))
      then name else split_brain_winner writable rest
  end.

Definition ResolveSplitBrain (writable : list SiteObservation) (sitePriorities : list string)
  : string * list string :=
  match sitePriorities with
  | [] => ("", [])
  | _ =>
      let winner := split_brain_winner writable sitePriorities in
      if decide (winner = "") then ("", [])
      else (winner, map Name (List.filter (fun o => negb (bool_decide (Name o = winner))) writable))
  end.

(** ** Specification vocabulary *)

(** A configured core site: everything but a serving reader. *)
Definition core (o : SiteObservation) : bool := negb (is_reader o).

Definition in_state (s : SiteState) (o : SiteObservation) : bool := bool_decide (State o = s).

(** A writable site that is not a primary-candidate. *)
Definition anomaly (o : SiteObservation) : bool :=
  in_state StateWritable o && negb (is_candidate o).

Definition primary_like (o : SiteObservation) : bool :=
  in_state StateWritable o && is_candidate o.

Definition unknown_candidate (o : SiteObservation) : bool :=
  in_state StateUnknown o && is_candidate o.

(** Keep the first occurrence of every name not in [seen]. *)
Fixpoint dedup_from (seen : gset string) (l : list string) : list string :=
  match l with
  | [] => []
  | x :: l => if decide (x ∈ seen) then dedup_from seen l
              else x :: dedup_from ({[x]} ∪ seen) l
  end.

(** The reference ranking: the eligible priorities, then the eligible sites in
    declared order, each name once. *)
Definition rank_reference (obs : list SiteObservation) (sitePriorities : list string) : list string :=
  dedup_from ∅
    (List.filter (fun n => existsb (fun c => bool_decide (Name c = n) && promotable c) obs)
       sitePriorities
     ++ map Name (List.filter promotable obs)).

(** The write-side effect of fencing sites: they stop being writable. *)
Definition fence_observation (names : list string) (o : SiteObservation) : SiteObservation :=
  if decide (Name o ∈ names) then
    {| Name := Name o; Role := Role o; State := StateReadOnly;
       PromotionBlocked := PromotionBlocked o;
       PromotionBlockedReason := PromotionBlockedReason o;
       PendingWritable := PendingWritable o;
       ClassificationOverdue := ClassificationOverdue o |}
  else o.

End Matrix.

Import Matrix.

(** ** Lemmas *)

Lemma candidate_core o : is_candidate o = true -> core o = true.
Proof.
  unfold is_candidate, core, is_reader. intros H%bool_decide_eq_true. rewrite H. reflexivity.
Qed.

(** Every accumulator of the classification loop is a filter of the input. *)
Lemma classify_all_spec l :
  classify_all l =
  {| fence := map Name (List.filter anomaly l);
     writable := List.filter primary_like l;
     readOnly := List.filter (fun o => core o && in_state StateReadOnly o) l;
     unreachable := List.filter (fun o => core o && in_state StateUnreachable o) l;
     unclassified := List.filter (fun o => unknown_candidate o && negb (ClassificationOverdue o)) l;
     overdue := List.filter (fun o => unknown_candidate o && ClassificationOverdue o) l;
     pending := List.filter (fun o => unknown_candidate o && PendingWritable o) l;
     coreCount := length (List.filter core l) |}.
Proof.
  unfold classify_all. induction l as [|o l IH] using rev_ind; [done|].
  rewrite fold_left_app, IH, !filter_snoc_bool. cbn [fold_left].
  pose proof (candidate_core o) as Hc.
  unfold classify, anomaly, primary_like, unknown_candidate, in_state, core in *.
  destruct (is_candidate o) eqn:Ec, (is_reader o) eqn:Er;
    try (specialize (Hc eq_refl); discriminate); clear Hc;
    destruct (State o) eqn:Es; cbn; rewrite ?app_nil_r, ?map_app, ?length_app, ?Nat.add_1_r;
    try reflexivity;
    destruct (ClassificationOverdue o), (PendingWritable o); cbn; rewrite ?app_nil_r; reflexivity.
Qed.

Lemma rank_push_all names out seen :
  fst (fold_left rank_push names (out, seen)) = out ++ dedup_from seen names.
Proof.
  revert out seen. induction names as [|n names IH]; intros out seen; simpl.
  - by rewrite app_nil_r.
  - case_decide; rewrite IH; [done|]. by rewrite <- (assoc_L (++)).
Qed.

Lemma rank_reference_eq obs prio : RankPromotionCandidates obs prio = rank_reference obs prio.
Proof.
  unfold RankPromotionCandidates, rank_reference, rank_priority, rank_declared.
  rewrite !fold_left_if, <- fold_left_app, map_id. by rewrite rank_push_all.
Qed.

Lemma elem_of_dedup_from seen l n : n ∈ dedup_from seen l <-> n ∈ l /\ n ∉ seen.
Proof.
  revert seen. induction l as [|x l IH]; intros seen; simpl; [set_solver|].
  rewrite elem_of_cons. destruct (decide (n = x)) as [->|Hne].
  - case_decide; [rewrite IH|rewrite elem_of_cons]; naive_solver.
  - case_decide; rewrite ?elem_of_cons, IH, ?not_elem_of_union, ?not_elem_of_singleton; naive_solver.
Qed.

Lemma NoDup_dedup_from seen l : NoDup (dedup_from seen l).
Proof.
  revert seen. induction l as [|x l IH]; intros seen; simpl; [constructor|].
  case_decide; [apply IH|]. constructor; [|apply IH].
  rewrite elem_of_dedup_from, elem_of_union, elem_of_singleton. tauto.
Qed.

(** The ranking names exactly the promotable observations, once each. *)
Lemma elem_of_rank obs prio n :
  n ∈ RankPromotionCandidates obs prio <-> exists o, o ∈ obs /\ Name o = n /\ promotable o = true.
Proof.
  rewrite rank_reference_eq. unfold rank_reference.
  rewrite elem_of_dedup_from, elem_of_app, elem_of_filter_bool, elem_of_map, existsb_exists.
  setoid_rewrite elem_of_filter_bool. split.
  - intros [[(_ & c & Hc & Hn)|(o & -> & Ho & Hp)] _]; [|by exists o].
    apply andb_true_iff in Hn as [Hn%bool_decide_eq_true Hp].
    exists c. by rewrite list_elem_of_In.
  - intros (o & Ho & <- & Hp). split; [right; by exists o|apply not_elem_of_empty].
Qed.

Lemma NoDup_rank obs prio : NoDup (RankPromotionCandidates obs prio).
Proof. rewrite rank_reference_eq. apply NoDup_dedup_from. Qed.


Lemma elem_of_no_writable t prio n :
  n ∈ PromotionCandidates (no_writable t prio) <->
  pending t = [] /\ unreachable t <> [] /\ n ∈ RankPromotionCandidates (readOnly t) prio.
Proof.
  assert (forall a, n ∈ PromotionCandidates (no_primary a) <-> False) as Hnp.
  { intros a. unfold no_primary, report. split; [|done].
    repeat case_match; simpl; apply not_elem_of_nil. }
  assert (readOnly t = [] -> n ∉ RankPromotionCandidates (readOnly t) prio) as Hro.
  { intros ->. rewrite elem_of_rank. intros (o & Ho & _). by apply not_elem_of_nil in Ho. }
  unfold no_writable.
  destruct (pending t) eqn:Ep, (unreachable t) eqn:Eu; cbn [nonempty negb andb];
    try (rewrite Hnp; naive_solver).
  destruct (readOnly t) as [|r rs] eqn:Er; cbn [nonempty].
  { rewrite Hnp. naive_solver. }
  destruct (RankPromotionCandidates (r :: rs) prio) as [|c cs] eqn:Ec; cbn [nonempty].
  - rewrite elem_of_nil. destruct (blockedCandidateNames _). case_match; [|rewrite Hnp; naive_solver].
    unfold report; simpl. rewrite elem_of_nil. naive_solver.
  - cbn [PromotionCandidates]. naive_solver.
Qed.

(** The rows above the promotion row, as conditions on the tally. *)
Lemma elem_of_decide_action t prio n :
  n ∈ PromotionCandidates (decide_action t prio) <->
  coreCount t <> 0%nat /\ fence t = [] /\ length (unreachable t) <> coreCount t
  /\ writable t = [] /\ pending t = [] /\ unreachable t <> []
  /\ n ∈ RankPromotionCandidates (readOnly t) prio.
Proof.
  unfold decide_action, report.
  destruct (Nat.eqb_spec (coreCount t) 0); simpl; [rewrite elem_of_nil; tauto|].
  destruct (fence t) eqn:Ef; simpl; [|rewrite elem_of_nil; naive_solver].
  destruct (Nat.eqb_spec (length (unreachable t)) (coreCount t)); simpl;
    [rewrite elem_of_nil; tauto|].
  destruct (writable t) as [|w ws] eqn:Ew; simpl.
  - destruct (pending t) as [|q [|]] eqn:Eq; simpl;
      rewrite ?elem_of_no_writable, ?elem_of_nil, ?Eq; naive_solver.
  - repeat case_match; simpl; rewrite elem_of_nil; naive_solver.
Qed.

(** ** Properties *)

(** C23. A site is proposed for promotion exactly when it is an observed
    read-only primary-candidate whose promotion is not blocked, some core site
    is unreachable, no site at all is writable (a writable non-promotable site
    is fenced first), and no unclassified candidate has answered writable. *)
Theorem eval_promotes_iff obs prio n :
  n ∈ PromotionCandidates (EvalCrossSite obs prio) <->
  (exists o, o ∈ obs /\ Name o = n /\ promotable o = true /\ State o = StateReadOnly)
  /\ (forall o, o ∈ obs ->
        State o <> StateWritable /\ (unknown_candidate o && PendingWritable o)%bool = false)
  /\ (exists o, o ∈ obs /\ core o = true /\ State o = StateUnreachable).
Proof.
  unfold EvalCrossSite. rewrite elem_of_decide_action, classify_all_spec. cbn.
  rewrite elem_of_rank. setoid_rewrite elem_of_filter_bool. split.
  - intros (_ & Hf & _ & Hw & Hp & Hu & (o & [Ho Hs] & Hn & Hpr)).
    apply andb_true_iff in Hs as [_ Hs%bool_decide_eq_true].
    apply fmap_nil_inv in Hf. rewrite filter_nil_iff in Hw, Hp, Hf.
    split; [by exists o|]. split.
    + intros x Hx. split; [|by apply Hp]. intros Hst.
      specialize (Hf x Hx). specialize (Hw x Hx).
      unfold anomaly, primary_like, in_state in *. rewrite Hst in *.
      cbn in *. destruct (is_candidate x); done.
    + destruct (List.filter _ obs) as [|x xs] eqn:Ex in Hu; [done|].
      assert (x ∈ x :: xs) as Hx by left. rewrite <- Ex, elem_of_filter_bool in Hx.
      destruct Hx as [Hx [Hc Hst%bool_decide_eq_true]%andb_true_iff]. by exists x.
  - intros ((o & Ho & Hn & Hpr & Hs) & Hall & (u & Hu & Hcu & Hsu)).
    assert (core o = true) as Hco.
    { apply candidate_core. unfold promotable in Hpr. by apply andb_true_iff in Hpr as [? _]. }
    assert (length (List.filter (fun o => core o && in_state StateUnreachable o) obs)
            < length (List.filter core obs))%nat.
    { apply (length_filter_lt _ _ _ o); [|done|done|].
      - intros x _ [? _]%andb_true_iff. done.
      - unfold in_state. by rewrite Hs, Hco. }
    split; [lia|]. split.
    { rewrite (proj2 (filter_nil_iff anomaly obs)); [done|].
      intros x Hx. unfold anomaly, in_state. destruct (Hall x Hx) as [Hst _].
      by rewrite bool_decide_eq_false_2. }
    split; [lia|]. split.
    { apply filter_nil_iff. intros x Hx. unfold primary_like, in_state.
      destruct (Hall x Hx) as [Hst _]. by rewrite bool_decide_eq_false_2. }
    split; [apply filter_nil_iff; intros x Hx; apply (Hall x Hx)|]. split.
    { rewrite filter_nil_iff. intros Hnone. specialize (Hnone u Hu).
      unfold in_state in Hnone. by rewrite Hcu, Hsu in Hnone. }
    exists o. unfold in_state. by rewrite Hco, Hs.
Qed.

Lemma filter_perm {A} (p : A -> bool) (l l' : list A) :
  l ≡ₚ l' -> List.filter p l ≡ₚ List.filter p l'.
Proof.
  induction 1 as [|x l l' _ IH|x y l|l1 l2 l3 _ IH1 _ IH2]; simpl; [done|..].
  - destruct (p x); [by constructor|done].
  - destruct (p x), (p y); try done. constructor.
  - by etrans.
Qed.

Lemma rank_perm obs obs' prio :
  obs ≡ₚ obs' -> RankPromotionCandidates obs prio ≡ₚ RankPromotionCandidates obs' prio.
Proof.
  intros Hp. apply NoDup_Permutation; [apply NoDup_rank..|]. intros n.
  rewrite !elem_of_rank. by setoid_rewrite Hp.
Qed.

Lemma nonempty_perm {A} (l l' : list A) : l ≡ₚ l' -> nonempty l = nonempty l'.
Proof. intros Hp. by rewrite !nonempty_length, Hp. Qed.

Lemma blocked_spec l :
  blockedCandidateNames l =
  (map Name (List.filter (fun c => is_candidate c && PromotionBlocked c
      && negb (bool_decide (PromotionBlockedReason c = PromotionBlockedPendingReclone))) l),
   map Name (List.filter (fun c => is_candidate c && PromotionBlocked c
      && bool_decide (PromotionBlockedReason c = PromotionBlockedPendingReclone)) l)).
Proof.
  unfold blockedCandidateNames. induction l as [|o l IH] using rev_ind; [done|].
  rewrite fold_left_app, IH, !filter_snoc_bool, !map_app. cbn [fold_left].
  destruct (is_candidate o), (PromotionBlocked o); cbn; rewrite ?app_nil_r; try done.
  case_decide as Hd; [rewrite bool_decide_eq_true_2 by done|rewrite bool_decide_eq_false_2 by done];
    cbn; by rewrite ?app_nil_r.
Qed.

(** Two tallies with the same elements in another order. *)
Record tally_perm (t t' : tally) : Prop := {
  tp_fence : fence t ≡ₚ fence t';
  tp_writable : writable t ≡ₚ writable t';
  tp_readOnly : readOnly t ≡ₚ readOnly t';
  tp_unreachable : unreachable t ≡ₚ unreachable t';
  tp_unclassified : unclassified t ≡ₚ unclassified t';
  tp_overdue : overdue t ≡ₚ overdue t';
  tp_pending : pending t ≡ₚ pending t';
  tp_core : coreCount t = coreCount t';
}.

(** Two actions that differ only in the order their names are listed in. *)
Record action_perm (a a' : CrossSiteAction) : Prop := {
  ap_reason : Reason a = Reason a';
  ap_split : SplitBrain a = SplitBrain a';
  ap_fence : FenceSites a ≡ₚ FenceSites a';
  ap_candidates : PromotionCandidates a ≡ₚ PromotionCandidates a';
}.

Lemma no_primary_perm t t' : tally_perm t t' -> action_perm (no_primary t) (no_primary t').
Proof.
  intros []. unfold no_primary.
  rewrite (nonempty_perm _ _ tp_unclassified0), (nonempty_perm _ _ tp_overdue0),
    tp_readOnly0, tp_unreachable0.
  repeat case_match; done.
Qed.

Lemma no_writable_perm t t' prio :
  tally_perm t t' -> action_perm (no_writable t prio) (no_writable t' prio).
Proof.
  intros Ht. pose proof (no_primary_perm _ _ Ht) as Hnp. destruct Ht. unfold no_writable.
  rewrite (nonempty_perm _ _ tp_pending0), (nonempty_perm _ _ tp_unreachable0),
    (nonempty_perm _ _ tp_readOnly0).
  case_match; [|done].
  pose proof (rank_perm _ _ prio tp_readOnly0) as Hr. rewrite (nonempty_perm _ _ Hr).
  case_match; [done|]. rewrite !blocked_spec. unfold refusals.
  rewrite !(nonempty_perm (map Name (List.filter _ (readOnly t))) _
    (Permutation_map _ (filter_perm _ _ _ tp_readOnly0))).
  repeat case_match; done.
Qed.

Lemma decide_action_perm t t' prio :
  tally_perm t t' -> action_perm (decide_action t prio) (decide_action t' prio).
Proof.
  intros Ht. pose proof (no_writable_perm _ _ prio Ht) as Hnw. destruct Ht.
  unfold decide_action, report.
  rewrite (nonempty_perm _ _ tp_fence0), (nonempty_perm _ _ tp_unreachable0), tp_core0,
    (Permutation_length tp_unreachable0), (Permutation_length tp_writable0),
    (Permutation_length tp_pending0).
  destruct (coreCount t' =? 0)%nat; [by split|].
  destruct (nonempty (fence t')); [by split|].
  destruct (length (unreachable t') =? coreCount t')%nat; [by split|].
  destruct (1 <? length (writable t'))%nat; [by split|].
  destruct (1 <? length (writable t') + length (pending t'))%nat; [by split|].
  destruct (writable t) as [|w ws], (writable t') as [|w' ws'].
  - exact Hnw.
  - by apply Permutation_nil_cons in tp_writable0.
  - by symmetry in tp_writable0; apply Permutation_nil_cons in tp_writable0.
  - by case_match.
Qed.

Lemma classify_all_perm obs obs' : obs ≡ₚ obs' -> tally_perm (classify_all obs) (classify_all obs').
Proof.
  intros Hp. rewrite !classify_all_spec.
  split; cbn; try (by apply filter_perm).
  - by apply Permutation_map, filter_perm.
  - by rewrite (filter_perm core _ _ Hp).
Qed.

(** The decision does not depend on the order in which the sites were
    observed: the reason and the split-brain flag are the same, and the sites
    to fence and to promote are the same up to order. *)
Theorem eval_order_independent obs obs' prio :
  obs ≡ₚ obs' -> action_perm (EvalCrossSite obs prio) (EvalCrossSite obs' prio).
Proof. intros Hp. by apply decide_action_perm, classify_all_perm. Qed.

(** [RankPromotionCandidates] computes the reference order: the eligible
    priorities first, then the eligible sites as declared, each name once. *)
Theorem rank_refines_reference obs prio :
  RankPromotionCandidates obs prio = rank_reference obs prio.
Proof. apply rank_reference_eq. Qed.

Lemma split_brain_winner_spec w prio :
  let winner := split_brain_winner w prio in
  winner = "" \/
  exists before after, prio = before ++ winner :: after
    /\ (exists c, c ∈ w /\ Name c = winner /\ is_candidate c = true)
    /\ (forall n, n ∈ before -> n <> "" -> forall c, c ∈ w -> is_candidate c = true -> Name c <> n).
Proof.
  induction prio as [|n prio IH]; simpl; [by left|].
  destruct (existsb _ w) eqn:Ew; [destruct (bool_decide_reflect (n = "")) as [->|Hn]|]; simpl.
  - destruct IH as [|(b & a & Heq & Hc & Hb)]; [by left|right].
    exists ("" :: b), a. split; [simpl; by rewrite <- Heq|]. split; [done|].
    intros m [->|Hm]%elem_of_cons; [done|by apply Hb].
  - right. exists [], prio. split; [done|]. split.
    + apply existsb_exists in Ew as (c & Hc & Hcc).
      apply andb_true_iff in Hcc as [Hcn%bool_decide_eq_true Hcc].
      exists c. by rewrite list_elem_of_In.
    + intros m Hm. by apply not_elem_of_nil in Hm.
  - destruct IH as [|(b & a & Heq & Hc & Hb)]; [by left|right].
    exists (n :: b), a. split; [simpl; by rewrite <- Heq|]. split; [done|].
    intros m [->|Hm]%elem_of_cons; [|by apply Hb]. intros _ c Hcin Hcc Hcn.
    rewrite <- not_true_iff_false, existsb_exists in Ew. apply Ew.
    exists c. rewrite <- list_elem_of_In, Hcc, bool_decide_eq_true_2 by done. done.
Qed.

Lemma fence_observation_name names o : Name (fence_observation names o) = Name o.
Proof. unfold fence_observation. by case_decide. Qed.

(** At most one element of a list of distinct names satisfies a predicate that
    determines the name. *)
Lemma filter_unique_name (p : SiteObservation -> bool) l n :
  NoDup (map Name l) -> (forall o, o ∈ l -> p o = true -> Name o = n) ->
  (length (List.filter p l) <= 1)%nat.
Proof.
  induction l as [|o l IH]; simpl; [lia|]. intros [Hnin Hnd]%NoDup_cons Hp.
  assert (length (List.filter p l) <= 1)%nat by (apply IH; [done|]; intros x Hx; apply Hp; by right).
  destruct (p o) eqn:Ho; simpl; [|done].
  enough (List.filter p l = []) as -> by (simpl; lia).
  apply filter_nil_iff. intros x Hx. destruct (p x) eqn:Hpx; [|done]. destruct Hnin.
  rewrite (Hp o), <- (Hp x) by (done || left || by right).
  apply elem_of_map. by exists x.
Qed.

(** Split-brain resolution resolves: the winner is a writable
    primary-candidate named by the policy with no earlier entry naming one, the
    losers are the other writable sites, and once the losers are fenced the
    winner is the only primary-candidate still writable and the group is no
    longer in split brain. *)
Theorem resolve_split_brain_resolves obs prio rank winner losers :
  NoDup (map Name obs) ->
  ResolveSplitBrain (List.filter primary_like obs) prio = (winner, losers) -> winner <> "" ->
  (exists before after, prio = before ++ winner :: after
    /\ forall n c, n ∈ before -> n <> "" -> c ∈ obs -> primary_like c = true -> Name c <> n)
  /\ (forall o, o ∈ obs -> primary_like o = true -> Name o = winner \/ Name o ∈ losers)
  /\ (forall o, o ∈ map (fence_observation losers) obs -> primary_like o = true -> Name o = winner)
  /\ SplitBrain (EvalCrossSite (map (fence_observation losers) obs) rank) = false.
Proof.
  intros Hnd Hres Hw. unfold ResolveSplitBrain in Hres.
  destruct prio as [|n0 prio0] eqn:Eprio; [by simplify_eq|]. rewrite <- Eprio in *.
  pose proof (split_brain_winner_spec (List.filter primary_like obs) prio) as Hspec.
  cbn zeta in Hspec. case_decide as Hd; [by simplify_eq|].
  injection Hres as Hwin Hlos. rewrite Hwin in *.
  destruct Hspec as [|(b & a & Hprio & _ & Hb)]; [done|].
  assert (forall o, o ∈ obs -> primary_like o = true -> Name o = winner \/ Name o ∈ losers) as Hcov.
  { intros o Ho Hp. destruct (decide (Name o = winner)) as [|Hne]; [by left|right].
    rewrite <- Hlos. apply elem_of_map. exists o.
    rewrite !elem_of_filter_bool, bool_decide_eq_false_2 by done. done. }
  assert (forall o, o ∈ map (fence_observation losers) obs -> primary_like o = true ->
            Name o = winner) as Honly.
  { intros o' (o & -> & Ho)%elem_of_map Hp. rewrite fence_observation_name.
    unfold fence_observation in Hp. case_decide as Hin; [done|].
    by destruct (Hcov o Ho Hp). }
  split; [|split; [done|split; [done|]]].
  - exists b, a. split; [done|]. intros n c Hn Hne Hc Hp.
    apply (Hb n Hn Hne); [by apply elem_of_filter_bool|].
    unfold primary_like in Hp. by apply andb_true_iff in Hp as [_ ?].
  - assert (NoDup (map Name (map (fence_observation losers) obs))) as Hnd'.
    { rewrite map_map. by erewrite map_ext by apply fence_observation_name. }
    pose proof (filter_unique_name _ _ _ Hnd' Honly) as Hle.
    unfold EvalCrossSite. rewrite classify_all_spec. unfold decide_action. cbn [writable].
    rewrite (proj2 (Nat.ltb_ge 1 _)) by done.
    unfold no_writable, no_primary, report. by repeat case_match.
Qed.

Lemma run_site_inv cur tainted next :
  (cur <> StateUnknown -> tainted = Some (negb (bool_decide (cur = StateWritable)))) ->
  let '(final, taint) := run_site cur tainted next in
  final <> StateUnknown -> taint = Some (negb (bool_decide (final = StateWritable))).
Proof.
  revert cur tainted. induction next as [|s next IH]; intros cur tainted Hinv; simpl; [done|].
  apply IH. intros Hs.
  destruct cur, s; try done; unfold EvalPerSiteTransition, apply_taint; cbn; try done;
    rewrite Hinv by done; done.
Qed.

(** The per-site actions keep the node taint equal to the site's state:
    after any history from start-up, a site whose state is known carries the
    taint exactly when it is not writable. *)
Theorem taint_tracks_state history final taint :
  run_site StateUnknown None history = (final, taint) -> final <> StateUnknown ->
  taint = Some (negb (bool_decide (final = StateWritable))).
Proof.
  intros Hrun. pose proof (run_site_inv StateUnknown None history) as H.
  rewrite Hrun in H. by apply H.
Qed.

(** ** Witnesses *)

Definition site (name : string) (role : SiteRole) (s : SiteState) : SiteObservation :=
  {| Name := name; Role := role; State := s; PromotionBlocked := false;
     PromotionBlockedReason := ""; PendingWritable := false; ClassificationOverdue := false |}.

Definition demo_failed : list SiteObservation :=
  [site "iad" SiteRolePrimaryCandidate StateUnreachable;
   site "pdx" SiteRolePrimaryCandidate StateReadOnly;
   site "dr" SiteRoleDROnly StateReadOnly].

Definition demo_split : list SiteObservation :=
  [site "iad" SiteRolePrimaryCandidate StateWritable;
   site "pdx" SiteRolePrimaryCandidate StateWritable].

Example eval_failover : EvalCrossSite demo_failed [] =
  {| FenceSites := []; PromotionCandidates := ["pdx"]; SplitBrain := false; Alert := "";
     Reason := "Degraded" |}.
Proof. reflexivity. Qed.

Example eval_split : EvalCrossSite demo_split [] =
  {| FenceSites := []; PromotionCandidates := []; SplitBrain := true;
     Alert := "SPLIT BRAIN: 2 sites are writable (iad, pdx)"; Reason := "SplitBrain" |}.
Proof. reflexivity. Qed.

Lemma eval_order_independent_witness :
  action_perm (EvalCrossSite demo_failed ["pdx"]) (EvalCrossSite (rev demo_failed) ["pdx"]).
Proof. apply eval_order_independent. apply Permutation_rev. Defined.

Lemma resolve_split_brain_resolves_witness :
  SplitBrain (EvalCrossSite (map (fence_observation ["iad"]) demo_split) []) = false.
Proof.
  refine (proj2 (proj2 (proj2 (resolve_split_brain_resolves demo_split ["pdx"; "iad"] []
    "pdx" ["iad"] _ _ _)))).
  - apply (bool_decide_unpack (NoDup (map Name demo_split))). vm_compute. exact I.
  - reflexivity.
  - discriminate.
Defined.

Lemma taint_tracks_state_witness :
  run_site StateUnknown None [StateWritable; StateReadOnly; StateUnreachable]
    = (StateUnreachable, Some true)
  /\ Some true = Some (negb (bool_decide (StateUnreachable = StateWritable))).
Proof.
  split; [reflexivity|].
  apply (taint_tracks_state [StateWritable; StateReadOnly; StateUnreachable] StateUnreachable);
    [reflexivity|discriminate].
Defined.
