(* ===== verification/Intervals.v ===== *)
(** * Interval lists

    The data both GTID packages share: inclusive ranges of transaction numbers,
    the merging step of their canonical form, and its theory. A canonical list
    is sorted and keeps a gap of at least one number between its intervals, so
    it is the only canonical list of the numbers it holds. *)
From S2P Require Import Prelude GoStd.

Local Open Scope Z_scope.

(** ** Data *)

(** [mysql.Interval] and [pitrplan.Interval] have the same two [int64] fields. *)
Record Interval : Type := iv { Start : Z; End_ : Z }.

#[export] Instance Interval_eq_dec : EqDecision Interval.
Proof. solve_decision. Defined.

(** [math.MaxInt64 - 1], the largest GNO MySQL issues. *)
Definition MaxGNO : Z := MaxInt64 - 1.

(** [sort.Slice]'s order on intervals. *)
Definition start_le (a b : Interval) : Prop := Start a <= Start b.

#[export] Instance start_le_dec : RelDecision start_le.
Proof. intros a b. unfold start_le. apply _. Defined.

(** [sort.Slice(ivs, by Start)]. Go's sort is not stable: the order of intervals
    with equal starts is unspecified, and the results below do not depend on it. *)
Definition sort_by_start (l : list Interval) : list Interval := merge_sort start_le l.

(** The merging step of [coalesceIntervals], [normalizeIntervals] and of
    [unionIntervals]' [push]: [out] is kept with its last element first. *)
Definition merge_push (out : list Interval) (x : Interval) : list Interval :=
  match out with
  | last :: rest =>
      if Start x <=? wrap64 (End_ last + 1) then
        if End_ x >? End_ last then iv (Start last) (End_ x) :: rest else out
      else x :: out
  | [] => [x]
  end.

Definition merge_sorted (l : list Interval) : list Interval :=
  rev (fold_left merge_push l []).

(** ** Meaning *)

Definition iv_has (x : Interval) (n : Z) : Prop := Start x <= n <= End_ x.

Definition ivs_has (l : list Interval) (n : Z) : Prop := exists x, x ∈ l /\ iv_has x n.

(** Endpoints are [int64] values and the range is not empty. *)
Definition iv_wf (x : Interval) : Prop :=
  is_int64 (Start x) /\ is_int64 (End_ x) /\ Start x <= End_ x.

(** ... and the increment of the end does not overflow. *)
Definition iv_bounded (x : Interval) : Prop :=
  MinInt64 <= Start x /\ Start x <= End_ x /\ End_ x <= MaxGNO.

(** Canonical, with every number at least [lo]. *)
Fixpoint canon_from (lo : Z) (l : list Interval) : Prop :=
  match l with
  | [] => True
  | x :: l => lo <= Start x /\ Start x <= End_ x /\ canon_from (End_ x + 2) l
  end.

(** The number of transactions. *)
Fixpoint ivs_count (l : list Interval) : Z :=
  match l with
  | [] => 0
  | x :: l => End_ x - Start x + 1 + ivs_count l
  end.

(** [canon_from] of a list kept with its last element first. *)
Fixpoint canon_rev (l : list Interval) : Prop :=
  match l with
  | [] => True
  | x :: l => Start x <= End_ x
              /\ match l with [] => True | y :: _ => End_ y + 2 <= Start x end
              /\ canon_rev l
  end.

(** Remove the wrap-around of an increment that provably stays in range. *)
Ltac unwrap :=
  rewrite ?wrap64_id by (unfold is_int64, MaxGNO, MaxInt64, MinInt64 in *; lia).

(** ** Lemmas *)

Lemma ivs_has_nil n : ~ ivs_has [] n.
Proof. by intros (x & Hx%not_elem_of_nil & _). Qed.

Lemma ivs_has_cons x l n : ivs_has (x :: l) n <-> iv_has x n \/ ivs_has l n.
Proof. unfold ivs_has. setoid_rewrite elem_of_cons. naive_solver. Qed.

Lemma ivs_has_app l1 l2 n : ivs_has (l1 ++ l2) n <-> ivs_has l1 n \/ ivs_has l2 n.
Proof. unfold ivs_has. setoid_rewrite elem_of_app. naive_solver. Qed.

Lemma ivs_has_perm l1 l2 n : l1 ≡ₚ l2 -> ivs_has l1 n <-> ivs_has l2 n.
Proof. intros Hp. unfold ivs_has. by setoid_rewrite Hp. Qed.

#[export] Instance iv_has_dec x n : Decision (iv_has x n).
Proof. unfold iv_has. apply _. Defined.

#[export] Instance ivs_has_dec l n : Decision (ivs_has l n).
Proof.
  refine (cast_if (decide (Exists (fun x => iv_has x n) l)));
    abstract (unfold ivs_has; by rewrite Exists_exists in *).
Defined.

Lemma ivs_has_rev l n : ivs_has (rev l) n <-> ivs_has l n.
Proof. apply ivs_has_perm. symmetry. apply Permutation_rev. Qed.

Lemma ivs_has_singleton x n : ivs_has [x] n <-> iv_has x n.
Proof. rewrite ivs_has_cons. pose proof (ivs_has_nil n). tauto. Qed.

Create Rewrite HintDb ivs.
Lemma ivs_has_nil_iff n : ivs_has [] n <-> False.
Proof. split; [apply ivs_has_nil|done]. Qed.

#[export] Hint Rewrite ivs_has_nil_iff ivs_has_cons ivs_has_app ivs_has_rev ivs_has_singleton : ivs.

Lemma canon_from_mono lo lo' l : lo <= lo' -> canon_from lo' l -> canon_from lo l.
Proof. destruct l; simpl; [done|]. intros ? (? & ? & ?). split; [lia|done]. Qed.

Lemma canon_from_lower lo l n : canon_from lo l -> ivs_has l n -> lo <= n.
Proof.
  revert lo. induction l as [|x l IH]; simpl; intros lo.
  - by intros _ []%ivs_has_nil.
  - intros (H1 & H2 & H3) [Hx|Hl]%ivs_has_cons; [unfold iv_has in Hx; lia|].
    specialize (IH _ H3 Hl). lia.
Qed.

(** A canonical list holds its first start and does not hold the number after
    its first end. *)
Lemma canon_from_gap lo x l : canon_from lo (x :: l) -> ~ ivs_has (x :: l) (End_ x + 1).
Proof.
  intros (H1 & H2 & H3) [Hx|Hl]%ivs_has_cons; [unfold iv_has in Hx; lia|].
  pose proof (canon_from_lower _ _ _ H3 Hl). lia.
Qed.

(** Canonical lists are determined by the numbers they hold. *)
Lemma canon_unique lo1 lo2 l1 l2 :
  canon_from lo1 l1 -> canon_from lo2 l2 -> (forall n, ivs_has l1 n <-> ivs_has l2 n) -> l1 = l2.
Proof.
  revert lo1 lo2 l2. induction l1 as [|x l1 IH]; intros lo1 lo2 [|y l2] H1 H2 Heq; [done|..].
  - destruct (ivs_has_nil (Start y)). apply Heq, ivs_has_cons. left.
    destruct H2 as (? & ? & ?). unfold iv_has; lia.
  - destruct (ivs_has_nil (Start x)). apply Heq, ivs_has_cons. left.
    destruct H1 as (? & ? & ?). unfold iv_has; lia.
  - pose proof (canon_from_gap _ _ _ H1) as Hgx. pose proof (canon_from_gap _ _ _ H2) as Hgy.
    destruct H1 as (Hx1 & Hx2 & Hx3), H2 as (Hy1 & Hy2 & Hy3).
    setoid_rewrite ivs_has_cons in Heq.
    assert (Hlow1 : forall n, ivs_has l1 n -> End_ x + 2 <= n) by (intros; by eapply canon_from_lower).
    assert (Hlow2 : forall n, ivs_has l2 n -> End_ y + 2 <= n) by (intros; by eapply canon_from_lower).
    unfold iv_has in *.
    assert (Start x = Start y) as Hs.
    { destruct (proj1 (Heq (Start x))) as [|Hy%Hlow2]; [left; lia|..];
        (destruct (proj2 (Heq (Start y))) as [|Hx%Hlow1]; [left; lia|..]); lia. }
    assert (End_ x = End_ y) as He.
    { destruct (Z.lt_trichotomy (End_ x) (End_ y)) as [Hlt|[|Hlt]]; [|done|].
      - destruct (proj2 (Heq (End_ x + 1))) as [|Hx%Hlow1]; [left|..]; lia.
      - destruct (proj1 (Heq (End_ y + 1))) as [|Hy%Hlow2]; [left|..]; lia. }
    assert (x = y) as -> by (destruct x, y; simpl in *; congruence).
    f_equal. eapply IH; [done..|]. intros n. split; intros Hn.
    + specialize (Hlow1 n Hn). destruct (proj1 (Heq n) (or_intror Hn)); [lia|done].
    + specialize (Hlow2 n Hn). destruct (proj2 (Heq n) (or_intror Hn)); [lia|done].
Qed.

(** A canonical list covers a range exactly when one of its intervals does. *)
Lemma canon_covers lo l a b : canon_from lo l -> a <= b ->
  (forall n, a <= n <= b -> ivs_has l n) <-> exists x, x ∈ l /\ Start x <= a /\ b <= End_ x.
Proof.
  intros Hc Hab. split; [|intros (x & Hx & ? & ?) n Hn; exists x; unfold iv_has; split; [done|lia]].
  revert lo Hc. induction l as [|x l IH]; intros lo Hc Hcov.
  - destruct (ivs_has_nil a). apply Hcov. lia.
  - pose proof (canon_from_gap _ _ _ Hc) as Hgap. destruct Hc as (H1 & H2 & H3).
    destruct (Z.le_gt_cases a (End_ x)) as [Hle|Hgt].
    + exists x. split; [left|].
      pose proof (Hcov a ltac:(lia)) as [Ha|Ha]%ivs_has_cons.
      * unfold iv_has in Ha. split; [lia|].
        destruct (Z.le_gt_cases b (End_ x)); [done|]. destruct Hgap. apply Hcov. lia.
      * pose proof (canon_from_lower _ _ _ H3 Ha). lia.
    + destruct (IH _ H3) as (y & Hy & ?); [|exists y; split; [by right|done]].
      intros n Hn. pose proof (Hcov n ltac:(lia)) as [Ha|Ha]%ivs_has_cons; [|done].
      unfold iv_has in Ha. lia.
Qed.

(** *** Merging sorted intervals *)

Lemma canon_from_snoc lo l x :
  canon_from lo l -> Start x <= End_ x ->
  (l = [] -> lo <= Start x) -> (forall y, last l = Some y -> End_ y + 2 <= Start x) ->
  canon_from lo (l ++ [x]).
Proof.
  revert lo. induction l as [|y l IH]; intros lo Hc Hx Hn Hl; simpl in *; [auto|].
  destruct Hc as (H1 & H2 & H3). split; [done|]. split; [done|].
  apply IH; [done|done|by intros ->; apply Hl|].
  intros z Hz. apply Hl. by destruct l.
Qed.

Lemma canon_rev_canon l lo :
  canon_rev l -> (forall x, x ∈ l -> lo <= Start x) -> canon_from lo (rev l).
Proof.
  induction l as [|x l IH]; simpl; intros Hc Hlo; [done|].
  destruct Hc as (H1 & H2 & H3). apply canon_from_snoc; [|done|..].
  - apply IH; [done|]. intros y Hy. apply Hlo. by right.
  - intros _. apply Hlo. left.
  - destruct l as [|y l]; simpl; [done|]. rewrite last_snoc. by intros z [= <-].
Qed.

(** The pushed interval starts at or after the last one: the union is kept, and
    so is the canonical form. *)
Lemma merge_push_spec out x :
  canon_rev out -> Forall iv_bounded out -> iv_bounded x ->
  match out with [] => True | y :: _ => Start y <= Start x end ->
  canon_rev (merge_push out x) /\ Forall iv_bounded (merge_push out x)
  /\ (forall n, ivs_has (merge_push out x) n <-> ivs_has out n \/ iv_has x n)
  /\ match merge_push out x with [] => True | y :: _ => Start y <= Start x end
  /\ forall lo, (forall y, y ∈ out -> lo <= Start y) -> lo <= Start x ->
       forall y, y ∈ merge_push out x -> lo <= Start y.
Proof.
  intros Hc Hb Hx Hs. unfold merge_push. destruct out as [|y out].
  - pose proof Hx as (? & ? & ?). split; [done|]. split; [by constructor|].
    split; [intros n; rewrite ivs_has_cons; tauto|]. split; [done|].
    intros lo _ Hlo z ->%list_elem_of_singleton. done.
  - pose proof (Forall_inv Hb) as Hyb. pose proof (Forall_inv_tail Hb) as Hob.
    destruct Hc as (Hy & Hg & Hc). pose proof Hx as (Hx1 & Hx2 & Hx3).
    pose proof Hyb as (Hy1 & Hy2 & Hy3).
    rewrite wrap64_id by (unfold is_int64, MaxGNO, MinInt64, MaxInt64 in *; lia).
    destruct (Start x <=? End_ y + 1) eqn:E1; zify_bool; [destruct (End_ x >? End_ y) eqn:E2|];
      zify_bool; try apply Z.ltb_lt in E2; try apply Z.ltb_ge in E2; simpl.
    + split; [split; [lia|]; split; [destruct out; lia|done]|].
      split; [constructor; [unfold iv_bounded; simpl; lia|done]|].
      split; [intros n; rewrite !ivs_has_cons; unfold iv_has; simpl; split|].
      * intros [?|?]; [destruct (Z.le_gt_cases n (End_ y)); [left; left|right]; lia|tauto].
      * intros [[?|?]|?]; [left; lia|by right|left; lia].
      * split; [done|]. intros lo Hlo _ z [->|Hz]%elem_of_cons; simpl; apply Hlo; [left|by right].
    + split; [done|]. split; [done|].
      split; [intros n; rewrite !ivs_has_cons; unfold iv_has; split; [tauto|]|].
      { intros [?|?]; [done|left; lia]. }
      split; [done|]. intros lo Hlo _ z Hz. by apply Hlo.
    + split; [split; [lia|]; split; [lia|done]|]. split; [by constructor|].
      split; [intros n; rewrite (ivs_has_cons x); tauto|]. split; [lia|].
      intros lo Hlo Hlx z [->|Hz]%elem_of_cons; [done|by apply Hlo].
Qed.

Lemma merge_fold_spec l out :
  StronglySorted start_le l -> Forall iv_bounded l ->
  canon_rev out -> Forall iv_bounded out ->
  match out with [] => True | y :: _ => Forall (start_le y) l end ->
  canon_rev (fold_left merge_push l out) /\ Forall iv_bounded (fold_left merge_push l out)
  /\ (forall n, ivs_has (fold_left merge_push l out) n <-> ivs_has out n \/ ivs_has l n)
  /\ forall lo, (forall y, y ∈ out -> lo <= Start y) -> (forall y, y ∈ l -> lo <= Start y) ->
       forall y, y ∈ fold_left merge_push l out -> lo <= Start y.
Proof.
  revert out. induction l as [|x l IH]; intros out Hs Hl Hc Hb Ho; simpl.
  - split; [done|]. split; [done|]. split; [|by auto].
    intros n. pose proof (ivs_has_nil n). tauto.
  - apply StronglySorted_cons in Hs as [Hx Hs]. apply Forall_cons in Hl as [Hxb Hl].
    destruct (merge_push_spec out x) as (H1 & H2 & H3 & H4 & H5); [done..| |].
    { destruct out as [|y out]; [done|]. by apply Forall_cons in Ho as [? _]. }
    destruct (IH (merge_push out x)) as (G1 & G2 & G3 & G4); [done..| |].
    { destruct (merge_push out x) as [|z o]; [done|].
      eapply Forall_impl; [exact Hx|]. unfold start_le. lia. }
    split; [done|]. split; [done|]. split.
    + intros n. rewrite G3, H3, ivs_has_cons. tauto.
    + intros lo Hlo Hlx. apply G4; [apply H5; [done|apply Hlx; left]|].
      intros y Hy. apply Hlx. by right.
Qed.

Lemma start_le_trans : Transitive start_le.
Proof. intros a b c. unfold start_le. lia. Qed.

Lemma start_le_total : Total start_le.
Proof. intros a b. unfold start_le. lia. Qed.

#[export] Existing Instance start_le_trans.

#[export] Existing Instance start_le_total.

(** Merging a sorted list of bounded intervals gives the canonical list of the
    same numbers. *)
Lemma merge_sorted_spec l lo :
  StronglySorted start_le l -> Forall iv_bounded l -> (forall y, y ∈ l -> lo <= Start y) ->
  canon_from lo (merge_sorted l) /\ Forall iv_bounded (merge_sorted l)
  /\ forall n, ivs_has (merge_sorted l) n <-> ivs_has l n.
Proof.
  intros Hs Hl Hlo. unfold merge_sorted.
  destruct (merge_fold_spec l []) as (H1 & H2 & H3 & H4); [done..|].
  split; [|split].
  - apply canon_rev_canon; [done|]. intros x Hx. apply (H4 lo); [|done|done].
    intros y Hy. by apply not_elem_of_nil in Hy.
  - by apply Forall_rev.
  - intros n. rewrite ivs_has_rev, H3. pose proof (ivs_has_nil n). tauto.
Qed.

Lemma sort_by_start_spec l :
  StronglySorted start_le (sort_by_start l) /\ sort_by_start l ≡ₚ l.
Proof.
  split; [apply StronglySorted_merge_sort; apply _|apply merge_sort_Permutation].
Qed.

(** Whatever order an unstable sort leaves equal starts in, the merge is the
    same list. *)
Lemma merge_sorted_any_sort l sorted :
  Forall iv_bounded l -> StronglySorted start_le sorted -> sorted ≡ₚ l ->
  merge_sorted sorted = merge_sorted (sort_by_start l).
Proof.
  intros Hb Hs Hp. destruct (sort_by_start_spec l) as [Hs' Hp'].
  assert (forall k y, k ≡ₚ l -> y ∈ k -> MinInt64 <= Start y) as Hlo.
  { intros k y Hk Hy. rewrite Hk in Hy. eapply Forall_forall in Hy; [|exact Hb].
    by destruct Hy. }
  destruct (merge_sorted_spec sorted MinInt64) as (H1 & _ & H2);
    [done|by rewrite Hp|intros y; by apply Hlo|].
  destruct (merge_sorted_spec (sort_by_start l) MinInt64) as (H3 & _ & H4);
    [done|by rewrite Hp'|intros y; by apply Hlo|].
  eapply canon_unique; [done..|]. intros n.
  rewrite H2, H4. apply ivs_has_perm. by rewrite Hp, Hp'.
Qed.

(** *** Looking up in a canonical list *)

Lemma canon_from_Forall lo l : canon_from lo l -> Forall (fun x => lo <= Start x /\ Start x <= End_ x) l.
Proof.
  revert lo. induction l as [|x l IH]; intros lo; simpl; [done|]. intros (H1 & H2 & H3).
  constructor; [done|]. eapply Forall_impl; [by apply IH|]. simpl. intros y ?. lia.
Qed.

Lemma canon_lookup_lt lo l i j x y :
  canon_from lo l -> l !! i = Some x -> l !! j = Some y -> (i < j)%nat -> End_ x + 2 <= Start y.
Proof.
  revert lo i j. induction l as [|z l IH]; intros lo i j Hc Hi Hj Hij; [done|].
  destruct Hc as (H1 & H2 & H3). destruct j as [|j]; [lia|]. simpl in Hj.
  destruct i as [|i]; simpl in Hi.
  - simplify_eq. pose proof (canon_from_Forall _ _ H3) as Hf.
    rewrite Forall_forall in Hf. apply (Hf y). by eapply list_elem_of_lookup_2.
  - eapply (IH _ i j); [done..|lia].
Qed.

Lemma canon_lookup_wf lo l i x : canon_from lo l -> l !! i = Some x -> lo <= Start x /\ Start x <= End_ x.
Proof.
  intros Hc Hi. pose proof (canon_from_Forall _ _ Hc) as Hf. rewrite Forall_forall in Hf.
  apply (Hf x). by eapply list_elem_of_lookup_2.
Qed.

(** The starts and the ends of a canonical list increase with the index. *)
Lemma canon_lookup_le lo l i j x y :
  canon_from lo l -> l !! i = Some x -> l !! j = Some y -> (i <= j)%nat ->
  Start x <= Start y /\ End_ x <= End_ y.
Proof.
  intros Hc Hi Hj Hij. destruct (decide (i = j)) as [->|]; [simplify_eq; lia|].
  pose proof (canon_lookup_lt _ _ _ _ _ _ Hc Hi Hj ltac:(lia)).
  pose proof (canon_lookup_wf _ _ _ _ Hc Hi). pose proof (canon_lookup_wf _ _ _ _ Hc Hj). lia.
Qed.
