(* ===== verification/GtidSet.v ===== *)
(** * MySQL GTID sets ([internal/mysql/gtid.go])

    Parsing, printing and the set arithmetic the failover decisions use. *)
From S2P Require Import Prelude GoStd Intervals.

Local Open Scope Z_scope.

Module GTID.

(** ** Data *)

(** [map[string][]Interval]: the intervals of each source identifier, in the
    order they were parsed. *)
Abbreviation GTIDSet := (gmap string (list Interval)).

Inductive interval_error : Type :=
| ParseStart (s : string)
| ParseEnd (s : string)
| StartAfterEnd (start end_ : Z).

Inductive gtid_error : Type :=
| MissingInterval (part : string)
| EmptyUUID (part : string)
| InvalidInterval (seg part : string) (e : interval_error)
| TagWithoutInterval (tag part : string)
| InvalidSegment (seg part : string)
| NoIntervals (part : string).

(** ** Parsing *)

Definition isIntervalSegment (s : string) : bool :=
  if decide (s = "") then false
  else forallb (fun p => negb (bool_decide (p = "")) && str_forallb is_digit p) (SplitN2 "-" s).

Definition maxGTIDTagLength : nat := 32.

Definition tag_first (c : ascii) : bool := is_lower c || is_upper c || Ascii.eqb c "_".

Definition tag_rest (c : ascii) : bool := tag_first c || is_digit c.

Definition isTagSegment (s : string) : bool :=
  match s with
  | EmptyString => false
  | String c rest =>
      negb (maxGTIDTagLength <? String.length s)%nat && tag_first c && str_forallb tag_rest rest
  end.

Definition parseInterval (s : string) : res interval_error Interval :=
  match SplitN2 "-" s with
  | first :: more =>
      match ParseInt first with
      | None => Err (ParseStart first)
      | Some start =>
          let? end_ := match more with
                       | second :: _ =>
                           match ParseInt second with
                           | None => Err (ParseEnd second)
                           | Some e => Ok e
                           end
                       | [] => Ok start
                       end in
          if start >? end_ then Err (StartAfterEnd start end_) else Ok (iv start end_)
      end
  | [] => Err (ParseStart "")
  end.

(** The variables of the segment loop. *)
Record walk : Type := {
  w_result : GTIDSet;
  w_sid : string;
  w_pendingTag : string;
  w_hasInterval : bool;
}.

(** [result[sid] = append(result[sid], iv)]. *)
Definition append_interval (sid : string) (x : Interval) (result : GTIDSet) : GTIDSet :=
  <[sid := default [] (result !! sid) ++ [x]]> result.

(** One segment after the UUID; [i] is its index in [segments[1:]] and [n] the
    length of [segments]. *)
Definition parse_segment (part uuid : string) (n : nat) (w : walk) (arg : nat * string)
  : res gtid_error walk :=
  let '(i, raw) := arg in
  let trims := (0 <? i)%nat || (n =? 2)%nat in
  let seg := if trims then TrimSpace raw else raw in
  if trims && bool_decide (seg = "") then Ok w
  else if isIntervalSegment seg then
    match parseInterval seg with
    | Err e => Err (InvalidInterval seg part e)
    | Ok x => Ok {| w_result := append_interval (w_sid w) x (w_result w);
                    w_sid := w_sid w; w_pendingTag := ""; w_hasInterval := true |}
    end
  else if isTagSegment seg then
    if decide (w_pendingTag w = "") then
      Ok {| w_result := w_result w; w_sid := uuid +:+ ":" +:+ lower_ascii seg;
            w_pendingTag := seg; w_hasInterval := w_hasInterval w |}
    else Err (TagWithoutInterval (w_pendingTag w) part)
  else Err (InvalidSegment seg part).

(** One comma-separated entry. *)
Definition parse_entry (result : GTIDSet) (raw : string) : res gtid_error GTIDSet :=
  let part := TrimSpace raw in
  if decide (part = "") then Ok result
  else
    let segments := Split ":" part in
    if (length segments <? 2)%nat then Err (MissingInterval part)
    else
      let uuid := default "" (head segments) in
      if decide (uuid = "") then Err (EmptyUUID part)
      else
        let? w := res_fold (parse_segment part uuid (length segments))
                    (imap pair (tail segments))
                    {| w_result := result; w_sid := uuid; w_pendingTag := "";
                       w_hasInterval := false |} in
        if decide (w_pendingTag w = "") then
          if w_hasInterval w then Ok (w_result w) else Err (NoIntervals part)
        else Err (TagWithoutInterval (w_pendingTag w) part).

Definition ParseGTIDSet (s : string) : res gtid_error GTIDSet :=
  let s := TrimSpace s in
  if decide (s = "") then Ok ∅
  else res_fold parse_entry (Split "," (ReplaceByte "010" "," s)) ∅.

(** ** Set arithmetic *)

Definition IsEmpty (g : GTIDSet) : bool := (size g =? 0)%nat.

(** Go coalesces in place into the sorted copy's prefix: the prefix is never
    longer than the part already read, so reads and writes do not interfere. *)
Definition coalesceIntervals (intervals : list Interval) : list Interval :=
  merge_sorted (sort_by_start intervals).

Definition coalescedContain (merged : list Interval) (target : Interval) : bool :=
  let i := Search (length merged)
             (fun i => match merged !! i with
                       | Some x => Start x >? Start target
                       | None => false
                       end) in
  match i with
  | O => false
  | S i => match merged !! i with
           | Some x => End_ x >=? End_ target
           | None => false
           end
  end.

Definition Contains (g other : GTIDSet) : bool :=
  forallb (fun '(uuid, otherIntervals) =>
    match g !! uuid with
    | None => false
    | Some myIntervals =>
        let merged := coalesceIntervals myIntervals in
        forallb (coalescedContain merged) otherIntervals
    end) (map_to_list other).

Definition subtractInterval (a b : Interval) : list Interval :=
  if (End_ b <? Start a) || (Start b >? End_ a) then [a]
  else
    (if Start a <? Start b then [iv (Start a) (wrap64 (Start b - 1))] else [])
    ++ (if End_ a >? End_ b then [iv (wrap64 (End_ b + 1)) (End_ a)] else []).

Definition subtractAllIntervals (source sub : list Interval) : list Interval :=
  flat_map (fun s =>
    fold_left (fun pieces r => flat_map (fun p => subtractInterval p r) pieces) sub [s]) source.

Definition Subtract (g other : GTIDSet) : GTIDSet :=
  map_imap (fun uuid intervals =>
    match other !! uuid with
    | None => Some intervals
    | Some otherIntervals =>
        let remaining := subtractAllIntervals intervals otherIntervals in
        if nonempty remaining then Some remaining else None
    end) g.

Definition sourceUUID (sid : string) : string := fst (Cut ":" sid).

Definition HasCommonUUIDs (g other : GTIDSet) : bool :=
  let uuids : gset string := list_to_set (map (fun p => sourceUUID (fst p)) (map_to_list other)) in
  existsb (fun p => bool_decide (sourceUUID (fst p) ∈ uuids)) (map_to_list g).

Definition interval_count (x : Interval) : Z := wrap64 (wrap64 (End_ x - Start x) + 1).

Definition TransactionCount (g : GTIDSet) : Z :=
  fold_left (fun total p => fold_left (fun t x => wrap64 (t + interval_count x)) (snd p) total)
    (map_to_list g) 0.

(** ** Printing *)

Definition format_interval (x : Interval) : string :=
  if Start x =? End_ x then FormatInt (Start x)
  else FormatInt (Start x) +:+ "-" +:+ FormatInt (End_ x).

Definition format_entry (g : GTIDSet) (uuid : string) : string :=
  uuid +:+ ":" +:+ Join ":" (map format_interval (default [] (g !! uuid))).

Definition GTIDSet_String (g : GTIDSet) : string :=
  if (size g =? 0)%nat then ""
  else Join "," (map (format_entry g) (sort_strings (map fst (map_to_list g)))).

(** ** Specification vocabulary *)

(** Transaction [sid:n] is in the set. *)
Definition has (g : GTIDSet) (sid : string) (n : Z) : Prop :=
  exists l, g !! sid = Some l /\ ivs_has l n.

(** Every source lists at least one interval, each a non-empty [int64] range. *)
Definition wf (g : GTIDSet) : Prop :=
  map_Forall (fun _ l => l <> [] /\ Forall iv_wf l) g.

(** ... and no end is the largest [int64]. *)
Definition bounded (g : GTIDSet) : Prop :=
  map_Forall (fun _ l => l <> [] /\ Forall iv_bounded l) g.

(** A server UUID as MySQL spells it: hexadecimal digits and dashes (any ASCII
    letter, digit, dash or underscore here). *)
Definition uuid_char (c : ascii) : bool := tag_rest c || Ascii.eqb c "-".

Definition uuid_ok (u : string) : bool := negb (bool_decide (u = "")) && str_forallb uuid_char u.

(** A source identifier: a UUID, or a UUID and a lower-case tag. *)
Definition sid_ok (sid : string) : Prop :=
  uuid_ok sid = true
  \/ exists u tag, sid = u +:+ ":" +:+ tag /\ uuid_ok u = true /\ isTagSegment tag = true
       /\ lower_ascii tag = tag.

(** A set the parser can produce: printable identifiers, non-negative ranges. *)
Definition printable (g : GTIDSet) : Prop :=
  map_Forall (fun sid l => sid_ok sid /\ l <> []
    /\ Forall (fun x => 0 <= Start x /\ Start x <= End_ x /\ End_ x <= MaxInt64) l) g.

End GTID.

Import GTID.

(** ** Lemmas on containment *)

Lemma wf_of_bounded x : iv_bounded x -> iv_wf x.
Proof. unfold iv_bounded, iv_wf, is_int64, MaxGNO, MaxInt64, MinInt64. lia. Qed.

Lemma coalesce_spec l : Forall iv_bounded l ->
  canon_from MinInt64 (coalesceIntervals l) /\ forall n, ivs_has (coalesceIntervals l) n <-> ivs_has l n.
Proof.
  intros Hb. destruct (sort_by_start_spec l) as [Hs Hp].
  destruct (merge_sorted_spec (sort_by_start l) MinInt64) as (H1 & _ & H2); [done|by rewrite Hp| |].
  - intros y Hy. rewrite Hp in Hy. rewrite Forall_forall in Hb. by apply Hb in Hy as [? _].
  - split; [done|]. intros n. unfold coalesceIntervals. rewrite H2. by apply ivs_has_perm.
Qed.

(** The binary search finds the only interval that could cover the target. *)
Lemma coalescedContain_spec merged t lo :
  canon_from lo merged -> Start t <= End_ t ->
  coalescedContain merged t = true <-> exists x, x ∈ merged /\ Start x <= Start t /\ End_ t <= End_ x.
Proof.
  intros Hc Ht. unfold coalescedContain.
  set (f := fun i => match merged !! i with Some x => Start x >? Start t | None => false end).
  destruct (Search_spec (length merged) f) as (Hle & Hlo & Hhi).
  { intros a b Hab. unfold f.
    destruct (lookup_lt_is_Some_2 merged a ltac:(lia)) as [x Hx].
    destruct (lookup_lt_is_Some_2 merged b ltac:(lia)) as [y Hy]. rewrite Hx, Hy.
    pose proof (canon_lookup_le _ _ _ _ _ _ Hc Hx Hy ltac:(lia)).
    rewrite !Z.gtb_ltb, !Z.ltb_lt. lia. }
  assert (Hin : forall k x, merged !! k = Some x -> Start x <= Start t -> (k < Search (length merged) f)%nat).
  { intros k x Hk Hx. destruct (Nat.lt_ge_cases k (Search (length merged) f)); [done|].
    pose proof (lookup_lt_Some _ _ _ Hk). specialize (Hhi k ltac:(lia)). unfold f in Hhi.
    rewrite Hk, Z.gtb_ltb, Z.ltb_lt in Hhi. lia. }
  destruct (Search (length merged) f) as [|i] eqn:Es.
  - split; [done|]. intros (x & [k Hk]%list_elem_of_lookup & Hx & _).
    specialize (Hin _ _ Hk Hx). lia.
  - destruct (lookup_lt_is_Some_2 merged i ltac:(lia)) as [y Hy]. rewrite Hy, Z.geb_leb, Z.leb_le.
    assert (Start y <= Start t) as Hys.
    { specialize (Hlo i ltac:(lia)). unfold f in Hlo. rewrite Hy, Z.gtb_ltb, Z.ltb_ge in Hlo. lia. }
    split; [intros He; exists y; split; [by eapply list_elem_of_lookup_2|done]|].
    intros (x & [k Hk]%list_elem_of_lookup & Hx1 & Hx2). specialize (Hin _ _ Hk Hx1).
    destruct (decide (k = i)) as [->|Hne]; [simplify_eq; done|].
    pose proof (canon_lookup_lt _ _ _ _ _ _ Hc Hk Hy ltac:(lia)). lia.
Qed.

Lemma contain_interval l t : Forall iv_bounded l -> iv_wf t ->
  coalescedContain (coalesceIntervals l) t = true <-> forall n, iv_has t n -> ivs_has l n.
Proof.
  intros Hb (_ & _ & Ht). destruct (coalesce_spec l Hb) as [Hc Hh].
  rewrite (coalescedContain_spec _ _ _ Hc Ht), <- (canon_covers _ _ _ _ Hc Ht).
  unfold iv_has. by setoid_rewrite Hh.
Qed.

Lemma Contains_lookup g other :
  Contains g other = true <->
  forall uuid lo, other !! uuid = Some lo ->
    exists l, g !! uuid = Some l /\ Forall (fun t => coalescedContain (coalesceIntervals l) t = true) lo.
Proof.
  unfold Contains. rewrite forallb_forall. split.
  - intros H uuid lo Hlo. specialize (H (uuid, lo)). simpl in H.
    rewrite <- list_elem_of_In, elem_of_map_to_list in H. specialize (H Hlo).
    destruct (g !! uuid) as [l|]; [|done]. exists l. split; [done|].
    rewrite Forall_forall. intros x Hx. rewrite forallb_forall in H. apply H.
    by apply list_elem_of_In.
  - intros H [uuid lo] Hin. rewrite <- list_elem_of_In, elem_of_map_to_list in Hin.
    destruct (H _ _ Hin) as (l & -> & Hl). rewrite forallb_forall. intros x Hx.
    rewrite Forall_forall in Hl. apply Hl. by apply list_elem_of_In.
Qed.

Lemma Contains_spec g other : bounded g -> wf other ->
  Contains g other = true <-> forall sid n, has other sid n -> has g sid n.
Proof.
  intros Hg Ho. rewrite Contains_lookup. split.
  - intros H sid n (lo & Hlo & t & Ht & Hn). destruct (H _ _ Hlo) as (l & Hl & Hall).
    exists l. split; [done|]. rewrite Forall_forall in Hall. specialize (Hall t Ht).
    apply (proj1 (contain_interval l t ltac:(apply (Hg _ _ Hl))
      ltac:(destruct (Ho _ _ Hlo) as [_ Hf]; rewrite Forall_forall in Hf; by apply Hf)) Hall n Hn).
  - intros H uuid lo Hlo. destruct (Ho _ _ Hlo) as [Hne Hf].
    destruct lo as [|t0 lo]; [done|].
    assert (iv_has t0 (Start t0)) as Ht0.
    { apply Forall_cons in Hf as [(_ & _ & ?) _]. unfold iv_has. lia. }
    destruct (H uuid (Start t0)) as (l & Hl & _).
    { exists (t0 :: lo). split; [done|]. apply ivs_has_cons. by left. }
    exists l. split; [done|]. rewrite Forall_forall. intros t Ht. apply contain_interval.
    + apply (Hg _ _ Hl).
    + rewrite Forall_forall in Hf. by apply Hf.
    + intros n Hn. destruct (H uuid n) as (l' & Hl' & Hn').
      * exists (t0 :: lo). split; [done|]. by exists t.
      * by simplify_eq.
Qed.

(** ** Lemmas on subtraction *)

Lemma subtractInterval_spec a b : iv_wf a -> iv_wf b ->
  Forall iv_wf (subtractInterval a b)
  /\ forall n, ivs_has (subtractInterval a b) n <-> iv_has a n /\ ~ iv_has b n.
Proof.
  intros (Ha1 & Ha2 & Ha3) (Hb1 & Hb2 & Hb3). unfold subtractInterval.
  destruct ((End_ b <? Start a) || (Start b >? End_ a)) eqn:E.
  - split; [by constructor|]. intros n. rewrite ivs_has_singleton. unfold iv_has.
    apply orb_true_iff in E as [E%Z.ltb_lt|E]; [lia|]. rewrite Z.gtb_ltb, Z.ltb_lt in E. lia.
  - apply orb_false_iff in E as [E1%Z.ltb_ge E2]. rewrite Z.gtb_ltb, Z.ltb_ge in E2.
    rewrite Z.gtb_ltb. unfold is_int64 in *.
    destruct (Z.ltb_spec (Start a) (Start b)); destruct (Z.ltb_spec (End_ b) (End_ a));
      rewrite ?wrap64_id by (unfold is_int64; lia); simpl;
      (split; [repeat apply Forall_cons_2; try apply Forall_nil_2; unfold iv_wf, is_int64; simpl; lia|]);
      intros n; autorewrite with ivs; unfold iv_has; simpl; lia.
Qed.

Lemma ivs_has_flat_map (f : Interval -> list Interval) l n :
  ivs_has (flat_map f l) n <-> exists x, x ∈ l /\ ivs_has (f x) n.
Proof.
  unfold ivs_has. setoid_rewrite list_elem_of_In. setoid_rewrite in_flat_map. naive_solver.
Qed.

Lemma Forall_flat_map_iv (f : Interval -> list Interval) l :
  (forall x, x ∈ l -> Forall iv_wf (f x)) -> Forall iv_wf (flat_map f l).
Proof.
  rewrite Forall_forall. intros H y (x & Hx & Hy)%list_elem_of_In%in_flat_map.
  rewrite <- list_elem_of_In in Hx, Hy. specialize (H x Hx). rewrite Forall_forall in H. by apply H.
Qed.

(** Removing the subtrahend's ranges one after the other. *)
Lemma subtract_pieces_spec sub pieces :
  Forall iv_wf sub -> Forall iv_wf pieces ->
  let out := fold_left (fun pieces r => flat_map (fun p => subtractInterval p r) pieces) sub pieces in
  Forall iv_wf out /\ forall n, ivs_has out n <-> ivs_has pieces n /\ ~ ivs_has sub n.
Proof.
  revert pieces. induction sub as [|r sub IH]; intros pieces Hs Hp; simpl.
  - split; [done|]. intros n. pose proof (ivs_has_nil n). tauto.
  - apply Forall_cons in Hs as [Hr Hs]. rewrite Forall_forall in Hp.
    destruct (IH (flat_map (fun p => subtractInterval p r) pieces)) as [H1 H2]; [done|..].
    { apply Forall_flat_map_iv. intros x Hx. by apply subtractInterval_spec; [apply Hp|]. }
    split; [done|]. intros n. rewrite H2, ivs_has_flat_map, ivs_has_cons.
    assert (Hpieces : (exists x, x ∈ pieces /\ ivs_has (subtractInterval x r) n)
            <-> ivs_has pieces n /\ ~ iv_has r n); [|tauto].
    unfold ivs_has at 2. split.
    + intros (x & Hx & Hn). apply subtractInterval_spec in Hn as [Hn Hr']; [|by apply Hp|done].
      split; [by exists x|done].
    + intros [(x & Hx & Hn) Hr']. exists x. split; [done|]. apply subtractInterval_spec; auto.
Qed.

Lemma subtractAll_spec source sub : Forall iv_wf source -> Forall iv_wf sub ->
  Forall iv_wf (subtractAllIntervals source sub)
  /\ forall n, ivs_has (subtractAllIntervals source sub) n <-> ivs_has source n /\ ~ ivs_has sub n.
Proof.
  intros Hs Hb. rewrite Forall_forall in Hs.
  assert (forall x, x ∈ source -> Forall iv_wf [x]) as Hone.
  { intros x Hx. constructor; [by apply Hs|done]. }
  split.
  - apply Forall_flat_map_iv. intros x Hx. apply (subtract_pieces_spec sub [x] Hb (Hone x Hx)).
  - intros n. unfold subtractAllIntervals. rewrite ivs_has_flat_map. unfold ivs_has at 2. split.
    + intros (x & Hx & Hn). apply (subtract_pieces_spec sub [x] Hb (Hone x Hx)) in Hn as [Hn ?].
      apply ivs_has_singleton in Hn. split; [by exists x|done].
    + intros [(x & Hx & Hn) ?]. exists x. split; [done|].
      apply (subtract_pieces_spec sub [x] Hb (Hone x Hx)). by rewrite ivs_has_singleton.
Qed.

Lemma lookup_Subtract g other sid :
  Subtract g other !! sid =
  l ← g !! sid;
  match other !! sid with
  | None => Some l
  | Some o => let r := subtractAllIntervals l o in if nonempty r then Some r else None
  end.
Proof. unfold Subtract. by rewrite map_lookup_imap. Qed.

Lemma Subtract_wf g other : wf g -> wf other -> wf (Subtract g other).
Proof.
  intros Hg Ho sid l. rewrite lookup_Subtract. intros (l0 & Hl0 & Hl)%bind_Some.
  destruct (Hg _ _ Hl0) as [Hne Hf]. destruct (other !! sid) as [o|] eqn:Eo; [|by simplify_eq].
  destruct (Ho _ _ Eo) as [_ Hof]. simpl in Hl. case_match eqn:En; [|done]. simplify_eq.
  split; [by intros Hnil; rewrite Hnil in En|]. by apply subtractAll_spec.
Qed.

Lemma has_Subtract g other sid n : wf g -> wf other ->
  has (Subtract g other) sid n <-> has g sid n /\ ~ has other sid n.
Proof.
  intros Hg Ho. unfold has. setoid_rewrite lookup_Subtract.
  destruct (g !! sid) as [l|] eqn:El; simpl; [|naive_solver].
  destruct (Hg _ _ El) as [_ Hf].
  destruct (other !! sid) as [o|] eqn:Eo; [|naive_solver].
  destruct (Ho _ _ Eo) as [_ Hof]. destruct (subtractAll_spec l o Hf Hof) as [_ Hh].
  specialize (Hh n). split.
  - intros (r & Hr & Hn). case_match; simplify_eq. apply Hh in Hn. naive_solver.
  - intros [(l' & [= <-] & Hn) Hno].
    assert (ivs_has (subtractAllIntervals l o) n) as Hr by (apply Hh; naive_solver).
    exists (subtractAllIntervals l o). split; [|done].
    destruct (subtractAllIntervals l o); [by apply ivs_has_nil in Hr|done].
Qed.

Lemma IsEmpty_spec g : wf g -> IsEmpty g = true <-> forall sid n, ~ has g sid n.
Proof.
  intros Hg. unfold IsEmpty. rewrite Nat.eqb_eq, map_size_empty_iff. split.
  - intros -> sid n (l & Hl & _). by rewrite lookup_empty in Hl.
  - intros Hno. apply map_empty. intros sid. destruct (g !! sid) as [l|] eqn:El; [|done].
    destruct (Hg _ _ El) as [Hne Hf]. destruct l as [|x l]; [done|].
    destruct (Hno sid (Start x)). exists (x :: l). split; [done|]. apply ivs_has_cons. left.
    apply Forall_cons in Hf as [(_ & _ & ?) _]. unfold iv_has. lia.
Qed.

Lemma bounded_wf g : bounded g -> wf g.
Proof.
  intros Hb sid l Hl. destruct (Hb _ _ Hl) as [? Hf]. split; [done|].
  eapply Forall_impl; [exact Hf|]. apply wf_of_bounded.
Qed.

#[export] Instance has_dec g sid n : Decision (has g sid n).
Proof.
  unfold has. destruct (g !! sid) as [l|].
  - destruct (decide (ivs_has l n)); [left; eauto|right; naive_solver].
  - right. naive_solver.
Defined.

(** ** Properties of the arithmetic *)

(** C33. [Contains] decides inclusion: for a receiver whose intervals all end below
    [MaxInt64], so that the ends can be incremented, and a well-formed argument, the
    coalesce-and-binary-search test answers true exactly when every transaction of the
    argument is in the receiver. C34 is the failure without the bound. *)
Theorem gtid_contains_iff_subset g other : bounded g -> wf other ->
  Contains g other = true <-> forall sid n, has other sid n -> has g sid n.
Proof. apply Contains_spec. Qed.

(** [Subtract] is set difference, on the full [int64] range, and its result
    is well formed: no source is left with an empty list. *)
Theorem gtid_subtract_difference g other : wf g -> wf other ->
  wf (Subtract g other)
  /\ forall sid n, has (Subtract g other) sid n <-> has g sid n /\ ~ has other sid n.
Proof.
  intros Hg Ho. split; [by apply Subtract_wf|]. intros sid n. by apply has_Subtract.
Qed.

(** The two tests the failover code uses for "nothing is missing" agree:
    [g.Contains(other)] and [other.Subtract(g).IsEmpty()]. *)
Theorem gtid_contains_iff_nothing_missing g other : bounded g -> wf other ->
  Contains g other = IsEmpty (Subtract other g).
Proof.
  intros Hg Ho. pose proof (bounded_wf g Hg) as Hgw. apply eq_true_iff_eq.
  rewrite Contains_spec, IsEmpty_spec by (done || by apply Subtract_wf).
  setoid_rewrite has_Subtract; [|done..]. split.
  - intros H sid n [? []]. by apply H.
  - intros H sid n Hn. apply dec_stable. intros Hno. by destruct (H sid n).
Qed.

(** ** Lemmas on parsing and printing *)

Definition iv_printable (x : Interval) : Prop :=
  0 <= Start x /\ Start x <= End_ x /\ End_ x <= MaxInt64.

(** The bytes of a printed interval. *)
Definition interval_char (c : ascii) : bool := is_digit c || Ascii.eqb c "-".

Lemma str_forallb_digits p s : (forall c, is_digit c = true -> p c = true) ->
  str_forallb is_digit s = true -> str_forallb p s = true.
Proof. apply str_forallb_impl. Qed.

Lemma format_interval_cases x : iv_printable x ->
  exists a, str_forallb is_digit a = true /\ a <> "" /\ ParseInt a = Some (Start x) /\
  (format_interval x = a /\ Start x = End_ x
   \/ exists b, str_forallb is_digit b = true /\ b <> "" /\ ParseInt b = Some (End_ x)
        /\ format_interval x = a +:+ String "-" b).
Proof.
  intros (H1 & H2 & H3). exists (FormatInt (Start x)).
  destruct (FormatInt_digits (Start x)) as [Hd Hn]; [lia|].
  destruct (FormatInt_digits (End_ x)) as [Hd' Hn']; [lia|].
  split; [exact Hd|]. split; [exact Hn|]. split; [apply ParseInt_FormatInt_nonneg; lia|].
  unfold format_interval. destruct (Z.eqb_spec (Start x) (End_ x)); [by left|right].
  exists (FormatInt (End_ x)). split; [exact Hd'|]. split; [exact Hn'|].
  split; [apply ParseInt_FormatInt_nonneg; lia|done].
Qed.

Lemma digits_no_dash s : str_forallb is_digit s = true -> lacks "-" s = true.
Proof. by apply lacks_impl. Qed.

Lemma SplitN2_digits s : str_forallb is_digit s = true -> SplitN2 "-" s = [s].
Proof. intros H. unfold SplitN2. by rewrite Cut_absent by (by apply digits_no_dash). Qed.

Lemma SplitN2_range a b : str_forallb is_digit a = true -> SplitN2 "-" (a +:+ String "-" b) = [a; b].
Proof. intros H. unfold SplitN2. by rewrite Cut_found by (by apply digits_no_dash). Qed.

Lemma app_not_empty a b : a <> "" -> a +:+ b <> "".
Proof. by destruct a. Qed.

Lemma format_interval_parse x : iv_printable x ->
  isIntervalSegment (format_interval x) = true /\ parseInterval (format_interval x) = Ok x.
Proof.
  intros Hx. pose proof Hx as (H1 & H2 & H3).
  destruct (format_interval_cases x Hx) as (a & Ha & Hane & Hpa & [[-> Heq]|(b & Hb & Hbne & Hpb & ->)]).
  - unfold isIntervalSegment, parseInterval. rewrite decide_False, SplitN2_digits by done.
    simpl. rewrite bool_decide_eq_false_2, Ha, Hpa by done. simpl.
    rewrite Z.gtb_ltb, Z.ltb_irrefl. split; [done|]. destruct x; simpl in *; by subst.
  - unfold isIntervalSegment, parseInterval.
    rewrite decide_False, SplitN2_range by (done || by apply app_not_empty).
    simpl. rewrite !bool_decide_eq_false_2, Ha, Hb, Hpa, Hpb by done. simpl.
    rewrite Z.gtb_ltb, (proj2 (Z.ltb_ge _ _)) by done. split; [done|]. by destruct x.
Qed.

Lemma format_interval_chars x : iv_printable x ->
  str_forallb interval_char (format_interval x) = true /\ format_interval x <> "".
Proof.
  intros Hx. assert (Hdig : forall s, str_forallb is_digit s = true -> str_forallb interval_char s = true).
  { intros s. apply str_forallb_impl. intros c Hc. unfold interval_char. by rewrite Hc. }
  destruct (format_interval_cases x Hx) as (a & Ha & Hane & _ & [[-> _]|(b & Hb & Hbne & _ & ->)]).
  - split; [by apply Hdig|done].
  - split; [|by apply app_not_empty]. rewrite str_forallb_app, Hdig by done. simpl. by apply Hdig.
Qed.

Lemma interval_char_solid c : interval_char c = true -> solid c = true.
Proof. revert c. byte_solve. Qed.

Lemma uuid_char_solid c : uuid_char c = true -> solid c = true.
Proof. revert c. byte_solve. Qed.

Lemma tag_rest_uuid c : tag_rest c = true -> uuid_char c = true.
Proof. intros H. unfold uuid_char. by rewrite H. Qed.

Lemma tag_first_rest c : tag_first c = true -> tag_rest c = true.
Proof. intros H. unfold tag_rest. by rewrite H. Qed.

Lemma isTag_shape tag : isTagSegment tag = true ->
  exists c rest, tag = String c rest /\ tag_first c = true /\ str_forallb tag_rest rest = true.
Proof.
  destruct tag as [|c rest]; [done|]. unfold isTagSegment.
  rewrite !andb_true_iff. intros [[_ ?] ?]. eauto.
Qed.

Lemma isTag_chars tag : isTagSegment tag = true -> str_forallb tag_rest tag = true.
Proof.
  intros (c & rest & -> & Hc & Hr)%isTag_shape. simpl. by rewrite tag_first_rest.
Qed.

Lemma isTag_not_interval tag : isTagSegment tag = true -> isIntervalSegment tag = false.
Proof.
  intros Ht. pose proof (isTag_chars tag Ht) as Hc. unfold isIntervalSegment.
  destruct (isTag_shape tag Ht) as (c & rest & -> & Hf & _). rewrite decide_False by done.
  unfold SplitN2. rewrite Cut_absent by (by eapply lacks_impl; [|exact Hc]). simpl.
  assert (negb (is_digit c) = true) as ->%negb_true_iff; [|done].
  clear Hc Ht. revert c Hf. byte_solve.
Qed.

Lemma parse_segment_interval part uuid n w i x : iv_printable x ->
  parse_segment part uuid n w (i, format_interval x)
  = Ok {| w_result := append_interval (w_sid w) x (w_result w); w_sid := w_sid w;
          w_pendingTag := ""; w_hasInterval := true |}.
Proof.
  intros Hx. destruct (format_interval_parse x Hx) as [Hi Hp].
  destruct (format_interval_chars x Hx) as [Hc Hn]. unfold parse_segment.
  rewrite TrimSpace_solid by (eapply str_forallb_impl; [apply interval_char_solid|done]).
  destruct ((0 <? i)%nat || (n =? 2)%nat); rewrite ?bool_decide_eq_false_2 by done; simpl;
    by rewrite Hi, Hp.
Qed.

Lemma parse_segments_intervals part uuid n xs segs w :
  Forall iv_printable xs -> map snd segs = map format_interval xs -> xs <> [] ->
  res_fold (parse_segment part uuid n) segs w
  = Ok {| w_result := <[w_sid w := default [] (w_result w !! w_sid w) ++ xs]> (w_result w);
          w_sid := w_sid w; w_pendingTag := ""; w_hasInterval := true |}.
Proof.
  revert segs w. induction xs as [|x xs IH]; intros [|[i s] segs] w Hall Heq Hne; try done.
  simpl in Heq. injection Heq as -> Heq. apply Forall_cons in Hall as [Hx Hall].
  cbn [res_fold]. rewrite parse_segment_interval by done. simpl.
  destruct xs as [|y xs].
  - destruct segs; [|done]. done.
  - rewrite IH by done. simpl. unfold append_interval.
    rewrite lookup_insert_eq. simpl. rewrite insert_insert_eq, <- (assoc_L (++)). done.
Qed.

Lemma parse_segment_tag part uuid n w tag :
  isTagSegment tag = true -> w_pendingTag w = "" ->
  parse_segment part uuid n w (0%nat, tag)
  = Ok {| w_result := w_result w; w_sid := uuid +:+ ":" +:+ lower_ascii tag;
          w_pendingTag := tag; w_hasInterval := w_hasInterval w |}.
Proof.
  intros Ht Hw. pose proof (isTag_chars tag Ht) as Hc. unfold parse_segment.
  rewrite TrimSpace_solid.
  2: { eapply str_forallb_impl; [|exact Hc]. intros c Hcc. by apply uuid_char_solid, tag_rest_uuid. }
  destruct (isTag_shape tag Ht) as (c & rest & Heq & _).
  assert (tag <> "") by (by rewrite Heq).
  destruct ((0 <? 0)%nat || (n =? 2)%nat); rewrite ?bool_decide_eq_false_2 by done; simpl;
    by rewrite isTag_not_interval, Ht, decide_True.
Qed.

Lemma uuid_ok_spec u : uuid_ok u = true -> u <> "" /\ str_forallb uuid_char u = true.
Proof. unfold uuid_ok. rewrite andb_true_iff, negb_true_iff, bool_decide_eq_false. tauto. Qed.

(** The bytes of a printed entry: none is white space, a comma or a newline. *)
Definition entry_char (c : ascii) : bool :=
  uuid_char c || interval_char c || Ascii.eqb c ":".

Lemma entry_char_solid c : entry_char c = true -> solid c = true.
Proof. revert c. byte_solve. Qed.

Lemma uuid_entry c : uuid_char c = true -> entry_char c = true.
Proof. revert c. byte_solve. Qed.

Lemma interval_entry c : interval_char c = true -> entry_char c = true.
Proof. revert c. byte_solve. Qed.

Lemma Join_chars p sep ps : str_forallb p sep = true -> Forall (fun s => str_forallb p s = true) ps ->
  str_forallb p (Join sep ps) = true.
Proof.
  intros Hsep. induction 1 as [|s ps Hs Hps IH]; [done|]. destruct ps as [|q ps]; [done|].
  change (Join sep (s :: q :: ps)) with (s +:+ sep +:+ Join sep (q :: ps)).
  by rewrite !str_forallb_app, Hs, Hsep.
Qed.

Lemma formats_Forall (P : string -> Prop) xs :
  (forall x, iv_printable x -> P (format_interval x)) -> Forall iv_printable xs ->
  Forall P (map format_interval xs).
Proof. intros HP Hxs. apply Forall_map. eapply Forall_impl; [exact Hxs|exact HP]. Qed.

Lemma sid_ok_chars sid : sid_ok sid -> str_forallb entry_char sid = true /\ sid <> "".
Proof.
  assert (forall u, uuid_ok u = true -> str_forallb entry_char u = true /\ u <> "") as Hu.
  { intros u (? & ?)%uuid_ok_spec. split; [|done]. by eapply str_forallb_impl; [apply uuid_entry|]. }
  intros [Hok|(u & tag & -> & Hok%Hu & Ht & _)]; [by apply Hu|].
  destruct Hok as [Hc Hne]. split; [|by apply app_not_empty].
  rewrite str_forallb_app, Hc. change (":" +:+ tag) with (String ":" tag). simpl.
  eapply str_forallb_impl; [|by apply isTag_chars]. intros c Hcc. by apply uuid_entry, tag_rest_uuid.
Qed.

Lemma format_entry_chars g sid l : g !! sid = Some l -> sid_ok sid -> Forall iv_printable l ->
  str_forallb entry_char (format_entry g sid) = true /\ format_entry g sid <> "".
Proof.
  intros Hl Hs Hall. destruct (sid_ok_chars sid Hs) as [Hc Hne].
  unfold format_entry. rewrite Hl. simpl. split; [|by apply app_not_empty].
  rewrite !str_forallb_app, Hc. simpl. apply Join_chars; [done|].
  apply formats_Forall; [|done]. intros x Hx.
  eapply str_forallb_impl; [apply interval_entry|]. by apply format_interval_chars.
Qed.

(** Splitting a printed entry gives back the identifier and the intervals. *)
Lemma Split_entry u segs : lacks ":" u = true -> segs <> [] ->
  Forall (fun s => lacks ":" s = true) segs ->
  Split ":" (u +:+ ":" +:+ Join ":" segs) = u :: segs.
Proof.
  intros Hu Hne Hall. change (":" +:+ Join ":" segs) with (String ":" (Join ":" segs)).
  rewrite Split_cons by done. by rewrite Split_Join.
Qed.

Lemma imap_pair_snd {A} (f : nat -> nat) (l : list A) : map snd (imap (fun i => pair (f i)) l) = l.
Proof.
  revert f. induction l as [|x l IH]; intros f; [done|]. rewrite imap_cons. simpl. f_equal.
  apply (IH (fun i => f (S i))).
Qed.

Lemma uuid_lacks_colon u : str_forallb uuid_char u = true -> lacks ":" u = true.
Proof. by apply lacks_impl. Qed.

Lemma intervals_lack_colon l : Forall iv_printable l ->
  Forall (fun s => lacks ":" s = true) (map format_interval l).
Proof.
  apply formats_Forall. intros x Hx. destruct (format_interval_chars x Hx) as [Hc _].
  by eapply lacks_impl; [|exact Hc].
Qed.

(** An entry that splits into a UUID and segments runs the segment loop. *)
Lemma parse_entry_segments r part uuid segs :
  TrimSpace part = part -> part <> "" -> Split ":" part = uuid :: segs -> segs <> [] -> uuid <> "" ->
  parse_entry r part =
  let? w := res_fold (parse_segment part uuid (S (length segs))) (imap pair segs)
              {| w_result := r; w_sid := uuid; w_pendingTag := ""; w_hasInterval := false |} in
  if decide (w_pendingTag w = "") then
    if w_hasInterval w then Ok (w_result w) else Err (NoIntervals part)
  else Err (TagWithoutInterval (w_pendingTag w) part).
Proof.
  intros Htrim Hpart Hsplit Hsegs Hu. unfold parse_entry.
  rewrite Htrim, decide_False, Hsplit by done. cbn [length head tail default].
  destruct segs as [|s segs]; [done|]. simpl (_ <? _)%nat. cbn iota.
  unfold default, from_option, id. by rewrite decide_False.
Qed.

Lemma parse_entry_format g r sid l :
  g !! sid = Some l -> sid_ok sid -> l <> [] -> Forall iv_printable l -> r !! sid = None ->
  parse_entry r (format_entry g sid) = Ok (<[sid := l]> r).
Proof.
  intros Hl Hs Hne Hall Hr.
  destruct (format_entry_chars g sid l Hl Hs Hall) as [Hc Hpart].
  assert (TrimSpace (format_entry g sid) = format_entry g sid) as Htrim.
  { apply TrimSpace_solid. eapply str_forallb_impl; [apply entry_char_solid|done]. }
  pose proof (intervals_lack_colon l Hall) as Hlc.
  assert (map format_interval l <> []) as Hne' by (by destruct l).
  destruct Hs as [(Hu1 & Hu2)%uuid_ok_spec|(u & tag & -> & (Hu1 & Hu2)%uuid_ok_spec & Ht & Hlow)].
  - rewrite (parse_entry_segments _ _ sid (map format_interval l)); [|done..| |done|done].
    2: { unfold format_entry. rewrite Hl. apply Split_entry; [by apply uuid_lacks_colon|done..]. }
    rewrite (parse_segments_intervals _ _ _ l) by (done || apply (imap_pair_snd id)).
    cbn. by rewrite Hr.
  - pose proof (isTag_chars tag Ht) as Htc.
    rewrite (parse_entry_segments _ _ u (tag :: map format_interval l)); [|done..| |done|done].
    2: { unfold format_entry. rewrite Hl, !app_assoc_str. change (default [] (Some l)) with l.
         trans (Split ":" (u +:+ ":" +:+ Join ":" (tag :: map format_interval l))).
         - by destruct (map format_interval l).
         - apply Split_entry; [by apply uuid_lacks_colon|done|].
           constructor; [|done]. by eapply lacks_impl; [|exact Htc]. }
    rewrite imap_cons. cbn [res_fold]. rewrite parse_segment_tag by done. cbn [res_bind].
    rewrite Hlow, (parse_segments_intervals _ _ _ l) by (done || apply (imap_pair_snd S)).
    cbn. by rewrite Hr.
Qed.

Lemma parse_entries_format g ks r : printable g -> NoDup ks ->
  (forall k, k ∈ ks -> is_Some (g !! k) /\ r !! k = None) ->
  exists r', res_fold parse_entry (map (format_entry g) ks) r = Ok r'
    /\ forall k, r' !! k = if decide (k ∈ ks) then g !! k else r !! k.
Proof.
  intros Hg. revert r. induction ks as [|k ks IH]; intros r Hnd Hks.
  - exists r. split; [done|]. intros k. by rewrite decide_False by apply not_elem_of_nil.
  - apply NoDup_cons in Hnd as [Hk Hnd]. destruct (Hks k) as [[l Hl] Hr]; [left|].
    destruct (Hg _ _ Hl) as (Hs & Hne & Hall). cbn [map res_fold].
    rewrite (parse_entry_format g r k l) by done. cbn [res_bind].
    destruct (IH (<[k:=l]> r) Hnd) as (r' & Heq & Hr').
    { intros k' Hk'. destruct (Hks k') as [? ?]; [by right|]. split; [done|].
      rewrite lookup_insert_ne; [done|by intros ->]. }
    exists r'. split; [done|]. intros k'. rewrite Hr'.
    destruct (decide (k' ∈ ks)) as [Hin|Hin].
    + by rewrite decide_True by (by right).
    + destruct (decide (k = k')) as [->|Hne'].
      * rewrite lookup_insert_eq, decide_True by left. done.
      * rewrite lookup_insert_ne, decide_False by (done || by rewrite elem_of_cons; naive_solver).
        done.
Qed.

Lemma sorted_keys (g : GTIDSet) : NoDup (sort_strings (map fst (map_to_list g)))
  /\ forall k, k ∈ sort_strings (map fst (map_to_list g)) <-> is_Some (g !! k).
Proof.
  pose proof (merge_sort_Permutation String.le (map fst (map_to_list g))) as Hp.
  unfold sort_strings. split.
  - rewrite Hp. apply NoDup_fst_map_to_list.
  - intros k. rewrite Hp, elem_of_map. split.
    + intros ([k' l] & -> & Hin%elem_of_map_to_list). by exists l.
    + intros [l Hl]. exists (k, l). by rewrite elem_of_map_to_list.
Qed.

(** The bytes of a printed set. *)
Definition set_char (c : ascii) : bool := entry_char c || Ascii.eqb c ",".

Lemma set_char_solid c : set_char c = true -> solid c = true.
Proof. revert c. byte_solve. Qed.

Lemma entry_set_char c : entry_char c = true -> set_char c = true.
Proof. revert c. byte_solve. Qed.

Lemma parse_print_set g : printable g -> ParseGTIDSet (GTIDSet_String g) = Ok g.
Proof.
  intros Hg. unfold GTIDSet_String, ParseGTIDSet.
  destruct (Nat.eqb_spec (size g) 0) as [Hz|Hz].
  { apply map_size_empty_iff in Hz as ->. reflexivity. }
  destruct (sorted_keys g) as [Hnd Hkeys].
  set (ks := sort_strings (map fst (map_to_list g))) in *.
  assert (ks <> []) as Hne.
  { intros Hks. apply Hz, map_size_empty_iff, map_empty. intros k.
    destruct (g !! k) eqn:Ek; [|done].
    assert (k ∈ ks) as Hin by (by apply Hkeys). rewrite Hks in Hin. by apply not_elem_of_nil in Hin. }
  assert (Forall (fun s => str_forallb entry_char s = true /\ s <> "") (map (format_entry g) ks)) as Hent.
  { apply Forall_map, Forall_forall. intros k [l Hl]%Hkeys. destruct (Hg _ _ Hl) as (? & ? & ?).
    by eapply format_entry_chars. }
  assert (str_forallb set_char (Join "," (map (format_entry g) ks)) = true) as Hchars.
  { apply Join_chars; [done|]. eapply Forall_impl; [exact Hent|]. intros s [Hs _].
    by eapply str_forallb_impl; [apply entry_set_char|]. }
  assert (Join "," (map (format_entry g) ks) <> "") as Hnempty.
  { destruct ks as [|k [|k' ks]]; [done| |]; apply Forall_cons in Hent as [[_ Hk] _]; [done|].
    by apply (app_not_empty (format_entry g k)). }
  rewrite TrimSpace_solid by (eapply str_forallb_impl; [apply set_char_solid|done]).
  rewrite decide_False by done. rewrite ReplaceByte_lacks by (by eapply lacks_impl; [|exact Hchars]).
  rewrite (Split_Join "," _); [|by destruct ks|].
  2: { eapply Forall_impl; [exact Hent|]. intros s [Hs _]. by eapply lacks_impl; [|exact Hs]. }
  destruct (parse_entries_format g ks ∅ Hg Hnd) as (r' & -> & Hr').
  { intros k Hk. split; [by apply Hkeys|apply lookup_empty]. }
  f_equal. apply map_eq. intros k. rewrite Hr'. case_decide as Hk; [done|].
  rewrite lookup_empty. destruct (g !! k) eqn:Ek; [|done]. destruct Hk. by apply Hkeys.
Qed.

(** Printing then parsing a GTID set gives the set back, interval lists in
    their order: sources are printed sorted, tags stay part of the source
    identifier, and no printed form is mistaken for another. *)
Theorem gtid_parse_print g : printable g -> ParseGTIDSet (GTIDSet_String g) = Ok g.
Proof. apply parse_print_set. Qed.

Lemma parse_digits_nonneg acc s n : 0 <= acc -> parse_digits acc s = Some n -> 0 <= n.
Proof.
  revert acc. induction s as [|c s IH]; intros acc Ha; simpl; [by intros [= <-]|].
  destruct (is_digit c) eqn:Hc; [|done]. apply IH.
  unfold is_digit, byte_in in Hc. apply andb_true_iff in Hc as [Hc%N.leb_le _].
  unfold digit_val. change (N_of_ascii "0") with 48%N in Hc. lia.
Qed.

Lemma ParseInt_digits s n : str_forallb is_digit s = true -> ParseInt s = Some n ->
  0 <= n <= MaxInt64.
Proof.
  intros Hs. rewrite ParseInt_unsigned by done. destruct s as [|c s]; [done|]. cbn [parse_decimal].
  destruct (parse_digits 0 (String c s)) as [m|] eqn:Em; [|done].
  apply parse_digits_nonneg in Em; [|lia]. case_decide; [|done]. intros [= <-]. lia.
Qed.

(** Segments that look like intervals parse to non-negative ranges. *)
Lemma parseInterval_printable s x : isIntervalSegment s = true -> parseInterval s = Ok x ->
  iv_printable x.
Proof.
  unfold isIntervalSegment, parseInterval. case_decide; [done|]. intros Hs.
  rewrite forallb_forall in Hs.
  assert (forall p, p ∈ SplitN2 "-" s -> str_forallb is_digit p = true) as Hp.
  { intros p Hp%list_elem_of_In. specialize (Hs p Hp). by apply andb_true_iff in Hs as [_ ?]. }
  destruct (SplitN2 "-" s) as [|a more]; [done|].
  assert (str_forallb is_digit a = true) as Ha by (apply Hp; left).
  destruct (ParseInt a) as [m|] eqn:Em; [|done]. apply ParseInt_digits in Em; [|done].
  destruct more as [|b more]; simpl.
  - destruct (m >? m) eqn:E; [done|]. intros [= <-]. unfold iv_printable. simpl. lia.
  - assert (str_forallb is_digit b = true) as Hb by (apply Hp; right; left).
    destruct (ParseInt b) as [e|] eqn:Ee; [|done]. apply ParseInt_digits in Ee; [|done]. simpl.
    destruct (m >? e) eqn:E; [done|]. intros [= <-]. rewrite Z.gtb_ltb, Z.ltb_ge in E.
    unfold iv_printable. simpl. lia.
Qed.

(** Every source of the set under construction lists non-negative ranges. *)
Definition listed (g : GTIDSet) : Prop := map_Forall (fun _ l => l <> [] /\ Forall iv_printable l) g.

Lemma append_interval_listed sid x g : iv_printable x -> listed g -> listed (append_interval sid x g).
Proof.
  intros Hx Hg k l. unfold append_interval. destruct (decide (sid = k)) as [->|Hne].
  - rewrite lookup_insert_eq. intros [= <-]. split; [by destruct (default [] (g !! k))|].
    apply Forall_app. split; [|by constructor].
    destruct (g !! k) as [l'|] eqn:E; simpl; [|done]. by destruct (Hg _ _ E).
  - rewrite lookup_insert_ne by done. apply Hg.
Qed.

Lemma parse_segment_listed part uuid n w arg w' :
  listed (w_result w) -> parse_segment part uuid n w arg = Ok w' -> listed (w_result w').
Proof.
  destruct arg as [i raw]. unfold parse_segment. intros Hw.
  generalize (if (0 <? i)%nat || (n =? 2)%nat then TrimSpace raw else raw). intros seg.
  destruct (((0 <? i)%nat || (n =? 2)%nat) && bool_decide (seg = "")); [by intros [= <-]|].
  destruct (isIntervalSegment seg) eqn:Ei.
  - destruct (parseInterval seg) as [x|] eqn:Ep; [|done]. intros [= <-]. simpl.
    apply append_interval_listed; [by eapply parseInterval_printable|done].
  - destruct (isTagSegment seg); [|done]. case_decide; [|done]. by intros [= <-].
Qed.

Lemma parse_entry_listed r raw r' : listed r -> parse_entry r raw = Ok r' -> listed r'.
Proof.
  intros Hr. unfold parse_entry. case_decide; [by intros [= <-]|].
  case_match; [done|]. case_decide; [done|].
  destruct (res_fold _ _ _) as [w|] eqn:Ew; simpl; [|done].
  case_decide; [|done]. destruct (w_hasInterval w); [|done]. intros [= <-].
  eapply (res_fold_inv _ (fun w => listed (w_result w))); [|intros; by eapply parse_segment_listed|exact Ew].
  done.
Qed.

(** Whatever text it accepts, the parser returns a well-formed set: every
    source lists at least one range, and every range is non-empty, non-negative
    and within [int64]. *)
Theorem gtid_parse_well_formed s g : ParseGTIDSet s = Ok g ->
  map_Forall (fun _ l => l <> [] /\ Forall iv_printable l) g.
Proof.
  unfold ParseGTIDSet. assert (listed ∅) as H0 by (intros k l; by rewrite lookup_empty).
  case_decide; [by intros [= <-]|]. intros Hs.
  eapply (res_fold_inv _ listed); [exact H0|intros; by eapply parse_entry_listed|exact Hs].
Qed.

(** C34. The merging step increments an end without a bound, so at the largest
    [int64] the increment wraps and [Contains] misses transactions it holds: the
    parser accepts the set, the transaction is in it, and the test says no. *)
Theorem gtid_contains_overflow :
  exists g other, ParseGTIDSet "u:1-9223372036854775807:3" = Ok g
    /\ ParseGTIDSet "u:5" = Ok other
    /\ (forall sid n, has other sid n -> has g sid n) /\ Contains g other = false.
Proof.
  exists {["u" := [iv 1 MaxInt64; iv 3 3]]}, {["u" := [iv 5 5]]}.
  split; [vm_compute; reflexivity|]. split; [vm_compute; reflexivity|].
  split; [|vm_compute; reflexivity].
  intros sid n (l & [<- <-]%lookup_singleton_Some & Hn). apply ivs_has_singleton in Hn.
  eexists. split; [apply lookup_singleton_eq|]. apply ivs_has_cons. left.
  unfold iv_has, MaxInt64 in *. simpl in *. lia.
Qed.

(** [HasCommonUUIDs] compares servers, not source identifiers: it holds
    exactly when some source of one set and some source of the other have the
    same UUID, whatever their tags. *)
Theorem gtid_common_uuids g other :
  HasCommonUUIDs g other = true <->
  exists sid sid' l l', g !! sid = Some l /\ other !! sid' = Some l' /\ sourceUUID sid = sourceUUID sid'.
Proof.
  unfold HasCommonUUIDs. rewrite existsb_exists. split.
  - intros ([sid l] & Hin & Hd%bool_decide_eq_true). rewrite <- list_elem_of_In, elem_of_map_to_list in Hin.
    apply elem_of_list_to_set, elem_of_map in Hd as ([sid' l'] & Heq & Hin'%elem_of_map_to_list).
    simpl in Heq. by exists sid, sid', l, l'.
  - intros (sid & sid' & l & l' & Hl & Hl' & Heq). exists (sid, l).
    rewrite <- list_elem_of_In, elem_of_map_to_list. split; [done|].
    apply bool_decide_eq_true, elem_of_list_to_set, elem_of_map. exists (sid', l').
    by rewrite elem_of_map_to_list.
Qed.

(** ** Witnesses *)

Definition demo_set : GTIDSet := {["3e11fa47:app" := [iv 1 2]; "3e11fa47" := [iv 1 5; iv 8 8]]}.

Definition demo_sub : GTIDSet := {["3e11fa47" := [iv 2 3]]}.

Example demo_print : GTIDSet_String demo_set = "3e11fa47:1-5:8,3e11fa47:app:1-2".
Proof. vm_compute. reflexivity. Qed.

Example demo_subtract : GTIDSet_String (Subtract demo_set demo_sub) = "3e11fa47:1:4-5:8,3e11fa47:app:1-2".
Proof. vm_compute. reflexivity. Qed.

Lemma demo_bounded : bounded demo_set /\ bounded demo_sub.
Proof.
  split; unfold bounded, demo_set, demo_sub; repeat apply map_Forall_insert_2; try apply map_Forall_empty;
    (split; [done|]); repeat apply Forall_cons_2; try apply Forall_nil_2;
    unfold iv_bounded, MaxGNO, MaxInt64, MinInt64; simpl; lia.
Qed.

Lemma gtid_contains_iff_subset_witness :
  Contains demo_set demo_sub = true /\ forall sid n, has demo_sub sid n -> has demo_set sid n.
Proof.
  split; [vm_compute; reflexivity|].
  apply (gtid_contains_iff_subset demo_set demo_sub); [apply demo_bounded|apply bounded_wf, demo_bounded|].
  vm_compute. reflexivity.
Defined.

Lemma gtid_subtract_difference_witness : wf (Subtract demo_set demo_sub).
Proof.
  apply (gtid_subtract_difference demo_set demo_sub); apply bounded_wf; apply demo_bounded.
Defined.

Lemma gtid_contains_iff_nothing_missing_witness :
  IsEmpty (Subtract demo_sub demo_set) = true /\ Contains demo_set demo_sub = IsEmpty (Subtract demo_sub demo_set).
Proof.
  split; [vm_compute; reflexivity|].
  apply gtid_contains_iff_nothing_missing; [apply demo_bounded|apply bounded_wf, demo_bounded].
Defined.

Lemma demo_printable : printable demo_set.
Proof.
  unfold printable, demo_set. apply map_Forall_insert_2; [|apply map_Forall_insert_2; [|apply map_Forall_empty]].
  - split; [right; by exists "3e11fa47", "app"|]. split; [done|].
    repeat apply Forall_cons_2; try apply Forall_nil_2; unfold MaxInt64; simpl; lia.
  - split; [by left|]. split; [done|].
    repeat apply Forall_cons_2; try apply Forall_nil_2; unfold MaxInt64; simpl; lia.
Qed.

Lemma gtid_parse_print_witness : ParseGTIDSet (GTIDSet_String demo_set) = Ok demo_set.
Proof. apply (gtid_parse_print demo_set). apply demo_printable. Defined.

Lemma gtid_parse_well_formed_witness :
  ParseGTIDSet " a:1-3 , a:App:7 " = Ok {["a:app" := [iv 7 7]; "a" := [iv 1 3]]}
  /\ map_Forall (fun _ l => l <> [] /\ Forall iv_printable l)
       ({["a:app" := [iv 7 7]; "a" := [iv 1 3]]} : GTIDSet).
Proof.
  split; [vm_compute; reflexivity|].
  apply (gtid_parse_well_formed " a:1-3 , a:App:7 "). vm_compute. reflexivity.
Defined.
