(* ===== verification/PlanSet.v ===== *)
(** * The planner's canonical GTID sets ([internal/pitrplan/gtidset.go])

    Per source identifier a sorted, merged, non-empty interval list; the set
    operations are single passes over two such lists. *)
From S2P Require Import Prelude GoStd Intervals GtidSet.

Local Open Scope Z_scope.

Module Plan.

Import GTID.

(** ** Data *)

Record GTID : Type := { SID : string; GNO : Z }.

Definition GTID_String (g : GTID) : string := SID g +:+ ":" +:+ FormatInt (GNO g).

Definition sidUUID (sid : string) : string := fst (Cut ":" sid).

Definition GTID_UUID (g : GTID) : string := sidUUID (SID g).

(** Go's [<] on strings is the byte-wise lexicographic order. *)
Definition Less (g o : GTID) : bool :=
  if decide (SID g = SID o) then GNO g <? GNO o else bool_decide (String.le (SID g) (SID o)).

(** [map[string][]Interval]. *)
Abbreviation Set_ := (gmap string (list Interval)).

Inductive set_error : Type :=
| NotAGtidSet (e : gtid_error)
| GnoOutOfRange (sid : string) (x : Interval).

(** ** Construction *)

Definition normalizeIntervals (l : list Interval) : list Interval :=
  merge_sorted (sort_by_start l).

(** Keep a source only if its list is not empty. *)
Definition keep_nonempty (l : list Interval) : option (list Interval) :=
  if nonempty l then Some l else None.

(** The first interval with an endpoint outside [1..MaxGNO]. Go ranges over the
    map in an unspecified order, so which one it names is not specified. *)
Definition checkGNOs (raw : GTIDSet) : option (string * Interval) :=
  head (filter (fun p => Start p.2 < 1 \/ MaxGNO < End_ p.2)
          (flat_map (fun p => map (pair p.1) p.2) (map_to_list raw))).

Definition FromMySQL (raw : GTIDSet) : Set_ :=
  omap (fun l => keep_nonempty (normalizeIntervals l)) raw.

Definition ParseSet (s : string) : res set_error Set_ :=
  match ParseGTIDSet s with
  | Err e => Err (NotAGtidSet e)
  | Ok raw =>
      match checkGNOs raw with
      | Some (sid, x) => Err (GnoOutOfRange sid x)
      | None => Ok (FromMySQL raw)
      end
  end.

(** [strings.ToLower]; [unicode_lower] is Unicode's mapping, used only on text
    with a byte outside ASCII. *)
Definition ToLower (unicode_lower : string -> string) (s : string) : string :=
  if str_forallb is_ascii_byte s then lower_ascii s else unicode_lower s.

(** The loop of [ParseUserSet] over the map's entries, in the order given. *)
Definition fold_keys (unicode_lower : string -> string) (entries : list (string * list Interval))
  : GTIDSet :=
  fold_left (fun folded p =>
    let key := ToLower unicode_lower p.1 in
    <[key := default [] (folded !! key) ++ p.2]> folded) entries ∅.

Definition ParseUserSet (unicode_lower : string -> string) (s : string) : res set_error Set_ :=
  match ParseGTIDSet s with
  | Err e => Err (NotAGtidSet e)
  | Ok raw =>
      match checkGNOs raw with
      | Some (sid, x) => Err (GnoOutOfRange sid x)
      | None => Ok (FromMySQL (fold_keys unicode_lower (map_to_list raw)))
      end
  end.

Definition normalized (s : Set_) : Set_ :=
  omap (fun l => keep_nonempty (normalizeIntervals l)) s.

(** ** Membership and insertion *)

(** The list of a source, nil when it has none. *)
Definition at_ (s : Set_) (sid : string) : list Interval := default [] (s !! sid).

(** The first interval that ends at or after [n]. *)
Definition search_end (l : list Interval) (n : Z) : nat :=
  Search (length l) (fun i => match l !! i with Some x => End_ x >=? n | None => false end).

Definition Has (s : Set_) (g : GTID) : bool :=
  let l := at_ s (SID g) in
  match l !! search_end l (GNO g) with
  | Some x => Start x <=? GNO g
  | None => false
  end.

(** Whether the interval before index [i] ends just below [n]. *)
Definition extends_prev (l : list Interval) (i : nat) (n : Z) : option Interval :=
  match i with
  | O => None
  | S p => x ← l !! p; if wrap64 (End_ x + 1) =? n then Some x else None
  end.

(** Whether the interval at index [i] starts just above [n]. *)
Definition extends_next (l : list Interval) (i : nat) (n : Z) : option Interval :=
  x ← l !! i; if wrap64 (Start x - 1) =? n then Some x else None.

Definition insert_gno (l : list Interval) (i : nat) (n : Z) : list Interval :=
  match extends_prev l i n, extends_next l i n with
  | Some p, Some x => take (i - 1) l ++ iv (Start p) (End_ x) :: drop (i + 1) l
  | Some p, None => <[(i - 1)%nat := iv (Start p) n]> l
  | None, Some x => <[i := iv n (End_ x)]> l
  | None, None => take i l ++ iv n n :: drop i l
  end.

Definition add (s : Set_) (g : GTID) : Set_ * bool :=
  if Has s g then (s, false)
  else
    let l := at_ s (SID g) in
    (<[SID g := insert_gno l (search_end l (GNO g)) (GNO g)]> s, true).

Definition adjacent (s : Set_) (g : GTID) : bool :=
  let l := at_ s (SID g) in
  let i := search_end l (GNO g) in
  bool_decide (is_Some (extends_prev l i (GNO g))) || bool_decide (is_Some (extends_next l i (GNO g))).

Definition SetOf (gs : list GTID) : Set_ := fold_left (fun s g => fst (add s g)) gs ∅.

(** ** Two-pointer passes *)

(** [unionIntervals]: the lists merged in start order, each interval pushed. *)
Fixpoint union_loop (a b out : list Interval) {struct a} : list Interval :=
  let fix go (b out : list Interval) {struct b} : list Interval :=
    match a, b with
    | [], [] => out
    | [], y :: b' => go b' (merge_push out y)
    | x :: a', [] => union_loop a' [] (merge_push out x)
    | x :: a', y :: b' =>
        if Start x <=? Start y then union_loop a' b (merge_push out x)
        else go b' (merge_push out y)
    end in
  go b out.

Definition unionIntervals (a b : list Interval) : list Interval := rev (union_loop a b []).

(** [for j < len(b) && b[j].End < start { j++ }]. *)
Fixpoint skip_before (start : Z) (b : list Interval) : list Interval :=
  match b with
  | y :: b' => if End_ y <? start then skip_before start b' else b
  | [] => []
  end.

(** The inner loop of [subtractIntervals] on the range [start..end_]: the pieces
    kept and the start of what remains. *)
Fixpoint cut (start end_ : Z) (b : list Interval) : list Interval * Z :=
  match b with
  | y :: b' =>
      if Start y <=? end_ then
        let pre := if Start y >? start then [iv start (wrap64 (Start y - 1))] else [] in
        if End_ y >=? end_ then (pre, wrap64 (end_ + 1))
        else let '(out, s) := cut (wrap64 (End_ y + 1)) end_ b' in (pre ++ out, s)
      else ([], start)
  | [] => ([], start)
  end.

Fixpoint subtractIntervals (a b : list Interval) : list Interval :=
  match a with
  | [] => []
  | x :: a' =>
      let b := skip_before (Start x) b in
      let '(out, s) := cut (Start x) (End_ x) b in
      out ++ (if s <=? End_ x then [iv s (End_ x)] else []) ++ subtractIntervals a' b
  end.

Fixpoint intersectIntervals (a b : list Interval) {struct a} : list Interval :=
  let fix go (b : list Interval) {struct b} : list Interval :=
    match a, b with
    | x :: a', y :: b' =>
        let lo := Z.max (Start x) (Start y) in
        let hi := Z.min (End_ x) (End_ y) in
        (if lo <=? hi then [iv lo hi] else [])
        ++ (if End_ x <? End_ y then intersectIntervals a' b else go b')
    | _, _ => []
    end in
  go b.

Fixpoint overlap_loop (a b : list Interval) {struct a} : bool :=
  let fix go (b : list Interval) {struct b} : bool :=
    match a, b with
    | x :: a', y :: b' =>
        if End_ x <? Start y then overlap_loop a' b
        else if End_ y <? Start x then go b'
        else true
    | _, _ => false
    end in
  go b.

Fixpoint contain_loop (mine l : list Interval) : bool :=
  match l with
  | [] => true
  | x :: l' =>
      let mine := skip_before (Start x) mine in
      match mine with
      | [] => false
      | m :: _ => if (Start m >? Start x) || (End_ m <? End_ x) then false else contain_loop mine l'
      end
  end.

(** ** Set operations *)

Definition Set_IsEmpty (s : Set_) : bool := (size s =? 0)%nat.

(** [Count]'s loop over one flattened list: it stops at the first term that
    would exceed [math.MaxInt64]. *)
Fixpoint count_loop (l : list Interval) (n : Z) : Z :=
  match l with
  | [] => n
  | x :: l =>
      let k := wrap64 (wrap64 (End_ x - Start x) + 1) in
      if k >? wrap64 (MaxInt64 - n) then MaxInt64 else count_loop l (wrap64 (n + k))
  end.

(** The intervals of all sources, in the order the map is iterated. *)
Definition all_intervals (s : Set_) : list Interval := flat_map snd (map_to_list s).

Definition Count (s : Set_) : Z := count_loop (all_intervals s) 0.

Definition Intervals_ (s : Set_) : nat :=
  fold_left (fun n p => (n + length p.2)%nat) (map_to_list s) 0%nat.

Definition Union (s o : Set_) : Set_ :=
  map_imap (fun sid l => Some (unionIntervals l (at_ o sid))) s ∪ o.

Definition Subtract_ (s o : Set_) : Set_ :=
  map_imap (fun sid l => keep_nonempty (subtractIntervals l (at_ o sid))) s.

Definition Intersect (s o : Set_) : Set_ :=
  map_imap (fun sid l => keep_nonempty (intersectIntervals l (at_ o sid))) s.

Definition Overlaps (s o : Set_) : bool :=
  existsb (fun p => overlap_loop p.2 (at_ o p.1)) (map_to_list s).

Definition Contains_ (s o : Set_) : bool :=
  forallb (fun p => contain_loop (at_ s p.1) p.2) (map_to_list o).

Definition Equal (s o : Set_) : bool :=
  (size s =? size o)%nat
  && forallb (fun p => match o !! p.1 with
                       | None => false
                       | Some b => (length b =? length p.2)%nat
                                   && forallb (fun q => bool_decide (q.1 = q.2)) (zip p.2 b)
                       end) (map_to_list s).

Definition UUIDs (s : Set_) : gset string :=
  list_to_set (map (fun p => sidUUID p.1) (map_to_list s)).

Definition OfUUID (s : Set_) (uuid : string) : Set_ :=
  filter (fun p => sidUUID p.1 = uuid) s.

Definition sids (s : Set_) : list string := sort_strings (map fst (map_to_list s)).

(** [for n := iv.Start; n <= iv.End; n++]. *)
Definition gnos (x : Interval) : list Z :=
  map (fun i => Start x + Z.of_nat i) (seq 0 (Z.to_nat (End_ x - Start x + 1))).

Definition GTIDs (s : Set_) : list GTID :=
  flat_map (fun sid => flat_map (fun x => map (Build_GTID sid) (gnos x)) (at_ s sid)) (sids s).

Definition First (s : Set_) : option GTID :=
  match sids s with
  | [] => None
  | sid :: _ => x ← head (at_ s sid); Some {| SID := sid; GNO := Start x |}
  end.

Definition format_interval_colon (x : Interval) : string :=
  ":" +:+ FormatInt (Start x) +:+ (if End_ x =? Start x then "" else "-" +:+ FormatInt (End_ x)).

(** One source of [Set.String], its separating comma included. *)
Definition format_sid (s : Set_) (i : nat) (sid : string) : string :=
  (if (0 <? i)%nat then "," else "") +:+ sid
    +:+ fold_right (fun x acc => format_interval_colon x +:+ acc) "" (at_ s sid).

Definition Set_String (s : Set_) : string :=
  if (size s =? 0)%nat then ""
  else fold_right String.append "" (imap (format_sid s) (sids s)).

(** [bounded]: the text cut at [limit] bytes, with the transaction count. *)
Definition bounded_string (s : Set_) (limit : nat) : string :=
  let str := Set_String s in
  if (String.length str <=? limit)%nat then str
  else String.substring 0 limit str +:+ "… (" +:+ FormatInt (Count s) +:+ " transactions)".

(** ** Specification vocabulary *)

(** Canonical lists hold GNOs from 1 to [MaxGNO]. *)
Definition gcanon (l : list Interval) : Prop := canon_from 1 l /\ Forall (fun x => End_ x <= MaxGNO) l.

(** The invariant of the type: canonical, non-empty lists. *)
Definition canonical (s : Set_) : Prop := map_Forall (fun _ l => l <> [] /\ gcanon l) s.

(** Transaction [sid:n] is in the set. *)
Definition mem (s : Set_) (sid : string) (n : Z) : Prop := ivs_has (at_ s sid) n.

(** The number of transactions. *)
Definition cardinal (s : Set_) : Z := ivs_count (all_intervals s).

(** The GTID order. *)
Definition gtid_lt (g o : GTID) : Prop := Less g o = true.

End Plan.

Import GTID Plan.

(** ** Lemmas on the passes over two lists *)

Lemma gcanon_bounded l : gcanon l -> Forall iv_bounded l.
Proof.
  intros [Hc He]. apply canon_from_Forall in Hc. rewrite Forall_forall in *.
  intros x Hx. specialize (Hc x Hx). specialize (He x Hx). unfold iv_bounded, MinInt64. simpl in *. lia.
Qed.

Lemma gcanon_nil : gcanon [].
Proof. done. Qed.

(** Every producer below yields a canonical list whose ends are bounded. *)
Lemma gcanon_intro l : canon_from 1 l -> Forall iv_bounded l -> gcanon l.
Proof.
  intros Hc Hb. split; [done|]. eapply Forall_impl; [exact Hb|]. by intros x (_ & _ & ?).
Qed.

Lemma union_loop_merge a b out :
  union_loop a b out = fold_left merge_push (list_merge start_le a b) out.
Proof.
  revert b out. induction a as [|x a IHa]; intros b out.
  - rewrite list_merge_nil_l. revert out. induction b as [|y b IHb]; intros out; [done|]. apply IHb.
  - revert out. induction b as [|y b IHb]; intros out.
    + rewrite list_merge_nil_r. simpl. rewrite IHa. by rewrite list_merge_nil_r.
    + rewrite list_merge_cons. simpl.
      destruct (Z.leb_spec (Start x) (Start y)).
      * rewrite decide_True by done. simpl. apply IHa.
      * rewrite decide_False by (unfold start_le; lia). simpl. apply IHb.
Qed.

Lemma canon_sorted lo l : canon_from lo l -> StronglySorted start_le l.
Proof.
  revert lo. induction l as [|x l IH]; intros lo; [constructor|]. intros (H1 & H2 & H3).
  constructor; [by eapply IH|]. apply canon_from_Forall in H3.
  eapply Forall_impl; [exact H3|]. unfold start_le. simpl. lia.
Qed.

Lemma union_spec a b : gcanon a -> gcanon b ->
  gcanon (unionIntervals a b) /\ forall n, ivs_has (unionIntervals a b) n <-> ivs_has a n \/ ivs_has b n.
Proof.
  intros Ha Hb. unfold unionIntervals. rewrite union_loop_merge.
  assert (list_merge start_le a b ≡ₚ a ++ b) as Hp by apply merge_Permutation.
  destruct (merge_sorted_spec (list_merge start_le a b) 1) as (H1 & H2 & H3).
  - apply Sorted_StronglySorted; [apply _|]. apply Sorted_list_merge; [apply _|..];
      apply StronglySorted_Sorted; eapply canon_sorted; [apply Ha|apply Hb].
  - rewrite Hp. apply Forall_app. split; by apply gcanon_bounded.
  - intros y. rewrite Hp, elem_of_app. destruct Ha as [Ha _], Hb as [Hb _].
    apply canon_from_Forall in Ha, Hb. rewrite Forall_forall in Ha, Hb.
    intros [Hy|Hy]; [specialize (Ha y Hy)|specialize (Hb y Hy)]; simpl in *; lia.
  - split; [by apply gcanon_intro|]. intros n. fold (merge_sorted (list_merge start_le a b)).
    rewrite H3, (ivs_has_perm _ _ n Hp). apply ivs_has_app.
Qed.

(** Appending a canonical list above the ends of another. *)
Lemma canon_from_app lo mid l1 l2 :
  canon_from lo l1 -> Forall (fun x => End_ x + 2 <= mid) l1 -> lo <= mid -> canon_from mid l2 ->
  canon_from lo (l1 ++ l2).
Proof.
  revert lo. induction l1 as [|x l1 IH]; intros lo Hc Hf Hlo Hl2; simpl.
  - by eapply canon_from_mono.
  - destruct Hc as (H1 & H2 & H3). apply Forall_cons in Hf as [Hx Hf].
    split; [done|]. split; [done|]. by apply IH.
Qed.

Lemma skip_before_spec start lo b : canon_from lo b ->
  (exists lo', canon_from lo' (skip_before start b))
  /\ (forall n, start <= n -> ivs_has (skip_before start b) n <-> ivs_has b n)
  /\ match skip_before start b with [] => True | y :: _ => start <= End_ y end
  /\ (forall x, x ∈ skip_before start b -> x ∈ b).
Proof.
  revert lo. induction b as [|y b IH]; intros lo Hc; simpl; [eauto|].
  destruct (Z.ltb_spec (End_ y) start) as [Hlt|Hge].
  - destruct Hc as (H1 & H2 & H3). destruct (IH _ H3) as (G1 & G2 & G3 & G4).
    split; [done|]. split; [|split; [done|intros x Hx; right; by apply G4]].
    intros n Hn. rewrite G2, ivs_has_cons by done. unfold iv_has. split; [by right|].
    intros [?|?]; [lia|done].
  - split; [by exists lo|]. done.
Qed.

(** The pieces of [start..e] left by a canonical list that does not end before
    [start]. *)
Lemma cut_spec b start e lo :
  1 <= start <= e -> e <= MaxGNO -> canon_from lo b -> Forall (fun x => End_ x <= MaxGNO) b ->
  match b with [] => True | y :: _ => start <= End_ y end ->
  let '(out, s) := cut start e b in
  let piece := out ++ (if s <=? e then [iv s e] else []) in
  canon_from start piece /\ Forall (fun x => End_ x <= e) piece
  /\ forall n, ivs_has piece n <-> start <= n <= e /\ ~ ivs_has b n.
Proof.
  revert start lo. induction b as [|y b IH]; intros start lo Hs He Hc Hb Hh; simpl.
  - rewrite (proj2 (Z.leb_le start e)) by lia. split; [simpl; lia|]. split; [by constructor; simpl|].
    intros n. autorewrite with ivs. unfold iv_has. simpl. lia.
  - apply Forall_cons in Hb as [Hyb Hb]. destruct Hc as (H1 & H2 & H3).
    assert (Hlow : forall n, ivs_has b n -> End_ y + 2 <= n) by (intros; by eapply canon_from_lower).
    unfold MaxGNO, MaxInt64 in *.
    destruct (Z.leb_spec (Start y) e) as [Hye|Hye]; cycle 1.
    { simpl. rewrite (proj2 (Z.leb_le start e)) by lia. split; [simpl; lia|].
      split; [by constructor; simpl|]. intros n. autorewrite with ivs. unfold iv_has. simpl. split; [|lia].
      intros Hn. split; [done|]. intros [?|?%Hlow]; lia. }
    rewrite Z.gtb_ltb, Z.geb_leb.
    set (pre := if start <? Start y then [iv start (wrap64 (Start y - 1))] else []).
    assert (canon_from start pre /\ Forall (fun x => End_ x < Start y) pre
            /\ forall n, ivs_has pre n <-> start <= n < Start y) as (P1 & P2 & P3).
    { unfold pre. destruct (Z.ltb_spec start (Start y)); unwrap.
      - split; [simpl; lia|]. split; [by constructor; simpl; [lia|]|].
        intros n. autorewrite with ivs. unfold iv_has. simpl. lia.
      - split; [done|]. split; [done|]. intros n. rewrite ivs_has_nil_iff. lia. }
    destruct (Z.leb_spec e (End_ y)) as [Hey|Hey].
    + unwrap. rewrite (proj2 (Z.leb_gt (e + 1) e)), app_nil_r by lia.
      split; [done|]. split; [eapply Forall_impl; [exact P2|]; simpl; lia|].
      intros n. rewrite P3, ivs_has_cons. unfold iv_has. split.
      * intros Hn. split; [lia|]. intros [?|?%Hlow]; lia.
      * intros [Hn Hno]. destruct (Z.lt_ge_cases n (Start y)); [lia|]. destruct Hno. left. lia.
    + unwrap. assert (match b with [] => True | z :: _ => End_ y + 1 <= End_ z end) as Hh'.
      { destruct b as [|z b]; [done|]. destruct H3 as (? & ? & _). lia. }
      specialize (IH (End_ y + 1) _ ltac:(lia) ltac:(lia) H3 Hb Hh').
      destruct (cut (End_ y + 1) e b) as [out s]. destruct IH as (I1 & I2 & I3).
      rewrite <- (assoc_L (++)). split; [|split].
      * apply (canon_from_app _ (End_ y + 1)); [done| |lia|done].
        eapply Forall_impl; [exact P2|]. simpl. lia.
      * apply Forall_app. split; [eapply Forall_impl; [exact P2|]; simpl; lia|done].
      * intros n. rewrite ivs_has_app, P3, I3, ivs_has_cons. unfold iv_has. split.
        -- intros [Hn|[Hn Hno]]; (split; [lia|]); intros [?|Hb']; try lia; [|tauto].
           apply Hlow in Hb'. lia.
        -- intros [Hn Hno]. destruct (Z.lt_ge_cases n (Start y)); [left; lia|right].
           split; [|tauto]. destruct (Z.le_gt_cases n (End_ y)); [destruct Hno; left; lia|lia].
Qed.

Lemma subtract_loop_spec a b lo lob :
  1 <= lo -> canon_from lo a -> Forall (fun x => End_ x <= MaxGNO) a ->
  canon_from lob b -> Forall (fun x => End_ x <= MaxGNO) b ->
  canon_from lo (subtractIntervals a b) /\ Forall (fun x => End_ x <= MaxGNO) (subtractIntervals a b)
  /\ forall n, ivs_has (subtractIntervals a b) n <-> ivs_has a n /\ ~ ivs_has b n.
Proof.
  revert b lo lob. induction a as [|x a IH]; intros b lo lob Hlo Ha Hae Hb Hbe; simpl.
  - split; [done|]. split; [done|]. intros n. rewrite ivs_has_nil_iff. tauto.
  - destruct Ha as (H1 & H2 & H3). apply Forall_cons in Hae as [Hxe Hae].
    destruct (skip_before_spec (Start x) lob b Hb) as ((lob' & S1) & S2 & S3 & S4).
    assert (Forall (fun x => End_ x <= MaxGNO) (skip_before (Start x) b)) as S5.
    { rewrite Forall_forall in *. intros z Hz. apply Hbe. by apply S4. }
    pose proof (cut_spec (skip_before (Start x) b) (Start x) (End_ x) lob'
      ltac:(lia) Hxe S1 S5 S3) as Hcut.
    destruct (cut (Start x) (End_ x) (skip_before (Start x) b)) as [out s].
    destruct Hcut as (C1 & C2 & C3).
    destruct (IH (skip_before (Start x) b) (End_ x + 2) lob' ltac:(lia) H3 Hae S1 S5) as (I1 & I2 & I3).
    rewrite (assoc_L (++)). split; [|split].
    + apply (canon_from_app _ (End_ x + 2)); [by eapply canon_from_mono|..|lia|done].
      eapply Forall_impl; [exact C2|]. simpl. lia.
    + apply Forall_app. split; [|done]. eapply Forall_impl; [exact C2|]. simpl. lia.
    + intros n. rewrite ivs_has_app, C3, I3, ivs_has_cons. unfold iv_has. split.
      * intros [[Hn Hno]|[Hn Hno]].
        -- split; [by left|]. by rewrite <- S2 by lia.
        -- split; [by right|]. pose proof (canon_from_lower _ _ _ H3 Hn). by rewrite <- S2 by lia.
      * intros [[Hn|Hn] Hno]; [left|right]; (split; [done|]).
        -- by rewrite S2 by lia.
        -- pose proof (canon_from_lower _ _ _ H3 Hn). by rewrite S2 by lia.
Qed.

Lemma subtract_spec a b : gcanon a -> gcanon b ->
  gcanon (subtractIntervals a b)
  /\ forall n, ivs_has (subtractIntervals a b) n <-> ivs_has a n /\ ~ ivs_has b n.
Proof.
  intros [Ha Hae] [Hb Hbe].
  destruct (subtract_loop_spec a b 1 1 ltac:(lia) Ha Hae Hb Hbe) as (H1 & H2 & H3). done.
Qed.

(** The heads of two canonical lists: which of them can be dropped. *)
Lemma intersect_loop_spec a b lo lob :
  canon_from lo a -> canon_from lob b ->
  canon_from (Z.max lo lob) (intersectIntervals a b)
  /\ (forall x, x ∈ intersectIntervals a b -> exists y, y ∈ a /\ End_ x <= End_ y)
  /\ forall n, ivs_has (intersectIntervals a b) n <-> ivs_has a n /\ ivs_has b n.
Proof.
  revert b lo lob. induction a as [|x a IHa]; intros b lo lob Ha Hb.
  { destruct b; simpl; (split; [done|]); (split; [by intros ? ?%not_elem_of_nil|]);
      intros n; autorewrite with ivs; tauto. }
  revert lob Hb. induction b as [|y b IHb]; intros lob Hb.
  { simpl. split; [done|]. split; [by intros ? ?%not_elem_of_nil|]. intros n. autorewrite with ivs. tauto. }
  simpl. pose proof Ha as (A1 & A2 & A3). pose proof Hb as (B1 & B2 & B3).
  assert (La : forall n, ivs_has a n -> End_ x + 2 <= n) by (intros; by eapply canon_from_lower).
  assert (Lb : forall n, ivs_has b n -> End_ y + 2 <= n) by (intros; by eapply canon_from_lower).
  set (here := if Z.max (Start x) (Start y) <=? Z.min (End_ x) (End_ y) then _ else _).
  assert (Hhere : forall n, ivs_has here n <-> iv_has x n /\ iv_has y n).
  { intros n. unfold here, iv_has. destruct (Z.leb_spec (Z.max (Start x) (Start y)) (Z.min (End_ x) (End_ y)));
      autorewrite with ivs; unfold iv_has; simpl; lia. }
  destruct (Z.ltb_spec (End_ x) (End_ y)) as [Hlt|Hge].
  - destruct (IHa (y :: b) (End_ x + 2) lob A3 Hb) as (I1 & I2 & I3). split; [|split].
    + apply (canon_from_app _ (Z.max (End_ x + 2) lob)); [..|lia|done]; unfold here; case_match; try done; zify_bool.
      * simpl. lia.
      * by constructor; simpl; [lia|].
    + intros z [Hz|Hz]%elem_of_app.
      * exists x. split; [left|]. revert Hz. unfold here. case_match; [|by intros ?%not_elem_of_nil].
        intros ->%list_elem_of_singleton. simpl. lia.
      * destruct (I2 z Hz) as (w & ? & ?). exists w. split; [by right|done].
    + intros n. rewrite ivs_has_app, Hhere, I3, !ivs_has_cons. split; [tauto|].
      intros [[Hx|Hn] [Hy|Hm]]; try tauto. apply Lb in Hm. unfold iv_has in *. lia.
  - destruct (IHb (End_ y + 2) B3) as (I1 & I2 & I3). split; [|split].
    + apply (canon_from_app _ (Z.max lo (End_ y + 2))); [..|lia|done]; unfold here; case_match; try done; zify_bool.
      * simpl. lia.
      * by constructor; simpl; [lia|].
    + intros z [Hz|Hz]%elem_of_app.
      * exists x. split; [left|]. revert Hz. unfold here. case_match; [|by intros ?%not_elem_of_nil].
        intros ->%list_elem_of_singleton. simpl. lia.
      * by apply I2.
    + intros n. rewrite ivs_has_app, Hhere.
      setoid_rewrite I3. rewrite !ivs_has_cons. split; [tauto|].
      intros [[Hx|Hn] [Hy|Hm]]; try tauto. apply La in Hn. unfold iv_has in *. lia.
Qed.

Lemma intersect_spec a b : gcanon a -> gcanon b ->
  gcanon (intersectIntervals a b)
  /\ forall n, ivs_has (intersectIntervals a b) n <-> ivs_has a n /\ ivs_has b n.
Proof.
  intros [Ha Hae] [Hb Hbe]. destruct (intersect_loop_spec a b 1 1 Ha Hb) as (H1 & H2 & H3).
  split; [|done]. split; [done|]. rewrite Forall_forall in *. intros x Hx.
  destruct (H2 x Hx) as (y & Hy & ?). specialize (Hae y Hy). lia.
Qed.

Lemma overlap_spec a b lo lob : canon_from lo a -> canon_from lob b ->
  overlap_loop a b = true <-> exists n, ivs_has a n /\ ivs_has b n.
Proof.
  revert b lo lob. induction a as [|x a IHa]; intros b lo lob Ha Hb.
  { destruct b; simpl; split; try done; by intros (n & []%ivs_has_nil & _). }
  revert lob Hb. induction b as [|y b IHb]; intros lob Hb.
  { simpl. split; [done|]. by intros (n & _ & []%ivs_has_nil). }
  simpl. pose proof Ha as (A1 & A2 & A3). pose proof Hb as (B1 & B2 & B3).
  setoid_rewrite ivs_has_cons.
  destruct (Z.ltb_spec (End_ x) (Start y)) as [Hxy|Hxy]; [|destruct (Z.ltb_spec (End_ y) (Start x)) as [Hyx|Hyx]].
  - rewrite (IHa _ _ _ A3 Hb). setoid_rewrite ivs_has_cons. split; [naive_solver|].
    intros (n & [Hx|Hn] & Hm); [|by eauto].
    assert (Start y <= n) by (destruct Hm as [Hm|Hm]; [unfold iv_has in Hm; lia|];
      pose proof (canon_from_lower _ _ _ B3 Hm); lia). unfold iv_has in Hx. lia.
  - setoid_rewrite (IHb _ B3). setoid_rewrite ivs_has_cons. split; [naive_solver|].
    intros (n & Hm & [Hy|Hn]); [|by eauto].
    assert (Start x <= n) by (destruct Hm as [Hm|Hm]; [unfold iv_has in Hm; lia|];
      pose proof (canon_from_lower _ _ _ A3 Hm); lia). unfold iv_has in Hy. lia.
  - split; [intros _|done]. exists (Z.max (Start x) (Start y)). unfold iv_has.
    split; left; lia.
Qed.

Lemma contain_spec mine l lom lo : canon_from lom mine -> canon_from lo l ->
  contain_loop mine l = true <-> forall n, ivs_has l n -> ivs_has mine n.
Proof.
  revert mine lom lo. induction l as [|x l IH]; intros mine lom lo Hm Hl; simpl.
  { split; [by intros _ n []%ivs_has_nil|done]. }
  destruct Hl as (H1 & H2 & H3).
  destruct (skip_before_spec (Start x) lom mine Hm) as ((lom' & S1) & S2 & S3 & _).
  assert (Hl' : forall n, ivs_has l n -> Start x <= n).
  { intros n Hn. pose proof (canon_from_lower _ _ _ H3 Hn). lia. }
  assert (Hgoal : (forall n, ivs_has (x :: l) n -> ivs_has mine n)
    <-> (forall n, Start x <= n <= End_ x -> ivs_has (skip_before (Start x) mine) n)
        /\ (forall n, ivs_has l n -> ivs_has (skip_before (Start x) mine) n)).
  { setoid_rewrite ivs_has_cons. unfold iv_has. split.
    - intros H. split; intros n Hn; apply S2; auto; lia.
    - intros [G1 G2] n [Hn|Hn]; [apply (S2 n); [lia|]; by apply G1|apply (S2 n); auto]. }
  rewrite Hgoal, (canon_covers _ _ _ _ S1 H2). clear Hgoal S2.
  destruct (skip_before (Start x) mine) as [|m rest] eqn:Em.
  { split; [done|]. by intros [(z & ?%not_elem_of_nil & _) _]. }
  rewrite Z.gtb_ltb. pose proof S1 as (M1 & M2 & M3).
  destruct (Z.ltb_spec (Start x) (Start m)); [|destruct (Z.ltb_spec (End_ m) (End_ x))]; simpl.
  - split; [done|]. intros [(z & [->|Hz]%elem_of_cons & ? & ?) _]; [lia|].
    apply canon_from_Forall in M3. rewrite Forall_forall in M3. specialize (M3 z Hz). simpl in M3. lia.
  - split; [done|]. intros [(z & [->|Hz]%elem_of_cons & ? & ?) _]; [lia|].
    apply canon_from_Forall in M3. rewrite Forall_forall in M3. specialize (M3 z Hz). simpl in M3. lia.
  - rewrite (IH _ _ _ S1 H3). split; [|tauto]. intros ?. split; [|done].
    exists m. split; [left|lia].
Qed.

(** ** Lemmas on sets *)

Lemma canonical_lookup s sid l : canonical s -> s !! sid = Some l -> l <> [] /\ gcanon l.
Proof. intros Hs Hl. exact (Hs sid l Hl). Qed.

Lemma canonical_at s sid : canonical s -> gcanon (at_ s sid).
Proof.
  intros Hs. unfold at_. destruct (s !! sid) as [l|] eqn:Hl; simpl; [|apply gcanon_nil].
  by apply (canonical_lookup s sid).
Qed.

Lemma gcanon_unique a b : gcanon a -> gcanon b -> (forall n, ivs_has a n <-> ivs_has b n) -> a = b.
Proof. intros [Ha _] [Hb _]. by eapply canon_unique. Qed.

(** A canonical set is determined by the transactions it holds. *)
Lemma canonical_ext s o : canonical s -> canonical o ->
  (forall sid n, mem s sid n <-> mem o sid n) -> s = o.
Proof.
  intros Hs Ho Heq. apply map_eq. intros sid.
  assert (at_ s sid = at_ o sid) as Hat.
  { apply gcanon_unique; [by apply canonical_at..|]. intros n. apply Heq. }
  unfold at_ in Hat. destruct (s !! sid) as [l|] eqn:E1, (o !! sid) as [k|] eqn:E2; simpl in Hat;
    [by subst|..|done].
  - by destruct (canonical_lookup s sid l Hs E1).
  - by destruct (canonical_lookup o sid k Ho E2).
Qed.

Lemma keep_nonempty_at l : default [] (keep_nonempty l) = l.
Proof. by destruct l. Qed.

Lemma keep_nonempty_canonical l k : gcanon l -> keep_nonempty l = Some k -> k <> [] /\ gcanon k.
Proof. unfold keep_nonempty. destruct l; simpl; [done|]. intros ? [= <-]. done. Qed.

Lemma at_Union s o sid : canonical s -> canonical o ->
  at_ (Union s o) sid = match s !! sid with
                        | Some l => unionIntervals l (at_ o sid)
                        | None => at_ o sid
                        end.
Proof.
  intros Hs Ho. unfold Union, at_. rewrite lookup_union, map_lookup_imap.
  by destruct (s !! sid), (o !! sid).
Qed.

Lemma ivs_has_nonempty l lo : canon_from lo l -> l <> [] -> exists n, ivs_has l n.
Proof.
  destruct l as [|x l]; [done|]. intros (H1 & H2 & H3) _. exists (Start x).
  rewrite ivs_has_cons. left. unfold iv_has. lia.
Qed.

Lemma at_eq s sid : at_ s sid = default [] (s !! sid).
Proof. done. Qed.

Lemma Union_spec s o : canonical s -> canonical o ->
  canonical (Union s o) /\ forall sid n, mem (Union s o) sid n <-> mem s sid n \/ mem o sid n.
Proof.
  intros Hs Ho. split.
  - intros sid k. unfold Union. rewrite lookup_union, map_lookup_imap.
    destruct (s !! sid) as [l|] eqn:E1; simpl.
    + destruct (canonical_lookup s sid l Hs E1) as [Hn Hl].
      destruct (union_spec l (at_ o sid) Hl (canonical_at o sid Ho)) as [Hu Hmem].
      intros Hk. assert (k = unionIntervals l (at_ o sid)) as ->
        by (revert Hk; generalize (at_ o sid) as b; destruct (o !! sid); intros b [= <-]; done).
      split; [|done]. intros Hnil. destruct (ivs_has_nonempty l 1 (proj1 Hl) Hn) as [n Hin].
      apply (ivs_has_nil n). rewrite <- Hnil. apply Hmem. by left.
    + rewrite (left_id_L None union). apply canonical_lookup. exact Ho.
  - intros sid n. unfold mem. rewrite at_Union, (at_eq s sid) by done.
    destruct (s !! sid) as [l|] eqn:E1; simpl; [|rewrite ivs_has_nil_iff; tauto].
    apply union_spec; [by apply (canonical_lookup s sid)|by apply canonical_at].
Qed.

Lemma imap_keep_spec (f : list Interval -> list Interval -> list Interval)
    (P : Prop -> Prop -> Prop) s o :
  (forall a b, gcanon a -> gcanon b ->
    gcanon (f a b) /\ forall n, ivs_has (f a b) n <-> P (ivs_has a n) (ivs_has b n)) ->
  (forall Q R : Prop, P Q R -> Q) ->
  canonical s -> canonical o ->
  let r := map_imap (fun sid l => keep_nonempty (f l (at_ o sid))) s in
  canonical r /\ forall sid n, mem r sid n <-> P (mem s sid n) (mem o sid n).
Proof.
  intros Hf HP Hs Ho r. split.
  - intros sid k. unfold r. rewrite map_lookup_imap. destruct (s !! sid) as [l|] eqn:E1; simpl; [|done].
    apply keep_nonempty_canonical, Hf; [by apply (canonical_lookup s sid)|by apply canonical_at].
  - intros sid n. unfold mem. rewrite (at_eq r sid), (at_eq s sid). unfold r. rewrite map_lookup_imap.
    destruct (s !! sid) as [l|] eqn:E1; simpl.
    + rewrite keep_nonempty_at. apply Hf; [by apply (canonical_lookup s sid)|by apply canonical_at].
    + split; [by intros ?%ivs_has_nil|apply HP].
Qed.

Lemma Subtract_spec s o : canonical s -> canonical o ->
  canonical (Subtract_ s o) /\ forall sid n, mem (Subtract_ s o) sid n <-> mem s sid n /\ ~ mem o sid n.
Proof.
  apply (imap_keep_spec subtractIntervals (fun Q R => Q /\ ~ R)); [apply subtract_spec|tauto].
Qed.

Lemma Intersect_spec s o : canonical s -> canonical o ->
  canonical (Intersect s o) /\ forall sid n, mem (Intersect s o) sid n <-> mem s sid n /\ mem o sid n.
Proof. apply (imap_keep_spec intersectIntervals and); [apply intersect_spec|tauto]. Qed.

Lemma Contains_mem s o : canonical s -> canonical o ->
  Contains_ s o = true <-> forall sid n, mem o sid n -> mem s sid n.
Proof.
  intros Hs Ho. unfold Contains_. rewrite forallb_forall. split.
  - intros H sid n Hn. unfold mem, at_ in Hn. destruct (o !! sid) as [l|] eqn:E; simpl in Hn;
      [|by apply ivs_has_nil in Hn].
    specialize (H (sid, l)). rewrite <- list_elem_of_In, elem_of_map_to_list in H. specialize (H E).
    destruct (canonical_lookup o sid l Ho E) as [_ [Hl _]]. destruct (canonical_at s sid Hs) as [Hm _].
    rewrite (contain_spec _ _ _ _ Hm Hl) in H. by apply H.
  - intros H [sid l]. rewrite <- list_elem_of_In, elem_of_map_to_list. intros E.
    destruct (canonical_lookup o sid l Ho E) as [_ [Hl _]]. destruct (canonical_at s sid Hs) as [Hm _].
    rewrite (contain_spec _ _ _ _ Hm Hl). intros n Hn. apply H. unfold mem, at_. by rewrite E.
Qed.

Lemma Overlaps_mem s o : canonical s -> canonical o ->
  Overlaps s o = true <-> exists sid n, mem s sid n /\ mem o sid n.
Proof.
  intros Hs Ho. unfold Overlaps. rewrite existsb_exists. split.
  - intros ([sid l] & Hin & Hov). rewrite <- list_elem_of_In, elem_of_map_to_list in Hin.
    destruct (canonical_lookup s sid l Hs Hin) as [_ [Hl _]]. destruct (canonical_at o sid Ho) as [Hm _].
    rewrite (overlap_spec _ _ _ _ Hl Hm) in Hov. destruct Hov as (n & ? & ?).
    exists sid, n. unfold mem, at_ at 1. by rewrite Hin.
  - intros (sid & n & Hn & Hm). unfold mem, at_ in Hn.
    destruct (s !! sid) as [l|] eqn:E; simpl in Hn; [|by apply ivs_has_nil in Hn].
    exists (sid, l). rewrite <- list_elem_of_In, elem_of_map_to_list. split; [done|].
    destruct (canonical_lookup s sid l Hs E) as [_ [Hl _]]. destruct (canonical_at o sid Ho) as [Ho' _].
    rewrite (overlap_spec _ _ _ _ Hl Ho'). by exists n.
Qed.

Lemma zip_all_eq {A} `{EqDecision A} (a b : list A) : length b = length a ->
  forallb (fun q => bool_decide (q.1 = q.2)) (zip a b) = true -> a = b.
Proof.
  revert b. induction a as [|x a IH]; intros [|y b]; simpl; try done. intros [= Hl] [Hx Hr]%andb_true_iff.
  apply bool_decide_eq_true in Hx. simpl in Hx. subst. f_equal. by apply IH.
Qed.

Lemma zip_refl_eq {A} `{EqDecision A} (a : list A) :
  forallb (fun q => bool_decide (q.1 = q.2)) (zip a a) = true.
Proof. induction a as [|x a IH]; simpl; [done|]. rewrite IH. by rewrite bool_decide_true. Qed.

(** [Equal] compares the representations. *)
Lemma Equal_eq s o : Equal s o = true <-> s = o.
Proof.
  unfold Equal. rewrite andb_true_iff, Nat.eqb_eq, forallb_forall. split.
  - intros [Hsz H]. apply map_eq.
    assert (s ⊆ o) as Hsub.
    { apply map_subseteq_spec. intros sid l E. specialize (H (sid, l)).
      rewrite <- list_elem_of_In, elem_of_map_to_list in H. specialize (H E). simpl in H.
      destruct (o !! sid) as [b|]; [|done]. apply andb_true_iff in H as [Hl Hz].
      apply Nat.eqb_eq in Hl. f_equal. symmetry. by apply zip_all_eq. }
    intros sid. destruct (decide (s = o)) as [->|Hne]; [done|].
    pose proof (map_subset_size s o) as Hlt. assert (s ⊂ o) as Hss.
    { split; [done|]. intros Hos. destruct Hne. by apply (anti_symm (⊆)). }
    specialize (Hlt Hss). lia.
  - intros ->. split; [done|]. intros [sid l]. rewrite <- list_elem_of_In, elem_of_map_to_list. intros E.
    simpl. rewrite E. by rewrite Nat.eqb_refl, zip_refl_eq.
Qed.

Lemma Set_IsEmpty_mem s : canonical s -> Set_IsEmpty s = true <-> forall sid n, ~ mem s sid n.
Proof.
  intros Hs. unfold Set_IsEmpty. rewrite Nat.eqb_eq, map_size_empty_iff. split.
  - intros -> sid n. unfold mem, at_. rewrite lookup_empty. apply ivs_has_nil.
  - intros H. apply map_eq. intros sid. rewrite lookup_empty. destruct (s !! sid) as [l|] eqn:E; [|done].
    destruct (canonical_lookup s sid l Hs E) as [Hn [Hl _]].
    destruct (ivs_has_nonempty l 1 Hl Hn) as [n Hin]. destruct (H sid n). unfold mem, at_. by rewrite E.
Qed.

(** ** Lemmas on insertion *)

(** The least number that may start an interval after the list. *)
Fixpoint next_from (lo : Z) (l : list Interval) : Z :=
  match l with
  | [] => lo
  | x :: l => next_from (End_ x + 2) l
  end.

Lemma canon_from_app_iff lo l1 l2 :
  canon_from lo (l1 ++ l2) <-> canon_from lo l1 /\ canon_from (next_from lo l1) l2.
Proof. revert lo. induction l1 as [|x l1 IH]; intros lo; simpl; [tauto|]. rewrite IH. tauto. Qed.

Lemma next_from_app lo l1 l2 : next_from lo (l1 ++ l2) = next_from (next_from lo l1) l2.
Proof. revert lo. induction l1 as [|x l1 IH]; intros lo; simpl; [done|]. apply IH. Qed.

(** [search_end] cuts the list between the intervals that end before [n] and the
    others. *)
Lemma search_end_split lo l n : canon_from lo l ->
  exists l1 l2, l = l1 ++ l2 /\ search_end l n = length l1
    /\ Forall (fun x => End_ x < n) l1 /\ Forall (fun x => n <= End_ x) l2.
Proof.
  intros Hc. set (f := fun i => match l !! i with Some x => End_ x >=? n | None => false end).
  assert (forall a b, (a <= b < length l)%nat -> f a = true -> f b = true) as Hmono.
  { intros a b Hab. unfold f. destruct (l !! a) as [x|] eqn:Ea; [|done].
    destruct (l !! b) as [y|] eqn:Eb; [|apply lookup_ge_None in Eb; lia].
    destruct (canon_lookup_le lo l a b x y Hc Ea Eb ltac:(lia)). rewrite !Z.geb_leb, !Z.leb_le. lia. }
  destruct (Search_spec (length l) f Hmono) as (H1 & H2 & H3).
  exists (take (search_end l n) l), (drop (search_end l n) l).
  rewrite take_drop, length_take. unfold search_end. fold f.
  split; [done|]. split; [lia|]. split; apply Forall_lookup.
  - intros i x Hi. apply lookup_take_Some in Hi as [Hi Hlt]. specialize (H2 i Hlt).
    unfold f in H2. rewrite Hi, Z.geb_leb, Z.leb_gt in H2. done.
  - intros i x Hi. rewrite lookup_drop in Hi. pose proof (lookup_lt_Some _ _ _ Hi).
    specialize (H3 (Search (length l) f + i)%nat ltac:(lia)). unfold f at 1 in H3.
    rewrite Hi, Z.geb_leb, Z.leb_le in H3. done.
Qed.

Lemma Has_mem s g : canonical s -> Has s g = true <-> mem s (SID g) (GNO g).
Proof.
  intros Hs. unfold Has, mem. destruct (canonical_at s (SID g) Hs) as [Hc _].
  destruct (search_end_split 1 _ (GNO g) Hc) as (l1 & l2 & Hl & -> & H1 & H2).
  rewrite Hl in *. rewrite lookup_app_r, Nat.sub_diag by lia.
  apply canon_from_app_iff in Hc as [_ Hc]. rewrite ivs_has_app. destruct l2 as [|x l2]; simpl.
  - split; [done|]. intros [Hn|[]%ivs_has_nil]. destruct Hn as (y & Hy & Hn). rewrite Forall_forall in H1.
    specialize (H1 y Hy). unfold iv_has in Hn. lia.
  - rewrite Z.leb_le, ivs_has_cons. apply Forall_cons in H2 as [Hx H2]. destruct Hc as (C1 & C2 & C3).
    unfold iv_has. split; [intros; right; left; lia|]. intros [Hn|[Hn|Hn]]; [|lia|].
    + destruct Hn as (y & Hy & Hn). rewrite Forall_forall in H1. specialize (H1 y Hy).
      unfold iv_has in Hn. lia.
    + pose proof (canon_from_lower _ _ _ C3 Hn). lia.
Qed.

(** [insert_gno] when nothing precedes the insertion point. *)
Definition insert_head (l : list Interval) (n : Z) : list Interval :=
  match l with
  | x :: l' => if Start x - 1 =? n then iv n (End_ x) :: l' else iv n n :: l
  | [] => [iv n n]
  end.

(** ... and when [p] does and ends just below [n]. *)
Definition insert_after (p : Interval) (l : list Interval) (n : Z) : list Interval :=
  match l with
  | x :: l' => if Start x - 1 =? n then iv (Start p) (End_ x) :: l' else iv (Start p) n :: l
  | [] => [iv (Start p) n]
  end.

Lemma insert_gno_head l n : Forall iv_bounded l -> Forall (fun x => 1 <= Start x) l ->
  insert_gno l 0 n = insert_head l n.
Proof.
  intros Hb H1. unfold insert_gno, extends_next. destruct l as [|x l]; simpl; [done|].
  apply Forall_cons in Hb as [(B1 & B2 & B3) _]. apply Forall_cons in H1 as [H1 _]. unwrap.
  by destruct (Start x - 1 =? n).
Qed.

Lemma insert_gno_prev l1 p l2 n :
  Forall iv_bounded (l1 ++ p :: l2) -> Forall (fun x => 1 <= Start x) (l1 ++ p :: l2) ->
  insert_gno (l1 ++ p :: l2) (S (length l1)) n
  = l1 ++ (if End_ p + 1 =? n then insert_after p l2 n else p :: insert_head l2 n).
Proof.
  intros Hb H1. apply Forall_app in Hb as [_ [(P1 & P2 & P3) Hb]%Forall_cons].
  apply Forall_app in H1 as [_ [P4 H1]%Forall_cons].
  unfold insert_gno, extends_prev, extends_next.
  rewrite (list_lookup_middle l1 l2 p (length l1)) by done. simpl. unwrap.
  rewrite (cons_middle p l1 l2), (assoc_L (++)).
  assert (length (l1 ++ [p]) = S (length l1)) as Hlen by (rewrite length_app; simpl; lia).
  rewrite lookup_app_r, Hlen, Nat.sub_diag by lia.
  assert (forall k, take (S (length l1)) ((l1 ++ [p]) ++ k) = l1 ++ [p]) as Ht
    by (intros; by apply take_app_length').
  assert (forall k, drop (S (length l1)) ((l1 ++ [p]) ++ k) = k) as Hd
    by (intros; by apply drop_app_length').
  rewrite Nat.sub_0_r, Ht, Hd. destruct l2 as [|x l2]; simpl.
  - rewrite app_nil_r. destruct (End_ p + 1 =? n).
    + rewrite insert_app_r_alt, Nat.sub_diag by lia. done.
    + by rewrite <- (assoc_L (++)).
  - apply Forall_cons in Hb as [(X1 & X2 & X3) _]. apply Forall_cons in H1 as [X4 _]. unwrap.
    rewrite <- (assoc_L (++)). destruct (End_ p + 1 =? n), (Start x - 1 =? n); simpl.
    + f_equal; [by rewrite take_app_length'|f_equal].
      rewrite (cons_middle p l1 (x :: l2)), (cons_middle x), !(assoc_L (++)). apply drop_app_length'.
      rewrite !length_app. simpl. lia.
    + rewrite insert_app_r_alt, Nat.sub_diag by lia. done.
    + rewrite insert_app_r_alt by lia. replace (S (length l1) - length l1)%nat with 1%nat by lia. done.
    + by rewrite <- (assoc_L (++)).
Qed.

(** The list holds only issued numbers. *)
Definition capped (l : list Interval) : Prop := Forall (fun x => End_ x <= MaxGNO) l.

Lemma insert_head_spec lo l n :
  lo <= n <= MaxGNO -> canon_from lo l -> capped l ->
  match l with [] => True | x :: _ => n < Start x end ->
  canon_from lo (insert_head l n) /\ capped (insert_head l n)
  /\ forall m, ivs_has (insert_head l n) m <-> ivs_has l m \/ m = n.
Proof.
  intros Hn Hc Hb Hlt. unfold insert_head, capped in *. destruct l as [|x l].
  - split; [simpl; lia|]. split; [by constructor; simpl; [lia|]|].
    intros m; autorewrite with ivs; unfold iv_has; simpl; lia.
  - destruct Hc as (C1 & C2 & C3). pose proof Hb as [B1 B2]%Forall_cons.
    destruct (Z.eqb_spec (Start x - 1) n) as [E|E].
    + split; [simpl; split; [lia|split; [lia|done]]|]. split; [by constructor|].
      intros m. rewrite !ivs_has_cons. unfold iv_has. simpl.
      split; [intros [Hm|Hm]; [|tauto]|intros [[?|?]|?]; [left; lia|by right|left; lia]].
      destruct (Z.eq_dec m n); [by right|left; left; lia].
    + split; [simpl; split; [lia|split; [lia|split; [lia|done]]]|].
      split; [by constructor; simpl; [lia|]|].
      intros m. rewrite (ivs_has_cons (iv n n)). unfold iv_has at 1. simpl. split; intros [Hm|Hm]; [right; lia|by left|by right|left; lia].
Qed.

Lemma insert_after_spec lo p l n :
  End_ p + 1 = n -> n <= MaxGNO -> canon_from lo (p :: l) -> capped (p :: l) ->
  match l with [] => True | x :: _ => n < Start x end ->
  canon_from lo (insert_after p l n) /\ capped (insert_after p l n)
  /\ forall m, ivs_has (insert_after p l n) m <-> ivs_has (p :: l) m \/ m = n.
Proof.
  intros Hp Hn (P1 & P2 & Hc) Hb Hlt. unfold insert_after, capped in *.
  apply Forall_cons in Hb as [Hpb Hb]. destruct l as [|x l].
  - split; [simpl; lia|]. split; [by constructor; simpl; [lia|]|].
    intros m; autorewrite with ivs; unfold iv_has; simpl; lia.
  - destruct Hc as (C1 & C2 & C3). pose proof Hb as [B1 B2]%Forall_cons.
    destruct (Z.eqb_spec (Start x - 1) n) as [E|E].
    + split; [simpl; split; [lia|split; [lia|done]]|]. split; [by constructor|].
      intros m. rewrite !ivs_has_cons. unfold iv_has. simpl.
      split; [intros [Hm|Hm]; [|tauto]|intros [[?|[?|?]]|?]; try tauto; left; lia].
      destruct (Z.le_gt_cases m (End_ p)); [left; left; lia|].
      destruct (Z.eq_dec m n); [by right|]. left; right; left. lia.
    + split; [simpl; split; [lia|split; [lia|split; [lia|split; [lia|done]]]]|].
      split; [by constructor; simpl; [lia|]|].
      intros m. rewrite (ivs_has_cons (iv _ n)), (ivs_has_cons p). unfold iv_has at 1 2. simpl.
      split; [intros [Hm|Hm]; [|tauto]|intros [[?|?]|?]; [left; lia|by right|left; lia]].
      destruct (Z.eq_dec m n); [by right|]. left; left. lia.
Qed.

(** Inserting an absent number at the index [search_end] finds. *)
Lemma insert_gno_spec l n : gcanon l -> 1 <= n <= MaxGNO -> ~ ivs_has l n ->
  let l' := insert_gno l (search_end l n) n in
  gcanon l' /\ forall m, ivs_has l' m <-> ivs_has l m \/ m = n.
Proof.
  intros Hl Hn Hno. pose proof Hl as [Hc He]. pose proof (gcanon_bounded l Hl) as Hb.
  destruct (search_end_split 1 l n Hc) as (l1 & l2 & -> & Hi & H1 & H2). simpl. rewrite Hi.
  assert (Forall (fun x => 1 <= Start x) (l1 ++ l2)) as Hs
    by (eapply Forall_impl; [by apply canon_from_Forall|]; simpl; tauto).
  apply canon_from_app_iff in Hc as [C1 C2].
  assert (match l2 with [] => True | x :: _ => n < Start x end) as Hx.
  { destruct l2 as [|x l2]; [done|]. apply Forall_cons in H2 as [Hx _].
    destruct (Z.lt_ge_cases n (Start x)); [done|]. destruct Hno.
    apply ivs_has_app. right. apply ivs_has_cons. left. unfold iv_has. lia. }
  destruct l1 as [|p l1 _] using rev_ind.
  - simpl in *. rewrite insert_gno_head by done.
    destruct (insert_head_spec 1 l2 n) as (G1 & G2 & G3); [done..|]. done.
  - apply Forall_app in H1 as [_ [Hp _]%Forall_cons]. apply canon_from_app_iff in C1 as [C1 P].
    rewrite next_from_app in C2. simpl in C2, P.
    apply Forall_app in He as [[E1 [E2 _]%Forall_cons]%Forall_app E3].
    rewrite <- (assoc_L (++)) in *. simpl in *.
    rewrite length_app, Nat.add_comm. simpl. rewrite insert_gno_prev by done.
    assert (canon_from (next_from 1 l1) (p :: l2)) as Hcp by (simpl; tauto).
    assert (capped (p :: l2)) as Hcap by by constructor.
    destruct (Z.eqb_spec (End_ p + 1) n) as [E|E].
    + destruct (insert_after_spec _ p l2 n E ltac:(lia) Hcp Hcap Hx) as (G1 & G2 & G3). split.
      * split; [by apply canon_from_app_iff|by apply Forall_app].
      * intros m. rewrite !ivs_has_app, G3. tauto.
    + destruct (insert_head_spec (End_ p + 2) l2 n ltac:(lia) C2 E3 Hx) as (G1 & G2 & G3). split.
      * split; [apply canon_from_app_iff; simpl; tauto|]. apply Forall_app. split; [done|]. by constructor.
      * intros m. rewrite !ivs_has_app, !ivs_has_cons, G3. tauto.
Qed.

Lemma add_spec s g : canonical s -> 1 <= GNO g <= MaxGNO ->
  canonical (fst (add s g)) /\ snd (add s g) = negb (Has s g)
  /\ forall sid n, mem (fst (add s g)) sid n <-> mem s sid n \/ (sid = SID g /\ n = GNO g).
Proof.
  intros Hs Hn. unfold add. destruct (Has s g) eqn:Hh; simpl.
  - split; [done|]. split; [done|]. intros sid n. split; [by left|].
    intros [?|[-> ->]]; [done|]. by apply Has_mem.
  - assert (~ ivs_has (at_ s (SID g)) (GNO g)) as Hno.
    { intros Hm. apply not_true_iff_false in Hh. destruct Hh. by apply Has_mem. }
    destruct (insert_gno_spec (at_ s (SID g)) (GNO g) (canonical_at s _ Hs) Hn Hno) as [G1 G2].
    set (l' := insert_gno _ _ _) in *. split; [|split; [done|]].
    + intros sid l. destruct (decide (SID g = sid)) as [->|Hne].
      * rewrite lookup_insert_eq. intros [= <-]. split; [|done]. intros Hnil.
        apply (ivs_has_nil (GNO g)). rewrite <- Hnil. apply G2. by right.
      * rewrite lookup_insert_ne by done. apply canonical_lookup. exact Hs.
    + intros sid n. unfold mem. rewrite (at_eq (<[_ := _]> s)), (at_eq s sid).
      destruct (decide (SID g = sid)) as [<-|Hne].
      * rewrite lookup_insert_eq. simpl. rewrite G2. fold (at_ s (SID g)). intuition congruence.
      * rewrite lookup_insert_ne by done. intuition congruence.
Qed.

(** ** Lemmas on conversion and parsing *)

(** Every source lists at least one interval, each of numbers MySQL issues. *)
Definition issued (g : GTIDSet) : Prop :=
  map_Forall (fun _ l => l <> []
    /\ Forall (fun x => 1 <= Start x /\ Start x <= End_ x /\ End_ x <= MaxGNO) l) g.

Lemma issued_bounded g : issued g -> bounded g.
Proof.
  intros Hg sid l Hl. destruct (Hg sid l Hl) as [? H]. split; [done|].
  eapply Forall_impl; [exact H|]. unfold iv_bounded, MinInt64. simpl. lia.
Qed.

Lemma normalize_spec l :
  Forall (fun x => 1 <= Start x /\ Start x <= End_ x /\ End_ x <= MaxGNO) l ->
  gcanon (normalizeIntervals l) /\ forall n, ivs_has (normalizeIntervals l) n <-> ivs_has l n.
Proof.
  intros Hl. unfold normalizeIntervals. destruct (sort_by_start_spec l) as [Hs Hp].
  destruct (merge_sorted_spec (sort_by_start l) 1) as (H1 & H2 & H3); [done|..].
  - rewrite Hp. eapply Forall_impl; [exact Hl|]. unfold iv_bounded, MinInt64. simpl. lia.
  - intros y. rewrite Hp. rewrite Forall_forall in Hl. intros Hy. by destruct (Hl y Hy).
  - split; [by apply gcanon_intro|]. intros n. rewrite H3. by apply ivs_has_perm.
Qed.

Lemma normalize_canon l : gcanon l -> normalizeIntervals l = l.
Proof.
  intros Hl. destruct (normalize_spec l) as [H1 H2].
  - destruct Hl as [Hc He]. apply canon_from_Forall in Hc. rewrite Forall_forall in *.
    intros x Hx. specialize (Hc x Hx). specialize (He x Hx). simpl in *. lia.
  - by apply gcanon_unique.
Qed.

Lemma at_FromMySQL raw sid : at_ (FromMySQL raw) sid = normalizeIntervals (default [] (raw !! sid)).
Proof.
  unfold at_, FromMySQL. rewrite lookup_omap. destruct (raw !! sid); simpl; [|done].
  apply keep_nonempty_at.
Qed.

Lemma FromMySQL_spec raw : issued raw ->
  canonical (FromMySQL raw) /\ forall sid n, mem (FromMySQL raw) sid n <-> has raw sid n.
Proof.
  intros Hr. split.
  - intros sid k. unfold FromMySQL. rewrite lookup_omap. destruct (raw !! sid) as [l|] eqn:E; simpl; [|done].
    apply keep_nonempty_canonical, normalize_spec. by destruct (Hr sid l E).
  - intros sid n. unfold mem, has. rewrite at_FromMySQL. destruct (raw !! sid) as [l|] eqn:E; simpl.
    + destruct (normalize_spec l) as [_ ->]; [by destruct (Hr sid l E)|]. naive_solver.
    + split; [by intros ?%ivs_has_nil|naive_solver].
Qed.

Lemma FromMySQL_canonical s : canonical s -> FromMySQL s = s.
Proof.
  intros Hs. unfold FromMySQL. apply map_eq. intros sid. rewrite lookup_omap.
  destruct (s !! sid) as [l|] eqn:E; simpl; [|done].
  destruct (canonical_lookup s sid l Hs E) as [Hn Hl]. rewrite normalize_canon by done. by destruct l.
Qed.

Lemma canonical_issued s : canonical s -> issued s.
Proof.
  intros Hs sid l Hl. destruct (canonical_lookup s sid l Hs Hl) as [Hn [Hc He]]. split; [done|].
  apply canon_from_Forall in Hc. rewrite Forall_forall in *.
  intros x Hx. specialize (Hc x Hx). specialize (He x Hx). simpl in *. lia.
Qed.

Lemma checkGNOs_None raw : checkGNOs raw = None <->
  map_Forall (fun _ l => Forall (fun x => 1 <= Start x /\ End_ x <= MaxGNO) l) raw.
Proof.
  unfold checkGNOs.
  assert (forall (l : list (string * Interval)), head l = None <-> forall x, x ∉ l) as Hh.
  { intros [|x l]; simpl; split; try done.
    - intros _ x. apply not_elem_of_nil.
    - intros H. destruct (H x). left. }
  rewrite Hh. split.
  - intros H sid l Hl. apply Forall_forall. intros x Hx. specialize (H (sid, x)).
    rewrite list_elem_of_filter in H. simpl in H. apply dec_stable. intros Hno. destruct H. split; [lia|].
    apply list_elem_of_In, in_flat_map. exists (sid, l). rewrite <- !list_elem_of_In, elem_of_map_to_list.
    split; [done|]. apply elem_of_map. by exists x.
  - intros H [sid x]. rewrite list_elem_of_filter. simpl. intros [Hx Hin].
    apply list_elem_of_In, in_flat_map in Hin as ((k & l) & Hk & Hl).
    rewrite <- list_elem_of_In, elem_of_map_to_list in Hk. rewrite <- list_elem_of_In, elem_of_map in Hl.
    destruct Hl as (y & [= <- <-] & Hy). specialize (H _ _ Hk). rewrite Forall_forall in H.
    specialize (H x Hy). lia.
Qed.

(** *** Printing *)

Lemma format_colon x : format_interval_colon x = ":" +:+ format_interval x.
Proof.
  unfold format_interval_colon, format_interval. rewrite Z.eqb_sym.
  destruct (Z.eqb_spec (Start x) (End_ x)); [|done]. by rewrite app_nil_str.
Qed.

Lemma join_colon l : l <> [] ->
  fold_right (fun x acc => format_interval_colon x +:+ acc) "" l
  = ":" +:+ Join ":" (map format_interval l).
Proof.
  induction l as [|x l IH]; [done|]. intros _. simpl fold_right. rewrite format_colon.
  destruct l as [|y l].
  - simpl. by rewrite app_nil_str.
  - rewrite IH by done. simpl. done.
Qed.

Lemma join_comma (f : string -> string) l k :
  fold_right String.append ""
    (imap (fun i x => (if (0 <? k + i)%nat then "," else "") +:+ f x) l)
  = (if (0 <? k)%nat && nonempty l then "," else "") +:+ Join "," (map f l).
Proof.
  revert k. induction l as [|x l IH]; intros k; simpl.
  - by rewrite andb_false_r.
  - rewrite Nat.add_0_r, andb_true_r.
    erewrite imap_ext; [|intros i y _; simpl; by rewrite Nat.add_succ_r, <- Nat.add_succ_l].
    rewrite IH. destruct l as [|y l]; simpl.
    + by rewrite !app_nil_str.
    + rewrite !app_assoc_str. done.
Qed.

(** The planner prints a canonical set as the parser's package does. *)
Lemma Set_String_same s : canonical s -> Set_String s = GTIDSet_String s.
Proof.
  intros Hs. unfold Set_String, GTIDSet_String. destruct (size s =? 0)%nat; [done|].
  fold (sids s). etransitivity; [|exact (join_comma (format_entry s) (sids s) 0)]. f_equal.
  apply imap_ext. intros i sid Hi. unfold format_sid, format_entry. simpl. f_equal. f_equal.
  destruct (sorted_keys s) as [_ Hk].
  assert (is_Some (s !! sid)) as [l Hl] by (apply Hk; by eapply list_elem_of_lookup_2).
  unfold at_. rewrite Hl. apply join_colon. by destruct (canonical_lookup s sid l Hs Hl).
Qed.

Lemma ParseSet_canonical t s : ParseSet t = Ok s -> canonical s.
Proof.
  unfold ParseSet. destruct (ParseGTIDSet t) as [raw|] eqn:E; [|done].
  destruct (checkGNOs raw) as [[? ?]|] eqn:Ec; [done|]. intros [= <-]. apply FromMySQL_spec.
  apply checkGNOs_None in Ec.
  assert (listed raw) as Hl.
  { revert E. unfold ParseGTIDSet. case_decide; [intros [= <-]; intros k l; by rewrite lookup_empty|].
    apply (res_fold_inv _ listed); [intros k l; by rewrite lookup_empty|].
    intros; by eapply parse_entry_listed. }
  intros sid l H. destruct (Hl sid l H) as [Hn Hp]. specialize (Ec sid l H). split; [done|].
  simpl in Ec. rewrite Forall_forall in *. intros x Hx. specialize (Hp x Hx). specialize (Ec x Hx).
  unfold iv_printable in Hp. lia.
Qed.

Lemma ParseSet_String s : canonical s -> map_Forall (fun sid _ => sid_ok sid) s ->
  ParseSet (Set_String s) = Ok s.
Proof.
  intros Hs Hok. unfold ParseSet. rewrite Set_String_same by done. rewrite parse_print_set.
  - pose proof (canonical_issued s Hs) as Hi.
    rewrite (proj2 (checkGNOs_None s)), FromMySQL_canonical; [done|done|].
    intros sid l Hl. destruct (Hi sid l Hl) as [_ H]. eapply Forall_impl; [exact H|]. simpl. lia.
  - intros sid l Hl. split; [by eapply Hok|]. destruct (canonical_issued s Hs sid l Hl) as [Hn H].
    split; [done|]. eapply Forall_impl; [exact H|]. unfold MaxGNO. simpl. lia.
Qed.

(** ** Lemmas on counting and listing *)

Lemma count_loop_spec l n :
  Forall (fun x => 1 <= Start x /\ Start x <= End_ x /\ End_ x <= MaxGNO) l -> 0 <= n <= MaxInt64 ->
  count_loop l n = Z.min MaxInt64 (n + ivs_count l).
Proof.
  revert n. induction l as [|x l IH]; intros n Hl Hn; simpl; [lia|].
  apply Forall_cons in Hl as [(H1 & H2 & H3) Hl]. unfold MaxGNO in H3.
  assert (0 <= ivs_count l) as Hpos.
  { clear -Hl. induction Hl as [|y l Hy Hl IH]; simpl; [lia|]. simpl in Hy. lia. }
  rewrite (wrap64_id (End_ x - Start x)) by (unfold is_int64, MinInt64, MaxInt64 in *; lia).
  rewrite (wrap64_id (End_ x - Start x + 1)) by (unfold is_int64, MinInt64, MaxInt64 in *; lia).
  rewrite (wrap64_id (MaxInt64 - n)) by (unfold is_int64, MinInt64, MaxInt64 in *; lia).
  rewrite Z.gtb_ltb. destruct (Z.ltb_spec (MaxInt64 - n) (End_ x - Start x + 1)); [lia|].
  rewrite wrap64_id by (unfold is_int64, MinInt64, MaxInt64 in *; lia).
  rewrite IH by (done || lia). f_equal. lia.
Qed.

Lemma elem_of_flat_map {A B} (f : A -> list B) l y : y ∈ flat_map f l <-> exists x, x ∈ l /\ y ∈ f x.
Proof. rewrite list_elem_of_In, in_flat_map. by setoid_rewrite list_elem_of_In. Qed.

Lemma all_intervals_issued s : canonical s ->
  Forall (fun x => 1 <= Start x /\ Start x <= End_ x /\ End_ x <= MaxGNO) (all_intervals s).
Proof.
  intros Hs. apply Forall_forall. intros x Hx. unfold all_intervals in Hx.
  apply elem_of_flat_map in Hx as ([sid l] & Hin%elem_of_map_to_list & Hx).
  destruct (canonical_issued s Hs sid l Hin) as [_ H]. rewrite Forall_forall in H. by apply H.
Qed.

Lemma StronglySorted_flat_map {A B} (R : relation A) (Q : relation B) (f : A -> list B) l :
  StronglySorted R l -> (forall x, x ∈ l -> StronglySorted Q (f x)) ->
  (forall x y a b, x ∈ l -> y ∈ l -> R x y -> a ∈ f x -> b ∈ f y -> Q a b) ->
  StronglySorted Q (flat_map f l).
Proof.
  induction l as [|x l IH]; simpl; intros Hs Hf Hc; [constructor|].
  apply StronglySorted_cons in Hs as [Hx Hs].
  apply StronglySorted_app_2; [|apply Hf; left|].
  - intros a b Ha (y & Hy & Hb)%elem_of_flat_map. rewrite Forall_forall in Hx.
    eapply (Hc x y); [left|by right|by apply Hx|done..].
  - apply IH; [done|intros; apply Hf; by right|]. intros; eapply (Hc x0 y); eauto; by right.
Qed.

Lemma elem_of_gnos x n : n ∈ gnos x <-> iv_has x n.
Proof.
  unfold gnos, iv_has. rewrite elem_of_map. split.
  - intros (i & -> & Hi%elem_of_seq). lia.
  - intros Hn. exists (Z.to_nat (n - Start x)). rewrite elem_of_seq. lia.
Qed.

Lemma gnos_sorted x : StronglySorted Z.lt (gnos x).
Proof.
  unfold gnos. generalize (Z.to_nat (End_ x - Start x + 1)) as k. intros k. generalize 0%nat as j.
  induction k as [|k IH]; intros j; simpl; constructor; [apply IH|].
  apply Forall_forall. intros n (i & -> & Hi%elem_of_seq)%elem_of_map. lia.
Qed.

Lemma elem_of_GTIDs s g : g ∈ GTIDs s <-> mem s (SID g) (GNO g).
Proof.
  unfold GTIDs, mem. rewrite elem_of_flat_map. setoid_rewrite elem_of_flat_map.
  setoid_rewrite elem_of_map. setoid_rewrite elem_of_gnos. destruct (sorted_keys s) as [_ Hk]. split.
  - intros (sid & _ & x & Hx & n & -> & Hn). simpl. by exists x.
  - intros (x & Hx & Hn). exists (SID g). split; [apply Hk|].
    + unfold at_ in Hx. destruct (s !! SID g); [done|]. by apply not_elem_of_nil in Hx.
    + exists x. split; [done|]. exists (GNO g). split; [by destruct g|done].
Qed.

Lemma sids_sorted s : StronglySorted (fun a b => String.le a b /\ a <> b) (sids s).
Proof.
  destruct (sorted_keys s) as [Hnd _]. fold (sids s) in Hnd.
  assert (StronglySorted String.le (sids s)) as Hs by (apply StronglySorted_merge_sort; apply _).
  revert Hnd. induction Hs as [|x l Hs IH Hx]; intros Hnd; [constructor|].
  apply NoDup_cons in Hnd as [Hxl Hnd]. constructor; [by apply IH|].
  rewrite Forall_forall in *. intros y Hy. split; [by apply Hx|]. by intros ->.
Qed.

Lemma canon_order_sorted lo l : canon_from lo l -> StronglySorted (fun x y => End_ x < Start y) l.
Proof.
  revert lo. induction l as [|x l IH]; intros lo; [constructor|]. intros (H1 & H2 & H3).
  constructor; [by eapply IH|]. apply canon_from_Forall in H3.
  eapply Forall_impl; [exact H3|]. simpl. lia.
Qed.

Lemma GTIDs_sorted s : canonical s -> StronglySorted gtid_lt (GTIDs s).
Proof.
  intros Hs. unfold GTIDs. apply (StronglySorted_flat_map (fun a b => String.le a b /\ a <> b)).
  - apply sids_sorted.
  - intros sid _. destruct (canonical_at s sid Hs) as [Hc _].
    apply (StronglySorted_flat_map (fun x y => End_ x < Start y)).
    + by eapply canon_order_sorted.
    + intros x _. generalize (gnos_sorted x). induction 1 as [|n l Hl IH Hn]; simpl; constructor; [done|].
      apply Forall_map. eapply Forall_impl; [exact Hn|]. intros m Hm. unfold gtid_lt, Less. simpl.
      rewrite decide_True by done. apply Z.ltb_lt. exact Hm.
    + intros x y a b _ _ Hxy (n & -> & Hn%elem_of_gnos)%elem_of_map (m & -> & Hm%elem_of_gnos)%elem_of_map.
      unfold gtid_lt, Less, iv_has in *. simpl. rewrite decide_True by done. apply Z.ltb_lt. lia.
  - intros a b g h _ _ [Hle Hne].
    intros (x & _ & (n & -> & _)%elem_of_map)%elem_of_flat_map (y & _ & (m & -> & _)%elem_of_map)%elem_of_flat_map.
    unfold gtid_lt, Less. simpl. rewrite decide_False by done. by apply bool_decide_eq_true.
Qed.

Lemma First_head s : canonical s -> First s = head (GTIDs s).
Proof.
  intros Hs. unfold First, GTIDs. destruct (sorted_keys s) as [_ Hk]. fold (sids s) in Hk.
  destruct (sids s) as [|sid ks]; [done|].
  assert (is_Some (s !! sid)) as [l Hl] by (apply Hk; left).
  destruct (canonical_lookup s sid l Hs Hl) as [Hn [Hc _]]. simpl. unfold at_. rewrite Hl. simpl.
  destruct l as [|x l]; [done|]. destruct Hc as (H1 & H2 & H3). simpl.
  unfold gnos. replace (Z.to_nat (End_ x - Start x + 1)) with (S (Z.to_nat (End_ x - Start x))) by lia.
  simpl. do 2 f_equal. lia.
Qed.

Lemma gnos_length x : Start x <= End_ x -> Z.of_nat (length (gnos x)) = End_ x - Start x + 1.
Proof. intros Hx. unfold gnos. rewrite length_map, length_seq. lia. Qed.

Lemma ivs_count_app a b : ivs_count (a ++ b) = ivs_count a + ivs_count b.
Proof. induction a as [|x a IH]; simpl; [done|]. rewrite IH. lia. Qed.

Lemma flat_map_length_perm {A B} (f : A -> list B) l k :
  l ≡ₚ k -> length (flat_map f l) = length (flat_map f k).
Proof. intros Hp. apply Permutation_length. by apply Permutation_flat_map. Qed.

Lemma gnos_flat_length (g : Z -> GTID) l :
  Forall (fun x => Start x <= End_ x) l ->
  Z.of_nat (length (flat_map (fun x => map g (gnos x)) l)) = ivs_count l.
Proof.
  induction 1 as [|x l Hx Hl IH]; simpl; [done|].
  rewrite length_app, Nat2Z.inj_add, IH, length_map, gnos_length; [done|exact Hx].
Qed.

Lemma cardinal_length s : canonical s -> Z.of_nat (length (GTIDs s)) = cardinal s.
Proof.
  intros Hs. unfold GTIDs, cardinal, all_intervals, sids.
  rewrite (flat_map_length_perm _ _ (map fst (map_to_list s))) by apply merge_sort_Permutation.
  assert (forall p, p ∈ map_to_list s -> at_ s p.1 = p.2 /\ Forall (fun x => Start x <= End_ x) p.2) as Hp.
  { intros [sid l] Hin%elem_of_map_to_list. split; [unfold at_; simpl; by rewrite Hin|].
    destruct (canonical_issued s Hs sid l Hin) as [_ H]. eapply Forall_impl; [exact H|]. simpl. lia. }
  induction (map_to_list s) as [|p ps IH]; simpl; [done|].
  rewrite length_app, Nat2Z.inj_add, ivs_count_app, IH by (intros; apply Hp; by right).
  destruct (Hp p ltac:(left)) as [-> Hf]. by rewrite gnos_flat_length.
Qed.

Lemma canon_last_max lo l p k : canon_from lo (l ++ [p]) -> ivs_has (l ++ [p]) k -> k <= End_ p.
Proof.
  intros Hc (y & Hy & Hk). unfold iv_has in Hk. apply list_elem_of_lookup in Hy as [i Hi].
  pose proof (lookup_lt_Some _ _ _ Hi) as Hlt. rewrite length_app in Hlt. simpl in Hlt.
  assert ((l ++ [p]) !! length l = Some p) as Hp by (by apply list_lookup_middle).
  destruct (canon_lookup_le lo _ i (length l) y p Hc Hi Hp); lia.
Qed.

(** The neighbours below and above an absent number. *)
Lemma extends_prev_mem l1 l2 n : canon_from 1 l1 -> Forall iv_bounded l1 -> Forall (fun x => End_ x < n) l1 ->
  is_Some (extends_prev (l1 ++ l2) (length l1) n) <-> ivs_has l1 (n - 1).
Proof.
  intros C1 B1 H1. destruct l1 as [|p l1 _] using rev_ind; simpl.
  { split; [by intros [? ?]|by intros ?%ivs_has_nil]. }
  rewrite length_app, Nat.add_comm. simpl. rewrite <- (assoc_L (++)). simpl.
  rewrite list_lookup_middle by done. simpl.
  apply Forall_app in B1 as [_ [(P1 & P2 & P3) _]%Forall_cons]. unwrap.
  apply Forall_app in H1 as [H1 [Hp _]%Forall_cons].
  destruct (Z.eqb_spec (End_ p + 1) n) as [E|E].
  - split; [intros _|by eexists]. apply ivs_has_app. right. apply ivs_has_singleton. unfold iv_has. lia.
  - split; [by intros [? ?]|]. intros Hk%(canon_last_max _ _ _ _ C1). lia.
Qed.

Lemma extends_next_mem l1 l2 lo n : canon_from lo l2 -> Forall iv_bounded l2 -> 1 <= lo ->
  match l2 with [] => True | x :: _ => n < Start x end ->
  is_Some (extends_next (l1 ++ l2) (length l1) n) <-> ivs_has l2 (n + 1).
Proof.
  intros C2 B2 Hlo H2. unfold extends_next. rewrite lookup_app_r, Nat.sub_diag by lia.
  destruct l2 as [|x l2]; simpl; [split; [by intros [? ?]|by intros ?%ivs_has_nil]|].
  apply Forall_cons in B2 as [(P1 & P2 & P3) _]. destruct C2 as (X1 & X2 & X3). unwrap.
  rewrite ivs_has_cons. unfold iv_has. destruct (Z.eqb_spec (Start x - 1) n) as [E|E].
  - split; [left; lia|by eexists].
  - split; [by intros [? ?]|]. intros [Hk|Hk]; [lia|]. pose proof (canon_from_lower _ _ _ X3 Hk). lia.
Qed.

Lemma next_from_ge lo l : canon_from lo l -> lo <= next_from lo l.
Proof.
  revert lo. induction l as [|x l IH]; intros lo; simpl; [lia|]. intros (H1 & H2 & H3).
  specialize (IH _ H3). lia.
Qed.

Lemma adjacent_mem s g : canonical s -> ~ mem s (SID g) (GNO g) ->
  adjacent s g = true <-> mem s (SID g) (GNO g - 1) \/ mem s (SID g) (GNO g + 1).
Proof.
  intros Hs Hno. unfold adjacent, mem in *. pose proof (canonical_at s (SID g) Hs) as Hg.
  set (l := at_ s (SID g)) in *. set (n := GNO g) in *. pose proof (gcanon_bounded l Hg) as Hb.
  destruct Hg as [Hc _]. destruct (search_end_split 1 l n Hc) as (l1 & l2 & Hl & Hi & H1 & H2).
  rewrite Hi, Hl in *. rewrite orb_true_iff, !bool_decide_eq_true, !ivs_has_app.
  apply canon_from_app_iff in Hc as [C1 C2]. apply Forall_app in Hb as [B1 B2].
  assert (match l2 with [] => True | x :: _ => n < Start x end) as Hx.
  { destruct l2 as [|x l2]; [done|]. apply Forall_cons in H2 as [Hx _].
    destruct (Z.lt_ge_cases n (Start x)); [done|]. destruct Hno.
    apply ivs_has_app. right. apply ivs_has_cons. left. unfold iv_has. lia. }
  rewrite extends_prev_mem by done.
  rewrite (extends_next_mem l1 l2 (next_from 1 l1)) by (done || by apply next_from_ge).
  assert (~ ivs_has l1 (n + 1)) as L1.
  { intros (x & Hin & Hk). rewrite Forall_forall in H1. specialize (H1 x Hin). unfold iv_has in Hk. lia. }
  assert (~ ivs_has l2 (n - 1)) as L2.
  { destruct l2 as [|x l2]; [apply ivs_has_nil|]. intros Hk. destruct C2 as (X1 & X2 & X3).
    apply ivs_has_cons in Hk as [Hk|Hk]; [unfold iv_has in Hk; lia|].
    pose proof (canon_from_lower _ _ _ X3 Hk). lia. }
  tauto.
Qed.

Lemma SetOf_spec gs : Forall (fun g => 1 <= GNO g <= MaxGNO) gs ->
  canonical (SetOf gs) /\ forall sid n, mem (SetOf gs) sid n <-> Build_GTID sid n ∈ gs.
Proof.
  assert (forall gs s, canonical s -> Forall (fun g => 1 <= GNO g <= MaxGNO) gs ->
    canonical (fold_left (fun s g => fst (add s g)) gs s)
    /\ forall sid n, mem (fold_left (fun s g => fst (add s g)) gs s) sid n
                     <-> mem s sid n \/ Build_GTID sid n ∈ gs) as H.
  { clear gs. induction gs as [|g gs IH]; intros s Hs Hg; simpl.
    - split; [done|]. intros sid n. rewrite elem_of_nil. tauto.
    - apply Forall_cons in Hg as [Hn Hg]. destruct (add_spec s g Hs Hn) as (A1 & _ & A2).
      destruct (IH _ A1 Hg) as [I1 I2]. split; [done|]. intros sid n. rewrite I2, A2, elem_of_cons.
      assert (sid = SID g /\ n = GNO g <-> Build_GTID sid n = g) as ->; [|tauto].
      destruct g; simpl. split; [by intros [-> ->]|by intros [= -> ->]]. }
  intros Hg. destruct (H gs ∅) as [H1 H2]; [by intros ? ?; rewrite lookup_empty|done|].
  split; [done|]. intros sid n. unfold SetOf. rewrite H2. unfold mem, at_. rewrite lookup_empty. simpl.
  rewrite ivs_has_nil_iff. tauto.
Qed.

Lemma Subtract_issued g o : issued g -> issued o -> issued (Subtract g o).
Proof.
  intros Hg Ho sid l Hl.
  pose proof (bounded_wf g (issued_bounded g Hg)) as Wg.
  pose proof (bounded_wf o (issued_bounded o Ho)) as Wo.
  destruct (Subtract_wf g o Wg Wo sid l Hl) as [Hn Hw].
  split; [done|]. rewrite Forall_forall in *. intros x Hx. destruct (Hw x Hx) as (_ & _ & Hle).
  assert (forall k, iv_has x k -> 1 <= k <= MaxGNO) as Hk.
  { intros k Hk. assert (has (Subtract g o) sid k) as Hh by (exists l; split; [done|by exists x]).
    apply has_Subtract in Hh as [(l' & Hl' & y & Hy & Hyk) _]; [|done..].
    destruct (Hg sid l' Hl') as [_ Hf]. rewrite Forall_forall in Hf. specialize (Hf y Hy).
    unfold iv_has in Hyk. lia. }
  pose proof (Hk (Start x) ltac:(unfold iv_has; lia)). pose proof (Hk (End_ x) ltac:(unfold iv_has; lia)). lia.
Qed.

(** ** Theorems *)

(** The two-pointer passes compute the set operations: on canonical sets,
    union, difference and intersection are canonical and hold exactly the
    transactions of the mathematical operation. *)
Theorem plan_set_operations s o : canonical s -> canonical o ->
  (canonical (Union s o) /\ canonical (Subtract_ s o) /\ canonical (Intersect s o))
  /\ forall sid n,
       (mem (Union s o) sid n <-> mem s sid n \/ mem o sid n)
       /\ (mem (Subtract_ s o) sid n <-> mem s sid n /\ ~ mem o sid n)
       /\ (mem (Intersect s o) sid n <-> mem s sid n /\ mem o sid n).
Proof.
  intros Hs Ho. destruct (Union_spec s o Hs Ho) as [U1 U2].
  destruct (Subtract_spec s o Hs Ho) as [S1 S2]. destruct (Intersect_spec s o Hs Ho) as [I1 I2].
  auto.
Qed.

(** The tests decide the set relations: inclusion, overlap, emptiness, and
    equality of the transactions held (a canonical set has one representation). *)
Theorem plan_set_relations s o : canonical s -> canonical o ->
  (Contains_ s o = true <-> forall sid n, mem o sid n -> mem s sid n)
  /\ (Overlaps s o = true <-> exists sid n, mem s sid n /\ mem o sid n)
  /\ (Set_IsEmpty s = true <-> forall sid n, ~ mem s sid n)
  /\ (Equal s o = true <-> forall sid n, mem s sid n <-> mem o sid n).
Proof.
  intros Hs Ho. split; [by apply Contains_mem|]. split; [by apply Overlaps_mem|].
  split; [by apply Set_IsEmpty_mem|]. rewrite Equal_eq. split; [by intros ->|by apply canonical_ext].
Qed.

(** The planner's set type refines the GTID sets of [internal/mysql]:
    conversion gives a canonical set of the same transactions, and difference
    and containment commute with it. *)
Theorem plan_refines_mysql g o : issued g -> issued o ->
  canonical (FromMySQL g)
  /\ (forall sid n, mem (FromMySQL g) sid n <-> has g sid n)
  /\ FromMySQL (Subtract g o) = Subtract_ (FromMySQL g) (FromMySQL o)
  /\ Contains_ (FromMySQL g) (FromMySQL o) = Contains g o.
Proof.
  intros Hg Ho. destruct (FromMySQL_spec g Hg) as [G1 G2]. destruct (FromMySQL_spec o Ho) as [O1 O2].
  pose proof (bounded_wf g (issued_bounded g Hg)) as Wg.
  pose proof (bounded_wf o (issued_bounded o Ho)) as Wo.
  split; [done|]. split; [done|]. split.
  - destruct (FromMySQL_spec _ (Subtract_issued g o Hg Ho)) as [D1 D2].
    destruct (Subtract_spec _ _ G1 O1) as [S1 S2]. apply canonical_ext; [done..|].
    intros sid n. rewrite D2, S2, G2, O2. by apply has_Subtract.
  - apply eq_true_iff_eq. rewrite Contains_mem, Contains_spec by (done || by apply issued_bounded).
    setoid_rewrite G2. setoid_rewrite O2. done.
Qed.

(** Adding one transaction keeps the set canonical, adds exactly that
    transaction and reports whether it was absent; [adjacent] says whether a
    neighbour is present, and [SetOf] holds exactly its arguments. *)
Theorem plan_add_inserts s g : canonical s -> 1 <= GNO g <= MaxGNO ->
  canonical (fst (add s g))
  /\ (forall sid n, mem (fst (add s g)) sid n <-> mem s sid n \/ (sid = SID g /\ n = GNO g))
  /\ (snd (add s g) = true <-> ~ mem s (SID g) (GNO g))
  /\ (Has s g = true <-> mem s (SID g) (GNO g))
  /\ (~ mem s (SID g) (GNO g) ->
      adjacent s g = true <-> mem s (SID g) (GNO g - 1) \/ mem s (SID g) (GNO g + 1)).
Proof.
  intros Hs Hn. destruct (add_spec s g Hs Hn) as (A1 & A2 & A3). pose proof (Has_mem s g Hs) as Hh.
  split; [done|]. split; [done|]. split; [|split; [done|by apply adjacent_mem]].
  rewrite A2, negb_true_iff, <- not_true_iff_false. by rewrite Hh.
Qed.

(** C35. [ParseSet] accepts only what it can make canonical, and reads back every
    canonical set of printable identifiers from its [String]. *)
Theorem plan_parse_print t s : canonical s -> map_Forall (fun sid _ => sid_ok sid) s ->
  ParseSet (Set_String s) = Ok s /\ (forall r, ParseSet t = Ok r -> canonical r).
Proof. intros Hs Hok. split; [by apply ParseSet_String|apply ParseSet_canonical]. Qed.

(** [GTIDs] lists every transaction once, in increasing [Less] order;
    [First] is the least of them, and [Count] is their number, saturating at
    [MaxInt64] instead of overflowing. *)
Theorem plan_listing s : canonical s ->
  StronglySorted gtid_lt (GTIDs s)
  /\ (forall g, g ∈ GTIDs s <-> mem s (SID g) (GNO g))
  /\ First s = head (GTIDs s)
  /\ Count s = Z.min MaxInt64 (Z.of_nat (length (GTIDs s))).
Proof.
  intros Hs. split; [by apply GTIDs_sorted|]. split; [apply elem_of_GTIDs|].
  split; [by apply First_head|]. rewrite cardinal_length by done. unfold Count, cardinal.
  rewrite count_loop_spec by (by apply all_intervals_issued || done). by rewrite Z.add_0_l.
Qed.

(** ** Witnesses *)

Definition plan_a : Set_ := {["aa" := [iv 1 5; iv 8 8]; "aa:t" := [iv 1 2]]}.

Definition plan_b : Set_ := {["aa" := [iv 3 8]; "bb" := [iv 1 1]]}.

Lemma plan_demo_canonical : canonical plan_a /\ canonical plan_b.
Proof.
  split; apply map_Forall_insert_2; try apply map_Forall_singleton;
    (split; [done|]); (split; [simpl; lia|]); repeat constructor; simpl; unfold MaxGNO, MaxInt64; lia.
Qed.

Lemma plan_set_operations_witness : canonical (Union plan_a plan_b).
Proof. apply (plan_set_operations plan_a plan_b); apply plan_demo_canonical. Defined.

Lemma plan_set_relations_witness : ~ (forall sid n, mem plan_b sid n -> mem plan_a sid n).
Proof.
  intros H. apply (plan_set_relations plan_a plan_b) in H; [|apply plan_demo_canonical..].
  revert H. by vm_compute.
Defined.

Lemma plan_refines_mysql_witness : canonical (FromMySQL plan_a).
Proof.
  apply (plan_refines_mysql plan_a plan_b); apply canonical_issued; apply plan_demo_canonical.
Defined.

Lemma plan_add_inserts_witness : canonical (fst (add plan_a {| SID := "aa"; GNO := 6 |})).
Proof.
  apply (plan_add_inserts plan_a {| SID := "aa"; GNO := 6 |}); [apply plan_demo_canonical|].
  unfold MaxGNO, MaxInt64. simpl. lia.
Defined.

Lemma plan_parse_print_witness : ParseSet (Set_String plan_a) = Ok plan_a.
Proof.
  apply (plan_parse_print "" plan_a); [apply plan_demo_canonical|].
  apply map_Forall_insert_2; [by left; vm_compute|]. apply map_Forall_singleton.
  right. exists "aa", "t". by vm_compute.
Defined.

Lemma plan_listing_witness : Count plan_a = 8.
Proof.
  destruct (plan_listing plan_a) as (_ & _ & _ & ->); [apply plan_demo_canonical|]. by vm_compute.
Defined.
