(* ===== verification/Effects.v ===== *)
(** * Programs that call their environment

    A Go function that reads the clock, issues HTTP requests or talks to a
    database is a program: a tree whose nodes are calls and whose branches are
    the answers. The environment is unconstrained: a property of [runs] holds
    for every answer to every call, errors included. *)
From Stdlib Require Import Eqdep_dec.
From S2P Require Import Prelude.

Section prog.

(** The calls of a component and the type of each one's answer. *)
Context {Op : Type} {Ans : Op -> Type}.

Inductive prog (A : Type) : Type :=
| Ret (a : A)
| Vis (o : Op) (k : Ans o -> prog A).

Arguments Ret {A} _.
Arguments Vis {A} _ _.

Fixpoint prog_bind {A B} (p : prog A) (f : A -> prog B) : prog B :=
  match p with
  | Ret a => f a
  | Vis o k => Vis o (fun x => prog_bind (k x) f)
  end.

Definition call (o : Op) : prog (Ans o) := Vis o Ret.

(** [for _, x := range l { s = f(s, x) }]. *)
Fixpoint prog_fold {S X} (f : S -> X -> prog S) (l : list X) (s : S) : prog S :=
  match l with
  | [] => Ret s
  | x :: l => prog_bind (f s x) (prog_fold f l)
  end.

(** A call with the answer it got. *)
Definition event : Type := sigT Ans.

Definition ev (o : Op) (x : Ans o) : event := existT o x.

(** Every way a program can run: the calls it makes, in order, and its result. *)
Inductive runs {A} : prog A -> list event -> A -> Prop :=
| runs_Ret a : runs (Ret a) [] a
| runs_Vis o k x tr a : runs (k x) tr a -> runs (Vis o k) (ev o x :: tr) a.

(** One way: [oracle] answers each call, given the calls so far (latest first). *)
Fixpoint exec {A} (oracle : list event -> forall o, Ans o) (p : prog A) (h : list event)
  : list event * A :=
  match p with
  | Ret a => ([], a)
  | Vis o k =>
      let x := oracle h o in
      let '(tr, a) := exec oracle (k x) (ev o x :: h) in (ev o x :: tr, a)
  end.

(** ** Lemmas *)

Lemma runs_Ret_iff {A} (a b : A) tr : runs (Ret a) tr b <-> tr = [] /\ b = a.
Proof. split; [by inversion 1|]. intros [-> ->]. constructor. Qed.

(** Case analysis on a run of a call, without equalities between dependent
    pairs. *)
Lemma runs_Vis_iff {A} o (k : Ans o -> prog A) tr a :
  runs (Vis o k) tr a <-> exists x tr', tr = ev o x :: tr' /\ runs (k x) tr' a.
Proof.
  split.
  - intros H. refine (match H in runs p tr a return
      match p with
      | Ret _ => True
      | Vis o k => exists x tr', tr = ev o x :: tr' /\ runs (k x) tr' a
      end with
      | runs_Ret _ => I
      | runs_Vis _ _ _ _ _ _ => _
      end). eauto.
  - intros (x & tr' & -> & H). by constructor.
Qed.

Lemma runs_bind_iff {A B} (p : prog A) (f : A -> prog B) tr b :
  runs (prog_bind p f) tr b
  <-> exists t1 a t2, tr = t1 ++ t2 /\ runs p t1 a /\ runs (f a) t2 b.
Proof.
  revert tr. induction p as [a|o k IH]; intros tr; simpl.
  - split.
    + intros H. exists [], a, tr. split; [done|]. split; [constructor|done].
    + intros (t1 & a' & t2 & -> & [-> ->]%runs_Ret_iff & H). done.
  - rewrite runs_Vis_iff. setoid_rewrite IH. setoid_rewrite runs_Vis_iff. split.
    + intros (x & tr' & -> & t1 & a & t2 & -> & H1 & H2).
      exists (ev o x :: t1), a, t2. split; [done|]. split; [|done]. eauto.
    + intros (t1 & a & t2 & -> & (x & tr' & -> & H1) & H2).
      exists x, (tr' ++ t2). split; [done|]. eauto 10.
Qed.

Lemma runs_call_iff o tr (x : Ans o) : runs (call o) tr x <-> tr = [ev o x].
Proof.
  unfold call. rewrite runs_Vis_iff. setoid_rewrite runs_Ret_iff. split.
  - by intros (y & tr' & -> & -> & ->).
  - intros ->. eauto.
Qed.

(** A property of the state and the trace so far that each iteration keeps
    holds after the loop. *)
Lemma runs_fold_inv {S X} (f : S -> X -> prog S) (P : list event -> S -> Prop) l s tr s' :
  runs (prog_fold f l s) tr s' -> P [] s ->
  (forall t1 s1 x t2 s2, x ∈ l -> P t1 s1 -> runs (f s1 x) t2 s2 -> P (t1 ++ t2) s2) ->
  P tr s'.
Proof.
  intros H H0 Hstep.
  assert (forall t0 s, P t0 s -> forall tr s', runs (prog_fold f l s) tr s' -> P (t0 ++ tr) s') as Hgen.
  { clear H H0 s tr s'. induction l as [|x l IH]; intros t0 s H0 tr s' H; simpl in H.
    - apply runs_Ret_iff in H as [-> ->]. by rewrite app_nil_r.
    - apply runs_bind_iff in H as (t1 & a & t2 & -> & H1 & H2).
      rewrite (assoc_L (++)). eapply IH; [|by eapply Hstep; [left|..]|done].
      intros; eapply Hstep; eauto; by right. }
  by apply (Hgen [] s).
Qed.

(** The oracle's run is one of them: a program always finishes. *)
Lemma exec_runs {A} oracle (p : prog A) h tr a : exec oracle p h = (tr, a) -> runs p tr a.
Proof.
  revert h tr. induction p as [b|o k IH]; intros h tr; simpl.
  - intros [= <- <-]. constructor.
  - destruct (exec oracle (k (oracle h o)) _) as [tr' a'] eqn:E. intros [= <- <-].
    constructor. by eapply IH.
Qed.

Lemma exec_run {A} oracle (p : prog A) : runs p (exec oracle p []).1 (exec oracle p []).2.
Proof. apply (exec_runs oracle p []). by destruct (exec oracle p []). Qed.

Lemma runs_total {A} (oracle : forall o, Ans o) (p : prog A) : exists tr a, runs p tr a.
Proof.
  destruct (exec (fun _ => oracle) p []) as [tr a] eqn:E. exists tr, a. by eapply exec_runs.
Qed.

End prog.

Arguments prog {Op} Ans A.
Arguments Ret {Op Ans A} _.
Arguments Vis {Op Ans A} _ _.
Arguments event {Op} Ans.

Notation "'let!' x := p 'in' q" := (prog_bind p (fun x => q))
  (at level 10, x pattern, p at level 100, q at level 200,
   format "'[v' 'let!'  x  :=  p  'in' '/' q ']'") : go_scope.

(** ** Programs with a state

    A method of a Go object whose fields it reads and writes between calls. *)

Section state.
Context {Op : Type} {Ans : Op -> Type} {St : Type}.

Definition st (A : Type) : Type := St -> prog Ans (A * St).

Definition sret {A} (a : A) : st A := fun s => Ret (a, s).

Definition sbind {A B} (m : st A) (k : A -> st B) : st B := fun s => let! r := m s in let '(a, s) := r in k a s.

Definition scall (o : Op) : st (Ans o) := fun s => let! x := call o in Ret (x, s).

Definition sget {A} (f : St -> A) : st A := fun s => Ret (f s, s).

Definition smodify (f : St -> St) : st unit := fun s => Ret (tt, f s).

End state.

Arguments st {Op} Ans St A.

Notation "'let^' x := m 'in' k" := (sbind m (fun x => k))
  (at level 10, x pattern, m at level 100, k at level 200,
   format "'[v' 'let^'  x  :=  m  'in' '/' k ']'") : go_scope.

Notation "m ';;*' k" := (sbind m (fun _ => k))
  (at level 100, k at level 200, right associativity, format "'[v' m  ';;*' '/' k ']'") : go_scope.

(** Symbolic execution: open every [runs] hypothesis as far as the program's
    head allows. *)
Ltac run_step H :=
  lazymatch type of H with
  | runs (Ret _) _ _ => apply runs_Ret_iff in H as [? ?]; subst
  | runs (call _) _ _ => apply runs_call_iff in H; subst
  | runs (prog_bind (call ?o) _) _ _ =>
      let t1 := fresh "tr" in let x := fresh "x" in let t2 := fresh "tr" in
      apply (runs_bind_iff (call o)) in H as (t1 & x & t2 & ? & ->%runs_call_iff & H); subst;
      cbn [app] in *
  | runs (prog_bind _ _) _ _ =>
      let t1 := fresh "tr" in let x := fresh "x" in let t2 := fresh "tr" in let H1 := fresh "Hrun" in
      apply runs_bind_iff in H as (t1 & x & t2 & ? & H1 & H); subst
  end.

(** Open every run in the context, splitting on answers and conditions. *)
Ltac run_all :=
  repeat match goal with
  | H : runs (Ret _) _ _ |- _ => run_step H
  | H : runs (call _) _ _ |- _ => run_step H
  | H : runs (prog_bind _ _) _ _ |- _ => run_step H
  | H : runs (match ?x with _ => _ end) _ _ |- _ => let E := fresh "E" in destruct x eqn:E
  end.

(** ** Calls in a trace *)

Section traces.
Context {Op : Type} {Ans : Op -> Type} `{!EqDecision Op}.

Lemma ev_inj o (x y : Ans o) : ev o x = ev o y -> x = y.
Proof. intros H. by apply Eqdep_dec.inj_pair2_eq_dec in H; [|apply EqDecision0]. Qed.

Lemma ev_op o o' (x : Ans o) (y : Ans o') : ev o x = ev o' y -> o = o'.
Proof. intros H. by apply (f_equal (@projT1 _ _)) in H. Qed.

(** The call was made. *)
Definition called (o : Op) (tr : list (event Ans)) : Prop := exists x, ev o x ∈ tr.

Lemma called_app o t1 t2 : called o (t1 ++ t2) <-> called o t1 \/ called o t2.
Proof. unfold called. setoid_rewrite elem_of_app. naive_solver. Qed.

Lemma called_cons o e tr : called o (e :: tr) <-> projT1 e = o \/ called o tr.
Proof.
  unfold called. setoid_rewrite elem_of_cons. split.
  - intros (x & [<-|Hx]); [by left|right; by exists x].
  - intros [<-|(x & Hx)]; [|exists x; by right]. destruct e as [o x]. exists x. by left.
Qed.

Lemma called_nil o : called o [] <-> False.
Proof. split; [|done]. by intros (x & Hx%not_elem_of_nil). Qed.

Lemma not_called_nil o : ~ called o [].
Proof. by intros ?%called_nil. Qed.

(** A call in an oracle's run was answered by the oracle. *)
Lemma exec_answers {A} oracle (p : prog Ans A) h o x :
  ev o x ∈ (exec oracle p h).1 -> exists h', x = oracle h' o.
Proof.
  revert h. induction p as [a|o' k IH]; intros h; simpl; [by intros ?%not_elem_of_nil|].
  destruct (exec oracle (k (oracle h o')) _) as [tr a] eqn:E. simpl. intros [Hx|Hx]%elem_of_cons.
  - pose proof (ev_op _ _ _ _ Hx). subst o'. apply ev_inj in Hx as ->. by exists h.
  - eapply (IH (oracle h o') (ev o' (oracle h o') :: h)). by rewrite E.
Qed.

(** With the same answers every time, each event has its own. *)
Lemma exec_const {A} (f : forall o, Ans o) (p : prog Ans A) h e :
  e ∈ (exec (fun _ => f) p h).1 -> projT2 e = f (projT1 e).
Proof.
  revert h. induction p as [a|o k IH]; intros h; simpl; [by intros ?%not_elem_of_nil|].
  destruct (exec (fun _ => f) (k (f o)) _) as [tr a] eqn:E. simpl. intros [->|He]%elem_of_cons; [done|].
  eapply (IH (f o) (ev o (f o) :: h)). by rewrite E.
Qed.

(** The program makes only calls that satisfy [Q]. *)
Definition only {A} (Q : Op -> bool) (p : prog Ans A) : Prop :=
  forall tr a, runs p tr a -> Forall (fun e => Q (projT1 e) = true) tr.

Lemma only_Ret {A} Q (a : A) : only Q (Ret a).
Proof. intros tr b [-> _]%runs_Ret_iff. done. Qed.

Lemma only_Vis {A} Q o (k : Ans o -> prog Ans A) : Q o = true -> (forall x, only Q (k x)) -> only Q (Vis o k).
Proof.
  intros Ho Hk tr a (x & tr' & -> & H)%runs_Vis_iff. constructor; [done|]. by eapply Hk.
Qed.

Lemma only_call Q o : Q o = true -> only Q (call (Ans := Ans) o).
Proof. intros Ho. apply only_Vis; [done|]. intros; apply only_Ret. Qed.

Lemma only_bind {A B} Q (p : prog Ans A) (f : A -> prog Ans B) :
  only Q p -> (forall a, only Q (f a)) -> only Q (prog_bind p f).
Proof.
  intros Hp Hf tr b (t1 & a & t2 & -> & H1 & H2)%runs_bind_iff.
  apply Forall_app. split; [by eapply Hp|by eapply Hf].
Qed.

Lemma only_fold {S X} Q (f : S -> X -> prog Ans S) l s :
  (forall s x, only Q (f s x)) -> only Q (prog_fold f l s).
Proof.
  intros Hf. revert s. induction l as [|x l IH]; intros s; simpl; [apply only_Ret|].
  apply only_bind; [apply Hf|apply IH].
Qed.

Lemma only_weaken {A} (Q R : Op -> bool) (p : prog Ans A) :
  (forall o, Q o = true -> R o = true) -> only Q p -> only R p.
Proof. intros HQ Hp tr a H. eapply Forall_impl; [by eapply Hp|]. simpl. intros e. apply HQ. Qed.

(** A call outside [Q] is not in the trace. *)
Lemma only_not_in {A} Q (p : prog Ans A) tr a o (x : Ans o) :
  only Q p -> runs p tr a -> Q o = false -> ev o x ∉ tr.
Proof.
  intros Hp H Ho Hin. specialize (Hp tr a H). rewrite Forall_forall in Hp.
  specialize (Hp _ Hin). simpl in Hp. congruence.
Qed.

(** How many calls of a kind a trace holds. *)
Definition count_ops (Q : Op -> bool) (tr : list (event Ans)) : nat :=
  length (List.filter (fun e => Q (projT1 e)) tr).

Lemma count_ops_app Q t1 t2 : count_ops Q (t1 ++ t2) = (count_ops Q t1 + count_ops Q t2)%nat.
Proof. unfold count_ops. by rewrite List.filter_app, length_app. Qed.

Lemma count_ops_cons Q e tr : count_ops Q (e :: tr) = ((if Q (projT1 e) then 1 else 0) + count_ops Q tr)%nat.
Proof. unfold count_ops. simpl. by destruct (Q (projT1 e)). Qed.

Lemma count_ops_none {A} (Q R : Op -> bool) (p : prog Ans A) tr a :
  only R p -> (forall o, R o = true -> Q o = false) -> runs p tr a -> count_ops Q tr = 0%nat.
Proof.
  intros Hp HR H. specialize (Hp tr a H). clear H. induction Hp as [|e tr He _ IH]; [done|].
  rewrite count_ops_cons, (HR _ He). exact (IH).
Qed.

(** A loop makes at most [k] calls of the kind per iteration. *)
Lemma runs_fold_count {S X} Q k (f : S -> X -> prog Ans S) l s tr s' :
  (forall s x t s', runs (f s x) t s' -> count_ops Q t <= k)%nat ->
  runs (prog_fold f l s) tr s' -> (count_ops Q tr <= k * length l)%nat.
Proof.
  intros Hf. revert s tr. induction l as [|x l IH]; intros s tr H; simpl in H.
  - apply runs_Ret_iff in H as [-> _]. unfold count_ops. simpl. lia.
  - apply runs_bind_iff in H as (t1 & s1 & t2 & -> & H1 & H2).
    rewrite count_ops_app. specialize (Hf _ _ _ _ H1). specialize (IH _ _ H2). simpl. lia.
Qed.

End traces.

Create HintDb prog discriminated.
#[export] Hint Resolve only_Ret only_call : prog.

(** [only] by the program's structure. *)
Ltac solve_only :=
  repeat match goal with
  | |- only _ (Ret _) => apply only_Ret
  | |- only _ (call ?o) => exact (only_call _ o eq_refl)
  | |- only _ (prog_bind _ _) => apply only_bind; [|intros ?]
  | |- only _ (prog_fold _ _ _) => apply only_fold; intros ? ?
  | |- only _ (match ?x with _ => _ end) => destruct x
  | |- only _ _ => solve [auto with prog]
  end.

(** Membership of a call in a trace given call by call. *)
Ltac in_trace H :=
  repeat match type of H with
  | _ ∈ [] => by apply not_elem_of_nil in H
  | _ ∈ _ :: _ => apply elem_of_cons in H as [H|H]
  | _ ∈ _ ++ _ => apply elem_of_app in H as [H|H]
  | ev ?o _ = ev ?o _ => apply ev_inj in H
  | ev _ _ = ev _ _ => by apply ev_op in H
  | ev ?o _ = existT ?o _ => apply ev_inj in H
  | ev _ _ = existT _ _ => by apply ev_op in H
  end.

(** Refute a call that a concrete trace does not contain; find an event in one. *)
Ltac not_called := intros (? & Htr); in_trace Htr; fail.

Ltac ev_in := solve [repeat first [apply list_elem_of_here | apply list_elem_of_further]].

(** Run a program on a concrete oracle. *)
Ltac run_trace :=
  repeat match goal with
  | |- context [fst (exec ?oracle ?p [])] =>
      let t := eval vm_compute in (fst (exec oracle p [])) in
      change (fst (exec oracle p [])) with t
  | H : context [fst (exec ?oracle ?p [])] |- _ =>
      let t := eval vm_compute in (fst (exec oracle p [])) in
      change (fst (exec oracle p [])) with t in H
  end.

(** ** Durations *)

Section durations.
Local Open Scope Z_scope.

(** [time.Duration]: nanoseconds in an [int64]. [time.Time]: nanoseconds since
    the zero time (year 1), so that [IsZero] is [= 0]. *)
Definition Second : Z := 1000000000.

(** [t.Sub(u)] saturates at the ends of [Duration]. *)
Definition time_sub (t u : Z) : Z := clamp64 (t - u).

(** The Unix epoch, and [t.UnixNano()] and [time.Unix(0, ns)]. *)
Definition UnixEpoch : Z := 62135596800 * Second.

Definition UnixNano (t : Z) : Z := wrap64 (t - UnixEpoch).

Definition FromUnixNano (ns : Z) : Z := UnixEpoch + ns.

(** A difference that exceeds a duration does so exactly, saturated or not. *)
Lemma time_sub_gt t u d : is_int64 d -> d < MaxInt64 -> (time_sub t u >? d) = (t - u >? d).
Proof.
  intros Hd Hm. unfold time_sub, clamp64, is_int64, MinInt64, MaxInt64 in *.
  rewrite !Z.gtb_ltb. apply eq_true_iff_eq. rewrite !Z.ltb_lt. lia.
Qed.

End durations.
