(* ===== verification/Fencing.v ===== *)
(** * The sidecar's self-fencing monitor

    [internal/sidecar/fencing.go], [topology_cache.go] and the startup safety net
    of [server.go]. One tick of the monitor is a program ([Effects]): its calls
    are the clock, the operator, the peers and the local MySQL. *)
From S2P Require Import Prelude Effects.

Local Open Scope Z_scope.

Module Fencing.

(** ** The cached active-site view ([topology_cache.go]) *)

Record TopologySnapshot : Type := { ActiveSite : string; ObservedAt : Z }.

Record TopologyCache : Type := { activeSite : string; observedAt : Z }.

Definition Topology_Set (site : string) (at_ : Z) (c : TopologyCache) : TopologyCache :=
  {| activeSite := site; observedAt := at_ |}.

(** The new cache, and whether it was adopted. *)
Definition Adopt (site : string) (at_ : Z) (c : TopologyCache) : TopologyCache * bool :=
  if at_ >? observedAt c then ({| activeSite := site; observedAt := at_ |}, true) else (c, false).

Definition Snapshot (c : TopologyCache) : TopologySnapshot :=
  {| ActiveSite := activeSite c; ObservedAt := observedAt c |}.

(** ** State *)

(** [topology] is [None] for a nil cache; [safetyNetClearer] and [cloneDetector]
    say whether the interface value is present. [fenced] and [heartbeat] are
    atomics with one writer, the monitor's goroutine. *)
Record FencingMonitor : Type := {
  bloodravenAddr : string;
  peerAddrs : list string;
  checkInterval : Z;
  leaseTimeout : Z;
  lastBloodravenOK : Z;
  lastPeerOK : gmap string Z;
  fenced : bool;
  fencePending : bool;
  mySite : string;
  namespace : string;
  group : string;
  topology : option TopologyCache;
  operatorAnswered : bool;
  operatorActiveSite : string;
  safetyNetClearer : bool;
  cloneDetector : bool;
  safetyNetPending : bool;
  mysqlDownSince : Z;
  sawReadOnly : bool;
  heartbeat : Z
}.

#[export] Instance FencingMonitor_eta : Eta FencingMonitor := fun f =>
  Build_FencingMonitor (bloodravenAddr f) (peerAddrs f) (checkInterval f) (leaseTimeout f)
    (lastBloodravenOK f) (lastPeerOK f) (fenced f) (fencePending f) (mySite f) (namespace f)
    (group f) (topology f) (operatorAnswered f) (operatorActiveSite f) (safetyNetClearer f)
    (cloneDetector f) (safetyNetPending f) (mysqlDownSince f) (sawReadOnly f) (heartbeat f).

(** ** Calls *)

(** HTTP requests are named by what they ask; the answer is [None] when the
    request could not be built or got no response. *)
Inductive op : Type :=
| Now
| GetHealthz
| GetActiveSite (ns grp : string)
| GetPeerPing (addr : string)
| GetPeerActiveSite (addr : string)
| IsReadOnly
| IsSuperReadOnly
| SetSuperReadOnly
| KillConnections
| ClearSuperReadOnly
| CloneInProgress.

(** The status code and the decoded body, [None] when it does not decode. A MySQL
    read answers [None] on error, a MySQL write whether it returned no error. *)
Definition ans (o : op) : Type :=
  match o with
  | Now => Z
  | GetHealthz | GetPeerPing _ => option Z
  | GetActiveSite _ _ => option (Z * option string)
  | GetPeerActiveSite _ => option (Z * option TopologySnapshot)
  | IsReadOnly | IsSuperReadOnly | CloneInProgress => option bool
  | SetSuperReadOnly | KillConnections | ClearSuperReadOnly => bool
  end.

Abbreviation P := (prog ans).

Definition StatusOK : Z := 200.

(** ** Construction and identity *)

Definition NewFencingMonitorFull (addr : string) (peers : list string) (interval lease : Z)
    (detects_clone : bool) : FencingMonitor :=
  {| bloodravenAddr := addr;
     peerAddrs := List.filter (fun p => negb (bool_decide (p = ""))) peers;
     checkInterval := interval; leaseTimeout := lease;
     lastBloodravenOK := 0; lastPeerOK := ∅; fenced := false; fencePending := false;
     mySite := ""; namespace := ""; group := ""; topology := None;
     operatorAnswered := false; operatorActiveSite := "";
     safetyNetClearer := false; cloneDetector := detects_clone;
     safetyNetPending := false; mysqlDownSince := 0; sawReadOnly := false; heartbeat := 0 |}.

Definition WithTopology (site ns grp : string) (cache : option TopologyCache) (f : FencingMonitor)
  : FencingMonitor :=
  f <| mySite := site |> <| namespace := ns |> <| group := grp |> <| topology := cache |>.

Definition WithSafetyNet (f : FencingMonitor) : FencingMonitor := f <| safetyNetClearer := true |>.

(** [f.topology != nil]. *)
Definition has_cache (f : FencingMonitor) : bool :=
  match topology f with Some _ => true | None => false end.

Definition topologyEnabled (f : FencingMonitor) : bool :=
  has_cache f && negb (bool_decide (mySite f = ""))
  && negb (bool_decide (namespace f = "")) && negb (bool_decide (group f = "")).

Definition topologyMismatch (f : FencingMonitor) : bool :=
  if topologyEnabled f then
    match topology f with
    | Some c => negb (bool_decide (activeSite c = "")) && negb (bool_decide (activeSite c = mySite f))
    | None => false
    end
  else false.

Definition safetyNetEnabled (f : FencingMonitor) : bool :=
  safetyNetClearer f && negb (bool_decide (bloodravenAddr f = "")) && topologyEnabled f.

Definition ArmSafetyNet (f : FencingMonitor) : FencingMonitor :=
  if safetyNetEnabled f then f <| safetyNetPending := true |> else f.

(** ** Durations, in nanoseconds *)

Definition mysqlProbeTimeout : Z := 5 * Second.
Definition httpRequestTimeout : Z := 2 * Second.
Definition fenceTimeout : Z := 20 * Second.
Definition fenceProbeTimeout : Z := 5 * Second.
Definition evaluateTimeout : Z := 2 * mysqlProbeTimeout + fenceTimeout + fenceProbeTimeout.
Definition safetyNetOutageRearm : Z := 30 * Second.

Definition StallThreshold (f : FencingMonitor) : Z :=
  let requests := 2 + 2 * Z.of_nat (length (peerAddrs f)) in
  let maxCheck := wrap64 (wrap64 (requests * httpRequestTimeout) + evaluateTimeout) in
  wrap64 (2 * wrap64 (checkInterval f + maxCheck)).

(** [sinceProgress] and [started], given the clock. *)
Definition LoopHealth (f : FencingMonitor) (now : Z) : Z * bool :=
  if heartbeat f =? 0 then (0, false) else (time_sub now (FromUnixNano (heartbeat f)), true).

Definition Stalled (f : FencingMonitor) (now : Z) : bool :=
  let '(since, started) := LoopHealth f now in started && (since >? StallThreshold f).

(** ** One tick *)

Definition SeedStartupGrace (now : Z) (f : FencingMonitor) : FencingMonitor :=
  f <| lastBloodravenOK := now |>
    <| lastPeerOK := fold_left (fun m addr => <[addr := now]> m) (peerAddrs f) (lastPeerOK f) |>.

Definition beat (f : FencingMonitor) : P FencingMonitor :=
  let! now := call Now in Ret (f <| heartbeat := UnixNano now |>).

Definition checkBloodraven (f : FencingMonitor) : P FencingMonitor :=
  if bool_decide (bloodravenAddr f = "") then Ret f
  else
    let! resp := call GetHealthz in
    match resp with
    | None => Ret f
    | Some status =>
        if status =? StatusOK then let! now := call Now in Ret (f <| lastBloodravenOK := now |>)
        else Ret f
    end.

Definition checkPeer (addr : string) (f : FencingMonitor) : P FencingMonitor :=
  if bool_decide (addr = "") then Ret f
  else
    let! resp := call (GetPeerPing addr) in
    match resp with
    | None => Ret f
    | Some status =>
        if status =? StatusOK then
          let! now := call Now in Ret (f <| lastPeerOK := <[addr := now]> (lastPeerOK f) |>)
        else Ret f
    end.

(** Writing through the cache pointer. *)
Definition set_topology (site : string) (at_ : Z) (f : FencingMonitor) : FencingMonitor :=
  f <| topology := Topology_Set site at_ <$> topology f |>.

Definition checkActiveSite (f : FencingMonitor) : P FencingMonitor :=
  if bool_decide (bloodravenAddr f = "") then Ret f
  else
    let! resp := call (GetActiveSite (namespace f) (group f)) in
    match resp with
    | None => Ret f
    | Some (status, body) =>
        if status =? StatusOK then
          match body with
          | None => Ret f
          | Some site =>
              let f := f <| operatorAnswered := true |> <| operatorActiveSite := site |> in
              let! now := call Now in Ret (set_topology site now f)
          end
        else Ret f
    end.

Definition checkPeerTopology (addr : string) (f : FencingMonitor) : P FencingMonitor :=
  if bool_decide (addr = "") then Ret f
  else
    let! resp := call (GetPeerActiveSite addr) in
    match resp with
    | None => Ret f
    | Some (status, body) =>
        if status =? StatusOK then
          match body with
          | None => Ret f
          | Some snap =>
              if bool_decide (ActiveSite snap = "") || (ObservedAt snap =? 0) then Ret f
              else
                let! now := call Now in
                let observed := if ObservedAt snap >? now then now else ObservedAt snap in
                Ret (f <| topology := (fun c => fst (Adopt (ActiveSite snap) observed c)) <$> topology f |>)
          end
        else Ret f
    end.

Definition latestPeerSeen (f : FencingMonitor) : Z :=
  map_fold (fun _ t latest => if t >? latest then t else latest) 0 (lastPeerOK f).

(** [rearm] at a given clock reading. *)
Definition rearmed (now : Z) (f : FencingMonitor) : FencingMonitor :=
  let f := f <| lastBloodravenOK := now |> <| lastPeerOK := (fun _ => now) <$> lastPeerOK f |> in
  if topologyEnabled f then set_topology "" now f else f.

Definition rearm (f : FencingMonitor) : P FencingMonitor :=
  let! now := call Now in Ret (rearmed now f).

Definition noteMySQLUnreachable (f : FencingMonitor) : P FencingMonitor :=
  let f := f <| sawReadOnly := false |> in
  if mysqlDownSince f =? 0 then let! now := call Now in Ret (f <| mysqlDownSince := now |>)
  else Ret f.

Definition noteMySQLReachable (f : FencingMonitor) : P FencingMonitor :=
  if mysqlDownSince f =? 0 then Ret f
  else
    let! now := call Now in
    let down := time_sub now (mysqlDownSince f) in
    let f := f <| mysqlDownSince := 0 |> in
    if (down <? safetyNetOutageRearm) || negb (safetyNetEnabled f) || safetyNetPending f || fencePending f
    then Ret f
    else Ret (f <| safetyNetPending := true |>).

(** [fenceLanded]: [None] when the probe failed. *)
Definition fenceLanded : P (option bool) := call IsSuperReadOnly.

Definition doFence (f : FencingMonitor) : P FencingMonitor :=
  let! ok := call SetSuperReadOnly in
  if ok : bool then
    let f := f <| fenced := true |> in
    let! _ := call KillConnections in Ret f
  else
    let! landed := fenceLanded in
    match (landed : option bool) with
    | None => Ret (f <| fencePending := true |>)
    | Some false => Ret f
    | Some true => Ret (f <| fenced := true |>)
    end.

(** The result says whether the tick was handled. *)
Definition resolveSafetyNet (f : FencingMonitor) (readOnly : bool) : P (FencingMonitor * bool) :=
  let! probe := call IsSuperReadOnly in
  match (probe : option bool) with
  | None => Ret (f, true)
  | Some superReadOnly =>
      if operatorAnswered f && bool_decide (operatorActiveSite f = mySite f) then
        if negb readOnly && negb superReadOnly then Ret (f <| safetyNetPending := false |>, true)
        else if fenced f then Ret (f <| safetyNetPending := false |>, true)
        else
          let! ok := call ClearSuperReadOnly in
          if ok : bool then Ret (f <| safetyNetPending := false |>, true) else Ret (f, true)
      else if superReadOnly then Ret (f <| safetyNetPending := false |>, true)
      else if negb readOnly && negb (fenced f) && topologyMismatch f then
        Ret (f <| safetyNetPending := false |>, false)
      else
        let! ok := call SetSuperReadOnly in
        if ok : bool then Ret (f <| safetyNetPending := false |>, true)
        else
          let! landed := fenceLanded in
          match (landed : option bool) with
          | Some true => Ret (f <| safetyNetPending := false |>, true)
          | _ => Ret (f, true)
          end
  end.

(** The lease rule: the operator and, when there are any, all peers silent for
    longer than the lease. *)
Definition leaseExpired (f : FencingMonitor) (now : Z) : bool :=
  let bloodravenDown := time_sub now (lastBloodravenOK f) >? leaseTimeout f in
  let peersDown :=
    if nonempty (peerAddrs f) then
      (latestPeerSeen f =? 0) || (time_sub now (latestPeerSeen f) >? leaseTimeout f)
    else true in
  bloodravenDown && peersDown.

(** The rules of a writable instance. *)
Definition apply_rules (f : FencingMonitor) : P FencingMonitor :=
  let! cloning :=
    (if cloneDetector f then let! r := call CloneInProgress in Ret (bool_decide (r = Some true))
     else Ret false) in
  if cloning : bool then Ret f
  else if topologyMismatch f then doFence f
  else
    let! now := call Now in
    if leaseExpired f now then doFence f else Ret f.

(** A restore after a self-fence and a promotion both re-arm the monitor; the
    rules apply to a writable instance. *)
Definition after_probes (f : FencingMonitor) (readOnly promoted : bool) : P FencingMonitor :=
  let! f :=
    (if fenced f then if readOnly then Ret f else rearm (f <| fenced := false |>)
     else if promoted then rearm f
     else Ret f) in
  if readOnly then Ret f else apply_rules f.

Definition resolve_pending (f : FencingMonitor) (readOnly promoted : bool) : P FencingMonitor :=
  if fencePending f then
    let! probe := call IsSuperReadOnly in
    match (probe : option bool) with
    | None => Ret f
    | Some superReadOnly =>
        let f := f <| fencePending := false |> in
        if superReadOnly then Ret (f <| fenced := true |>)
        else after_probes f readOnly promoted
    end
  else after_probes f readOnly promoted.

Definition evaluate (f : FencingMonitor) : P FencingMonitor :=
  let! probe := call IsReadOnly in
  match (probe : option bool) with
  | None => noteMySQLUnreachable f
  | Some readOnly =>
      let! f := noteMySQLReachable f in
      let promoted := sawReadOnly f && negb readOnly in
      let f := f <| sawReadOnly := readOnly |> in
      let! settled :=
        (if safetyNetPending f then resolveSafetyNet f readOnly else Ret (f, false)) in
      let '(f, handled) := settled in
      if handled : bool then Ret f else resolve_pending f readOnly promoted
  end.

Definition poll_peer (f : FencingMonitor) (addr : string) : P FencingMonitor :=
  let! f := checkPeer addr f in
  if topologyEnabled f && negb (operatorAnswered f) then checkPeerTopology addr f else Ret f.

(** The polls of a tick, before it evaluates. *)
Definition poll (f : FencingMonitor) : P FencingMonitor :=
  let f := f <| operatorAnswered := false |> <| operatorActiveSite := "" |> in
  let! f := checkBloodraven f in
  let! f := (if topologyEnabled f then checkActiveSite f else Ret f) in
  prog_fold poll_peer (peerAddrs f) f.

Definition Check_ (f : FencingMonitor) : P FencingMonitor :=
  let! f := beat f in
  let! f := poll f in
  let! f := evaluate f in
  beat f.

(** [Run]: the seed, then a tick per element of the ticker's channel. *)
Definition ticks (n : nat) (f : FencingMonitor) : P FencingMonitor :=
  prog_fold (fun f (_ : nat) => Check_ f) (seq 0 n) f.

Definition Run (n : nat) (f : FencingMonitor) : P FencingMonitor :=
  let! now := call Now in
  let! f := beat (SeedStartupGrace now f) in
  ticks n f.

(** ** The startup safety net ([server.go]) *)

Record Config : Type := {
  MySite : string; PodNamespace : string; FailoverGroup : string; BloodravenAddress : string
}.

(** [None] is any error, of the request, the status or the decoding. *)
Definition queryActiveSite (cfg : Config) : P (option string) :=
  let! resp := call (GetActiveSite (PodNamespace cfg) (FailoverGroup cfg)) in
  Ret match resp with
      | Some (status, body) => if status =? StatusOK then body else None
      | None => None
      end.

(** The cache it leaves and whether it settled. *)
Definition RunSafetyNet (cfg : Config) (cache : option TopologyCache)
  : P (option TopologyCache * bool) :=
  if bool_decide (MySite cfg = "") || bool_decide (PodNamespace cfg = "")
     || bool_decide (FailoverGroup cfg = "") || bool_decide (BloodravenAddress cfg = "")
  then Ret (cache, true)
  else
    let! fenced := call SetSuperReadOnly in
    let! active := queryActiveSite cfg in
    let! cache :=
      match active, cache with
      | Some site, Some c =>
          if bool_decide (site = "") then Ret cache
          else let! now := call Now in Ret (Some (Topology_Set site now c))
      | _, _ => Ret cache
      end in
    if negb (fenced : bool) then Ret (cache, false)
    else
      match active with
      | None => Ret (cache, true)
      | Some site =>
          if bool_decide (site = "") then Ret (cache, true)
          else if bool_decide (MySite cfg <> site) then Ret (cache, true)
          else
            let! ok := call ClearSuperReadOnly in
            if ok : bool then Ret (cache, true) else Ret (cache, false)
      end.

(** ** Specification vocabulary *)

#[export] Instance op_eq_dec : EqDecision op.
Proof. solve_decision. Defined.

(** What a tick never changes. *)
Definition same_setup (f g : FencingMonitor) : Prop :=
  bloodravenAddr g = bloodravenAddr f /\ peerAddrs g = peerAddrs f
  /\ checkInterval g = checkInterval f /\ leaseTimeout g = leaseTimeout f
  /\ mySite g = mySite f /\ namespace g = namespace f /\ group g = group f
  /\ safetyNetClearer g = safetyNetClearer f /\ cloneDetector g = cloneDetector f
  /\ has_cache g = has_cache f.

(** A call that leaves MySQL as it is and is not a MySQL read. *)
Definition is_poll (o : op) : bool :=
  match o with
  | Now | GetHealthz | GetActiveSite _ _ | GetPeerPing _ | GetPeerActiveSite _ => true
  | _ => false
  end.

Definition is_http (o : op) : bool :=
  match o with
  | GetHealthz | GetActiveSite _ _ | GetPeerPing _ | GetPeerActiveSite _ => true
  | _ => false
  end.

(** A write to MySQL's read-only state. *)
Definition is_write (o : op) : bool :=
  match o with SetSuperReadOnly | ClearSuperReadOnly => true | _ => false end.

(** The operator itself answered that the site is active. *)
Definition operator_says (f : FencingMonitor) (site : string) (tr : list (event ans)) : Prop :=
  ev (GetActiveSite (namespace f) (group f)) (Some (StatusOK, Some site)) ∈ tr.

End Fencing.

Import Fencing.

(** ** Lemmas: the shape of each function's runs *)

Lemma doFence_runs f tr f' : runs (doFence f) tr f' ->
  (exists k, tr = [ev SetSuperReadOnly true; ev KillConnections k] /\ f' = f <| fenced := true |>)
  \/ exists landed, tr = [ev SetSuperReadOnly false; ev IsSuperReadOnly landed]
       /\ f' = match landed with
               | None => f <| fencePending := true |>
               | Some true => f <| fenced := true |>
               | Some false => f
               end.
Proof.
  unfold doFence, fenceLanded. intros H. run_step H. destruct x.
  - left. run_all. simpl. eauto.
  - right. run_step H. exists x. destruct x as [[]|]; run_all; done.
Qed.

Lemma rearm_runs f tr f' : runs (rearm f) tr f' -> exists t, tr = [ev Now t] /\ f' = rearmed t f.
Proof. unfold rearm. intros H. run_all. simpl. eauto. Qed.

(** The rules' calls end with a fence, or there was none: a clone runs, or no view
    names another site and the lease has not expired. *)
Lemma apply_rules_runs f tr f' : runs (apply_rules f) tr f' ->
  (f' = f /\ ev CloneInProgress (Some true) ∈ tr /\ ~ called SetSuperReadOnly tr)
  \/ (f' = f /\ topologyMismatch f = false /\ ~ called SetSuperReadOnly tr
      /\ exists t, ev Now t ∈ tr /\ leaseExpired f t = false)
  \/ exists pre fence, tr = pre ++ fence /\ runs (doFence f) fence f'
       /\ ev CloneInProgress (Some true) ∉ pre /\ ~ called SetSuperReadOnly pre
       /\ (topologyMismatch f = true
           \/ exists t, ev Now t ∈ pre /\ leaseExpired f t = true).
Proof.
  assert (forall tr, (forall x : ans SetSuperReadOnly, ev SetSuperReadOnly x ∉ tr) ->
    ~ called SetSuperReadOnly tr) as Hno by (intros tr0 H0 [x Hx]; by eapply H0).
  unfold apply_rules. intros H. apply runs_bind_iff in H as (pre & cloning & rest & -> & Hc & H).
  assert (exists c, (pre = [] \/ pre = [ev CloneInProgress c]) /\ cloning = bool_decide (c = Some true)
            /\ (pre = [] -> cloning = false)) as (c & Hpre & Hcl & Hnil).
  { clear H. destruct (cloneDetector f); run_all; [by exists x; split; [right|]|].
    exists (None : ans CloneInProgress). split; [by left|done]. }
  assert (forall x : ans SetSuperReadOnly, ev SetSuperReadOnly x ∉ pre) as Hpw.
  { intros x Hx. destruct Hpre as [->| ->]; in_trace Hx. }
  clear Hc. destruct cloning; run_all.
  - left. split; [done|]. symmetry in Hcl. apply bool_decide_eq_true in Hcl as ->.
    destruct Hpre as [->| ->]; [by specialize (Hnil eq_refl)|]. split; [left|].
    apply Hno. intros x Hx. in_trace Hx.
  - assert (ev CloneInProgress (Some true) ∉ pre) as Hnc.
    { symmetry in Hcl. apply bool_decide_eq_false in Hcl. intros Hx. destruct Hpre as [->| ->]; in_trace Hx.
      by subst. }
    right; right. exists pre, rest. split_and!; [done..|by apply Hno|by left].
  - right; right. eexists (pre ++ [ev Now _]), _. rewrite <- (assoc_L (++)). split_and!; [done|exact H|..].
    + intros Hx. destruct Hpre as [->| ->]; in_trace Hx. symmetry in Hcl.
      apply bool_decide_eq_false in Hcl. by subst.
    + apply Hno. intros y Hy. apply elem_of_app in Hy as [Hy|Hy]; [by eapply Hpw|in_trace Hy].
    + right. eexists. split; [apply elem_of_app; right; left|done].
  - right; left. split_and!; [done..| |].
    + apply Hno. intros y Hy. apply elem_of_app in Hy as [Hy|Hy]; [by eapply Hpw|in_trace Hy].
    + eexists. split; [apply elem_of_app; right; left|done].
Qed.

(** States that agree on everything the rules and the safety net read, the
    monitor's own flags apart. *)
Definition same_view (f g : FencingMonitor) : Prop :=
  same_setup f g /\ lastBloodravenOK g = lastBloodravenOK f /\ lastPeerOK g = lastPeerOK f
  /\ topology g = topology f /\ operatorAnswered g = operatorAnswered f
  /\ operatorActiveSite g = operatorActiveSite f.

Lemma same_setup_refl f : same_setup f f.
Proof. done. Qed.

Lemma same_setup_trans f g h : same_setup f g -> same_setup g h -> same_setup f h.
Proof. unfold same_setup. intros H1 H2. destruct_and!. split_and!; congruence. Qed.

Lemma same_view_refl f : same_view f f.
Proof. done. Qed.

Lemma same_view_trans f g h : same_view f g -> same_view g h -> same_view f h.
Proof.
  intros (H1 & ?) (H2 & ?). split; [by eapply same_setup_trans|]. destruct_and!. split_and!; congruence.
Qed.

#[export] Hint Resolve same_setup_refl same_view_refl : prog.

Lemma same_view_enabled f g : same_view f g -> topologyEnabled g = topologyEnabled f.
Proof.
  unfold topologyEnabled, has_cache. intros (Hs & _ & _ & -> & _).
  by destruct Hs as (_ & _ & _ & _ & -> & -> & -> & _).
Qed.

Lemma same_view_mismatch f g : same_view f g -> topologyMismatch g = topologyMismatch f.
Proof.
  intros H. unfold topologyMismatch. rewrite (same_view_enabled f g H).
  destruct H as (Hs & _ & _ & -> & _). by destruct Hs as (_ & _ & _ & _ & -> & _).
Qed.

Lemma same_view_lease f g t : same_view f g -> leaseExpired g t = leaseExpired f t.
Proof.
  intros (Hs & H1 & H2 & _). unfold leaseExpired, latestPeerSeen. rewrite H1, H2.
  by destruct Hs as (_ & -> & _ & -> & _).
Qed.

Lemma same_view_rearmed f g t : same_view f g -> same_view (rearmed t f) (rearmed t g).
Proof.
  intros H. pose proof (same_view_enabled f g H) as He. unfold rearmed, set_topology.
  change (topologyEnabled (g <| lastBloodravenOK := t |> <| lastPeerOK := (λ _, t) <$> lastPeerOK g |>))
    with (topologyEnabled g).
  change (topologyEnabled (f <| lastBloodravenOK := t |> <| lastPeerOK := (λ _, t) <$> lastPeerOK f |>))
    with (topologyEnabled f).
  rewrite He. destruct H as (Hs & H1 & H2 & H3 & H4 & H5). unfold same_setup in Hs. destruct_and!.
  destruct (topologyEnabled f); unfold same_view, same_setup, has_cache; simpl; rewrite ?H2, ?H3;
    split_and!; congruence.
Qed.

(** A re-armed monitor holds no view. *)
Lemma rearmed_mismatch t f : topologyMismatch (rearmed t f) = false.
Proof.
  unfold rearmed. set (g := f <| lastBloodravenOK := t |> <| lastPeerOK := _ |>).
  destruct (topologyEnabled g) eqn:E; unfold topologyMismatch.
  - replace (topologyEnabled (set_topology "" t g)) with true.
    + unfold set_topology. simpl. by destruct (topology f).
    + rewrite <- E. unfold topologyEnabled, has_cache, set_topology. simpl. by destruct (topology f).
  - by rewrite E.
Qed.

Lemma rearmed_setup t f : same_setup f (rearmed t f).
Proof.
  unfold rearmed, set_topology. case_match; unfold same_setup, has_cache; simpl; split_and!; try done.
  by destruct (topology f).
Qed.

Lemma rearmed_seen t f : lastBloodravenOK (rearmed t f) = t.
Proof. unfold rearmed. by case_match. Qed.

(** The monitor may fence an instance that answered writable: no clone runs, and
    the view names another site or the lease has expired. *)
Definition rule_applies (f : FencingMonitor) (tr : list (event ans)) : Prop :=
  ev CloneInProgress (Some true) ∉ tr
  /\ (topologyMismatch f = true \/ exists t, ev Now t ∈ tr /\ leaseExpired f t = true).

Lemma doFence_calls f tr f' : runs (doFence f) tr f' ->
  (exists k, tr = [ev SetSuperReadOnly true; ev KillConnections k])
  \/ exists l, tr = [ev SetSuperReadOnly false; ev IsSuperReadOnly l].
Proof. intros [(k & -> & _)|(l & -> & _)]%doFence_runs; eauto. Qed.

Lemma apply_rules_fence f tr f' :
  runs (apply_rules f) tr f' -> called SetSuperReadOnly tr -> rule_applies f tr.
Proof.
  intros [(_ & _ & Hn)|[(_ & _ & Hn & _)|(pre & fence & -> & Hf & Hc & _ & Hr)]]%apply_rules_runs Hs;
    [done..|]. split.
  - intros [Hx|Hx]%elem_of_app; [done|].
    apply doFence_calls in Hf as [[k ->]|[l ->]]; in_trace Hx.
  - destruct Hr as [?|(t & Ht & ?)]; [by left|right]. exists t. split; [apply elem_of_app; by left|done].
Qed.

Lemma not_called_cons (o : op) (e : event ans) tr : projT1 e <> o -> ~ called o tr -> ~ called o (e :: tr).
Proof. intros He Hn [x [<-|Hx]%elem_of_cons]; [done|]. destruct Hn. by exists x. Qed.

(** The monitor's own flags agree. *)
Definition same_flags (f g : FencingMonitor) : Prop :=
  fenced g = fenced f /\ fencePending g = fencePending f /\ sawReadOnly g = sawReadOnly f.

Lemma not_in_of_not_called (o : op) x (tr : list (event ans)) : ~ called o tr -> ev o x ∉ tr.
Proof. intros Hn Hx. destruct Hn. by exists x. Qed.

Lemma noteMySQLReachable_runs f tr g : runs (noteMySQLReachable f) tr g ->
  same_view f g /\ same_flags f g
  /\ (tr = [] \/ exists t, tr = [ev Now t])
  /\ (mysqlDownSince f = 0 -> g = f)
  /\ (safetyNetPending g = safetyNetPending f
      \/ safetyNetPending f = false /\ safetyNetPending g = true
         /\ safetyNetEnabled f = true /\ fencePending f = false).
Proof.
  unfold noteMySQLReachable. intros H. run_all; zify_bool.
  - split_and!; try done; [by left|by left].
  - split_and!; try done; [right; by eexists|by left].
  - repeat match goal with H : (_ || _)%bool = false |- _ => apply orb_false_iff in H as [? ?] end.
    split_and!; try done; [right; by eexists|]. right. zify_bool. simpl in *. done.
Qed.

(** The operator confirmed on this tick that the site is active. *)
Definition confirmed (f : FencingMonitor) : bool :=
  operatorAnswered f && bool_decide (operatorActiveSite f = mySite f).

Lemma same_view_confirmed f g : same_view f g -> confirmed g = confirmed f.
Proof.
  intros (Hs & _ & _ & _ & H1 & H2). unfold confirmed. rewrite H1, H2.
  by destruct Hs as (_ & _ & _ & _ & -> & _).
Qed.

Lemma resolveSafetyNet_runs f ro tr r : runs (resolveSafetyNet f ro) tr r ->
  let '(g, handled) := r in
  same_view f g /\ same_flags f g
  /\ (called SetSuperReadOnly tr ->
        confirmed f = false /\ ev IsSuperReadOnly (Some false) ∈ tr /\ handled = true)
  /\ (called ClearSuperReadOnly tr -> confirmed f = true /\ fenced f = false)
  /\ (handled = false -> safetyNetPending g = false /\ ro = false /\ fenced f = false
                        /\ topologyMismatch f = true /\ exists x, tr = [ev IsSuperReadOnly x])
  /\ (handled = true -> safetyNetPending g = safetyNetPending f \/ safetyNetPending g = false
        /\ (confirmed f = true \/ ev SetSuperReadOnly true ∈ tr \/ ev IsSuperReadOnly (Some true) ∈ tr)).
Proof.
  unfold resolveSafetyNet, confirmed, fenceLanded. intros H. run_all; simplify_eq.
  all: split_and!; try done; try not_called; try (intros _; by left).
  all: try (intros _; right; split; [done|]; first [by left | right; left; ev_in | right; right; ev_in]).
  all: intros _; zify_bool; split_and!; try done; try ev_in. by eexists.
Qed.

(** The evidence on which the rules fence the state [f] of a tick. *)
Definition fence_justified (f : FencingMonitor) (tr : list (event ans)) : Prop :=
  ev CloneInProgress (Some true) ∉ tr
  /\ ((fenced f = false /\ sawReadOnly f = false /\ topologyMismatch f = true)
      \/ exists t, ev Now t ∈ tr
           /\ (leaseExpired f t = true
               \/ exists t0, ev Now t0 ∈ tr /\ leaseExpired (rearmed t0 f) t = true)).

(** What precedes the rules: nothing, or a re-arm at [t0]. *)
Lemma after_probes_runs f ro promoted tr f' : runs (after_probes f ro promoted) tr f' ->
  exists t1 g t2, tr = t1 ++ t2 /\ runs (if ro then Ret g else apply_rules g) t2 f'
    /\ ((g = f /\ t1 = [] /\ (ro = false -> fenced f = false /\ promoted = false))
        \/ exists t0, t1 = [ev Now t0] /\ same_view (rearmed t0 f) g
             /\ fenced g = false /\ fencePending g = fencePending f
             /\ safetyNetPending g = safetyNetPending f /\ mysqlDownSince g = mysqlDownSince f).
Proof.
  unfold after_probes. intros H. apply runs_bind_iff in H as (t1 & g & t2 & -> & H1 & H2).
  exists t1, g, t2. split; [done|]. split; [exact H2|]. clear H2.
  destruct (fenced f) eqn:Ef; [destruct ro|destruct promoted].
  - apply runs_Ret_iff in H1 as [-> ->]. left. by split_and!.
  - apply rearm_runs in H1 as (t0 & -> & ->). right. exists t0. split; [done|].
    split; [by apply same_view_rearmed|]. unfold rearmed. by case_match.
  - apply rearm_runs in H1 as (t0 & -> & ->). right. exists t0. split; [done|].
    split; [apply same_view_refl|]. unfold rearmed. by case_match.
  - apply runs_Ret_iff in H1 as [-> ->]. left. by split_and!.
Qed.

Lemma after_probes_fence f ro promoted tr f' :
  runs (after_probes f ro promoted) tr f' -> called SetSuperReadOnly tr ->
  ro = false /\ ev CloneInProgress (Some true) ∉ tr
  /\ ((fenced f = false /\ promoted = false /\ topologyMismatch f = true)
      \/ exists t, ev Now t ∈ tr
           /\ (leaseExpired f t = true
               \/ exists t0, ev Now t0 ∈ tr /\ leaseExpired (rearmed t0 f) t = true)).
Proof.
  intros (t1 & g & t2 & -> & H & Hg)%after_probes_runs Hc.
  assert (ro = false /\ called SetSuperReadOnly t2) as [-> Hc2].
  { apply called_app in Hc as [Hc|Hc].
    - destruct Hg as [(_ & -> & _)|(t0 & -> & _)]; revert Hc; not_called.
    - destruct ro; [|done]. apply runs_Ret_iff in H as [-> _]. revert Hc; not_called. }
  split; [done|]. destruct (apply_rules_fence g t2 f' H Hc2) as [Hn Hr].
  destruct Hg as [(-> & -> & Hf)|(t0 & -> & Hv & _)].
  - split; [done|]. destruct Hr as [Hm|(t & Ht & Hl)]; [left; naive_solver|right].
    exists t. split; [done|by left].
  - split; [intros [Hx|Hx]%elem_of_cons; [by apply ev_op in Hx|done]|].
    right. destruct Hr as [Hm|(t & Ht & Hl)].
    + rewrite (same_view_mismatch _ _ Hv), rearmed_mismatch in Hm. done.
    + exists t. split; [by right|]. right. exists t0. split; [left|].
      by rewrite <- (same_view_lease _ _ _ Hv).
Qed.

Lemma resolve_pending_runs f ro promoted tr f' : runs (resolve_pending f ro promoted) tr f' ->
  (exists pre g rest, tr = pre ++ rest /\ runs (after_probes g ro promoted) rest f'
     /\ ((fencePending f = false /\ pre = [] /\ g = f)
         \/ (fencePending f = true /\ pre = [ev IsSuperReadOnly (Some false)]
             /\ g = f <| fencePending := false |>)))
  \/ (fencePending f = true /\ tr = [ev IsSuperReadOnly None] /\ f' = f)
  \/ (fencePending f = true /\ tr = [ev IsSuperReadOnly (Some true)]
      /\ f' = f <| fencePending := false |> <| fenced := true |>).
Proof.
  unfold resolve_pending. intros H. destruct (fencePending f) eqn:Ef.
  - run_step H. destruct x as [[]|].
    + apply runs_Ret_iff in H as [-> ->]. right; right. by split_and!.
    + left. eexists [ev IsSuperReadOnly (Some false)], _, _.
      split; [done|]. split; [exact H|]. right. by split_and!.
    + apply runs_Ret_iff in H as [-> ->]. right; left. by split_and!.
  - left. exists [], f, tr. split; [done|]. split; [done|]. left. by split_and!.
Qed.

(** A tick's evaluation: the probe, the outage bookkeeping, the safety net when it
    is armed, then the rest. *)
Lemma evaluate_runs f tr f' : runs (evaluate f) tr f' ->
  (exists t, tr = ev IsReadOnly None :: t /\ runs (noteMySQLUnreachable f) t f')
  \/ exists ro t1 g1 t2 g2 handled t3,
       tr = ev IsReadOnly (Some ro) :: t1 ++ t2 ++ t3
       /\ runs (noteMySQLReachable f) t1 g1
       /\ (if safetyNetPending g1
           then runs (resolveSafetyNet (g1 <| sawReadOnly := ro |>) ro) t2 (g2, handled)
           else t2 = [] /\ g2 = g1 <| sawReadOnly := ro |> /\ handled = false)
       /\ (if handled then t3 = [] /\ f' = g2
           else runs (resolve_pending g2 ro (sawReadOnly g1 && negb ro)) t3 f').
Proof.
  unfold evaluate. intros H. run_step H. destruct x as [ro|]; [right|by left; eauto].
  apply runs_bind_iff in H as (t1 & g1 & t & -> & H1 & H).
  apply runs_bind_iff in H as (t2 & [g2 handled] & t3 & -> & H2 & H).
  exists ro, t1, g1, t2, g2, handled, t3. split; [done|]. split; [done|]. split.
  - change (safetyNetPending (g1 <| sawReadOnly := ro |>)) with (safetyNetPending g1) in H2.
    destruct (safetyNetPending g1); [done|]. by apply runs_Ret_iff in H2 as [-> [= -> ->]].
  - destruct handled; [by apply runs_Ret_iff in H|done].
Qed.

(** The state the rules see agrees with the tick's state. *)
Lemma evaluate_to_rules f tr f' : runs (evaluate f) tr f' -> called SetSuperReadOnly tr ->
  (confirmed f = false /\ ev IsSuperReadOnly (Some false) ∈ tr
   /\ (safetyNetPending f = true \/ safetyNetEnabled f = true))
  \/ exists ro g pre rest, tr = ev IsReadOnly (Some ro) :: pre ++ rest
       /\ same_view f g /\ fenced g = fenced f
       /\ ev CloneInProgress (Some true) ∉ pre
       /\ runs (after_probes g ro (sawReadOnly f && negb ro)) rest f'
       /\ called SetSuperReadOnly rest.
Proof.
  intros [(t & -> & H)|(ro & t1 & g1 & t2 & g2 & handled & t3 & -> & H1 & H2 & H3)]%evaluate_runs Hc.
  { exfalso. apply called_cons in Hc as [?|Hc]; [done|]. revert Hc. unfold noteMySQLUnreachable in H.
    run_all; not_called. }
  apply noteMySQLReachable_runs in H1 as (V1 & (F1 & _ & S1) & T1 & _ & P1).
  rewrite S1 in H3.
  assert (~ called SetSuperReadOnly t1 /\ ev CloneInProgress (Some true) ∉ t1) as [N1 C1].
  { destruct T1 as [->|[t ->]]; (split; [not_called|]); intros Hx; in_trace Hx. }
  assert (called SetSuperReadOnly t2 \/ called SetSuperReadOnly t3) as Hc23.
  { rewrite called_cons, !called_app in Hc. simpl in Hc. destruct Hc as [?|[?|?]]; done. }
  destruct Hc23 as [Hc2|Hc3].
  - left. destruct (safetyNetPending g1) eqn:Ep; [|destruct H2 as (-> & _); by apply called_nil in Hc2].
    apply resolveSafetyNet_runs in H2 as (V2 & _ & R & _). destruct (R Hc2) as (Hcf & Hs & _).
    split_and!.
    + rewrite <- (same_view_confirmed _ _ V1). exact Hcf.
    + right. apply elem_of_app. right. apply elem_of_app. by left.
    + destruct P1 as [P1|(_ & _ & ? & _)]; [left; congruence|by right].
  - right. destruct handled; [destruct H3 as [-> _]; by apply called_nil in Hc3|].
    assert (same_view f g2 /\ fenced g2 = fenced f /\ ev CloneInProgress (Some true) ∉ t2) as (V2 & F2 & C2).
    { destruct (safetyNetPending g1).
      - apply resolveSafetyNet_runs in H2 as (V2 & (F2 & _) & _ & _ & R & _).
        destruct (R eq_refl) as (_ & _ & _ & _ & x & ->). split; [by eapply same_view_trans|].
        split; [simpl in F2; congruence|]. intros Hx. in_trace Hx.
      - destruct H2 as (-> & -> & _). split; [by eapply same_view_trans|]. split; [done|].
        apply not_elem_of_nil. }
    apply resolve_pending_runs in H3 as [(pre & g & rest & -> & Hr & Hg)|[(_ & -> & _)|(_ & -> & _)]];
      [|revert Hc3; not_called..].
    exists ro, g, (t1 ++ t2 ++ pre), rest. split_and!.
    + by rewrite <- !(assoc_L (++)).
    + destruct Hg as [(_ & _ & ->)|(_ & _ & ->)]; done.
    + destruct Hg as [(_ & _ & ->)|(_ & _ & ->)]; done.
    + rewrite !elem_of_app. intros [?|[?|Hx]]; [done|done|].
      destruct Hg as [(_ & -> & _)|(_ & -> & _)]; in_trace Hx.
    + done.
    + apply called_app in Hc3 as [Hx|?]; [|done]. exfalso.
      destruct Hg as [(_ & -> & _)|(_ & -> & _)]; revert Hx; not_called.
Qed.

Lemma same_setup_says f g site tr : same_setup f g -> operator_says g site tr <-> operator_says f site tr.
Proof. unfold operator_says. by intros (_ & _ & _ & _ & _ & -> & -> & _). Qed.

(** *** The polls *)

(** What the polls leave alone. *)
Definition same_core (f g : FencingMonitor) : Prop :=
  same_setup f g /\ same_flags f g /\ safetyNetPending g = safetyNetPending f
  /\ mysqlDownSince g = mysqlDownSince f.

Lemma same_core_trans f g h : same_core f g -> same_core g h -> same_core f h.
Proof.
  intros (Ha & (? & ? & ?) & ? & ?) (Hb & (? & ? & ?) & ? & ?).
  split; [by eapply same_setup_trans|]. split; [split_and!|split]; congruence.
Qed.

Lemma same_core_topology f c :
  same_core f (f <| topology := c <$> topology f |>).
Proof. unfold same_core, same_setup, has_cache. simpl. split_and!; try done. by destruct (topology f). Qed.

Lemma checkBloodraven_core f tr g : runs (checkBloodraven f) tr g -> same_core f g
  /\ topology g = topology f /\ operatorAnswered g = operatorAnswered f
  /\ operatorActiveSite g = operatorActiveSite f.
Proof. unfold checkBloodraven. intros H. run_all; done. Qed.

Lemma checkPeer_core addr f tr g : runs (checkPeer addr f) tr g -> same_core f g
  /\ topology g = topology f /\ operatorAnswered g = operatorAnswered f
  /\ operatorActiveSite g = operatorActiveSite f.
Proof. unfold checkPeer. intros H. run_all; done. Qed.

Lemma checkPeerTopology_core addr f tr g : runs (checkPeerTopology addr f) tr g ->
  same_core f g /\ operatorAnswered g = operatorAnswered f
  /\ operatorActiveSite g = operatorActiveSite f.
Proof.
  unfold checkPeerTopology. intros H. run_all; try done; (split; [apply same_core_topology|done]).
Qed.

Lemma checkActiveSite_core f tr g : runs (checkActiveSite f) tr g -> same_core f g
  /\ ((operatorAnswered g = operatorAnswered f /\ operatorActiveSite g = operatorActiveSite f
       /\ topology g = topology f)
      \/ (operatorAnswered g = true /\ operator_says f (operatorActiveSite g) tr
          /\ exists t, ev Now t ∈ tr
               /\ topology g = Topology_Set (operatorActiveSite g) t <$> topology f)).
Proof.
  unfold checkActiveSite, set_topology, operator_says. intros H. run_all; zify_bool; subst;
    try (split; [done|by left]).
  split; [apply (same_core_trans _ (f <| operatorAnswered := true |> <| operatorActiveSite := s |>));
    [done|apply same_core_topology]|].
  right. simpl. split; [done|]. split; [by left|]. eexists. split; [right; by left|done].
Qed.

Lemma poll_peer_core f addr tr g : runs (poll_peer f addr) tr g ->
  same_core f g /\ operatorAnswered g = operatorAnswered f
  /\ operatorActiveSite g = operatorActiveSite f
  /\ (operatorAnswered f = true -> topology g = topology f
        /\ forall a, ~ called (GetPeerActiveSite a) tr).
Proof.
  unfold poll_peer. intros H. apply runs_bind_iff in H as (t1 & h & t2 & -> & H1 & H2).
  assert (forall a, ~ called (GetPeerActiveSite a) t1) as Hn.
  { intros a. clear H2. unfold checkPeer in H1. run_all; not_called. }
  apply checkPeer_core in H1 as (C1 & T1 & A1 & O1). rewrite A1 in H2.
  destruct (topologyEnabled h && negb (operatorAnswered f)) eqn:E.
  - apply checkPeerTopology_core in H2 as (C2 & A2 & O2). split; [by eapply same_core_trans|].
    split; [congruence|]. split; [congruence|]. zify_bool. congruence.
  - apply runs_Ret_iff in H2 as [-> ->]. rewrite app_nil_r. by split_and!.
Qed.

Lemma poll_core f tr g : runs (poll f) tr g ->
  same_core f g
  /\ (operatorAnswered g = true ->
        operator_says f (operatorActiveSite g) tr
        /\ (exists t, ev Now t ∈ tr
             /\ topology g = Topology_Set (operatorActiveSite g) t <$> topology f)
        /\ forall a, ~ called (GetPeerActiveSite a) tr)
  /\ (operatorAnswered g = false -> operatorActiveSite g = "").
Proof.
  unfold poll. set (f0 := f <| operatorAnswered := false |> <| operatorActiveSite := "" |>).
  intros H. apply runs_bind_iff in H as (t1 & f1 & t & -> & H1 & H).
  apply runs_bind_iff in H as (t2 & f2 & t3 & -> & H2 & H3).
  assert (same_core f f1 /\ topology f1 = topology f /\ operatorAnswered f1 = false
    /\ operatorActiveSite f1 = "" /\ forall a, ~ called (GetPeerActiveSite a) t1) as (C1 & T1 & A1 & O1 & N1).
  { pose proof (checkBloodraven_core _ _ _ H1) as (C & T & A & O). split_and!; try done.
    intros a. unfold checkBloodraven in H1. clear -H1. run_all; not_called. }
  assert (same_core f1 f2 /\ (forall a, ~ called (GetPeerActiveSite a) t2)
    /\ ((operatorAnswered f2 = false /\ operatorActiveSite f2 = "")
        \/ (operatorAnswered f2 = true /\ operator_says f (operatorActiveSite f2) t2
            /\ exists t, ev Now t ∈ t2
                 /\ topology f2 = Topology_Set (operatorActiveSite f2) t <$> topology f)))
    as (C2 & N2 & A2).
  { destruct (topologyEnabled f1); [|apply runs_Ret_iff in H2 as [-> ->]; split; [done|]; split;
      [intros a; not_called|by left]].
    pose proof (checkActiveSite_core _ _ _ H2) as (C & HA). split; [done|]. split.
    - intros a. unfold checkActiveSite in H2. clear -H2. run_all; not_called.
    - destruct HA as [(A & O & _)|(A & S & t & Ht & T)]; [left; split; congruence|right].
      split; [done|]. split; [|exists t; split; [done|congruence]].
      destruct C1 as (Hs & _). by rewrite <- (same_setup_says _ _ _ _ Hs). }
  assert (same_core f2 g /\ operatorAnswered g = operatorAnswered f2
    /\ operatorActiveSite g = operatorActiveSite f2
    /\ (operatorAnswered f2 = true -> topology g = topology f2
          /\ forall a, ~ called (GetPeerActiveSite a) t3)) as (C3 & A3 & O3 & N3).
  { apply (runs_fold_inv _ (fun tr h => same_core f2 h /\ operatorAnswered h = operatorAnswered f2
      /\ operatorActiveSite h = operatorActiveSite f2
      /\ (operatorAnswered f2 = true -> topology h = topology f2
            /\ forall a, ~ called (GetPeerActiveSite a) tr)) _ _ _ _ H3).
    - split_and!; try done. intros _. split; [done|]. intros a. not_called.
    - intros tr1 h1 x tr2 h2 _ (D1 & B1 & Q1 & M1) Hx.
      apply poll_peer_core in Hx as (D2 & B2 & Q2 & M2). split; [by eapply same_core_trans|].
      split; [congruence|]. split; [congruence|]. intros Ha. destruct (M1 Ha) as [Ht1 Hn1].
      rewrite B1 in M2. destruct (M2 Ha) as [Ht2 Hn2]. split; [congruence|]. intros a.
      rewrite called_app. intros [?|?]; [by eapply Hn1|by eapply Hn2]. }
  split; [eapply same_core_trans; [|exact C3]; by eapply same_core_trans|].
  rewrite A3, O3. split.
  - intros Ha. destruct A2 as [[? _]|(_ & S & t & Ht & T)]; [congruence|].
    destruct (N3 Ha) as [T3 N3']. split; [|split].
    + unfold operator_says in *. apply elem_of_app. right. apply elem_of_app. by left.
    + exists t. split; [|congruence]. apply elem_of_app. right. apply elem_of_app. by left.
    + intros a. rewrite !called_app. intros [?|[?|?]]; [by eapply N1|by eapply N2|by eapply N3'].
  - intros Ha. destruct A2 as [[_ ?]|[? _]]; congruence.
Qed.

(** ** Theorems *)

(** C24. The monitor writes [super_read_only=ON] only on evidence. Either the
    armed safety net does, on a server that just answered that it is not
    super-fenced, when the operator did not itself confirm on this tick that the
    site is active; or the server answered that it is writable, no clone runs on
    it, and the cached view names another site (on a monitor that has not just
    seen a promotion) or the lease has expired on every signal. *)
Theorem fence_only_when_justified f tr f' :
  runs (evaluate f) tr f' -> called SetSuperReadOnly tr ->
  (confirmed f = false /\ ev IsSuperReadOnly (Some false) ∈ tr
   /\ (safetyNetPending f = true \/ safetyNetEnabled f = true))
  \/ (ev IsReadOnly (Some false) ∈ tr /\ fence_justified f tr).
Proof.
  intros H Hc.
  destruct (evaluate_to_rules f tr f' H Hc) as [?|(ro & g & pre & rest & -> & V & F & C & Hr & Hc')]; [by left|right].
  destruct (after_probes_fence _ _ _ _ _ Hr Hc') as (-> & Cr & J). split; [left|]. split.
  { rewrite elem_of_cons, elem_of_app. intros [Hx|[?|?]]; [by apply ev_op in Hx|done|done]. }
  assert (forall e, e ∈ rest -> e ∈ ev IsReadOnly (Some false) :: pre ++ rest) as Hin
    by (intros e He; right; apply elem_of_app; by right).
  destruct J as [(E1 & E2 & E3)|(t & Ht & J)]; [left|right].
  - rewrite (same_view_mismatch _ _ V) in E3. rewrite andb_true_r in E2. by rewrite <- F.
  - exists t. split; [by apply Hin|]. destruct J as [J|(t0 & Ht0 & J)].
    + left. by rewrite <- (same_view_lease _ _ _ V).
    + right. exists t0. split; [by apply Hin|].
      by rewrite <- (same_view_lease _ _ _ (same_view_rearmed _ _ t0 V)).
Qed.

(** Nothing is pending: the tick reduces to the rules. *)
Definition quiet (f : FencingMonitor) : Prop :=
  safetyNetPending f = false /\ fencePending f = false /\ fenced f = false
  /\ sawReadOnly f = false /\ mysqlDownSince f = 0.

Lemma evaluate_quiet f tr f' : quiet f -> runs (evaluate f) tr f' ->
  ev IsReadOnly (Some false) ∈ tr ->
  exists t1 t2, tr = ev IsReadOnly (Some false) :: t1 ++ t2 /\ runs (apply_rules f) t2 f'.
Proof.
  intros (Q1 & Q2 & Q3 & Q4 & Q5) H Hin.
  apply evaluate_runs in H as [(t & -> & H)|(ro & t1 & g1 & t2 & g2 & handled & t3 & -> & H1 & H2 & H3)].
  - exfalso. apply elem_of_cons in Hin as [Hin%ev_inj|Hin]; [done|].
    unfold noteMySQLUnreachable in H. run_all; in_trace Hin.
  - pose proof (noteMySQLReachable_runs _ _ _ H1) as (_ & _ & T1 & G1 & _). rewrite (G1 Q5) in *.
    rewrite Q1 in H2. destruct H2 as (-> & -> & ->). rewrite Q4 in H3. simpl in H3.
    assert (ro = false) as ->.
    { apply elem_of_cons in Hin as [Hin%ev_inj|Hin]; [congruence|]. destruct ro; [|done]. exfalso.
      apply resolve_pending_runs in H3 as [(pre & g & rest & -> & Hr & Hg)|[(Hf & _)|(Hf & _)]];
        [|simpl in Hf; congruence..].
      destruct Hg as [(_ & -> & ->)|(Hf & _)]; [|simpl in Hf; congruence].
      apply after_probes_runs in Hr as (t1' & g & t2' & -> & Hr & Hg). apply runs_Ret_iff in Hr as [-> _].
      destruct Hg as [(_ & -> & _)|(t0 & -> & _)]; destruct T1 as [->|[t ->]]; in_trace Hin. }
    apply resolve_pending_runs in H3 as [(pre & g & rest & -> & Hr & Hg)|[(Hf & _)|(Hf & _)]];
      [|simpl in Hf; congruence..].
    destruct Hg as [(_ & -> & ->)|(Hf & _)]; [|simpl in Hf; congruence].
    unfold after_probes in Hr. simpl in Hr. rewrite Q3 in Hr. simpl in Hr.
    exists t1, rest. split; [done|]. destruct f. simpl in *. subst. exact Hr.
Qed.

(** C36. The rules do fire: on a monitor that is not fenced, with no fence or safety net
    pending, no earlier read-only answer and no outage being timed, when the server
    answers that it is writable, no clone is reported in progress, and the view names another site or
    every clock reading of the tick finds the lease expired, the tick writes
    [super_read_only=ON]. An acknowledged write marks the monitor fenced and evicts
    connections; an unacknowledged one is settled by the server's own answer, or
    left pending when there is none. *)
Theorem rules_fire f tr f' :
  quiet f -> runs (evaluate f) tr f' ->
  ev IsReadOnly (Some false) ∈ tr -> ev CloneInProgress (Some true) ∉ tr ->
  (topologyMismatch f = true \/ forall t, ev Now t ∈ tr -> leaseExpired f t = true) ->
  (ev SetSuperReadOnly true ∈ tr /\ called KillConnections tr /\ fenced f' = true)
  \/ (ev SetSuperReadOnly false ∈ tr
      /\ ((ev IsSuperReadOnly (Some true) ∈ tr /\ fenced f' = true)
          \/ (ev IsSuperReadOnly (Some false) ∈ tr /\ fenced f' = false)
          \/ (ev IsSuperReadOnly None ∈ tr /\ fencePending f' = true))).
Proof.
  intros Hq H Hro Hcl Hr. pose proof Hq as (_ & _ & Hf & _).
  destruct (evaluate_quiet f tr f' Hq H Hro) as (t1 & t2 & -> & H2).
  assert (forall e, e ∈ t2 -> e ∈ ev IsReadOnly (Some false) :: t1 ++ t2) as Hin
    by (intros e He; right; apply elem_of_app; by right).
  apply apply_rules_runs in H2 as [(_ & Hc & _)|[(_ & Hm & _ & t & Ht & Hl)|(pre & fence & -> & Hd & _)]].
  - destruct Hcl. by apply Hin.
  - exfalso. destruct Hr as [?|Hr]; [congruence|]. rewrite (Hr t) in Hl by (by apply Hin). done.
  - assert (forall e, e ∈ fence -> e ∈ ev IsReadOnly (Some false) :: t1 ++ pre ++ fence) as Hin'
      by (intros e He; apply Hin, elem_of_app; by right).
    apply doFence_runs in Hd as [(k & -> & ->)|(l & -> & ->)].
    + left. split; [apply Hin'; left|]. split; [exists k; apply Hin'; right; left|done].
    + right. split; [apply Hin'; left|].
      destruct l as [[]|]; [left|right; left|right; right]; (split; [apply Hin'; right; left|done]).
Qed.

(** How a part of a tick may change the self-fence flags. *)
Definition flags_step (f : FencingMonitor) (tr : list (event ans)) (g : FencingMonitor) : Prop :=
  (fenced g = true ->
     fenced f = true \/ ev SetSuperReadOnly true ∈ tr
     \/ (ev IsSuperReadOnly (Some true) ∈ tr
         /\ (fencePending f = true \/ ev SetSuperReadOnly false ∈ tr)))
  /\ (fencePending g = true -> fencePending f = true \/ ev SetSuperReadOnly false ∈ tr).

Lemma flags_step_same f tr g : fenced g = fenced f -> fencePending g = fencePending f -> flags_step f tr g.
Proof. unfold flags_step. intros -> ->. auto. Qed.

Lemma flags_step_app f t1 g t2 h : flags_step f t1 g -> flags_step g t2 h -> flags_step f (t1 ++ t2) h.
Proof. unfold flags_step. setoid_rewrite elem_of_app. intros [A1 A2] [B1 B2]. split; tauto. Qed.

Lemma flags_step_cons f e tr g : flags_step f tr g -> flags_step f (e :: tr) g.
Proof. unfold flags_step. setoid_rewrite elem_of_cons. intros [A1 A2]. split; tauto. Qed.

Lemma doFence_flags f tr g : runs (doFence f) tr g -> flags_step f tr g.
Proof.
  intros [(k & -> & ->)|(l & -> & ->)]%doFence_runs; unfold flags_step; simpl.
  - split; [intros _; right; left; ev_in|by left].
  - destruct l as [[]|]; simpl; (split; [|try by left]); try by left.
    + intros _. right; right. split; [ev_in|right; ev_in].
    + intros _. right; ev_in.
Qed.

Lemma apply_rules_flags f tr g : runs (apply_rules f) tr g -> flags_step f tr g.
Proof.
  intros [(-> & _)|[(-> & _)|(pre & fence & -> & Hd & _)]]%apply_rules_runs; try by apply flags_step_same.
  apply (flags_step_app f pre f); [by apply flags_step_same|by apply doFence_flags].
Qed.

Lemma after_probes_flags f ro promoted tr g : runs (after_probes f ro promoted) tr g -> flags_step f tr g.
Proof.
  intros (t1 & h & t2 & -> & H & Hh)%after_probes_runs. apply (flags_step_app f t1 h).
  - destruct Hh as [(-> & _)|(t0 & _ & _ & Hf & Hp & _)]; [by apply flags_step_same|].
    unfold flags_step. rewrite Hf, Hp. split; [done|by left].
  - destruct ro; [apply runs_Ret_iff in H as [-> ->]; by apply flags_step_same|by apply apply_rules_flags].
Qed.

Lemma resolve_pending_flags f ro promoted tr g : runs (resolve_pending f ro promoted) tr g -> flags_step f tr g.
Proof.
  intros [(pre & h & rest & -> & Hr & Hh)|[(_ & -> & ->)|(Hf & -> & ->)]]%resolve_pending_runs.
  - apply (flags_step_app f pre h); [|by eapply after_probes_flags].
    destruct Hh as [(_ & _ & ->)|(? & _ & ->)]; [by apply flags_step_same|].
    unfold flags_step. simpl. split; [by left|done].
  - by apply flags_step_same.
  - unfold flags_step. simpl. split; [|done]. intros _. right; right. split; [ev_in|by left].
Qed.

Lemma evaluate_flags f tr g : runs (evaluate f) tr g -> flags_step f tr g.
Proof.
  intros [(t & -> & H)|(ro & t1 & g1 & t2 & g2 & handled & t3 & -> & H1 & H2 & H3)]%evaluate_runs;
    apply flags_step_cons.
  - unfold noteMySQLUnreachable in H. run_all; by apply flags_step_same.
  - apply noteMySQLReachable_runs in H1 as (_ & (F1 & F2 & _) & _).
    apply (flags_step_app f t1 g1); [by apply flags_step_same|].
    apply (flags_step_app g1 t2 g2).
    + destruct (safetyNetPending g1).
      * apply resolveSafetyNet_runs in H2 as (_ & (? & ? & _) & _). by apply flags_step_same.
      * destruct H2 as (-> & -> & _). by apply flags_step_same.
    + destruct handled; [destruct H3 as [-> ->]; by apply flags_step_same|].
      by eapply resolve_pending_flags.
Qed.

Lemma beat_runs f tr g : runs (beat f) tr g ->
  exists t, tr = [ev Now t] /\ g = f <| heartbeat := UnixNano t |>.
Proof. unfold beat. intros H. run_all. simpl. eauto. Qed.

(** A tick is its polls, its evaluation and two beats. *)
Lemma Check_runs f tr g : runs (Check_ f) tr g ->
  exists n1 t1 h1 t2 h2 n2,
    tr = ev Now n1 :: t1 ++ t2 ++ [ev Now n2]
    /\ runs (poll (f <| heartbeat := UnixNano n1 |>)) t1 h1
    /\ runs (evaluate h1) t2 h2 /\ g = h2 <| heartbeat := UnixNano n2 |>.
Proof.
  unfold Check_. intros H. apply runs_bind_iff in H as (t0 & f0 & t & -> & H0 & H).
  apply beat_runs in H0 as (n1 & -> & ->).
  apply runs_bind_iff in H as (t1 & h1 & t' & -> & H1 & H).
  apply runs_bind_iff in H as (t2 & h2 & t3 & -> & H2 & H3).
  apply beat_runs in H3 as (n2 & -> & ->). exists n1, t1, h1, t2, h2, n2. by split_and!.
Qed.

Lemma Check_flags f tr g : runs (Check_ f) tr g -> flags_step f tr g.
Proof.
  intros (n1 & t1 & h1 & t2 & h2 & n2 & -> & H1 & H2 & ->)%Check_runs. apply flags_step_cons.
  apply poll_core in H1 as ((_ & (F1 & F2 & _) & _) & _).
  apply (flags_step_app f t1 h1); [by apply flags_step_same|].
  apply (flags_step_app h1 t2 h2); [by apply evaluate_flags|by apply flags_step_same].
Qed.

(** C31. [self_fenced] is never claimed without proof: over any run of the monitor
    from a fresh process, a fenced monitor has had a write acknowledged, or sent one
    whose outcome was unknown and then read [super_read_only=ON]. *)
Theorem fenced_is_proven n f tr f' :
  fenced f = false -> fencePending f = false -> runs (Run n f) tr f' -> fenced f' = true ->
  ev SetSuperReadOnly true ∈ tr
  \/ (ev SetSuperReadOnly false ∈ tr /\ ev IsSuperReadOnly (Some true) ∈ tr).
Proof.
  intros Hf Hp H. unfold Run in H. run_step H. apply runs_bind_iff in H as (t1 & f1 & t2 & -> & H1 & H).
  apply beat_runs in H1 as (n1 & -> & ->).
  assert (flags_step f t2 f') as [Hs _].
  { apply (runs_fold_inv _ (fun tr g => flags_step f tr g) _ _ _ _ H).
    - by apply flags_step_same.
    - intros s1 g1 _ s2 g2 _ Hg H2%Check_flags. by eapply flags_step_app. }
  intros Hf'. specialize (Hs Hf'). rewrite !elem_of_cons, !elem_of_app, elem_of_cons.
  destruct Hs as [?|[Hs|[Hs [?|Hw]]]]; [congruence|tauto|congruence|tauto].
Qed.

(** *** Which calls each part makes *)

Definition not_clear (o : op) : bool := match o with ClearSuperReadOnly => false | _ => true end.

Lemma poll_only f : only is_poll (poll f).
Proof.
  unfold poll, checkBloodraven, checkActiveSite, poll_peer, checkPeer, checkPeerTopology. solve_only.
Qed.

Lemma poll_not_called o f tr g : is_poll o = false -> runs (poll f) tr g -> ~ called o tr.
Proof. intros Ho H [x Hx]. by eapply (only_not_in is_poll); [apply poll_only|..]. Qed.

Lemma resolve_pending_only f ro promoted : only not_clear (resolve_pending f ro promoted).
Proof.
  unfold resolve_pending, after_probes, rearm, apply_rules, doFence, fenceLanded. solve_only.
Qed.

Lemma Check_evaluate_called o f tr g : runs (Check_ f) tr g -> is_poll o = false ->
  called o tr ->
  exists h t1 t2 h2 n2, runs (poll h) t1 h2 /\ same_core f h /\ same_core f h2
    /\ (exists h3, runs (evaluate h2) t2 h3 /\ g = h3 <| heartbeat := UnixNano n2 |>)
    /\ called o t2 /\ forall e, e ∈ t1 ++ t2 -> e ∈ tr.
Proof.
  intros (n1 & t1 & h1 & t2 & h2 & n2 & -> & H1 & H2 & ->)%Check_runs Ho Hc.
  exists (f <| heartbeat := UnixNano n1 |>), t1, t2, h1, n2.
  pose proof (poll_core _ _ _ H1) as (C & _).
  split; [done|]. split; [done|]. split; [by apply (same_core_trans _ (f <| heartbeat := UnixNano n1 |>))|].
  split; [by eexists|]. split.
  - rewrite called_cons, !called_app, called_cons, called_nil in Hc. simpl in Hc.
    assert (o <> Now) by (by intros ->). pose proof (poll_not_called o _ _ _ Ho H1). naive_solver.
  - intros e. rewrite elem_of_cons, !elem_of_app. tauto.
Qed.

Lemma evaluate_clear f tr f' : runs (evaluate f) tr f' -> called ClearSuperReadOnly tr ->
  confirmed f = true /\ fenced f = false
  /\ (safetyNetPending f = true \/ safetyNetEnabled f = true).
Proof.
  intros [(t & -> & H)|(ro & t1 & g1 & t2 & g2 & handled & t3 & -> & H1 & H2 & H3)]%evaluate_runs Hc.
  { exfalso. apply called_cons in Hc as [?|Hc]; [done|]. revert Hc. unfold noteMySQLUnreachable in H.
    run_all; not_called. }
  apply noteMySQLReachable_runs in H1 as (V1 & (F1 & _) & T1 & _ & P1).
  rewrite called_cons, !called_app in Hc. destruct Hc as [?|[Hc|[Hc|Hc]]]; [done|..].
  - exfalso. destruct T1 as [->|[t ->]]; revert Hc; not_called.
  - destruct (safetyNetPending g1) eqn:Ep; [|destruct H2 as (-> & _); by apply called_nil in Hc].
    apply resolveSafetyNet_runs in H2 as (_ & _ & _ & R & _). destruct (R Hc) as [Hcf Hf].
    split; [rewrite <- (same_view_confirmed _ _ V1); exact Hcf|]. split; [simpl in Hf; congruence|].
    destruct P1 as [P1|(_ & _ & ? & _)]; [left; congruence|by right].
  - exfalso. destruct handled; [destruct H3 as [-> _]; by apply called_nil in Hc|].
    destruct Hc as [x Hx]. 
    exact (only_not_in not_clear _ _ _ _ x (resolve_pending_only _ _ _) H3 eq_refl Hx).
Qed.

Lemma same_core_enabled f g : same_core f g -> safetyNetEnabled g = safetyNetEnabled f.
Proof.
  intros (Hs & _). unfold safetyNetEnabled, topologyEnabled.
  by destruct Hs as (-> & _ & _ & _ & -> & -> & -> & -> & _ & ->).
Qed.

(** The operator's confirmation on the tick is the operator's own answer. *)
Lemma poll_confirmed f h t1 h2 : runs (poll h) t1 h2 -> same_core f h -> same_core f h2 ->
  confirmed h2 = true -> operator_says f (mySite f) t1.
Proof.
  intros H1 (S & _) (S2 & _) Hc. unfold confirmed in Hc. zify_bool.
  apply poll_core in H1 as (_ & Ha & _). destruct (Ha H) as (Hsay & _).
  rewrite <- (same_setup_says f h _ _ S). replace (mySite f) with (operatorActiveSite h2); [done|].
  destruct S2 as (_ & _ & _ & _ & Hm & _). congruence.
Qed.

(** The monitor makes MySQL writable only for the active site: when it clears
    [super_read_only], the operator itself named this site on the same tick's poll,
    the monitor had not self-fenced, and the safety net was armed or enabled. *)
Theorem clear_only_when_confirmed f tr f' :
  runs (Check_ f) tr f' -> called ClearSuperReadOnly tr ->
  operator_says f (mySite f) tr /\ fenced f = false
  /\ (safetyNetPending f = true \/ safetyNetEnabled f = true).
Proof.
  intros H Hc.
  destruct (Check_evaluate_called ClearSuperReadOnly _ _ _ H eq_refl Hc) as (h & t1 & t2 & h2 & n2 & H1 & C1 & C2 & (h3 & H2 & _) & Hc2 & Hin).
  destruct (evaluate_clear _ _ _ H2 Hc2) as (Hcf & Hf & Hp). split; [|split].
  - apply Hin, elem_of_app. left. by eapply poll_confirmed.
  - destruct C2 as (_ & (? & _) & _). congruence.
  - rewrite <- (same_core_enabled f h2 C2). destruct C2 as (_ & _ & <- & _). done.
Qed.

Lemma doFence_net f tr g : runs (doFence f) tr g -> safetyNetPending g = safetyNetPending f.
Proof. intros [(k & _ & ->)|([[]|] & _ & ->)]%doFence_runs; done. Qed.

Lemma after_probes_net f ro promoted tr g : runs (after_probes f ro promoted) tr g ->
  safetyNetPending g = safetyNetPending f.
Proof.
  unfold after_probes. intros (t1 & h & t2 & -> & H1 & H2)%runs_bind_iff.
  transitivity (safetyNetPending h).
  - destruct ro; [apply runs_Ret_iff in H2 as [_ ->]; done|].
    apply apply_rules_runs in H2 as [(-> & _)|[(-> & _)|(pre & fence & _ & Hd & _)]]; [done..|].
    by apply doFence_net in Hd.
  - clear H2. destruct (fenced f); [destruct ro|destruct promoted];
      try (apply runs_Ret_iff in H1 as [_ ->]; done);
      apply rearm_runs in H1 as (t0 & _ & ->); unfold rearmed; by case_match.
Qed.

Lemma resolve_pending_net f ro promoted tr g : runs (resolve_pending f ro promoted) tr g ->
  safetyNetPending g = safetyNetPending f.
Proof.
  intros [(pre & h & rest & _ & Hr%after_probes_net & Hh)|[(_ & _ & ->)|(_ & _ & ->)]]%resolve_pending_runs;
    [|done..].
  destruct Hh as [(_ & _ & ->)|(_ & _ & ->)]; done.
Qed.

(** At most one of the two deferred duties is open. *)
Definition exclusive (f : FencingMonitor) : Prop := ~ (safetyNetPending f = true /\ fencePending f = true).

(** What a tick on which an armed safety net is discharged has established. *)
Definition discharged (f : FencingMonitor) (tr : list (event ans)) : Prop :=
  confirmed f = true \/ ev SetSuperReadOnly true ∈ tr \/ ev IsSuperReadOnly (Some true) ∈ tr
  \/ (ev IsReadOnly (Some false) ∈ tr /\ topologyMismatch f = true
      /\ (called SetSuperReadOnly tr \/ ev CloneInProgress (Some true) ∈ tr \/ sawReadOnly f = true)).

Lemma evaluate_net f tr f' : exclusive f -> runs (evaluate f) tr f' ->
  exclusive f' /\ (safetyNetPending f = true -> safetyNetPending f' = false -> discharged f tr).
Proof.
  intros Hx [(t & -> & H)|(ro & t1 & g1 & t2 & g2 & handled & t3 & -> & H1 & H2 & H3)]%evaluate_runs.
  { unfold noteMySQLUnreachable in H. run_all; (split; [done|]); simpl; congruence. }
  apply noteMySQLReachable_runs in H1 as (V1 & (F1 & FP1 & S1) & _ & _ & P1).
  destruct (safetyNetPending g1) eqn:Ep1; cycle 1.
  { destruct H2 as (-> & -> & ->). split.
    - apply resolve_pending_net in H3. intros [Hs _]. simpl in H3. congruence.
    - intros Hs. destruct P1 as [P1|(_ & ? & _)]; congruence. }
  assert (fencePending f = false) as Hfp.
  { destruct P1 as [P1|(_ & _ & _ & ?)]; [|done]. destruct (fencePending f) eqn:E; [|done].
    destruct Hx. split; [congruence|done]. }
  apply resolveSafetyNet_runs in H2 as (V2 & (F2 & FP2 & S2) & _ & _ & R0 & R1). simpl in *.
  destruct handled.
  - destruct H3 as [-> ->]. split; [intros [_ ?]; congruence|]. intros _ Hs.
    destruct (R1 eq_refl) as [?|(_ & [Hc|[Hs'|Hs']])]; [congruence|left|right; left|right; right; left].
    + rewrite <- (same_view_confirmed _ _ V1). exact Hc.
    + right. rewrite !elem_of_app. auto.
    + right. rewrite !elem_of_app. auto.
  - destruct (R0 eq_refl) as (Hs2 & -> & Hf & Hm & _).
    split; [intros [Hs _]; apply resolve_pending_net in H3; congruence|]. intros _ _.
    right; right; right. split; [left|]. split; [by rewrite <- (same_view_mismatch _ _ V1)|].
    rewrite called_cons, !called_app. setoid_rewrite elem_of_cons. setoid_rewrite elem_of_app.
    apply resolve_pending_runs in H3 as [(pre & h & rest & -> & Hr & Hh)|[(? & _)|(? & _)]]; [|congruence..].
    destruct Hh as [(_ & -> & ->)|(? & _)]; [|congruence].
    rewrite S1 in Hr. destruct (sawReadOnly f); [by right; right|].
    unfold after_probes in Hr. rewrite F2, Hf in Hr. simpl in Hr.
    apply apply_rules_runs in Hr as [(_ & Hc & _)|[(_ & Hn & _)|(pr & fe & -> & Hd & _)]].
    + right; left. right. right. rewrite elem_of_app. auto.
    + exfalso. rewrite (same_view_mismatch _ _ V2) in Hn. congruence.
    + left. right. right. right. simpl. apply called_app. right.
      destruct (doFence_calls _ _ _ Hd) as [[k ->]|[l ->]]; [exists true|exists false]; ev_in.
Qed.

(** The deferred safety net keeps the startup guarantee: it stays armed until
    a tick on which the operator itself confirmed the site, or the server is known
    to be super-fenced, or rule 1 took over a writable server whose view names
    another site - then the tick fences it, unless a clone runs or the server had
    just been promoted. The safety net and an unresolved fence are never open
    together. *)
Theorem safety_net_settles f tr f' :
  exclusive f -> runs (Check_ f) tr f' ->
  exclusive f'
  /\ (safetyNetPending f = true -> safetyNetPending f' = false ->
      operator_says f (mySite f) tr
      \/ ev SetSuperReadOnly true ∈ tr \/ ev IsSuperReadOnly (Some true) ∈ tr
      \/ (ev IsReadOnly (Some false) ∈ tr
          /\ (called SetSuperReadOnly tr \/ ev CloneInProgress (Some true) ∈ tr
              \/ sawReadOnly f = true))).
Proof.
  intros Hx (n1 & t1 & h1 & t2 & h2 & n2 & -> & H1 & H2 & ->)%Check_runs.
  pose proof (poll_core _ _ _ H1) as (C & _).
  assert (same_core f h1) as C1 by (by apply (same_core_trans _ (f <| heartbeat := UnixNano n1 |>))).
  pose proof C1 as (_ & (_ & FP & S) & SN & _).
  destruct (evaluate_net h1 t2 h2) as [E1 E2]; [unfold exclusive; by rewrite SN, FP|done|].
  split; [exact E1|]. intros Hp Hp'. rewrite SN in E2. specialize (E2 Hp Hp').
  assert (forall e, e ∈ t2 -> e ∈ ev Now n1 :: t1 ++ t2 ++ [ev Now n2]) as Hin
    by (intros e He; right; rewrite !elem_of_app; auto).
  destruct E2 as [Hc|[?|[?|(? & _ & Hr)]]]; [left|auto..].
  - right. apply elem_of_app. left. by eapply poll_confirmed.
  - right; right; right. split; [auto|]. destruct Hr as [[x Hr]|[?|?]]; [left; exists x|..]; auto.
    right; right. congruence.
Qed.

(** The cached view moves only forward, and not past the local clock. *)
Definition view_forward (c : option TopologyCache) (tr : list (event ans)) (c' : option TopologyCache) : Prop :=
  c' = c \/ exists old new t, c = Some old /\ c' = Some new /\ observedAt old < observedAt new
              /\ ev Now t ∈ tr /\ observedAt new <= t.

Lemma view_forward_app c t1 c' t2 c'' :
  view_forward c t1 c' -> view_forward c' t2 c'' -> view_forward c (t1 ++ t2) c''.
Proof.
  unfold view_forward. setoid_rewrite elem_of_app.
  intros [->|(o1 & n1 & x1 & -> & -> & H1 & I1 & L1)] [->|(o2 & n2 & x2 & E & -> & H2 & I2 & L2)];
    [by left|right; naive_solver| |].
  - right. exists o1, n1, x1. auto 10.
  - right. simplify_eq. exists o1, n2, x2. split_and!; auto. lia.
Qed.

Lemma Adopt_forward site seen now c tr : seen <= now -> ev Now now ∈ tr ->
  view_forward (Some c) tr (Some (fst (Adopt site seen c))).
Proof.
  intros Hle Hin. unfold Adopt. rewrite Z.gtb_ltb.
  destruct (Z.ltb_spec (observedAt c) seen); [right|by left].
  exists c, {| activeSite := site; observedAt := seen |}, now. by split_and!.
Qed.

Lemma checkPeerTopology_view addr f tr g : runs (checkPeerTopology addr f) tr g ->
  view_forward (topology f) tr (topology g).
Proof.
  unfold checkPeerTopology. intros H. run_all; try by left.
  all: destruct (topology f) as [c|] eqn:Ec; simpl; [|by left].
  eapply Adopt_forward; [|right; left].
  rewrite Z.gtb_ltb. match goal with |- context [if ?b then _ else _] => destruct b eqn:El end; [done|].
  by apply Z.ltb_ge in El.
Qed.

(** The operator's own answer is authoritative: on a tick where it answered,
    the cached view is exactly its answer and no peer is asked for one. Otherwise
    peers can only move the view forward in time, and never past the local clock. *)
Theorem operator_view_authoritative f tr g :
  runs (poll f) tr g ->
  (operatorAnswered g = true ->
     operator_says f (operatorActiveSite g) tr
     /\ (exists t, ev Now t ∈ tr
          /\ topology g = Topology_Set (operatorActiveSite g) t <$> topology f)
     /\ forall addr, ~ called (GetPeerActiveSite addr) tr)
  /\ (operatorAnswered g = false ->
        operatorActiveSite g = "" /\ view_forward (topology f) tr (topology g)).
Proof.
  intros H. pose proof (poll_core _ _ _ H) as (_ & H1 & H2). split; [done|]. intros Ha. split; [auto|].
  unfold poll in H. apply runs_bind_iff in H as (t1 & f1 & t & -> & Hb & H).
  apply runs_bind_iff in H as (t2 & f2 & t3 & -> & Hs & H3).
  apply checkBloodraven_core in Hb as (_ & T1 & A1 & _). simpl in T1, A1.
  assert (operatorAnswered g = operatorAnswered f2 /\ view_forward (topology f2) t3 (topology g)) as [Hf2 Hv].
  { apply (runs_fold_inv _ (fun tr h => operatorAnswered h = operatorAnswered f2
      /\ view_forward (topology f2) tr (topology h)) _ _ _ _ H3); [split; [done|by left]|].
    intros s1 h1 x s2 h2 _ [B1 V1] Hx. pose proof (poll_peer_core _ _ _ _ Hx) as (_ & B2 & _).
    split; [congruence|]. eapply view_forward_app; [exact V1|].
    unfold poll_peer in Hx. apply runs_bind_iff in Hx as (u1 & k & u2 & -> & K1 & K2).
    apply checkPeer_core in K1 as (_ & T & _). apply (view_forward_app _ u1 (topology k)); [by left|].
    destruct (topologyEnabled k && negb (operatorAnswered k)); [by apply checkPeerTopology_view in K2|].
    apply runs_Ret_iff in K2 as [-> ->]. by left. }
  apply (view_forward_app _ t1 (topology f)); [by left|].
  apply (view_forward_app _ t2 (topology f2)); [|done].
  destruct (topologyEnabled f1); [|apply runs_Ret_iff in Hs as [-> ->]; by left].
  apply checkActiveSite_core in Hs as (_ & [(_ & _ & T2)|(A2 & _)]); [left; congruence|congruence].
Qed.

(** *** The grace period *)

(** The monitor has heard from the operator at [t0] or later, holds no view that
    names another site, and nothing is pending. *)
Definition graced (t0 : Z) (f : FencingMonitor) : Prop :=
  t0 <= lastBloodravenOK f /\ topologyMismatch f = false /\ safetyNetPending f = false
  /\ mysqlDownSince f = 0.

(** Nobody names a site other than [site], MySQL answers every probe, and the clock
    stays within [lease] of [t0]. *)
Definition calm (t0 lease : Z) (site : string) (tr : list (event ans)) : Prop :=
  (forall t, ev Now t ∈ tr -> t0 <= t <= t0 + lease)
  /\ ev IsReadOnly None ∉ tr
  /\ (forall ns grp s, ev (GetActiveSite ns grp) (Some (StatusOK, Some s)) ∈ tr -> s = "" \/ s = site)
  /\ (forall addr snap, ev (GetPeerActiveSite addr) (Some (StatusOK, Some snap)) ∈ tr ->
        ActiveSite snap = "" \/ ActiveSite snap = site).

Lemma calm_sub t0 lease site t1 t2 :
  (forall e, e ∈ t1 -> e ∈ t2) -> calm t0 lease site t2 -> calm t0 lease site t1.
Proof. intros Hs (H1 & H2 & H3 & H4). split_and!; eauto. Qed.

Lemma calm_app t0 lease site t1 t2 :
  calm t0 lease site (t1 ++ t2) -> calm t0 lease site t1 /\ calm t0 lease site t2.
Proof. intros H. split; eapply calm_sub; try exact H; intros e He; apply elem_of_app; auto. Qed.

Lemma mismatch_set_view f c : same_core f (f <| topology := c <$> topology f |>) ->
  (forall x, topology f = Some x -> activeSite (c x) = "" \/ activeSite (c x) = mySite f \/ c x = x) ->
  topologyMismatch f = false -> topologyMismatch (f <| topology := c <$> topology f |>) = false.
Proof.
  intros _ Hc Hm. unfold topologyMismatch, topologyEnabled, has_cache in *. simpl in *.
  destruct (topology f) as [x|]; simpl in *; [|done].
  destruct (Hc x eq_refl) as [H|[H|H]]; rewrite H; [by case_match|..|done].
  case_match; [|done]. rewrite (bool_decide_true (mySite f = mySite f)) by done. by rewrite andb_false_r.
Qed.

Lemma poll_peer_graced t0 lease f addr tr g : runs (poll_peer f addr) tr g ->
  calm t0 lease (mySite f) tr -> graced t0 f -> graced t0 g.
Proof.
  unfold poll_peer. intros H Hc Hg. apply runs_bind_iff in H as (t1 & h & t2 & -> & H1 & H2).
  assert (graced t0 h /\ mySite h = mySite f) as [Hh Hm] by (unfold checkPeer in H1; clear H2; by run_all).
  apply calm_app in Hc as [_ Hc]. rewrite <- Hm in Hc.
  destruct (topologyEnabled h && negb (operatorAnswered h)); [|by apply runs_Ret_iff in H2 as [_ ->]].
  destruct Hh as (G1 & G2 & G3 & G4). unfold checkPeerTopology in H2. run_all; try done.
  split_and!; try done. apply mismatch_set_view; [apply same_core_topology| |done].
  intros x Hx. unfold Adopt. case_match; [|by right; right]. simpl. zify_bool; subst.
  destruct Hc as (_ & _ & _ & Hp). destruct (Hp addr t) as [?|?]; [left|by left|by right; left].
Qed.

Lemma poll_graced t0 lease f tr g : runs (poll f) tr g ->
  calm t0 lease (mySite f) tr -> graced t0 f -> graced t0 g.
Proof.
  unfold poll. set (f0 := f <| operatorAnswered := false |> <| operatorActiveSite := "" |>).
  intros H Hc Hg. apply runs_bind_iff in H as (t1 & f1 & t & -> & H1 & H).
  apply runs_bind_iff in H as (t2 & f2 & t3 & -> & H2 & H3).
  apply calm_app in Hc as [Hc1 Hc]. apply calm_app in Hc as [Hc2 Hc3].
  assert (graced t0 f1 /\ mySite f1 = mySite f) as [G1 M1].
  { clear H2 H3. unfold checkBloodraven in H1. run_all; try done. split; [|done].
    destruct Hg as (_ & G2 & G3 & G4). split_and!; try done. simpl.
    destruct Hc1 as (Hn & _). apply (Hn _). right; left. }
  assert (graced t0 f2 /\ mySite f2 = mySite f) as [G2 M2].
  { clear H3. destruct (topologyEnabled f1); [|by apply runs_Ret_iff in H2 as [_ ->]].
    destruct G1 as (G1 & G2 & G3 & G4). unfold checkActiveSite in H2. run_all; try done.
    split; [|done]. split_and!; try done.
    apply (mismatch_set_view (f1 <| operatorAnswered := true |> <| operatorActiveSite := s |>));
      [apply same_core_topology| |done].
    intros x Hx. simpl. zify_bool; subst. destruct Hc2 as (_ & _ & Hs & _).
    destruct (Hs (namespace f1) (group f1) s) as [->| ->]; [left|by left|right; left; congruence]. }
  apply (runs_fold_inv _ (fun tr h => calm t0 lease (mySite f) tr -> graced t0 h /\ mySite h = mySite f)
    _ _ _ _ H3); [done| |done].
  intros u1 h1 x u2 h2 _ IH Hx Hcu. apply calm_app in Hcu as [Hu1 Hu2]. destruct (IH Hu1) as [K1 K2].
  rewrite <- K2 in Hu2. split; [by eapply poll_peer_graced|].
  apply poll_peer_core in Hx as (((_ & _ & _ & _ & Hs & _) & _) & _). congruence.
Qed.

(** Within the lease of [t0] the lease rule is quiet. *)
Lemma graced_lease t0 f t : 0 <= leaseTimeout f -> t <= t0 + leaseTimeout f ->
  t0 <= lastBloodravenOK f -> leaseExpired f t = false.
Proof.
  intros Hl Ht Hg. unfold leaseExpired.
  assert (time_sub t (lastBloodravenOK f) >? leaseTimeout f = false) as ->; [|done].
  rewrite Z.gtb_ltb. apply Z.ltb_ge. unfold time_sub, clamp64, MinInt64, MaxInt64. lia.
Qed.

Lemma rearmed_graced t f : safetyNetPending f = false -> mysqlDownSince f = 0 -> graced t (rearmed t f).
Proof.
  intros H1 H2. pose proof (rearmed_mismatch t f). split_and!; [|done|..]; unfold rearmed; case_match; simpl; done || lia.
Qed.

Lemma graced_mono t t0 f : t0 <= t -> graced t f -> graced t0 f.
Proof. unfold graced. intros ? (? & ?). split; [lia|done]. Qed.

Lemma apply_rules_graced t0 f tr g : 0 <= leaseTimeout f -> runs (apply_rules f) tr g ->
  (forall t, ev Now t ∈ tr -> t <= t0 + leaseTimeout f) -> graced t0 f ->
  ~ called SetSuperReadOnly tr /\ g = f.
Proof.
  intros Hl H Hn (G1 & G2 & _).
  apply apply_rules_runs in H as [(-> & _ & ?)|[(-> & _ & ? & _)|(pre & fe & -> & _ & _ & _ & [?|(t & Ht & He)])]];
    [done|done|congruence|].
  rewrite (graced_lease t0) in He; [done|done|apply Hn, elem_of_app; by left|done].
Qed.

Lemma evaluate_graced t0 f tr g : 0 <= leaseTimeout f -> runs (evaluate f) tr g ->
  calm t0 (leaseTimeout f) (mySite f) tr -> graced t0 f ->
  ~ called SetSuperReadOnly tr /\ graced t0 g.
Proof.
  intros Hl [(t & -> & H)|(ro & t1 & g1 & t2 & g2 & handled & t3 & -> & H1 & H2 & H3)]%evaluate_runs Hc Hg.
  { destruct Hc as (_ & Hc & _). destruct Hc. left. }
  pose proof Hg as (G1 & G2 & G3 & G4).
  apply noteMySQLReachable_runs in H1 as (_ & _ & T1 & E1 & _). rewrite (E1 G4) in *. clear E1.
  rewrite G3 in H2. destruct H2 as (-> & -> & ->).
  assert (~ called SetSuperReadOnly t1) as N1 by (destruct T1 as [->|[t ->]]; not_called).
  apply (calm_sub _ _ _ t3) in Hc; [|intros e He; right; simpl; apply elem_of_app; auto].
  assert (graced t0 (f <| sawReadOnly := ro |>)) as Hg' by done.
  rewrite called_cons, called_app. simpl.
  assert (~ called SetSuperReadOnly t3 /\ graced t0 g) as [? ?]; [|split; [intros [?|[?|?]]|]; done].
  apply resolve_pending_runs in H3 as [(pre & h & rest & -> & Hr & Hh)|[(_ & -> & ->)|(_ & -> & ->)]];
    [|split; [not_called|done]..].
  apply calm_app in Hc as [_ (Hn & _)].
  assert (graced t0 h /\ leaseTimeout h = leaseTimeout f /\ ~ called SetSuperReadOnly pre) as (Gh & Lh & Np).
  { destruct Hh as [(_ & -> & ->)|(_ & -> & ->)]; (split; [done|]); (split; [done|not_called]). }
  apply after_probes_runs in Hr as (t1' & k & t2' & -> & Hr & Hk).
  assert (graced t0 k /\ leaseTimeout k = leaseTimeout f /\ ~ called SetSuperReadOnly t1') as (Gk & Lk & Nk).
  { destruct Hk as [(-> & -> & _)|(s0 & -> & Hv & Hk')]; [split; [done|split; [done|not_called]]|].
    pose proof (same_view_mismatch _ _ Hv) as Hm. rewrite rearmed_mismatch in Hm.
    destruct Hk' as (_ & _ & Hn1 & Hn2), Gh as (Gh & _ & Gn1 & Gn2), Hv as (Hs & Hb & _).
    destruct (rearmed_setup s0 h) as (_ & _ & _ & Hl1 & _), Hs as (_ & _ & _ & Hl2 & _).
    split; [|split; [congruence|not_called]]. split_and!; [|done|congruence..].
    rewrite Hb, rearmed_seen. apply (Hn s0). left. }
  rewrite !called_app. assert (~ called SetSuperReadOnly t2' /\ g = k) as [? ->]; [|tauto].
  destruct ro; [apply runs_Ret_iff in Hr as [-> ->]; split; [not_called|done]|].
  apply (apply_rules_graced t0); [by rewrite Lk|done| |done].
  intros t Ht. rewrite Lk. apply Hn, elem_of_app. by right.
Qed.

(** A tick keeps the setup. *)
Lemma doFence_setup f tr g : runs (doFence f) tr g -> same_setup f g.
Proof. intros [(k & _ & ->)|([[]|] & _ & ->)]%doFence_runs; done. Qed.

Lemma apply_rules_setup f tr g : runs (apply_rules f) tr g -> same_setup f g.
Proof.
  intros [(-> & _)|[(-> & _)|(pre & fence & _ & Hd & _)]]%apply_rules_runs; [done..|].
  by apply doFence_setup in Hd.
Qed.

Lemma evaluate_setup f tr g : runs (evaluate f) tr g -> same_setup f g.
Proof.
  intros [(t & -> & H)|(ro & t1 & g1 & t2 & g2 & handled & t3 & -> & H1 & H2 & H3)]%evaluate_runs.
  { unfold noteMySQLUnreachable in H. by run_all. }
  apply noteMySQLReachable_runs in H1 as ((V1 & _) & _).
  assert (same_setup g1 g2) as V2.
  { destruct (safetyNetPending g1); [by apply resolveSafetyNet_runs in H2 as ((V & _) & _)|].
    by destruct H2 as (_ & -> & _). }
  apply (same_setup_trans f g1); [done|]. apply (same_setup_trans g1 g2); [done|].
  destruct handled; [by destruct H3 as [_ ->]|].
  apply resolve_pending_runs in H3 as [(pre & h & rest & _ & Hr & Hh)|[(_ & _ & ->)|(_ & _ & ->)]]; [|done..].
  apply (same_setup_trans g2 h); [by destruct Hh as [(_ & _ & ->)|(_ & _ & ->)]|].
  apply after_probes_runs in Hr as (t1' & k & t2' & _ & Hr & Hk). apply (same_setup_trans h k).
  - destruct Hk as [(-> & _)|(s0 & _ & (V & _) & _)]; [done|].
    by eapply same_setup_trans; [apply rearmed_setup|].
  - destruct ro; [by apply runs_Ret_iff in Hr as [_ ->]|by apply apply_rules_setup in Hr].
Qed.

(** A grace period is honoured. After a start, a restore of a self-fenced
    server or a promotion (all of which put the monitor in a [graced] state at
    [t0]), and as long as MySQL answers and neither the operator nor a peer names
    another site, no number of ticks within one lease of [t0] writes
    [super_read_only=ON], whatever else fails. *)
Theorem no_fence_within_grace n t0 f tr g :
  0 <= leaseTimeout f -> graced t0 f -> runs (ticks n f) tr g ->
  calm t0 (leaseTimeout f) (mySite f) tr -> ~ called SetSuperReadOnly tr.
Proof.
  intros Hl Hg H Hc.
  assert (~ called SetSuperReadOnly tr /\ graced t0 g /\ leaseTimeout g = leaseTimeout f
    /\ mySite g = mySite f) as [? _]; [|done].
  apply (runs_fold_inv _ (fun tr g => calm t0 (leaseTimeout f) (mySite f) tr ->
    ~ called SetSuperReadOnly tr /\ graced t0 g /\ leaseTimeout g = leaseTimeout f
    /\ mySite g = mySite f) _ _ _ _ H); [intros _; split; [not_called|done]| |done].
  intros u1 g1 _ u2 g2 _ IH Hx Hcu. apply calm_app in Hcu as [Hc1 Hc2].
  destruct (IH Hc1) as (N1 & G1 & L1 & M1). rewrite <- L1, <- M1 in Hc2.
  apply Check_runs in Hx as (n1 & t1 & h1 & t2 & h2 & n2 & -> & H1 & H2 & ->).
  assert (calm t0 (leaseTimeout g1) (mySite g1) t1 /\ calm t0 (leaseTimeout g1) (mySite g1) t2) as [K1 K2].
  { split; (eapply calm_sub; [|exact Hc2]); intros e He; right; rewrite !elem_of_app; auto. }
  pose proof (poll_core _ _ _ H1) as ((Hs & _) & _).
  assert (mySite h1 = mySite g1 /\ leaseTimeout h1 = leaseTimeout g1) as [M2 L2]
    by (destruct Hs as (_ & _ & _ & ? & ? & _); done).
  rewrite <- M2, <- L2 in K2.
  pose proof (poll_graced t0 (leaseTimeout g1) _ _ _ H1 K1 G1) as G2.
  destruct (evaluate_graced t0 h1 t2 h2) as [N2 G3]; [by rewrite L2, L1|done..|].
  pose proof (poll_not_called SetSuperReadOnly _ _ _ eq_refl H1) as N3.
  rewrite called_app, called_cons, !called_app, called_cons, called_nil.
  split; [intros [?|[?|[?|[?|[?|?]]]]]; done|]. split; [done|].
  destruct (evaluate_setup _ _ _ H2) as (_ & _ & _ & L3 & M3 & _). simpl. split; congruence.
Qed.

(** *** The cost of a tick *)

Lemma count_poll_peer f addr tr g : runs (poll_peer f addr) tr g -> (count_ops is_http tr <= 2)%nat.
Proof.
  unfold poll_peer, checkPeer, checkPeerTopology. intros H. run_all; unfold count_ops; simpl; lia.
Qed.

Lemma count_poll f tr g : runs (poll f) tr g ->
  (count_ops is_http tr <= 2 + 2 * length (peerAddrs f))%nat.
Proof.
  unfold poll. intros (t1 & f1 & t & -> & H1 & H)%runs_bind_iff.
  apply runs_bind_iff in H as (t2 & f2 & t3 & -> & H2 & H3).
  rewrite !count_ops_app. apply (runs_fold_count is_http 2) in H3; [|by intros; eapply count_poll_peer].
  assert (count_ops is_http t1 <= 1)%nat
    by (clear H2 H3; unfold checkBloodraven in H1; run_all; unfold count_ops; simpl; lia).
  assert (count_ops is_http t2 <= 1)%nat
    by (clear H1 H3; unfold checkActiveSite in H2; run_all; unfold count_ops; simpl; lia).
  assert (peerAddrs f2 = peerAddrs f) as Hp.
  { apply checkBloodraven_core in H1 as (((_ & P1 & _) & _) & _). simpl in P1. rewrite <- P1.
    destruct (topologyEnabled f1); [|by apply runs_Ret_iff in H2 as [_ ->]].
    by apply checkActiveSite_core in H2 as (((_ & P2 & _) & _) & _). }
  rewrite Hp in H3. lia.
Qed.

Lemma evaluate_no_http f tr g : runs (evaluate f) tr g -> count_ops is_http tr = 0%nat.
Proof.
  apply (count_ops_none is_http (fun o => negb (is_http o))); [|by intros o ?%negb_true_iff].
  unfold evaluate, noteMySQLUnreachable, noteMySQLReachable, resolveSafetyNet, resolve_pending,
    after_probes, rearm, apply_rules, doFence, fenceLanded. solve_only.
Qed.

Lemma doFence_writes f tr g : runs (doFence f) tr g -> count_ops is_write tr = 1%nat.
Proof. by intros [[k ->]|[l ->]]%doFence_calls. Qed.

Lemma resolve_pending_writes f ro promoted tr g : runs (resolve_pending f ro promoted) tr g ->
  (count_ops is_write tr <= 1)%nat.
Proof.
  unfold resolve_pending, after_probes, rearm, apply_rules.
  intros H. run_all; repeat first [rewrite count_ops_cons|rewrite count_ops_app];
    repeat match goal with Hd : runs (doFence _) _ _ |- _ => rewrite (doFence_writes _ _ _ Hd); clear Hd end;
    unfold count_ops; simpl; lia.
Qed.

Lemma resolveSafetyNet_writes f ro tr g handled : runs (resolveSafetyNet f ro) tr (g, handled) ->
  (count_ops is_write tr <= if handled then 1 else 0)%nat.
Proof.
  unfold resolveSafetyNet, fenceLanded. intros H. run_all; simplify_eq; unfold count_ops; simpl; lia.
Qed.

Lemma evaluate_writes f tr g : runs (evaluate f) tr g -> (count_ops is_write tr <= 1)%nat.
Proof.
  intros [(t & -> & H)|(ro & t1 & g1 & t2 & g2 & handled & t3 & -> & H1 & H2 & H3)]%evaluate_runs.
  - unfold noteMySQLUnreachable in H. run_all; unfold count_ops; simpl; lia.
  - rewrite count_ops_cons, !count_ops_app. simpl.
    apply noteMySQLReachable_runs in H1 as (_ & _ & T1 & _).
    assert (count_ops is_write t1 = 0)%nat as -> by (destruct T1 as [->|[t ->]]; done).
    assert (count_ops is_write t2 <= if handled then 1 else 0)%nat as Hn
      by (destruct (safetyNetPending g1); [by eapply resolveSafetyNet_writes|by destruct H2 as (-> & _ & ->)]).
    destruct handled.
    + destruct H3 as [-> _]. unfold count_ops at 2. simpl. lia.
    + apply resolve_pending_writes in H3. lia.
Qed.

(** No wrap-around for realistic settings. *)
Lemma StallThreshold_exact f :
  0 <= checkInterval f <= 3600 * Second -> (length (peerAddrs f) <= 1000)%nat ->
  StallThreshold f = 2 * (checkInterval f
    + ((2 + 2 * Z.of_nat (length (peerAddrs f))) * httpRequestTimeout + evaluateTimeout)).
Proof.
  intros Hi Hp. unfold StallThreshold.
  change evaluateTimeout with 35000000000. change httpRequestTimeout with 2000000000.
  change (3600 * Second) with 3600000000000 in Hi.
  rewrite (wrap64_id ((2 + _) * _)) by (unfold is_int64, MinInt64, MaxInt64; lia).
  rewrite (wrap64_id ((2 + _) * _ + _)) by (unfold is_int64, MinInt64, MaxInt64; lia).
  rewrite (wrap64_id (checkInterval f + _)) by (unfold is_int64, MinInt64, MaxInt64; lia).
  rewrite wrap64_id by (unfold is_int64, MinInt64, MaxInt64; lia). done.
Qed.

(** A tick does bounded work: at most one write to MySQL's read-only state,
    and at most two requests to the operator and two to each peer; so the time its
    requests and its MySQL work may take, each within its timeout, and one check
    interval are within half of [StallThreshold]. *)
Theorem tick_bounded f tr g :
  0 <= checkInterval f <= 3600 * Second -> (length (peerAddrs f) <= 1000)%nat ->
  runs (Check_ f) tr g ->
  (count_ops is_write tr <= 1)%nat
  /\ (count_ops is_http tr <= 2 + 2 * length (peerAddrs f))%nat
  /\ 2 * (checkInterval f + Z.of_nat (count_ops is_http tr) * httpRequestTimeout + evaluateTimeout)
     <= StallThreshold f.
Proof.
  intros Hi Hp (n1 & t1 & h1 & t2 & h2 & n2 & -> & H1 & H2 & ->)%Check_runs.
  pose proof (count_poll _ _ _ H1) as C1. simpl in C1.
  pose proof (evaluate_no_http _ _ _ H2) as C2. pose proof (evaluate_writes _ _ _ H2) as W2.
  assert (count_ops is_write t1 = 0)%nat as W1
    by (apply (count_ops_none is_write is_poll _ _ _ (poll_only _)) in H1; [done|by intros []]).
  rewrite !count_ops_cons, !count_ops_app, !count_ops_cons, C2, W1.
  change (count_ops is_write []) with 0%nat. change (count_ops is_http []) with 0%nat. simpl.
  split; [lia|]. split; [lia|].
  rewrite StallThreshold_exact by done. unfold httpRequestTimeout, Second. lia.
Qed.

(** The startup safety net fences first and asks later: with a complete
    identity its first call is the fence; it clears the fence only after it was
    acknowledged and the operator named this site; and it reports an unsettled
    outcome exactly when a write it made was not acknowledged. *)
Theorem startup_fences_first cfg cache tr cache' settled :
  MySite cfg <> "" -> PodNamespace cfg <> "" -> FailoverGroup cfg <> "" -> BloodravenAddress cfg <> "" ->
  runs (RunSafetyNet cfg cache) tr (cache', settled) ->
  (exists ok rest, tr = ev SetSuperReadOnly ok :: rest)
  /\ (called ClearSuperReadOnly tr ->
        ev SetSuperReadOnly true ∈ tr
        /\ ev (GetActiveSite (PodNamespace cfg) (FailoverGroup cfg)) (Some (StatusOK, Some (MySite cfg))) ∈ tr)
  /\ (settled = false <-> ev SetSuperReadOnly false ∈ tr \/ ev ClearSuperReadOnly false ∈ tr).
Proof.
  intros H1 H2 H3 H4 H. unfold RunSafetyNet in H. rewrite !bool_decide_false in H by done. cbn [orb] in H.
  unfold queryActiveSite in H. run_all; zify_bool; simplify_eq.
  all: split; [by eexists _, _|]; split; [try not_called|].
  all: try (split; [try done; intros _|intros [Hi|Hi]; in_trace Hi; done]; first [left; ev_in|right; ev_in]).
  all: intros _; split; [ev_in|].
  all: assert (MySite cfg = s) as -> by (by apply dec_stable).
  all: destruct x2 as [[status body]|]; [|done]; case_match; [|done]; zify_bool; subst; right; left.
Qed.

(** C37. The hand-over of an armed safety net to rule 1 can lose both: on a server
    that turned writable since the last tick, rule 1's view is discarded as older
    than the promotion, although the operator gave it on this very tick. The tick
    disarms the safety net, the operator named another site, and nothing is
    fenced. *)
Theorem safety_net_lost_on_promotion :
  exists f tr g, exclusive f /\ safetyNetPending f = true /\ mySite f = "a"
    /\ runs (Check_ f) tr g
    /\ operator_says f "b" tr /\ ev IsReadOnly (Some false) ∈ tr
    /\ ~ called SetSuperReadOnly tr /\ safetyNetPending g = false.
Proof.
  set (f := ArmSafetyNet (WithSafetyNet (WithTopology "a" "ns" "g"
              (Some {| activeSite := ""; observedAt := 0 |})
              (NewFencingMonitorFull "op:80" [] Second (30 * Second) false)))
            <| sawReadOnly := true |>).
  set (oracle := fun (_ : list (event ans)) (o : op) =>
    match o return ans o with
    | Now => 1000 * Second
    | GetHealthz | GetPeerPing _ => Some StatusOK
    | GetActiveSite _ _ => Some (StatusOK, Some "b")
    | GetPeerActiveSite _ => None
    | IsReadOnly | IsSuperReadOnly | CloneInProgress => Some false
    | SetSuperReadOnly | KillConnections | ClearSuperReadOnly => true
    end).
  exists f, (exec oracle (Check_ f) []).1, (exec oracle (Check_ f) []).2.
  split; [by intros [_ ?]|]. split; [done|]. split; [done|].
  split; [apply (exec_runs oracle _ []); by destruct (exec _ _ _)|].
  split; [unfold operator_says; run_trace; ev_in|]. split; [run_trace; ev_in|].
  split; [run_trace; not_called|by vm_compute].
Qed.

(** ** Witnesses *)

(** An environment that answers every call the same way. *)
Definition env (now : Z) (http : option Z) (site : string) (readOnly superReadOnly : option bool)
    (writes_ok : bool) (_ : list (event ans)) (o : op) : ans o :=
  match o with
  | Now => now
  | GetHealthz | GetPeerPing _ => http
  | GetActiveSite _ _ => (fun s => (s, Some site)) <$> http
  | GetPeerActiveSite _ => None
  | IsReadOnly => readOnly
  | IsSuperReadOnly => superReadOnly
  | CloneInProgress => Some false
  | SetSuperReadOnly | KillConnections | ClearSuperReadOnly => writes_ok
  end.

Definition demo_monitor : FencingMonitor :=
  WithSafetyNet (WithTopology "a" "ns" "g" (Some {| activeSite := ""; observedAt := 0 |})
    (NewFencingMonitorFull "op:80" ["peer:80"; ""] Second (30 * Second) true)).

(** Everything is silent, long after the start. *)
Definition silent := env (9000 * Second) None "" (Some false) (Some false) true.

Lemma fence_only_when_justified_witness :
  ev IsReadOnly (Some false) ∈ (exec silent (evaluate demo_monitor) []).1.
Proof.
  destruct (fence_only_when_justified demo_monitor _ _ (exec_run silent (evaluate demo_monitor)))
    as [(_ & H & _)|[H _]]; [exists true; run_trace; ev_in| |exact H].
  run_trace. in_trace H.
Defined.

Lemma rules_fire_witness : fenced (exec silent (evaluate demo_monitor) []).2 = true.
Proof.
  destruct (rules_fire demo_monitor _ _ ltac:(by unfold quiet) (exec_run silent (evaluate demo_monitor)))
    as [(_ & _ & H)|(H & _)].
  - run_trace. ev_in.
  - run_trace. intros H. in_trace H. done.
  - right. intros t Ht. run_trace. in_trace Ht. subst. by vm_compute.
  - exact H.
  - run_trace. in_trace H. done.
Defined.

(** A lease that is expired at once. *)
Definition demo_unleased : FencingMonitor := demo_monitor <| leaseTimeout := -1 |>.

Lemma fenced_is_proven_witness :
  ev SetSuperReadOnly true ∈ (exec silent (Run 1 demo_unleased) []).1
  \/ ev SetSuperReadOnly false ∈ (exec silent (Run 1 demo_unleased) []).1.
Proof.
  destruct (fenced_is_proven 1 demo_unleased _ _ eq_refl eq_refl
    (exec_run silent _)) as [H|[H _]]; [by vm_compute|by left|by right].
Defined.

(** The operator confirms the site; the safety net is armed. *)
Definition confirming := env (9000 * Second) (Some StatusOK) "a" (Some true) (Some true) true.

Lemma clear_only_when_confirmed_witness :
  operator_says demo_monitor "a" (exec confirming (Check_ (ArmSafetyNet demo_monitor)) []).1.
Proof.
  apply (clear_only_when_confirmed (ArmSafetyNet demo_monitor) _ _ (exec_run confirming _)).
  exists true. run_trace. ev_in.
Defined.

Lemma safety_net_settles_witness :
  exclusive (exec confirming (Check_ (ArmSafetyNet demo_monitor)) []).2.
Proof.
  apply (safety_net_settles (ArmSafetyNet demo_monitor) _ _ ltac:(by intros [_ ?]) (exec_run confirming _)).
Defined.

Lemma operator_view_authoritative_witness :
  operator_says demo_monitor "a" (exec confirming (poll demo_monitor) []).1.
Proof. apply (operator_view_authoritative demo_monitor _ _ (exec_run confirming _)). by vm_compute. Defined.

(** Only the operator's health endpoint is gone; the clock stands at the start. *)
Definition starting := env (100 * Second) None "" (Some false) (Some false) true.

(** An answer that names a site. *)
Definition names_site (e : event ans) : bool :=
  let '(existT o x) := e in
  match o return ans o -> bool with
  | GetActiveSite _ _ => fun x => match x with Some _ => true | None => false end
  | GetPeerActiveSite _ => fun x => match x with Some _ => true | None => false end
  | _ => fun _ => false
  end x.

Lemma no_fence_within_grace_witness :
  ~ called SetSuperReadOnly
      (exec starting (ticks 2 (SeedStartupGrace (100 * Second) demo_monitor)) []).1.
Proof.
  apply (no_fence_within_grace 2 (100 * Second) (SeedStartupGrace (100 * Second) demo_monitor) _ _
    ltac:(by vm_compute) ltac:(split_and!; by vm_compute) (exec_run starting _)).
  split_and!.
  - intros t Ht. run_trace. in_trace Ht; subst; split; by vm_compute.
  - run_trace. intros H. in_trace H; done.
  - intros ns grp s H. run_trace.
    repeat (apply elem_of_cons in H as [H%(f_equal names_site)|H]; [done|]). by apply not_elem_of_nil in H.
  - intros addr snap H. run_trace.
    repeat (apply elem_of_cons in H as [H%(f_equal names_site)|H]; [done|]). by apply not_elem_of_nil in H.
Defined.

Lemma tick_bounded_witness :
  (count_ops is_write (exec silent (Check_ demo_monitor) []).1 <= 1)%nat.
Proof.
  apply (tick_bounded demo_monitor _ _ ltac:(by vm_compute) ltac:(vm_compute; lia) (exec_run silent _)).
Defined.

Definition demo_config : Config :=
  {| MySite := "a"; PodNamespace := "ns"; FailoverGroup := "g"; BloodravenAddress := "op:80" |}.

Lemma startup_fences_first_witness :
  exists ok rest, (exec confirming (RunSafetyNet demo_config None) []).1 = ev SetSuperReadOnly ok :: rest.
Proof.
  apply (startup_fences_first demo_config None _ None true ltac:(done) ltac:(done) ltac:(done) ltac:(done)).
  exact (exec_run confirming (RunSafetyNet demo_config None)).
Defined.
