(* ===== verification/Failover.v ===== *)
(** * Promotion: emergency failover and maintenance handoff

    [internal/controller/failover.go] and [handoff.go]: the sequences of MySQL
    statements that move the primary role, as programs over calls to the source,
    the candidate and a connection pinned to the candidate. *)
From S2P Require Import Prelude GoStd Intervals GtidSet Effects.

Local Open Scope Z_scope.

#[local] Arguments prog_bind {Op Ans A B} _ _ : simpl never.

Module Failover.

Import GTID.

(** ** Calls *)

(** [mysql.Checker] values for the source and the candidate, and the candidate's
    pinned [mysql.Session]. *)
Inductive conn : Type := Source | Candidate | Session.

(** [promoteMemoStage] (the statement about to be sent). *)
Inductive promoteMemoStage : Type :=
| promoteMemoNone
| promoteMemoStopSent
| promoteMemoResetSent
| promoteMemoSROClearSent
| promoteMemoROClearSent.

(** Statements and probes; the hooks of a planned failover; the clock, the wait's
    deadline ([WaitErr]: [waitCtx.Err() != nil]), the poll timer ([PollTimer]: the
    timer fired before the deadline) and the caller's cancellation. *)
Inductive op : Type :=
| CheckReadOnly (c : conn)
| SetSuperReadOnly (c : conn) (on : bool)
| SetReadOnly (c : conn) (on : bool)
| KillAppConnections (c : conn)
| WaitForRelayLogDrain (c : conn) (timeout : Z)
| StopReplica (c : conn)
| ResetReplicaAll (c : conn)
| StartReplica (c : conn)
| ChangeReplicationSource (c : conn) (host : string)
| GetGtidExecuted (c : conn)
| ShowReplicaStatus (c : conn)
| PinSession (c : conn)
| CloseSession
| HookGuard
| HookBefore (s : promoteMemoStage)
| HookAfter
| HookGate
| Now
| WaitErr
| PollTimer
| Canceled.

(** Reads answer [None] on error, statements whether they returned no error. A
    replica status is nil or carries [LastSQLError]. *)
Definition ans (o : op) : Type :=
  match o with
  | CheckReadOnly _ => option bool
  | GetGtidExecuted _ => option string
  | ShowReplicaStatus _ => option (option string)
  | Now => Z
  | CloseSession | HookBefore _ | HookAfter => unit
  | _ => bool
  end.

Abbreviation P := (prog ans).

#[export] Instance conn_eq_dec : EqDecision conn.
Proof. solve_decision. Defined.

#[export] Instance memo_eq_dec : EqDecision promoteMemoStage.
Proof. solve_decision. Defined.

#[export] Instance op_eq_dec : EqDecision op.
Proof. solve_decision. Defined.

(** ** Reading GTID sets *)

Inductive read_error : Type :=
| ReadFailed
| UnparseableGTID (raw : string) (e : gtid_error).

Definition readGTIDSetRaw (c : conn) : P (res read_error (string * GTIDSet)) :=
  let! raw := call (GetGtidExecuted c) in
  Ret match (raw : option string) with
      | None => Err ReadFailed
      | Some raw =>
          match ParseGTIDSet raw with
          | Ok set => Ok (raw, set)
          | Err e => Err (UnparseableGTID raw e)
          end
      end.

Definition readGTIDSet (c : conn) : P (res read_error GTIDSet) :=
  let! r := readGTIDSetRaw c in
  Ret match r with Ok (_, set) => Ok set | Err e => Err e end.

(** ** Promotion *)

Inductive promoteStage : Type :=
| promoteStageNotStarted
| promoteStageReplicaStopped
| promoteStageReplicaReset
| promoteStageWriteAttempted.

(** The live stage of a promotion ([planned_failover_contract.go]). *)
Inductive PromotionStage : Type :=
| PromotionStageNotStarted
| PromotionStageReplicaStopped
| PromotionStageReplicaReset
| PromotionStageWasWritable
| PromotionStageWritable
| PromotionStageTargetReplaced
| PromotionStageInconsistent.

(** Which hooks are set; the planned failover's log line is left out. *)
Record promoteHooks : Type := {
  before : bool;
  after : bool;
  gate : bool;
  guard : bool
}.

Definition noHooks : promoteHooks := {| before := false; after := false; gate := false; guard := false |}.

Inductive promote_error : Type :=
| Statement (o : op)
| GuardRefused
| GateRefused
| PinFailed
| ProofRead (e : read_error)
| ProofMissing (missing : GTIDSet)
| ProofDivergent (extra : GTIDSet)
| CannotResume (from : PromotionStage).

(** [promote]: the emergency path. The recorded GTID is "" when it could not be
    read. *)
Definition promote : P (res promote_error string) :=
  let! ok := call (StopReplica Candidate) in
  if negb ok then Ret (Err (Statement (StopReplica Candidate)))
  else
    let! ok := call (ResetReplicaAll Candidate) in
    if negb ok then Ret (Err (Statement (ResetReplicaAll Candidate)))
    else
      let! gtid := call (GetGtidExecuted Candidate) in
      let! ok := call (SetSuperReadOnly Candidate false) in
      if negb ok then Ret (Err (Statement (SetSuperReadOnly Candidate false)))
      else
        let! ok := call (SetReadOnly Candidate false) in
        if negb ok then Ret (Err (Statement (SetReadOnly Candidate false)))
        else Ret (Ok (default "" (gtid : option string))).

(** [Execute]; [old] says whether there is an old primary to fence. *)
Definition Execute (old : bool) : P (res promote_error string) :=
  let! _ :=
    (if old then
       let! _ := call (SetSuperReadOnly Source true) in
       let! _ := call (KillAppConnections Source) in
       Ret tt
     else Ret tt) in
  let! _ := call (WaitForRelayLogDrain Candidate (30 * Second)) in
  promote.

(** [send]: a statement between its hooks. [o] is answered like a statement. *)
Definition send (h : promoteHooks) (s : promoteMemoStage) (o : op) (ok : ans o -> bool)
  : P (option promote_error) :=
  let! allowed := (if guard h then call HookGuard else Ret true) in
  if negb (allowed : bool) then Ret (Some GuardRefused)
  else
    let! _ := (if before h then call (HookBefore s) else Ret tt) in
    let! r := call o in
    let! _ := (if after h then call HookAfter else Ret tt) in
    Ret (if ok r then None else Some (Statement o)).

Definition requireCandidateGTIDs (c : conn) (want : GTIDSet) : P (res promote_error string) :=
  let! r := readGTIDSetRaw c in
  Ret match r with
      | Err e => Err (ProofRead e)
      | Ok (raw, have) =>
          if negb (Contains have want) then Err (ProofMissing (Subtract want have))
          else
            let extra := Subtract have want in
            if negb (IsEmpty extra) then Err (ProofDivergent extra) else Ok raw
      end.

(** The promotion's GTID, how far it got, and its error. *)
Abbreviation promotion := (string * promoteStage * option promote_error)%type.

(** The writes: gate, clear [super_read_only], clear [read_only]. *)
Definition promote_writes (h : promoteHooks) (promotionGtid : string) (reached : promoteStage)
  : P promotion :=
  let! allowed := (if gate h then call HookGate else Ret true) in
  if negb (allowed : bool) then Ret ("", reached, Some GateRefused)
  else
    let! e := send h promoteMemoSROClearSent (SetSuperReadOnly Session false) id in
    match e with
    | Some err => Ret ("", reached, Some err)
    | None =>
        let! e := send h promoteMemoROClearSent (SetReadOnly Session false) id in
        Ret (promotionGtid, promoteStageWriteAttempted, e)
    end.

(** From a stopped replica: prove, reset, prove, then the writes. *)
Definition promote_from_stopped (h : promoteHooks) (require : GTIDSet) : P promotion :=
  let! proof := requireCandidateGTIDs Session require in
  match proof with
  | Err e => Ret ("", promoteStageReplicaStopped, Some e)
  | Ok _ =>
      let! e := send h promoteMemoResetSent (ResetReplicaAll Session) id in
      match e with
      | Some err => Ret ("", promoteStageReplicaReset, Some err)
      | None =>
          let! proof := requireCandidateGTIDs Session require in
          match proof with
          | Err e => Ret ("", promoteStageReplicaReset, Some e)
          | Ok raw => promote_writes h raw promoteStageReplicaReset
          end
      end
  end.

Definition promoteVerifiedFrom (require : GTIDSet) (from : PromotionStage) (h : promoteHooks)
  : P promotion :=
  match from with
  | PromotionStageNotStarted =>
      let! e := send h promoteMemoStopSent (StopReplica Session) id in
      match e with
      | Some err => Ret ("", promoteStageReplicaStopped, Some err)
      | None => promote_from_stopped h require
      end
  | PromotionStageReplicaStopped => promote_from_stopped h require
  | PromotionStageReplicaReset | PromotionStageWasWritable =>
      promote_writes h (GTIDSet_String require) promoteStageReplicaReset
  | _ => Ret ("", promoteStageNotStarted, Some (CannotResume from))
  end.

Definition promoteVerified (require : GTIDSet) : P promotion :=
  let! pinned := call (PinSession Candidate) in
  if negb pinned then Ret ("", promoteStageNotStarted, Some PinFailed)
  else
    let! r := promoteVerifiedFrom require PromotionStageNotStarted noHooks in
    let! _ := call CloseSession in
    Ret r.

(** ** Maintenance handoff *)

Record HandoffOptions : Type := {
  PreFenceCatchUp : Z;
  CatchUp : Z;
  PollInterval : Z;
  SourceLossWindow : Z;
  RestoreHost : string
}.

Definition defaultHandoffCatchUp : Z := 30 * Second.
Definition defaultHandoffPollInterval : Z := Second / 10.

(** [defaultActivePrimaryLossWindow] is declared in [updater.go]. *)
Definition defaultActivePrimaryLossWindow : Z := 10 * Second.

Definition positive_or (d x : Z) : Z := if x <=? 0 then d else x.

Definition withDefaults (o : HandoffOptions) : HandoffOptions :=
  {| PreFenceCatchUp := positive_or defaultHandoffCatchUp (PreFenceCatchUp o);
     CatchUp := positive_or defaultHandoffCatchUp (CatchUp o);
     PollInterval := positive_or defaultHandoffPollInterval (PollInterval o);
     SourceLossWindow := positive_or defaultActivePrimaryLossWindow (SourceLossWindow o);
     RestoreHost := RestoreHost o |}.

Inductive wait_error : Type :=
| WaitUnparseable (e : read_error)
| ApplierError (msg : string)
| ActivePrimaryLost
| CallerCanceled
| TimedOutUnread (lastReadErr : option read_error)
| TimedOutLate
| TimedOutMissing (missing : GTIDSet)
| OutOfFuel.

(** What the loop carries: the last set read, the last read error, and since when
    the source has failed its probes (zero: it has not). *)
Record wait_state : Type := {
  w_have : option GTIDSet;
  w_lastReadErr : option read_error;
  w_lostSince : Z
}.

(** The source's probe: the new [sourceLostSince], or the source is lost. *)
Definition probe_source (window lost : Z) : P (res wait_error Z) :=
  let! src := call (CheckReadOnly Source) in
  match (src : option bool) with
  | Some _ => Ret (Ok 0)
  | None =>
      let! expired := call WaitErr in
      if expired : bool then Ret (Ok lost)
      else
        let! now := call Now in
        if lost =? 0 then Ret (Ok now)
        else if time_sub now lost >=? window then Ret (Err ActivePrimaryLost)
        else Ret (Ok lost)
  end.

(** The loop's exit once the deadline passed. *)
Definition wait_timed_out (want : GTIDSet) (w : wait_state) : P (option wait_error) :=
  let! canceled := call Canceled in
  Ret (Some (if canceled : bool then CallerCanceled
             else match w_have w with
                  | None => TimedOutUnread (w_lastReadErr w)
                  | Some have =>
                      let missing := Subtract want have in
                      if IsEmpty missing then TimedOutLate else TimedOutMissing missing
                  end)).

(** [waitForCandidateGTIDs]: [fuel] bounds the polls; [None] is success. *)
Fixpoint wait_loop (fuel : nat) (want : GTIDSet) (window : Z) (w : wait_state)
  : P (option wait_error) :=
  match fuel with
  | O => Ret (Some OutOfFuel)
  | S fuel =>
      let! r := readGTIDSetRaw Candidate in
      let! step :=
        match r with
        | Ok (_, have) =>
            let w := {| w_have := Some have; w_lastReadErr := None; w_lostSince := w_lostSince w |} in
            if Contains have want then
              let! expired := call WaitErr in
              Ret (if expired : bool then Ok w else Err None)
            else Ret (Ok w)
        | Err (UnparseableGTID raw e) => Ret (Err (Some (WaitUnparseable (UnparseableGTID raw e))))
        | Err ReadFailed =>
            Ret (Ok {| w_have := w_have w; w_lastReadErr := Some ReadFailed; w_lostSince := w_lostSince w |})
        end in
      match step with
      | Err result => Ret result
      | Ok w =>
          let! rs := call (ShowReplicaStatus Candidate) in
          let sqlError := default "" (default None (rs : option (option string))) in
          if bool_decide (sqlError <> "") then Ret (Some (ApplierError sqlError))
          else
            let! src := probe_source window (w_lostSince w) in
            match src with
            | Err e => Ret (Some e)
            | Ok lost =>
                let w := {| w_have := w_have w; w_lastReadErr := w_lastReadErr w; w_lostSince := lost |} in
                let! expired := call WaitErr in
                if expired : bool then wait_timed_out want w
                else
                  let! fired := call PollTimer in
                  if fired : bool then wait_loop fuel want window w else wait_timed_out want w
            end
      end
  end.

Definition waitForCandidateGTIDs (fuel : nat) (want : GTIDSet) (opts : HandoffOptions)
  : P (option wait_error) :=
  wait_loop fuel want (SourceLossWindow opts)
    {| w_have := None; w_lastReadErr := None; w_lostSince := 0 |}.

Inductive handoff_cause : Type :=
| ProbeSource
| SourceReadOnly
| ReadCandidate (e : read_error)
| ReadSource (e : read_error)
| Divergent (extra : GTIDSet)
| NotCaughtUpBeforeFence (e : wait_error)
| FenceSource
| ReadFenced (e : read_error)
| NotCaughtUpFenced (e : wait_error)
| PromoteFailed (e : promote_error) (restore_failed : bool).

(** [Refused]: nothing was sent to the source. [Aborted]: the source was given its
    writes back, or the unfence failed. [WriteAttempted]: the candidate may accept
    writes and the source stays fenced. *)
Inductive handoff_error : Type :=
| Refused (cause : handoff_cause)
| Aborted (cause : handoff_cause) (unfenced : bool)
| HandoffWriteAttempted (promotionGtid : string) (e : promote_error).

(** Both statements are sent, whatever the first one returns. *)
Definition unfenceSite (c : conn) : P bool :=
  let! ok1 := call (SetSuperReadOnly c false) in
  let! ok2 := call (SetReadOnly c false) in
  Ret (ok1 && ok2).

Definition abortHandoff (cause : handoff_cause) : P (res handoff_error string) :=
  let! ok := unfenceSite Source in
  Ret (Err (Aborted cause ok)).

(** Whether the restart failed; [channel] re-creates the channel first. *)
Definition restartCandidateReplication (channel : option string) : P bool :=
  let! ok :=
    (match channel with
     | Some host => call (ChangeReplicationSource Candidate host)
     | None => Ret true
     end : P bool) in
  if negb ok then Ret true
  else
    let! ok := call (StartReplica Candidate) in
    Ret (negb ok).

(** What the abort does for the candidate's replication, by stage. *)
Definition restore_replication (opts : HandoffOptions) (stage : promoteStage) : P bool :=
  match stage with
  | promoteStageReplicaStopped => restartCandidateReplication None
  | promoteStageReplicaReset =>
      if bool_decide (RestoreHost opts = "") then Ret true
      else restartCandidateReplication (Some (RestoreHost opts))
  | _ => Ret false
  end.

(** The fenced phase and the promotion. *)
Definition handoff_fenced (fuel : nat) (opts : HandoffOptions) : P (res handoff_error string) :=
  let! ok := call (SetSuperReadOnly Source true) in
  if negb ok then abortHandoff FenceSource
  else
    let! _ := call (KillAppConnections Source) in
    let! r := readGTIDSetRaw Source in
    match r with
    | Err e => abortHandoff (ReadFenced e)
    | Ok (_, fenced) =>
        let! e := waitForCandidateGTIDs fuel fenced opts in
        match e with
        | Some err => abortHandoff (NotCaughtUpFenced err)
        | None =>
            let! r := promoteVerified fenced in
            let '(gtid, stage, e) := r in
            match e with
            | None => Ret (Ok gtid)
            | Some err =>
                match stage with
                | promoteStageWriteAttempted => Ret (Err (HandoffWriteAttempted gtid err))
                | _ =>
                    let! failed := restore_replication opts stage in
                    abortHandoff (PromoteFailed err failed)
                end
            end
        end
    end.

Definition ExecuteHandoff (fuel : nat) (opts : HandoffOptions) : P (res handoff_error string) :=
  let opts := withDefaults opts in
  let! ro := call (CheckReadOnly Source) in
  match (ro : option bool) with
  | None => Ret (Err (Refused ProbeSource))
  | Some true => Ret (Err (Refused SourceReadOnly))
  | Some false =>
      let! r := readGTIDSet Candidate in
      match r with
      | Err e => Ret (Err (Refused (ReadCandidate e)))
      | Ok candidateSet =>
          let! r := readGTIDSet Source in
          match r with
          | Err e => Ret (Err (Refused (ReadSource e)))
          | Ok current =>
              let extra := Subtract candidateSet current in
              if negb (IsEmpty extra) then Ret (Err (Refused (Divergent extra)))
              else
                let! e := waitForCandidateGTIDs fuel current opts in
                match e with
                | Some err => Ret (Err (Refused (NotCaughtUpBeforeFence err)))
                | None => handoff_fenced fuel opts
                end
          end
      end
  end.

End Failover.

Import GTID Failover.

(** ** Specification vocabulary *)

(** The text denotes the transactions of the set. *)
Definition denotes (raw : string) (want : GTIDSet) : Prop :=
  exists set, ParseGTIDSet raw = Ok set /\ forall sid n, has set sid n <-> has want sid n.

(** MySQL issues no transaction number above [MaxGNO], so no set a server reports
    holds one. *)
Definition servers_issue (tr : list (event ans)) : Prop :=
  forall c raw set, ev (GetGtidExecuted c) (Some raw) ∈ tr -> ParseGTIDSet raw = Ok set -> bounded set.

Definition is_hook (o : op) : bool :=
  match o with HookGuard | HookBefore _ | HookAfter | HookGate => true | _ => false end.

(** A statement that changes a server. *)
Definition is_statement (o : op) : bool :=
  match o with
  | SetSuperReadOnly _ _ | SetReadOnly _ _ | KillAppConnections _ | StopReplica _
  | ResetReplicaAll _ | StartReplica _ | ChangeReplicationSource _ _ => true
  | _ => false
  end.

(** A call to the pinned session, or a hook. *)
Definition on_session (o : op) : bool :=
  match o with
  | SetSuperReadOnly Session _ | SetReadOnly Session _ | StopReplica Session
  | ResetReplicaAll Session | GetGtidExecuted Session => true
  | o => is_hook o
  end.

(** ** Lemmas *)

Lemma only_not_called {A} Q (p : P A) tr a o : only Q p -> runs p tr a -> Q o = false -> ~ called o tr.
Proof. intros Hp H Ho [x Hx]. exact (only_not_in Q p tr a o x Hp H Ho Hx). Qed.

Lemma readGTIDSetRaw_runs c tr r : runs (readGTIDSetRaw c) tr r ->
  exists x, tr = [ev (GetGtidExecuted c) x]
    /\ forall raw set, r = Ok (raw, set) -> x = Some raw /\ ParseGTIDSet raw = Ok set.
Proof.
  unfold readGTIDSetRaw. intros H. run_step H. apply runs_Ret_iff in H as [-> ->]. exists x. split; [done|].
  intros raw set. destruct x as [raw'|]; [|done]. destruct (ParseGTIDSet raw') eqn:E; [|done].
  by intros [= <- <-].
Qed.

(** A set that contains [want] and has nothing beyond it. *)
Lemma equal_sets have want : bounded have -> wf want ->
  Contains have want = true -> IsEmpty (Subtract have want) = true ->
  forall sid n, has have sid n <-> has want sid n.
Proof.
  intros Hb Hw Hc He sid n. pose proof (bounded_wf _ Hb) as Hwf.
  rewrite Contains_spec in Hc by done.
  rewrite IsEmpty_spec in He by (by apply Subtract_wf).
  split; [|apply Hc]. intros Hn. destruct (has_dec want sid n) as [|Hno]; [done|].
  destruct (He sid n). apply has_Subtract; done.
Qed.

Lemma require_runs c want tr r : runs (requireCandidateGTIDs c want) tr r ->
  exists x, tr = [ev (GetGtidExecuted c) x]
    /\ forall raw, r = Ok raw -> x = Some raw
         /\ (wf want -> servers_issue tr -> denotes raw want).
Proof.
  unfold requireCandidateGTIDs. intros H. apply runs_bind_iff in H as (t1 & rr & t2 & -> & H1 & H).
  apply readGTIDSetRaw_runs in H1 as (x & -> & Hx). apply runs_Ret_iff in H as [-> ->].
  exists x. split; [done|]. intros raw. destruct rr as [[raw' have]|]; [|done].
  destruct (Contains have want) eqn:Ec; [|done]. simpl.
  destruct (IsEmpty (Subtract have want)) eqn:Ee; [|done]. simpl. intros [= <-].
  destruct (Hx _ _ eq_refl) as [-> Hp]. split; [done|]. intros Hw Hs.
  exists have. split; [done|]. apply equal_sets; try done. eapply (Hs c raw'); [left|done].
Qed.

(** [send] sends its statement once, between hooks, or not at all. *)
Lemma send_runs h s o ok tr r : runs (send h s o ok) tr r ->
  (r = Some GuardRefused /\ tr = [ev HookGuard false])
  \/ exists pre x post, tr = pre ++ ev o x :: post
       /\ Forall (fun e => is_hook (projT1 e) = true) (pre ++ post)
       /\ r = if ok x then None else Some (Statement o).
Proof.
  unfold send. intros H. apply runs_bind_iff in H as (t1 & a & t & -> & H1 & H).
  assert ((t1 = [] /\ a = true) \/ t1 = [ev HookGuard a]) as Ht1
    by (clear H; destruct (guard h); run_all; [right|left]; done).
  clear H1. destruct a; simpl in H; cycle 1.
  { apply runs_Ret_iff in H as [-> ->]. left. split; [done|]. by destruct Ht1 as [[_ ?]| ->]. }
  right. apply runs_bind_iff in H as (t2 & [] & t' & -> & H2 & H).
  assert (t2 = [] \/ t2 = [ev (HookBefore s) tt]) as Ht2
    by (clear H; destruct (before h);
        [apply (runs_call_iff (Ans := ans) (HookBefore s) t2 tt) in H2 as ->|apply runs_Ret_iff in H2 as [-> _]]; auto).
  clear H2. apply (runs_bind_iff (call o)) in H as (t3 & x & t4 & -> & ->%runs_call_iff & H).
  apply runs_bind_iff in H as (t5 & [] & t6 & -> & H5 & [-> ->]%runs_Ret_iff).
  assert (t5 = [] \/ t5 = [ev HookAfter tt]) as Ht5
    by (destruct (after h);
        [apply (runs_call_iff (Ans := ans) HookAfter t5 tt) in H5 as ->|apply runs_Ret_iff in H5 as [-> _]]; auto).
  clear H5. exists (t1 ++ t2), x, t5. rewrite app_nil_r, <- (assoc_L (++)). split; [done|]. split; [|done].
  destruct Ht1 as [[-> _]| ->], Ht2 as [->| ->], Ht5 as [->| ->]; by repeat constructor.
Qed.

(** The calls of the writes: hooks and the two clearing statements. *)
Definition is_clear (o : op) : bool :=
  match o with
  | SetSuperReadOnly Session false | SetReadOnly Session false => true
  | o => is_hook o
  end.

Lemma send_only Q h s o ok : (forall x, is_hook x = true -> Q x = true) -> Q o = true -> only Q (send h s o ok).
Proof. intros HQ Ho. unfold send. solve_only; try (apply only_call; by apply HQ). Qed.

Lemma send_hooks_or h s o ok : only (fun x => is_hook x || bool_decide (x = o)) (send h s o ok).
Proof. apply send_only; [by intros ? ->|]. rewrite bool_decide_true by done. apply orb_true_r. Qed.

Lemma promote_writes_only h gtid reached : only is_clear (promote_writes h gtid reached).
Proof.
  unfold promote_writes. solve_only; try (by apply send_only; [intros []|]). 
Qed.

(** Only an allowed, acknowledged sequence reaches [read_only=OFF]. *)
Lemma promote_writes_runs h gtid reached tr r : runs (promote_writes h gtid reached) tr r ->
  called (SetReadOnly Session false) tr ->
  ev (SetSuperReadOnly Session false) true ∈ tr
  /\ (gate h = true -> ev HookGate true ∈ tr)
  /\ exists e, r = (gtid, promoteStageWriteAttempted, e)
       /\ (e = None <-> ev (SetReadOnly Session false) true ∈ tr).
Proof.
  unfold promote_writes. intros H Hc. apply runs_bind_iff in H as (t1 & a & t & -> & H1 & H).
  assert (t1 = [] /\ gate h = false /\ a = true \/ t1 = [ev HookGate a]) as Ht1
    by (clear H Hc; destruct (gate h); run_all; [right|left]; done).
  clear H1. destruct a; simpl in H; cycle 1.
  { apply runs_Ret_iff in H as [-> _]. destruct Ht1 as [(_ & _ & ?)| ->]; [done|]. revert Hc; not_called. }
  apply runs_bind_iff in H as (t2 & e1 & t' & -> & H2 & H).
  assert (~ called (SetReadOnly Session false) (t1 ++ t2)) as Hn.
  { rewrite called_app. intros [Hc1|Hc2].
    - destruct Ht1 as [(-> & _)| ->]; revert Hc1; not_called.
    - exact (only_not_called _ _ _ _ (SetReadOnly Session false) (send_hooks_or _ _ _ _) H2 eq_refl Hc2). }
  rewrite (assoc_L (++)), called_app in Hc. destruct Hc as [Hc|Hc]; [done|].
  destruct e1 as [e1|]; [apply runs_Ret_iff in H as [-> _]; by apply called_nil in Hc|].
  apply runs_bind_iff in H as (t3 & e2 & t4 & -> & H3 & [-> ->]%runs_Ret_iff). rewrite app_nil_r in *.
  split; [|split].
  - apply send_runs in H2 as [[? _]|(pre & x & post & -> & _ & Hx)]; [done|]. destruct x; [|done].
    rewrite !elem_of_app, elem_of_cons. auto.
  - intros Hg. destruct Ht1 as [(_ & ? & _)| ->]; [congruence|]. left.
  - exists e2. split; [done|]. apply send_runs in H3 as [[-> ->]|(pre & x & post & -> & Hh & ->)].
    + revert Hc; not_called.
    + rewrite !elem_of_app, elem_of_cons.
      assert (forall y (l : list (event ans)), ev (SetReadOnly Session false) y ∈ l ->
        Forall (fun e => is_hook (projT1 e) = true) l -> False) as Hnh.
      { intros y l Hy Hf. rewrite Forall_forall in Hf. by specialize (Hf _ Hy). }
      apply Forall_app in Hh as [Hh1 Hh2].
      assert (ev (SetReadOnly Session false) true ∉ t1 /\ ev (SetReadOnly Session false) true ∉ t2) as [N1 N2].
      { split; intros Hy; apply Hn; exists true; apply elem_of_app; auto. }
      destruct x; simpl; [split; [auto 10|done]|]. split; [done|].
      intros [?|[?|[?|[Hy|?]]]]; [done|done|by edestruct Hnh|by apply ev_inj in Hy|by edestruct Hnh].
Qed.

Lemma requireCandidateGTIDs_only c want : only (fun o => bool_decide (o = GetGtidExecuted c)) (requireCandidateGTIDs c want).
Proof. unfold requireCandidateGTIDs, readGTIDSetRaw. solve_only. apply only_call. by apply bool_decide_eq_true. Qed.

(** From a stopped replica: what precedes the writes. *)
Lemma promote_from_stopped_runs h want tr r : runs (promote_from_stopped h want) tr r ->
  (~ called (SetReadOnly Session false) tr /\ ~ called (SetSuperReadOnly Session false) tr
   /\ exists e, r = ("", promoteStageReplicaReset, Some e)
      \/ r = ("", promoteStageReplicaStopped, Some e) /\ ~ called (ResetReplicaAll Session) tr)
  \/ exists pre raw post, tr = pre ++ ev (GetGtidExecuted Session) (Some raw) :: post
       /\ ev (ResetReplicaAll Session) true ∈ pre
       /\ ~ called (SetReadOnly Session false) pre /\ ~ called (SetSuperReadOnly Session false) pre
       /\ (wf want -> servers_issue tr -> denotes raw want)
       /\ runs (promote_writes h raw promoteStageReplicaReset) post r.
Proof.
  unfold promote_from_stopped. intros H. apply runs_bind_iff in H as (t1 & p1 & t & -> & H1 & H).
  apply require_runs in H1 as (x1 & -> & _). destruct p1 as [raw1|e]; cycle 1.
  { apply runs_Ret_iff in H as [-> ->]. left. split; [not_called|]. split; [not_called|].
    exists e. right. split; [done|not_called]. }
  apply runs_bind_iff in H as (t2 & e & t3 & -> & H2 & H).
  assert (forall o, is_hook o = false -> o <> ResetReplicaAll Session -> ~ called o t2) as Hn.
  { intros o Ho Hne. apply (only_not_called _ _ _ _ o (send_hooks_or _ _ _ _) H2). rewrite Ho. simpl. by apply bool_decide_eq_false. }
  destruct e as [e|].
  { apply runs_Ret_iff in H as [-> ->]. left. rewrite !called_app, !called_nil.
    split; [|split; [|exists e; by left]]; (intros [Hc|[Hc|[]]]; [revert Hc; not_called|by eapply Hn; [| |exact Hc]]). }
  apply runs_bind_iff in H as (t4 & p2 & t5 & -> & H4 & H).
  apply require_runs in H4 as (x2 & -> & Hp). destruct p2 as [raw|e]; cycle 1.
  { apply runs_Ret_iff in H as [-> ->]. left. rewrite !called_app, !called_nil.
    split; [|split; [|exists e; by left]];
      (intros [Hc|[Hc|[Hc|[]]]]; [revert Hc; not_called|by eapply Hn; [| |exact Hc]|revert Hc; not_called]). }
  destruct (Hp raw eq_refl) as [-> Hd]. right.
  exists ([ev (GetGtidExecuted Session) x1] ++ t2), raw, t5. rewrite <- (assoc_L (++)). split; [done|].
  split; [|split; [|split; [|split]]].
  - apply send_runs in H2 as [[? _]|(pre & y & post & -> & _ & Hy)]; [done|]. destruct y; [|done].
    rewrite !elem_of_app, !elem_of_cons. auto.
  - rewrite called_app. intros [Hc|Hc]; [revert Hc; not_called|by eapply Hn; [| |exact Hc]].
  - rewrite called_app. intros [Hc|Hc]; [revert Hc; not_called|by eapply Hn; [| |exact Hc]].
  - intros Hw Hs. apply Hd; [done|]. intros c rw set Hin. apply (Hs c rw set). rewrite !elem_of_app. auto.
  - done.
Qed.

Lemma promote_writes_stage h gtid reached tr r : runs (promote_writes h gtid reached) tr r ->
  (r.1.2 = reached \/ r.1.2 = promoteStageWriteAttempted)
  /\ (r.2 = None -> r.1.2 = promoteStageWriteAttempted /\ ev (SetReadOnly Session false) true ∈ tr).
Proof.
  unfold promote_writes. intros (t1 & a & t & -> & _ & H)%runs_bind_iff.
  destruct a; simpl in H; [|apply runs_Ret_iff in H as [_ ->]; split; [by left|done]].
  apply runs_bind_iff in H as (t2 & e & t3 & -> & _ & H).
  destruct e as [e|]; [apply runs_Ret_iff in H as [_ ->]; split; [by left|done]|].
  apply runs_bind_iff in H as (t4 & e & t5 & -> & H & [-> ->]%runs_Ret_iff). simpl.
  split; [by right|]. intros ->. split; [done|].
  apply send_runs in H as [[? _]|(pre & x & post & -> & _ & Hx)]; [done|]. destruct x; [|done].
  rewrite !elem_of_app, elem_of_cons. auto 10.
Qed.

Lemma send_stop_runs h tr e : runs (send h promoteMemoStopSent (StopReplica Session) id) tr e ->
  (forall o, is_hook o = false -> o <> StopReplica Session -> ~ called o tr)
  /\ (e = None -> ev (StopReplica Session) true ∈ tr).
Proof.
  intros H. split.
  - intros o Ho Hne. apply (only_not_called _ _ _ _ o (send_hooks_or _ _ _ _) H). rewrite Ho. simpl.
    by apply bool_decide_eq_false.
  - intros ->. apply send_runs in H as [[? _]|(pre & y & post & -> & _ & Hy)]; [done|]. destruct y; [|done].
    rewrite !elem_of_app, !elem_of_cons. auto.
Qed.

(** Every way to resume comes down to the writes, or makes none. *)
Lemma promoteVerifiedFrom_runs want from h tr r : runs (promoteVerifiedFrom want from h) tr r ->
  (exists pre t, tr = pre ++ t
     /\ (from = PromotionStageNotStarted /\ ev (StopReplica Session) true ∈ pre
         /\ (forall o, is_hook o = false -> o <> StopReplica Session -> ~ called o pre)
         \/ from = PromotionStageReplicaStopped /\ pre = [])
     /\ runs (promote_from_stopped h want) t r)
  \/ ((from = PromotionStageReplicaReset \/ from = PromotionStageWasWritable)
      /\ runs (promote_writes h (GTIDSet_String want) promoteStageReplicaReset) tr r)
  \/ (exists e, r.2 = Some e
      /\ (forall o, is_hook o = false -> o <> StopReplica Session -> ~ called o tr)
      /\ (called (StopReplica Session) tr -> from = PromotionStageNotStarted
            /\ r.1.2 = promoteStageReplicaStopped)).
Proof.
  unfold promoteVerifiedFrom. intros H. destruct from.
  - apply runs_bind_iff in H as (t1 & e & t2 & -> & H1 & H). destruct (send_stop_runs _ _ _ H1) as [Hn Hs].
    destruct e as [e|].
    + right; right. apply runs_Ret_iff in H as [-> ->]. rewrite app_nil_r. by exists e.
    + left. exists t1, t2. split; [done|]. split; [left; auto|done].
  - left. exists [], tr. auto.
  - right; left. auto.
  - right; left. auto.
  - right; right. apply runs_Ret_iff in H as [-> ->]. eexists. split; [done|].
    split; [intros o _ _; apply not_called_nil|by intros ?%called_nil].
  - right; right. apply runs_Ret_iff in H as [-> ->]. eexists. split; [done|].
    split; [intros o _ _; apply not_called_nil|by intros ?%called_nil].
  - right; right. apply runs_Ret_iff in H as [-> ->]. eexists. split; [done|].
    split; [intros o _ _; apply not_called_nil|by intros ?%called_nil].
Qed.

Lemma servers_issue_sub t1 t2 : (forall e, e ∈ t1 -> e ∈ t2) -> servers_issue t2 -> servers_issue t1.
Proof. intros Hs H c raw set Hin. apply (H c raw set). by apply Hs. Qed.

Lemma promote_from_stopped_only h want :
  only (fun o => negb (bool_decide (o = StopReplica Session))) (promote_from_stopped h want).
Proof.
  unfold promote_from_stopped, requireCandidateGTIDs, readGTIDSetRaw.
  solve_only; try (apply send_only; [by intros []|done]).
  eapply only_weaken; [|apply promote_writes_only]. by intros [].
Qed.

(** What a promotion that sends [read_only=OFF] did before. *)
Lemma promotion_core want from h tr gtid stage e :
  runs (promoteVerifiedFrom want from h) tr (gtid, stage, e) ->
  wf want -> servers_issue tr -> called (SetReadOnly Session false) tr ->
  stage = promoteStageWriteAttempted
  /\ ev (SetSuperReadOnly Session false) true ∈ tr
  /\ (gate h = true -> ev HookGate true ∈ tr)
  /\ (e = None <-> ev (SetReadOnly Session false) true ∈ tr)
  /\ match from with
     | PromotionStageNotStarted | PromotionStageReplicaStopped =>
         exists pre post, tr = pre ++ ev (GetGtidExecuted Session) (Some gtid) :: post
           /\ denotes gtid want
           /\ ev (ResetReplicaAll Session) true ∈ pre
           /\ ~ called (SetReadOnly Session false) pre
           /\ ~ called (SetSuperReadOnly Session false) pre
     | _ => gtid = GTIDSet_String want
     end.
Proof.
  intros H Hw Hs Hc.
  apply promoteVerifiedFrom_runs in H as [(p0 & t & -> & Hf & H)|[[Hf H]|(err & _ & Hn & _)]].
  - assert (forall o, is_hook o = false -> o <> StopReplica Session -> ~ called o p0) as Hn0
      by (destruct Hf as [(_ & _ & ?)|[_ ->]]; [done|intros o _ _; apply not_called_nil]).
    assert (forall x, ev (SetReadOnly Session false) x ∉ p0) as Hx0
      by (intros x Hin; eapply Hn0; [| |by exists x]; done).
    apply called_app in Hc as [[x Hc]|Hc]; [by destruct (Hx0 x)|].
    apply promote_from_stopped_runs in H as [(Hn & _)|(pre & raw & post & -> & Hr & N1 & N2 & Hd & H)]; [done|].
    rewrite called_app, called_cons in Hc. destruct Hc as [?|[?|Hc]]; [done|done|].
    destruct (promote_writes_runs _ _ _ _ _ H Hc) as (W1 & W2 & e' & [= -> -> ->] & W3).
    rewrite !elem_of_app, !elem_of_cons. split; [done|]. split; [auto|]. split; [intros Hg; auto|]. split.
    + rewrite W3. split; [auto|]. intros [?|[Hy|[Hy%ev_op|?]]]; [by destruct (Hx0 true)| |done|done].
      destruct N1. by exists true.
    + assert (exists pre0 post0, p0 ++ pre ++ ev (GetGtidExecuted Session) (Some raw) :: post
                = pre0 ++ ev (GetGtidExecuted Session) (Some raw) :: post0
           /\ denotes raw want /\ ev (ResetReplicaAll Session) true ∈ pre0
           /\ ~ called (SetReadOnly Session false) pre0
           /\ ~ called (SetSuperReadOnly Session false) pre0) as Hres.
      { exists (p0 ++ pre), post. rewrite (assoc_L (++)), !called_app, elem_of_app. split; [done|].
        split; [apply Hd; [done|]; eapply servers_issue_sub; [|exact Hs]; intros; apply elem_of_app; auto|].
        split; [by right|]. split; intros [[x Hx]|?]; [by destruct (Hx0 x)|done| |done].
        eapply Hn0; [| |by exists x]; done. }
      by destruct Hf as [[-> _]|[-> _]].
  - destruct (promote_writes_runs _ _ _ _ _ H Hc) as (W1 & W2 & e' & [= -> -> ->] & W3).
    split; [done|]. split; [done|]. split; [done|]. split; [done|]. by destruct Hf as [->| ->].
  - exfalso. eapply Hn; [| |exact Hc]; done.
Qed.

Lemma promotion_write_stage want from h tr r : runs (promoteVerifiedFrom want from h) tr r ->
  (called (SetReadOnly Session false) tr -> r.1.2 = promoteStageWriteAttempted)
  /\ (r.2 = None -> r.1.2 = promoteStageWriteAttempted /\ ev (SetReadOnly Session false) true ∈ tr).
Proof.
  intros [(p0 & t & -> & Hf & H)|[[Hf H]|(err & Herr & Hn & Hs)]]%promoteVerifiedFrom_runs.
  - assert (~ called (SetReadOnly Session false) p0) as Hn0
      by (destruct Hf as [(_ & _ & Hn)|[_ ->]]; [by apply Hn|apply not_called_nil]).
    rewrite called_app, elem_of_app.
    apply promote_from_stopped_runs in H as [(N1 & N2 & e' & He)|(pre & raw & post & -> & Hr & N1 & N2 & Hd & H)].
    + split; [tauto|]. by destruct He as [->|[-> _]].
    + destruct (promote_writes_stage _ _ _ _ _ H) as [S1 S2].
      rewrite elem_of_app, elem_of_cons. split; [|naive_solver].
      rewrite called_app, called_cons. intros [?|[?|[?|Hc]]]; [done..|].
      by destruct (promote_writes_runs _ _ _ _ _ H Hc) as (_ & _ & e' & -> & _).
  - split; [|apply (promote_writes_stage _ _ _ _ _ H)]. intros Hc.
    by destruct (promote_writes_runs _ _ _ _ _ H Hc) as (_ & _ & e' & -> & _).
  - split; [|congruence]. intros Hc. exfalso. eapply Hn; [| |exact Hc]; done.
Qed.

(** ** Theorems *)

(** C14. No unproven promotion: whatever stage it resumes from, the staged
    promotion sends [read_only=OFF] only after [super_read_only=OFF] was
    acknowledged and the gate, when there is one, passed. When it drove the channel
    reset itself, it first read on the same connection, after [RESET REPLICA ALL]
    was acknowledged and before either write, a GTID set that denotes exactly the
    required transactions, and that set is the promotion GTID it returns. *)
Theorem promotion_proven want from h tr gtid stage e :
  runs (promoteVerifiedFrom want from h) tr (gtid, stage, e) ->
  wf want -> servers_issue tr -> called (SetReadOnly Session false) tr ->
  stage = promoteStageWriteAttempted
  /\ ev (SetSuperReadOnly Session false) true ∈ tr
  /\ (gate h = true -> ev HookGate true ∈ tr)
  /\ (e = None <-> ev (SetReadOnly Session false) true ∈ tr)
  /\ match from with
     | PromotionStageNotStarted | PromotionStageReplicaStopped =>
         exists pre post, tr = pre ++ ev (GetGtidExecuted Session) (Some gtid) :: post
           /\ denotes gtid want
           /\ ev (ResetReplicaAll Session) true ∈ pre
           /\ ~ called (SetReadOnly Session false) pre
           /\ ~ called (SetSuperReadOnly Session false) pre
     | _ => gtid = GTIDSet_String want
     end.
Proof. apply promotion_core. Qed.

(** Every call is to the pinned session, or a hook. *)
Lemma promoteVerifiedFrom_only want from h : only on_session (promoteVerifiedFrom want from h).
Proof.
  assert (forall h s o ok, on_session o = true -> only on_session (send h s o ok)) as Hsend by (intros; apply send_only; [by intros []|done]).
  unfold promoteVerifiedFrom, promote_from_stopped, promote_writes, requireCandidateGTIDs, readGTIDSetRaw. solve_only; by apply Hsend.
Qed.

(** A resumed promotion repeats nothing and stays on its connection: every
    call is a statement or read on the pinned session or a hook; [STOP REPLICA] is
    sent only from [NotStarted], [RESET REPLICA ALL] only from [NotStarted] or
    [ReplicaStopped]; and the reported stage never understates what was sent. *)
Theorem promotion_resumes want from h tr gtid stage e :
  runs (promoteVerifiedFrom want from h) tr (gtid, stage, e) ->
  Forall (fun x => on_session (projT1 x) = true) tr
  /\ (called (StopReplica Session) tr -> from = PromotionStageNotStarted /\ stage <> promoteStageNotStarted)
  /\ (called (ResetReplicaAll Session) tr ->
        (from = PromotionStageNotStarted \/ from = PromotionStageReplicaStopped)
        /\ (stage = promoteStageReplicaReset \/ stage = promoteStageWriteAttempted))
  /\ (called (SetReadOnly Session false) tr -> stage = promoteStageWriteAttempted)
  /\ (e = None -> stage = promoteStageWriteAttempted /\ ev (SetReadOnly Session false) true ∈ tr).
Proof.
  intros H. split.
  { by eapply promoteVerifiedFrom_only. }
  apply promoteVerifiedFrom_runs in H as [(p0 & t & -> & Hf & H)|[[Hf H]|(err & Herr & Hn & Hs)]].
  - assert (forall o, is_hook o = false -> o <> StopReplica Session -> ~ called o p0) as Hn0
      by (destruct Hf as [(_ & _ & ?)|[_ ->]]; [done|intros o _ _; apply not_called_nil]).
    assert (~ called (StopReplica Session) t) as Ns
      by exact (only_not_called _ _ _ _ (StopReplica Session) (promote_from_stopped_only h want) H eq_refl).
    assert (called (StopReplica Session) p0 -> from = PromotionStageNotStarted) as Hp0
      by (destruct Hf as [(? & _)|[_ ->]]; [done|by intros ?%called_nil]).
    assert (from = PromotionStageNotStarted \/ from = PromotionStageReplicaStopped) as Hfrom by tauto.
    rewrite !called_app, elem_of_app.
    apply promote_from_stopped_runs in H as [(N1 & N2 & e' & He)|(pre & raw & post & -> & Hr & N1 & N2 & Hd & H)].
    + assert (stage <> promoteStageNotStarted /\ e <> None
        /\ (called (ResetReplicaAll Session) t -> stage = promoteStageReplicaReset)) as (S1 & S2 & S3)
        by (destruct He as [[= _ -> ->]|[[= _ -> ->] ?]]; done).
      split; [tauto|]. split; [|split; [|done]].
      * intros [Hc|Hc]; [exfalso; eapply Hn0; [| |exact Hc]; done|auto].
      * intros [Hc|Hc]; [exfalso; eapply Hn0; [| |exact Hc]; done|done].
    + destruct (promote_writes_stage _ _ _ _ _ H) as [S1 S2]. simpl in S1, S2.
      rewrite elem_of_app, elem_of_cons. split; [intros Hc; split; [tauto|naive_solver]|].
      split; [tauto|]. split.
      * rewrite called_app, called_cons. intros [Hc|[Hc|[Hc|Hc]]];
          [exfalso; eapply Hn0; [| |exact Hc]; done|done|done|].
        destruct (promote_writes_runs _ _ _ _ _ H Hc) as (_ & _ & e' & [= _ -> _] & _). done.
      * intros He. destruct (S2 He). auto.
  - assert (forall o, o = StopReplica Session \/ o = ResetReplicaAll Session -> ~ called o tr) as Nc.
    { intros o Ho. apply (only_not_called _ _ _ _ o (promote_writes_only _ _ _) H). by destruct Ho as [->| ->]. }
    split; [intros Hc; by eapply Nc in Hc; [|by left]|].
    split; [intros Hc; by eapply Nc in Hc; [|by right]|]. split.
    + intros Hc. destruct (promote_writes_runs _ _ _ _ _ H Hc) as (_ & _ & e' & [= _ -> _] & _). done.
    + apply (promote_writes_stage _ _ _ _ _ H).
  - simpl in Hs, Herr. subst e. split; [intros Hc; destruct (Hs Hc) as [-> ->]; done|]. split; [|split; [|done]];
      intros Hc; exfalso; eapply Hn; [| |exact Hc| | |exact Hc]; done.
Qed.

(** ** Lemmas on the wait *)

Definition is_probe (o : op) : bool :=
  match o with
  | CheckReadOnly _ | GetGtidExecuted _ | ShowReplicaStatus _ | Now | WaitErr | PollTimer | Canceled => true
  | _ => false
  end.

Definition is_timer (o : op) : bool := match o with PollTimer => true | _ => false end.

Lemma wait_loop_only fuel want window w : only is_probe (wait_loop fuel want window w).
Proof.
  revert w. induction fuel as [|fuel IH]; intros w; simpl; [apply only_Ret|].
  unfold readGTIDSetRaw, probe_source, wait_timed_out. solve_only; apply IH.
Qed.

(** The loss of the source is dated by clock readings of the wait. *)
Definition dated (lost : Z) (tr : list (event ans)) : Prop := lost = 0 \/ ev Now lost ∈ tr.

Lemma dated_app lost t1 t2 : dated lost t1 -> dated lost (t1 ++ t2).
Proof. intros [?|?]; [by left|right; apply elem_of_app; by left]. Qed.

Lemma probe_source_runs window lost tr r : runs (probe_source window lost) tr r ->
  match r with
  | Ok lost' => lost' = 0 \/ lost' = lost \/ ev Now lost' ∈ tr
  | Err e => e = ActivePrimaryLost /\ lost <> 0 /\ ev (CheckReadOnly Source) None ∈ tr
             /\ exists t, ev Now t ∈ tr /\ window <= time_sub t lost
  end.
Proof.
  unfold probe_source. intros H. run_all; auto; zify_bool.
  - right; right. ev_in.
  - split; [done|]. split; [done|]. split; [ev_in|]. eexists. split; [ev_in|].
    done.
Qed.

Definition contained (want : GTIDSet) (tr : list (event ans)) : Prop :=
  exists raw have, ev (GetGtidExecuted Candidate) (Some raw) ∈ tr
    /\ ParseGTIDSet raw = Ok have /\ Contains have want = true.

Definition source_lost (window : Z) (tr : list (event ans)) : Prop :=
  exists t0 t1, ev Now t0 ∈ tr /\ ev Now t1 ∈ tr /\ window <= time_sub t1 t0
    /\ ev (CheckReadOnly Source) None ∈ tr.

(** What an outcome of the wait says about the calls [past ++ tr]. *)
Definition wait_meaning (want : GTIDSet) (window : Z) (tr : list (event ans)) (r : option wait_error) : Prop :=
  match r with
  | None => contained want tr
  | Some ActivePrimaryLost => source_lost window tr
  | _ => True
  end.

Lemma wait_loop_spec fuel want window w past tr r :
  dated (w_lostSince w) past -> runs (wait_loop fuel want window w) tr r ->
  wait_meaning want window (past ++ tr) r
  /\ (r = Some OutOfFuel -> fuel <= count_ops is_timer tr)%nat.
Proof.
  revert w past tr. induction fuel as [|fuel IH]; intros w past tr Hw H; simpl in H.
  { apply runs_Ret_iff in H as [-> ->]. split; [done|]. intros _. unfold count_ops. simpl. lia. }
  apply runs_bind_iff in H as (t1 & r1 & t & -> & H1 & H).
  apply readGTIDSetRaw_runs in H1 as (x & -> & Hx).
  apply runs_bind_iff in H as (t2 & step & t3 & -> & H2 & H).
  assert (match step with
          | Ok w' => w_lostSince w' = w_lostSince w
          | Err r' => r' <> Some OutOfFuel
               /\ wait_meaning want window (past ++ ev (GetGtidExecuted Candidate) x :: t2) r'
          end) as Hstep.
  { clear H. destruct r1 as [[raw have]|[|raw e]].
    - destruct (Hx raw have eq_refl) as [-> Hp]. destruct (Contains have want) eqn:Ec; run_all; try done.
      match goal with |- context [if ?b then _ else _] => destruct b end; [done|]. split; [done|]. exists raw, have.
      split; [apply elem_of_app; right; left|done].
    - by run_all.
    - by run_all. }
  clear Hx H2 r1. destruct step as [w'|r']; cycle 1.
  { apply runs_Ret_iff in H as [-> ->]. rewrite app_nil_r. destruct Hstep as [Hn Hm]. done. }
  apply (runs_bind_iff (call (ShowReplicaStatus Candidate))) in H as (t4 & rs & t5 & -> & ->%runs_call_iff & H).
  destruct (bool_decide _); [apply runs_Ret_iff in H as [-> ->]; done|].
  apply runs_bind_iff in H as (t6 & src & t7 & -> & H6 & H). apply probe_source_runs in H6.
  set (before := past ++ [ev (GetGtidExecuted Candidate) x] ++ t2 ++ [ev (ShowReplicaStatus Candidate) rs]).
  assert (dated (w_lostSince w') before) as Hw'
    by (rewrite Hstep; unfold before; by apply dated_app).
  replace (past ++ [ev (GetGtidExecuted Candidate) x] ++ t2 ++ [ev (ShowReplicaStatus Candidate) rs] ++ t6 ++ t7)
    with ((before ++ t6) ++ t7) by (unfold before; rewrite <- !(assoc_L (++)); done).
  rewrite !count_ops_app.
  destruct src as [lost|e]; cycle 1.
  { apply runs_Ret_iff in H as [-> ->]. simpl in H6. destruct H6 as (-> & Hne & Hc & t & Ht & Hwin). split; [|done].
    destruct Hw' as [?|Hin]; [done|]. exists (w_lostSince w'), t. rewrite app_nil_r, !elem_of_app. auto. }
  assert (dated lost (before ++ t6)) as Hlost.
  { simpl in H6. destruct H6 as [->|[->|?]]; [by left|by apply dated_app|right; apply elem_of_app; by right]. }
  assert (forall w tr r, runs (wait_timed_out want w) tr r ->
    (forall tr', wait_meaning want window tr' r) /\ r <> Some OutOfFuel) as Hto.
  { clear. intros w tr r H. unfold wait_timed_out in H. run_step H. apply runs_Ret_iff in H as [_ ->].
    split; [intros tr'|]; repeat case_match; done. }
  apply (runs_bind_iff (call WaitErr)) in H as (t8 & expired & t9 & -> & ->%runs_call_iff & H).
  destruct expired.
  { destruct (Hto _ _ _ H) as [Hm Hn]. by split. }
  apply (runs_bind_iff (call PollTimer)) in H as (t10 & fired & t11 & -> & ->%runs_call_iff & H).
  destruct fired; [|destruct (Hto _ _ _ H) as [Hm Hn]; by split].
  destruct (IH {| w_have := w_have w'; w_lastReadErr := w_lastReadErr w'; w_lostSince := lost |}
    ((before ++ t6) ++ [ev WaitErr false; ev PollTimer true]) _
    (dated_app _ _ _ Hlost) H) as [Hm Hf].
  rewrite <- (assoc_L (++)) in Hm. split; [exact Hm|].
  intros Hr. specialize (Hf Hr). cbn [app]. rewrite !count_ops_cons. simpl. lia.
Qed.

(** The catch-up wait: it only probes; success means the last set it read
    from the candidate contains every wanted transaction; it declares the primary
    lost only on a failed probe at least the loss window after the first one of the
    run; and it does not run on - out of fuel means that its poll timer fired that
    many times before the deadline. *)
Theorem wait_sound fuel want opts tr r :
  wf want -> servers_issue tr -> runs (waitForCandidateGTIDs fuel want opts) tr r ->
  Forall (fun x => is_probe (projT1 x) = true) tr
  /\ (r = None -> exists raw have, ev (GetGtidExecuted Candidate) (Some raw) ∈ tr
        /\ ParseGTIDSet raw = Ok have /\ forall sid n, has want sid n -> has have sid n)
  /\ (r = Some ActivePrimaryLost -> source_lost (SourceLossWindow opts) tr)
  /\ (r = Some OutOfFuel -> fuel <= count_ops is_timer tr)%nat.
Proof.
  intros Hw Hs H. split; [by eapply wait_loop_only|]. unfold waitForCandidateGTIDs in H.
  eapply (wait_loop_spec _ _ _ _ []) in H as [Hm Hf]; [|by left]. simpl in Hm.
  split; [|split; [|done]].
  - intros ->. destruct Hm as (raw & have & Hin & Hp & Hc). exists raw, have. split; [done|]. split; [done|].
    apply Contains_spec; [by eapply Hs|done..].
  - by intros ->.
Qed.

(** ** Lemmas on the handoff *)

Lemma waitForCandidateGTIDs_only fuel want opts : only is_probe (waitForCandidateGTIDs fuel want opts).
Proof. apply wait_loop_only. Qed.

(** Calls that touch the source's writability. *)
Definition frees_source (o : op) : bool :=
  match o with SetSuperReadOnly Source false | SetReadOnly Source false => true | _ => false end.

Definition not_source (o : op) : bool :=
  match o with SetSuperReadOnly Source _ | SetReadOnly Source _ => false | _ => true end.

Lemma abortHandoff_runs cause tr r : runs (abortHandoff cause) tr r ->
  exists ok1 ok2, tr = [ev (SetSuperReadOnly Source false) ok1; ev (SetReadOnly Source false) ok2]
    /\ r = Err (Aborted cause (ok1 && ok2)).
Proof.
  unfold abortHandoff, unfenceSite. intros H. apply runs_bind_iff in H as (t1 & ok & t2 & -> & H1 & H).
  apply runs_Ret_iff in H as [-> ->]. run_step H1. run_step H1. apply runs_Ret_iff in H1 as [-> ->].
  by eexists _, _.
Qed.

Lemma promoteVerified_only want : only not_source (promoteVerified want).
Proof.
  unfold promoteVerified, promoteVerifiedFrom, promote_from_stopped, promote_writes,
    requireCandidateGTIDs, readGTIDSetRaw. solve_only; (apply send_only; [by intros []|done]).
Qed.

Lemma restore_replication_only opts stage :
  only (fun o => match o with ChangeReplicationSource _ _ | StartReplica _ => true | _ => false end)
    (restore_replication opts stage).
Proof. unfold restore_replication, restartCandidateReplication. solve_only. Qed.

(** The pinned promotion inside its session. *)
Lemma promoteVerified_runs want tr r : runs (promoteVerified want) tr r ->
  (~ called (SetReadOnly Session false) tr /\ r.1.2 = promoteStageNotStarted /\ r.2 = Some PinFailed)
  \/ exists t, runs (promoteVerifiedFrom want PromotionStageNotStarted noHooks) t r
       /\ tr = ev (PinSession Candidate) true :: t ++ [ev CloseSession tt].
Proof.
  unfold promoteVerified. intros H. run_step H. destruct x; simpl in H.
  - right. apply runs_bind_iff in H as (t1 & r1 & t2 & -> & H1 & H).
    apply (runs_bind_iff (call CloseSession)) in H as (t3 & x & t4 & -> & ->%runs_call_iff & [-> ->]%runs_Ret_iff).
    exists t1. destruct x. done.
  - left. apply runs_Ret_iff in H as [-> ->]. split; [not_called|done].
Qed.

Lemma parsed_wf t set : ParseGTIDSet t = Ok set -> wf set.
Proof.
  intros H. assert (listed set) as Hl.
  { revert H. unfold ParseGTIDSet. case_decide; [intros [= <-]; intros k l; by rewrite lookup_empty|].
    apply (res_fold_inv _ listed); [intros k l; by rewrite lookup_empty|].
    intros; by eapply parse_entry_listed. }
  intros sid l E. destruct (Hl sid l E) as [Hn Hp]. split; [done|].
  eapply Forall_impl; [exact Hp|]. intros x Hx. unfold iv_printable, iv_wf, is_int64, MinInt64 in *. lia.
Qed.

(** The outcome of a handoff and its writes to the two servers. *)
Definition one_writer (tr : list (event ans)) (r : res handoff_error string) : Prop :=
  match r with
  | Err (Refused _) => forall o, is_statement o = true -> ~ called o tr
  | Err (Aborted _ unfenced) =>
      called (SetSuperReadOnly Source true) tr /\ ~ called (SetReadOnly Session false) tr
      /\ exists t ok1 ok2, unfenced = ok1 && ok2
           /\ tr = t ++ [ev (SetSuperReadOnly Source false) ok1; ev (SetReadOnly Source false) ok2]
  | Ok _ | Err (HandoffWriteAttempted _ _) =>
      ev (SetSuperReadOnly Source true) true ∈ tr
      /\ ~ called (SetSuperReadOnly Source false) tr /\ ~ called (SetReadOnly Source false) tr
  end.

Lemma abort_one_writer cause pre tr r : runs (abortHandoff cause) tr r ->
  called (SetSuperReadOnly Source true) pre -> ~ called (SetReadOnly Session false) pre ->
  one_writer (pre ++ tr) r.
Proof.
  intros (ok1 & ok2 & -> & ->)%abortHandoff_runs Hs Hn. simpl. rewrite !called_app. split; [by left|]. split.
  - intros [?|Hc]; [done|revert Hc; not_called].
  - by exists pre, ok1, ok2.
Qed.

(** The promotion inside a handoff that sends [read_only=OFF]. *)
Definition promoted_inside (tr : list (event ans)) (r : res handoff_error string) : Prop :=
  exists k rawS fenced t p gtid e,
    tr = ev (SetSuperReadOnly Source true) true :: ev (KillAppConnections Source) k
           :: ev (GetGtidExecuted Source) (Some rawS) :: t
           ++ ev (PinSession Candidate) true :: p ++ [ev CloseSession tt]
    /\ ParseGTIDSet rawS = Ok fenced /\ Forall (fun x => is_probe (projT1 x) = true) t
    /\ runs (promoteVerifiedFrom fenced PromotionStageNotStarted noHooks) p
         (gtid, promoteStageWriteAttempted, e)
    /\ r = match e with None => Ok gtid | Some err => Err (HandoffWriteAttempted gtid err) end.

Lemma handoff_fenced_runs fuel opts tr r : runs (handoff_fenced fuel opts) tr r ->
  one_writer tr r /\ (called (SetReadOnly Session false) tr -> promoted_inside tr r).
Proof.
  unfold handoff_fenced. intros H.
  apply (runs_bind_iff (call (SetSuperReadOnly Source true))) in H as (t0 & ok & t & -> & ->%runs_call_iff & H).
  assert (forall (t : list (event ans)), Forall (fun x => is_probe (projT1 x) = true) t ->
    forall o, is_probe o = false -> ~ called o t) as Hprobe.
  { intros t' Hf o Ho [x Hx]. rewrite Forall_forall in Hf. specialize (Hf _ Hx). simpl in Hf. congruence. }
  assert (forall pre cause tr r, runs (abortHandoff cause) tr r ->
    called (SetSuperReadOnly Source true) pre -> ~ called (SetReadOnly Session false) pre ->
    one_writer (pre ++ tr) r /\ (called (SetReadOnly Session false) (pre ++ tr) -> promoted_inside (pre ++ tr) r))
    as Habort.
  { intros pre cause tr' r' Ha Hs Hn. split; [by eapply abort_one_writer|].
    apply abortHandoff_runs in Ha as (ok1 & ok2 & -> & _). rewrite called_app.
    intros [?|Hc]; [done|revert Hc; not_called]. }
  destruct ok; simpl in H; cycle 1.
  { eapply Habort; [exact H|exists false; ev_in|not_called]. }
  apply (runs_bind_iff (call (KillAppConnections Source))) in H as (t1 & k & t2 & -> & ->%runs_call_iff & H).
  apply runs_bind_iff in H as (t3 & r3 & t4 & -> & H3 & H).
  apply readGTIDSetRaw_runs in H3 as (x & -> & Hx). destruct r3 as [[rawS fenced]|e]; cycle 1.
  { rewrite !(assoc_L (++)). eapply Habort; [exact H|exists true; ev_in|not_called]. }
  destruct (Hx _ _ eq_refl) as [-> Hp]. clear Hx.
  apply runs_bind_iff in H as (t5 & e & t6 & -> & H5 & H).
  pose proof (waitForCandidateGTIDs_only _ _ _ _ _ H5) as Hw.
  set (head := [ev (SetSuperReadOnly Source true) true; ev (KillAppConnections Source) k;
                ev (GetGtidExecuted Source) (Some rawS)] ++ t5).
  change ([ev (SetSuperReadOnly Source true) true] ++ [ev (KillAppConnections Source) k] ++
    [ev (GetGtidExecuted Source) (Some rawS)] ++ t5 ++ t6) with
    ([ev (SetSuperReadOnly Source true) true; ev (KillAppConnections Source) k;
      ev (GetGtidExecuted Source) (Some rawS)] ++ t5 ++ t6).
  rewrite (assoc_L (++)). fold head.
  assert (called (SetSuperReadOnly Source true) head) as Hfence by (exists true; left).
  assert (forall o, is_probe o = false -> o <> SetSuperReadOnly Source true ->
    o <> KillAppConnections Source -> ~ called o head) as Hhead.
  { intros o Ho N1 N2. unfold head. rewrite called_app, !called_cons, called_nil. simpl.
    intros [[?|[?|[?|[]]]]|Hc]; [congruence..|by subst|by eapply Hprobe in Hc]. }
  destruct e as [err|].
  { eapply Habort; [exact H|done|by apply Hhead]. }
  apply runs_bind_iff in H as (t7 & [[gtid stage] e] & t8 & -> & H7 & H).
  pose proof (only_not_called _ _ _ _ (SetSuperReadOnly Source false) (promoteVerified_only _) H7 eq_refl) as N7a.
  pose proof (only_not_called _ _ _ _ (SetReadOnly Source false) (promoteVerified_only _) H7 eq_refl) as N7b.
  assert (stage = promoteStageWriteAttempted -> exists p, t7 = ev (PinSession Candidate) true :: p ++ [ev CloseSession tt]
      /\ runs (promoteVerifiedFrom fenced PromotionStageNotStarted noHooks) p (gtid, promoteStageWriteAttempted, e)) as Hin.
  { intros ->. apply promoteVerified_runs in H7 as [(_ & ? & _)|(p & Hr & ->)]; [done|]. by exists p. }
  assert (called (SetReadOnly Session false) t7 \/ e = None -> stage = promoteStageWriteAttempted) as Hstage.
  { apply promoteVerified_runs in H7 as [(Hn & _ & He)|(p & Hr & ->)].
    - simpl in He. subst e. by intros [?|?].
    - destruct (promotion_write_stage _ _ _ _ _ Hr) as [S1 S2]. simpl in S1, S2.
      rewrite called_cons, called_app, called_cons, called_nil. intros [[?|[?|[?|[]]]]|?]; try done; [by apply S1|].
      by apply S2. }
  assert (forall t, runs (Ret match e with None => Ok gtid | Some err => Err (HandoffWriteAttempted gtid err) end) t r ->
    stage = promoteStageWriteAttempted -> one_writer (head ++ t7 ++ t) r
      /\ (called (SetReadOnly Session false) (head ++ t7 ++ t) -> promoted_inside (head ++ t7 ++ t) r)) as Hdone.
  { intros t' [-> ->]%runs_Ret_iff Hst. rewrite app_nil_r. split.
    - assert (ev (SetSuperReadOnly Source true) true ∈ head ++ t7
        /\ ~ called (SetSuperReadOnly Source false) (head ++ t7)
        /\ ~ called (SetReadOnly Source false) (head ++ t7)) as Ho; [|by destruct e].
      split; [left|]. rewrite !called_app. split; (intros [Hc|?]; [revert Hc; by apply Hhead|done]).
    - intros _. destruct (Hin Hst) as (p & -> & Hr). exists k, rawS, fenced, t5, p, gtid, e.
      split; [unfold head; by rewrite <- (assoc_L (++))|]. done. }
  destruct e as [err|]; [|by apply Hdone, Hstage; [|right]].
  destruct stage; try by apply Hdone.
  all: apply runs_bind_iff in H as (t9 & failed & t10 & -> & H9 & H).
  all: pose proof (only_not_called _ _ _ _ (SetReadOnly Session false) (restore_replication_only _ _) H9 eq_refl) as N9.
  all: rewrite !(assoc_L (++)); apply (Habort _ _ _ _ H); rewrite !called_app; [by left; left|].
  all: intros [[Hc|Hc]|?]; [revert Hc; by apply Hhead|by specialize (Hstage (or_introl Hc))|done].
Qed.

(** Before the fence a handoff only probes. *)
Lemma ExecuteHandoff_runs fuel opts tr r : runs (ExecuteHandoff fuel opts) tr r ->
  exists pre t, tr = pre ++ t /\ Forall (fun x => is_probe (projT1 x) = true) pre
    /\ (t = [] /\ (exists cause, r = Err (Refused cause))
        \/ runs (handoff_fenced fuel (withDefaults opts)) t r).
Proof.
  unfold ExecuteHandoff, readGTIDSet. intros H.
  assert (forall c, r = Err (Refused c) -> Forall (fun x => is_probe (projT1 x) = true) tr ->
    exists pre t, tr = pre ++ t /\ Forall (fun x => is_probe (projT1 x) = true) pre
    /\ (t = [] /\ (exists cause, r = Err (Refused cause))
        \/ runs (handoff_fenced fuel (withDefaults opts)) t r)) as Href.
  { intros c -> Hf. exists tr, []. rewrite app_nil_r. split; [done|]. split; [done|]. left. split; [done|]. by exists c. }
  apply (runs_bind_iff (call (CheckReadOnly Source))) in H as (t0 & ro & t & -> & ->%runs_call_iff & H).
  destruct ro as [[]|]; try (apply runs_Ret_iff in H as [-> ->]; eapply Href; [done|by repeat constructor]).
  apply runs_bind_iff in H as (t1 & r1 & t2 & -> & H1 & H).
  apply runs_bind_iff in H1 as (u1 & s1 & u2 & -> & H1 & [-> ->]%runs_Ret_iff).
  apply readGTIDSetRaw_runs in H1 as (x & -> & _). rewrite app_nil_r in *.
  destruct s1 as [[raw1 candidateSet]|e1]; [|apply runs_Ret_iff in H as [-> ->]; eapply Href; [done|by repeat constructor]].
  apply runs_bind_iff in H as (t3 & r3 & t4 & -> & H3 & H).
  apply runs_bind_iff in H3 as (u3 & s3 & u4 & -> & H3 & [-> ->]%runs_Ret_iff).
  apply readGTIDSetRaw_runs in H3 as (y & -> & _). rewrite app_nil_r in *.
  destruct s3 as [[raw3 current]|e3]; [|apply runs_Ret_iff in H as [-> ->]; eapply Href; [done|by repeat constructor]].
  destruct (negb (IsEmpty (Subtract candidateSet current)));
    [apply runs_Ret_iff in H as [-> ->]; eapply Href; [done|by repeat constructor]|].
  apply runs_bind_iff in H as (t5 & e & t6 & -> & H5 & H).
  pose proof (waitForCandidateGTIDs_only _ _ _ _ _ H5) as Hw.
  assert (Forall (fun x => is_probe (projT1 x) = true) ([ev (CheckReadOnly Source) (Some false)] ++
    [ev (GetGtidExecuted Candidate) x] ++ [ev (GetGtidExecuted Source) y] ++ t5)) as Hf by (by repeat constructor).
  destruct e as [err|].
  - apply runs_Ret_iff in H as [-> ->]. rewrite app_nil_r in *. by eapply Href.
  - eexists _, t6. rewrite !(assoc_L (++)). split; [done|]. rewrite <- !(assoc_L (++)). auto.
Qed.

Lemma handoff_fenced_called fuel opts tr r : runs (handoff_fenced fuel opts) tr r ->
  called (SetSuperReadOnly Source true) tr.
Proof. unfold handoff_fenced. intros H. run_step H. exists x. left. Qed.

Lemma probes_no_call (t : list (event ans)) o :
  Forall (fun x => is_probe (projT1 x) = true) t -> is_probe o = false -> ~ called o t.
Proof.
  intros Hf Ho [x Hx]. rewrite Forall_forall in Hf. specialize (Hf _ Hx). simpl in Hf. congruence.
Qed.

(** One writer: a refused handoff changed nothing on either server. An aborted
    one had fenced the source, never sent the candidate [read_only=OFF], and ends by
    clearing both flags on the source, reporting whether both were acknowledged. A
    completed one, or one whose last write is in doubt, fenced the source and never
    unfenced it. *)
Lemma handoff_one_writer fuel opts tr r : runs (ExecuteHandoff fuel opts) tr r -> one_writer tr r.
Proof.
  intros (pre & t & -> & Hf & [[-> [cause ->]]|H])%ExecuteHandoff_runs.
  - rewrite app_nil_r. intros o Ho. apply probes_no_call; [done|by destruct o].
  - pose proof (probes_no_call pre) as Hn. pose proof (handoff_fenced_called _ _ _ _ H) as Hfence.
    apply handoff_fenced_runs in H as [H _].
    destruct r as [g|[cause|cause ok|g e]]; simpl in *; rewrite ?called_app, ?elem_of_app.
    + destruct H as (H1 & H2 & H3). split; [auto|]. split; (intros [Hc|?]; [by eapply Hn in Hc|done]).
    + exfalso. by apply (H (SetSuperReadOnly Source true)).
    + destruct H as (H1 & H2 & u & ok1 & ok2 & -> & ->). split; [auto|].
      split; [intros [Hc|?]; [by eapply Hn in Hc|done]|]. exists (pre ++ u), ok1, ok2.
      split; [done|]. by rewrite (assoc_L (++)).
    + destruct H as (H1 & H2 & H3). split; [auto|]. split; (intros [Hc|?]; [by eapply Hn in Hc|done]).
Qed.

(** A handoff loses nothing and adds nothing: whenever it sends the candidate
    [read_only=OFF], the source had been fenced with an acknowledged statement, its
    set was read after the fence, and the set the pinned session reported after the
    channel reset - the promotion GTID of the outcome - denotes exactly the
    transactions of that fenced set. *)
Lemma handoff_loses_nothing fuel opts tr r :
  runs (ExecuteHandoff fuel opts) tr r -> servers_issue tr -> called (SetReadOnly Session false) tr ->
  exists t1 rawS fenced t2 gtid t3,
    tr = t1 ++ ev (GetGtidExecuted Source) (Some rawS) :: t2 ++ ev (GetGtidExecuted Session) (Some gtid) :: t3
    /\ ev (SetSuperReadOnly Source true) true ∈ t1
    /\ ParseGTIDSet rawS = Ok fenced /\ denotes gtid fenced
    /\ ~ called (SetReadOnly Session false) (t1 ++ t2)
    /\ (r = Ok gtid \/ exists e, r = Err (HandoffWriteAttempted gtid e)).
Proof.
  intros (pre & t & -> & Hf & [[-> [cause ->]]|H])%ExecuteHandoff_runs Hs Hc.
  { rewrite app_nil_r in Hc. by eapply probes_no_call in Hc. }
  rewrite called_app in Hc. destruct Hc as [Hc|Hc]; [by eapply probes_no_call in Hc|].
  apply handoff_fenced_runs in H as [_ H].
  destruct (H Hc) as (k & rawS & fenced & w & p & gtid & e & -> & Hp & Hw & Hr & ->). clear H.
  assert (called (SetReadOnly Session false) p) as Hcp.
  { rewrite !called_cons, called_app, called_cons, called_app, called_cons, called_nil in Hc. simpl in Hc.
    destruct Hc as [?|[?|[?|[Hc|[?|[?|[?|[]]]]]]]]; [done..| |done|done|done].
    by eapply probes_no_call in Hc. }
  destruct (promotion_core _ _ _ _ _ _ _ Hr) as (_ & _ & _ & _ & q1 & q2 & -> & Hd & _ & N1 & _);
    [by eapply parsed_wf| |done|].
  { eapply servers_issue_sub; [|exact Hs]. intros x Hx. rewrite elem_of_app. right.
    do 3 right. rewrite elem_of_app. right. right. rewrite elem_of_app. by left. }
  exists (pre ++ [ev (SetSuperReadOnly Source true) true; ev (KillAppConnections Source) k]), rawS, fenced,
    (w ++ ev (PinSession Candidate) true :: q1), gtid, (q2 ++ [ev CloseSession tt]).
  split; [by rewrite <- !(assoc_L (++))|]. split; [apply elem_of_app; right; left|].
  split; [done|]. split; [done|]. split.
  - rewrite !called_app, !called_cons, called_nil. simpl.
    intros [[Hx|[?|[?|[]]]]|[Hx|[?|?]]]; [by eapply probes_no_call in Hx|done|done|by eapply probes_no_call in Hx|done|done].
  - destruct e; [right|left]; eauto.
Qed.

(** The emergency promotion either stops before [read_only=OFF] or runs through. *)
Lemma promote_runs tr r : runs promote tr r ->
  (Forall (fun x => projT1 x <> SetReadOnly Candidate false) tr /\ exists e, r = Err e)
  \/ exists gtid last, tr = [ev (StopReplica Candidate) true; ev (ResetReplicaAll Candidate) true;
       ev (GetGtidExecuted Candidate) gtid; ev (SetSuperReadOnly Candidate false) true;
       ev (SetReadOnly Candidate false) last]
     /\ (last = true <-> exists g, r = Ok g).
Proof.
  unfold promote. intros H. run_all.
  1-3: left; split; [by repeat constructor|eauto].
  all: right; repeat match goal with x : ans _ |- _ => simpl in x end.
  all: repeat match goal with E : negb ?x = false |- _ => apply negb_false_iff in E; subst
    | E : negb ?x = true |- _ => apply negb_true_iff in E; subst end.
  all: do 2 eexists; split; [done|]; split; [|intros [? ?]]; by eauto.
Qed.

(** The emergency path: with an old primary it first tries to fence it and to
    evict its connections, whatever the outcome; it makes the candidate writable
    only after [STOP REPLICA], [RESET REPLICA ALL] and [super_read_only=OFF] were
    each acknowledged; and it reports success exactly when [read_only=OFF] was. *)
Theorem emergency_order old tr r : runs (Execute old) tr r ->
  (old = true -> exists f k t, tr = ev (SetSuperReadOnly Source true) f :: ev (KillAppConnections Source) k :: t)
  /\ (called (SetReadOnly Candidate false) tr ->
        exists t gtid last, tr = t ++ [ev (StopReplica Candidate) true; ev (ResetReplicaAll Candidate) true;
          ev (GetGtidExecuted Candidate) gtid; ev (SetSuperReadOnly Candidate false) true;
          ev (SetReadOnly Candidate false) last])
  /\ ((exists gtid, r = Ok gtid) <-> ev (SetReadOnly Candidate false) true ∈ tr).
Proof.
  unfold Execute. intros H. apply runs_bind_iff in H as (t1 & [] & t & -> & Hold & H).
  assert (Forall (fun x => projT1 x <> SetReadOnly Candidate false) t1
    /\ (old = true -> exists f k, t1 = [ev (SetSuperReadOnly Source true) f; ev (KillAppConnections Source) k]))
    as [Hn Ho] by (run_all; (split; [by repeat constructor|by eauto])).
  apply (runs_bind_iff (call (WaitForRelayLogDrain Candidate (30 * Second)))) in H
    as (t2 & d & t3 & -> & ->%runs_call_iff & H).
  split; [intros Hold'; destruct (Ho Hold') as (f & k & ->); by eauto|].
  assert (forall x, ev (SetReadOnly Candidate false) x ∉ t1 ++ [ev (WaitForRelayLogDrain Candidate (30 * Second)) d])
    as Hn'.
  { intros x [Hin|Hin]%elem_of_app; [|by in_trace Hin]. rewrite Forall_forall in Hn. by apply (Hn _ Hin). }
  rewrite (assoc_L (++)). apply promote_runs in H as [[Hf [e ->]]|(gtid & lst & -> & Hr)].
  - rewrite Forall_forall in Hf. assert (forall x, ev (SetReadOnly Candidate false) x ∉ t3) as Hf'
      by (intros x Hin; by apply (Hf _ Hin)).
    split; [intros [x [Hx|Hx]%elem_of_app]; exfalso; [by eapply Hn'|by eapply Hf']|].
    split; [by intros [? ?]|]. intros [Hx|Hx]%elem_of_app; exfalso; [by eapply Hn'|by eapply Hf'].
  - split; [by eauto|]. rewrite <- Hr, elem_of_app. split.
    + intros ->. right. ev_in.
    + intros [Hx|Hx]; [by eapply Hn' in Hx|]. in_trace Hx. done.
Qed.

(** ** Witnesses *)

Definition sid : string := "aaaaaaaa-aaaa-aaaa-aaaa-aaaaaaaaaaaa".

(** Both servers have executed [sid:1-7]; the clock stands still; [fails] says which
    statements return an error and [due] whether the wait's deadline has passed. *)
Definition env (due : bool) (fails : op -> bool) (_ : list (event ans)) (o : op) : ans o :=
  match o with
  | CheckReadOnly c => Some (bool_decide (c <> Source))
  | GetGtidExecuted _ => Some (sid +:+ ":1-7")
  | ShowReplicaStatus _ => Some (Some "")
  | Now => UnixEpoch
  | CloseSession | HookBefore _ | HookAfter => tt
  | WaitErr => due
  | PollTimer => true
  | Canceled => false
  | o => negb (fails o)
  end.

Definition sound := env false (fun _ => false).

(** The candidate's [RESET REPLICA ALL] fails. *)
Definition stuck := env false (fun o => bool_decide (o = ResetReplicaAll Session)).

Definition seven : GTIDSet := match ParseGTIDSet (sid +:+ ":1-7") with Ok s => s | Err _ => ∅ end.

Definition demo_opts : HandoffOptions :=
  {| PreFenceCatchUp := 0; CatchUp := 0; PollInterval := 0; SourceLossWindow := 0; RestoreHost := "mysql-a" |}.

Lemma exec_run3 oracle (p : P promotion) :
  runs p (exec oracle p []).1 ((exec oracle p []).2.1.1, (exec oracle p []).2.1.2, (exec oracle p []).2.2).
Proof. pose proof (exec_run oracle p) as H. by destruct (exec oracle p []) as [? [[? ?] ?]]. Qed.

Lemma seven_wf : wf seven.
Proof. by eapply (parsed_wf (sid +:+ ":1-7")). Qed.

Lemma seven_bounded : bounded seven.
Proof.
  assert (seven = {[sid := [{| Start := 1; End_ := 7 |}]]}) as -> by (vm_compute; reflexivity).
  apply map_Forall_singleton. split; [done|]. repeat constructor; vm_compute; done.
Qed.

(** Every set the servers report is that one. *)
Lemma demo_issue {A} due fails (p : P A) : servers_issue (exec (env due fails) p []).1.
Proof.
  intros c raw set [h [= ->]]%exec_answers Hp.
  assert (set = seven) as -> by (unfold seven; by rewrite Hp). apply seven_bounded.
Qed.

Definition demo_promotion (from : PromotionStage) : P promotion := promoteVerifiedFrom seven from noHooks.

Lemma promotion_proven_witness :
  ev (SetSuperReadOnly Session false) true ∈ (exec sound (demo_promotion PromotionStageNotStarted) []).1.
Proof.
  destruct (promotion_proven seven PromotionStageNotStarted noHooks _ _ _ _ (exec_run3 sound (demo_promotion PromotionStageNotStarted)) seven_wf
    (demo_issue _ _ _)) as (_ & H & _); [|exact H].
  exists true. run_trace. ev_in.
Defined.

Lemma promotion_resumes_witness :
  ~ called (StopReplica Session) (exec sound (demo_promotion PromotionStageReplicaStopped) []).1.
Proof.
  destruct (promotion_resumes seven PromotionStageReplicaStopped noHooks _ _ _ _ (exec_run3 sound (demo_promotion PromotionStageReplicaStopped)))
    as (_ & H & _). intros Hc. by destruct (H Hc).
Defined.

Lemma wait_sound_witness :
  exists raw have, ev (GetGtidExecuted Candidate) (Some raw) ∈ (exec sound (waitForCandidateGTIDs 1 seven demo_opts) []).1
    /\ ParseGTIDSet raw = Ok have /\ forall sid n, has seven sid n -> has have sid n.
Proof.
  destruct (wait_sound 1 seven demo_opts _ _ seven_wf (demo_issue _ _ _) (exec_run sound _)) as (_ & H & _).
  apply H. by vm_compute.
Defined.

(** The candidate's [RESET REPLICA ALL] fails: the source is given back. *)
Lemma handoff_one_writer_witness : ~ called (SetReadOnly Session false) (exec stuck (ExecuteHandoff 1 demo_opts) []).1.
Proof.
  pose proof (handoff_one_writer 1 demo_opts _ _ (exec_run stuck _)) as H.
  assert ((exec stuck (ExecuteHandoff 1 demo_opts) []).2
    = Err (Aborted (PromoteFailed (Statement (ResetReplicaAll Session)) false) true)) as E by (by vm_compute).
  rewrite E in H. by destruct H as (_ & H & _).
Defined.

Lemma handoff_loses_nothing_witness : exists gtid, denotes gtid seven
  /\ (exec sound (ExecuteHandoff 1 demo_opts) []).2 = Ok gtid.
Proof.
  destruct (handoff_loses_nothing 1 demo_opts _ _ (exec_run sound _) (demo_issue _ _ _))
    as (t1 & rawS & fenced & t2 & gtid & t3 & Htr & _ & Hp & Hd & _ & Hr).
  { exists true. run_trace. ev_in. }
  exists gtid. assert (ev (GetGtidExecuted Source) (Some rawS) ∈ (exec sound (ExecuteHandoff 1 demo_opts) []).1) as Hin
    by (rewrite Htr; apply elem_of_app; right; left).
  apply exec_answers in Hin as [h [= ->]]. assert (fenced = seven) as -> by (unfold seven; by rewrite Hp).
  split; [done|]. destruct Hr as [Hr|[e Hr]]; [done|]. by vm_compute in Hr.
Defined.

Lemma emergency_order_witness : exists f k t,
  (exec sound (Execute true) []).1 = ev (SetSuperReadOnly Source true) f :: ev (KillAppConnections Source) k :: t.
Proof. destruct (emergency_order true _ _ (exec_run sound _)) as (H & _ & _). by apply H. Defined.
