(* ===== verification/GoTime.v ===== *)
(** * Go's [time] package: the calendar and RFC 3339

    The parts of [time] the durable records use. An instant is [Z], in
    nanoseconds since the zero time (January 1 of year 1, UTC), as in [Effects];
    the calendar is the proleptic Gregorian one. *)
From S2P Require Import Prelude GoStd Effects.

Local Open Scope Z_scope.

(** ** The calendar *)

Definition leap (y : Z) : bool :=
  (y mod 4 =? 0) && (negb (y mod 100 =? 0) || (y mod 400 =? 0)).

(** Days from the zero time to January 1 of year [y]. *)
Definition days_before_year (y : Z) : Z :=
  365 * (y - 1) + (y - 1) / 4 - (y - 1) / 100 + (y - 1) / 400.

(** [daysBefore]: days of a common year before month [m] (from 1; 13 is the
    year's length). *)
Definition days_before_month (m : Z) : Z :=
  nth (Z.to_nat (m - 1)) [0; 31; 59; 90; 120; 151; 181; 212; 243; 273; 304; 334; 365] 0.

(** [daysIn]. *)
Definition days_in (m y : Z) : Z :=
  if (m =? 2) && leap y then 29 else days_before_month (m + 1) - days_before_month m.

(** The day count of a date. *)
Definition days_of (y m d : Z) : Z :=
  days_before_year y + days_before_month m + (if leap y && (m >? 2) then 1 else 0) + (d - 1).

(** The month and day of day [yday] (from 0) of a year. *)
Definition month_day (isLeap : bool) (yday : Z) : Z * Z :=
  let find day :=
    let m := day / 31 + 1 in
    if day >=? days_before_month (m + 1) then (m + 1, day - days_before_month (m + 1) + 1)
    else (m, day - days_before_month m + 1) in
  if isLeap && (yday =? 59) then (2, 29)
  else find (if isLeap && (yday >? 59) then yday - 1 else yday).

(** The year and day of the year of a day count: the 400-, 100-, 4- and 1-year
    cycles, the last year of a 400- and of a 4-year cycle being a day longer. *)
Definition year_day (n : Z) : Z * Z :=
  let c400 := n / 146097 in
  let r := n mod 146097 in
  let c100 := Z.min (r / 36524) 3 in
  let r := r - 36524 * c100 in
  let c4 := r / 1461 in
  let r := r mod 1461 in
  let c1 := Z.min (r / 365) 3 in
  (400 * c400 + 100 * c100 + 4 * c4 + c1 + 1, r - 365 * c1).

(** [t.Date()], from the day count. *)
Definition civil (n : Z) : Z * Z * Z :=
  let '(y, yday) := year_day n in
  let '(m, d) := month_day (leap y) yday in
  (y, m, d).

(** ** Formatting *)

(** [appendInt(b, x, width)] for [x >= 0]: [width] digits, more when needed. *)
Fixpoint appendInt (width : nat) (x : Z) : string :=
  match width with
  | O => if x =? 0 then "" else FormatInt x
  | S width => appendInt width (x / 10) +:+ String (digit_char (x mod 10)) ""
  end.

Definition day_seconds : Z := 86400.

(** [t.UTC().Format(time.RFC3339)], from year 0 on. *)
Definition FormatRFC3339 (t : Z) : string :=
  let s := t / Second in
  let '(y, m, d) := civil (s / day_seconds) in
  let s := s mod day_seconds in
  appendInt 4 y +:+ "-" +:+ appendInt 2 m +:+ "-" +:+ appendInt 2 d +:+ "T" +:+
  appendInt 2 (s / 3600) +:+ ":" +:+ appendInt 2 (s / 60 mod 60) +:+ ":" +:+ appendInt 2 (s mod 60) +:+ "Z".

(** ** Parsing *)

(** [getnum(s, fixed)]: one or two digits, two when [fixed]. *)
Definition getnum (fixed : bool) (s : string) : option (Z * string) :=
  match s with
  | String a s1 =>
      if negb (is_digit a) then None
      else match s1 with
           | String b s2 =>
               if is_digit b then Some (10 * digit_val a + digit_val b, s2)
               else if fixed then None else Some (digit_val a, s1)
           | EmptyString => if fixed then None else Some (digit_val a, s1)
           end
  | EmptyString => None
  end.

(** [skip(value, prefix)] for a one-byte prefix other than a space. *)
Definition skip (c : ascii) (s : string) : option string :=
  match s with
  | String a s => if Ascii.eqb a c then Some s else None
  | EmptyString => None
  end.

(** Four digits of a year. *)
Definition getyear (s : string) : option (Z * string) :=
  match s with
  | String a (String b (String c (String d s))) =>
      if is_digit a && is_digit b && is_digit c && is_digit d
      then Some (1000 * digit_val a + 100 * digit_val b + 10 * digit_val c + digit_val d, s)
      else None
  | _ => None
  end.

Definition in_range (lo hi : Z) (r : option (Z * string)) : option (Z * string) :=
  match r with
  | Some (x, s) => if (lo <=? x) && (x <=? hi) then Some (x, s) else None
  | None => None
  end.

(** The digits at the head of a string: the first nine as nanoseconds ([scale]
    is the weight of the next one), and the rest of the string. *)
Fixpoint fraction (acc scale : Z) (s : string) : Z * string :=
  match s with
  | String c s' =>
      if is_digit c then fraction (acc + scale * digit_val c) (scale / 10) s' else (acc, s)
  | EmptyString => (acc, s)
  end.

(** [stdFracSecond9]: a comma or period and at least one digit, or nothing. *)
Definition getfraction (s : string) : Z * string :=
  match s with
  | String p (String c s') =>
      if (Ascii.eqb p "." || Ascii.eqb p ",") && is_digit c
      then fraction 0 100000000 (String c s') else (0, s)
  | _ => (0, s)
  end.

(** [Z07:00]: the offset from UTC in seconds. *)
Definition getzone (s : string) : option (Z * string) :=
  match s with
  | String "Z" s => Some (0, s)
  | String sign s =>
      match in_range 0 24 (getnum true s) with
      | Some (hr, s) =>
          match (match skip ":" s with Some s => in_range 0 60 (getnum true s) | None => None end) with
          | Some (mm, s) =>
              if Ascii.eqb sign "+" then Some ((hr * 60 + mm) * 60, s)
              else if Ascii.eqb sign "-" then Some (- ((hr * 60 + mm) * 60), s)
              else None
          | None => None
          end
      | None => None
      end
  | EmptyString => None
  end.

Notation "'let*' x := m 'in' k" := (match m with Some x => k | None => None end)
  (at level 10, x pattern, m at level 100, k at level 200) : go_scope.

(** [time.Parse(time.RFC3339Nano, value)]; [None] is an error. *)
Definition ParseRFC3339Nano (value : string) : option Z :=
  let* (y, s) := getyear value in
  let* s := skip "-" s in
  let* (m, s) := in_range 1 12 (getnum true s) in
  let* s := skip "-" s in
  let* (d, s) := getnum true s in
  let* s := skip "T" s in
  let* (hh, s) := in_range 0 23 (getnum false s) in
  let* s := skip ":" s in
  let* (mm, s) := in_range 0 59 (getnum true s) in
  let* s := skip ":" s in
  let* (ss, s) := in_range 0 59 (getnum true s) in
  let '(ns, s) := getfraction s in
  let* (offset, s) := getzone s in
  match s with
  | EmptyString =>
      if (1 <=? d) && (d <=? days_in m y)
      then Some ((days_of y m d * day_seconds + hh * 3600 + mm * 60 + ss - offset) * Second + ns)
      else None
  | _ => None
  end.

(** The layout ["20060102T150405Z"]: ISO 8601 basic form, UTC. *)
Definition FormatBasic (t : Z) : string :=
  let s := t / Second in
  let '(y, m, d) := civil (s / day_seconds) in
  let s := s mod day_seconds in
  appendInt 4 y +:+ appendInt 2 m +:+ appendInt 2 d +:+ "T" +:+
  appendInt 2 (s / 3600) +:+ appendInt 2 (s / 60 mod 60) +:+ appendInt 2 (s mod 60) +:+ "Z".

(** [time.Parse] with that layout; a fraction of a second after the seconds is
    accepted although the layout has none. *)
Definition ParseBasic (value : string) : option Z :=
  let* (y, s) := getyear value in
  let* (m, s) := in_range 1 12 (getnum true s) in
  let* (d, s) := getnum true s in
  let* s := skip "T" s in
  let* (hh, s) := in_range 0 23 (getnum false s) in
  let* (mm, s) := in_range 0 59 (getnum true s) in
  let* (ss, s) := in_range 0 59 (getnum true s) in
  let '(ns, s) := getfraction s in
  let* s := skip "Z" s in
  match s with
  | EmptyString =>
      if (1 <=? d) && (d <=? days_in m y)
      then Some ((days_of y m d * day_seconds + hh * 3600 + mm * 60 + ss) * Second + ns)
      else None
  | _ => None
  end.

(** [t.Truncate(time.Second)]. *)
Definition TruncateSecond (t : Z) : Z := t - t mod Second.

(** ** Theorems on the calendar *)

Lemma year_day_spec n : let '(y, yday) := year_day n in
  days_before_year y + yday = n /\ 0 <= yday < 365 + (if leap y then 1 else 0).
Proof.
  unfold year_day, days_before_year, leap.
  set (c400 := n / 146097). set (r := n mod 146097).
  assert (n = 146097 * c400 + r /\ 0 <= r < 146097) as [Hn Hr]
    by (unfold c400, r; split; [apply Z.div_mod; lia|apply Z.mod_pos_bound; lia]).
  clearbody c400 r. set (c100 := Z.min (r / 36524) 3). set (r1 := r - 36524 * c100).
  assert (0 <= c100 <= 3 /\ 0 <= r1 /\ (c100 < 3 -> r1 < 36524) /\ r1 < 36525) as (H1 & H2 & H3 & H4)
    by (unfold r1, c100; pose proof (Z.div_mod r 36524 ltac:(lia)); pose proof (Z.mod_pos_bound r 36524 ltac:(lia)); lia).
  assert (r = 36524 * c100 + r1) as Hr1 by (unfold r1; lia). clearbody c100 r1.
  set (c4 := r1 / 1461). set (r2 := r1 mod 1461).
  assert (r1 = 1461 * c4 + r2 /\ 0 <= r2 < 1461) as [Hr2 H5]
    by (unfold c4, r2; split; [apply Z.div_mod; lia|apply Z.mod_pos_bound; lia]).
  clearbody c4 r2. set (c1 := Z.min (r2 / 365) 3). set (yday := r2 - 365 * c1).
  assert (0 <= c1 <= 3 /\ 0 <= yday /\ (c1 < 3 -> yday < 365) /\ yday < 366) as (H6 & H7 & H8 & H9)
    by (unfold yday, c1; pose proof (Z.div_mod r2 365 ltac:(lia)); pose proof (Z.mod_pos_bound r2 365 ltac:(lia)); lia).
  assert (r2 = 365 * c1 + yday) as Hy by (unfold yday; lia). clearbody c1 yday.
  assert (0 <= c4 <= 24) by lia.
  set (y := 400 * c400 + 100 * c100 + 4 * c4 + c1 + 1).
  assert ((y - 1) / 4 = 100 * c400 + 25 * c100 + c4) as -> by (symmetry; apply (Z.div_unique _ _ _ c1); lia).
  assert ((y - 1) / 100 = 4 * c400 + c100) as -> by (symmetry; apply (Z.div_unique _ _ _ (4 * c4 + c1)); lia).
  assert ((y - 1) / 400 = c400) as -> by (symmetry; apply (Z.div_unique _ _ _ (100 * c100 + 4 * c4 + c1)); lia).
  split; [lia|]. split; [done|].
  assert (c1 < 3 \/ c1 = 3) as [?| ->] by lia; [destruct (_ && _); lia|].
  assert (y mod 4 =? 0 = true) as -> by (apply Z.eqb_eq; symmetry; apply (Z.mod_unique _ _ (100 * c400 + 25 * c100 + c4 + 1)); lia).
  assert (c4 < 24 \/ c4 = 24) as [?|Hc4] by lia.
  - assert (y mod 100 =? 0 = false) as -> by
      (apply Z.eqb_neq; rewrite <- (Z.mod_unique y 100 (4 * c400 + c100) (4 * c4 + 4)); lia). simpl. lia.
  - destruct (Z.eq_dec c100 3) as [Hc|Hc]; [|destruct (true && _); lia].
    assert (y mod 400 =? 0 = true) as -> by (apply Z.eqb_eq; symmetry; apply (Z.mod_unique _ _ (c400 + 1)); lia).
    rewrite orb_true_r. simpl. lia.
Qed.

(** Which day of the year: checked for every day of both kinds of year. *)
Definition month_day_ok (isLeap : bool) (yday : Z) : bool :=
  let '(m, d) := month_day isLeap yday in
  (1 <=? m) && (m <=? 12) && (1 <=? d)
  && (d <=? (if (m =? 2) && isLeap then 29 else days_before_month (m + 1) - days_before_month m))
  && (days_before_month m + (if isLeap && (m >? 2) then 1 else 0) + (d - 1) =? yday).

Lemma month_day_all : forall isLeap : bool,
  forallb (fun k => month_day_ok isLeap (Z.of_nat k)) (seq 0 (if isLeap then 366 else 365)) = true.
Proof. intros []; vm_compute; reflexivity. Qed.

Lemma civil_spec n : let '(y, m, d) := civil n in
  days_of y m d = n /\ 1 <= m <= 12 /\ 1 <= d <= days_in m y.
Proof.
  unfold civil. pose proof (year_day_spec n) as H. destruct (year_day n) as [y yday]. destruct H as [Hn Hy].
  pose proof (month_day_all (leap y)) as Hall. rewrite forallb_forall in Hall.
  specialize (Hall (Z.to_nat yday)). rewrite in_seq, Z2Nat.id in Hall by lia.
  assert (month_day_ok (leap y) yday = true) as Hok by (apply Hall; clear Hall; revert Hy; destruct (leap y); lia).
  unfold month_day_ok in Hok. destruct (month_day (leap y) yday) as [m d].
  rewrite !andb_true_iff, !Z.leb_le, Z.eqb_eq in Hok. unfold days_of, days_in. lia.
Qed.

(** ** Theorems on the codec *)

#[local] Ltac Zify.zify_post_hook ::= Z.to_euclidean_division_equations.

Lemma appendInt_2 x s : 0 <= x < 100 ->
  appendInt 2 x +:+ s = String (digit_char (x / 10)) (String (digit_char (x mod 10)) s).
Proof.
  intros Hx. cbn [appendInt]. rewrite (Z.div_small (x / 10)) by lia. simpl.
  by rewrite (Z.mod_small (x / 10)) by lia.
Qed.

Lemma appendInt_4 x s : 0 <= x < 10000 ->
  appendInt 4 x +:+ s = String (digit_char (x / 1000)) (String (digit_char (x / 100 mod 10))
    (String (digit_char (x / 10 mod 10)) (String (digit_char (x mod 10)) s))).
Proof.
  intros Hx. cbn [appendInt]. rewrite !Z.div_div by lia. rewrite (Z.div_small x) by lia. simpl.
  by rewrite (Z.mod_small (x / 1000)) by lia.
Qed.

Lemma getnum_pad x fixed s : 0 <= x < 100 -> getnum fixed (appendInt 2 x +:+ s) = Some (x, s).
Proof.
  intros Hx. rewrite appendInt_2 by done.
  destruct (digit_char_spec (x / 10)) as [D1 V1]; [split; [apply Z.div_pos; lia|apply Z.div_lt_upper_bound; lia]|].
  destruct (digit_char_spec (x mod 10)) as [D2 V2]; [apply Z.mod_pos_bound; lia|].
  simpl. rewrite D1, D2, V1, V2. simpl. by rewrite <- (Z.div_mod x 10).
Qed.

Lemma getyear_pad x s : 0 <= x < 10000 -> getyear (appendInt 4 x +:+ s) = Some (x, s).
Proof.
  intros Hx. rewrite appendInt_4 by done.
  destruct (digit_char_spec (x / 1000)) as [D1 V1]; [split; [apply Z.div_pos; lia|apply Z.div_lt_upper_bound; lia]|].
  destruct (digit_char_spec (x / 100 mod 10)) as [D2 V2]; [apply Z.mod_pos_bound; lia|].
  destruct (digit_char_spec (x / 10 mod 10)) as [D3 V3]; [apply Z.mod_pos_bound; lia|].
  destruct (digit_char_spec (x mod 10)) as [D4 V4]; [apply Z.mod_pos_bound; lia|].
  unfold getyear. rewrite D1, D2, D3, D4, V1, V2, V3, V4. simpl. do 2 f_equal.
  pose proof (Z.div_mod x 10 ltac:(lia)). pose proof (Z.div_mod (x / 10) 10 ltac:(lia)).
  pose proof (Z.div_mod (x / 100) 10 ltac:(lia)). rewrite !Z.div_div in * by lia. simpl in *. lia.
Qed.

Lemma skip_one c s : skip c (String c "" +:+ s) = Some s.
Proof. simpl. by rewrite Ascii.eqb_refl. Qed.

Lemma in_range_in lo hi x s : lo <= x <= hi -> in_range lo hi (Some (x, s)) = Some (x, s).
Proof. intros [?%Z.leb_le ?%Z.leb_le]. simpl. by rewrite H, H0. Qed.

(** The instants whose year has four digits. *)
Definition four_digit_year (t : Z) : Prop := 0 <= t < days_before_year 10000 * day_seconds * Second.

Lemma year_range n : 0 <= n < days_before_year 10000 -> let '(y, m, d) := civil n in 1 <= y < 10000.
Proof.
  intros Hn. unfold civil. pose proof (year_day_spec n) as H. destruct (year_day n) as [y yday].
  destruct (month_day (leap y) yday) as [m d]. destruct H as [H Hy].
  assert (0 <= yday < 366) as Hy' by (destruct (leap y); lia). clear Hy. unfold days_before_year in *.
  change (365 * (10000 - 1) + (10000 - 1) / 4 - (10000 - 1) / 100 + (10000 - 1) / 400) with 3652059 in Hn.
  split.
  - assert (0 <= y - 1 \/ y - 1 <= -1) as [?|?] by lia; [lia|exfalso]. lia.
  - assert (y - 1 < 9999 \/ 9999 <= y - 1) as [?|?] by lia; [lia|exfalso]. lia.
Qed.

(** The fields of an instant, as both layouts print them. *)
Lemma fields t : four_digit_year t -> exists y m d hh mm ss,
  FormatRFC3339 t = appendInt 4 y +:+ "-" +:+ appendInt 2 m +:+ "-" +:+ appendInt 2 d +:+ "T" +:+
    appendInt 2 hh +:+ ":" +:+ appendInt 2 mm +:+ ":" +:+ appendInt 2 ss +:+ "Z"
  /\ FormatBasic t = appendInt 4 y +:+ appendInt 2 m +:+ appendInt 2 d +:+ "T" +:+
    appendInt 2 hh +:+ appendInt 2 mm +:+ appendInt 2 ss +:+ "Z"
  /\ 1 <= y < 10000 /\ 1 <= m <= 12 /\ 1 <= d <= 31 /\ d <= days_in m y
  /\ 0 <= hh < 24 /\ 0 <= mm < 60 /\ 0 <= ss < 60
  /\ (days_of y m d * day_seconds + hh * 3600 + mm * 60 + ss) * Second = TruncateSecond t.
Proof.
  unfold four_digit_year. intros Ht. unfold FormatRFC3339, FormatBasic.
  set (secs := t / Second). set (n := secs / day_seconds). set (s := secs mod day_seconds).
  assert (0 <= s < day_seconds) as Hs by (apply Z.mod_pos_bound; done).
  assert (0 <= n < days_before_year 10000) as Hn.
  { unfold n, secs. rewrite Z.div_div by done. split; [apply Z.div_pos; [lia|done]|].
    apply Z.div_lt_upper_bound; [done|]. unfold Second, day_seconds in *. lia. }
  pose proof (civil_spec n) as Hc. pose proof (year_range n Hn) as Hy.
  destruct (civil n) as [[y m] d]. destruct Hc as (Hd & Hm & Hdd).
  assert (1 <= d <= 31) as Hd31.
  { split; [lia|]. etransitivity; [apply Hdd|]. unfold days_in. destruct (_ && _); [lia|].
    assert (m = 1 \/ m = 2 \/ m = 3 \/ m = 4 \/ m = 5 \/ m = 6 \/ m = 7 \/ m = 8 \/ m = 9 \/ m = 10 \/ m = 11 \/ m = 12)
      as Hcases by lia. by repeat destruct Hcases as [->|Hcases]; [..|subst m]. }
  unfold day_seconds in *.
  exists y, m, d, (s / 3600), (s / 60 mod 60), (s mod 60). split; [done|]. split; [done|].
  split; [lia|]. split; [lia|]. split; [lia|]. split; [lia|].
  split; [split; [apply Z.div_pos; lia|apply Z.div_lt_upper_bound; lia]|].
  split; [apply Z.mod_pos_bound; lia|]. split; [apply Z.mod_pos_bound; lia|].
  rewrite Hd. unfold TruncateSecond.
  assert (secs = 86400 * n + s) as Hsecs by (apply Z.div_mod; done).
  assert (t = Second * secs + t mod Second) as Htt by (apply Z.div_mod; done).
  assert (s / 3600 * 3600 + s / 60 mod 60 * 60 + s mod 60 = s) as Hsum by (clear -s; clearbody s; lia).
  clearbody s n secs. lia.
Qed.

Ltac parse_fields := rewrite ?getyear_pad, ?getnum_pad, ?in_range_in, ?skip_one by lia; cbv iota beta.

(** Parsing a formatted instant truncates it to the second. *)
Lemma rfc3339_round_trip t : four_digit_year t -> ParseRFC3339Nano (FormatRFC3339 t) = Some (TruncateSecond t).
Proof.
  intros (y & m & d & hh & mm & ss & -> & _ & Hy & Hm & Hd & Hdi & Hh & Hmm & Hss & <-)%fields.
  unfold ParseRFC3339Nano. do 6 parse_fields. cbn [getfraction getzone].
  assert ((1 <=? d) && (d <=? days_in m y) = true) as -> by (rewrite andb_true_iff, !Z.leb_le; lia).
  f_equal. lia.
Qed.

Lemma basic_round_trip t : four_digit_year t -> ParseBasic (FormatBasic t) = Some (TruncateSecond t).
Proof.
  intros (y & m & d & hh & mm & ss & _ & -> & Hy & Hm & Hd & Hdi & Hh & Hmm & Hss & <-)%fields.
  unfold ParseBasic. do 6 parse_fields. cbn [getfraction].
  change "Z" with (String "Z" "" +:+ ""). rewrite skip_one.
  assert ((1 <=? d) && (d <=? days_in m y) = true) as -> by (rewrite andb_true_iff, !Z.leb_le; lia).
  f_equal. lia.
Qed.

Lemma TruncateSecond_idemp t : TruncateSecond (TruncateSecond t) = TruncateSecond t.
Proof. unfold TruncateSecond, Second. lia. Qed.

Lemma TruncateSecond_year t : four_digit_year t -> four_digit_year (TruncateSecond t).
Proof. unfold four_digit_year, TruncateSecond, Second. lia. Qed.

(** Formatting drops the fraction of a second. *)
Lemma FormatRFC3339_truncate t : FormatRFC3339 (TruncateSecond t) = FormatRFC3339 t.
Proof.
  unfold FormatRFC3339. assert (TruncateSecond t / Second = t / Second) as -> by (unfold TruncateSecond, Second; lia).
  done.
Qed.

Lemma FormatRFC3339_nonempty t : FormatRFC3339 t <> "".
Proof.
  unfold FormatRFC3339. destruct (civil _) as [[y m] d]. destruct (appendInt 4 y); done.
Qed.
