(* ===== verification/FailoverRecord.v ===== *)
(** * The durable failover record

    [internal/controller/failover_state.go]: the time and target of the last
    promotion, kept twice - in the group's status and in its annotations - so that a
    restarted operator still enforces the failover cooldown. *)
From S2P Require Import Prelude GoStd Effects GoTime.

Local Open Scope Z_scope.

#[local] Arguments prog_bind {Op Ans A B} _ _ : simpl never.

Module FailoverRecords.

(** ** Constants *)

Definition LastFailoverAnnotation : string := "bloodraven.shipstream.io/last-failover".
Definition LastFailoverTargetAnnotation : string := "bloodraven.shipstream.io/last-failover-target".
Definition PromotionGtidExecutedAnnotation : string := "bloodraven.shipstream.io/promotion-gtid-executed".
Definition PromotionGtidExecutedForAnnotation : string := "bloodraven.shipstream.io/promotion-gtid-executed-for".

Definition FailoverClockSkewGrace : Z := 300 * Second.

Definition maxPromotionGtidAnnotationBytes : Z := 65536.

(** ** The record *)

Record FailoverRecord : Type := {
  LastFailover : Z;
  LastFailoverTarget : string;
  PromotionGtidExecuted : string
}.

Definition zeroRecord : FailoverRecord :=
  {| LastFailover := 0; LastFailoverTarget := ""; PromotionGtidExecuted := "" |}.

#[export] Instance FailoverRecord_eq_dec : EqDecision FailoverRecord.
Proof. solve_decision. Defined.

Definition isZeroTime (t : Z) : bool := t =? 0.

Definition IsZero (r : FailoverRecord) : bool :=
  isZeroTime (LastFailover r) && bool_decide (LastFailoverTarget r = "").

Definition sameEvent (r o : FailoverRecord) : bool :=
  (TruncateSecond (LastFailover r) =? TruncateSecond (LastFailover o))
  && bool_decide (LastFailoverTarget r = LastFailoverTarget o).

Definition encodableWatermark (r : FailoverRecord) : string :=
  if Z.of_nat (String.length (PromotionGtidExecuted r)) >? maxPromotionGtidAnnotationBytes then ""
  else PromotionGtidExecuted r.

Definition failoverStampFutureDated (stored now : Z) : bool :=
  negb (isZeroTime now) && negb (isZeroTime stored) && (stored >? now + FailoverClockSkewGrace).

Definition supersedes (r stored : FailoverRecord) (now : Z) : bool :=
  let at_ := TruncateSecond (LastFailover r) in
  let st := TruncateSecond (LastFailover stored) in
  if IsZero stored then true
  else if failoverStampFutureDated st now then true
  else if st >? at_ then false
  else if st <? at_ then true
  else if bool_decide (LastFailoverTarget stored <> LastFailoverTarget r) then true
  else bool_decide (PromotionGtidExecuted stored = "") && bool_decide (encodableWatermark r <> "").

(** ** Annotations *)

Abbreviation annotations := (gmap string string).

(** [m[k]]: "" when absent. *)
Definition at_key (m : annotations) (k : string) : string := default "" (m !! k).

Definition failoverStampFormat (t : Z) : string := FormatRFC3339 t.

Definition failoverWatermarkBinding (at_ : Z) (target : string) : string :=
  failoverStampFormat at_ +:+ " " +:+ target.

Inductive record_error : Type :=
| TargetWithoutTimestamp
| EncodeZero
| TimestampWithoutTarget
| GetFailed
| PatchFailed
| KeptConflicting
| TargetUnpaired
| TimestampUnpaired
| UnparseableStamp (raw : string).

Definition FailoverRecordAnnotations (rec : FailoverRecord) : res record_error annotations :=
  if isZeroTime (LastFailover rec) then Err EncodeZero
  else if bool_decide (LastFailoverTarget rec = "") then Err TimestampWithoutTarget
  else
    let out : annotations :=
      <[LastFailoverTargetAnnotation := LastFailoverTarget rec]>
        {[LastFailoverAnnotation := failoverStampFormat (LastFailover rec)]} in
    let w := encodableWatermark rec in
    Ok (if bool_decide (w <> "") then
          <[PromotionGtidExecutedForAnnotation :=
              failoverWatermarkBinding (LastFailover rec) (LastFailoverTarget rec)]>
            (<[PromotionGtidExecutedAnnotation := w]> out)
        else out).

Definition FailoverRecordFromAnnotations (m : annotations) : res record_error FailoverRecord :=
  if bool_decide (m = ∅) then Ok zeroRecord
  else
    let target := at_key m LastFailoverTargetAnnotation in
    let raw := at_key m LastFailoverAnnotation in
    if bool_decide (raw = "") then
      if bool_decide (target <> "") then Err TargetUnpaired
      else Ok {| LastFailover := 0; LastFailoverTarget := target; PromotionGtidExecuted := "" |}
    else if bool_decide (target = "") then Err TimestampUnpaired
    else
      match ParseRFC3339Nano raw with
      | None => Err (UnparseableStamp raw)
      | Some t =>
          let at_ := TruncateSecond t in
          Ok {| LastFailover := at_;
                LastFailoverTarget := target;
                PromotionGtidExecuted :=
                  if bool_decide (at_key m PromotionGtidExecutedForAnnotation
                                  = failoverWatermarkBinding at_ target)
                  then at_key m PromotionGtidExecutedAnnotation else "" |}
      end.

(** ** The group's object *)

(** The parts of a [MysqlFailoverGroup] the record uses. *)
Record group : Type := {
  Annotations : annotations;
  ResourceVersion : Z;
  Status_LastFailover : option Z;
  Status_LastFailoverTarget : string;
  Status_PromotionGtidExecuted : string;
  Sites : list string
}.

#[export] Instance group_eta : Eta group := fun g =>
  Build_group (Annotations g) (ResourceVersion g) (Status_LastFailover g) (Status_LastFailoverTarget g)
    (Status_PromotionGtidExecuted g) (Sites g).

#[export] Instance group_eq_dec : EqDecision group.
Proof. solve_decision. Defined.

(** ** Writing the record *)

Inductive patch_result : Type := PatchOk | PatchConflict | PatchError.

(** [reader.Get], [clock.Now], the merge patch from [base] to [base] with the given
    annotations, conditioned on [base]'s resource version, and the raw merge patch
    that deletes annotation keys. *)
Inductive op : Type :=
| Get
| Now
| Patch (base : group) (modified : annotations)
| DeleteAnnotations (keys : list string).

#[export] Instance op_eq_dec : EqDecision op.
Proof. solve_decision. Defined.

Definition ans (o : op) : Type :=
  match o with
  | Get => option group
  | Now => Z
  | Patch _ _ => patch_result
  | DeleteAnnotations _ => bool
  end.

Abbreviation P := (prog ans).

Definition failoverStateConflictRetries : nat := 3.

(** The object's annotations with the owned keys deleted and the encoded ones set. *)
Definition replace_owned (ann : annotations) (encoded : option annotations) : annotations :=
  default ∅ encoded ∪
    delete PromotionGtidExecutedForAnnotation (delete PromotionGtidExecutedAnnotation
      (delete LastFailoverTargetAnnotation (delete LastFailoverAnnotation ann))).

(** Whether the attempt goes on to the patch: [encoded] is nil for a clear. *)
Definition attempt_writes (encoded : option annotations) (rec : FailoverRecord) (cur : group) : P bool :=
  match encoded with
  | None => Ret true
  | Some _ =>
      match FailoverRecordFromAnnotations (Annotations cur) with
      | Err _ => Ret true
      | Ok stored => let! now := call Now in Ret (supersedes rec stored now)
      end
  end.

Fixpoint record_attempts (n : nat) (encoded : option annotations) (rec : FailoverRecord)
  : P (option record_error) :=
  match n with
  | O => Ret (Some KeptConflicting)
  | S n =>
      let! cur := call Get in
      match (cur : option group) with
      | None => Ret (Some GetFailed)
      | Some cur =>
          let! write := attempt_writes encoded rec cur in
          if negb write then Ret None
          else
            let! r := call (Patch cur (replace_owned (Annotations cur) encoded)) in
            match (r : patch_result) with
            | PatchConflict => record_attempts n encoded rec
            | PatchOk => Ret None
            | PatchError => Ret (Some PatchFailed)
            end
      end
  end.

Definition RecordFailoverState (rec : FailoverRecord) : P (option record_error) :=
  if isZeroTime (LastFailover rec) then
    if bool_decide (LastFailoverTarget rec <> "") then Ret (Some TargetWithoutTimestamp)
    else record_attempts failoverStateConflictRetries None rec
  else
    match FailoverRecordAnnotations rec with
    | Err e => Ret (Some e)
    | Ok encoded => record_attempts failoverStateConflictRetries (Some encoded) rec
    end.

Definition ClearFailoverState : P (option record_error) := RecordFailoverState zeroRecord.

Definition plannedFailoverInternalAnnotations : list string :=
  ["bloodraven.shipstream.io/planned-failover-status-fence";
   "bloodraven.shipstream.io/planned-failover-terminal";
   "bloodraven.shipstream.io/acknowledge-planned-failover-hold";
   "bloodraven.shipstream.io/planned-failover-stall-since";
   "bloodraven.shipstream.io/planned-failover-manager-absent-since"].

Definition ClearPlannedFailoverAnnotations : P bool :=
  call (DeleteAnnotations plannedFailoverInternalAnnotations).

(** ** Reading the record back *)

Definition FailoverRecordFromStatus (fg : group) : FailoverRecord :=
  {| LastFailover :=
       match Status_LastFailover fg with
       | Some t => if isZeroTime t then 0 else TruncateSecond t
       | None => 0
       end;
     LastFailoverTarget := Status_LastFailoverTarget fg;
     PromotionGtidExecuted := Status_PromotionGtidExecuted fg |}.

(** Why a copy was ignored. *)
Inductive copy_error : Type :=
| Unreadable (e : record_error)
| FutureDated (t : Z)
| UnknownTarget (target : string).

Definition failoverTargetInSpec (fg : group) (target : string) : bool :=
  existsb (fun name => bool_decide (name = target)) (Sites fg).

Definition NewerFailoverRecord (a b : FailoverRecord) : FailoverRecord :=
  if LastFailover b >? LastFailover a then b else a.

(** One copy's checks, in order: a copy dated past [limit], then a target that is
    not a site, is zeroed with its error; [unread] is the copy's parse error. *)
Definition checked_copy (fg : group) (limit : Z) (unread : option copy_error) (rec : FailoverRecord)
  : FailoverRecord * list copy_error :=
  match unread with
  | Some e => (rec, [e])
  | None =>
      let '(rec, errs) :=
        if negb (isZeroTime (LastFailover rec)) && (LastFailover rec >? limit)
        then (zeroRecord, [FutureDated (LastFailover rec)]) else (rec, []) in
      if bool_decide (LastFailoverTarget rec <> "") && negb (failoverTargetInSpec fg (LastFailoverTarget rec))
      then (zeroRecord, errs ++ [UnknownTarget (LastFailoverTarget rec)]) else (rec, errs)
  end.

(** The winner, whether it came from the annotations, and the errors of the status
    and of the annotation copy (nil error: both lists empty). *)
Definition EffectiveFailoverRecord (fg : group) (now : Z)
  : FailoverRecord * bool * (list copy_error * list copy_error) :=
  let limit := now + FailoverClockSkewGrace in
  let '(statusRecord, statusErrs) := checked_copy fg limit None (FailoverRecordFromStatus fg) in
  let '(oobRecord, oobErrs) :=
    match FailoverRecordFromAnnotations (Annotations fg) with
    | Ok rec => checked_copy fg limit None rec
    | Err e => checked_copy fg limit (Some (Unreadable e)) zeroRecord
    end in
  let winner := NewerFailoverRecord statusRecord oobRecord in
  (winner, bool_decide (winner <> statusRecord), (statusErrs, oobErrs)).

End FailoverRecords.

Import FailoverRecords.

(** ** Specification vocabulary *)

(** The keys the recorder owns. *)
Definition owned (k : string) : bool :=
  bool_decide (k ∈ [LastFailoverAnnotation; LastFailoverTargetAnnotation;
                    PromotionGtidExecutedAnnotation; PromotionGtidExecutedForAnnotation]).

(** What a reader gets back from the annotations of [rec]. *)
Definition stored_form (rec : FailoverRecord) : FailoverRecord :=
  {| LastFailover := TruncateSecond (LastFailover rec);
     LastFailoverTarget := LastFailoverTarget rec;
     PromotionGtidExecuted := encodableWatermark rec |}.

(** A record of a promotion: a time RFC 3339 can write, and a target. *)
Definition promotion (rec : FailoverRecord) : Prop :=
  LastFailover rec <> 0 /\ four_digit_year (LastFailover rec) /\ LastFailoverTarget rec <> "".

(** The stamp of the annotations' record. *)
Definition stamped (m : annotations) (t : Z) : Prop :=
  exists stored, FailoverRecordFromAnnotations m = Ok stored /\ LastFailover stored = t.

(** A write by a recorder of some promotion: it replaces a record that is corrupt or
    that the promotion supersedes by the writer's clock. *)
Definition recorder_write (before after : annotations) (rec : FailoverRecord) (now : option Z) : Prop :=
  exists encoded, FailoverRecordAnnotations rec = Ok encoded /\ after = replace_owned before (Some encoded)
    /\ match FailoverRecordFromAnnotations before with
       | Err _ => True
       | Ok stored => exists t, now = Some t /\ supersedes rec stored t = true
       end.

(** The API server over time: other writers' changes ([srv_other]) move the resource
    version up, a read returns the object as it is, and a conditioned patch is
    applied only to the version it was made from; a failed patch may or may not have
    been applied. [ws] lists the annotations before and after each patch applied. *)
Inductive server : group -> list (event ans) -> list (annotations * annotations) -> group -> Prop :=
| srv_done g : server g [] [] g
| srv_other g g1 tr ws g' :
    ResourceVersion g < ResourceVersion g1 -> server g1 tr ws g' -> server g tr ws g'
| srv_get g x tr ws g' :
    x = Some g \/ x = None -> server g tr ws g' -> server g (ev Get x :: tr) ws g'
| srv_now g t tr ws g' : server g tr ws g' -> server g (ev Now t :: tr) ws g'
| srv_applied g base ann r g1 tr ws g' :
    ResourceVersion base = ResourceVersion g -> r <> PatchConflict ->
    ResourceVersion g < ResourceVersion g1 -> Annotations g1 = ann ->
    server g1 tr ws g' -> server g (ev (Patch base ann) r :: tr) ((Annotations g, ann) :: ws) g'
| srv_rejected g base ann r tr ws g' :
    r <> PatchOk -> server g tr ws g' -> server g (ev (Patch base ann) r :: tr) ws g'.

(** ** Lemmas on the codec *)

Lemma owned_false k : owned k = false <-> k <> LastFailoverAnnotation /\ k <> LastFailoverTargetAnnotation
  /\ k <> PromotionGtidExecutedAnnotation /\ k <> PromotionGtidExecutedForAnnotation.
Proof. unfold owned. rewrite bool_decide_eq_false, !not_elem_of_cons. split; [tauto|]. pose proof (not_elem_of_nil k). tauto. Qed.

(** The four owned keys are distinct. *)
Lemma keys_distinct : NoDup [LastFailoverAnnotation; LastFailoverTargetAnnotation;
                             PromotionGtidExecutedAnnotation; PromotionGtidExecutedForAnnotation].
Proof. apply (bool_decide_unpack _). by vm_compute. Qed.

Ltac keys :=
  repeat first
    [ rewrite lookup_insert_eq
    | rewrite lookup_insert_ne by (by vm_compute)
    | rewrite lookup_delete_eq
    | rewrite lookup_delete_ne by (by vm_compute)
    | rewrite lookup_singleton_eq
    | rewrite lookup_singleton_ne by (by vm_compute) ].

Lemma encoded_keys rec m : FailoverRecordAnnotations rec = Ok m ->
  LastFailover rec <> 0 /\ LastFailoverTarget rec <> ""
  /\ m !! LastFailoverAnnotation = Some (failoverStampFormat (LastFailover rec))
  /\ m !! LastFailoverTargetAnnotation = Some (LastFailoverTarget rec)
  /\ (forall k, owned k = false -> m !! k = None)
  /\ (if bool_decide (encodableWatermark rec = "") then
        m !! PromotionGtidExecutedAnnotation = None /\ m !! PromotionGtidExecutedForAnnotation = None
      else
        m !! PromotionGtidExecutedAnnotation = Some (encodableWatermark rec)
        /\ m !! PromotionGtidExecutedForAnnotation
           = Some (failoverWatermarkBinding (LastFailover rec) (LastFailoverTarget rec))).
Proof.
  unfold FailoverRecordAnnotations, isZeroTime.
  destruct (Z.eqb_spec (LastFailover rec) 0); [done|]. case_bool_decide as Ht; [done|]. intros [= <-].
  split; [done|]. split; [done|]. case_bool_decide as Hw; keys.
  - rewrite bool_decide_false by done. keys. split; [done|]. split; [done|]. split; [|done].
    intros k (?&?&?&?)%owned_false. by rewrite !lookup_insert_ne, lookup_singleton_ne by congruence.
  - rewrite bool_decide_true by done. keys. split; [done|]. split; [done|]. split; [|done].
    intros k (?&?&?&?)%owned_false. by rewrite lookup_insert_ne, lookup_singleton_ne by congruence.
Qed.

(** Replacing the owned keys: the encoded ones read back, the others stay. *)
Lemma replace_owned_lookup ann encoded k :
  replace_owned ann encoded !! k = if owned k then default ∅ encoded !! k
    else match default ∅ encoded !! k with Some v => Some v | None => ann !! k end.
Proof.
  unfold replace_owned. rewrite lookup_union. destruct (owned k) eqn:Hk.
  - unfold owned in Hk. apply bool_decide_eq_true in Hk.
    assert (delete PromotionGtidExecutedForAnnotation (delete PromotionGtidExecutedAnnotation
      (delete LastFailoverTargetAnnotation (delete LastFailoverAnnotation ann))) !! k = None) as ->.
    { rewrite !elem_of_cons in Hk. destruct Hk as [->|[->|[->|[->|[]%not_elem_of_nil]]]]; by keys. }
    by destruct (default ∅ encoded !! k).
  - apply owned_false in Hk as (?&?&?&?). rewrite !lookup_delete_ne by congruence.
    by destruct (default ∅ encoded !! k), (ann !! k).
Qed.

Lemma replace_owned_key ann encoded k :
  owned k = true -> replace_owned ann (Some encoded) !! k = encoded !! k.
Proof. intros Hk. by rewrite replace_owned_lookup, Hk. Qed.

Lemma binding_truncate t target :
  failoverWatermarkBinding (TruncateSecond t) target = failoverWatermarkBinding t target.
Proof. unfold failoverWatermarkBinding, failoverStampFormat. by rewrite FormatRFC3339_truncate. Qed.

(** Reading the record of an object whose owned keys were replaced. *)
Lemma read_back rec encoded ann :
  promotion rec -> FailoverRecordAnnotations rec = Ok encoded ->
  FailoverRecordFromAnnotations (replace_owned ann (Some encoded)) = Ok (stored_form rec).
Proof.
  intros (H0 & Hy & Ht) He. apply encoded_keys in He as (_ & _ & Hs & Htg & _ & Hw).
  unfold FailoverRecordFromAnnotations, at_key. rewrite !replace_owned_key by (by vm_compute).
  rewrite Hs, Htg. cbn [default from_option id].
  rewrite bool_decide_false; cycle 1.
  { intros He. assert (replace_owned ann (Some encoded) !! LastFailoverAnnotation = None) as Hn by (by rewrite He).
    rewrite replace_owned_key in Hn by (by vm_compute). congruence. }
  rewrite bool_decide_false by (apply FormatRFC3339_nonempty). rewrite bool_decide_false by done.
  unfold failoverStampFormat at 1. rewrite rfc3339_round_trip by done.
  rewrite TruncateSecond_idemp, binding_truncate. unfold stored_form. do 2 f_equal.
  case_bool_decide as Hw0.
  - destruct Hw as [-> ->]. cbn [default from_option id]. rewrite Hw0. by case_bool_decide.
  - destruct Hw as [-> ->]. cbn [default from_option id]. by rewrite bool_decide_true.
Qed.

(** ** Lemmas on the writer *)

(** Every patch is made from the object of the latest read. *)
Fixpoint locked (last : option group) (tr : list (event ans)) : Prop :=
  match tr with
  | [] => True
  | existT o x :: tr =>
      match o return ans o -> Prop with
      | Get => fun x => locked (match x with Some g => Some g | None => last end) tr
      | Patch base _ => fun _ => last = Some base /\ locked last tr
      | _ => fun _ => locked last tr
      end x
  end.

(** A patch that may have been applied. *)
Definition may_apply (e : event ans) : bool :=
  let '(existT o x) := e in
  match o return ans o -> bool with
  | Patch _ _ => fun x => match x with PatchConflict => false | _ => true end
  | _ => fun _ => false
  end x.

Definition is_get (o : op) : bool := match o with Get => true | _ => false end.

(** The optimistic lock: a patch is applied to the very object it was made from. *)
Lemma server_locked g tr ws g' : server g tr ws g' -> forall last,
  (forall b, last = Some b -> ResourceVersion b <= ResourceVersion g /\ (ResourceVersion b = ResourceVersion g -> b = g)) ->
  locked last tr ->
  (forall before after, (before, after) ∈ ws ->
     exists base x, ev (Patch base after) x ∈ tr /\ Annotations base = before)
  /\ (length ws <= length (List.filter may_apply tr))%nat.
Proof.
  induction 1 as [g|g g1 tr ws g' Hlt _ IH|g x tr ws g' Hx _ IH|g t tr ws g' _ IH
    |g base ann r g1 tr ws g' Hrv Hr Hlt Ha _ IH|g base ann r tr ws g' Hr _ IH]; intros last Hlast Hl.
  - split; [by intros ? ? ?%not_elem_of_nil|done].
  - apply (IH last); [|done]. intros b Hb. destruct (Hlast b Hb). lia.
  - simpl in Hl. set (last' := match x with Some g => Some g | None => last end) in Hl.
    assert (forall b, last' = Some b -> ResourceVersion b <= ResourceVersion g /\ (ResourceVersion b = ResourceVersion g -> b = g))
      as Hlast' by (destruct Hx as [->| ->]; [intros b [= ->]; split; [lia|done]|exact Hlast]).
    destruct (IH _ Hlast' Hl) as [H1 H2]. split; [|done]. intros before after Hin. destruct (H1 _ _ Hin) as (base & y & ? & ?).
    exists base, y. split; [by right|done].
  - simpl in Hl. destruct (IH _ Hlast Hl) as [H1 H2]. split; [|done].
    intros before after Hin. destruct (H1 _ _ Hin) as (base & y & ? & ?). exists base, y. split; [by right|done].
  - simpl in Hl. destruct Hl as [-> Hl]. assert (base = g) as -> by (by apply Hlast).
    assert (forall b, Some g = Some b -> ResourceVersion b <= ResourceVersion g1 /\ (ResourceVersion b = ResourceVersion g1 -> b = g1))
      as Hlast' by (intros b [= ->]; lia).
    destruct (IH _ Hlast' Hl) as [H1 H2].
    split; [|destruct r; simpl; [lia|done|lia]].
    intros before after [[= -> ->]|Hin]%elem_of_cons; [exists g, r; split; [left|done]|].
    destruct (H1 _ _ Hin) as (base & y & ? & ?). exists base, y. split; [by right|done].
  - simpl in Hl. destruct Hl as [-> Hl]. destruct (IH _ Hlast Hl) as [H1 H2].
    split; [|simpl; destruct r; simpl; lia].
    intros before after Hin. destruct (H1 _ _ Hin) as (base' & y & ? & ?). exists base', y. split; [by right|done].
Qed.

(** The check that lets an attempt write. *)
Definition permitted (encoded : option annotations) (rec : FailoverRecord) (base : group)
    (tr : list (event ans)) : Prop :=
  match encoded, FailoverRecordFromAnnotations (Annotations base) with
  | Some _, Ok stored => exists t, ev Now t ∈ tr /\ supersedes rec stored t = true
  | _, _ => True
  end.

Lemma attempt_writes_runs encoded rec cur tr b : runs (attempt_writes encoded rec cur) tr b ->
  (tr = [] \/ exists t, tr = [ev Now t])
  /\ (b = true -> permitted encoded rec cur tr)
  /\ (b = false -> exists stored t, FailoverRecordFromAnnotations (Annotations cur) = Ok stored
        /\ tr = [ev Now t] /\ supersedes rec stored t = false).
Proof.
  unfold attempt_writes, permitted. intros H.
  destruct encoded; [|run_step H; split; [by left|]; split; [done|discriminate]].
  destruct (FailoverRecordFromAnnotations (Annotations cur)) as [stored|e];
    [|run_step H; split; [by left|]; split; [done|discriminate]].
  run_step H. apply runs_Ret_iff in H as [-> ->]. split; [right; by exists x|]. split; intros Hs.
  - exists x. split; [left|done].
  - by exists stored, x.
Qed.

(** The attempts' readings of the clock. *)
Definition clock_only (t : list (event ans)) : Prop := t = [] \/ exists s, t = [ev Now s].

(** One attempt: no read; a record already as new; a patch; a conflict and a retry. *)
Lemma record_attempts_cases n encoded rec tr r : runs (record_attempts (S n) encoded rec) tr r ->
  (tr = [ev Get None] /\ r = Some GetFailed)
  \/ exists cur t, clock_only t /\
      ((tr = ev Get (Some cur) :: t /\ r = None
          /\ exists stored s, FailoverRecordFromAnnotations (Annotations cur) = Ok stored
               /\ t = [ev Now s] /\ supersedes rec stored s = false)
       \/ permitted encoded rec cur t /\ exists x rest,
            tr = ev Get (Some cur) :: t ++ ev (Patch cur (replace_owned (Annotations cur) encoded)) x :: rest
            /\ match x with
               | PatchConflict => runs (record_attempts n encoded rec) rest r
               | PatchOk => rest = [] /\ r = None
               | PatchError => rest = [] /\ r = Some PatchFailed
               end).
Proof.
  simpl. intros H. apply (runs_bind_iff (call Get)) in H as (t0 & cur & t & -> & ->%runs_call_iff & H).
  destruct cur as [cur|]; [|apply runs_Ret_iff in H as [-> ->]; by left]. right.
  apply runs_bind_iff in H as (t1 & w & t2 & -> & H1 & H).
  apply attempt_writes_runs in H1 as (Ht1 & Hw & Hnw). exists cur, t1. split; [done|].
  destruct w; simpl in H; [right|left].
  - apply (runs_bind_iff (call (Patch cur (replace_owned (Annotations cur) encoded)))) in H
      as (t3 & x & t4 & -> & ->%runs_call_iff & H).
    split; [auto|]. exists x, t4. split; [done|]. destruct x; [|done|]; by apply runs_Ret_iff in H.
  - apply runs_Ret_iff in H as [-> ->]. rewrite app_nil_r. auto.
Qed.

Lemma clock_only_facts t : clock_only t ->
  (forall base ann x, ev (Patch base ann) x ∉ t) /\ List.filter may_apply t = [] /\ count_ops is_get t = 0%nat
  /\ forall last t', locked last t' -> locked last (t ++ t').
Proof. intros [->|[s ->]]; (split; [intros base ann x Hin; in_trace Hin|done]). Qed.

Lemma permitted_weaken encoded rec cur t t' :
  (forall e, e ∈ t -> e ∈ t') -> permitted encoded rec cur t -> permitted encoded rec cur t'.
Proof.
  unfold permitted. intros Ht. destruct encoded, (FailoverRecordFromAnnotations (Annotations cur)); try done.
  intros (s & ? & ?). exists s. auto.
Qed.

(** Every patch is made from the latest read, which permits it. *)
Lemma record_attempts_patches n encoded rec tr r : runs (record_attempts n encoded rec) tr r ->
  (forall last, locked last tr)
  /\ forall base ann x, ev (Patch base ann) x ∈ tr ->
       ann = replace_owned (Annotations base) encoded /\ permitted encoded rec base tr.
Proof.
  revert tr. induction n as [|n IH]; intros tr H.
  { apply runs_Ret_iff in H as [-> ->]. split; [done|]. by intros ? ? ? ?%not_elem_of_nil. }
  apply record_attempts_cases in H as [[-> ->]|(cur & t & Ht & [(-> & _)|(Hp & x & rest & -> & Hx)])];
    [split; [by intros [?|]|intros ? ? ? Hin; in_trace Hin]| |];
    destruct (clock_only_facts t Ht) as (Hn & _ & _ & Hlock).
  - split; [intros last; simpl; rewrite <- (app_nil_r t); by apply Hlock|].
    intros base ann x [Hin|Hin]%elem_of_cons; [by in_trace Hin|by eapply Hn in Hin].
  - assert ((forall last, locked last rest) /\ forall base ann x, ev (Patch base ann) x ∈ rest ->
       ann = replace_owned (Annotations base) encoded /\ permitted encoded rec base rest) as [L Hr]
      by (destruct x; [destruct Hx as [-> _]|by apply IH|destruct Hx as [-> _]];
          (split; [done|by intros ? ? ? ?%not_elem_of_nil])).
    split; [intros last; simpl; apply Hlock; simpl; auto|].
    intros base ann y [Hin|[Hin|[Hin|Hin]%elem_of_cons]%elem_of_app]%elem_of_cons;
      [by in_trace Hin|by eapply Hn in Hin| |].
    + pose proof (ev_op _ _ _ _ Hin) as [= -> ->]. split; [done|]. eapply permitted_weaken; [|exact Hp]. set_solver.
    + destruct (Hr _ _ _ Hin) as [-> Hb]. split; [done|]. eapply permitted_weaken; [|exact Hb]. set_solver.
Qed.

(** At most one patch is not refused with a conflict, and [n] objects are read. *)
Lemma record_attempts_count n encoded rec tr r : runs (record_attempts n encoded rec) tr r ->
  (length (List.filter may_apply tr) <= 1)%nat /\ (count_ops is_get tr <= n)%nat.
Proof.
  revert tr. induction n as [|n IH]; intros tr H; [by apply runs_Ret_iff in H as [-> ->]; vm_compute; auto|].
  apply record_attempts_cases in H as [[-> ->]|(cur & t & Ht & [(-> & _)|(Hp & x & rest & -> & Hx)])];
    [vm_compute; split; lia| |]; destruct (clock_only_facts t Ht) as (_ & Hf & Hc & _);
    rewrite ?count_ops_cons, ?count_ops_app, ?count_ops_cons; simpl; rewrite ?List.filter_app, Hf, Hc; [simpl; lia|].
  destruct x; [destruct Hx as [-> _]|apply IH in Hx as [? ?]|destruct Hx as [-> _]];
    simpl; unfold count_ops in *; simpl; lia.
Qed.

(** Success: the patch was acknowledged, or the stored record was as new. *)
Lemma record_attempts_success n encoded rec tr : runs (record_attempts n encoded rec) tr None ->
  (exists base ann, ev (Patch base ann) PatchOk ∈ tr)
  \/ (exists cur stored t, ev Get (Some cur) ∈ tr /\ FailoverRecordFromAnnotations (Annotations cur) = Ok stored
        /\ ev Now t ∈ tr /\ supersedes rec stored t = false).
Proof.
  revert tr. induction n as [|n IH]; intros tr H; [by apply runs_Ret_iff in H as [_ ?]|].
  apply record_attempts_cases in H as [[_ ?]|(cur & t & Ht & [(-> & _ & Hst)|(Hp & x & rest & -> & Hx)])]; [done| |].
  - destruct Hst as (stored & s & Hst & -> & Hs). right. exists cur, stored, s. set_solver.
  - destruct x; [|apply IH in Hx as [(base & ann & Hin)|(c & st & s & H1 & H2 & H3 & H4)]|by destruct Hx].
    + left. exists cur, (replace_owned (Annotations cur) encoded). set_solver.
    + left. exists base, ann. set_solver.
    + right. exists c, st, s. set_solver.
Qed.

Lemma promotion_encodes rec : promotion rec -> exists encoded, FailoverRecordAnnotations rec = Ok encoded.
Proof.
  intros (Hz & _ & Ht). unfold FailoverRecordAnnotations, isZeroTime.
  apply Z.eqb_neq in Hz as ->. rewrite bool_decide_false by done. eauto.
Qed.

(** ** Lemmas on the order of records *)

Lemma stored_stamp_truncated m stored : FailoverRecordFromAnnotations m = Ok stored ->
  TruncateSecond (LastFailover stored) = LastFailover stored.
Proof.
  unfold FailoverRecordFromAnnotations. intros H. repeat case_bool_decide; simplify_eq/=; try done.
  all: destruct (ParseRFC3339Nano _); simplify_eq/=; apply TruncateSecond_idemp.
Qed.

(** Superseding a record that is not future-dated never moves the stamp back. *)
Lemma supersedes_forward rec stored now :
  TruncateSecond (LastFailover stored) = LastFailover stored -> 0 <= LastFailover rec ->
  supersedes rec stored now = true -> failoverStampFutureDated (LastFailover stored) now = false ->
  LastFailover stored <= TruncateSecond (LastFailover rec).
Proof.
  intros Ht Hr. unfold supersedes, IsZero, isZeroTime. rewrite Ht. intros Hs Hf. rewrite Hf in Hs.
  destruct ((LastFailover stored =? 0) && _) eqn:Ez.
  - apply andb_prop in Ez as [?%Z.eqb_eq _]. unfold TruncateSecond.
    pose proof (Z.mod_le (LastFailover rec) Second Hr ltac:(done)). lia.
  - destruct (LastFailover stored >? TruncateSecond (LastFailover rec)) eqn:Eg; [done|]. lia.
Qed.

(** A record that does not supersede another is no newer. *)
Lemma not_superseding rec stored now :
  TruncateSecond (LastFailover stored) = LastFailover stored ->
  supersedes rec stored now = false -> TruncateSecond (LastFailover rec) <= LastFailover stored.
Proof.
  intros Ht. unfold supersedes. rewrite Ht. intros Hs.
  destruct (IsZero stored), (failoverStampFutureDated (LastFailover stored) now); try done.
  destruct (LastFailover stored >? TruncateSecond (LastFailover rec)) eqn:Eg; [lia|].
  destruct (LastFailover stored <? TruncateSecond (LastFailover rec)) eqn:El; [done|]. lia.
Qed.

Lemma promotion_nonneg rec : promotion rec -> 0 <= LastFailover rec.
Proof. intros (_ & [? _] & _). done. Qed.

(** ** The recorders as other writers see them *)

(** One change of the group's annotations: an edit that leaves the owned keys alone,
    or a recorder's write by a clock that does not find the stored record
    future-dated. *)
Inductive change (before after : annotations) : Prop :=
| change_other :
    (forall k, owned k = true -> after !! k = before !! k) -> change before after
| change_record rec now :
    promotion rec -> recorder_write before after rec (Some now) ->
    (forall stored, FailoverRecordFromAnnotations before = Ok stored ->
       failoverStampFutureDated (LastFailover stored) now = false) -> change before after.

Definition evolves : relation annotations := rtc change.

(** Reading the record uses the owned keys alone. *)
Lemma read_owned m1 m2 : (forall k, owned k = true -> m1 !! k = m2 !! k) ->
  FailoverRecordFromAnnotations m1 = FailoverRecordFromAnnotations m2.
Proof.
  intros H. unfold FailoverRecordFromAnnotations, at_key.
  rewrite !(H LastFailoverAnnotation), !(H LastFailoverTargetAnnotation), !(H PromotionGtidExecutedAnnotation),
    !(H PromotionGtidExecutedForAnnotation) by (by vm_compute).
  destruct (decide (m1 = ∅)) as [->|H1], (decide (m2 = ∅)) as [->|H2]; [done| | |].
  - rewrite (bool_decide_true (∅ = ∅)), (bool_decide_false (m2 = ∅)) by done.
    by rewrite <- (H LastFailoverAnnotation), <- (H LastFailoverTargetAnnotation) by (by vm_compute).
  - by rewrite (bool_decide_false (m1 = ∅)), !lookup_empty by done.
  - by rewrite (bool_decide_false (m1 = ∅)), (bool_decide_false (m2 = ∅)) by done.
Qed.

(** Changes only move the stamp forward. *)
Lemma evolves_forward m m' t : evolves m m' -> stamped m t -> exists t', stamped m' t' /\ t <= t'.
Proof.
  intros He. revert t. induction He as [m|m m1 m' Hc _ IH]; intros t Hst; [by exists t|].
  assert (exists t1, stamped m1 t1 /\ t <= t1) as (t1 & Hst1 & Hle).
  { destruct Hst as (stored & Hm & <-). destruct Hc as [Ho|rec now Hp (enc & He & -> & Hw) Hf].
    - exists (LastFailover stored). split; [|done]. exists stored. split; [|done].
      by rewrite (read_owned m1 m).
    - rewrite Hm in Hw. destruct Hw as (s & [= <-] & Hs). exists (TruncateSecond (LastFailover rec)). split.
      + exists (stored_form rec). split; [by apply read_back|done].
      + eapply supersedes_forward; [by eapply stored_stamp_truncated|by apply promotion_nonneg|done|by apply Hf]. }
  destruct (IH t1 Hst1) as (t2 & ? & ?). exists t2. split; [done|lia].
Qed.

(** ** Theorems *)

(** The annotation codec: the record of a promotion in years 1 to 9999 encodes,
    and any object whose owned keys were replaced by the encoding reads back the
    promotion's second, its target and its watermark (none when it exceeds 64 KiB).
    A record without a time or a target does not encode. *)
Theorem failover_record_round_trip rec :
  match FailoverRecordAnnotations rec with
  | Ok encoded =>
      promotion rec -> forall ann,
        FailoverRecordFromAnnotations (replace_owned ann (Some encoded)) = Ok (stored_form rec)
        /\ (forall k, owned k = false -> replace_owned ann (Some encoded) !! k = ann !! k)
  | Err e => ~ promotion rec /\ (e = EncodeZero \/ e = TimestampWithoutTarget)
  end.
Proof.
  destruct (FailoverRecordAnnotations rec) as [encoded|e] eqn:He.
  - intros Hp ann. split; [by apply read_back|]. intros k Hk. rewrite replace_owned_lookup, Hk. simpl.
    apply encoded_keys in He as (_ & _ & _ & _ & Hn & _). by rewrite Hn.
  - unfold FailoverRecordAnnotations, isZeroTime in He. unfold promotion.
    destruct (Z.eqb_spec (LastFailover rec) 0); [|case_bool_decide]; simplify_eq; split; try tauto.
Qed.

(** C28. The record never regresses: against an API server on which any other writers
    interleave, a run of the recorder applies at most one patch; the patch leaves
    every annotation the recorder does not own, and writes the record only over the
    object's own record at that moment, when that is corrupt or superseded: no newer
    than the promotion, unless future-dated by a reading of the writer's clock. The
    zero record deletes the owned keys. *)
Theorem failover_record_never_regresses rec tr r g ws g' :
  runs (RecordFailoverState rec) tr r -> server g tr ws g' ->
  (length ws <= 1)%nat /\ (count_ops is_get tr <= failoverStateConflictRetries)%nat
  /\ forall before after, (before, after) ∈ ws ->
       (forall k, owned k = false -> after !! k = before !! k)
       /\ if LastFailover rec =? 0 then forall k, owned k = true -> after !! k = None
          else exists now, recorder_write before after rec now
            /\ (forall t, now = Some t -> ev Now t ∈ tr)
            /\ forall stored, promotion rec -> FailoverRecordFromAnnotations before = Ok stored ->
                 LastFailover stored <= TruncateSecond (LastFailover rec)
                 \/ exists t, now = Some t /\ failoverStampFutureDated (LastFailover stored) t = true.
Proof.
  intros Hrun Hsrv. unfold RecordFailoverState, isZeroTime in Hrun.
  assert (forall e, runs (Ret (Some e)) tr r -> ws = [] /\ tr = []) as Hnone.
  { intros e [-> _]%runs_Ret_iff. split; [|done].
    destruct (server_locked _ _ _ _ Hsrv None) as [_ Hl]; [done|done|]. by destruct ws; [|simpl in Hl; lia]. }
  assert (forall encoded, runs (record_attempts failoverStateConflictRetries encoded rec) tr r ->
    (length ws <= 1)%nat /\ (count_ops is_get tr <= failoverStateConflictRetries)%nat
    /\ forall before after, (before, after) ∈ ws -> after = replace_owned before encoded
         /\ exists base, Annotations base = before /\ permitted encoded rec base tr) as Hrec.
  { intros encoded Hr. destruct (record_attempts_patches _ _ _ _ _ Hr) as [Hl Hp].
    destruct (record_attempts_count _ _ _ _ _ Hr) as [H1 H2].
    destruct (server_locked _ _ _ _ Hsrv None ltac:(done) (Hl None)) as [Hws Hlen].
    split; [lia|]. split; [done|]. intros before after Hin. destruct (Hws _ _ Hin) as (base & x & Hpatch & <-).
    destruct (Hp _ _ _ Hpatch) as [-> ?]. eauto. }
  destruct (Z.eqb_spec (LastFailover rec) 0) as [Hz|Hz].
  - case_bool_decide; [apply Hnone in Hrun as [-> ->]|apply Hrec in Hrun as (H1 & H2 & H3)].
    { split; [simpl; lia|]. split; [unfold count_ops; simpl; lia|]. by intros ? ? ?%not_elem_of_nil. }
    split; [done|]. split; [done|]. intros before after Hin. destruct (H3 _ _ Hin) as [-> _].
    split; intros k Hk; by rewrite replace_owned_lookup, Hk.
  - destruct (FailoverRecordAnnotations rec) as [encoded|e] eqn:He;
      [apply Hrec in Hrun as (H1 & H2 & H3)|apply Hnone in Hrun as [-> ->]]; cycle 1.
    { split; [simpl; lia|]. split; [unfold count_ops; simpl; lia|]. by intros ? ? ?%not_elem_of_nil. }
    split; [done|]. split; [done|]. intros before after Hin. destruct (H3 _ _ Hin) as [-> (base & Hb & Hp)].
    subst before. split.
    + intros k Hk. rewrite replace_owned_lookup, Hk. simpl.
      pose proof (encoded_keys _ _ He) as (_ & _ & _ & _ & Hn & _). by rewrite Hn.
    + unfold permitted in Hp. unfold recorder_write.
      destruct (FailoverRecordFromAnnotations (Annotations base)) as [stored|e] eqn:Hb.
      * destruct Hp as (t & Hin' & Hs). exists (Some t). split; [by eauto 10|]. split; [by intros ? [= <-]|].
        intros stored' Hpr [= <-]. destruct (failoverStampFutureDated (LastFailover stored) t) eqn:Hf; [by eauto|].
        left. eapply supersedes_forward; [by eapply stored_stamp_truncated|by apply promotion_nonneg|done|done].
      * exists None. split; [by eauto|]. split; [done|]. done.
Qed.

(** ** Reading both copies *)

(** A durable copy a restart may use: not dated past the grace, and of a site. *)
Definition usable (fg : group) (now : Z) (rec : FailoverRecord) : Prop :=
  (LastFailover rec = 0 \/ LastFailover rec <= now + FailoverClockSkewGrace)
  /\ (LastFailoverTarget rec = "" \/ LastFailoverTarget rec ∈ Sites fg).

Lemma failoverTargetInSpec_spec fg target : failoverTargetInSpec fg target = true <-> target ∈ Sites fg.
Proof.
  unfold failoverTargetInSpec. rewrite existsb_exists. setoid_rewrite bool_decide_eq_true.
  rewrite list_elem_of_In. naive_solver.
Qed.

(** The checks keep a usable copy as it is and zero any other, with an error. *)
Lemma checked_copy_spec fg now rec rec' errs :
  checked_copy fg (now + FailoverClockSkewGrace) None rec = (rec', errs) ->
  (usable fg now rec /\ rec' = rec /\ errs = []) \/ (~ usable fg now rec /\ rec' = zeroRecord /\ errs <> []).
Proof.
  unfold checked_copy, usable, isZeroTime. intros H.
  destruct (negb (LastFailover rec =? 0) && (LastFailover rec >? now + FailoverClockSkewGrace)) eqn:Ef.
  - simpl in H. injection H as <- <-. right. rewrite andb_true_iff, negb_true_iff, Z.eqb_neq in Ef. split; [lia|done].
  - rewrite andb_false_iff, negb_false_iff, Z.eqb_eq in Ef.
    destruct (bool_decide (LastFailoverTarget rec <> "")) eqn:Et; simpl in H.
    + destruct (failoverTargetInSpec fg (LastFailoverTarget rec)) eqn:Es; simpl in H; injection H as <- <-.
      * apply failoverTargetInSpec_spec in Es. left. split; [split; [lia|by right]|done].
      * right. split; [|done]. intros [_ [Hn|Hin%failoverTargetInSpec_spec]]; [|congruence].
        apply bool_decide_eq_true in Et. done.
    + injection H as <- <-. apply bool_decide_eq_false in Et. left. split; [|done]. split; [lia|]. left.
      by destruct (decide (LastFailoverTarget rec = "")).
Qed.

Lemma zero_usable fg now : usable fg now zeroRecord.
Proof. split; by left. Qed.

Lemma newer_spec a b : (NewerFailoverRecord a b = a \/ NewerFailoverRecord a b = b)
  /\ LastFailover a <= LastFailover (NewerFailoverRecord a b) /\ LastFailover b <= LastFailover (NewerFailoverRecord a b).
Proof. unfold NewerFailoverRecord. destruct (Z.gtb_spec (LastFailover b) (LastFailover a)); split; try lia; auto. Qed.

(** Where the winner comes from. *)
Lemma effective_runs fg now winner from se oe :
  EffectiveFailoverRecord fg now = (winner, from, (se, oe)) ->
  exists status oob, winner = NewerFailoverRecord status oob /\ from = bool_decide (winner <> status)
    /\ ((usable fg now (FailoverRecordFromStatus fg) /\ status = FailoverRecordFromStatus fg /\ se = [])
        \/ (~ usable fg now (FailoverRecordFromStatus fg) /\ status = zeroRecord /\ se <> []))
    /\ match FailoverRecordFromAnnotations (Annotations fg) with
       | Ok rec => (usable fg now rec /\ oob = rec /\ oe = []) \/ (~ usable fg now rec /\ oob = zeroRecord /\ oe <> [])
       | Err e => oob = zeroRecord /\ oe = [Unreadable e]
       end.
Proof.
  unfold EffectiveFailoverRecord. intros H.
  destruct (checked_copy fg _ None (FailoverRecordFromStatus fg)) as [status serrs] eqn:Es.
  apply checked_copy_spec in Es.
  destruct (FailoverRecordFromAnnotations (Annotations fg)) as [rec|e] eqn:Ha.
  - destruct (checked_copy fg _ None rec) as [oob oerrs] eqn:Eo. apply checked_copy_spec in Eo.
    injection H as <- <- <- <-. by exists status, oob.
  - simpl in H. injection H as <- <- <- <-. by exists status, zeroRecord.
Qed.

(** A restart takes the newest safe copy: the record it rehydrates is usable -
    not dated past the grace, of a site of the group - and at least as new as every
    usable copy; an unusable or unreadable copy is reported and never discards the
    other; no error is reported when both are good. *)
Theorem newest_safe_copy fg now winner from se oe :
  EffectiveFailoverRecord fg now = (winner, from, (se, oe)) ->
  usable fg now winner
  /\ (winner = FailoverRecordFromStatus fg \/ winner = zeroRecord
      \/ FailoverRecordFromAnnotations (Annotations fg) = Ok winner)
  /\ (usable fg now (FailoverRecordFromStatus fg) -> LastFailover (FailoverRecordFromStatus fg) <= LastFailover winner)
  /\ (forall rec, FailoverRecordFromAnnotations (Annotations fg) = Ok rec -> usable fg now rec ->
        LastFailover rec <= LastFailover winner)
  /\ (se = [] <-> usable fg now (FailoverRecordFromStatus fg))
  /\ (oe = [] <-> exists rec, FailoverRecordFromAnnotations (Annotations fg) = Ok rec /\ usable fg now rec)
  /\ (from = true -> FailoverRecordFromAnnotations (Annotations fg) = Ok winner \/ winner = zeroRecord).
Proof.
  intros (status & oob & -> & -> & Hs & Ho)%effective_runs. pose proof (zero_usable fg now) as Hz.
  destruct (newer_spec status oob) as (Hw & Hle1 & Hle2).
  assert (usable fg now status /\ (status = FailoverRecordFromStatus fg \/ status = zeroRecord)) as [Us Ss]
    by (destruct Hs as [(? & -> & _)|(_ & -> & _)]; auto).
  assert (usable fg now oob /\ (oob = zeroRecord \/ FailoverRecordFromAnnotations (Annotations fg) = Ok oob)) as [Uo So]
    by (destruct (FailoverRecordFromAnnotations (Annotations fg));
        [destruct Ho as [(? & -> & _)|(_ & -> & _)]|destruct Ho as [-> _]]; auto).
  split; [by destruct Hw as [-> | ->]|]. split; [destruct Hw as [-> | ->]; tauto|].
  split; [intros Hu; by destruct Hs as [(_ & <- & _)|(? & _)]|]. split; [|split; [|split]].
  - intros rec Hr Hu. rewrite Hr in Ho. by destruct Ho as [(_ & <- & _)|(? & _)].
  - destruct Hs as [(? & _ & ->)|(? & _ & ?)]; tauto.
  - destruct (FailoverRecordFromAnnotations (Annotations fg)) as [rec|e].
    + destruct Ho as [(? & _ & ->)|(? & _ & ?)]; split; try done; [by eauto|]. by intros (? & [= <-] & ?).
    + destruct Ho as [_ ->]. split; [done|by intros (? & ? & _)].
  - intros Hne%bool_decide_eq_true. destruct Hw as [Hw|Hw]; [by rewrite Hw in Hne|]. rewrite Hw. tauto.
Qed.

(** What the recorder saw when it returned nil: an object it wrote, or one it read,
    whose record is at least as new as the promotion. *)
Lemma acknowledged rec tr : promotion rec -> runs (RecordFailoverState rec) tr None ->
  exists m, ((exists base, ev (Patch base m) PatchOk ∈ tr) \/ (exists cur, ev Get (Some cur) ∈ tr /\ m = Annotations cur))
    /\ exists t, stamped m t /\ TruncateSecond (LastFailover rec) <= t.
Proof.
  intros Hp Hrun. unfold RecordFailoverState, isZeroTime in Hrun. pose proof Hp as (Hz & _ & Ht).
  destruct (Z.eqb_spec (LastFailover rec) 0) as [|_]; [done|].
  destruct (FailoverRecordAnnotations rec) as [encoded|e] eqn:He; [|by apply runs_Ret_iff in Hrun as [_ ?]].
  destruct (record_attempts_patches _ _ _ _ _ Hrun) as [_ Hpatch].
  destruct (record_attempts_success _ _ _ _ Hrun) as [(base & ann & Hin)|(cur & stored & s & Hin & Hst & _ & Hs)].
  - exists ann. split; [left; by exists base|]. destruct (Hpatch _ _ _ Hin) as [-> _].
    exists (TruncateSecond (LastFailover rec)). split; [|done]. exists (stored_form rec). split; [by apply read_back|done].
  - exists (Annotations cur). split; [right; by exists cur|]. exists (LastFailover stored). split; [by exists stored|].
    eapply not_superseding; [by eapply stored_stamp_truncated|done].
Qed.

(** The cooldown survives a restart: once the recorder returned nil for a
    promotion, there is an object - the one its acknowledged patch wrote, or the one
    it read and found as new - such that every object it evolves into, under other
    recorders' writes and edits of other annotations, still holds a record at least
    as new as the promotion; and a restarted operator that finds that record usable
    rehydrates one at least as new, whatever a status outage left in the status
    copy. *)
Theorem cooldown_survives_restart rec tr :
  promotion rec -> runs (RecordFailoverState rec) tr None ->
  exists m, ((exists base, ev (Patch base m) PatchOk ∈ tr) \/ (exists cur, ev Get (Some cur) ∈ tr /\ m = Annotations cur))
    /\ forall fg, evolves m (Annotations fg) ->
         exists stored, FailoverRecordFromAnnotations (Annotations fg) = Ok stored
           /\ TruncateSecond (LastFailover rec) <= LastFailover stored
           /\ forall now, usable fg now stored ->
                TruncateSecond (LastFailover rec) <= LastFailover (EffectiveFailoverRecord fg now).1.1.
Proof.
  intros Hp Hrun. destruct (acknowledged rec tr Hp Hrun) as (m & Hm & t & Hst & Hle). exists m. split; [done|].
  intros fg He. destruct (evolves_forward _ _ _ He Hst) as (t' & (stored & Hs & <-) & Hle').
  exists stored. split; [done|]. split; [lia|]. intros now Hu.
  destruct (EffectiveFailoverRecord fg now) as [[winner from] [se oe]] eqn:Ee.
  apply effective_runs in Ee as (status & oob & -> & _ & _ & Ho). rewrite Hs in Ho.
  destruct Ho as [(_ & -> & _)|(? & _)]; [|done]. destruct (newer_spec status stored) as (_ & _ & ?). simpl. lia.
Qed.

(** ** Witnesses *)

(** 2024-02-29T12:00:00.5Z. *)
Definition demo_time : Z := (days_of 2024 2 29 * day_seconds + 43200) * Second + Second / 2.

Definition demo_record : FailoverRecord :=
  {| LastFailover := demo_time; LastFailoverTarget := "iad"; PromotionGtidExecuted := "u:1-7" |}.

Definition demo_group : group :=
  {| Annotations := {["app" := "shop"]}; ResourceVersion := 1; Status_LastFailover := None;
     Status_LastFailoverTarget := ""; Status_PromotionGtidExecuted := ""; Sites := ["iad"; "pdx"] |}.

Definition demo_encoded : annotations :=
  match FailoverRecordAnnotations demo_record with Ok encoded => encoded | Err _ => ∅ end.

Definition demo_written : annotations := replace_owned (Annotations demo_group) (Some demo_encoded).

Lemma demo_promotion : promotion demo_record.
Proof. split; [by vm_compute|]. split; [split; by vm_compute|done]. Qed.

Lemma demo_encodes : FailoverRecordAnnotations demo_record = Ok demo_encoded.
Proof. unfold demo_encoded. by destruct (promotion_encodes _ demo_promotion) as [e ->]. Qed.

Lemma demo_unwritten : FailoverRecordFromAnnotations (Annotations demo_group) = Ok zeroRecord.
Proof. by vm_compute. Qed.

Lemma failover_record_round_trip_witness : FailoverRecordFromAnnotations demo_written = Ok (stored_form demo_record).
Proof.
  pose proof (failover_record_round_trip demo_record) as H. rewrite demo_encodes in H.
  exact (proj1 (H demo_promotion (Annotations demo_group))).
Defined.

(** The object is as first read, the clock right and every patch accepted. *)
Definition answers (_ : list (event ans)) (o : op) : ans o :=
  match o with
  | Get => Some demo_group
  | Now => demo_time
  | Patch _ _ => PatchOk
  | DeleteAnnotations _ => true
  end.

Lemma demo_exec : exec answers (RecordFailoverState demo_record) []
  = ([ev Get (Some demo_group); ev Now demo_time; ev (Patch demo_group demo_written) PatchOk], None).
Proof.
  unfold RecordFailoverState. assert (isZeroTime (LastFailover demo_record) = false) as -> by (by vm_compute).
  rewrite demo_encodes. unfold failoverStateConflictRetries.
  cbv [record_attempts prog_bind call exec answers attempt_writes]. rewrite demo_unwritten.
  assert (supersedes demo_record zeroRecord demo_time = true) as Hs by (by vm_compute).
  rewrite Hs. reflexivity.
Qed.

Lemma demo_nil : runs (RecordFailoverState demo_record) (exec answers (RecordFailoverState demo_record) []).1 None.
Proof. pose proof (exec_run answers (RecordFailoverState demo_record)) as H. by rewrite demo_exec in *. Qed.

Definition demo_after : group := demo_group <| Annotations := demo_written |> <| ResourceVersion := 2 |>.

Lemma demo_served : server demo_group (exec answers (RecordFailoverState demo_record) []).1
  [(Annotations demo_group, demo_written)] demo_after.
Proof.
  rewrite demo_exec. simpl fst. apply srv_get; [by left|]. apply srv_now.
  apply (srv_applied demo_group demo_group demo_written PatchOk demo_after); [done..|apply srv_done].
Qed.

Lemma failover_record_never_regresses_witness : demo_written !! "app" = Some "shop".
Proof.
  destruct (failover_record_never_regresses demo_record _ _ _ _ _ demo_nil demo_served) as (_ & _ & H).
  destruct (H _ _ ltac:(left)) as [Hk _]. rewrite (Hk "app" ltac:(by vm_compute)). by vm_compute.
Defined.

Lemma newest_safe_copy_witness :
  usable demo_after demo_time (EffectiveFailoverRecord demo_after demo_time).1.1.
Proof.
  destruct (EffectiveFailoverRecord demo_after demo_time) as [[w f] [se oe]] eqn:E.
  exact (proj1 (newest_safe_copy demo_after demo_time w f se oe E)).
Defined.

Lemma cooldown_survives_restart_witness : exists m, (m = demo_written \/ m = Annotations demo_group)
  /\ forall fg, evolves m (Annotations fg) ->
       exists stored, FailoverRecordFromAnnotations (Annotations fg) = Ok stored
         /\ TruncateSecond demo_time <= LastFailover stored.
Proof.
  destruct (cooldown_survives_restart demo_record _ demo_promotion demo_nil) as (m & Hm & H).
  exists m. rewrite demo_exec in Hm. simpl fst in Hm. split.
  - destruct Hm as [[base Hin]|(cur & Hin & ->)].
    + left. do 2 (apply elem_of_cons in Hin as [Hin|Hin]; [by apply ev_op in Hin|]).
      apply list_elem_of_singleton in Hin. apply ev_op in Hin. by injection Hin.
    + right. apply elem_of_cons in Hin as [Hin|Hin]; [apply ev_inj in Hin; by injection Hin as ->|].
      do 2 (apply elem_of_cons in Hin as [Hin|Hin]; [by apply ev_op in Hin|]). by apply not_elem_of_nil in Hin.
  - intros fg He. destruct (H fg He) as (stored & Hs & Hle & _). exists stored. split; [exact Hs|exact Hle].
Defined.
