(* ===== verification/Sha256.v ===== *)
(** * Go's [crypto/sha256] and [encoding/hex]

    SHA-256 (FIPS 180-4) on byte strings, with 32-bit words as [Z], and the
    lower-case hexadecimal encoding. *)
From S2P Require Import Prelude GoStd.

Local Open Scope Z_scope.

Module SHA.

(** ** Words *)

Definition w32 (x : Z) : Z := Z.land x 0xffffffff.

Definition rotr (n x : Z) : Z := Z.lor (Z.shiftr x n) (w32 (Z.shiftl x (32 - n))).

Definition shr (n x : Z) : Z := Z.shiftr x n.

Definition not32 (x : Z) : Z := Z.lxor x 0xffffffff.

Definition Ch (x y z : Z) : Z := Z.lxor (Z.land x y) (Z.land (not32 x) z).

Definition Maj (x y z : Z) : Z := Z.lxor (Z.land x y) (Z.lxor (Z.land x z) (Z.land y z)).

Definition Sigma0 (x : Z) : Z := Z.lxor (rotr 2 x) (Z.lxor (rotr 13 x) (rotr 22 x)).

Definition Sigma1 (x : Z) : Z := Z.lxor (rotr 6 x) (Z.lxor (rotr 11 x) (rotr 25 x)).

Definition sigma0 (x : Z) : Z := Z.lxor (rotr 7 x) (Z.lxor (rotr 18 x) (shr 3 x)).

Definition sigma1 (x : Z) : Z := Z.lxor (rotr 17 x) (Z.lxor (rotr 19 x) (shr 10 x)).

(** FIPS 180-4 defines the constants by the fractional parts of the roots of the
    first primes, to 32 bits. *)
Definition upto (a b : Z) : list Z := map Z.of_nat (seq (Z.to_nat a) (Z.to_nat (b - a))).

Definition primes : list Z :=
  Eval vm_compute in List.filter (fun p => forallb (fun d => negb (p mod d =? 0)) (upto 2 p)) (upto 2 312).

(** The greatest [y >= root] whose [e]th power is at most [x], by [bits] more bits. *)
Fixpoint root_from (bits : nat) (e x root : Z) : Z :=
  match bits with
  | O => root
  | S bits =>
      let y := root + 2 ^ Z.of_nat bits in
      root_from bits e x (if y ^ e <=? x then y else root)
  end.

Definition fraction (e p : Z) : Z := w32 (root_from 40 e (Z.shiftl p (32 * e)) 0).

Definition K : list Z := Eval vm_compute in map (fraction 3) primes.

Definition H0 : list Z := Eval vm_compute in map (fraction 2) (firstn 8 primes).

(** ** Padding *)

Fixpoint bytes_of (s : string) : list Z :=
  match s with
  | EmptyString => []
  | String c s => Z.of_N (N_of_ascii c) :: bytes_of s
  end.

(** The 64-bit big-endian bit length. *)
Definition length_bytes (n : Z) : list Z :=
  map (fun i => Z.land (Z.shiftr (8 * n) i) 255) [56; 48; 40; 32; 24; 16; 8; 0].

Definition pad (m : list Z) : list Z :=
  let n := Z.of_nat (length m) in
  m ++ 128 :: repeat 0 (Z.to_nat ((55 - n) mod 64)) ++ length_bytes n.

(** ** Blocks *)

(** Big-endian words. *)
Fixpoint words (bs : list Z) : list Z :=
  match bs with
  | a :: b :: c :: d :: bs =>
      Z.lor (Z.shiftl a 24) (Z.lor (Z.shiftl b 16) (Z.lor (Z.shiftl c 8) d)) :: words bs
  | _ => []
  end.

(** The message schedule, latest word first. *)
Fixpoint schedule (n : nat) (ws : list Z) : list Z :=
  match n with
  | O => ws
  | S n =>
      schedule n
        (w32 (sigma1 (nth 1 ws 0) + nth 6 ws 0 + sigma0 (nth 14 ws 0) + nth 15 ws 0) :: ws)
  end.

Definition round (h : list Z) (kw : Z * Z) : list Z :=
  match h with
  | [a; b; c; d; e; f; g; hh] =>
      let t1 := hh + Sigma1 e + Ch e f g + fst kw + snd kw in
      let t2 := Sigma0 a + Maj a b c in
      [w32 (t1 + t2); a; b; c; w32 (d + t1); e; f; g]
  | _ => h
  end.

Definition block (h ws : list Z) : list Z :=
  let h' := fold_left round (combine K (rev (schedule 48 (rev ws)))) h in
  map (fun '(x, y) => w32 (x + y)) (combine h h').

Fixpoint blocks (n : nat) (h ws : list Z) : list Z :=
  match n with
  | O => h
  | S n => blocks n (block h (firstn 16 ws)) (skipn 16 ws)
  end.

(** [sha256.Sum256]: 32 bytes. *)
Definition Sum256 (s : string) : list Z :=
  let ws := words (pad (bytes_of s)) in
  flat_map (fun w => map (fun i => Z.land (Z.shiftr w i) 255) [24; 16; 8; 0])
    (blocks (length ws / 16) H0 ws).

(** ** [hex.EncodeToString] *)

Definition hex_digit (n : Z) : ascii :=
  if n <? 10 then digit_char n else ascii_of_N (Z.to_N (n + 87)).

Fixpoint hex (bs : list Z) : string :=
  match bs with
  | [] => ""
  | b :: bs => String (hex_digit (Z.shiftr b 4)) (String (hex_digit (Z.land b 15)) (hex bs))
  end.

End SHA.

Import SHA.

(** ** Test vectors *)

Example sha256_empty : hex (Sum256 "") = "e3b0c44298fc1c149afbf4c8996fb92427ae41e4649b934ca495991b7852b855".
Proof. vm_compute. reflexivity. Qed.

Example sha256_abc : hex (Sum256 "abc") = "ba7816bf8f01cfea414140de5dae2223b00361a396177a9cb410ff61f20015ad".
Proof. vm_compute. reflexivity. Qed.

Example sha256_two_blocks : hex (Sum256 "abcdbcdecdefdefgefghfghighijhijkijkljklmklmnlmnomnopnopq")
  = "248d6a61d20638b8e5c026930c3e6039a33ce45964ff2167f6ecedd419db06c1".
Proof. vm_compute. reflexivity. Qed.
