(* ===== verification/PlannedRun.v ===== *)
(** * A failover group's status: runs, holds and restores in flight

    The predicates on a [MysqlFailoverGroup] by which the operator's components
    exclude one another: [internal/controller/planned_failover_contract.go] (terminal
    markers, automation holds, deadline annotations, who owns the sites) and the
    restore predicates of [restore.go], [restore_inplace.go], [restore_reclones.go]. *)
From S2P Require Import Prelude GoStd Effects GoTime.

Local Open Scope Z_scope.

Module PlannedRun.

(** ** The group's object *)

(** [PlannedFailoverPhase]; the API server admits these and the empty phase. *)
Inductive PlannedFailoverPhase : Type :=
| PlannedFailoverPhaseNone
| PlannedFailoverPhaseAdmitting
| PlannedFailoverPhaseDeferred
| PlannedFailoverPhaseFencing
| PlannedFailoverPhaseDraining
| PlannedFailoverPhaseWaitingForLag
| PlannedFailoverPhaseWaitingForDragonflySync
| PlannedFailoverPhasePromotingDragonfly
| PlannedFailoverPhasePromoting
| PlannedFailoverPhasePublishing
| PlannedFailoverPhaseRollingBack
| PlannedFailoverPhaseSucceeded
| PlannedFailoverPhaseFailed.

Inductive BackupPhase : Type :=
| BackupPhaseNone
| BackupPhasePending
| BackupPhaseRunning
| BackupPhaseSucceeded
| BackupPhaseFailed.

Inductive RestoreInPlacePhase : Type :=
| RestoreInPlaceNone
| RestoreInPlacePreflight
| RestoreInPlaceFencing
| RestoreInPlaceRestoring
| RestoreInPlaceResuming
| RestoreInPlaceSucceeded
| RestoreInPlaceFailed.

Record PlannedFailoverStatus : Type := {
  RunID : string;
  Phase : PlannedFailoverPhase;
  SourceSite : string
}.

Record PlannedFailoverHold : Type := {
  Hold_RunID : string;
  Hold_Reason : string;
  Hold_AmbiguousSites : list string
}.

Record Condition : Type := {
  Cond_True : bool;
  Cond_Reason : string
}.

(** The members of the terminal marker's JSON payload. *)
Record terminalMarkerPayload : Type := {
  SchemaVersion : Z;
  P_RunID : string;
  P_Outcome : string;
  P_Reason : string;
  P_Warnings : list string
}.

(** What [encoding/json] makes of an annotation's text: nothing, or a payload;
    [strict] says whether it also decodes with unknown fields disallowed. *)
Inductive json : Type :=
| NotJSON
| JSON (strict : bool) (p : terminalMarkerPayload).

Record SiteStatus : Type := {
  Site_Name : string;
  Site_State : string;
  RecoveryState : string;
  DivergenceDetectedBy : string;
  SourceConvergenceState : string;
  Replicating : bool
}.

(** [status.dragonfly]: its phase, and its upgrade's phase when it has one. *)
Record DragonflyStatus : Type := {
  Dragonfly_Phase : string;
  Dragonfly_Upgrade : option string
}.

(** The parts of a group the modelled code reads. Conditions are a map by type: the
    API server keeps them so. *)
Record Group : Type := {
  GroupName : string;
  UID : string;
  ResourceVersion : Z;
  RevokeDeploymentLeases : option string;
  PlannedFailoverTerminal : json;
  Spec_Sites : list string;
  Spec_InitFromBackup : bool;
  Spec_RestoreInPlace : bool;
  TopologyGeneration : Z;
  ActiveSite : string;
  Conditions : gmap string Condition;
  PlannedFailover : option PlannedFailoverStatus;
  Status_Hold : option PlannedFailoverHold;
  UpdatePhase : string;
  Restore : option BackupPhase;
  Dragonfly : option DragonflyStatus;
  RestoreInPlace : option RestoreInPlacePhase;
  RestoreReclones : option (list string);
  Sites : list SiteStatus
}.

#[export] Instance Group_eta : Eta Group := fun g =>
  Build_Group (GroupName g) (UID g) (ResourceVersion g) (RevokeDeploymentLeases g) (PlannedFailoverTerminal g)
    (Spec_Sites g) (Spec_InitFromBackup g) (Spec_RestoreInPlace g) (TopologyGeneration g) (ActiveSite g)
    (Conditions g) (PlannedFailover g) (Status_Hold g) (UpdatePhase g) (Restore g) (Dragonfly g)
    (RestoreInPlace g) (RestoreReclones g) (Sites g).

(** ** Terminal markers *)

Definition TerminalMarkerSchemaVersion : Z := 1.

Record TerminalMarker : Type := {
  M_RunID : string;
  M_Outcome : string;
  M_Reason : string;
  M_Warnings : list string
}.

Definition plannedFailoverOutcomes : list string :=
  ["Succeeded"; "NotStarted"; "RolledBack"; "SourceLeftFenced"; "PromotedUnconfirmed"; "ManualRecoveryRequired"].

Definition plannedFailoverWarnings : list string :=
  ["DNSUpdateFailed"; "DragonflySessionsLost"; "TargetReplicationNotRestored"; "UnreachablePeers";
   "FenceNotAttributable"; "StatusStalled"; "SourceReplaced"; "TargetSuperReadOnlyNotRestored"].

Definition plannedFailoverReasons : list string :=
  ["InvalidAnnotation"; "UnknownSite"; "TargetNotPromotable"; "AlreadyActive"; "TargetUnhealthy";
   "DivergentTarget"; "KeyringRotation"; "CooldownActive"; "ConcurrentOperation"; "InvalidFailoverState";
   "Canceled"; "AdmissionTimeout"; "AuthorityChanged"; "LegacyRunRefused"; "FenceFailed"; "SourceLost";
   "SourceUnfenced"; "TargetLost"; "ForeignWritable"; "PeerUnreadable"; "LagTimeout"; "InvalidGTID";
   "DragonflySyncTimeout"; "DragonflyPromotionFailed"; "TargetChanged"; "PromotionAborted";
   "PromotionUnconfirmed"; "ManagerUnavailable"; "StatusStalled"; "ManualRecoveryPending"; "ExecuteFailed";
   "InternalError"].

Definition ManualRecoveryRequired : string := "ManualRecoveryRequired".

(** [String]: the payload the marker's text encodes. *)
Definition TerminalMarker_String (m : TerminalMarker) : json :=
  JSON true {| SchemaVersion := TerminalMarkerSchemaVersion; P_RunID := M_RunID m; P_Outcome := M_Outcome m;
               P_Reason := M_Reason m; P_Warnings := M_Warnings m |}.

Definition ParseTerminalMarker (v : json) : option TerminalMarker :=
  match v with
  | JSON true p =>
      if negb (SchemaVersion p =? TerminalMarkerSchemaVersion) || bool_decide (P_RunID p = "") then None
      else if bool_decide (P_Outcome p ∉ plannedFailoverOutcomes) then None
      else if bool_decide (P_Reason p <> "") && bool_decide (P_Reason p ∉ plannedFailoverReasons) then None
      else if forallb (fun w => bool_decide (w ∈ plannedFailoverWarnings)) (P_Warnings p) then
        Some {| M_RunID := P_RunID p; M_Outcome := P_Outcome p; M_Reason := P_Reason p; M_Warnings := P_Warnings p |}
      else None
  | _ => None
  end.

Definition parseHoldMarker (v : json) : option TerminalMarker :=
  match ParseTerminalMarker v with
  | Some m => if bool_decide (M_Outcome m = ManualRecoveryRequired) then Some m else None
  | None =>
      match v with
      | NotJSON => None
      | JSON _ p =>
          if bool_decide (TrimSpace (P_RunID p) = "") || bool_decide (P_Outcome p <> ManualRecoveryRequired) then None
          else Some {| M_RunID := P_RunID p; M_Outcome := P_Outcome p;
                       M_Reason := if bool_decide (P_Reason p ∈ plannedFailoverReasons) then P_Reason p else "";
                       M_Warnings := [] |}
      end
  end.

Definition TerminalMarkerNames (v : json) (runID : string) : bool :=
  match ParseTerminalMarker v with
  | Some m => bool_decide (M_RunID m = runID)
  | None =>
      match parseHoldMarker v with
      | Some m => bool_decide (M_RunID m = runID)
      | None => false
      end
  end.

(** ** Who owns the sites *)

(** The run, and whether the terminal marker names it. *)
Definition plannedFailoverRun (fg : Group) : option PlannedFailoverStatus * bool :=
  match PlannedFailover fg with
  | None => (None, false)
  | Some pf =>
      if bool_decide (RunID pf = "") then (Some pf, false)
      else
        (Some pf, match ParseTerminalMarker (PlannedFailoverTerminal fg) with
                  | Some m => bool_decide (M_RunID m = RunID pf)
                  | None => false
                  end)
  end.

Definition plannedFailoverPending (fg : Group) : bool :=
  match plannedFailoverRun fg with
  | (Some pf, false) =>
      match Phase pf with
      | PlannedFailoverPhaseAdmitting | PlannedFailoverPhaseDeferred => true
      | _ => false
      end
  | _ => false
  end.

Definition plannedFailoverOwnsSites (fg : Group) : bool :=
  match plannedFailoverRun fg with
  | (Some pf, false) =>
      match Phase pf with
      | PlannedFailoverPhaseFencing | PlannedFailoverPhaseDraining | PlannedFailoverPhaseWaitingForLag
      | PlannedFailoverPhaseWaitingForDragonflySync | PlannedFailoverPhasePromotingDragonfly
      | PlannedFailoverPhasePromoting | PlannedFailoverPhaseRollingBack => true
      | _ => false
      end
  | _ => false
  end.

Definition plannedFailoverActive (fg : Group) : bool :=
  if plannedFailoverPending fg || plannedFailoverOwnsSites fg then true
  else match plannedFailoverRun fg with
       | (Some pf, false) => match Phase pf with PlannedFailoverPhasePublishing => true | _ => false end
       | _ => false
       end.

Definition plannedFailoverFencedSite (fg : Group) : string :=
  if negb (plannedFailoverOwnsSites fg) then ""
  else match PlannedFailover fg with Some pf => SourceSite pf | None => "" end.

(** ** Automation holds *)

Record PlannedHold : Type := {
  PH_RunID : string;
  PH_Reason : string;
  PH_Sites : list string;
  FromStatus : bool;
  FromMarker : bool
}.

Definition ConditionAutomaticFailoverHeld : string := "AutomaticFailoverHeld".

Definition PlannedHoldFrom (fg : Group) : option PlannedHold :=
  let hold :=
    match Status_Hold fg with
    | Some h => Some {| PH_RunID := Hold_RunID h; PH_Reason := Hold_Reason h; PH_Sites := Hold_AmbiguousSites h;
                        FromStatus := true; FromMarker := false |}
    | None =>
        match Conditions fg !! ConditionAutomaticFailoverHeld with
        | Some c => if Cond_True c then Some {| PH_RunID := ""; PH_Reason := ""; PH_Sites := [];
                                                FromStatus := true; FromMarker := false |} else None
        | None => None
        end
    end in
  match parseHoldMarker (PlannedFailoverTerminal fg) with
  | None => hold
  | Some m =>
      match hold with
      | None => Some {| PH_RunID := M_RunID m; PH_Reason := M_Reason m; PH_Sites := [];
                        FromStatus := false; FromMarker := true |}
      | Some h =>
          if bool_decide (PH_RunID h = M_RunID m) then
            Some {| PH_RunID := PH_RunID h;
                    PH_Reason := if bool_decide (PH_Reason h = "") then M_Reason m else PH_Reason h;
                    PH_Sites := PH_Sites h; FromStatus := FromStatus h; FromMarker := true |}
          else Some h
      end
  end.

Definition setPlannedHold (fg : Group) (h : PlannedFailoverHold) : Group :=
  fg <| Status_Hold := Some h |>
     <| Conditions := <[ConditionAutomaticFailoverHeld :=
                          {| Cond_True := true; Cond_Reason := "PlannedFailoverManualRecoveryRequired" |}]> (Conditions fg) |>.

Definition statusHoldNames (fg : Group) (runID : string) : bool :=
  match Status_Hold fg with Some h => bool_decide (Hold_RunID h = runID) | None => false end.

(** The status after the acknowledgement of [runID], and whether it changed. *)
Definition ClearPlannedHold (fg : Group) (runID : string) : Group * bool :=
  match Status_Hold fg with
  | None => (fg, false)
  | Some h =>
      if bool_decide (Hold_RunID h <> runID) then (fg, false)
      else (fg <| Status_Hold := None |>
               <| Conditions := <[ConditionAutomaticFailoverHeld :=
                    {| Cond_True := false; Cond_Reason := "PlannedFailoverHoldAcknowledged" |}]> (Conditions fg) |>, true)
  end.

(** ** Deadline annotations *)

Definition FormatDeadlineStart (runID : string) (start : Z) : string :=
  runID +:+ ":since=" +:+ FormatBasic (TruncateSecond start).

Definition ParseDeadlineStart (v : string) : option (string * Z) :=
  match Cut ":" v with
  | (_, None) => None
  | (id, Some kv) =>
      if bool_decide (id = "") then None
      else match Cut "=" kv with
           | (_, None) => None
           | (key, Some ts) =>
               if bool_decide (key <> "since") then None
               else match ParseBasic ts with
                    | Some t => Some (id, t)
                    | None => None
                    end
           end
  end.

Definition parseDeadlineStart (v runID : string) : option Z :=
  match ParseDeadlineStart v with
  | Some (id, t) => if bool_decide (id <> runID) then None else Some t
  | None => None
  end.

(** ** Restores in flight *)

Definition restoreInFlight (fg : Group) : bool :=
  if negb (Spec_InitFromBackup fg) then false
  else match Restore fg with
       | None => true
       | Some BackupPhaseSucceeded => false
       | Some _ => true
       end.

Definition inPlaceRestoreInFlight (fg : Group) : bool :=
  match RestoreInPlace fg with
  | None => Spec_RestoreInPlace fg
  | Some (RestoreInPlaceSucceeded | RestoreInPlaceFailed | RestoreInPlaceNone) => false
  | Some _ => true
  end.

Definition restoreReclonePending (fg : Group) (site : string) : bool :=
  match RestoreReclones fg with
  | None => false
  | Some pending => bool_decide (site ∈ pending)
  end.

End PlannedRun.

Import PlannedRun.

(** ** Lemmas *)

Lemma parseHoldMarker_outcome v m : parseHoldMarker v = Some m -> M_Outcome m = ManualRecoveryRequired.
Proof.
  unfold parseHoldMarker. destruct (ParseTerminalMarker v) as [m'|].
  - case_bool_decide; [by intros [= <-]|done].
  - destruct v as [|strict p]; [done|]. destruct (bool_decide (TrimSpace (P_RunID p) = "")); [done|].
    simpl. case_bool_decide as Ho; [done|]. intros [= <-]. simpl. by destruct (decide (P_Outcome p = ManualRecoveryRequired)).
Qed.

(** When the marker's text holds automation. *)
Definition marker_holds (v : json) : Prop :=
  exists strict p, v = JSON strict p /\ P_Outcome p = ManualRecoveryRequired
    /\ (TrimSpace (P_RunID p) <> "" \/ ParseTerminalMarker v <> None).

Lemma ParseTerminalMarker_payload v m : ParseTerminalMarker v = Some m ->
  exists p, v = JSON true p /\ m = {| M_RunID := P_RunID p; M_Outcome := P_Outcome p; M_Reason := P_Reason p; M_Warnings := P_Warnings p |}.
Proof.
  destruct v as [|[] p]; try done. simpl. repeat case_match; intros; simplify_eq. by exists p.
Qed.

Lemma parseHoldMarker_holds v : is_Some (parseHoldMarker v) <-> marker_holds v.
Proof.
  unfold parseHoldMarker, marker_holds. split.
  - intros [m Hm]. destruct (ParseTerminalMarker v) as [m'|] eqn:Ep.
    + destruct (ParseTerminalMarker_payload _ _ Ep) as (p & -> & ->). simpl in Hm. case_bool_decide; [|done].
      exists true, p. split; [done|]. split; [done|by right].
    + destruct v as [|strict p]; [done|]. case_bool_decide; [done|]. simpl in Hm.
      destruct (decide (P_Outcome p = ManualRecoveryRequired)); [|by rewrite bool_decide_true in Hm by done].
      exists strict, p. auto.
  - intros (strict & p & -> & Ho & Hr). destruct (ParseTerminalMarker (JSON strict p)) as [m'|] eqn:Ep.
    + destruct (ParseTerminalMarker_payload _ _ Ep) as (p' & [= -> ->] & ->). simpl. rewrite bool_decide_true by done. eauto.
    + destruct Hr as [Hr|?]; [|done]. rewrite bool_decide_false by done. simpl.
      rewrite bool_decide_false by (by intros ?). eauto.
Qed.

(** ** Theorems *)

(** Automation holds fail closed. A group is held exactly when status records a
    hold, or the condition says so without one, or its terminal marker - even one the
    strict parse rejects - names a run that ended in manual recovery. Recording a
    hold holds the group; an acknowledgement changes nothing unless it names the
    recorded run, and then only a marker still holds. *)
Theorem hold_fails_closed fg :
  (is_Some (PlannedHoldFrom fg) <->
     is_Some (Status_Hold fg) \/ (exists c, Conditions fg !! ConditionAutomaticFailoverHeld = Some c /\ Cond_True c = true)
     \/ marker_holds (PlannedFailoverTerminal fg))
  /\ (forall h, exists ph, PlannedHoldFrom (setPlannedHold fg h) = Some ph /\ PH_RunID ph = Hold_RunID h)
  /\ (forall runID, let '(fg', changed) := ClearPlannedHold fg runID in
        changed = statusHoldNames fg runID
        /\ (changed = false -> fg' = fg)
        /\ (changed = true -> (is_Some (PlannedHoldFrom fg') <-> marker_holds (PlannedFailoverTerminal fg)))).
Proof.
  assert (forall fg, is_Some (PlannedHoldFrom fg) <->
     is_Some (Status_Hold fg) \/ (exists c, Conditions fg !! ConditionAutomaticFailoverHeld = Some c /\ Cond_True c = true)
     \/ marker_holds (PlannedFailoverTerminal fg)) as Hfrom.
  { clear fg. intros fg. unfold PlannedHoldFrom. rewrite <- parseHoldMarker_holds.
    destruct (parseHoldMarker (PlannedFailoverTerminal fg)) as [m|].
    - split; [intros _; right; right; eauto|]. intros _. destruct (Status_Hold fg); [case_bool_decide; eauto|].
      destruct (Conditions fg !! _) as [c|]; [|eauto]. destruct (Cond_True c); [case_bool_decide; eauto|eauto].
    - destruct (Status_Hold fg) as [h|]; [split; eauto|].
      destruct (Conditions fg !! _) as [c|]; [destruct (Cond_True c) eqn:Ec|]; split; try done; try by eauto.
      + intros [[? ?]|[(c' & [= <-] & ?)|[? ?]]]; congruence.
      + intros [[? ?]|[(c' & ? & ?)|[? ?]]]; congruence. }
  split; [apply Hfrom|]. split.
  - intros h. unfold PlannedHoldFrom. simpl. destruct (parseHoldMarker _); [case_bool_decide|]; eauto.
  - intros runID. unfold ClearPlannedHold, statusHoldNames. destruct (Status_Hold fg) as [h|] eqn:Eh; [|done].
    destruct (decide (Hold_RunID h = runID)) as [Hr|Hr]; [rewrite bool_decide_false by (by intros ?)|by rewrite !bool_decide_true, bool_decide_false by done].
    split; [by rewrite bool_decide_true|]. split; [done|]. intros _. rewrite Hfrom. simpl. rewrite lookup_insert_eq.
    split; [|tauto]. intros [[? ?]|[(c & [= <-] & ?)|?]]; done.
Qed.

(** Deadline annotations read back: for a run id without a colon, the run and
    the second of the start; another run's annotation is not the run's. *)
Theorem deadline_start_round_trip runID start other :
  four_digit_year start -> runID <> "" -> lacks ":" runID = true ->
  ParseDeadlineStart (FormatDeadlineStart runID start) = Some (runID, TruncateSecond start)
  /\ parseDeadlineStart (FormatDeadlineStart runID start) other
     = if bool_decide (runID = other) then Some (TruncateSecond start) else None.
Proof.
  intros Hy Hr Hl. assert (ParseDeadlineStart (FormatDeadlineStart runID start) = Some (runID, TruncateSecond start)) as Hp.
  { unfold ParseDeadlineStart, FormatDeadlineStart.
    change (":since=" +:+ FormatBasic (TruncateSecond start)) with (String ":" ("since=" +:+ FormatBasic (TruncateSecond start))).
    rewrite Cut_found by done. rewrite bool_decide_false by done.
    change ("since=" +:+ FormatBasic (TruncateSecond start)) with ("since" +:+ String "=" (FormatBasic (TruncateSecond start))).
    rewrite Cut_found by done. rewrite bool_decide_false by (by intros ?).
    rewrite basic_round_trip by (by apply TruncateSecond_year). by rewrite TruncateSecond_idemp. }
  split; [done|]. unfold parseDeadlineStart. rewrite Hp. by do 2 case_bool_decide.
Qed.
