(* ===== verification/DeploymentLeases.v ===== *)
(** * Deployment leases

    [internal/controller/deployment_leases.go]: the leases by which deployments hold
    the topology still, and the admission gate they share with failovers, restores
    and updates. *)
From S2P Require Import Prelude GoStd Effects GoTime Sha256 PlannedRun.

Local Open Scope Z_scope.

#[local] Arguments prog_bind {Op Ans A B} _ _ : simpl never.

Module DeploymentLeases.

Import PlannedRun.

(** ** Stability of the group *)

Definition recoveryStateBlocked : string := "RecoveryBlocked".

Definition divergenceDetectedByAudit : string := "ReplicaAudit".

(** A report by the replica audit: an integrity warning that gates nothing. *)
Definition audit_only (s : SiteStatus) : bool :=
  bool_decide (RecoveryState s = recoveryStateBlocked)
  && bool_decide (DivergenceDetectedBy s = divergenceDetectedByAudit).

Definition divergenceIsReplicaAuditOnly (fg : Group) : bool :=
  forallb (fun s => bool_decide (RecoveryState s = "") || audit_only s) (Sites fg).

Fixpoint gating_sites (l : list SiteStatus) : string :=
  match l with
  | [] => ""
  | s :: l =>
      if bool_decide (RecoveryState s = "") then gating_sites l
      else if audit_only s then gating_sites l
      else if bool_decide (RecoveryState s = recoveryStateBlocked) then "DivergentTransactions"
      else RecoveryState s
  end.

Definition gatingRecoveryState (fg : Group) : string := gating_sites (Sites fg).

(** The condition loop of [DeploymentUnstableReason]: "" when it falls through. *)
Fixpoint condition_reasons (fg : Group) (names : list string) : string :=
  match names with
  | [] => ""
  | name :: names =>
      match Conditions fg !! name with
      | Some c =>
          if negb (Cond_True c) then condition_reasons fg names
          else if bool_decide (name = "Degraded") && bool_decide (Cond_Reason c = "ReplicationLagging")
          then condition_reasons fg names
          else if bool_decide (Cond_Reason c = "DivergentTransactions")
                  && (bool_decide (name = "Degraded") || divergenceIsReplicaAuditOnly fg)
          then condition_reasons fg names
          else
            let gating :=
              if bool_decide (name = "RecoveryPending") && bool_decide (Cond_Reason c = "DivergentTransactions")
              then gatingRecoveryState fg else "" in
            if bool_decide (gating <> "") then gating
            else if bool_decide (Cond_Reason c <> "") then Cond_Reason c
            else name
      | None => condition_reasons fg names
      end
  end.

(** One site of the last loop. *)
Definition site_reason (fg : Group) (s : SiteStatus) : string :=
  let active := bool_decide (Site_Name s = ActiveSite fg) in
  if active && bool_decide (Site_State s <> "writable") then "NoPrimary"
  else if negb active && bool_decide (Site_State s <> "read-only") then "SiteNotReady"
  else if negb active && restoreReclonePending fg (Site_Name s) then "RestoreReclonePending"
  else if bool_decide (RecoveryState s <> "") && negb (audit_only s) then RecoveryState s
  else if bool_decide (SourceConvergenceState s ∈ ["Pending"; "Blocked"])
  then "SourceConvergence" +:+ SourceConvergenceState s
  else if negb active && negb (Replicating s) then "ReplicationNotRunning"
  else "".

Fixpoint site_reasons (fg : Group) (l : list SiteStatus) : string :=
  match l with
  | [] => ""
  | s :: l => if bool_decide (site_reason fg s <> "") then site_reason fg s else site_reasons fg l
  end.

Definition restore_unsettled (fg : Group) : bool :=
  restoreInFlight fg
  || match Restore fg with
     | Some (BackupPhasePending | BackupPhaseRunning) => true
     | _ => false
     end.

Definition in_place_unsettled (fg : Group) : bool :=
  match RestoreInPlace fg with
  | Some (RestoreInPlaceSucceeded | RestoreInPlaceFailed | RestoreInPlaceNone) | None => false
  | Some _ => true
  end.

(** The reason Dragonfly gives, "" for none. *)
Definition dragonfly_reason (fg : Group) : string :=
  match Dragonfly fg with
  | None => ""
  | Some d =>
      if match Dragonfly_Upgrade d with
         | Some phase => bool_decide (phase ∉ [""; "Succeeded"; "Failed"])
         | None => false
         end then "DragonflyUpgrade"
      else if bool_decide (Dragonfly_Phase d ∉ [""; "Disabled"; "Ready"]) then "Dragonfly" +:+ Dragonfly_Phase d
      else ""
  end.

Definition not_ready (fg : Group) : bool :=
  match Conditions fg !! "Ready" with Some c => negb (Cond_True c) | None => true end.

Definition DeploymentUnstableReason (fg : Group) : string :=
  if bool_decide (RevokeDeploymentLeases fg <> None) then "DeploymentRevocationPending"
  else if bool_decide (ActiveSite fg = "") then
    match Conditions fg !! "Ready" with
    | Some c => if bool_decide (Cond_Reason c = "Initializing") then "Initializing" else "NoPrimary"
    | None => "NoPrimary"
    end
  else if plannedFailoverActive fg then "PlannedFailover"
  else if bool_decide (UpdatePhase fg <> "") then "OrderedUpdate"
  else if restore_unsettled fg then "Restore"
  else if bool_decide (dragonfly_reason fg <> "") then dragonfly_reason fg
  else if in_place_unsettled fg then "RestoreInPlace"
  else
    let conditions := condition_reasons fg ["Degraded"; "RecoveryPending"; "Bootstrapping"] in
    if bool_decide (conditions <> "") then conditions
    else if not_ready fg then "NotReady"
    else if negb (forallb (fun name => bool_decide (name ∈ map Site_Name (Sites fg))) (Spec_Sites fg))
    then "SiteNotObserved"
    else site_reasons fg (Sites fg).

(** ** Leases *)

Inductive LeaseState : Type := active | expired | revoked | released.

#[export] Instance LeaseState_eq_dec : EqDecision LeaseState.
Proof. solve_decision. Defined.

Record DeploymentLeaseView : Type := {
  Kind : string;
  OperationID : string;
  Instance_ : string;
  ExpiresAt : Z;
  V_Generation : Z
}.

(** [deploymentLeaseRecord]. *)
Record deploymentLeaseRecord : Type := {
  View : DeploymentLeaseView;
  Namespace : string;
  ServiceAccount : string;
  TokenHash : string;
  CreatedAt : Z;
  State : LeaseState;
  Reason : string
}.

#[export] Instance View_eta : Eta DeploymentLeaseView := fun v =>
  Build_DeploymentLeaseView (Kind v) (OperationID v) (Instance_ v) (ExpiresAt v) (V_Generation v).

#[export] Instance record_eta : Eta deploymentLeaseRecord := fun r =>
  Build_deploymentLeaseRecord (View r) (Namespace r) (ServiceAccount r) (TokenHash r) (CreatedAt r) (State r) (Reason r).

(** A [coordination.k8s.io] Lease: [Data] is the decoded record of its annotation
    ([None]: invalid), [KindLabel] and [StateLabel] the labels [List] selects by. *)
Record Lease : Type := {
  Name : string;
  Owners : list string;
  Data : option deploymentLeaseRecord;
  KindLabel : string;
  StateLabel : option LeaseState;
  HolderIdentity : string;
  RenewTime : Z;
  LeaseDurationSeconds : Z
}.

#[export] Instance Lease_eta : Eta Lease := fun l =>
  Build_Lease (Name l) (Owners l) (Data l) (KindLabel l) (StateLabel l) (HolderIdentity l) (RenewTime l)
    (LeaseDurationSeconds l).

(** [strings.TrimRight(s, "-.")]. *)
Fixpoint trim_left_dash (s : string) : string :=
  match s with
  | String c s' => if Ascii.eqb c "-" || Ascii.eqb c "." then trim_left_dash s' else s
  | EmptyString => ""
  end.

Definition TrimRightDash (s : string) : string := String.rev (trim_left_dash (String.rev s)).

Definition deploymentLeaseName (group kind operation : string) : string :=
  let name := "bloodraven-deploy-" +:+ group +:+ "-" +:+ kind in
  let name :=
    if bool_decide (operation = "") then name else name +:+ "-" +:+ SHA.hex (firstn 16 (SHA.Sum256 operation)) in
  if (63 <? String.length name)%nat
  then TrimRightDash (String.substring 0 38 name) +:+ "-" +:+ SHA.hex (firstn 12 (SHA.Sum256 name))
  else name.

Definition leaseTokenHash (token : string) : string := SHA.hex (SHA.Sum256 token).

(** ** Results *)

Record DeploymentLeaseError : Type := {
  Status : Z;
  Code : string;
  E_Reason : string;
  Holder : option DeploymentLeaseView;
  RetryAfterSeconds : Z;
  E_Generation : Z
}.

Inductive lease_error : Type :=
| ApiError
| ForeignLease
| InvalidLease
| GroupReplaced
| RandFailed
| InvalidReason
| RequestChanged
| Refused (e : DeploymentLeaseError).

Definition refuse (status : Z) (code : string) : lease_error :=
  Refused {| Status := status; Code := code; E_Reason := ""; Holder := None; RetryAfterSeconds := 0; E_Generation := 0 |}.

Definition unstable (reason : string) (retry : Z) : lease_error :=
  Refused {| Status := 423; Code := "unstable"; E_Reason := reason; Holder := None;
             RetryAfterSeconds := retry; E_Generation := 0 |}.

Definition revoked_error (reason : string) (generation : Z) : lease_error :=
  Refused {| Status := 409; Code := "revoked"; E_Reason := reason; Holder := None; RetryAfterSeconds := 0;
             E_Generation := generation |}.

Record DeploymentLeaseResult : Type := {
  R_View : option DeploymentLeaseView;
  Token : string;
  R_Status : Z
}.

(** ** Calls *)

Inductive lease_read : Type := ReadError | NotFound | Found (l : Lease).

(** The uncached reader and the client for the group and its Leases, the clock,
    [rand.Read], the injected claim check, and the atomics that emergency topology
    changes touch without the manager's mutex. *)
Inductive op : Type :=
| GetGroup
| RemoveRevokeAnnotation (fg : Group)
| GetLease (name : string)
| ListActiveHolds
| CreateLease (l : Lease)
| UpdateLease (l : Lease)
| Now
| Rand
| ClaimHeld
| LoadPending
| LoadRequireTopology
| LoadObserved
| DeletePending (epoch : Z)
| StoreObserved (uid : string)
| AddEpoch
| StorePendingIfAbsent (epoch : Z)
| SwapPending (old epoch : Z).

Definition ans (o : op) : Type :=
  match o with
  | GetGroup => option Group
  | GetLease _ => lease_read
  | ListActiveHolds => option (list Lease)
  | Now => Z
  | Rand => option (list Z)
  | LoadPending => option Z
  | LoadObserved => option string
  | AddEpoch => Z
  | StorePendingIfAbsent _ => option Z
  | StoreObserved _ => unit
  | _ => bool
  end.

Abbreviation P := (prog ans).

(** [let!?]: the next step, unless the last one returned an error. *)
Definition try_bind {E A B} (p : P (res E A)) (f : A -> P (res E B)) : P (res E B) :=
  prog_bind p (fun r => match r with Ok a => f a | Err e => Ret (Err e) end).

Notation "'let!?' x := p 'in' k" := (try_bind p (fun x => k))
  (at level 10, x pattern, p at level 100, k at level 200,
   format "'[v' 'let!?'  x  :=  p  'in' '/' k ']'") : go_scope.

Abbreviation R A := (res lease_error A).

(** ** The group and its leases *)

Definition fresh (fg : Group) : P (R Group) :=
  let! g := call GetGroup in
  Ret match (g : option Group) with
      | None => Err ApiError
      | Some g => if bool_decide (UID g <> UID fg) then Err GroupReplaced else Ok g
      end.

(** [read]: the Lease and its record, [None] when there is none. *)
Definition readLease (fg : Group) (kind operation : string)
  : P (R (option (Lease * deploymentLeaseRecord))) :=
  let! x := call (GetLease (deploymentLeaseName (GroupName fg) kind operation)) in
  Ret match (x : lease_read) with
      | ReadError => Err ApiError
      | NotFound => Ok None
      | Found l =>
          if bool_decide (Owners l <> [UID fg]) then Err ForeignLease
          else match Data l with
               | None => Err InvalidLease
               | Some r => Ok (Some (l, r))
               end
      end.

Definition newLease (fg : Group) (kind operation : string) : Lease :=
  {| Name := deploymentLeaseName (GroupName fg) kind operation; Owners := [UID fg]; Data := None;
     KindLabel := ""; StateLabel := None; HolderIdentity := ""; RenewTime := 0; LeaseDurationSeconds := 0 |}.

(** The Lease with the record and its projections. *)
Definition projected (l : Lease) (r : deploymentLeaseRecord) (now : Z) : Lease :=
  {| Name := Name l; Owners := Owners l; Data := Some r; KindLabel := Kind (View r); StateLabel := Some (State r);
     HolderIdentity := OperationID (View r); RenewTime := now;
     LeaseDurationSeconds := Z.max 1 (time_sub (ExpiresAt (View r)) now / Second) |}.

(** [write]: the Lease as written. *)
Definition writeLease (fg : Group) (l : option Lease) (r : deploymentLeaseRecord) (operation : string)
  : P (R Lease) :=
  let! now := call Now in
  let l' := projected (default (newLease fg (Kind (View r)) operation) l) r now in
  let! ok := (match l with None => call (CreateLease l') | Some _ => call (UpdateLease l') end : P bool) in
  Ret (if ok : bool then Ok l' else Err ApiError).

Definition archive (fg : Group) (r : deploymentLeaseRecord) : P (R Lease) :=
  let!? found := readLease fg (Kind (View r)) (OperationID (View r)) in
  writeLease fg (fst <$> found) r (OperationID (View r)).

(** What an active record has become by [now]. *)
Definition aged (fg : Group) (r : deploymentLeaseRecord) (now : Z) : deploymentLeaseRecord :=
  if now >? ExpiresAt (View r) then r <| State := expired |>
  else if bool_decide (RevokeDeploymentLeases fg <> None) then
    r <| State := revoked |> <| Reason := "operator_revoked" |>
  else if negb (V_Generation (View r) =? TopologyGeneration fg) then
    r <| State := revoked |> <| Reason := "topology_changed" |>
  else r.

(** [operation] is the variadic one ("" for none). *)
Definition current (fg : Group) (kind operation : string)
  : P (R (option (Lease * deploymentLeaseRecord))) :=
  let id := if bool_decide (kind = "failover-hold") then operation else "" in
  let!? found := readLease fg kind id in
  match found with
  | None => Ret (Ok None)
  | Some (l, r) =>
      if negb (bool_decide (State r = active)) then Ret (Ok (Some (l, r)))
      else
        let! now := call Now in
        let r := aged fg r now in
        if bool_decide (State r = active) then Ret (Ok (Some (l, r)))
        else
          let!? l := writeLease fg (Some l) r id in
          Ret (Ok (Some (l, r)))
  end.

(** The order of [sort.Slice]: by expiry, then operation. *)
Definition view_le (a b : DeploymentLeaseView) : Prop :=
  ExpiresAt a < ExpiresAt b \/ (ExpiresAt a = ExpiresAt b /\ String.le (OperationID a) (OperationID b)).

#[export] Instance view_le_dec : RelDecision view_le.
Proof. intros a b. unfold view_le. apply _. Defined.

Fixpoint collect_holds (fg : Group) (ls : list Lease) (views : list DeploymentLeaseView)
  : P (R (list DeploymentLeaseView)) :=
  match ls with
  | [] => Ret (Ok views)
  | l :: ls =>
      if bool_decide (Owners l <> [UID fg]) then collect_holds fg ls views
      else match Data l with
           | None => Ret (Err InvalidLease)
           | Some record =>
               let!? c := current fg "failover-hold" (OperationID (View record)) in
               match c with
               | Some (_, r) =>
                   if bool_decide (State r = active) then collect_holds fg ls (views ++ [View r])
                   else collect_holds fg ls views
               | None => collect_holds fg ls views
               end
           end
  end.

Definition currentHolds (fg : Group) : P (R (list DeploymentLeaseView)) :=
  let! ls := call ListActiveHolds in
  match (ls : option (list Lease)) with
  | None => Ret (Err ApiError)
  | Some ls =>
      let!? views := collect_holds fg ls [] in
      Ret (Ok (merge_sort view_le views))
  end.

(** ** Admission *)

Definition UnstableReason (fg : Group) : P string :=
  let reason := DeploymentUnstableReason fg in
  if bool_decide (reason ∈ ["DeploymentRevocationPending"; "Initializing"; "NoPrimary"; "PlannedFailover"])
  then Ret reason
  else
    let! held := call ClaimHeld in
    Ret (if (held : bool) || bool_decide (is_Some (PlannedHoldFrom fg)) then "PlannedFailover" else reason).

Definition topologyGate (fg : Group) : P (R unit) :=
  let! pending := call LoadPending in
  match (pending : option Z) with
  | Some _ => Ret (Err (unstable "TopologyPersistencePending" 1))
  | None =>
      let! observed := call LoadObserved in
      let! require := call LoadRequireTopology in
      Ret (if (require : bool) && bool_decide ((observed : option string) <> Some (UID fg))
           then Err (unstable "TopologyNotObserved" 1) else Ok tt)
  end.

(** [planned] is the reservation of [BeginPlanned], "" for none. *)
Definition gate (planned : string) (fg : Group) : P (R unit) :=
  if bool_decide (RevokeDeploymentLeases fg <> None) then Ret (Err (unstable "DeploymentRevocationPending" 1))
  else
    let!? _ := topologyGate fg in
    Ret (if bool_decide (planned <> "") then Err (unstable planned 1) else Ok tt).

Definition sameDeploymentHolder (r : deploymentLeaseRecord) (operation instance namespace sa : string) : bool :=
  bool_decide (OperationID (View r) = operation) && bool_decide (Instance_ (View r) = instance)
  && bool_decide (Namespace r = namespace) && bool_decide (ServiceAccount r = sa).

Definition validDeploymentKind (kind : string) : bool :=
  bool_decide (kind = "migration") || bool_decide (kind = "failover-hold").

(** [max(5, min(120, ttl))] seconds. *)
Definition lease_duration (ttl : Z) : Z := Z.max 5 (Z.min 120 ttl) * Second.

(** What the group's status refuses after a write. *)
Definition validateWrite (planned : string) (fg : Group) (kind operation : string) (grant : bool) : P (R unit) :=
  let!? g := fresh fg in
  if bool_decide (RevokeDeploymentLeases g <> None) then
    let!? _ := current g kind operation in
    Ret (Err (revoked_error "operator_revoked" (TopologyGeneration g)))
  else if negb (TopologyGeneration g =? TopologyGeneration fg) then
    let!? _ := current g kind operation in
    Ret (Err (revoked_error "topology_changed" (TopologyGeneration g)))
  else
    let! reason := (if grant then UnstableReason g else Ret "") in
    if bool_decide (reason <> "") then Ret (Err (unstable reason 1))
    else gate planned g.

(** ** Grants *)

(** A failover hold needs the caller's own active migration lease. *)
Definition authorise (fg : Group) (kind operationID instance namespace sa : string) : P (R unit) :=
  if bool_decide (kind = "failover-hold") then
    let!? migration := current fg "migration" "" in
    Ret match migration with
        | Some (_, r) =>
            if bool_decide (State r = active) && sameDeploymentHolder r operationID instance namespace sa
            then Ok tt else Err (refuse 403 "forbidden")
        | None => Err (refuse 403 "forbidden")
        end
  else Ret (Ok tt).

(** What the slot's record lets the grant do: the HTTP status and the creation time
    of the new lease. A revoked record of another operation is archived first. *)
Definition claim_slot (fg : Group) (slot : option (Lease * deploymentLeaseRecord)) (created : Z)
    (operationID instance namespace sa : string) : P (R (Z * Z)) :=
  match slot with
  | None => Ret (Ok (201, created))
  | Some (_, old) =>
      match State old with
      | active =>
          if sameDeploymentHolder old operationID instance namespace sa then Ret (Ok (200, CreatedAt old))
          else Ret (Err (Refused {| Status := 409; Code := "held"; E_Reason := ""; Holder := Some (View old);
                                    RetryAfterSeconds := 0; E_Generation := 0 |}))
      | revoked =>
          if bool_decide (OperationID (View old) <> operationID) then
            let!? _ := archive fg old in Ret (Ok (201, created))
          else Ret (Ok (201, created))
      | _ => Ret (Ok (201, created))
      end
  end.

(** The revocation that bars the operation: the slot's, or its tombstone. *)
Definition tombstone (slot tomb : option (Lease * deploymentLeaseRecord)) (operationID : string)
  : option deploymentLeaseRecord :=
  match slot with
  | Some (_, old) =>
      if bool_decide (OperationID (View old) = operationID) && bool_decide (State old = revoked)
      then Some old else snd <$> tomb
  | None => snd <$> tomb
  end.

(** From the checks on: the token, the write, and the checks after it. *)
Definition issue (planned : string) (fg : Group) (l : option Lease) (status created : Z)
    (kind operationID instance namespace sa : string) (ttl : Z) : P (R DeploymentLeaseResult) :=
  let! secret := call Rand in
  match (secret : option (list Z)) with
  | None => Ret (Err RandFailed)
  | Some secret =>
      let token := SHA.hex secret in
      let! now := call Now in
      let r := {| View := {| Kind := kind; OperationID := operationID; Instance_ := instance;
                             ExpiresAt := now + lease_duration ttl; V_Generation := TopologyGeneration fg |};
                  Namespace := namespace; ServiceAccount := sa; TokenHash := leaseTokenHash token;
                  CreatedAt := created; State := active; Reason := "" |} in
      let!? _ := writeLease fg l r (if bool_decide (kind = "failover-hold") then operationID else "") in
      let!? _ := (if bool_decide (kind = "failover-hold") then currentHolds fg else Ret (Ok [])) in
      let!? _ := gate planned fg in
      let!? _ := validateWrite planned fg kind operationID true in
      Ret (Ok {| R_View := Some (View r); Token := token; R_Status := status |})
  end.

Definition Grant (planned : string) (fg : Group) (kind operationID instance namespace sa : string) (ttl : Z)
  : P (R DeploymentLeaseResult) :=
  if negb (validDeploymentKind kind) || bool_decide (operationID = "") || bool_decide (instance = "")
     || bool_decide (namespace = "") || bool_decide (sa = "")
  then Ret (Err (refuse 400 "invalid_request"))
  else
    let!? fg := fresh fg in
    let!? _ := gate planned fg in
    let! reason := UnstableReason fg in
    if bool_decide (reason <> "") then Ret (Err (unstable reason 1))
    else
      let!? _ := authorise fg kind operationID instance namespace sa in
      let!? slot := current fg kind operationID in
      let! created := call Now in
      let!? (status, created) := claim_slot fg slot created operationID instance namespace sa in
      let!? tomb := readLease fg kind operationID in
      match tombstone slot tomb operationID with
      | Some t =>
          if bool_decide (State t = revoked) then Ret (Err (revoked_error (Reason t) (TopologyGeneration fg)))
          else issue planned fg (fst <$> slot) status created kind operationID instance namespace sa ttl
      | None => issue planned fg (fst <$> slot) status created kind operationID instance namespace sa ttl
      end.

(** ** Renewal and release *)

Definition no_content : DeploymentLeaseResult := {| R_View := None; Token := ""; R_Status := 204 |}.

(** The active lease of its holder is renewed or released. *)
Definition mutate_active (planned : string) (fg : Group) (l : Lease) (r : deploymentLeaseRecord)
    (kind operationID : string) (ttl : Z) (release : bool) : P (R DeploymentLeaseResult) :=
  let!? r :=
    (if release then Ret (Ok (r <| State := released |>))
     else
       let!? _ := gate planned fg in
       let! now := call Now in
       Ret (Ok (r <| View := View r <| ExpiresAt := now + lease_duration ttl |> |>))) in
  let!? _ := writeLease fg (Some l) r "" in
  if release then
    let!? _ := (if bool_decide (kind = "failover-hold") then currentHolds fg else Ret (Ok [])) in
    Ret (Ok no_content)
  else
    let!? _ := gate planned fg in
    let!? _ := validateWrite planned fg kind operationID false in
    Ret (Ok {| R_View := Some (View r); Token := ""; R_Status := 200 |}).

Definition mutate (planned : string) (fg : Group) (kind operationID instance namespace sa token : string)
    (ttl : Z) (release : bool) : P (R DeploymentLeaseResult) :=
  if negb (validDeploymentKind kind) then Ret (Err (refuse 400 "invalid_request"))
  else
    let!? fg := fresh fg in
    let!? slot := current fg kind operationID in
    let!? found :=
      match slot with
      | Some (_, r) =>
          if bool_decide (OperationID (View r) <> operationID) then readLease fg kind operationID
          else Ret (Ok slot)
      | None => readLease fg kind operationID
      end in
    match found with
    | None => Ret (if release then Ok no_content else Err (refuse 404 "not_found"))
    | Some (l, r) =>
        if negb (sameDeploymentHolder r operationID instance namespace sa)
           || bool_decide (TokenHash r <> leaseTokenHash token)
        then Ret (Err (refuse 403 "token_mismatch"))
        else match State r with
             | revoked =>
                 Ret (if release then Ok no_content else Err (revoked_error (Reason r) (TopologyGeneration fg)))
             | active => mutate_active planned fg l r kind operationID ttl release
             | _ => Ret (if release then Ok no_content else Err (refuse 404 "not_found"))
             end
    end.

Definition Renew (planned : string) (fg : Group) (kind operationID instance namespace sa token : string) (ttl : Z)
  : P (R DeploymentLeaseResult) := mutate planned fg kind operationID instance namespace sa token ttl false.

Definition Release (planned : string) (fg : Group) (kind operationID instance namespace sa token : string)
  : P (R unit) :=
  let!? _ := mutate planned fg kind operationID instance namespace sa token 0 true in Ret (Ok tt).

(** ** Listing *)

Fixpoint snapshot_attempts (n : nat) (planned : string) (fg : Group)
  : P (R (Group * list DeploymentLeaseView)) :=
  match n with
  | O => Ret (Err (unstable "TopologyObservationChanged" 1))
  | S n =>
      let!? g := fresh fg in
      let!? _ := topologyGate g in
      let! reason := UnstableReason g in
      let!? _ := (if bool_decide (reason = "") then gate planned g else Ret (Ok tt)) in
      let!? views := currentHolds g in
      let!? migration := current g "migration" "" in
      let views :=
        match migration with
        | Some (_, r) => if bool_decide (State r = active) then View r :: views else views
        | None => views
        end in
      let!? last := fresh g in
      let!? _ := topologyGate last in
      if ResourceVersion last =? ResourceVersion g then Ret (Ok (g, views))
      else snapshot_attempts n planned fg
  end.

Definition Snapshot (planned : string) (fg : Group) : P (R (Group * list DeploymentLeaseView)) :=
  snapshot_attempts 3 planned fg.

Definition List_ (planned : string) (fg : Group) : P (R (list DeploymentLeaseView)) :=
  let!? (_, views) := Snapshot planned fg in Ret (Ok views).

(** ** Reservations *)

(** The first active hold. *)
Definition hold (fg : Group) : P (R (option DeploymentLeaseView)) :=
  let!? holds := currentHolds fg in Ret (Ok (head holds)).

Definition Hold (fg : Group) : P (R (option DeploymentLeaseView)) :=
  let!? fg := fresh fg in hold fg.

Definition PlannedFailover_op : string := "PlannedFailover".
Definition RestoreInPlace_op : string := "RestoreInPlace".
Definition OrderedUpdate_op : string := "OrderedUpdate".

(** The operations that exclude this one. [claimHeld] is asked only when the run does
    not own the sites already. *)
Definition concurrent_operation (fg : Group) (operation : string) : P bool :=
  let! planned_run :=
    (if bool_decide (operation <> PlannedFailover_op) then
       if plannedFailoverOwnsSites fg then Ret true
       else
         let! held := call ClaimHeld in
         Ret ((held : bool) || bool_decide (is_Some (PlannedHoldFrom fg)))
     else Ret false) in
  Ret (planned_run
       || bool_decide (operation <> RestoreInPlace_op) && inPlaceRestoreInFlight fg
       || bool_decide (operation <> OrderedUpdate_op) && bool_decide (UpdatePhase fg <> "")).

(** The result and the reservation afterwards. *)
Definition BeginPlanned (planned : string) (fg : Group) (operation : string)
  : P (R (option DeploymentLeaseView) * string) :=
  let! r := fresh fg in
  match r with
  | Err e => Ret (Err e, planned)
  | Ok fg =>
      if bool_decide (RevokeDeploymentLeases fg <> None) then
        let! r := gate planned fg in
        Ret (match r with Err e => Err e | Ok _ => Ok None end, planned)
      else
        let! held := hold fg in
        match held with
        | Err e => Ret (Err e, planned)
        | Ok (Some h) => Ret (Ok (Some h), planned)
        | Ok None =>
            let! concurrent := concurrent_operation fg operation in
            if concurrent : bool then Ret (Err (unstable "ConcurrentOperation" 1), planned)
            else
              let! pending := call LoadPending in
              match (pending : option Z) with
              | Some _ => Ret (Err (unstable "TopologyPersistencePending" 1), planned)
              | None =>
                  if bool_decide (planned <> "") then Ret (Err (unstable planned 0), planned)
                  else Ret (Ok None, operation)
              end
        end
  end.

Definition EndPlanned (planned : string) : string := "".

(** ** Topology epochs *)

(** Whether the loop of [TopologyPending] ended within [fuel] rounds. *)
Fixpoint raise_pending (fuel : nat) (epoch : Z) : P bool :=
  match fuel with
  | O => Ret false
  | S fuel =>
      let! old := call (StorePendingIfAbsent epoch) in
      match (old : option Z) with
      | None => Ret true
      | Some old =>
          if old >=? epoch then Ret true
          else
            let! swapped := call (SwapPending old epoch) in
            if swapped : bool then Ret true else raise_pending fuel epoch
      end
  end.

Definition TopologyPending (fuel : nat) : P (Z * bool) :=
  let! epoch := call AddEpoch in
  let! ended := raise_pending fuel epoch in
  Ret (epoch, ended).

Definition TopologyPersisted (fg : Group) (epoch : Z) : P (R unit) :=
  let!? fg := fresh fg in
  let!? _ := current fg "migration" "" in
  let!? _ := currentHolds fg in
  let! deleted := call (DeletePending epoch) in
  let! _ := (if deleted : bool then call (StoreObserved (UID fg)) else Ret tt) in
  Ret (Ok tt).

(** ** Revocation *)

Fixpoint revoke_each (fg : Group) (reason : string) (views : list (string * string)) : P (R unit) :=
  match views with
  | [] => Ret (Ok tt)
  | (kind, operation) :: views =>
      let!? c := current fg kind operation in
      match c with
      | Some (l, r) =>
          if bool_decide (State r = active) then
            let!? _ := writeLease fg (Some l) (r <| State := revoked |> <| Reason := reason |>) "" in
            revoke_each fg reason views
          else revoke_each fg reason views
      | None => revoke_each fg reason views
      end
  end.

Definition revoke (fg : Group) (reason : string) : P (R unit) :=
  let!? holds := currentHolds fg in
  revoke_each fg reason (map (fun v => (Kind v, OperationID v)) holds ++ [("migration", "")]).

Definition Revoke (fg : Group) (reason : string) : P (R unit) :=
  if bool_decide (reason ∉ ["topology_changed"; "operator_revoked"]) then Ret (Err InvalidReason)
  else let!? fg := fresh fg in revoke fg reason.

(** The group as the caller sees it afterwards. *)
Definition reconcileRevocation (fg : Group) : P (R Group) :=
  let!? g := fresh fg in
  match RevokeDeploymentLeases g with
  | None => Ret (Ok g)
  | Some request =>
      let!? _ := revoke g "operator_revoked" in
      let!? g := fresh g in
      match RevokeDeploymentLeases g with
      | None => Ret (Ok g)
      | Some current =>
          if bool_decide (current <> request) then Ret (Err RequestChanged)
          else
            let! ok := call (RemoveRevokeAnnotation g) in
            Ret (if ok : bool then Ok (g <| RevokeDeploymentLeases := None |>) else Err ApiError)
      end
  end.

End DeploymentLeases.

Import PlannedRun DeploymentLeases.

#[local] Arguments try_bind {E A B} _ _ : simpl never.

(** ** Specification vocabulary *)

#[export] Instance View_eq_dec : EqDecision DeploymentLeaseView.
Proof. solve_decision. Defined.

#[export] Instance record_eq_dec : EqDecision deploymentLeaseRecord.
Proof. solve_decision. Defined.

#[export] Instance Lease_eq_dec : EqDecision Lease.
Proof. solve_decision. Defined.

Section revocation.

(** The group's name. *)
Context (G : string).

(** The Leases of the group's namespace, by name. *)
Abbreviation store := (gmap string Lease).

(** The API server between two leader changes, when the manager - its mutex held - is
    the only writer of the group's Leases. A read returns the stored object or an
    error; a list, stored objects; an acknowledged write was applied, a failed one
    may have been. Everything else may answer anything. *)
Definition served1 (st : store) (e : event ans) (st' : store) : Prop :=
  let '(existT o x) := e in
  match o return ans o -> Prop with
  | GetGroup => fun x => st' = st /\ forall g, x = Some g -> GroupName g = G
  | GetLease n => fun x => st' = st /\ (x = ReadError \/ x = match st !! n with Some l => Found l | None => NotFound end)
  | ListActiveHolds => fun x => st' = st /\ forall ls l, x = Some ls -> l ∈ ls -> st !! Name l = Some l
  | CreateLease l => fun x => (x = false /\ st' = st) \/ (st !! Name l = None /\ st' = <[Name l := l]> st)
  | UpdateLease l => fun x => (x = false /\ st' = st) \/ (is_Some (st !! Name l) /\ st' = <[Name l := l]> st)
  | _ => fun _ => st' = st
  end x.

Fixpoint served (st : store) (tr : list (event ans)) (st' : store) : Prop :=
  match tr with
  | [] => st' = st
  | e :: tr => exists st1, served1 st e st1 /\ served st1 tr st'
  end.

(** [triple Pre p Post]: from a store that satisfies [Pre], every served run of [p]
    ends in a result and a store that satisfy [Post]. *)
Definition triple {A} (Pre : store -> Prop) (p : P A) (Post : A -> store -> Prop) : Prop :=
  forall st tr a st', Pre st -> runs p tr a -> served st tr st' -> Post a st'.

(** ** The rules *)

Lemma served_app st t1 t2 st' : served st (t1 ++ t2) st' <-> exists st1, served st t1 st1 /\ served st1 t2 st'.
Proof.
  revert st. induction t1 as [|e t1 IH]; intros st; simpl; [naive_solver|].
  setoid_rewrite IH. naive_solver.
Qed.

Lemma triple_ret {A} (a : A) (Pre : store -> Prop) (Post : A -> store -> Prop) :
  (forall st, Pre st -> Post a st) -> triple Pre (Ret a) Post.
Proof. intros H st tr b st' Hp [-> ->]%runs_Ret_iff ->. auto. Qed.

Lemma triple_bind {A B} Pre (p : P A) (f : A -> P B) Mid Post :
  triple Pre p Mid -> (forall a, triple (Mid a) (f a) Post) -> triple Pre (prog_bind p f) Post.
Proof.
  intros Hp Hf st tr b st' Hpre (t1 & a & t2 & -> & H1 & H2)%runs_bind_iff (st1 & S1 & S2)%served_app.
  eapply Hf; [eapply Hp; eauto|exact H2|exact S2].
Qed.

Lemma triple_try {E A B} Pre (p : P (res E A)) (f : A -> P (res E B)) Mid Post :
  triple Pre p (fun r st => match r with Ok a => Mid a st | Err e => Post (Err e) st end) ->
  (forall a, triple (Mid a) (f a) Post) -> triple Pre (try_bind p f) Post.
Proof.
  intros Hp Hf. eapply triple_bind; [exact Hp|]. intros [a|e]; [apply Hf|]. by apply triple_ret.
Qed.

Lemma triple_conseq {A} (Pre Pre' : store -> Prop) (p : P A) (Post Post' : A -> store -> Prop) :
  triple Pre' p Post' -> (forall st, Pre st -> Pre' st) -> (forall a st, Post' a st -> Post a st) -> triple Pre p Post.
Proof. intros H H1 H2 st tr a st' Hp Hr Hs. eapply H2, H; eauto. Qed.

Lemma triple_call Pre o (Post : ans o -> store -> Prop) :
  (forall st x st', Pre st -> served1 st (ev o x) st' -> Post x st') -> triple Pre (call (Ans := ans) o) Post.
Proof.
  intros H st tr x st' Hp ->%runs_call_iff (st1 & H1 & ->). eauto.
Qed.

Lemma triple_pure {A} (phi : Prop) Pre (p : P A) Post :
  (phi -> triple Pre p Post) -> triple (fun st => Pre st /\ phi) p Post.
Proof. intros H st tr a st' [Hp Hphi]. by apply H. Qed.

Lemma triple_assume {A} (phi : Prop) Pre (p : P A) Post :
  (forall st, Pre st -> phi) -> (phi -> triple Pre p Post) -> triple Pre p Post.
Proof. intros H0 H st tr a st' Hp. by apply H; [eapply H0|]. Qed.

Lemma triple_exists {A X} (Pre : X -> store -> Prop) (p : P A) Post :
  (forall x, triple (Pre x) p Post) -> triple (fun st => exists x, Pre x st) p Post.
Proof. intros H st tr a st' [x Hp]. by eapply H. Qed.

(** Calls that leave the store alone. *)
Definition reads (o : op) : bool := match o with CreateLease _ | UpdateLease _ => false | _ => true end.

Lemma served1_reads st o x st' : reads o = true -> served1 st (ev o x) st' -> st' = st.
Proof. destruct o; try done; simpl; tauto. Qed.

Lemma triple_reads {A} (p : P A) Pre : only reads p -> triple Pre p (fun _ st => Pre st).
Proof.
  intros Ho st tr a st' Hp Hr Hs. specialize (Ho _ _ Hr). clear Hr. revert st Hp Hs.
  induction Ho as [|[o x] tr He _ IH]; intros st Hp; simpl; [by intros ->|].
  intros (st1 & H1 & Hs). apply served1_reads in H1 as ->; [|done]. eauto.
Qed.

Lemma only_try {E A B} Q (p : P (res E A)) (f : A -> P (res E B)) :
  only Q p -> (forall a, only Q (f a)) -> only Q (try_bind p f).
Proof. intros Hp Hf. apply only_bind; [done|]. intros [a|e]; [apply Hf|apply only_Ret]. Qed.

(** [only] through [let!?] as well. *)
Ltac solve_reads :=
  repeat match goal with
  | |- only _ (try_bind _ _) => apply only_try; [|intros ?]
  | |- _ => progress solve_only
  end.

Lemma fresh_reads fg : only reads (fresh fg).
Proof. unfold fresh. solve_reads. Qed.

Lemma readLease_reads fg kind operation : only reads (readLease fg kind operation).
Proof. unfold readLease. solve_reads. Qed.

Lemma gate_reads planned fg : only reads (gate planned fg).
Proof. unfold gate, topologyGate. solve_reads. Qed.

Lemma UnstableReason_reads fg : only reads (UnstableReason fg).
Proof. unfold UnstableReason. solve_reads. Qed.

(** ** Revocations *)

(** The kind and operation whose revocation is watched; the operations in play. *)
Context (K A : string) (ops : list string).

Definition slot_key (kind operation : string) : string :=
  if bool_decide (kind = "failover-hold") then operation else "".

Abbreviation name := (deploymentLeaseName G).

(** No two of the names in play collide. *)
Definition names_distinct : Prop :=
  A ∈ ops /\ (K = "migration" \/ K = "failover-hold")
  /\ (forall o, o ∈ ops -> name "migration" o <> name "migration" "" /\ name "failover-hold" o <> name "migration" "")
  /\ (forall o o', o ∈ ops -> o' ∈ ops -> name "failover-hold" o <> name "migration" o')
  /\ (forall o o', o ∈ ops -> o' ∈ ops -> name "migration" o = name "migration" o' -> o = o')
  /\ (forall o o', o ∈ ops -> o' ∈ ops -> name "failover-hold" o = name "failover-hold" o' -> o = o').

(** Every Lease is stored under its name, and its record's kind and operation are
    those of its name. *)
Definition wf_store (st : store) : Prop :=
  forall n l, st !! n = Some l -> Name l = n
    /\ forall r, Data l = Some r -> OperationID (View r) ∈ ops
        /\ ((Kind (View r) = "migration" /\ (n = name "migration" "" \/ n = name "migration" (OperationID (View r))))
            \/ (Kind (View r) = "failover-hold" /\ n = name "failover-hold" (OperationID (View r)))).

(** The operation's lease was revoked: in the slot, or in its tombstone. *)
Definition barred (st : store) : Prop :=
  exists n l r, (n = name K (slot_key K A) \/ n = name K A) /\ st !! n = Some l /\ Data l = Some r
    /\ OperationID (View r) = A /\ State r = revoked.

(** No lease of the operation is active. *)
Definition dormant (st : store) : Prop :=
  forall n l r, st !! n = Some l -> Data l = Some r -> Kind (View r) = K -> OperationID (View r) = A -> State r <> active.

Definition Inv (st : store) : Prop := wf_store st /\ barred st /\ dormant st.

Lemma dormant_insert st n l r : dormant st -> Data l = Some r ->
  (Kind (View r) = K -> OperationID (View r) = A -> State r <> active) -> dormant (<[n := l]> st).
Proof.
  intros Hd Hl Hr m lm rm [[<- <-]|[_ Hm]]%lookup_insert_Some Hrm; [|by eapply Hd].
  rewrite Hl in Hrm. by injection Hrm as <-.
Qed.

(** The Lease [l] stands for the stored record [r] at [n]. *)
Definition holds_at (n : string) (l : Lease) (r : deploymentLeaseRecord) (st : store) : Prop :=
  Name l = n /\ exists l0, st !! n = Some l0 /\ Data l0 = Some r.

(** A write over an active record of the same kind and operation keeps everything. *)
Lemma keep_over_active st n l l' r r' : Inv st -> holds_at n l r st -> State r = active ->
  Name l' = n -> Data l' = Some r' -> Kind (View r') = Kind (View r) -> OperationID (View r') = OperationID (View r) ->
  Inv (<[n := l']> st).
Proof.
  intros (Hwf & (nb & lb & rb & Hn & Hb & Hd & Ho & Hs) & Hdor) (_ & l0 & Hl0 & Hd0) Ha Hn' Hd' Hk Hop.
  split; [|split; [|eapply dormant_insert; [done|exact Hd'|rewrite Hk, Hop; intros H1 H2; by destruct (Hdor _ _ _ Hl0 Hd0 H1 H2)]]].
  - intros m lm [[<- <-]|[Hne Hm]]%lookup_insert_Some; [|by apply Hwf].
    split; [done|]. intros r2 H2. rewrite Hd' in H2. injection H2 as <-. rewrite Hk, Hop. by eapply Hwf.
  - exists nb, lb, rb. rewrite lookup_insert_ne; [done|]. intros ->. rewrite Hl0 in Hb. injection Hb as <-. congruence.
Qed.

Lemma triple_readLease fg kind operation Pre : GroupName fg = G ->
  triple Pre (readLease fg kind operation) (fun x st => Pre st /\
    match x with
    | Ok (Some (l, r)) => st !! name kind operation = Some l /\ Data l = Some r
    | Ok None => st !! name kind operation = None
    | Err _ => True
    end).
Proof.
  intros Hg. unfold readLease. rewrite Hg. eapply triple_bind.
  - apply (triple_call _ (GetLease (name kind operation)) (fun x st => Pre st /\
      (x = ReadError \/ x = match st !! name kind operation with Some l => Found l | None => NotFound end))).
    intros st x st' Hp [-> Hx]. auto.
  - intros x. apply triple_ret. intros st [Hp [->|Hx]]; [done|]. split; [done|].
    destruct (st !! name kind operation) as [l|] eqn:El; subst x; [|done].
    case_bool_decide; [done|]. by destruct (Data l) eqn:Ed.
Qed.

(** A write is applied or not; only an applied one is acknowledged. *)
Lemma triple_write fg l r operation Pre (Post : R Lease -> store -> Prop) base :
  base = default (newLease fg (Kind (View r)) operation) l ->
  (forall st, Pre st -> Post (Err ApiError) st) ->
  (forall now st, Pre st -> let l' := projected base r now in
     Post (Ok l') (<[Name base := l']> st) /\ Post (Err ApiError) (<[Name base := l']> st)) ->
  triple Pre (writeLease fg l r operation) Post.
Proof.
  intros -> H0 H1. unfold writeLease. eapply triple_bind; [apply triple_reads, only_call; done|]. intros now. simpl.
  set (l' := projected _ r now). eapply triple_bind with (Mid := fun (ok : bool) st => Post (if ok then Ok l' else Err ApiError) st).
  - assert (forall st x st', Pre st -> (x = false /\ st' = st) \/ st' = <[Name l' := l']> st ->
      Post (if x : bool then Ok l' else Err ApiError) st') as Hput.
    { intros st x st' Hp [[-> ->]| ->]; [by apply H0|]. destruct (H1 now st Hp) as [? ?]. by destruct x. }
    destruct l as [l|].
    + apply (triple_call _ (UpdateLease l') (fun (x : bool) st => Post (if x then Ok l' else Err ApiError) st)).
      intros st x st' Hp Hs. eapply Hput; [exact Hp|]. destruct Hs as [?|[_ ?]]; auto.
    + apply (triple_call _ (CreateLease l') (fun (x : bool) st => Post (if x then Ok l' else Err ApiError) st)).
      intros st x st' Hp Hs. eapply Hput; [exact Hp|]. destruct Hs as [?|[_ ?]]; auto.
  - intros ok. by apply triple_ret.
Qed.

(** A write over the active record it was read as. *)
Lemma triple_write_active fg n l r r' operation :
  State r = active -> Kind (View r') = Kind (View r) -> OperationID (View r') = OperationID (View r) ->
  triple (fun st => Inv st /\ holds_at n l r st) (writeLease fg (Some l) r' operation) (fun x st => Inv st
    /\ forall l', x = Ok l' -> holds_at n l' r' st).
Proof.
  intros Ha Hk Ho. eapply triple_write with (base := l); [done|by intros st [? _]|].
  intros now st [Hi Hh] l'. pose proof Hh as [Hn _]. rewrite Hn.
  assert (Inv (<[n := l']> st)) as Hi' by (eapply keep_over_active; [exact Hi|exact Hh|done..]).
  split; (split; [done|]); intros l2 Hl2; [|done]. injection Hl2 as <-. split; [done|]. exists l'.
  by rewrite lookup_insert_eq.
Qed.

(** What a read of the slot [n] tells about the store. *)
Definition slot_read (n : string) (x : R (option (Lease * deploymentLeaseRecord))) (st : store) : Prop :=
  match x with
  | Ok (Some (l, r)) => holds_at n l r st
  | Ok None => st !! n = None
  | Err _ => True
  end.

Lemma aged_identity fg r now :
  Kind (View (aged fg r now)) = Kind (View r) /\ OperationID (View (aged fg r now)) = OperationID (View r).
Proof. unfold aged. by repeat case_match. Qed.

Lemma aged_state fg r now : State r = active -> State (aged fg r now) <> active -> State (aged fg r now) <> released.
Proof. unfold aged. intros Ha Hn. repeat case_match; simpl in *; congruence. Qed.

Lemma triple_read_slot fg kind operation : GroupName fg = G ->
  triple Inv (readLease fg kind operation) (fun x st => Inv st /\ slot_read (name kind operation) x st).
Proof.
  intros Hg. eapply triple_conseq; [by apply triple_readLease|exact (fun _ H => H)|].
  intros [[[l r]|]|e] st [Hi Hx]; simpl; split; try done. destruct Hx as [Hl Hd]. split; [by apply Hi|].
  by exists l.
Qed.

Lemma triple_current fg kind operation : GroupName fg = G ->
  triple Inv (current fg kind operation)
    (fun x st => Inv st /\ slot_read (name kind (slot_key kind operation)) x st).
Proof.
  intros Hg. unfold current. change (if bool_decide (kind = "failover-hold") then operation else "") with (slot_key kind operation).
  set (n := name kind (slot_key kind operation)).
  eapply triple_try with (Mid := fun x st => Inv st /\ slot_read n (Ok x) st).
  { eapply triple_conseq; [by apply triple_read_slot|done|]. by intros [x|e] st [? ?]. }
  intros [[l r]|]; [|by apply triple_ret].
  destruct (bool_decide (State r = active)) eqn:Ea; [apply bool_decide_eq_true in Ea|by apply triple_ret].
  eapply triple_bind; [apply triple_reads, only_call; done|]. intros now. simpl.
  destruct (aged_identity fg r now) as [Hk Ho].
  destruct (bool_decide (State (aged fg r now) = active)) eqn:Ea'; [apply bool_decide_eq_true in Ea'|].
  { apply triple_ret. intros st [Hi Hh]. split; [done|]. simpl.
    assert (aged fg r now = r) as ->; [|done]. unfold aged in *. repeat case_match; simpl in *; congruence. }
  eapply triple_try with (Mid := fun l' st => Inv st /\ holds_at n l' (aged fg r now) st).
  { eapply triple_conseq; [by apply (triple_write_active fg n l r)|done|].
    intros [l'|e] st [Hi Hl]; [split; [done|by apply Hl]|done]. }
  intros l'. by apply triple_ret.
Qed.

(** Programs that keep every revocation. *)
Definition keeps {A} (p : P A) : Prop := triple Inv p (fun _ => Inv).

Lemma keeps_try {E B C} (p : P (res E B)) (f : B -> P (res E C)) : keeps p -> (forall b, keeps (f b)) -> keeps (try_bind p f).
Proof.
  intros Hp Hf. eapply triple_try with (Mid := fun _ => Inv); [|done].
  eapply triple_conseq; [exact Hp|done|]. by intros [?|?] st.
Qed.

Lemma keeps_bind {B C} (p : P B) (f : B -> P C) : keeps p -> (forall b, keeps (f b)) -> keeps (prog_bind p f).
Proof. intros Hp Hf. by eapply triple_bind. Qed.

Lemma keeps_reads {B} (p : P B) : only reads p -> keeps p.
Proof. apply triple_reads. Qed.

Lemma keeps_ret {B} (b : B) : keeps (Ret b).
Proof. by apply triple_ret. Qed.

Lemma keeps_current fg kind operation : GroupName fg = G -> keeps (current fg kind operation).
Proof. intros Hg. eapply triple_conseq; [by apply triple_current|done|]. by intros x st [? _]. Qed.

Lemma keeps_collect fg ls views : GroupName fg = G -> keeps (collect_holds fg ls views).
Proof.
  intros Hg. revert views. induction ls as [|l ls IH]; intros views; simpl; [apply keeps_ret|].
  case_bool_decide; [apply IH|]. destruct (Data l); [|apply keeps_ret].
  apply keeps_try; [by apply keeps_current|]. intros [[l' r]|]; [case_bool_decide|]; apply IH.
Qed.

Lemma keeps_currentHolds fg : GroupName fg = G -> keeps (currentHolds fg).
Proof.
  intros Hg. unfold currentHolds. apply keeps_bind; [by apply keeps_reads, only_call|].
  intros [ls|]; [|apply keeps_ret]. apply keeps_try; [by apply keeps_collect|intros; apply keeps_ret].
Qed.

(** A fresh group is the group. *)
Lemma triple_fresh fg Pre : triple Pre (fresh fg) (fun x st => Pre st /\ forall g, x = Ok g -> GroupName g = G).
Proof.
  unfold fresh. eapply triple_bind.
  - apply (triple_call _ GetGroup (fun x st => Pre st /\ forall g, x = Some g -> GroupName g = G)).
    by intros st x st' Hp [-> Hx].
  - intros [g|]; apply triple_ret; intros st [Hp Hg]; [case_bool_decide|]; split; try done.
    intros g' [= <-]. auto.
Qed.

Lemma keeps_fresh {B} fg (f : Group -> P (R B)) : (forall g, GroupName g = G -> keeps (f g)) ->
  keeps (try_bind (fresh fg) f).
Proof.
  intros Hf. eapply triple_try with (Mid := fun g st => Inv st /\ GroupName g = G).
  - eapply triple_conseq; [apply (triple_fresh fg Inv)|done|]. intros [g|e] st [Hi Hg]; [auto|done].
  - intros g st tr a st' [Hi Hg]. by apply Hf.
Qed.

Lemma keeps_gate planned fg : keeps (gate planned fg).
Proof. apply keeps_reads, gate_reads. Qed.

Lemma keeps_stable fg : keeps (UnstableReason fg).
Proof. apply keeps_reads, UnstableReason_reads. Qed.

Lemma keeps_call o : reads o = true -> keeps (call (Ans := ans) o).
Proof. intros Ho. by apply keeps_reads, only_call. Qed.

Create HintDb keeps discriminated.
Hint Resolve keeps_ret keeps_gate keeps_stable keeps_current keeps_currentHolds : keeps.
Hint Extern 1 (keeps (call _)) => apply keeps_call; reflexivity : keeps.
Hint Extern 1 (keeps (topologyGate _)) => apply keeps_reads; unfold topologyGate; solve_reads : keeps.
Hint Extern 1 (keeps (readLease _ _ _)) => apply keeps_reads, readLease_reads : keeps.

(** [keeps] by the program's structure. *)
Ltac solve_keeps :=
  repeat match goal with
  | |- keeps (try_bind (fresh _) _) => apply keeps_fresh; intros ? ?
  | |- keeps (try_bind _ _) => apply keeps_try; [|intros ?]
  | |- keeps (prog_bind _ _) => apply keeps_bind; [|intros ?]
  | |- keeps (if ?b then _ else _) => destruct b
  | |- keeps (match ?x with _ => _ end) => destruct x
  | |- keeps _ => solve [auto with keeps]
  end.

Lemma keeps_validateWrite planned fg kind operation grant : keeps (validateWrite planned fg kind operation grant).
Proof. unfold validateWrite. solve_keeps. Qed.

Lemma keeps_hold fg : GroupName fg = G -> keeps (hold fg).
Proof. intros Hg. unfold hold. solve_keeps. Qed.

Hint Resolve keeps_validateWrite keeps_hold : keeps.

Lemma keeps_Snapshot planned fg : keeps (Snapshot planned fg).
Proof.
  unfold Snapshot. generalize 3%nat. induction n as [|n IH]; simpl; [auto with keeps|].
  solve_keeps.
Qed.

(** Over the active lease just read. *)
Lemma keeps_write_active n l r r' fg operation : State r = active ->
  Kind (View r') = Kind (View r) -> OperationID (View r') = OperationID (View r) ->
  triple (fun st => Inv st /\ holds_at n l r st) (writeLease fg (Some l) r' operation) (fun _ => Inv).
Proof.
  intros. eapply triple_conseq; [by apply (triple_write_active fg n l r r' operation)|done|]. by intros x st [? _].
Qed.

Lemma keeps_mutate_active planned fg n l r kind operationID ttl release : GroupName fg = G -> State r = active ->
  triple (fun st => Inv st /\ holds_at n l r st)
    (mutate_active planned fg l r kind operationID ttl release) (fun _ => Inv).
Proof.
  intros Hg Ha. unfold mutate_active. set (Pre := fun st => Inv st /\ holds_at n l r st).
  eapply triple_try with (Mid := fun r' st => Pre st
    /\ (Kind (View r') = Kind (View r) /\ OperationID (View r') = OperationID (View r))).
  - destruct release; [by apply triple_ret|].
    eapply triple_try with (Mid := fun _ => Pre).
    { eapply triple_conseq; [apply (triple_reads _ Pre), gate_reads|done|]. by intros [?|?] st [??]. }
    intros _. eapply triple_bind; [apply triple_reads, only_call; done|]. intros now. by apply triple_ret.
  - intros r'. apply triple_pure. intros [Hk Ho]. eapply triple_try with (Mid := fun _ => Inv).
    + eapply triple_conseq; [by apply (keeps_write_active n l r)|done|]. by intros [?|?] st ?.
    + intros _. change (keeps (if release then
        let!? _ := (if bool_decide (kind = "failover-hold") then currentHolds fg else Ret (Ok [])) in Ret (Ok no_content)
        else let!? _ := gate planned fg in let!? _ := validateWrite planned fg kind operationID false in
             Ret (Ok {| R_View := Some (View r'); Token := ""; R_Status := 200 |}))).
      solve_keeps.
Qed.

Lemma keeps_mutate planned fg kind operationID instance namespace sa token ttl release :
  keeps (mutate planned fg kind operationID instance namespace sa token ttl release).
Proof.
  unfold mutate. destruct (negb (validDeploymentKind kind)); [auto with keeps|]. apply keeps_fresh. intros g Hg.
  eapply triple_try with (Mid := fun x st => exists n, Inv st /\ slot_read n (Ok x) st).
  { eapply triple_conseq; [by apply triple_current|done|]. intros [?|?] st [??]; eauto. }
  assert (triple Inv (readLease g kind operationID) (fun r st => match r with
    | Ok a => exists n, Inv st /\ slot_read n (Ok a) st | Err _ => Inv st end)) as Hr.
  { eapply triple_conseq; [by apply triple_read_slot|done|]. intros [?|?] st [??]; eauto. }
  intros slot. eapply triple_try with (Mid := fun x st => exists n, Inv st /\ slot_read n (Ok x) st).
  { destruct slot as [[l r]|]; [case_bool_decide|].
    - eapply triple_conseq; [exact Hr|by intros st (n & ? & _)|done].
    - by apply triple_ret.
    - eapply triple_conseq; [exact Hr|by intros st (n & ? & _)|done]. }
  intros found. apply triple_exists. intros n. destruct found as [[l r]|]; [|apply triple_ret; by intros st [? _]].
  destruct (_ || _); [apply triple_ret; by intros st [? _]|].
  destruct (State r) eqn:Es; try (apply triple_ret; by intros st [? _]). by apply keeps_mutate_active.
Qed.

Lemma keeps_revoke_each fg reason views : GroupName fg = G -> keeps (revoke_each fg reason views).
Proof.
  intros Hg. induction views as [|[kind operation] views IH]; simpl; [auto with keeps|].
  eapply triple_try with (Mid := fun x st => Inv st /\ slot_read (name kind (slot_key kind operation)) (Ok x) st).
  { eapply triple_conseq; [by apply triple_current|done|]. by intros [?|?] st [??]. }
  intros [[l r]|]; [|eapply triple_conseq; [exact IH|by intros st [? _]|done]].
  destruct (bool_decide (State r = active)) eqn:Ea; [apply bool_decide_eq_true in Ea|];
    [|eapply triple_conseq; [exact IH|by intros st [? _]|done]].
  eapply triple_try with (Mid := fun _ => Inv); [|done].
  eapply triple_conseq; [by apply (keeps_write_active (name kind (slot_key kind operation)) l r)|done|]. by intros [?|?] st ?.
Qed.

Lemma keeps_revoke fg reason : GroupName fg = G -> keeps (revoke fg reason).
Proof. intros Hg. unfold revoke. apply keeps_try; [auto with keeps|]. intros ?. by apply keeps_revoke_each. Qed.

Hint Resolve keeps_revoke : keeps.

Lemma keeps_reconcileRevocation fg : keeps (reconcileRevocation fg).
Proof. unfold reconcileRevocation. solve_keeps. Qed.

Lemma keeps_TopologyPersisted fg epoch : keeps (TopologyPersisted fg epoch).
Proof. unfold TopologyPersisted. solve_keeps. Qed.

Lemma keeps_BeginPlanned planned fg operation : keeps (BeginPlanned planned fg operation).
Proof.
  unfold BeginPlanned. eapply triple_bind with (Mid := fun x st => Inv st /\ forall g, x = Ok g -> GroupName g = G);
    [apply triple_fresh|].
  intros [g|e]; [|apply triple_ret; by intros st [? _]]. apply triple_pure. intros Hg. specialize (Hg g eq_refl).
  assert (forall b, keeps (concurrent_operation b operation)) as Hc
    by (intros b; apply keeps_reads; unfold concurrent_operation; solve_reads).
  change (keeps (if bool_decide (RevokeDeploymentLeases g <> None) then
        let! r := gate planned g in Ret (match r with Err e => Err e | Ok _ => Ok None end, planned)
      else
        let! held := hold g in
        match held with
        | Err e => Ret (Err e, planned)
        | Ok (Some h) => Ret (Ok (Some h), planned)
        | Ok None =>
            let! concurrent := concurrent_operation g operation in
            if concurrent : bool then Ret (Err (unstable "ConcurrentOperation" 1), planned)
            else
              let! pending := call LoadPending in
              match (pending : option Z) with
              | Some _ => Ret (Err (unstable "TopologyPersistencePending" 1), planned)
              | None =>
                  if bool_decide (planned <> "") then Ret (Err (unstable planned 0), planned)
                  else Ret (Ok None, operation)
              end
        end)).
  solve_keeps.
Qed.

(** *** Grants *)

Context (Hnames : names_distinct).

Lemma keeps_authorise fg kind operationID instance namespace sa : GroupName fg = G ->
  keeps (authorise fg kind operationID instance namespace sa).
Proof. intros Hg. unfold authorise. solve_keeps. Qed.

(** A revoked record of another operation is in its tombstone. *)
Definition archived (old : deploymentLeaseRecord) (st : store) : Prop :=
  exists lb, st !! name (Kind (View old)) (OperationID (View old)) = Some lb /\ Data lb = Some old.

(** The record of a slot has the slot's kind; a hold's slot is its operation's. *)
Lemma slot_record st kind operationID l r : wf_store st -> operationID ∈ ops -> validDeploymentKind kind = true ->
  holds_at (name kind (slot_key kind operationID)) l r st ->
  Kind (View r) = kind /\ OperationID (View r) ∈ ops
  /\ (kind = "failover-hold" -> OperationID (View r) = operationID).
Proof.
  intros Hwf Hop Hk (_ & l0 & Hl & Hd). destruct Hnames as (_ & _ & N1 & N2 & N3 & N4).
  destruct (Hwf _ _ Hl) as [_ Hr]. destruct (Hr _ Hd) as [Ho Hn]. clear Hr.
  unfold validDeploymentKind in Hk. rewrite orb_true_iff, !bool_decide_eq_true in Hk.
  destruct Hk as [-> | ->]; unfold slot_key in Hn; simpl in Hn; destruct Hn as [[-> Hn]|[-> Hn]].
  - done.
  - by destruct (N1 _ Ho) as [_ []].
  - destruct Hn as [Hn|Hn]; [by destruct (N1 _ Hop) as [_ []]|by destruct (N2 _ _ Hop Ho)].
  - split; [done|]. split; [done|]. intros _. symmetry. by apply N4.
Qed.

(** Writing a revoked record to its own tombstone keeps everything. *)
Lemma keep_tombstone st l old : Inv st -> Kind (View old) = "migration" -> OperationID (View old) ∈ ops ->
  State old = revoked -> Name l = name "migration" (OperationID (View old)) -> Data l = Some old ->
  Inv (<[Name l := l]> st).
Proof.
  intros (Hwf & (nb & lb & rb & Hn & Hb & Hd & Ho & Hs) & Hdor) Hk Hop Hst Hname Hdl.
  destruct Hnames as (HA & HK & N1 & N2 & N3 & N4).
  split; [|split; [|eapply dormant_insert; [done|exact Hdl|by rewrite Hst]]].
  - intros m lm [[<- <-]|[_ Hm]]%lookup_insert_Some; [|by apply Hwf]. split; [done|]. intros r Hr.
    rewrite Hdl in Hr. injection Hr as <-. split; [done|]. left. rewrite Hname. auto.
  - destruct (decide (nb = Name l)) as [Heq|]; [|exists nb, lb, rb; by rewrite lookup_insert_ne].
    rewrite Hname in Heq. rewrite Heq in Hn. destruct HK as [HK|HK]; rewrite HK in Hn.
    + unfold slot_key in Hn. simpl in Hn. destruct Hn as [Hn|Hn]; [by destruct (N1 _ Hop) as [[] _]|].
      assert (OperationID (View old) = A) as HoA by (by apply N3).
      exists (Name l), l, old. rewrite lookup_insert_eq, Hname, HoA, HK. split; [by right|done].
    + unfold slot_key in Hn. simpl in Hn. by destruct Hn as [Hn|Hn]; destruct (N2 A _ HA Hop).
Qed.

Lemma triple_archive fg old : GroupName fg = G -> Kind (View old) = "migration" -> OperationID (View old) ∈ ops ->
  State old = revoked ->
  forall l, triple (fun st => Inv st /\ holds_at (name "migration" "") l old st) (archive fg old) (fun x st => Inv st
    /\ forall l', x = Ok l' -> holds_at (name "migration" "") l old st /\ archived old st).
Proof.
  intros Hg Hk Hop Hs l. unfold archive. rewrite Hk. set (Pre := fun st => Inv st /\ holds_at (name "migration" "") l old st).
  destruct Hnames as (_ & _ & N1 & _). destruct (N1 _ Hop) as [Hne _].
  set (Post := fun (x : R Lease) st => Inv st /\ forall l', x = Ok l' -> holds_at (name "migration" "") l old st /\ archived old st).
  assert (forall found base, base = default (newLease fg (Kind (View old)) (OperationID (View old))) found ->
    Name base = name "migration" (OperationID (View old)) ->
    triple Pre (writeLease fg found old (OperationID (View old))) Post) as Hw.
  { intros found base Hbase Hb. eapply triple_write; [exact Hbase|by intros st [? _]|].
    intros now st [Hi (Hnl & l0 & Hl0 & Hd0)] l'.
    assert (Inv (<[Name base := l']> st)) as Hi' by (by apply (keep_tombstone st l' old)).
    assert (holds_at (name "migration" "") l old (<[Name base := l']> st)) as Hh
      by (split; [done|]; exists l0; by rewrite Hb, lookup_insert_ne).
    assert (archived old (<[Name base := l']> st)) as Har by (exists l'; by rewrite Hk, Hb, lookup_insert_eq).
    by split. }
  eapply triple_try with (Mid := fun x st => Pre st /\ match x with Some (l', _) => Name l' = name "migration" (OperationID (View old)) | None => True end).
  { eapply triple_conseq; [by apply (triple_readLease fg _ _ Pre)|done|].
    intros [[[l' r']|]|e] st [Hp Hx]; [split; [done|]; destruct Hx as [Hx _]; destruct Hp as [[Hwf _] _]; by destruct (Hwf _ _ Hx)|done|].
    split; [apply Hp|done]. }
  intros [[l' r']|]; apply triple_pure; intros Hx; [by apply (Hw (Some l') l')|].
  apply (Hw None (newLease fg (Kind (View old)) (OperationID (View old)))); [done|]. simpl. by rewrite Hg, Hk.
Qed.

(** What the checks before [issue] establish: the slot still holds the record read,
    and another operation's revoked record is archived. *)
Definition slot_free (kind operationID : string) (slot : option (Lease * deploymentLeaseRecord)) (st : store) : Prop :=
  Inv st /\ slot_read (name kind (slot_key kind operationID)) (Ok slot) st
  /\ match slot with
     | Some (_, old) => State old = revoked -> OperationID (View old) <> operationID -> archived old st
     | None => True
     end.

Lemma triple_claim_slot fg kind slot created operationID instance namespace sa :
  GroupName fg = G -> operationID ∈ ops -> validDeploymentKind kind = true ->
  triple (fun st => Inv st /\ slot_read (name kind (slot_key kind operationID)) (Ok slot) st)
    (claim_slot fg slot created operationID instance namespace sa)
    (fun x st => Inv st /\ forall c, x = Ok c -> slot_free kind operationID slot st).
Proof.
  intros Hg Hop Hk. unfold claim_slot, slot_free. destruct slot as [[l old]|];
    [|apply triple_ret; intros st [Hi Hr]; split; [done|]; by intros c _].
  destruct (State old) eqn:Es; try (destruct (sameDeploymentHolder _ _ _ _ _));
    try (apply triple_ret; intros st [Hi Hr]; split; [done|]; intros c Hc; split; [done|]; split; [done|]; congruence).
  destruct (bool_decide (OperationID (View old) <> operationID)) eqn:Eo; cycle 1.
  { apply bool_decide_eq_false in Eo. apply triple_ret. intros st [Hi Hr]. split; [done|]. intros c _. split; [done|]. by split. }
  apply bool_decide_eq_true in Eo.
  apply (triple_assume (kind = "migration" /\ Kind (View old) = "migration" /\ OperationID (View old) ∈ ops)).
  { intros st [Hi Hr]. destruct (slot_record st kind operationID l old) as (Hkind & Hold & Hh); [apply Hi|done..|].
    unfold validDeploymentKind in Hk. rewrite orb_true_iff, !bool_decide_eq_true in Hk.
    destruct Hk as [->|Hk]; [done|]. by rewrite (Hh Hk) in Eo. }
  intros (-> & Hkind & Hold).
  eapply triple_try with (Mid := fun _ st => Inv st /\ holds_at (name "migration" "") l old st /\ archived old st).
  { eapply triple_conseq; [by apply (triple_archive fg old Hg Hkind Hold Es l)|done|].
    intros [l'|e] st [Hi Ha]; [split; [done|by eapply Ha]|done]. }
  intros _. apply triple_ret. intros st (Hi & Hh' & Ha). auto.
Qed.

(** The new lease takes a free slot without losing a revocation. *)
Lemma keep_over_free kind operationID slot st l' r' : slot_free kind operationID slot st ->
  operationID ∈ ops -> validDeploymentKind kind = true -> ~ (kind = K /\ operationID = A) ->
  Name l' = name kind (slot_key kind operationID) -> Data l' = Some r' ->
  Kind (View r') = kind -> OperationID (View r') = operationID ->
  Inv (<[name kind (slot_key kind operationID) := l']> st).
Proof.
  intros ((Hwf & (nb & lb & rb & Hn & Hb & Hd & Ho & Hs) & Hdor) & Hslot & Harch) Hop Hk Hdiff Hname Hdl Hkr Hor.
  pose proof Hnames as (HA & HK & N1 & N2 & N3 & N4). set (n := name kind (slot_key kind operationID)) in *.
  split; [|split; [|eapply dormant_insert; [done|exact Hdl|rewrite Hkr, Hor; intros H1 H2; by destruct Hdiff]]].
  - intros m lm [[<- <-]|[_ Hm]]%lookup_insert_Some; [|by apply Hwf]. split; [done|]. intros r Hr.
    rewrite Hdl in Hr. injection Hr as <-. rewrite Hkr, Hor. split; [done|].
    unfold validDeploymentKind in Hk. rewrite orb_true_iff, !bool_decide_eq_true in Hk.
    unfold n, slot_key. destruct Hk as [-> | ->]; simpl; auto.
  - destruct (decide (nb = n)) as [->|]; [|exists nb, lb, rb; by rewrite lookup_insert_ne].
    destruct slot as [[l old]|]; cycle 1. { change (st !! n = None) in Hslot. by rewrite Hb in Hslot. }
    destruct (slot_record st kind operationID l old) as (Hkind & Hold & Hh); [done..|].
    destruct Hslot as (_ & l0 & Hl0 & Hd0). fold n in Hl0. rewrite Hb in Hl0. injection Hl0 as <-.
    rewrite Hd in Hd0. injection Hd0 as <-.
    unfold validDeploymentKind in Hk. rewrite orb_true_iff, !bool_decide_eq_true in Hk.
    destruct Hk as [Hk|Hk]; unfold n, slot_key in Hn; rewrite Hk in Hn; simpl in Hn.
    + assert (K = "migration") as HKm.
      { destruct HK as [?|HK]; [done|]. rewrite HK in Hn. simpl in Hn. destruct (N1 A HA) as [_ Hx].
        destruct Hn as [Hn|Hn]; by destruct Hx. }
      destruct Harch as (l2 & Hl2 & Hd2); [done|intros Heq; apply Hdiff; split; congruence|].
      rewrite Hkind, Hk, Ho in Hl2. exists (name "migration" A), l2, rb. rewrite HKm. split; [by right|].
      rewrite lookup_insert_ne; [done|]. unfold n, slot_key. rewrite Hk. simpl. destruct (N1 A HA) as [Hx _]. congruence.
    + assert (operationID = A) as -> by (rewrite <- Ho; symmetry; auto). exfalso. destruct HK as [HK|HK]; rewrite HK in Hn; simpl in Hn.
      * destruct Hn as [Hn|Hn]; [by destruct (N1 A HA) as [_ []]|by destruct (N2 A A HA HA)].
      * apply Hdiff. by rewrite Hk, HK.
Qed.

Lemma triple_issue planned fg slot status created kind operationID instance namespace sa ttl :
  GroupName fg = G -> operationID ∈ ops -> validDeploymentKind kind = true -> ~ (kind = K /\ operationID = A) ->
  triple (slot_free kind operationID slot)
    (issue planned fg (fst <$> slot) status created kind operationID instance namespace sa ttl) (fun _ => Inv).
Proof.
  intros Hg Hop Hk Hdiff. unfold issue. eapply triple_bind; [apply triple_reads, only_call; done|].
  intros [secret|]; [|apply triple_ret; by intros st [? _]]. simpl.
  eapply triple_bind; [apply triple_reads, (only_call (Ans := ans) _ Now); done|]. intros now. simpl.
  eapply triple_try with (Mid := fun _ => Inv).
  - set (r := {| View := _ |}). set (n := name kind (slot_key kind operationID)).
    eapply triple_conseq with (Post' := fun _ => Inv);
      [|exact (fun _ H => H)|by intros [?|?] st ?].
    eapply (triple_write fg _ r _ _ _ (default (newLease fg (Kind (View r)) (slot_key kind operationID)) (fst <$> slot)));
      [done|by intros st [? _]|].
    intros now' st Hfree l'. assert (Name l' = n) as Hn.
    { destruct Hfree as (_ & Hslot & _). destruct slot as [[l old]|]; simpl; [by destruct Hslot|]. by rewrite Hg. }
    change (Name (default _ _)) with (Name l'). rewrite Hn.
    split; by apply (keep_over_free kind operationID slot st l' r).
  - intros _. change (keeps (let!? _ := (if bool_decide (kind = "failover-hold") then currentHolds fg else Ret (Ok [])) in
      let!? _ := gate planned fg in let!? _ := validateWrite planned fg kind operationID true in
      Ret (Ok {| R_View := Some {| Kind := kind; OperationID := operationID; Instance_ := instance;
                             ExpiresAt := now + lease_duration ttl; V_Generation := TopologyGeneration fg |};
                 Token := SHA.hex secret; R_Status := status |}))).
    solve_keeps.
Qed.

(** A barred operation's tombstone is found. *)
Lemma tombstone_found st slot tomb : Inv st ->
  slot_read (name K (slot_key K A)) (Ok slot) st -> slot_read (name K A) (Ok tomb) st ->
  exists t, tombstone slot tomb A = Some t /\ State t = revoked.
Proof.
  intros (_ & (nb & lb & rb & Hn & Hb & Hd & Ho & Hs) & Hdor) Hslot Htomb. unfold tombstone.
  destruct Hn as [->| ->].
  - destruct slot as [[l old]|]; [|simpl in Hslot; congruence]. destruct Hslot as (_ & l0 & Hl0 & Hd0).
    assert (old = rb) as -> by congruence. rewrite !bool_decide_true by done. simpl. eauto.
  - assert (exists x, tomb = Some (x, rb)) as [x ->].
    { destruct tomb as [[l r]|]; [|simpl in Htomb; congruence]. destruct Htomb as (_ & l0 & Hl0 & Hd0).
      exists l. do 2 f_equal. congruence. }
    simpl. destruct slot as [[l old]|]; [|eauto].
    destruct (bool_decide (OperationID (View old) = A) && bool_decide (State old = revoked)) eqn:E; [|eauto].
    apply andb_prop in E as [_ E%bool_decide_eq_true]. eauto.
Qed.

Lemma triple_Grant planned fg kind operationID instance namespace sa ttl : operationID ∈ ops ->
  triple Inv (Grant planned fg kind operationID instance namespace sa ttl)
    (fun x st => Inv st /\ (kind = K -> operationID = A -> exists e, x = Err e)).
Proof.
  intros Hop. unfold Grant. destruct (validDeploymentKind kind) eqn:Hk; [simpl|apply triple_ret; eauto].
  destruct (_ || _); [apply triple_ret; eauto|].
  set (Post := fun (x : R DeploymentLeaseResult) st => Inv st /\ (kind = K -> operationID = A -> exists e, x = Err e)).
  assert (forall X (p : P (R X)), keeps p -> triple Inv p (fun x st => match x with Ok _ => Inv st | Err e => Post (Err e) st end)) as Hw
    by (intros X p Hp; eapply triple_conseq; [exact Hp|done|]; intros [?|?] st ?; [done|split; eauto]).
  eapply triple_try with (Mid := fun g st => Inv st /\ GroupName g = G).
  { eapply triple_conseq; [apply (triple_fresh fg Inv)|done|]. intros [g|e] st [Hi Hg]; [auto|split; eauto]. }
  intros g. apply triple_pure. intros Hg.
  eapply triple_try with (Mid := fun _ => Inv); [apply Hw, keeps_gate|]. intros _.
  eapply triple_bind; [apply keeps_stable|]. intros reason. simpl.
  destruct (bool_decide (reason <> "")); [apply triple_ret; intros st ?; split; eauto|].
  eapply triple_try with (Mid := fun _ => Inv); [by apply Hw, keeps_authorise|]. intros _.
  eapply triple_try with (Mid := fun slot st => Inv st /\ slot_read (name kind (slot_key kind operationID)) (Ok slot) st).
  { eapply triple_conseq; [by apply triple_current|done|]. intros [?|?] st [??]; [done|split; eauto]. }
  intros slot. eapply triple_bind; [apply triple_reads, (only_call (Ans := ans) _ Now); done|]. intros created. simpl.
  eapply triple_try with (Mid := fun _ => slot_free kind operationID slot).
  { eapply triple_conseq; [by apply (triple_claim_slot g kind)|done|].
    intros [c|e] st [Hi Hc]; [by eapply Hc|split; eauto]. }
  intros [status created'].
  eapply triple_try with (Mid := fun tomb st => slot_free kind operationID slot st /\ slot_read (name kind operationID) (Ok tomb) st).
  { eapply triple_conseq; [by apply (triple_readLease g kind operationID (slot_free kind operationID slot))|done|].
    intros [[[l r]|]|e] st [Hf Hx]; [split; [done|]|done|split; [apply Hf|eauto]].
    destruct Hx as [Hl Hd]. destruct Hf as [[Hwf _] _]. split; [by destruct (Hwf _ _ Hl)|by exists l]. }
  intros tomb. set (final := issue planned g (fst <$> slot) status created' kind operationID instance namespace sa ttl).
  destruct (decide (kind = K /\ operationID = A)) as [[Hkk Hoa]|Hdiff].
  - apply (triple_assume (exists t, tombstone slot tomb operationID = Some t /\ State t = revoked)).
    { intros st [(Hi & Hslot & _) Htomb]. rewrite Hkk in Hslot, Htomb. rewrite Hoa in Hslot, Htomb |- *. by eapply tombstone_found. }
    intros (t & -> & ->). rewrite bool_decide_true by done. apply triple_ret. intros st [[Hi _] _]. split; eauto.
  - assert (triple (fun st => slot_free kind operationID slot st /\ slot_read (name kind operationID) (Ok tomb) st) final Post) as Hi.
    { eapply triple_conseq; [by apply triple_issue|by intros st [? _]|]. intros x st Hi. split; [done|].
      intros H1 H2. by destruct Hdiff. }
    destruct (tombstone slot tomb operationID) as [t|]; [case_bool_decide|exact Hi]; [|exact Hi].
    apply triple_ret. intros st [[Hinv _] _]. split; eauto.
Qed.

(** A record of the barred operation, wherever a renewal finds it, is not active. *)
Lemma renewed_record st n l r : Inv st -> n = name K (slot_key K A) \/ n = name K A -> slot_read n (Ok (Some (l, r))) st ->
  OperationID (View r) = A -> State r <> active.
Proof.
  intros (Hwf & _ & Hdor) Hn (_ & l0 & Hl0 & Hd0) Ho. eapply Hdor; [exact Hl0|exact Hd0| |done].
  destruct Hnames as (HA & HK & N1 & N2 & N3 & N4). destruct (Hwf _ _ Hl0) as [_ Hr]. destruct (Hr _ Hd0) as [_ Hk].
  unfold slot_key in Hn. destruct HK as [HK|HK]; rewrite HK in Hn |- *; simpl in Hn; destruct Hk as [[? Hk]|[? Hk]]; try done.
  - rewrite Ho in Hk. destruct Hn as [Hn|Hn]; rewrite Hn in Hk; [by destruct (N1 _ HA) as [_ []]|by destruct (N2 _ _ HA HA)].
  - rewrite Ho in Hk. assert (n = name "failover-hold" A) as Hn' by tauto. rewrite Hn' in Hk.
    destruct Hk as [Hk|Hk]; [by destruct (N1 _ HA) as [_ []]|by destruct (N2 _ _ HA HA)].
Qed.

Lemma triple_Renew planned fg instance namespace sa token ttl :
  triple Inv (Renew planned fg K A instance namespace sa token ttl) (fun x _ => exists e, x = Err e).
Proof.
  unfold Renew, mutate. destruct (negb (validDeploymentKind K)); [apply triple_ret; eauto|].
  eapply triple_try with (Mid := fun g st => Inv st /\ GroupName g = G).
  { eapply triple_conseq; [apply (triple_fresh fg Inv)|done|]. intros [g|e] st [Hi Hg]; eauto. }
  intros g. apply triple_pure. intros Hg.
  eapply triple_try with (Mid := fun x st => Inv st /\ slot_read (name K (slot_key K A)) (Ok x) st).
  { eapply triple_conseq; [by apply triple_current|done|]. intros [?|?] st [??]; eauto. }
  set (Mid := fun (x : option (Lease * deploymentLeaseRecord)) st => exists n, Inv st
    /\ (n = name K (slot_key K A) \/ n = name K A) /\ slot_read n (Ok x) st).
  assert (triple Inv (readLease g K A) (fun r st => match r with Ok a => Mid a st | Err e => exists e', Err e = Err (A := DeploymentLeaseResult) e' end)) as Hr.
  { eapply triple_conseq; [by apply triple_read_slot|done|]. intros [?|?] st [??]; [exists (name K A)|]; eauto. }
  intros slot. eapply triple_try with (Mid := Mid).
  { destruct slot as [[l r]|]; [case_bool_decide|].
    - eapply triple_conseq; [exact Hr|by intros st [? _]|]. intros [?|?] st ?; eauto.
    - apply triple_ret. intros st [? ?]. eexists; eauto.
    - eapply triple_conseq; [exact Hr|by intros st [? _]|]. intros [?|?] st ?; eauto. }
  intros found. apply triple_exists. intros n. destruct found as [[l r]|]; [|apply triple_ret; eauto].
  destruct (_ || _) eqn:E; [apply triple_ret; eauto|].
  apply orb_false_iff in E as [E _]. apply negb_false_iff in E. unfold sameDeploymentHolder in E.
  rewrite !andb_true_iff, !bool_decide_eq_true in E. destruct E as [[[Eo _] _] _].
  apply (triple_assume (State r <> active)).
  { intros st (Hi & Hn & Hs). by eapply renewed_record. }
  intros Hna. destruct (State r); try (apply triple_ret; eauto). by destruct Hna.
Qed.

End revocation.

(** ** What is written *)

(** A call that writes nothing, or an expired or revoked record. *)
Definition settles (o : op) : bool :=
  match o with
  | CreateLease l | UpdateLease l =>
      match Data l with Some r => bool_decide (State r = expired \/ State r = revoked) | None => false end
  | _ => true
  end.

(** A call that settles, or writes a record that satisfies [own]. *)
Definition writes_own (own : deploymentLeaseRecord -> bool) (o : op) : bool :=
  settles o || match o with
               | CreateLease l | UpdateLease l => match Data l with Some r => own r | None => false end
               | _ => true
               end.

Lemma reads_settles o : reads o = true -> settles o = true.
Proof. by destruct o. Qed.

Lemma settles_own own o : settles o = true -> writes_own own o = true.
Proof. unfold writes_own. by intros ->. Qed.

(** [only] through the leases' programs. *)
Ltac solve_settles :=
  repeat match goal with
  | |- only _ (try_bind _ _) => apply only_try; [|intros ?]
  | |- only _ (if ?b then _ else _) => destruct b eqn:?
  | |- _ => progress solve_only
  end.

Lemma only_write Q fg l r operation : (forall o, settles o = true -> Q o = true) ->
  (forall l', Data l' = Some r -> Q (CreateLease l') = true /\ Q (UpdateLease l') = true) ->
  only Q (writeLease fg l r operation).
Proof.
  intros HQ Hw. unfold writeLease. apply only_bind; [by apply (only_call (Ans := ans) _ Now), HQ|]. intros now.
  apply only_bind; [|intros ok; apply only_Ret]. set (l' := projected _ r now).
  destruct (Hw l' eq_refl) as [Hc Hu]. destruct l; [exact (only_call _ (UpdateLease l') Hu)|exact (only_call _ (CreateLease l') Hc)].
Qed.

Lemma settles_write fg l r operation : State r = expired \/ State r = revoked -> only settles (writeLease fg l r operation).
Proof. intros Hr. apply only_write; [done|]. intros l' Hl. simpl. rewrite Hl. by rewrite bool_decide_true. Qed.

Lemma own_write own fg l r operation : own r = true -> only (writes_own own) (writeLease fg l r operation).
Proof.
  intros Hr. apply only_write; [apply settles_own|]. intros l' Hl. unfold writes_own. rewrite Hl, Hr, !orb_true_r. done.
Qed.

Lemma settles_reads {A} (p : P A) : only reads p -> only settles p.
Proof. apply only_weaken, reads_settles. Qed.

Lemma settles_fresh fg : only settles (fresh fg).
Proof. apply settles_reads, fresh_reads. Qed.

Lemma settles_readLease fg kind operation : only settles (readLease fg kind operation).
Proof. apply settles_reads, readLease_reads. Qed.

Lemma settles_gate planned fg : only settles (gate planned fg).
Proof. apply settles_reads, gate_reads. Qed.

Lemma settles_stable fg : only settles (UnstableReason fg).
Proof. apply settles_reads, UnstableReason_reads. Qed.

Lemma settles_topologyGate fg : only settles (topologyGate fg).
Proof. unfold topologyGate. solve_settles. Qed.

#[local] Hint Resolve settles_fresh settles_readLease settles_gate settles_stable settles_topologyGate : prog.

Lemma aged_settled fg r now : State r = active -> State (aged fg r now) <> active ->
  State (aged fg r now) = expired \/ State (aged fg r now) = revoked.
Proof. unfold aged. intros Ha Hn. repeat case_match; simpl in *; first [by left|by right|done]. Qed.

Lemma settles_current fg kind operation : only settles (current fg kind operation).
Proof.
  unfold current. apply only_try; [auto with prog|]. intros [[l r]|]; [|apply only_Ret].
  destruct (bool_decide (State r = active)) eqn:Ea; [apply bool_decide_eq_true in Ea|apply only_Ret].
  apply only_bind; [exact (only_call _ Now eq_refl)|]. intros now. case_bool_decide as Hn; [apply only_Ret|].
  apply only_try; [|intros; apply only_Ret]. by apply settles_write, aged_settled.
Qed.

#[local] Hint Resolve settles_current : prog.

Lemma settles_currentHolds fg : only settles (currentHolds fg).
Proof.
  unfold currentHolds. apply only_bind; [by apply only_call|]. intros [ls|]; [|apply only_Ret].
  apply only_try; [|intros; apply only_Ret]. generalize (@nil DeploymentLeaseView).
  induction ls as [|l ls IH]; intros views; simpl; solve_settles.
Qed.

#[local] Hint Resolve settles_currentHolds : prog.

Lemma settles_validateWrite planned fg kind operation grant : only settles (validateWrite planned fg kind operation grant).
Proof. unfold validateWrite. solve_settles. Qed.

Lemma settles_Snapshot planned fg : only settles (Snapshot planned fg).
Proof. unfold Snapshot. generalize 3%nat. induction n as [|n IH]; simpl; solve_settles. Qed.

Lemma settles_BeginPlanned planned fg operation : only settles (BeginPlanned planned fg operation).
Proof. unfold BeginPlanned, hold, concurrent_operation. solve_settles. Qed.

Lemma settles_revoke fg reason : only settles (revoke fg reason).
Proof.
  unfold revoke. apply only_try; [auto with prog|]. intros holds.
  induction (map _ _ ++ _) as [|[kind operation] views IH]; simpl; [apply only_Ret|].
  apply only_try; [auto with prog|]. intros [[l r]|]; [|exact IH]. case_bool_decide; [|exact IH].
  apply only_try; [|intros; exact IH]. apply settles_write. by right.
Qed.

#[local] Hint Resolve settles_validateWrite settles_revoke : prog.

Lemma settles_reconcileRevocation fg : only settles (reconcileRevocation fg).
Proof. unfold reconcileRevocation. solve_settles. Qed.

Lemma settles_TopologyPersisted fg epoch : only settles (TopologyPersisted fg epoch).
Proof. unfold TopologyPersisted. solve_settles. Qed.

#[local] Hint Extern 3 (only (writes_own _) _) =>
  apply (only_weaken settles); [apply settles_own|auto with prog] : prog.

(** The record of the caller's own lease. *)
Definition holds_own (s : LeaseState) (operationID instance namespace sa : string) (r : deploymentLeaseRecord) : bool :=
  bool_decide (State r = s) && sameDeploymentHolder r operationID instance namespace sa.

Lemma settles_authorise fg kind operationID instance namespace sa :
  only settles (authorise fg kind operationID instance namespace sa).
Proof. unfold authorise. solve_settles. Qed.

Lemma settles_claim_slot fg slot created operationID instance namespace sa :
  only settles (claim_slot fg slot created operationID instance namespace sa).
Proof.
  unfold claim_slot. destruct slot as [[l old]|]; [|apply only_Ret]. destruct (State old) eqn:Es; try solve [solve_settles].
  case_bool_decide; [|apply only_Ret]. apply only_try; [|intros; apply only_Ret]. unfold archive.
  apply only_try; [auto with prog|]. intros found. apply settles_write. by right.
Qed.

#[local] Hint Resolve settles_authorise settles_claim_slot : prog.

Lemma own_issue planned fg l status created kind operationID instance namespace sa ttl :
  only (writes_own (holds_own active operationID instance namespace sa))
    (issue planned fg l status created kind operationID instance namespace sa ttl).
Proof.
  unfold issue. apply only_bind; [exact (only_call _ Rand eq_refl)|]. intros [secret|]; [|apply only_Ret].
  simpl. apply only_bind; [exact (only_call _ Now eq_refl)|]. intros now.
  apply only_try; [apply own_write; unfold holds_own, sameDeploymentHolder; simpl; by rewrite !bool_decide_true|]. intros _.
  solve_settles.
Qed.

Lemma own_Grant planned fg kind operationID instance namespace sa ttl :
  only (writes_own (holds_own active operationID instance namespace sa))
    (Grant planned fg kind operationID instance namespace sa ttl).
Proof.
  unfold Grant. destruct (_ || _); [apply only_Ret|]. apply only_try; [auto with prog|]. intros g.
  apply only_try; [auto with prog|]. intros _. apply only_bind; [auto with prog|]. intros reason.
  case_bool_decide; [apply only_Ret|]. apply only_try; [auto with prog|]. intros _.
  apply only_try; [auto with prog|]. intros slot. apply only_bind; [exact (only_call _ Now eq_refl)|]. intros created.
  apply only_try; [auto with prog|]. intros [status created']. apply only_try; [auto with prog|]. intros tomb.
  destruct (tombstone _ _ _); [case_bool_decide; [apply only_Ret|]|]; apply own_issue.
Qed.

(** The record of the caller's own lease, proven by its token. *)
Definition proven_own (s : LeaseState) (operationID instance namespace sa token : string) (r : deploymentLeaseRecord) : bool :=
  holds_own s operationID instance namespace sa r && bool_decide (TokenHash r = leaseTokenHash token).

Lemma only_try_runs {E A B} Q (p : P (res E A)) (f : A -> P (res E B)) :
  only Q p -> (forall tr a, runs p tr (Ok a) -> only Q (f a)) -> only Q (try_bind p f).
Proof.
  intros Hp Hf tr b (t1 & [a|e] & t2 & -> & H1 & H2)%runs_bind_iff; apply Forall_app; split; try by eapply Hp.
  - by eapply Hf.
  - by apply runs_Ret_iff in H2 as [-> _].
Qed.

(** What renewal and release make of the record. *)
Lemma own_mutate_active planned fg l r kind operationID instance namespace sa token ttl release :
  State r = active -> sameDeploymentHolder r operationID instance namespace sa = true -> TokenHash r = leaseTokenHash token ->
  only (writes_own (proven_own (if release : bool then released else active) operationID instance namespace sa token))
    (mutate_active planned fg l r kind operationID ttl release).
Proof.
  intros Ha Hh Ht. unfold mutate_active. apply only_try_runs; [destruct release; solve_settles|]. intros tr r' Hr.
  apply only_try; [|intros _; solve_settles]. apply own_write.
  assert (State r' = (if release then released else active) /\ TokenHash r' = TokenHash r
    /\ sameDeploymentHolder r' operationID instance namespace sa = true) as (Hs & Ht' & Hh').
  { destruct release; [by apply runs_Ret_iff in Hr as [_ [= ->]]|].
    apply runs_bind_iff in Hr as (t1 & [u|e] & t2 & _ & _ & Hr); [|by apply runs_Ret_iff in Hr as [_ [=]]].
    run_all. by match goal with H : Ok _ = Ok _ |- _ => injection H as -> end. }
  unfold proven_own, holds_own. by rewrite Hs, Ht', Hh', Ht, !bool_decide_true.
Qed.

#[local] Hint Resolve own_mutate_active : prog.

Lemma own_mutate planned fg kind operationID instance namespace sa token ttl release :
  only (writes_own (proven_own (if release : bool then released else active) operationID instance namespace sa token))
    (mutate planned fg kind operationID instance namespace sa token ttl release).
Proof.
  unfold mutate. destruct (negb _); [apply only_Ret|]. apply only_try; [auto with prog|]. intros g.
  apply only_try; [auto with prog|]. intros slot.
  apply only_try; [destruct slot as [[l r]|]; [case_bool_decide|]; auto with prog|]. intros [[l r]|]; [|apply only_Ret].
  destruct (_ || _) eqn:E; [apply only_Ret|]. apply orb_false_iff in E as [E Ht].
  apply negb_false_iff in E. apply bool_decide_eq_false, dec_stable in Ht.
  destruct (State r) eqn:Es; try apply only_Ret. auto with prog.
Qed.

Lemma own_Release planned fg kind operationID instance namespace sa token :
  only (writes_own (proven_own released operationID instance namespace sa token))
    (Release planned fg kind operationID instance namespace sa token).
Proof.
  unfold Release. apply only_try; [|intros; apply only_Ret].
  exact (own_mutate planned fg kind operationID instance namespace sa token 0 true).
Qed.

(** ** Grants that succeed *)

Lemma runs_try_ok {E A B} (p : P (res E A)) (f : A -> P (res E B)) tr b : runs (try_bind p f) tr (Ok b) ->
  exists t1 a t2, tr = t1 ++ t2 /\ runs p t1 (Ok a) /\ runs (f a) t2 (Ok b).
Proof.
  intros (t1 & [a|e] & t2 & -> & H1 & H2)%runs_bind_iff; [eauto 10|by apply runs_Ret_iff in H2 as [_ [=]]].
Qed.

(** What admission asks of a group: no revocation or reservation pending, a stable
    status, no planned failover or hold, no topology change waiting to be persisted. *)
Definition admitted (planned : string) (g : Group) (tr : list (event ans)) : Prop :=
  planned = "" /\ RevokeDeploymentLeases g = None /\ DeploymentUnstableReason g = "" /\ PlannedHoldFrom g = None
  /\ ev ClaimHeld false ∈ tr /\ ev LoadPending None ∈ tr.

Lemma admitted_weaken planned g t t' : admitted planned g t -> t ⊆ t' -> admitted planned g t'.
Proof. unfold admitted. intros (? & ? & ? & ? & ? & ?) Ht. repeat split; auto. Qed.

Lemma gate_ok planned g tr u : runs (gate planned g) tr (Ok u) ->
  RevokeDeploymentLeases g = None /\ planned = "" /\ ev LoadPending None ∈ tr.
Proof.
  unfold gate. case_bool_decide as Hr; [by intros [_ [=]]%runs_Ret_iff|].
  intros (t1 & v & t2 & -> & H1 & H2)%runs_try_ok. apply runs_Ret_iff in H2 as [-> H2].
  case_bool_decide as Hp; [done|]. split; [done|]. split; [done|].
  unfold topologyGate in H1. run_step H1. destruct x as [p|]; [by apply runs_Ret_iff in H1 as [_ [=]]|]. ev_in.
Qed.

Lemma UnstableReason_ok g tr : runs (UnstableReason g) tr "" ->
  DeploymentUnstableReason g = "" /\ PlannedHoldFrom g = None /\ ev ClaimHeld false ∈ tr.
Proof.
  unfold UnstableReason. case_bool_decide as Hi.
  { intros [_ H]%runs_Ret_iff. rewrite <- H in Hi. by repeat apply elem_of_cons in Hi as [Hi|Hi]; [..|apply not_elem_of_nil in Hi]. }
  intros H. run_step H. apply runs_Ret_iff in H as [-> H]. destruct x; [done|]. simpl in H.
  case_bool_decide as Hh; [done|]. split; [done|]. split; [by apply eq_None_not_Some|]. by left.
Qed.

Lemma fresh_ok fg tr g : runs (fresh fg) tr (Ok g) -> ev GetGroup (Some g) ∈ tr /\ UID g = UID fg.
Proof.
  unfold fresh. intros H. run_step H. apply runs_Ret_iff in H as [-> H]. destruct x as [g'|]; [|done].
  case_bool_decide as Hu; [done|]. injection H as ->. split; [by left|done].
Qed.

Lemma validateWrite_ok planned fg kind operation tr u : runs (validateWrite planned fg kind operation true) tr (Ok u) ->
  exists g, ev GetGroup (Some g) ∈ tr /\ UID g = UID fg /\ TopologyGeneration g = TopologyGeneration fg /\ admitted planned g tr.
Proof.
  unfold validateWrite. intros (t1 & g & t2 & -> & [Hg Hu]%fresh_ok & H)%runs_try_ok.
  case_bool_decide as Hr.
  { apply runs_try_ok in H as (? & ? & ? & _ & _ & H). by apply runs_Ret_iff in H as [_ [=]]. }
  destruct (TopologyGeneration g =? TopologyGeneration fg) eqn:Eg; simpl in H; cycle 1.
  { apply runs_try_ok in H as (? & ? & ? & _ & _ & H). by apply runs_Ret_iff in H as [_ [=]]. }
  apply Z.eqb_eq in Eg. apply runs_bind_iff in H as (t3 & reason & t4 & -> & H1 & H2).
  case_bool_decide as Hs; [by apply runs_Ret_iff in H2 as [_ [=]]|]. rewrite Hs in H1.
  apply UnstableReason_ok in H1 as (? & ? & ?). apply gate_ok in H2 as (? & ? & ?).
  exists g. unfold admitted. setoid_rewrite elem_of_app. setoid_rewrite elem_of_app. tauto.
Qed.

(** The record granted, written by [o], which was acknowledged. *)
Definition grant_written (o : op) (r : deploymentLeaseRecord) (before after tr : list (event ans)) : Prop :=
  exists l, Data l = Some r /\
    ((o = CreateLease l /\ tr = before ++ ev (CreateLease l) true :: after)
     \/ (o = UpdateLease l /\ tr = before ++ ev (UpdateLease l) true :: after)).

Lemma write_ok fg l r operation tr l' : runs (writeLease fg l r operation) tr (Ok l') ->
  exists now o, grant_written o r [ev Now now] [] tr.
Proof.
  unfold writeLease. intros H. run_step H. exists x. set (lw := projected _ r x) in *.
  apply runs_bind_iff in H as (t1 & ok & t2 & -> & H1 & H2). apply runs_Ret_iff in H2 as [-> H2].
  destruct ok; [|done]. destruct l.
  - apply (runs_call_iff (Ans := ans) (UpdateLease lw) t1 true) in H1 as ->. exists (UpdateLease lw), lw. auto.
  - apply (runs_call_iff (Ans := ans) (CreateLease lw) t1 true) in H1 as ->. exists (CreateLease lw), lw. auto.
Qed.

Lemma grant_written_app o r before after t1 t2 tr : grant_written o r before after tr ->
  grant_written o r (t1 ++ before) (after ++ t2) (t1 ++ tr ++ t2).
Proof.
  intros (l & Hd & [[-> ->]|[-> ->]]); exists l; (split; [done|]);
    [left|right]; (split; [done|]); by rewrite <- !(assoc_L (++)).
Qed.

(** The duration of a lease is between 5 and 120 seconds. *)
Lemma lease_duration_bounds ttl : 5 * Second <= lease_duration ttl <= 120 * Second.
Proof. unfold lease_duration, Second. lia. Qed.

(** What a grant reports and wrote. *)
Definition granted (g : Group) (kind operationID instance namespace sa : string) (before : list (event ans))
    (r : deploymentLeaseRecord) (result : DeploymentLeaseResult) : Prop :=
  R_View result = Some (View r) /\ TokenHash r = leaseTokenHash (Token result) /\ Kind (View r) = kind
  /\ holds_own active operationID instance namespace sa r = true /\ V_Generation (View r) = TopologyGeneration g
  /\ exists now, ev Now now ∈ before /\ now + 5 * Second <= ExpiresAt (View r) <= now + 120 * Second.

Lemma issue_ok planned fg l status created kind operationID instance namespace sa ttl tr result :
  runs (issue planned fg l status created kind operationID instance namespace sa ttl) tr (Ok result) ->
  exists o r before after g, grant_written o r before after tr
    /\ granted fg kind operationID instance namespace sa before r result
    /\ ev GetGroup (Some g) ∈ after /\ UID g = UID fg /\ TopologyGeneration g = TopologyGeneration fg
    /\ admitted planned g after.
Proof.
  unfold issue. intros H. run_step H. destruct x as [secret|]; [|by apply runs_Ret_iff in H as [_ [=]]].
  apply (runs_bind_iff (call (Ans := ans) Now)) in H as (t1 & now & t2 & -> & Hn & H).
  apply (runs_call_iff (Ans := ans) Now t1 now) in Hn as ->.
  set (r := {| View := _ |}) in H. apply runs_try_ok in H as (t3 & l' & t4 & -> & Hw & H).
  apply runs_try_ok in H as (t5 & holds & t6 & -> & _ & H). apply runs_try_ok in H as (t7 & u & t8 & -> & _ & H).
  apply runs_try_ok in H as (t9 & v & t10 & -> & (g & Hg & Hu & Hgen & Ha)%validateWrite_ok & H).
  apply runs_Ret_iff in H as [-> [= ->]]. apply write_ok in Hw as (now' & o & Hw).
  exists o, r, ([ev Rand (Some secret)] ++ [ev Now now] ++ [ev Now now']), (t5 ++ t7 ++ t9), g.
  split; [|split; [|split; [|split; [done|split; [done|]]]]].
  - rewrite app_nil_r. apply (grant_written_app _ _ _ _ ([ev Rand (Some secret)] ++ [ev Now now]) (t5 ++ t7 ++ t9)) in Hw.
    by rewrite <- !(assoc_L (++)) in Hw.
  - pose proof (lease_duration_bounds ttl). split; [done|]. split; [done|]. split; [done|]. split.
    { unfold holds_own, sameDeploymentHolder. simpl. by rewrite !bool_decide_true. }
    split; [done|]. exists now. split; [ev_in|]. unfold r. simpl. lia.
  - rewrite !elem_of_app. auto.
  - eapply admitted_weaken; [exact Ha|]. intros e. rewrite !elem_of_app. auto.
Qed.

Lemma aged_active fg r now : State (aged fg r now) = active -> aged fg r now = r.
Proof. unfold aged. by repeat case_match. Qed.

Lemma readLease_ok fg kind operation tr l r : runs (readLease fg kind operation) tr (Ok (Some (l, r))) ->
  ev (GetLease (deploymentLeaseName (GroupName fg) kind operation)) (Found l) ∈ tr /\ Data l = Some r.
Proof.
  unfold readLease. intros H. run_step H. apply runs_Ret_iff in H as [-> H]. destruct x as [| |l']; [done..|].
  case_bool_decide; [done|]. destruct (Data l') eqn:Ed; [|done]. injection H as -> ->. split; [ev_in|done].
Qed.

(** An active record that [current] returns is the stored one. *)
Lemma current_ok fg kind operation tr l r : runs (current fg kind operation) tr (Ok (Some (l, r))) -> State r = active ->
  exists l0, ev (GetLease (deploymentLeaseName (GroupName fg) kind (slot_key kind operation))) (Found l0) ∈ tr /\ Data l0 = Some r.
Proof.
  unfold current. intros (t1 & [[l0 r0]|] & t2 & -> & Hr & H)%runs_try_ok Ha; [|by apply runs_Ret_iff in H as [_ [=]]].
  apply readLease_ok in Hr as [Hl Hd]. exists l0. split; [by apply elem_of_app; left|].
  destruct (negb (bool_decide (State r0 = active))); [by apply runs_Ret_iff in H as [_ [= <- <-]]|].
  run_step H. case_bool_decide as Hn.
  - apply runs_Ret_iff in H as [_ [= <- ->]]. by rewrite aged_active.
  - apply runs_try_ok in H as (t3 & l' & t4 & -> & _ & H). apply runs_Ret_iff in H as [_ [= _ ->]]. done.
Qed.

(** A hold was granted on the caller's own active migration lease. *)
Definition holds_migration (g : Group) (operationID instance namespace sa : string) (tr : list (event ans)) : Prop :=
  exists l m, ev (GetLease (deploymentLeaseName (GroupName g) "migration" "")) (Found l) ∈ tr /\ Data l = Some m
    /\ holds_own active operationID instance namespace sa m = true.

Lemma authorise_ok g kind operationID instance namespace sa tr u :
  runs (authorise g kind operationID instance namespace sa) tr (Ok u) -> kind = "failover-hold" ->
  holds_migration g operationID instance namespace sa tr.
Proof.
  unfold authorise. intros H ->. rewrite bool_decide_true in H by done.
  apply runs_try_ok in H as (t1 & [[l m]|] & t2 & -> & Hc & H); apply runs_Ret_iff in H as [-> H]; [|done].
  case_bool_decide as Ha; simpl in H; [|done]. destruct (sameDeploymentHolder m _ _ _ _) eqn:Eh; [|done].
  destruct (current_ok _ _ _ _ _ _ Hc Ha) as (l0 & Hl & Hd). exists l0, m. rewrite app_nil_r. split; [done|]. split; [done|].
  unfold holds_own. by rewrite Eh, bool_decide_true.
Qed.

(** ** A live lease under a grant *)

(** Leases are stored under their names, and [l0] is at [n]. *)
Definition named_at (n : string) (l0 : Lease) (st : gmap string Lease) : Prop :=
  (forall m l, st !! m = Some l -> Name l = m) /\ st !! n = Some l0.

Lemma current_elsewhere G g kind operation n l0 : GroupName g = G ->
  deploymentLeaseName G kind (slot_key kind operation) <> n ->
  triple G (named_at n l0) (current g kind operation) (fun _ => named_at n l0).
Proof.
  intros Hg Hn. unfold current. change (if bool_decide (kind = "failover-hold") then operation else "") with (slot_key kind operation).
  set (m := deploymentLeaseName G kind (slot_key kind operation)) in *.
  eapply triple_try with (Mid := fun x st => named_at n l0 st /\ match x with Some (l, _) => Name l = m | None => True end).
  { eapply triple_conseq; [by apply triple_readLease|exact (fun _ H => H)|].
    intros [[[l r]|]|e] st [Ha Hx]; [|done..]. split; [done|]. by apply Ha, Hx. }
  intros [[l r]|]; [|by apply triple_ret; intros st [? _]]. apply triple_pure. intros Hl.
  destruct (negb _); [by apply triple_ret|]. eapply triple_bind; [apply triple_reads, (only_call (Ans := ans) _ Now); done|].
  intros now. simpl. case_bool_decide; [by apply triple_ret|].
  eapply triple_try with (Mid := fun _ => named_at n l0); [|by intros; apply triple_ret].
  eapply triple_write; [reflexivity|done|]. intros now' st [Ha Hs] l'. simpl. rewrite Hl.
  assert (named_at n l0 (<[m := l']> st)) as Hp; [|done]. split; [|by rewrite lookup_insert_ne].
  intros k lk [[<- <-]|[_ Hk]]%lookup_insert_Some; [done|by apply Ha].
Qed.

Lemma current_live G g kind operation st st' tr x l0 r0 : GroupName g = G ->
  runs (current g kind operation) tr x -> served G st tr st' ->
  st !! deploymentLeaseName G kind (slot_key kind operation) = Some l0 -> Data l0 = Some r0 -> State r0 = active ->
  (forall now, ev Now now ∈ tr -> now <= ExpiresAt (View r0)) ->
  RevokeDeploymentLeases g = None -> TopologyGeneration g = V_Generation (View r0) ->
  ((exists e, x = Err e) \/ x = Ok (Some (l0, r0))) /\ st' = st.
Proof.
  intros <- Hr Hs Hl Hd Ha Hnow Hrev Hgen. unfold current in Hr.
  change (if bool_decide (kind = "failover-hold") then operation else "") with (slot_key kind operation) in Hr.
  apply runs_bind_iff in Hr as (t1 & found & t2 & -> & H1 & H2). unfold readLease in H1. run_step H1.
  apply runs_Ret_iff in H1 as [-> ->]. destruct Hs as (st1 & Hs1 & Hs). simpl in Hs1. destruct Hs1 as [-> Hx].
  assert (x0 = ReadError \/ x0 = Found l0) as [->| ->].
  { destruct Hx as [?|Hx]; [by left|right]. by rewrite Hl in Hx. }
  { apply runs_Ret_iff in H2 as [-> ->]. simpl in Hs. subst st'. eauto. }
  case_bool_decide; [apply runs_Ret_iff in H2 as [-> ->]; simpl in Hs; subst st'; eauto|]. rewrite Hd, Ha in H2. simpl in H2.
  run_step H2. assert (aged g r0 x0 = r0) as Hag.
  { unfold aged. specialize (Hnow x0 ltac:(ev_in)).
    assert (x0 >? ExpiresAt (View r0) = false) as -> by (rewrite Z.gtb_ltb; apply Z.ltb_ge; lia).
    rewrite Hrev, bool_decide_false, <- Hgen, Z.eqb_refl by auto. done. }
  rewrite Hag, Ha in H2. simpl in H2. apply runs_Ret_iff in H2 as [-> ->].
  destruct Hs as (st1 & -> & ->). auto.
Qed.

Lemma authorise_elsewhere G g kind operationID instance namespace sa n l0 : GroupName g = G ->
  (kind = "failover-hold" -> deploymentLeaseName G "migration" "" <> n) ->
  triple G (named_at n l0) (authorise g kind operationID instance namespace sa) (fun _ => named_at n l0).
Proof.
  intros Hg Hn. unfold authorise. case_bool_decide as Hk; [|by apply triple_ret].
  eapply triple_try with (Mid := fun _ => named_at n l0); [|by intros; apply triple_ret].
  eapply triple_conseq; [apply (current_elsewhere G g "migration" "" n l0 Hg); by apply Hn|done|]. by intros [?|?].
Qed.

(** ** Stability *)

(** A condition that stands and is not tolerated. A lag or a divergence behind
    [Degraded], and a divergence the replica audit alone reports, is. *)
Definition condition_gates (fg : Group) (name : string) : Prop :=
  exists c, Conditions fg !! name = Some c /\ Cond_True c = true
    /\ (name = "Degraded" -> Cond_Reason c <> "ReplicationLagging")
    /\ (Cond_Reason c = "DivergentTransactions" -> name <> "Degraded" /\ divergenceIsReplicaAuditOnly fg = false).

(** A site in its role: the active site writable, the others reading and replicating. *)
Definition site_settled (fg : Group) (s : SiteStatus) : Prop :=
  (Site_Name s = ActiveSite fg -> Site_State s = "writable")
  /\ (Site_Name s <> ActiveSite fg ->
      Site_State s = "read-only" /\ restoreReclonePending fg (Site_Name s) = false /\ Replicating s = true)
  /\ (RecoveryState s = "" \/ audit_only s = true)
  /\ SourceConvergenceState s <> "Pending" /\ SourceConvergenceState s <> "Blocked".

Definition dragonfly_settled (fg : Group) : Prop :=
  forall d, Dragonfly fg = Some d ->
    Dragonfly_Phase d ∈ [""; "Disabled"; "Ready"]
    /\ forall phase, Dragonfly_Upgrade d = Some phase -> phase ∈ [""; "Succeeded"; "Failed"].

(** What a deployment may rely on. *)
Definition stable (fg : Group) : Prop :=
  RevokeDeploymentLeases fg = None /\ ActiveSite fg <> "" /\ plannedFailoverActive fg = false /\ UpdatePhase fg = ""
  /\ restore_unsettled fg = false /\ in_place_unsettled fg = false /\ dragonfly_settled fg
  /\ (forall name, name ∈ ["Degraded"; "RecoveryPending"; "Bootstrapping"] -> ~ condition_gates fg name)
  /\ (exists c, Conditions fg !! "Ready" = Some c /\ Cond_True c = true)
  /\ (forall site, site ∈ Spec_Sites fg -> exists s, s ∈ Sites fg /\ Site_Name s = site)
  /\ (forall s, s ∈ Sites fg -> site_settled fg s).

Lemma condition_reasons_none fg names : "" ∉ names ->
  condition_reasons fg names = "" <-> forall name, name ∈ names -> ~ condition_gates fg name.
Proof.
  induction names as [|name names IH]; intros Hne; simpl; [set_solver|].
  apply not_elem_of_cons in Hne as [Hname Hne]. specialize (IH Hne).
  assert (condition_gates fg name -> (forall m, m ∈ name :: names -> ~ condition_gates fg m) -> False) as Hno
    by (intros Hg Hall; by apply (Hall name); [left|]).
  assert (~ condition_gates fg name -> (condition_reasons fg names = "" <-> forall m, m ∈ name :: names -> ~ condition_gates fg m)) as Hyes.
  { intros Hg. rewrite IH. setoid_rewrite elem_of_cons. split; [|auto]. intros Hall m [->|Hm]; auto. }
  destruct (Conditions fg !! name) as [c|] eqn:Ec; [|apply Hyes; intros (? & ? & _); congruence].
  destruct (Cond_True c) eqn:Et; simpl; [|apply Hyes; intros (? & ? & ? & _); congruence].
  destruct (bool_decide (name = "Degraded") && bool_decide (Cond_Reason c = "ReplicationLagging")) eqn:E1.
  { apply Hyes. rewrite andb_true_iff, !bool_decide_eq_true in E1. intros (c' & ? & _ & Hl & _). assert (c' = c) as -> by congruence. tauto. }
  destruct (bool_decide (Cond_Reason c = "DivergentTransactions") && _) eqn:E2.
  { apply Hyes. rewrite andb_true_iff, orb_true_iff, !bool_decide_eq_true in E2. intros (c' & ? & _ & _ & Hl). assert (c' = c) as -> by congruence.
    destruct E2 as [E2 E3]. destruct (Hl E2). destruct E3; congruence. }
  assert (condition_gates fg name) as Hg.
  { exists c. split; [done|]. split; [done|]. split.
    - intros Hd Hl. by rewrite Hd, Hl, !bool_decide_true in E1 by done.
    - intros Hd. rewrite Hd in E2. rewrite bool_decide_true in E2 by done. simpl in E2. apply orb_false_iff in E2 as [E2 ->].
      by apply bool_decide_eq_false in E2. }
  split; [|by intros Hall; destruct Hno]. intros Hx. exfalso.
  destruct (decide ((if bool_decide (name = "RecoveryPending") && bool_decide (Cond_Reason c = "DivergentTransactions")
    then gatingRecoveryState fg else "") = "")) as [Hn|Hn]; [rewrite Hn in Hx; rewrite bool_decide_false in Hx by (by intros ?)|rewrite bool_decide_true in Hx by done; done].
  destruct (decide (Cond_Reason c = "")) as [Hc|Hc]; [rewrite bool_decide_false in Hx by (by intros ?)|rewrite bool_decide_true in Hx by done]; congruence.
Qed.

(** One step of a chain of reasons. *)
Lemma reason_step (b : bool) (x y : string) : (b = true -> x <> "") -> (if b then x else y) = "" <-> b = false /\ y = "".
Proof. destruct b; [|tauto]. intros Hx. specialize (Hx eq_refl). split; [done|by intros [??]]. Qed.

Lemma bool_decide_ne_false {A} `{!EqDecision A} (x y : A) : bool_decide (x <> y) = false <-> x = y.
Proof. case_bool_decide; split; congruence. Qed.

Lemma site_reason_none fg s : site_reason fg s = "" <-> site_settled fg s.
Proof.
  unfold site_reason. rewrite !reason_step; try done;
    [|by intros [Hr%bool_decide_eq_true _]%andb_prop].
  unfold site_settled. rewrite !andb_false_iff, !negb_false_iff, !bool_decide_ne_false, !bool_decide_eq_false, !bool_decide_eq_true.
  assert (SourceConvergenceState s ∉ ["Pending"; "Blocked"] <-> SourceConvergenceState s <> "Pending" /\ SourceConvergenceState s <> "Blocked") as ->
    by (rewrite !not_elem_of_cons; pose proof (not_elem_of_nil (SourceConvergenceState s)); tauto).
  destruct (decide (Site_Name s = ActiveSite fg)) as [Ha|Ha]; tauto.
Qed.

Lemma site_reasons_none fg l : site_reasons fg l = "" <-> forall s, s ∈ l -> site_settled fg s.
Proof.
  induction l as [|s l IH]; simpl; [set_solver|]. setoid_rewrite elem_of_cons. case_bool_decide as Hs; rewrite site_reason_none in Hs.
  - split; [intros Hx; destruct Hs; by apply site_reason_none|]. intros Hall. destruct Hs. auto.
  - rewrite IH. split; [|auto]. intros Hall m [->|Hm]; auto.
Qed.

Lemma dragonfly_reason_none fg : dragonfly_reason fg = "" <-> dragonfly_settled fg.
Proof.
  unfold dragonfly_reason, dragonfly_settled. destruct (Dragonfly fg) as [d|]; [|by split].
  rewrite !reason_step; [|done..]. split.
  - intros (Hu & Hp%bool_decide_eq_false & _) d' [= <-]. split; [by apply dec_stable|]. intros phase Hph. rewrite Hph in Hu.
    apply bool_decide_eq_false in Hu. by apply dec_stable.
  - intros H. destruct (H d eq_refl) as [Hp Hu]. split; [|split; [|done]].
    + destruct (Dragonfly_Upgrade d) as [phase|]; [|done]. apply bool_decide_eq_false. auto.
    + apply bool_decide_eq_false. auto.
Qed.

Lemma not_ready_none fg : not_ready fg = false <-> exists c, Conditions fg !! "Ready" = Some c /\ Cond_True c = true.
Proof.
  unfold not_ready. destruct (Conditions fg !! "Ready") as [c|]; [rewrite negb_false_iff|]; split; [eauto|..].
  - by intros (c' & [= <-] & Hc).
  - done.
  - by intros (c' & ? & _).
Qed.

Lemma sites_observed fg :
  negb (forallb (fun name => bool_decide (name ∈ map Site_Name (Sites fg))) (Spec_Sites fg)) = false
  <-> forall site, site ∈ Spec_Sites fg -> exists s, s ∈ Sites fg /\ Site_Name s = site.
Proof.
  rewrite negb_false_iff, forallb_forall. setoid_rewrite bool_decide_eq_true. setoid_rewrite list_elem_of_fmap.
  setoid_rewrite <- list_elem_of_In. naive_solver.
Qed.

(** ** Theorems *)

(** Lease writes are authorised. Whatever the API server answers, a grant writes
    active records of the caller's own operation, instance, namespace and service
    account only; a renewal writes active, a release released records, only of the
    caller's own lease and only when the stored token hash is that of the presented
    token; and beyond those every operation of the manager writes expired or revoked
    records only. *)
Theorem lease_writes_authorised planned fg kind operationID instance namespace sa token ttl reason epoch operation :
  only (writes_own (holds_own active operationID instance namespace sa))
    (Grant planned fg kind operationID instance namespace sa ttl)
  /\ only (writes_own (proven_own active operationID instance namespace sa token))
       (Renew planned fg kind operationID instance namespace sa token ttl)
  /\ only (writes_own (proven_own released operationID instance namespace sa token))
       (Release planned fg kind operationID instance namespace sa token)
  /\ only settles (List_ planned fg) /\ only settles (Hold fg) /\ only settles (BeginPlanned planned fg operation)
  /\ only settles (Revoke fg reason) /\ only settles (reconcileRevocation fg)
  /\ only settles (TopologyPersisted fg epoch).
Proof.
  split; [apply own_Grant|]. split; [apply (own_mutate _ _ _ _ _ _ _ _ _ false)|]. split; [apply own_Release|].
  split; [unfold List_; apply only_try; [apply settles_Snapshot|intros [? ?]; apply only_Ret]|].
  split; [unfold Hold, hold; solve_settles|]. split; [apply settles_BeginPlanned|].
  split; [unfold Revoke; solve_settles|]. split; [apply settles_reconcileRevocation|apply settles_TopologyPersisted].
Qed.

(** C32. A revocation is never lost. Starting from a store in which the lease of
    operation [A] (migration or hold) was revoked - in its slot, or in its tombstone
    after another operation took the slot - every operation of the manager, for
    whatever caller and with whatever errors and half-applied writes, leaves such a
    store; a grant or a renewal for [A] always fails. [names_distinct]: the hashed
    Lease names in play do not collide. *)
Theorem revoked_never_regains G K A ops planned fg kind operationID instance namespace sa token ttl reason epoch operation :
  names_distinct G K A ops -> operationID ∈ ops ->
  let keeps {X} (p : P X) := triple G (Inv G K A ops) p (fun _ => Inv G K A ops) in
  triple G (Inv G K A ops) (Grant planned fg kind operationID instance namespace sa ttl)
    (fun x st => Inv G K A ops st /\ (kind = K -> operationID = A -> exists e, x = Err e))
  /\ triple G (Inv G K A ops) (Renew planned fg K A instance namespace sa token ttl) (fun x _ => exists e, x = Err e)
  /\ keeps (Renew planned fg kind operationID instance namespace sa token ttl)
  /\ keeps (Release planned fg kind operationID instance namespace sa token)
  /\ keeps (List_ planned fg) /\ keeps (Hold fg) /\ keeps (BeginPlanned planned fg operation)
  /\ keeps (Revoke fg reason) /\ keeps (reconcileRevocation fg) /\ keeps (TopologyPersisted fg epoch).
Proof.
  intros Hn Hop keeps. unfold keeps. split; [by apply triple_Grant|]. split; [by apply triple_Renew|].
  split; [apply keeps_mutate|]. split; [apply keeps_try; [apply keeps_mutate|intros; apply keeps_ret]|].
  split; [apply keeps_try; [apply keeps_Snapshot|intros [? ?]; apply keeps_ret]|].
  split; [apply keeps_fresh; intros; by apply keeps_hold|]. split; [apply keeps_BeginPlanned|].
  split; [unfold Revoke; case_bool_decide; [apply keeps_ret|apply keeps_fresh; intros; by apply keeps_revoke]|].
  split; [apply keeps_reconcileRevocation|apply keeps_TopologyPersisted].
Qed.

(** A store with the revoked lease of operation "op-1" in the slot. *)
Definition revoked_op1 : deploymentLeaseRecord :=
  {| View := {| Kind := "migration"; OperationID := "op-1"; Instance_ := "web-1"; ExpiresAt := 60; V_Generation := 4 |};
     Namespace := "apps"; ServiceAccount := "deployer"; TokenHash := ""; CreatedAt := 10; State := revoked;
     Reason := "operator_revoked" |}.

Definition revoked_lease : Lease :=
  {| Name := deploymentLeaseName "db" "migration" ""; Owners := ["uid-1"]; Data := Some revoked_op1; KindLabel := "migration";
     StateLabel := Some revoked; HolderIdentity := "op-1"; RenewTime := 20; LeaseDurationSeconds := 1 |}.

Definition revoked_store : gmap string Lease := {[ Name revoked_lease := revoked_lease ]}.

Lemma two_ops_distinct : names_distinct "db" "migration" "op-1" ["op-1"; "op-2"].
Proof.
  split; [by left|]. split; [by left|].
  assert (forall P : string -> Prop, P "op-1" -> P "op-2" -> forall o, o ∈ ["op-1"; "op-2"] -> P o) as Hall.
  { intros P H1 H2 o Ho. by repeat apply elem_of_cons in Ho as [->|Ho]; [..|apply not_elem_of_nil in Ho]. }
  assert (forall P : string -> string -> Prop, P "op-1" "op-1" -> P "op-1" "op-2" -> P "op-2" "op-1" -> P "op-2" "op-2" ->
    forall o o', o ∈ ["op-1"; "op-2"] -> o' ∈ ["op-1"; "op-2"] -> P o o') as Hall2.
  { intros P ???? o o' Ho Ho'. revert o Ho. apply Hall; revert o' Ho'; by apply Hall. }
  split; [refine (Hall (fun o => _) _ _)|split; [refine (Hall2 (fun o o' => _) _ _ _ _)|split; refine (Hall2 (fun o o' => _) _ _ _ _)]]; apply (bool_decide_unpack _); vm_compute; exact I.
Qed.

(** A successful grant was admitted twice. The group read before the write had
    nothing pending - no revocation, reservation, unstable status, planned failover
    or hold, no topology change waiting to be persisted - and so had the group read
    again after it, of the same topology generation; a failover hold was granted on
    the caller's own active migration lease; and the lease written, which the
    response describes, is the caller's, carries the hash of the returned token and
    the generation, and lasts 5 to 120 seconds from a reading of the clock. *)
Theorem grant_admitted planned fg kind operationID instance namespace sa ttl tr result :
  runs (Grant planned fg kind operationID instance namespace sa ttl) tr (Ok result) ->
  exists g g' o r before after, grant_written o r before after tr
    /\ granted g kind operationID instance namespace sa before r result
    /\ ev GetGroup (Some g) ∈ before /\ UID g = UID fg /\ admitted planned g before
    /\ ev GetGroup (Some g') ∈ after /\ UID g' = UID fg /\ admitted planned g' after
    /\ TopologyGeneration g' = TopologyGeneration g
    /\ (kind = "failover-hold" -> holds_migration g operationID instance namespace sa before).
Proof.
  unfold Grant. intros H. destruct (_ || _) in H; [by apply runs_Ret_iff in H as [_ [=]]|].
  apply runs_try_ok in H as (t1 & g & t2 & -> & [Hg Hu]%fresh_ok & H).
  apply runs_try_ok in H as (t3 & u & t4 & -> & (Hr & Hp & Hl)%gate_ok & H).
  apply runs_bind_iff in H as (t5 & reason & t6 & -> & Hs & H).
  case_bool_decide as Hre; [by apply runs_Ret_iff in H as [_ [=]]|]. subst reason.
  apply UnstableReason_ok in Hs as (Hs1 & Hs2 & Hs3).
  apply runs_try_ok in H as (t7 & u' & t8 & -> & Ha & H).
  apply runs_try_ok in H as (t9 & slot & t10 & -> & _ & H).
  apply runs_bind_iff in H as (t11 & created & t12 & -> & _ & H).
  apply runs_try_ok in H as (t13 & [status created'] & t14 & -> & _ & H).
  apply runs_try_ok in H as (t15 & tomb & t16 & -> & _ & H).
  assert (runs (issue planned g (fst <$> slot) status created' kind operationID instance namespace sa ttl) t16 (Ok result)) as Hi.
  { destruct (tombstone _ _ _); [case_bool_decide; [by apply runs_Ret_iff in H as [_ [=]]|]|]; exact H. }
  apply issue_ok in Hi as (o & r & before & after & g' & Hw & (Hv & Ht & Hk & Ho & Hgen & now & Hn & Hx) & Hg' & Hu' & Hge & Had).
  exists g, g', o, r, (t1 ++ t3 ++ t5 ++ t7 ++ t9 ++ t11 ++ t13 ++ t15 ++ before), after.
  split; [|split; [|split; [|split; [done|split; [|split; [done|split; [congruence|split; [done|split; [done|]]]]]]]]].
  - apply (grant_written_app _ _ _ _ (t1 ++ t3 ++ t5 ++ t7 ++ t9 ++ t11 ++ t13 ++ t15) []) in Hw.
    rewrite !app_nil_r in Hw. by rewrite <- !(assoc_L (++)) in Hw.
  - unfold granted. repeat split; try done. exists now. split; [|done]. rewrite !elem_of_app. auto 10.
  - rewrite !elem_of_app. auto.
  - unfold admitted. rewrite !elem_of_app. auto 10.
  - intros Hh. destruct (authorise_ok _ _ _ _ _ _ _ _ Ha Hh) as (l & m & Hm & ?). exists l, m.
    rewrite !elem_of_app. auto 10.
Qed.

(** A grant never takes a live lease from another holder. While the lease in the
    slot is active, unexpired by every reading of the clock, unrevoked and of the
    current topology generation, a grant of that slot to any other operation,
    instance, namespace or service account fails and leaves the lease as it is. *)
Theorem grant_never_steals G planned fg kind operationID instance namespace sa ttl st tr st' x l0 r0 :
  runs (Grant planned fg kind operationID instance namespace sa ttl) tr x -> served G st tr st' ->
  named_at (deploymentLeaseName G kind (slot_key kind operationID)) l0 st ->
  Data l0 = Some r0 -> State r0 = active -> sameDeploymentHolder r0 operationID instance namespace sa = false ->
  (kind = "failover-hold" -> deploymentLeaseName G "migration" "" <> deploymentLeaseName G kind operationID) ->
  (forall now, ev Now now ∈ tr -> now <= ExpiresAt (View r0)) ->
  (forall g, ev GetGroup (Some g) ∈ tr -> RevokeDeploymentLeases g = None /\ TopologyGeneration g = V_Generation (View r0)) ->
  (exists e, x = Err e) /\ st' !! deploymentLeaseName G kind (slot_key kind operationID) = Some l0.
Proof.
  intros H Hs Hat Hd Ha Hh Hne Hnow Hgr. set (n := deploymentLeaseName G kind (slot_key kind operationID)) in *.
  assert (forall X (p : P (R X)) t1 (y : R X) s1, only reads p -> runs p t1 y -> served G st t1 s1 -> s1 = st) as Hreads.
  { intros X p t1 y s1 Ho Hr Hv. exact (triple_reads G p (fun s => s = st) Ho _ _ _ _ eq_refl Hr Hv). }
  unfold Grant in H. destruct (_ || _) in H; [apply runs_Ret_iff in H as [-> ->]; simpl in Hs; subst st'; split; [eauto|apply Hat]|].
  assert (forall e' : lease_error, Err e' = x -> (exists e, x = Err e) /\ st !! n = Some l0) as Herr by (intros e' <-; split; [eauto|apply Hat]).
  apply runs_bind_iff in H as (t1 & [g|e] & t2 & -> & H1 & H); apply served_app in Hs as (s1 & S1 & Hs);
    pose proof (triple_fresh G fg (fun s => s = st) _ _ _ _ eq_refl H1 S1) as [-> Hg];
    [|apply runs_Ret_iff in H as [-> ->]; simpl in Hs; subst st'; by eapply Herr].
  specialize (Hg g eq_refl). destruct (Hgr g) as [Hrev Hgen]; [apply elem_of_app; left; by apply fresh_ok in H1 as [? _]|].
  apply runs_bind_iff in H as (t3 & [u|e] & t4 & -> & H3 & H); apply served_app in Hs as (s3 & S3 & Hs);
    pose proof (Hreads _ _ _ _ _ (gate_reads planned g) H3 S3) as ->;
    [|apply runs_Ret_iff in H as [-> ->]; simpl in Hs; subst st'; by eapply Herr].
  apply runs_bind_iff in H as (t5 & reason & t6 & -> & H5 & H); apply served_app in Hs as (s5 & S5 & Hs).
  pose proof (triple_reads G _ (fun s => s = st) (UnstableReason_reads g) _ _ _ _ eq_refl H5 S5) as ->.
  case_bool_decide; [apply runs_Ret_iff in H as [-> ->]; simpl in Hs; subst st'; by eapply Herr|].
  apply runs_bind_iff in H as (t7 & [u'|e] & t8 & -> & H7 & H); apply served_app in Hs as (s7 & S7 & Hs);
    pose proof (authorise_elsewhere G g kind operationID instance namespace sa n l0 Hg ltac:(intros Hk; specialize (Hne Hk); unfold n, slot_key; by rewrite bool_decide_true) _ _ _ _ Hat H7 S7) as Hat';
    [|apply runs_Ret_iff in H as [-> ->]; simpl in Hs; subst st'; split; [eauto|apply Hat']].
  apply runs_bind_iff in H as (t9 & y & t10 & -> & H9 & H). apply served_app in Hs as (s9 & S9 & Hs).
  destruct (current_live G g kind operationID s7 s9 t9 y l0 r0) as [[[e ->]| ->] ->]; try done.
  { apply Hat'. }
  { intros now Hn. apply Hnow. rewrite !elem_of_app. auto 10. }
  { apply runs_Ret_iff in H as [-> ->]. simpl in Hs. subst st'. split; [eauto|apply Hat']. }
  apply runs_bind_iff in H as (t11 & created & t12 & -> & H11 & H). apply served_app in Hs as (s11 & S11 & Hs).
  pose proof (triple_reads G _ (fun s => s = s7) (only_call (Ans := ans) _ Now eq_refl) _ _ _ _ eq_refl H11 S11) as ->.
  unfold claim_slot in H. rewrite Ha, Hh in H. apply runs_Ret_iff in H as [-> ->]. simpl in Hs. subst st'.
  split; [eauto|apply Hat'].
Qed.

(** Deployments are admitted on a stable group only: no reason is given exactly
    when no revocation, planned failover, update, restore or Dragonfly change is
    under way, no gating condition stands, the group is ready, every configured site
    is observed, and every observed site is settled in its role. *)
Theorem unstable_reason_complete fg : DeploymentUnstableReason fg = "" <-> stable fg.
Proof.
  unfold DeploymentUnstableReason. cbv zeta. rewrite !reason_step; try done;
    [|by intros ?%bool_decide_eq_true..|by intros _; repeat case_match].
  rewrite !bool_decide_ne_false, bool_decide_eq_false, dragonfly_reason_none, site_reasons_none, not_ready_none, sites_observed.
  rewrite condition_reasons_none by (apply (bool_decide_unpack _); by vm_compute).
  rewrite (bool_decide_eq_false (ActiveSite fg = "")). unfold stable.
  assert (~ RevokeDeploymentLeases fg <> None <-> RevokeDeploymentLeases fg = None) as -> by (destruct (RevokeDeploymentLeases fg); split; [by intros []|done|by intros _|by intros _ []]).
  tauto.
Qed.

(** ** Examples *)

Definition demo_site (name state : string) : SiteStatus :=
  {| Site_Name := name; Site_State := state; RecoveryState := ""; DivergenceDetectedBy := ""; SourceConvergenceState := "";
     Replicating := true |}.

(** A stable group. *)
Definition stable_group : Group :=
  {| GroupName := "db"; UID := "uid-1"; ResourceVersion := 7; RevokeDeploymentLeases := None; PlannedFailoverTerminal := NotJSON;
     Spec_Sites := ["a"; "b"]; Spec_InitFromBackup := false; Spec_RestoreInPlace := false; TopologyGeneration := 4;
     ActiveSite := "a"; Conditions := {[ "Ready" := {| Cond_True := true; Cond_Reason := "" |} ]}; PlannedFailover := None;
     Status_Hold := None; UpdatePhase := ""; Restore := None; Dragonfly := None; RestoreInPlace := None;
     RestoreReclones := None; Sites := [demo_site "a" "writable"; demo_site "b" "read-only"] |}.

(** Reads answered from a store, every write acknowledged, the clock at 50. *)
Definition store_answers (st : gmap string Lease) (o : op) : ans o :=
  match o with
  | GetGroup => Some stable_group
  | GetLease n => match st !! n with Some l => Found l | None => NotFound end
  | ListActiveHolds => Some []
  | Now => 50
  | Rand => Some (repeat 7 32)
  | LoadPending => None
  | LoadObserved => Some "uid-1"
  | AddEpoch => 1
  | StorePendingIfAbsent _ => None
  | StoreObserved _ => tt
  | ClaimHeld => false
  | _ => true
  end.

Definition demo_run (st : gmap string Lease) (operationID : string) : list (event ans) * R DeploymentLeaseResult :=
  exec (fun _ => store_answers st) (Grant "" stable_group "migration" operationID "web-2" "apps" "deployer" 30) [].

Lemma store_served st tr : (forall o x, ev o x ∈ tr -> x = store_answers st o) ->
  forallb (fun e => reads (projT1 e)) tr = true -> served "db" st tr st.
Proof.
  intros Hx. induction tr as [|[o x] tr IH]; [done|]. intros [Hr Ht]%andb_prop. simpl in Hr.
  assert (x = store_answers st o) as -> by (apply Hx; by left).
  exists st. split; [|apply IH; [intros; apply Hx; by right|done]].
  destruct o; try done; simpl; split; try done; auto; [by intros g [= <-]|by intros ls l [= <-] ?%not_elem_of_nil].
Qed.

Lemma store_answered st operationID o x : ev o x ∈ (demo_run st operationID).1 -> x = store_answers st o.
Proof. exact (exec_const (store_answers st) _ [] (ev o x)). Qed.

Lemma revoked_store_inv : Inv "db" "migration" "op-1" ["op-1"; "op-2"] revoked_store.
Proof.
  assert (forall n l, revoked_store !! n = Some l -> n = Name revoked_lease /\ l = revoked_lease) as Hst
    by (intros n l Hn; unfold revoked_store in Hn; apply lookup_singleton_Some in Hn as [<- <-]; split; reflexivity).
  split; [|split].
  - intros n l [-> ->]%Hst. split; [done|]. intros r [= <-]. split; [by left|]. left. split; [done|by left].
  - exists (Name revoked_lease), revoked_lease, revoked_op1. split; [by left|]. split; [apply lookup_singleton_eq|done].
  - intros n l r [-> ->]%Hst [= <-] _ _. done.
Qed.

Lemma revoked_never_regains_witness : exists e, (demo_run revoked_store "op-1").2 = Err e.
Proof.
  destruct (revoked_never_regains "db" "migration" "op-1" ["op-1"; "op-2"] "" stable_group "migration" "op-1" "web-2" "apps"
    "deployer" "" 30 "operator_revoked" 1 "OrderedUpdate" two_ops_distinct) as [H _]; [by left|].
  refine (proj2 (H revoked_store _ _ revoked_store revoked_store_inv (exec_run (fun _ => store_answers revoked_store) _) _) eq_refl eq_refl).
  apply store_served; [apply store_answered|by vm_compute].
Defined.

Lemma grant_admitted_witness : exists result, (demo_run ∅ "op-2").2 = Ok result /\ exists o r before after,
  grant_written o r before after (demo_run ∅ "op-2").1 /\ TokenHash r = leaseTokenHash (Token result).
Proof.
  destruct ((demo_run ∅ "op-2").2) as [result|e] eqn:E; [|by vm_compute in E].
  pose proof (exec_run (fun _ => store_answers ∅) (Grant "" stable_group "migration" "op-2" "web-2" "apps" "deployer" 30)) as Hr.
  unfold demo_run in E. rewrite E in Hr. exists result. split; [done|].
  destruct (grant_admitted "" stable_group "migration" "op-2" "web-2" "apps" "deployer" 30 _ result Hr)
    as (g & g' & o & r & before & after & Hw & (_ & Ht & _) & _). exists o, r, before, after. split; [exact Hw|exact Ht].
Defined.

(** Another operation's live lease in the slot. *)
Definition live_lease : Lease :=
  revoked_lease <| Data := Some (revoked_op1 <| State := active |>) |> <| StateLabel := Some active |>.

Definition live_store : gmap string Lease := {[ Name live_lease := live_lease ]}.

Lemma grant_never_steals_witness : exists e, (demo_run live_store "op-2").2 = Err e.
Proof.
  refine (proj1 (grant_never_steals "db" "" stable_group "migration" "op-2" "web-2" "apps" "deployer" 30 live_store
    (demo_run live_store "op-2").1 live_store (demo_run live_store "op-2").2 live_lease (revoked_op1 <| State := active |>)
    (exec_run _ _) _ _ eq_refl eq_refl _ _ _ _)).
  - apply store_served; [apply store_answered|by vm_compute].
  - split; [|apply lookup_singleton_eq]. intros m l Hm. unfold live_store in Hm. by apply lookup_singleton_Some in Hm as [<- <-].
  - by vm_compute.
  - intros [=].
  - intros now ->%store_answered. apply Z.leb_le. reflexivity.
  - intros g [= ->]%store_answered. split; reflexivity.
Defined.
