(* ===== verification/ClaimSlot.v ===== *)
(** * The planned-failover claim slot and the in-memory failover record

    [internal/controller/planned_failover_claim.go]: the one slot per group in which a
    planned failover holds its claim, and the rules by which a topology manager takes
    over a failover recorded elsewhere; the failover record references of
    [planned_failover_contract.go] and [recordFailover] of [topology.go]. *)
From S2P Require Import Prelude GoStd Effects GoTime FailoverRecord.

Local Open Scope Z_scope.

Module ClaimSlot.

(** ** Failover record references *)

Record FailoverRecordRef : Type := {
  Ref_LastFailover : Z;
  Ref_LastFailoverTarget : string
}.

Definition newFailoverRecordRef (t : Z) (target : string) : FailoverRecordRef :=
  {| Ref_LastFailover := TruncateSecond t; Ref_LastFailoverTarget := target |}.

Definition sameFailoverRecord (a b : FailoverRecordRef) : bool :=
  (TruncateSecond (Ref_LastFailover a) =? TruncateSecond (Ref_LastFailover b))
  && bool_decide (Ref_LastFailoverTarget a = Ref_LastFailoverTarget b).

(** The persisted copy ([v1alpha1.FailoverRecordRef]). *)
Record FailoverRecordRefAPI : Type := {
  API_Time : option Z;
  API_Target : string
}.

Definition failoverRecordRefFromAPI (r : option FailoverRecordRefAPI) : FailoverRecordRef :=
  match r with
  | None => {| Ref_LastFailover := 0; Ref_LastFailoverTarget := "" |}
  | Some r => newFailoverRecordRef (default 0 (API_Time r)) (API_Target r)
  end.

Definition toAPI (r : FailoverRecordRef) : FailoverRecordRefAPI :=
  {| API_Time := if Ref_LastFailover r =? 0 then None else Some (TruncateSecond (Ref_LastFailover r));
     API_Target := Ref_LastFailoverTarget r |}.

(** ** The slot *)

Inductive ClaimReleaseReason : Type :=
| ReleaseNotCommitted
| ReleaseAdmissionTimeout
| ReleasePublishing
| ReleaseTerminal
| ReleaseToHold
| ReleaseAck
| ReleaseZombie
| ReleaseManagerAbsent
| ReleaseStatusStalled
| ReleaseOrphanHold.

#[export] Instance ClaimReleaseReason_eq_dec : EqDecision ClaimReleaseReason.
Proof. solve_decision. Defined.

Inductive plannedClaimMode : Type := claimModeRun | claimModeHold.

#[export] Instance plannedClaimMode_eq_dec : EqDecision plannedClaimMode.
Proof. solve_decision. Defined.

(** [promotion]: the confirmation time [RecordPlannedPromotion] left. *)
Record plannedClaim : Type := {
  mode : plannedClaimMode;
  runID : string;
  source : string;
  target : string;
  sourceUUID : string;
  baseline : FailoverRecordRef;
  needsReprove : bool;
  provisional : bool;
  promotion : option Z
}.

#[export] Instance plannedClaim_eta : Eta plannedClaim := fun c =>
  Build_plannedClaim (mode c) (runID c) (source c) (target c) (sourceUUID c) (baseline c) (needsReprove c)
    (provisional c) (promotion c).

Record releasedRun : Type := { gen : Z; released_runID : string }.

Record ClaimReleaseNote : Type := { Note_RunID : string; Why : ClaimReleaseReason }.

Record PlannedClaimSlot : Type := {
  held : option plannedClaim;
  releaseGen : Z;
  recent : list releasedRun;
  releases : list ClaimReleaseNote
}.

#[export] Instance PlannedClaimSlot_eta : Eta PlannedClaimSlot := fun s =>
  Build_PlannedClaimSlot (held s) (releaseGen s) (recent s) (releases s).

Definition recentLen : nat := 8.

(** The zero value. *)
Definition emptySlot : PlannedClaimSlot :=
  {| held := None; releaseGen := 0; recent := replicate recentLen {| gen := 0; released_runID := "" |}; releases := [] |}.

(** [uint64] addition. *)
Definition wrapu64 (z : Z) : Z := z mod 2 ^ 64.

Definition releasedSince (s : PlannedClaimSlot) (g : Z) (run : string) : bool :=
  existsb (fun r => (gen r >? g) && bool_decide (released_runID r = run)) (recent s).

Definition maxClaimReleaseNotes : nat := 32.

Definition noteLocked (s : PlannedClaimSlot) (n : ClaimReleaseNote) : PlannedClaimSlot :=
  let kept := if (maxClaimReleaseNotes <=? length (releases s))%nat
              then skipn (length (releases s) - maxClaimReleaseNotes + 1) (releases s) else releases s in
  s <| releases := kept ++ [n] |>.

(** [PlannedClaimView]. *)
Record PlannedClaimView : Type := {
  V_Hold : bool;
  V_RunID : string;
  V_Source : string;
  V_Target : string;
  V_Provisional : bool;
  V_NeedsReprove : bool;
  V_Promoted : bool
}.

Definition slotView (s : PlannedClaimSlot) : option PlannedClaimView :=
  (fun h => {| V_Hold := bool_decide (mode h = claimModeHold); V_RunID := runID h; V_Source := source h; V_Target := target h;
               V_Provisional := provisional h; V_NeedsReprove := needsReprove h;
               V_Promoted := bool_decide (is_Some (promotion h)) |}) <$> held s.

Definition Held (s : PlannedClaimSlot) : bool := bool_decide (is_Some (held s)).

Definition snapshot (s : PlannedClaimSlot) : option plannedClaim := held s.

Definition hydrate (s : PlannedClaimSlot) (c : plannedClaim) : PlannedClaimSlot * bool :=
  match held s with
  | Some _ => (s, false)
  | None => (s <| held := Some c |>, true)
  end.

Definition update (s : PlannedClaimSlot) (run : string) (fn : plannedClaim -> plannedClaim) : PlannedClaimSlot * bool :=
  match held s with
  | None => (s, false)
  | Some c =>
      if negb (bool_decide (mode c = claimModeRun)) || negb (bool_decide (runID c = run)) then (s, false)
      else (s <| held := Some (fn c) |>, true)
  end.

Definition release (s : PlannedClaimSlot) (run : string) (why : ClaimReleaseReason) : PlannedClaimSlot * bool :=
  match held s with
  | None => (s, false)
  | Some c =>
      if negb (bool_decide (runID c = run)) then (s, false)
      else if negb (Bool.eqb (bool_decide (mode c = claimModeHold)) (bool_decide (why = ReleaseAck \/ why = ReleaseOrphanHold)))
      then (s, false)
      else
        let g := wrapu64 (releaseGen s + 1) in
        let s := s <| held := None |> <| releaseGen := g |>
                   <| recent := <[Z.to_nat (g mod Z.of_nat recentLen) := {| gen := g; released_runID := run |}]> (recent s) |> in
        (noteLocked s {| Note_RunID := run; Why := why |}, true)
  end.

(** [plannedClaim{mode: claimModeHold, runID: runID}]. *)
Definition holdClaim (run : string) : plannedClaim :=
  {| mode := claimModeHold; runID := run; source := ""; target := ""; sourceUUID := "";
     baseline := {| Ref_LastFailover := 0; Ref_LastFailoverTarget := "" |};
     needsReprove := false; provisional := false; promotion := None |}.

Definition toHold (s : PlannedClaimSlot) (run : string) : PlannedClaimSlot * bool :=
  match held s with
  | None => (noteLocked (s <| held := Some (holdClaim run) |>) {| Note_RunID := run; Why := ReleaseToHold |}, true)
  | Some c =>
      if bool_decide (runID c = run) && bool_decide (mode c = claimModeHold) then (s, false)
      else if negb (bool_decide (runID c = run)) then (s, false)
      else
        let c := c <| mode := claimModeHold |> <| provisional := false |> <| needsReprove := false |> in
        (noteLocked (s <| held := Some c |>) {| Note_RunID := run; Why := ReleaseToHold |}, true)
  end.

(** What callers of [update] assign. *)
Inductive claim_update : Type :=
| ClearProvisional
| ClearReprove
| RecordPromotion (confirmedAt : Z).

Definition apply_update (u : claim_update) (c : plannedClaim) : plannedClaim :=
  match u with
  | ClearProvisional => c <| provisional := false |>
  | ClearReprove => c <| needsReprove := false |>
  | RecordPromotion t => c <| promotion := Some t |>
  end.

(** ** Failovers in memory *)

(** The fields of [TopologyManager] that record failovers. [desired]: the record the
    out-of-band flush writes, when one is pending. *)
Record Authority : Type := {
  lastFailover : Z;
  lastFailoverTarget : string;
  lastFailoverLocal : bool;
  promotionGtidExecuted : string;
  groupHasData : bool;
  lastActiveSite : string;
  lastActiveSiteNamed : bool;
  topologyGeneration : Z;
  deploymentActiveSite : string;
  desired : option FailoverRecords.FailoverRecord;
  failoverStateDirty : bool;
  statusWriteFailed : bool
}.

#[export] Instance Authority_eta : Eta Authority := fun a =>
  Build_Authority (lastFailover a) (lastFailoverTarget a) (lastFailoverLocal a) (promotionGtidExecuted a) (groupHasData a)
    (lastActiveSite a) (lastActiveSiteNamed a) (topologyGeneration a) (deploymentActiveSite a) (desired a)
    (failoverStateDirty a) (statusWriteFailed a).

(** [deploymentAuthorityLocked] with deployment leases wired. *)
Definition deploymentAuthorityLocked (a : Authority) (site : string) : Authority :=
  if negb (bool_decide (site = "")) && negb (bool_decide (site = deploymentActiveSite a))
  then a <| topologyGeneration := wrap64 (topologyGeneration a + 1) |> <| deploymentActiveSite := site |>
         <| statusWriteFailed := true |>
  else a.

(** The locked section of [recordFailover]. *)
Definition recordFailover (a : Authority) (now : Z) (target promotionGtid : string) : Authority :=
  let rec := {| FailoverRecords.LastFailover := now; FailoverRecords.LastFailoverTarget := target;
                FailoverRecords.PromotionGtidExecuted := promotionGtid |} in
  let a := a <| lastActiveSite := target |> <| lastActiveSiteNamed := true |> in
  let a := deploymentAuthorityLocked a target in
  let a := a <| promotionGtidExecuted := promotionGtid |> in
  let a := if bool_decide (TrimSpace promotionGtid <> "") then a <| groupHasData := true |> else a in
  let a := if negb (lastFailoverLocal a) || negb (lastFailover a >? now)
           then a <| lastFailover := now |> <| lastFailoverTarget := target |> <| lastFailoverLocal := true |> else a in
  if match desired a with Some d => negb (FailoverRecords.LastFailover d >? now) | None => true end
  then a <| desired := Some rec |> <| failoverStateDirty := true |> else a.

Definition failoverRecordSnapshot (a : Authority) : option FailoverRecords.FailoverRecord :=
  if (lastFailover a =? 0) || bool_decide (lastFailoverTarget a = "") then None
  else Some {| FailoverRecords.LastFailover := lastFailover a; FailoverRecords.LastFailoverTarget := lastFailoverTarget a;
               FailoverRecords.PromotionGtidExecuted := promotionGtidExecuted a |}.

(** [sites]: the names of the manager's sites. *)
Definition carryFailoverRecord (sites : list string) (a : Authority) (rec : FailoverRecords.FailoverRecord) : Authority * bool :=
  if (FailoverRecords.LastFailover rec =? 0) || bool_decide (FailoverRecords.LastFailoverTarget rec = "") then (a, false)
  else if negb (bool_decide (FailoverRecords.LastFailoverTarget rec ∈ sites)) then (a, false)
  else if negb (lastFailover a =? 0)
          && negb (TruncateSecond (FailoverRecords.LastFailover rec) >? TruncateSecond (lastFailover a)) then (a, false)
  else
    let a := a <| lastFailover := FailoverRecords.LastFailover rec |>
               <| lastFailoverTarget := FailoverRecords.LastFailoverTarget rec |> <| lastFailoverLocal := true |>
               <| lastActiveSite := FailoverRecords.LastFailoverTarget rec |> <| lastActiveSiteNamed := true |> in
    let a := if bool_decide (FailoverRecords.PromotionGtidExecuted rec <> "")
             then a <| promotionGtidExecuted := FailoverRecords.PromotionGtidExecuted rec |> <| groupHasData := true |> else a in
    let a := deploymentAuthorityLocked a (FailoverRecords.LastFailoverTarget rec) in
    let a := if match desired a with
                | Some d => FailoverRecords.LastFailover d <? FailoverRecords.LastFailover rec | None => true end
             then a <| desired := Some rec |> <| failoverStateDirty := true |> else a in
    (a <| statusWriteFailed := true |>, true).

(** [CarryRetiredFailoverRecord]: from the old manager's record into the new one's. *)
Definition CarryRetiredFailoverRecord (sites : list string) (tm old : Authority) : Authority * bool :=
  match failoverRecordSnapshot old with
  | None => (tm, false)
  | Some rec => carryFailoverRecord sites tm rec
  end.

Definition applyPlannedPromotionLocked (a : Authority) (confirmedAt : Z) (target watermark : string) : Authority * bool :=
  if (confirmedAt =? 0) || bool_decide (target = "") then (a, false)
  else
    let at_ := TruncateSecond confirmedAt in
    let cur := TruncateSecond (lastFailover a) in
    if at_ <? cur then (a, false)
    else if (at_ =? cur) && negb (lastFailover a =? 0) && negb (bool_decide (lastFailoverTarget a = target)) then (a, false)
    else
      let a := a <| lastFailover := at_ |> <| lastFailoverTarget := target |>
                 <| lastActiveSite := target |> <| lastActiveSiteNamed := true |> in
      (if bool_decide (watermark <> "") then a <| promotionGtidExecuted := watermark |> <| groupHasData := true |> else a, true).

Definition carryNamedActiveSite (sites : list string) (tm old : Authority) : Authority * bool :=
  if negb (lastActiveSiteNamed old) || bool_decide (lastActiveSite old = "") then (tm, false)
  else if lastActiveSiteNamed tm || negb (bool_decide (lastActiveSite old ∈ sites)) then (tm, false)
  else (tm <| lastActiveSite := lastActiveSite old |> <| lastActiveSiteNamed := true |>, true).

End ClaimSlot.

Import ClaimSlot.

(** ** Specification vocabulary *)

(** The operations on a slot. *)
Inductive slot_op : Type :=
| OpHydrate (c : plannedClaim)
| OpUpdate (run : string) (u : claim_update)
| OpRelease (run : string) (why : ClaimReleaseReason)
| OpToHold (run : string).

Definition apply_op (s : PlannedClaimSlot) (o : slot_op) : PlannedClaimSlot * bool :=
  match o with
  | OpHydrate c => hydrate s c
  | OpUpdate run u => update s run (apply_update u)
  | OpRelease run why => release s run why
  | OpToHold run => toHold s run
  end.

Fixpoint run_ops (s : PlannedClaimSlot) (ops : list slot_op) : PlannedClaimSlot :=
  match ops with
  | [] => s
  | o :: ops => run_ops (apply_op s o).1 ops
  end.

(** The runs released, in order. *)
Fixpoint released (s : PlannedClaimSlot) (ops : list slot_op) : list string :=
  match ops with
  | [] => []
  | o :: ops =>
      match o with
      | OpRelease run why => if (release s run why).2 then [run] else []
      | _ => []
      end ++ released (apply_op s o).1 ops
  end.

(** The ring holds the newest releases of the log, each at its generation's place. *)
Definition ring_ok (s : PlannedClaimSlot) (log : list string) : Prop :=
  releaseGen s = Z.of_nat (length log) /\ length (recent s) = recentLen
  /\ (forall k r, log !! k = Some r -> (length log - k <= recentLen)%nat ->
        recent s !! (S k mod recentLen)%nat = Some {| gen := Z.of_nat (S k); released_runID := r |})
  /\ (forall i e, recent s !! i = Some e -> gen e = 0 \/
        exists k, gen e = Z.of_nat (S k) /\ i = (S k mod recentLen)%nat /\ (length log - k <= recentLen)%nat
                  /\ log !! k = Some (released_runID e)).

(** ** Lemmas *)

Lemma TruncateSecond_mono a b : a <= b -> TruncateSecond a <= TruncateSecond b.
Proof.
  intros H. unfold TruncateSecond, Second. pose proof (Z.div_le_mono a b 1000000000 ltac:(lia) H).
  rewrite !Z.mod_eq by done. lia.
Qed.

Lemma note_held s n : held (noteLocked s n) = held s /\ releaseGen (noteLocked s n) = releaseGen s /\ recent (noteLocked s n) = recent s.
Proof. done. Qed.

Lemma note_bound s n : (length (releases s) <= maxClaimReleaseNotes)%nat -> (length (releases (noteLocked s n)) <= maxClaimReleaseNotes)%nat.
Proof.
  unfold noteLocked, maxClaimReleaseNotes. cbn [releases assign]. intros H. rewrite length_app. simpl (length [n]).
  destruct (32 <=? length (releases s))%nat eqn:E; [rewrite length_drop; apply Nat.leb_le in E|apply Nat.leb_gt in E]; lia.
Qed.

#[local] Arguments noteLocked _ _ : simpl never.

Lemma release_cases s run why s' b : release s run why = (s', b) ->
  (b = false /\ s' = s)
  \/ exists c, b = true /\ held s = Some c /\ runID c = run /\ held s' = None
       /\ (mode c = claimModeHold <-> why = ReleaseAck \/ why = ReleaseOrphanHold)
       /\ releaseGen s' = wrapu64 (releaseGen s + 1)
       /\ recent s' = <[Z.to_nat (wrapu64 (releaseGen s + 1) mod Z.of_nat recentLen) :=
                          {| gen := wrapu64 (releaseGen s + 1); released_runID := run |}]> (recent s).
Proof.
  unfold release. destruct (held s) as [c|]; [|by intros [= <- <-]; left].
  destruct (decide (runID c = run)) as [Hr|]; [rewrite bool_decide_true by done; simpl|rewrite bool_decide_false by done; by intros [= <- <-]; left].
  destruct (Bool.eqb _ _) eqn:E; simpl; [|by intros [= <- <-]; left]. intros [= <- <-]. right. exists c.
  split; [done|]. split; [done|]. split; [done|]. split; [done|]. split; [|done].
  apply eqb_prop in E. revert E. do 2 case_bool_decide; intros; simplify_eq; tauto.
Qed.

Lemma toHold_cases s run s' b : toHold s run = (s', b) ->
  (b = false /\ s' = s)
  \/ b = true /\ releaseGen s' = releaseGen s /\ recent s' = recent s
     /\ ((held s = None /\ held s' = Some (holdClaim run))
         \/ exists c, held s = Some c /\ runID c = run /\ mode c = claimModeRun
             /\ held s' = Some (c <| mode := claimModeHold |> <| provisional := false |> <| needsReprove := false |>)).
Proof.
  unfold toHold. destruct (held s) as [c|]; [|intros [= <- <-]; right; do 3 (split; [done|]); by left].
  destruct (decide (runID c = run)) as [Hr|]; [rewrite bool_decide_true by done; simpl|rewrite bool_decide_false by done; by intros [= <- <-]; left].
  destruct (mode c) eqn:Em; simpl; [|by intros [= <- <-]; left]. intros [= <- <-]. right. split; [done|]. split; [done|].
  split; [done|]. right. by exists c.
Qed.

Lemma hydrate_cases s c s' b : hydrate s c = (s', b) ->
  (b = false /\ s' = s /\ held s <> None) \/ (b = true /\ held s = None /\ s' = s <| held := Some c |>).
Proof. unfold hydrate. destruct (held s) eqn:E; intros [= <- <-]; auto. Qed.

Lemma update_cases s run u s' b : update s run (apply_update u) = (s', b) ->
  (b = false /\ s' = s)
  \/ exists c, b = true /\ held s = Some c /\ runID c = run /\ mode c = claimModeRun
       /\ s' = s <| held := Some (apply_update u c) |>.
Proof.
  unfold update. destruct (held s) as [c|]; [|by intros [= <- <-]; left].
  destruct (mode c) eqn:Em; simpl; [|by intros [= <- <-]; left].
  destruct (decide (runID c = run)) as [Hr|]; [rewrite bool_decide_true by done; simpl|rewrite bool_decide_false by done; by intros [= <- <-]; left].
  intros [= <- <-]. right. by exists c.
Qed.

(** Any operation but a release leaves the ring alone. *)
Lemma ring_same s s' log : releaseGen s' = releaseGen s -> recent s' = recent s -> ring_ok s log -> ring_ok s' log.
Proof. unfold ring_ok. by intros -> ->. Qed.

Lemma wrapu64_id z : 0 <= z < 2 ^ 64 -> wrapu64 z = z.
Proof. intros H. unfold wrapu64. by apply Z.mod_small. Qed.

(** Two places of the ring coincide every [recentLen] generations. *)
Lemma ring_place k n : (k < n)%nat -> (S k mod recentLen = S n mod recentLen)%nat <-> ((n - k) mod recentLen = 0)%nat.
Proof.
  intros H. unfold recentLen. rewrite <- !Nat2Z.inj_iff, !Nat2Z.inj_mod, Nat2Z.inj_sub, !Nat2Z.inj_succ by lia.
  change (Z.of_nat 8) with 8. change (Z.of_nat 0) with 0.
  split; intros; Z.to_euclidean_division_equations; lia.
Qed.

Lemma ring_place_near k n : (k < n)%nat -> (n - k < recentLen)%nat -> (S k mod recentLen <> S n mod recentLen)%nat.
Proof. intros H Hn Heq. apply ring_place in Heq; [|done]. rewrite Nat.mod_small in Heq by done. lia. Qed.

Lemma ring_place_far k n : (k < n)%nat -> (n - k <= recentLen)%nat -> (S k mod recentLen <> S n mod recentLen)%nat -> (n - k < recentLen)%nat.
Proof.
  intros H Hn Hne. destruct (decide (n - k = recentLen)%nat) as [Heq|]; [|lia].
  destruct Hne. apply ring_place; [done|]. by rewrite Heq.
Qed.

(** A release appends to the log. *)
Lemma ring_push s s' log run : ring_ok s log -> Z.of_nat (S (length log)) < 2 ^ 64 ->
  releaseGen s' = wrapu64 (releaseGen s + 1) ->
  recent s' = <[Z.to_nat (wrapu64 (releaseGen s + 1) mod Z.of_nat recentLen) :=
                  {| gen := wrapu64 (releaseGen s + 1); released_runID := run |}]> (recent s) ->
  ring_ok s' (log ++ [run]).
Proof.
  intros (Hg & Hlen & Hin & Hout) Hb Hg' Hr'. rewrite Hg in Hg', Hr'.
  assert (wrapu64 (Z.of_nat (length log) + 1) = Z.of_nat (S (length log))) as Hw by (rewrite wrapu64_id; lia).
  rewrite Hw in Hg', Hr'. assert (Z.to_nat (Z.of_nat (S (length log)) mod Z.of_nat recentLen) = (S (length log) mod recentLen)%nat) as Hi.
  { rewrite <- Nat2Z.inj_mod. apply Nat2Z.id. }
  rewrite Hi in Hr'. unfold ring_ok. rewrite length_app, Hr'. cbn [length]. split; [lia|]. split; [by rewrite length_insert|]. split.
  - intros k r Hk Hn. destruct (decide (k = length log)) as [->|Hne].
    + rewrite list_lookup_middle in Hk by done. injection Hk as ->. rewrite list_lookup_insert_eq; [done|].
      rewrite Hlen. by apply (Nat.mod_upper_bound (S (length log)) recentLen).
    + pose proof (lookup_lt_Some _ _ _ Hk) as Hlt. rewrite length_app in Hlt. simpl in Hlt.
      rewrite lookup_app_l in Hk by lia. rewrite list_lookup_insert_ne; [apply Hin; [done|lia]|].
      intros Heq. symmetry in Heq. revert Heq. apply ring_place_near; unfold recentLen in *; lia.
  - intros i e He. apply list_lookup_insert_Some in He as [(Heq & <- & Hlt)|(Hne & He)].
    + subst i. right. exists (length log). simpl. split; [done|]. split; [done|]. split; [lia|]. by rewrite list_lookup_middle.
    + destruct (Hout _ _ He) as [|(k & Hk & -> & Hn & Hl)]; [by left|]. right. exists k. split; [done|]. split; [done|].
      split; [|by apply lookup_app_l_Some]. pose proof (lookup_lt_Some _ _ _ Hl).
      pose proof (ring_place_far k (length log) ltac:(lia) Hn (fun Heq => Hne (eq_sym Heq))). lia.
Qed.

Lemma ring_empty : ring_ok emptySlot [].
Proof.
  split; [done|]. split; [done|]. split; [done|]. intros i e He. left. by apply lookup_replicate in He as [-> _].
Qed.

Lemma ring_run s log ops : ring_ok s log -> Z.of_nat (length (log ++ released s ops)) < 2 ^ 64 ->
  ring_ok (run_ops s ops) (log ++ released s ops).
Proof.
  revert s log. induction ops as [|o ops IH]; intros s log Hs Hb; simpl; [by rewrite app_nil_r|].
  assert (forall log', (log' ++ released (apply_op s o).1 ops = log ++ released s (o :: ops)) -> ring_ok (apply_op s o).1 log' ->
    ring_ok (run_ops (apply_op s o).1 ops) (log ++ released s (o :: ops))) as Hstep
    by (intros log' Heq Hr; rewrite <- Heq; apply IH; [done|by rewrite Heq]).
  destruct o as [c|run u|run why|run]; simpl in *.
  - apply (Hstep log); [done|]. unfold hydrate. destruct (held s); simpl; [done|by eapply ring_same].
  - apply (Hstep log); [done|]. destruct (update s run (apply_update u)) as [s' b] eqn:E.
    destruct (update_cases _ _ _ _ _ E) as [[_ ->]|(c & _ & _ & _ & _ & ->)]; [done|by eapply ring_same].
  - destruct (release s run why) as [s' b] eqn:E. simpl in *.
    destruct (release_cases _ _ _ _ _ E) as [[-> ->]|(c & -> & _ & _ & _ & _ & Hg & Hr)]; [by apply (Hstep log)|].
    apply (Hstep (log ++ [run])); [by rewrite <- (assoc_L (++))|]. eapply ring_push; [exact Hs| |done..].
    rewrite !length_app in Hb. simpl in Hb. lia.
  - apply (Hstep log); [done|]. destruct (toHold s run) as [s' b] eqn:E.
    destruct (toHold_cases _ _ _ _ E) as [[_ ->]|(_ & Hg & Hr & _)]; [done|by eapply ring_same].
Qed.

Lemma releasedSince_log s log g run : ring_ok s log -> 0 <= g ->
  releasedSince s g run = true <->
    exists k, log !! k = Some run /\ g < Z.of_nat (S k) /\ (length log - k <= recentLen)%nat.
Proof.
  intros (_ & _ & Hin & Hout) Hg. unfold releasedSince. rewrite existsb_exists. setoid_rewrite <- list_elem_of_In. split.
  - intros (e & [i He]%list_elem_of_lookup & [Hgt Hr%bool_decide_eq_true]%andb_prop). rewrite Z.gtb_ltb, Z.ltb_lt in Hgt.
    destruct (Hout _ _ He) as [|(k & Hk & _ & Hn & Hl)]; [lia|]. exists k. rewrite <- Hr. split; [done|]. lia.
  - intros (k & Hk & Hlt & Hn). eexists. split; [eapply list_elem_of_lookup_2; by apply Hin|]. simpl.
    rewrite bool_decide_true by done. rewrite andb_true_r, Z.gtb_ltb. by apply Z.ltb_lt.
Qed.

(** The ways a manager's failover record changes. *)
Inductive authority_op : Type :=
| RecordFailover (now : Z) (target promotionGtid : string)
| CarryRecord (rec : FailoverRecords.FailoverRecord)
| ApplyPromotion (confirmedAt : Z) (target watermark : string).

Definition apply_authority (sites : list string) (a : Authority) (o : authority_op) : Authority :=
  match o with
  | RecordFailover now target gtid => recordFailover a now target gtid
  | CarryRecord rec => (carryFailoverRecord sites a rec).1
  | ApplyPromotion at_ target watermark => (applyPlannedPromotionLocked a at_ target watermark).1
  end.

(** The record's time and target after a change, and whether the process made it. *)
Definition stamped (a : Authority) (t : Z) (target : string) (local : bool) : Prop :=
  lastFailover a = t /\ lastFailoverTarget a = target /\ lastFailoverLocal a = local.

Lemma deploymentAuthority_stamp a site t target local :
  stamped a t target local -> stamped (deploymentAuthorityLocked a site) t target local.
Proof. unfold deploymentAuthorityLocked. by case_match. Qed.

Lemma record_stamp a now target gtid : stamped (recordFailover a now target gtid)
    (if negb (lastFailoverLocal a) || negb (lastFailover a >? now) then now else lastFailover a)
    (if negb (lastFailoverLocal a) || negb (lastFailover a >? now) then target else lastFailoverTarget a) true.
Proof.
  unfold recordFailover. set (a0 := deploymentAuthorityLocked _ target).
  assert (stamped a0 (lastFailover a) (lastFailoverTarget a) (lastFailoverLocal a)) as (H1 & H2 & H3)
    by (by apply deploymentAuthority_stamp).
  assert (forall b, stamped (if bool_decide (TrimSpace gtid <> "") then b <| groupHasData := true |> else b)
    (lastFailover b) (lastFailoverTarget b) (lastFailoverLocal b)) as Hd by (intros b; by case_match).
  set (a1 := if bool_decide _ then _ else _). destruct (Hd (a0 <| promotionGtidExecuted := gtid |>)) as (D1 & D2 & D3).
  fold a1 in D1, D2, D3. simpl in D1, D2, D3. rewrite D1, D3, H1, H3.
  set (a2 := if negb (lastFailoverLocal a) || _ then _ else a1).
  assert (stamped a2 (if negb (lastFailoverLocal a) || negb (lastFailover a >? now) then now else lastFailover a)
    (if negb (lastFailoverLocal a) || negb (lastFailover a >? now) then target else lastFailoverTarget a) true) as Hs.
  { unfold a2. destruct (negb (lastFailoverLocal a) || negb (lastFailover a >? now)) eqn:E; [done|].
    unfold stamped. rewrite D1, D2, D3, H1, H2, H3. destruct (lastFailoverLocal a); done. }
  clearbody a2. destruct (match desired a2 with Some _ => _ | None => _ end); exact Hs.
Qed.

Lemma carry_stamp sites a rec a' : carryFailoverRecord sites a rec = (a', true) ->
  stamped a' (FailoverRecords.LastFailover rec) (FailoverRecords.LastFailoverTarget rec) true
  /\ (lastFailover a <> 0 -> TruncateSecond (lastFailover a) < TruncateSecond (FailoverRecords.LastFailover rec)).
Proof.
  unfold carryFailoverRecord. destruct (_ || _); [done|]. destruct (negb _); [done|].
  destruct (negb (lastFailover a =? 0) && _) eqn:E; [done|]. set (a1 := deploymentAuthorityLocked _ _).
  assert (stamped a1 (FailoverRecords.LastFailover rec) (FailoverRecords.LastFailoverTarget rec) true) as Hs.
  { apply deploymentAuthority_stamp. by case_match. }
  intros [= <-]. split; [by destruct (match desired a1 with Some _ => _ | None => _ end)|].
  intros Hz%Z.eqb_neq. rewrite Hz in E. simpl in E. apply negb_false_iff in E. rewrite Z.gtb_ltb in E. by apply Z.ltb_lt.
Qed.

Lemma carry_refused sites a rec a' : carryFailoverRecord sites a rec = (a', false) -> a' = a.
Proof. unfold carryFailoverRecord. repeat (case_match; [by intros [= <-]|]). done. Qed.

Lemma apply_stamp a at_ target watermark a' : applyPlannedPromotionLocked a at_ target watermark = (a', true) ->
  stamped a' (TruncateSecond at_) target (lastFailoverLocal a)
  /\ TruncateSecond (lastFailover a) <= TruncateSecond at_
  /\ (lastFailover a <> 0 -> lastFailoverTarget a <> target -> TruncateSecond (lastFailover a) < TruncateSecond at_).
Proof.
  unfold applyPlannedPromotionLocked. destruct (_ || _); [done|].
  destruct (TruncateSecond at_ <? TruncateSecond (lastFailover a)) eqn:E1; [done|]. apply Z.ltb_ge in E1.
  destruct (_ && _) eqn:E2; [done|]. intros [= <-]. split; [by case_match|]. split; [done|].
  intros Hz%Z.eqb_neq Ht. rewrite Hz, bool_decide_false in E2 by done. simpl in E2.
  rewrite !andb_true_r in E2. apply Z.eqb_neq in E2. lia.
Qed.

Lemma apply_refused a at_ target watermark a' : applyPlannedPromotionLocked a at_ target watermark = (a', false) -> a' = a.
Proof. unfold applyPlannedPromotionLocked. repeat (case_match; [by intros [= <-]|]). done. Qed.

Lemma authority_step sites a o : lastFailoverLocal a = true -> lastFailover a <> 0 ->
  let a' := apply_authority sites a o in
  lastFailoverLocal a' = true /\ TruncateSecond (lastFailover a) <= TruncateSecond (lastFailover a')
  /\ match o with
     | RecordFailover now _ _ => TruncateSecond now <= TruncateSecond (lastFailover a')
     | _ => lastFailoverTarget a' <> lastFailoverTarget a -> TruncateSecond (lastFailover a) < TruncateSecond (lastFailover a')
     end.
Proof.
  intros Hl Hz a'. unfold a'. destruct o as [now target gtid|rec|at_ target watermark]; simpl.
  - destruct (record_stamp a now target gtid) as (-> & _ & ->). rewrite Hl. simpl. split; [done|].
    destruct (lastFailover a >? now) eqn:E; simpl; rewrite Z.gtb_ltb in E; [apply Z.ltb_lt in E|apply Z.ltb_ge in E];
      split; try reflexivity; apply TruncateSecond_mono; lia.
  - destruct (carryFailoverRecord sites a rec) as [b []] eqn:E; simpl; [|apply carry_refused in E as ->; done].
    apply carry_stamp in E as [(-> & -> & ->) H]. specialize (H Hz). split; [done|]. split; [lia|done].
  - destruct (applyPlannedPromotionLocked a at_ target watermark) as [b []] eqn:E; simpl; [|apply apply_refused in E as ->; done].
    apply apply_stamp in E as [(-> & -> & ->) [H1 H2]]. rewrite TruncateSecond_idemp. split; [done|]. split; [done|].
    intros Ht. apply H2; congruence.
Qed.

(** ** Theorems *)

(** The slot remembers its last eight releases exactly: a registration that read
    the group at generation [g] is told that the run was released since if and only
    if one of the newest eight releases is that run's and came after [g]. *)
Theorem released_since_exact ops g run : Z.of_nat (length (released emptySlot ops)) < 2 ^ 64 -> 0 <= g ->
  releasedSince (run_ops emptySlot ops) g run = true <->
    exists k, released emptySlot ops !! k = Some run /\ g < Z.of_nat (S k)
              /\ (length (released emptySlot ops) - k <= recentLen)%nat.
Proof. intros Hb Hg. apply releasedSince_log; [|done]. by apply (ring_run emptySlot [] ops ring_empty). Qed.

(** A claim changes hands only through its owner. An operation that reports false
    changes nothing; a held claim keeps its run, sites, baseline and - once a hold -
    its mode; it leaves the slot only by a release naming its run, a hold exactly by
    an acknowledgement or as an orphan, a run's claim by any other reason; and an
    empty slot is filled only by hydration or by a hold. At most 32 notes are kept. *)
Theorem claim_lifecycle s o : let '(s', ok) := apply_op s o in
  (ok = false -> s' = s)
  /\ (forall c c', held s = Some c -> held s' = Some c' ->
        (runID c', source c', target c', sourceUUID c', baseline c') = (runID c, source c, target c, sourceUUID c, baseline c)
        /\ (mode c = claimModeHold -> c' = c) /\ (mode c' <> mode c -> o = OpToHold (runID c)))
  /\ (forall c, held s = Some c -> held s' = None ->
        exists why, o = OpRelease (runID c) why /\ (mode c = claimModeHold <-> why = ReleaseAck \/ why = ReleaseOrphanHold))
  /\ (forall c', held s = None -> held s' = Some c' -> o = OpHydrate c' \/ (o = OpToHold (runID c') /\ c' = holdClaim (runID c')))
  /\ ((length (releases s) <= maxClaimReleaseNotes)%nat -> (length (releases s') <= maxClaimReleaseNotes)%nat).
Proof.
  destruct (apply_op s o) as [s' ok] eqn:E.
  assert ((length (releases s) <= maxClaimReleaseNotes)%nat -> (length (releases s') <= maxClaimReleaseNotes)%nat) as Hnotes.
  { intros Hn. destruct o as [c0|run u|run why|run]; simpl in E.
    - unfold hydrate in E. by destruct (held s); injection E as <- _.
    - by destruct (update_cases _ _ _ _ _ E) as [[_ ->]|(c & _ & _ & _ & _ & ->)].
    - unfold release in E. destruct (held s); [|by injection E as <- _].
      destruct (negb _); [by injection E as <- _|]. destruct (negb _); [by injection E as <- _|].
      injection E as <- _. by apply note_bound.
    - unfold toHold in E. destruct (held s); [|injection E as <- _; by apply note_bound].
      destruct (_ && _); [by injection E as <- _|]. destruct (negb _); [by injection E as <- _|].
      injection E as <- _. by apply note_bound. }
  split; [|split; [|split; [|split; [|exact Hnotes]]]]; destruct o as [c0|run u|run why|run]; simpl in E.
  all: try match type of E with hydrate _ _ = _ => destruct (hydrate_cases _ _ _ _ E) as [(-> & -> & Hn)|(-> & Hn & ->)]; simpl; intros;
    first [done|congruence|simplify_eq; by auto|simplify_eq; by split] end.
  - destruct (update_cases _ _ _ _ _ E) as [[_ ->]|(c & -> & _)]; done.
  - destruct (release_cases _ _ _ _ _ E) as [[_ ->]|(c & -> & _)]; done.
  - destruct (toHold_cases _ _ _ _ E) as [[_ ->]|[-> _]]; done.
  - intros c c' Hc Hc'. destruct (update_cases _ _ _ _ _ E) as [[_ ->]|(c1 & _ & H1 & H2 & H3 & ->)].
    { rewrite Hc in Hc'. by injection Hc' as <-. }
    simpl in Hc'. rewrite Hc in H1. injection H1 as <-. injection Hc' as <-. by destruct u; rewrite H3.
  - intros c c' Hc Hc'. destruct (release_cases _ _ _ _ _ E) as [[_ ->]|(c1 & _ & _ & _ & H & _)]; [|by rewrite H in Hc'].
    rewrite Hc in Hc'. by injection Hc' as <-.
  - intros c c' Hc Hc'. destruct (toHold_cases _ _ _ _ E) as [[_ ->]|(_ & _ & _ & [[H _]|(c1 & H1 & H2 & H3 & H4)])].
    { rewrite Hc in Hc'. by injection Hc' as <-. } { congruence. }
    rewrite H4 in Hc'. rewrite Hc in H1. injection H1 as <-. injection Hc' as <-. split; [done|]. rewrite H3, H2. done.
  - intros c Hc Hc'. destruct (update_cases _ _ _ _ _ E) as [[_ ->]|(c1 & _ & _ & _ & _ & ->)]; [congruence|done].
  - intros c Hc Hc'. destruct (release_cases _ _ _ _ _ E) as [[_ ->]|(c1 & _ & H1 & H2 & _ & H3 & _)]; [congruence|].
    rewrite Hc in H1. injection H1 as <-. exists why. by rewrite H2.
  - intros c Hc Hc'. destruct (toHold_cases _ _ _ _ E) as [[_ ->]|(_ & _ & _ & [[H _]|(c1 & H1 & H2 & H3 & H4)])]; congruence.
  - intros c Hc Hc'. destruct (update_cases _ _ _ _ _ E) as [[_ ->]|(c1 & _ & H & _)]; congruence.
  - intros c Hc Hc'. destruct (release_cases _ _ _ _ _ E) as [[_ ->]|(c1 & _ & H & _)]; congruence.
  - intros c Hc Hc'. destruct (toHold_cases _ _ _ _ E) as [[_ ->]|(_ & _ & _ & [[_ H]|(c1 & H1 & _)])]; [congruence| |congruence].
    right. rewrite H in Hc'. by injection Hc' as <-.
Qed.

(** A manager's failover record never goes back. Once this process recorded a
    failover, no sequence of recorded failovers, carried records and applied planned
    promotions makes the record's second decrease; every recorded failover is covered;
    and a carried record or applied promotion names another target only when its
    second is strictly later. *)
Theorem memory_failover_monotone sites a ops : lastFailoverLocal a = true -> 0 < TruncateSecond (lastFailover a) ->
  let a' := fold_left (apply_authority sites) ops a in
  TruncateSecond (lastFailover a) <= TruncateSecond (lastFailover a')
  /\ (forall now target gtid, RecordFailover now target gtid ∈ ops -> TruncateSecond now <= TruncateSecond (lastFailover a'))
  /\ ((forall now target gtid, RecordFailover now target gtid ∉ ops) -> lastFailoverTarget a' <> lastFailoverTarget a ->
       TruncateSecond (lastFailover a) < TruncateSecond (lastFailover a')).
Proof.
  revert a. induction ops as [|o ops IH]; intros a Hl Hz a'; simpl in a'.
  { split; [done|]. split; [by intros ??? ?%not_elem_of_nil|done]. }
  assert (lastFailover a <> 0) as Hnz by (intros H; by rewrite H in Hz).
  destruct (authority_step sites a o Hl Hnz) as (H1 & H2 & H3).
  destruct (IH (apply_authority sites a o) H1 ltac:(lia)) as (I1 & I2 & I3). fold a' in I1, I2, I3.
  split; [lia|]. split.
  - intros now target gtid [<-|Hin]%elem_of_cons; [etrans; [exact H3|exact I1]|by eapply I2].
  - intros Hno Hne. setoid_rewrite not_elem_of_cons in Hno.
    destruct (decide (lastFailoverTarget a' = lastFailoverTarget (apply_authority sites a o))) as [Heq|Hneq].
    + destruct o as [now target gtid|rec|at_ target wm]; [by destruct (Hno now target gtid)|..];
        (assert (TruncateSecond (lastFailover a) < TruncateSecond (lastFailover (apply_authority sites a _))) by (apply H3; congruence)); lia.
    + specialize (I3 ltac:(intros; by apply Hno) Hneq). lia.
Qed.

(** The persisted copy of a claim's baseline reads back. *)
Theorem baseline_round_trip t target :
  failoverRecordRefFromAPI (Some (toAPI (newFailoverRecordRef t target))) = newFailoverRecordRef t target.
Proof.
  unfold toAPI, newFailoverRecordRef, failoverRecordRefFromAPI. simpl. unfold newFailoverRecordRef.
  destruct (TruncateSecond t =? 0) eqn:E; simpl; rewrite ?TruncateSecond_idemp; [|done].
  apply Z.eqb_eq in E. by rewrite E.
Qed.

(** ** Witnesses *)

Definition sample_claim (run : string) : plannedClaim :=
  {| mode := claimModeRun; runID := run; source := "iad"; target := "pdx"; sourceUUID := "u";
     baseline := newFailoverRecordRef 0 ""; needsReprove := false; provisional := true; promotion := None |}.

Definition sample_ops : list slot_op :=
  [OpHydrate (sample_claim "r1"); OpRelease "r1" ReleaseTerminal; OpHydrate (sample_claim "r2"); OpRelease "r2" ReleaseTerminal].

Lemma released_since_exact_witness :
  releasedSince (run_ops emptySlot sample_ops) 1 "r2" = true /\ releasedSince (run_ops emptySlot sample_ops) 1 "r1" = false.
Proof.
  split.
  - apply (proj2 (released_since_exact sample_ops 1 "r2" ltac:(reflexivity) ltac:(lia))).
    exists 1%nat. split; [reflexivity|]. split; [lia|apply Nat.leb_le; reflexivity].
  - reflexivity.
Defined.

Definition sample_authority : Authority :=
  {| lastFailover := 5 * Second; lastFailoverTarget := "iad"; lastFailoverLocal := true; promotionGtidExecuted := "";
     groupHasData := true; lastActiveSite := "iad"; lastActiveSiteNamed := true; topologyGeneration := 1;
     deploymentActiveSite := "iad"; desired := None; failoverStateDirty := false; statusWriteFailed := false |}.

Lemma memory_failover_monotone_witness :
  let a' := fold_left (apply_authority ["iad"; "pdx"])
    [ApplyPromotion (3 * Second) "pdx" ""; ApplyPromotion (9 * Second) "pdx" ""] sample_authority in
  lastFailoverTarget a' = "pdx" /\ TruncateSecond (lastFailover sample_authority) <= TruncateSecond (lastFailover a').
Proof.
  split; [reflexivity|].
  exact (proj1 (memory_failover_monotone ["iad"; "pdx"] sample_authority
    [ApplyPromotion (3 * Second) "pdx" ""; ApplyPromotion (9 * Second) "pdx" ""] eq_refl eq_refl)).
Defined.
