(* ===== verification/Claims.v ===== *)
(** * Topology claims

    [internal/controller/topology_claims.go], [follower_mutation.go],
    [planned_failover_claim.go] (the claim itself), and the claim parts of
    [topology_deployment.go], [keyring_promotion.go] and [planned_failover_ops.go]:
    how emergency failovers, ordered updates, planned failovers, follower mutations,
    bootstraps and keyring rotations exclude one another on a group's sites. *)
From S2P Require Import Prelude GoStd Effects GoTime SiteState ClaimSlot.

Local Open Scope Z_scope.

Module Claims.

Import Matrix ClaimSlot.

(** ** The manager's fields under [tm.mu] *)

Inductive BootstrapPhase : Type :=
| BootstrapPhaseNone
| BootstrapPhaseCloning
| BootstrapPhaseRestarting
| BootstrapPhaseSetupRepl
| BootstrapPhaseDone
| BootstrapPhaseFailed.

Definition bootstrapIdlePhase (phase : BootstrapPhase) : bool :=
  match phase with
  | BootstrapPhaseNone | BootstrapPhaseDone | BootstrapPhaseFailed => true
  | _ => false
  end.

Record siteTracker : Type := {
  site_name : string;
  site_role : SiteRole;
  site_state : SiteState
}.

Definition isPromotable (t : siteTracker) : bool := bool_decide (site_role t = SiteRolePrimaryCandidate).

(** [divergent]: the sites whose recovery record is [RecoveryBlocked]. *)
Record TopologyManager : Type := {
  sites : list siteTracker;
  ready : bool;
  retired : bool;
  predecessorUpdateInFlight : bool;
  deploymentChanging : Z;
  deploymentUpdatePending : bool;
  deploymentUpdateRunning : bool;
  deploymentAwaitingObservation : bool;
  promotedSite : string;
  topologyFrozen : bool;
  bootstrapPhase : BootstrapPhase;
  bootstrapRecipient : string;
  restoreRecloneBlocked : list string;
  restoreReclonePending : list string;
  restorePeerHeld : list string;
  keyringRotationBlocked : list string;
  keyringRotationReserved : list string;
  keyringRotationBlockedDirty : bool;
  divergent : list string;
  authorityEpoch : Z;
  crossSiteRetry : bool;
  deploymentLeases : bool; (* wired *)
  authority : Authority
}.

#[export] Instance TopologyManager_eta : Eta TopologyManager := fun m =>
  Build_TopologyManager (sites m) (ready m) (retired m) (predecessorUpdateInFlight m) (deploymentChanging m)
    (deploymentUpdatePending m) (deploymentUpdateRunning m) (deploymentAwaitingObservation m) (promotedSite m)
    (topologyFrozen m) (bootstrapPhase m) (bootstrapRecipient m) (restoreRecloneBlocked m) (restoreReclonePending m)
    (restorePeerHeld m) (keyringRotationBlocked m) (keyringRotationReserved m) (keyringRotationBlockedDirty m)
    (divergent m) (authorityEpoch m) (crossSiteRetry m) (deploymentLeases m) (authority m).

(** [slices.Contains]. *)
Definition mem (x : string) (l : list string) : bool := bool_decide (x ∈ l).

Definition getSite (m : TopologyManager) (name : string) : option siteTracker :=
  List.find (fun t => bool_decide (site_name t = name)) (sites m).

(** The sites that count as writable: a reader being cloned into does not. *)
Definition counted_writable (m : TopologyManager) (t : siteTracker) : bool :=
  negb (bool_decide (site_role t = SiteRoleReadOnly) && bool_decide (site_name t = bootstrapRecipient m)
        && negb (bootstrapIdlePhase (bootstrapPhase m)))
  && bool_decide (site_state t = StateWritable).

Definition activeSiteLocked (m : TopologyManager) : string :=
  match List.filter (counted_writable m) (sites m) with
  | [t] => if isPromotable t then site_name t else ""
  | _ => ""
  end.

Definition promotionUnobservedLocked (m : TopologyManager) : bool :=
  bool_decide (promotedSite m <> "") || deploymentAwaitingObservation m.

Definition bootstrapBlocksCrossSiteLocked (m : TopologyManager) : bool :=
  if bootstrapIdlePhase (bootstrapPhase m) then false
  else match List.find (fun t => bool_decide (bootstrapRecipient m <> "") && bool_decide (site_name t = bootstrapRecipient m)) (sites m) with
       | Some t => negb (bool_decide (site_role t = SiteRoleReadOnly))
       | None => true
       end.

Definition keyringRotationBlockedLocked (m : TopologyManager) (site : string) : bool :=
  mem site (keyringRotationBlocked m) || mem site (keyringRotationReserved m).

Definition restoreReclonePendingLocked (m : TopologyManager) (site : string) : bool :=
  mem site (restoreReclonePending m) || mem site (restorePeerHeld m).

(** ** The topology-change window *)

Definition deploymentTopologyPendingLocked (m : TopologyManager) : TopologyManager :=
  m <| authority := if deploymentLeases m then authority m <| statusWriteFailed := true |> else authority m |>.

Definition beginDeploymentTopologyChangeLocked (m : TopologyManager) : TopologyManager * bool :=
  if deploymentUpdateRunning m || (deploymentChanging m >? 0) || predecessorUpdateInFlight m then (m, false)
  else (deploymentTopologyPendingLocked (m <| authorityEpoch := wrapu64 (authorityEpoch m + 1) |>
                                           <| deploymentChanging := deploymentChanging m + 1 |>), true).

Definition finishDeploymentTopologyChange (m : TopologyManager) : TopologyManager :=
  deploymentTopologyPendingLocked (m <| deploymentChanging := deploymentChanging m - 1 |>
                                     <| deploymentAwaitingObservation := true |>).

Definition beginPlannedPromotion (m : TopologyManager) : TopologyManager :=
  deploymentTopologyPendingLocked (m <| authorityEpoch := wrapu64 (authorityEpoch m + 1) |>
                                     <| deploymentChanging := deploymentChanging m + 1 |>).

(** ** Claims decided under [tm.mu] *)

(** The locked section of [beginAutoPromotionOf]: (began, rotationBlocked). *)
Definition beginAutoPromotionOf (s : PlannedClaimSlot) (m : TopologyManager) (target : string)
  : TopologyManager * (bool * bool) :=
  if keyringRotationBlockedLocked m target then (m <| keyringRotationBlockedDirty := true |>, (false, true))
  else if retired m || Held s || topologyFrozen m || promotionUnobservedLocked m || bootstrapBlocksCrossSiteLocked m
  then (m, (false, false))
  else let '(m, began) := beginDeploymentTopologyChangeLocked m in (m, (began, false)).

Definition orderedUpdateClaimRefusedLocked (s : PlannedClaimSlot) (m : TopologyManager) (epoch : Z) (active : string) : bool :=
  retired m || negb (authorityEpoch m =? epoch) || bool_decide (activeSiteLocked m <> active)
  || (deploymentChanging m >? 0) || promotionUnobservedLocked m || topologyFrozen m
  || Held s || negb (bootstrapIdlePhase (bootstrapPhase m)) || predecessorUpdateInFlight m.

(** The publish function of [claimOrderedUpdate]; [cancelled]: [ctx.Err() != nil]. *)
Definition publishOrderedUpdate (s : PlannedClaimSlot) (m : TopologyManager) (cancelled : bool) (epoch : Z) (active : string)
  : TopologyManager * bool :=
  if cancelled || orderedUpdateClaimRefusedLocked s m epoch active then (m, false)
  else (deploymentTopologyPendingLocked (m <| deploymentUpdateRunning := true |>
          <| deploymentChanging := deploymentChanging m + 1 |> <| authorityEpoch := wrapu64 (authorityEpoch m + 1) |>), true).

(** Whether a bootstrap may not start now (its reason aside). *)
Definition bootstrapClaimRefusedLocked (s : PlannedClaimSlot) (m : TopologyManager) : bool :=
  retired m || negb (bootstrapIdlePhase (bootstrapPhase m)) || topologyFrozen m || Held s
  || (deploymentUpdateRunning m || predecessorUpdateInFlight m) || (deploymentChanging m >? 0).

Definition bootstrapAdmissionRefusedLocked (m : TopologyManager) (recipient : string) : bool :=
  topologyFrozen m || mem recipient (restoreRecloneBlocked m).

(** The locked section of [claimBootstrap]. *)
Definition claimBootstrap (s : PlannedClaimSlot) (m : TopologyManager) (recipient : string) : TopologyManager * bool :=
  if bootstrapAdmissionRefusedLocked m recipient then (m, false)
  else if bootstrapClaimRefusedLocked s m then (m, false)
  else (m <| bootstrapPhase := BootstrapPhaseCloning |> <| bootstrapRecipient := recipient |>, true).

Definition followerMutationSuppressedLocked (s : PlannedClaimSlot) (m : TopologyManager) : bool :=
  retired m || bool_decide (promotedSite m <> "") || topologyFrozen m || Held s
  || negb (bootstrapIdlePhase (bootstrapPhase m))
  || deploymentUpdateRunning m || (deploymentChanging m >? 0) || deploymentAwaitingObservation m
  || predecessorUpdateInFlight m.

Definition siteObservedReadOnlyLocked (m : TopologyManager) (name : string) : bool :=
  match getSite m name with Some t => bool_decide (site_state t = StateReadOnly) | None => false end.

(** [addKeyringRotationReservationsLocked] for one site; the list is kept sorted. *)
Definition addKeyringRotationReservation (m : TopologyManager) (site : string) : TopologyManager :=
  let m := if mem site (keyringRotationReserved m) then m
           else m <| keyringRotationReserved := keyringRotationReserved m ++ [site] |> <| keyringRotationBlockedDirty := true |> in
  m <| keyringRotationReserved := merge_sort String.le (keyringRotationReserved m) |>.

(** [ReserveKeyringRotation], its refusal's text aside. *)
Definition ReserveKeyringRotation (s : PlannedClaimSlot) (m : TopologyManager) (site : string) : TopologyManager * bool :=
  let active := activeSiteLocked m in
  if retired m || predecessorUpdateInFlight m then (m, false)
  else if deploymentUpdatePending m || deploymentUpdateRunning m then (m, false)
  else if Held s then (m, false)
  else if (deploymentChanging m >? 0) || bool_decide (promotedSite m <> "") || deploymentAwaitingObservation m then (m, false)
  else if bool_decide (active = site) then (m, false)
  else if bool_decide (active = "") || negb (siteObservedReadOnlyLocked m site) then (m, false)
  else (addKeyringRotationReservation m site, true).

Definition setKeyringRotationBlockedLocked (m : TopologyManager) (sorted : list string) : TopologyManager :=
  if bool_decide (keyringRotationBlocked m = sorted) then m
  else m <| keyringRotationBlocked := sorted |> <| keyringRotationBlockedDirty := true |>.

Definition SetKeyringRotationBlocked (m : TopologyManager) (l : list string) : TopologyManager :=
  setKeyringRotationBlockedLocked m (merge_sort String.le l).

Definition PublishKeyringRotationBlocked (m : TopologyManager) (l : list string) : TopologyManager :=
  let kept := List.filter (fun name => mem name l) (keyringRotationReserved m) in
  let m := if bool_decide (length kept <> length (keyringRotationReserved m)) then m <| keyringRotationBlockedDirty := true |> else m in
  setKeyringRotationBlockedLocked (m <| keyringRotationReserved := kept |>) (merge_sort String.le l).

(** ** The planned-failover claim *)

Record PlannedClaimRequest : Type := {
  Req_RunID : string;
  Req_Target : string;
  DurableBaseline : FailoverRecordRef
}.

(** [PlannedClaimDecision], its message aside. *)
Inductive PlannedClaimDecision : Type :=
| ClaimGranted (src uuid : string) (base : FailoverRecordRef)
| ClaimWait (reason : string)
| ClaimReject (reason : string).

Definition claimDecisionGranted (c : plannedClaim) : PlannedClaimDecision := ClaimGranted (source c) (sourceUUID c) (baseline c).

(** Decided, or the poll-named source. *)
Inductive claim_refusal : Type :=
| Decided (d : PlannedClaimDecision)
| Polled (site : string).

(** What the slot's held claim answers a request. *)
Definition heldDecision (h : plannedClaim) (req : PlannedClaimRequest) : PlannedClaimDecision :=
  if bool_decide (mode h = claimModeHold) then ClaimReject "ManualRecoveryPending"
  else if bool_decide (runID h <> Req_RunID req) then ClaimWait "ClaimHeld"
  else if bool_decide (target h <> Req_Target req) then ClaimReject "InternalError"
  else claimDecisionGranted h.

Definition plannedClaimRefusalLocked (s : PlannedClaimSlot) (m : TopologyManager) (req : PlannedClaimRequest) : claim_refusal :=
  match snapshot s with
  | Some h => Decided (heldDecision h req)
  | None =>
      match getSite m (Req_Target req) with
      | None => Decided (ClaimReject "UnknownSite")
      | Some t =>
          if negb (isPromotable t) then Decided (ClaimReject "TargetNotPromotable")
          else if negb (ready m) then Decided (ClaimWait "ManagerNotReady")
          else if retired m then Decided (ClaimWait "ManagerRetiring")
          else if predecessorUpdateInFlight m then Decided (ClaimWait "PredecessorBusy")
          else if (deploymentChanging m >? 0) || promotionUnobservedLocked m then Decided (ClaimWait "PromotionInFlight")
          else if deploymentUpdateRunning m then Decided (ClaimWait "UpdateInFlight")
          else if topologyFrozen m then Decided (ClaimWait "RestoreInFlight")
          else if bootstrapBlocksCrossSiteLocked m then Decided (ClaimWait "BootstrapInFlight")
          else if mem (Req_Target req) (keyringRotationBlocked m) then Decided (ClaimReject "KeyringRotation")
          else if mem (Req_Target req) (keyringRotationReserved m) then Decided (ClaimWait "KeyringRotation")
          else if mem (Req_Target req) (divergent m) then Decided (ClaimReject "DivergentTarget")
          else if restoreReclonePendingLocked m (Req_Target req) then Decided (ClaimReject "TargetUnhealthy")
          else if bool_decide (activeSiteLocked m = Req_Target req) then Decided (ClaimReject "AlreadyActive")
          else if bool_decide (activeSiteLocked m = "") then Decided (ClaimWait "AuthorityUnsettled")
          else Polled (activeSiteLocked m)
      end
  end.

(** The manager's failover record, as a claim compares it. *)
Definition memoryRecord (m : TopologyManager) : FailoverRecordRef :=
  newFailoverRecordRef (lastFailover (authority m)) (lastFailoverTarget (authority m)).

(** [plannedClaim{mode: claimModeRun, ..., provisional: true}]. *)
Definition runClaim (req : PlannedClaimRequest) (polled uuid : string) (inMemory : FailoverRecordRef) : plannedClaim :=
  {| mode := claimModeRun; runID := Req_RunID req; source := polled; target := Req_Target req; sourceUUID := uuid;
     baseline := inMemory; needsReprove := false; provisional := true; promotion := None |}.

Definition publishPlannedClaim (s : PlannedClaimSlot) (m : TopologyManager) (req : PlannedClaimRequest) (epoch : Z)
    (polled : string) (inMemory : FailoverRecordRef) (uuid : string)
  : PlannedClaimSlot * TopologyManager * PlannedClaimDecision :=
  match plannedClaimRefusalLocked s m req with
  | Decided d => (s, m, d)
  | Polled now =>
      if negb (authorityEpoch m =? epoch) || bool_decide (now <> polled) then (s, m, ClaimWait "AuthorityUnsettled")
      else if negb (sameFailoverRecord (memoryRecord m) inMemory) then (s, m, ClaimWait "AuthorityUnsettled")
      else
        let c := runClaim req polled uuid inMemory in
        let '(s, ok) := hydrate s c in
        if negb ok then (s, m, ClaimWait "ClaimHeld")
        else (s, m <| authorityEpoch := wrapu64 (authorityEpoch m + 1) |> <| crossSiteRetry := true |>, claimDecisionGranted c)
  end.

(** [hydratePlannedClaim] on a wired manager: the decision of a refusal, or whether
    the slot was taken. *)
Inductive hydration : Type := HydrationWaits (reason : string) | HydrationRaced | Hydrated.

Definition hydratePlannedClaim (s : PlannedClaimSlot) (m : TopologyManager) (c : plannedClaim) (tgt : string)
  : PlannedClaimSlot * TopologyManager * hydration :=
  if retired m then (s, m, HydrationWaits "ManagerRetiring")
  else if (deploymentChanging m >? 0) || promotionUnobservedLocked m then (s, m, HydrationWaits "PromotionInFlight")
  else if deploymentUpdateRunning m || predecessorUpdateInFlight m then (s, m, HydrationWaits "UpdateInFlight")
  else if topologyFrozen m then (s, m, HydrationWaits "RestoreInFlight")
  else if bootstrapBlocksCrossSiteLocked m then (s, m, HydrationWaits "BootstrapInFlight")
  else if mem tgt (keyringRotationReserved m) then (s, m, HydrationWaits "KeyringRotation")
  else
    let '(s, ok) := hydrate s c in
    if negb ok then (s, m, HydrationRaced)
    else (s, m <| crossSiteRetry := true |>, Hydrated).

(** [PlannedRunRef], its group aside. *)
Record PlannedRunRef : Type := {
  Ref_RunID : string;
  Ref_Source : string;
  Ref_Target : string
}.

Inductive claim_error : Type := errLeaderLost | errClaimLost | errReproveRequired.

(** [requireRunClaim]: the slot afterwards, and why the call is refused. *)
Definition requireRunClaim (s : PlannedClaimSlot) (leading : bool) (ref : PlannedRunRef) (reprove : bool)
  : PlannedClaimSlot * option claim_error :=
  if negb leading then (s, Some errLeaderLost)
  else match snapshot s with
       | None => (s, Some errClaimLost)
       | Some h =>
           if negb (bool_decide (mode h = claimModeRun)) || bool_decide (runID h <> Ref_RunID ref)
              || bool_decide (source h <> Ref_Source ref) || bool_decide (target h <> Ref_Target ref)
           then (s, Some errClaimLost)
           else if needsReprove h && negb reprove then (s, Some errReproveRequired)
           else if provisional h then ((update s (Ref_RunID ref) (apply_update ClearProvisional)).1, None)
           else (s, None)
       end.

(** ** The follower-mutation gate *)

(** [tryPending]: when each non-blocking handoff's entry expires. *)
Record mutationGate : Type := {
  active : Z;
  pending : Z;
  tryPending : gmap string Z
}.

#[export] Instance mutationGate_eta : Eta mutationGate := fun g =>
  Build_mutationGate (active g) (pending g) (tryPending g).

Definition plannedClaimGateTTL : Z := 15 * Second.

Definition tryPendingLocked (g : mutationGate) (now : Z) : mutationGate * bool :=
  let g := g <| tryPending := filter (fun kv => now < kv.2) (tryPending g) |> in
  (g, bool_decide (tryPending g <> ∅)).

Definition enter (g : mutationGate) (now : Z) : mutationGate * bool :=
  if pending g >? 0 then (g, false)
  else
    let '(g, waiting) := tryPendingLocked g now in
    if waiting then (g, false) else (g <| active := active g + 1 |>, true).

Definition busy (g : mutationGate) : bool := active g >? 0.

Definition exit (g : mutationGate) : mutationGate := g <| active := active g - 1 |>.

(** [admit] before its wait and after its publish. *)
Definition admit_register (g : mutationGate) : mutationGate := g <| pending := pending g + 1 |>.

Definition admit_leave (g : mutationGate) : mutationGate := g <| pending := pending g - 1 |>.

(** [tryAdmit] before and after its publish. *)
Definition try_register (g : mutationGate) (key : string) (now : Z) : mutationGate * bool :=
  (g <| tryPending := <[key := now + plannedClaimGateTTL]> (tryPending g) |>, busy g).

Definition try_clear (g : mutationGate) (key : string) : mutationGate := g <| tryPending := delete key (tryPending g) |>.

(** ** Interleavings

    The goroutines of one manager: the poll loop (emergency failovers and re-asserts,
    follower mutations, bootstrap starts - one at a time), the ordered-update worker
    ([deploymentUpdatePending] admits one), and the planned-failover engine's pass over
    the group. Each step is one section under [tm.mu], [g.mu] or [slot.mu]. *)

Inductive poll_thread : Type :=
| PollIdle
| PollAutoChecked (target : string)
| PollAuto (target : string)
| PollFollowerChecked
| PollFollowerEntered
| PollFollower
| PollBootstrapChecked (recipient : string).

Inductive update_thread : Type :=
| UpdateIdle
| UpdatePending
| UpdateChecked
| UpdateWaiting
| UpdateAdmitted
| UpdateRefused
| UpdatePublished
| UpdateRunning
| UpdateFinishing
| UpdateEnding.

(** [EngineReady key at_]: registered at the gate at [at_], which was idle. *)
Inductive engine_thread : Type :=
| EngineIdle
| EngineChecked
| EngineReady (key : string) (at_ : Z)
| EnginePublished (key : string)
| EnginePromoting.

(** [predecessor]: a replaced manager of the group is still changing the sites. *)
Record World : Type := {
  mgr : TopologyManager;
  slot : PlannedClaimSlot;
  gate : mutationGate;
  clock : Z;
  poll : poll_thread;
  upd : update_thread;
  eng : engine_thread;
  predecessor : bool
}.

#[export] Instance World_eta : Eta World := fun w =>
  Build_World (mgr w) (slot w) (gate w) (clock w) (poll w) (upd w) (eng w) (predecessor w).

(** Fields that claims read and other code may change at any time under [tm.mu]:
    observations, restore guards, recovery records, the failover record. Roles and
    names are a manager's configuration. *)
Definition observed (m m' : TopologyManager) : Prop :=
  map (fun t => (site_name t, site_role t)) (sites m') = map (fun t => (site_name t, site_role t)) (sites m)
  /\ retired m' = retired m /\ predecessorUpdateInFlight m' = predecessorUpdateInFlight m
  /\ deploymentChanging m' = deploymentChanging m /\ deploymentUpdatePending m' = deploymentUpdatePending m
  /\ deploymentUpdateRunning m' = deploymentUpdateRunning m
  /\ (deploymentAwaitingObservation m' = deploymentAwaitingObservation m
      \/ (deploymentChanging m = 0 /\ deploymentAwaitingObservation m' = false))
  /\ bootstrapPhase m' = bootstrapPhase m /\ bootstrapRecipient m' = bootstrapRecipient m
  /\ keyringRotationBlocked m' = keyringRotationBlocked m /\ keyringRotationReserved m' = keyringRotationReserved m.

(** The poll loop: emergency failovers and primary re-asserts, follower mutations,
    and bootstraps, whose clone runs on beside the loop. *)
Inductive poll_step (w : World) : World -> Prop :=
| step_auto_check t : poll w = PollIdle -> predecessor w = false ->
    poll_step w (w <| poll := PollAutoChecked t |>)
| step_auto_begin t m began blocked : poll w = PollAutoChecked t ->
    beginAutoPromotionOf (slot w) (mgr w) t = (m, (began, blocked)) ->
    poll_step w (w <| mgr := m |> <| poll := if began then PollAuto t else PollIdle |>)
| step_auto_finish t : poll w = PollAuto t ->
    poll_step w (w <| mgr := finishDeploymentTopologyChange (mgr w) |> <| poll := PollIdle |>)
| step_follower_check : poll w = PollIdle -> predecessor w = false ->
    poll_step w (w <| poll := PollFollowerChecked |>)
| step_follower_enter g ok : poll w = PollFollowerChecked -> enter (gate w) (clock w) = (g, ok) ->
    poll_step w (w <| gate := g |> <| poll := if ok then PollFollowerEntered else PollIdle |>)
| step_follower_refused : poll w = PollFollowerEntered -> followerMutationSuppressedLocked (slot w) (mgr w) = true ->
    poll_step w (w <| gate := exit (gate w) |> <| poll := PollIdle |>)
| step_follower_admitted : poll w = PollFollowerEntered -> followerMutationSuppressedLocked (slot w) (mgr w) = false ->
    poll_step w (w <| poll := PollFollower |>)
| step_follower_exit : poll w = PollFollower ->
    poll_step w (w <| gate := exit (gate w) |> <| poll := PollIdle |>)
| step_bootstrap_check r : poll w = PollIdle -> predecessor w = false ->
    poll_step w (w <| poll := PollBootstrapChecked r |>)
| step_bootstrap_claim r m ok : poll w = PollBootstrapChecked r -> claimBootstrap (slot w) (mgr w) r = (m, ok) ->
    poll_step w (w <| mgr := m |> <| poll := PollIdle |>)
| step_bootstrap_progress phase : bootstrapIdlePhase (bootstrapPhase (mgr w)) = false ->
    poll_step w (w <| mgr := mgr w <| bootstrapPhase := phase |> |>).

(** The ordered-update worker. *)
Inductive update_step (w : World) : World -> Prop :=
| step_update_start : upd w = UpdateIdle -> deploymentUpdatePending (mgr w) = false ->
    update_step w (w <| mgr := mgr w <| deploymentUpdatePending := true |> |> <| upd := UpdatePending |>)
| step_update_check : upd w = UpdatePending -> predecessor w = false ->
    update_step w (w <| upd := UpdateChecked |>)
| step_update_abandon : upd w = UpdatePending \/ upd w = UpdateChecked ->
    update_step w (w <| upd := UpdateEnding |>)
| step_update_register : upd w = UpdateChecked ->
    update_step w (w <| gate := admit_register (gate w) |> <| upd := UpdateWaiting |>)
| step_update_admitted : upd w = UpdateWaiting -> busy (gate w) = false ->
    update_step w (w <| upd := UpdateAdmitted |>)
| step_update_cancelled : upd w = UpdateWaiting ->
    update_step w (w <| gate := admit_leave (gate w) |> <| upd := UpdateEnding |>)
| step_update_publish cancelled epoch act m claimed : upd w = UpdateAdmitted ->
    publishOrderedUpdate (slot w) (mgr w) cancelled epoch act = (m, claimed) ->
    update_step w (w <| mgr := m |> <| upd := if claimed then UpdatePublished else UpdateRefused |>)
| step_update_refused : upd w = UpdateRefused ->
    update_step w (w <| gate := admit_leave (gate w) |> <| upd := UpdateEnding |>)
| step_update_leave : upd w = UpdatePublished ->
    update_step w (w <| gate := admit_leave (gate w) |> <| upd := UpdateRunning |>)
| step_update_finish : upd w = UpdateRunning ->
    update_step w (w <| mgr := finishDeploymentTopologyChange (mgr w) |> <| upd := UpdateFinishing |>)
| step_update_stop : upd w = UpdateFinishing ->
    update_step w (w <| mgr := mgr w <| deploymentUpdateRunning := false |> |> <| upd := UpdateEnding |>)
| step_update_end : upd w = UpdateEnding ->
    update_step w (w <| mgr := mgr w <| deploymentUpdatePending := false |> |> <| upd := UpdateIdle |>).

(** The engine: claims, hydration and the planned promotion. [prompt]: a publish runs
    before its gate entry expires. *)
Inductive engine_step (prompt : bool) (w : World) : World -> Prop :=
| step_engine_check : eng w = EngineIdle -> predecessor w = false ->
    engine_step prompt w (w <| eng := EngineChecked |>)
| step_engine_abandon : eng w = EngineChecked -> engine_step prompt w (w <| eng := EngineIdle |>)
| step_engine_register key g running : eng w = EngineChecked -> try_register (gate w) key (clock w) = (g, running) ->
    engine_step prompt w (w <| gate := g |> <| eng := if running then EngineIdle else EngineReady key (clock w) |>)
| step_engine_publish key at_ req epoch polled inMemory uuid s m d : eng w = EngineReady key at_ ->
    (prompt = true -> clock w < at_ + plannedClaimGateTTL) ->
    publishPlannedClaim (slot w) (mgr w) req epoch polled inMemory uuid = (s, m, d) ->
    engine_step prompt w (w <| slot := s |> <| mgr := m |> <| eng := EnginePublished key |>)
| step_engine_hydrate key at_ c s m d : eng w = EngineReady key at_ ->
    (prompt = true -> clock w < at_ + plannedClaimGateTTL) ->
    hydratePlannedClaim (slot w) (mgr w) c (target c) = (s, m, d) ->
    engine_step prompt w (w <| slot := s |> <| mgr := m |> <| eng := EnginePublished key |>)
| step_engine_clear key : eng w = EnginePublished key ->
    engine_step prompt w (w <| gate := try_clear (gate w) key |> <| eng := EngineIdle |>)
| step_engine_promote leading ref s : eng w = EngineIdle -> requireRunClaim (slot w) leading ref false = (s, None) ->
    engine_step prompt w (w <| slot := s |> <| mgr := beginPlannedPromotion (mgr w) |> <| eng := EnginePromoting |>)
| step_engine_promoted : eng w = EnginePromoting ->
    engine_step prompt w (w <| mgr := finishDeploymentTopologyChange (mgr w) |> <| eng := EngineIdle |>)
| step_engine_release run why s ok : release (slot w) run why = (s, ok) ->
    engine_step prompt w (w <| slot := s |>)
| step_engine_hold run s ok : toHold (slot w) run = (s, ok) -> engine_step prompt w (w <| slot := s |>)
| step_engine_update run u s ok : update (slot w) run (apply_update u) = (s, ok) ->
    engine_step prompt w (w <| slot := s |>).

(** Failover records, rotations, observations, replacement and time. *)
Inductive env_step (w : World) : World -> Prop :=
| step_record now tgt gtid :
    env_step w (w <| mgr := mgr w <| authorityEpoch := wrapu64 (authorityEpoch (mgr w) + 1) |> <| promotedSite := tgt |>
                              <| authority := recordFailover (authority (mgr w)) now tgt gtid |> |>)
| step_rotation_reserve site m ok : ReserveKeyringRotation (slot w) (mgr w) site = (m, ok) ->
    env_step w (w <| mgr := m |>)
| step_rotation_set l : env_step w (w <| mgr := SetKeyringRotationBlocked (mgr w) l |>)
| step_rotation_publish l : env_step w (w <| mgr := PublishKeyringRotationBlocked (mgr w) l |>)
| step_observe m : observed (mgr w) m -> env_step w (w <| mgr := m |>)
| step_retire : env_step w (w <| mgr := mgr w <| retired := true |> |>)
| step_predecessor_done : env_step w (w <| predecessor := false |>)
| step_predecessor_update_done : env_step w (w <| mgr := mgr w <| predecessorUpdateInFlight := false |> |>)
| step_time t : clock w <= t -> env_step w (w <| clock := t |>).

Inductive step (prompt : bool) (w w' : World) : Prop :=
| by_poll : poll_step w w' -> step prompt w w'
| by_update : update_step w w' -> step prompt w w'
| by_engine : engine_step prompt w w' -> step prompt w w'
| by_env : env_step w w' -> step prompt w w'.

Inductive reachable (prompt : bool) (w0 : World) : World -> Prop :=
| reachable_init : reachable prompt w0 w0
| reachable_step w w' : reachable prompt w0 w -> step prompt w w' -> reachable prompt w0 w'.

(** A manager about to run: nothing in flight; a hydrated claim's target is not being
    rotated. *)
Definition started (w : World) : Prop :=
  poll w = PollIdle /\ upd w = UpdateIdle /\ eng w = EngineIdle
  /\ deploymentChanging (mgr w) = 0 /\ deploymentUpdateRunning (mgr w) = false /\ deploymentUpdatePending (mgr w) = false
  /\ bootstrapPhase (mgr w) = BootstrapPhaseNone /\ active (gate w) = 0 /\ pending (gate w) = 0 /\ tryPending (gate w) = ∅
  /\ forall c, held (slot w) = Some c -> mode c = claimModeRun -> target c ∉ keyringRotationReserved (mgr w).

(** What holds a group's sites. *)
Inductive activity : Type := AutoPromotion | OrderedUpdate | PlannedRun | FollowerMutation | Bootstrap.

Definition in_flight (w : World) (a : activity) : bool :=
  match a with
  | AutoPromotion => match poll w with PollAuto _ => true | _ => false end
  | OrderedUpdate => deploymentUpdateRunning (mgr w)
  | PlannedRun => match held (slot w) with Some c => bool_decide (mode c = claimModeRun) | None => false end
  | FollowerMutation => match poll w with PollFollower => true | _ => false end
  | Bootstrap => negb (bootstrapIdlePhase (bootstrapPhase (mgr w)))
  end.

(** The one pair that may overlap: a clone into a reader, and a promotion. *)
Definition reader_clone_beside (w : World) (a b : activity) : Prop :=
  bootstrapBlocksCrossSiteLocked (mgr w) = false
  /\ match a, b with
     | Bootstrap, (AutoPromotion | PlannedRun) | (AutoPromotion | PlannedRun), Bootstrap => True
     | _, _ => False
     end.

End Claims.

Import Matrix ClaimSlot Claims.


(** ** What each operation does to the claims *)

(** The fields that decide claims: the open windows, the claimed update, the reserved
    rotations and the bootstrap's two readings. *)
Record claims : Type := {
  windows : Z;
  updating : bool;
  rotating : list string;
  cloning : bool;
  blocking : bool
}.

Definition claims_of (m : TopologyManager) : claims :=
  {| windows := deploymentChanging m; updating := deploymentUpdateRunning m; rotating := keyringRotationReserved m;
     cloning := negb (bootstrapIdlePhase (bootstrapPhase m)); blocking := bootstrapBlocksCrossSiteLocked m |}.

Ltac guards :=
  repeat match goal with
  | H : _ || _ = false |- _ => apply orb_false_elim in H as [? ?]
  | H : negb _ = false |- _ => apply negb_false_iff in H
  | H : negb _ = true |- _ => apply negb_true_iff in H
  | H : bool_decide _ = false |- _ => apply bool_decide_eq_false in H
  | H : (_ >? _) = false |- _ => rewrite Z.gtb_ltb in H; apply Z.ltb_ge in H
  end.

Lemma not_mem x l : mem x l = false -> x ∉ l.
Proof. apply bool_decide_eq_false. Qed.

Lemma not_blocking m : cloning (claims_of m) = false -> blocking (claims_of m) = false.
Proof. simpl. unfold bootstrapBlocksCrossSiteLocked. by destruct (bootstrapIdlePhase _). Qed.

Lemma begin_auto_cases s m t m' began blocked : beginAutoPromotionOf s m t = (m', (began, blocked)) ->
  let c := claims_of m in
  (began = false /\ claims_of m' = c /\ retired m' = retired m)
  \/ (began = true /\ Held s = false /\ retired m = false /\ windows c <= 0 /\ updating c = false /\ blocking c = false
      /\ t ∉ rotating c /\ claims_of m' = {| windows := windows c + 1; updating := updating c; rotating := rotating c;
                                            cloning := cloning c; blocking := blocking c |}).
Proof.
  unfold beginAutoPromotionOf, keyringRotationBlockedLocked, beginDeploymentTopologyChangeLocked.
  destruct (mem t (keyringRotationBlocked m) || mem t (keyringRotationReserved m)) eqn:E1; [intros [= <- <- <-]; by left|].
  destruct (retired m || Held s || topologyFrozen m || promotionUnobservedLocked m || bootstrapBlocksCrossSiteLocked m) eqn:E2;
    [intros [= <- <- <-]; by left|].
  destruct (deploymentUpdateRunning m || (deploymentChanging m >? 0) || predecessorUpdateInFlight m) eqn:E3;
    intros [= <- <- <-]; [by left|right]. guards. split_and!; try done. by apply not_mem.
Qed.

Lemma publish_update_cases s m cancelled epoch act m' b : publishOrderedUpdate s m cancelled epoch act = (m', b) ->
  let c := claims_of m in
  (b = false /\ m' = m)
  \/ (b = true /\ Held s = false /\ retired m = false /\ windows c <= 0 /\ cloning c = false
      /\ claims_of m' = {| windows := windows c + 1; updating := true; rotating := rotating c;
                           cloning := cloning c; blocking := blocking c |}).
Proof.
  unfold publishOrderedUpdate. destruct (cancelled || _) eqn:E; intros [= <- <-]; [by left|right].
  unfold orderedUpdateClaimRefusedLocked in E. guards. split_and!; try done. simpl. by apply negb_false_iff.
Qed.

Lemma claim_bootstrap_cases s m r m' b : claimBootstrap s m r = (m', b) ->
  let c := claims_of m in
  (b = false /\ m' = m)
  \/ (b = true /\ Held s = false /\ retired m = false /\ windows c <= 0 /\ updating c = false /\ cloning c = false
      /\ cloning (claims_of m') = true
      /\ (windows (claims_of m'), updating (claims_of m'), rotating (claims_of m')) = (windows c, updating c, rotating c)).
Proof.
  unfold claimBootstrap. destruct (bootstrapAdmissionRefusedLocked m r); [intros [= <- <-]; by left|].
  destruct (bootstrapClaimRefusedLocked s m) eqn:E; intros [= <- <-]; [by left|right].
  unfold bootstrapClaimRefusedLocked in E. guards. split_and!; try done. simpl. by apply negb_false_iff.
Qed.

Lemma follower_admitted s m : followerMutationSuppressedLocked s m = false ->
  Held s = false /\ retired m = false /\ windows (claims_of m) <= 0 /\ updating (claims_of m) = false /\ cloning (claims_of m) = false.
Proof. unfold followerMutationSuppressedLocked. intros E. guards. split_and!; try done. simpl. by apply negb_false_iff. Qed.

(** What a grant or a hydration does: nothing, or a claim in an empty slot. *)
Definition takes_slot (s s' : PlannedClaimSlot) (m m' : TopologyManager) : Prop :=
  let c := claims_of m in
  (s' = s /\ m' = m)
  \/ exists h, held s = None /\ held s' = Some h /\ retired m = false /\ windows c <= 0 /\ updating c = false
       /\ blocking c = false /\ target h ∉ rotating c /\ claims_of m' = c /\ retired m' = retired m.

Lemma publish_claim_cases s m req epoch polled inMemory uuid s' m' d :
  publishPlannedClaim s m req epoch polled inMemory uuid = (s', m', d) -> takes_slot s s' m m'.
Proof.
  unfold publishPlannedClaim, plannedClaimRefusalLocked, snapshot. intros E.
  destruct (held s) eqn:Eh; [injection E as <- <- _; by left|].
  destruct (getSite m (Req_Target req)); [|injection E as <- <- _; by left].
  repeat match type of E with
  | context [match (if ?b then Decided _ else _) with _ => _ end] => destruct b eqn:?; [injection E as <- <- _; by left|]
  end.
  do 2 (match type of E with (if ?b then _ else _) = _ => destruct b; [injection E as <- <- _; by left|] end).
  unfold hydrate in E. rewrite Eh in E. simpl in E. injection E as <- <- _. right. eexists. guards.
  split_and!; try done. by apply not_mem.
Qed.

Lemma hydrate_claim_cases s m c s' m' d : hydratePlannedClaim s m c (target c) = (s', m', d) -> takes_slot s s' m m'.
Proof.
  unfold hydratePlannedClaim, hydrate. intros E.
  repeat match type of E with
  | (if ?b then _ else _) = _ => destruct b eqn:?; [injection E as <- <- _; by left|]
  end.
  destruct (held s) eqn:Eh; simpl in E; injection E as <- <- _; [by left|right]. exists c. guards.
  split_and!; try done. by apply not_mem.
Qed.

Lemma reserve_cases s m site m' b : ReserveKeyringRotation s m site = (m', b) ->
  let c := claims_of m in
  (b = false /\ m' = m)
  \/ (b = true /\ Held s = false /\ retired m = false /\ windows c <= 0 /\ updating c = false /\ retired m' = retired m
      /\ (windows (claims_of m'), updating (claims_of m'), cloning (claims_of m'), blocking (claims_of m'))
         = (windows c, updating c, cloning c, blocking c)
      /\ forall x, x ∈ rotating (claims_of m') <-> x = site \/ x ∈ rotating c).
Proof.
  unfold ReserveKeyringRotation. intros E.
  repeat match type of E with
  | (if ?b then _ else _) = _ => destruct b eqn:?; [injection E as <- <-; by left|]
  end.
  injection E as <- <-. right. guards. unfold addKeyringRotationReservation.
  destruct (mem site (keyringRotationReserved m)) eqn:Em; split_and!; try done; simpl; intros x; rewrite merge_sort_Permutation.
  - apply bool_decide_eq_true in Em. split; [by right|by intros [->|?]].
  - rewrite elem_of_app, list_elem_of_singleton. tauto.
Qed.

Lemma publish_rotation_claims m l :
  let c := claims_of m in let c' := claims_of (PublishKeyringRotationBlocked m l) in
  (windows c', updating c', cloning c', blocking c') = (windows c, updating c, cloning c, blocking c)
  /\ (forall x, x ∈ rotating c' -> x ∈ rotating c) /\ retired (PublishKeyringRotationBlocked m l) = retired m.
Proof.
  unfold PublishKeyringRotationBlocked, setKeyringRotationBlockedLocked.
  assert (forall x, x ∈ List.filter (fun name => mem name l) (keyringRotationReserved m) -> x ∈ keyringRotationReserved m) as Hf
    by (intros x; rewrite !list_elem_of_In, filter_In; tauto).
  case_bool_decide; case_bool_decide; split_and!; done.
Qed.

Lemma set_rotation_claims m l : claims_of (SetKeyringRotationBlocked m l) = claims_of m
  /\ retired (SetKeyringRotationBlocked m l) = retired m.
Proof. unfold SetKeyringRotationBlocked, setKeyringRotationBlockedLocked. by case_bool_decide. Qed.

(** Whether the recipient blocks depends on the names and roles of the sites only. *)
Definition recipient_blocks (recipient : string) (l : list (string * SiteRole)) : bool :=
  match List.find (fun t => bool_decide (recipient <> "") && bool_decide (t.1 = recipient)) l with
  | Some t => negb (bool_decide (t.2 = SiteRoleReadOnly))
  | None => true
  end.

Lemma blocking_configured m : blocking (claims_of m) =
  cloning (claims_of m) && recipient_blocks (bootstrapRecipient m) (map (fun t => (site_name t, site_role t)) (sites m)).
Proof.
  simpl. unfold bootstrapBlocksCrossSiteLocked, recipient_blocks. destruct (bootstrapIdlePhase _); simpl; [done|].
  induction (sites m) as [|t l IH]; simpl; [done|]. by destruct (bool_decide (bootstrapRecipient m <> "") && _).
Qed.

Lemma observed_claims m m' : observed m m' -> claims_of m' = claims_of m /\ retired m' = retired m.
Proof.
  intros (Hs & Hret & _ & Hw & _ & Hu & _ & Hp & Hr & _ & Hres). split; [|done].
  assert (blocking (claims_of m') = blocking (claims_of m)) as Hb by (rewrite !blocking_configured, Hs, Hr; simpl; by rewrite Hp).
  simpl in Hb. unfold claims_of. by rewrite Hw, Hu, Hres, Hp, Hb.
Qed.

(** ** The invariant of the interleavings *)

Definition auto_windows (p : poll_thread) : Z := match p with PollAuto _ => 1 | _ => 0 end.
Definition update_windows (u : update_thread) : Z := match u with UpdatePublished | UpdateRunning => 1 | _ => 0 end.
Definition engine_windows (e : engine_thread) : Z := match e with EnginePromoting => 1 | _ => 0 end.

(** The update holds its claim; it waits at the gate; it was let through. *)
Definition update_claimed (u : update_thread) : bool :=
  match u with UpdatePublished | UpdateRunning | UpdateFinishing => true | _ => false end.
Definition update_pending (u : update_thread) : bool :=
  match u with UpdateWaiting | UpdateAdmitted | UpdateRefused | UpdatePublished => true | _ => false end.
Definition update_through (u : update_thread) : bool :=
  match u with UpdateAdmitted | UpdatePublished => true | _ => false end.
Definition update_harmless (u : update_thread) : bool :=
  match u with UpdateIdle | UpdatePending | UpdateEnding => true | _ => false end.

Definition follower_inside (p : poll_thread) : bool :=
  match p with PollFollowerEntered | PollFollower => true | _ => false end.

Definition run_claim (h : option plannedClaim) : bool :=
  match h with Some c => bool_decide (mode c = claimModeRun) | None => false end.

Record inv (c : claims) (h : option plannedClaim) (g : mutationGate) (now : Z)
    (p : poll_thread) (u : update_thread) (e : engine_thread) (pred : bool) : Prop := {
  inv_windows : windows c = auto_windows p + update_windows u + engine_windows e;
  inv_updating : updating c = update_claimed u;
  inv_active : active g = if follower_inside p then 1 else 0;
  inv_pending : pending g = if update_pending u then 1 else 0;
  inv_through : update_through u = true -> follower_inside p = false;
  inv_ready : forall key t, e = EngineReady key t -> now < t + plannedClaimGateTTL ->
    tryPending g !! key = Some (t + plannedClaimGateTTL) /\ follower_inside p = false;
  inv_auto : forall t, p = PollAuto t -> update_claimed u = false /\ blocking c = false /\ t ∉ rotating c /\ run_claim h = false;
  inv_follower : p = PollFollower -> update_claimed u = false /\ cloning c = false /\ run_claim h = false;
  inv_run : forall k, h = Some k -> mode k = claimModeRun ->
    update_claimed u = false /\ blocking c = false /\ target k ∉ rotating c;
  inv_update : update_claimed u = true -> cloning c = false;
  inv_blocking : cloning c = false -> blocking c = false;
  inv_predecessor : pred = true -> p = PollIdle /\ update_harmless u = true /\ cloning c = false
}.

Definition Inv (w : World) : Prop :=
  inv (claims_of (mgr w)) (held (slot w)) (gate w) (clock w) (poll w) (upd w) (eng w) (predecessor w).

Lemma not_held s : Held s = false -> held s = None.
Proof. unfold Held. intros H%bool_decide_eq_false. by destruct (held s); [destruct H; eexists|]. Qed.

Lemma started_inv w : started w -> Inv w.
Proof.
  intros (Hp & Hu & He & Hw & Hr & _ & Hb & Ha & Hn & Ht & Hc). unfold Inv, claims_of.
  assert (bootstrapBlocksCrossSiteLocked (mgr w) = false) as Hblk by (unfold bootstrapBlocksCrossSiteLocked; by rewrite Hb).
  rewrite Hp, Hu, He, Hw, Hr, Hb, Hblk. constructor; simpl; try done. intros k Hk Hm. split_and!; try done. by eapply Hc.
Qed.

(** Entering the gate keeps an unexpired entry, and one refuses the entry. *)
Lemma enter_cases g now g' ok : enter g now = (g', ok) ->
  pending g' = pending g /\ (forall key t, now < t -> tryPending g !! key = Some t -> tryPending g' !! key = Some t)
  /\ ((ok = false /\ active g' = active g)
      \/ (ok = true /\ active g' = active g + 1 /\ pending g <= 0 /\ forall key t, now < t -> tryPending g !! key <> Some t)).
Proof.
  unfold enter, tryPendingLocked. rewrite Z.gtb_ltb. destruct (0 <? pending g) eqn:Ep; [intros [= <- <-]; split_and!; auto|].
  apply Z.ltb_ge in Ep. simpl.
  assert (forall key t, now < t -> tryPending g !! key = Some t ->
    filter (fun kv => now < kv.2) (tryPending g) !! key = Some t) as Hkeep by (intros; by apply map_lookup_filter_Some).
  destruct (decide (filter (fun kv => now < kv.2) (tryPending g) = ∅)) as [Hempty|Hne];
    [rewrite bool_decide_false by (by intros [])|rewrite bool_decide_true by done]; intros [= <- <-]; simpl; split_and!; auto.
  right. split_and!; auto. intros key t Hlt Hk. pose proof (Hkeep key t Hlt Hk) as H. rewrite Hempty in H. by apply lookup_empty_Some in H.
Qed.

(** Uses the invariant's clauses that apply. *)
Ltac follow :=
  intros; simplify_eq;
  repeat match goal with
  | H : forall key t, EngineReady ?a ?b = EngineReady key t -> _ |- _ => specialize (H a b eq_refl)
  | H : forall t, PollAuto ?a = PollAuto t -> _ |- _ => specialize (H a eq_refl)
  | H : forall k, Some ?a = Some k -> _ |- _ => specialize (H a eq_refl)
  | H : forall k, ?a = Some k -> _, E : ?a = Some ?b |- _ => specialize (H b E)
  | H : ?P -> _, H' : ?P |- _ => specialize (H H')
  | H : ?x = ?x -> _ |- _ => specialize (H eq_refl)
  | H : _ /\ _ |- _ => destruct H
  end;
  split_and?; first [assumption | exact Logic.I | discriminate | congruence | lia | by eauto 2].

(** Splits the goal [inv ...], and discharges what follows from the invariant before. *)
Ltac settle :=
  match goal with I : inv _ _ _ _ _ _ _ _ |- _ => destruct I end; constructor; simpl in *;
  first [assumption | solve [follow] | idtac].

(** An update let through the gate is pending there. *)
Lemma through_pending u : update_through u = true -> update_pending u = true.
Proof. by destruct u. Qed.

(** A clone's progress changes neither what it blocks nor, idle, whether it runs. *)
Lemma progress_claims m phase : bootstrapIdlePhase (bootstrapPhase m) = false ->
  let m' := m <| bootstrapPhase := phase |> in
  (cloning (claims_of m') = false /\ blocking (claims_of m') = false) \/ claims_of m' = claims_of m.
Proof.
  intros Hp m'. destruct (bootstrapIdlePhase phase) eqn:E.
  - left. split; [by simpl; rewrite E|]. apply not_blocking. by simpl; rewrite E.
  - right. unfold claims_of, bootstrapBlocksCrossSiteLocked. simpl. by rewrite Hp, E.
Qed.

Lemma poll_preserves w w' : Inv w -> poll_step w w' -> Inv w'.
Proof.
  destruct w as [m s g now p u e pr]. unfold Inv. simpl.
  intros I [t|t m' began blocked Hp E|t|Hp|g' ok Hp E|Hp E|Hp E|Hp|r|r m' ok Hp E|phase E]; simpl in *; subst; try solve [settle].
  - destruct (begin_auto_cases _ _ _ _ _ _ E) as [(-> & -> & _)|(-> & Hh%not_held & _ & Hw & Hu & Hb & Ht & ->)]; [settle|].
    rewrite Hh in *; settle.
  - destruct (enter_cases _ _ _ _ E) as (Hp & Hk & [[-> Ha]|(-> & Ha & Hz & Hn)]); settle.
    + intros key t -> Hlt. split; [|done]. apply Hk; [done|]. by apply inv_ready0.
    + intros Ht%through_pending. rewrite Ht in *. lia.
    + intros key t -> Hlt. destruct (Hn key _ Hlt). by apply inv_ready0.
  - destruct (follower_admitted _ _ E) as (Hh%not_held & _ & Hw & Hu & Hc). rewrite Hh in *. settle.
  - destruct (claim_bootstrap_cases _ _ _ _ _ E) as [[-> ->]|(-> & Hh%not_held & _ & Hw & Hu & Hc & Hc' & [= E1 E2 E3])]; [settle|].
    rewrite Hh in *. settle.
  - match goal with |- inv (claims_of ?x) _ _ _ _ _ _ _ => change x with (m <| bootstrapPhase := phase |>) end.
    destruct (progress_claims m phase E) as [[E1 E2]| ->]; [|settle]. settle.
Qed.

Lemma engine_windows_nonneg e : 0 <= engine_windows e.
Proof. by destruct e. Qed.

Lemma update_windows_nonneg u : 0 <= update_windows u.
Proof. by destruct u. Qed.

Lemma update_preserves w w' : Inv w -> update_step w w' -> Inv w'.
Proof.
  destruct w as [m s g now p u e pr]. unfold Inv. simpl.
  intros I [Hu Hp|Hu Hp|Hu|Hu|Hu Hb|Hu|c epoch act m' b Hu E|Hu|Hu|Hu|Hu|Hu]; simpl in *; subst; try solve [settle].
  - destruct Hu as [-> | ->]; settle.
  - unfold busy in Hb. rewrite Z.gtb_ltb in Hb. apply Z.ltb_ge in Hb. settle.
    intros _. destruct (follower_inside p); [lia|done].
  - destruct (publish_update_cases _ _ _ _ _ _ _ E) as [[-> ->]|(-> & Hh%not_held & _ & Hw & Hc & ->)]; [settle|].
    rewrite Hh in *. settle.
    intros t ->. pose proof (engine_windows_nonneg e). simpl in *. lia.
Qed.

Lemma takes_slot_preserves s s' m m' g now p u e e' pr : takes_slot s s' m m' ->
  (forall key t, e' <> EngineReady key t) -> engine_windows e' = engine_windows e ->
  (held s = None -> follower_inside p = false) ->
  inv (claims_of m) (held s) g now p u e pr -> inv (claims_of m') (held s') g now p u e' pr.
Proof.
  intros [[-> ->]|(h & Hs & Hs' & _ & Hw & Hu & Hb & Ht & -> & _)] He Hn Hf I.
  - settle.
  - rewrite Hs, Hs' in *. specialize (Hf eq_refl). settle.
    intros t ->. pose proof (engine_windows_nonneg e). pose proof (update_windows_nonneg u). simpl in *. lia.
Qed.

Lemma require_run_cases s leading ref s' : requireRunClaim s leading ref false = (s', None) ->
  exists c c', held s = Some c /\ mode c = claimModeRun /\ held s' = Some c' /\ mode c' = claimModeRun /\ target c' = target c.
Proof.
  unfold requireRunClaim, snapshot. destruct (negb leading); [done|]. destruct (held s) as [c|] eqn:Eh; [|done].
  destruct (_ || _) eqn:E; [done|]. destruct (_ && _); [done|]. guards.
  assert (mode c = claimModeRun) as Hm by (by apply (bool_decide_eq_true_1 (mode c = claimModeRun))).
  destruct (provisional c); [|intros [= <-]; by exists c, c].
  destruct (update s (Ref_RunID ref) (apply_update ClearProvisional)) as [s1 b] eqn:Eu. intros [= <-]. simpl.
  destruct (update_cases _ _ _ _ _ Eu) as [[_ ->]|(c1 & _ & Hc & _ & _ & ->)]; [by exists c, c|].
  rewrite Eh in Hc. injection Hc as <-. by exists c, (apply_update ClearProvisional c).
Qed.

(** A claim's own operations take it away, end it as a hold, or keep run and target. *)
Definition slot_shrinks (s s' : PlannedClaimSlot) : Prop :=
  forall c', held s' = Some c' -> mode c' = claimModeRun ->
    exists c, held s = Some c /\ mode c = claimModeRun /\ target c' = target c.

Lemma shrink_preserves s s' c g now p u e pr : slot_shrinks s s' ->
  inv c (held s) g now p u e pr -> inv c (held s') g now p u e pr.
Proof.
  intros Hs I. assert (run_claim (held s) = false -> run_claim (held s') = false) as Hr.
  { unfold run_claim. destruct (held s') as [c'|] eqn:E'; [|done]. intros H. apply bool_decide_eq_false. intros Hm.
    destruct (Hs _ E' Hm) as (c0 & Hc & Hm0 & _). rewrite Hc in H. by rewrite bool_decide_true in H. }
  settle. intros k Hk Hm. destruct (Hs _ Hk Hm) as (c0 & Hc & Hm0 & ->). by apply inv_run0.
Qed.

Lemma release_shrinks s run why s' b : release s run why = (s', b) -> slot_shrinks s s'.
Proof.
  intros E c' Hc' Hm. destruct (release_cases _ _ _ _ _ E) as [[_ ->]|(c & _ & _ & _ & H & _)]; [by exists c'|congruence].
Qed.

Lemma hold_shrinks s run s' b : toHold s run = (s', b) -> slot_shrinks s s'.
Proof.
  intros E c' Hc' Hm. destruct (toHold_cases _ _ _ _ E) as [[_ ->]|(_ & _ & _ & [[_ H]|(c & _ & _ & _ & H)])];
    [by exists c'|..]; rewrite H in Hc'; by injection Hc' as <-.
Qed.

Lemma update_shrinks s run u s' b : update s run (apply_update u) = (s', b) -> slot_shrinks s s'.
Proof.
  intros E c' Hc' Hm. destruct (update_cases _ _ _ _ _ E) as [[_ ->]|(c & _ & Hc & _ & Hr & ->)]; [by exists c'|].
  exists c. injection Hc' as <-. by destruct u.
Qed.

Lemma promote_preserves c h g now p u pr k : inv c h g now p u EngineIdle pr -> h = Some k -> mode k = claimModeRun ->
  inv {| windows := windows c + 1; updating := updating c; rotating := rotating c; cloning := cloning c; blocking := blocking c |}
    h g now p u EnginePromoting pr.
Proof. intros I -> Hm. settle. Qed.

Lemma engine_preserves w w' : Inv w -> engine_step true w w' -> Inv w'.
Proof.
  destruct w as [m s g now p u e pr]. unfold Inv. simpl.
  intros I [He Hp|He|key g' b He E|key at_ req epoch polled mem uuid s' m' d He Hlt E|key at_ c s' m' d He Hlt E|key He
           |leading ref s' He E|He|run why s' b E|run s' b E|run cu s' b E]; simpl in *; subst; try solve [settle].
  - injection E as <- <-. unfold busy. rewrite Z.gtb_ltb. destruct (0 <? active g) eqn:Ea; [settle|]. apply Z.ltb_ge in Ea.
    settle. intros key' t [= <- <-] _. rewrite lookup_insert_eq. split; [done|]. destruct (follower_inside p); [lia|done].
  - apply (takes_slot_preserves s s' m m' g now p u (EngineReady key at_)); [by eapply publish_claim_cases|done|done| |done].
    intros _. by apply (inv_ready _ _ _ _ _ _ _ _ I key at_ eq_refl), Hlt.
  - apply (takes_slot_preserves s s' m m' g now p u (EngineReady key at_)); [by eapply hydrate_claim_cases|done|done| |done].
    intros _. by apply (inv_ready _ _ _ _ _ _ _ _ I key at_ eq_refl), Hlt.
  - destruct (require_run_cases _ _ _ _ E) as (c & c' & Hc & Hm & Hc' & Hm' & Ht).
    apply (shrink_preserves s); [|exact (promote_preserves _ _ _ _ _ _ _ c I Hc Hm)].
    intros c0 Hc0 _. rewrite Hc' in Hc0. injection Hc0 as <-. by exists c.
  - eapply shrink_preserves; [by eapply release_shrinks|done].
  - eapply shrink_preserves; [by eapply hold_shrinks|done].
  - eapply shrink_preserves; [by eapply update_shrinks|done].
Qed.

Lemma fewer_rotations c h g now p u e pr l : (forall x, x ∈ l -> x ∈ rotating c) -> inv c h g now p u e pr ->
  inv {| windows := windows c; updating := updating c; rotating := l; cloning := cloning c; blocking := blocking c |} h g now p u e pr.
Proof.
  intros Hl I. settle.
  - intros t Ht. destruct (inv_auto0 t Ht) as (H1 & H2 & H3 & H4). split_and!; auto.
  - intros k Hk Hm. destruct (inv_run0 k Hk Hm) as (H1 & H2 & H3). split_and!; auto.
Qed.

Lemma env_preserves w w' : Inv w -> env_step w w' -> Inv w'.
Proof.
  destruct w as [m s g now p u e pr]. unfold Inv. simpl.
  intros I [now' tgt gtid|site m' b E|l|l|m' E| | | |t Ht]; simpl in *; subst; try solve [settle].
  - destruct (reserve_cases _ _ _ _ _ E) as [[_ ->]|(_ & Hh%not_held & _ & Hw & _ & _ & [= E1 E2 E3 E4] & Hx)]; [done|].
    rewrite Hh in *. settle; [|by rewrite E3, E4].
    intros t ->. pose proof (engine_windows_nonneg e). pose proof (update_windows_nonneg u). simpl in *. lia.
  - by destruct (set_rotation_claims m l) as [-> _].
  - destruct (publish_rotation_claims m l) as (E & Hl & _).
    set (c' := claims_of (PublishKeyringRotationBlocked m l)) in *. destruct c' as [n y r k b]. injection E as -> -> -> ->.
    by apply (fewer_rotations (claims_of m)).
  - by destruct (observed_claims _ _ E) as [-> _].
  - settle. intros key t' He Hlt. apply inv_ready0; [done|lia].
Qed.

Lemma reachable_inv w0 w : started w0 -> reachable true w0 w -> Inv w.
Proof.
  intros Hs. induction 1 as [|w w' _ IH [S|S|S|S]]; [by apply started_inv|..];
    [by eapply poll_preserves|by eapply update_preserves|by eapply engine_preserves|by eapply env_preserves].
Qed.

(** What is in flight, from the claims and the threads. *)
Definition flying (c : claims) (h : option plannedClaim) (p : poll_thread) (a : activity) : bool :=
  match a with
  | AutoPromotion => match p with PollAuto _ => true | _ => false end
  | OrderedUpdate => updating c
  | PlannedRun => run_claim h
  | FollowerMutation => match p with PollFollower => true | _ => false end
  | Bootstrap => cloning c
  end.

Lemma in_flight_flying w a : in_flight w a = flying (claims_of (mgr w)) (held (slot w)) (poll w) a.
Proof. by destruct a. Qed.

(** Nothing starts: what is in flight or reserved afterwards was before. *)
Definition calm (c c' : claims) (h h' : option plannedClaim) (p p' : poll_thread) : Prop :=
  (forall a, flying c' h' p' a = true -> flying c h p a = true) /\ (forall x, x ∈ rotating c' -> x ∈ rotating c).

Definition calm_step (w w' : World) : Prop :=
  calm (claims_of (mgr w)) (claims_of (mgr w')) (held (slot w)) (held (slot w')) (poll w) (poll w')
  /\ (retired (mgr w) = true -> retired (mgr w') = true).

Definition blocked (w : World) : Prop := Held (slot w) = true \/ retired (mgr w) = true.

Ltac calms := split; [split; [intros []|]|]; simpl in *; try solve [done | congruence | by intros []].

Lemma poll_calm w w' : blocked w -> poll_step w w' -> calm_step w w'.
Proof.
  destruct w as [m s g now p u e pr]. unfold blocked, calm_step. simpl.
  intros B [t|t m' began bl Hp E|t|Hp|g' ok Hp E|Hp E|Hp E|Hp|r|r m' ok Hp E|phase E]; simpl in *; subst; try solve [calms].
  - destruct (begin_auto_cases _ _ _ _ _ _ E) as [(-> & -> & ->)|(_ & Hh & Hr & _)]; [calms|destruct B; congruence].
  - destruct ok; calms.
  - destruct (follower_admitted _ _ E) as (Hh & Hr & _). destruct B; congruence.
  - destruct (claim_bootstrap_cases _ _ _ _ _ E) as [[_ ->]|(_ & Hh & Hr & _)]; [calms|destruct B; congruence].
  - calms. by rewrite E.
Qed.

Lemma update_calm w w' : blocked w -> update_step w w' -> calm_step w w'.
Proof.
  destruct w as [m s g now p u e pr]. unfold blocked, calm_step. simpl. intros B S; destruct S; simpl in *; try solve [calms].
  destruct (publish_update_cases _ _ _ _ _ _ _ H0) as [[_ ->]|(_ & Hh & Hr & _)]; [calms|destruct B; congruence].
Qed.

Lemma shrinks_calm s s' c p : slot_shrinks s s' -> calm c c (held s) (held s') p p.
Proof.
  intros Hs. split; [|done]. intros []; try done. simpl. unfold run_claim. destruct (held s') as [c'|] eqn:E; [|done].
  intros Hm%bool_decide_eq_true. destruct (Hs _ E Hm) as (k & -> & Hk & _). by rewrite bool_decide_true.
Qed.

Lemma takes_slot_blocked s s' m m' : Held s = true \/ retired m = true -> takes_slot s s' m m' -> s' = s /\ m' = m.
Proof.
  intros B [?|(h & Hn & _ & Hr & _)]; [done|]. unfold Held in B. rewrite Hn in B. destruct B as [B|]; [|congruence].
  by apply bool_decide_eq_true in B as [? ?].
Qed.

Lemma engine_calm prompt w w' : blocked w -> engine_step prompt w w' -> calm_step w w'.
Proof.
  destruct w as [m s g now p u e pr]. unfold blocked, calm_step. simpl.
  intros B [He Hp|He|key g' b He E|key at_ req epoch polled mem uuid s' m' d He Hlt E|key at_ c s' m' d He Hlt E|key He
           |leading ref s' He E|He|run why s' b E|run s' b E|run cu s' b E]; simpl in *; subst; try solve [calms].
  - by destruct (takes_slot_blocked s s' m m' B) as [-> ->]; [by eapply publish_claim_cases|].
  - by destruct (takes_slot_blocked s s' m m' B) as [-> ->]; [by eapply hydrate_claim_cases|].
  - destruct (require_run_cases _ _ _ _ E) as (c & c' & Hc & Hm & Hc' & Hm' & Ht). rewrite Hc, Hc'.
    calms. by rewrite Hm.
  - split; [|done]. eapply shrinks_calm, release_shrinks, E.
  - split; [|done]. eapply shrinks_calm, hold_shrinks, E.
  - split; [|done]. eapply shrinks_calm, update_shrinks, E.
Qed.

Lemma env_calm w w' : blocked w -> env_step w w' -> calm_step w w'.
Proof.
  destruct w as [m s g now p u e pr]. unfold blocked, calm_step. simpl.
  intros B [now' tgt gtid|site m' b E|l|l|m' E| | | |t Ht]; simpl in *; try solve [calms].
  - destruct (reserve_cases _ _ _ _ _ E) as [[_ ->]|(_ & Hh & Hr & _)]; [done|destruct B; congruence].
  - by destruct (set_rotation_claims m l) as [-> ->].
  - destruct (publish_rotation_claims m l) as (E & Hl & ->). split; [|done]. split; [|done].
    injection E as E1 E2 E3 E4. intros []; simpl in *; congruence.
  - by destruct (observed_claims _ _ E) as [-> ->].
Qed.

Lemma blocked_calm prompt w w' : blocked w -> step prompt w w' -> calm_step w w'.
Proof. intros B [S|S|S|S]; [by apply poll_calm|by apply update_calm|by eapply engine_calm|by apply env_calm]. Qed.

(** A claim that stays in the slot stays with its run. *)
Definition keeps_run (s s' : PlannedClaimSlot) : Prop :=
  forall c c', held s = Some c -> held s' = Some c' -> runID c' = runID c.

Lemma claim_op_keeps_run s s' : s' = s \/ held s' = None \/ held s = None \/ (exists run u, s' = (update s run (apply_update u)).1)
  \/ (exists run, s' = (toHold s run).1) -> keeps_run s s'.
Proof.
  intros [->|[H|[H|[(run & u & ->)|(run & ->)]]]] c c' Hc Hc'; try congruence.
  - destruct (update s run (apply_update u)) as [s' b] eqn:E. simpl in Hc'.
    destruct (update_cases _ _ _ _ _ E) as [[_ ->]|(c1 & _ & H1 & _ & _ & ->)]; [congruence|].
    injection Hc' as <-. rewrite Hc in H1. injection H1 as <-. by destruct u.
  - destruct (toHold s run) as [s' b] eqn:E. simpl in Hc'.
    destruct (toHold_cases _ _ _ _ E) as [[_ ->]|(_ & _ & _ & [[H _]|(c1 & H1 & _ & _ & H)])]; [congruence..|].
    rewrite Hc in H1. injection H1 as <-. rewrite H in Hc'. by injection Hc' as <-.
Qed.

Lemma step_keeps_run prompt w w' : step prompt w w' -> keeps_run (slot w) (slot w').
Proof.
  intros [S|S|S|S]; apply claim_op_keeps_run; [destruct S; by left|destruct S; by left| |destruct S; by left].
  destruct S as [| | |key at_ req epoch polled mem uuid s m d He Hlt E|key at_ c s m d He Hlt E|
                |leading ref s He E| |run why s b E|run s b E|run u s b E]; simpl; try by left.
  - destruct (publish_claim_cases _ _ _ _ _ _ _ _ _ _ E) as [[-> _]|(h & H & _)]; [by left|right; right; by left].
  - destruct (hydrate_claim_cases _ _ _ _ _ _ E) as [[-> _]|(h & H & _)]; [by left|right; right; by left].
  - unfold requireRunClaim in E. destruct (negb leading), (snapshot (slot w)) as [h|]; try done.
    destruct (_ || _); [done|]. destruct (_ && _); [done|]. destruct (provisional h); injection E as <-; [|by left].
    do 3 right. left. by eexists _, _.
  - destruct (release_cases _ _ _ _ _ E) as [[_ ->]|(c & _ & _ & _ & H & _)]; [by left|right; by left].
  - do 4 right. exists run. by rewrite E.
  - do 3 right. left. exists run, u. by rewrite E.
Qed.

(** ** Sample worlds *)

Definition sample_site (name : string) (st : SiteState) : siteTracker :=
  {| site_name := name; site_role := SiteRolePrimaryCandidate; site_state := st |}.

Definition sample_manager : TopologyManager :=
  {| sites := [sample_site "iad" StateWritable; sample_site "pdx" StateReadOnly]; ready := true; retired := false;
     predecessorUpdateInFlight := false; deploymentChanging := 0; deploymentUpdatePending := false;
     deploymentUpdateRunning := false; deploymentAwaitingObservation := false; promotedSite := ""; topologyFrozen := false;
     bootstrapPhase := BootstrapPhaseNone; bootstrapRecipient := ""; restoreRecloneBlocked := []; restoreReclonePending := [];
     restorePeerHeld := []; keyringRotationBlocked := []; keyringRotationReserved := []; keyringRotationBlockedDirty := false;
     divergent := []; authorityEpoch := 7; crossSiteRetry := false; deploymentLeases := true;
     authority := {| lastFailover := 0; lastFailoverTarget := ""; lastFailoverLocal := false; promotionGtidExecuted := "";
                     groupHasData := true; lastActiveSite := "iad"; lastActiveSiteNamed := true; topologyGeneration := 1;
                     deploymentActiveSite := "iad"; desired := None; failoverStateDirty := false; statusWriteFailed := false |} |}.

Definition sample_world : World :=
  {| mgr := sample_manager; slot := emptySlot; gate := {| active := 0; pending := 0; tryPending := ∅ |}; clock := 0;
     poll := PollIdle; upd := UpdateIdle; eng := EngineIdle; predecessor := false |}.

Definition sample_request : PlannedClaimRequest :=
  {| Req_RunID := "run-1"; Req_Target := "pdx"; DurableBaseline := newFailoverRecordRef 0 "" |}.

(** Registered at the gate; then the claim granted. *)
Definition sample_checked : World := sample_world <| eng := EngineChecked |>.
Definition sample_registered : World :=
  sample_checked <| gate := (try_register (gate sample_checked) "run-1" 0).1 |> <| eng := EngineReady "run-1" 0 |>.
Definition grant (w : World) : World :=
  let r := publishPlannedClaim (slot w) (mgr w) sample_request 7 "iad" (newFailoverRecordRef 0 "") "uuid" in
  w <| slot := r.1.1 |> <| mgr := r.1.2 |> <| eng := EnginePublished "run-1" |>.
Definition sample_granted : World := grant sample_registered.

(** The same, with a follower mutation let in once the entry lapsed. *)
Definition lapsed : World := sample_registered <| clock := plannedClaimGateTTL |>.
Definition lapsed_checked : World := lapsed <| poll := PollFollowerChecked |>.
Definition lapsed_entered : World :=
  lapsed_checked <| gate := (enter (gate lapsed_checked) plannedClaimGateTTL).1 |> <| poll := PollFollowerEntered |>.
Definition lapsed_admitted : World := lapsed_entered <| poll := PollFollower |>.
Definition lapsed_granted : World := grant lapsed_admitted.

Lemma sample_started : started sample_world.
Proof. split_and!; try reflexivity. done. Qed.

Lemma sample_registers prompt : reachable prompt sample_world sample_registered.
Proof.
  apply (reachable_step _ _ sample_checked); [apply (reachable_step _ _ sample_world); [constructor|]|];
    apply by_engine; [by apply step_engine_check|]. 
    by apply (step_engine_register prompt sample_checked "run-1" (try_register (gate sample_checked) "run-1" 0).1 false).
Qed.

Lemma sample_grants prompt : reachable prompt sample_world sample_granted.
Proof.
  apply (reachable_step _ _ sample_registered); [apply sample_registers|]. apply by_engine.
  by eapply (step_engine_publish _ _ "run-1" 0 sample_request 7 "iad" (newFailoverRecordRef 0 "") "uuid").
Qed.

Lemma lapsed_grants : reachable false sample_world lapsed_granted.
Proof.
  apply (reachable_step _ _ lapsed_admitted); [|apply by_engine;
    by eapply (step_engine_publish _ _ "run-1" 0 sample_request 7 "iad" (newFailoverRecordRef 0 "") "uuid")].
  apply (reachable_step _ _ lapsed_entered); [|by apply by_poll, step_follower_admitted].
  apply (reachable_step _ _ lapsed_checked); [|apply by_poll, (step_follower_enter _ _ true); [done|by vm_compute]].
  apply (reachable_step _ _ lapsed); [|by apply by_poll, step_follower_check].
  apply (reachable_step _ _ sample_registered); [apply sample_registers|]. by apply by_env, step_time.
Qed.

(** ** Theorems *)

(** C22. Topology claims exclude one another. In every interleaving of the poll loop,
    the ordered-update worker, the planned-failover engine and the rest of the
    controller, as long as a planned claim is published before its gate entry expires:
    of two activities in flight on the group's sites one is a clone into a read-only
    reader beside a promotion; the site an emergency failover or a planned failover is
    promoting has no reserved keyring rotation; and while a replaced manager is still
    changing the sites only an inherited planned claim is in flight. *)
Theorem topology_claims_exclusive w0 w : started w0 -> reachable true w0 w ->
  (forall a b, a <> b -> in_flight w a = true -> in_flight w b = true -> reader_clone_beside w a b)
  /\ (forall t, poll w = PollAuto t -> t ∉ keyringRotationReserved (mgr w))
  /\ (forall c, held (slot w) = Some c -> mode c = claimModeRun -> target c ∉ keyringRotationReserved (mgr w))
  /\ (predecessor w = true -> forall a, in_flight w a = true -> a = PlannedRun).
Proof.
  intros Hs Hr. destruct (reachable_inv _ _ Hs Hr) as [_ Hu _ _ _ _ Ha Hf Hrun Hup _ Hp]. simpl in *.
  assert (run_claim (held (slot w)) = true ->
    update_claimed (upd w) = false /\ bootstrapBlocksCrossSiteLocked (mgr w) = false) as Hrun'.
  { unfold run_claim. destruct (held (slot w)) eqn:E; [|done]. intros Hm%bool_decide_eq_true. by destruct (Hrun _ eq_refl Hm) as (? & ? & _). }
  split; [|split; [|split]].
  - intros a b Hab. rewrite !in_flight_flying. unfold reader_clone_beside, flying. simpl. rewrite <- Hu in *.
    destruct a, b; try done; destruct (poll w) eqn:Ep; try done; intros H1 H2; follow.
  - intros t Ht. by apply (Ha t).
  - intros c Hc Hm. by apply (Hrun c).
  - intros Hpr a. rewrite in_flight_flying. destruct (Hp Hpr) as (-> & Hh & Hc). unfold flying. simpl. rewrite Hu, Hc.
    by destruct a, (upd w).
Qed.

Lemma topology_claims_exclusive_witness :
  in_flight sample_granted PlannedRun = true /\ ~ reader_clone_beside sample_granted PlannedRun FollowerMutation
  /\ (forall a b, a <> b -> in_flight sample_granted a = true -> in_flight sample_granted b = true -> reader_clone_beside sample_granted a b).
Proof.
  split; [reflexivity|]. split; [intros [_ []]|].
  exact (proj1 (topology_claims_exclusive _ _ sample_started (sample_grants true))).
Defined.

(** A held planned claim keeps everything else out. While the slot holds a run's
    claim or a hold no step starts an emergency failover, an ordered update, a follower
    mutation, a bootstrap or another planned run, and none reserves a rotation; the
    claim stays with its run until it is released. *)
Theorem held_claim_blocks prompt w w' : step prompt w w' -> Held (slot w) = true ->
  (forall a, in_flight w' a = true -> in_flight w a = true)
  /\ (forall x, x ∈ keyringRotationReserved (mgr w') -> x ∈ keyringRotationReserved (mgr w))
  /\ (forall c c', held (slot w) = Some c -> held (slot w') = Some c' -> runID c' = runID c).
Proof.
  intros S Hh. destruct (blocked_calm prompt w w' (or_introl Hh) S) as [[Ha Hx] _].
  split; [intros a; rewrite !in_flight_flying; apply Ha|]. split; [exact Hx|].
  intros c c' Hc Hc'. eapply step_keeps_run; done.
Qed.

Lemma held_claim_blocks_witness :
  let w' := sample_granted <| poll := PollAutoChecked "pdx" |> in
  in_flight w' PlannedRun = true /\ (forall a, in_flight w' a = true -> in_flight sample_granted a = true).
Proof.
  split; [reflexivity|].
  apply (held_claim_blocks true sample_granted); [by apply by_poll, step_auto_check|reflexivity].
Defined.

(** A retired manager starts nothing: whatever is in flight later, or reserved,
    already was when it was retired. This is what lets its replacement check once that
    its predecessor is done. *)
Theorem retired_starts_nothing prompt w w' : retired (mgr w) = true -> reachable prompt w w' ->
  retired (mgr w') = true /\ (forall a, in_flight w' a = true -> in_flight w a = true)
  /\ (forall x, x ∈ keyringRotationReserved (mgr w') -> x ∈ keyringRotationReserved (mgr w)).
Proof.
  intros Hr. induction 1 as [|w1 w2 _ (H1 & H2 & H3) S]; [done|].
  destruct (blocked_calm prompt w1 w2 (or_intror H1) S) as [[Ha Hx] Hret].
  split; [by apply Hret|]. split; [intros a H|by intros x H%Hx%H3].
  apply H2. rewrite in_flight_flying in H |- *. by apply Ha.
Qed.

Definition retired_world : World := sample_world <| mgr := sample_manager <| retired := true |> |>.

Lemma retired_starts_nothing_witness :
  let w' := retired_world <| poll := PollAutoChecked "pdx" |> in
  retired (mgr w') = true /\ (forall a, in_flight w' a = true -> in_flight retired_world a = true).
Proof.
  destruct (retired_starts_nothing true retired_world (retired_world <| poll := PollAutoChecked "pdx" |>)) as (H1 & H2 & _);
    [reflexivity| |exact (conj H1 H2)].
  apply (reachable_step _ _ retired_world); [constructor|]. by apply by_poll, step_auto_check.
Defined.

(** C38. The gate's refusal has a time limit. A planned claim's entry at the gate
    refuses follower mutations only until it expires: when publishing takes longer, a
    follower mutation can be let in after the claim saw the gate idle, and the claim is
    granted beside it. *)
Theorem gate_entry_lapses : exists w, reachable false sample_world w /\ started sample_world
  /\ in_flight w PlannedRun = true /\ in_flight w FollowerMutation = true.
Proof.
  exists lapsed_granted. split; [exact lapsed_grants|]. split; [exact sample_started|]. split; vm_compute; reflexivity.
Qed.
