(* ===== verification/PlanIndex.v ===== *)
(** * The planner's memory budget and transaction indexes

    [internal/pitrplan/budget.go] and [internal/pitrplan/index.go]: every structure that
    grows with the archive is charged before it is built, and the index of one binlog
    file is accumulated event by event under the per-file identity rules. The refusal
    tokens are [internal/pitrarchive/tokens.go]'s catalog. *)
From S2P Require Import Prelude GoStd Intervals PlanSet.

Local Open Scope Z_scope.

Module Index.

Import Plan.

(** ** Refusals *)

Inductive Token : Type :=
| TokenArchiveListFailed
| TokenArchiveNotFound
| TokenArchiveLegacy
| TokenArchiveDescriptorMissing
| TokenArchiveVersionUnsupported
| TokenArchiveIdentityMismatch
| TokenArchiveForeign
| TokenArchiveCopy
| TokenArchiveEncryptionMismatch
| TokenArchiveKeyMismatch
| TokenArchiveStoreUnsupported
| TokenArchiveUnsafeHistory
| TokenArchiveHistoryReset
| TokenArchiveObjectInvalid
| TokenArchiveNamespaceReuse
| TokenArchiveSplitBrain
| TokenArchiveDivergentHistory
| TokenArchiveGap
| TokenArchiveOrderConflict
| TokenArchiveOrderInversion
| TokenArchiveDestinationShared
| TokenArchiveBindingNotReady
| TokenBackupIdentityUnknown
| TokenBackupIdentityMismatch
| TokenBackupInconsistent
| TokenBackupFiltered
| TokenBackupIncomplete
| TokenBackupDumpKeyMissing
| TokenBackupAfterTarget
| TokenBackupNotOnLineage
| TokenExcludeIntersectsBackup
| TokenStopAmbiguous
| TokenTargetNotCovered
| TokenTargetInvalid
| TokenNoArchivedReplay
| TokenReplayUnsupported
| TokenPlanTooLarge
| TokenCoverageInvalid
| TokenReplayMismatch
| TokenPITRFailed.

#[export] Instance Token_eq_dec : EqDecision Token.
Proof. solve_decision. Defined.

(** A [*Refusal], or another error; messages aside. *)
Inductive plan_error : Type :=
| Refused (t : Token)
| Failed.

Definition refuse {A} (t : Token) : res plan_error A := Err (Refused t).

(** ** The budget *)

Record Budget : Type := {
  limit : Z;
  used : Z;
  peak : Z;
  indexed : Z
}.

#[export] Instance Budget_eta : Eta Budget := fun b => Build_Budget (limit b) (used b) (peak b) (indexed b).

Definition NewBudget (l : Z) : Budget := {| limit := l; used := 0; peak := 0; indexed := 0 |}.

Definition MaxEventBytesCap : Z := Z.shiftl 64 20.

Definition MaxEventBytes (b : Budget) : Z := Z.min MaxEventBytesCap (Z.quot (limit b) 8).

Definition Charge (b : Budget) (n : Z) : res plan_error Budget :=
  if n <? 0 then Err Failed
  else if n >? limit b - used b then refuse TokenPlanTooLarge
  else Ok (b <| used := used b + n |> <| peak := Z.max (peak b) (used b + n) |>).

Definition Release (b : Budget) (n : Z) : Budget := b <| used := Z.max 0 (used b - n) |>.

(** [unsafe.Sizeof] of [Txn] and [Interval] on a 64-bit platform. *)
Definition TxnBytes : Z := 32.
Definition sizeof_Interval : Z := 16.

Definition occurrenceBytes : Z := 64 + 12.
Definition nodeBytes : Z := 8 + 8 + 4 + 4 + 6 + 4 + 4 + 8 + 5.
Definition classBytes : Z := 64 + 24 + 5 + 8.
Definition intervalBytes : Z := sizeof_Interval + 8.
Definition sourceBytes : Z := 2 * (16 + 24) + 16.
Definition indexSourceBytes : Z := sourceBytes + 2 * (16 + 8) + 2 * 16.

Definition sidBytes (sid : string) : Z := Z.quot (Z.of_nat (String.length sid) + 15) 16 * 16.

Definition setBytes (s : Set_) : Z :=
  map_fold (fun sid ivs n => n + (sourceBytes + sidBytes sid + Z.of_nat (length ivs) * intervalBytes)) 0 s.

Definition chargeSet (b : Budget) (s : Set_) : res plan_error Budget := Charge b (setBytes s).

(** What one phase charged. *)
Record charges : Type := {
  charged : Budget;
  held_bytes : Z
}.

Definition charge (c : charges) (n : Z) : res plan_error charges :=
  let? b := Charge (charged c) n in Ok {| charged := b; held_bytes := held_bytes c + n |}.

Definition charge_set (c : charges) (s : Set_) : res plan_error charges := charge c (setBytes s).

Definition release (c : charges) : charges :=
  {| charged := Release (charged c) (held_bytes c); held_bytes := 0 |}.

(** ** Transaction indexes *)

Definition TxnEmpty : Z := 1.
Definition TxnXA : Z := 2.
Definition TxnUnsupported : Z := 4.

Record Txn : Type := {
  Txn_GNO : Z;
  OCT : Z;
  Srv : Z;
  Txn_SID : Z;
  Flags : Z
}.

#[export] Instance Txn_eta : Eta Txn := fun t => Build_Txn (Txn_GNO t) (OCT t) (Srv t) (Txn_SID t) (Flags t).

Definition Empty (t : Txn) : bool := negb (Z.land (Flags t) TxnEmpty =? 0).

(** [Digest] and [Size] are carried through and not modelled. *)
Record FileIndex : Type := {
  WriterServerID : Z;
  Previous : Set_;
  SIDs : list string;
  Txns : list Txn;
  Index_GTIDs : Set_;
  EmptyGTIDs : Set_;
  CommitMin : Z;
  CommitMax : Z
}.

#[export] Instance FileIndex_eta : Eta FileIndex := fun x =>
  Build_FileIndex (WriterServerID x) (Previous x) (SIDs x) (Txns x) (Index_GTIDs x) (EmptyGTIDs x) (CommitMin x) (CommitMax x).

(** [GTID(i)] of the transaction; the indexes it follows are in range. *)
Definition txn_gtid (sids : list string) (t : Txn) : GTID :=
  {| SID := default "" (sids !! Z.to_nat (Txn_SID t)); GNO := Txn_GNO t |}.

Definition gtids (x : FileIndex) : list GTID := map (txn_gtid (SIDs x)) (Txns x).

(** [sids]: the position of each source identifier in [SIDs]. *)
Record IndexBuilder : Type := {
  budget : Budget;
  idx : FileIndex;
  sids : gmap string Z;
  open : bool;
  prev_seen : bool
}.

#[export] Instance IndexBuilder_eta : Eta IndexBuilder := fun b =>
  Build_IndexBuilder (budget b) (idx b) (sids b) (open b) (prev_seen b).

Definition NewIndexBuilder (b : Budget) : IndexBuilder :=
  {| budget := b; idx := {| WriterServerID := 0; Previous := ∅; SIDs := []; Txns := []; Index_GTIDs := ∅; EmptyGTIDs := ∅;
                            CommitMin := 0; CommitMax := 0 |};
     sids := ∅; open := false; prev_seen := false |}.

Definition SetWriter (b : IndexBuilder) (serverID : Z) : IndexBuilder := b <| idx := idx b <| WriterServerID := serverID |> |>.

Definition SetPrevious (b : IndexBuilder) (s : Set_) : res plan_error IndexBuilder :=
  if prev_seen b then refuse TokenArchiveObjectInvalid
  else let? bud := chargeSet (budget b) s in
       Ok (b <| prev_seen := true |> <| budget := bud |> <| idx := idx b <| Previous := s |> |>).

Definition closeTxn (b : IndexBuilder) : res plan_error IndexBuilder :=
  if negb (open b) then Ok b
  else
    let b := b <| open := false |> in
    match last (Txns (idx b)) with
    | None => Ok b
    | Some t =>
        if negb (Empty t) then Ok b
        else
          let g := txn_gtid (SIDs (idx b)) t in
          let n := (if bool_decide (is_Some (EmptyGTIDs (idx b) !! SID g)) then 0 else sourceBytes)
                   + (if adjacent (EmptyGTIDs (idx b)) g then 0 else intervalBytes) in
          let? bud := Charge (budget b) n in
          Ok (b <| budget := bud |> <| idx := idx b <| EmptyGTIDs := (add (EmptyGTIDs (idx b)) g).1 |> |>)
    end.

(** The index with the transaction [g] appended; [new]: its source identifier is. *)
Definition append_txn (x : FileIndex) (gs : Set_) (g : GTID) (oct srv sid : Z) (new : bool) : FileIndex :=
  {| WriterServerID := WriterServerID x; Previous := Previous x;
     SIDs := SIDs x ++ (if new then [SID g] else []);
     Txns := Txns x ++ [{| Txn_GNO := GNO g; OCT := oct; Srv := srv; Txn_SID := sid; Flags := TxnEmpty |}];
     Index_GTIDs := gs; EmptyGTIDs := EmptyGTIDs x;
     CommitMin := if (CommitMin x =? 0) || (oct <? CommitMin x) then oct else CommitMin x;
     CommitMax := Z.max (CommitMax x) oct |}.

Definition BeginTxn (b : IndexBuilder) (g : GTID) (oct srv : Z) : res plan_error IndexBuilder :=
  let? b := closeTxn b in
  if (GNO g <=? 0) || (GNO g >? MaxGNO) then refuse TokenReplayUnsupported
  else if oct <=? 0 then refuse TokenReplayUnsupported
  else if Has (Previous (idx b)) g then refuse TokenArchiveNamespaceReuse
  else
    let known := sids b !! SID g in
    let n := TxnBytes + (if bool_decide (is_Some known) then 0 else indexSourceBytes + sidBytes (SID g))
             + (if negb (Has (Index_GTIDs (idx b)) g) && negb (adjacent (Index_GTIDs (idx b)) g) then intervalBytes else 0) in
    let? bud := Charge (budget b) n in
    let '(gs, added) := add (Index_GTIDs (idx b)) g in
    if negb added then refuse TokenArchiveNamespaceReuse
    else
      let fresh := Z.of_nat (length (SIDs (idx b))) mod 2 ^ 32 in
      Ok (b <| budget := bud <| indexed := indexed bud + 1 |> |>
            <| idx := append_txn (idx b) gs g oct srv (default fresh known) (negb (bool_decide (is_Some known))) |>
            <| sids := if bool_decide (is_Some known) then sids b else <[SID g := fresh]> (sids b) |> <| open := true |>).

Definition on_last (f : Txn -> Txn) (l : list Txn) : list Txn :=
  match last l with
  | Some t => removelast l ++ [f t]
  | None => l
  end.

Definition Mark (b : IndexBuilder) (f : Z) : IndexBuilder :=
  if open b then b <| idx := idx b <| Txns := on_last (fun t => t <| Flags := Z.lor (Flags t) f |>) (Txns (idx b)) |> |> else b.

Definition MarkData (b : IndexBuilder) : IndexBuilder :=
  if open b then b <| idx := idx b <| Txns := on_last (fun t => t <| Flags := Z.ldiff (Flags t) TxnEmpty |>) (Txns (idx b)) |> |> else b.

Definition Finish (b : IndexBuilder) : res plan_error FileIndex :=
  let? b := closeTxn b in
  if negb (prev_seen b) then refuse TokenArchiveObjectInvalid else Ok (idx b).

(** What the index pass reports. A GTID event before PREVIOUS_GTIDS makes the file
    invalid ([txIndexer] in [internal/sidecar/binlog_txindex.go]). *)
Inductive index_event : Type :=
| FormatDescription (serverID : Z)
| PreviousGTIDs (s : Set_)
| GTIDEvent (g : GTID) (oct srv : Z)
| DataEvent
| FlagEvent (f : Z).

Definition index_step (b : IndexBuilder) (e : index_event) : res plan_error IndexBuilder :=
  match e with
  | FormatDescription srv => Ok (SetWriter b srv)
  | PreviousGTIDs s => SetPrevious b s
  | GTIDEvent g oct srv => if prev_seen b then BeginTxn b g oct srv else refuse TokenArchiveObjectInvalid
  | DataEvent => Ok (MarkData b)
  | FlagEvent f => Ok (Mark b f)
  end.

Definition index_file (b : Budget) (es : list index_event) : res plan_error FileIndex :=
  let? b := res_fold index_step es (NewIndexBuilder b) in Finish b.

End Index.

Import Plan Index.

(** ** Sets as the transactions they hold *)

Definition holds (s : Set_) (g : GTID) : Prop := mem s (SID g) (GNO g).

Lemma holds_mem s sid n : mem s sid n <-> holds s {| SID := sid; GNO := n |}.
Proof. done. Qed.

Lemma holds_empty g : ~ holds ∅ g.
Proof. unfold holds, mem, at_. rewrite lookup_empty. apply ivs_has_nil. Qed.

Lemma holds_Union s o g : canonical s -> canonical o -> holds (Union s o) g <-> holds s g \/ holds o g.
Proof. intros Hs Ho. by apply Union_spec. Qed.

Lemma holds_Subtract s o g : canonical s -> canonical o -> holds (Subtract_ s o) g <-> holds s g /\ ~ holds o g.
Proof. intros Hs Ho. by apply Subtract_spec. Qed.

Lemma holds_Intersect s o g : canonical s -> canonical o -> holds (Intersect s o) g <-> holds s g /\ holds o g.
Proof. intros Hs Ho. by apply Intersect_spec. Qed.

Lemma canonical_Union s o : canonical s -> canonical o -> canonical (Union s o).
Proof. intros Hs Ho. by apply Union_spec. Qed.

Lemma canonical_Subtract s o : canonical s -> canonical o -> canonical (Subtract_ s o).
Proof. intros Hs Ho. by apply Subtract_spec. Qed.

Lemma canonical_Intersect s o : canonical s -> canonical o -> canonical (Intersect s o).
Proof. intros Hs Ho. by apply Intersect_spec. Qed.

Lemma canonical_empty : canonical ∅.
Proof. intros sid l. by rewrite lookup_empty. Qed.

Lemma holds_add s g h : canonical s -> 1 <= GNO g <= MaxGNO -> holds (add s g).1 h <-> holds s h \/ h = g.
Proof.
  intros Hs Hg. destruct (add_spec s g Hs Hg) as (_ & _ & H). unfold holds. rewrite H.
  destruct g, h; simpl. split; intros [?|Heq]; auto; right; [by destruct Heq as [-> ->]|by injection Heq as -> ->].
Qed.

Lemma canonical_add s g : canonical s -> 1 <= GNO g <= MaxGNO -> canonical (add s g).1.
Proof. intros Hs Hg. by apply add_spec. Qed.

Lemma Has_holds s g : canonical s -> Has s g = true <-> holds s g.
Proof. apply Has_mem. Qed.

Lemma holds_ext s o : canonical s -> canonical o -> (forall g, holds s g <-> holds o g) -> s = o.
Proof. intros Hs Ho H. apply canonical_ext; [done..|]. intros sid n. apply (H {| SID := sid; GNO := n |}). Qed.

#[export] Hint Resolve canonical_Union canonical_Subtract canonical_Intersect canonical_empty canonical_add : go_list.

(** ** Well-formed indexes *)

(** The index of one file: its sets hold exactly its transactions, none repeats or is in
    the file's own Previous_gtids, and its bounds are attained. *)
Record index_wf (x : FileIndex) : Prop := {
  wf_gtids : forall g, holds (Index_GTIDs x) g <-> g ∈ gtids x;
  wf_canonical : canonical (Index_GTIDs x) /\ canonical (EmptyGTIDs x) /\ canonical (Previous x);
  wf_nodup : NoDup (gtids x);
  wf_fresh : forall g, g ∈ gtids x -> ~ holds (Previous x) g;
  wf_empty : forall g, holds (EmptyGTIDs x) g <-> exists t, t ∈ Txns x /\ Empty t = true /\ txn_gtid (SIDs x) t = g;
  wf_range : forall g, g ∈ gtids x -> 1 <= GNO g <= MaxGNO;
  wf_bounds : forall t, t ∈ Txns x -> 0 < CommitMin x <= OCT t /\ OCT t <= CommitMax x;
  wf_attained : Txns x <> [] -> (exists t, t ∈ Txns x /\ OCT t = CommitMin x) /\ (exists t, t ∈ Txns x /\ OCT t = CommitMax x)
}.

(** The transactions whose emptiness is settled: not the open one. *)
Definition settled (b : IndexBuilder) : list Txn := if open b then removelast (Txns (idx b)) else Txns (idx b).

Definition sid_ok_in (l : list string) (t : Txn) : Prop := 0 <= Txn_SID t < Z.of_nat (length l).

Record builder_wf (b : IndexBuilder) : Prop := {
  b_gtids : forall g, holds (Index_GTIDs (idx b)) g <-> g ∈ gtids (idx b);
  b_canonical : canonical (Index_GTIDs (idx b)) /\ canonical (EmptyGTIDs (idx b)) /\ canonical (Previous (idx b));
  b_nodup : NoDup (gtids (idx b));
  b_fresh : forall g, g ∈ gtids (idx b) -> ~ holds (Previous (idx b)) g;
  b_empty : forall g, holds (EmptyGTIDs (idx b)) g <-> exists t, t ∈ settled b /\ Empty t = true /\ txn_gtid (SIDs (idx b)) t = g;
  b_range : forall g, g ∈ gtids (idx b) -> 1 <= GNO g <= MaxGNO;
  b_bounds : forall t, t ∈ Txns (idx b) -> 0 < CommitMin (idx b) <= OCT t /\ OCT t <= CommitMax (idx b);
  b_attained : Txns (idx b) <> [] ->
    (exists t, t ∈ Txns (idx b) /\ OCT t = CommitMin (idx b)) /\ (exists t, t ∈ Txns (idx b) /\ OCT t = CommitMax (idx b));
  b_none : Txns (idx b) = [] -> CommitMin (idx b) = 0 /\ CommitMax (idx b) = 0;
  b_sids : forall s k, sids b !! s = Some k <-> 0 <= k /\ SIDs (idx b) !! Z.to_nat k = Some s;
  b_in : Forall (sid_ok_in (SIDs (idx b))) (Txns (idx b));
  b_short : (length (SIDs (idx b)) <= length (Txns (idx b)))%nat;
  b_open : open b = true -> Txns (idx b) <> [];
  b_unseen : prev_seen b = false -> Txns (idx b) = []
}.

Lemma txn_gtid_app l k t : sid_ok_in l t -> txn_gtid (l ++ k) t = txn_gtid l t.
Proof. intros [H1 H2]. unfold txn_gtid. rewrite lookup_app_l by lia. done. Qed.

Lemma map_gtid_app l k ts : Forall (sid_ok_in l) ts -> map (txn_gtid (l ++ k)) ts = map (txn_gtid l) ts.
Proof. induction 1 as [|t ts H _ IH]; simpl; [done|]. by rewrite IH, txn_gtid_app. Qed.

Lemma last_snoc_split {A} (l : list A) x : last l = Some x -> l = removelast l ++ [x].
Proof.
  intros H. destruct l as [|a l] using rev_ind; [done|]. rewrite last_snoc in H. injection H as ->. by rewrite removelast_last.
Qed.

Lemma closeTxn_wf b b' : builder_wf b -> closeTxn b = Ok b' ->
  builder_wf b' /\ open b' = false /\ idx b' = idx b <| EmptyGTIDs := EmptyGTIDs (idx b') |> /\ sids b' = sids b
  /\ prev_seen b' = prev_seen b.
Proof.
  intros W. unfold closeTxn. destruct (open b) eqn:Eo; simpl; [|intros [= <-]; by destruct b as [? [] ? ? ?]].
  destruct (last (Txns (idx b))) as [t|] eqn:El; [|by destruct (b_open b W Eo); apply last_None].
  pose proof (last_snoc_split _ _ El) as Hl.
  assert (forall e, (forall g, holds e g <-> holds (EmptyGTIDs (idx b)) g \/ (Empty t = true /\ txn_gtid (SIDs (idx b)) t = g)) ->
    forall g, holds e g <-> exists u, u ∈ Txns (idx b) /\ Empty u = true /\ txn_gtid (SIDs (idx b)) u = g) as Hsettle.
  { intros e He g. rewrite He, (b_empty b W). unfold settled. rewrite Eo.
    generalize dependent (removelast (Txns (idx b))). intros l ->. setoid_rewrite elem_of_app. setoid_rewrite list_elem_of_singleton.
    split; [intros [(u & H1 & H2 & H3)|[H1 H2]]; [exists u|exists t]; auto|intros (u & [H1| ->] & H2 & H3); eauto]. }
  destruct (Empty t) eqn:Ee; simpl; intros E.
  - destruct (Charge _ _) as [bud|]; simpl in E; [|done]. injection E as <-.
    assert (t ∈ Txns (idx b)) as Ht by (rewrite Hl; apply elem_of_app; right; by left).
    assert (1 <= GNO (txn_gtid (SIDs (idx b)) t) <= MaxGNO) as Hg by (apply (b_range b W), elem_of_map; by exists t).
    destruct (b_canonical b W) as (C1 & C2 & C3).
    split; [|done]. destruct W. constructor; simpl; try done.
    + split; [done|]. split; [by apply canonical_add|done].
    + apply Hsettle. intros g. rewrite holds_add by done. rewrite (eq_comm g). tauto.
  - injection E as <-. split; [|by destruct b as [? [] ? ? ?]]. destruct W. constructor; simpl; try done.
    apply Hsettle. intros g. intuition congruence.
Qed.

(** Appending the transaction [g] under the identifier [k]. *)
Lemma append_gtids l ts t g (Hin : Forall (sid_ok_in l) ts) (k : list string) :
  txn_gtid (l ++ k) t = g -> map (txn_gtid (l ++ k)) (ts ++ [t]) = map (txn_gtid l) ts ++ [g].
Proof. intros H. by rewrite map_app, map_gtid_app, <- H. Qed.

Lemma bounds_snoc ts t lo hi :
  (forall u, u ∈ ts -> 0 < lo <= OCT u /\ OCT u <= hi) -> (ts = [] -> lo = 0 /\ hi = 0) -> 0 < OCT t ->
  (ts <> [] -> (exists u, u ∈ ts /\ OCT u = lo) /\ (exists u, u ∈ ts /\ OCT u = hi)) ->
  let lo' := if (lo =? 0) || (OCT t <? lo) then OCT t else lo in let hi' := Z.max hi (OCT t) in
  (forall u, u ∈ ts ++ [t] -> 0 < lo' <= OCT u /\ OCT u <= hi')
  /\ (exists u, u ∈ ts ++ [t] /\ OCT u = lo') /\ (exists u, u ∈ ts ++ [t] /\ OCT u = hi').
Proof.
  intros Hb Hn Ht Ha lo' hi'. unfold lo', hi'. setoid_rewrite elem_of_app. setoid_rewrite list_elem_of_singleton.
  destruct ts as [|u0 ts].
  - destruct Hn as [-> ->]; [done|]. simpl. rewrite Z.max_r by lia.
    split; [intros u [[]%not_elem_of_nil| ->]; lia|split; exists t; auto].
  - destruct Ha as [(a & Ha & Ea) (z & Hz & Ez)]; [done|]. pose proof (Hb a Ha) as Hpos.
    rewrite (proj2 (Z.eqb_neq lo 0)) by lia. simpl.
    split; [|split].
    + intros u [Hu| ->]; [pose proof (Hb u Hu)|]; destruct (Z.ltb_spec (OCT t) lo); lia.
    + destruct (OCT t <? lo); [by exists t; auto|by exists a; auto].
    + destruct (Z.max_spec hi (OCT t)) as [[_ ->]|[_ ->]]; [by exists t; auto|by exists z; auto].
Qed.

(** [b'] holds one transaction more than [b], as the event announced it. *)
Definition began (b b' : IndexBuilder) (g : GTID) (oct srv : Z) : Prop :=
  open b' = true /\ Previous (idx b') = Previous (idx b) /\ (exists k, SIDs (idx b') = SIDs (idx b) ++ k)
  /\ exists t, Txns (idx b') = Txns (idx b) ++ [t] /\ txn_gtid (SIDs (idx b')) t = g /\ OCT t = oct /\ Srv t = srv /\ Flags t = TxnEmpty.

Lemma BeginTxn_wf b g oct srv b' : builder_wf b -> prev_seen b = true -> Z.of_nat (length (Txns (idx b))) < 2 ^ 32 - 1 ->
  BeginTxn b g oct srv = Ok b' ->
  builder_wf b' /\ prev_seen b' = true /\ length (Txns (idx b')) = S (length (Txns (idx b))) /\ began b b' g oct srv.
Proof.
  intros W Hprev Hlen. unfold BeginTxn. destruct (closeTxn b) as [c|] eqn:Ec; simpl; [|done].
  destruct (closeTxn_wf b c W Ec) as (Wc & Ho & Hi & Hs & Hp). rewrite Hprev in Hp.
  assert (forall b', began c b' g oct srv -> began b b' g oct srv) as Hbegan by (intros d; unfold began; by rewrite Hi).
  assert (Txns (idx c) = Txns (idx b)) as Htx by (by rewrite Hi). rewrite <- Htx in *. clear W Ec Hi Hs Htx.
  destruct (_ || _) eqn:Eg; [done|]. destruct (oct <=? 0) eqn:Eoct; [done|].
  destruct (Has (Previous (idx c)) g) eqn:Eh; [done|].
  destruct (Charge _ _) as [bud|]; simpl; [|done].
  apply orb_false_elim in Eg as [E1%Z.leb_gt E2]. rewrite Z.gtb_ltb in E2. apply Z.ltb_ge in E2. apply Z.leb_gt in Eoct.
  destruct (b_canonical c Wc) as (C1 & C2 & C3). assert (1 <= GNO g <= MaxGNO) as Hg by lia.
  destruct (add_spec (Index_GTIDs (idx c)) g C1 Hg) as (A1 & A2 & _).
  pose proof (fun h => holds_add (Index_GTIDs (idx c)) g h C1 Hg) as A3.
  destruct (add (Index_GTIDs (idx c)) g) as [gs added]. simpl in A1, A2, A3. subst added. rewrite negb_involutive.
  destruct (Has (Index_GTIDs (idx c)) g) eqn:Ehg; [done|].
  assert (g ∉ gtids (idx c)) as Hnew.
  { intros H%(b_gtids c Wc)%Has_holds; [|done]. congruence. }
  assert (~ holds (Previous (idx c)) g) as Hfresh by (intros H%Has_holds; [congruence|done]).
  set (known := sids c !! SID g). set (fresh := Z.of_nat (length (SIDs (idx c))) mod 2 ^ 32).
  pose proof (b_short c Wc) as Hshort.
  assert (fresh = Z.of_nat (length (SIDs (idx c)))) as Hfr by (unfold fresh; rewrite Z.mod_small; lia).
  set (new := negb (bool_decide (is_Some known))). set (x := append_txn _ _ _ _ _ _ new).
  set (t := {| Txn_GNO := GNO g; OCT := oct; Srv := srv; Txn_SID := default fresh known; Flags := TxnEmpty |}).
  assert (txn_gtid (SIDs x) t = g /\ sid_ok_in (SIDs x) t) as [Ht Hok].
  { unfold x, new, txn_gtid, sid_ok_in, t, known. simpl. rewrite Hfr. destruct g as [sid gno]. simpl in *.
    destruct (sids c !! sid) as [i|] eqn:Es; simpl.
    - apply (b_sids c Wc) in Es as [Hi Es]. rewrite app_nil_r, Es. pose proof (lookup_lt_Some _ _ _ Es). split; [done|lia].
    - rewrite Nat2Z.id, lookup_app_r, Nat.sub_diag, length_app by lia. split; [done|]. simpl. lia. }
  assert (gtids x = gtids (idx c) ++ [g]) as Hx by (apply append_gtids; [apply (b_in c Wc)|exact Ht]).
  destruct (bounds_snoc (Txns (idx c)) t (CommitMin (idx c)) (CommitMax (idx c)) (b_bounds c Wc) (b_none c Wc) Eoct (b_attained c Wc))
    as (B1 & B2 & B3).
  intros [= <-]. split; [|split; [exact Hp|split; [simpl; rewrite length_app; simpl; lia|]]]; cycle 1.
  { apply Hbegan. split; [done|]. split; [done|]. split; [by eexists|]. by exists t. }
  constructor; simpl; try done.
  - intros h. rewrite A3, Hx, elem_of_app, list_elem_of_singleton. by rewrite (b_gtids c Wc).
  - rewrite Hx. apply NoDup_app. split; [apply Wc|]. split; [|apply NoDup_singleton].
    intros h Hh ->%list_elem_of_singleton. done.
  - intros h. rewrite Hx, elem_of_app, list_elem_of_singleton. intros [Hh| ->]; [by apply Wc|done].
  - intros h. rewrite (b_empty c Wc). unfold settled. rewrite Ho. simpl. rewrite removelast_last.
    split; intros (u & Hu & He & Hg'); exists u; split; [done| |done|]; (split; [done|]); rewrite <- Hg'.
    + apply txn_gtid_app. revert Hu. apply Forall_forall, Wc.
    + symmetry. apply txn_gtid_app. revert Hu. apply Forall_forall, Wc.
  - intros h. rewrite Hx, elem_of_app, list_elem_of_singleton. intros [Hh| ->]; [by apply Wc|done].
  - by intros []%app_eq_nil.
  - intros s k. unfold new, known. destruct (sids c !! SID g) as [i|] eqn:Es; simpl; [by rewrite app_nil_r; apply Wc|].
    rewrite Hfr. assert (forall j, SIDs (idx c) !! j <> Some (SID g)) as Hno.
    { intros j Hj. assert (sids c !! SID g = Some (Z.of_nat j)) by (apply Wc; rewrite Nat2Z.id; split; [lia|done]). congruence. }
    destruct (decide (s = SID g)) as [->|Hne].
    + rewrite lookup_insert_eq. split; [intros [= <-]; rewrite Nat2Z.id, lookup_app_r, Nat.sub_diag by lia; split; [lia|done]|].
      intros [Hk Hl]. apply lookup_app_Some in Hl as [Hl|[Hl Hl']]; [by destruct (Hno _ Hl)|].
      apply list_lookup_singleton_Some in Hl' as [Hl' _]. f_equal. lia.
    + rewrite lookup_insert_ne by done. rewrite (b_sids c Wc). split; intros [Hk Hl]; (split; [done|]).
      * by apply lookup_app_l_Some.
      * apply lookup_app_Some in Hl as [Hl|[_ Hl']]; [done|]. apply list_lookup_singleton_Some in Hl' as [_ Hl']. congruence.
  - apply Forall_app. split; [|by apply Forall_singleton]. eapply Forall_impl; [apply (b_in c Wc)|].
    intros u [Hu1 Hu2]. split; [done|]. rewrite length_app. lia.
  - rewrite !length_app. simpl. destruct new; simpl; lia.
  - by intros _ []%app_eq_nil.
  - congruence.
Qed.

(** What [Mark] and [MarkData] keep. *)
Definition same_txn (f : Txn -> Txn) : Prop := forall t, Txn_GNO (f t) = Txn_GNO t /\ OCT (f t) = OCT t /\ Txn_SID (f t) = Txn_SID t.

Lemma same_gtid f l t : same_txn f -> txn_gtid l (f t) = txn_gtid l t.
Proof. intros H. destruct (H t) as (E1 & _ & E3). unfold txn_gtid. by rewrite E1, E3. Qed.

Lemma reflag_wf b f : same_txn f -> builder_wf b -> open b = true ->
  let b' := b <| idx := idx b <| Txns := on_last f (Txns (idx b)) |> |> in
  builder_wf b' /\ length (Txns (idx b')) = length (Txns (idx b)).
Proof.
  intros Hf W Ho b'. destruct (last (Txns (idx b))) as [t|] eqn:El; [|by destruct (b_open b W Ho); apply last_None].
  pose proof (last_snoc_split _ _ El) as Hl. set (l := removelast (Txns (idx b))) in *.
  assert (Txns (idx b') = l ++ [f t]) as Hl' by (unfold b', on_last; simpl; by rewrite El).
  assert (gtids (idx b') = gtids (idx b)) as Hg.
  { unfold gtids. rewrite Hl', Hl, !map_app. simpl. by rewrite same_gtid. }
  assert (settled b' = settled b) as Hs.
  { unfold settled. rewrite Hl'. unfold b'. simpl. rewrite Ho, removelast_last. done. }
  assert (forall P : Z -> Prop, (forall u, u ∈ Txns (idx b) -> P (OCT u)) -> forall u, u ∈ Txns (idx b') -> P (OCT u)) as Hall.
  { intros P HP u. rewrite Hl', elem_of_app, list_elem_of_singleton. rewrite Hl in HP. setoid_rewrite elem_of_app in HP.
    intros [Hu| ->]; [by apply HP; left|]. destruct (Hf t) as (_ & -> & _). apply HP. right. by left. }
  assert (forall z, (exists u, u ∈ Txns (idx b) /\ OCT u = z) -> exists u, u ∈ Txns (idx b') /\ OCT u = z) as Hex.
  { intros z (u & Hu & <-). rewrite Hl in Hu. rewrite Hl'. setoid_rewrite elem_of_app.
    apply elem_of_app in Hu as [Hu|Hu%list_elem_of_singleton]; [by exists u; auto|]. subst u.
    exists (f t). destruct (Hf t) as (_ & -> & _). split; [right; by left|done]. }
  destruct W. split; [|rewrite Hl', Hl, !length_app; done].
  constructor; rewrite ?Hg, ?Hs; try assumption.
  - by apply (Hall (fun z => 0 < CommitMin (idx b) <= z /\ z <= CommitMax (idx b))).
  - intros _. destruct b_attained0 as [H1 H2]; [by apply b_open0|]. split; by apply Hex.
  - intros H. rewrite Hl' in H. by apply app_eq_nil in H as [_ ?].
  - rewrite Hl'. rewrite Hl in b_in0. apply Forall_app in b_in0 as [H1 [H2 _]%Forall_cons].
    apply Forall_app. split; [exact H1|]. apply Forall_singleton. unfold sid_ok_in in *. destruct (Hf t) as (_ & _ & ->). exact H2.
  - rewrite Hl'. rewrite Hl in b_short0. rewrite length_app in *. done.
  - intros _ H. rewrite Hl' in H. by apply app_eq_nil in H as [_ ?].
  - intros H. rewrite Hl' in *. destruct (b_open0 Ho). by apply b_unseen0.
Qed.

Lemma new_builder_wf bud : builder_wf (NewIndexBuilder bud).
Proof.
  constructor; simpl; try done.
  - intros g. split; [intros []%holds_empty|intros []%not_elem_of_nil].
  - constructor.
  - intros g []%not_elem_of_nil.
  - intros g. split; [intros []%holds_empty|intros (t & []%not_elem_of_nil & _)].
  - intros g []%not_elem_of_nil.
  - intros t []%not_elem_of_nil.
  - intros s k. rewrite lookup_empty, lookup_nil. split; [done|by intros []].
Qed.

(** The sets an event carries were parsed. *)
Definition event_ok (e : index_event) : Prop := match e with PreviousGTIDs s => canonical s | _ => True end.

Lemma index_step_wf b e b' : event_ok e -> builder_wf b -> Z.of_nat (length (Txns (idx b))) < 2 ^ 32 - 1 ->
  index_step b e = Ok b' -> builder_wf b' /\ (length (Txns (idx b')) <= S (length (Txns (idx b))))%nat.
Proof.
  intros He W Hlen. destruct e as [srv|s|g oct srv| |f]; simpl.
  - intros [= <-]. split; [|by simpl; lia]. by destruct W; constructor.
  - unfold SetPrevious. destruct (prev_seen b) eqn:Ep; [done|]. destruct (chargeSet _ _) as [bud|]; simpl; [|done].
    intros [= <-]. split; [|by simpl; lia]. pose proof (b_unseen b W Ep) as Hn. destruct W. constructor; simpl; try done.
    + by destruct b_canonical0 as (? & ? & _).
    + unfold gtids. simpl. rewrite Hn. intros g []%not_elem_of_nil.
  - destruct (prev_seen b) eqn:Ep; [|done]. intros E. destruct (BeginTxn_wf b g oct srv b' W Ep Hlen E) as (W' & _ & -> & _). split; [done|lia].
  - intros [= <-]. unfold MarkData. destruct (open b) eqn:Eo; [|split; [done|lia]].
    destruct (reflag_wf b (fun t => t <| Flags := Z.ldiff (Flags t) TxnEmpty |>)) as [W' ->]; [done..|]. split; [done|lia].
  - intros [= <-]. unfold Mark. destruct (open b) eqn:Eo; [|split; [done|lia]].
    destruct (reflag_wf b (fun t => t <| Flags := Z.lor (Flags t) f |>)) as [W' ->]; [done..|]. split; [done|lia].
Qed.

Lemma index_steps_wf es : forall b b', Forall event_ok es -> builder_wf b ->
  Z.of_nat (length (Txns (idx b))) + Z.of_nat (length es) < 2 ^ 32 -> res_fold index_step es b = Ok b' -> builder_wf b'.
Proof.
  induction es as [|e es IH]; intros b b' He W Hlen E; [by injection E as <-|].
  cbn [res_fold] in E. rewrite length_cons in Hlen. apply Forall_cons in He as [He Hes]. destruct (index_step b e) as [c|] eqn:Ec; simpl in E; [|done].
  destruct (index_step_wf b e c He W ltac:(lia) Ec) as [Wc Hc]. apply (IH c); [done..|lia|done].
Qed.

Lemma index_file_wf b es x : Forall event_ok es -> Z.of_nat (length es) < 2 ^ 32 -> index_file b es = Ok x -> index_wf x.
Proof.
  intros He Hlen. unfold index_file. destruct (res_fold _ _ _) as [b1|] eqn:E1; simpl; [|done].
  assert (builder_wf b1) as W by by (apply (index_steps_wf es (NewIndexBuilder b)); [done|apply new_builder_wf|exact Hlen|done]).
  unfold Finish. destruct (closeTxn b1) as [b2|] eqn:E2; simpl; [|done]. destruct (negb _); [done|]. intros [= <-].
  destruct (closeTxn_wf b1 b2 W E2) as ([] & Ho & _). constructor; try done.
  unfold settled in b_empty0. by rewrite Ho in b_empty0.
Qed.


(** ** The index against the events *)

(** The events up to the next transaction. *)
Fixpoint until_next (es : list index_event) : list index_event :=
  match es with
  | [] | GTIDEvent _ _ _ :: _ => []
  | e :: es => e :: until_next es
  end.

(** The transactions the events announce: GTID, commit time, server and events. *)
Fixpoint txns_of (es : list index_event) : list (GTID * Z * Z * list index_event) :=
  match es with
  | [] => []
  | GTIDEvent g oct srv :: es => (g, oct, srv, until_next es) :: txns_of es
  | _ :: es => txns_of es
  end.

Definition flag_step (f : Z) (e : index_event) : Z :=
  match e with
  | DataEvent => Z.ldiff f TxnEmpty
  | FlagEvent k => Z.lor f k
  | _ => f
  end.

Definition flags_of (evs : list index_event) : Z := fold_left flag_step evs TxnEmpty.

Definition is_txn (e : index_event) : bool := match e with GTIDEvent _ _ _ => true | _ => false end.

Definition with_event (e : index_event) (l : list (GTID * Z * Z * list index_event)) : list (GTID * Z * Z * list index_event) :=
  match last l with
  | Some (g, oct, srv, evs) => removelast l ++ [(g, oct, srv, evs ++ [e])]
  | None => l
  end.

Lemma until_next_snoc es e : until_next (es ++ [e]) = until_next es ++ (if existsb is_txn es || is_txn e then [] else [e]).
Proof. induction es as [|x es IH]; [by destruct e|]. destruct x; cbn; rewrite ?IH; done. Qed.

Lemma txns_of_nil es : txns_of es = [] <-> existsb is_txn es = false.
Proof. induction es as [|[] es IH]; cbn; done. Qed.

Lemma txns_of_begin es g oct srv : txns_of (es ++ [GTIDEvent g oct srv]) = txns_of es ++ [(g, oct, srv, [])].
Proof. induction es as [|x es IH]; [done|]. destruct x; cbn; rewrite ?IH; try done. by rewrite until_next_snoc, orb_true_r, app_nil_r. Qed.

Lemma txns_of_event es e : is_txn e = false -> txns_of (es ++ [e]) = with_event e (txns_of es).
Proof.
  intros He. induction es as [|x es IH]; [by destruct e|]. destruct x; cbn; try exact IH.
  rewrite IH, until_next_snoc, He, orb_false_r. unfold with_event. destruct (txns_of es) as [|y l] eqn:E.
  - apply txns_of_nil in E as ->. done.
  - destruct (existsb is_txn es) eqn:Ex; [|apply txns_of_nil in Ex; congruence]. rewrite app_nil_r.
    change (last ((g, oct, srv, until_next es) :: y :: l)) with (last (y :: l)). destruct (last (y :: l)) as [[[[? ?] ?] ?]|]; done.
Qed.

(** The transaction as its events describe it. *)
Definition described (l : list string) (t : Txn) (i : GTID * Z * Z * list index_event) : Prop :=
  let '(g, oct, srv, evs) := i in txn_gtid l t = g /\ OCT t = oct /\ Srv t = srv /\ Flags t = flags_of evs.

(** What the builder holds after the events [es]. *)
Record reads (es : list index_event) (b : IndexBuilder) : Prop := {
  rd_txns : Forall2 (described (SIDs (idx b))) (Txns (idx b)) (txns_of es);
  rd_open : Txns (idx b) <> [] -> open b = true;
  rd_prev : prev_seen b = true -> PreviousGTIDs (Previous (idx b)) ∈ es
}.

Lemma reads_reflag es e f b : is_txn e = false -> (forall t, f t = t <| Flags := flag_step (Flags t) e |>) -> reads es b ->
  reads (es ++ [e]) (b <| idx := idx b <| Txns := on_last f (Txns (idx b)) |> |>).
Proof.
  intros He Hf [H1 H2 H3]. constructor; cbn; [|intros H; apply H2; by intros E; rewrite E in H|intros H; apply elem_of_app; left; by apply H3].
  rewrite txns_of_event by done. unfold on_last, with_event. destruct (last (Txns (idx b))) as [t|] eqn:El.
  - pose proof (last_snoc_split _ _ El) as Hl. rewrite Hl in H1. apply Forall2_app_inv_l in H1 as (l1 & l2 & H1 & Hx & El2).
    inversion Hx as [|? [[[g oct] srv] evs] ? ? Hd Hn]; subst. inversion Hn; subst. rewrite El2, last_snoc, removelast_last.
    apply Forall2_app; [exact H1|]. constructor; [|constructor]. destruct Hd as (D1 & D2 & D3 & D4). rewrite Hf.
    unfold described, flags_of in *. rewrite fold_left_app, <- D4. done.
  - apply last_None in El. rewrite El in *. inversion H1. done.
Qed.

Lemma reads_begin es b g oct srv b' : builder_wf b -> prev_seen b = true -> Z.of_nat (length (Txns (idx b))) < 2 ^ 32 - 1 ->
  reads es b -> BeginTxn b g oct srv = Ok b' -> reads (es ++ [GTIDEvent g oct srv]) b'.
Proof.
  intros W Hp Hlen [H1 H2 H3] E.
  destruct (BeginTxn_wf b g oct srv b' W Hp Hlen E) as (_ & _ & _ & Ho & Hprev & [k Hk] & t & Ht & D1 & D2 & D3 & D4).
  constructor; [|done|intros _; rewrite Hprev; apply elem_of_app; left; by apply H3].
  rewrite txns_of_begin, Ht. apply Forall2_app; [|by repeat constructor].
  pose proof (b_in b W) as Hin. rewrite Hk. revert H1 Hin. generalize (txns_of es). generalize (Txns (idx b)). intros l l'.
  induction 1 as [|u i us is_ Hd _ IH]; [constructor|]. intros [Hu Hus]%Forall_cons. constructor; [|by apply IH].
  destruct i as [[[g' oct'] srv'] evs]. unfold described in *. by rewrite txn_gtid_app.
Qed.

Lemma described_inert l ts is_ e : (forall f, flag_step f e = f) -> Forall2 (described l) ts is_ -> Forall2 (described l) ts (with_event e is_).
Proof.
  intros He H. unfold with_event. destruct (last is_) as [[[[g oct] srv] evs]|] eqn:El; [|done].
  rewrite (last_snoc_split _ _ El) in H. apply Forall2_app_inv_r in H as (l1 & l2 & H1 & Hx & ->). apply Forall2_app; [exact H1|].
  inversion Hx as [|t ? ? ? Hd Hn]; subst. inversion Hn; subst. constructor; [|constructor].
  unfold described, flags_of in *. rewrite fold_left_app. cbn. by rewrite He.
Qed.

Lemma reads_inert es e b b' : is_txn e = false -> (forall f, flag_step f e = f) -> reads es b ->
  Txns (idx b') = Txns (idx b) -> SIDs (idx b') = SIDs (idx b) -> open b' = open b ->
  (prev_seen b' = true -> PreviousGTIDs (Previous (idx b')) ∈ es ++ [e]) -> reads (es ++ [e]) b'.
Proof.
  intros He Hf [H1 H2 H3] E1 E2 E3 Hp. constructor; rewrite ?E1, ?E2, ?E3; [|done|done]. rewrite txns_of_event by done. by apply described_inert.
Qed.

Lemma reads_step es b e b' : builder_wf b -> Z.of_nat (length (Txns (idx b))) < 2 ^ 32 - 1 -> reads es b -> index_step b e = Ok b' -> reads (es ++ [e]) b'.
Proof.
  intros W Hlen R. assert (open b = false -> is_txn e = false -> reads (es ++ [e]) b) as Hclosed.
  { intros Ho He. destruct R as [H1 H2 H3]. assert (Txns (idx b) = []) as Hn by (destruct (Txns (idx b)); [done|]; by rewrite H2 in Ho).
    rewrite Hn in H1. apply Forall2_nil_inv_l in H1. constructor; [|by rewrite Hn|intros Hp; apply elem_of_app; left; by apply H3].
    rewrite txns_of_event, H1, Hn by done. constructor. }
  destruct e as [srv|s|g oct srv| |f]; simpl.
  - intros [= <-]. apply (reads_inert es _ b); try done. intros H. apply elem_of_app. left. by apply (rd_prev _ _ R).
  - unfold SetPrevious. destruct (prev_seen b); [done|]. destruct (chargeSet _ _) as [bud|]; simpl; [|done].
    intros [= <-]. apply (reads_inert es _ b); try done. intros _. apply elem_of_app. right. by left.
  - destruct (prev_seen b) eqn:Ep; [|done]. by apply reads_begin.
  - intros [= <-]. unfold MarkData. destruct (open b) eqn:Eo; [|by apply Hclosed]. by apply reads_reflag.
  - intros [= <-]. unfold Mark. destruct (open b) eqn:Eo; [|by apply Hclosed]. by apply reads_reflag.
Qed.

Lemma reads_steps es : forall ds b b', Forall event_ok es -> builder_wf b -> Z.of_nat (length (Txns (idx b))) + Z.of_nat (length es) < 2 ^ 32 ->
  reads ds b -> res_fold index_step es b = Ok b' -> reads (ds ++ es) b'.
Proof.
  induction es as [|e es IH]; intros ds b b' He W Hlen R E; [injection E as <-; by rewrite app_nil_r|].
  cbn [res_fold] in E. rewrite length_cons in Hlen. apply Forall_cons in He as [He Hes]. destruct (index_step b e) as [c|] eqn:Ec; simpl in E; [|done].
  destruct (index_step_wf b e c He W ltac:(lia) Ec) as [Wc Hc]. pose proof (reads_step ds b e c W ltac:(lia) R Ec) as Rc.
  change (e :: es) with ([e] ++ es). rewrite (assoc_L (++)). apply (IH (ds ++ [e]) c); try done. lia.
Qed.

(** *** Flags *)

(** The flags the pass raises. *)
Definition flag_ok (e : index_event) : Prop := match e with FlagEvent f => f = TxnXA \/ f = TxnUnsupported | _ => True end.

Lemma bit_raised f n : negb (Z.land f (2 ^ n) =? 0) = true <-> 0 <= n /\ Z.testbit f n = true.
Proof.
  destruct (Z.ltb_spec n 0) as [Hn|Hn]; [rewrite Z.pow_neg_r, Z.land_0_r by done; split; [done|lia]|].
  rewrite negb_true_iff, Z.eqb_neq. split.
  - intros H. split; [done|]. destruct (Z.testbit f n) eqn:E; [done|]. destruct H. apply Z.bits_inj'. intros m Hm.
    rewrite Z.land_spec, Z.bits_0, Z.pow2_bits_eqb by done. destruct (Z.eqb_spec n m); [subst; by rewrite E|apply andb_false_r].
  - intros [_ H] E. apply (f_equal (fun z => Z.testbit z n)) in E. by rewrite Z.land_spec, Z.bits_0, Z.pow2_bits_true, H in E by done.
Qed.

Lemma flag_bits evs : Forall flag_ok evs -> forall f,
  (Z.testbit (fold_left flag_step evs f) 0 = true <-> Z.testbit f 0 = true /\ DataEvent ∉ evs)
  /\ (Z.testbit (fold_left flag_step evs f) 1 = true <-> Z.testbit f 1 = true \/ FlagEvent TxnXA ∈ evs)
  /\ (Z.testbit (fold_left flag_step evs f) 2 = true <-> Z.testbit f 2 = true \/ FlagEvent TxnUnsupported ∈ evs).
Proof.
  induction 1 as [|e evs He _ IH]; intros f; cbn [fold_left].
  - rewrite !elem_of_nil. tauto.
  - destruct (IH (flag_step f e)) as (-> & -> & ->). rewrite !not_elem_of_cons, !elem_of_cons.
    destruct e as [|s|g oct srv| |k]; cbn [flag_step]; try (repeat split; intuition congruence).
    + rewrite !Z.ldiff_spec. change (Z.testbit TxnEmpty 0) with true. change (Z.testbit TxnEmpty 1) with false.
      change (Z.testbit TxnEmpty 2) with false. rewrite !andb_true_r, andb_false_r. intuition congruence.
    + assert (FlagEvent TxnXA <> FlagEvent TxnUnsupported) as Hne by done. assert (FlagEvent TxnUnsupported <> FlagEvent TxnXA) as Hne' by done.
      rewrite !Z.lor_spec. destruct He as [-> | ->].
      * change (Z.testbit TxnXA 0) with false. change (Z.testbit TxnXA 1) with true. change (Z.testbit TxnXA 2) with false.
        rewrite !orb_false_r, orb_true_r. split_and!; [|tauto..]. split; [intros [? ?]; split; [done|by split]|tauto].
      * change (Z.testbit TxnUnsupported 0) with false. change (Z.testbit TxnUnsupported 1) with false. change (Z.testbit TxnUnsupported 2) with true.
        rewrite !orb_false_r, orb_true_r. split_and!; [|tauto..]. split; [intros [? ?]; split; [done|by split]|tauto].
Qed.

(** What the index says of a transaction, in terms of its events. *)
Definition indexed_as (x : FileIndex) (t : Txn) (i : GTID * Z * Z * list index_event) : Prop :=
  let '(g, oct, srv, evs) := i in txn_gtid (SIDs x) t = g /\ OCT t = oct /\ Srv t = srv
  /\ (Empty t = true <-> DataEvent ∉ evs)
  /\ (negb (Z.land (Flags t) TxnXA =? 0) = true <-> FlagEvent TxnXA ∈ evs)
  /\ (negb (Z.land (Flags t) TxnUnsupported =? 0) = true <-> FlagEvent TxnUnsupported ∈ evs).

Lemma until_next_ok es : Forall flag_ok es -> Forall flag_ok (until_next es).
Proof. induction 1 as [|e es He _ IH]; [constructor|]. destruct e; cbn; by constructor. Qed.

Lemma txns_of_ok es : Forall flag_ok es -> Forall (fun i => Forall flag_ok i.2) (txns_of es).
Proof. induction 1 as [|e es He Hes IH]; [constructor|]. destruct e; cbn; try done. constructor; [by apply until_next_ok|done]. Qed.

Lemma described_indexed x t i : Forall flag_ok i.2 -> described (SIDs x) t i -> indexed_as x t i.
Proof.
  destruct i as [[[g oct] srv] evs]. cbn. intros Hf (D1 & D2 & D3 & D4). split; [done|]. split; [done|]. split; [done|].
  destruct (flag_bits evs Hf TxnEmpty) as (B1 & B2 & B3). fold (flags_of evs) in B1, B2, B3. rewrite <- D4 in B1, B2, B3.
  unfold Empty. change TxnEmpty with (2 ^ 0). change TxnXA with (2 ^ 1) at 1. change TxnUnsupported with (2 ^ 2) at 1. rewrite !bit_raised, B1, B2, B3. cbn.
  split_and!; (split; [intros [_ H]|intros H; split; [lia|]]); intuition congruence.
Qed.

(** C39. Indexing a binlog file gives a well-formed index of its events. However the pass over
    the file goes, an index that is returned lists the transactions the GTID events announce, in
    their order, each with its commit time and server; marks empty exactly those without a data
    event before the next, and XA or unsupported those with such an event; holds in its GTID set
    exactly the listed ones, none twice and none of the Previous_gtids read from the file, and in
    its empty set the empty ones; and its commit bounds are attained. *)
Theorem index_file_well_formed b es x : Forall event_ok es -> Forall flag_ok es -> Z.of_nat (length es) < 2 ^ 32 ->
  index_file b es = Ok x ->
  index_wf x /\ Forall2 (indexed_as x) (Txns x) (txns_of es) /\ PreviousGTIDs (Previous x) ∈ es.
Proof.
  intros He Hf Hlen E. split; [by eapply index_file_wf|]. revert E. unfold index_file.
  destruct (res_fold _ _ _) as [b1|] eqn:E1; simpl; [|done].
  assert (builder_wf b1) as W by by apply (index_steps_wf es (NewIndexBuilder b)); [done|apply new_builder_wf|exact Hlen|done].
  apply (reads_steps es [] (NewIndexBuilder b)) in E1 as [H1 _ H3]; [|done|apply new_builder_wf|exact Hlen|by constructor].
  unfold Finish. destruct (closeTxn b1) as [b2|] eqn:E2; simpl; [|done]. destruct (closeTxn_wf b1 b2 W E2) as (_ & _ & Hi & _ & Hp).
  destruct (prev_seen b2) eqn:Ep; simpl; [|done]. intros [= <-]. rewrite Hi. cbn. split; [|by apply H3].
  pose proof (txns_of_ok es Hf) as Hok. cbn in H1. revert Hok. induction H1 as [|t i ts is_ Hd _ IH]; [constructor|].
  intros [Hi' His]%Forall_cons. constructor; [|by apply IH]. by apply (described_indexed (idx b1)) in Hd.
Qed.

(** An index of three transactions, one of them empty. *)
Definition index_demo : list index_event :=
  [FormatDescription 7; PreviousGTIDs plan_a; GTIDEvent {| SID := "aa"; GNO := 9 |} 1000 7; DataEvent;
   GTIDEvent {| SID := "aa"; GNO := 10 |} 1005 7; GTIDEvent {| SID := "bb"; GNO := 1 |} 990 8; DataEvent; FlagEvent TxnXA].

Lemma index_file_well_formed_witness : exists x, index_file (NewBudget 100000) index_demo = Ok x
  /\ (index_wf x /\ Forall2 (indexed_as x) (Txns x) (txns_of index_demo) /\ PreviousGTIDs (Previous x) ∈ index_demo)
  /\ gtids x = [{| SID := "aa"; GNO := 9 |}; {| SID := "aa"; GNO := 10 |}; {| SID := "bb"; GNO := 1 |}]
  /\ GTIDs (EmptyGTIDs x) = [{| SID := "aa"; GNO := 10 |}] /\ (CommitMin x, CommitMax x) = (990, 1005).
Proof.
  eexists. split; [vm_compute; reflexivity|]. split; [|split_and!; reflexivity].
  apply (index_file_well_formed (NewBudget 100000) index_demo); [| |reflexivity|vm_compute; reflexivity];
    repeat (apply Forall_cons; split); try exact I; [apply plan_demo_canonical|apply Forall_nil; exact I|left; reflexivity|apply Forall_nil; exact I].
Defined.
