(* ===== verification/PlanSearch.v ===== *)
(** * The replay plan search

    [internal/pitrplan/search.go]: a 0-1 breadth-first search over the positions of the
    downloaded binlog files. A step inside a file replays or skips one transaction and
    costs nothing; a jump between positions of different files that stand for the same
    executed set costs one. The search starts where the executed set is the backup's
    and ends where it is the target's. *)
From S2P Require Import Prelude GoStd Intervals PlanSet PlanIndex Sha256.

Local Open Scope Z_scope.

Module PlanSearch.

Import Plan Index.

Definition wrapu64 (z : Z) : Z := z mod 2 ^ 64.

(** ** Files *)

Inductive RowState : Type := RowActive | RowQuarantined.

#[export] Instance RowState_eq_dec : EqDecision RowState.
Proof. solve_decision. Defined.

Record RowRef : Type := {
  Row_Site : string;
  Row_Name : string;
  Row_ID : string;
  Row_State : RowState
}.

(** A downloaded row. *)
Record file : Type := {
  row : RowRef;
  f_idx : FileIndex;
  f_prev : Set_;
  f_exec : Set_;
  f_marked : bool
}.

Definition n_txns (f : file) : nat := length (Txns (f_idx f)).

Definition f_gtids (f : file) : list GTID := gtids (f_idx f).

(** ** The position hash *)

(** [binary.LittleEndian.Uint64]. *)
Fixpoint le_uint (bs : list Z) : Z :=
  match bs with
  | [] => 0
  | b :: bs => b + 256 * le_uint bs
  end.

Definition coeffs (sid : string) : Z * Z * Z :=
  let sum := SHA.Sum256 sid in (le_uint (take 8 sum), le_uint (take 8 (drop 8 sum)), le_uint (take 8 (drop 16 sum))).

(** [force]: the hash tests put in its place. *)
Definition hash_override : Type := option (string -> Z -> Z).

Definition term (force : hash_override) (sid : string) (n : Z) : Z :=
  match force with
  | Some h => h sid n
  | None =>
      let '(c0, c1, c2) := coeffs sid in
      let u := wrapu64 n in
      wrapu64 (wrapu64 (c0 + wrapu64 (c1 * u)) + wrapu64 (wrapu64 (c2 * u) * u))
  end.

Definition sum1 (m : Z) : Z :=
  let x := m in let y := wrapu64 (m + 1) in
  if x mod 2 =? 0 then wrapu64 (x / 2 * y) else wrapu64 (x * (y / 2)).

Definition sum2 (m : Z) : Z :=
  let x := m in let y := wrapu64 (m + 1) in let z := wrapu64 (wrapu64 (2 * m) + 1) in
  let '(x, y) := if x mod 2 =? 0 then (x / 2, y) else (x, y / 2) in
  let '(x, y, z) := if x mod 3 =? 0 then (x / 3, y, z) else if y mod 3 =? 0 then (x, y / 3, z) else (x, y, z / 3) in
  wrapu64 (wrapu64 (x * y) * z).

Definition hash_interval (force : hash_override) (sid : string) (x : Interval) : Z :=
  match force with
  | Some h => fold_left (fun total n => wrapu64 (total + h sid n)) (gnos x) 0
  | None =>
      let '(c0, c1, c2) := coeffs sid in
      let a := wrapu64 (Start x) in let b := wrapu64 (End_ x) in
      let len := wrapu64 (wrapu64 (b - a) + 1) in
      let s1 := wrapu64 (sum1 b - sum1 (wrapu64 (a - 1))) in
      let s2 := wrapu64 (sum2 b - sum2 (wrapu64 (a - 1))) in
      wrapu64 (wrapu64 (wrapu64 (c0 * len) + wrapu64 (c1 * s1)) + wrapu64 (c2 * s2))
  end.

Definition hash_set (force : hash_override) (s : Set_) : Z :=
  fold_left (fun total e => wrapu64 (total + hash_interval force e.1 e.2))
    (flat_map (fun e => map (pair e.1) e.2) (map_to_list s)) 0.

(** ** The graph *)

(** A position's hash and count; the position's own step: in the history or excluded. *)
Record searchGraph : Type := {
  files : list file;
  stepOK : list (list bool);
  inX : list (list bool);
  hash : list Z;
  count : list Z;
  class : list (option nat);
  start : list bool;
  goal : list bool;
  members : list (list nat);
  off : list nat
}.

(** [off]: each file's first position, and the number of positions. *)
Fixpoint offsets (from : nat) (fs : list file) : list nat :=
  from :: match fs with
          | [] => []
          | f :: fs => offsets (from + n_txns f + 1) fs
          end.

Definition fileOf (offs : list nat) (v : nat) : nat :=
  Search (length offs - 1) (fun k => (v <? default 0%nat (offs !! S k))%nat).

(** The keys of a file's positions: what is executed there, without [X]. *)
Fixpoint keys_from (X : Set_) (cur : Set_) (gs : list GTID) : list Set_ :=
  cur :: match gs with
         | [] => []
         | g :: gs => keys_from X (if Has X g then cur else (add cur g).1) gs
         end.

Definition file_keys (X : Set_) (f : file) : list Set_ := keys_from X (Subtract_ (f_prev f) X) (f_gtids f).

(** Their running hashes and counts. *)
Fixpoint hashes_from (force : hash_override) (X : Set_) (hv cv : Z) (gs : list GTID) : list (Z * Z) :=
  (hv, cv) :: match gs with
              | [] => []
              | g :: gs => if Has X g then hashes_from force X hv cv gs
                           else hashes_from force X (wrapu64 (hv + term force (SID g) (GNO g))) (wrap64 (cv + 1)) gs
              end.

Definition file_hashes (force : hash_override) (X : Set_) (f : file) : list (Z * Z) :=
  let key := Subtract_ (f_prev f) X in hashes_from force X (hash_set force key) (Count key) (f_gtids f).

(** Runs of equal entries. *)
Fixpoint buckets {A} (same : A -> A -> bool) (fuel : nat) (l : list A) : list (list A) :=
  match fuel, l with
  | S fuel, x :: l =>
      let fix run l := match l with y :: l => if same x y then let '(r, rest) := run l in (y :: r, rest) else ([], y :: l) | [] => ([], []) end in
      let '(r, rest) := run l in (x :: r) :: buckets same fuel rest
  | _, _ => []
  end.

Definition hc_le (hc : list (Z * Z)) (a b : nat) : Prop :=
  let x := default (0, 0) (hc !! a) in let y := default (0, 0) (hc !! b) in
  x.1 < y.1 \/ (x.1 = y.1 /\ (x.2 < y.2 \/ (x.2 = y.2 /\ (a <= b)%nat))).

#[export] Instance hc_le_dec hc : RelDecision (hc_le hc).
Proof. intros a b. unfold hc_le. apply _. Defined.

(** The positions whose exact key is needed: in a bucket over two files, or hashing as
    the backup or the goal does. *)
Definition spanning (offs : list nat) (b : list nat) : bool :=
  match b, last b with
  | x :: _ :: _, Some y => negb (fileOf offs x =? fileOf offs y)%nat
  | _, _ => false
  end.

Definition needed_positions (offs : list nat) (hc : list (Z * Z)) (hB hG : Z * Z) : list bool :=
  let n := length hc in
  let idx := merge_sort (hc_le hc) (seq 0 n) in
  let same a b := bool_decide (default (0, 0) (hc !! a) = default (0, 0) (hc !! b)) in
  let multi := concat (List.filter (spanning offs) (buckets same n idx)) in
  imap (fun v x => bool_decide (v ∈ multi) || bool_decide (x = hB) || bool_decide (x = hG)) hc.

(** The classes of exact keys met so far. *)
Record class_state : Type := {
  cs_charges : charges;
  classes : gmap string nat;
  classFirst : list nat;
  classMulti : list bool;
  cs_class : list (option nat);
  cs_start : list bool;
  cs_goal : list bool
}.

#[export] Instance class_state_eta : Eta class_state := fun s =>
  Build_class_state (cs_charges s) (classes s) (classFirst s) (classMulti s) (cs_class s) (cs_start s) (cs_goal s).

(** One position: file [k], whether its key is needed, the key. *)
Definition class_step (bStr gStr : string) (s : class_state) (pos : nat * bool * Set_) : res plan_error class_state :=
  let '(k, needed, key) := pos in
  if negb needed then
    Ok (s <| cs_class := cs_class s ++ [None] |> <| cs_start := cs_start s ++ [false] |> <| cs_goal := cs_goal s ++ [false] |>)
  else
    let str := Set_String key in
    let s := s <| cs_start := cs_start s ++ [bool_decide (str = bStr)] |> <| cs_goal := cs_goal s ++ [bool_decide (str = gStr)] |> in
    match classes s !! str with
    | None =>
        let? c := charge (cs_charges s) (Z.of_nat (String.length str) + classBytes) in
        let id := length (classFirst s) in
        Ok (s <| cs_charges := c |> <| classes := <[str := id]> (classes s) |> <| classFirst := classFirst s ++ [k] |>
              <| classMulti := classMulti s ++ [false] |> <| cs_class := cs_class s ++ [Some id] |>)
    | Some id =>
        Ok (s <| classMulti := if bool_decide (classFirst s !! id <> Some k) then <[id := true]> (classMulti s) else classMulti s |>
              <| cs_class := cs_class s ++ [Some id] |>)
    end.

(** The file index of every position. *)
Definition position_files (fs : list file) : list nat := concat (imap (fun k f => replicate (S (n_txns f)) k) fs).

Definition graph_charge (fs : list file) : Z :=
  let n := foldr (fun f a => (n_txns f + 1 + a)%nat) 0%nat fs in
  let keyBytes := foldr (fun f a => Z.max a (setBytes (f_exec f))) 0 fs in
  let sources := foldr (fun f a => a + Z.of_nat (size (f_prev f) + length (SIDs (f_idx f)))) 0 fs in
  Z.of_nat n * nodeBytes + keyBytes + sources * sourceBytes.

Definition class_members (cls : list (option nat)) (multi : list bool) : list (list nat) :=
  imap (fun c (m : bool) => if m then List.filter (fun v => bool_decide (cls !! v = Some (Some c))) (seq 0 (length cls)) else []) multi.

Definition buildGraph (force : hash_override) (lambda X B : Set_) (fs : list file) (goal : Set_) (held : charges)
  : res plan_error (searchGraph * charges) :=
  let? held := charge held (graph_charge fs) in
  let offs := offsets 0 fs in
  let allowed := Union lambda X in
  let hc := flat_map (file_hashes force X) fs in
  let needed := needed_positions offs hc (hash_set force B, Count B) (hash_set force goal, Count goal) in
  let bStr := Set_String B in
  let gStr := Set_String goal in
  let? held := charge held (Z.of_nat (String.length bStr + String.length gStr)) in
  let? s := res_fold (class_step bStr gStr) (zip (zip (position_files fs) needed) (flat_map (file_keys X) fs))
              {| cs_charges := held; classes := ∅; classFirst := []; classMulti := []; cs_class := []; cs_start := []; cs_goal := [] |} in
  Ok ({| files := fs; stepOK := map (fun f => map (Has allowed) (f_gtids f)) fs; inX := map (fun f => map (Has X) (f_gtids f)) fs;
         hash := map fst hc; count := map snd hc; class := cs_class s; start := cs_start s; goal := cs_goal s;
         members := class_members (cs_class s) (classMulti s); off := offs |}, cs_charges s).

(** ** The deque *)

(** A ring buffer: [size] entries of [buf] from [head_] on. *)
Record deque : Type := {
  buf : list nat;
  head_ : nat;
  dq_size : nat
}.

Definition newDeque (capHint : nat) : deque := {| buf := replicate (Nat.max 16 capHint) 0%nat; head_ := 0; dq_size := 0 |}.

Definition dq_empty (d : deque) : bool := (dq_size d =? 0)%nat.

(** The entry at [i] after the head. *)
Definition dq_at (d : deque) (i : nat) : nat := default 0%nat (buf d !! ((head_ d + i) mod length (buf d))%nat).

Definition grow (d : deque) : deque :=
  if (dq_size d <? length (buf d))%nat then d
  else {| buf := map (dq_at d) (seq 0 (dq_size d)) ++ replicate (2 * length (buf d) - dq_size d) 0%nat; head_ := 0; dq_size := dq_size d |}.

Definition pushBack (d : deque) (v : nat) : deque :=
  let d := grow d in
  {| buf := <[((head_ d + dq_size d) mod length (buf d))%nat := v]> (buf d); head_ := head_ d; dq_size := S (dq_size d) |}.

Definition pushFront (d : deque) (v : nat) : deque :=
  let d := grow d in
  let h := ((head_ d + length (buf d) - 1) mod length (buf d))%nat in
  {| buf := <[h := v]> (buf d); head_ := h; dq_size := S (dq_size d) |}.

Definition popFront (d : deque) : nat * deque :=
  (dq_at d 0, {| buf := buf d; head_ := ((head_ d + 1) mod length (buf d))%nat; dq_size := dq_size d - 1 |}).

(** ** The breadth-first search *)

(** [dist]: [None] is -1. [state]: a class's pass and the file of its first final
    position. *)
Record bfs_state : Type := {
  dist : list (option nat);
  done_ : list bool;
  state : list (nat * nat);
  dq : deque
}.

#[export] Instance bfs_state_eta : Eta bfs_state := fun s => Build_bfs_state (dist s) (done_ s) (state s) (dq s).

Definition dist_at (s : bfs_state) (v : nat) : option nat := default None (dist s !! v).

Definition is_done (s : bfs_state) (v : nat) : bool := default false (done_ s !! v).

Definition farther (o : option nat) (d : nat) : bool := match o with None => true | Some x => (d <? x)%nat end.

Definition relax (front : bool) (d : nat) (s : bfs_state) (u : nat) : bfs_state :=
  if farther (dist_at s u) d
  then s <| dist := <[u := Some d]> (dist s) |> <| dq := if front then pushFront (dq s) u else pushBack (dq s) u |>
  else s.

Definition file_of (g : searchGraph) (v : nat) : nat := fileOf (off g) v.

(** The position inside its file. *)
Definition pos_of (g : searchGraph) (v : nat) : nat := (v - default 0 (off g !! file_of g v))%nat.

(** [g.stepOK[k][i]] of the position [v], in file [k] at [i]. *)
Definition step_ok (g : searchGraph) (k i : nat) : bool := default false (stepOK g !! k ≫= (.!! i)).

Definition class_of (g : searchGraph) (v : nat) : option nat := default None (class g !! v).

Definition members_of (g : searchGraph) (c : nat) : list nat := default [] (members g !! c).

Definition is_goal (g : searchGraph) (v : nat) : bool := default false (goal g !! v).

(** One pop of a position not final yet, at distance [d]. *)
Definition settle_class (g : searchGraph) (k d : nat) (s : bfs_state) (c : nat) : bfs_state :=
  let '(pass, first) := default (0, 0)%nat (state s !! c) in
  match pass with
  | O => fold_left (relax false (d + 1)) (List.filter (fun u => negb (file_of g u =? k)%nat) (members_of g c))
           (s <| state := <[c := (1, k)%nat]> (state s) |>)
  | S O => if (k =? first)%nat then s
           else fold_left (relax false (d + 1)) (List.filter (fun u => (file_of g u =? first)%nat) (members_of g c))
                  (s <| state := <[c := (2, first)%nat]> (state s) |>)
  | _ => s
  end.

Definition bfs_visit (g : searchGraph) (s : bfs_state) (v : nat) : bfs_state :=
  if is_done s v then s
  else
    let s := s <| done_ := <[v := true]> (done_ s) |> in
    let k := file_of g v in
    let i := pos_of g v in
    let d := default 0%nat (dist_at s v) in
    let s := if (0 <? i)%nat && step_ok g k (i - 1) then relax true d s (v - 1) else s in
    match class_of g v with
    | Some c => if nonempty (members_of g c) then settle_class g k (default 0%nat (dist_at s v)) s c else s
    | None => s
    end.

Fixpoint bfs_loop (fuel : nat) (g : searchGraph) (s : bfs_state) : bfs_state :=
  match fuel with
  | O => s
  | S fuel =>
      if dq_empty (dq s) then s
      else let '(v, q) := popFront (dq s) in bfs_loop fuel g (bfs_visit g (s <| dq := q |>) v)
  end.

Definition bfs_init (g : searchGraph) : bfs_state :=
  let n := length (class g) in
  fold_left (fun s v => if is_goal g v then s <| dist := <[v := Some 0%nat]> (dist s) |> <| dq := pushBack (dq s) v |> else s)
    (seq 0 n) {| dist := replicate n None; done_ := replicate n false; state := replicate (length (members g)) (0, 0)%nat;
                 dq := newDeque n |}.

(** Enough for every position to be queued once by each of the others. *)
Definition bfs_fuel (g : searchGraph) : nat := let n := length (class g) in S (n + n * (n + 2)).

Definition bfs (g : searchGraph) : list (option nat) := dist (bfs_loop (bfs_fuel g) g (bfs_init g)).

(** ** The plan *)

Record rawSegment : Type := {
  seg_file : nat;
  seg_start : nat;
  seg_end : nat
}.

Record searchResult : Type := {
  res_files : list file;
  segments : list rawSegment
}.

Definition dist_of (ds : list (option nat)) (v : nat) : option nat := default None (ds !! v).

(** The first start with the smallest distance. *)
Definition best_start (g : searchGraph) (ds : list (option nat)) : option nat :=
  fold_left (fun best v =>
    match dist_of ds v with
    | Some d => if default false (start g !! v)
                   && match best with Some b => match dist_of ds b with Some db => (d <? db)%nat | None => false end | None => true end
                then Some v else best
    | None => best
    end) (seq 0 (length (class g))) None.

(** The distance as the code stores it. *)
Definition dist_Z (ds : list (option nat)) (v : nat) : Z := match dist_of ds v with Some d => Z.of_nat d | None => -1 end.

(** The next position after a jump from [v] in file [k]. *)
Definition jump_from (g : searchGraph) (ds : list (option nat)) (k v : nat) : option nat :=
  match class_of g v with
  | Some c => List.find (fun u => negb (u =? v)%nat && negb (file_of g u =? k)%nat && (dist_Z ds u =? dist_Z ds v - 1)) (members_of g c)
  | None => None
  end.

(** [segStart]: where the current segment began. [None]: no successor. *)
Fixpoint walk (fuel : nat) (g : searchGraph) (ds : list (option nat)) (v segStart : nat) : option (list rawSegment) :=
  let k := file_of g v in
  let i := pos_of g v in
  if is_goal g v then Some [{| seg_file := k; seg_start := segStart; seg_end := i |}]
  else match fuel with
       | O => None
       | S fuel =>
           if (i <? length (default [] (stepOK g !! k)))%nat && step_ok g k i && bool_decide (dist_of ds (v + 1) = dist_of ds v)
           then walk fuel g ds (v + 1) segStart
           else match jump_from g ds k v with
                | Some u => (cons {| seg_file := k; seg_start := segStart; seg_end := i |}) <$> walk fuel g ds u (pos_of g u)
                | None => None
                end
       end.

Definition walk_fuel (g : searchGraph) (d : nat) : nat := (S d * S (length (class g)))%nat.

(** Whether a segment includes a transaction outside [X]. *)
Definition includes (g : searchGraph) (s : rawSegment) : bool :=
  existsb negb (take (seg_end s - seg_start s) (drop (seg_start s) (default [] (inX g !! seg_file s)))).

(** The token of [noPlan]. [marked]: a site of the archive is marked. *)
Definition noPlan (marked : bool) (g : searchGraph) (P : Set_) : Token :=
  let have := fold_left (fun s f => Union s (Index_GTIDs (f_idx f))) (files g) ∅ in
  let missing := Subtract_ P have in
  if marked then TokenArchiveUnsafeHistory
  else if negb (existsb id (start g)) then TokenArchiveGap
  else if negb (Set_IsEmpty missing) then TokenArchiveGap
  else TokenArchiveOrderConflict.

(** The rows of the archive with their downloaded files, in file order. *)
Definition search_files (rows : list (RowState * option file)) (P B : Set_) : list file :=
  flat_map (fun r => match r.2 with
                     | Some f => if negb (bool_decide (r.1 = RowActive)) || f_marked f then []
                                 else if Overlaps (Index_GTIDs (f_idx f)) P || Overlaps (Index_GTIDs (f_idx f)) B then [f] else []
                     | None => []
                     end) rows.

(** [search] on a planner with budget [b]; the files and segments found, and the error. *)
Definition search (force : hash_override) (rows : list (RowState * option file)) (marked : bool) (lambda X B P goal : Set_) (b : Budget)
  : searchResult * option plan_error :=
  let fs := search_files rows P B in
  let none := {| res_files := fs; segments := [] |} in
  if Equal goal B then ({| res_files := []; segments := [] |}, None)
  else match buildGraph force lambda X B fs goal {| charged := b; held_bytes := 0 |} with
       | Err e => (none, Some e)
       | Ok (g, _) =>
           let ds := bfs g in
           match best_start g ds with
           | None => (none, Some (Refused (noPlan marked g P)))
           | Some v =>
               match walk (walk_fuel g (default 0%nat (dist_of ds v))) g ds v (pos_of g v) with
               | None => (none, Some Failed)
               | Some segs => ({| res_files := fs; segments := List.filter (includes g) segs |}, None)
               end
           end
       end.

End PlanSearch.

Import PlanSearch.

(** ** The deque is a list *)

Definition dq_list (d : deque) : list nat := map (dq_at d) (seq 0 (dq_size d)).

Definition dq_wf (d : deque) : Prop := (head_ d < length (buf d) /\ dq_size d <= length (buf d))%nat.

Ltac ltb_cases := repeat match goal with |- context [(?a <? ?b)%nat] => destruct (Nat.ltb_spec a b) end.

Lemma ring_mod (h i L : nat) : (h < L -> i <= L -> (h + i) mod L = if (h + i <? L) then h + i else h + i - L)%nat.
Proof.
  intros Hh Hi. destruct (Nat.ltb_spec (h + i) L); [by apply Nat.mod_small|].
  replace (h + i)%nat with ((h + i - L) + 1 * L)%nat at 1 by lia. rewrite Nat.Div0.mod_add. apply Nat.mod_small. lia.
Qed.

Lemma dq_list_ext d l : dq_size d = length l ->
  (forall i x, l !! i = Some x -> dq_at d i = x) -> dq_list d = l.
Proof.
  intros Hs H. apply list_eq. intros i. unfold dq_list. rewrite list_lookup_fmap, Hs.
  destruct (l !! i) as [x|] eqn:E.
  - pose proof (lookup_lt_Some _ _ _ E). rewrite lookup_seq_lt by done. simpl. f_equal. by apply H.
  - apply lookup_ge_None in E. by rewrite lookup_seq_ge.
Qed.

Lemma dq_list_lookup d i : (i < dq_size d)%nat -> dq_list d !! i = Some (dq_at d i).
Proof. intros H. unfold dq_list. by rewrite list_lookup_fmap, lookup_seq_lt. Qed.

Lemma dq_list_length d : length (dq_list d) = dq_size d.
Proof. unfold dq_list. by rewrite length_map, length_seq. Qed.

Lemma grow_spec d : dq_wf d -> dq_wf (grow d) /\ dq_list (grow d) = dq_list d /\ (dq_size (grow d) < length (buf (grow d)))%nat.
Proof.
  intros [Hh Hs]. unfold grow. destruct (Nat.ltb_spec (dq_size d) (length (buf d))) as [H|H]; [done|].
  set (d' := {| buf := _ |}). assert (length (buf d') = 2 * length (buf d))%nat as Hl.
  { unfold d'. simpl. rewrite length_app, length_map, length_seq, length_replicate. lia. }
  split; [split; [rewrite Hl; simpl; lia|rewrite Hl; simpl; lia]|]. split; [|rewrite Hl; simpl; lia].
  apply dq_list_ext; [by rewrite dq_list_length|]. intros i x Hx. pose proof (lookup_lt_Some _ _ _ Hx) as Hi. rewrite dq_list_length in Hi.
  unfold dq_at at 1. rewrite Hl. simpl. rewrite Nat.mod_small by lia.
  unfold dq_list in Hx. rewrite lookup_app_l by (rewrite length_map, length_seq; lia). by rewrite Hx.
Qed.

Lemma pushBack_spec d v : dq_wf d -> dq_wf (pushBack d v) /\ dq_list (pushBack d v) = dq_list d ++ [v].
Proof.
  intros H. destruct (grow_spec d H) as ([Gh Gs] & <- & Gl). unfold pushBack. set (e := grow d) in *.
  set (e' := {| buf := _ |}). assert (length (buf e') = length (buf e)) as Hl by (unfold e'; simpl; by rewrite length_insert).
  split; [split; rewrite Hl; simpl; lia|].
  apply dq_list_ext; [rewrite length_app, dq_list_length; simpl; lia|]. intros i x Hx.
  pose proof (lookup_lt_Some _ _ _ Hx) as Hi. rewrite length_app, dq_list_length in Hi. simpl in Hi.
  unfold dq_at. rewrite Hl. simpl. destruct (decide (i = dq_size e)) as [->|Hne].
  - rewrite lookup_app_r, dq_list_length, Nat.sub_diag in Hx by (rewrite dq_list_length; lia). injection Hx as <-.
    rewrite list_lookup_insert_eq; [done|]. apply Nat.mod_upper_bound. lia.
  - rewrite lookup_app_l, dq_list_lookup in Hx by (rewrite ?dq_list_length; lia). injection Hx as <-.
    rewrite list_lookup_insert_ne; [done|]. rewrite !ring_mod by lia.
    ltb_cases; lia.
Qed.

Lemma pushFront_spec d v : dq_wf d -> dq_wf (pushFront d v) /\ dq_list (pushFront d v) = v :: dq_list d.
Proof.
  intros H. destruct (grow_spec d H) as ([Gh Gs] & <- & Gl). unfold pushFront. set (e := grow d) in *.
  set (h := (_ mod _)%nat). assert (h < length (buf e))%nat as Hh by (apply Nat.mod_upper_bound; lia).
  assert (h = if (head_ e =? 0)%nat then length (buf e) - 1 else head_ e - 1)%nat as Eh.
  { unfold h. replace (head_ e + length (buf e) - 1)%nat with (head_ e + (length (buf e) - 1))%nat by lia. rewrite ring_mod by lia.
    destruct (Nat.eqb_spec (head_ e) 0), (Nat.ltb_spec (head_ e + (length (buf e) - 1)) (length (buf e))); lia. }
  set (e' := {| buf := _ |}). assert (length (buf e') = length (buf e)) as Hl by (unfold e'; simpl; by rewrite length_insert).
  split; [split; rewrite Hl; simpl; lia|].
  apply dq_list_ext; [simpl; by rewrite dq_list_length|]. intros i x Hx.
  pose proof (lookup_lt_Some _ _ _ Hx) as Hi. simpl in Hi. rewrite dq_list_length in Hi.
  unfold dq_at. rewrite Hl. simpl. destruct i as [|i]; simpl in Hx.
  - injection Hx as <-. rewrite Nat.add_0_r, Nat.mod_small by lia. by rewrite list_lookup_insert_eq.
  - rewrite dq_list_lookup in Hx by lia. injection Hx as <-. unfold dq_at.
    assert ((h + S i) mod length (buf e) = (head_ e + i) mod length (buf e))%nat as ->.
    { rewrite !ring_mod by lia. destruct (Nat.eqb_spec (head_ e) 0); ltb_cases; lia. }
    rewrite list_lookup_insert_ne; [done|]. rewrite ring_mod by lia.
    destruct (Nat.eqb_spec (head_ e) 0); ltb_cases; lia.
Qed.

Lemma popFront_spec d : dq_wf d -> dq_empty d = false ->
  let '(v, d') := popFront d in dq_wf d' /\ dq_list d = v :: dq_list d'.
Proof.
  intros [Hh Hs] He%Nat.eqb_neq. unfold popFront. set (d' := {| buf := _ |}).
  split; [split; simpl; [apply Nat.mod_upper_bound; lia|lia]|].
  apply dq_list_ext; [simpl; rewrite dq_list_length; simpl; lia|]. intros i x Hx. destruct i as [|i]; simpl in Hx; [by injection Hx as <-|].
  pose proof (lookup_lt_Some _ _ _ Hx) as Hi. rewrite dq_list_length in Hi. rewrite dq_list_lookup in Hx by done. injection Hx as <-.
  simpl in Hi. unfold dq_at. simpl. do 2 f_equal.
  rewrite !ring_mod by (try apply Nat.mod_upper_bound; lia). ltb_cases; lia.
Qed.

Lemma dq_empty_list d : dq_empty d = true -> dq_list d = [].
Proof. unfold dq_empty, dq_list. intros ->%Nat.eqb_eq. done. Qed.

(** ** Costs *)

Section bfs.

Context (g : searchGraph).

Let N := length (class g).

(** A step of one file, replaying or skipping a transaction, from [u] to [v]. *)
Definition sedge (u v : nat) : Prop :=
  v = S u /\ (v < N)%nat /\ (0 < pos_of g v)%nat /\ step_ok g (file_of g v) (pos_of g v - 1) = true.

(** A jump between positions of different files in one class. *)
Definition jedge (u v : nat) : Prop :=
  exists c, class_of g u = Some c /\ class_of g v = Some c /\ members_of g c <> [] /\ file_of g u <> file_of g v.

(** The fewest jumps are what the search minimises. *)
Inductive cost : nat -> nat -> Prop :=
| cost_goal v : is_goal g v = true -> cost v 0
| cost_step u v d : sedge u v -> cost v d -> cost u d
| cost_jump u v d : jedge u v -> cost v d -> cost u (S d).

(** What the search needs of the graph's arrays. *)
Record bfs_graph : Prop := {
  g_goal : forall v, is_goal g v = true -> (v < N)%nat;
  g_class : forall v c, class_of g v = Some c -> (v < N)%nat /\ (c < length (members g))%nat;
  g_members : forall c u, u ∈ members_of g c <-> class_of g u = Some c /\ members_of g c <> [];
  g_nodup : forall c, NoDup (members_of g c)
}.

Context (G : bfs_graph).

(** Lowering the distances of [new] to [d]. *)
Definition lowered (s s' : bfs_state) (d : nat) (new : list nat) : Prop :=
  done_ s' = done_ s /\ state s' = state s /\ length (dist s') = length (dist s)
  /\ (forall x, dist_at s' x = if decide (x ∈ new) then Some d else dist_at s x)
  /\ (forall x, x ∈ new -> farther (dist_at s x) d = true).

Lemma dist_at_insert s u d x : length (dist s) = N -> (u < N)%nat ->
  dist_at (s <| dist := <[u := Some d]> (dist s) |>) x = if decide (x = u) then Some d else dist_at s x.
Proof.
  intros Hl Hu. unfold dist_at. simpl. destruct (decide (x = u)) as [->|Hne].
  - rewrite list_lookup_insert_eq by lia. done.
  - by rewrite list_lookup_insert_ne by done.
Qed.

Lemma relax_spec front d s u : length (dist s) = N -> (u < N)%nat -> dq_wf (dq s) ->
  exists new, lowered s (relax front d s u) d new /\ dq_wf (dq (relax front d s u)) /\ (new = [] \/ new = [u])
    /\ dq_list (dq (relax front d s u)) = (if front then new ++ dq_list (dq s) else dq_list (dq s) ++ new)
    /\ exists du, dist_at (relax front d s u) u = Some du /\ (du <= d)%nat.
Proof.
  intros Hl Hu Hq. unfold relax. destruct (farther (dist_at s u) d) eqn:Ef.
  - exists [u]. split; [split_and!|].
    + done.
    + done.
    + simpl. by rewrite length_insert.
    + intros x. pose proof (dist_at_insert s u d x Hl Hu) as H. unfold dist_at in *. simpl in *. rewrite H.
      destruct (decide (x = u)) as [->|Hne]; [by rewrite decide_True by left|].
      rewrite decide_False; [done|]. by intros ->%list_elem_of_singleton.
    + by intros x ->%list_elem_of_singleton.
    + split; [|split; [by right|split]].
      * simpl. destruct front; [by apply pushFront_spec|by apply pushBack_spec].
      * simpl. destruct front; [by apply pushFront_spec|by apply pushBack_spec].
      * exists d. split; [|done]. pose proof (dist_at_insert s u d u Hl Hu) as H. unfold dist_at in *. simpl in *.
        rewrite H. by rewrite decide_True.
  - exists []. split; [split_and!; try done|]. { intros x ?%elem_of_nil. done. }
    split; [done|]. split; [by left|]. split; [by destruct front; rewrite ?app_nil_r|].
    unfold farther in Ef. destruct (dist_at s u) as [du|]; [|done]. apply Nat.ltb_ge in Ef. by exists du.
Qed.

Lemma lowered_app s s1 s2 d l1 l2 : lowered s s1 d l1 -> lowered s1 s2 d l2 -> lowered s s2 d (l1 ++ l2).
Proof.
  intros (A1 & A2 & A3 & A4 & A5) (B1 & B2 & B3 & B4 & B5). split_and!; try congruence.
  - intros x. rewrite B4, A4. destruct (decide (x ∈ l2)) as [H2|H2], (decide (x ∈ l1)) as [H1|H1].
    + by rewrite decide_True by (apply elem_of_app; auto).
    + by rewrite decide_True by (apply elem_of_app; auto).
    + by rewrite decide_True by (apply elem_of_app; auto).
    + by rewrite decide_False by (rewrite elem_of_app; tauto).
  - intros x [H|H]%elem_of_app; [by apply A5|]. specialize (B5 x H). rewrite A4 in B5.
    destruct (decide (x ∈ l1)); [by apply A5|done].
Qed.

Lemma relax_fold_spec d us : forall s, length (dist s) = N -> Forall (fun u => (u < N)%nat) us -> dq_wf (dq s) ->
  let s' := fold_left (relax false d) us s in
  exists new, lowered s s' d new /\ dq_wf (dq s') /\ new ⊆ us /\ (length new <= length us)%nat
    /\ dq_list (dq s') = dq_list (dq s) ++ new
    /\ forall u, u ∈ us -> exists du, dist_at s' u = Some du /\ (du <= d)%nat.
Proof.
  induction us as [|u us IH]; intros s Hl Hus Hq; simpl.
  - exists []. split; [split_and!; try done; by intros x ?%elem_of_nil|]. split_and!; try done; [by rewrite app_nil_r|by intros u ?%elem_of_nil].
  - apply Forall_cons in Hus as [Hu Hus].
    destruct (relax_spec false d s u Hl Hu Hq) as (n1 & L1 & Q1 & N1 & E1 & du & D1 & D2).
    set (s1 := relax false d s u) in *. assert (length (dist s1) = N) as Hl1 by (destruct L1 as (_ & _ & -> & _); done).
    destruct (IH s1 Hl1 Hus Q1) as (n2 & L2 & Q2 & S2 & Len2 & E2 & F2).
    exists (n1 ++ n2). split; [by eapply lowered_app|]. split; [done|].
    split; [destruct N1 as [->| ->]; set_solver|]. split; [destruct N1 as [->| ->]; simpl; lia|].
    split; [by rewrite E2, E1, <- (assoc_L (++))|].
    intros x [->|Hx]%elem_of_cons; [|by apply F2].
    destruct L2 as (_ & _ & _ & L2 & L2'). rewrite L2. destruct (decide (u ∈ n2)); [by exists d|by exists du].
Qed.

(** The invariant of the loop, with the queue's entries labelled by the distance they
    were queued at: [D] bounds the labels below, and the final distances above. [proc]:
    the positions whose in-edges have been relaxed. *)
Record BI (s : bfs_state) (lq : list (nat * nat)) (D : nat) (proc : nat -> Prop) : Prop := {
  bi_len : length (dist s) = N /\ length (done_ s) = N /\ length (state s) = length (members g);
  bi_q : dq_wf (dq s) /\ dq_list (dq s) = map fst lq;
  bi_range : forall x l, (x, l) ∈ lq -> (D <= l <= S D)%nat /\ (x < N)%nat;
  bi_sorted : StronglySorted le (map snd lq);
  bi_entry : forall x l, (x, l) ∈ lq -> exists d, dist_at s x = Some d /\ (d <= l)%nat;
  bi_queued : forall x d, dist_at s x = Some d -> is_done s x = false -> (x, d) ∈ lq;
  bi_done : forall x, is_done s x = true -> exists d, dist_at s x = Some d /\ (d <= D)%nat;
  bi_goal : forall v, is_goal g v = true -> dist_at s v = Some 0%nat;
  bi_sound : forall v d, dist_at s v = Some d -> cost v d;
  bi_proc : forall v, proc v -> is_done s v = true;
  bi_step : forall u v, proc v -> sedge u v -> exists du dv, dist_at s u = Some du /\ dist_at s v = Some dv /\ (du <= dv)%nat;
  bi_jump : forall u v, proc v -> jedge u v -> exists du dv, dist_at s u = Some du /\ dist_at s v = Some dv /\ (du <= S dv)%nat;
  bi_first : forall c pass first, state s !! c = Some (pass, first) -> (1 <= pass)%nat ->
    exists v, is_done s v = true /\ class_of g v = Some c /\ file_of g v = first;
  bi_second : forall c pass first, state s !! c = Some (pass, first) -> (2 <= pass)%nat ->
    exists v, is_done s v = true /\ class_of g v = Some c /\ file_of g v <> first
}.

(** Lowering keeps the invariant when the new entries are placed in order. *)
Lemma BI_lower s s' lq lq' D d new proc : BI s lq D proc -> lowered s s' d new -> (D <= d <= S D)%nat ->
  Forall (fun x => (x < N)%nat) new -> dq_wf (dq s') -> dq_list (dq s') = map fst lq' -> StronglySorted le (map snd lq') ->
  (forall e, e ∈ lq' <-> e ∈ lq \/ (e.2 = d /\ e.1 ∈ new)) -> (forall x, x ∈ new -> cost x d) -> BI s' lq' D proc.
Proof.
  intros [] (L1 & L2 & L3 & L4 & L5) Hd Hnew Hq Hlist Hsort He Hcost.
  assert (forall x, is_done s x = true -> dist_at s' x = dist_at s x) as Hfin.
  { intros x Hx. rewrite L4. destruct (decide (x ∈ new)) as [Hin|]; [|done]. specialize (L5 x Hin).
    destruct (bi_done0 x Hx) as (dx & Hdx & Hle). rewrite Hdx in L5. simpl in L5. apply Nat.ltb_lt in L5. lia. }
  assert (forall x dx, dist_at s x = Some dx -> exists d', dist_at s' x = Some d' /\ (d' <= dx)%nat) as Hle.
  { intros x dx Hx. rewrite L4. destruct (decide (x ∈ new)) as [Hin|]; [|by exists dx]. specialize (L5 x Hin). rewrite Hx in L5.
    apply Nat.ltb_lt in L5. exists d. split; [done|lia]. }
  assert (forall x, is_done s' x = is_done s x) as Hdone by (intros x; unfold is_done; by rewrite L1).
  constructor; rewrite ?L1, ?L2, ?L3; try done.
  - intros x l [Hx|[Hl Hx]]%He; [by apply bi_range0|]. simpl in *. subst l. rewrite Forall_forall in Hnew. auto.
  - intros x l [Hx|[Hl Hx]]%He; simpl in *.
    + destruct (bi_entry0 x l Hx) as (dx & Hdx & Hle'). destruct (Hle x dx Hdx) as (d' & -> & ?). exists d'. split; [done|lia].
    + exists d. rewrite L4, decide_True by done. split; [done|lia].
  - intros x dx Hx Hnd. rewrite Hdone in Hnd. rewrite L4 in Hx. apply He. destruct (decide (x ∈ new)); [|left; auto].
    injection Hx as <-. by right.
  - intros x Hx. rewrite Hdone in Hx. rewrite Hfin by done. by apply bi_done0.
  - intros v Hv. destruct (Hle v 0%nat (bi_goal0 v Hv)) as (d' & -> & ?). f_equal. lia.
  - intros v dv Hv. rewrite L4 in Hv. destruct (decide (v ∈ new)); [|by apply bi_sound0]. injection Hv as <-. auto.
  - intros v Hv. rewrite Hdone. auto.
  - intros u v Hv Huv. destruct (bi_step0 u v Hv Huv) as (du & dv & Hdu & Hdv & Hle').
    rewrite (Hfin v) by auto. destruct (Hle u du Hdu) as (d' & -> & ?). exists d', dv. split_and!; [done..|lia].
  - intros u v Hv Huv. destruct (bi_jump0 u v Hv Huv) as (du & dv & Hdu & Hdv & Hle').
    rewrite (Hfin v) by auto. destruct (Hle u du Hdu) as (d' & -> & ?). exists d', dv. split_and!; [done..|lia].
  - intros c pass first Hc Hp. destruct (bi_first0 c pass first Hc Hp) as (v & Hv). exists v. by rewrite Hdone.
  - intros c pass first Hc Hp. destruct (bi_second0 c pass first Hc Hp) as (v & Hv). exists v. by rewrite Hdone.
Qed.

Definition mark (v : nat) (s : bfs_state) : bfs_state := s <| done_ := <[v := true]> (done_ s) |>.

Lemma mark_done s v x : length (done_ s) = N -> (v < N)%nat ->
  is_done (mark v s) x = true <-> x = v \/ is_done s x = true.
Proof.
  intros Hl Hv. unfold is_done, mark. simpl. destruct (decide (x = v)) as [->|Hne].
  - rewrite list_lookup_insert_eq by lia. simpl. tauto.
  - rewrite list_lookup_insert_ne by done. intuition.
Qed.

(** Popping an entry: it is final already, or it becomes final at its label. *)
Lemma BI_pop s v l lq D q : BI s ((v, l) :: lq) D (fun x => is_done s x = true) ->
  dq_wf q -> dq_list q = map fst lq ->
  let s1 := s <| dq := q |> in
  (is_done s v = true -> BI s1 lq l (fun x => is_done s1 x = true))
  /\ (is_done s v = false -> dist_at s v = Some l /\ BI (mark v s1) lq l (fun x => is_done s x = true)).
Proof.
  intros [] Hq Hlist s1. destruct (bi_range0 v l ltac:(left)) as [Hl Hv]. simpl in bi_sorted0.
  apply StronglySorted_inv in bi_sorted0 as [Hsort Hmin]. rewrite Forall_forall in Hmin.
  assert (forall x l', (x, l') ∈ lq -> (l <= l' <= S l)%nat /\ (x < N)%nat) as Hrange.
  { intros x l' Hx. destruct (bi_range0 x l' ltac:(by right)) as [H1 H2].
    assert (l <= l')%nat by (apply Hmin, elem_of_map; by exists (x, l')). split; [lia|done]. }
  split; intros Hdone.
  - constructor; try done.
    + intros x l' Hx. apply bi_entry0. by right.
    + intros x d Hx Hnd. change (is_done s x = false) in Hnd.
      pose proof (bi_queued0 x d Hx Hnd) as [[= -> ->]|H]%elem_of_cons; [congruence|done].
    + intros x Hx. destruct (bi_done0 x Hx) as (d & Hd & Hle). exists d. split; [done|lia].
  - assert (dist_at s v = Some l) as Hdv.
    { destruct (bi_entry0 v l ltac:(left)) as (d & Hd & Hle). rewrite Hd. f_equal.
      pose proof (bi_queued0 v d Hd Hdone) as [[= ->]|H]%elem_of_cons; [done|].
      apply Hrange in H. lia. }
    split; [done|]. destruct bi_len0 as (L1 & L2 & L3).
    assert (forall x, is_done (mark v s1) x = true <-> x = v \/ is_done s x = true) as Hm by (intros x; exact (mark_done s1 v x L2 Hv)).
    constructor; try done.
    + simpl. by rewrite length_insert.
    + intros x l' Hx. apply bi_entry0. by right.
    + intros x d Hx Hnd. apply not_true_iff_false in Hnd. rewrite Hm in Hnd.
      assert (is_done s x = false) as Hnd' by (apply not_true_iff_false; tauto).
      pose proof (bi_queued0 x d Hx Hnd') as [[= -> ->]|H]%elem_of_cons; [tauto|done].
    + intros x [->|Hx]%Hm; [exists l; split; [done|lia]|]. destruct (bi_done0 x Hx) as (d & Hd & Hle). exists d. split; [done|lia].
    + intros x Hx. apply Hm. by right.
    + intros c pass first Hc Hp. destruct (bi_first0 c pass first Hc Hp) as (x & Hx & Hx'). exists x. split; [apply Hm; by right|done].
    + intros c pass first Hc Hp. destruct (bi_second0 c pass first Hc Hp) as (x & Hx & Hx'). exists x. split; [apply Hm; by right|done].
Qed.

(** A distance is at most [d]. *)
Definition within (s : bfs_state) (u d : nat) : Prop := exists du, dist_at s u = Some du /\ (du <= d)%nat.

Lemma lowered_within s s' d new u e : lowered s s' d new -> within s u e -> within s' u e.
Proof.
  intros (_ & _ & _ & L4 & L5) (du & Hu & Hle). unfold within. rewrite L4. destruct (decide (u ∈ new)) as [H|H]; [|by exists du].
  specialize (L5 u H). rewrite Hu in L5. apply Nat.ltb_lt in L5. exists d. split; [done|lia].
Qed.

Lemma lowered_final s s' lq D P d new v : BI s lq D P -> lowered s s' d new -> (D <= d)%nat -> is_done s v = true ->
  dist_at s' v = dist_at s v.
Proof.
  intros [] (_ & _ & _ & L4 & L5) Hd Hv. rewrite L4. destruct (decide (v ∈ new)) as [H|H]; [|done].
  specialize (L5 v H). destruct (bi_done0 v Hv) as (dv & Hdv & Hle). rewrite Hdv in L5. apply Nat.ltb_lt in L5. lia.
Qed.

(** Relaxing the position before [v]. *)
Lemma step_relaxed s lq l P v : BI s lq l P -> dist_at s v = Some l -> is_done s v = true -> (v < N)%nat ->
  let guard := (0 <? pos_of g v)%nat && step_ok g (file_of g v) (pos_of g v - 1) in
  let s' := if guard then relax true l s (v - 1) else s in
  exists lq' new, BI s' lq' l P /\ lowered s s' l new /\ (length lq' <= S (length lq))%nat
    /\ (forall u, sedge u v -> within s' u l).
Proof.
  intros B Hv Hdone Hlt guard s'. unfold s'. destruct guard eqn:Eg.
  - apply andb_true_iff in Eg as [E1%Nat.ltb_lt E2].
    assert (sedge (v - 1) v) as He by (unfold sedge; unfold pos_of in E1; split_and!; [lia|done..]).
    pose proof (bi_len _ _ _ _ B) as (BL & _). pose proof (bi_q _ _ _ _ B) as (BQ & BQ'). pose proof (bi_sorted _ _ _ _ B) as BS.
    destruct (relax_spec true l s (v - 1) BL ltac:(lia) BQ) as (new & L & Q & Hnew & Hlist & Hw).
    exists (map (fun x => (x, l)) new ++ lq), new.
    assert (Forall (fun x => x = (v - 1)%nat) new) as Hall by (destruct Hnew as [->| ->]; repeat constructor).
    rewrite Forall_forall in Hall. split.
    + apply (BI_lower s _ lq _ l l new P B L); [lia| |done| | | |].
      * apply Forall_forall. intros x ->%Hall. lia.
      * rewrite Hlist, map_app, map_map. simpl. rewrite map_id. f_equal. apply BQ'.
      * rewrite map_app, map_map. simpl. destruct Hnew as [->| ->]; simpl; [exact BS|]. constructor; [exact BS|].
        apply Forall_forall. intros x ((y & z) & -> & Hx)%elem_of_map. by apply (bi_range _ _ _ _ B y z).
      * intros [x y]. rewrite elem_of_app, elem_of_map. simpl. split; [intros [(z & [= -> ->] & Hz)|]; auto|].
        intros [|[-> Hx]]; [by right|]. left. by exists x.
      * intros x ->%Hall. eapply cost_step; [exact He|]. by apply (bi_sound _ _ _ _ B).
    + split; [done|]. split; [rewrite length_app, length_map; destruct Hnew as [->| ->]; simpl; lia|].
      intros u (Hu & _). assert (u = v - 1)%nat as -> by lia. exact Hw.
  - exists lq, []. split; [done|]. split; [split_and!; try done; by intros x ?%elem_of_nil|]. split; [lia|].
    intros u (_ & _ & H1%Nat.ltb_lt & H2). unfold guard in Eg. by rewrite H1, H2 in Eg.
Qed.

(** Relaxing members of [v]'s class in other files. *)
Lemma jumps_relaxed s lq l P v c us : BI s lq l P -> dist_at s v = Some l -> is_done s v = true ->
  class_of g v = Some c -> us ⊆ members_of g c -> NoDup us -> (forall u, u ∈ us -> file_of g u <> file_of g v) ->
  let s' := fold_left (relax false (l + 1)) us s in
  exists lq' new, BI s' lq' l P /\ lowered s s' (l + 1) new /\ (length lq' <= N + length lq)%nat
    /\ (forall u, u ∈ us -> within s' u (S l)).
Proof.
  intros B Hv Hdone Hc Hus Hnd Hf. replace (l + 1)%nat with (S l) by lia. intros s'.
  assert (forall u, u ∈ us -> (u < N)%nat /\ jedge u v) as Hu.
  { intros u Hu. pose proof (Hus u Hu) as [H1 H2]%(g_members G). split; [by apply (g_class G u c)|]. exists c. split_and!; auto. }
  destruct (relax_fold_spec (S l) us s) as (new & L & Q & Hnew & Hlen & Hlist & Hw).
  { apply B. } { apply Forall_forall. intros x Hx. by apply Hu. } { apply B. }
  exists (lq ++ map (fun x => (x, S l)) new), new. fold s' in L, Q, Hlist, Hw. split.
  - apply (BI_lower s _ lq _ l (S l) new P B L); [lia| |done| | | |].
    + apply Forall_forall. intros x Hx. apply Hu. by apply Hnew.
    + rewrite Hlist, map_app, map_map. simpl. rewrite map_id. f_equal. apply B.
    + rewrite map_app, map_map. simpl. apply StronglySorted_app. split; [|split].
      * intros x y ((a & b) & -> & Hx)%elem_of_map (z & -> & _)%elem_of_map. by apply (bi_range _ _ _ _ B a b).
      * apply B.
      * clear. induction new; simpl; constructor; [done|]. apply Forall_forall. by intros x (z & -> & _)%elem_of_map.
    + intros [x y]. rewrite elem_of_app, elem_of_map. simpl. split; [intros [|(z & [= -> ->] & Hz)]; auto|].
      intros [|[-> Hx]]; [by left|]. right. by exists x.
    + intros x Hx%Hnew. eapply cost_jump; [by apply Hu|]. by apply (bi_sound _ _ _ _ B).
  - split; [done|]. split; [|exact Hw]. rewrite length_app, length_map.
    assert (length us <= N)%nat; [|lia]. rewrite <- (length_seq N 0). apply submseteq_length, NoDup_submseteq; [done|].
    intros x Hx. apply elem_of_seq. destruct (Hu x Hx). lia.
Qed.

(** Changing a class's pass. *)
Lemma BI_pass s lq D P c pass first : BI s lq D P ->
  (exists v, is_done s v = true /\ class_of g v = Some c /\ file_of g v = first) ->
  ((2 <= pass)%nat -> exists v, is_done s v = true /\ class_of g v = Some c /\ file_of g v <> first) ->
  BI (s <| state := <[c := (pass, first)]> (state s) |>) lq D P.
Proof.
  intros [] H1 H2. constructor; try done.
  - simpl. by rewrite length_insert.
  - intros c' p f Hc Hp. simpl in Hc. destruct (decide (c' = c)) as [->|Hne].
    + apply list_lookup_insert_Some in Hc as [(_ & [= <- <-] & _)|[? _]]; [exact H1|done].
    + rewrite list_lookup_insert_ne in Hc by done. by eapply bi_first0.
  - intros c' p f Hc Hp. simpl in Hc. destruct (decide (c' = c)) as [->|Hne].
    + apply list_lookup_insert_Some in Hc as [(_ & [= <- <-] & _)|[? _]]; [by apply H2|done].
    + rewrite list_lookup_insert_ne in Hc by done. by eapply bi_second0.
Qed.
Lemma via_done s lq l P v0 u : BI s lq l P -> P v0 -> jedge u v0 -> within s u (S l).
Proof.
  intros B H0 He. destruct (bi_jump _ _ _ _ B u v0 H0 He) as (du & dv & Hu & Hv & Hle).
  destruct (bi_done _ _ _ _ B v0 (bi_proc _ _ _ _ B v0 H0)) as (d0 & Hd0 & Hle0). exists du. split; [done|]. assert (d0 = dv) by congruence. lia.
Qed.

Lemma settle_relaxed s lq l P v c : BI s lq l P -> dist_at s v = Some l -> is_done s v = true ->
  class_of g v = Some c -> members_of g c <> [] ->
  (forall pass first, state s !! c = Some (pass, first) -> (1 <= pass)%nat -> exists v0, P v0 /\ class_of g v0 = Some c /\ file_of g v0 = first) ->
  (forall pass first, state s !! c = Some (pass, first) -> (2 <= pass)%nat -> exists v0, P v0 /\ class_of g v0 = Some c /\ file_of g v0 <> first) ->
  let s' := settle_class g (file_of g v) l s c in
  exists lq', BI s' lq' l P /\ dist_at s' v = Some l /\ done_ s' = done_ s /\ (length lq' <= N + length lq)%nat
    /\ (forall u d, within s u d -> within s' u d) /\ (forall u, jedge u v -> within s' u (S l)).
Proof.
  intros B Hv Hdone Hc Hm Hf1 Hf2 s'. destruct (g_class G v c Hc) as [Hlt Hcl].
  pose proof (bi_len _ _ _ _ B) as (_ & _ & L3).
  destruct (lookup_lt_is_Some_2 (state s) c ltac:(lia)) as [[pass first] Est].
  set (k := file_of g v) in *.
  (* relaxing the members chosen by [p], after a change of pass *)
  assert (forall s1 (p : nat -> bool), BI s1 lq l P -> dist_at s1 v = Some l -> is_done s1 v = true -> done_ s1 = done_ s ->
    (forall u, dist_at s1 u = dist_at s u) -> (forall u, p u = true -> file_of g u <> k) ->
    let s2 := fold_left (relax false (l + 1)) (List.filter p (members_of g c)) s1 in
    exists lq', BI s2 lq' l P /\ dist_at s2 v = Some l /\ done_ s2 = done_ s /\ (length lq' <= N + length lq)%nat
      /\ (forall u d, within s u d -> within s2 u d) /\ (forall u, u ∈ members_of g c -> p u = true -> within s2 u (S l))) as Hrelax.
  { intros s1 p B1 Hv1 Hd1 Hds Hsame Hp s2.
    destruct (jumps_relaxed s1 lq l P v c (List.filter p (members_of g c)) B1 Hv1 Hd1 Hc) as (lq' & new & B2 & L & Hlen & Hw).
    - intros u Hu. by apply elem_of_filter_bool in Hu as [Hu _].
    - apply NoDup_ListNoDup, List.NoDup_filter, NoDup_ListNoDup, (g_nodup G).
    - intros u Hu. apply elem_of_filter_bool in Hu as [_ Hu]. by apply Hp.
    - exists lq'. split; [exact B2|]. split; [|split; [|split; [exact Hlen|split]]].
      + rewrite <- Hv1. eapply lowered_final; [exact B1|exact L|lia|exact Hd1].
      + destruct L as (Ld & _). unfold s2. by rewrite Ld.
      + intros u d Hud. eapply lowered_within; [exact L|]. destruct Hud as (du & H1 & H2). exists du. by rewrite Hsame.
      + intros u Hu Hpu. apply Hw, elem_of_filter_bool. by split. }
  assert (forall u, jedge u v -> u ∈ members_of g c /\ file_of g u <> k) as Hje.
  { intros u (c' & H1 & H2 & _ & H4). assert (c' = c) as -> by congruence. split; [by apply (g_members G)|exact H4]. }
  unfold s', settle_class. rewrite Est. simpl. destruct pass as [|[|pass]].
  - destruct (Hrelax (s <| state := <[c := (1, k)%nat]> (state s) |>) (fun u => negb (file_of g u =? k)%nat)) as (lq' & B' & H1 & H2 & H3 & H4 & H5).
    + apply BI_pass; [done| |lia]. by exists v.
    + done. + done. + done. + done.
    + intros u Hu%negb_true_iff%Nat.eqb_neq. done.
    + exists lq'. do 5 (split; [assumption|]). intros u [Hu Hk]%Hje. apply H5; [done|]. by apply negb_true_iff, Nat.eqb_neq.
  - destruct (Hf1 1%nat first Est ltac:(lia)) as (v0 & P0 & C0 & F0).
    destruct (Nat.eqb_spec k first) as [Hk|Hk].
    + exists lq. do 4 (split; [done || lia|]). split; [done|]. intros u He. destruct (Hje u He) as [Hu Hne].
      eapply via_done; [done|exact P0|]. exists c. split_and!; [|done|done|congruence]. by apply (g_members G).
    + destruct (Hrelax (s <| state := <[c := (2, first)%nat]> (state s) |>) (fun u => (file_of g u =? first)%nat)) as (lq' & B' & H1 & H2 & H3 & H4 & H5).
      * apply BI_pass; [done| |intros _; exists v; split_and!; done]. exists v0. split_and!; [|done..]. by apply (bi_proc _ _ _ _ B).
      * done. * done. * done. * done.
      * intros u ->%Nat.eqb_eq. congruence.
      * exists lq'. do 5 (split; [assumption|]). intros u [Hu Hne]%Hje. destruct (decide (file_of g u = first)) as [E|E].
        { apply H5; [done|]. by apply Nat.eqb_eq. }
        apply H4. eapply via_done; [done|exact P0|]. exists c. split_and!; [|done|done|congruence]. by apply (g_members G).
  - exists lq. do 4 (split; [done || lia|]). split; [done|]. intros u He. destruct (Hje u He) as [Hu Hne].
    destruct (Hf1 (S (S pass)) first Est ltac:(lia)) as (v0 & P0 & C0 & F0).
    destruct (Hf2 (S (S pass)) first Est ltac:(lia)) as (v1 & P1 & C1 & F1).
    apply (g_members G) in Hu as [Hcu _].
    destruct (decide (file_of g u = first)) as [E|E]; (eapply via_done; [done| |]); [exact P1| |exact P0|]; exists c; split_and!; congruence.
Qed.

(** A visit keeps the invariant; what it queues is bounded. *)
Lemma visit_spec s v l lq D q : BI s ((v, l) :: lq) D (fun x => is_done s x = true) -> dq_wf q -> dq_list q = map fst lq ->
  let s' := bfs_visit g (s <| dq := q |>) v in
  exists lq' D', BI s' lq' D' (fun x => is_done s' x = true)
    /\ ((done_ s' = done_ s /\ lq' = lq)
        \/ (is_done s v = false /\ done_ s' = <[v := true]> (done_ s) /\ (length lq' <= S N + length lq)%nat)).
Proof.
  intros B Hq Hlist s'. destruct (BI_pop s v l lq D q B Hq Hlist) as [Hold Hnew]. set (s1 := s <| dq := q |>) in *.
  unfold s', bfs_visit. change (is_done s1 v) with (is_done s v). destruct (is_done s v) eqn:Ed.
  { exists lq, l. split; [by apply Hold|by left]. }
  clear Hold. destruct (Hnew eq_refl) as [Hdv B2]. clear Hnew. fold (mark v s1). set (s2 := mark v s1) in *.
  destruct (bi_range _ _ _ _ B v l ltac:(left)) as [_ Hv]. pose proof (bi_len _ _ _ _ B) as (_ & Lb & _).
  assert (forall x, is_done s2 x = true <-> x = v \/ is_done s x = true) as Hm by (intros x; exact (mark_done s1 v x Lb Hv)).
  assert (is_done s2 v = true) as Hd2 by (apply Hm; by left).
  change (dist_at s2 v) with (dist_at s v). rewrite Hdv. simpl (default 0%nat (Some l)).
  destruct (step_relaxed s2 lq l _ v B2 Hdv Hd2 Hv) as (lq3 & n3 & B3 & L3 & Hlen3 & Hs3).
  set (s3 := if _ && _ then relax true l s2 (v - 1) else s2) in *.
  assert (dist_at s3 v = Some l) as Hv3 by (rewrite <- Hdv; eapply (lowered_final s2); [exact B2|exact L3|lia|exact Hd2]).
  assert (done_ s3 = done_ s2) as Hds3 by apply L3.
  assert (is_done s3 v = true) as Hd3 by (unfold is_done; by rewrite Hds3).
  rewrite Hv3. simpl (default 0%nat (Some l)).
  (* the class, then everything together *)
  assert (exists lq4, let s4 := match class_of g v with
      | Some c => if nonempty (members_of g c) then settle_class g (file_of g v) l s3 c else s3 | None => s3 end in
    BI s4 lq4 l (fun x => is_done s x = true) /\ dist_at s4 v = Some l /\ done_ s4 = done_ s3 /\ (length lq4 <= N + length lq3)%nat
    /\ (forall u d, within s3 u d -> within s4 u d) /\ (forall u, jedge u v -> within s4 u (S l))) as (lq4 & B4 & Hv4 & Hds4 & Hlen4 & Hmono & Hj).
  { destruct (class_of g v) as [c|] eqn:Ec; [destruct (members_of g c) as [|m ms] eqn:Em; simpl (nonempty _)|].
    - exists lq3. do 3 (split; [done|]). split; [lia|]. split; [done|]. intros u (c' & _ & H2 & H3 & _). congruence.
    - eapply settle_relaxed; try done; [by rewrite Em|..]; intros pass first Hst Hp; destruct L3 as (_ & Hst3 & _); rewrite Hst3 in Hst.
      + by eapply (bi_first _ _ _ _ B).
      + by eapply (bi_second _ _ _ _ B).
    - exists lq3. do 3 (split; [done|]). split; [lia|]. split; [done|]. intros u (c' & _ & H2 & _). congruence. }
  set (s4 := match class_of g v with Some c => _ | None => s3 end) in *.
  exists lq4, l. split; [|right; split_and!; [done|by rewrite Hds4, Hds3|lia]].
  assert (forall x, is_done s4 x = true <-> x = v \/ is_done s x = true) as Hm4 by (intros x; unfold is_done at 1; rewrite Hds4, Hds3; apply Hm).
  destruct B4. constructor; try done.
  - intros u x [->|Hx]%Hm4 He; [|by apply bi_step0]. destruct (Hmono u l (Hs3 u He)) as (du & Hdu & Hle). exists du, l. done.
  - intros u x [->|Hx]%Hm4 He; [|by apply bi_jump0]. destruct (Hj u He) as (du & Hdu & Hle). exists du, l. done.
Qed.

Lemma default_replicate {A} (a : A) n i : default a (replicate n a !! i) = a.
Proof. destruct (replicate n a !! i) eqn:E; [|done]. by apply lookup_replicate in E as [-> _]. Qed.

Definition not_done (s : bfs_state) : nat := length (List.filter negb (done_ s)).

Lemma mark_count (l : list bool) v : l !! v = Some false ->
  S (length (List.filter negb (<[v := true]> l))) = length (List.filter negb l).
Proof.
  revert v. induction l as [|b l IH]; intros [|v]; simpl; try done; [by intros [= ->]|].
  intros H. destruct b; simpl; rewrite <- (IH v H); done.
Qed.

Lemma loop_spec fuel : forall s lq D, BI s lq D (fun x => is_done s x = true) ->
  (length lq + not_done s * (N + 1) < fuel)%nat ->
  let s' := bfs_loop fuel g s in exists D', BI s' [] D' (fun x => is_done s' x = true).
Proof.
  induction fuel as [|fuel IH]; intros s lq D B Hf; [lia|]. cbn [bfs_loop].
  destruct (bi_q _ _ _ _ B) as [Hq Hlist]. destruct (dq_empty (dq s)) eqn:Ee.
  - apply dq_empty_list in Ee. rewrite Hlist in Ee. apply map_eq_nil in Ee as ->. by exists D.
  - pose proof (popFront_spec (dq s) Hq Ee) as Hp. destruct (popFront (dq s)) as [v q]. destruct Hp as [Hq' Hl'].
    rewrite Hlist in Hl'. destruct lq as [|[v' l] lq]; [done|]. simpl in Hl'. injection Hl' as -> Hl'.
    destruct (visit_spec s v l lq D q B Hq' (eq_sym Hl')) as (lq' & D' & B' & Hcase). simpl in Hf.
    apply (IH _ lq' D' B'). unfold not_done in *. destruct Hcase as [[-> ->]|(Hd & -> & Hlen)]; [simpl; lia|].
    assert (done_ s !! v = Some false) as Hlk.
    { destruct (bi_range _ _ _ _ B v l ltac:(left)) as [_ Hv]. destruct (bi_len _ _ _ _ B) as (_ & Lb & _).
      unfold is_done in Hd. destruct (done_ s !! v) as [b|] eqn:E; [by simpl in Hd; subst|]. apply lookup_ge_None in E. lia. }
    pose proof (mark_count _ _ Hlk) as Hc. simpl in *. lia.
Qed.

Definition init_step (s : bfs_state) (v : nat) : bfs_state :=
  if is_goal g v then s <| dist := <[v := Some 0%nat]> (dist s) |> <| dq := pushBack (dq s) v |> else s.

Lemma init_fold vs : forall s, length (dist s) = N -> Forall (fun v => (v < N)%nat) vs -> dq_wf (dq s) ->
  let s' := fold_left init_step vs s in
  length (dist s') = N /\ done_ s' = done_ s /\ state s' = state s /\ dq_wf (dq s')
  /\ dq_list (dq s') = dq_list (dq s) ++ List.filter (is_goal g) vs
  /\ forall x, dist_at s' x = if decide (x ∈ List.filter (is_goal g) vs) then Some 0%nat else dist_at s x.
Proof.
  induction vs as [|v vs IH]; intros s Hl Hvs Hq; simpl; [by rewrite app_nil_r|].
  apply Forall_cons in Hvs as [Hv Hvs]. unfold init_step at 2 4 6 8 10 12. destruct (is_goal g v) eqn:Eg; [|by apply IH].
  destruct (pushBack_spec (dq s) v Hq) as [Q1 Q2].
  set (s1 := _ <| dq := pushBack (dq s) v |>). destruct (IH s1) as (H1 & H2 & H3 & H4 & H5 & H6); [simpl; by rewrite length_insert|done..|].
  split_and!; try done.
  - rewrite H5. change (dq s1) with (pushBack (dq s) v). rewrite Q2, <- (assoc_L (++)). done.
  - intros x. rewrite H6. pose proof (dist_at_insert s v 0 x Hl Hv) as Hd. unfold dist_at in *. simpl in *. rewrite Hd.
    destruct (decide (x = v)) as [->|Hne].
    + rewrite (decide_True (P := v ∈ v :: _)) by left. by destruct (decide _).
    + destruct (decide (x ∈ List.filter (is_goal g) vs)); [by rewrite decide_True by (by right)|].
      rewrite decide_False; [done|]. by intros [|]%elem_of_cons.
Qed.

Lemma init_spec : exists lq, BI (bfs_init g) lq 0 (fun x => is_done (bfs_init g) x = true) /\ (length lq <= N)%nat
  /\ not_done (bfs_init g) = N.
Proof.
  set (s0 := {| dist := replicate N None; done_ := replicate N false; state := replicate (length (members g)) (0, 0)%nat; dq := newDeque N |}).
  assert (dq_wf (newDeque N) /\ dq_list (newDeque N) = []) as [Q0 Q1].
  { split; [|done]. split; unfold newDeque; cbn [head_ buf dq_size]; rewrite length_replicate; lia. }
  destruct (init_fold (seq 0 N) s0) as (H1 & H2 & H3 & H4 & H5 & H6).
  { simpl. by rewrite length_replicate. } { apply Forall_forall. intros x Hx%elem_of_seq. lia. } { done. }
  change (fold_left init_step (seq 0 N) s0) with (bfs_init g) in *. change (dq s0) with (newDeque N) in H5. rewrite Q1, app_nil_l in H5.
  set (goals := List.filter (is_goal g) (seq 0 N)) in *.
  assert (forall x, dist_at (bfs_init g) x = if decide (x ∈ goals) then Some 0%nat else None) as Hd.
  { intros x. rewrite H6. destruct (decide (x ∈ goals)); [done|]. unfold dist_at. simpl.
    apply default_replicate. }
  assert (forall x, x ∈ goals <-> is_goal g x = true) as Hg.
  { intros x. unfold goals. rewrite elem_of_filter_bool, elem_of_seq. split; [tauto|]. intros Hx. pose proof (g_goal G x Hx). auto with lia. }
  assert (forall x, is_done (bfs_init g) x = false) as Hnd.
  { intros x. unfold is_done. rewrite H2. simpl. apply default_replicate. }
  exists (map (fun x => (x, 0%nat)) goals). split; [constructor; rewrite ?H2, ?H3|split].
  - simpl. rewrite !length_replicate. done.
  - split; [done|]. by rewrite H5, map_map, map_id.
  - intros x l (y & [= -> ->] & Hy)%elem_of_map. split; [lia|]. apply Hg in Hy. by apply (g_goal G).
  - rewrite map_map. simpl. clear. induction goals; simpl; constructor; [done|]. apply Forall_forall. by intros x (z & -> & _)%elem_of_map.
  - intros x l (y & [= -> ->] & Hy)%elem_of_map. exists 0%nat. by rewrite Hd, decide_True.
  - intros x d Hx _. rewrite Hd in Hx. destruct (decide (x ∈ goals)) as [Hin|]; [|done]. injection Hx as <-. apply elem_of_map. by exists x.
  - intros x Hx. by rewrite Hnd in Hx.
  - intros v Hv%Hg. by rewrite Hd, decide_True.
  - intros v d Hv. rewrite Hd in Hv. destruct (decide (v ∈ goals)) as [Hin%Hg|]; [|done]. injection Hv as <-. by constructor.
  - done.
  - intros u v Hv. by rewrite Hnd in Hv.
  - intros u v Hv. by rewrite Hnd in Hv.
  - intros c pass first Hc Hp. simpl in Hc. apply lookup_replicate in Hc as [[= -> ->] _]. lia.
  - intros c pass first Hc Hp. simpl in Hc. apply lookup_replicate in Hc as [[= -> ->] _]. lia.
  - rewrite length_map. unfold goals. etrans; [apply List.filter_length_le|]. by rewrite length_seq.
  - unfold not_done. rewrite H2. simpl. clear. induction N; simpl; auto.
Qed.

(** The search's distances are exact. *)
Lemma bfs_exact : (forall v d, dist_of (bfs g) v = Some d -> cost v d)
  /\ (forall v d, cost v d -> exists d', dist_of (bfs g) v = Some d' /\ (d' <= d)%nat).
Proof.
  destruct init_spec as (lq & B & Hlen & Hnd).
  destruct (loop_spec (bfs_fuel g) (bfs_init g) lq 0 B) as [D B'].
  { rewrite Hnd. unfold bfs_fuel. fold N. nia. }
  unfold bfs. set (s := bfs_loop (bfs_fuel g) g (bfs_init g)) in *. change (dist_of (dist s)) with (dist_at s).
  split; [apply (bi_sound _ _ _ _ B')|].
  assert (forall v d, dist_at s v = Some d -> is_done s v = true) as Hdone.
  { intros v d Hv. destruct (is_done s v) eqn:E; [done|]. by pose proof (bi_queued _ _ _ _ B' v d Hv E) as ?%elem_of_nil. }
  induction 1 as [v Hv|u v d He _ (dv & Hdv & Hle)|u v d He _ (dv & Hdv & Hle)].
  - exists 0%nat. split; [by apply (bi_goal _ _ _ _ B')|done].
  - destruct (bi_step _ _ _ _ B' u v (Hdone v dv Hdv) He) as (du & dv' & Hu & Hv & Hle'). exists du. split; [done|].
    assert (dv' = dv) by congruence. lia.
  - destruct (bi_jump _ _ _ _ B' u v (Hdone v dv Hdv) He) as (du & dv' & Hu & Hv & Hle'). exists du. split; [done|].
    assert (dv' = dv) by congruence. lia.
Qed.

End bfs.
