(* ===== verification/PlanHash.v ===== *)
(** * The additive position hash

    The [keyHasher] of [internal/pitrplan/search.go] sums a quadratic of each sequence
    number modulo 2^64, intervals in closed form. Here the closed form is shown equal to
    the sum it stands for, so that the hash of a set is the sum of its transactions'
    terms, and extending a set by a transaction adds that transaction's term. *)
From S2P Require Import Prelude GoStd Intervals PlanSet PlanIndex Sha256 PlanSearch.

Local Open Scope Z_scope.

Import Plan Index PlanSearch.

(** ** Arithmetic modulo 2^64 *)

Lemma wrapu64_add_l a b : wrapu64 (wrapu64 a + b) = wrapu64 (a + b).
Proof. apply Z.add_mod_idemp_l. done. Qed.

Lemma wrapu64_add_r a b : wrapu64 (a + wrapu64 b) = wrapu64 (a + b).
Proof. apply Z.add_mod_idemp_r. done. Qed.

Lemma wrapu64_mul_l a b : wrapu64 (wrapu64 a * b) = wrapu64 (a * b).
Proof. apply Z.mul_mod_idemp_l. done. Qed.

Lemma wrapu64_mul_r a b : wrapu64 (a * wrapu64 b) = wrapu64 (a * b).
Proof. apply Z.mul_mod_idemp_r. done. Qed.

Lemma wrapu64_sub_l a b : wrapu64 (wrapu64 a - b) = wrapu64 (a - b).
Proof. unfold wrapu64. by rewrite Zminus_mod_idemp_l. Qed.

Lemma wrapu64_sub_r a b : wrapu64 (a - wrapu64 b) = wrapu64 (a - b).
Proof. unfold wrapu64. by rewrite Zminus_mod_idemp_r. Qed.

Lemma wrapu64_wrapu64 a : wrapu64 (wrapu64 a) = wrapu64 a.
Proof. apply Z.mod_mod. done. Qed.

Lemma wrapu64_small a : 0 <= a < 2 ^ 64 -> wrapu64 a = a.
Proof. apply Z.mod_small. Qed.

Lemma wrapu64_add_ll a b c : wrapu64 (wrapu64 a + b + c) = wrapu64 (a + b + c).
Proof. by rewrite <- !Z.add_assoc, wrapu64_add_l. Qed.

Lemma wrapu64_add_lr a b c : wrapu64 (a + wrapu64 b + c) = wrapu64 (a + b + c).
Proof. by rewrite <- wrapu64_add_l, wrapu64_add_r, wrapu64_add_l. Qed.

Create HintDb u64.
#[export] Hint Rewrite wrapu64_add_ll wrapu64_add_lr wrapu64_add_l wrapu64_add_r wrapu64_mul_l wrapu64_mul_r wrapu64_sub_l wrapu64_sub_r wrapu64_wrapu64 : u64.

(** ** Sums of powers *)

(** [fold_sum f l]: the sum of [f] over [l]. *)
Definition fold_sum {A} (f : A -> Z) (l : list A) : Z := foldr (fun x a => f x + a) 0 l.

Lemma fold_sum_app {A} (f : A -> Z) l k : fold_sum f (l ++ k) = fold_sum f l + fold_sum f k.
Proof. induction l as [|x l IH]; simpl; [done|]. rewrite IH. lia. Qed.

Lemma fold_sum_perm {A} (f : A -> Z) l k : l ≡ₚ k -> fold_sum f l = fold_sum f k.
Proof. induction 1; simpl; lia. Qed.

Lemma fold_sum_map {A B} (f : B -> Z) (h : A -> B) l : fold_sum f (map h l) = fold_sum (fun x => f (h x)) l.
Proof. induction l as [|x l IH]; simpl; [done|]. by rewrite IH. Qed.

Lemma fold_sum_flat_map {A B} (f : B -> Z) (h : A -> list B) l :
  fold_sum f (flat_map h l) = fold_sum (fun x => fold_sum f (h x)) l.
Proof. induction l as [|x l IH]; simpl; [done|]. by rewrite fold_sum_app, IH. Qed.

Lemma fold_sum_wrap {A} (f : A -> Z) l : wrapu64 (fold_sum (fun x => wrapu64 (f x)) l) = wrapu64 (fold_sum f l).
Proof.
  induction l as [|x l IH]; simpl; [done|]. autorewrite with u64.
  rewrite <- wrapu64_add_r, IH, wrapu64_add_r. done.
Qed.

(** A loop that adds in 64 bits computes the sum modulo 2^64. *)
Lemma fold_left_wrap {A} (f : A -> Z) l a : fold_left (fun total x => wrapu64 (total + f x)) l (wrapu64 a) = wrapu64 (a + fold_sum f l).
Proof.
  revert a. induction l as [|x l IH]; intros a; simpl; [by rewrite Z.add_0_r|].
  rewrite wrapu64_add_l, IH. f_equal. lia.
Qed.

Lemma sum1_exact m : 0 <= m < 2 ^ 63 -> exists s, sum1 m = wrapu64 s /\ 2 * s = m * (m + 1).
Proof.
  intros Hm. unfold sum1. rewrite (wrapu64_small (m + 1)) by lia.
  destruct (Z.eqb_spec (m mod 2) 0) as [E|E].
  - exists (m / 2 * (m + 1)). split; [done|]. Z.to_euclidean_division_equations. nia.
  - exists (m * ((m + 1) / 2)). split; [done|]. Z.to_euclidean_division_equations. nia.
Qed.

(** Dividing the factors of [m (m + 1) (2 m + 1)] by 2 and 3 is exact. *)
Lemma sum2_exact m : 0 <= m < 2 ^ 63 -> exists s, sum2 m = wrapu64 s /\ 6 * s = m * (m + 1) * (2 * m + 1).
Proof.
  intros Hm. unfold sum2. rewrite (wrapu64_small (m + 1)), (wrapu64_small (2 * m)), (wrapu64_small (2 * m + 1)) by lia.
  set (z := 2 * m + 1).
  assert (exists x y, (if m mod 2 =? 0 then (m / 2, m + 1) else (m, (m + 1) / 2)) = (x, y) /\ 2 * (x * y) = m * (m + 1)
    /\ (x mod 3 <> 0 -> y mod 3 <> 0 -> z mod 3 = 0)) as (x & y & -> & Hxy & Hz).
  { destruct (Z.eqb_spec (m mod 2) 0) as [E|E]; do 2 eexists; (split; [reflexivity|]); unfold z; split.
    - Z.to_euclidean_division_equations. nia.
    - clear Hm. Z.to_euclidean_division_equations. lia.
    - Z.to_euclidean_division_equations. nia.
    - clear Hm. Z.to_euclidean_division_equations. lia. }
  assert (forall a, a mod 3 = 0 -> a = 3 * (a / 3)) as H3 by (intros a Ha; Z.to_euclidean_division_equations; lia).
  rewrite <- Hxy. clearbody z. clear Hm Hxy.
  destruct (Z.eqb_spec (x mod 3) 0) as [Ex|Ex]; [|destruct (Z.eqb_spec (y mod 3) 0) as [Ey|Ey]].
  - exists (x / 3 * y * z). split; [by autorewrite with u64|]. rewrite (H3 x Ex) at 2. lia.
  - exists (x * (y / 3) * z). split; [by autorewrite with u64|]. rewrite (H3 y Ey) at 2. lia.
  - exists (x * y * (z / 3)). split; [by autorewrite with u64|]. rewrite (H3 z (Hz Ex Ey)) at 2. lia.
Qed.

(** The sums over an interval. *)
Lemma gnos_sums c0 c1 c2 a k : 
  6 * fold_sum (fun n => c0 + c1 * n + c2 * n * n) (map (fun i => a + Z.of_nat i) (seq 0 k))
  = let m := a - 1 in let b := m + Z.of_nat k in
    6 * c0 * Z.of_nat k + 3 * c1 * (b * (b + 1) - m * (m + 1)) + c2 * (b * (b + 1) * (2 * b + 1) - m * (m + 1) * (2 * m + 1)).
Proof.
  induction k as [|k IH]; [simpl; lia|]. rewrite seq_S, map_app, fold_sum_app, Z.mul_add_distr_l, IH. simpl. lia.
Qed.

(** The term of a GTID; hashes put in place of the code's are 64 bits wide. *)
Definition term_of (force : hash_override) (g : GTID) : Z := term force (SID g) (GNO g).

Lemma term_poly sid n : 0 <= n < 2 ^ 64 ->
  term None sid n = let '(c0, c1, c2) := coeffs sid in wrapu64 (c0 + c1 * n + c2 * n * n).
Proof.
  intros Hn. unfold term. destruct (coeffs sid) as [[c0 c1] c2]. rewrite (wrapu64_small n) by done.
  by autorewrite with u64.
Qed.

Lemma interval_closed_form force sid x : 1 <= Start x <= End_ x /\ End_ x <= MaxGNO ->
  wrapu64 (hash_interval force sid x) = wrapu64 (fold_sum (term force sid) (gnos x)).
Proof.
  intros Hx. unfold MaxGNO, MaxInt64 in Hx. unfold hash_interval. destruct force as [h|].
  - change 0 with (wrapu64 0) at 1. rewrite fold_left_wrap. by autorewrite with u64.
  - transitivity (let '(c0, c1, c2) := coeffs sid in wrapu64 (fold_sum (fun n => c0 + c1 * n + c2 * n * n) (gnos x))).
    + destruct (coeffs sid) as [[c0 c1] c2]. set (a := Start x) in *. set (b := End_ x) in *.
      rewrite (wrapu64_small a), (wrapu64_small b), (wrapu64_small (a - 1)), (wrapu64_small (b - a)), (wrapu64_small (b - a + 1)) by lia.
      destruct (sum1_exact b) as (s1 & -> & E1); [lia|]. destruct (sum1_exact (a - 1)) as (t1 & -> & F1); [lia|].
      destruct (sum2_exact b) as (s2 & -> & E2); [lia|]. destruct (sum2_exact (a - 1)) as (t2 & -> & F2); [lia|].
      autorewrite with u64. f_equal. unfold gnos. fold a b.
      pose proof (gnos_sums c0 c1 c2 a (Z.to_nat (b - a + 1))) as H. cbv zeta in H.
      rewrite Z2Nat.id in H by lia. replace (a - 1 + (b - a + 1)) with b in H by lia. revert H.
      generalize (fold_sum (fun n => c0 + c1 * n + c2 * n * n) (map (fun i => a + Z.of_nat i) (seq 0 (Z.to_nat (b - a + 1))))).
      intros total H. rewrite <- E2, <- F2, <- E1, <- F1 in H. apply (Z.mul_reg_l _ _ 6); [lia|]. rewrite H. ring.
    + transitivity (wrapu64 (fold_sum (fun n => let '(c0, c1, c2) := coeffs sid in wrapu64 (c0 + c1 * n + c2 * n * n)) (gnos x))).
      * destruct (coeffs sid) as [[c0 c1] c2]. by rewrite fold_sum_wrap.
      * f_equal. assert (Forall (fun n => 0 <= n < 2 ^ 64) (gnos x)) as Hn.
        { apply Forall_forall. intros n Hn%elem_of_gnos. unfold iv_has in Hn. lia. }
        induction Hn as [|n l Hn _ IH]; [done|]. cbn [fold_sum foldr]. unfold fold_sum in IH. by rewrite IH, term_poly.
Qed.

(** ** The hash of a set *)

Lemma elem_of_flat_map_map {A B C} (h : A -> list B) (f : A -> B -> C) l y :
  y ∈ flat_map (fun e => map (f e) (h e)) l <-> exists e, e ∈ l /\ exists x, y = f e x /\ x ∈ h e.
Proof. rewrite elem_of_flat_map. by setoid_rewrite elem_of_map. Qed.

(** The transactions of a set, in the order its map is walked. *)
Definition walked (s : Set_) : list GTID :=
  flat_map (fun e : string * Interval => map (Build_GTID e.1) (gnos e.2)) (flat_map (fun e => map (pair e.1) e.2) (map_to_list s)).

Lemma elem_of_walked s g : g ∈ walked s <-> holds s g.
Proof.
  unfold walked, holds, mem, at_, ivs_has. rewrite elem_of_flat_map. setoid_rewrite elem_of_flat_map. setoid_rewrite elem_of_map.
  setoid_rewrite elem_of_gnos. split.
  - intros ([sid x] & ([sid' l] & Hl%elem_of_map_to_list & y & [= -> ->] & Hx) & n & -> & Hn). simpl in *. rewrite Hl. by exists y.
  - intros (x & Hx & Hn). destruct (s !! SID g) as [l|] eqn:E; simpl in Hx; [|by apply not_elem_of_nil in Hx].
    exists (SID g, x). split; [exists (SID g, l); split; [by apply elem_of_map_to_list|by exists x]|]. exists (GNO g). by destruct g.
Qed.

Lemma walked_length s : canonical s -> length (walked s) = length (GTIDs s).
Proof.
  intros Hs. unfold walked, GTIDs, Plan.sids. rewrite (flat_map_length_perm _ (sort_strings _) (map fst (map_to_list s))) by apply merge_sort_Permutation.
  assert (forall p, p ∈ map_to_list s -> at_ s p.1 = p.2) as Hp.
  { intros [sid l] Hin%elem_of_map_to_list. unfold at_. simpl. by rewrite Hin. }
  induction (map_to_list s) as [|[sid l] ps IH]; simpl; [done|].
  rewrite flat_map_app, !length_app, IH by (intros; apply Hp; by right). pose proof (Hp (sid, l) ltac:(left)) as E. simpl in E. rewrite E. f_equal.
  clear. induction l as [|x l IH]; simpl; [done|]. by rewrite !length_app, IH.
Qed.

Lemma gtid_lt_irrefl g : ~ gtid_lt g g.
Proof. unfold gtid_lt, Less. rewrite decide_True by done. rewrite Z.ltb_lt. lia. Qed.

Lemma sorted_irrefl_nodup {A} (R : relation A) l : (forall x, ~ R x x) -> StronglySorted R l -> NoDup l.
Proof.
  intros HR. induction 1 as [|x l _ IH Hx]; constructor; [|done]. intros Hin. rewrite Forall_forall in Hx. by apply (HR x), Hx.
Qed.

Lemma GTIDs_NoDup s : canonical s -> NoDup (GTIDs s).
Proof. intros Hs. eapply sorted_irrefl_nodup; [apply gtid_lt_irrefl|by apply GTIDs_sorted]. Qed.

Lemma walked_perm s : canonical s -> walked s ≡ₚ GTIDs s.
Proof.
  intros Hs. symmetry. apply submseteq_length_Permutation.
  - apply NoDup_submseteq; [by apply GTIDs_NoDup|]. intros g Hg. by apply elem_of_walked, elem_of_GTIDs.
  - by rewrite walked_length.
Qed.

(** The hash of a set is the sum of its transactions' terms. *)
Lemma hash_set_sum force s : canonical s -> hash_set force s = wrapu64 (fold_sum (term_of force) (GTIDs s)).
Proof.
  intros Hs. rewrite <- (fold_sum_perm _ _ _ (walked_perm s Hs)). unfold hash_set, walked.
  change 0 with (wrapu64 0) at 1. rewrite fold_left_wrap, Z.add_0_l.
  assert (Forall (fun e : string * Interval => 1 <= Start e.2 <= End_ e.2 /\ End_ e.2 <= MaxGNO) (flat_map (fun e => map (pair e.1) e.2) (map_to_list s))) as He.
  { apply Forall_forall. intros e ([sid l] & Hl%elem_of_map_to_list & x & -> & Hx)%elem_of_flat_map_map. simpl in *.
    destruct (canonical_issued s Hs sid l Hl) as [_ H]. rewrite Forall_forall in H. specialize (H x Hx). lia. }
  induction He as [|e l H _ IH]; [done|]. cbn [flat_map]. rewrite fold_sum_app, (fold_sum_map (term_of force) (Build_GTID e.1)).
  change (wrapu64 (hash_interval force e.1 e.2 + fold_sum (fun e => hash_interval force e.1 e.2) l)
          = wrapu64 (fold_sum (term force e.1) (gnos e.2) + fold_sum (term_of force) (flat_map (fun e => map (Build_GTID e.1) (gnos e.2)) l))).
  rewrite <- wrapu64_add_r, IH, wrapu64_add_r, <- wrapu64_add_l, (interval_closed_form force e.1 e.2 H). apply wrapu64_add_l.
Qed.

Lemma GTIDs_add s g : canonical s -> 1 <= GNO g <= MaxGNO -> ~ holds s g -> GTIDs (add s g).1 ≡ₚ g :: GTIDs s.
Proof.
  intros Hs Hg Hn. apply NoDup_Permutation.
  - by apply GTIDs_NoDup, canonical_add.
  - constructor; [by rewrite elem_of_GTIDs|by apply GTIDs_NoDup].
  - intros h. rewrite elem_of_cons, !elem_of_GTIDs. change (holds (add s g).1 h <-> h = g \/ holds s h). rewrite holds_add by done. tauto.
Qed.

(** Extending a set by a transaction adds its term and one to the count. *)
Lemma hash_set_add force s g : canonical s -> 1 <= GNO g <= MaxGNO -> ~ holds s g ->
  hash_set force (add s g).1 = wrapu64 (hash_set force s + term_of force g).
Proof.
  intros Hs Hg Hn. rewrite !hash_set_sum by auto with go_list. rewrite (fold_sum_perm _ _ _ (GTIDs_add s g Hs Hg Hn)).
  rewrite wrapu64_add_l. f_equal. apply Z.add_comm.
Qed.

Lemma cardinal_add s g : canonical s -> 1 <= GNO g <= MaxGNO -> ~ holds s g -> cardinal (add s g).1 = cardinal s + 1.
Proof.
  intros Hs Hg Hn. rewrite <- !cardinal_length by auto with go_list. rewrite (Permutation_length (GTIDs_add s g Hs Hg Hn)). simpl. lia.
Qed.

Lemma Count_cardinal s : canonical s -> cardinal s <= MaxInt64 -> Count s = cardinal s.
Proof.
  intros Hs Hc. unfold Count. rewrite count_loop_spec; [|by apply all_intervals_issued|unfold MaxInt64; lia].
  unfold cardinal in *. lia.
Qed.

Lemma cardinal_subset s o : canonical s -> canonical o -> (forall g, holds s g -> holds o g) -> cardinal s <= cardinal o.
Proof.
  intros Hs Ho H. rewrite <- !cardinal_length by done. apply inj_le, submseteq_length, NoDup_submseteq; [by apply GTIDs_NoDup|].
  intros g. rewrite !elem_of_GTIDs. apply H.
Qed.
