(* ===== verification/PlanGraph.v ===== *)
(** * What the search graph stands for

    [buildGraph] of [internal/pitrplan/search.go]: the flat positions are the pairs of a
    file and an index in it, the running hash and count of a position are those of its
    key, the positions whose exact key is materialised are all that can start, end or
    continue a plan in another file, and the classes are the equal keys among them. *)
From S2P Require Import Prelude GoStd Intervals GtidSet PlanSet PlanIndex Sha256 PlanSearch PlanHash.

Local Open Scope Z_scope.

Import GTID Plan Index PlanSearch.

(** ** Positions *)

(** The first position of file [k]. *)
Fixpoint offset (fs : list file) (k : nat) : nat :=
  match fs, k with
  | f :: fs, S k => (S (n_txns f) + offset fs k)%nat
  | _, _ => 0%nat
  end.

Definition n_positions (fs : list file) : nat := offset fs (length fs).

(** [v] is the position [i] of file [k]. *)
Definition at_pos (fs : list file) (v k : nat) (f : file) (i : nat) : Prop :=
  fs !! k = Some f /\ (i <= n_txns f)%nat /\ v = (offset fs k + i)%nat.

Lemma offsets_lookup fs : forall from k, (k <= length fs)%nat -> offsets from fs !! k = Some (from + offset fs k)%nat.
Proof.
  induction fs as [|f fs IH]; intros from [|k] Hk; simpl in *; try lia; try (f_equal; lia).
  rewrite IH by lia. f_equal. lia.
Qed.

Lemma offsets_length fs : forall from, length (offsets from fs) = S (length fs).
Proof. induction fs as [|f fs IH]; intros from; simpl; [done|]. by rewrite IH. Qed.

Lemma offset_S fs k f : fs !! k = Some f -> offset fs (S k) = (offset fs k + S (n_txns f))%nat.
Proof.
  revert k. induction fs as [|f' fs IH]; intros [|k] Hk; try done.
  - injection Hk as ->. simpl. destruct fs; simpl; lia.
  - simpl in Hk. cbn [offset]. rewrite (IH k Hk). simpl. lia.
Qed.

Lemma offset_mono fs j k : (j <= k)%nat -> (offset fs j <= offset fs k)%nat.
Proof. revert j k. induction fs as [|f fs IH]; intros [|j] [|k] H; simpl; try lia. pose proof (IH j k). lia. Qed.

Lemma at_pos_bound fs v k f i : at_pos fs v k f i -> (offset fs k <= v < offset fs (S k))%nat /\ (v < n_positions fs)%nat.
Proof.
  intros (Hk & Hi & ->). pose proof (offset_S fs k f Hk). pose proof (lookup_lt_Some _ _ _ Hk).
  pose proof (offset_mono fs (S k) (length fs) ltac:(lia)). unfold n_positions. lia.
Qed.

Lemma locate fs v : (v < n_positions fs)%nat -> exists k f i, at_pos fs v k f i.
Proof.
  unfold n_positions, at_pos. revert v. induction fs as [|f fs IH]; intros v Hv; simpl in Hv; [lia|].
  destruct (decide (v <= n_txns f)%nat) as [H|H].
  - exists 0%nat, f, v. done.
  - destruct (IH (v - S (n_txns f))%nat ltac:(lia)) as (k & f' & i & H1 & H2 & H3). exists (S k), f', i. simpl. split_and!; [done..|lia].
Qed.

Lemma at_pos_inj fs v k f i k' f' i' : at_pos fs v k f i -> at_pos fs v k' f' i' -> k = k' /\ f = f' /\ i = i'.
Proof.
  intros H H'. pose proof (at_pos_bound _ _ _ _ _ H) as [B _]. pose proof (at_pos_bound _ _ _ _ _ H') as [B' _].
  destruct (Nat.lt_trichotomy k k') as [Hlt|[->|Hlt]].
  - pose proof (offset_mono fs (S k) k' Hlt). lia.
  - destruct H as (H1 & H2 & H3), H' as (H1' & H2' & H3'). split_and!; [done|congruence|lia].
  - pose proof (offset_mono fs (S k') k Hlt). lia.
Qed.

Lemma fileOf_at fs v k f i : at_pos fs v k f i -> fileOf (offsets 0 fs) v = k.
Proof.
  intros H. pose proof (at_pos_bound _ _ _ _ _ H) as [B _]. destruct H as (Hk & Hi & _).
  pose proof (lookup_lt_Some _ _ _ Hk) as Hlt. unfold fileOf. rewrite offsets_length, Nat.sub_succ, Nat.sub_0_r.
  assert (forall j, (j < length fs)%nat -> default 0%nat (offsets 0 fs !! S j) = offset fs (S j)) as E.
  { intros j Hj. by rewrite offsets_lookup by lia. }
  apply Search_unique.
  - intros a b [Hab Hb]. rewrite !E by lia. rewrite !Nat.ltb_lt. pose proof (offset_mono fs (S a) (S b) ltac:(lia)). lia.
  - lia.
  - intros j Hj. rewrite E by lia. apply Nat.ltb_ge. pose proof (offset_mono fs (S j) k Hj). lia.
  - right. rewrite E by done. apply Nat.ltb_lt. lia.
Qed.

Lemma fileOf_mono fs u v : (u <= v)%nat -> (v < n_positions fs)%nat -> (fileOf (offsets 0 fs) u <= fileOf (offsets 0 fs) v)%nat.
Proof.
  intros Hu Hv. destruct (locate fs u ltac:(lia)) as (k & f & i & H). destruct (locate fs v Hv) as (k' & f' & i' & H').
  rewrite (fileOf_at _ _ _ _ _ H), (fileOf_at _ _ _ _ _ H'). apply at_pos_bound in H as [H _], H' as [H' _].
  destruct (decide (k <= k')%nat) as [|Hn]; [done|]. pose proof (offset_mono fs (S k') k ltac:(lia)). lia.
Qed.

(** Tables with one row per file, flattened. *)
Lemma flat_lookup {A} (F : nat -> file -> list A) fs v k f i :
  (forall j f, length (F j f) = S (n_txns f)) -> at_pos fs v k f i -> concat (imap F fs) !! v = F k f !! i.
Proof.
  intros HF (Hk & Hi & ->). revert F HF k Hk. induction fs as [|f' fs IH]; intros F HF k Hk; [done|].
  rewrite imap_cons. simpl. destruct k as [|k]; simpl in *.
  - injection Hk as ->. rewrite lookup_app_l; [done|]. rewrite HF. lia.
  - rewrite lookup_app_r by (rewrite HF; lia). rewrite HF.
    replace (S (n_txns f' + offset fs k + i) - S (n_txns f'))%nat with (offset fs k + i)%nat by lia.
    rewrite (IH (F ∘ S)); [done|intros; apply HF|done].
Qed.

Lemma flat_length {A} (F : nat -> file -> list A) fs :
  (forall j f, length (F j f) = S (n_txns f)) -> length (concat (imap F fs)) = n_positions fs.
Proof.
  unfold n_positions. revert F. induction fs as [|f fs IH]; intros F HF; [done|]. rewrite imap_cons. simpl.
  rewrite length_app, HF, (IH (F ∘ S)) by (intros; apply HF). simpl. lia.
Qed.

Lemma flat_map_imap {A B} (F : A -> list B) l : flat_map F l = concat (imap (fun _ => F) l).
Proof. induction l as [|x l IH]; [done|]. rewrite imap_cons. simpl. by rewrite IH. Qed.

Lemma flat_map_lookup {A} (F : file -> list A) fs v k f i :
  (forall f, length (F f) = S (n_txns f)) -> at_pos fs v k f i -> flat_map F fs !! v = F f !! i.
Proof. intros HF H. rewrite flat_map_imap. exact (flat_lookup (fun _ => F) fs v k f i (fun _ => HF) H). Qed.

(** ** Keys *)

(** A file as the planner ingests it: its index is well formed, its transactions are not
    in its base, its executed set is both, its identifiers are printable, and no set
    reaches 2^63. *)
Record file_ok (f : file) : Prop := {
  fo_index : index_wf (f_idx f);
  fo_prev : canonical (f_prev f);
  fo_exec : f_exec f = Union (f_prev f) (Index_GTIDs (f_idx f));
  fo_fresh : forall g, g ∈ f_gtids f -> ~ holds (f_prev f) g;
  fo_sids : forall g, holds (f_exec f) g -> sid_ok (SID g);
  fo_card : cardinal (f_exec f) <= MaxInt64
}.

Lemma fo_range f : file_ok f -> forall g, g ∈ f_gtids f -> 1 <= GNO g <= MaxGNO.
Proof. intros H. apply wf_range, H. Qed.

Lemma fo_nodup f : file_ok f -> NoDup (f_gtids f).
Proof. intros H. apply wf_nodup, H. Qed.

Lemma fo_exec_holds f : file_ok f -> canonical (f_exec f) /\ forall g, holds (f_exec f) g <-> holds (f_prev f) g \/ g ∈ f_gtids f.
Proof.
  intros H. destruct (wf_canonical _ (fo_index f H)) as (C & _ & _). rewrite (fo_exec f H).
  split; [by apply canonical_Union; [apply H|]|]. intros g. rewrite holds_Union by (done || apply H).
  by rewrite (wf_gtids _ (fo_index f H)).
Qed.

(** A set whose identifiers are printable. *)
Definition printable_set (s : Set_) : Prop := canonical s /\ forall g, holds s g -> sid_ok (SID g).

Lemma Set_String_inj s o : printable_set s -> printable_set o -> Set_String s = Set_String o -> s = o.
Proof.
  assert (forall s, printable_set s -> ParseSet (Set_String s) = Ok s) as H.
  { intros t [Ht Hs]. apply ParseSet_String; [done|]. intros sid l Hl. destruct (canonical_lookup t sid l Ht Hl) as [Hn [Hc _]].
    destruct (ivs_has_nonempty l 1 Hc Hn) as [n Hn']. apply (Hs {| SID := sid; GNO := n |}). unfold holds, mem, at_. simpl. by rewrite Hl. }
  intros Hs Ho E. pose proof (H s Hs) as E1. rewrite E, (H o Ho) in E1. by injection E1.
Qed.

Definition key_step (X cur : Set_) (g : GTID) : Set_ := if Has X g then cur else (add cur g).1.

(** [Key] of the position [i] of [f]. *)
Definition key_at (X : Set_) (f : file) (i : nat) : Set_ := fold_left (key_step X) (take i (f_gtids f)) (Subtract_ (f_prev f) X).

Lemma keys_from_lookup X gs : forall cur i, (i <= length gs)%nat -> keys_from X cur gs !! i = Some (fold_left (key_step X) (take i gs) cur).
Proof. induction gs as [|g gs IH]; intros cur [|i] Hi; simpl in *; try done; try lia. by rewrite IH by lia. Qed.

Lemma keys_from_length X gs : forall cur, length (keys_from X cur gs) = S (length gs).
Proof. induction gs as [|g gs IH]; intros cur; simpl; [done|]. by rewrite IH. Qed.

Lemma n_txns_gtids f : length (f_gtids f) = n_txns f.
Proof. apply length_map. Qed.

Lemma file_keys_lookup X f i : (i <= n_txns f)%nat -> file_keys X f !! i = Some (key_at X f i).
Proof. intros Hi. apply keys_from_lookup. by rewrite n_txns_gtids. Qed.

Lemma key_fold_spec X gs : canonical X -> forall cur, canonical cur -> (forall g, g ∈ gs -> 1 <= GNO g <= MaxGNO) ->
  canonical (fold_left (key_step X) gs cur)
  /\ forall h, holds (fold_left (key_step X) gs cur) h <-> holds cur h \/ (h ∈ gs /\ ~ holds X h).
Proof.
  intros HX. induction gs as [|g gs IH]; intros cur Hc Hg; simpl.
  - split; [done|]. intros h. rewrite elem_of_nil. tauto.
  - assert (1 <= GNO g <= MaxGNO) as Hg0 by (apply Hg; left).
    destruct (IH (key_step X cur g)) as [IH1 IH2]; [unfold key_step; destruct (Has X g); auto with go_list|intros; apply Hg; by right|].
    split; [done|]. intros h. rewrite IH2, elem_of_cons. unfold key_step. destruct (Has X g) eqn:E.
    + apply Has_holds in E; [|done]. split; [tauto|]. intros [?|[[->|?] ?]]; tauto.
    + assert (~ holds X g) as Hn by (intros H%Has_holds; [congruence|done]). rewrite holds_add by done.
      split; [intros [[?| ->]|?]; tauto|]. intros [?|[[->|?] ?]]; tauto.
Qed.

Section keys.

Context (X : Set_) (HX : canonical X) (f : file) (Hf : file_ok f).

Lemma take_gtids g i : g ∈ take i (f_gtids f) -> g ∈ f_gtids f.
Proof. intros H. rewrite <- (take_drop i (f_gtids f)). apply elem_of_app. by left. Qed.

Lemma key_at_spec i : canonical (key_at X f i)
  /\ forall h, holds (key_at X f i) h <-> (holds (f_prev f) h \/ h ∈ take i (f_gtids f)) /\ ~ holds X h.
Proof.
  destruct (key_fold_spec X (take i (f_gtids f)) HX (Subtract_ (f_prev f) X)) as [H1 H2].
  - apply canonical_Subtract; [apply Hf|done].
  - intros g Hg%take_gtids. by apply (fo_range f).
  - split; [exact H1|]. intros h. unfold key_at. rewrite H2, holds_Subtract by (done || apply Hf). tauto.
Qed.

Lemma key_at_exec i h : holds (key_at X f i) h -> holds (f_exec f) h.
Proof. destruct (key_at_spec i) as [_ H]. rewrite H. intros [[H1|H1%take_gtids] _]; apply (fo_exec_holds f Hf); auto. Qed.

Lemma key_at_printable i : printable_set (key_at X f i).
Proof. split; [apply key_at_spec|]. intros g Hg%key_at_exec. by apply Hf. Qed.

Lemma key_at_S i g : f_gtids f !! i = Some g -> key_at X f (S i) = key_step X (key_at X f i) g.
Proof. intros Hg. unfold key_at. rewrite (take_S_r _ _ g Hg), fold_left_app. done. Qed.

(** Keys grow along a file. *)
Lemma key_at_mono i j h : (i <= j)%nat -> holds (key_at X f i) h -> holds (key_at X f j) h.
Proof.
  intros Hij. destruct (key_at_spec i) as [_ H1], (key_at_spec j) as [_ H2]. rewrite H1, H2. intros [[H|H] Hx]; split; auto. right.
  rewrite <- (take_drop i (take j (f_gtids f))), elem_of_app, take_take, Nat.min_l by lia. by left.
Qed.

(** Between equal keys, every transaction is in [X]. *)
Lemma key_at_eq_inX i j m g : (i <= m < j)%nat -> key_at X f i = key_at X f j -> f_gtids f !! m = Some g -> holds X g.
Proof.
  intros Hm E Hg. destruct (decide (holds X g)) as [|Hn]; [done|]. exfalso.
  assert (holds (key_at X f j) g) as Hj.
  { destruct (key_at_spec j) as [_ ->]. split; [|done]. right. apply list_elem_of_lookup. exists m. rewrite lookup_take_lt by lia. done. }
  rewrite <- E in Hj. destruct (key_at_spec i) as [_ H]. apply H in Hj as [[Hj|Hj] _].
  - apply (fo_fresh f Hf g); [|done]. by eapply list_elem_of_lookup_2.
  - apply list_elem_of_lookup in Hj as [m' Hm']. apply lookup_take_Some in Hm' as [Hm' Hlt].
    pose proof (NoDup_lookup _ _ _ _ (fo_nodup f Hf) Hg Hm'). lia.
Qed.

Lemma key_at_inX i j : (i <= j)%nat -> (forall m g, (i <= m < j)%nat -> f_gtids f !! m = Some g -> holds X g) -> key_at X f i = key_at X f j.
Proof.
  intros Hij H. apply holds_ext; [apply key_at_spec..|]. intros g. split; [by apply key_at_mono|].
  destruct (key_at_spec i) as [_ H1], (key_at_spec j) as [_ H2]. rewrite H1, H2. intros [[Hg|Hg] Hx]; split; auto. right.
  apply list_elem_of_lookup in Hg as [m Hm]. apply lookup_take_Some in Hm as [Hm Hlt]. apply list_elem_of_lookup.
  destruct (decide (m < i)%nat); [exists m; by rewrite lookup_take_lt by lia|]. destruct Hx. by apply (H m); [lia|].
Qed.

(** The running hash and count of a position are those of its key. *)
Lemma hashes_from_lookup force gs : forall cur i, canonical cur -> NoDup gs -> (forall g, g ∈ gs -> 1 <= GNO g <= MaxGNO) ->
  (forall g, g ∈ gs -> ~ holds cur g) -> (forall g, holds cur g \/ g ∈ gs -> holds (f_exec f) g) -> (i <= length gs)%nat ->
  hashes_from force X (hash_set force cur) (Count cur) gs !! i
  = let key := fold_left (key_step X) (take i gs) cur in Some (hash_set force key, Count key).
Proof.
  induction gs as [|g gs IH]; intros cur [|i] Hc Hnd Hr Hn He Hi; simpl in *; try done; try lia.
  apply NoDup_cons in Hnd as [Hg Hnd]. assert (1 <= GNO g <= MaxGNO) as Hr0 by (apply Hr; left). assert (~ holds cur g) as Hn0 by (apply Hn; left).
  destruct (fo_exec_holds f Hf) as [Ce _]. unfold key_step at 2 4. destruct (Has X g).
  - apply IH; auto; [intros; apply Hr; by right|intros; apply Hn; by right| |lia]. intros h [?|?]; apply He; [by left|right; by right].
  - assert (cardinal (add cur g).1 <= MaxInt64) as Hcard.
    { etrans; [apply (cardinal_subset _ (f_exec f))|apply Hf]; [by apply canonical_add|done|].
      intros h [Hh| ->]%holds_add; [apply He; by left|apply He; right; left|done..]. }
    pose proof (cardinal_add cur g Hc Hr0 Hn0) as Hadd.
    assert (0 <= cardinal cur) as Hpos by (rewrite <- (cardinal_length cur Hc); lia).
    assert (wrap64 (Count cur + 1) = Count (add cur g).1) as ->.
    { rewrite !Count_cardinal by (auto with go_list; lia). rewrite wrap64_id; [by rewrite Hadd|]. unfold is_int64, MinInt64 in *. lia. }
    change (term force (SID g) (GNO g)) with (term_of force g). rewrite <- hash_set_add by done.
    apply IH; auto with go_list; [intros; apply Hr; by right| | |lia].
    + intros h Hh [Hh'| ->]%holds_add; [|done|done..]. revert Hh'. apply Hn. by right.
    + intros h [[Hh| ->]%holds_add|Hh]; [apply He; by left|apply He; right; left|done..|apply He; right; by right].
Qed.

Lemma file_hashes_lookup force i : (i <= n_txns f)%nat ->
  file_hashes force X f !! i = Some (hash_set force (key_at X f i), Count (key_at X f i)).
Proof.
  intros Hi. unfold file_hashes. rewrite hashes_from_lookup; [done|..].
  - apply canonical_Subtract; [apply Hf|done].
  - by apply fo_nodup.
  - by apply fo_range.
  - intros g Hg [Hp _]%holds_Subtract; [|apply Hf|done]. by apply (fo_fresh f Hf g).
  - intros g [[Hp _]%holds_Subtract|Hg]; [|apply Hf|done|]; apply (fo_exec_holds f Hf); auto.
  - by rewrite n_txns_gtids.
Qed.

End keys.

Lemma hashes_from_length force X gs : forall hv cv, length (hashes_from force X hv cv gs) = S (length gs).
Proof. induction gs as [|g gs IH]; intros hv cv; simpl; [done|]. by destruct (Has X g); rewrite IH. Qed.

Lemma file_hashes_length force X f : length (file_hashes force X f) = S (n_txns f).
Proof. unfold file_hashes. by rewrite hashes_from_length, n_txns_gtids. Qed.

Lemma file_keys_length X f : length (file_keys X f) = S (n_txns f).
Proof. unfold file_keys. by rewrite keys_from_length, n_txns_gtids. Qed.

(** ** Buckets *)

Fixpoint takeWhile {A} (p : A -> bool) (l : list A) : list A :=
  match l with x :: l => if p x then x :: takeWhile p l else [] | [] => [] end.

Fixpoint dropWhile {A} (p : A -> bool) (l : list A) : list A :=
  match l with x :: l => if p x then dropWhile p l else x :: l | [] => [] end.

Lemma takeWhile_app_dropWhile {A} (p : A -> bool) l : takeWhile p l ++ dropWhile p l = l.
Proof. induction l as [|x l IH]; simpl; [done|]. destruct (p x); simpl; [by rewrite IH|done]. Qed.

Lemma takeWhile_all {A} (p : A -> bool) l x : x ∈ takeWhile p l -> p x = true.
Proof.
  induction l as [|y l IH]; simpl; [intros []%not_elem_of_nil|]. destruct (p y) eqn:E; [|intros []%not_elem_of_nil].
  intros [->|]%elem_of_cons; auto.
Qed.

(** The run of entries equal to the first. *)
Lemma buckets_cons {A} (same : A -> A -> bool) fuel x l :
  buckets same (S fuel) (x :: l) = (x :: takeWhile (same x) l) :: buckets same fuel (dropWhile (same x) l).
Proof.
  simpl. set (run := fix run (l : list A) : list A * list A := _).
  assert (forall l, run l = (takeWhile (same x) l, dropWhile (same x) l)) as ->; [|done].
  clear. induction l as [|y l IH]; simpl; [done|]. by destruct (same x y); [rewrite IH|].
Qed.

Section buckets.

Context {A : Type} (same : A -> A -> bool) (R : relation A).
Context (same_refl : forall x, same x x = true) (same_trans : forall x y z, same x y = true -> same y z = true -> same x z = true)
  (same_sym : forall x y, same x y = true -> same y x = true)
  (same_convex : forall x y z, R x y -> R y z -> same x z = true -> same x y = true).

Lemma run_complete x l : StronglySorted R (x :: l) -> forall y, y ∈ dropWhile (same x) l -> same x y = false.
Proof.
  induction l as [|a l IH]; simpl; intros Hs y Hy; [by apply not_elem_of_nil in Hy|].
  apply StronglySorted_cons in Hs as [Hx [Ha Hs]%StronglySorted_cons]. apply Forall_cons in Hx as [Hxa Hx].
  destruct (same x a) eqn:E; [apply IH; [by constructor|done]|]. apply not_true_iff_false. intros Hy'.
  apply elem_of_cons in Hy as [->|Hy]; [congruence|]. rewrite Forall_forall in Ha.
  rewrite (same_convex x a y) in E; [done|done|by apply Ha|done].
Qed.

Lemma dropWhile_sorted x l : StronglySorted R l -> StronglySorted R (dropWhile (same x) l).
Proof. induction 1 as [|y l Hs IH Hy]; simpl; [constructor|]. destruct (same x y); [done|]. by constructor. Qed.

Lemma takeWhile_sorted x l : StronglySorted R l -> StronglySorted R (takeWhile (same x) l).
Proof.
  induction 1 as [|y l Hs IH Hy]; simpl; [constructor|]. destruct (same x y); [|constructor]. constructor; [done|].
  apply Forall_forall. intros z Hz. rewrite Forall_forall in Hy. apply Hy. rewrite <- (takeWhile_app_dropWhile (same x) l). apply elem_of_app. by left.
Qed.

(** Two equal entries of a sorted list are in one bucket, which is sorted. *)
Lemma buckets_together fuel : forall l u v, (length l <= fuel)%nat -> StronglySorted R l -> u ∈ l -> v ∈ l -> same u v = true ->
  exists b, b ∈ buckets same fuel l /\ u ∈ b /\ v ∈ b /\ StronglySorted R b.
Proof.
  induction fuel as [|fuel IH]; intros l u v Hlen Hs Hu Hv Huv; [destruct l; [by apply not_elem_of_nil in Hu|simpl in Hlen; lia]|].
  destruct l as [|x l]; [by apply not_elem_of_nil in Hu|]. rewrite buckets_cons. simpl in Hlen.
  pose proof (takeWhile_app_dropWhile (same x) l) as Hsplit. pose proof (run_complete x l Hs) as Hrest.
  apply StronglySorted_cons in Hs as [Hx Hs].
  assert (forall w, w ∈ x :: l -> same x w = true -> w ∈ x :: takeWhile (same x) l) as Hin.
  { intros w [->|Hw]%elem_of_cons Hs'; [left|]. right. rewrite <- Hsplit in Hw. apply elem_of_app in Hw as [|Hw]; [done|].
    rewrite (Hrest w Hw) in Hs'. done. }
  destruct (same x u) eqn:Eu.
  - exists (x :: takeWhile (same x) l). split; [left|]. split; [by apply Hin|]. split; [apply Hin; [done|by eapply same_trans]|].
    constructor; [by apply takeWhile_sorted|]. apply Forall_forall. intros z Hz. rewrite Forall_forall in Hx. apply Hx.
    rewrite <- Hsplit. apply elem_of_app. by left.
  - destruct (IH (dropWhile (same x) l) u v) as (b & Hb & H); [|by apply dropWhile_sorted| | |done|].
    + pose proof (f_equal length Hsplit) as HL. rewrite length_app in HL. lia.
    + rewrite <- Hsplit in Hu. apply elem_of_cons in Hu as [->|[Hu|Hu]%elem_of_app]; [by rewrite same_refl in Eu| |done].
      apply takeWhile_all in Hu. congruence.
    + assert (same x v = false) as Ev by (apply not_true_iff_false; intros Ev; apply same_sym in Huv; rewrite (same_trans _ _ _ Ev Huv) in Eu; done).
      rewrite <- Hsplit in Hv. apply elem_of_cons in Hv as [->|[Hv|Hv]%elem_of_app]; [by rewrite same_refl in Ev| |done].
      apply takeWhile_all in Hv. congruence.
    + exists b. split; [by right|done].
Qed.

End buckets.

#[export] Instance hc_le_trans hc : Transitive (hc_le hc).
Proof. intros a b c. unfold hc_le. lia. Qed.

#[export] Instance hc_le_total hc : Total (hc_le hc).
Proof. intros a b. unfold hc_le. lia. Qed.

Lemma last_max {A} (R : relation A) l y x : StronglySorted R l -> last l = Some y -> x ∈ l -> x = y \/ R x y.
Proof.
  intros Hs Hl Hx. apply last_snoc_split in Hl. rewrite Hl in Hx, Hs. apply elem_of_app in Hx as [Hx|Hx%list_elem_of_singleton]; [|by left].
  right. apply StronglySorted_app in Hs as [H _]. by apply (H x y); [|left].
Qed.

(** A bucket over two files is recognised from its ends. *)
Lemma spanning_complete fs hc b u v : StronglySorted (hc_le hc) b -> u ∈ b -> v ∈ b ->
  (forall x y, x ∈ b -> y ∈ b -> hc !! x = hc !! y) -> (forall x, x ∈ b -> (x < n_positions fs)%nat) ->
  fileOf (offsets 0 fs) u <> fileOf (offsets 0 fs) v -> spanning (offsets 0 fs) b = true.
Proof.
  intros Hs Hu Hv Hsame Hn Hne. unfold spanning. destruct b as [|x [|y b]]; [by apply not_elem_of_nil in Hu| |].
  { apply list_elem_of_singleton in Hu as ->. apply list_elem_of_singleton in Hv as ->. done. }
  remember (x :: y :: b) as l eqn:El. destruct (last l) as [z|] eqn:Ez; [|subst l; by rewrite last_cons_cons in Ez; apply last_None in Ez].
  assert (x ∈ l) as Hx by (subst l; left). assert (z ∈ l) as Hz by (rewrite (last_snoc_split _ _ Ez); apply elem_of_app; right; by left).
  assert (forall w, w ∈ l -> (x <= w)%nat) as H1.
  { intros w Hw. assert (x = w \/ hc_le hc x w) as [->|H]; [|done|].
    - subst l. apply StronglySorted_cons in Hs as [Hs _]. rewrite Forall_forall in Hs. apply elem_of_cons in Hw as [->|Hw]; [by left|right; by apply Hs].
    - unfold hc_le in H. rewrite (Hsame x w Hx Hw) in H. lia. }
  assert (forall w, w ∈ l -> (w <= z)%nat) as H2.
  { intros w Hw. destruct (last_max _ l z w Hs Ez Hw) as [->|H]; [done|]. unfold hc_le in H. rewrite (Hsame w z Hw Hz) in H. lia. }
  subst l. apply negb_true_iff, Nat.eqb_neq. intros E.
  assert (forall w, w ∈ x :: y :: b -> fileOf (offsets 0 fs) w = fileOf (offsets 0 fs) x) as H.
  { intros w Hw. pose proof (fileOf_mono fs x w (H1 w Hw) (Hn w Hw)). pose proof (fileOf_mono fs w z (H2 w Hw) (Hn z Hz)). lia. }
  apply Hne. by rewrite (H u Hu), (H v Hv).
Qed.

Lemma buckets_same {A} (same : A -> A -> bool) fuel : forall l b, b ∈ buckets same fuel l ->
  (exists x, x ∈ b /\ forall y, y ∈ b -> y = x \/ same x y = true) /\ forall y, y ∈ b -> y ∈ l.
Proof.
  induction fuel as [|fuel IH]; intros l b Hb; [by apply not_elem_of_nil in Hb|].
  destruct l as [|x l]; [by apply not_elem_of_nil in Hb|]. rewrite buckets_cons in Hb.
  pose proof (takeWhile_app_dropWhile (same x) l) as Hsplit. apply elem_of_cons in Hb as [->|Hb].
  - split.
    + exists x. split; [left|]. intros y [->|Hy]%elem_of_cons; [by left|right]. by eapply takeWhile_all.
    + intros y [->|Hy]%elem_of_cons; [left|right]. rewrite <- Hsplit. apply elem_of_app. by left.
  - destruct (IH _ _ Hb) as [H1 H2]. split; [done|]. intros y Hy. right. rewrite <- Hsplit. apply elem_of_app. right. by apply H2.
Qed.

(** The positions whose exact key is materialised. *)
Lemma needed_lookup offs hc hB hG v x : hc !! v = Some x ->
  exists b, needed_positions offs hc hB hG !! v = Some b /\ (x = hB -> b = true) /\ (x = hG -> b = true).
Proof.
  intros Hx. unfold needed_positions. rewrite list_lookup_imap, Hx. simpl. eexists. split; [reflexivity|].
  split; intros ->; rewrite (bool_decide_true _ eq_refl), ?orb_true_r; done.
Qed.

Lemma needed_spanning fs hc hB hG u v x : length hc = n_positions fs -> hc !! u = Some x -> hc !! v = Some x ->
  fileOf (offsets 0 fs) u <> fileOf (offsets 0 fs) v -> needed_positions (offsets 0 fs) hc hB hG !! v = Some true.
Proof.
  intros Hlen Hu Hv Hne. unfold needed_positions. rewrite list_lookup_imap, Hv. simpl. f_equal.
  set (idx := merge_sort (hc_le hc) (seq 0 (length hc))).
  set (same := fun a b => bool_decide (default (0, 0) (hc !! a) = default (0, 0) (hc !! b))).
  assert (forall w, w ∈ idx <-> (w < length hc)%nat) as Hidx.
  { intros w. unfold idx. rewrite merge_sort_Permutation, elem_of_seq. lia. }
  destruct (buckets_together same (hc_le hc)) with (fuel := length hc) (l := idx) (u := u) (v := v) as (b & Hb & Hub & Hvb & Hs).
  - intros a. by apply bool_decide_eq_true.
  - intros a b c H1%bool_decide_eq_true H2%bool_decide_eq_true. apply bool_decide_eq_true. congruence.
  - intros a b ?%bool_decide_eq_true. by apply bool_decide_eq_true.
  - intros a b c H1 H2 H3%bool_decide_eq_true. apply bool_decide_eq_true. unfold hc_le in *.
    revert H1 H2 H3. generalize (default (0, 0) (hc !! a)), (default (0, 0) (hc !! b)), (default (0, 0) (hc !! c)).
    intros [a1 a2] [b1 b2] [c1 c2] H1 H2 [= -> ->]. simpl in *. f_equal; lia.
  - unfold idx. rewrite (Permutation_length (merge_sort_Permutation _ _)), length_seq. done.
  - apply StronglySorted_merge_sort; apply _.
  - apply Hidx. by eapply lookup_lt_Some.
  - apply Hidx. by eapply lookup_lt_Some.
  - apply bool_decide_eq_true. by rewrite Hu, Hv.
  - rewrite (bool_decide_true (v ∈ _)); [done|]. apply list_elem_of_In, in_concat. exists b. rewrite <- !list_elem_of_In. split; [|done].
    apply elem_of_filter_bool. split; [done|]. destruct (buckets_same _ _ _ _ Hb) as [(z & Hz & Hall) Hsub].
    assert (forall w, w ∈ b -> (w < n_positions fs)%nat) as Hlt by (intros w Hw; rewrite <- Hlen; apply Hidx; by apply Hsub).
    apply (spanning_complete fs hc b u v); try done.
    assert (forall w, w ∈ b -> hc !! w = hc !! z) as Hz'.
    { intros w Hw. destruct (Hall w Hw) as [->|E%bool_decide_eq_true]; [done|]. rewrite <- Hlen in Hlt.
      destruct (lookup_lt_is_Some_2 hc w (Hlt w Hw)) as [a Ea]. destruct (lookup_lt_is_Some_2 hc z (Hlt z Hz)) as [c Ec].
      rewrite Ea, Ec in *. simpl in E. congruence. }
    intros a c Ha Hc. by rewrite (Hz' a Ha), (Hz' c Hc).
Qed.

(** ** Classes *)

Lemma lookup_snoc_Some {A} (l : list A) x i y : (l ++ [x]) !! i = Some y <-> l !! i = Some y \/ (i = length l /\ y = x).
Proof.
  rewrite lookup_app_Some, list_lookup_singleton_Some. split.
  - intros [?|(H1 & H2 & <-)]; [by left|right]. split; [lia|done].
  - intros [?|[-> ->]]; [by left|right]. split; [done|]. split; [lia|done].
Qed.

(** After the positions [ps]: the flags and the class of each needed one follow its key. *)
Record classes_of (bStr gStr : string) (ps : list (nat * bool * Set_)) (s : class_state) : Prop := {
  c_len : length (cs_class s) = length ps /\ length (cs_start s) = length ps /\ length (cs_goal s) = length ps;
  c_start : forall v k nd key, ps !! v = Some (k, nd, key) -> cs_start s !! v = Some (nd && bool_decide (Set_String key = bStr));
  c_goal : forall v k nd key, ps !! v = Some (k, nd, key) -> cs_goal s !! v = Some (nd && bool_decide (Set_String key = gStr));
  c_class : forall v k (nd : bool) key, ps !! v = Some (k, nd, key) ->
    cs_class s !! v = Some (if nd then classes s !! Set_String key else None) /\ (nd = true -> is_Some (classes s !! Set_String key));
  c_inj : forall a b c, classes s !! a = Some c -> classes s !! b = Some c -> a = b;
  c_range : forall a c, classes s !! a = Some c -> (c < length (classFirst s))%nat;
  c_multi_len : length (classMulti s) = length (classFirst s);
  c_first : forall c k, classFirst s !! c = Some k -> exists v key, ps !! v = Some (k, true, key) /\ classes s !! Set_String key = Some c;
  c_multi : forall v k key c k0, ps !! v = Some (k, true, key) -> classes s !! Set_String key = Some c ->
    classFirst s !! c = Some k0 -> k <> k0 -> classMulti s !! c = Some true
}.

(** An entry of one of the arrays after a position: an old one by [field], or the new
    one, at the length [L]. *)
Ltac snoc_entry field L :=
  intros v k' nd' key' [H|[-> [= -> -> ->]]]%lookup_snoc_Some; apply lookup_snoc_Some; [left; by eapply field|right; by rewrite L].

Lemma class_step_spec bStr gStr ps s pos s' : classes_of bStr gStr ps s -> class_step bStr gStr s pos = Ok s' ->
  classes_of bStr gStr (ps ++ [pos]) s'.
Proof.
  intros [[L1 [L2 L3]]] E. destruct pos as [[k nd] key]. unfold class_step in E. destruct nd; simpl in E; cycle 1.
  { injection E as <-. constructor; simpl; try done.
    - by rewrite !length_app, L1, L2, L3.
    - snoc_entry c_start0 L2.
    - snoc_entry c_goal0 L3.
    - intros v k' nd' key' [H|[-> [= -> -> ->]]]%lookup_snoc_Some; rewrite lookup_snoc_Some.
      + destruct (c_class0 _ _ _ _ H). split; [by left|done].
      + split; [right; by rewrite L1|done].
    - intros c k' H. destruct (c_first0 c k' H) as (v & key' & H1 & H2). exists v, key'. split; [apply lookup_snoc_Some; by left|done].
    - intros v k' key' c k0 [H|[_ [=]]]%lookup_snoc_Some. by eapply c_multi0. }
  set (str := Set_String key) in *. destruct (classes s !! str) as [id|] eqn:Ec.
  - injection E as <-. constructor; simpl; try done.
    + by rewrite !length_app, L1, L2, L3.
    + snoc_entry c_start0 L2.
    + snoc_entry c_goal0 L3.
    + intros v k' nd' key' [H|[-> [= -> -> ->]]]%lookup_snoc_Some; rewrite lookup_snoc_Some.
      * destruct (c_class0 _ _ _ _ H). split; [by left|done].
      * fold str. rewrite Ec. split; [right; by rewrite L1|done].
    + by destruct (bool_decide _); rewrite ?length_insert.
    + intros c k' H. destruct (c_first0 c k' H) as (v & key' & H1 & H2). exists v, key'. split; [apply lookup_snoc_Some; by left|done].
    + intros v k' key' c k0 [H|[-> [= -> ->]]]%lookup_snoc_Some Hc Hf Hne.
      * pose proof (c_multi0 _ _ _ _ _ H Hc Hf Hne) as Hm. destruct (bool_decide _); [|done].
        apply list_lookup_insert_Some. destruct (decide (id = c)) as [->|]; [left|by right]. split_and!; [done..|by eapply lookup_lt_Some].
      * fold str in Hc. assert (c = id) as -> by congruence. rewrite bool_decide_true by congruence.
        apply list_lookup_insert_eq. rewrite c_multi_len0. by eapply c_range0.
  - destruct (charge _ _) as [c'|]; simpl in E; [|done]. injection E as <-. constructor; simpl; try done.
    + by rewrite !length_app, L1, L2, L3.
    + snoc_entry c_start0 L2.
    + snoc_entry c_goal0 L3.
    + intros v k' nd' key' [H|[-> [= -> -> ->]]]%lookup_snoc_Some; rewrite lookup_snoc_Some.
      * destruct (c_class0 _ _ _ _ H) as [H1 H2]. destruct nd'; [|by split; [left|]].
        destruct (H2 eq_refl) as [c Hc]. rewrite lookup_insert_ne by congruence. split; [by left|done].
      * fold str. rewrite lookup_insert_eq. split; [right; by rewrite L1|done].
    + assert (forall a c, classes s !! a = Some c -> c <> length (classFirst s)) as Hn by (intros a c H; pose proof (c_range0 _ _ H); lia).
      intros a b c Ha Hb. apply lookup_insert_Some in Ha as [[<- <-]|[Ha1 Ha]], Hb as [[<- Hb]|[Hb1 Hb]]; [done|by destruct (Hn _ _ Hb)| |by eapply c_inj0].
      by destruct (Hn _ _ Ha).
    + intros a c H. rewrite length_app. simpl. apply lookup_insert_Some in H as [[_ <-]|[_ H]]; [lia|]. pose proof (c_range0 _ _ H). lia.
    + by rewrite !length_app, c_multi_len0.
    + intros c k' [H|[-> ->]]%lookup_snoc_Some.
      * destruct (c_first0 c k' H) as (v & key' & H1 & H2). exists v, key'. split; [apply lookup_snoc_Some; by left|].
        rewrite lookup_insert_ne; [done|]. congruence.
      * exists (length ps), key. split; [apply lookup_snoc_Some; by right|apply lookup_insert_eq].
    + intros v k' key' c k0 [H|[-> [= -> ->]]]%lookup_snoc_Some Hc Hf Hne.
      * apply lookup_insert_Some in Hc as [[Hs _]|[_ Hc]].
        { destruct (c_class0 _ _ _ _ H) as [_ H2]. destruct (H2 eq_refl) as [c0 Hc0]. congruence. }
        pose proof (c_range0 _ _ Hc). apply lookup_snoc_Some in Hf as [Hf|[-> _]]; [|lia].
        apply lookup_snoc_Some. left. by eapply c_multi0.
      * fold str in Hc. rewrite lookup_insert_eq in Hc. injection Hc as <-.
        apply lookup_snoc_Some in Hf as [Hf%lookup_lt_Some|[_ ->]]; [lia|done].
Qed.

Lemma class_steps_spec bStr gStr qs : forall ps s s', classes_of bStr gStr ps s -> res_fold (class_step bStr gStr) qs s = Ok s' ->
  classes_of bStr gStr (ps ++ qs) s'.
Proof.
  induction qs as [|q qs IH]; intros ps s s' H E; simpl in E; [injection E as <-; by rewrite app_nil_r|].
  destruct (class_step bStr gStr s q) as [t|] eqn:Et; simpl in E; [|done].
  replace (ps ++ q :: qs) with ((ps ++ [q]) ++ qs) by by rewrite <- (assoc_L (++)). apply (IH _ t); [|done]. by eapply class_step_spec.
Qed.

Lemma classes_init bStr gStr c : classes_of bStr gStr []
  {| cs_charges := c; classes := ∅; classFirst := []; classMulti := []; cs_class := []; cs_start := []; cs_goal := [] |}.
Proof. constructor; simpl; try done; intros; rewrite ?lookup_nil, ?lookup_empty in *; done. Qed.

(** ** The graph *)

Lemma members_lookup cls multi c : (c < length multi)%nat ->
  class_members cls multi !! c = Some (if default false (multi !! c)
    then List.filter (fun v => bool_decide (cls !! v = Some (Some c))) (seq 0 (length cls)) else []).
Proof. intros [m Hm]%lookup_lt_is_Some_2. unfold class_members. by rewrite list_lookup_imap, Hm. Qed.

Section graph.

Context (force : hash_override) (lambda X B target : Set_) (fs : list file).
Context (Hlambda : canonical lambda) (HX : canonical X) (HB : printable_set B) (Htarget : printable_set target).
Context (Hfs : Forall file_ok fs).
Context (g : searchGraph) (c0 c1 : charges) (Hbuild : buildGraph force lambda X B fs target c0 = Ok (g, c1)).

Let hc := flat_map (file_hashes force X) fs.
Let needed := needed_positions (offsets 0 fs) hc (hash_set force B, Count B) (hash_set force target, Count target).
Let ps := zip (zip (position_files fs) needed) (flat_map (file_keys X) fs).

Lemma at_file_ok v k f i : at_pos fs v k f i -> file_ok f.
Proof. intros (Hk & _). rewrite Forall_lookup in Hfs. by eapply Hfs. Qed.

Lemma hc_lookup v k f i : at_pos fs v k f i -> hc !! v = Some (hash_set force (key_at X f i), Count (key_at X f i)).
Proof.
  intros H. unfold hc. rewrite (flat_map_lookup _ _ _ _ _ _ (file_hashes_length force X) H).
  apply file_hashes_lookup; [done|by eapply at_file_ok|apply H].
Qed.

Lemma hc_length : length hc = n_positions fs.
Proof. unfold hc. rewrite flat_map_imap. apply flat_length. intros _. apply file_hashes_length. Qed.

Lemma ps_length : length ps = n_positions fs.
Proof.
  unfold ps, needed, needed_positions, position_files. rewrite !length_zip_with, length_imap, hc_length, flat_map_imap.
  rewrite (flat_length (fun _ => file_keys X)) by (intros _; apply file_keys_length).
  rewrite flat_length by (intros; apply length_replicate). lia.
Qed.

(** A position with its flag. *)
Lemma ps_lookup v k f i : at_pos fs v k f i -> exists nd : bool, ps !! v = Some (k, nd, key_at X f i)
  /\ (key_at X f i = B -> nd = true) /\ (key_at X f i = target -> nd = true)
  /\ (forall v' k' f' i', at_pos fs v' k' f' i' -> k' <> k -> key_at X f' i' = key_at X f i -> nd = true).
Proof.
  intros H. pose proof (hc_lookup _ _ _ _ H) as Hh.
  destruct (needed_lookup (offsets 0 fs) hc (hash_set force B, Count B) (hash_set force target, Count target) v _ Hh) as (nd & Hn & H1 & H2).
  exists nd. split; [|split; [|split]].
  - unfold ps. apply lookup_zip_with_Some. exists (k, nd), (key_at X f i). split; [done|]. split.
    + apply lookup_zip_with_Some. exists k, nd. split; [done|]. split; [|done].
      unfold position_files. rewrite (flat_lookup _ _ _ _ _ _ (fun _ _ => length_replicate _ _) H).
      apply lookup_replicate. split; [done|]. destruct H. lia.
    + rewrite (flat_map_lookup _ _ _ _ _ _ (file_keys_length X) H). apply file_keys_lookup. apply H.
  - intros E. apply H1. by rewrite E.
  - intros E. apply H2. by rewrite E.
  - intros v' k' f' i' H' Hne E. pose proof (hc_lookup _ _ _ _ H') as Hh'. rewrite E in Hh'.
    pose proof (needed_spanning fs hc (hash_set force B, Count B) (hash_set force target, Count target) v' v _ hc_length Hh' Hh) as Hs.
    rewrite (fileOf_at _ _ _ _ _ H), (fileOf_at _ _ _ _ _ H') in Hs. specialize (Hs Hne). rewrite Hn in Hs. by injection Hs.
Qed.

Lemma build_spec : exists s, classes_of (Set_String B) (Set_String target) ps s
  /\ g = {| files := fs; stepOK := map (fun f => map (Has (Union lambda X)) (f_gtids f)) fs; inX := map (fun f => map (Has X) (f_gtids f)) fs;
            hash := map fst hc; count := map snd hc; class := cs_class s; start := cs_start s; goal := cs_goal s;
            members := class_members (cs_class s) (classMulti s); off := offsets 0 fs |}.
Proof.
  unfold buildGraph in Hbuild. destruct (charge c0 _) as [h1|]; simpl in Hbuild; [|done].
  destruct (charge h1 _) as [h2|]; simpl in Hbuild; [|done]. fold hc in Hbuild. fold needed in Hbuild. fold ps in Hbuild.
  destruct (res_fold _ _ _) as [s|] eqn:E; simpl in Hbuild; [|done]. injection Hbuild as <- _. exists s. split; [|done].
  apply (class_steps_spec _ _ ps [] _ s (classes_init _ _ _) E).
Qed.

Lemma g_off : off g = offsets 0 fs.
Proof. destruct build_spec as (s & _ & ->). done. Qed.

Lemma g_inX : inX g = map (fun f => map (Has X) (f_gtids f)) fs.
Proof. destruct build_spec as (s & _ & ->). done. Qed.

Lemma g_length : length (class g) = n_positions fs.
Proof. destruct build_spec as (s & Hs & ->). simpl. destruct (c_len _ _ _ _ Hs) as [-> _]. apply ps_length. Qed.

Lemma g_files : files g = fs /\ length (start g) = n_positions fs.
Proof. destruct build_spec as (s & Hs & ->). simpl. destruct (c_len _ _ _ _ Hs) as (_ & -> & _). split; [done|apply ps_length]. Qed.

Lemma g_file v k f i : at_pos fs v k f i -> file_of g v = k.
Proof. intros H. unfold file_of. rewrite g_off. by eapply fileOf_at. Qed.

Lemma g_pos v k f i : at_pos fs v k f i -> pos_of g v = i.
Proof.
  intros H. unfold pos_of. rewrite (g_file _ _ _ _ H), g_off, offsets_lookup by (destruct H as (Hk%lookup_lt_Some & _); lia).
  destruct H as (_ & _ & ->). simpl. lia.
Qed.

Lemma g_stepOK k f : fs !! k = Some f -> stepOK g !! k = Some (map (Has (Union lambda X)) (f_gtids f)).
Proof. intros H. destruct build_spec as (s & _ & ->). simpl. by rewrite list_lookup_fmap, H. Qed.

(** A step is allowed when its transaction is in the history or excluded. *)
Lemma g_step k f m : fs !! k = Some f -> step_ok g k m = true <-> exists gt, f_gtids f !! m = Some gt /\ (holds lambda gt \/ holds X gt).
Proof.
  intros H. unfold step_ok. rewrite (g_stepOK k f H). simpl. rewrite list_lookup_fmap. destruct (f_gtids f !! m) as [gt|] eqn:E; simpl; cycle 1.
  { split; [done|]. by intros (gt & [=] & _). }
  rewrite Has_holds, holds_Union by auto with go_list. split; [intros ?; by exists gt|]. by intros (gt' & [= <-] & ?).
Qed.

Lemma g_start_key v k f i : at_pos fs v k f i -> default false (start g !! v) = true <-> key_at X f i = B.
Proof.
  intros H. destruct build_spec as (s & Hs & ->). simpl. destruct (ps_lookup _ _ _ _ H) as (nd & Hp & H1 & _).
  rewrite (c_start _ _ _ _ Hs _ _ _ _ Hp). simpl. rewrite andb_true_iff, bool_decide_eq_true. split.
  - intros [_ E]. apply Set_String_inj; [by apply key_at_printable; [|eapply at_file_ok]|done..].
  - intros E. split; [by apply H1|by rewrite E].
Qed.

Lemma g_goal_key v k f i : at_pos fs v k f i -> is_goal g v = true <-> key_at X f i = target.
Proof.
  intros H. unfold is_goal. destruct build_spec as (s & Hs & ->). simpl. destruct (ps_lookup _ _ _ _ H) as (nd & Hp & _ & H1 & _).
  rewrite (c_goal _ _ _ _ Hs _ _ _ _ Hp). simpl. rewrite andb_true_iff, bool_decide_eq_true. split.
  - intros [_ E]. apply Set_String_inj; [by apply key_at_printable; [|eapply at_file_ok]|done..].
  - intros E. split; [by apply H1|by rewrite E].
Qed.

Lemma g_class_at v c : class_of g v = Some c -> exists k f i, at_pos fs v k f i.
Proof.
  intros H. apply locate. rewrite <- g_length. unfold class_of in H. destruct (class g !! v) eqn:E; [|done]. by eapply lookup_lt_Some.
Qed.

(** Positions of one class have one key. *)
Lemma g_class_key u v c k f i k' f' i' : at_pos fs u k f i -> at_pos fs v k' f' i' -> class_of g u = Some c -> class_of g v = Some c ->
  key_at X f i = key_at X f' i'.
Proof.
  intros Hu Hv. unfold class_of. destruct build_spec as (s & Hs & ->). simpl.
  destruct (ps_lookup _ _ _ _ Hu) as (n1 & P1 & _). destruct (ps_lookup _ _ _ _ Hv) as (n2 & P2 & _).
  destruct (c_class _ _ _ _ Hs _ _ _ _ P1) as [-> _]. destruct (c_class _ _ _ _ Hs _ _ _ _ P2) as [-> _]. simpl.
  destruct n1; [|done]. destruct n2; [|done]. intros E1 E2.
  apply Set_String_inj; [by apply key_at_printable; [|eapply at_file_ok]..|]. by eapply c_inj.
Qed.

Lemma g_members_at c : (c < length (members g))%nat -> exists m : bool,
  members g !! c = Some (if m then List.filter (fun v => bool_decide (class g !! v = Some (Some c))) (seq 0 (length (class g))) else []).
Proof.
  destruct build_spec as (s & _ & ->). simpl. unfold class_members at 1. rewrite length_imap. intros H. eexists. by apply members_lookup.
Qed.

Lemma g_graph : bfs_graph g.
Proof.
  assert (forall v, (v < length (class g))%nat \/ class g !! v = None) as Hlt.
  { intros v. destruct (class g !! v) eqn:E; [left; by eapply lookup_lt_Some|by right]. }
  assert (forall c l, members g !! c = Some l -> NoDup l /\ forall u, u ∈ l <-> class_of g u = Some c /\ l <> []) as Hm.
  { intros c l Hl. destruct (g_members_at c (lookup_lt_Some _ _ _ Hl)) as [m Hm]. rewrite Hl in Hm. injection Hm as ->. destruct m; cycle 1.
    { split; [constructor|]. intros u. split; [intros []%not_elem_of_nil|by intros []]. }
    split; [apply NoDup_ListNoDup, List.NoDup_filter, List.seq_NoDup|]. intros u. rewrite elem_of_filter_bool, elem_of_seq, bool_decide_eq_true.
    assert (class g !! u = Some (Some c) <-> class_of g u = Some c) as Hc.
    { unfold class_of. destruct (class g !! u) as [o|]; simpl; [|by split]. by split; [intros [= ->]|intros ->]. }
    rewrite Hc. split.
    - intros [_ H]. split; [done|]. intros E. apply not_elem_of_nil with (x := u). rewrite <- E. apply elem_of_filter_bool.
      rewrite elem_of_seq, bool_decide_eq_true, Hc. split; [|done]. destruct (Hlt u) as [|E']; [lia|]. unfold class_of in H. by rewrite E' in H.
    - intros [H _]. split; [|done]. destruct (Hlt u) as [|E']; [lia|]. unfold class_of in H. by rewrite E' in H. }
  constructor.
  - intros v H. unfold is_goal in H. destruct (goal g !! v) eqn:E; [|done]. apply lookup_lt_Some in E. revert E.
    destruct build_spec as (s & Hs & ->). simpl. destruct (c_len _ _ _ _ Hs) as (-> & _ & ->). done.
  - intros v c H. unfold class_of in H. destruct (class g !! v) as [o|] eqn:E; simpl in H; [|done]. subst o.
    pose proof (lookup_lt_Some _ _ _ E) as Hv. split; [done|]. revert E Hv. destruct build_spec as (s & Hs & ->). simpl. intros E Hv.
    unfold class_members. rewrite length_imap, (c_multi_len _ _ _ _ Hs). destruct (c_len _ _ _ _ Hs) as (L & _). rewrite L in Hv.
    destruct (lookup_lt_is_Some_2 ps v Hv) as [[[k nd] key] Hp]. destruct (c_class _ _ _ _ Hs _ _ _ _ Hp) as [H1 _]. rewrite E in H1.
    destruct nd; [|done]. injection H1 as H1. by eapply c_range.
  - intros c u. unfold members_of. destruct (members g !! c) as [l|] eqn:E; simpl; [by apply Hm|].
    split; [intros []%not_elem_of_nil|by intros []].
  - intros c. unfold members_of. destruct (members g !! c) as [l|] eqn:E; simpl; [by apply (Hm c)|constructor].
Qed.

(** Positions of different files with one key are in one class with its members. *)
Lemma g_spanning u v k f i k' f' i' : at_pos fs u k f i -> at_pos fs v k' f' i' -> k <> k' -> key_at X f i = key_at X f' i' -> jedge g u v.
Proof.
  intros Hu Hv Hne E. destruct (ps_lookup _ _ _ _ Hu) as (n1 & P1 & _ & _ & N1). destruct (ps_lookup _ _ _ _ Hv) as (n2 & P2 & _ & _ & N2).
  rewrite (N1 v k' f' i' Hv) in P1 by done. rewrite (N2 u k f i Hu) in P2 by done. clear N1 N2.
  assert (exists c m, class_of g u = Some c /\ class_of g v = Some c /\ members g !! c = Some m /\ u ∈ m) as (c & m & H1 & H2 & H3 & H4).
  { unfold class_of. destruct build_spec as (s & Hs & ->). simpl.
    destruct (c_class _ _ _ _ Hs _ _ _ _ P1) as [Cu Su]. destruct (c_class _ _ _ _ Hs _ _ _ _ P2) as [Cv _]. rewrite <- E in Cv.
    destruct (Su eq_refl) as [c Hc]. rewrite Hc in Cu, Cv. pose proof (c_range _ _ _ _ Hs _ _ Hc) as Hlt.
    destruct (lookup_lt_is_Some_2 _ _ Hlt) as [k0 Hf]. assert (classMulti s !! c = Some true) as Hm.
    { destruct (decide (k = k0)) as [->|Hk0]; [eapply (c_multi _ _ _ _ Hs v k')|eapply (c_multi _ _ _ _ Hs u k)]; eauto. by rewrite <- E. }
    exists c. eexists. rewrite Cu, Cv. do 2 (split; [done|]). split; [apply members_lookup; rewrite (c_multi_len _ _ _ _ Hs); done|].
    rewrite Hm. simpl. apply elem_of_filter_bool. rewrite elem_of_seq, bool_decide_eq_true. split; [|done]. apply lookup_lt_Some in Cu. lia. }
  exists c. split; [done|]. split; [done|]. unfold members_of. rewrite H3. simpl. split; [intros ->; by apply not_elem_of_nil in H4|].
  by rewrite (g_file _ _ _ _ Hu), (g_file _ _ _ _ Hv).
Qed.

End graph.

(** What the search relies on: the graph's arrays stand for the files' positions and
    their keys. *)
Record graph_spec (lambda X B target : Set_) (fs : list file) (g : searchGraph) : Prop := {
  gs_arrays : bfs_graph g;
  gs_length : length (class g) = n_positions fs;
  gs_files : files g = fs /\ length (start g) = n_positions fs;
  gs_file : forall v k f i, at_pos fs v k f i -> file_of g v = k;
  gs_pos : forall v k f i, at_pos fs v k f i -> pos_of g v = i;
  gs_stepOK : forall k f, fs !! k = Some f -> stepOK g !! k = Some (map (Has (Union lambda X)) (f_gtids f));
  gs_inX : forall k f, fs !! k = Some f -> inX g !! k = Some (map (Has X) (f_gtids f));
  gs_step : forall k f m, fs !! k = Some f -> step_ok g k m = true <-> exists gt, f_gtids f !! m = Some gt /\ (holds lambda gt \/ holds X gt);
  gs_start : forall v k f i, at_pos fs v k f i -> default false (start g !! v) = true <-> key_at X f i = B;
  gs_goal : forall v k f i, at_pos fs v k f i -> is_goal g v = true <-> key_at X f i = target;
  gs_class_at : forall v c, class_of g v = Some c -> exists k f i, at_pos fs v k f i;
  gs_class_key : forall u v c k f i k' f' i', at_pos fs u k f i -> at_pos fs v k' f' i' -> class_of g u = Some c -> class_of g v = Some c ->
    key_at X f i = key_at X f' i';
  gs_spanning : forall u v k f i k' f' i', at_pos fs u k f i -> at_pos fs v k' f' i' -> k <> k' -> key_at X f i = key_at X f' i' -> jedge g u v
}.

Arguments gs_arrays {_ _ _ _ _ _} _.
Arguments gs_length {_ _ _ _ _ _} _.
Arguments gs_files {_ _ _ _ _ _} _.
Arguments gs_file {_ _ _ _ _ _} _.
Arguments gs_pos {_ _ _ _ _ _} _.
Arguments gs_stepOK {_ _ _ _ _ _} _.
Arguments gs_inX {_ _ _ _ _ _} _.
Arguments gs_step {_ _ _ _ _ _} _.
Arguments gs_start {_ _ _ _ _ _} _.
Arguments gs_goal {_ _ _ _ _ _} _.
Arguments gs_class_at {_ _ _ _ _ _} _.
Arguments gs_class_key {_ _ _ _ _ _} _.
Arguments gs_spanning {_ _ _ _ _ _} _.

Lemma build_graph_spec force lambda X B target fs g c0 c1 : canonical lambda -> canonical X -> printable_set B -> printable_set target ->
  Forall file_ok fs -> buildGraph force lambda X B fs target c0 = Ok (g, c1) -> graph_spec lambda X B target fs g.
Proof.
  intros Hl HX HB Ht Hfs E. constructor.
  - by eapply g_graph.
  - by eapply g_length.
  - by eapply g_files.
  - by eapply g_file.
  - by eapply g_pos.
  - by eapply g_stepOK.
  - intros k f Hk. rewrite (g_inX _ _ _ _ _ _ _ _ _ E), list_lookup_fmap, Hk. done.
  - by eapply g_step.
  - by eapply g_start_key.
  - by eapply g_goal_key.
  - by eapply g_class_at.
  - by eapply g_class_key.
  - by eapply g_spanning.
Qed.
