(* ===== verification/PlanReplay.v ===== *)
(** * The plan search finds a shortest replay plan

    What a replay plan is, apart from the graph: a list of segments, each replaying a
    stretch of one file from the executed set the server is at. [search] of
    [internal/pitrplan/search.go] returns one with the fewest segments, and refuses for
    another reason than memory only when there is none. *)
From S2P Require Import Prelude GoStd Intervals GtidSet PlanSet PlanIndex Sha256 PlanSearch PlanHash PlanGraph.

Local Open Scope Z_scope.

Import GTID Plan Index PlanSearch.

(** ** Replay plans *)

Definition seg_txns (f : file) (s : rawSegment) : list GTID := take (seg_end s - seg_start s) (drop (seg_start s) (f_gtids f)).

(** Executed sets are those outside [X]. A segment is replayed from exactly the set its
    file has before it, and only transactions of the history or excluded ones are in it. *)
Inductive replays (lambda X : Set_) (fs : list file) : Set_ -> list rawSegment -> Set_ -> Prop :=
| replays_nil E : replays lambda X fs E [] E
| replays_seg s f segs E : fs !! seg_file s = Some f -> (seg_start s <= seg_end s <= n_txns f)%nat ->
    (forall gt, gt ∈ seg_txns f s -> holds lambda gt \/ holds X gt) ->
    replays lambda X fs (fold_left (key_step X) (seg_txns f s) (key_at X f (seg_start s))) segs E ->
    replays lambda X fs (key_at X f (seg_start s)) (s :: segs) E.

Lemma seg_txns_lookup f s m gt : (seg_start s <= seg_end s)%nat ->
  seg_txns f s !! m = Some gt <-> f_gtids f !! (seg_start s + m)%nat = Some gt /\ (seg_start s + m < seg_end s)%nat.
Proof.
  intros Hs. unfold seg_txns. rewrite lookup_take_Some, lookup_drop. split; intros [? ?]; (split; [done|lia]).
Qed.

Lemma key_after f X s : (seg_start s <= seg_end s)%nat ->
  fold_left (key_step X) (seg_txns f s) (key_at X f (seg_start s)) = key_at X f (seg_end s).
Proof.
  intros Hs. unfold key_at, seg_txns. rewrite <- fold_left_app. f_equal.
  rewrite take_take_drop. f_equal. lia.
Qed.

(** Segments that include nothing can be left out. *)
Lemma replays_filter lambda X fs E segs E' (keep : rawSegment -> bool) : canonical X ->
  (forall s f, fs !! seg_file s = Some f -> (seg_start s <= seg_end s <= n_txns f)%nat -> keep s = false -> forall gt, gt ∈ seg_txns f s -> holds X gt) ->
  replays lambda X fs E segs E' -> replays lambda X fs E (List.filter keep segs) E'.
Proof.
  intros HX Hk. induction 1 as [E|s f segs E Hf Hs Ha _ IH]; simpl; [constructor|].
  destruct (keep s) eqn:Ek; [by econstructor|]. specialize (Hk s f Hf Hs Ek). revert IH.
  enough (fold_left (key_step X) (seg_txns f s) (key_at X f (seg_start s)) = key_at X f (seg_start s)) as ->; [done|].
  clear Ha. generalize (key_at X f (seg_start s)). induction (seg_txns f s) as [|gt l IH]; intros cur; simpl; [done|].
  rewrite IH by (intros; apply Hk; by right). unfold key_step. destruct (Has X gt) eqn:Eh; [done|].
  assert (Has X gt = true); [|congruence]. apply Has_holds; [done|]. apply Hk. left.
Qed.

(** ** The walk and the bound *)

Section plan.

Context (lambda X B target : Set_) (fs : list file) (HX : canonical X) (Hfs : Forall file_ok fs).
Context (g : searchGraph) (G : graph_spec lambda X B target fs g).

Lemma at_next v k f i : at_pos fs v k f i -> (i < n_txns f)%nat -> at_pos fs (S v) k f (S i).
Proof. intros (H1 & H2 & ->) Hi. split; [done|]. split; lia. Qed.

Lemma at_exists k f i : fs !! k = Some f -> (i <= n_txns f)%nat -> at_pos fs (offset fs k + i) k f i.
Proof. done. Qed.

Lemma step_edge v k f i gt : at_pos fs v k f i -> f_gtids f !! i = Some gt -> holds lambda gt \/ holds X gt -> sedge g v (S v).
Proof.
  intros H Hgt Ha. assert (i < n_txns f)%nat as Hi by (rewrite <- n_txns_gtids; by eapply lookup_lt_Some).
  pose proof (at_next _ _ _ _ H Hi) as H'. split; [done|].
  rewrite (gs_length G). split; [by eapply at_pos_bound|].
  rewrite (gs_file G _ _ _ _ H'), (gs_pos G _ _ _ _ H').
  split; [lia|]. simpl. rewrite Nat.sub_0_r.
  eapply (gs_step G); [apply H|]. by exists gt.
Qed.

(** Steps over a stretch cost nothing. *)
Lemma steps_cost u v k f i j d : at_pos fs u k f i -> at_pos fs v k f j -> (i <= j)%nat ->
  (forall m gt, (i <= m < j)%nat -> f_gtids f !! m = Some gt -> holds lambda gt \/ holds X gt) -> cost g v d -> cost g u d.
Proof.
  remember (j - i)%nat as n eqn:En. revert u i En. induction n as [|n IH]; intros u i En Hu Hv Hij Ha Hc.
  - assert (i = j) as -> by lia. destruct Hu as (_ & _ & ->), Hv as (_ & _ & ->). done.
  - assert (i < n_txns f)%nat as Hi by (destruct Hv; lia).
    destruct (lookup_lt_is_Some_2 (f_gtids f) i) as [gt Hgt]; [by rewrite n_txns_gtids|].
    eapply cost_step; [by eapply step_edge; [|done|apply (Ha i); [lia|]]|].
    apply (IH (S u) (S i)); [lia|by apply at_next|done|lia| |done]. intros m gt' Hm. apply Ha. lia.
Qed.

(** A later position of the same file with the same key costs no more. *)
Lemma cost_key u v k f i j d : at_pos fs u k f i -> at_pos fs v k f j -> (i <= j)%nat -> key_at X f i = key_at X f j ->
  cost g u d -> cost g v d.
Proof.
  intros Hu Hv Hij E Hc. pose proof (at_file_ok fs Hfs _ _ _ _ Hu) as Hf.
  revert i Hu Hij E. induction Hc as [u Hg|u w d Hstep Hc IH|u w d Hjump Hc _]; intros i Hu Hij E.
  - apply cost_goal. eapply (gs_goal G); [exact Hv|]. rewrite <- E. by eapply (gs_goal G).
  - destruct (decide (i = j)) as [->|Hne].
    + assert (u = v) as <- by (destruct Hu as (_ & _ & ->), Hv as (_ & _ & ->); done). by eapply cost_step.
    + destruct Hstep as (-> & _). apply (IH (S i)); [apply at_next; [done|destruct Hv; lia]|lia|].
      apply holds_ext; [by apply key_at_spec..|]. intros h. split; [by apply key_at_mono; [..|lia]|].
      rewrite <- E. by apply key_at_mono; [..|lia].
  - destruct Hjump as (c & H1 & H2 & H3 & H4).
    destruct (gs_class_at G _ _ H2) as (k' & f' & i' & Hw).
    eapply cost_jump; [|exact Hc]. eapply (gs_spanning G); [exact Hv|exact Hw| |].
    + intros ->. apply H4. by rewrite (gs_file G _ _ _ _ Hu), (gs_file G _ _ _ _ Hw).
    + rewrite <- E. by eapply (gs_class_key G).
Qed.

(** A replay that reaches the target bounds the cost of its start. *)
Lemma replay_cost E segs T : replays lambda X fs E segs T -> T = target -> segs <> [] ->
  exists v k f i d, at_pos fs v k f i /\ key_at X f i = E /\ cost g v d /\ (d < length segs)%nat
    /\ exists s segs', segs = s :: segs' /\ seg_file s = k /\ seg_start s = i.
Proof.
  induction 1 as [|s f segs T Hf Hs Ha Hrest IH]; [done|]. intros -> _.
  rewrite key_after in Hrest, IH by lia. set (i := seg_start s) in *. set (j := seg_end s) in *. set (k := seg_file s) in *.
  pose proof (at_exists k f i Hf ltac:(lia)) as Hu. pose proof (at_exists k f j Hf ltac:(lia)) as Hv.
  assert (file_ok f) as Hok by (by eapply at_file_ok).
  assert (forall m gt, (i <= m < j)%nat -> f_gtids f !! m = Some gt -> holds lambda gt \/ holds X gt) as Ha'.
  { intros m gt Hm Hgt. apply Ha. apply list_elem_of_lookup. exists (m - i)%nat. apply seg_txns_lookup; [lia|]. fold i j.
    replace (i + (m - i))%nat with m by lia. split; [done|lia]. }
  enough (exists d, cost g (offset fs k + j) d /\ (d < S (length segs))%nat) as (d & Hd & Hlt).
  { exists (offset fs k + i)%nat, k, f, i, d. split; [done|]. split; [done|].
    split; [by eapply (steps_cost _ (offset fs k + j) k f i j); [done..|lia| |]|]. split; [done|]. by exists s, segs. }
  destruct segs as [|s2 segs].
  - inversion Hrest as [E' HE|]. exists 0%nat. split; [|simpl; lia]. apply cost_goal. by eapply (gs_goal G).
  - destruct (IH eq_refl ltac:(done)) as (v2 & k2 & f2 & i2 & d & H2 & E2 & Hc & Hlt & s' & segs' & [= <- <-] & Hk2 & Hi2).
    destruct (decide (k = k2)) as [Hk|Hk]; cycle 1.
    { exists (S d). split; [|simpl in *; lia]. eapply cost_jump; [|exact Hc]. by eapply (gs_spanning G). }
    exists d. split; [|simpl in *; lia]. assert (f2 = f) as -> by (destruct H2 as (H2 & _); congruence). rewrite <- Hk in H2.
    destruct (decide (j <= i2)%nat) as [Hle|Hle].
    + eapply (steps_cost _ v2 k f j i2); [done..| |done]. intros m gt Hm Hgt. right. by eapply (key_at_eq_inX X HX f Hok j i2 m).
    + eapply (cost_key v2 _ k f i2 j); [done..|lia|done|done].
Qed.

Context (ds : list (option nat)).
Context (Hsound : forall v d, dist_of ds v = Some d -> cost g v d).
Context (Hleast : forall v d, cost g v d -> exists d', dist_of ds v = Some d' /\ (d' <= d)%nat).

Lemma dist_unique v d : cost g v d -> (forall d', cost g v d' -> (d <= d')%nat) -> dist_of ds v = Some d.
Proof. intros Hc Hmin. destruct (Hleast v d Hc) as (d' & H & Hle). rewrite H. f_equal. pose proof (Hmin d' (Hsound _ _ H)). lia. Qed.

Lemma dist_least v d d' : dist_of ds v = Some d -> cost g v d' -> (d <= d')%nat.
Proof. intros H Hc. destruct (Hleast v d' Hc) as (e & He & Hle). rewrite H in He. injection He as ->. done. Qed.

(** At a position that is not a goal, the first step of a cheapest way: a step at the
    same distance, or a jump one closer. *)
Lemma next_hop v k f i d : at_pos fs v k f i -> dist_of ds v = Some d -> is_goal g v = false ->
  (exists gt, f_gtids f !! i = Some gt /\ (holds lambda gt \/ holds X gt) /\ dist_of ds (S v) = Some d)
  \/ (exists u d', jedge g v u /\ d = S d' /\ dist_of ds u = Some d').
Proof.
  intros H Hd Hg. pose proof (Hsound _ _ Hd) as Hc. inversion Hc as [v' Hg'|v' w d' Hstep Hc'|v' w d' Hjump Hc']; subst; [congruence|left|right].
  - pose proof Hstep as (-> & Hlt & Hpos & Hok). rewrite (gs_length G) in Hlt.
    assert (i < n_txns f)%nat as Hi.
    { destruct (locate fs (S v) Hlt) as (k' & f' & i' & H'). rewrite (gs_pos G _ _ _ _ H') in Hpos.
      assert (at_pos fs v k' f' (i' - 1)) as H''. { destruct H' as (A1 & A2 & A3). split; [done|]. split; lia. }
      destruct (at_pos_inj _ _ _ _ _ _ _ _ H H'') as (-> & -> & ->). destruct H'. lia. }
    pose proof (at_next _ _ _ _ H Hi) as H'. rewrite (gs_file G _ _ _ _ H'), (gs_pos G _ _ _ _ H') in Hok. simpl in Hok. rewrite Nat.sub_0_r in Hok.
    apply (gs_step G _ f) in Hok as (gt & Hgt & Ha); [|apply H]. exists gt. split; [done|]. split; [done|].
    apply dist_unique; [done|]. intros e He. apply (dist_least v d e Hd). by eapply cost_step.
  - exists w, d'. split; [done|]. split; [done|]. apply dist_unique; [done|]. intros e He.
    pose proof (dist_least v (S d') (S e) Hd ltac:(by eapply cost_jump)). lia.
Qed.

Lemma walk_row v k f i : at_pos fs v k f i ->
  (i <? length (default [] (stepOK g !! k)))%nat && step_ok g k i = true <-> exists gt, f_gtids f !! i = Some gt /\ (holds lambda gt \/ holds X gt).
Proof.
  intros H. assert (fs !! k = Some f) as Hk by apply H. rewrite (gs_stepOK G k f Hk). simpl.
  rewrite andb_true_iff, (gs_step G k f i Hk), length_map, Nat.ltb_lt. split; [by intros [_ ?]|]. intros (gt & Hgt & Ha).
  split; [by eapply lookup_lt_Some|by exists gt].
Qed.

(** The walk arrives, in one segment more than the distance, and what it returns is a
    replay plan. *)
Lemma walk_spec fuel : forall v k f i d a, at_pos fs v k f i -> dist_of ds v = Some d -> (a <= i)%nat ->
  (forall m gt, (a <= m < i)%nat -> f_gtids f !! m = Some gt -> holds lambda gt \/ holds X gt) ->
  (d * S (n_positions fs) + (n_positions fs - v) <= fuel)%nat ->
  exists segs, walk fuel g ds v a = Some segs /\ length segs = S d /\ replays lambda X fs (key_at X f a) segs target.
Proof.
  set (N := n_positions fs). induction fuel as [|fuel IH]; intros v k f i d a H Hd Ha Hall Hfuel.
  { pose proof (at_pos_bound _ _ _ _ _ H) as [_ Hlt]. unfold N in *. lia. }
  pose proof (at_pos_bound _ _ _ _ _ H) as [_ Hlt]. fold N in Hlt. assert (fs !! k = Some f) as Hk by apply H.
  assert (forall e, (a <= e)%nat -> (e = i)%nat -> forall segs, replays lambda X fs (key_at X f i) segs target ->
    replays lambda X fs (key_at X f a) ({| seg_file := k; seg_start := a; seg_end := e |} :: segs) target) as Hseg.
  { intros e He -> segs Hr. apply (replays_seg _ _ _ {| seg_file := k; seg_start := a; seg_end := i |} f); [done|destruct H; simpl; lia| |].
    - intros gt (m & Hm)%list_elem_of_lookup. apply seg_txns_lookup in Hm as [Hm Hm']; [|done]. simpl in *. apply (Hall (a + m)%nat gt); [lia|done].
    - rewrite (key_after f X {| seg_file := k; seg_start := a; seg_end := i |} Ha). exact Hr. }
  cbn [walk]. rewrite (gs_file G _ _ _ _ H), (gs_pos G _ _ _ _ H). destruct (is_goal g v) eqn:Eg.
  { assert (d = 0)%nat as -> by (pose proof (dist_least v d 0 Hd ltac:(by apply cost_goal)); lia).
    eexists. split; [done|]. split; [done|]. apply Hseg; [done|done|]. eapply (gs_goal G) in Eg; [|done]. rewrite Eg. constructor. }
  destruct (_ && _ && _) eqn:Es.
  - apply andb_true_iff in Es as [Es1 Es2%bool_decide_eq_true]. pose proof Es1 as (gt & Hgt & Hok)%(walk_row v k f i H).
    assert (i < n_txns f)%nat as Hi by (rewrite <- n_txns_gtids; by eapply lookup_lt_Some). replace (v + 1)%nat with (S v) in * by lia.
    apply (IH (S v) k f (S i) d a); [by apply at_next|by rewrite Es2|lia| |unfold N in *; lia].
    intros m gt' Hm Hgt'. destruct (decide (m = i)) as [->|]; [by simplify_eq|apply (Hall m); [lia|done]].
  - destruct (next_hop v k f i d H Hd Eg) as [(gt & Hgt & Hok & Hnext)|(u & d' & Hj & -> & Hu)].
    { exfalso. apply not_true_iff_false in Es. apply Es. replace (v + 1)%nat with (S v) by lia.
      rewrite (proj2 (walk_row v k f i H)) by (by exists gt). simpl. apply bool_decide_eq_true. by rewrite Hd. }
    destruct Hj as (c & H1 & H2 & H3 & H4). unfold jump_from. rewrite H1.
    assert (forall x, dist_Z ds x =? dist_Z ds v - 1 = true <-> dist_of ds x = Some d') as Hz.
    { intros x. unfold dist_Z. rewrite Hd, Z.eqb_eq. destruct (dist_of ds x); split; intros E; simplify_eq; try lia; f_equal; lia. }
    rewrite (gs_file G _ _ _ _ H) in H4.
    destruct (List.find _ _) as [u'|] eqn:Ef; cycle 1.
    { apply (List.find_none _ _) with (x := u) in Ef; [|by apply list_elem_of_In, (g_members _ (gs_arrays G))].
      rewrite (proj2 (Hz u) Hu), andb_true_r in Ef. apply andb_false_iff in Ef as [Ef%negb_false_iff%Nat.eqb_eq|Ef%negb_false_iff%Nat.eqb_eq]; [|congruence].
      subst u. rewrite Hd in Hu. injection Hu. lia. }
    apply List.find_some in Ef as [Hin Hp]. apply list_elem_of_In, (g_members _ (gs_arrays G)) in Hin as [Hc' _].
    apply andb_true_iff in Hp as [_ Hd'%Hz]. destruct (gs_class_at G _ _ Hc') as (k' & f' & i' & H').
    rewrite (gs_pos G _ _ _ _ H'). pose proof (at_pos_bound _ _ _ _ _ H') as [_ Hlt']. fold N in Hlt'.
    destruct (IH u' k' f' i' d' i' H' Hd' ltac:(done)) as (segs & Hw & Hlen & Hr); [intros; lia|nia|].
    rewrite Hw. simpl. eexists. split; [done|]. split; [simpl; by rewrite Hlen|]. apply Hseg; [done|done|].
    by rewrite (gs_class_key G v u' c k f i k' f' i' H H' H1 Hc').
Qed.

(** [o] is a start below [n] with the least distance. *)
Definition least_start (n : nat) (o : option nat) : Prop :=
  match o with
  | Some b => default false (start g !! b) = true /\ exists d, dist_of ds b = Some d
      /\ forall v d', (v < n)%nat -> default false (start g !! v) = true -> dist_of ds v = Some d' -> (d <= d')%nat
  | None => forall v d', (v < n)%nat -> default false (start g !! v) = true -> dist_of ds v <> Some d'
  end.

Lemma least_start_skip n o : (forall d, default false (start g !! n) = true -> dist_of ds n <> Some d) -> least_start n o -> least_start (S n) o.
Proof.
  intros Hn. destruct o as [b|]; simpl.
  - intros (H1 & d & H2 & H3). split; [done|]. exists d. split; [done|]. intros v d' Hv Hs Hd.
    destruct (decide (v = n)) as [->|]; [by destruct (Hn d')|]. apply (H3 v); [lia|done..].
  - intros H v d' Hv Hs Hd. destruct (decide (v = n)) as [->|]; [by destruct (Hn d')|]. apply (H v d'); [lia|done..].
Qed.

(** The start the search takes has the least distance of all. *)
Lemma best_start_spec : least_start (n_positions fs) (best_start g ds).
Proof.
  unfold best_start. rewrite (gs_length G). generalize (n_positions fs) as n. induction n as [|n IH]; [intros v d' Hv; lia|].
  rewrite seq_S, fold_left_app. simpl. set (best := fold_left _ _ _) in *.
  destruct (dist_of ds n) as [d|] eqn:Ed; [|apply least_start_skip; [congruence|done]].
  destruct (default false (start g !! n)) eqn:Es; [simpl|apply least_start_skip; [congruence|done]].
  destruct best as [b|].
  - pose proof IH as (H1 & db & H2 & H3). rewrite H2. destruct (Nat.ltb_spec d db); (split; [done|eexists; split; [done|]]);
      intros v d' Hv Hs Hd; (destruct (decide (v = n)) as [->|]; [assert (d' = d) by congruence; lia|]);
      pose proof (H3 v d' ltac:(lia) Hs Hd); lia.
  - split; [done|]. exists d. split; [done|]. intros v d' Hv Hs Hd. destruct (decide (v = n)) as [->|]; [assert (d' = d) by congruence; lia|].
    destruct (IH v d'); [lia|done..].
Qed.

End plan.

(** ** The search *)

Lemma charge_err c n e : 0 <= n -> charge c n = Err e -> e = Refused TokenPlanTooLarge.
Proof.
  intros Hn. unfold charge, Charge. rewrite (proj2 (Z.ltb_ge n 0)) by done. destruct (n >? _); simpl; [|done]. by intros [= <-].
Qed.

Lemma sidBytes_nonneg sid : 0 <= sidBytes sid.
Proof. unfold sidBytes. apply Z.mul_nonneg_nonneg; [|done]. apply Z.quot_pos; lia. Qed.

Lemma setBytes_nonneg s : 0 <= setBytes s.
Proof.
  unfold setBytes. apply (map_fold_weak_ind (fun n _ => 0 <= n)); [done|]. intros sid ivs m n _ H.
  pose proof (sidBytes_nonneg sid). unfold sourceBytes, intervalBytes, sizeof_Interval. lia.
Qed.

Lemma graph_charge_nonneg fs : 0 <= graph_charge fs.
Proof.
  unfold graph_charge. cbv zeta.
  assert (0 <= foldr (fun f a => Z.max a (setBytes (f_exec f))) 0 fs) by (induction fs; simpl; lia).
  assert (0 <= foldr (fun f a => a + Z.of_nat (size (f_prev f) + length (SIDs (f_idx f)))) 0 fs) by (clear; induction fs; simpl; lia).
  unfold nodeBytes, sourceBytes. lia.
Qed.

Lemma class_step_err bStr gStr s pos e : class_step bStr gStr s pos = Err e -> e = Refused TokenPlanTooLarge.
Proof.
  destruct pos as [[k nd] key]. unfold class_step. destruct nd; simpl; [|done]. destruct (_ !! _); [done|].
  destruct (charge _ _) as [|e'] eqn:E; simpl; [done|]. intros [= <-]. eapply charge_err; [|exact E]. unfold classBytes. lia.
Qed.

Lemma res_fold_err {E S A} (step : S -> A -> res E S) (Q : E -> Prop) l : (forall s x e, step s x = Err e -> Q e) ->
  forall s e, res_fold step l s = Err e -> Q e.
Proof.
  intros H. induction l as [|x l IH]; intros s e Hl; simpl in Hl; [done|].
  destruct (step s x) as [t|e'] eqn:Ex; simpl in Hl; [by eapply IH|]. injection Hl as ->. by eapply H.
Qed.

(** Building the graph fails only for want of memory. *)
Lemma buildGraph_err force lambda X B fs target c e : buildGraph force lambda X B fs target c = Err e -> e = Refused TokenPlanTooLarge.
Proof.
  unfold buildGraph. destruct (charge c _) as [c1|e1] eqn:E1; simpl; [|intros [= <-]; eapply charge_err; [|exact E1]; apply graph_charge_nonneg].
  destruct (charge c1 _) as [c2|e2] eqn:E2; simpl; [|intros [= <-]; eapply charge_err; [|exact E2]; lia].
  destruct (res_fold _ _ _) as [s|e3] eqn:E3; simpl; [done|]. intros [= <-].
  revert E3. apply (res_fold_err _ (fun e => e = Refused TokenPlanTooLarge)). apply class_step_err.
Qed.

(** What the planner hands to the search. *)
Record search_ready (lambda X B target : Set_) (fs : list file) : Prop := {
  sr_lambda : canonical lambda;
  sr_X : canonical X;
  sr_B : printable_set B;
  sr_target : printable_set target;
  sr_files : Forall file_ok fs
}.

(** The graph, with exact distances. *)
Lemma built force lambda X B target fs g c0 c1 : search_ready lambda X B target fs -> buildGraph force lambda X B fs target c0 = Ok (g, c1) ->
  graph_spec lambda X B target fs g
  /\ (forall v d, dist_of (bfs g) v = Some d -> cost g v d)
  /\ (forall v d, cost g v d -> exists d', dist_of (bfs g) v = Some d' /\ (d' <= d)%nat).
Proof.
  intros [] E. assert (graph_spec lambda X B target fs g) as G by by eapply build_graph_spec.
  split; [done|]. apply (bfs_exact g (gs_arrays G)).
Qed.

Lemma includes_false lambda X B target fs g s f : canonical X -> graph_spec lambda X B target fs g -> fs !! seg_file s = Some f ->
  includes g s = false <-> forall gt, gt ∈ seg_txns f s -> holds X gt.
Proof.
  intros HX G Hf. unfold includes. rewrite (gs_inX G _ f Hf). simpl. rewrite <- not_true_iff_false, existsb_exists.
  change (map (Has X) (f_gtids f)) with (Has X <$> f_gtids f). rewrite <- fmap_drop, <- fmap_take. fold (seg_txns f s).
  change (Has X <$> seg_txns f s) with (map (Has X) (seg_txns f s)). setoid_rewrite <- list_elem_of_In. setoid_rewrite elem_of_map. split.
  - intros H gt Hgt. apply Has_holds; [done|]. destruct (Has X gt) eqn:E; [done|]. destruct H. exists false. split; [|done]. by exists gt.
  - intros H (b & (gt & -> & Hgt) & Hb%negb_true_iff). specialize (H gt Hgt). apply Has_holds in H; [|done]. congruence.
Qed.

(** Only positions have a cost. *)
Lemma cost_lt g : bfs_graph g -> forall v d, cost g v d -> (v < length (class g))%nat.
Proof.
  intros G. induction 1 as [v Hg|u v d (-> & Hlt & _) _ _|u v d (c & Hu & _) _ _]; [by apply (g_goal g G)|lia|].
  by apply (g_class g G u c).
Qed.

(** The search, over a graph that was built. *)
Lemma search_on_graph force lambda X B target fs g c0 c1 : search_ready lambda X B target fs -> B <> target ->
  buildGraph force lambda X B fs target c0 = Ok (g, c1) ->
  match best_start g (bfs g) with
  | None => forall segs, ~ replays lambda X fs B segs target
  | Some v => exists segs, walk (walk_fuel g (default 0%nat (dist_of (bfs g) v))) g (bfs g) v (pos_of g v) = Some segs
      /\ replays lambda X fs B segs target /\ forall segs', replays lambda X fs B segs' target -> (length segs <= length segs')%nat
  end.
Proof.
  intros R Hne E. destruct (built _ _ _ _ _ _ _ _ _ R E) as (G & Hsound & Hleast). destruct R.
  pose proof (best_start_spec lambda X B target fs g G (bfs g)) as Hbest. unfold least_start in Hbest.
  assert (forall segs, replays lambda X fs B segs target -> exists v d', (v < n_positions fs)%nat /\ default false (start g !! v) = true
    /\ dist_of (bfs g) v = Some d' /\ (d' < length segs)%nat) as Hlow.
  { intros segs Hr. destruct (replay_cost lambda X B target fs sr_X0 sr_files0 g G B segs target Hr eq_refl) as (v & k & f & i & d & Hv & Hk & Hc & Hd & _).
    - intros ->. by inversion Hr.
    - destruct (Hleast v d Hc) as (d' & Hd' & Hle). exists v, d'. split; [by eapply at_pos_bound|]. split; [by apply (gs_start G v k f i)|]. split; [done|lia]. }
  destruct (best_start g (bfs g)) as [v|].
  - destruct Hbest as (Hs & d & Hd & Hmin). assert (exists k f i, at_pos fs v k f i) as (k & f & i & Hv).
    { apply locate. rewrite <- (gs_length G). apply (cost_lt g (gs_arrays G) v d), Hsound, Hd. }
    rewrite (gs_pos G _ _ _ _ Hv), Hd.
    destruct (walk_spec lambda X B target fs g G (bfs g) Hsound Hleast (walk_fuel g (default 0%nat (Some d))) v k f i d i) as (segs & Hw & Hlen & Hr); try done.
    + intros; lia.
    + unfold walk_fuel. rewrite (gs_length G). simpl. nia.
    + exists segs. split; [done|]. rewrite (proj1 (gs_start G v k f i Hv) Hs) in Hr. split; [done|].
      intros segs' Hr'. destruct (Hlow segs' Hr') as (v' & d' & H1 & H2 & H3 & H4). pose proof (Hmin v' d' H1 H2 H3). lia.
  - intros segs Hr. destruct (Hlow segs Hr) as (v' & d' & H1 & H2 & H3 & H4). by apply (Hbest v' d').
Qed.

Lemma replays_segment lambda X fs segs E E' : replays lambda X fs E segs E' ->
  forall s, s ∈ segs -> exists f, fs !! seg_file s = Some f /\ forall gt, gt ∈ seg_txns f s -> holds lambda gt \/ holds X gt.
Proof.
  induction 1 as [|s f segs E Hf Hs Ha _ IH]; intros s' Hin; [by apply not_elem_of_nil in Hin|].
  apply elem_of_cons in Hin as [->|Hin]; [by exists f|by apply IH].
Qed.

(** C29. The plan search returns a shortest replay plan. A search without an error gives
    segments that replay, one after the other, from the backup's executed set to the
    goal: each starts at exactly the set the server is then at and contains only
    transactions of the history or excluded ones. No plan has fewer segments, and every
    segment includes a transaction to replay. *)
Theorem search_shortest_plan force rows marked lambda X B P target b r :
  let fs := search_files rows P B in search_ready lambda X B target fs ->
  search force rows marked lambda X B P target b = (r, None) ->
  replays lambda X fs B (segments r) target
  /\ (forall segs, replays lambda X fs B segs target -> (length (segments r) <= length segs)%nat)
  /\ (forall s, s ∈ segments r -> exists f gt, fs !! seg_file s = Some f /\ gt ∈ seg_txns f s /\ holds lambda gt /\ ~ holds X gt).
Proof.
  intros fs R. unfold search. fold fs. destruct (Equal target B) eqn:Eq.
  { apply Equal_eq in Eq as ->. intros [= <-]. simpl. split; [constructor|]. split; [intros; lia|]. intros s []%not_elem_of_nil. }
  assert (B <> target) as Hne by (intros ->; apply not_true_iff_false in Eq; by rewrite Equal_eq in Eq).
  destruct (buildGraph _ _ _ _ _ _ _) as [[g c1]|] eqn:E; [|done].
  pose proof (search_on_graph _ _ _ _ _ _ _ _ _ R Hne E) as H. destruct (best_start g (bfs g)) as [v|]; [|done].
  destruct H as (segs & -> & Hr & Hmin). intros [= <-]. cbn [segments].
  destruct (built _ _ _ _ _ _ _ _ _ R E) as (G & _). pose proof (sr_X _ _ _ _ _ R) as HX.
  assert (replays lambda X fs B (List.filter (includes g) segs) target) as Hf.
  { apply replays_filter; [done| |done]. intros s f Hf _ Hi. by apply (includes_false lambda X B target fs g s f HX G Hf). }
  split; [exact Hf|]. split.
  - intros segs' Hr'. etrans; [apply List.filter_length_le|by apply Hmin].
  - intros s Hs. destruct (replays_segment _ _ _ _ _ _ Hf s Hs) as (f & Hfs & Ha0).
    apply elem_of_filter_bool in Hs as [_ Hi]. destruct (decide (Forall (holds X) (seg_txns f s))) as [Ha|Ha].
    + rewrite Forall_forall in Ha. rewrite (proj2 (includes_false lambda X B target fs g s f HX G Hfs) Ha) in Hi. done.
    + apply not_Forall_Exists in Ha; [|apply _]. apply Exists_exists in Ha as (gt & Hgt & Hn). exists f, gt.
      split_and!; [done..| |done]. by destruct (Ha0 gt Hgt).
Qed.

Lemma have_spec fs : Forall file_ok fs -> forall s, canonical s -> let have := fold_left (fun s f => Union s (Index_GTIDs (f_idx f))) fs s in
  canonical have /\ forall gt, holds have gt <-> holds s gt \/ exists f, f ∈ fs /\ gt ∈ f_gtids f.
Proof.
  induction 1 as [|f fs Hf _ IH]; intros s Hs; cbn [fold_left].
  - split; [done|]. intros gt. split; [by left|]. intros [?|(f & []%not_elem_of_nil & _)]. done.
  - pose proof (fo_index f Hf) as Hi. destruct (wf_canonical _ Hi) as (Ci & _). destruct (IH (Union s (Index_GTIDs (f_idx f)))) as [H1 H2].
    { by apply canonical_Union. }
    split; [exact H1|]. intros gt. rewrite H2, holds_Union, (wf_gtids _ Hi) by done. setoid_rewrite elem_of_cons. split.
    + intros [[?|?]|(f' & ? & ?)]; [by left|right; exists f; split; [by left|done]|right; exists f'; split; [by right|done]].
    + intros [?|(f' & [->|?] & ?)]; [by left; left|left; by right|right; by exists f'].
Qed.

(** Why there is no plan: nowhere to start, or something was never archived. *)
Definition archive_gap (X B P : Set_) (fs : list file) : Prop :=
  ~ (exists k f i, fs !! k = Some f /\ (i <= n_txns f)%nat /\ key_at X f i = B)
  \/ (exists gt, holds P gt /\ forall f, f ∈ fs -> gt ∉ f_gtids f).

Lemma noPlan_spec lambda X B P target fs g marked : Forall file_ok fs -> canonical P -> graph_spec lambda X B target fs g ->
  (marked = true /\ noPlan marked g P = TokenArchiveUnsafeHistory)
  \/ (marked = false /\ archive_gap X B P fs /\ noPlan marked g P = TokenArchiveGap)
  \/ (marked = false /\ ~ archive_gap X B P fs /\ noPlan marked g P = TokenArchiveOrderConflict).
Proof.
  intros Hfs HP G. unfold noPlan. destruct marked; [by left|right]. destruct (gs_files G) as [-> Hlen].
  destruct (have_spec fs Hfs ∅ canonical_empty) as [Hc Hh]. cbv zeta in *.
  set (have := fold_left _ _ _) in *.
  assert (existsb id (start g) = true <-> exists k f i, fs !! k = Some f /\ (i <= n_txns f)%nat /\ key_at X f i = B) as Hstart.
  { rewrite existsb_exists. split.
    - intros (b & Hb & Hid). unfold id in Hid. subst b. apply list_elem_of_In, list_elem_of_lookup in Hb as [v Hv]. pose proof (lookup_lt_Some _ _ _ Hv) as Hlt. rewrite Hlen in Hlt.
      destruct (locate fs v Hlt) as (k & f & i & H). exists k, f, i. split; [apply H|]. split; [apply H|].
      apply (gs_start G _ _ _ _ H). by rewrite Hv.
    - intros (k & f & i & Hk & Hi & E). pose proof (at_exists fs k f i Hk Hi) as H. apply (gs_start G _ _ _ _ H) in E.
      exists true. split; [|done]. apply list_elem_of_In, list_elem_of_lookup. exists (offset fs k + i)%nat.
      destruct (start g !! (offset fs k + i)%nat); simpl in E; congruence. }
  assert (Set_IsEmpty (Subtract_ P have) = true <-> ~ exists gt, holds P gt /\ forall f, f ∈ fs -> gt ∉ f_gtids f) as Hmiss.
  { rewrite Set_IsEmpty_mem by auto with go_list. split.
    - intros H (gt & Hgt & Hn). apply (H (SID gt) (GNO gt)). destruct gt as [sid n]. change (holds (Subtract_ P have) {| SID := sid; GNO := n |}).
      apply holds_Subtract; [done..|]. split; [done|]. intros [[]%holds_empty|(f & Hf & Hg)]%Hh. by apply (Hn f).
    - intros H sid n [Hp Hn]%(holds_Subtract P have {| SID := sid; GNO := n |} HP Hc). apply H. eexists. split; [exact Hp|].
      intros f Hf Hg. apply Hn, Hh. right. by exists f. }
  unfold archive_gap. destruct (existsb id (start g)) eqn:Es; simpl; cycle 1.
  { left. split; [done|]. split; [|done]. left. intros H%Hstart. done. }
  destruct (Set_IsEmpty (Subtract_ P have)) eqn:Em; simpl.
  - right. split; [done|]. split; [|done]. intros [H|H]; [by apply H, Hstart|by apply Hmiss].
  - left. split; [done|]. split; [|done]. right. destruct (GTIDs (Subtract_ P have)) as [|gt l] eqn:EG.
    + apply not_true_iff_false in Em. destruct Em. apply Set_IsEmpty_mem; [auto with go_list|]. intros sid n Hm.
      apply (not_elem_of_nil {| SID := sid; GNO := n |}). rewrite <- EG. by apply elem_of_GTIDs.
    + assert (gt ∈ GTIDs (Subtract_ P have)) as Hgt by (rewrite EG; left).
      apply elem_of_GTIDs in Hgt. change (holds (Subtract_ P have) gt) in Hgt. apply holds_Subtract in Hgt as [Hp Hn]; [|done..].
      exists gt. split; [done|]. intros f Hf Hg. apply Hn, Hh. right. by exists f.
Qed.

(** The plan search refuses only what cannot be planned. An error other than the
    memory limit's means that no list of segments replays from the backup's set to the
    goal, and names why: a marked site's binlogs were left out, a gap in the archive
    (no archived position has exactly the backup's set, or a transaction to replay is in
    no file), or commit orders no server produced. The walk never fails. *)
Theorem search_refuses_unplannable force rows marked lambda X B P target b r e :
  let fs := search_files rows P B in search_ready lambda X B target fs -> canonical P ->
  search force rows marked lambda X B P target b = (r, Some e) ->
  e = Refused TokenPlanTooLarge
  \/ (forall segs, ~ replays lambda X fs B segs target)
    /\ ((marked = true /\ e = Refused TokenArchiveUnsafeHistory)
        \/ (marked = false /\ archive_gap X B P fs /\ e = Refused TokenArchiveGap)
        \/ (marked = false /\ ~ archive_gap X B P fs /\ e = Refused TokenArchiveOrderConflict)).
Proof.
  intros fs R HP. unfold search. fold fs. destruct (Equal target B) eqn:Eq; [done|].
  assert (B <> target) as Hne by (intros ->; apply not_true_iff_false in Eq; by rewrite Equal_eq in Eq).
  destruct (buildGraph _ _ _ _ _ _ _) as [[g c1]|e'] eqn:E; [|intros [= _ <-]; left; by eapply buildGraph_err].
  pose proof (search_on_graph _ _ _ _ _ _ _ _ _ R Hne E) as H. destruct (best_start g (bfs g)) as [v|].
  { destruct H as (segs & -> & _). done. }
  intros [= _ <-]. right. split; [exact H|]. destruct (built _ _ _ _ _ _ _ _ _ R E) as (G & _).
  destruct (noPlan_spec lambda X B P target fs g marked (sr_files _ _ _ _ _ R) HP G) as [[? ->]|[(? & ? & ->)|(? & ? & ->)]]; auto.
Qed.

(** ** A plan over two sites' binlogs *)

Definition demo_uuid : string := "3e11fa47-71ca-11e1-9e33-c80aa9429562".

Definition demo_set (n : Z) : Set_ := {[demo_uuid := [iv 1 n]]}.

Definition demo_events (prev : Z) (gnos : list Z) : list index_event :=
  PreviousGTIDs (demo_set prev) :: flat_map (fun n => [GTIDEvent {| SID := demo_uuid; GNO := n |} (1000 + n) 7; DataEvent]) gnos.

Definition demo_index (prev : Z) (gnos : list Z) : FileIndex :=
  match index_file (NewBudget 1000000) (demo_events prev gnos) with Ok x => x | Err _ => idx (NewIndexBuilder (NewBudget 0)) end.

Definition demo_file (site : string) (prev : Z) (gnos : list Z) : file :=
  let x := demo_index prev gnos in
  {| row := {| Row_Site := site; Row_Name := "binlog.000001"; Row_ID := site; Row_State := RowActive |};
     f_idx := x; f_prev := demo_set prev; f_exec := Union (demo_set prev) (Index_GTIDs x); f_marked := false |}.

Definition demo_rows : list (RowState * option file) :=
  [(RowActive, Some (demo_file "iad" 2 [3; 4])); (RowActive, Some (demo_file "pdx" 4 [5])); (RowQuarantined, None)].

Definition demo_P : Set_ := {[demo_uuid := [iv 4 5]]}.

Definition demo_search : searchResult * option plan_error :=
  search None demo_rows false (demo_set 5) ∅ (demo_set 3) demo_P (demo_set 5) (NewBudget 1000000).

Example demo_plan : (segments demo_search.1, demo_search.2)
  = ([{| seg_file := 0; seg_start := 1; seg_end := 2 |}; {| seg_file := 1; seg_start := 0; seg_end := 1 |}], None).
Proof. by vm_compute. Qed.

Lemma demo_set_canonical n : 1 <= n <= 5 -> canonical (demo_set n).
Proof.
  intros Hn sid l Hl. unfold demo_set in Hl. apply lookup_singleton_Some in Hl as [_ <-]. split; [done|]. split; [simpl; lia|].
  apply Forall_singleton. unfold MaxGNO, MaxInt64. simpl. lia.
Qed.

Lemma demo_set_holds n g : holds (demo_set n) g <-> SID g = demo_uuid /\ 1 <= GNO g <= n.
Proof.
  unfold holds, mem, at_, demo_set. destruct (decide (SID g = demo_uuid)) as [->|Hne].
  - rewrite lookup_singleton_eq. simpl. rewrite ivs_has_singleton. unfold iv_has. simpl. tauto.
  - rewrite lookup_singleton_ne by congruence. simpl. split; [intros []%ivs_has_nil|by intros [? _]].
Qed.

Lemma demo_uuid_ok : sid_ok demo_uuid.
Proof. left. by vm_compute. Qed.

Lemma demo_set_printable n : 1 <= n <= 5 -> printable_set (demo_set n).
Proof. intros Hn. split; [by apply demo_set_canonical|]. intros g [-> _]%demo_set_holds. apply demo_uuid_ok. Qed.

Lemma demo_file_ok site prev gnos x : 1 <= prev <= 5 -> Z.of_nat (length (demo_events prev gnos)) < 2 ^ 32 ->
  index_file (NewBudget 1000000) (demo_events prev gnos) = Ok x ->
  forallb (fun g => bool_decide (SID g = demo_uuid) && (prev <? GNO g)) (gtids x) = true ->
  bool_decide (cardinal (Union (demo_set prev) (Index_GTIDs x)) <= MaxInt64) = true -> file_ok (demo_file site prev gnos).
Proof.
  intros Hp Hlen Hx Hall Hcard. assert (index_wf x) as W.
  { apply (index_file_wf (NewBudget 1000000) (demo_events prev gnos)); [|done..]. constructor; [by apply demo_set_canonical|].
    apply Forall_forall. by intros e (n & _ & [->|[->|[]%not_elem_of_nil]%elem_of_cons]%elem_of_cons)%elem_of_flat_map. }
  assert (forall g, g ∈ gtids x -> SID g = demo_uuid /\ prev < GNO g) as Hg.
  { intros g Hg. apply list_elem_of_In in Hg. rewrite forallb_forall in Hall. specialize (Hall g Hg).
    apply andb_true_iff in Hall as [H1%bool_decide_eq_true H2%Z.ltb_lt]. split; assumption. }
  assert (demo_index prev gnos = x) as Ei by (unfold demo_index; rewrite Hx; reflexivity). clear Hx Hlen Hall.
  destruct (wf_canonical x W) as (C & _). pose proof (demo_set_canonical prev Hp) as Cp.
  unfold demo_file. rewrite Ei. apply bool_decide_eq_true in Hcard.
  constructor; cbn [f_idx f_prev f_exec]; [exact W|exact Cp|reflexivity| | |exact Hcard].
  - intros g H [_ H']%demo_set_holds. destruct (Hg g H). lia.
  - intros g [[-> _]%demo_set_holds|H%(wf_gtids x W)]%holds_Union; [apply demo_uuid_ok| |done..]. destruct (Hg g H) as [-> _]. apply demo_uuid_ok.
Qed.

Ltac demo_ok := eapply demo_file_ok; [lia|vm_compute; reflexivity..].

Lemma demo_ready rows : Forall file_ok (search_files rows demo_P (demo_set 3)) ->
  search_ready (demo_set 5) ∅ (demo_set 3) (demo_set 5) (search_files rows demo_P (demo_set 3)).
Proof.
  constructor; [apply demo_set_canonical|apply canonical_empty|apply demo_set_printable|apply demo_set_printable|assumption]; lia.
Qed.

Lemma demo_both : Forall file_ok (search_files demo_rows demo_P (demo_set 3)).
Proof.
  assert (search_files demo_rows demo_P (demo_set 3) = [demo_file "iad" 2 [3; 4]; demo_file "pdx" 4 [5]]) as -> by (vm_compute; reflexivity).
  rewrite !Forall_cons, Forall_nil. split_and!; [demo_ok..|exact I].
Qed.

Lemma demo_first : Forall file_ok (search_files (take 1 demo_rows) demo_P (demo_set 3)).
Proof.
  assert (search_files (take 1 demo_rows) demo_P (demo_set 3) = [demo_file "iad" 2 [3; 4]]) as -> by (vm_compute; reflexivity).
  rewrite Forall_cons, Forall_nil. split; [demo_ok|exact I].
Qed.

Lemma demo_P_canonical : canonical demo_P.
Proof.
  intros sid l Hl. unfold demo_P in Hl. apply lookup_singleton_Some in Hl as [_ <-]. split; [done|]. split; [simpl; lia|].
  apply Forall_singleton. unfold MaxGNO, MaxInt64. simpl. lia.
Qed.

Lemma search_shortest_plan_witness :
  replays (demo_set 5) ∅ (search_files demo_rows demo_P (demo_set 3)) (demo_set 3) (segments demo_search.1) (demo_set 5)
  /\ length (segments demo_search.1) = 2%nat.
Proof.
  assert (demo_search = (demo_search.1, None)) as E by (rewrite (surjective_pairing demo_search) at 1; f_equal; vm_compute; reflexivity).
  split; [|vm_compute; reflexivity].
  apply (search_shortest_plan None demo_rows false (demo_set 5) ∅ (demo_set 3) demo_P (demo_set 5) (NewBudget 1000000) demo_search.1 (demo_ready _ demo_both) E).
Defined.

(** Without the second file the last transaction is in no file. *)
Definition demo_gap : searchResult * option plan_error :=
  search None (take 1 demo_rows) false (demo_set 5) ∅ (demo_set 3) demo_P (demo_set 5) (NewBudget 1000000).

Lemma search_refuses_unplannable_witness : demo_gap.2 = Some (Refused TokenArchiveGap) /\ forall segs,
  ~ replays (demo_set 5) ∅ (search_files (take 1 demo_rows) demo_P (demo_set 3)) (demo_set 3) segs (demo_set 5).
Proof.
  assert (demo_gap = (demo_gap.1, Some (Refused TokenArchiveGap))) as E by (rewrite (surjective_pairing demo_gap) at 1; f_equal; vm_compute; reflexivity).
  split; [exact (f_equal snd E)|].
  destruct (search_refuses_unplannable None (take 1 demo_rows) false (demo_set 5) ∅ (demo_set 3) demo_P (demo_set 5) (NewBudget 1000000)
    demo_gap.1 (Refused TokenArchiveGap) (demo_ready _ demo_first) demo_P_canonical E) as [H|[H _]]; [discriminate H|exact H].
Defined.
