(* ===== verification/PlanSegments.v ===== *)
(** * From raw segments to the plan's segments

    [fillSegments] and [segmentArgBytes] of [internal/pitrplan/latest.go], [checkL5] of
    [internal/pitrplan/lineage.go]: what the search found becomes the files to stage and
    the segments to replay, each with the predecessors the restore checks and a GTID
    argument short enough to pass. *)
From S2P Require Import Prelude GoStd Intervals GtidSet PlanSet PlanIndex Sha256 PlanSearch PlanHash PlanGraph PlanReplay.

Local Open Scope Z_scope.

Module Segments.

Import GTID Plan Index PlanSearch.

(** ** The plan's files and segments *)

(** Digest and size aside. *)
Record PlanFile : Type := {
  PF_Row : RowRef;
  PF_Previous : Set_;
  PF_GTIDs : Set_
}.

Record Segment : Type := {
  SegFile : nat;
  SegStart : nat;
  SegEnd : nat;
  SegGTIDs : Set_;
  StartPredecessors : Set_;
  Transactions : Z;
  FirstCommit : Z;
  LastCommit : Z
}.

#[export] Instance Segment_eta : Eta Segment := fun s =>
  Build_Segment (SegFile s) (SegStart s) (SegEnd s) (SegGTIDs s) (StartPredecessors s) (Transactions s) (FirstCommit s) (LastCommit s).

(** [maxSegmentGTIDBytes]; tests lower it. *)
Definition maxSegmentGTIDBytes : Z := Z.shiftl 64 10.

Definition segmentArgBytes (s : Set_) (g : GTID) : Z :=
  let n := if bool_decide (is_Some (s !! SID g)) then 0 else Z.of_nat (String.length (SID g)) + 1 + 41 in
  map_fold (fun sid ivs n => n + (Z.of_nat (String.length sid) + 1 + 41 * (Z.of_nat (length ivs) + 1))) n s.

(** ** Unsupported transactions *)

Definition txn_at (f : file) (j : nat) : option Txn := Txns (f_idx f) !! j.

Definition unsupported (X : Set_) (f : file) (j : nat) : bool :=
  match txn_at f j, f_gtids f !! j with
  | Some t, Some g => negb (Z.land (Flags t) (Z.lor TxnXA TxnUnsupported) =? 0) && negb (Has X g)
  | _, _ => false
  end.

Definition checkL5 (X : Set_) (found : searchResult) : option plan_error :=
  if existsb (fun s => match res_files found !! seg_file s with
                       | Some f => existsb (unsupported X f) (seq (seg_start s) (seg_end s - seg_start s))
                       | None => false
                       end) (segments found)
  then Some (Refused TokenReplayUnsupported) else None.

(** ** Filling the plan *)

(** One raw segment in progress: the budget, the piece being built, the running
    predecessors, the last replayed transaction, the pieces done, [newest] and [count]. *)
Record fill_state : Type := {
  fs_budget : Budget;
  seg : Segment;
  pred : Set_;
  last_replayed : option nat;
  pieces : list Segment;
  newest : Z;
  replayed : Z
}.

#[export] Instance fill_state_eta : Eta fill_state := fun s =>
  Build_fill_state (fs_budget s) (seg s) (pred s) (last_replayed s) (pieces s) (newest s) (replayed s).

(** [open]: a new piece from [j] on. *)
Definition open_piece (fi j : nat) (s : fill_state) : res plan_error fill_state :=
  let? b := chargeSet (fs_budget s) (pred s) in
  Ok (s <| fs_budget := b |>
        <| seg := {| SegFile := fi; SegStart := j; SegEnd := 0; SegGTIDs := ∅; StartPredecessors := pred s;
                     Transactions := 0; FirstCommit := 0; LastCommit := 0 |} |>).

Definition close_piece (j : nat) (s : fill_state) : fill_state :=
  s <| replayed := replayed s + Transactions (seg s) |> <| pieces := pieces s ++ [seg s <| SegEnd := j |>] |>.

Definition take_txn (t : Txn) (g : GTID) (j : nat) (s : fill_state) : fill_state :=
  let q := seg s in
  s <| seg := q <| SegGTIDs := (add (SegGTIDs q) g).1 |> <| Transactions := Transactions q + 1 |>
                <| FirstCommit := if FirstCommit q =? 0 then OCT t else FirstCommit q |> <| LastCommit := OCT t |> |>
    <| newest := Z.max (newest s) (OCT t) |> <| last_replayed := Some j |>.

(** The transaction [j] of [f]; [jtg]: its position, the transaction and its GTID. *)
Definition fill_txn (maxBytes : Z) (X : Set_) (fi : nat) (s : fill_state) (jtg : nat * Txn * GTID) : res plan_error fill_state :=
  let '(j, t, g) := jtg in
  let? s := if Has X g then Ok s
            else let? s := if (0 <? Transactions (seg s)) && (segmentArgBytes (SegGTIDs (seg s)) g >? maxBytes)
                           then open_piece fi j (close_piece j s) else Ok s in
                 Ok (take_txn t g j s) in
  Ok (s <| pred := (add (pred s) g).1 |>).

Definition stretch (f : file) (a b : nat) : list (nat * Txn * GTID) :=
  zip (zip (seq a (b - a)) (take (b - a) (drop a (Txns (f_idx f))))) (take (b - a) (drop a (f_gtids f))).

(** The whole plan in progress; [fileIndex] by the file's place in the search's list,
    [tmp_held] what [tmp] charged. *)
Record plan_state : Type := {
  ps_budget : Budget;
  tmp_held : Z;
  Files : list PlanFile;
  fileIndex : gmap nat nat;
  staged : Set_;
  sites : gset string;
  PlanSegments : list Segment;
  onHistory : Set_;
  ps_newest : Z;
  ps_count : Z
}.

#[export] Instance plan_state_eta : Eta plan_state := fun s =>
  Build_plan_state (ps_budget s) (tmp_held s) (Files s) (fileIndex s) (staged s) (sites s) (PlanSegments s) (onHistory s) (ps_newest s) (ps_count s).

Definition tmp_charge (v : Set_) (s : plan_state) : res plan_error plan_state :=
  let? c := charge_set {| charged := ps_budget s; held_bytes := tmp_held s |} v in
  Ok (s <| ps_budget := charged c |> <| tmp_held := held_bytes c |>).

Definition stage_file (k : nat) (f : file) (s : plan_state) : res plan_error (nat * plan_state) :=
  match fileIndex s !! k with
  | Some fi => Ok (fi, s)
  | None =>
      let fi := length (Files s) in
      let s := s <| fileIndex := <[k := fi]> (fileIndex s) |>
                 <| Files := Files s ++ [{| PF_Row := row f; PF_Previous := f_prev f; PF_GTIDs := Index_GTIDs (f_idx f) |}] |> in
      let? s := tmp_charge (Index_GTIDs (f_idx f)) s in
      Ok (fi, s <| staged := Union (staged s) (Index_GTIDs (f_idx f)) |> <| sites := {[Row_Site (row f)]} ∪ sites s |>)
  end.

Definition add_all (s : Set_) (gs : list GTID) : Set_ := fold_left (fun s g => (add s g).1) gs s.

(** The excluded members of the history among the predecessors of the last replayed
    transaction (D-48). *)
Definition on_history (onHistXL : Set_) (f : file) (last : option nat) (h : Set_) : Set_ :=
  match last with
  | Some j => add_all (Union h (Intersect onHistXL (f_prev f))) (List.filter (Has onHistXL) (take j (f_gtids f)))
  | None => h
  end.

Definition fill_segment (maxBytes : Z) (X onHistXL : Set_) (files : list file) (s : plan_state) (r : rawSegment) : res plan_error plan_state :=
  match files !! seg_file r with
  | None => Err Failed
  | Some f =>
      let? staged := stage_file (seg_file r) f s in
      let '(fi, s) := staged in
      let? s := tmp_charge (f_exec f) s in
      let pred := add_all (f_prev f) (take (seg_start r) (f_gtids f)) in
      let none := {| SegFile := 0; SegStart := 0; SegEnd := 0; SegGTIDs := ∅; StartPredecessors := ∅; Transactions := 0; FirstCommit := 0; LastCommit := 0 |} in
      let? t := open_piece fi (seg_start r) {| fs_budget := ps_budget s; seg := none; pred := pred; last_replayed := None; pieces := [];
                                               newest := ps_newest s; replayed := ps_count s |} in
      let? t := res_fold (fill_txn maxBytes X fi) (stretch f (seg_start r) (seg_end r)) t in
      let t := close_piece (seg_end r) t in
      Ok (s <| ps_budget := fs_budget t |> <| PlanSegments := PlanSegments s ++ pieces t |> <| ps_newest := newest t |> <| ps_count := replayed t |>
            <| onHistory := on_history onHistXL f (last_replayed t) (onHistory s) |>)
  end.

(** What the plan records, and the budget left. *)
Record filled : Type := {
  plan_Files : list PlanFile;
  plan_Segments : list Segment;
  OnHistoryExclusions : Set_;
  PostStop : Set_;
  Sites : list string;
  newestReplayed : Z;
  replayedCount : Z;
  budget_left : Budget
}.

Definition fillSegments (maxBytes : Z) (X lambda : Set_) (b : Budget) (found : searchResult) : res plan_error filled :=
  let? s := res_fold (fill_segment maxBytes X (Intersect X lambda) (res_files found)) (segments found)
              {| ps_budget := b; tmp_held := 0; Files := []; fileIndex := ∅; staged := ∅; sites := ∅; PlanSegments := [];
                 onHistory := ∅; ps_newest := 0; ps_count := 0 |} in
  Ok {| plan_Files := Files s; plan_Segments := PlanSegments s; OnHistoryExclusions := onHistory s;
        PostStop := Subtract_ (Subtract_ (staged s) lambda) X; Sites := sort_strings (elements (sites s));
        newestReplayed := ps_newest s; replayedCount := ps_count s;
        budget_left := Release (ps_budget s) (tmp_held s) |}.

End Segments.

Import GTID Plan Index PlanSearch Segments.

(** ** The length of a segment's argument *)

Lemma str_length_app (a b : string) : String.length (a +:+ b) = (String.length a + String.length b)%nat.
Proof. induction a as [|c a IH]; [done|]. simpl. by rewrite IH. Qed.

Lemma format_digits_length fuel : forall n d acc, 0 <= n < 10 ^ Z.of_nat d -> (0 < d <= fuel)%nat ->
  (String.length (format_digits fuel n acc) <= d + String.length acc)%nat.
Proof.
  induction fuel as [|fuel IH]; intros n d acc Hn Hd; [lia|]. cbn [format_digits].
  destruct (Z.ltb_spec n 10); [simpl; lia|]. destruct d as [|d]; [lia|].
  assert (0 < d)%nat by (destruct d; [simpl in Hn; lia|lia]).
  etrans; [apply (IH (n / 10) d)|simpl; lia]; [|lia]. rewrite Nat2Z.inj_succ, Z.pow_succ_r in Hn by lia.
  split; [apply Z.div_pos; lia|apply Z.div_lt_upper_bound; lia].
Qed.

Lemma FormatInt_length n : 0 <= n <= MaxInt64 -> (String.length (FormatInt n) <= 19)%nat.
Proof.
  intros Hn. rewrite FormatInt_nonneg by lia. etrans; [apply (format_digits_length 20 n 19)|simpl; lia]; [|lia].
  unfold MaxInt64 in Hn. change (10 ^ Z.of_nat 19) with 10000000000000000000. lia.
Qed.

Lemma format_interval_length x : 1 <= Start x /\ Start x <= End_ x /\ End_ x <= MaxGNO ->
  (String.length (format_interval_colon x) <= 40)%nat.
Proof.
  intros Hx. unfold MaxGNO, MaxInt64 in Hx. unfold format_interval_colon. rewrite !str_length_app.
  pose proof (FormatInt_length (Start x) ltac:(unfold MaxInt64; lia)). pose proof (FormatInt_length (End_ x) ltac:(unfold MaxInt64; lia)).
  destruct (_ =? _); [simpl; lia|]. rewrite str_length_app. simpl. lia.
Qed.

(** What one source takes at most. *)
Definition source_bytes (sid : string) (ivs : list Interval) : Z := Z.of_nat (String.length sid) + 1 + 41 * Z.of_nat (length ivs).

Definition arg_bytes (s : Set_) : Z := map_fold (fun sid ivs n => n + source_bytes sid ivs) 0 s.

Lemma format_sid_length s i sid : canonical s -> Z.of_nat (String.length (format_sid s i sid)) <= source_bytes sid (at_ s sid).
Proof.
  intros Hs. unfold format_sid, source_bytes. rewrite !str_length_app.
  assert (String.length (if (0 <? i)%nat then "," else "") <= 1)%nat by (destruct (0 <? i)%nat; simpl; lia).
  assert (Forall (fun x => 1 <= Start x /\ Start x <= End_ x /\ End_ x <= MaxGNO) (at_ s sid)) as Hl.
  { unfold at_. destruct (s !! sid) as [l|] eqn:E; [|constructor]. by apply (canonical_issued s Hs sid l). }
  assert (String.length (fold_right (fun x acc => format_interval_colon x +:+ acc) "" (at_ s sid)) <= 41 * length (at_ s sid))%nat.
  { clear H. induction (at_ s sid) as [|x l IH]; cbn [fold_right length]; [done|]. apply Forall_cons in Hl as [Hx Hl].
    rewrite str_length_app. pose proof (format_interval_length x Hx). specialize (IH Hl). lia. }
  lia.
Qed.

Lemma fold_sum_add_assoc {K A} `{FinMap K M} (f : K -> A -> Z) (z : Z) (m : M A) :
  map_fold (fun k x n => n + f k x) z m = z + map_fold (fun k x n => n + f k x) 0 m.
Proof.
  induction m as [|k x m Hk IH] using map_ind; [rewrite !map_fold_empty; lia|].
  rewrite !map_fold_insert_L by (done || lia). lia.
Qed.

Lemma map_fold_insert_sum (f : string -> list Interval -> Z) (s : Set_) k l : s !! k = None ->
  map_fold (fun sid ivs n => n + f sid ivs) 0 (<[k := l]> s) = map_fold (fun sid ivs n => n + f sid ivs) 0 s + f k l.
Proof. intros Hk. by rewrite map_fold_insert_L by (done || lia). Qed.

Lemma map_fold_delete_sum (f : string -> list Interval -> Z) (s : Set_) k l : s !! k = Some l ->
  map_fold (fun sid ivs n => n + f sid ivs) 0 s = map_fold (fun sid ivs n => n + f sid ivs) 0 (delete k s) + f k l.
Proof. intros Hk. rewrite <- (insert_delete_id s k l) at 1 by done. apply map_fold_insert_sum, lookup_delete_eq. Qed.

Lemma arg_bytes_perm s : arg_bytes s = fold_sum (fun sid => source_bytes sid (at_ s sid)) (Plan.sids s).
Proof.
  unfold Plan.sids, sort_strings. rewrite (fold_sum_perm _ _ _ (merge_sort_Permutation _ _)), fold_sum_map. unfold arg_bytes.
  rewrite map_fold_foldr.
  assert (forall e, e ∈ map_to_list s -> at_ s e.1 = e.2) as He.
  { intros [sid l] Hin%elem_of_map_to_list. unfold at_. simpl. by rewrite Hin. }
  induction (map_to_list s) as [|[sid l] es IH]; [done|]. cbn [foldr fold_sum].
  unfold uncurry at 1. rewrite IH by (intros; apply He; by right). pose proof (He (sid, l) ltac:(left)) as E. simpl in E.
  change (foldr _ 0 es) with (fold_sum (fun e : string * list Interval => source_bytes e.1 (at_ s e.1)) es). cbn [fst]. rewrite E. lia.
Qed.

Lemma Set_String_length s : canonical s -> Z.of_nat (String.length (Set_String s)) <= arg_bytes s.
Proof.
  intros Hs. rewrite arg_bytes_perm. unfold Set_String. destruct (size s =? 0)%nat.
  { generalize (Plan.sids s). intros l. simpl. induction l as [|x l IH]; simpl; [lia|]. unfold source_bytes in *. lia. }
  generalize 0%nat. assert (forall l i, Z.of_nat (String.length (fold_right String.append "" (imap (fun j => format_sid s (i + j)) l)))
    <= fold_sum (fun sid => source_bytes sid (at_ s sid)) l) as H.
  { induction l as [|x l IH]; intros i; [done|]. rewrite imap_cons. simpl. rewrite str_length_app.
    pose proof (format_sid_length s (i + 0) x Hs). specialize (IH (S i)).
    assert (imap ((fun j => format_sid s (i + j)) ∘ S) l = imap (fun j => format_sid s (S i + j)) l) as ->.
    { apply imap_ext. intros j y _. simpl. f_equal. lia. }
    lia. }
  intros _. exact (H (Plan.sids s) 0%nat).
Qed.

Lemma insert_gno_length l i n : (length (insert_gno l i n) <= S (length l))%nat.
Proof.
  unfold insert_gno. destruct (extends_prev l i n), (extends_next l i n); rewrite ?length_insert, ?length_app; simpl; rewrite ?length_take, ?length_drop; lia.
Qed.

(** [segmentArgBytes] bounds the printed set with the transaction in it. *)
Lemma segmentArgBytes_bound s g : canonical s -> 1 <= GNO g <= MaxGNO ->
  Z.of_nat (String.length (Set_String (add s g).1)) <= segmentArgBytes s g.
Proof.
  intros Hs Hg. etrans; [apply Set_String_length; by apply canonical_add|].
  assert (forall z s', map_fold (fun sid (ivs : list Interval) n => n + (Z.of_nat (String.length sid) + 1 + 41 * (Z.of_nat (length ivs) + 1))) z s'
    = z + arg_bytes s' + 41 * Z.of_nat (size s')) as Hseg.
  { intros z s'. rewrite fold_sum_add_assoc. unfold arg_bytes. induction s' as [|k x m Hk _ IH] using map_first_key_ind.
    - rewrite map_fold_empty, map_fold_empty, map_size_empty. lia.
    - rewrite !map_fold_insert_sum, map_size_insert_None by done. unfold source_bytes in *. lia. }
  unfold segmentArgBytes. rewrite Hseg. unfold add. destruct (Has s g) eqn:Eh; simpl.
  { destruct (bool_decide _); lia. }
  unfold arg_bytes. destruct (s !! SID g) as [l|] eqn:E.
  - rewrite bool_decide_true by eauto. rewrite (map_fold_delete_sum _ s _ _ E). rewrite <- (insert_delete_eq s (SID g) (insert_gno _ _ _)).
    rewrite map_fold_insert_sum by apply lookup_delete_eq. unfold at_. rewrite E. simpl.
    pose proof (insert_gno_length l (search_end l (GNO g)) (GNO g)). unfold source_bytes.
    assert (size s <> 0%nat) by (apply (map_size_ne_0_lookup_2 s (SID g)); eauto). lia.
  - rewrite bool_decide_false by (by intros [? [=]]). rewrite map_fold_insert_sum by done. unfold at_. rewrite E. simpl.
    pose proof (insert_gno_length [] (search_end [] (GNO g)) (GNO g)) as Hl. cbn [length] in Hl. cbn [default]. unfold source_bytes. lia.
Qed.

(** ** What a segment restores *)

(** The transactions of [f] between [a] and [b] that are replayed. *)
Definition replayed_gtids (X : Set_) (f : file) (a b : nat) : list GTID :=
  List.filter (fun g => negb (Has X g)) (take (b - a) (drop a (f_gtids f))).

(** The GTIDs executed on the server [f] came from when it wrote the transaction [i]. *)
Definition preds (f : file) (i : nat) : Set_ := add_all (f_prev f) (take i (f_gtids f)).

#[local] Arguments replayed_gtids : simpl never.
#[local] Arguments preds : simpl never.

(** The piece [q] of [f] up to the position [j]. *)
Record piece_ok (maxBytes : Z) (X : Set_) (f : file) (q : Segment) (j : nat) : Prop := {
  po_start : (SegStart q <= j)%nat;
  po_pred : StartPredecessors q = preds f (SegStart q);
  po_gtids : SegGTIDs q = add_all ∅ (replayed_gtids X f (SegStart q) j);
  po_count : Transactions q = Z.of_nat (length (replayed_gtids X f (SegStart q) j));
  po_bytes : Transactions q <= 1 \/ Z.of_nat (String.length (Set_String (SegGTIDs q))) <= maxBytes
}.

Lemma add_all_snoc s gs g : add_all s (gs ++ [g]) = (add (add_all s gs) g).1.
Proof. unfold add_all. by rewrite fold_left_app. Qed.

Lemma add_all_spec gs : forall s, canonical s -> (forall g, g ∈ gs -> 1 <= GNO g <= MaxGNO) ->
  canonical (add_all s gs) /\ forall h, holds (add_all s gs) h <-> holds s h \/ h ∈ gs.
Proof.
  induction gs as [|g gs IH]; intros s Hs Hg; [split; [done|]; intros h; rewrite elem_of_nil; simpl; tauto|].
  assert (1 <= GNO g <= MaxGNO) as Hg0 by (apply Hg; left).
  destruct (IH (add s g).1) as [H1 H2]; [by apply canonical_add|intros; apply Hg; by right|]. split; [exact H1|].
  intros h. unfold add_all in *. simpl. rewrite H2, holds_add, elem_of_cons by done. tauto.
Qed.

Section file.

Context (X : Set_) (HX : canonical X) (f : file) (Hf : file_ok f).

Lemma stretch_nil a b : (b <= a)%nat -> stretch f a b = [].
Proof. intros H. unfold stretch. by replace (b - a)%nat with 0%nat by lia. Qed.

Lemma stretch_cons a b : (a < b <= n_txns f)%nat ->
  exists t g, f_gtids f !! a = Some g /\ stretch f a b = (a, t, g) :: stretch f (S a) b.
Proof.
  intros H. assert (exists t, Txns (f_idx f) !! a = Some t) as [t Ht] by (apply lookup_lt_is_Some_2; unfold n_txns in H; lia).
  assert (exists g, f_gtids f !! a = Some g) as [g Hg] by (apply lookup_lt_is_Some_2; rewrite n_txns_gtids; lia).
  exists t, g. split; [done|]. unfold stretch. rewrite (drop_S _ _ _ Ht), (drop_S _ _ _ Hg).
  replace (b - a)%nat with (S (b - S a)) by lia. done.
Qed.

Lemma preds_S i g : f_gtids f !! i = Some g -> preds f (S i) = (add (preds f i) g).1.
Proof. intros Hg. unfold preds. by rewrite (take_S_r _ _ g Hg), add_all_snoc. Qed.

Lemma preds_spec i : canonical (preds f i) /\ forall h, holds (preds f i) h <-> holds (f_prev f) h \/ h ∈ take i (f_gtids f).
Proof. apply add_all_spec; [apply Hf|]. intros g Hg%take_gtids. by apply (fo_range f). Qed.

Lemma preds_key i : Subtract_ (preds f i) X = key_at X f i.
Proof.
  destruct (preds_spec i) as [C H], (key_at_spec X HX f Hf i) as [C' H'].
  apply holds_ext; [by apply canonical_Subtract|done|]. intros h. by rewrite holds_Subtract, H, H' by done.
Qed.

Lemma replayed_elem a b g : (a <= b)%nat ->
  g ∈ replayed_gtids X f a b <-> ~ holds X g /\ exists m, (a <= m < b)%nat /\ f_gtids f !! m = Some g.
Proof.
  intros Hab. unfold replayed_gtids. rewrite elem_of_filter_bool, negb_true_iff, <- not_true_iff_false, Has_holds by done.
  rewrite list_elem_of_lookup. split.
  - intros [[m Hm] Hn]. split; [done|]. apply lookup_take_Some in Hm as [Hm Hlt]. rewrite lookup_drop in Hm. exists (a + m)%nat. split; [lia|done].
  - intros [Hn (m & Hm & Hg)]. split; [|done]. exists (m - a)%nat. apply lookup_take_Some. rewrite lookup_drop.
    replace (a + (m - a))%nat with m by lia. split; [done|lia].
Qed.

Lemma replayed_snoc a b g : (a <= b)%nat -> f_gtids f !! b = Some g ->
  replayed_gtids X f a (S b) = replayed_gtids X f a b ++ (if Has X g then [] else [g]).
Proof.
  intros Hab Hg. unfold replayed_gtids. replace (S b - a)%nat with (S (b - a)) by lia.
  rewrite (take_S_r _ _ g), List.filter_app by (rewrite lookup_drop; by replace (a + (b - a))%nat with b by lia).
  simpl. by destruct (Has X g).
Qed.

Lemma replayed_self a : replayed_gtids X f a a = [].
Proof. unfold replayed_gtids. by rewrite Nat.sub_diag. Qed.

Lemma replayed_set a b : (a <= b)%nat -> canonical (add_all ∅ (replayed_gtids X f a b))
  /\ forall g, holds (add_all ∅ (replayed_gtids X f a b)) g <-> ~ holds X g /\ exists m, (a <= m < b)%nat /\ f_gtids f !! m = Some g.
Proof.
  intros Hab. destruct (add_all_spec (replayed_gtids X f a b) ∅ canonical_empty) as [C H].
  - intros g (_ & m & _ & Hm)%replayed_elem; [|done]. apply (fo_range f Hf). by eapply list_elem_of_lookup_2.
  - split; [exact C|]. intros g. rewrite H, replayed_elem by done. split; [by intros [?%holds_empty|?]|by right].
Qed.

(** Replaying the piece takes the server from the key at its start to the key at its end. *)
Lemma key_at_replayed a b : (a <= b)%nat -> key_at X f b = Union (key_at X f a) (add_all ∅ (replayed_gtids X f a b)).
Proof.
  intros Hab. destruct (key_at_spec X HX f Hf a) as [Ca Ha], (key_at_spec X HX f Hf b) as [Cb Hb], (replayed_set a b Hab) as [Cr Hr].
  apply holds_ext; [done|by apply canonical_Union|]. intros g. rewrite holds_Union, Ha, Hb, Hr, !list_elem_of_lookup by done. split.
  - intros [[H|[m Hm]] Hn]; [tauto|]. apply lookup_take_Some in Hm as [Hm Hlt]. destruct (decide (m < a)%nat).
    + left. split; [|done]. right. exists m. by apply lookup_take_Some.
    + right. split; [done|]. exists m. split; [lia|done].
  - intros [[[H|[m Hm]] Hn]|(Hn & m & Hm & Hg)]; (split; [|done]); [tauto| |]; right; exists m; apply lookup_take_Some.
    + apply lookup_take_Some in Hm as [? ?]. split; [done|lia].
    + split; [done|lia].
Qed.

Lemma replayed_fresh a b g : (a <= b)%nat -> holds (add_all ∅ (replayed_gtids X f a b)) g -> ~ holds (key_at X f a) g.
Proof.
  intros Hab H. apply (replayed_set a b Hab) in H as (Hn & m & Hm & Hg). intros Hk.
  apply (key_at_spec X HX f Hf a) in Hk as [[Hp|Hi] _].
  - apply (fo_fresh f Hf g); [|done]. by eapply list_elem_of_lookup_2.
  - apply list_elem_of_lookup in Hi as [m' Hm']. apply lookup_take_Some in Hm' as [Hm' Hlt].
    pose proof (NoDup_lookup _ _ _ _ (fo_nodup f Hf) Hg Hm'). lia.
Qed.

End file.

(** What a restore does with the segments: the server's executed set, outside [X], is the
    segment's predecessors outside [X], and the segment adds its GTIDs, which are new. *)
Inductive plan_chain (X : Set_) : Set_ -> list Segment -> Set_ -> Prop :=
| chain_done E : plan_chain X E [] E
| chain_segment q qs E E' : Subtract_ (StartPredecessors q) X = E ->
    (forall g, holds (SegGTIDs q) g -> ~ holds X g /\ ~ holds E g) ->
    plan_chain X (Union E (SegGTIDs q)) qs E' -> plan_chain X E (q :: qs) E'.

Lemma plan_chain_app X E qs E1 rs E2 : plan_chain X E qs E1 -> plan_chain X E1 rs E2 -> plan_chain X E (qs ++ rs) E2.
Proof. induction 1 as [|q qs E E' Hp Hg _ IH]; intros H; [done|]. simpl. constructor; auto. Qed.

(** ** One raw segment *)

Section pieces.

Context (maxBytes : Z) (X : Set_) (HX : canonical X) (f : file) (Hf : file_ok f) (fi a : nat).

Definition piece_of (q : Segment) : Prop := SegFile q = fi /\ piece_ok maxBytes X f q (SegEnd q) /\ (SegEnd q <= n_txns f)%nat.

Record fill_inv (j : nat) (s : fill_state) : Prop := {
  fl_pred : pred s = preds f j;
  fl_file : SegFile (seg s) = fi;
  fl_piece : piece_ok maxBytes X f (seg s) j;
  fl_pieces : Forall piece_of (pieces s);
  fl_chain : plan_chain X (key_at X f a) (pieces s) (key_at X f (SegStart (seg s)))
}.

Lemma piece_chain q j : piece_ok maxBytes X f q j -> plan_chain X (key_at X f (SegStart q)) [q] (key_at X f j).
Proof.
  intros [H1 H2 H3 H4 H5]. constructor; [by rewrite H2, preds_key| |].
  - intros g. rewrite H3. intros H. split; [by apply (replayed_set X HX f Hf) in H as [? _]|by eapply replayed_fresh].
  - rewrite H3, <- key_at_replayed by done. constructor.
Qed.

Lemma close_pieces j s : fill_inv j s -> (j <= n_txns f)%nat ->
  Forall piece_of (pieces (close_piece j s)) /\ plan_chain X (key_at X f a) (pieces (close_piece j s)) (key_at X f j).
Proof.
  intros [Hp Hs Hq Hqs Hc] Hj. assert (piece_ok maxBytes X f (seg s <| SegEnd := j |>) j) as Hq' by by destruct Hq.
  unfold close_piece. cbn [pieces]. split.
  - apply Forall_app; split; [done|]. apply Forall_singleton. split_and!; [done|exact Hq'|exact Hj].
  - eapply plan_chain_app; [exact Hc|]. exact (piece_chain _ j Hq').
Qed.

Lemma open_inv j s s' : pred s = preds f j -> Forall piece_of (pieces s) -> plan_chain X (key_at X f a) (pieces s) (key_at X f j) ->
  open_piece fi j s = Ok s' -> fill_inv j s' /\ Transactions (seg s') = 0.
Proof.
  intros Hp Hqs Hc. unfold open_piece. destruct (chargeSet _ _) as [b|]; simpl; [|done]. intros [= <-]. split; [|done].
  constructor; cbn; [done|done| |done|done]. constructor; cbn; [done|done| | |lia]; by rewrite replayed_self.
Qed.

Lemma take_inv j t g s : fill_inv j s -> f_gtids f !! j = Some g -> Has X g = false ->
  Transactions (seg s) = 0 \/ segmentArgBytes (SegGTIDs (seg s)) g <= maxBytes ->
  fill_inv (S j) (take_txn t g j s <| pred := (add (pred s) g).1 |>).
Proof.
  intros [Hp Hs [H1 H2 H3 H4 H5] Hqs Hc] Hg Hn Hb.
  assert (1 <= GNO g <= MaxGNO) as Hr by (apply (fo_range f Hf); by eapply list_elem_of_lookup_2).
  constructor; cbn; [by rewrite (preds_S f j g Hg), Hp|done| |done|done].
  constructor; cbn; [lia|done| | |].
  - by rewrite (replayed_snoc X f _ j g H1 Hg), Hn, add_all_snoc, H3.
  - rewrite (replayed_snoc X f _ j g H1 Hg), Hn, length_app, H4. simpl. lia.
  - destruct Hb as [Hb|Hb]; [left; lia|right]. etrans; [|exact Hb]. apply segmentArgBytes_bound; [|done].
    rewrite H3. by apply replayed_set.
Qed.

Lemma fill_txn_inv j t g s s' : fill_inv j s -> f_gtids f !! j = Some g -> fill_txn maxBytes X fi s (j, t, g) = Ok s' -> fill_inv (S j) s'.
Proof.
  intros Hi Hg. assert (j < n_txns f)%nat as Hj by (rewrite <- n_txns_gtids; by eapply lookup_lt_Some).
  unfold fill_txn. destruct (Has X g) eqn:Eh; simpl.
  - intros [= <-]. destruct Hi as [Hp Hs [H1 H2 H3 H4 H5] Hqs Hc]. constructor; cbn; [by rewrite (preds_S f j g Hg), Hp|done| |done|done].
    assert (replayed_gtids X f (SegStart (seg s)) (S j) = replayed_gtids X f (SegStart (seg s)) j) as E
      by by rewrite (replayed_snoc X f _ j g H1 Hg), Eh, app_nil_r.
    constructor; rewrite ?E; [lia|done..].
  - destruct ((0 <? _) && _) eqn:Eb; simpl.
    + destruct (close_pieces j s Hi ltac:(lia)) as [Hqs Hc]. destruct (open_piece _ _ _) as [s1|] eqn:Eo; simpl; [|done]. intros [= <-].
      destruct (open_inv j (close_piece j s) s1 (fl_pred _ _ Hi) Hqs Hc Eo) as [Hi' H0]. apply take_inv; auto.
    + intros [= <-]. apply take_inv; [done..|]. pose proof (po_count _ _ _ _ _ (fl_piece _ _ Hi)) as Hn.
      apply andb_false_iff in Eb as [Eb|Eb]; [left|right]; lia.
Qed.

Lemma fill_txns_inv b : forall d j s s', (b - j = d)%nat -> (j <= b <= n_txns f)%nat -> fill_inv j s ->
  res_fold (fill_txn maxBytes X fi) (stretch f j b) s = Ok s' -> fill_inv b s'.
Proof.
  induction d as [|d IH]; intros j s s' Hd Hj Hi.
  - rewrite stretch_nil by lia. replace b with j by lia. intros [= <-]. exact Hi.
  - destruct (stretch_cons f j b ltac:(lia)) as (t & g & Hg & ->). cbn [res_fold].
    destruct (fill_txn _ _ _ _ _) as [s1|] eqn:E; simpl; [|done]. apply IH; [lia..|]. by eapply fill_txn_inv.
Qed.

End pieces.

(** ** The whole plan *)

Definition plan_file (f : file) : PlanFile := {| PF_Row := row f; PF_Previous := f_prev f; PF_GTIDs := Index_GTIDs (f_idx f) |}.

(** A segment of the plan is a piece of the file it names. *)
Definition segment_ok (maxBytes : Z) (X : Set_) (fs : list file) (pfs : list PlanFile) (q : Segment) : Prop :=
  exists k f, fs !! k = Some f /\ pfs !! SegFile q = Some (plan_file f) /\ piece_ok maxBytes X f q (SegEnd q) /\ (SegEnd q <= n_txns f)%nat.

Section plan.

Context (maxBytes : Z) (X B lambda onHistXL : Set_) (HX : canonical X) (fs : list file) (Hfs : Forall file_ok fs).

Lemma nth_file_ok k f : fs !! k = Some f -> file_ok f.
Proof. intros H. rewrite Forall_forall in Hfs. apply Hfs. by eapply list_elem_of_lookup_2. Qed.

Record plan_inv (E : Set_) (s : plan_state) : Prop := {
  pn_index : forall k fi, fileIndex s !! k = Some fi -> exists f, fs !! k = Some f /\ Files s !! fi = Some (plan_file f);
  pn_files : forall pf, pf ∈ Files s -> exists f, f ∈ fs /\ pf = plan_file f;
  pn_staged : canonical (staged s) /\ forall g, holds (staged s) g <-> exists pf, pf ∈ Files s /\ holds (PF_GTIDs pf) g;
  pn_segments : Forall (segment_ok maxBytes X fs (Files s)) (PlanSegments s);
  pn_chain : plan_chain X B (PlanSegments s) E
}.

Lemma segment_ok_snoc pfs pf q : segment_ok maxBytes X fs pfs q -> segment_ok maxBytes X fs (pfs ++ [pf]) q.
Proof. intros (k & f & H1 & H2 & H3). exists k, f. split; [done|]. split; [by apply lookup_app_l_Some|done]. Qed.

Lemma tmp_charge_inv v E s s' : plan_inv E s -> tmp_charge v s = Ok s' -> plan_inv E s' /\ fileIndex s' = fileIndex s /\ Files s' = Files s.
Proof. intros []. unfold tmp_charge. destruct (charge_set _ _); simpl; [|done]. intros [= <-]. by split. Qed.

Lemma stage_file_inv k f E s fi s' : fs !! k = Some f -> plan_inv E s -> stage_file k f s = Ok (fi, s') ->
  plan_inv E s' /\ Files s' !! fi = Some (plan_file f).
Proof.
  intros Hk Hi. unfold stage_file. destruct (fileIndex s !! k) as [fi'|] eqn:Ei.
  - intros [= <- <-]. split; [done|]. destruct (pn_index _ _ Hi k fi' Ei) as (f' & Hf' & ?). by simplify_eq.
  - unfold tmp_charge. destruct (charge_set _ _) as [c|]; simpl; [|done]. intros [= <- <-]. destruct Hi as [H1 H2 [C H3] H4 H5].
    destruct (wf_canonical _ (fo_index f (nth_file_ok k f Hk))) as (Cf & _).
    assert ((Files s ++ [plan_file f]) !! length (Files s) = Some (plan_file f)) as Hlast by (by apply lookup_snoc_Some; right).
    split; [|exact Hlast]. constructor; cbn [fileIndex Files staged PlanSegments].
    + intros k' fi'. destruct (decide (k' = k)) as [->|Hne].
      * cbn. rewrite lookup_insert_eq. intros [= <-]. by exists f.
      * cbn. rewrite lookup_insert_ne by done. intros H. destruct (H1 k' fi' H) as (f' & ? & ?). exists f'. split; [done|]. by apply lookup_app_l_Some.
    + intros pf [H|[->|[]%not_elem_of_nil]%elem_of_cons]%elem_of_app; [by apply H2|]. exists f. split; [by eapply list_elem_of_lookup_2|done].
    + cbn. split; [by apply canonical_Union|]. intros g. rewrite holds_Union, H3 by done. split.
      * intros [(pf & ? & ?)|H]; [exists pf|exists (plan_file f)]; rewrite elem_of_app; split; auto. right. left.
      * intros (pf & [?|[->|[]%not_elem_of_nil]%elem_of_cons]%elem_of_app & ?); [left; by exists pf|by right].
    + cbn. eapply Forall_impl; [exact H4|]. intros q. apply segment_ok_snoc.
    + exact H5.
Qed.

Lemma fill_segment_inv r f s s' : fs !! seg_file r = Some f -> (seg_start r <= seg_end r <= n_txns f)%nat ->
  plan_inv (key_at X f (seg_start r)) s -> fill_segment maxBytes X onHistXL fs s r = Ok s' -> plan_inv (key_at X f (seg_end r)) s'.
Proof.
  intros Hr Hb Hi. pose proof (nth_file_ok _ f Hr) as Hf. unfold fill_segment. rewrite Hr.
  destruct (stage_file _ _ _) as [[fi s1]|] eqn:E1; simpl; [|done]. destruct (stage_file_inv _ _ _ _ _ _ Hr Hi E1) as [Hi1 Hfi].
  destruct (tmp_charge _ _) as [s2|] eqn:E2; simpl; [|done]. destruct (tmp_charge_inv _ _ _ _ Hi1 E2) as (Hi2 & _ & Ef).
  set (none := Build_Segment 0 0 0 ∅ ∅ 0 0 0). destruct (open_piece _ _ _) as [t1|] eqn:E3; simpl; [|done].
  destruct (res_fold _ _ _) as [t2|] eqn:E4; simpl; [|done]. intros [= <-].
  apply (open_inv maxBytes X f fi (seg_start r)) in E3 as [H0 _]; [|done|constructor|constructor].
  apply (fill_txns_inv maxBytes X HX f Hf fi (seg_start r) (seg_end r) _ _ _ _ eq_refl Hb H0) in E4.
  destruct (close_pieces maxBytes X HX f Hf fi (seg_start r) _ _ E4) as [Hqs Hc]; [lia|].
  destruct Hi2 as [K1 K2 K3 K4 K5]. constructor; cbn [fileIndex Files staged PlanSegments]; [done..| |].
  - apply Forall_app; split; [done|]. eapply Forall_impl; [exact Hqs|]. intros q (Hq1 & Hq2 & Hq3). exists (seg_file r), f.
    split_and!; [done| |done..]. cbn. by rewrite Hq1, Ef.
  - by eapply plan_chain_app.
Qed.

Lemma fill_segments_inv E segs T : replays lambda X fs E segs T -> forall s s', plan_inv E s ->
  res_fold (fill_segment maxBytes X onHistXL fs) segs s = Ok s' -> plan_inv T s'.
Proof.
  induction 1 as [|r f segs E Hr Hb _ _ IH]; intros s s' Hi; [by intros [= <-]|]. cbn [res_fold].
  destruct (fill_segment _ _ _ _ _ _) as [s1|] eqn:E1; simpl; [|done]. apply IH. rewrite key_after by lia.
  by eapply fill_segment_inv.
Qed.

End plan.

Lemma search_result_files force rows marked lambda X B P target b r :
  search force rows marked lambda X B P target b = (r, None) ->
  r = {| res_files := []; segments := [] |} \/ res_files r = search_files rows P B.
Proof.
  unfold search. destruct (Equal _ _); [intros [= <-]; by left|]. destruct (buildGraph _ _ _ _ _ _ _) as [[g c]|]; [|done].
  destruct (best_start _ _); [|done]. destruct (walk _ _ _ _ _); [|done]. intros [= <-]. by right.
Qed.

(** C30. The filled plan replays what the search found. Replayed in order, from the
    backup's executed set, each segment's predecessors are, outside the excluded set,
    exactly what the server then holds, its GTIDs are new to it, and the last segment
    ends at the target; a segment's GTIDs are the transactions of its range that are not
    excluded, its file is the plan's, and its argument fits unless it is a single
    transaction. [PostStop] is what the staged files hold beyond the history. *)
Theorem plan_replays_search force rows marked maxBytes lambda X B P target b b' r p :
  search_ready lambda X B target (search_files rows P B) -> search force rows marked lambda X B P target b = (r, None) ->
  fillSegments maxBytes X lambda b' r = Ok p ->
  plan_chain X B (plan_Segments p) target
  /\ Forall (segment_ok maxBytes X (res_files r) (plan_Files p)) (plan_Segments p)
  /\ (forall g, holds (PostStop p) g <-> (exists pf, pf ∈ plan_Files p /\ holds (PF_GTIDs pf) g) /\ ~ holds lambda g /\ ~ holds X g).
Proof.
  intros R E Hp. pose proof (sr_X _ _ _ _ _ R) as HX. pose proof (sr_lambda _ _ _ _ _ R) as Hl.
  destruct (search_shortest_plan _ _ _ _ _ _ _ _ _ _ R E) as (Hr & _).
  assert (Forall file_ok (res_files r) /\ replays lambda X (res_files r) B (segments r) target) as [Hfs Hr'].
  { destruct (search_result_files _ _ _ _ _ _ _ _ _ _ E) as [->| ->]; [|split; [apply R|done]].
    cbn in Hr. inversion Hr. split; constructor. }
  revert Hp. unfold fillSegments. destruct (res_fold _ _ _) as [s|] eqn:Es; simpl; [|done]. intros [= <-]. cbn [plan_Segments plan_Files PostStop].
  assert (plan_inv maxBytes X B (res_files r) target s) as [K1 K2 [C K3] K4 K5].
  { eapply (fill_segments_inv maxBytes X B lambda _ HX (res_files r) Hfs _ _ _ Hr'); [|exact Es]. constructor; cbn.
    - intros k fi. by rewrite lookup_empty.
    - intros pf []%not_elem_of_nil.
    - split; [apply canonical_empty|]. intros g. split; [intros []%holds_empty|]. by intros (pf & []%not_elem_of_nil & _).
    - constructor.
    - constructor. }
  split_and!; [done..|]. intros g. rewrite !holds_Subtract, K3 by auto using canonical_Subtract. tauto.
Qed.

Definition demo_filled : res plan_error filled := fillSegments maxSegmentGTIDBytes ∅ (demo_set 5) (NewBudget 1000000) demo_search.1.

Definition demo_result : filled :=
  match demo_filled with
  | Ok p => p
  | Err _ => {| plan_Files := []; plan_Segments := []; OnHistoryExclusions := ∅; PostStop := ∅; Sites := []; newestReplayed := 0; replayedCount := 0; budget_left := NewBudget 0 |}
  end.

Example demo_segments : (map (fun q => (SegFile q, SegStart q, SegEnd q, Transactions q)) (plan_Segments demo_result), replayedCount demo_result)
  = ([(0%nat, 1%nat, 2%nat, 1); (1%nat, 0%nat, 1%nat, 1)], 2).
Proof. by vm_compute. Qed.

Lemma plan_replays_search_witness : plan_chain ∅ (demo_set 3) (plan_Segments demo_result) (demo_set 5) /\ length (plan_Segments demo_result) = 2%nat.
Proof.
  assert (demo_search = (demo_search.1, None)) as E by (rewrite (surjective_pairing demo_search) at 1; f_equal; vm_compute; reflexivity).
  assert (demo_filled = Ok demo_result) as Ef by (vm_compute; reflexivity).
  split; [|vm_compute; reflexivity].
  apply (plan_replays_search None demo_rows false maxSegmentGTIDBytes (demo_set 5) ∅ (demo_set 3) demo_P (demo_set 5) (NewBudget 1000000) (NewBudget 1000000)
    demo_search.1 demo_result (demo_ready _ demo_both) E Ef).
Defined.
