(* ===== verification/EngineData.v ===== *)
(** * The planned-failover engine: records, calls and memory

    What a planned-failover run keeps ([status.plannedFailover] of
    [api/v1alpha1/planned_failover_types.go]), the calls the engine makes to its store,
    topology facade and Dragonfly operations ([planned_failover_contract.go],
    [planned_failover_df.go]), and the engine's in-process memo. *)
From S2P Require Import Prelude GoStd Effects GoTime GtidSet Failover FailoverRecord PlannedRun ClaimSlot.

Local Open Scope Z_scope.

#[local] Arguments prog_bind {Op Ans A B} _ _ : simpl never.

Module Engine.

Import PlannedRun FailoverRecords ClaimSlot.

(** ** The run's record

    Messages are left out; times are in nanoseconds, 0 for none. *)

Inductive Outcome : Type :=
| OutcomeSucceeded
| OutcomeNotStarted
| OutcomeRolledBack
| OutcomeSourceLeftFenced
| OutcomePromotedUnconfirmed
| OutcomeManualRecoveryRequired.

#[export] Instance Outcome_eq_dec : EqDecision Outcome.
Proof. solve_decision. Defined.

#[export] Instance Phase_eq_dec : EqDecision PlannedFailoverPhase.
Proof. solve_decision. Defined.

Definition Outcome_String (o : Outcome) : string :=
  match o with
  | OutcomeSucceeded => "Succeeded"
  | OutcomeNotStarted => "NotStarted"
  | OutcomeRolledBack => "RolledBack"
  | OutcomeSourceLeftFenced => "SourceLeftFenced"
  | OutcomePromotedUnconfirmed => "PromotedUnconfirmed"
  | OutcomeManualRecoveryRequired => "ManualRecoveryRequired"
  end.

Inductive FenceState : Type := FenceIntended | FenceStateApplied.

Inductive DNSState : Type := DNSNone | DNSApplied | DNSFailed | DNSSkipped.

Inductive OffsetState : Type := OffsetUnknown | OffsetCaptured | OffsetUnavailable.

Inductive TakeoverState : Type := TakeoverIntended | TakeoverSucceeded | TakeoverFailed.

#[export] Instance TakeoverState_eq_dec : EqDecision TakeoverState.
Proof. solve_decision. Defined.

Inductive Sessions : Type := SessionsUnknown | SessionsPreserved | SessionsLost.

Record DragonflySettings : Type := {
  MaxSyncWait : Z;
  OnSyncTimeoutFail : bool
}.

Record Settings : Type := {
  MaxLagWait : Z;
  DrainTimeout : Z;
  Settings_Dragonfly : option DragonflySettings
}.

Record Admission : Type := {
  DeadlineTime : option Z;
  WaitReason : string;
  RetryTime : option Z
}.

Record FenceRecord : Type := {
  Fence_State : FenceState;
  Fence_IntentTime : Z;
  SourceServerUUID : string;
  ApplyTime : option Z;
  Fence_GtidSet : option string
}.

Record DrainRecord : Type := {
  Drain_StartTime : Z;
  Drain_CompletionTime : option Z;
  RemainingConnections : option Z
}.

Record LagWaitRecord : Type := {
  Lag_StartTime : Z;
  CatchUpTime : option Z
}.

Record TakeoverRecord : Type := {
  Takeover_State : TakeoverState;
  Takeover_IntentTime : Z;
  Takeover_CompletionTime : option Z;
  ReplTakeover : bool;
  TargetOffset : option Z
}.

(** [GateWaiting]: the message is [plannedDragonflyGateWaitMessage]. *)
Record DragonflyBlock : Type := {
  SyncWaitStartTime : option Z;
  SourceOffsetState : OffsetState;
  SourceOffset : option Z;
  SyncWaitSeconds : option Z;
  Takeover : option TakeoverRecord;
  D_Sessions : Sessions;
  D_Reason : string;
  GateWaiting : bool
}.

Record PromotionRecord : Type := {
  PromotionConfirmed : bool;
  Promotion_IntentTime : Z;
  TargetServerUUID : string;
  ConfirmationTime : option Z;
  Promotion_Warnings : list string
}.

Record DNSRecord : Type := {
  DNS_State : DNSState;
  AttemptTime : Z
}.

Record RollbackRecord : Type := {
  Rollback_Reason : string;
  Rollback_IntentTime : Z
}.

Record Result : Type := {
  Res_Outcome : Outcome;
  Res_Reason : string;
  CompletionTime : Z;
  Res_Warnings : list string
}.

Record Run : Type := {
  RunID : string;
  Revision : Z;
  Phase : PlannedFailoverPhase;
  TargetSite : string;
  SourceSite : string;
  RunSettings : Settings;
  ClaimBaseline : option FailoverRecordRefAPI;
  RunAdmission : option Admission;
  Fence : option FenceRecord;
  Drain : option DrainRecord;
  LagWait : option LagWaitRecord;
  RunDragonfly : option DragonflyBlock;
  Promotion : option PromotionRecord;
  DNS : option DNSRecord;
  RunRollback : option RollbackRecord;
  RunResult : option Result
}.

#[export] Instance Run_eta : Eta Run := fun r =>
  Build_Run (RunID r) (Revision r) (Phase r) (TargetSite r) (SourceSite r) (RunSettings r) (ClaimBaseline r) (RunAdmission r)
    (Fence r) (Drain r) (LagWait r) (RunDragonfly r) (Promotion r) (DNS r) (RunRollback r) (RunResult r).

#[export] Instance Admission_eta : Eta Admission := fun a => Build_Admission (DeadlineTime a) (WaitReason a) (RetryTime a).
#[export] Instance FenceRecord_eta : Eta FenceRecord := fun f =>
  Build_FenceRecord (Fence_State f) (Fence_IntentTime f) (SourceServerUUID f) (ApplyTime f) (Fence_GtidSet f).
#[export] Instance DrainRecord_eta : Eta DrainRecord := fun d =>
  Build_DrainRecord (Drain_StartTime d) (Drain_CompletionTime d) (RemainingConnections d).
#[export] Instance LagWaitRecord_eta : Eta LagWaitRecord := fun l => Build_LagWaitRecord (Lag_StartTime l) (CatchUpTime l).
#[export] Instance TakeoverRecord_eta : Eta TakeoverRecord := fun t =>
  Build_TakeoverRecord (Takeover_State t) (Takeover_IntentTime t) (Takeover_CompletionTime t) (ReplTakeover t) (TargetOffset t).
#[export] Instance DragonflyBlock_eta : Eta DragonflyBlock := fun d =>
  Build_DragonflyBlock (SyncWaitStartTime d) (SourceOffsetState d) (SourceOffset d) (SyncWaitSeconds d) (Takeover d) (D_Sessions d)
    (D_Reason d) (GateWaiting d).
#[export] Instance PromotionRecord_eta : Eta PromotionRecord := fun p =>
  Build_PromotionRecord (PromotionConfirmed p) (Promotion_IntentTime p) (TargetServerUUID p) (ConfirmationTime p) (Promotion_Warnings p).

(** ** The group's object

    [Durable]: its annotations, resource version, failover record in status and site
    names; the hold is [status.plannedFailoverHold] with its condition. *)
Record Group : Type := {
  Durable : FailoverRecords.group;
  TerminalAnnotation : json;
  RunBlock : option Run;
  Status_Hold : option PlannedFailoverHold;
  Generation : Z;
  ActiveSite : string;
  TopologyGeneration : Z;
  DragonflyEnabled : bool
}.

#[export] Instance Group_eta : Eta Group := fun g =>
  Build_Group (Durable g) (TerminalAnnotation g) (RunBlock g) (Status_Hold g) (Generation g) (ActiveSite g) (TopologyGeneration g)
    (DragonflyEnabled g).

Inductive DeadlineKind : Type := DeadlineStatusStall | DeadlineManagerAbsent | DeadlinePromotionConfirmed.

Definition Annotation (k : DeadlineKind) : string :=
  match k with
  | DeadlineStatusStall => "bloodraven.shipstream.io/planned-failover-stall-since"
  | DeadlineManagerAbsent => "bloodraven.shipstream.io/planned-failover-manager-absent-since"
  | DeadlinePromotionConfirmed => "bloodraven.shipstream.io/planned-failover-confirmed"
  end.

(** The value of a per-run annotation of [fg]. *)
Definition annotated (fg : Group) (k : DeadlineKind) : string := at_key (Annotations (Durable fg)) (Annotation k).

Definition deadline_start (fg : Group) (k : DeadlineKind) (runID : string) : option Z := parseDeadlineStart (annotated fg k) runID.

(** ** Status mutations

    The closures [terminalMutate] returns, as data. *)

Record PlannedAuthority : Type := {
  Auth_ActiveSite : string;
  DeploymentActiveSite : string;
  Auth_TopologyGeneration : Z
}.

Inductive mutation : Type :=
| MutateHold (h : PlannedFailoverHold)
| MutateRecord (authority : option PlannedAuthority) (confirmedAt : Z) (target watermark : string) (now : Z).

Definition MergePlannedAuthority (st : Group) (a : PlannedAuthority) : Group :=
  if Auth_TopologyGeneration a <? TopologyGeneration st then st
  else st <| ActiveSite := if (Auth_TopologyGeneration a >? TopologyGeneration st) && bool_decide (DeploymentActiveSite a <> "")
                           then DeploymentActiveSite a else Auth_ActiveSite a |>
          <| TopologyGeneration := Auth_TopologyGeneration a |>.

Definition applyPlannedFailoverRecord (st : Group) (confirmedAt : Z) (target watermark : string) (now : Z) : Group :=
  let rec := newFailoverRecordRef confirmedAt target in
  let older := match Status_LastFailover (Durable st) with
               | Some t => (TruncateSecond t >? Ref_LastFailover rec) && negb (failoverStampFutureDated (TruncateSecond t) now)
               | None => false
               end in
  if older then st
  else st <| Durable := Durable st <| Status_LastFailover := Some (Ref_LastFailover rec) |>
                                   <| Status_LastFailoverTarget := target |> <| Status_PromotionGtidExecuted := watermark |> |>.

Definition apply_mutation (m : mutation) (st : Group) : Group :=
  match m with
  | MutateHold h => st <| Status_Hold := Some h |>
  | MutateRecord authority confirmedAt target watermark now =>
      applyPlannedFailoverRecord (match authority with Some a => MergePlannedAuthority st a | None => st end) confirmedAt target watermark now
  end.

(** ** Calls *)

Inductive WriteOutcome : Type := WriteCommitted | WriteConflict | WriteNotCommitted | WriteGone | WriteUnknown.

#[export] Instance WriteOutcome_eq_dec : EqDecision WriteOutcome.
Proof. solve_decision. Defined.

Inductive facade_error : Type :=
| errManagerAbsent
| errClaimLost
| errLeaderLost
| errReproveRequired
| errSiteNotFound
| OtherError.

Inductive dragonfly_error : Type :=
| errDragonflyGateBusy
| errPlannedBlockMoved
| Facade (e : facade_error).

Record PlannedRunRef : Type := {
  Ref_RunID : string;
  Ref_Source : string;
  Ref_Target : string
}.

Inductive ClaimDecision : Type :=
| ClaimGranted
| ClaimWait (wait_reason : string)
| ClaimReject (reject_reason : string).

Inductive FenceResultKind : Type :=
| FenceApplied
| FenceNotSent
| FenceForeignWritable
| FenceNotAttributable
| FenceRetry
| FenceSourceUnreachable.

Record FenceProof : Type := {
  FP_Kind : FenceResultKind;
  FP_Reason : string;
  SourceWritable : bool;
  FP_GtidSet : string;
  UnreadablePeers : list string;
  Sent : bool
}.

Record LagProbe : Type := {
  SourceReachable : bool;
  TargetReachable : bool;
  CaughtUp : bool;
  Divergent : bool
}.

Inductive PromoteOutcomeKind : Type := PromoteConfirmed | PromoteAborted | PromoteUnconfirmed | PromoteInconsistent.

Record PromoteOutcome : Type := {
  PO_Kind : PromoteOutcomeKind;
  PO_Reason : string;
  PO_Terminal : option Outcome;
  PO_Warnings : list string;
  PO_TargetReachable : bool;
  MayHaveWritten : bool;
  RollbackIfUnrecorded : bool;
  PO_Sites : list string
}.

Record ReproveResult : Type := {
  RR_OK : bool;
  RR_RollBack : option string;
  RR_Hold : option string;
  RR_HandOff : option PromoteOutcome;
  SourceUnreachable : bool
}.

Record RollbackResult : Type := {
  RB_Outcome : option Outcome;
  RB_Reason : string;
  RB_Warnings : list string
}.

Record plannedTakeoverResult : Type := {
  TR_Succeeded : bool;
  TR_TargetOffset : option Z
}.

(** The store, the topology facade, the Dragonfly operations, the sink and the clock.
    [ActiveSitePersisted]: the callback of that name. *)
Inductive op : Type :=
| Now
| Load
| Write (base : Group) (next : Run) (mutate : option mutation)
| MarkDeadlineStart (base : Group) (kind : DeadlineKind) (runID : string) (now : Z)
| ClearDeadlineStart (base : Group) (kind : DeadlineKind) (runID : string)
| WriteTerminalMarker (base : Group) (m : TerminalMarker)
| EnsureClaim (ref : PlannedRunRef) (fg : Group)
| ReleasePlannedFailoverClaim (runID : string) (why : ClaimReleaseReason)
| ConvertToHold (runID : string) (sites : list string)
| HeldRunClaim
| HeldHoldClaim
| ManagerAuthority
| CheckRunClaim (ref : PlannedRunRef)
| Reprove (ref : PlannedRunRef) (fg : Group)
| FenceSource (ref : PlannedRunRef) (sourceServerUUID : string)
| ProveFence (ref : PlannedRunRef) (fence : FenceRecord)
| KillAppConnections (ref : PlannedRunRef)
| ProbeLag (ref : PlannedRunRef) (fenced : string)
| ReadTargetServerUUID (ref : PlannedRunRef)
| Promote (ref : PlannedRunRef) (pf : Run)
| RecordPlannedPromotion (ref : PlannedRunRef) (confirmedAt : Z) (watermark : string)
| ApplyDNS (ref : PlannedRunRef)
| NameUnconfirmedTarget (ref : PlannedRunRef)
| NameFencedSource (ref : PlannedRunRef)
| Rollback (ref : PlannedRunRef) (pf : Run)
| CaptureSourceOffset (fg : Group) (source : string)
| TargetSyncReady (fg : Group) (target : string) (sourceOffset : Z)
| DragonflyTakeover (fg : Group) (pf : Run)
| DragonflyAbandon (fg : Group) (pf : Run)
| Event (reason : string)
| RunTerminal (final : Run)
| LagWaitObserved (target : string) (d : Z)
| ActiveSitePersisted (to from : string).

(** A read answers [None] on error; [Load] answers [Some None] for a group that is gone. *)
Definition ans (o : op) : Type :=
  match o with
  | Now => Z
  | Load => option (option Group)
  | Write _ _ _ | ClearDeadlineStart _ _ _ | WriteTerminalMarker _ _ => WriteOutcome
  | MarkDeadlineStart _ _ _ _ => Z * WriteOutcome
  | EnsureClaim _ _ => res facade_error ClaimDecision
  | ReleasePlannedFailoverClaim _ _ | ConvertToHold _ _ => bool
  | HeldRunClaim | HeldHoldClaim => option string
  | ManagerAuthority => option PlannedAuthority
  | CheckRunClaim _ | RecordPlannedPromotion _ _ _ | NameUnconfirmedTarget _ | NameFencedSource _ => option facade_error
  | Reprove _ _ => res facade_error ReproveResult
  | FenceSource _ _ | ProveFence _ _ => res facade_error FenceProof
  | KillAppConnections _ => res facade_error Z
  | ProbeLag _ _ => res facade_error LagProbe
  | ReadTargetServerUUID _ => res facade_error string
  | Promote _ _ => res facade_error PromoteOutcome
  | ApplyDNS _ => res facade_error DNSState
  | Rollback _ _ => RollbackResult * option facade_error
  | CaptureSourceOffset _ _ => option Z
  | TargetSyncReady _ _ _ => option bool
  | DragonflyTakeover _ _ | DragonflyAbandon _ _ => res dragonfly_error plannedTakeoverResult
  | Event _ | RunTerminal _ | LagWaitObserved _ _ | ActiveSitePersisted _ _ => unit
  end.

(** ** The engine's memory *)

Record pfFenceMemo : Type := {
  sent : bool;
  setSent : bool
}.

Record pfPromoteMemo : Type := {
  mayHaveWritten : bool;
  confirmed : bool;
  confirmedAt : Z;
  recorded : bool;
  dns : option DNSRecord;
  released : bool
}.

(** The reason a takeover failed for is left out. *)
Record pfTakeoverOutcome : Type := {
  TO_succeeded : bool;
  TO_targetOffset : option Z;
  TO_at : Z
}.

Record pfDragonflyMemo : Type := {
  intent : Z;
  outcome : option pfTakeoverOutcome
}.

(** [baseRV], [revision], [phase]. *)
Record plannedUnsettledWrite : Type := {
  baseRV : Z;
  unsettled_revision : Z;
  unsettled_phase : PlannedFailoverPhase
}.

(** What the memo keeps to log a message once is left out. *)
Record plannedRunMemo : Type := {
  granted : bool;
  fence : pfFenceMemo;
  promote : pfPromoteMemo;
  dragonfly : pfDragonflyMemo;
  warnings : list string;
  sourceLossSince : Z;
  targetLossSince : Z;
  targetIdentityLossSince : Z;
  lagObserved : bool;
  absentWarned : bool;
  stallSince : Z;
  pendingTerminal : option Run;
  holdSites : list string;
  reported : bool;
  unsettled : option plannedUnsettledWrite;
  cannotWriteAt : Z
}.

#[export] Instance pfFenceMemo_eta : Eta pfFenceMemo := fun m => Build_pfFenceMemo (sent m) (setSent m).
#[export] Instance pfPromoteMemo_eta : Eta pfPromoteMemo := fun m =>
  Build_pfPromoteMemo (mayHaveWritten m) (confirmed m) (confirmedAt m) (recorded m) (dns m) (released m).
#[export] Instance pfDragonflyMemo_eta : Eta pfDragonflyMemo := fun m => Build_pfDragonflyMemo (intent m) (outcome m).
#[export] Instance plannedRunMemo_eta : Eta plannedRunMemo := fun m =>
  Build_plannedRunMemo (granted m) (fence m) (promote m) (dragonfly m) (warnings m) (sourceLossSince m) (targetLossSince m)
    (targetIdentityLossSince m) (lagObserved m) (absentWarned m) (stallSince m) (pendingTerminal m) (holdSites m) (reported m)
    (unsettled m) (cannotWriteAt m).

Definition noPromotion : pfPromoteMemo :=
  {| mayHaveWritten := false; confirmed := false; confirmedAt := 0; recorded := false; dns := None; released := false |}.

Definition newRunMemo : plannedRunMemo :=
  {| granted := false; fence := {| sent := false; setSent := false |}; promote := noPromotion;
     dragonfly := {| intent := 0; outcome := None |}; warnings := []; sourceLossSince := 0; targetLossSince := 0;
     targetIdentityLossSince := 0; lagObserved := false; absentWarned := false; stallSince := 0; pendingTerminal := None;
     holdSites := []; reported := false; unsettled := None; cannotWriteAt := 0 |}.

(** The engine of one group. [has_dragonfly], [has_callback]: the optional members are set. *)
Record engine : Type := {
  has_dragonfly : bool;
  has_callback : bool;
  runs_ : gmap string plannedRunMemo;
  terminatedRuns : gset string
}.

#[export] Instance engine_eta : Eta engine := fun e => Build_engine (has_dragonfly e) (has_callback e) (runs_ e) (terminatedRuns e).

(** ** Engine programs *)

Abbreviation eng := (st ans engine).
Abbreviation eret := (sret (Ans := ans) (St := engine)).
Abbreviation ebind := (sbind (Ans := ans) (St := engine)).
Abbreviation ecall := (scall (Ans := ans) (St := engine)).

Definition runMemo (runID : string) : eng plannedRunMemo := sget (fun e => default newRunMemo (runs_ e !! runID)).

Definition set_memo (runID : string) (f : plannedRunMemo -> plannedRunMemo) : eng unit :=
  smodify (fun e => e <| runs_ := <[runID := f (default newRunMemo (runs_ e !! runID))]> (runs_ e) |>).

Definition terminated (runID : string) : eng bool := sget (fun e => bool_decide (runID ∈ terminatedRuns e)).

Definition markTerminated (runID : string) : eng unit := smodify (fun e => e <| terminatedRuns := {[runID]} ∪ terminatedRuns e |>).

Definition config (f : engine -> bool) : eng bool := sget f.

End Engine.
