(* ===== verification/EngineSteps.v ===== *)
(** * The planned-failover engine: one pass of a run that owns sites

    [internal/controller/planned_failover_engine.go] from [claimPass] to
    [retryTerminatedRun], the Dragonfly steps of [planned_failover_df.go], and the
    predicates of [planned_failover_ops.go] they read. A pass is a program over the
    store's, the facade's and the Dragonfly operations' answers and the engine's memo.
    Every step returns the requeue; its error is nil on every path. *)
From S2P Require Import Prelude GoStd Effects GoTime GtidSet Failover FailoverRecord PlannedRun ClaimSlot EngineData.

Local Open Scope Z_scope.

#[local] Arguments prog_bind {Op Ans A B} _ _ : simpl never.

Module Steps.

Import PlannedRun FailoverRecords ClaimSlot Engine.

(** ** Constants *)

Definition plannedFailoverStatusStallDeadline : Z := 120 * Second.
Definition plannedReleasedStallDeadline : Z := 10 * Second.
Definition plannedFailoverManagerAbsentDeadline : Z := 300 * Second.
Definition plannedFailoverManagerAbsentWarnAfter : Z := 30 * Second.
Definition plannedFailoverFenceDeadline : Z := 30 * Second.
Definition plannedFailoverPromotionDeadline : Z := 120 * Second.
Definition plannedFailoverRollbackDeadline : Z := 30 * Second.
Definition plannedFailoverLossWindow : Z := 10 * Second.
Definition plannedFailoverMarkerRetryInterval : Z := 10 * Second.
Definition plannedFailoverWatermarkAnnotationLimit : Z := 64 * 1024.
Definition plannedWriteConflictRetries : nat := 3.
Definition plannedRequeueNext : Z := 200000000.
Definition plannedRequeuePoll : Z := 1 * Second.
Definition plannedRequeueBackoff : Z := 2 * Second.
Definition defaultPlannedFailoverMaxLagWait : Z := 300 * Second.
Definition defaultPlannedFailoverDrainTimeout : Z := 30 * Second.
Definition defaultDragonflySyncWait : Z := 30 * Second.
Definition plannedDragonflyTakeoverSlack : Z := 12 * Second.
Definition plannedDragonflyGateAllowance : Z := 40 * Second.
Definition dragonflySyncPollInterval : Z := 1 * Second.
Definition dragonflyGateRetry : Z := 1 * Second.

(** ** The block *)

Definition plannedFailoverTerminal (pf : Run) : bool :=
  match Phase pf with PlannedFailoverPhaseSucceeded | PlannedFailoverPhaseFailed => true | _ => false end.

(** The run, and whether the terminal marker names it. *)
Definition plannedFailoverRun (fg : Group) : option Run * bool :=
  match RunBlock fg with
  | None => (None, false)
  | Some pf =>
      if bool_decide (RunID pf = "") then (Some pf, false)
      else (Some pf, match ParseTerminalMarker (TerminalAnnotation fg) with
                     | Some m => bool_decide (M_RunID m = RunID pf)
                     | None => false
                     end)
  end.

Definition plannedRunRef (pf : Run) : PlannedRunRef :=
  {| Ref_RunID := RunID pf; Ref_Source := SourceSite pf; Ref_Target := TargetSite pf |}.

Definition plannedFenceSet (pf : Run) : string :=
  match Fence pf with Some f => default "" (Fence_GtidSet f) | None => "" end.

Definition addPlannedWarnings (dst ws : list string) : list string :=
  fold_left (fun dst w => if bool_decide (w <> "") && bool_decide (w ∉ dst) then dst ++ [w] else dst) ws dst.

Definition plannedSettings (pf : Run) : Settings :=
  let s := RunSettings pf in
  {| MaxLagWait := if MaxLagWait s >? 0 then MaxLagWait s else defaultPlannedFailoverMaxLagWait;
     DrainTimeout := if DrainTimeout s >? 0 then DrainTimeout s else defaultPlannedFailoverDrainTimeout;
     Settings_Dragonfly :=
       match Settings_Dragonfly s with
       | Some d => Some {| MaxSyncWait := if MaxSyncWait d <=? 0 then defaultDragonflySyncWait else MaxSyncWait d;
                           OnSyncTimeoutFail := OnSyncTimeoutFail d |}
       | None => None
       end |}.

Definition sameRun (base : Group) (pf : Run) (phases : list PlannedFailoverPhase) : option Run :=
  match plannedFailoverRun base with
  | (Some cur, false) =>
      if bool_decide (RunID cur <> RunID pf) then None
      else if nonempty phases && bool_decide (Phase cur ∉ phases) then None
      else Some cur
  | _ => None
  end.

Definition plannedFailoverOwnsSitesPhase (p : PlannedFailoverPhase) : bool :=
  match p with
  | PlannedFailoverPhaseFencing | PlannedFailoverPhaseDraining | PlannedFailoverPhaseWaitingForLag
  | PlannedFailoverPhaseWaitingForDragonflySync | PlannedFailoverPhasePromotingDragonfly
  | PlannedFailoverPhasePromoting | PlannedFailoverPhaseRollingBack => true
  | _ => false
  end.

Definition requeueFor (out : WriteOutcome) : Z :=
  match out with
  | WriteCommitted => plannedRequeueNext
  | WriteGone => 0
  | WriteUnknown => plannedRequeueBackoff
  | _ => plannedRequeuePoll
  end.

(** ** The run's own failover record *)

Definition sameGTIDText (a b : string) : bool :=
  match GTID.ParseGTIDSet a, GTID.ParseGTIDSet b with
  | Ok x, Ok y => GTID.Contains x y && GTID.Contains y x
  | _, _ => bool_decide (TrimSpace a = TrimSpace b)
  end.

Definition ownFailoverRecord (fg : Group) (rec : FailoverRecord) (pf : Run) : bool :=
  match Promotion pf, Fence pf with
  | Some p, Some f =>
      match Fence_GtidSet f with
      | None => false
      | Some F =>
          if bool_decide (LastFailoverTarget rec <> TargetSite pf) then false
          else if LastFailover rec <? TruncateSecond (Promotion_IntentTime p) then false
          else
            let st := FailoverRecordFromStatus (Durable fg) in
            let watermark :=
              if bool_decide (PromotionGtidExecuted rec <> "") then PromotionGtidExecuted rec
              else if sameEvent st rec && bool_decide (PromotionGtidExecuted st <> "") then PromotionGtidExecuted st
              else match FailoverRecordFromAnnotations (Annotations (Durable fg)) with
                   | Ok oob => if sameEvent oob rec then PromotionGtidExecuted oob else ""
                   | Err _ => ""
                   end in
            sameGTIDText watermark F
      end
  | _, _ => false
  end.

(** [EffectiveFailoverRecord]'s winner, [None] when it has an error and no valid copy. *)
Definition effective (fg : Group) (now : Z) : option FailoverRecord :=
  let '(rec, _, (statusErrs, oobErrs)) := EffectiveFailoverRecord (Durable fg) now in
  if (nonempty statusErrs || nonempty oobErrs) && IsZero rec then None else Some rec.

Definition runRecordDurable (fg : Group) (pf : Run) (confirmedAt now : Z) : bool :=
  if isZeroTime confirmedAt then false
  else match effective fg now with
       | None => false
       | Some rec =>
           sameEvent rec {| LastFailover := TruncateSecond confirmedAt; LastFailoverTarget := TargetSite pf; PromotionGtidExecuted := "" |}
           && ownFailoverRecord fg rec pf
       end.

Definition plannedRecordUnchanged (fg : Group) (pf : Run) (now : Z) : bool :=
  match effective fg now with
  | None => false
  | Some rec =>
      sameFailoverRecord (newFailoverRecordRef (LastFailover rec) (LastFailoverTarget rec)) (failoverRecordRefFromAPI (ClaimBaseline pf))
      || ownFailoverRecord fg rec pf
  end.

(** The time of the run's own durable record, 0 for none. *)
Definition plannedOwnRecordTime (fg : Group) (pf : Run) (now : Z) : Z :=
  let by_content := match effective fg now with
                    | Some rec => if ownFailoverRecord fg rec pf then LastFailover rec else 0
                    | None => 0
                    end in
  match Promotion pf with
  | None => by_content
  | Some p =>
      match ConfirmationTime p with
      | Some t => t
      | None => if bool_decide (RunID pf <> "")
                then default by_content (deadline_start fg DeadlinePromotionConfirmed (RunID pf)) else by_content
      end
  end.

Definition plannedOwnRecordDurable (fg : Group) (pf : Run) (now : Z) : bool := negb (isZeroTime (plannedOwnRecordTime fg pf now)).

Definition plannedPromotionRecorded (fg : Group) (pf : Run) (now : Z) : bool :=
  bool_decide (Phase pf = PlannedFailoverPhasePromoting) && plannedOwnRecordDurable fg pf now.

(** ** Writes *)

(** The next block and the mutation that goes with it; [None]: the block moved on. *)
Definition plannedBuild : Type := Group -> eng (option (Run * option mutation)).

(** [commit]'s result: the outcome, the block it wrote last and whether its conflicts
    exhausted the pass's attempts. *)
Record commit_result : Type := {
  out : WriteOutcome;
  wrote : option Run;
  exhausted : bool
}.

Definition plannedWriteStalled (r : commit_result) : bool :=
  match out r with
  | WriteUnknown | WriteNotCommitted => true
  | WriteConflict => exhausted r
  | _ => false
  end.

Definition load : eng (option (option Group)) := ecall Load.

(** [reload]: [None] when the read failed or the group is gone. *)
Definition reload : eng (option Group) :=
  let^ r := load in eret (match r with Some fg => fg | None => None end).

Definition dropPendingTerminal (runID : string) : eng unit :=
  let^ m := runMemo runID in
  match pendingTerminal m with
  | Some _ => set_memo runID (fun m => m <| pendingTerminal := None |> <| holdSites := [] |>)
  | None => eret tt
  end.

Definition afterCommit (base : Group) (next : Run) : eng unit :=
  set_memo (RunID next) (fun m => m <| stallSince := 0 |> <| unsettled := None |>) ;;*
  match deadline_start base DeadlineStatusStall (RunID next) with
  | None => eret tt
  | Some _ =>
      let^ fresh := reload in
      match fresh with
      | Some fresh => ecall (ClearDeadlineStart fresh DeadlineStatusStall (RunID next)) ;;* eret tt
      | None => eret tt
      end
  end.

Definition noteStall (base : Group) (runID : string) : eng unit :=
  match deadline_start base DeadlineStatusStall runID with
  | Some start => set_memo runID (fun m => m <| stallSince := start |>)
  | None =>
      let^ fresh := reload in
      match fresh with
      | None => eret tt
      | Some fresh =>
          let^ now := ecall Now in
          let^ r := ecall (MarkDeadlineStart fresh DeadlineStatusStall runID now) in
          let '(start, out) := r : Z * WriteOutcome in
          match out with
          | WriteCommitted => set_memo runID (fun m => m <| stallSince := start |>)
          | _ => eret tt
          end
      end
  end.

Fixpoint commit_attempts (n : nat) (first : bool) (base : Group) (last : option Run) (claimHeld : bool) (build : plannedBuild)
  : eng commit_result :=
  match n with
  | O =>
      (match last with Some l => if claimHeld then noteStall base (RunID l) else eret tt | None => eret tt end) ;;*
      eret {| out := WriteConflict; wrote := last; exhausted := true |}
  | S n =>
      let^ b := build base in
      match b with
      | None => eret {| out := WriteConflict; wrote := None; exhausted := false |}
      | Some (next, mutate) =>
          (if first && negb (plannedFailoverTerminal next) then dropPendingTerminal (RunID next) else eret tt) ;;*
          let^ o := ecall (Write base next mutate) in
          match o : WriteOutcome with
          | WriteCommitted =>
              afterCommit base next ;;*
              let^ cb := config has_callback in
              (match mutate with
               | Some mu => if cb : bool then ecall (ActiveSitePersisted (ActiveSite (apply_mutation mu base)) (ActiveSite base)) else eret tt
               | None => eret tt
               end) ;;*
              eret {| out := WriteCommitted; wrote := Some next; exhausted := false |}
          | WriteConflict =>
              let^ r := load in
              match r with
              | None => eret {| out := WriteConflict; wrote := Some next; exhausted := false |}
              | Some None => eret {| out := WriteGone; wrote := Some next; exhausted := false |}
              | Some (Some base) => commit_attempts n false base (Some next) claimHeld build
              end
          | _ =>
              (match o with
               | WriteUnknown =>
                   set_memo (RunID next) (fun m => m <| unsettled := Some {| baseRV := ResourceVersion (Durable base);
                     unsettled_revision := Revision next; unsettled_phase := Phase next |} |>)
               | _ => eret tt
               end) ;;*
              let r := {| out := o; wrote := Some next; exhausted := false |} in
              (if claimHeld && plannedWriteStalled r then noteStall base (RunID next) else eret tt) ;;*
              eret r
          end
      end
  end.

Definition commit (fg : Group) (claimHeld : bool) (build : plannedBuild) : eng commit_result :=
  commit_attempts plannedWriteConflictRetries true fg None claimHeld build.

Definition claim_held (pf : Run) : eng bool :=
  let^ m := runMemo (RunID pf) in
  eret (plannedFailoverOwnsSitesPhase (Phase pf) || (bool_decide (Phase pf = PlannedFailoverPhaseAdmitting) && granted m)).

Definition advance (fg : Group) (pf : Run) (edit : Run -> eng Run) : eng commit_result :=
  let^ held := claim_held pf in
  commit fg held (fun base =>
    match sameRun base pf [Phase pf] with
    | None => eret None
    | Some cur => let^ next := edit (cur <| Revision := Revision cur + 1 |>) in eret (Some (next, None))
    end).

(** ** Claims *)

Definition release (runID : string) (why : ClaimReleaseReason) : eng unit :=
  if bool_decide (runID = "") then eret tt else ecall (ReleasePlannedFailoverClaim runID why) ;;* eret tt.

Definition releaseZombie (pf : option Run) : eng unit :=
  let^ hold := ecall HeldHoldClaim in
  match hold : option string with
  | Some holdRun => ecall (ReleasePlannedFailoverClaim holdRun ReleaseOrphanHold) ;;* eret tt
  | None =>
      let^ held := ecall HeldRunClaim in
      match held : option string with
      | None => eret tt
      | Some runID =>
          if bool_decide (runID = "") then eret tt
          else if match pf with Some pf => bool_decide (RunID pf = runID) && negb (plannedFailoverTerminal pf) | None => false end then eret tt
          else release runID ReleaseZombie
      end
  end.

(** ** Terminal records *)

(** A release reason of [None] is the default, [ReleaseTerminal]. *)
Record plannedEnd : Type := {
  end_outcome : Outcome;
  end_reason : string;
  end_warnings : list string;
  why : option ClaimReleaseReason;
  eventReason : string;
  noNaming : bool;
  end_holdSites : list string;
  end_confirmedAt : Z
}.

#[export] Instance plannedEnd_eta : Eta plannedEnd := fun e =>
  Build_plannedEnd (end_outcome e) (end_reason e) (end_warnings e) (why e) (eventReason e) (noNaming e) (end_holdSites e) (end_confirmedAt e).

Definition ending (o : Outcome) (reason : string) : plannedEnd :=
  {| end_outcome := o; end_reason := reason; end_warnings := []; why := None; eventReason := ""; noNaming := false; end_holdSites := [];
     end_confirmedAt := 0 |}.

Definition plannedHoldSites (pf : Run) (observed : list string) : list string := addPlannedWarnings [] (TargetSite pf :: SourceSite pf :: observed).

Definition plannedHoldSitesUnknown (fg : Group) (pf : Run) : list string := plannedHoldSites pf (FailoverRecords.Sites (Durable fg)).

Definition fenceAttributable (m : plannedRunMemo) (pf : Run) (ws : list string) : bool :=
  if bool_decide ("FenceNotAttributable" ∈ ws) then false
  else match Fence pf with
       | Some {| Fence_State := FenceStateApplied |} => true
       | _ => sent (fence m) || setSent (fence m)
       end.

Definition plannedDragonflyBlock (next : Run) : DragonflyBlock :=
  default {| SyncWaitStartTime := None; SourceOffsetState := OffsetUnknown; SourceOffset := None; SyncWaitSeconds := None; Takeover := None;
             D_Sessions := SessionsUnknown; D_Reason := ""; GateWaiting := false |} (RunDragonfly next).

(** [applyTo]. *)
Definition applyTo (o : pfTakeoverOutcome) (next : Run) : Run :=
  let d := plannedDragonflyBlock next in
  let t := default {| Takeover_State := TakeoverIntended; Takeover_IntentTime := TO_at o; Takeover_CompletionTime := None;
                      ReplTakeover := false; TargetOffset := None |} (Takeover d) <| Takeover_CompletionTime := Some (TO_at o) |> in
  next <| RunDragonfly := Some
    (if TO_succeeded o then
       d <| Takeover := Some (t <| Takeover_State := TakeoverSucceeded |> <| ReplTakeover := true |> <| TargetOffset := TO_targetOffset o |>) |>
         <| D_Sessions := match D_Sessions d with SessionsUnknown => SessionsPreserved | s => s end |> <| GateWaiting := false |>
     else
       d <| Takeover := Some (t <| Takeover_State := TakeoverFailed |>) |> <| D_Sessions := SessionsLost |>
         <| D_Reason := "DragonflyPromotionFailed" |> <| GateWaiting := false |>) |>.

Definition takeover_state (pf : Run) : option TakeoverState :=
  match RunDragonfly pf with
  | Some d => match Takeover d with Some t => Some (Takeover_State t) | None => None end
  | None => None
  end.

Definition applyPendingTakeoverOutcome (m : plannedRunMemo) (next : Run) : Run :=
  if bool_decide (takeover_state next = Some TakeoverIntended)
  then match outcome (dragonfly m) with Some o => applyTo o next | None => next end
  else next.

(** [m]: the memo of the run [pf]. *)
Definition terminal_block (m : plannedRunMemo) (pf : Run) (e : plannedEnd) (now : Z) : Run :=
  let ws := addPlannedWarnings (warnings m) (end_warnings e) in
  let ws := match Promotion pf with Some p => addPlannedWarnings ws (Promotion_Warnings p) | None => ws end in
  let ws := match DNS pf with Some {| DNS_State := DNSFailed |} => addPlannedWarnings ws ["DNSUpdateFailed"] | _ => ws end in
  let next := pf <| Revision := Revision pf + 1 |>
                 <| Phase := match end_outcome e with OutcomeSucceeded => PlannedFailoverPhaseSucceeded | _ => PlannedFailoverPhaseFailed end |> in
  let next :=
    match Promotion next with
    | Some p =>
        if bool_decide (end_outcome e = OutcomeSucceeded) && negb (isZeroTime (end_confirmedAt e)) && negb (bool_decide (is_Some (ConfirmationTime p)))
        then next <| Promotion := Some (p <| PromotionConfirmed := true |> <| ConfirmationTime := Some (TruncateSecond (end_confirmedAt e)) |>) |>
        else next
    | None => next
    end in
  let next := applyPendingTakeoverOutcome m next in
  let ws := if bool_decide (takeover_state next = Some TakeoverSucceeded) && negb (bool_decide (end_outcome e = OutcomeSucceeded))
            then addPlannedWarnings ws ["DragonflySessionsLost"] else ws in
  let next := match RunAdmission next with Some a => next <| RunAdmission := Some (a <| RetryTime := None |>) |> | None => next end in
  next <| RunResult := Some {| Res_Outcome := end_outcome e; Res_Reason := end_reason e; CompletionTime := now; Res_Warnings := sort_strings ws |} |>.

Definition terminalRecord (pf : Run) (e : plannedEnd) : eng Run :=
  let^ m := runMemo (RunID pf) in
  let^ now := ecall Now in
  eret (terminal_block m pf e now).

(** The hold's time and its condition's generation are left out. *)
Definition terminalMutate (next : Run) (sites : list string) : eng (option mutation) :=
  match RunResult next with
  | None => eret None
  | Some r =>
      match Res_Outcome r with
      | OutcomeManualRecoveryRequired =>
          let^ _ := ecall Now in
          eret (Some (MutateHold {| Hold_RunID := RunID next; Hold_Reason := Res_Reason r; Hold_AmbiguousSites := sites |}))
      | OutcomeSucceeded =>
          match Promotion next with
          | Some p =>
              match ConfirmationTime p with
              | Some at_ =>
                  let^ authority := ecall ManagerAuthority in
                  let^ now := ecall Now in
                  eret (Some (MutateRecord authority at_ (TargetSite next) (plannedFenceSet next) now))
              | None => eret None
              end
          | None => eret None
          end
      | _ => eret None
      end
  end.

Definition nameForOutcome (pf : Run) (e : plannedEnd) : eng unit :=
  match end_outcome e with
  | OutcomeSourceLeftFenced =>
      let^ m := runMemo (RunID pf) in
      if bool_decide (SourceSite pf = "") || negb (fenceAttributable m pf (addPlannedWarnings (warnings m) (end_warnings e))) then eret tt
      else ecall (NameFencedSource (plannedRunRef pf)) ;;* eret tt
  | OutcomePromotedUnconfirmed =>
      if bool_decide (end_reason e = "ManagerUnavailable") then eret tt
      else
        let^ fresh := reload in
        match fresh with
        | None => eret tt
        | Some fresh =>
            let^ now := ecall Now in
            if negb (plannedRecordUnchanged fresh pf now) then eret tt
            else ecall (NameUnconfirmedTarget (plannedRunRef pf)) ;;* eret tt
        end
  | _ => eret tt
  end.

Definition reportTerminal (final : Run) (r : Result) (eventReason : string) : eng unit :=
  ecall (RunTerminal final) ;;*
  match Res_Outcome r with
  | OutcomeSucceeded => ecall (Event (if bool_decide (eventReason = "") then "PlannedFailoverSucceeded" else eventReason)) ;;* eret tt
  | OutcomeManualRecoveryRequired => ecall (Event "PlannedFailoverManualRecoveryRequired") ;;* eret tt
  | o =>
      (match o with OutcomePromotedUnconfirmed => ecall (Event "PlannedFailoverPromotionConfirmationFailed") | _ => eret tt end) ;;*
      ecall (Event (if bool_decide (eventReason = "") then "PlannedFailoverFailed" else eventReason)) ;;* eret tt
  end.

Definition plannedRunAnnotationKinds : list DeadlineKind := [DeadlineManagerAbsent; DeadlineStatusStall; DeadlinePromotionConfirmed].

Fixpoint clear_annotations (kinds : list DeadlineKind) (runID : string) (fresh : Group) : eng unit :=
  match kinds with
  | [] => eret tt
  | kind :: kinds =>
      match deadline_start fresh kind runID with
      | None => clear_annotations kinds runID fresh
      | Some _ =>
          let^ o := ecall (ClearDeadlineStart fresh kind runID) in
          match o : WriteOutcome with
          | WriteCommitted => let^ f := reload in clear_annotations kinds runID (default fresh f)
          | _ => clear_annotations kinds runID fresh
          end
      end
  end.

Definition afterTerminal (final : Run) (r : Result) (why : ClaimReleaseReason) (eventReason : string) : eng unit :=
  let^ m := runMemo (RunID final) in
  markTerminated (RunID final) ;;*
  (match Res_Outcome r with
   | OutcomeManualRecoveryRequired => ecall (ConvertToHold (RunID final) (holdSites m)) ;;* eret tt
   | _ => release (RunID final) why
   end) ;;*
  (if reported m then eret tt
   else set_memo (RunID final) (fun m => m <| reported := true |>) ;;* reportTerminal final r eventReason) ;;*
  let^ fresh := reload in
  match fresh with
  | None => eret tt
  | Some fresh => clear_annotations plannedRunAnnotationKinds (RunID final) fresh
  end.

(** ** Stalled status writes *)

Definition stallOutcome (pf : Run) : eng plannedEnd :=
  let^ m := runMemo (RunID pf) in
  let p := promote m in
  let ends o reason := ending o reason <| end_warnings := ["StatusStalled"] |> in
  if bool_decide (Phase pf = PlannedFailoverPhasePublishing) then eret (ends OutcomeSucceeded "")
  else if confirmed p then
    (if recorded p then eret tt
     else let^ r := ecall (RecordPlannedPromotion (plannedRunRef pf) (confirmedAt p) (plannedFenceSet pf)) in
          match r : option facade_error with
          | None => set_memo (RunID pf) (fun m => m <| promote := promote m <| recorded := true |> |>)
          | Some _ => eret tt
          end) ;;*
    let^ ws := (if bool_decide (is_Some (dns p)) || released p then eret ["StatusStalled"]
                else let^ r := ecall (ApplyDNS (plannedRunRef pf)) in
                     eret match r : res facade_error DNSState with
                          | Ok DNSFailed | Err _ => addPlannedWarnings ["StatusStalled"] ["DNSUpdateFailed"]
                          | _ => ["StatusStalled"]
                          end) in
    eret (ending OutcomeSucceeded "" <| end_warnings := ws |> <| end_confirmedAt := confirmedAt p |>)
  else if mayHaveWritten p then eret (ends OutcomePromotedUnconfirmed "StatusStalled")
  else if bool_decide (Phase pf = PlannedFailoverPhaseAdmitting) then eret (ends OutcomeNotStarted "StatusStalled")
  else if bool_decide (Phase pf = PlannedFailoverPhaseFencing)
          && match Fence pf with Some {| Fence_State := FenceIntended |} => true | _ => false end
          && granted m && negb (setSent (fence m)) && negb (sent (fence m))
  then eret (ends OutcomeRolledBack "StatusStalled")
  else eret (ends OutcomeSourceLeftFenced "StatusStalled").

(** The remembered terminal record's outcome, when the stalled write was that record. *)
Definition pending_end (m : plannedRunMemo) (cur : Run) (e : plannedEnd) : plannedEnd :=
  match pendingTerminal m with
  | Some p =>
      match RunResult p with
      | Some r =>
          if bool_decide (RunID p = RunID cur) && (Revision p =? Revision cur + 1) then
            ending (Res_Outcome r) (Res_Reason r)
              <| end_warnings := addPlannedWarnings (Res_Warnings r) ["StatusStalled"] |>
              <| end_confirmedAt := match Promotion p with
                                    | Some q => default (end_confirmedAt e) (ConfirmationTime q)
                                    | None => end_confirmedAt e
                                    end |>
          else e
      | None => e
      end
  | None => e
  end.

(** The marker write: its outcome, [None] when a reload after a conflict failed. *)
Fixpoint marker_attempts (n : nat) (base : Group) (marker : TerminalMarker) : eng (option WriteOutcome) :=
  match n with
  | O => eret (Some WriteConflict)
  | S n =>
      let^ o := ecall (WriteTerminalMarker base marker) in
      match o : WriteOutcome with
      | WriteConflict =>
          let^ fresh := reload in
          match fresh with
          | None => eret None
          | Some base => marker_attempts n base marker
          end
      | _ => eret (Some o)
      end
  end.

Definition marker_of (pf : Run) (r : Result) : TerminalMarker :=
  {| M_RunID := RunID pf; M_Outcome := Outcome_String (Res_Outcome r); M_Reason := Res_Reason r; M_Warnings := Res_Warnings r |}.

(** The part from the stall's decision on: [fresh] is the group, [cur] its run. *)
Definition stall_finish (fresh : Group) (cur : Run) (e : plannedEnd) : eng (option Z) :=
  let^ final := terminalRecord cur e in
  match RunResult final with
  | None => eret None
  | Some r =>
      let^ o := marker_attempts plannedWriteConflictRetries fresh (marker_of cur r) in
      match o with
      | None => eret (Some plannedRequeueBackoff)
      | Some WriteCommitted =>
          set_memo (RunID cur) (fun m =>
            (if bool_decide (Res_Outcome r = OutcomeManualRecoveryRequired) && negb (nonempty (holdSites m))
             then m <| holdSites := plannedHoldSitesUnknown fresh cur |> else m) <| pendingTerminal := Some final |>) ;;*
          nameForOutcome cur e ;;*
          ecall (Event "PlannedFailoverStatusStalled") ;;*
          afterTerminal final r ReleaseStatusStalled "" ;;*
          eret (Some plannedFailoverMarkerRetryInterval)
      | Some _ =>
          let^ now := ecall Now in
          let^ m := runMemo (RunID cur) in
          (if time_sub now (cannotWriteAt m) >=? 60 * Second then
             set_memo (RunID cur) (fun m => m <| cannotWriteAt := now |>) ;;* ecall (Event "PlannedFailoverStatusStalled")
           else eret tt) ;;*
          eret (Some plannedRequeueBackoff)
      end
  end.

(** [None]: keep retrying the status write. *)
Definition maybeStallFinish (pf : Run) : eng (option Z) :=
  let^ fresh := reload in
  (match fresh with
   | Some fg => match deadline_start fg DeadlineStatusStall (RunID pf) with
                | Some start => set_memo (RunID pf) (fun m => m <| stallSince := start |>)
                | None => eret tt
                end
   | None => eret tt
   end) ;;*
  let^ m := runMemo (RunID pf) in
  let deadline := if released (promote m) then plannedReleasedStallDeadline else plannedFailoverStatusStallDeadline in
  if isZeroTime (stallSince m) then eret None
  else
    let^ now := ecall Now in
    match fresh with
    | None => eret None
    | Some fresh =>
        if time_sub now (stallSince m) <? deadline then eret None
        else if Z.of_nat (String.length (plannedFenceSet pf)) >? plannedFailoverWatermarkAnnotationLimit then eret None
        else
          match sameRun fresh pf [] with
          | None => eret None
          | Some cur =>
              if plannedFailoverTerminal cur then eret None
              else
                let^ e := stallOutcome cur in
                let e := pending_end m cur e in
                if bool_decide (end_outcome e = OutcomeSucceeded) && negb (bool_decide (Phase cur = PlannedFailoverPhasePublishing)) then
                  let^ check := reload in
                  match check with
                  | None => eret None
                  | Some check =>
                      let^ now := ecall Now in
                      if negb (runRecordDurable check cur (end_confirmedAt e) now) then eret None else stall_finish check cur e
                  end
                else stall_finish fresh cur e
          end
    end.

(** ** Ending a run *)

Definition finish (fg : Group) (pf : Run) (e : plannedEnd) : eng Z :=
  let^ held := claim_held pf in
  let^ r := commit fg held (fun base =>
    match sameRun base pf [Phase pf] with
    | None => eret None
    | Some cur =>
        let^ written := terminalRecord cur e in
        let^ mutate := terminalMutate written (end_holdSites e) in
        eret (Some (written, mutate))
    end) in
  (match wrote r with
   | Some next => set_memo (RunID pf) (fun m => m <| pendingTerminal := Some next |> <| holdSites := end_holdSites e |>)
   | None => eret tt
   end) ;;*
  match out r, wrote r with
  | WriteCommitted, Some written =>
      set_memo (RunID pf) (fun m => m <| pendingTerminal := None |>) ;;*
      (if noNaming e then eret tt else nameForOutcome pf e) ;;*
      (match RunResult written with
       | Some res => afterTerminal written res (default ReleaseTerminal (why e)) (eventReason e)
       | None => eret tt
       end) ;;*
      eret 0
  | o, _ =>
      let^ d := (if held && plannedWriteStalled r then maybeStallFinish pf else eret None) in
      eret (default (requeueFor o) d)
  end.

Definition afterAdvance (pf : Run) (r : commit_result) : eng Z :=
  let^ d := (if plannedWriteStalled r then maybeStallFinish pf else eret None) in
  eret (default (requeueFor (out r)) d).

Definition endManualRecovery (fg : Group) (pf : Run) (reason : string) (observed : list string) : eng Z :=
  finish fg pf (ending OutcomeManualRecoveryRequired reason <| why := Some ReleaseToHold |> <| end_holdSites := plannedHoldSites pf observed |>).

Definition endWithoutMySQL (fg : Group) (pf : Run) (reason : string) (w : ClaimReleaseReason) : eng Z :=
  let o := if bool_decide (Phase pf = PlannedFailoverPhasePromoting) then OutcomePromotedUnconfirmed else OutcomeSourceLeftFenced in
  finish fg pf (ending o reason <| why := Some w |> <| noNaming := true |>).

Definition endSiteRemoved (fg : Group) (pf : Run) : eng Z := endWithoutMySQL fg pf "UnknownSite" ReleaseTerminal.

Definition event_if (b : bool) (reason : string) : eng unit := if b then ecall (Event reason) ;;* eret tt else eret tt.

Definition committed (r : commit_result) : bool := bool_decide (out r = WriteCommitted).

Definition toRollingBack (fg : Group) (pf : Run) (reason : string) : eng Z :=
  let^ now := ecall Now in
  let^ r := advance fg pf (fun next =>
    eret (next <| Phase := PlannedFailoverPhaseRollingBack |>
               <| RunRollback := Some {| Rollback_Reason := reason; Rollback_IntentTime := now |} |>)) in
  event_if (committed r) "PlannedFailoverRollbackStarted" ;;*
  afterAdvance pf r.

(** ** Manager absence and facade errors *)

Definition managerAbsent (fg : Group) (pf : Run) : eng Z :=
  let^ start := (match deadline_start fg DeadlineManagerAbsent (RunID pf) with
                 | Some start => eret (Some start)
                 | None =>
                     let^ now := ecall Now in
                     let^ r := ecall (MarkDeadlineStart fg DeadlineManagerAbsent (RunID pf) now) in
                     let '(start, out) := r : Z * WriteOutcome in
                     eret match out with WriteCommitted => Some start | _ => None end
                 end) in
  match start with
  | None => eret plannedRequeueBackoff
  | Some start =>
      let^ now := ecall Now in
      let elapsed := time_sub now start in
      let^ m := runMemo (RunID pf) in
      (if (elapsed >=? plannedFailoverManagerAbsentWarnAfter) && negb (absentWarned m) then
         set_memo (RunID pf) (fun m => m <| absentWarned := true |>) ;;* event_if true "PlannedFailoverStalledManagerAbsent"
       else eret tt) ;;*
      if elapsed <? plannedFailoverManagerAbsentDeadline then eret plannedRequeueBackoff
      else if bool_decide (Phase pf = PlannedFailoverPhasePromoting) && confirmed (promote m) then
        let^ now := ecall Now in
        if negb (plannedRecordUnchanged fg pf now) then endManualRecovery fg pf "AuthorityChanged" []
        else finish fg pf (ending OutcomeSucceeded "" <| end_confirmedAt := confirmedAt (promote m) |> <| why := Some ReleaseManagerAbsent |>
                             <| noNaming := true |> <| eventReason := "PlannedFailoverSucceeded" |>)
      else
        let reason := match RunRollback pf with
                      | Some rb => if bool_decide (Phase pf = PlannedFailoverPhaseRollingBack) then Rollback_Reason rb else "ManagerUnavailable"
                      | None => "ManagerUnavailable"
                      end in
        endWithoutMySQL fg pf reason ReleaseManagerAbsent
  end.

Definition clearAbsence (fg : Group) (pf : Run) : eng unit :=
  set_memo (RunID pf) (fun m => m <| absentWarned := false |>) ;;*
  match deadline_start fg DeadlineManagerAbsent (RunID pf) with
  | None => eret tt
  | Some _ => ecall (ClearDeadlineStart fg DeadlineManagerAbsent (RunID pf)) ;;* eret tt
  end.

(** The new start of the window, and whether the site is lost. *)
Definition lossWindow (since : Z) (reachable : bool) : eng (Z * bool) :=
  let^ now := ecall Now in
  if reachable then eret (0, false)
  else
    let since := if isZeroTime since then now else since in
    eret (since, time_sub now since >=? plannedFailoverLossWindow).

Definition source_lost (runID : string) (reachable : bool) : eng bool :=
  let^ m := runMemo runID in
  let^ r := lossWindow (sourceLossSince m) reachable in
  set_memo runID (fun m => m <| sourceLossSince := r.1 |>) ;;* eret r.2.

Definition target_lost (runID : string) (reachable : bool) : eng bool :=
  let^ m := runMemo runID in
  let^ r := lossWindow (targetLossSince m) reachable in
  set_memo runID (fun m => m <| targetLossSince := r.1 |>) ;;* eret r.2.

Definition warn (runID : string) (ws : list string) : eng unit :=
  set_memo runID (fun m => m <| warnings := addPlannedWarnings (warnings m) ws |>).

(** ** Promotion outcomes *)

Definition or_reason (reason fallback : string) : string := if bool_decide (reason = "") then fallback else reason.

Definition applyPromoteOutcome (fg : Group) (pf : Run) (o : PromoteOutcome) : eng Z :=
  set_memo (RunID pf) (fun m => m <| promote := promote m <| mayHaveWritten := mayHaveWritten (promote m) || MayHaveWritten o |> |>) ;;*
  warn (RunID pf) (PO_Warnings o) ;;*
  match PO_Kind o with
  | PromoteConfirmed =>
      let^ now := ecall Now in
      set_memo (RunID pf) (fun m => m <| promote := promote m <| confirmed := true |> <| mayHaveWritten := true |> <| confirmedAt := now |> |>
                                      <| targetLossSince := 0 |>) ;;*
      eret plannedRequeueNext
  | PromoteAborted =>
      let reason := or_reason (PO_Reason o) "PromotionAborted" in
      match PO_Terminal o with
      | Some OutcomeManualRecoveryRequired => endManualRecovery fg pf reason (PO_Sites o)
      | Some t => finish fg pf (ending t reason)
      | None => toRollingBack fg pf reason
      end
  | PromoteInconsistent =>
      let^ rollback := (if RollbackIfUnrecorded o
                        then let^ now := ecall Now in eret (negb (plannedOwnRecordDurable fg pf now)) else eret false) in
      if rollback : bool then toRollingBack fg pf "TargetChanged"
      else endManualRecovery fg pf (or_reason (PO_Reason o) "ExecuteFailed") (PO_Sites o)
  | PromoteUnconfirmed =>
      let^ now := ecall Now in
      let intended := match Promotion pf with Some p => Promotion_IntentTime p | None => now end in
      let^ targetLost := target_lost (RunID pf) (PO_TargetReachable o) in
      let^ now := ecall Now in
      let pastDeadline := negb (now <? intended + plannedFailoverPromotionDeadline) in
      if negb targetLost && negb pastDeadline then eret plannedRequeueBackoff
      else
        let^ m := runMemo (RunID pf) in
        if mayHaveWritten (promote m) || MayHaveWritten o
        then finish fg pf (ending OutcomePromotedUnconfirmed (if targetLost then "TargetLost" else "PromotionUnconfirmed"))
        else toRollingBack fg pf (if targetLost then "TargetLost" else "PromotionAborted")
  end.

Definition reprove (fg : Group) (pf : Run) : eng Z :=
  let^ r := ecall (Reprove (plannedRunRef pf) fg) in
  match r : res facade_error ReproveResult with
  | Err errManagerAbsent => managerAbsent fg pf
  | Err errSiteNotFound => endSiteRemoved fg pf
  | Err _ => eret plannedRequeueBackoff
  | Ok r =>
      if SourceUnreachable r then
        let^ lost := source_lost (RunID pf) false in
        if lost : bool then toRollingBack fg pf "SourceLost" else eret plannedRequeuePoll
      else
        set_memo (RunID pf) (fun m => m <| sourceLossSince := 0 |>) ;;*
        if RR_OK r then eret plannedRequeueNext
        else match RR_Hold r, RR_RollBack r, RR_HandOff r with
             | Some reason, _, _ => endManualRecovery fg pf reason []
             | _, Some reason, _ => toRollingBack fg pf reason
             | _, _, Some o => applyPromoteOutcome fg pf o
             | _, _, _ => eret plannedRequeueBackoff
             end
  end.

(** [None]: the caller handles the error. *)
Definition facadeErr (fg : Group) (pf : Run) (err : option facade_error) : eng (option Z) :=
  match err with
  | None | Some OtherError => eret None
  | Some errManagerAbsent => let^ d := managerAbsent fg pf in eret (Some d)
  | Some errReproveRequired => let^ d := reprove fg pf in eret (Some d)
  | Some errLeaderLost | Some errClaimLost => eret (Some plannedRequeueBackoff)
  | Some errSiteNotFound => let^ d := endSiteRemoved fg pf in eret (Some d)
  end.

(** The error of a facade answer. *)
Definition err_of {A} (r : res facade_error A) : option facade_error := match r with Ok _ => None | Err e => Some e end.

(** [if d, ferr, handled := e.facadeErr(...); handled { return d, ferr }]. *)
Definition unless_handled {A} (fg : Group) (pf : Run) (r : res facade_error A) (k : option A -> eng Z) : eng Z :=
  let^ handled := facadeErr fg pf (err_of r) in
  match handled with
  | Some d => eret d
  | None => k match r with Ok a => Some a | Err _ => None end
  end.

(** ** Fencing, draining, catching up *)

Definition fencingStep (fg : Group) (pf : Run) : eng Z :=
  match Fence pf with
  | None => endWithoutMySQL fg pf "InternalError" ReleaseTerminal
  | Some fence =>
      let ref := plannedRunRef pf in
      let^ m := runMemo (RunID pf) in
      let^ r := (if sent (Engine.fence m) then ecall (ProveFence ref fence) else ecall (FenceSource ref (SourceServerUUID fence))) in
      unless_handled fg pf r (fun proof =>
        let proof := default {| FP_Kind := FenceRetry; FP_Reason := ""; SourceWritable := false; FP_GtidSet := ""; UnreadablePeers := [];
                                Sent := false |} proof in
        (if Sent proof then set_memo (RunID pf) (fun m => m <| Engine.fence := Engine.fence m <| setSent := true |> |>) else eret tt) ;;*
        (match FP_Kind proof with
         | FenceRetry => if SourceWritable proof then set_memo (RunID pf) (fun m => m <| Engine.fence := Engine.fence m <| sent := false |> |>)
                         else eret tt
         | _ => eret tt
         end) ;;*
        let^ now := ecall Now in
        let pastDeadline := negb (now <? Fence_IntentTime fence + plannedFailoverFenceDeadline) in
        (match FP_Kind proof with
         | FenceSourceUnreachable => eret tt
         | _ => set_memo (RunID pf) (fun m => m <| sourceLossSince := 0 |>)
         end) ;;*
        (if nonempty (UnreadablePeers proof) then warn (RunID pf) ["UnreachablePeers"] else eret tt) ;;*
        match FP_Kind proof with
        | FenceApplied =>
            set_memo (RunID pf) (fun m => m <| Engine.fence := Engine.fence m <| sent := true |> |>) ;;*
            let^ now := ecall Now in
            let^ r := advance fg pf (fun next =>
              eret (next <| Phase := PlannedFailoverPhaseDraining |>
                         <| Fence := match Fence next with
                                     | Some f => Some (f <| Fence_State := FenceStateApplied |> <| ApplyTime := Some now |>
                                                         <| Fence_GtidSet := Some (FP_GtidSet proof) |>)
                                     | None => None
                                     end |>
                         <| Drain := Some {| Drain_StartTime := now; Drain_CompletionTime := None; RemainingConnections := None |} |>)) in
            event_if (committed r) "PlannedFailoverDrainStarted" ;;*
            afterAdvance pf r
        | FenceNotSent =>
            let reason := or_reason (FP_Reason proof) "AuthorityChanged" in
            if SourceWritable proof then finish fg pf (ending OutcomeRolledBack reason)
            else finish fg pf (ending OutcomeSourceLeftFenced reason <| end_warnings := ["FenceNotAttributable"] |>)
        | FenceForeignWritable => toRollingBack fg pf "ForeignWritable"
        | FenceNotAttributable =>
            finish fg pf (ending OutcomeSourceLeftFenced (or_reason (FP_Reason proof) "AuthorityChanged") <| end_warnings := ["FenceNotAttributable"] |>)
        | FenceSourceUnreachable =>
            let^ lost := source_lost (RunID pf) false in
            if lost : bool then toRollingBack fg pf "SourceLost" else eret plannedRequeuePoll
        | FenceRetry => if pastDeadline then toRollingBack fg pf "FenceFailed" else eret plannedRequeuePoll
        end)
  end.

Definition drain_done (fg : Group) (pf : Run) (remaining : option Z) (reachable : bool) : eng Z :=
  let^ lost := source_lost (RunID pf) reachable in
  if lost : bool then toRollingBack fg pf "SourceLost"
  else
    let^ start := ecall Now in
    let start := match Drain pf with Some d => Drain_StartTime d | None => start end in
    let^ now := ecall Now in
    let elapsed := time_sub now start in
    let budget := elapsed >=? DrainTimeout (plannedSettings pf) in
    if negb (bool_decide (remaining = Some 0)) && negb budget then eret plannedRequeuePoll
    else
      let^ now := ecall Now in
      let^ r := advance fg pf (fun next =>
        eret (next <| Phase := PlannedFailoverPhaseWaitingForLag |>
                   <| Drain := Some (default {| Drain_StartTime := now; Drain_CompletionTime := None; RemainingConnections := None |} (Drain next)
                                       <| Drain_CompletionTime := Some now |> <| RemainingConnections := remaining |>) |>
                   <| LagWait := Some {| Lag_StartTime := now; CatchUpTime := None |} |>)) in
      afterAdvance pf r.

Definition drainingStep (fg : Group) (pf : Run) : eng Z :=
  let ref := plannedRunRef pf in
  let^ r := ecall (KillAppConnections ref) in
  unless_handled fg pf r (fun remaining =>
    match remaining with
    | Some _ => drain_done fg pf remaining true
    | None =>
        let^ p := ecall (ProbeLag ref (plannedFenceSet pf)) in
        unless_handled fg pf p (fun probe => drain_done fg pf None match probe with Some probe => SourceReachable probe | None => false end)
    end).

Definition enterPromoting (fg : Group) (pf : Run) (edit : Run -> Run) : eng Z :=
  let^ r := ecall (ReadTargetServerUUID (plannedRunRef pf)) in
  unless_handled fg pf r (fun targetUUID =>
    let targetUUID := default "" targetUUID in
    if bool_decide (targetUUID = "") then
      let^ m := runMemo (RunID pf) in
      let^ r := lossWindow (targetIdentityLossSince m) false in
      set_memo (RunID pf) (fun m => m <| targetIdentityLossSince := r.1 |>) ;;*
      if r.2 : bool then toRollingBack fg pf "TargetLost" else eret plannedRequeuePoll
    else
      set_memo (RunID pf) (fun m => m <| targetLossSince := 0 |> <| targetIdentityLossSince := 0 |>) ;;*
      let^ now := ecall Now in
      set_memo (RunID pf) (fun m => m <| promote := noPromotion |>) ;;*
      let^ r := advance fg pf (fun next =>
        eret (edit next <| Phase := PlannedFailoverPhasePromoting |>
                        <| Promotion := Some {| PromotionConfirmed := false; Promotion_IntentTime := now; TargetServerUUID := targetUUID;
                                                ConfirmationTime := None; Promotion_Warnings := [] |} |>)) in
      afterAdvance pf r).

Definition plannedLagCaughtUp (lw : option LagWaitRecord) (now : Z) : LagWaitRecord :=
  default {| Lag_StartTime := now; CatchUpTime := None |} lw <| CatchUpTime := Some now |>.

(** [observe]: the lag-wait sample, once per run. *)
Definition observe (pf : Run) (elapsed : Z) (committed : bool) : eng unit :=
  let^ m := runMemo (RunID pf) in
  if committed && negb (lagObserved m) then
    set_memo (RunID pf) (fun m => m <| lagObserved := true |>) ;;* ecall (LagWaitObserved (TargetSite pf) elapsed) ;;* eret tt
  else eret tt.

Definition lag_done (fg : Group) (pf : Run) (probe : LagProbe) : eng Z :=
  let^ lost := source_lost (RunID pf) (SourceReachable probe) in
  if lost : bool then toRollingBack fg pf "SourceLost"
  else
    let^ lost := target_lost (RunID pf) (TargetReachable probe) in
    if lost : bool then toRollingBack fg pf "TargetLost"
    else if Divergent probe then toRollingBack fg pf "DivergentTarget"
    else
      let^ start := ecall Now in
      let start := match LagWait pf with Some l => Lag_StartTime l | None => start end in
      let^ now := ecall Now in
      let elapsed := time_sub now start in
      let settings := plannedSettings pf in
      if CaughtUp probe then
        let^ now := ecall Now in
        match Settings_Dragonfly settings with
        | Some _ =>
            let^ r := advance fg pf (fun next =>
              eret (next <| Phase := PlannedFailoverPhaseWaitingForDragonflySync |>
                         <| LagWait := Some (plannedLagCaughtUp (LagWait next) now) |>
                         <| RunDragonfly := Some {| SyncWaitStartTime := Some now; SourceOffsetState := OffsetUnknown; SourceOffset := None;
                              SyncWaitSeconds := None; Takeover := None; D_Sessions := SessionsUnknown; D_Reason := ""; GateWaiting := false |} |>)) in
            observe pf elapsed (committed r) ;;*
            event_if (committed r) "PlannedFailoverTargetCaughtUp" ;;*
            afterAdvance pf r
        | None =>
            let^ d := enterPromoting fg pf (fun next => next <| LagWait := Some (plannedLagCaughtUp (LagWait next) now) |>) in
            observe pf elapsed (d =? plannedRequeueNext) ;;*
            event_if (d =? plannedRequeueNext) "PlannedFailoverTargetCaughtUp" ;;*
            eret d
        end
      else if elapsed >=? MaxLagWait settings then
        let^ d := toRollingBack fg pf "LagTimeout" in
        observe pf elapsed (d =? plannedRequeueNext) ;;* eret d
      else eret plannedRequeuePoll.

Definition lagStep (fg : Group) (pf : Run) : eng Z :=
  match GTID.ParseGTIDSet (plannedFenceSet pf) with
  | Err _ => toRollingBack fg pf "InvalidGTID"
  | Ok _ =>
      let^ r := ecall (ProbeLag (plannedRunRef pf) (plannedFenceSet pf)) in
      unless_handled fg pf r (fun probe =>
        lag_done fg pf (default {| SourceReachable := true; TargetReachable := false; CaughtUp := false; Divergent := false |} probe))
  end.

(** ** Dragonfly *)

(** [dragonflyLossCheck], then [k] unless the run moved on. *)
Definition dragonflyLossCheck (fg : Group) (pf : Run) (k : eng Z) : eng Z :=
  let^ r := ecall (ProbeLag (plannedRunRef pf) (plannedFenceSet pf)) in
  unless_handled fg pf r (fun probe =>
    let probe := default {| SourceReachable := true; TargetReachable := false; CaughtUp := false; Divergent := false |} probe in
    let^ lost := source_lost (RunID pf) (SourceReachable probe) in
    if lost : bool then toRollingBack fg pf "SourceLost"
    else
      let^ lost := target_lost (RunID pf) (TargetReachable probe) in
      if lost : bool then toRollingBack fg pf "TargetLost"
      else if Divergent probe then toRollingBack fg pf "DivergentTarget"
      else k).

Definition skipDragonfly (fg : Group) (pf : Run) : eng Z :=
  enterPromoting fg pf (fun next => next <| RunDragonfly := Some (plannedDragonflyBlock next <| GateWaiting := false |>) |>).

Definition newTakeoverIntent (runID : string) : eng TakeoverRecord :=
  let^ now := ecall Now in
  set_memo runID (fun m => m <| dragonfly := dragonfly m <| intent := now |> |>) ;;*
  eret {| Takeover_State := TakeoverIntended; Takeover_IntentTime := now; Takeover_CompletionTime := None; ReplTakeover := false; TargetOffset := None |}.

Definition wroteIntent (m : pfDragonflyMemo) (tk : TakeoverRecord) : bool :=
  negb (isZeroTime (intent m)) && (TruncateSecond (intent m) =? TruncateSecond (Takeover_IntentTime tk)).

(** [int64(elapsed.Seconds())]. *)
Definition seconds (d : Z) : Z := Z.quot d Second.

Definition dragonflySyncTimeout (fg : Group) (pf : Run) (elapsed : Z) : eng Z :=
  event_if true "DragonflySyncTimeout" ;;*
  match Settings_Dragonfly (plannedSettings pf) with
  | Some {| OnSyncTimeoutFail := true |} => toRollingBack fg pf "DragonflySyncTimeout"
  | _ =>
      let^ tk := newTakeoverIntent (RunID pf) in
      let^ r := advance fg pf (fun next =>
        eret (next <| Phase := PlannedFailoverPhasePromotingDragonfly |>
                   <| RunDragonfly := Some (plannedDragonflyBlock next <| SyncWaitSeconds := Some (seconds elapsed) |> <| D_Sessions := SessionsLost |>
                        <| D_Reason := "DragonflySyncTimeout" |> <| Takeover := Some tk |> <| GateWaiting := false |>) |>)) in
      afterAdvance pf r
  end.

(** The offset recorded for the source, read or not. *)
Definition capture_offset (fg : Group) (pf : Run) : eng Z :=
  let^ offset := ecall (CaptureSourceOffset fg (SourceSite pf)) in
  let^ r := advance fg pf (fun next =>
    let d := plannedDragonflyBlock next in
    let^ d := (match SyncWaitStartTime d with
               | Some _ => eret d
               | None => let^ now := ecall Now in eret (d <| SyncWaitStartTime := Some now |>)
               end) in
    eret (next <| RunDragonfly := Some
      (match offset : option Z with
       | None => d <| SourceOffsetState := OffsetUnavailable |> <| GateWaiting := false |>
       | Some o => d <| SourceOffsetState := OffsetCaptured |> <| SourceOffset := Some o |> <| GateWaiting := false |>
       end) |>)) in
  afterAdvance pf r.

Definition dragonflySyncStep (fg : Group) (pf : Run) : eng Z :=
  dragonflyLossCheck fg pf (
    let settings := plannedSettings pf in
    let^ has := config has_dragonfly in
    match Settings_Dragonfly settings with
    | Some df =>
        if negb has || negb (DragonflyEnabled fg) then skipDragonfly fg pf
        else
          match RunDragonfly pf with
          | None | Some {| SourceOffsetState := OffsetUnknown |} => capture_offset fg pf
          | Some d =>
              let^ start := ecall Now in
              let start := default start (SyncWaitStartTime d) in
              let^ now := ecall Now in
              let elapsed := time_sub now start in
              match SourceOffsetState d with
              | OffsetUnavailable => dragonflySyncTimeout fg pf elapsed
              | _ =>
                  let^ ready := ecall (TargetSyncReady fg (TargetSite pf) (default 0 (SourceOffset d))) in
                  match ready : option bool with
                  | Some true =>
                      let^ tk := newTakeoverIntent (RunID pf) in
                      let^ r := advance fg pf (fun next =>
                        eret (next <| Phase := PlannedFailoverPhasePromotingDragonfly |>
                                   <| RunDragonfly := Some (plannedDragonflyBlock next <| SyncWaitSeconds := Some (seconds elapsed) |>
                                        <| Takeover := Some tk |> <| GateWaiting := false |>) |>)) in
                      afterAdvance pf r
                  | _ => if elapsed >=? MaxSyncWait df then dragonflySyncTimeout fg pf elapsed else eret dragonflySyncPollInterval
                  end
              end
          end
    | None => skipDragonfly fg pf
    end).

Definition recordTakeoverOutcome (fg : Group) (pf : Run) (o : pfTakeoverOutcome) : eng Z :=
  let rollBack := negb (TO_succeeded o)
                  && match Settings_Dragonfly (plannedSettings pf) with Some df => OnSyncTimeoutFail df | None => false end in
  let^ r := advance fg pf (fun next =>
    let next := applyTo o next in
    eret (if rollBack then next <| Phase := PlannedFailoverPhaseRollingBack |>
                                <| RunRollback := Some {| Rollback_Reason := "DragonflyPromotionFailed"; Rollback_IntentTime := TO_at o |} |>
          else next)) in
  (if committed r then
     set_memo (RunID pf) (fun m => m <| dragonfly := dragonfly m <| outcome := None |> |>) ;;*
     event_if rollBack "PlannedFailoverRollbackStarted"
   else eret tt) ;;*
  afterAdvance pf r.

Definition noteDragonflyGateWait (fg : Group) (pf : Run) : eng Z :=
  match RunDragonfly pf with
  | Some {| GateWaiting := true |} => eret dragonflyGateRetry
  | _ =>
      let^ r := advance fg pf (fun next => eret (next <| RunDragonfly := Some (plannedDragonflyBlock next <| GateWaiting := true |>) |>)) in
      event_if (committed r) "DragonflyPromotionWaiting" ;;*
      eret dragonflyGateRetry
  end.

Definition plannedDragonflyMaxSyncWait (pf : Run) : Z :=
  match Settings_Dragonfly (plannedSettings pf) with
  | Some d => if MaxSyncWait d >? 0 then MaxSyncWait d else defaultDragonflySyncWait
  | None => defaultDragonflySyncWait
  end.

Definition plannedDragonflyTakeoverDeadline (pf : Run) : Z :=
  plannedDragonflyGateAllowance + plannedDragonflyMaxSyncWait pf + plannedDragonflyTakeoverSlack.

(** The attempt's outcome [r], recorded unless the gate was busy or an error is handled. *)
Definition takeover_result (fg : Group) (pf : Run) (pastDeadline : bool) (r : res dragonfly_error plannedTakeoverResult) : eng Z :=
  let record succeeded offset :=
    let^ now := ecall Now in
    let o := {| TO_succeeded := succeeded; TO_targetOffset := offset; TO_at := now |} in
    set_memo (RunID pf) (fun m => m <| dragonfly := dragonfly m <| outcome := Some o |> |>) ;;*
    recordTakeoverOutcome fg pf o in
  match r with
  | Err errDragonflyGateBusy => if pastDeadline then record false None else noteDragonflyGateWait fg pf
  | Err errPlannedBlockMoved => eret plannedRequeuePoll
  | Err (Facade e) => unless_handled fg pf (Err e : res facade_error unit) (fun _ => record false None)
  | Ok res => record (TR_Succeeded res) (TR_TargetOffset res)
  end.

Definition dragonflyTakeoverStep (fg : Group) (pf : Run) : eng Z :=
  let tk := match RunDragonfly pf with Some d => Takeover d | None => None end in
  let intended := bool_decide (takeover_state pf = Some TakeoverIntended) in
  (match tk with
   | Some _ => if intended then eret tt else set_memo (RunID pf) (fun m => m <| dragonfly := dragonfly m <| outcome := None |> |>)
   | None => eret tt
   end) ;;*
  let^ m := runMemo (RunID pf) in
  match intended, outcome (dragonfly m) with
  | true, Some o => recordTakeoverOutcome fg pf o
  | _, _ =>
      dragonflyLossCheck fg pf (
        let^ has := config has_dragonfly in
        if negb has || negb (bool_decide (is_Some (Settings_Dragonfly (plannedSettings pf)))) || negb (DragonflyEnabled fg)
        then skipDragonfly fg pf
        else match tk with
             | None =>
                 let^ tk := newTakeoverIntent (RunID pf) in
                 let^ r := advance fg pf (fun next => eret (next <| RunDragonfly := Some (plannedDragonflyBlock next <| Takeover := Some tk |>) |>)) in
                 afterAdvance pf r
             | Some tk =>
                 if negb intended then enterPromoting fg pf (fun next => next)
                 else
                   let^ guard := ecall (CheckRunClaim (plannedRunRef pf)) in
                   match guard : option facade_error with
                   | Some e => unless_handled fg pf (Err e : res facade_error unit) (fun _ => eret plannedRequeueBackoff)
                   | None =>
                       let^ now := ecall Now in
                       let pastDeadline := negb (now <? Takeover_IntentTime tk + plannedDragonflyTakeoverDeadline pf) in
                       let^ m := runMemo (RunID pf) in
                       let^ r := (if negb (wroteIntent (dragonfly m) tk) || pastDeadline then ecall (DragonflyAbandon fg pf)
                                  else ecall (DragonflyTakeover fg pf)) in
                       takeover_result fg pf pastDeadline r
                   end
             end)
  end.

(** ** Promoting, publishing, rolling back *)

Fixpoint confirm_attempts (n : nat) (base : Group) (runID : string) (at_ : Z) : eng bool :=
  match n with
  | O => eret false
  | S n =>
      let^ r := ecall (MarkDeadlineStart base DeadlinePromotionConfirmed runID at_) in
      let '(_, out) := r : Z * WriteOutcome in
      match out with
      | WriteCommitted => eret true
      | WriteConflict =>
          let^ fresh := reload in
          match fresh with
          | None => eret false
          | Some base => confirm_attempts n base runID at_
          end
      | _ => eret false
      end
  end.

Definition markConfirmed (fg : Group) (pf : Run) (at_ : Z) : eng bool := confirm_attempts plannedWriteConflictRetries fg (RunID pf) at_.

Definition writePublishing (fg : Group) (pf : Run) : eng Z :=
  let^ m := runMemo (RunID pf) in
  let p := promote m in
  let^ r := advance fg pf (fun next =>
    eret (next <| Phase := PlannedFailoverPhasePublishing |>
               <| Promotion := match Promotion next with
                               | Some q => Some (q <| PromotionConfirmed := true |> <| ConfirmationTime := Some (confirmedAt p) |>
                                                   <| Promotion_Warnings := sort_strings (warnings m) |>)
                               | None => None
                               end |>
               <| DNS := dns p |>)) in
  if committed r then eret plannedRequeueNext else afterAdvance pf r.

(** The steps of the confirmed tail; each ends the pass or goes on with [k]. *)
Definition tail_record (fg : Group) (pf : Run) (k : eng Z) : eng Z :=
  let^ m := runMemo (RunID pf) in
  if recorded (promote m) then k
  else
    let^ now := ecall Now in
    if negb (plannedRecordUnchanged fg pf now) then endManualRecovery fg pf "AuthorityChanged" []
    else
      let^ err := ecall (RecordPlannedPromotion (plannedRunRef pf) (confirmedAt (promote m)) (plannedFenceSet pf)) in
      let^ handled := facadeErr fg pf err in
      match handled, err : option facade_error with
      | Some d, _ => eret d
      | None, Some _ => eret plannedRequeueBackoff
      | None, None => set_memo (RunID pf) (fun m => m <| promote := promote m <| recorded := true |> |>) ;;* k
      end.

Definition tail_dns (fg : Group) (pf : Run) (k : eng Z) : eng Z :=
  let^ m := runMemo (RunID pf) in
  match dns (promote m) with
  | Some _ => k
  | None =>
      let^ r := ecall (ApplyDNS (plannedRunRef pf)) in
      unless_handled fg pf r (fun state =>
        let^ now := ecall Now in
        let state := match state with None => DNSFailed | Some DNSNone => DNSSkipped | Some s => s end in
        (match state with
         | DNSFailed => warn (RunID pf) ["DNSUpdateFailed"] ;;* event_if true "PlannedFailoverDNSUpdateFailed"
         | _ => eret tt
         end) ;;*
        set_memo (RunID pf) (fun m => m <| promote := promote m <| dns := Some {| DNS_State := state; AttemptTime := now |} |> |>) ;;* k)
  end.

Definition tail_release (fg : Group) (pf : Run) (k : eng Z) : eng Z :=
  let^ m := runMemo (RunID pf) in
  if released (promote m) then k
  else
    let^ ok := markConfirmed fg pf (confirmedAt (promote m)) in
    if negb ok then eret plannedRequeueBackoff
    else
      release (RunID pf) ReleasePublishing ;;*
      set_memo (RunID pf) (fun m => m <| promote := promote m <| Engine.released := true |> |>) ;;* k.

Definition confirmedTail (fg : Group) (pf : Run) : eng Z := tail_record fg pf (tail_dns fg pf (tail_release fg pf (writePublishing fg pf))).

Definition promotingStep (fg : Group) (pf : Run) : eng Z :=
  let^ m := runMemo (RunID pf) in
  if confirmed (promote m) then confirmedTail fg pf
  else
    let^ r := ecall (Promote (plannedRunRef pf) pf) in
    unless_handled fg pf r (fun o =>
      let^ m := runMemo (RunID pf) in
      applyPromoteOutcome fg pf (default {| PO_Kind := PromoteUnconfirmed; PO_Reason := ""; PO_Terminal := None; PO_Warnings := [];
        PO_TargetReachable := true; MayHaveWritten := mayHaveWritten (promote m); RollbackIfUnrecorded := false; PO_Sites := [] |} o)).

Definition publishRecorded (fg : Group) (pf : Run) : eng Z :=
  let^ m := runMemo (RunID pf) in
  (if Engine.released (promote m) then eret tt
   else
     let^ now := ecall Now in
     set_memo (RunID pf) (fun m => m <| promote := promote m <| confirmed := true |> <| confirmedAt := plannedOwnRecordTime fg pf now |>
                                                            <| recorded := true |> <| Engine.released := true |> |>)) ;;*
  writePublishing fg pf.

Definition publishingPass (fg : Group) (pf : Run) : eng Z :=
  release (RunID pf) ReleasePublishing ;;*
  finish fg pf (ending OutcomeSucceeded "" <| why := Some ReleasePublishing |> <| eventReason := "PlannedFailoverSucceeded" |>).

Definition rollbackStep (fg : Group) (pf : Run) : eng Z :=
  let^ now := ecall Now in
  let reason := match RunRollback pf with Some rb => Rollback_Reason rb | None => "InternalError" end in
  let intended := match RunRollback pf with Some rb => Rollback_IntentTime rb | None => now end in
  let^ r := ecall (Rollback (plannedRunRef pf) pf) in
  let '(res, err) := r : RollbackResult * option facade_error in
  let^ handled := facadeErr fg pf err in
  match handled with
  | Some d => eret d
  | None =>
      match err, RB_Outcome res with
      | None, Some o =>
          let r := or_reason (RB_Reason res) reason in
          warn (RunID pf) (RB_Warnings res) ;;*
          match o with
          | OutcomeManualRecoveryRequired => endManualRecovery fg pf r []
          | _ => finish fg pf (ending o r)
          end
      | _, _ =>
          warn (RunID pf) (RB_Warnings res) ;;*
          let^ now := ecall Now in
          if negb (now <? intended + plannedFailoverRollbackDeadline) then finish fg pf (ending OutcomeSourceLeftFenced reason)
          else eret plannedRequeuePoll
      end
  end.

(** ** A pass *)

Definition retryTerminatedRun (fg : Group) (pf : Run) : eng Z :=
  let^ m := runMemo (RunID pf) in
  let late := terminalRecord pf (ending (if bool_decide (Phase pf = PlannedFailoverPhasePromoting) then OutcomePromotedUnconfirmed
                                         else OutcomeSourceLeftFenced) "StatusStalled" <| end_warnings := ["StatusStalled"] |>) in
  let^ final := (match pendingTerminal m with
                 | Some p => if bool_decide (RunID p = RunID pf) && bool_decide (is_Some (RunResult p)) then eret p else late
                 | None => late
                 end) in
  let isHold := match RunResult final with Some r => bool_decide (Res_Outcome r = OutcomeManualRecoveryRequired) | None => false end in
  (if isHold then ecall (ConvertToHold (RunID pf) []) ;;* eret tt else release (RunID pf) ReleaseTerminal) ;;*
  let sites := if isHold && negb (nonempty (holdSites m)) then plannedHoldSitesUnknown fg pf else holdSites m in
  let^ r := commit fg false (fun base =>
    match sameRun base pf [] with
    | None => eret None
    | Some cur =>
        if plannedFailoverTerminal cur then eret None
        else
          let next := final <| Revision := Revision cur + 1 |> in
          let^ mutate := terminalMutate next sites in
          eret (Some (next, mutate))
    end) in
  if committed r then set_memo (RunID pf) (fun m => m <| pendingTerminal := None |>) ;;* eret plannedRequeueNext
  else eret plannedFailoverMarkerRetryInterval.

Definition step_of (fg : Group) (pf : Run) : eng Z :=
  match Phase pf with
  | PlannedFailoverPhaseFencing => fencingStep fg pf
  | PlannedFailoverPhaseDraining => drainingStep fg pf
  | PlannedFailoverPhaseWaitingForLag => lagStep fg pf
  | PlannedFailoverPhaseWaitingForDragonflySync => dragonflySyncStep fg pf
  | PlannedFailoverPhasePromotingDragonfly => dragonflyTakeoverStep fg pf
  | PlannedFailoverPhasePromoting => promotingStep fg pf
  | PlannedFailoverPhaseRollingBack => rollbackStep fg pf
  | _ => eret 0
  end.

(** From [EnsureClaim] on. *)
Definition claimed (fg : Group) (pf : Run) : eng Z :=
  let^ r := ecall (EnsureClaim (plannedRunRef pf) fg) in
  match r : res facade_error ClaimDecision with
  | Err errManagerAbsent => managerAbsent fg pf
  | Err _ => eret plannedRequeueBackoff
  | Ok (ClaimWait w) => if bool_decide (w = "ManagerAbsent") then managerAbsent fg pf else eret plannedRequeuePoll
  | Ok (ClaimReject reason) => endWithoutMySQL fg pf (or_reason reason "AuthorityChanged") ReleaseTerminal
  | Ok ClaimGranted => clearAbsence fg pf ;;* step_of fg pf
  end.

(** The slot holds the run's claim. *)
Definition holds_claim (runID : string) : eng bool :=
  let^ held := ecall HeldRunClaim in eret (bool_decide ((held : option string) = Some runID)).

(** From the second look at the slot on. *)
Definition claim_or_publish (fg : Group) (pf : Run) : eng Z :=
  if bool_decide (Phase pf = PlannedFailoverPhasePromoting) then
    let^ held := holds_claim (RunID pf) in
    let^ rec := (if held : bool then eret false else let^ now := ecall Now in eret (plannedPromotionRecorded fg pf now)) in
    if rec : bool then publishRecorded fg pf else claimed fg pf
  else claimed fg pf.

Definition claimPass (fg : Group) (pf : Run) : eng Z :=
  let^ over := terminated (RunID pf) in
  if over : bool then retryTerminatedRun fg pf
  else
    let^ m := runMemo (RunID pf) in
    if bool_decide (Phase pf = PlannedFailoverPhasePromoting) && Engine.released (promote m) then
      let^ held := holds_claim (RunID pf) in
      if negb held then writePublishing fg pf
      else
        set_memo (RunID pf) (fun m => m <| promote := promote m <| Engine.released := false |> <| recorded := false |> |>) ;;*
        claim_or_publish fg pf
    else claim_or_publish fg pf.

(** The last two cases of [pass]: a run past its admission, after [consumeStaleRequest]. *)
Definition phase_pass (fg : Group) (pf : Run) : eng Z :=
  match Phase pf with
  | PlannedFailoverPhasePublishing => publishingPass fg pf
  | _ => claimPass fg pf
  end.

End Steps.
