(* ===== verification/Protocol.v ===== *)
(** * Programs that follow a protocol

    A protocol is a state and, for each call with its answer, the next state or none when
    the call is not allowed there. [wp] computes, on a program of [Effects], the
    condition under which every run follows the protocol and ends as required. *)
From S2P Require Import Prelude Effects.

#[local] Arguments prog_bind {Op Ans A B} _ _ : simpl never.

Section protocol.

Context {Op : Type} {Ans : Op -> Type} {S : Type} (allow : S -> forall o, Ans o -> option S).

(** The protocol's state after a trace. *)
Fixpoint follows (s : S) (tr : list (event Ans)) : option S :=
  match tr with
  | [] => Some s
  | e :: tr => match allow s (projT1 e) (projT2 e) with Some s => follows s tr | None => None end
  end.

Lemma follows_app t1 t2 : forall s, follows s (t1 ++ t2) = match follows s t1 with Some s' => follows s' t2 | None => None end.
Proof. induction t1 as [|e t1 IH]; intros s; simpl; [done|]. destruct (allow _ _ _); [apply IH|done]. Qed.

Fixpoint wp {A} (p : prog Ans A) (s : S) (Q : S -> A -> Prop) : Prop :=
  match p with
  | Ret a => Q s a
  | Vis o k => forall x, match allow s o x with Some s' => wp (k x) s' Q | None => False end
  end.

Lemma wp_sound {A} (p : prog Ans A) : forall s Q tr a, wp p s Q -> runs p tr a -> exists s', follows s tr = Some s' /\ Q s' a.
Proof.
  induction p as [a|o k IH]; intros s Q tr b Hw; simpl in Hw.
  - intros [-> ->]%runs_Ret_iff. by exists s.
  - intros (x & tr' & -> & H)%runs_Vis_iff. specialize (Hw x). simpl. destruct (allow s o x) as [s'|]; [|done].
    by apply (IH x s' Q tr' b).
Qed.

Lemma wp_mono {A} (p : prog Ans A) : forall s (Q R : S -> A -> Prop), (forall s a, Q s a -> R s a) -> wp p s Q -> wp p s R.
Proof.
  induction p as [a|o k IH]; intros s Q R HQ; simpl; [apply HQ|]. intros H x. specialize (H x). destruct (allow s o x); [|done]. by eapply IH.
Qed.

Lemma wp_bind {A B} (p : prog Ans A) (f : A -> prog Ans B) : forall s Q, wp p s (fun s a => wp (f a) s Q) -> wp (prog_bind p f) s Q.
Proof.
  induction p as [a|o k IH]; intros s Q H; [exact H|]. unfold prog_bind; fold (prog_bind (Ans := Ans) (A := A) (B := B)). simpl in *.
  intros x. specialize (H x). destruct (allow s o x); [|done]. by apply IH.
Qed.

(** An allowed call is in a state that allows it. *)
Lemma follows_elem tr : forall s s' e, follows s tr = Some s' -> e ∈ tr ->
  exists t1 t2 s1 s2, tr = t1 ++ e :: t2 /\ follows s t1 = Some s1 /\ allow s1 (projT1 e) (projT2 e) = Some s2.
Proof.
  induction tr as [|e0 tr IH]; intros s s' e H Hin; [by apply not_elem_of_nil in Hin|]. simpl in H.
  destruct (allow s (projT1 e0) (projT2 e0)) as [s0|] eqn:E; [|done]. apply elem_of_cons in Hin as [->|Hin].
  - by exists [], tr, s, s0.
  - destruct (IH s0 s' e H Hin) as (t1 & t2 & s1 & s2 & -> & H1 & H2). exists (e0 :: t1), t2, s1, s2. split; [done|]. split; [|done].
    simpl. by rewrite E.
Qed.

Lemma follows_split t1 e t2 s s' : follows s (t1 ++ e :: t2) = Some s' ->
  exists s1 s2, follows s t1 = Some s1 /\ allow s1 (projT1 e) (projT2 e) = Some s2.
Proof.
  rewrite follows_app. destruct (follows s t1) as [s1|]; [|done]. simpl. destruct (allow s1 _ _) as [s2|] eqn:E; [|done]. intros _. by exists s1, s2.
Qed.

(** A property of the state that only some calls establish holds later only after one. *)
Lemma follows_cause (P : S -> Prop) (cause : event Ans -> Prop) :
  (forall s e s', allow s (projT1 e) (projT2 e) = Some s' -> P s' -> P s \/ cause e) ->
  forall tr s s', follows s tr = Some s' -> P s' -> P s \/ exists e, e ∈ tr /\ cause e.
Proof.
  intros Hc. induction tr as [|e tr IH]; intros s s' H HP; simpl in H; [injection H as ->; by left|].
  destruct (allow s (projT1 e) (projT2 e)) as [s1|] eqn:E; [|done].
  destruct (IH s1 s' H HP) as [H1|(e' & Hin & He')]; [|right; exists e'; split; [by right|done]].
  destruct (Hc s e s1 E H1) as [|]; [by left|]. right. exists e. split; [left|done].
Qed.

(** What every call keeps, the trace keeps; what a call establishes then holds. *)
Lemma follows_keeps (P : S -> Prop) : (forall s e s', allow s (projT1 e) (projT2 e) = Some s' -> P s -> P s') ->
  forall tr s s', follows s tr = Some s' -> P s -> P s'.
Proof.
  intros Hk. induction tr as [|e tr IH]; intros s s' H HP; simpl in H; [by injection H as <-|].
  destruct (allow s _ _) as [s1|] eqn:E; [|done]. by eapply IH, Hk.
Qed.

Lemma follows_since (P : S -> Prop) e : (forall s e s', allow s (projT1 e) (projT2 e) = Some s' -> P s -> P s') ->
  (forall s s', allow s (projT1 e) (projT2 e) = Some s' -> P s') ->
  forall tr s s', follows s tr = Some s' -> e ∈ tr -> P s'.
Proof.
  intros Hk He tr s s' H (t1 & t2 & ->)%list_elem_of_split. rewrite follows_app in H. destruct (follows s t1) as [s1|]; [|done]. simpl in H.
  destruct (allow s1 _ _) as [s2|] eqn:E; [|done]. by eapply (follows_keeps P), He.
Qed.

(** The same for programs with a state. *)
Definition swp {St A} (m : st Ans St A) (s : S) (e : St) (Q : S -> A -> St -> Prop) : Prop := wp (m e) s (fun s r => Q s r.1 r.2).

Lemma swp_mono {St A} (m : st Ans St A) s e (Q R : S -> A -> St -> Prop) : swp m s e Q -> (forall s a e, Q s a e -> R s a e) -> swp m s e R.
Proof. intros H HQ. eapply wp_mono; [|exact H]. intros s' [a e']. apply HQ. Qed.

Lemma swp_ret {St A} (a : A) s (e : St) (Q : S -> A -> St -> Prop) : Q s a e -> swp (sret a) s e Q.
Proof. done. Qed.

Lemma swp_bind {St A B} (m : st Ans St A) (k : A -> st Ans St B) s e (Q : S -> B -> St -> Prop) :
  swp m s e (fun s a e => swp (k a) s e Q) -> swp (sbind m k) s e Q.
Proof. intros H. apply wp_bind. eapply wp_mono; [|exact H]. by intros s' [a e']. Qed.

Lemma swp_call {St} o s (e : St) (Q : S -> Ans o -> St -> Prop) :
  (forall x, match allow s o x with Some s' => Q s' x e | None => False end) -> swp (scall o) s e Q.
Proof. intros H. apply wp_bind. exact H. Qed.

Lemma swp_get {St A} (f : St -> A) s e (Q : S -> A -> St -> Prop) : Q s (f e) e -> swp (sget f) s e Q.
Proof. done. Qed.

Lemma swp_modify {St} (f : St -> St) s e (Q : S -> unit -> St -> Prop) : Q s tt (f e) -> swp (smodify f) s e Q.
Proof. done. Qed.

Lemma swp_sound {St A} (m : st Ans St A) s e Q tr r : swp m s e Q -> runs (m e) tr r -> exists s', follows s tr = Some s' /\ Q s' r.1 r.2.
Proof. apply wp_sound. Qed.

End protocol.

(** ** Conditions on the calls so far

    [C h o]: the call [o] may be made after the calls [h]. *)

Section conditions.

Context {Op : Type} {Ans : Op -> Type}.

(** The program makes only calls that satisfy [free], whatever the answers. *)
Fixpoint frees {A} (free : Op -> bool) (p : prog Ans A) : Prop :=
  match p with
  | Ret _ => True
  | Vis o k => free o = true /\ forall x, frees free (k x)
  end.

Lemma frees_bind {A B} free (p : prog Ans A) (f : A -> prog Ans B) : frees free p -> (forall a, frees free (f a)) -> frees free (prog_bind p f).
Proof. intros Hp Hf. induction p as [a|o k IH]; [apply Hf|]. destruct Hp as [Ho Hk]. split; [done|]. intros x. by apply IH. Qed.

Lemma frees_weaken {A} (free free' : Op -> bool) (p : prog Ans A) : (forall o, free o = true -> free' o = true) -> frees free p -> frees free' p.
Proof. intros Hw. induction p as [a|o k IH]; [done|]. intros [Ho Hk]. split; [by apply Hw|]. intros x. by apply IH. Qed.

Lemma frees_runs {A} free (p : prog Ans A) tr a : frees free p -> runs p tr a -> Forall (fun e => free (projT1 e) = true) tr.
Proof.
  revert tr. induction p as [b|o k IH]; intros tr Hp; [by intros [-> _]%runs_Ret_iff|]. intros (x & tr' & -> & H)%runs_Vis_iff.
  destruct Hp as [Ho Hk]. constructor; [done|]. by eapply IH.
Qed.

Context (C : list (event Ans) -> Op -> Prop).

Fixpoint cwp {A} (p : prog Ans A) (h : list (event Ans)) (Q : list (event Ans) -> A -> Prop) : Prop :=
  match p with
  | Ret a => Q h a
  | Vis o k => C h o /\ forall x, cwp (k x) (h ++ [ev o x]) Q
  end.

(** Every call of the trace was made under its condition. *)
Definition meets (h tr : list (event Ans)) : Prop := forall t1 e t2, tr = t1 ++ e :: t2 -> C (h ++ t1) (projT1 e).

Lemma meets_nil h : meets h [].
Proof. intros t1 e t2 E. by destruct t1. Qed.

Lemma meets_cons h e tr : C h (projT1 e) -> meets (h ++ [e]) tr -> meets h (e :: tr).
Proof.
  intros He H [|e' t1] e2 t2 E; simplify_eq/=; [by rewrite app_nil_r|]. specialize (H t1 e2 t2 eq_refl). by rewrite <- (assoc_L (++)) in H.
Qed.

Lemma cwp_sound {A} (p : prog Ans A) : forall h Q tr a, cwp p h Q -> runs p tr a -> meets h tr /\ Q (h ++ tr) a.
Proof.
  induction p as [a|o k IH]; intros h Q tr b Hw; simpl in Hw.
  - intros [-> ->]%runs_Ret_iff. rewrite app_nil_r. split; [apply meets_nil|done].
  - intros (x & tr' & -> & H)%runs_Vis_iff. destruct Hw as [Ho Hw]. destruct (IH x _ Q tr' b (Hw x) H) as [Hm Hq].
    rewrite <- (assoc_L (++)) in Hq. split; [|done]. by apply meets_cons.
Qed.

Lemma cwp_mono {A} (p : prog Ans A) : forall h (Q R : list (event Ans) -> A -> Prop), cwp p h Q -> (forall h a, Q h a -> R h a) -> cwp p h R.
Proof. induction p as [a|o k IH]; intros h Q R H HQ; simpl; [by apply HQ|]. destruct H as [Ho H]. split; [done|]. intros x. by eapply IH. Qed.

Lemma cwp_bind_iff {A B} (p : prog Ans A) (f : A -> prog Ans B) : forall h Q, cwp (prog_bind p f) h Q <-> cwp p h (fun h a => cwp (f a) h Q).
Proof.
  induction p as [a|o k IH]; intros h Q; [done|]. change (prog_bind (Vis o k) f) with (Vis o (fun x => prog_bind (k x) f)). simpl.
  split; (intros [Ho H]; split; [done|]; intros x; by apply IH).
Qed.

Lemma cwp_bind {A B} (p : prog Ans A) (f : A -> prog Ans B) h Q : cwp p h (fun h a => cwp (f a) h Q) -> cwp (prog_bind p f) h Q.
Proof. apply cwp_bind_iff. Qed.

(** The calls so far stay. *)
Lemma cwp_extends {A} (p : prog Ans A) : forall h Q, cwp p h Q -> cwp p h (fun h' a => Q h' a /\ exists t, h' = h ++ t).
Proof.
  induction p as [a|o k IH]; intros h Q H; simpl; [split; [done|]; exists []; by rewrite app_nil_r|]. destruct H as [Ho H]. split; [done|]. intros x.
  eapply cwp_mono; [by apply IH|]. intros h' a [HQ [t ->]]. split; [done|]. rewrite <- (assoc_L (++)). by eexists.
Qed.

(** A program whose calls are unconditional: its runs decide. *)
Lemma cwp_runs {A} free (p : prog Ans A) : (forall h o, free o = true -> C h o) -> frees free p ->
  forall h (Q : list (event Ans) -> A -> Prop), (forall tr a, runs p tr a -> Q (h ++ tr) a) -> cwp p h Q.
Proof.
  intros HC. induction p as [a|o k IH]; intros Hf h Q HQ; simpl.
  - specialize (HQ [] a (runs_Ret a)). by rewrite app_nil_r in HQ.
  - destruct Hf as [Ho Hk]. split; [by apply HC|]. intros x. apply IH; [apply Hk|]. intros tr a H. rewrite <- (assoc_L (++)).
    apply HQ. by constructor.
Qed.

(** Programs with a state. *)
Definition scwp {St A} (m : st Ans St A) (h : list (event Ans)) (s : St) (Q : list (event Ans) -> A -> St -> Prop) : Prop :=
  cwp (m s) h (fun h r => Q h r.1 r.2).

Definition sfrees {St A} (free : Op -> bool) (m : st Ans St A) : Prop := forall s, frees free (m s).

Lemma scwp_mono {St A} (m : st Ans St A) h s (Q R : list (event Ans) -> A -> St -> Prop) : scwp m h s Q -> (forall h a s, Q h a s -> R h a s) -> scwp m h s R.
Proof. intros H HQ. eapply cwp_mono; [exact H|]. intros h' [a s']. apply HQ. Qed.

Lemma scwp_ret {St A} (a : A) h (s : St) (Q : list (event Ans) -> A -> St -> Prop) : Q h a s -> scwp (sret a) h s Q.
Proof. done. Qed.

Lemma scwp_bind {St A B} (m : st Ans St A) (k : A -> st Ans St B) h s (Q : list (event Ans) -> B -> St -> Prop) :
  scwp m h s (fun h a s => scwp (k a) h s Q) -> scwp (sbind m k) h s Q.
Proof. intros H. apply cwp_bind. eapply cwp_mono; [exact H|]. by intros h' [a s']. Qed.

Lemma scwp_bind_inv {St A B} (m : st Ans St A) (k : A -> st Ans St B) h s (Q : list (event Ans) -> B -> St -> Prop) :
  scwp (sbind m k) h s Q -> scwp m h s (fun h a s => scwp (k a) h s Q).
Proof. intros H%cwp_bind_iff. eapply cwp_mono; [exact H|]. by intros h' [a s']. Qed.

Lemma scwp_call {St} o h (s : St) (Q : list (event Ans) -> Ans o -> St -> Prop) :
  C h o -> (forall x, Q (h ++ [ev o x]) x s) -> scwp (scall o) h s Q.
Proof. intros Ho H. apply cwp_bind. split; [done|]. exact H. Qed.

Lemma scwp_get {St A} (f : St -> A) h s (Q : list (event Ans) -> A -> St -> Prop) : Q h (f s) s -> scwp (sget f) h s Q.
Proof. done. Qed.

Lemma scwp_modify {St} (f : St -> St) h s (Q : list (event Ans) -> unit -> St -> Prop) : Q h tt (f s) -> scwp (smodify f) h s Q.
Proof. done. Qed.

Lemma scwp_runs {St A} free (m : st Ans St A) h s (Q : list (event Ans) -> A -> St -> Prop) : (forall h o, free o = true -> C h o) -> sfrees free m ->
  (forall tr a s', runs (m s) tr (a, s') -> Q (h ++ tr) a s') -> scwp m h s Q.
Proof. intros HC Hf HQ. eapply cwp_runs; [exact HC|apply Hf|]. intros tr [a s'] H. by apply HQ. Qed.

Lemma scwp_sound {St A} (m : st Ans St A) h s Q tr r : scwp m h s Q -> runs (m s) tr r -> meets h tr /\ Q (h ++ tr) r.1 r.2.
Proof. apply cwp_sound. Qed.

End conditions.

Lemma cwp_weaken {Op} {Ans : Op -> Type} {A} (C C' : list (event Ans) -> Op -> Prop) (p : prog Ans A) : (forall h o, C h o -> C' h o) ->
  forall h Q, cwp C p h Q -> cwp C' p h Q.
Proof. intros HC. induction p as [a|o k IH]; intros h Q H; [exact H|]. destruct H as [Ho H]. split; [by apply HC|]. intros x. apply IH, H. Qed.

(** Only the calls after [h] matter. *)
Lemma cwp_weaken_from {Op} {Ans : Op -> Type} {A} (C C' : list (event Ans) -> Op -> Prop) (p : prog Ans A) : forall h Q,
  (forall t o, C (h ++ t) o -> C' (h ++ t) o) -> cwp C p h Q -> cwp C' p h Q.
Proof.
  induction p as [a|o k IH]; intros h Q HC H; [exact H|]. destruct H as [Ho H]. split.
  - specialize (HC [] o). rewrite app_nil_r in HC. by apply HC.
  - intros x. apply IH; [|apply H]. intros t o'. rewrite <- (assoc_L (++)). apply HC.
Qed.

Section frees.
Context {Op : Type} {Ans : Op -> Type} {St : Type} (free : Op -> bool).

Lemma sfrees_ret {A} (a : A) : sfrees free (sret (Ans := Ans) (St := St) a).
Proof. by intros s. Qed.

Lemma sfrees_bind {A B} (m : st Ans St A) (k : A -> st Ans St B) : sfrees free m -> (forall a, sfrees free (k a)) -> sfrees free (sbind m k).
Proof. intros Hm Hk s. apply frees_bind; [apply Hm|]. intros [a s']. apply Hk. Qed.

Lemma sfrees_call o : free o = true -> sfrees free (scall (Ans := Ans) (St := St) o).
Proof. intros Ho s. split; [done|]. by intros x. Qed.

Lemma sfrees_get {A} (f : St -> A) : sfrees free (sget (Ans := Ans) f).
Proof. by intros s. Qed.

Lemma sfrees_modify (f : St -> St) : sfrees free (smodify (Ans := Ans) f).
Proof. by intros s. Qed.

Lemma sfrees_runs {A} (m : st Ans St A) s tr r : sfrees free m -> runs (m s) tr r -> Forall (fun e => free (projT1 e) = true) tr.
Proof. intros Hm. by apply frees_runs. Qed.

End frees.

(** Case analysis on the runs of programs with a state. *)
Section sruns.
Context {Op : Type} {Ans : Op -> Type} {St : Type}.

Lemma sret_runs {A} (a b : A) (s s' : St) tr : runs (sret (Ans := Ans) a s) tr (b, s') -> tr = [] /\ b = a /\ s' = s.
Proof. by intros [-> [= -> ->]]%runs_Ret_iff. Qed.

Lemma sbind_runs {A B} (m : st Ans St A) (k : A -> st Ans St B) s tr r :
  runs (sbind m k s) tr r -> exists t1 a s1 t2, tr = t1 ++ t2 /\ runs (m s) t1 (a, s1) /\ runs (k a s1) t2 r.
Proof. intros (t1 & [a s1] & t2 & -> & H1 & H2)%runs_bind_iff. by exists t1, a, s1, t2. Qed.

Lemma scall_runs o (s s' : St) tr (x : Ans o) : runs (scall o s) tr (x, s') -> tr = [ev o x] /\ s' = s.
Proof. intros (t1 & y & t2 & -> & ->%runs_call_iff & [-> [= -> ->]]%runs_Ret_iff)%runs_bind_iff. done. Qed.

Lemma sget_runs {A} (f : St -> A) s s' tr a : runs (sget (Ans := Ans) f s) tr (a, s') -> tr = [] /\ a = f s /\ s' = s.
Proof. by intros [-> [= -> ->]]%runs_Ret_iff. Qed.

Lemma smodify_runs (f : St -> St) s s' tr u : runs (smodify (Ans := Ans) f s) tr (u, s') -> tr = [] /\ s' = f s.
Proof. by intros [-> [= -> ->]]%runs_Ret_iff. Qed.

End sruns.

(** Open a run of a program with a state as far as its head allows. *)
Ltac srun H :=
  lazymatch type of H with
  | runs (sret _ _) _ _ => let E := fresh in apply sret_runs in H as (? & E & ?); try (injection E as ?); subst
  | runs (@scall _ ?F _ ?o ?s) ?tr (?x, ?s') => apply (scall_runs (Ans := F) o s s' tr x) in H as (? & ?); subst
  | runs (sget _ _) _ _ => apply sget_runs in H as (? & ? & ?); subst
  | runs (smodify _ _) _ _ => apply smodify_runs in H as (? & ?); subst
  | runs (sbind _ _ _) _ _ =>
      let t1 := fresh "tr" in let a := fresh "a" in let s1 := fresh "s" in let t2 := fresh "tr" in let H1 := fresh "Hrun" in
      apply sbind_runs in H as (t1 & a & s1 & t2 & ? & H1 & H); subst; srun H1
  | runs (match ?x with _ => _ end _) _ _ => let E := fresh "E" in destruct x eqn:E
  | _ => idtac
  end.

(** Open every run in the context. *)
Ltac srun_all :=
  repeat match goal with
  | H : runs (sret _ _) _ _ |- _ => srun H
  | H : runs (scall _ _) _ _ |- _ => srun H
  | H : runs (sget _ _) _ _ |- _ => srun H
  | H : runs (smodify _ _) _ _ |- _ => srun H
  | H : runs (sbind _ _ _) _ _ |- _ => srun H
  | H : runs (match ?x with _ => _ end _) _ _ |- _ => let E := fresh "E" in destruct x eqn:E
  end.

Create HintDb frees discriminated.

(** [sfrees] by the program's structure. *)
Ltac solve_frees :=
  repeat match goal with
  | |- sfrees _ (sret _) => apply sfrees_ret
  | |- sfrees _ (scall ?o) => exact (sfrees_call _ o eq_refl)
  | |- sfrees _ (sget _) => apply sfrees_get
  | |- sfrees _ (smodify _) => apply sfrees_modify
  | |- sfrees _ (sbind _ _) => apply sfrees_bind; [|intros ?]
  | |- sfrees _ (match ?x with _ => _ end) => destruct x
  | |- sfrees _ _ => progress cbn zeta
  | |- sfrees _ _ => solve [auto with frees]
  end.

(** ** What a program keeps of its state *)

Section preserves.
Context {Op : Type} {Ans : Op -> Type} {St : Type} (R : St -> St -> Prop) `{!PreOrder R}.

(** Every run relates the state before to the state after. *)
Definition preserves {A} (m : st Ans St A) : Prop := forall s tr a s', runs (m s) tr (a, s') -> R s s'.

Lemma preserves_ret {A} (a : A) : preserves (sret a).
Proof. intros s tr b s' H. srun H. reflexivity. Qed.

Lemma preserves_bind {A B} (m : st Ans St A) (k : A -> st Ans St B) : preserves m -> (forall a, preserves (k a)) -> preserves (sbind m k).
Proof. intros Hm Hk s tr b s' (t1 & a & s1 & t2 & -> & H1 & H2)%sbind_runs. etransitivity; [by eapply Hm|by eapply Hk]. Qed.

Lemma preserves_call o : preserves (scall o).
Proof. intros s tr a s' H. srun H. reflexivity. Qed.

Lemma preserves_get {A} (f : St -> A) : preserves (sget f).
Proof. intros s tr a s' H. srun H. reflexivity. Qed.

Lemma preserves_modify (f : St -> St) : (forall s, R s (f s)) -> preserves (smodify f).
Proof. intros Hf s tr a s' H. srun H. apply Hf. Qed.

End preserves.

Create HintDb preserves discriminated.

(** [preserves] by the program's structure. *)
Ltac solve_preserves :=
  repeat match goal with
  | |- preserves _ (sret _) => apply preserves_ret
  | |- preserves _ (scall ?o) => apply preserves_call
  | |- preserves _ (sget _) => apply preserves_get
  | |- preserves _ (smodify _) => apply preserves_modify; intros ?; reflexivity
  | |- preserves _ (sbind _ _) => apply preserves_bind; [|intros ?]
  | |- preserves _ (match ?x with _ => _ end) => destruct x
  | |- preserves _ _ => progress cbn zeta
  | |- preserves _ _ => solve [auto with preserves]
  end.
