(* ===== verification/EngineProtocol.v ===== *)
(** * The planned-failover engine keeps its protocol

    What the engine may send, write and release, and when: a protocol over its calls
    that every pass follows, whatever the store, the topology manager and Dragonfly
    answer. *)
From S2P Require Import Prelude GoStd Effects GoTime GtidSet Failover FailoverRecord PlannedRun ClaimSlot EngineData EngineSteps Protocol.

Local Open Scope Z_scope.

#[local] Arguments prog_bind {Op Ans A B} _ _ : simpl never.

Import PlannedRun FailoverRecords ClaimSlot Engine Steps.

(** ** The protocol *)

#[export] Instance PlannedRunRef_eq_dec : EqDecision PlannedRunRef.
Proof. solve_decision. Defined.

#[export] Instance FenceState_eq_dec : EqDecision FenceState.
Proof. solve_decision. Defined.

#[export] Instance FenceRecord_eq_dec : EqDecision FenceRecord.
Proof. solve_decision. Defined.

#[export] Instance DragonflySettings_eq_dec : EqDecision DragonflySettings.
Proof. solve_decision. Defined.

#[export] Instance Settings_eq_dec : EqDecision Settings.
Proof. solve_decision. Defined.

#[export] Instance FailoverRecordRefAPI_eq_dec : EqDecision FailoverRecordRefAPI.
Proof. solve_decision. Defined.

(** The phases a run goes to from each phase it owns its sites in, and from [Publishing];
    every phase can end the run, and only [Promoting] is published. *)
Definition phase_step (from to : PlannedFailoverPhase) : bool :=
  match from, to with
  | _, PlannedFailoverPhaseSucceeded | _, PlannedFailoverPhaseFailed => true
  | PlannedFailoverPhaseFencing, (PlannedFailoverPhaseDraining | PlannedFailoverPhaseRollingBack)
  | PlannedFailoverPhaseDraining, (PlannedFailoverPhaseWaitingForLag | PlannedFailoverPhaseRollingBack)
  | PlannedFailoverPhaseWaitingForLag,
      (PlannedFailoverPhaseWaitingForDragonflySync | PlannedFailoverPhasePromoting | PlannedFailoverPhaseRollingBack)
  | PlannedFailoverPhaseWaitingForDragonflySync,
      (PlannedFailoverPhaseWaitingForDragonflySync | PlannedFailoverPhasePromotingDragonfly | PlannedFailoverPhasePromoting
      | PlannedFailoverPhaseRollingBack)
  | PlannedFailoverPhasePromotingDragonfly,
      (PlannedFailoverPhasePromotingDragonfly | PlannedFailoverPhasePromoting | PlannedFailoverPhaseRollingBack)
  | PlannedFailoverPhasePromoting, (PlannedFailoverPhasePublishing | PlannedFailoverPhaseRollingBack)
  | PlannedFailoverPhaseRollingBack, PlannedFailoverPhaseRollingBack => true
  | _, _ => false
  end.

(** What a pass and the passes before it established. [ended]: a terminal record of the
    run, or its terminal marker, is durable; [confirmation]: so is its confirmation
    annotation. In this pass: [claimed], the manager granted the claim; [guarded], it
    last found it in force; [written], a status write committed; [last], the last
    promotion outcome; [reproved], the re-proof asked for a rollback or lost the source;
    [unrecorded], the group's own failover record was not the run's. [attempted]: since
    the target's identity was read, an outcome reported that a write may have been sent;
    [proven]: one confirmed the promotion, or the run's own record is durable. *)
Record ghost : Type := {
  ended : bool;
  confirmation : bool;
  claimed : bool;
  guarded : bool;
  written : bool;
  attempted : bool;
  last : option PromoteOutcome;
  reproved : bool;
  proven : bool;
  unrecorded : bool
}.

#[export] Instance ghost_eta : Eta ghost := fun s =>
  Build_ghost (ended s) (confirmation s) (claimed s) (guarded s) (written s) (attempted s) (last s) (reproved s) (proven s) (unrecorded s).

Section protocol.

(** The group a pass is given and its run. *)
Context (fg : Group) (pf : Run).

(** The engine acts: under the claim, before any status write of the pass commits. *)
Definition may (s : ghost) : bool := claimed s && negb (written s).

Definition check (b : bool) (s : ghost) : option ghost := if b then Some s else None.

Definition in_phase (p : PlannedFailoverPhase) : bool := bool_decide (Phase pf = p).

Definition for_run (ref : PlannedRunRef) : bool := bool_decide (ref = plannedRunRef pf).

Definition of_run (ref : PlannedRunRef) : bool := bool_decide (Ref_RunID ref = RunID pf).

(** Leaving [Promoting] for a rollback: the re-proof asked for it, the last attempt wrote
    nothing, or found the target replaced before the promotion was recorded, or no
    attempt reported that a write may have been sent. *)
Definition rollback_ok (s : ghost) : bool :=
  reproved s || negb (attempted s)
  || match last s with
     | Some o => match PO_Kind o, PO_Terminal o with
                 | PromoteAborted, None => true
                 | PromoteInconsistent, _ => RollbackIfUnrecorded o && unrecorded s
                 | _, _ => false
                 end
     | None => false
     end.

(** A hold commits with the record that asks for it, and the failover record with the
    success that carries its time. *)
Definition mutation_ok (next : Run) (mutate : option mutation) : bool :=
  match RunResult next, mutate with
  | Some r, _ =>
      match Res_Outcome r, mutate with
      | OutcomeManualRecoveryRequired, Some (MutateHold h) => bool_decide (Hold_RunID h = RunID next)
      | OutcomeManualRecoveryRequired, _ => false
      | OutcomeSucceeded, Some (MutateRecord _ at_ target wm _) =>
          bool_decide (target = TargetSite next) && bool_decide (wm = plannedFenceSet next)
          && match Promotion next with Some p => bool_decide (ConfirmationTime p = Some at_) | None => false end
      | OutcomeSucceeded, None => match Promotion next with Some p => negb (bool_decide (is_Some (ConfirmationTime p))) | None => true end
      | _, None => true
      | _, _ => false
      end
  | None, None => true
  | None, Some _ => false
  end.

(** A status write continues the run it was based on: the next revision, a phase the run
    can go to, its sites, baseline and settings unchanged. *)
Definition write_ok (s : ghost) (base : Group) (next : Run) (mutate : option mutation) : bool :=
  match plannedFailoverRun base with
  | (Some cur, false) =>
      negb (plannedFailoverTerminal cur) && bool_decide (RunID cur = RunID pf) && bool_decide (RunID next = RunID pf)
      && (Revision next =? Revision cur + 1) && phase_step (Phase cur) (Phase next)
      && (if plannedFailoverTerminal next then bool_decide (is_Some (RunResult next)) && mutation_ok next mutate
          else bool_decide (Phase cur = Phase pf) && bool_decide (TargetSite next = TargetSite cur) && bool_decide (SourceSite next = SourceSite cur)
               && bool_decide (ClaimBaseline next = ClaimBaseline cur) && bool_decide (RunSettings next = RunSettings cur)
               && bool_decide (mutate = None)
               && (if in_phase PlannedFailoverPhasePromoting && bool_decide (Phase next = PlannedFailoverPhaseRollingBack) then rollback_ok s else true)
               && (if bool_decide (Phase next = PlannedFailoverPhasePublishing) then proven s else true))
  | _ => false
  end.

Definition outcome_seen (s : ghost) (o : PromoteOutcome) : ghost :=
  s <| last := Some o |>
    <| attempted := attempted s || MayHaveWritten o || match PO_Kind o with PromoteConfirmed => true | _ => false end |>
    <| proven := proven s || match PO_Kind o with PromoteConfirmed => true | _ => false end |>.

(** The promotion outcome a re-proof hands over, when nothing else decides first. *)
Definition handed_off (r : ReproveResult) : option PromoteOutcome :=
  if SourceUnreachable r || RR_OK r then None
  else match RR_Hold r, RR_RollBack r with None, None => RR_HandOff r | _, _ => None end.

Definition allow (s : ghost) (o : op) : ans o -> option ghost :=
  match o return ans o -> option ghost with
  | Now => fun t => Some (s <| proven := proven s || plannedPromotionRecorded fg pf t |>
                            <| unrecorded := unrecorded s || negb (plannedOwnRecordDurable fg pf t) |>)
  | EnsureClaim ref _ => fun x => check (for_run ref && negb (written s))
      (s <| claimed := match x with Ok ClaimGranted => true | _ => false end |>)
  | CheckRunClaim ref => fun x => check (for_run ref) (s <| guarded := match x with None => true | Some _ => false end |>)
  | Reprove ref _ => fun x => check (for_run ref && negb (written s))
      match x with
      | Ok r => let s := s <| reproved := SourceUnreachable r || bool_decide (is_Some (RR_RollBack r)) |> in
                match handed_off r with Some o => outcome_seen s o | None => s end
      | Err _ => s
      end
  | FenceSource ref uuid => fun _ =>
      check (may s && for_run ref && in_phase PlannedFailoverPhaseFencing
             && match Fence pf with Some f => bool_decide (uuid = SourceServerUUID f) | None => false end) s
  | ProveFence ref fence => fun _ =>
      check (may s && for_run ref && in_phase PlannedFailoverPhaseFencing && bool_decide (Fence pf = Some fence)) s
  | KillAppConnections ref => fun _ => check (may s && for_run ref && in_phase PlannedFailoverPhaseDraining) s
  | ReadTargetServerUUID ref => fun x =>
      check (may s && for_run ref && (in_phase PlannedFailoverPhaseWaitingForLag || in_phase PlannedFailoverPhaseWaitingForDragonflySync
                                      || in_phase PlannedFailoverPhasePromotingDragonfly))
        (s <| attempted := match x with Ok uuid => bool_decide (uuid = "") && attempted s | Err _ => attempted s end |>)
  | Promote ref _ => fun x =>
      check (may s && for_run ref && in_phase PlannedFailoverPhasePromoting) (match x with Ok o => outcome_seen s o | Err _ => s end)
  | RecordPlannedPromotion ref _ _ => fun _ => check (of_run ref && proven s && negb (written s)) s
  | ApplyDNS ref => fun _ => check (of_run ref && proven s && negb (written s)) s
  | Rollback ref _ => fun _ => check (may s && for_run ref && in_phase PlannedFailoverPhaseRollingBack) s
  | DragonflyTakeover _ run => fun _ => check (may s && guarded s && for_run (plannedRunRef run) && in_phase PlannedFailoverPhasePromotingDragonfly) s
  | DragonflyAbandon _ run => fun _ => check (may s && guarded s && for_run (plannedRunRef run) && in_phase PlannedFailoverPhasePromotingDragonfly) s
  | Write base next mutate => fun x =>
      check (write_ok s base next mutate)
        match x with WriteCommitted => s <| written := true |> <| ended := ended s || plannedFailoverTerminal next |> | _ => s end
  | WriteTerminalMarker _ m => fun x =>
      check (bool_decide (M_RunID m = RunID pf)) match x with WriteCommitted => s <| ended := true |> | _ => s end
  | MarkDeadlineStart _ kind runID _ => fun x =>
      check (bool_decide (runID = RunID pf) && match kind with DeadlinePromotionConfirmed => proven s | _ => true end)
        match kind, x.2 with DeadlinePromotionConfirmed, WriteCommitted => s <| confirmation := true |> | _, _ => s end
  | ReleasePlannedFailoverClaim runID why => fun _ =>
      check (bool_decide (runID = RunID pf)
             && (ended s || (bool_decide (why = ReleasePublishing) && (confirmation s || in_phase PlannedFailoverPhasePublishing)))) s
  | ConvertToHold runID _ => fun _ => check (bool_decide (runID = RunID pf) && ended s) s
  | NameFencedSource ref => fun _ => check (of_run ref && ended s) s
  | NameUnconfirmedTarget ref => fun _ => check (of_run ref && ended s) s
  | RunTerminal _ => fun _ => check (ended s) s
  | _ => fun _ => Some s
  end.

(** ** Engine programs under the protocol *)

Definition ewp {A} (m : eng A) (s : ghost) (e : engine) (Q : ghost -> A -> engine -> Prop) : Prop := swp allow m s e Q.

Lemma ewp_mono {A} (m : eng A) s e (Q R : ghost -> A -> engine -> Prop) :
  ewp m s e Q -> (forall s a e, Q s a e -> R s a e) -> ewp m s e R.
Proof. apply swp_mono. Qed.

Lemma ewp_ret {A} (a : A) s e (Q : ghost -> A -> engine -> Prop) : Q s a e -> ewp (eret a) s e Q.
Proof. apply swp_ret. Qed.

Lemma ewp_bind {A B} (m : eng A) (k : A -> eng B) s e (Q : ghost -> B -> engine -> Prop) :
  ewp m s e (fun s a e => ewp (k a) s e Q) -> ewp (ebind m k) s e Q.
Proof. apply swp_bind. Qed.

Lemma ewp_call o s e (Q : ghost -> ans o -> engine -> Prop) :
  (forall x, match allow s o x with Some s' => Q s' x e | None => False end) -> ewp (ecall o) s e Q.
Proof. apply swp_call. Qed.

Definition memo (e : engine) : plannedRunMemo := default newRunMemo (runs_ e !! RunID pf).

Definition with_memo (e : engine) (f : plannedRunMemo -> plannedRunMemo) : engine := e <| runs_ := <[RunID pf := f (memo e)]> (runs_ e) |>.

Lemma ewp_memo s e Q : Q s (memo e) e -> ewp (runMemo (RunID pf)) s e Q.
Proof. done. Qed.

Lemma ewp_set f s e Q : Q s tt (with_memo e f) -> ewp (set_memo (RunID pf) f) s e Q.
Proof. done. Qed.

Lemma memo_with e f : memo (with_memo e f) = f (memo e).
Proof. unfold memo, with_memo. cbn. by rewrite lookup_insert_eq. Qed.

(** ** The invariant of the engine's memory *)

Record consistent (s : ghost) (e : engine) : Prop := {
  cs_ended : RunID pf ∈ terminatedRuns e -> ended s = true;
  cs_attempted : attempted s = true -> mayHaveWritten (promote (memo e)) = true;
  cs_proven : confirmed (promote (memo e)) = true \/ released (promote (memo e)) = true -> proven s = true;
  cs_pending : forall p, pendingTerminal (memo e) = Some p -> plannedFailoverTerminal p = true /\ is_Some (RunResult p)
}.

(** Later in the pass: nothing sent or written since. *)
Record later (s s' : ghost) : Prop := {
  lt_ended : ended s = true -> ended s' = true;
  lt_confirmation : confirmation s = true -> confirmation s' = true;
  lt_proven : proven s = true -> proven s' = true;
  lt_unrecorded : unrecorded s = true -> unrecorded s' = true;
  lt_claimed : claimed s' = claimed s;
  lt_guarded : guarded s' = guarded s;
  lt_written : written s' = written s;
  lt_attempted : attempted s' = attempted s;
  lt_last : last s' = last s;
  lt_reproved : reproved s' = reproved s
}.

Lemma later_refl s : later s s.
Proof. by constructor. Qed.

Lemma later_trans s1 s2 s3 : later s1 s2 -> later s2 s3 -> later s1 s3.
Proof. intros [] []. constructor; auto; congruence. Qed.

Lemma later_may s s' : later s s' -> may s = true -> may s' = true.
Proof. intros [] H. unfold may in *. by rewrite lt_claimed0, lt_written0. Qed.

Lemma later_rollback s s' : later s s' -> rollback_ok s = true -> rollback_ok s' = true.
Proof.
  intros []. unfold rollback_ok. rewrite lt_reproved0, lt_attempted0, lt_last0. rewrite !orb_true_iff.
  intros [H|H]; [by left|right]. destruct (last s) as [o|]; [|done]. destruct (PO_Kind o), (PO_Terminal o); try done;
  apply andb_true_iff in H as [-> H]; simpl; auto.
Qed.

(** The programs that only read, and write nothing the protocol names. *)
Definition quiet {A} (m : eng A) : Prop := forall s e, consistent s e -> ewp m s e (fun s' _ e' => later s s' /\ consistent s' e').

Lemma quiet_ret {A} (a : A) : quiet (eret a).
Proof. intros s e H. apply ewp_ret. split; [apply later_refl|done]. Qed.

Lemma quiet_bind {A B} (m : eng A) (k : A -> eng B) : quiet m -> (forall a, quiet (k a)) -> quiet (ebind m k).
Proof.
  intros Hm Hk s e H. apply ewp_bind. eapply ewp_mono; [by apply Hm|]. intros s1 a e1 [L1 H1].
  eapply ewp_mono; [by apply Hk|]. intros s2 b e2 [L2 H2]. split; [by eapply later_trans|done].
Qed.

Lemma quiet_memo : quiet (runMemo (RunID pf)).
Proof. intros s e H. apply ewp_memo. split; [apply later_refl|done]. Qed.

Lemma quiet_config f : quiet (config f).
Proof. intros s e H. split; [apply later_refl|done]. Qed.

(** Memo updates that leave the promotion and the pending record alone. *)
Definition promotion_of (m : plannedRunMemo) : bool * bool * bool :=
  (mayHaveWritten (promote m), confirmed (promote m), released (promote m)).

Definition harmless (f : plannedRunMemo -> plannedRunMemo) : Prop :=
  forall m, promotion_of (f m) = promotion_of m
            /\ (pendingTerminal (f m) = pendingTerminal m \/ pendingTerminal (f m) = None).

Lemma consistent_with f s e : harmless f -> consistent s e -> consistent s (with_memo e f).
Proof.
  intros Hf [H1 H2 H3 H4]. destruct (Hf (memo e)) as [Hp Ht]. injection Hp as E1 E2 E3.
  constructor; rewrite ?memo_with, ?E1, ?E2, ?E3; try done. intros p. destruct Ht as [-> | ->]; [apply H4|done].
Qed.

Lemma quiet_set f : harmless f -> quiet (set_memo (RunID pf) f).
Proof. intros Hf s e H. apply ewp_set. split; [apply later_refl|by apply consistent_with]. Qed.

(** Calls that change nothing the protocol keeps. *)
Definition idle (o : op) : bool :=
  match o with
  | Now | Load | ClearDeadlineStart _ _ _ | HeldRunClaim | HeldHoldClaim | ManagerAuthority | ProbeLag _ _ | CaptureSourceOffset _ _
  | TargetSyncReady _ _ _ | Event _ | LagWaitObserved _ _ | ActiveSitePersisted _ _ => true
  | MarkDeadlineStart _ DeadlineStatusStall runID _ | MarkDeadlineStart _ DeadlineManagerAbsent runID _ => bool_decide (runID = RunID pf)
  | _ => false
  end.

Lemma quiet_call o : idle o = true -> quiet (ecall o).
Proof.
  intros Ho s e H. apply ewp_call. intros x. destruct o; try done; cbn in *; try (split; [apply later_refl|done]).
  - split.
    + constructor; cbn; auto; intros ->; done.
    + destruct H as [H1 H2 H3 H4]. constructor; cbn; auto. intros Hc. by rewrite (H3 Hc).
  - destruct kind; cbn in *; try done; rewrite Ho; cbn; (split; [apply later_refl|done]).
Qed.

Ltac quiet :=
  repeat match goal with
  | |- quiet (ebind _ _) => apply quiet_bind; [|intros ?]
  | |- quiet (eret _) => apply quiet_ret
  | |- quiet (runMemo _) => apply quiet_memo
  | |- quiet (config _) => apply quiet_config
  | |- quiet (set_memo _ _) => apply quiet_set; intros ?; split; [done|(left; done) || (right; done)]
  | |- quiet (ecall _) => apply quiet_call; cbn; try apply bool_decide_eq_true_2; done
  | |- quiet (match ?x with _ => _ end) => destruct x
  | |- quiet _ => solve [auto with quiet]
  end.

Create HintDb quiet discriminated.

Lemma quiet_load : quiet load.
Proof. unfold load. quiet. Qed.

Lemma quiet_reload : quiet reload.
Proof. unfold reload. quiet. apply quiet_load. Qed.

#[local] Hint Resolve quiet_load quiet_reload : quiet.

Lemma quiet_drop : quiet (dropPendingTerminal (RunID pf)).
Proof. unfold dropPendingTerminal. quiet. Qed.

Lemma quiet_afterCommit base next : RunID next = RunID pf -> quiet (afterCommit base next).
Proof. intros E. unfold afterCommit. rewrite E. quiet. Qed.

Lemma quiet_noteStall base : quiet (noteStall base (RunID pf)).
Proof. unfold noteStall. quiet. Qed.

Lemma quiet_event b reason : quiet (event_if b reason).
Proof. unfold event_if. quiet. Qed.

Lemma quiet_lossWindow since reachable : quiet (lossWindow since reachable).
Proof. unfold lossWindow. quiet. Qed.

#[local] Hint Resolve quiet_drop quiet_afterCommit quiet_noteStall quiet_event quiet_lossWindow : quiet.

Lemma quiet_source_lost reachable : quiet (source_lost (RunID pf) reachable).
Proof. unfold source_lost. quiet. Qed.

Lemma quiet_target_lost reachable : quiet (target_lost (RunID pf) reachable).
Proof. unfold target_lost. quiet. Qed.

Lemma quiet_warn ws : quiet (warn (RunID pf) ws).
Proof. unfold warn. quiet. Qed.

Lemma quiet_clearAbsence : quiet (clearAbsence fg pf).
Proof. unfold clearAbsence. quiet. Qed.

Lemma quiet_observe elapsed b : quiet (observe pf elapsed b).
Proof. unfold observe. quiet. Qed.

Lemma quiet_newTakeoverIntent : quiet (newTakeoverIntent (RunID pf)).
Proof. unfold newTakeoverIntent. quiet. Qed.

Lemma quiet_terminalMutate next sites : quiet (terminalMutate next sites).
Proof. unfold terminalMutate. quiet. Qed.

Lemma quiet_clear_annotations kinds : forall fresh, quiet (clear_annotations kinds (RunID pf) fresh).
Proof. induction kinds as [|k kinds IH]; intros fresh; simpl; quiet; apply IH. Qed.

Lemma quiet_claim_held : quiet (claim_held pf).
Proof. unfold claim_held. quiet. Qed.

#[local] Hint Resolve quiet_source_lost quiet_target_lost quiet_warn quiet_clearAbsence quiet_observe quiet_newTakeoverIntent
  quiet_terminalMutate quiet_clear_annotations quiet_claim_held : quiet.

(** A quiet program, then the rest. *)
Lemma ewp_quiet {A B} (m : eng A) (k : A -> eng B) s e Q : quiet m -> consistent s e ->
  (forall s' a e', later s s' -> consistent s' e' -> ewp (k a) s' e' Q) -> ewp (ebind m k) s e Q.
Proof. intros Hm H Hk. apply ewp_bind. eapply ewp_mono; [by apply Hm|]. intros s' a e' [L C]. by apply Hk. Qed.

(** ** Committing *)

(** A committed write of [next] in a state. *)
Definition after_write (s : ghost) (next : Run) : ghost :=
  s <| written := true |> <| ended := ended s || plannedFailoverTerminal next |>.

Lemma consistent_after_write s e next : consistent s e -> consistent (after_write s next) e.
Proof. intros []. constructor; cbn; auto. intros H. by rewrite cs_ended0. Qed.

(** What [commit] returns: the record committed, which may have ended the run, or
    nothing written; [N]: what the build promises of its records. *)
Definition commit_post (N : Run -> Prop) (s : ghost) (s' : ghost) (r : commit_result) : Prop :=
  match out r with
  | WriteCommitted => exists next, wrote r = Some next /\ (plannedFailoverTerminal next = true -> ended s' = true)
                                   /\ (ended s = true -> ended s' = true) /\ RunID next = RunID pf /\ N next
  | _ => later s s' /\ forall next, wrote r = Some next -> N next
  end.

(** A build that only proposes writes the protocol allows. *)
Definition build_ok (N : Run -> Prop) (s : ghost) (build : plannedBuild) : Prop :=
  forall base s1 e1, later s s1 -> consistent s1 e1 ->
    ewp (build base) s1 e1 (fun s2 b e2 => later s1 s2 /\ consistent s2 e2
      /\ match b with Some (next, mutate) => write_ok s2 base next mutate = true /\ N next | None => True end).

Lemma write_ok_id s base next mutate : write_ok s base next mutate = true -> RunID next = RunID pf.
Proof.
  unfold write_ok. destruct (plannedFailoverRun base) as [[cur|] []]; try done. rewrite !andb_true_iff.
  intros (((((_ & _) & H) & _) & _) & _). by apply bool_decide_eq_true in H.
Qed.

Lemma commit_attempts_ok N s0 claimHeld build : build_ok N s0 build -> forall n first base last s e,
  later s0 s -> consistent s e -> match last with Some l => RunID l = RunID pf /\ N l | None => True end ->
  ewp (commit_attempts n first base last claimHeld build) s e (fun s' r e' => consistent s' e' /\ commit_post N s s' r).
Proof.
  intros Hb. induction n as [|n IH]; intros first base last s e L H Hl; cbn [commit_attempts].
  - apply ewp_quiet; [destruct last as [l|]; [destruct Hl as [-> _]|]; quiet|done|]. intros s' _ e' L' H'.
    apply ewp_ret. split; [done|]. split; [done|]. cbn. intros next ->. by destruct Hl.
  - apply ewp_bind. eapply ewp_mono; [by apply Hb|]. intros s1 b e1 (L1 & H1 & Hw). destruct b as [[next mutate]|].
    2: { apply ewp_ret. split; [done|]. split; [done|]. by cbn. }
    destruct Hw as [Hw HN]. pose proof (write_ok_id _ _ _ _ Hw) as Hid.
    apply ewp_bind. assert (ewp (if first && negb (plannedFailoverTerminal next) then dropPendingTerminal (RunID next) else eret tt) s1 e1
      (fun s2 _ e2 => s2 = s1 /\ consistent s2 e2)) as Hdrop.
    { destruct (first && _); [|by apply ewp_ret]. rewrite Hid. unfold dropPendingTerminal. apply ewp_bind, ewp_memo.
      destruct (pendingTerminal _); [|by apply ewp_ret]. apply ewp_set. split; [done|]. apply consistent_with; [|done].
      intros ?. split; [done|by right]. }
    eapply ewp_mono; [exact Hdrop|]. intros s2 _ e2 [-> H2]. apply ewp_bind, ewp_call. intros o. cbn. rewrite Hw. cbn.
    destruct o; cbn.
    + change (s1 <| written := true |> <| ended := ended s1 || plannedFailoverTerminal next |>) with (after_write s1 next).
      apply ewp_quiet; [by apply quiet_afterCommit|by apply consistent_after_write|]. intros s3 _ e3 L3 H3.
      apply ewp_quiet; [quiet|done|]. intros s4 cb e4 L4 H4. apply ewp_quiet; [quiet|done|]. intros s5 _ e5 L5 H5.
      apply ewp_ret. split; [done|]. cbn. exists next. assert (later (after_write s1 next) s5) as L35 by (do 2 (eapply later_trans; [|eassumption]); apply later_refl || done).
      split_and!; [done| | |done|done].
      * intros Ht. apply L35. cbn. by rewrite Ht, orb_true_r.
      * intros Hs. apply L35. cbn. by rewrite (lt_ended _ _ L1 Hs).
    + apply ewp_quiet; [apply quiet_load|done|]. intros s3 l e3 L3 H3. destruct l as [[base'|]|].
      * eapply ewp_mono; [apply IH; [by do 2 (eapply later_trans; [|eassumption])|done|by split]|]. intros s4 r e4 [H4 P]. split; [done|].
        unfold commit_post in *. destruct (out r).
        -- destruct P as (nx & ? & ? & P & ? & ?). exists nx. split_and!; [done..| |done|done]. intros Hs. by apply P, L3, L1.
        -- destruct P as [P ?]. split; [|done]. by do 2 (eapply later_trans; [eassumption|]).
        -- destruct P as [P ?]. split; [|done]. by do 2 (eapply later_trans; [eassumption|]).
        -- destruct P as [P ?]. split; [|done]. by do 2 (eapply later_trans; [eassumption|]).
        -- destruct P as [P ?]. split; [|done]. by do 2 (eapply later_trans; [eassumption|]).
      * apply ewp_ret. split; [done|]. split; [by eapply later_trans|]. cbn. by intros ? [= <-].
      * apply ewp_ret. split; [done|]. split; [by eapply later_trans|]. cbn. by intros ? [= <-].
    + rewrite Hid. apply ewp_quiet; [quiet|done|]. intros s3 _ e3 L3 H3. apply ewp_quiet; [quiet|done|]. intros s4 _ e4 L4 H4.
      apply ewp_ret. split; [done|]. split; [by do 2 (eapply later_trans; [eassumption|])|]. cbn. by intros ? [= <-].
    + rewrite Hid. apply ewp_quiet; [quiet|done|]. intros s3 _ e3 L3 H3. apply ewp_quiet; [quiet|done|]. intros s4 _ e4 L4 H4.
      apply ewp_ret. split; [done|]. split; [by do 2 (eapply later_trans; [eassumption|])|]. cbn. by intros ? [= <-].
    + rewrite Hid. apply ewp_quiet; [quiet|done|]. intros s3 _ e3 L3 H3. apply ewp_quiet; [quiet|done|]. intros s4 _ e4 L4 H4.
      apply ewp_ret. split; [done|]. split; [by do 2 (eapply later_trans; [eassumption|])|]. cbn. by intros ? [= <-].
Qed.

Lemma commit_ok N s e base claimHeld build : consistent s e -> build_ok N s build ->
  ewp (commit base claimHeld build) s e (fun s' r e' => consistent s' e' /\ commit_post N s s' r).
Proof. intros H Hb. apply (commit_attempts_ok N s); [done|apply later_refl|done|done]. Qed.

(** ** Ending the run *)

Definition ok (m : eng Z) (s : ghost) (e : engine) : Prop := ewp m s e (fun s' _ e' => consistent s' e').

Lemma sameRun_Some base phases cur : sameRun base pf phases = Some cur ->
  plannedFailoverRun base = (Some cur, false) /\ RunID cur = RunID pf /\ (phases = [Phase pf] -> Phase cur = Phase pf).
Proof.
  unfold sameRun. destruct (plannedFailoverRun base) as [[c|] []]; try done. case_bool_decide as E; [done|]. destruct (_ && _) eqn:Ep; [done|].
  intros [= <-]. split_and!; [done| |].
  - exact E.
  - intros ->. cbn in Ep. apply bool_decide_eq_false in Ep. apply dec_stable in Ep. by apply list_elem_of_singleton in Ep.
Qed.

Lemma pending_takeover_fields m next : let n := applyPendingTakeoverOutcome m next in
  RunID n = RunID next /\ Revision n = Revision next /\ Phase n = Phase next /\ TargetSite n = TargetSite next.
Proof. unfold applyPendingTakeoverOutcome, applyTo. case_bool_decide; [|done]. by destruct (outcome (dragonfly m)). Qed.

Lemma terminal_block_spec m p e now : let n := terminal_block m p e now in
  RunID n = RunID p /\ Revision n = Revision p + 1 /\ plannedFailoverTerminal n = true
  /\ exists r, RunResult n = Some r /\ Res_Outcome r = end_outcome e.
Proof.
  unfold terminal_block. set (n1 := match Promotion _ with Some _ => _ | None => _ end).
  assert (RunID n1 = RunID p /\ Revision n1 = Revision p + 1 /\ plannedFailoverTerminal n1 = true) as (H1 & H2 & H3).
  { unfold n1. destruct (Promotion _); [destruct (_ && _)|]; (split_and!; [done|done|by destruct (end_outcome e)]). }
  destruct (pending_takeover_fields m n1) as (P1 & P2 & P3 & _). unfold plannedFailoverTerminal in *. cbn zeta in *.
  destruct (RunAdmission (applyPendingTakeoverOutcome m n1)); cbn; rewrite P1, P2, P3; split_and!; try done; by eexists.
Qed.

Lemma terminalRecord_ok cur e s e0 : RunID cur = RunID pf -> consistent s e0 ->
  ewp (terminalRecord cur e) s e0 (fun s' n e' => later s s' /\ consistent s' e' /\ RunID n = RunID cur /\ Revision n = Revision cur + 1
    /\ plannedFailoverTerminal n = true /\ exists r, RunResult n = Some r /\ Res_Outcome r = end_outcome e).
Proof.
  intros E H. unfold terminalRecord. rewrite E. apply ewp_quiet; [quiet|done|]. intros s1 m e1 L1 H1. apply ewp_quiet; [quiet|done|].
  intros s2 now e2 L2 H2. apply ewp_ret. split; [by eapply later_trans|]. split; [done|]. rewrite <- E. apply (terminal_block_spec m cur e now).
Qed.

Lemma terminalMutate_ok next sites s e : consistent s e -> is_Some (RunResult next) ->
  ewp (terminalMutate next sites) s e (fun s' mu e' => later s s' /\ consistent s' e' /\ mutation_ok next mu = true).
Proof.
  intros H [r Hr]. unfold terminalMutate, mutation_ok. rewrite Hr. destruct (Res_Outcome r) eqn:Eo;
    try (apply ewp_ret; split_and!; [apply later_refl|done|reflexivity]).
  - destruct (Promotion next) as [p|]; [|by apply ewp_ret; split_and!; [apply later_refl|done|]].
    destruct (ConfirmationTime p) as [t|] eqn:Et; [|apply ewp_ret; split_and!; [apply later_refl|done|by rewrite bool_decide_false by (by intros [? [=]])]].
    apply ewp_quiet; [quiet|done|]. intros s1 au e1 L1 H1. apply ewp_quiet; [quiet|done|]. intros s2 now e2 L2 H2. apply ewp_ret.
    split_and!; [by eapply later_trans|done|]. by rewrite !bool_decide_true by done.
  - apply ewp_quiet; [quiet|done|]. intros s2 now e2 L2 H2. apply ewp_ret. split_and!; [done..|]. by rewrite bool_decide_true.
Qed.

Lemma release_ok id w s e : consistent s e -> id = RunID pf ->
  ended s = true \/ (w = ReleasePublishing /\ (confirmation s = true \/ in_phase PlannedFailoverPhasePublishing = true)) ->
  ewp (release id w) s e (fun s' _ e' => s' = s /\ consistent s' e').
Proof.
  intros H -> Hw. unfold release. case_bool_decide; [by apply ewp_ret|]. apply ewp_bind, ewp_call. intros x. cbn.
  rewrite bool_decide_true by done. destruct Hw as [->|[-> Hc]]; [done|]. rewrite (bool_decide_true (ReleasePublishing = ReleasePublishing)) by done.
  destruct Hc as [-> | ->]; rewrite ?orb_true_r; done.
Qed.

Lemma named_ok p e s e0 : RunID p = RunID pf -> ended s = true -> consistent s e0 ->
  ewp (nameForOutcome p e) s e0 (fun s' _ e' => later s s' /\ consistent s' e').
Proof.
  intros E He H. unfold nameForOutcome. rewrite ?E. destruct (end_outcome e); try (by apply quiet_ret).
  - apply ewp_quiet; [quiet|done|]. intros s1 m e1 L1 H1. destruct (_ || _); [by apply ewp_ret|]. apply ewp_bind, ewp_call. intros x. cbn.
    unfold of_run. cbn. rewrite E, bool_decide_true, (lt_ended _ _ L1 He) by done. by split.
  - case_bool_decide; [by apply quiet_ret|]. apply ewp_quiet; [quiet|done|]. intros s1 fresh e1 L1 H1. destruct fresh; [|by apply ewp_ret].
    apply ewp_quiet; [quiet|done|]. intros s2 now e2 L2 H2. pose proof (later_trans _ _ _ L1 L2) as L. destruct (negb _); [by apply ewp_ret|].
    apply ewp_bind, ewp_call. intros x. cbn. unfold of_run. cbn. rewrite E, bool_decide_true, (lt_ended _ _ L He) by done. by split.
Qed.

Lemma quiet_report final r w : forall s e, ended s = true -> consistent s e ->
  ewp (reportTerminal final r w) s e (fun s' _ e' => later s s' /\ consistent s' e').
Proof.
  intros s e He H. unfold reportTerminal. apply ewp_bind, ewp_call. intros x. cbn. rewrite He. cbn.
  enough (quiet (match Res_Outcome r with
    | OutcomeSucceeded => ecall (Event (if bool_decide (w = "") then "PlannedFailoverSucceeded" else w)) ;;* eret tt
    | OutcomeManualRecoveryRequired => ecall (Event "PlannedFailoverManualRecoveryRequired") ;;* eret tt
    | o => (match o with OutcomePromotedUnconfirmed => ecall (Event "PlannedFailoverPromotionConfirmationFailed") | _ => eret tt end) ;;*
           ecall (Event (if bool_decide (w = "") then "PlannedFailoverFailed" else w)) ;;* eret tt
    end)) as Hq by by apply Hq.
  destruct (Res_Outcome r); quiet.
Qed.

Lemma afterTerminal_ok final r w ev s e : RunID final = RunID pf -> ended s = true -> consistent s e ->
  ewp (afterTerminal final r w ev) s e (fun s' _ e' => consistent s' e').
Proof.
  intros E He H. unfold afterTerminal. rewrite E. apply ewp_quiet; [quiet|done|]. intros s1 m e1 L1 H1.
  pose proof (lt_ended _ _ L1 He) as He1. apply ewp_bind, swp_modify.
  set (e2 := e1 <| terminatedRuns := _ |>). assert (consistent s1 e2) as H2 by by destruct H1.
  apply ewp_bind. assert (ewp (match Res_Outcome r with
    | OutcomeManualRecoveryRequired => ecall (ConvertToHold (RunID pf) (holdSites m)) ;;* eret tt
    | _ => release (RunID pf) w end) s1 e2 (fun s' _ e' => s' = s1 /\ consistent s' e')) as Hrel.
  { destruct (Res_Outcome r); try (apply release_ok; auto). apply ewp_bind, ewp_call. intros x. cbn. rewrite bool_decide_true, He1 by done.
    done. }
  eapply ewp_mono; [exact Hrel|]. intros s3 _ e3 [-> H3]. apply ewp_bind.
  assert (ewp (if reported m then eret tt else set_memo (RunID pf) (fun m => m <| reported := true |>) ;;* reportTerminal final r ev) s1 e3
    (fun s' _ e' => later s1 s' /\ consistent s' e')) as Hrep.
  { destruct (reported m); [by apply quiet_ret|]. apply ewp_quiet; [quiet|done|]. intros s4 _ e4 L4 H4.
    eapply ewp_mono; [apply quiet_report; [by apply (lt_ended _ _ L4)|done]|]. intros s5 _ e5 [L5 H5]. split; [by eapply later_trans|done]. }
  eapply ewp_mono; [exact Hrep|]. intros s4 _ e4 [L4 H4]. apply ewp_quiet; [quiet|done|]. intros s5 fresh e5 L5 H5.
  destruct fresh; [|by apply ewp_ret]. eapply ewp_mono; [by apply quiet_clear_annotations|]. by intros s6 _ e6 [_ H6].
Qed.

Lemma recorded_harmless : harmless (fun m => m <| promote := promote m <| recorded := true |> |>).
Proof. intros m. split; [done|by left]. Qed.

Lemma stallOutcome_ok cur s e : RunID cur = RunID pf -> written s = false -> consistent s e ->
  ewp (stallOutcome cur) s e (fun s' _ e' => later s s' /\ consistent s' e').
Proof.
  intros E Hw H. unfold stallOutcome. rewrite E. apply ewp_bind, ewp_memo. case_bool_decide; [by apply quiet_ret|].
  destruct (confirmed (promote (memo e))) eqn:Ec.
  2: { repeat match goal with |- context [if ?b then _ else _] => destruct b end; by apply quiet_ret. }
  assert (proven s = true) as Hp by (apply (cs_proven _ _ H); by left). apply ewp_bind.
  assert (forall r, ewp (match r : option facade_error with
    | None => set_memo (RunID pf) (fun m => m <| promote := promote m <| recorded := true |> |>)
    | Some _ => eret tt end) s e (fun s' _ e' => later s s' /\ consistent s' e')) as Hset.
  { intros [|]; [by apply quiet_ret|]. apply quiet_set; [apply recorded_harmless|done]. }
  assert (ewp (if recorded (promote (memo e)) then eret tt
    else let^ r := ecall (RecordPlannedPromotion (plannedRunRef cur) (confirmedAt (promote (memo e))) (plannedFenceSet cur)) in
         match r : option facade_error with
         | None => set_memo (RunID pf) (fun m => m <| promote := promote m <| recorded := true |> |>)
         | Some _ => eret tt end) s e (fun s' _ e' => later s s' /\ consistent s' e')) as Hrec.
  { destruct (recorded _); [by apply quiet_ret|]. apply ewp_bind, ewp_call. intros r. cbn. unfold of_run. cbn.
    rewrite E, bool_decide_true, Hp, Hw by done. apply Hset. }
  eapply ewp_mono; [exact Hrec|]. intros s1 _ e1 [L1 H1]. apply ewp_bind.
  assert (ewp (if bool_decide (is_Some (dns (promote (memo e)))) || released (promote (memo e)) then eret ["StatusStalled"]
    else let^ r := ecall (ApplyDNS (plannedRunRef cur)) in
         eret match r : res facade_error DNSState with
              | Ok DNSFailed | Err _ => addPlannedWarnings ["StatusStalled"] ["DNSUpdateFailed"]
              | _ => ["StatusStalled"] end) s1 e1 (fun s' _ e' => later s s' /\ consistent s' e')) as Hdns.
  { destruct (_ || _); [done|]. apply ewp_bind, ewp_call. intros r. cbn. unfold of_run. cbn.
    rewrite E, bool_decide_true, (lt_proven _ _ L1 Hp), (lt_written _ _ L1), Hw by done. by split. }
  eapply ewp_mono; [exact Hdns|]. intros s2 ws e2 [L2 H2]. by apply ewp_ret.
Qed.

Lemma marker_ok marker : M_RunID marker = RunID pf -> forall n base s e, consistent s e ->
  ewp (marker_attempts n base marker) s e (fun s' o e' => consistent s' e' /\ (o = Some WriteCommitted -> ended s' = true)).
Proof.
  intros E. induction n as [|n IH]; intros base s e H; cbn [marker_attempts]; [by apply ewp_ret|]. apply ewp_bind, ewp_call. intros o. cbn.
  rewrite E, bool_decide_true by done. cbn. destruct o; try (by apply ewp_ret).
  - apply ewp_ret. split; [|done]. destruct H. constructor; auto.
  - apply ewp_quiet; [quiet|done|]. intros s1 fresh e1 L1 H1. destruct fresh; [by apply IH|by apply ewp_ret].
Qed.

Lemma consistent_pending s e f p : (forall m, promotion_of (f m) = promotion_of m) ->
  (forall m, pendingTerminal (f m) = Some p) -> plannedFailoverTerminal p = true -> is_Some (RunResult p) -> consistent s e -> consistent s (with_memo e f).
Proof.
  intros Hf Hp Ht Hr [H1 H2 H3 H4]. pose proof (Hf (memo e)) as E. injection E as E1 E2 E3.
  constructor; rewrite ?memo_with, ?E1, ?E2, ?E3; try done. intros q. rewrite Hp. by intros [= <-].
Qed.

Lemma stall_finish_ok fresh cur e s e0 : RunID cur = RunID pf -> consistent s e0 -> ewp (stall_finish fresh cur e) s e0 (fun s' _ e' => consistent s' e').
Proof.
  intros E H. unfold stall_finish. rewrite E. apply ewp_bind. eapply ewp_mono; [by apply terminalRecord_ok|].
  intros s1 final e1 (L1 & H1 & E1 & _ & Ht & r & Hr & _). rewrite Hr. apply ewp_bind.
  eapply ewp_mono; [by apply (marker_ok (marker_of cur r))|]. intros s2 o e2 [H2 Ho].
  destruct o as [o|]; [|by apply ewp_ret].
  assert (consistent s2 e2 -> ewp (let^ now := ecall Now in
        let^ m := runMemo (RunID pf) in
        (if time_sub now (cannotWriteAt m) >=? 60 * Second then
           set_memo (RunID pf) (fun m => m <| cannotWriteAt := now |>) ;;* ecall (Event "PlannedFailoverStatusStalled")
         else eret tt) ;;*
        eret (Some plannedRequeueBackoff)) s2 e2 (fun s' _ e' => consistent s' e')) as Hno.
  { intros H2'. assert (quiet (let^ now := ecall Now in let^ m := runMemo (RunID pf) in
        (if time_sub now (cannotWriteAt m) >=? 60 * Second then
           set_memo (RunID pf) (fun m => m <| cannotWriteAt := now |>) ;;* ecall (Event "PlannedFailoverStatusStalled")
         else eret tt) ;;* eret (Some plannedRequeueBackoff))) as Hq by quiet.
    eapply ewp_mono; [by apply Hq|]. by intros s3 ? e3 [_ H3]. }
  destruct o; try (by apply Hno). specialize (Ho eq_refl). apply ewp_bind, ewp_set. apply ewp_bind.
  eapply ewp_mono; [apply named_ok; [exact E|exact Ho|]|].
  - apply (consistent_pending _ _ _ final); [|done|done|by exists r|done]. intros m. by destruct (_ && _).
  - intros s3 _ e3 [L3 H3]. pose proof (lt_ended _ _ L3 Ho) as Ho3. apply ewp_quiet; [quiet|done|]. intros s4 _ e4 L4 H4. apply ewp_bind.
    eapply ewp_mono; [apply afterTerminal_ok; [congruence|by apply (lt_ended _ _ L4)|done]|]. intros s5 ? e5 H5. by apply ewp_ret.
Qed.

Lemma maybeStallFinish_ok s e : written s = false -> consistent s e -> ewp (maybeStallFinish pf) s e (fun s' _ e' => consistent s' e').
Proof.
  intros Hw H. unfold maybeStallFinish. apply ewp_quiet; [quiet|done|]. intros s1 fresh e1 L1 H1. apply ewp_quiet; [quiet|done|].
  intros s2 _ e2 L2 H2. apply ewp_bind, ewp_memo. destruct (isZeroTime _); [by apply ewp_ret|]. apply ewp_quiet; [quiet|done|].
  intros s3 now e3 L3 H3. destruct fresh as [fresh|]; [|by apply ewp_ret]. destruct (_ <? _); [by apply ewp_ret|].
  destruct (_ >? _); [by apply ewp_ret|]. destruct (sameRun fresh pf []) as [cur|] eqn:Es; [|by apply ewp_ret].
  destruct (sameRun_Some _ _ _ Es) as (_ & E & _). destruct (plannedFailoverTerminal cur); [by apply ewp_ret|].
  apply ewp_bind. eapply ewp_mono; [apply stallOutcome_ok; [done| |done]|].
  { by rewrite (lt_written _ _ L3), (lt_written _ _ L2), (lt_written _ _ L1). }
  intros s4 en e4 [L4 H4]. destruct (_ && _); [|by apply stall_finish_ok]. apply ewp_quiet; [quiet|done|]. intros s5 chk e5 L5 H5.
  destruct chk as [chk|]; [|by apply ewp_ret]. apply ewp_quiet; [quiet|done|]. intros s6 now' e6 L6 H6. destruct (negb _); [by apply ewp_ret|].
  by apply stall_finish_ok.
Qed.

(** ** Moving on *)

Lemma afterAdvance_ok r s e : (plannedWriteStalled r = true -> written s = false) -> consistent s e -> ok (afterAdvance pf r) s e.
Proof.
  intros Hw H. unfold ok, afterAdvance. apply ewp_bind. destruct (plannedWriteStalled r).
  - eapply ewp_mono; [apply maybeStallFinish_ok; auto|]. intros s1 d e1 H1. by apply ewp_ret.
  - by apply ewp_ret, ewp_ret.
Qed.

Lemma commit_post_stalled N s s' r : commit_post N s s' r -> plannedWriteStalled r = true -> written s' = written s.
Proof. unfold commit_post, plannedWriteStalled. destruct (out r); try done; intros [L _] _; apply L. Qed.

(** What an edit of the block may do. *)
Definition edit_ok (s : ghost) (cur next : Run) : Prop :=
  RunID next = RunID cur /\ Revision next = Revision cur /\ TargetSite next = TargetSite cur /\ SourceSite next = SourceSite cur
  /\ ClaimBaseline next = ClaimBaseline cur /\ RunSettings next = RunSettings cur
  /\ phase_step (Phase pf) (Phase next) = true /\ plannedFailoverTerminal next = false
  /\ (Phase pf = PlannedFailoverPhasePromoting -> Phase next = PlannedFailoverPhaseRollingBack -> rollback_ok s = true)
  /\ (Phase next = PlannedFailoverPhasePublishing -> proven s = true).

Lemma terminal_write_ok s base cur next mu : plannedFailoverRun base = (Some cur, false) -> plannedFailoverTerminal cur = false -> RunID cur = RunID pf ->
  RunID next = RunID pf -> Revision next = Revision cur + 1 -> plannedFailoverTerminal next = true -> is_Some (RunResult next) ->
  mutation_ok next mu = true -> write_ok s base next mu = true.
Proof.
  intros Er Hc Ei En Erev Ht Hr Hm. unfold write_ok. rewrite Er, Hc, Ht, Hm, Erev, Z.eqb_refl, !bool_decide_true by done. cbn.
  rewrite andb_true_r. unfold plannedFailoverTerminal in Ht. unfold phase_step. by destruct (Phase next), (Phase cur).
Qed.

Context (Hlive : plannedFailoverTerminal pf = false).

Lemma edit_write_ok s base cur next : sameRun base pf [Phase pf] = Some cur -> edit_ok s (cur <| Revision := Revision cur + 1 |>) next ->
  write_ok s base next None = true.
Proof.
  intros (Er & Ei & Ep)%sameRun_Some (H1 & H2 & H3 & H4 & H5 & H6 & H7 & H8 & H9 & H10). specialize (Ep eq_refl). cbn in *.
  assert (plannedFailoverTerminal cur = false) as Hc by (unfold plannedFailoverTerminal in *; by rewrite Ep).
  unfold write_ok. rewrite Er, Hc, H8, Ep, H7, !bool_decide_true by congruence. cbn. rewrite H2, Z.eqb_refl. cbn. unfold in_phase.
  destruct (decide (Phase pf = PlannedFailoverPhasePromoting)) as [Hp|Hp], (decide (Phase next = PlannedFailoverPhaseRollingBack)) as [Hr|Hr],
    (decide (Phase next = PlannedFailoverPhasePublishing)) as [Hu|Hu];
    rewrite ?(bool_decide_true _ Hp), ?(bool_decide_false _ Hp), ?(bool_decide_true _ Hr), ?(bool_decide_false _ Hr),
      ?(bool_decide_true _ Hu), ?(bool_decide_false _ Hu); cbn; rewrite ?H9, ?H10 by done; try done; congruence.
Qed.

Lemma advance_ok edit s e : consistent s e ->
  (forall cur s1 e1, later s s1 -> consistent s1 e1 -> RunID cur = RunID pf -> Phase cur = Phase pf ->
     ewp (edit cur) s1 e1 (fun s2 next e2 => later s1 s2 /\ consistent s2 e2 /\ edit_ok s2 cur next)) ->
  ewp (advance fg pf edit) s e (fun s' r e' => consistent s' e' /\ commit_post (fun _ => True) s s' r).
Proof.
  intros H He. unfold advance. apply ewp_quiet; [quiet|done|]. intros s1 held e1 L1 H1. eapply ewp_mono; [apply (commit_ok (fun _ => True)); [done|]|].
  - intros base s2 e2 L2 H2. destruct (sameRun base pf [Phase pf]) as [cur|] eqn:Es; [|by apply ewp_ret; split_and!; [apply later_refl|..]].
    pose proof (sameRun_Some _ _ _ Es) as (_ & Ei & Ep). apply ewp_bind. eapply ewp_mono.
    + apply He; [by eapply later_trans|done|done|by apply Ep].
    + intros s3 next e3 (L3 & H3 & Hok). apply ewp_ret. split_and!; [done..| |done]. by eapply edit_write_ok.
  - intros s2 r e2 [H2 P]. split; [done|]. unfold commit_post in *. destruct (out r).
    + destruct P as (n & ? & ? & P & ? & ?). exists n. split_and!; [done..| |done|done]. intros Hs. by apply P, L1.
    + destruct P as [P ?]. split; [by eapply later_trans|done].
    + destruct P as [P ?]. split; [by eapply later_trans|done].
    + destruct P as [P ?]. split; [by eapply later_trans|done].
    + destruct P as [P ?]. split; [by eapply later_trans|done].
Qed.

Lemma advance_pure g s e (k : commit_result -> eng Z) : consistent s e ->
  (forall cur s1, later s s1 -> RunID cur = RunID pf -> Phase cur = Phase pf -> edit_ok s1 cur (g cur)) ->
  (forall r s1 e1, consistent s1 e1 -> commit_post (fun _ => True) s s1 r -> ok (k r) s1 e1) ->
  ok (let^ r := advance fg pf (fun next => eret (g next)) in k r) s e.
Proof.
  intros H Hg Hk. unfold ok. apply ewp_bind. eapply ewp_mono; [apply advance_ok; [done|]|].
  - intros cur s1 e1 L1 H1 Ei Ep. apply ewp_ret. split_and!; [apply later_refl|done|by apply Hg].
  - intros s1 r e1 [H1 P]. by apply Hk.
Qed.

(** Quiet bookkeeping between the write and [afterAdvance]. *)
Lemma advanced_ok N r s s1 e1 (m : eng unit) : written s = false -> commit_post N s s1 r -> consistent s1 e1 -> quiet m ->
  ok (m ;;* afterAdvance pf r) s1 e1.
Proof.
  intros Hw P H Hm. unfold ok. apply ewp_quiet; [done..|]. intros s2 _ e2 L2 H2. apply afterAdvance_ok; [|done].
  intros Hs. by rewrite (lt_written _ _ L2), (commit_post_stalled _ _ _ _ P Hs).
Qed.

Lemma advanced_ok' N r s s1 e1 : written s = false -> commit_post N s s1 r -> consistent s1 e1 -> ok (afterAdvance pf r) s1 e1.
Proof. intros Hw P H. apply afterAdvance_ok; [|done]. intros Hs. by rewrite (commit_post_stalled _ _ _ _ P Hs). Qed.

Lemma toRollingBack_ok reason s e : written s = false -> phase_step (Phase pf) PlannedFailoverPhaseRollingBack = true ->
  (Phase pf = PlannedFailoverPhasePromoting -> rollback_ok s = true) -> consistent s e -> ok (toRollingBack fg pf reason) s e.
Proof.
  intros Hw Hs Hr H. unfold ok, toRollingBack. apply ewp_quiet; [quiet|done|]. intros s1 now e1 L1 H1.
  apply (advance_pure (fun next => next <| Phase := PlannedFailoverPhaseRollingBack |>
               <| RunRollback := Some {| Rollback_Reason := reason; Rollback_IntentTime := now |} |>)); [done| |].
  - intros cur s2 L2 Ei Ep. repeat split; try done. intros Hp _. eapply later_rollback; [exact L2|]. eapply later_rollback; [exact L1|]. auto.
  - intros r s2 e2 H2 P. eapply advanced_ok; [|exact P|done|quiet]. by rewrite (lt_written _ _ L1).
Qed.

Lemma sets_ok f s e : consistent s e -> harmless f -> ewp (set_memo (RunID pf) f) s e (fun s' _ e' => s' = s /\ consistent s' e').
Proof. intros H Hf. apply ewp_set. split; [done|by apply consistent_with]. Qed.

Lemma finish_ok e s e0 : written s = false -> consistent s e0 -> ok (finish fg pf e) s e0.
Proof.
  intros Hw H. unfold ok, finish. apply ewp_quiet; [quiet|done|]. intros s1 held e1 L1 H1. apply ewp_bind.
  eapply ewp_mono; [apply (commit_ok (fun n => plannedFailoverTerminal n = true /\ is_Some (RunResult n))); [done|]|].
  - intros base s2 e2 L2 H2. destruct (sameRun base pf [Phase pf]) as [cur|] eqn:Es; [|by apply ewp_ret; split_and!; [apply later_refl|..]].
    destruct (sameRun_Some _ _ _ Es) as (Er & Ei & Ep). specialize (Ep eq_refl). apply ewp_bind. eapply ewp_mono; [by apply terminalRecord_ok|].
    intros s3 next e3 (L3 & H3 & En & Erev & Ht & r & Hr & _). apply ewp_bind. eapply ewp_mono; [by apply terminalMutate_ok; [|exists r]|].
    intros s4 mu e4 (L4 & H4 & Hm). apply ewp_ret. split_and!; [by eapply later_trans|done| |done|by exists r].
    apply (terminal_write_ok _ _ cur); [done|unfold plannedFailoverTerminal in *; by rewrite Ep|congruence..|done|by exists r|done].
  - intros s2 r e2 [H2 P].
    assert (forall next, wrote r = Some next -> plannedFailoverTerminal next = true /\ is_Some (RunResult next)) as HN.
    { unfold commit_post in P. destruct (out r); [destruct P as (n & -> & _ & _ & _ & HN)|..]; try (by destruct P). intros ? [= <-]. done. }
    apply ewp_bind. assert (ewp (match wrote r with
       | Some next => set_memo (RunID pf) (fun m => m <| pendingTerminal := Some next |> <| holdSites := end_holdSites e |>)
       | None => eret tt end) s2 e2 (fun s' _ e' => s' = s2 /\ consistent s' e')) as Hset.
    { destruct (wrote r) as [next|]; [|by apply ewp_ret]. destruct (HN next eq_refl). apply ewp_set. split; [done|].
      by apply (consistent_pending _ _ _ next). }
    eapply ewp_mono; [exact Hset|]. intros s3 ? e3 [-> H3].
    assert (out r <> WriteCommitted -> ok (let^ d := (if held && plannedWriteStalled r then maybeStallFinish pf else eret None) in
      eret (default (requeueFor (out r)) d)) s2 e3) as Hno.
    { intros Hout. apply ewp_bind. destruct (held && plannedWriteStalled r) eqn:Eh; [|by apply ewp_ret, ewp_ret].
      apply andb_true_iff in Eh as [_ Eh]. eapply ewp_mono; [apply maybeStallFinish_ok; [|done]|].
      - by rewrite (commit_post_stalled _ _ _ _ P Eh), (lt_written _ _ L1).
      - intros s4 d e4 H4. by apply ewp_ret. }
    unfold commit_post in P. destruct (out r); try (by apply Hno). destruct P as (next & -> & He & _ & Ei & Ht & rr & Hr).
    specialize (He Ht). rewrite Hr. apply ewp_bind. eapply ewp_mono; [apply sets_ok; [done|]|].
    { intros m. split; [done|by right]. }
    intros s4 ? e4 [-> H4]. apply ewp_bind. assert (ewp (if noNaming e then eret tt else nameForOutcome pf e) s2 e4
      (fun s' _ e' => later s2 s' /\ consistent s' e')) as Hname by (destruct (noNaming e); [by apply quiet_ret|by apply named_ok]).
    eapply ewp_mono; [exact Hname|]. intros s5 ? e5 [L5 H5]. apply ewp_bind.
    eapply ewp_mono; [apply afterTerminal_ok; [done|by apply (lt_ended _ _ L5)|done]|]. intros s6 ? e6 H6. by apply ewp_ret.
Qed.

Lemma endManualRecovery_ok reason sites s e : written s = false -> consistent s e -> ok (endManualRecovery fg pf reason sites) s e.
Proof. apply finish_ok. Qed.

Lemma endWithoutMySQL_ok reason w s e : written s = false -> consistent s e -> ok (endWithoutMySQL fg pf reason w) s e.
Proof. apply finish_ok. Qed.

Lemma endSiteRemoved_ok s e : written s = false -> consistent s e -> ok (endSiteRemoved fg pf) s e.
Proof. apply finish_ok. Qed.

#[local] Hint Resolve endManualRecovery_ok endWithoutMySQL_ok endSiteRemoved_ok finish_ok : passes.

Lemma managerAbsent_ok s e : written s = false -> consistent s e -> ok (managerAbsent fg pf) s e.
Proof.
  intros Hw H. unfold ok, managerAbsent. apply ewp_quiet; [quiet|done|]. intros s1 start e1 L1 H1. destruct start as [start|]; [|by apply ewp_ret].
  apply ewp_quiet; [quiet|done|]. intros s2 now e2 L2 H2. apply ewp_bind, ewp_memo. apply ewp_quiet; [quiet|done|]. intros s3 _ e3 L3 H3.
  assert (written s3 = false) as Hw3 by (by rewrite (lt_written _ _ L3), (lt_written _ _ L2), (lt_written _ _ L1)).
  destruct (_ <? _); [by apply ewp_ret|]. destruct (_ && _); [|by apply endWithoutMySQL_ok]. apply ewp_quiet; [quiet|done|].
  intros s4 now' e4 L4 H4. assert (written s4 = false) as Hw4 by by rewrite (lt_written _ _ L4).
  destruct (negb _); [by apply endManualRecovery_ok|by apply finish_ok].
Qed.

Context (Hstep : phase_step (Phase pf) PlannedFailoverPhaseRollingBack = true).

(** An outcome the protocol has seen, not yet in the memo. *)
Record seen (o : PromoteOutcome) (s : ghost) (e : engine) : Prop := {
  sn_written : written s = false;
  sn_ended : RunID pf ∈ terminatedRuns e -> ended s = true;
  sn_attempted : attempted s = true -> mayHaveWritten (promote (memo e)) = true \/ MayHaveWritten o = true \/ PO_Kind o = PromoteConfirmed;
  sn_proven : confirmed (promote (memo e)) = true \/ released (promote (memo e)) = true -> proven s = true;
  sn_pending : forall p, pendingTerminal (memo e) = Some p -> plannedFailoverTerminal p = true /\ is_Some (RunResult p);
  sn_confirmed : PO_Kind o = PromoteConfirmed -> proven s = true;
  sn_last : PO_Kind o = PromoteUnconfirmed \/ last s = Some o
}.

Lemma seen_outcome o s e : written s = false -> consistent s e -> seen o (outcome_seen s o) e.
Proof.
  intros Hw []. constructor; cbn; auto.
  - rewrite !orb_true_iff. intros [[H|H]|H]; [left; auto|by right; left|right; right; by destruct (PO_Kind o)].
  - intros H. by rewrite cs_proven0.
  - intros ->. apply orb_true_r.
Qed.

Lemma seen_consistent o s e f : PO_Kind o <> PromoteConfirmed -> seen o s e ->
  (forall m, pendingTerminal (f m) = pendingTerminal m /\ promotion_of (f m)
     = (mayHaveWritten (promote m) || MayHaveWritten o, confirmed (promote m), released (promote m))) -> consistent s (with_memo e f).
Proof.
  intros Hk [] Hf. destruct (Hf (memo e)) as [Hp E]. injection E as E1 E2 E3. constructor; rewrite ?memo_with, ?E1, ?E2, ?E3, ?Hp; auto.
  intros H. destruct (sn_attempted0 H) as [->|[->|]]; [done|apply orb_true_r|done].
Qed.

Lemma rollback_last o s : last s = Some o -> PO_Kind o = PromoteAborted -> PO_Terminal o = None -> rollback_ok s = true.
Proof. intros H Hk Ht. unfold rollback_ok. rewrite H, Hk, Ht. apply orb_true_r. Qed.

Lemma applyPromoteOutcome_ok o s e : seen o s e -> ok (applyPromoteOutcome fg pf o) s e.
Proof.
  intros Hs. pose proof (sn_written _ _ _ Hs) as Hw. unfold ok, applyPromoteOutcome. apply ewp_bind, ewp_set. unfold warn. apply ewp_bind, ewp_set.
  destruct (PO_Kind o) eqn:Ek.
  - apply ewp_bind, ewp_call. intros now. cbn [allow]. apply ewp_bind, ewp_set, ewp_ret. destruct Hs.
    constructor; cbn [ended attempted proven]; rewrite ?memo_with; auto; cbn. intros _. rewrite (sn_confirmed0 Ek). done.
  - match goal with |- ewp _ s (with_memo (with_memo e ?f) ?g) _ => set (e1 := with_memo (with_memo e f) g) end.
    assert (consistent s e1) as H1.
    { apply consistent_with; [intros m; split; [done|by left]|]. apply (seen_consistent o); [congruence|done|]. by intros m. }
    destruct (PO_Terminal o) as [t|] eqn:Et; [destruct t; solve [by apply finish_ok | by apply endManualRecovery_ok]|].
    apply toRollingBack_ok; auto. intros _. destruct (sn_last _ _ _ Hs) as [|Hl]; [congruence|]. by eapply rollback_last.
  - match goal with |- ewp _ s (with_memo (with_memo e ?f) ?g) _ => set (e1 := with_memo (with_memo e f) g) end.
    assert (consistent s e1) as H1.
    { apply consistent_with; [intros m; split; [done|by left]|]. apply (seen_consistent o); [congruence|done|]. by intros m. }
    apply ewp_quiet; [quiet|done|]. intros s2 now e2 L2 H2. apply ewp_bind.
    eapply ewp_mono; [by apply quiet_target_lost|]. intros s3 lost e3 [L3 H3]. apply ewp_quiet; [quiet|done|]. intros s4 now' e4 L4 H4.
    assert (written s4 = false) as Hw4 by (by rewrite (lt_written _ _ L4), (lt_written _ _ L3), (lt_written _ _ L2)).
    destruct (_ && _); [by apply ewp_ret|]. apply ewp_bind, ewp_memo. destruct (_ || MayHaveWritten o) eqn:Em; [by apply finish_ok|].
    apply orb_false_iff in Em as [Em _].
    assert (rollback_ok s4 = true) as Hr.
    { unfold rollback_ok. destruct (attempted s4) eqn:Ea; [|by rewrite orb_true_r]. pose proof (cs_attempted _ _ H4 Ea). congruence. }
    by destruct lost; apply toRollingBack_ok.
  - match goal with |- ewp _ s (with_memo (with_memo e ?f) ?g) _ => set (e1 := with_memo (with_memo e f) g) end.
    assert (consistent s e1) as H1.
    { apply consistent_with; [intros m; split; [done|by left]|]. apply (seen_consistent o); [congruence|done|]. by intros m. }
    apply ewp_bind. destruct (RollbackIfUnrecorded o) eqn:Er.
    + apply ewp_bind, ewp_call. intros now. cbn [allow]. apply ewp_ret. set (s2 := _ <| unrecorded := _ |>).
      assert (later s s2) as L2 by (constructor; cbn; auto; by intros ->).
      assert (consistent s2 e1) as H2 by (destruct H1; constructor; cbn; auto; intros Hc; by rewrite (cs_proven0 Hc)).
      destruct (negb (plannedOwnRecordDurable fg pf now)) eqn:Eu; [|by apply endManualRecovery_ok]. apply toRollingBack_ok; auto.
      intros _. unfold rollback_ok. cbn. destruct (sn_last _ _ _ Hs) as [|Hl]; [congruence|].
      rewrite Hl, Ek, Er. cbn. rewrite orb_true_r. apply orb_true_r.
    + apply ewp_ret. by apply endManualRecovery_ok.
Qed.

Lemma consistent_reproved s e b : consistent s e -> consistent (s <| reproved := b |>) e.
Proof. by intros []. Qed.

Lemma seen_reproved o s e b : seen o s e -> seen o (s <| reproved := b |>) e.
Proof. by intros []. Qed.

(** Facts at the head of a step: nothing written, and what the memory says is so. *)
Definition ready (s : ghost) (e : engine) : Prop := written s = false /\ consistent s e.

Lemma ready_later s s' e' : later s s' -> written s = false -> consistent s' e' -> ready s' e'.
Proof. intros L Hw H. split; [by rewrite (lt_written _ _ L)|done]. Qed.

Lemma reprove_ok s e : ready s e -> ok (reprove fg pf) s e.
Proof.
  intros [Hw H]. unfold ok, reprove. apply ewp_bind, ewp_call. intros r. cbn [allow]. unfold for_run. rewrite bool_decide_true, Hw by done. cbn [check andb negb].
  destruct r as [r|[]]; try (by apply ewp_ret); try by apply managerAbsent_ok. 2: by apply endSiteRemoved_ok.
  set (b := SourceUnreachable r || bool_decide (is_Some (RR_RollBack r))). pose proof (consistent_reproved s e b H) as H'.
  unfold handed_off. destruct (SourceUnreachable r) eqn:Es; cbn [orb].
  - eapply ewp_quiet; [by apply quiet_source_lost|exact H'|]. intros s1 lost e1 L1 H1. destruct lost; [|by apply ewp_ret].
    apply toRollingBack_ok; [by rewrite (lt_written _ _ L1)|done| |done]. intros _. eapply later_rollback; [exact L1|]. by unfold rollback_ok.
  - destruct (RR_OK r); [eapply ewp_quiet; [quiet|exact H'|]; intros; by apply ewp_ret|].
    destruct (RR_Hold r) as [h|] eqn:Eh.
    { eapply ewp_quiet; [quiet|exact H'|]. intros s1 ? e1 L1 H1. apply endManualRecovery_ok; [by rewrite (lt_written _ _ L1)|done]. }
    destruct (RR_RollBack r) as [rb|] eqn:Er.
    { eapply ewp_quiet; [quiet|exact H'|]. intros s1 ? e1 L1 H1. apply toRollingBack_ok; [by rewrite (lt_written _ _ L1)|done| |done].
      intros _. eapply later_rollback; [exact L1|]. unfold rollback_ok, b. by rewrite bool_decide_true by eauto. }
    destruct (RR_HandOff r) as [o|].
    + apply ewp_bind, ewp_set. apply applyPromoteOutcome_ok. pose proof (seen_outcome o _ _ Hw H) as S. destruct S.
      constructor; rewrite ?memo_with; auto.
    + eapply ewp_quiet; [quiet|exact H'|]. intros. by apply ewp_ret.
Qed.

Lemma facadeErr_ok err s e : ready s e ->
  ewp (facadeErr fg pf err) s e (fun s' d e' => match d with Some _ => consistent s' e' | None => s' = s /\ e' = e end).
Proof.
  intros [Hw H]. unfold facadeErr. destruct err as [[]|]; try (by apply ewp_ret).
  - apply ewp_bind. eapply ewp_mono; [by apply managerAbsent_ok|]. intros s1 d e1 H1. by apply ewp_ret.
  - apply ewp_bind. eapply ewp_mono; [by apply reprove_ok|]. intros s1 d e1 H1. by apply ewp_ret.
  - apply ewp_bind. eapply ewp_mono; [by apply endSiteRemoved_ok|]. intros s1 d e1 H1. by apply ewp_ret.
Qed.

Lemma unless_ok {A} (a : A) k s e : ok (k (Some a)) s e -> ok (unless_handled fg pf (Ok a) k) s e.
Proof. intros H. exact H. Qed.

Lemma unless_err {A} err (k : option A -> eng Z) s e : ready s e -> ok (k None) s e -> ok (unless_handled fg pf (Err err) k) s e.
Proof.
  intros Hr Hk. unfold ok, unless_handled. apply ewp_bind. eapply ewp_mono; [by apply facadeErr_ok|]. intros s1 [d|] e1 H1; [by apply ewp_ret|].
  by destruct H1 as [-> ->].
Qed.

Lemma unless_both {A} (r : res facade_error A) k s e : ready s e -> (forall o, ok (k o) s e) -> ok (unless_handled fg pf r k) s e.
Proof. intros Hr Hk. destruct r; [by apply unless_ok|by apply unless_err]. Qed.

(** ** The steps *)

Definition acting (s : ghost) (e : engine) : Prop := claimed s = true /\ ready s e.

Lemma acting_may s e : acting s e -> may s = true.
Proof. intros [Hc [Hw _]]. unfold may. by rewrite Hc, Hw. Qed.

Lemma acting_later s s' e e' : acting s e -> later s s' -> consistent s' e' -> acting s' e'.
Proof. intros [Hc [Hw _]] L H. split; [by rewrite (lt_claimed _ _ L)|by eapply ready_later]. Qed.

Lemma for_run_self : for_run (plannedRunRef pf) = true.
Proof. by apply bool_decide_eq_true. Qed.

(** The rest of a step after something quiet, still acting. *)
Lemma act_quiet {A} (m : eng A) (k : A -> eng Z) s e : quiet m -> acting s e -> (forall s' a e', later s s' -> acting s' e' -> ok (k a) s' e') ->
  ok (ebind m k) s e.
Proof. intros Hm Ha Hk. apply ewp_quiet; [done|apply Ha|]. intros s1 a e1 L1 H1. apply Hk; [done|by eapply acting_later]. Qed.

Lemma act_rollback reason s e : Phase pf <> PlannedFailoverPhasePromoting -> acting s e -> ok (toRollingBack fg pf reason) s e.
Proof. intros Hp (_ & Hw & H). by apply toRollingBack_ok. Qed.

Lemma act_finish e0 s e : acting s e -> ok (finish fg pf e0) s e.
Proof. intros (_ & Hw & H). by apply finish_ok. Qed.

Lemma act_ret d s e : acting s e -> ok (eret d) s e.
Proof. intros (_ & _ & H). by apply ewp_ret. Qed.

(** A transition that keeps the run's identity, sites, baseline and settings. *)
Lemma act_advance g s e (k : commit_result -> eng unit) : acting s e ->
  (forall cur s1, later s s1 -> RunID cur = RunID pf -> Phase cur = Phase pf -> edit_ok s1 cur (g cur)) -> (forall r, quiet (k r)) ->
  ok (let^ r := advance fg pf (fun next => eret (g next)) in k r ;;* afterAdvance pf r) s e.
Proof.
  intros (_ & Hw & H) Hg Hk. apply advance_pure; [done..|]. intros r s1 e1 H1 P. by eapply advanced_ok.
Qed.

Lemma act_advance' g s e : acting s e ->
  (forall cur s1, later s s1 -> RunID cur = RunID pf -> Phase cur = Phase pf -> edit_ok s1 cur (g cur)) ->
  ok (let^ r := advance fg pf (fun next => eret (g next)) in afterAdvance pf r) s e.
Proof. intros (_ & Hw & H) Hg. apply advance_pure; [done..|]. intros r s1 e1 H1 P. by eapply advanced_ok'. Qed.

Ltac edits Hp := intros cur s' L' Ei Ep; repeat split; try done; rewrite ?Hp, ?Ep; done.

Lemma fencingStep_ok s e : Phase pf = PlannedFailoverPhaseFencing -> acting s e -> ok (fencingStep fg pf) s e.
Proof.
  intros Hp Ha. assert (Phase pf <> PlannedFailoverPhasePromoting) as Hn by by rewrite Hp. unfold fencingStep.
  destruct (Fence pf) as [f|] eqn:Ef; [|by apply act_finish]. unfold ok. apply ewp_bind, ewp_memo. apply ewp_bind.
  assert (ewp (if sent (Engine.fence (memo e)) then ecall (ProveFence (plannedRunRef pf) f) else ecall (FenceSource (plannedRunRef pf) (SourceServerUUID f)))
    s e (fun s' _ e' => s' = s /\ e' = e)) as Hcall.
  { destruct (sent _); [refine (ewp_call (ProveFence _ _) _ _ _ _)|refine (ewp_call (FenceSource _ _) _ _ _ _)]; intros x; cbn;
      rewrite (acting_may _ _ Ha), for_run_self, ?Ef; unfold in_phase; rewrite !bool_decide_true by done; done. }
  eapply ewp_mono; [exact Hcall|]. intros s1 r e1 [-> ->]. apply unless_both; [apply Ha|]. intros proof.
  set (p := default _ proof). clearbody p. apply act_quiet; [quiet|done|]. intros s2 _ e2 _ A2. apply act_quiet; [quiet|done|]. intros s3 _ e3 _ A3.
  apply act_quiet; [quiet|done|]. intros s4 now e4 _ A4. apply act_quiet; [quiet|done|]. intros s5 _ e5 _ A5.
  apply act_quiet; [quiet|done|]. intros s6 _ e6 _ A6. destruct (FP_Kind p).
  - apply act_quiet; [quiet|done|]. intros s7 _ e7 _ A7. apply act_quiet; [quiet|done|]. intros s8 now' e8 _ A8.
    apply act_advance; [done| |intros; quiet]. edits Hp.
  - destruct (SourceWritable p); by apply act_finish.
  - by apply act_rollback.
  - by apply act_finish.
  - destruct (negb _); [by apply act_rollback|by apply act_ret].
  - apply act_quiet; [quiet|done|]. intros s7 lost e7 _ A7. destruct lost; [by apply act_rollback|by apply act_ret].
Qed.

Lemma drain_done_ok remaining b s e : Phase pf = PlannedFailoverPhaseDraining -> acting s e -> ok (drain_done fg pf remaining b) s e.
Proof.
  intros Hp Ha. assert (Phase pf <> PlannedFailoverPhasePromoting) as Hn by by rewrite Hp. unfold drain_done.
  apply act_quiet; [quiet|done|]. intros s1 lost e1 _ A1. destruct lost; [by apply act_rollback|].
  apply act_quiet; [quiet|done|]. intros s2 start e2 _ A2. apply act_quiet; [quiet|done|]. intros s3 now e3 _ A3.
  destruct (_ && _); [by apply act_ret|]. apply act_quiet; [quiet|done|]. intros s4 now' e4 _ A4. apply act_advance'; [done|]. edits Hp.
Qed.

Lemma drainingStep_ok s e : Phase pf = PlannedFailoverPhaseDraining -> acting s e -> ok (drainingStep fg pf) s e.
Proof.
  intros Hp Ha. unfold ok, drainingStep. apply ewp_bind, ewp_call. intros r. cbn [allow]. unfold in_phase.
  rewrite (acting_may _ _ Ha), for_run_self, bool_decide_true by done. cbn [check andb]. apply unless_both; [apply Ha|]. intros [n|].
  - by apply drain_done_ok.
  - apply act_quiet; [quiet|done|]. intros s1 p e1 _ A1. apply unless_both; [apply A1|]. intros probe. by apply drain_done_ok.
Qed.

Definition before_promoting : Prop :=
  Phase pf = PlannedFailoverPhaseWaitingForLag \/ Phase pf = PlannedFailoverPhaseWaitingForDragonflySync \/ Phase pf = PlannedFailoverPhasePromotingDragonfly.

Lemma before_not : before_promoting -> Phase pf <> PlannedFailoverPhasePromoting.
Proof. by intros [-> | [-> | ->]]. Qed.

(** An edit of the block's other records. *)
Definition tame (edit : Run -> Run) : Prop := forall r, (RunID (edit r), Revision (edit r), TargetSite (edit r), SourceSite (edit r), ClaimBaseline (edit r), RunSettings (edit r))
  = (RunID r, Revision r, TargetSite r, SourceSite r, ClaimBaseline r, RunSettings r).

Lemma enterPromoting_ok edit s e : before_promoting -> tame edit -> acting s e -> ok (enterPromoting fg pf edit) s e.
Proof.
  intros Hb Ht Ha. pose proof (before_not Hb) as Hn. unfold ok, enterPromoting. apply ewp_bind, ewp_call. intros r. cbn [allow]. unfold in_phase.
  assert (bool_decide (Phase pf = PlannedFailoverPhaseWaitingForLag) || bool_decide (Phase pf = PlannedFailoverPhaseWaitingForDragonflySync)
          || bool_decide (Phase pf = PlannedFailoverPhasePromotingDragonfly) = true) as Hph by (by destruct Hb as [-> | [-> | ->]]).
  rewrite (acting_may _ _ Ha), for_run_self, Hph. cbn [check andb].
  assert (forall b, (b = true -> attempted s = true) -> acting (s <| attempted := b |>) e) as Hset.
  { intros b Hb'. destruct Ha as (? & ? & []). split; [done|]. split; [done|]. constructor; cbn; auto. }
  assert (forall s, acting s e -> ok (let^ m := runMemo (RunID pf) in
      let^ r := lossWindow (targetIdentityLossSince m) false in
      set_memo (RunID pf) (fun m => m <| targetIdentityLossSince := r.1 |>) ;;*
      if r.2 : bool then toRollingBack fg pf "TargetLost" else eret plannedRequeuePoll) s e) as Hlost.
  { intros s0 A0. apply act_quiet; [quiet|done|]. intros s1 m e1 _ A1. apply act_quiet; [quiet|done|]. intros s2 w e2 _ A2.
    apply act_quiet; [quiet|done|]. intros s3 _ e3 _ A3. destruct w.2; [by apply act_rollback|by apply act_ret]. }
  destruct r as [uuid|err].
  2: { apply unless_err; [by apply (Hset (attempted s))|]. cbn. by apply Hlost, (Hset (attempted s)). }
  clear Hph. apply unless_ok. change (default "" (Some uuid)) with uuid.
  destruct (decide (uuid = "")) as [Eu|Eu]; [rewrite !(bool_decide_true (uuid = "")) by done|rewrite !(bool_decide_false (uuid = "")) by done];
    cbn [andb]; [by apply Hlost, (Hset (attempted s))|].
  specialize (Hset false ltac:(done)). apply act_quiet; [quiet|done|]. intros s1 _ e1 L1 A1. apply act_quiet; [quiet|done|]. intros s2 now e2 L2 A2.
  unfold ok. apply ewp_bind, ewp_set. apply act_advance'.
  - destruct A2 as (? & ? & []). split; [done|]. split; [done|]. constructor; rewrite ?memo_with; auto; cbn.
    + rewrite (lt_attempted _ _ L2), (lt_attempted _ _ L1). done.
    + by intros [|].
  - intros cur s' L' Ei Ep. specialize (Ht cur). injection Ht as E1 E2 E3 E4 E5 E6. repeat split; cbn; try done; try congruence.
    by destruct Hb as [-> | [-> | ->]].
Qed.

Lemma lag_done_ok probe s e : Phase pf = PlannedFailoverPhaseWaitingForLag -> acting s e -> ok (lag_done fg pf probe) s e.
Proof.
  intros Hp Ha. assert (before_promoting) as Hb by (by left). pose proof (before_not Hb) as Hn. unfold lag_done.
  apply act_quiet; [quiet|done|]. intros s1 lost e1 _ A1. destruct lost; [by apply act_rollback|].
  apply act_quiet; [quiet|done|]. intros s2 lost e2 _ A2. destruct lost; [by apply act_rollback|]. destruct (Divergent probe); [by apply act_rollback|].
  apply act_quiet; [quiet|done|]. intros s3 start e3 _ A3. apply act_quiet; [quiet|done|]. intros s4 now e4 _ A4.
  assert (forall d elapsed b (s : ghost) e, consistent s e -> ok (observe pf elapsed b ;;* eret d) s e) as Hobs.
  { intros d el b s' e' H'. unfold ok. apply ewp_quiet; [quiet|done|]. intros. by apply ewp_ret. }
  destruct (CaughtUp probe).
  - apply act_quiet; [quiet|done|]. intros s5 now' e5 _ A5. destruct (Settings_Dragonfly _).
    + apply advance_pure; [apply A5|edits Hp|]. intros r s6 e6 H6 P. apply ewp_quiet; [quiet|done|]. intros s7 _ e7 L7 H7.
      apply ewp_quiet; [quiet|done|]. intros s8 _ e8 L8 H8. apply afterAdvance_ok; [|done]. intros Hs.
      rewrite (lt_written _ _ L8), (lt_written _ _ L7), (commit_post_stalled _ _ _ _ P Hs). apply A5.
    + unfold ok. apply ewp_bind. eapply ewp_mono; [by apply enterPromoting_ok|]. intros s6 d e6 H6.
      apply ewp_quiet; [quiet|done|]. intros s7 _ e7 L7 H7. apply ewp_quiet; [quiet|done|]. intros. by apply ewp_ret.
  - destruct (_ >=? _); [|by apply act_ret]. unfold ok. apply ewp_bind. eapply ewp_mono; [by apply act_rollback|]. intros s6 d e6 H6. by apply Hobs.
Qed.

Lemma lagStep_ok s e : Phase pf = PlannedFailoverPhaseWaitingForLag -> acting s e -> ok (lagStep fg pf) s e.
Proof.
  intros Hp Ha. unfold lagStep. destruct (GTID.ParseGTIDSet _); [|apply act_rollback; [by rewrite Hp|done]].
  apply act_quiet; [quiet|done|]. intros s1 r e1 _ A1. apply unless_both; [apply A1|]. intros o. by apply lag_done_ok.
Qed.

Lemma lossCheck_ok k s e : Phase pf <> PlannedFailoverPhasePromoting -> acting s e -> (forall s' e', acting s' e' -> ok k s' e') ->
  ok (dragonflyLossCheck fg pf k) s e.
Proof.
  intros Hn Ha Hk. unfold dragonflyLossCheck. apply act_quiet; [quiet|done|]. intros s1 r e1 _ A1. apply unless_both; [apply A1|]. intros o.
  apply act_quiet; [quiet|done|]. intros s2 lost e2 _ A2. destruct lost; [by apply act_rollback|].
  apply act_quiet; [quiet|done|]. intros s3 lost e3 _ A3. destruct lost; [by apply act_rollback|].
  destruct (Divergent _); [by apply act_rollback|by apply Hk].
Qed.

Lemma skip_ok s e : before_promoting -> acting s e -> ok (skipDragonfly fg pf) s e.
Proof. intros Hb Ha. by apply enterPromoting_ok. Qed.

Lemma syncTimeout_ok elapsed s e : Phase pf = PlannedFailoverPhaseWaitingForDragonflySync -> acting s e -> ok (dragonflySyncTimeout fg pf elapsed) s e.
Proof.
  intros Hp Ha. assert (Phase pf <> PlannedFailoverPhasePromoting) as Hn by by rewrite Hp. unfold dragonflySyncTimeout.
  apply act_quiet; [quiet|done|]. intros s1 _ e1 _ A1.
  assert (ok (let^ tk := newTakeoverIntent (RunID pf) in
      let^ r := advance fg pf (fun next =>
        eret (next <| Phase := PlannedFailoverPhasePromotingDragonfly |>
                   <| RunDragonfly := Some (plannedDragonflyBlock next <| SyncWaitSeconds := Some (seconds elapsed) |> <| D_Sessions := SessionsLost |>
                        <| D_Reason := "DragonflySyncTimeout" |> <| Takeover := Some tk |> <| GateWaiting := false |>) |>)) in
      afterAdvance pf r) s1 e1) as Hgo.
  { apply act_quiet; [quiet|done|]. intros s2 tk e2 _ A2. apply act_advance'; [done|]. edits Hp. }
  destruct (Settings_Dragonfly _) as [[w []]|]; [by apply act_rollback|exact Hgo..].
Qed.

Lemma capture_ok s e : Phase pf = PlannedFailoverPhaseWaitingForDragonflySync -> acting s e -> ok (capture_offset fg pf) s e.
Proof.
  intros Hp Ha. unfold capture_offset. apply act_quiet; [quiet|done|]. intros s1 offset e1 _ A1. unfold ok. apply ewp_bind.
  eapply ewp_mono; [apply advance_ok; [apply A1|]|].
  - intros cur s2 e2 L2 H2 Ei Ep. apply ewp_quiet; [|done|].
    { destruct (SyncWaitStartTime _); quiet. }
    intros s3 d e3 L3 H3. apply ewp_ret. split_and!; [done..|]. repeat split; try done; cbn; rewrite ?Ep, ?Hp; try done; unfold plannedFailoverTerminal; cbn; by rewrite Ep, Hp.
  - intros s2 r e2 [H2 P]. eapply advanced_ok'; [|exact P|done]. apply A1.
Qed.

Lemma dragonflySyncStep_ok s e : Phase pf = PlannedFailoverPhaseWaitingForDragonflySync -> acting s e -> ok (dragonflySyncStep fg pf) s e.
Proof.
  intros Hp Ha. assert (before_promoting) as Hb by (by right; left). pose proof (before_not Hb) as Hn. apply lossCheck_ok; [done..|].
  intros s1 e1 A1. apply act_quiet; [quiet|done|]. intros s2 has e2 _ A2. destruct (Settings_Dragonfly _) as [df|]; [|by apply skip_ok].
  destruct (_ || _); [by apply skip_ok|].
  assert (forall d, ok (let^ start := ecall Now in
              let start := default start (SyncWaitStartTime d) in
              let^ now := ecall Now in
              let elapsed := time_sub now start in
              match SourceOffsetState d with
              | OffsetUnavailable => dragonflySyncTimeout fg pf elapsed
              | _ =>
                  let^ ready := ecall (TargetSyncReady fg (TargetSite pf) (default 0 (SourceOffset d))) in
                  match ready : option bool with
                  | Some true =>
                      let^ tk := newTakeoverIntent (RunID pf) in
                      let^ r := advance fg pf (fun next =>
                        eret (next <| Phase := PlannedFailoverPhasePromotingDragonfly |>
                                   <| RunDragonfly := Some (plannedDragonflyBlock next <| SyncWaitSeconds := Some (seconds elapsed) |>
                                        <| Takeover := Some tk |> <| GateWaiting := false |>) |>)) in
                      afterAdvance pf r
                  | _ => if elapsed >=? MaxSyncWait df then dragonflySyncTimeout fg pf elapsed else eret dragonflySyncPollInterval
                  end
              end) s2 e2) as Hgo.
  { intros d. apply act_quiet; [quiet|done|]. intros s3 start e3 _ A3. apply act_quiet; [quiet|done|]. intros s4 now e4 _ A4. cbv zeta.
    destruct (SourceOffsetState d); try (by apply syncTimeout_ok);
    (apply act_quiet; [quiet|done|]; intros s5 rd e5 _ A5;
     assert (forall b : bool, ok (if b then dragonflySyncTimeout fg pf (time_sub now (default start (SyncWaitStartTime d))) else eret dragonflySyncPollInterval) s5 e5)
       as Hto by (intros []; [by apply syncTimeout_ok|by apply act_ret]);
     destruct rd as [[]|]; try (by apply Hto); apply act_quiet; [quiet|done|]; intros s6 tk e6 _ A6; apply act_advance'; [done|]; edits Hp). }
  destruct (RunDragonfly pf) as [[st [] off sw tk ss dr gw]|]; try (by apply capture_ok); by apply Hgo.
Qed.

Lemma recordTakeover_ok o s e : Phase pf = PlannedFailoverPhasePromotingDragonfly -> acting s e -> ok (recordTakeoverOutcome fg pf o) s e.
Proof.
  intros Hp Ha. unfold recordTakeoverOutcome. apply (advance_pure (fun next => if _ : bool then _ else _)); [apply Ha| |].
  - intros cur s1 L1 Ei Ep.
    assert (Phase (applyTo o cur) = Phase cur) as Eph by done.
    destruct (_ && _); repeat split; cbn; try done; try congruence; rewrite ?Eph, ?Ep, ?Hp; try done; unfold plannedFailoverTerminal; by rewrite Eph, Ep, Hp.
  - intros r s1 e1 H1 P. eapply advanced_ok; [apply Ha|exact P|done|]. destruct (committed r); quiet.
Qed.

Lemma gateWait_ok s e : Phase pf = PlannedFailoverPhasePromotingDragonfly -> acting s e -> ok (noteDragonflyGateWait fg pf) s e.
Proof.
  intros Hp Ha. unfold noteDragonflyGateWait.
  assert (ok (let^ r := advance fg pf (fun next => eret (next <| RunDragonfly := Some (plannedDragonflyBlock next <| GateWaiting := true |>) |>)) in
      event_if (committed r) "DragonflyPromotionWaiting" ;;* eret dragonflyGateRetry) s e) as Hgo.
  { apply advance_pure; [apply Ha| |].
    - intros cur s1 L1 Ei Ep. repeat split; cbn; try done; rewrite ?Ep, ?Hp; try done; unfold plannedFailoverTerminal; cbn; by rewrite Ep, Hp.
    - intros r s1 e1 H1 P. apply ewp_quiet; [quiet|done|]. intros. by apply ewp_ret. }
  destruct (RunDragonfly pf) as [[st so off sw tk ss dr []]|]; try exact Hgo. by apply act_ret.
Qed.

Lemma takeover_result_ok b r s e : Phase pf = PlannedFailoverPhasePromotingDragonfly -> acting s e -> ok (takeover_result fg pf b r) s e.
Proof.
  intros Hp Ha.
  assert (forall succeeded offset s e, acting s e -> ok (let^ now := ecall Now in
    let o := {| TO_succeeded := succeeded; TO_targetOffset := offset; TO_at := now |} in
    set_memo (RunID pf) (fun m => m <| dragonfly := dragonfly m <| outcome := Some o |> |>) ;;* recordTakeoverOutcome fg pf o) s e) as Hrec.
  { intros su off s0 e0 A0. apply act_quiet; [quiet|done|]. intros s1 now e1 _ A1. apply act_quiet; [quiet|done|]. intros s2 _ e2 _ A2. by apply recordTakeover_ok. }
  unfold takeover_result. destruct r as [res|[| |err]]; [by apply Hrec|destruct b; [by apply Hrec|by apply gateWait_ok]|by apply act_ret|].
  apply unless_err; [apply Ha|]. by apply Hrec.
Qed.

Lemma dragonflyTakeoverStep_ok s e : Phase pf = PlannedFailoverPhasePromotingDragonfly -> acting s e -> ok (dragonflyTakeoverStep fg pf) s e.
Proof.
  intros Hp Ha. assert (before_promoting) as Hb by (by right; right). pose proof (before_not Hb) as Hn. unfold dragonflyTakeoverStep.
  apply act_quiet; [destruct (match RunDragonfly pf with Some d => Takeover d | None => None end); quiet|done|]. intros s1 _ e1 _ A1.
  apply act_quiet; [quiet|done|]. intros s2 m e2 _ A2. set (tk := match RunDragonfly pf with Some d => Takeover d | None => None end).
  match goal with |- ok (match ?i with true => match ?o with Some o => recordTakeoverOutcome fg pf o | None => ?k end | false => _ end) _ _ =>
    enough (ok k s2 e2) as Hgo by (destruct i; [destruct o; [by apply recordTakeover_ok|exact Hgo]|exact Hgo]) end.
  apply lossCheck_ok; [done..|]. intros s3 e3 A3. apply act_quiet; [quiet|done|]. intros s4 has e4 _ A4. destruct (_ || _); [by apply skip_ok|].
  destruct tk as [tk|].
  2: { apply act_quiet; [quiet|done|]. intros s5 tk e5 _ A5. apply act_advance'; [done|]. intros cur s' L' Ei Ep.
       repeat split; cbn; try done; rewrite ?Ep, ?Hp; try done; unfold plannedFailoverTerminal; cbn; by rewrite Ep, Hp. }
  destruct (negb _); [by apply enterPromoting_ok|]. unfold ok. apply ewp_bind, ewp_call. intros guard. cbn [allow].
  rewrite for_run_self. cbn [check]. assert (forall b, acting (s4 <| guarded := b |>) e4) as Hg.
  { intros b. destruct A4 as (? & ? & []). done. }
  destruct guard as [err|]; [by apply unless_err; [apply (Hg false)|apply act_ret]|]. specialize (Hg true).
  apply act_quiet; [quiet|done|]. intros s5 now e5 L5 A5. apply act_quiet; [quiet|done|]. intros s6 m' e6 L6 A6. unfold ok. apply ewp_bind.
  assert (guarded s6 = true) as Hgd by (by rewrite (lt_guarded _ _ L6), (lt_guarded _ _ L5)).
  match goal with |- ewp (if ?b then _ else _) _ _ _ => assert (ewp (if b then ecall (DragonflyAbandon fg pf) else ecall (DragonflyTakeover fg pf))
    s6 e6 (fun s' _ e' => s' = s6 /\ e' = e6)) as Hcall end.
  { destruct (_ || _); [refine (ewp_call (DragonflyAbandon _ _) _ _ _ _)|refine (ewp_call (DragonflyTakeover _ _) _ _ _ _)]; intros x; cbn;
    unfold in_phase; rewrite (acting_may _ _ A6), Hgd, for_run_self, bool_decide_true by done; done. }
  eapply ewp_mono; [exact Hcall|]. intros s7 r e7 [-> ->]. by apply takeover_result_ok.
Qed.

(** ** Promoting *)

Definition proved (s : ghost) (e : engine) : Prop := proven s = true /\ ready s e.

Lemma proved_later s s' e e' : proved s e -> later s s' -> consistent s' e' -> proved s' e'.
Proof. intros [Hp [Hw _]] L H. split; [by apply (lt_proven _ _ L)|by eapply ready_later]. Qed.

Lemma proved_quiet {A} (m : eng A) (k : A -> eng Z) s e : quiet m -> proved s e -> (forall s' a e', later s s' -> proved s' e' -> ok (k a) s' e') ->
  ok (ebind m k) s e.
Proof. intros Hm Ha Hk. apply ewp_quiet; [done|apply Ha|]. intros s1 a e1 L1 H1. apply Hk; [done|by eapply proved_later]. Qed.

(** A proven promotion's memory may say so. *)
Lemma proved_set f k s e : proved s e -> (forall m, mayHaveWritten (promote (f m)) = mayHaveWritten (promote m) /\ pendingTerminal (f m) = pendingTerminal m) ->
  (forall e', proved s e' -> ok k s e') -> ok (set_memo (RunID pf) f ;;* k) s e.
Proof.
  intros [Hp [Hw []]] Hf Hk. unfold ok. apply ewp_bind, ewp_set. destruct (Hf (memo e)) as [E1 E2]. apply Hk. split; [done|]. split; [done|].
  constructor; rewrite ?memo_with, ?E1, ?E2; auto.
Qed.

Lemma writePublishing_ok s e : Phase pf = PlannedFailoverPhasePromoting -> proved s e -> ok (writePublishing fg pf) s e.
Proof.
  intros Hp Ha. unfold writePublishing. apply proved_quiet; [quiet|done|]. intros s1 m e1 L1 A1. apply advance_pure; [apply A1| |].
  - intros cur s2 L2 Ei Ep. repeat split; cbn; try done; rewrite ?Hp; try done. intros _. apply (lt_proven _ _ L2). exact (proj1 A1).
  - intros r s2 e2 H2 P. destruct (committed r); [by apply ewp_ret|]. eapply advanced_ok'; [|exact P|done]. apply A1.
Qed.

Lemma confirm_ok n : forall base at_ s e, proved s e ->
  ewp (confirm_attempts n base (RunID pf) at_) s e (fun s' b e' => proved s' e' /\ (b = true -> confirmation s' = true)).
Proof.
  induction n as [|n IH]; intros base at_ s e Ha; cbn [confirm_attempts]; [by apply ewp_ret|]. apply ewp_bind, ewp_call. intros [start out].
  cbn. rewrite bool_decide_true by done. destruct Ha as [Hp [Hw H]]. rewrite Hp. cbn. destruct out; try (by apply ewp_ret).
  - apply ewp_ret. split; [|done]. split; [done|]. split; [done|]. by destruct H.
  - apply ewp_quiet; [quiet|done|]. intros s1 fresh e1 L1 H1. assert (proved s1 e1) as A1 by (eapply proved_later; [by split|done..]).
    destruct fresh; [by apply IH|by apply ewp_ret].
Qed.

Lemma tail_release_ok k s e : proved s e -> (forall s e, proved s e -> ok k s e) -> ok (tail_release fg pf k) s e.
Proof.
  intros Ha Hk. unfold tail_release. apply proved_quiet; [quiet|done|]. intros s1 m e1 L1 A1. destruct (released _); [by apply Hk|].
  unfold ok. apply ewp_bind. eapply ewp_mono; [by apply confirm_ok|]. intros s2 okb e2 [A2 Hc]. destruct okb; [|by apply ewp_ret; apply A2].
  apply ewp_bind. eapply ewp_mono; [apply release_ok; [apply A2|done|right; split; [done|left; auto]]|]. intros s3 ? e3 [-> H3].
  destruct A2 as [Hp2 [Hw2 _]]. apply proved_set; [by split|done|]. intros e4 A4. by apply Hk.
Qed.

Lemma tail_dns_ok k s e : proved s e -> (forall s e, proved s e -> ok k s e) -> ok (tail_dns fg pf k) s e.
Proof.
  intros Ha Hk. unfold tail_dns. apply proved_quiet; [quiet|done|]. intros s1 m e1 L1 A1. destruct (dns _); [by apply Hk|].
  unfold ok. apply ewp_bind, ewp_call. intros r. cbn [allow]. unfold of_run. cbn. destruct A1 as [Hp [Hw H1]].
  rewrite bool_decide_true, Hp, Hw by done. cbn. apply unless_both; [by split|]. intros o. apply proved_quiet; [quiet|by split|].
  intros s2 now e2 L2 A2. apply proved_quiet; [destruct o as [[]|]; quiet|done|]. intros s3 ? e3 L3 A3. apply proved_set; [done|done|].
  intros e4 A4. by apply Hk.
Qed.

Lemma tail_record_ok k s e : proved s e -> (forall s e, proved s e -> ok k s e) -> ok (tail_record fg pf k) s e.
Proof.
  intros Ha Hk. unfold tail_record. apply proved_quiet; [quiet|done|]. intros s1 m e1 L1 A1. destruct (recorded _); [by apply Hk|].
  apply proved_quiet; [quiet|done|]. intros s2 now e2 L2 A2. destruct (negb _); [apply endManualRecovery_ok; apply A2|].
  unfold ok. apply ewp_bind, ewp_call. intros err. cbn [allow]. unfold of_run. cbn. destruct A2 as [Hp [Hw H2]].
  rewrite bool_decide_true, Hp, Hw by done. cbn. apply ewp_bind. eapply ewp_mono; [by apply facadeErr_ok; split|].
  intros s3 d e3 H3. destruct d as [d|]; [by apply ewp_ret|]. destruct H3 as [-> ->]. destruct err; [by apply ewp_ret|].
  apply proved_set; [by split|done|]. intros e4 A4. by apply Hk.
Qed.

Lemma confirmedTail_ok s e : Phase pf = PlannedFailoverPhasePromoting -> proved s e -> ok (confirmedTail fg pf) s e.
Proof.
  intros Hp Ha. apply tail_record_ok; [done|]. intros. apply tail_dns_ok; [done|]. intros. apply tail_release_ok; [done|]. intros.
  by apply writePublishing_ok.
Qed.

Lemma promotingStep_ok s e : Phase pf = PlannedFailoverPhasePromoting -> acting s e -> ok (promotingStep fg pf) s e.
Proof.
  intros Hp Ha. unfold ok, promotingStep. apply ewp_bind, ewp_memo. destruct Ha as [Hc [Hw H]]. destruct (confirmed (promote (memo e))) eqn:Ec.
  { apply confirmedTail_ok; [done|]. split; [apply (cs_proven _ _ H); by left|by split]. }
  apply ewp_bind, ewp_call. intros r. cbn [allow]. unfold in_phase. rewrite (acting_may s e), for_run_self, bool_decide_true by (done || by split).
  cbn [check andb]. destruct r as [o|err].
  - apply unless_ok. unfold ok. apply ewp_bind, ewp_memo. apply applyPromoteOutcome_ok. by apply seen_outcome.
  - apply unless_err; [by split|]. unfold ok. apply ewp_bind, ewp_memo. apply applyPromoteOutcome_ok. destruct H. constructor; cbn; auto; done.
Qed.

Lemma publishRecorded_ok s e : Phase pf = PlannedFailoverPhasePromoting -> proved s e -> ok (publishRecorded fg pf) s e.
Proof.
  intros Hp Ha. unfold publishRecorded. apply proved_quiet; [quiet|done|]. intros s1 m e1 L1 A1. destruct (released _); [by apply writePublishing_ok|].
  unfold ok. apply ewp_bind. apply ewp_bind. eapply ewp_mono; [apply quiet_call; [done|apply A1]|]. intros s2 now e2 [L2 H2].
  apply ewp_set. apply writePublishing_ok; [done|]. destruct (proved_later _ _ _ _ A1 L2 H2) as [Hpr [Hw2 []]].
  split; [done|]. split; [done|]. constructor; rewrite ?memo_with; auto.
Qed.

Lemma rollbackStep_ok s e : Phase pf = PlannedFailoverPhaseRollingBack -> acting s e -> ok (rollbackStep fg pf) s e.
Proof.
  intros Hp Ha. unfold rollbackStep. apply act_quiet; [quiet|done|]. intros s1 now e1 _ A1. unfold ok. apply ewp_bind, ewp_call. intros [res err].
  cbn [allow]. unfold in_phase. rewrite (acting_may _ _ A1), for_run_self, bool_decide_true by done. cbn [check andb]. apply ewp_bind.
  eapply ewp_mono; [apply facadeErr_ok; apply A1|]. intros s2 d e2 H2. destruct d as [d|]; [by apply ewp_ret|]. destruct H2 as [-> ->].
  assert (ok (warn (RunID pf) (RB_Warnings res) ;;* let^ now' := ecall Now in
     if negb (now' <? match RunRollback pf with Some rb => Rollback_IntentTime rb | None => now end + plannedFailoverRollbackDeadline)
     then finish fg pf (ending OutcomeSourceLeftFenced match RunRollback pf with Some rb => Rollback_Reason rb | None => "InternalError" end)
     else eret plannedRequeuePoll) s1 e1) as Hretry.
  { apply act_quiet; [quiet|done|]. intros s3 _ e3 _ A3. apply act_quiet; [quiet|done|]. intros s4 now' e4 _ A4.
    destruct (negb _); [by apply act_finish|by apply act_ret]. }
  destruct err; [exact Hretry|]. destruct (RB_Outcome res) as [o|]; [|exact Hretry].
  apply act_quiet; [quiet|done|]. intros s3 _ e3 _ A3. destruct o; by apply act_finish.
Qed.

(** ** A pass *)

Lemma step_of_ok s e : plannedFailoverOwnsSitesPhase (Phase pf) = true -> acting s e -> ok (step_of fg pf) s e.
Proof.
  intros Ho Ha. unfold step_of. remember (Phase pf) as p eqn:Ep in |- *. symmetry in Ep.
  destruct p; auto using act_ret, fencingStep_ok, drainingStep_ok, lagStep_ok, dragonflySyncStep_ok, dragonflyTakeoverStep_ok, promotingStep_ok,
    rollbackStep_ok.
Qed.

Lemma claimed_ok s e : plannedFailoverOwnsSitesPhase (Phase pf) = true -> ready s e -> ok (Steps.claimed fg pf) s e.
Proof.
  intros Ho [Hw H]. unfold ok, Steps.claimed. apply ewp_bind, ewp_call. intros r. cbn [allow]. rewrite for_run_self, Hw. cbn [check andb negb].
  assert (forall b, ready (s <| claimed := b |>) e) as Hr by (intros b; split; [done|by destruct H]).
  destruct r as [[|w|w]|err].
  - destruct (Hr true) as [Hw' H']. apply ewp_quiet; [quiet|done|]. intros s1 _ e1 L1 H1. apply step_of_ok; [done|].
    split; [by rewrite (lt_claimed _ _ L1)|by eapply ready_later].
  - destruct (Hr false). case_bool_decide; [by apply managerAbsent_ok|by apply ewp_ret].
  - destruct (Hr false). by apply endWithoutMySQL_ok.
  - destruct (Hr false). destruct err; try (by apply ewp_ret). by apply managerAbsent_ok.
Qed.

Lemma quiet_holds : quiet (holds_claim (RunID pf)).
Proof. unfold holds_claim. quiet. Qed.

Lemma claim_or_publish_ok s e : plannedFailoverOwnsSitesPhase (Phase pf) = true -> ready s e -> ok (claim_or_publish fg pf) s e.
Proof.
  intros Ho [Hw H]. unfold claim_or_publish. destruct (decide (Phase pf = PlannedFailoverPhasePromoting)) as [Hp|Hp];
    [rewrite bool_decide_true by done|rewrite bool_decide_false by done; by apply claimed_ok].
  unfold ok. apply ewp_quiet; [apply quiet_holds|done|]. intros s1 held e1 L1 H1. assert (ready s1 e1) as R1 by by eapply ready_later.
  apply ewp_bind. destruct held; [by apply ewp_ret, claimed_ok|]. apply ewp_bind, ewp_call. intros now. cbn [allow]. apply ewp_ret.
  set (s2 := _ <| unrecorded := _ |>). assert (consistent s2 e1) as H2.
  { destruct H1. constructor; cbn; auto. intros Hc. by rewrite (cs_proven0 Hc). }
  assert (ready s2 e1) as R2 by (split; [apply R1|done]). destruct (plannedPromotionRecorded fg pf now) eqn:Er; [|by apply claimed_ok].
  apply publishRecorded_ok; [done|]. split; [|done]. cbn. apply orb_true_r.
Qed.

Lemma retry_ok s e : RunID pf ∈ terminatedRuns e -> ready s e -> ok (retryTerminatedRun fg pf) s e.
Proof.
  intros Hin [Hw H]. pose proof (cs_ended _ _ H Hin) as He. unfold ok, retryTerminatedRun. apply ewp_bind, ewp_memo. apply ewp_bind.
  match goal with |- ewp ?m _ _ _ => assert (ewp m s e (fun s' n e' => later s s' /\ consistent s' e' /\ RunID n = RunID pf
    /\ plannedFailoverTerminal n = true /\ is_Some (RunResult n))) as Hfinal end.
  { assert (forall en, ewp (terminalRecord pf en) s e (fun s' n e' => later s s' /\ consistent s' e' /\ RunID n = RunID pf
      /\ plannedFailoverTerminal n = true /\ is_Some (RunResult n))) as Hlate.
    { intros en. eapply ewp_mono; [by apply terminalRecord_ok|]. intros s1 n e1 (L & C & Ei & _ & Ht & r & Hr & _). split_and!; [done..|by exists r]. }
    destruct (pendingTerminal (memo e)) as [p|] eqn:Ep; [|apply Hlate]. destruct (_ && _) eqn:Eb; [|apply Hlate].
    apply andb_true_iff in Eb as [Ei%bool_decide_eq_true _]. destruct (cs_pending _ _ H p Ep). apply ewp_ret. by split_and!; [apply later_refl|..]. }
  eapply ewp_mono; [exact Hfinal|]. intros s1 final e1 (L1 & H1 & Ei & Ht & r & Hr). pose proof (lt_ended _ _ L1 He) as He1. apply ewp_bind.
  match goal with |- ewp ?m _ _ _ => assert (ewp m s1 e1 (fun s' _ e' => s' = s1 /\ consistent s' e')) as Hrel end.
  { destruct (match RunResult final with Some _ => _ | None => _ end); [|apply release_ok; auto]. apply ewp_bind, ewp_call. intros x. cbn.
    by rewrite bool_decide_true, He1. }
  eapply ewp_mono; [exact Hrel|]. intros s2 ? e2 [-> H2]. apply ewp_bind. eapply ewp_mono; [apply (commit_ok (fun _ => True)); [done|]|].
  - intros base s3 e3 L3 H3. destruct (sameRun base pf []) as [cur|] eqn:Es; [|by apply ewp_ret; split_and!; [apply later_refl|..]].
    destruct (sameRun_Some _ _ _ Es) as (Er & Ec & _). destruct (plannedFailoverTerminal cur) eqn:Ect; [by apply ewp_ret; split_and!; [apply later_refl|..]|].
    apply ewp_bind. eapply ewp_mono; [apply terminalMutate_ok; [done|by exists r]|]. intros s4 mu e4 (L4 & H4 & Hm). apply ewp_ret.
    split_and!; [done..| |done]. apply (terminal_write_ok _ _ cur); [done|done|congruence|done|done|done|by exists r|done].
  - intros s3 res e3 [H3 P]. destruct (committed res); [|by apply ewp_ret]. apply ewp_bind. eapply ewp_mono; [apply sets_ok; [done|]|].
    { intros m. split; [done|by right]. } intros s4 ? e4 [-> H4]. by apply ewp_ret.
Qed.

Lemma claimPass_ok s e : plannedFailoverOwnsSitesPhase (Phase pf) = true -> ready s e -> ok (claimPass fg pf) s e.
Proof.
  intros Ho [Hw H]. unfold ok, claimPass. apply ewp_bind.
  apply swp_get.
  destruct (decide (RunID pf ∈ terminatedRuns e)) as [Hin|Hin];
    [rewrite bool_decide_true by done; by apply retry_ok|rewrite bool_decide_false by done]. apply ewp_bind, ewp_memo. destruct (_ && _) eqn:Eb; [|by apply claim_or_publish_ok].
  apply andb_true_iff in Eb as [Hp%bool_decide_eq_true Hrel]. assert (proven s = true) as Hpr by (apply (cs_proven _ _ H); by right).
  apply ewp_quiet; [apply quiet_holds|done|]. intros s1 held e1 L1 H1. pose proof (lt_proven _ _ L1 Hpr) as Hpr1.
  assert (ready s1 e1) as R1 by by eapply ready_later. destruct held; cbn [negb]; [|by apply writePublishing_ok].
  apply proved_set; [by split|done|]. intros e2 [_ R2]. by apply claim_or_publish_ok.
Qed.

(** The pass of a run in [Publishing]. *)
Lemma publishingPass_ok s e : Phase pf = PlannedFailoverPhasePublishing -> ready s e -> ok (publishingPass fg pf) s e.
Proof.
  intros Hp [Hw H]. unfold ok, publishingPass. apply ewp_bind. eapply ewp_mono; [apply release_ok; [done|done|right; split; [done|right]]|].
  - unfold in_phase. by apply bool_decide_eq_true.
  - intros s1 ? e1 [-> H1]. by apply finish_ok.
Qed.
End protocol.
