(* ===== verification/EngineHistory.v ===== *)
(** * The planned-failover engine over a run's life

    The passes of one run, with engine restarts and other runs' passes in between, and
    what they may do to MySQL, to the run's claim and to its records. *)
From S2P Require Import Prelude GoStd Effects GoTime GtidSet Failover FailoverRecord PlannedRun ClaimSlot EngineData EngineSteps Protocol EngineProtocol.

Local Open Scope Z_scope.

#[local] Arguments prog_bind {Op Ans A B} _ _ : simpl never.

Import PlannedRun FailoverRecords ClaimSlot Engine Steps.

(** ** Histories *)

Inductive item : Type :=
| Restarted
| Passed (fg : Group) (pf : Run) (tr : list (event ans)).

(** The phases in which a run has been granted its claim. *)
Definition owned (pf : Run) : bool := plannedFailoverOwnsSitesPhase (Phase pf) || bool_decide (Phase pf = PlannedFailoverPhasePublishing).

(** An engine that remembers nothing of the run. *)
Definition fresh (r : string) (e : engine) : Prop := runs_ e !! r = None /\ r ∉ terminatedRuns e.

(** What an engine may remember of a run it drove through its admission: the grant, the
    fence, a write to settle, the end it could not write; nothing of a promotion. *)
Definition admitted (r : string) (e : engine) : Prop := r ∉ terminatedRuns e /\ forall m, runs_ e !! r = Some m ->
  promote m = noPromotion /\ forall p, pendingTerminal m = Some p -> plannedFailoverTerminal p = true /\ is_Some (RunResult p).

Lemma fresh_admitted r e : fresh r e -> admitted r e.
Proof. intros [F1 F2]. split; [done|]. intros m. by rewrite F1. Qed.

(** The engine between two passes of the run: other runs' passes keep its memo. *)
Definition undisturbed (r : string) (e e' : engine) : Prop :=
  runs_ e' !! r = runs_ e !! r /\ (r ∈ terminatedRuns e' <-> r ∈ terminatedRuns e).

Inductive history (r : string) : engine -> list item -> engine -> Prop :=
| history_nil e : history r e [] e
| history_other e e1 items e2 : undisturbed r e e1 -> history r e1 items e2 -> history r e items e2
| history_restart e e1 items e2 : fresh r e1 -> history r e1 items e2 -> history r e (Restarted :: items) e2
| history_pass e fg pf tr d e1 items e2 :
    RunID pf = r -> owned pf = true -> runs (phase_pass fg pf e) tr (d, e1) -> history r e1 items e2 ->
    history r e (Passed fg pf tr :: items) e2.

(** The protocol's state before any pass, at the start of a pass and after a restart. *)
Definition start : ghost :=
  {| ended := false; confirmation := false; EngineProtocol.claimed := false; guarded := false; written := false; attempted := false;
     last := None; reproved := false; proven := false; unrecorded := false |}.

Definition new_pass (s : ghost) : ghost :=
  s <| EngineProtocol.claimed := false |> <| guarded := false |> <| written := false |> <| last := None |> <| reproved := false |> <| unrecorded := false |>.

Definition restarted (s : ghost) : ghost := s <| attempted := false |>.

Fixpoint keeps (s : ghost) (items : list item) : option ghost :=
  match items with
  | [] => Some s
  | Restarted :: items => keeps (restarted s) items
  | Passed fg pf tr :: items => match follows (allow fg pf) (new_pass s) tr with Some s => keeps s items | None => None end
  end.

(** ** Every history follows the protocol *)

Definition agrees (r : string) (s : ghost) (e : engine) : Prop := forall pf, RunID pf = r -> consistent pf s e.

Lemma consistent_run pf pf' s e : RunID pf' = RunID pf -> consistent pf s e -> consistent pf' s e.
Proof. intros E [H1 H2 H3 H4]. unfold memo in *. constructor; unfold memo; rewrite E; auto. Qed.

Lemma agrees_new r s e : agrees r s e -> agrees r (new_pass s) e.
Proof. intros H pf E. by destruct (H pf E). Qed.

Lemma agrees_undisturbed r s e e' : undisturbed r e e' -> agrees r s e -> agrees r s e'.
Proof.
  intros [U1 U2] H pf E. destruct (H pf E) as [H1 H2 H3 H4]. unfold memo in *. subst r.
  constructor; unfold memo; rewrite ?U1; auto. intros Hin. by apply H1, U2.
Qed.

Lemma agrees_admitted r s e : admitted r e -> attempted s = false -> agrees r s e.
Proof.
  intros [F1 F2] Ha pf <-. assert (promote (memo pf e) = noPromotion /\ forall p, pendingTerminal (memo pf e) = Some p ->
    plannedFailoverTerminal p = true /\ is_Some (RunResult p)) as [Hp Ht].
  { unfold memo. destruct (runs_ e !! RunID pf) as [m|]; [by apply F2|done]. }
  constructor; rewrite ?Hp; cbn; [done|by rewrite Ha|by intros [|]|exact Ht].
Qed.

Lemma phase_pass_ok fg pf s e : owned pf = true -> agrees (RunID pf) s e ->
  wp (allow fg pf) (phase_pass fg pf e) (new_pass s) (fun s' x => agrees (RunID pf) s' x.2).
Proof.
  intros Ho H. assert (ready pf (new_pass s) e) as R by (split; [done|by apply (agrees_new (RunID pf))]).
  assert (ewp fg pf (phase_pass fg pf) (new_pass s) e (fun s' _ e' => consistent pf s' e')) as Hw.
  { unfold owned in Ho. unfold phase_pass. destruct (decide (Phase pf = PlannedFailoverPhasePublishing)) as [Hp|Hp].
    - rewrite Hp. apply publishingPass_ok; [|done..]. unfold plannedFailoverTerminal. by rewrite Hp.
    - rewrite (bool_decide_false _ Hp), orb_false_r in Ho.
      assert (plannedFailoverTerminal pf = false /\ phase_step (Phase pf) PlannedFailoverPhaseRollingBack = true) as [Ht Hs]
        by (unfold plannedFailoverTerminal; by destruct (Phase pf)).
      pose proof (claimPass_ok fg pf Ht Hs _ _ Ho R) as Hc. by destruct (Phase pf). }
  eapply wp_mono; [|exact Hw]. intros s' [d e'] Hc pf' E. by eapply consistent_run.
Qed.

Lemma history_keeps r e items e' : history r e items e' -> forall s, agrees r s e -> exists s', keeps s items = Some s' /\ agrees r s' e'.
Proof.
  induction 1 as [e|e e1 items e2 U _ IH|e e1 items e2 F _ IH|e fg pf tr d e1 items e2 E Ho Hr _ IH]; intros s H; simpl.
  - eauto.
  - by apply IH; eapply agrees_undisturbed.
  - by apply IH, agrees_admitted; [apply fresh_admitted|].
  - subst r. pose proof (phase_pass_ok fg pf s e Ho H) as Hw. destruct (wp_sound _ _ _ _ _ _ Hw Hr) as (s1 & -> & H1). by apply IH.
Qed.

Lemma agrees_start r e : admitted r e -> agrees r start e.
Proof. intros F. by apply agrees_admitted. Qed.

(** ** Causes *)

(** The earlier calls of the run: those of earlier passes and of this one, each with the
    group and the record its pass was given. *)
Definition calls_of (it : item) : list (Group * Run * event ans) :=
  match it with Restarted => [] | Passed fg pf tr => map (fun a => (fg, pf, a)) tr end.

Definition before (items : list item) (fg : Group) (pf : Run) (t1 : list (event ans)) : list (Group * Run * event ans) :=
  concat (map calls_of items) ++ map (fun a => (fg, pf, a)) t1.

(** A terminal record of the run, or its terminal marker, committed. *)
Definition ends (r : string) (a : event ans) : Prop :=
  (exists base next mutate, a = ev (Write base next mutate) WriteCommitted /\ RunID next = r /\ plannedFailoverTerminal next = true)
  \/ (exists base m, a = ev (WriteTerminalMarker base m) WriteCommitted /\ M_RunID m = r).

(** The run's confirmation annotation committed. *)
Definition annotates (r : string) (a : event ans) : Prop :=
  exists base at_ since, a = ev (MarkDeadlineStart base DeadlinePromotionConfirmed r at_) (since, WriteCommitted).

(** The promotion was confirmed: by an attempt, by the re-proof, or by the run's own
    durable failover record. *)
Definition confirms (fg : Group) (pf : Run) (a : event ans) : Prop :=
  (exists ref p o, a = ev (Promote ref p) (Ok o) /\ PO_Kind o = PromoteConfirmed)
  \/ (exists ref g rr o, a = ev (Reprove ref g) (Ok rr) /\ handed_off rr = Some o /\ PO_Kind o = PromoteConfirmed)
  \/ (exists t, a = ev Now t /\ plannedPromotionRecorded fg pf t = true).

Ltac allowed H := cbn in H; unfold check in H; repeat case_match; simplify_eq; cbn in *.

Lemma write_run pf s base next mutate : write_ok pf s base next mutate = true -> RunID next = RunID pf.
Proof.
  unfold write_ok. destruct (plannedFailoverRun base) as [[cur|] []]; try done. rewrite !andb_true_iff.
  by intros [[[[[_ _] H%bool_decide_eq_true] _] _] _].
Qed.

Lemma ended_cause fg pf s (a : event ans) s' : allow fg pf s (projT1 a) (projT2 a) = Some s' -> ended s' = true -> ended s = true \/ ends (RunID pf) a.
Proof.
  destruct a as [[] x]; intros H He; try (by allowed H; left).
  all: allowed H; auto.
  - apply orb_true_iff in He as [He|He]; [by left|]. right. left. exists base, next, mutate. split; [done|]. split; [by eapply write_run|done].
  - right. right. exists base, m. split; [done|]. by eapply bool_decide_eq_true_1.
Qed.

Lemma confirmation_cause fg pf s (a : event ans) s' : allow fg pf s (projT1 a) (projT2 a) = Some s' -> confirmation s' = true ->
  confirmation s = true \/ annotates (RunID pf) a.
Proof.
  destruct a as [[] x]; intros H He; try (by allowed H; left). all: allowed H; auto. destruct x as [since o]. cbn in *. subst.
  right. match goal with E : _ && _ = true |- _ => apply andb_true_iff in E as [->%bool_decide_eq_true _] end. by exists base, now, since.
Qed.

Lemma proven_cause fg pf s (a : event ans) s' : allow fg pf s (projT1 a) (projT2 a) = Some s' -> proven s' = true ->
  proven s = true \/ confirms fg pf a.
Proof.
  destruct a as [[] x]; intros H He; try (by allowed H; left). all: allowed H; auto.
  - apply orb_true_iff in He as [He|He]; [by left|]. right. right. right. by exists x.
  - apply orb_true_iff in He as [He|He]; [by left|]. right. right. left. exists ref, fg0, a, p. split; [done|]. split; [done|]. by destruct (PO_Kind p).
  - apply orb_true_iff in He as [He|He]; [by left|]. right. left. exists ref, pf0, a. split; [done|]. by destruct (PO_Kind a).
Qed.

(** A property that no new pass or restart establishes, and only some calls do. *)
Lemma keeps_cause (r : string) (P : ghost -> Prop) (cause : Group -> Run -> event ans -> Prop) :
  (forall s, P (new_pass s) -> P s) -> (forall s, P (restarted s) -> P s) ->
  (forall fg pf s a s', RunID pf = r -> allow fg pf s (projT1 a) (projT2 a) = Some s' -> P s' -> P s \/ cause fg pf a) ->
  forall items s s', Forall (fun it => match it with Restarted => True | Passed _ pf _ => RunID pf = r end) items ->
  keeps s items = Some s' -> P s' -> P s \/ exists x, x ∈ concat (map calls_of items) /\ cause x.1.1 x.1.2 x.2.
Proof.
  intros Hn Hr Hc. induction items as [|it items IH]; intros s s' HF H HP; simpl in H; [injection H as ->; by left|].
  apply Forall_cons in HF as [Hit HF]. destruct it as [|fg pf tr].
  - destruct (IH _ _ HF H HP) as [H1|H1]; [left; by apply Hr|by right].
  - destruct (follows _ _ tr) as [s1|] eqn:E; [|done]. destruct (IH _ _ HF H HP) as [H1|(x & Hin & Hx)].
    + destruct (follows_cause (allow fg pf) P (cause fg pf)) with (tr := tr) (s := new_pass s) (s' := s1) as [H2|(a & Hin & Ha)]; [|done|done| |].
      * intros s2 a s3. by apply Hc.
      * left. by apply Hn.
      * right. exists (fg, pf, a). split; [|done]. simpl. apply elem_of_app. left. apply list_elem_of_fmap. by exists a.
    + right. exists x. split; [|done]. simpl. apply elem_of_app. by right.
Qed.

Lemma keeps_app i1 i2 : forall s, keeps s (i1 ++ i2) = match keeps s i1 with Some s' => keeps s' i2 | None => None end.
Proof. induction i1 as [|[|fg pf tr] i1 IH]; intros s; simpl; [done|apply IH|]. destruct (follows _ _ tr); [apply IH|done]. Qed.

Lemma history_runs r e items e' : history r e items e' ->
  Forall (fun it => match it with Restarted => True | Passed _ pf _ => RunID pf = r end) items.
Proof. induction 1; auto. Qed.

Section call.

(** A call [a] of a pass in a run's history, [t1] the pass's calls before it. *)
Context (r : string) (e : engine) (items : list item) (fg : Group) (pf : Run) (t1 : list (event ans)) (a : event ans)
  (t2 : list (event ans)) (items' : list item) (e' : engine) (F : admitted r e)
  (H : history r e (items ++ Passed fg pf (t1 ++ a :: t2) :: items') e').

Lemma history_run : RunID pf = r.
Proof. apply history_runs, Forall_app in H as [_ [? _]%Forall_cons]. done. Qed.

(** The protocol's state at the call. *)
Lemma history_at : exists s0 s1 s2, keeps start items = Some s0 /\ follows (allow fg pf) (new_pass s0) t1 = Some s1
  /\ allow fg pf s1 (projT1 a) (projT2 a) = Some s2.
Proof.
  destruct (history_keeps _ _ _ _ H start (agrees_start r e F)) as (s' & K & _). rewrite keeps_app in K.
  destruct (keeps start items) as [s0|]; [|done]. simpl in K. destruct (follows _ _ (t1 ++ a :: t2)) as [s3|] eqn:E; [|done].
  destruct (follows_split _ _ _ _ _ _ E) as (s1 & s2 & H1 & H2). by exists s0, s1, s2.
Qed.

(** What holds at the call and not at the start was established before it. *)
Lemma history_cause (P : ghost -> Prop) (cause : Group -> Run -> event ans -> Prop) :
  ~ P start -> (forall s, P (new_pass s) -> P s) -> (forall s, P (restarted s) -> P s) ->
  (forall fg pf s a s', RunID pf = r -> allow fg pf s (projT1 a) (projT2 a) = Some s' -> P s' -> P s \/ cause fg pf a) ->
  forall s0 s1, keeps start items = Some s0 -> follows (allow fg pf) (new_pass s0) t1 = Some s1 -> P s1 ->
  exists x, x ∈ before items fg pf t1 /\ cause x.1.1 x.1.2 x.2.
Proof.
  intros H0 Hn Hr Hc s0 s1 K E HP. unfold before. setoid_rewrite elem_of_app.
  destruct (follows_cause (allow fg pf) P (cause fg pf)) with (tr := t1) (s := new_pass s0) (s' := s1) as [H1|(b & Hin & Hb)]; [|done|done| |].
  - intros s2 b s3. apply Hc, history_run.
  - pose proof (history_runs _ _ _ _ H) as HF. apply Forall_app in HF as [HF _].
    destruct (keeps_cause r P cause Hn Hr Hc items start s0 HF K (Hn _ H1)) as [?|(x & Hin & Hx)]; [done|]. exists x. auto.
  - exists (fg, pf, b). split; [|done]. right. apply list_elem_of_fmap. by exists b.
Qed.

(** What holds at the call and not at the start of a pass was established in this pass. *)
Lemma pass_cause (P : ghost -> Prop) (cause : event ans -> Prop) :
  (forall s, ~ P (new_pass s)) -> (forall s a s', allow fg pf s (projT1 a) (projT2 a) = Some s' -> P s' -> P s \/ cause a) ->
  forall s0 s1, follows (allow fg pf) (new_pass s0) t1 = Some s1 -> P s1 -> exists b, b ∈ t1 /\ cause b.
Proof. intros Hn Hc s0 s1 E HP. destruct (follows_cause (allow fg pf) P cause Hc _ _ _ E HP) as [?|?]; [by destruct (Hn s0)|done]. Qed.

End call.

(** ** What the engine may do *)











Lemma write_published s base next mutate pf : write_ok pf s base next mutate = true -> Phase next = PlannedFailoverPhasePublishing -> proven s = true.
Proof.
  unfold write_ok. intros H Hp. destruct (plannedFailoverRun base) as [[cur|] []]; try done.
  assert (plannedFailoverTerminal next = false) as Ht by (unfold plannedFailoverTerminal; by rewrite Hp).
  rewrite Ht, (bool_decide_true (Phase next = PlannedFailoverPhasePublishing) Hp) in H. rewrite !andb_true_iff in H. tauto.
Qed.


(** ** Attempts *)

(** The promotion's outcome a call reports. *)
Definition reports (a : event ans) (o : PromoteOutcome) : Prop :=
  (exists ref p, a = ev (Promote ref p) (Ok o)) \/ (exists ref g rr, a = ev (Reprove ref g) (Ok rr) /\ handed_off rr = Some o).

(** A call reports that the target may have been made writable. *)
Definition attempts (a : event ans) : Prop := exists o, reports a o /\ (MayHaveWritten o = true \/ PO_Kind o = PromoteConfirmed).

(** The re-proof asks for a rollback or lost the source. *)
Definition asks_rollback (a : event ans) : Prop :=
  exists ref g rr, a = ev (Reprove ref g) (Ok rr) /\ (SourceUnreachable rr = true \/ is_Some (RR_RollBack rr)).

(** The attempt wrote nothing, or found the target replaced while the run's own failover
    record was not there. *)
Definition spares (fg : Group) (pf : Run) (t1 : list (event ans)) (o : PromoteOutcome) : Prop :=
  (PO_Kind o = PromoteAborted /\ PO_Terminal o = None)
  \/ (PO_Kind o = PromoteInconsistent /\ RollbackIfUnrecorded o = true
      /\ exists now, ev Now now ∈ t1 /\ plannedOwnRecordDurable fg pf now = false).

Definition stays_promoting (it : item) : Prop := match it with Restarted => False | Passed _ pf _ => Phase pf = PlannedFailoverPhasePromoting end.

Lemma reports_ghost fg pf s (b : event ans) s' o : allow fg pf s (projT1 b) (projT2 b) = Some s' -> reports b o ->
  last s' = Some o /\ attempted s' = attempted s || MayHaveWritten o || match PO_Kind o with PromoteConfirmed => true | _ => false end.
Proof.
  intros H [(ref & p & ->)|(ref & g & rr & -> & Hh)]; cbn in H; unfold check in H; case_match; try done; [by injection H as <-|].
  rewrite Hh in H. by injection H as <-.
Qed.

Lemma attempts_attempted fg pf s (b : event ans) s' : allow fg pf s (projT1 b) (projT2 b) = Some s' -> attempts b -> attempted s' = true.
Proof.
  intros H (o & Hr & Ho). destruct (reports_ghost _ _ _ _ _ _ H Hr) as [_ ->]. destruct Ho as [-> | ->]; by rewrite ?orb_true_r.
Qed.

Lemma attempted_kept fg pf : Phase pf = PlannedFailoverPhasePromoting -> forall s (b : event ans) s',
  allow fg pf s (projT1 b) (projT2 b) = Some s' -> attempted s = true -> attempted s' = true.
Proof.
  intros Hp s [[] x] s' H Ha; cbn in H; unfold check, in_phase in H; rewrite ?Hp in H; repeat case_match; simplify_eq; cbn; rewrite ?Ha; try done.
  all: by rewrite !(bool_decide_false (PlannedFailoverPhasePromoting = _)), andb_false_r in H0 by done.
Qed.

Lemma keeps_attempted items : forall s s', keeps s items = Some s' -> Forall stays_promoting items ->
  attempted s = true \/ (exists x, x ∈ concat (map calls_of items) /\ attempts x.2) -> attempted s' = true.
Proof.
  induction items as [|[|fg pf tr] items IH]; intros s s' H HF Ha; simpl in H.
  - destruct Ha as [Ha|(x & Hin & _)]; [congruence|by apply not_elem_of_nil in Hin].
  - by apply Forall_cons in HF as [[] _].
  - apply Forall_cons in HF as [Hp HF]. simpl in Hp. destruct (follows _ _ tr) as [s1|] eqn:E; [|done]. apply (IH _ _ H HF). simpl in Ha.
    pose proof (attempted_kept fg pf Hp) as Hk. destruct Ha as [Ha|(x & [Hin|Hin]%elem_of_app & Hx)]; [left| |by right; exists x].
    + by apply (follows_keeps (allow fg pf) (fun s => attempted s = true) Hk _ _ _ E).
    + left. apply list_elem_of_fmap in Hin as (b & -> & Hb).
      apply (follows_since (allow fg pf) (fun s => attempted s = true) b Hk) with tr (new_pass s); [|done..]. intros s2 s3 H23. by eapply attempts_attempted.
Qed.

Lemma write_rollback s base next mutate pf : write_ok pf s base next mutate = true -> Phase pf = PlannedFailoverPhasePromoting ->
  Phase next = PlannedFailoverPhaseRollingBack -> rollback_ok s = true.
Proof.
  unfold write_ok, in_phase. intros H Hp Hn. destruct (plannedFailoverRun base) as [[cur|] []]; try done.
  assert (plannedFailoverTerminal next = false) as Ht by (unfold plannedFailoverTerminal; by rewrite Hn).
  rewrite Ht, (bool_decide_true _ Hp), (bool_decide_true _ Hn) in H. rewrite !andb_true_iff in H. tauto.
Qed.

Lemma reproved_cause fg pf s (b : event ans) s' : allow fg pf s (projT1 b) (projT2 b) = Some s' -> reproved s' = true -> reproved s = true \/ asks_rollback b.
Proof.
  destruct b as [[] x]; intros H He; try (by allowed H; left). all: cbn in H; unfold check in H; case_match; try done.
  - destruct x as [rr|]; [|injection H as <-; by left]. right. exists ref, fg0, rr. split; [done|].
    assert (SourceUnreachable rr || bool_decide (is_Some (RR_RollBack rr)) = true) as [?|?%bool_decide_eq_true]%orb_true_iff;
      [|by left|by right]. destruct (handed_off rr); by injection H as <-.
Qed.

Lemma last_cause fg pf o s (b : event ans) s' : allow fg pf s (projT1 b) (projT2 b) = Some s' -> last s' = Some o -> last s = Some o \/ reports b o.
Proof.
  destruct b as [[] x]; intros H He; try (by allowed H; left). all: cbn in H; unfold check in H; case_match; try done.
  - destruct x as [rr|]; [|injection H as <-; by left]. destruct (handed_off rr) as [p|] eqn:Eh; injection H as <-; [|by left].
    injection He as ->. right. right. by exists ref, fg0, rr.
  - destruct x as [p|]; injection H as <-; [|by left]. injection He as ->. right. left. by exists ref, pf0.
Qed.

Lemma unrecorded_cause fg pf s (b : event ans) s' : allow fg pf s (projT1 b) (projT2 b) = Some s' -> unrecorded s' = true ->
  unrecorded s = true \/ exists now, b = ev Now now /\ plannedOwnRecordDurable fg pf now = false.
Proof.
  destruct b as [[] x]; intros H He; try (by allowed H; left).
  injection H as <-. apply orb_true_iff in He as [He|He]; [by left|]. right. exists x. split; [done|]. by apply negb_true_iff.
Qed.

Section theorems.

Context (r : string) (e : engine) (items : list item) (fg : Group) (pf : Run) (t1 : list (event ans)) (a : event ans)
  (t2 : list (event ans)) (items' : list item) (e' : engine) (F : admitted r e)
  (H : history r e (items ++ Passed fg pf (t1 ++ a :: t2) :: items') e').


(** The calls that give up the run's claim, or act on its end: the release, its conversion
    to a hold, the naming of a site for the manager, and the report. *)
Definition concludes (a : event ans) : bool :=
  match projT1 a with
  | ReleasePlannedFailoverClaim _ why => negb (bool_decide (why = ReleasePublishing))
  | ConvertToHold _ _ | NameFencedSource _ | NameUnconfirmedTarget _ | RunTerminal _ => true
  | _ => false
  end.

(** A run's claim is given up, turned into a hold, its sites named and its end reported
    only after its terminal record, or its terminal marker, is durable. *)
Theorem concluded_after_end : concludes a = true -> exists x, x ∈ before items fg pf t1 /\ ends r x.2.
Proof using F H.
  intros Hc. destruct (history_at r e items fg pf t1 a t2 items' e' F H) as (s0 & s1 & s2 & K & E & Ha).
  apply (history_cause r e items fg pf t1 a t2 items' e' H (fun s => ended s = true) (fun _ _ => ends r)) with s0 s1; try done.
  - intros fg' pf' s b s' <-. apply ended_cause.
  - destruct a as [[] x]; try done; cbn in Hc, Ha; unfold check in Ha;
      (match type of Ha with (if ?b then _ else _) = _ => destruct b eqn:Eb; [|done] end);
      rewrite ?andb_true_iff, ?orb_true_iff, ?andb_true_iff in Eb; try tauto.
    apply negb_true_iff in Hc. rewrite Hc in Eb. destruct Eb as [_ [?|[[=] _]]]. done.
Qed.

(** The claim of a run whose promotion is confirmed is released for publishing only once
    its confirmation annotation, its terminal record or its terminal marker is durable, or
    its [Publishing] record was: a restart never finds the claim gone and no trace of why. *)
Theorem publishing_released_after id x : a = ev (ReleasePlannedFailoverClaim id ReleasePublishing) x ->
  id = r /\ (Phase pf = PlannedFailoverPhasePublishing \/ exists x, x ∈ before items fg pf t1 /\ (annotates r x.2 \/ ends r x.2)).
Proof using F H.
  intros Hx. destruct (history_at r e items fg pf t1 a t2 items' e' F H) as (s0 & s1 & s2 & K & E & Ha).
  pose proof (history_run r e items fg pf t1 a t2 items' e' H) as Hr. rewrite Hx in Ha. cbn in Ha. unfold check in Ha. case_match eqn:Ec; [|done].
  rewrite andb_true_iff, orb_true_iff, andb_true_iff, orb_true_iff in Ec. destruct Ec as [->%bool_decide_eq_true Ec]. split; [done|].
  destruct (decide (Phase pf = PlannedFailoverPhasePublishing)) as [|Hp]; [by left|right].
  apply (history_cause r e items fg pf t1 a t2 items' e' H (fun s => confirmation s = true \/ ended s = true) (fun _ _ b => annotates r b \/ ends r b))
    with s0 s1; try done.
  - by intros [].
  - intros fg' pf' s b s' <- Hb [Hb'|Hb'].
    + apply confirmation_cause with (1 := Hb) in Hb'. tauto.
    + apply ended_cause with (1 := Hb) in Hb'. tauto.
  - unfold in_phase in Ec. rewrite (bool_decide_false _ Hp) in Ec. destruct Ec as [?|[_ [?|[=]]]]; auto.
Qed.

(** The calls that publish a promotion: its failover record, its DNS, its confirmation
    annotation and the move to [Publishing]. *)
Definition publishes (a : event ans) : bool :=
  match projT1 a with
  | RecordPlannedPromotion _ _ _ | ApplyDNS _ | MarkDeadlineStart _ DeadlinePromotionConfirmed _ _ => true
  | Write _ next _ => bool_decide (Phase next = PlannedFailoverPhasePublishing)
  | _ => false
  end.

(** C25. A promotion is published only after it was confirmed. *)
Theorem published_after_confirmation : publishes a = true -> exists x, x ∈ before items fg pf t1 /\ confirms x.1.1 x.1.2 x.2.
Proof using F H.
  intros Hc. destruct (history_at r e items fg pf t1 a t2 items' e' F H) as (s0 & s1 & s2 & K & E & Ha).
  apply (history_cause r e items fg pf t1 a t2 items' e' H (fun s => proven s = true) confirms) with s0 s1; try done.
  - intros fg' pf' s b s' _. apply proven_cause.
  - destruct a as [[] x]; try done; cbn in Hc, Ha; unfold check in Ha;
      (match type of Ha with (if ?b then _ else _) = _ => destruct b eqn:Eb; [|done] end).
    + by apply bool_decide_eq_true in Hc; eapply write_published.
    + destruct kind; try done. by apply andb_true_iff in Eb as [_ ?].
    + rewrite !andb_true_iff in Eb. tauto.
    + rewrite !andb_true_iff in Eb. tauto.
Qed.

(** Every status write replaces the run's live record by one of the same run at the next
    revision and in a phase its phase leads to: a live one of the pass's phase that keeps the
    sites, the baseline and the settings and commits nothing else, or a final one with its
    result. *)
Theorem writes_continue_run base next mutate out : a = ev (Write base next mutate) out ->
  exists cur, plannedFailoverRun base = (Some cur, false) /\ plannedFailoverTerminal cur = false /\ RunID cur = r /\ RunID next = r
  /\ Revision next = Revision cur + 1 /\ phase_step (Phase cur) (Phase next) = true
  /\ if plannedFailoverTerminal next then is_Some (RunResult next)
     else Phase cur = Phase pf /\ TargetSite next = TargetSite cur /\ SourceSite next = SourceSite cur
          /\ ClaimBaseline next = ClaimBaseline cur /\ RunSettings next = RunSettings cur /\ mutate = None.
Proof using F H.
  intros Hx. destruct (history_at r e items fg pf t1 a t2 items' e' F H) as (s0 & s1 & s2 & _ & _ & Ha).
  pose proof (history_run r e items fg pf t1 a t2 items' e' H) as Hr. rewrite Hx in Ha. cbn in Ha. unfold check, write_ok in Ha.
  destruct (plannedFailoverRun base) as [[cur|] []]; try done. exists cur. subst r.
  match type of Ha with (if ?b then _ else _) = _ => destruct b eqn:Eb; [|done] end. rewrite !andb_true_iff, negb_true_iff, !bool_decide_eq_true, Z.eqb_eq in Eb.
  destruct Eb as [[[[[Ht Ei] En] Erev] Hst] Hrest]. split_and!; try done.
  destruct (plannedFailoverTerminal next); rewrite ?andb_true_iff, ?bool_decide_eq_true in Hrest; tauto.
Qed.

(** C26. With a final record goes exactly the mutation its outcome calls for: a hold, naming the
    run, with a manual recovery; the run's failover record, naming its target, with the fenced
    GTID set as the watermark and at the confirmation's time, with a success that has one;
    nothing with any other. *)
Theorem final_write_mutation base next mutate out result : a = ev (Write base next mutate) out -> plannedFailoverTerminal next = true ->
  RunResult next = Some result ->
  match Res_Outcome result with
  | OutcomeManualRecoveryRequired => exists h, mutate = Some (MutateHold h) /\ Hold_RunID h = r
  | OutcomeSucceeded =>
      match Promotion next with
      | Some {| ConfirmationTime := Some at_ |} =>
          exists authority now, mutate = Some (MutateRecord authority at_ (TargetSite next) (plannedFenceSet next) now)
      | _ => mutate = None
      end
  | _ => mutate = None
  end.
Proof using F H.
  intros Hx Ht Hres. destruct (history_at r e items fg pf t1 a t2 items' e' F H) as (s0 & s1 & s2 & _ & _ & Ha).
  pose proof (history_run r e items fg pf t1 a t2 items' e' H) as Hr. rewrite Hx in Ha. cbn in Ha. unfold check in Ha.
  destruct (write_ok _ _ _ _ _) eqn:Hw; [|done]. pose proof (write_run _ _ _ _ _ Hw) as Hn. unfold write_ok in Hw.
  destruct (plannedFailoverRun base) as [[cur|] []]; try done. rewrite Ht in Hw. rewrite !andb_true_iff in Hw. destruct Hw as [_ [_ Hm]].
  unfold mutation_ok in Hm. rewrite Hres in Hm. destruct (Res_Outcome result), mutate as [[h|authority at_ target wm now]|]; try done.
  - rewrite !andb_true_iff, !bool_decide_eq_true in Hm. destruct Hm as [[-> ->] Hp]. destruct (Promotion next) as [[p1 p2 p3 [c|] p5]|]; try done;
      cbn in Hp; apply bool_decide_eq_true in Hp. injection Hp as ->. by exists authority, now.
  - destruct (Promotion next) as [[p1 p2 p3 [c|] p5]|]; done.
  - exists h. split; [done|]. apply bool_decide_eq_true in Hm. congruence.
Qed.

(** C21. Once an attempt reported that the target may have been made writable, and while the run
    stays in [Promoting] under one engine, its record goes to [RollingBack] only when this pass's
    re-proof asked for it, or this pass's attempt found that nothing was written or that the
    target was replaced before the promotion was recorded. *)
Theorem rollback_after_attempt i1 i2 base next mutate out x : a = ev (Write base next mutate) out -> Phase pf = PlannedFailoverPhasePromoting ->
  Phase next = PlannedFailoverPhaseRollingBack -> items = i1 ++ i2 -> Forall stays_promoting i2 -> x ∈ before i2 fg pf t1 -> attempts x.2 ->
  (exists b, b ∈ t1 /\ asks_rollback b) \/ (exists b o, b ∈ t1 /\ reports b o /\ spares fg pf t1 o).
Proof using F H.
  intros Hx Hp Hn Hi Hi2 Hin Hat. destruct (history_at r e items fg pf t1 a t2 items' e' F H) as (s0 & s1 & s2 & K & E & Ha).
  rewrite Hx in Ha. cbn in Ha. unfold check in Ha. destruct (write_ok _ _ _ _ _) eqn:Hw; [|done].
  assert (attempted s1 = true) as Hatt.
  { rewrite Hi, keeps_app in K. destruct (keeps start i1) as [s3|]; [|done]. unfold before in Hin. apply elem_of_app in Hin as [Hin|Hin].
    - eapply (follows_keeps (allow fg pf) (fun s => attempted s = true)); [by apply attempted_kept|exact E|].
      apply (keeps_attempted i2 s3 s0 K Hi2). right. by exists x.
    - apply list_elem_of_fmap in Hin as (b & -> & Hb). eapply (follows_since (allow fg pf) (fun s => attempted s = true) b); [by apply attempted_kept|
        |exact E|exact Hb]. intros s4 s5 H45. by eapply attempts_attempted. }
  apply write_rollback in Hw as Hr; [|done..]. unfold rollback_ok in Hr. rewrite Hatt in Hr. cbn in Hr. rewrite orb_false_r in Hr.
  apply orb_true_iff in Hr as [Hr|Hr].
  - left. by apply (pass_cause fg pf t1 (fun s => reproved s = true) asks_rollback) with s0 s1; [|apply reproved_cause|..].
  - right. destruct (last s1) as [o|] eqn:El; [|done].
    destruct (pass_cause fg pf t1 (fun s => last s = Some o) (fun b => reports b o)) with s0 s1 as (b & Hb & Hrep);
      [done|by apply last_cause|done..|]. exists b, o. split; [done|]. split; [done|].
    destruct (PO_Kind o) eqn:Ek, (PO_Terminal o) eqn:Et; try done; try (by left); apply andb_true_iff in Hr as [Hr1 Hr2]; right.
    all: destruct (pass_cause fg pf t1 (fun s => unrecorded s = true) (fun b => exists now, b = ev Now now /\ plannedOwnRecordDurable fg pf now = false))
      with s0 s1 as (b' & Hb' & now & -> & Hd); [done|apply unrecorded_cause|done..|]; split_and!; [done..|]; by exists now.
Qed.

End theorems.

(** ** Concrete passes *)

Definition demo_at : Z := UnixEpoch + 1000 * Second.

Definition demo_run (phase : PlannedFailoverPhase) : Run :=
  {| RunID := "run-1"; Revision := 4; Phase := phase; TargetSite := "east"; SourceSite := "west";
     RunSettings := {| MaxLagWait := 0; DrainTimeout := 0; Settings_Dragonfly := None |}; ClaimBaseline := None; RunAdmission := None;
     Fence := Some {| Fence_State := FenceIntended; Fence_IntentTime := demo_at; SourceServerUUID := "uuid-west"; ApplyTime := None;
                      Fence_GtidSet := None |};
     Drain := None; LagWait := None; RunDragonfly := None;
     Promotion := Some {| PromotionConfirmed := false; Promotion_IntentTime := demo_at; TargetServerUUID := "uuid-east";
                          ConfirmationTime := if bool_decide (phase = PlannedFailoverPhasePublishing) then Some demo_at else None;
                          Promotion_Warnings := [] |};
     DNS := None; RunRollback := None; RunResult := None |}.

Definition demo_fg (phase : PlannedFailoverPhase) : Group :=
  {| Durable := {| Annotations := ∅; ResourceVersion := 7; Status_LastFailover := None; Status_LastFailoverTarget := "";
                   Status_PromotionGtidExecuted := ""; FailoverRecords.Sites := ["east"; "west"] |};
     TerminalAnnotation := NotJSON; RunBlock := Some (demo_run phase); Status_Hold := None; Generation := 1; ActiveSite := "west";
     TopologyGeneration := 1; DragonflyEnabled := false |}.

Definition demo_engine : engine := {| has_dragonfly := false; has_callback := false; runs_ := ∅; terminatedRuns := ∅ |}.

Definition demo_outcome (kind : PromoteOutcomeKind) (wrote : bool) : PromoteOutcome :=
  {| PO_Kind := kind; PO_Reason := ""; PO_Terminal := None; PO_Warnings := []; PO_TargetReachable := true; MayHaveWritten := wrote;
     RollbackIfUnrecorded := false; PO_Sites := [] |}.

(** Everything succeeds; an attempt ends as [o]. *)
Definition demo_answer (phase : PlannedFailoverPhase) (o : PromoteOutcome) (c : op) : ans c :=
  match c return ans c with
  | Now => demo_at
  | Load => Some (Some (demo_fg phase))
  | Write _ _ _ | ClearDeadlineStart _ _ _ | WriteTerminalMarker _ _ => WriteCommitted
  | MarkDeadlineStart _ _ _ now => (now, WriteCommitted)
  | EnsureClaim _ _ => Ok ClaimGranted
  | ReleasePlannedFailoverClaim _ _ | ConvertToHold _ _ => true
  | HeldRunClaim => Some "run-1"
  | HeldHoldClaim => None
  | ManagerAuthority => None
  | CheckRunClaim _ | RecordPlannedPromotion _ _ _ | NameUnconfirmedTarget _ | NameFencedSource _ => None
  | Reprove _ _ => Err OtherError
  | FenceSource _ _ | ProveFence _ _ =>
      Ok {| FP_Kind := FenceApplied; FP_Reason := ""; SourceWritable := false; FP_GtidSet := "u:1-5"; UnreadablePeers := []; Sent := true |}
  | KillAppConnections _ => Ok 0
  | ProbeLag _ _ => Err OtherError
  | ReadTargetServerUUID _ => Ok "uuid-east"
  | Promote _ _ => Ok o
  | ApplyDNS _ => Ok DNSApplied
  | Rollback _ _ => ({| RB_Outcome := Some OutcomeRolledBack; RB_Reason := ""; RB_Warnings := [] |}, None)
  | CaptureSourceOffset _ _ => None
  | TargetSyncReady _ _ _ => None
  | DragonflyTakeover _ _ | DragonflyAbandon _ _ => Err errDragonflyGateBusy
  | Event _ | RunTerminal _ | LagWaitObserved _ _ | ActiveSitePersisted _ _ => tt
  end.

Definition demo_pass (phase : PlannedFailoverPhase) (o : PromoteOutcome) (e : engine) : list (event ans) * (Z * engine) :=
  exec (fun _ => demo_answer phase o) (phase_pass (demo_fg phase) (demo_run phase) e) [].

Lemma demo_history phase o e items e' : owned (demo_run phase) = true -> history "run-1" (demo_pass phase o e).2.2 items e' ->
  history "run-1" e (Passed (demo_fg phase) (demo_run phase) (demo_pass phase o e).1 :: items) e'.
Proof.
  intros Ho H. apply history_pass with (demo_pass phase o e).2.1 (demo_pass phase o e).2.2; [reflexivity|exact Ho| |exact H].
  apply exec_runs with (fun _ => demo_answer phase o) []. unfold demo_pass. by destruct (exec _ _ _) as [tr [d e1]].
Qed.

Lemma demo_fresh : admitted "run-1" demo_engine.
Proof. by apply fresh_admitted. Qed.




(** The call at place [n] of a first pass, and of a second one in the same phase. *)
Lemma demo_first_pass phase o n a : owned (demo_run phase) = true -> (demo_pass phase o demo_engine).1 !! n = Some a ->
  history "run-1" demo_engine ([] ++ Passed (demo_fg phase) (demo_run phase) (take n (demo_pass phase o demo_engine).1 ++ a ::
    drop (S n) (demo_pass phase o demo_engine).1) :: []) (demo_pass phase o demo_engine).2.2.
Proof. intros Ho Hn. rewrite (take_drop_middle _ _ _ Hn). apply demo_history; [exact Ho|constructor]. Qed.

Lemma demo_second_pass phase o1 o2 n a : let e1 := (demo_pass phase o1 demo_engine).2.2 in let p2 := demo_pass phase o2 e1 in
  owned (demo_run phase) = true -> p2.1 !! n = Some a ->
  history "run-1" demo_engine ([Passed (demo_fg phase) (demo_run phase) (demo_pass phase o1 demo_engine).1] ++
    Passed (demo_fg phase) (demo_run phase) (take n p2.1 ++ a :: drop (S n) p2.1) :: []) p2.2.2.
Proof. intros e1 p2 Ho Hn. rewrite (take_drop_middle _ _ _ Hn). apply demo_history; [exact Ho|]. apply demo_history; [exact Ho|constructor]. Qed.

Definition demo_fencing : list (event ans) := (demo_pass PlannedFailoverPhaseFencing (demo_outcome PromoteConfirmed true) demo_engine).1.

Definition demo_publishing : list (event ans) := (demo_pass PlannedFailoverPhasePublishing (demo_outcome PromoteConfirmed true) demo_engine).1.

(** Two passes in [Promoting] that end as [o1] and [o2]. *)
Definition demo_promoting (o1 o2 : PromoteOutcome) : list (event ans) :=
  (demo_pass PlannedFailoverPhasePromoting o2 (demo_pass PlannedFailoverPhasePromoting o1 demo_engine).2.2).1.

Definition demo_confirmed : list (event ans) := demo_promoting (demo_outcome PromoteConfirmed true) (demo_outcome PromoteConfirmed true).

Definition demo_ref : PlannedRunRef := {| Ref_RunID := "run-1"; Ref_Source := "west"; Ref_Target := "east" |}.

Definition demo_item (o : PromoteOutcome) : item :=
  Passed (demo_fg PlannedFailoverPhasePromoting) (demo_run PlannedFailoverPhasePromoting) (demo_pass PlannedFailoverPhasePromoting o demo_engine).1.

Definition demo_call (tr : list (event ans)) (n : nat) : event ans := default (ev Now 0) (tr !! n).

(** The block and the mutation of the write at place [n]. *)
Definition demo_written (tr : list (event ans)) (n : nat) : Run :=
  match projT1 (demo_call tr n) with Write _ next _ => next | _ => demo_run PlannedFailoverPhaseFailed end.

Definition demo_mutation (tr : list (event ans)) (n : nat) : option mutation :=
  match projT1 (demo_call tr n) with Write _ _ mutate => mutate | _ => None end.


(** The report follows the terminal record. *)
Lemma concluded_after_end_witness :
  exists x, x ∈ before [] (demo_fg PlannedFailoverPhasePublishing) (demo_run PlannedFailoverPhasePublishing) (take 6 demo_publishing) /\ ends "run-1" x.2.
Proof.
  refine (concluded_after_end "run-1" demo_engine [] (demo_fg PlannedFailoverPhasePublishing) (demo_run PlannedFailoverPhasePublishing) _
    (demo_call demo_publishing 6) _ [] _ demo_fresh (demo_first_pass _ (demo_outcome PromoteConfirmed true) 6 _ _ _) _); vm_compute; reflexivity.
Defined.

(** The claim is released after the confirmation annotation. *)
Lemma publishing_released_after_witness :
  "run-1" = "run-1" /\ (Phase (demo_run PlannedFailoverPhasePromoting) = PlannedFailoverPhasePublishing
    \/ exists x, x ∈ before [demo_item (demo_outcome PromoteConfirmed true)] (demo_fg PlannedFailoverPhasePromoting)
                    (demo_run PlannedFailoverPhasePromoting) (take 7 demo_confirmed) /\ (annotates "run-1" x.2 \/ ends "run-1" x.2)).
Proof.
  refine (publishing_released_after "run-1" demo_engine [demo_item (demo_outcome PromoteConfirmed true)] (demo_fg PlannedFailoverPhasePromoting)
    (demo_run PlannedFailoverPhasePromoting) _ (ev (ReleasePlannedFailoverClaim "run-1" ReleasePublishing) true) _ [] _ demo_fresh
    (demo_second_pass _ (demo_outcome PromoteConfirmed true) (demo_outcome PromoteConfirmed true) 7 _ _ _) "run-1" true eq_refl); vm_compute; reflexivity.
Defined.

(** The second pass records the promotion the first one confirmed. *)
Lemma published_after_confirmation_witness :
  exists x, x ∈ before [demo_item (demo_outcome PromoteConfirmed true)] (demo_fg PlannedFailoverPhasePromoting)
                  (demo_run PlannedFailoverPhasePromoting) (take 3 demo_confirmed) /\ confirms x.1.1 x.1.2 x.2.
Proof.
  refine (published_after_confirmation "run-1" demo_engine [demo_item (demo_outcome PromoteConfirmed true)] (demo_fg PlannedFailoverPhasePromoting)
    (demo_run PlannedFailoverPhasePromoting) _ (demo_call demo_confirmed 3) _ [] _ demo_fresh
    (demo_second_pass _ (demo_outcome PromoteConfirmed true) (demo_outcome PromoteConfirmed true) 3 _ _ _) _); vm_compute; reflexivity.
Defined.

(** The move to [Draining]. *)
Lemma writes_continue_run_witness :
  exists cur, plannedFailoverRun (demo_fg PlannedFailoverPhaseFencing) = (Some cur, false) /\ plannedFailoverTerminal cur = false
    /\ RunID cur = "run-1" /\ RunID (demo_written demo_fencing 4) = "run-1" /\ Revision (demo_written demo_fencing 4) = Revision cur + 1
    /\ phase_step (Phase cur) (Phase (demo_written demo_fencing 4)) = true
    /\ Phase cur = PlannedFailoverPhaseFencing /\ TargetSite (demo_written demo_fencing 4) = TargetSite cur
    /\ SourceSite (demo_written demo_fencing 4) = SourceSite cur /\ ClaimBaseline (demo_written demo_fencing 4) = ClaimBaseline cur
    /\ RunSettings (demo_written demo_fencing 4) = RunSettings cur /\ (None : option mutation) = None.
Proof.
  refine (writes_continue_run "run-1" demo_engine [] (demo_fg PlannedFailoverPhaseFencing) (demo_run PlannedFailoverPhaseFencing) _
    (demo_call demo_fencing 4) _ [] _ demo_fresh (demo_first_pass _ (demo_outcome PromoteConfirmed true) 4 _ _ _) (demo_fg PlannedFailoverPhaseFencing)
    (demo_written demo_fencing 4) None WriteCommitted _); vm_compute; reflexivity.
Defined.

(** A success with a confirmation records the failover. *)
Lemma final_write_mutation_witness :
  exists authority now, demo_mutation demo_publishing 4 = Some (MutateRecord authority demo_at "east" "" now).
Proof.
  refine (final_write_mutation "run-1" demo_engine [] (demo_fg PlannedFailoverPhasePublishing) (demo_run PlannedFailoverPhasePublishing) _
    (demo_call demo_publishing 4) _ [] _ demo_fresh (demo_first_pass _ (demo_outcome PromoteConfirmed true) 4 _ _ _) (demo_fg PlannedFailoverPhasePublishing)
    (demo_written demo_publishing 4) (demo_mutation demo_publishing 4) WriteCommitted
    {| Res_Outcome := OutcomeSucceeded; Res_Reason := ""; CompletionTime := demo_at; Res_Warnings := [] |} _ _ _); vm_compute; reflexivity.
Defined.

(** A second attempt that finds the promotion aborted, after one that may have written. *)
Lemma rollback_after_attempt_witness :
  let tr := demo_promoting (demo_outcome PromoteUnconfirmed true) (demo_outcome PromoteAborted false) in
  (exists b, b ∈ take 4 tr /\ asks_rollback b)
  \/ (exists b o, b ∈ take 4 tr /\ reports b o
       /\ spares (demo_fg PlannedFailoverPhasePromoting) (demo_run PlannedFailoverPhasePromoting) (take 4 tr) o).
Proof.
  intros tr. refine (rollback_after_attempt "run-1" demo_engine [demo_item (demo_outcome PromoteUnconfirmed true)]
    (demo_fg PlannedFailoverPhasePromoting) (demo_run PlannedFailoverPhasePromoting) _ (demo_call tr 4) _ [] _ demo_fresh
    (demo_second_pass _ (demo_outcome PromoteUnconfirmed true) (demo_outcome PromoteAborted false) 4 _ _ _) [] [demo_item (demo_outcome PromoteUnconfirmed true)]
    (demo_fg PlannedFailoverPhasePromoting) (demo_written tr 4) None WriteCommitted
    (demo_fg PlannedFailoverPhasePromoting, demo_run PlannedFailoverPhasePromoting,
     ev (Promote demo_ref (demo_run PlannedFailoverPhasePromoting)) (Ok (demo_outcome PromoteUnconfirmed true))) _ _ _ _ _ _ _);
    try (vm_compute; reflexivity).
  - repeat constructor.
  - apply elem_of_app. left. apply list_elem_of_lookup. exists 2%nat. vm_compute. reflexivity.
  - exists (demo_outcome PromoteUnconfirmed true). split; [left|by left]. by exists demo_ref, (demo_run PlannedFailoverPhasePromoting).
Defined.
