(* ===== verification/FacadeData.v ===== *)
(** * The planned-failover facade: calls, memos and data

    What [internal/controller/planned_failover_ops.go] reads from MySQL, the topology
    manager and the claim slot, and what the facade remembers about its runs. *)
From S2P Require Import Prelude GoStd Intervals GtidSet SiteState Effects GoTime Failover FailoverRecord PlannedRun ClaimSlot EngineData EngineSteps.

Local Open Scope Z_scope.

#[local] Arguments prog_bind {Op Ans A B} _ _ : simpl never.

Module Facade.

Import GTID Matrix PlannedRun FailoverRecords ClaimSlot Engine Steps.

(** ** The topology manager's configuration

    [lbIP] and [dns]: what [ApplyDNS] needs; [ReplUser]: [bootstrapCfg.ReplUser]. *)
Record siteTracker : Type := {
  site_name : string;
  site_role : SiteRole;
  host : string;
  lbIP : string
}.

Record TopologyManager : Type := {
  tm_id : Z;
  sites : list siteTracker;
  has_dns : bool;
  ReplUser : string
}.

Definition getSite (tm : TopologyManager) (name : string) : option siteTracker :=
  find (fun s => bool_decide (site_name s = name)) (sites tm).

Definition isPromotable (s : siteTracker) : bool := bool_decide (site_role s = SiteRolePrimaryCandidate).

(** ** Calls *)

(** A site's pooled connection, and a session pinned to it. *)
Inductive conn : Type := Pooled (site : string) | Pinned (site : string).

#[export] Instance conn_eq_dec : EqDecision conn.
Proof. solve_decision. Defined.

Record ReplicaStatus : Type := {
  IORunning : bool;
  IOConnecting : bool;
  SQLRunning : bool;
  LastSQLError : string;
  SourceHost : string
}.

(** [Unsupported]: [mysql.ErrSessionUnsupported]. *)
Inductive read_error : Type := Unsupported | ReadFailed.

(** [Retired]: [tm.retired]. [LeaderLost]: the leader context has ended. [ClearReprove]:
    the claim's [needsReprove] is cleared. [RestorePeerHeld]: [restorePeerHeldSite].
    [ApplySiteDNS]: the manager's [applyDNS]. [SlotRelease] and [SlotToHold]: the claim
    slot's [release] and [toHold]. [BeginPromotion], [FinishTopologyChange] and
    [PromotionExecuted] are [beginPlannedPromotion], [finishDeploymentTopologyChange] and
    [deploymentPromotionExecuted]. [DNSEnded]: the DNS context has ended. *)
Inductive op : Type :=
| CurrentManager
| LeaderLost
| RequireRunClaim (tm : Z) (ref : PlannedRunRef) (reprove : bool)
| Retired (tm : Z)
| Now (tm : Z)
| CheckReadOnly (c : conn)
| CheckSuperReadOnly (c : conn)
| ReadGTIDSnapshot (c : conn)
| ShowReplicaStatus (c : conn)
| GetGtidExecuted (c : conn)
| CountAppConnections (c : conn)
| PinSession (site : string)
| CloseSession (site : string)
| SetSuperReadOnly (c : conn) (on : bool)
| SetReadOnly (c : conn) (on : bool)
| StopReplica (c : conn)
| ResetReplicaAll (c : conn)
| StartReplica (c : conn)
| ChangeReplicationSource (c : conn) (host user : string)
| KillSiteAppConnections (c : conn)
| RestorePeerHeld (site : string)
| ApplySiteDNS (site lbIP : string)
| SlotRelease (runID : string) (why : ClaimReleaseReason)
| SlotToHold (runID : string)
| ArmCrossSiteRetry (tm : Z)
| DNSEnded
| ClearReprove (runID : string)
| BeginPromotion (tm : Z)
| FinishTopologyChange (tm : Z)
| PromotionExecuted (tm : Z) (site : string).

(** A snapshot is the server's UUID ("" from a checker that reads only the executed set)
    and its executed set. A statement answers whether it
    returned no error. [CountAppConnections] answers [None] when the server has no count. *)
Definition ans (o : op) : Type :=
  match o with
  | CurrentManager => option TopologyManager
  | RequireRunClaim _ _ _ => option facade_error
  | Now _ => Z
  | CheckReadOnly _ => option bool
  | CheckSuperReadOnly _ => res read_error bool
  | ReadGTIDSnapshot _ => res read_error (string * string)
  | ShowReplicaStatus _ => option (option ReplicaStatus)
  | GetGtidExecuted _ => option string
  | CountAppConnections _ => option (option Z)
  | KillSiteAppConnections _ => option Z
  | CloseSession _ | ClearReprove _ | ArmCrossSiteRetry _ | BeginPromotion _ | FinishTopologyChange _ | PromotionExecuted _ _ => unit
  | _ => bool
  end.

(** ** Memory *)

Abbreviation promoteMemoStage := Failover.promoteMemoStage.

Definition stage_rank (s : promoteMemoStage) : Z :=
  match s with
  | Failover.promoteMemoNone => 0
  | Failover.promoteMemoStopSent => 1
  | Failover.promoteMemoResetSent => 2
  | Failover.promoteMemoSROClearSent => 3
  | Failover.promoteMemoROClearSent => 4
  end.

(** The error a promotion hook returned. *)
Inductive hook_error : Type :=
| plannedGateRefusal (out : PromoteOutcome)
| HookFacade (e : facade_error)
| HookOther.

(** [fenceMemo] keeps the UUID the fence was sent to. [hookErr], [gateWarnings] and
    [gateGtid] are the promotion's local variables the hooks set. *)
Record facade : Type := {
  fenceMemo : gmap string string;
  promoteMemo : gmap string promoteMemoStage;
  sourceLoss : gmap string Z;
  rollbackTargetLoss : gmap string Z;
  hookErr : hook_error;
  gateWarnings : list string;
  gateGtid : string
}.

#[export] Instance facade_eta : Eta facade := fun p =>
  Build_facade (fenceMemo p) (promoteMemo p) (sourceLoss p) (rollbackTargetLoss p) (hookErr p) (gateWarnings p) (gateGtid p).

Abbreviation fac := (st ans facade).
Abbreviation fret := (sret (Ans := ans) (St := facade)).
Abbreviation fcall := (scall (Ans := ans) (St := facade)).

Definition noteFenceSent (runID uuid : string) : fac unit := smodify (fun p => p <| fenceMemo := <[runID := uuid]> (fenceMemo p) |>).

Definition forgetRun (runID : string) : fac unit :=
  smodify (fun p => p <| fenceMemo := delete runID (fenceMemo p) |> <| promoteMemo := delete runID (promoteMemo p) |>
                      <| sourceLoss := delete runID (sourceLoss p) |> <| rollbackTargetLoss := delete runID (rollbackTargetLoss p) |>).

(** The window afterwards, and whether it has expired. [deadline] is 0 for none. *)
Definition lossExpired (window : gmap string Z) (runID : string) (now deadline : Z) : gmap string Z * bool :=
  let since := default now (window !! runID) in
  (<[runID := since]> window,
   if negb (isZeroTime deadline) && negb (now + plannedRequeuePoll <? deadline) then true
   else time_sub now since >=? plannedFailoverLossWindow).

Definition sourceLossExpired (runID : string) (now deadline : Z) : fac bool :=
  let^ p := sget id in
  let '(w, expired) := lossExpired (sourceLoss p) runID now deadline in
  smodify (fun p => p <| sourceLoss := w |>) ;;* fret expired.

Definition targetLossExpired (runID : string) (now deadline : Z) : fac bool :=
  let^ p := sget id in
  let '(w, expired) := lossExpired (rollbackTargetLoss p) runID now deadline in
  smodify (fun p => p <| rollbackTargetLoss := w |>) ;;* fret expired.

(** [lossRecovered] of each window. *)
Definition sourceLossRecovered (runID : string) : fac unit := smodify (fun p => p <| sourceLoss := delete runID (sourceLoss p) |>).

Definition targetLossRecovered (runID : string) : fac unit :=
  smodify (fun p => p <| rollbackTargetLoss := delete runID (rollbackTargetLoss p) |>).

Definition noteSourceObserved (runID : string) (reachable : bool) (now : Z) : fac unit :=
  if reachable then sourceLossRecovered runID else sourceLossExpired runID now 0 ;;* fret tt.

Definition start_promote (runID : string) (p : facade) : facade :=
  match promoteMemo p !! runID with
  | Some _ => p
  | None => p <| promoteMemo := <[runID := Failover.promoteMemoNone]> (promoteMemo p) |>
  end.

Definition startPromoteMemo (runID : string) : fac unit := smodify (start_promote runID).

Definition note_promote (runID : string) (s : promoteMemoStage) (p : facade) : facade :=
  match promoteMemo p !! runID with
  | Some cur => if stage_rank cur <? stage_rank s then p <| promoteMemo := <[runID := s]> (promoteMemo p) |> else p
  | None => p
  end.

Definition notePromoteSent (runID : string) (s : promoteMemoStage) : fac unit := smodify (note_promote runID s).

Definition proves_no_write (p : facade) (runID : string) : bool :=
  match promoteMemo p !! runID with
  | Some s => stage_rank s <? stage_rank Failover.promoteMemoSROClearSent
  | None => false
  end.

Definition memoProvesNoWrite (runID : string) : fac bool := sget (fun p => proves_no_write p runID).

End Facade.
