(* ===== verification/FacadeSteps.v ===== *)
(** * The planned-failover facade: fencing, probing, re-proof, promotion and rollback

    [internal/controller/planned_failover_ops.go] from [Fence] on, as programs over the
    answers of MySQL, the topology manager and the claim slot. Log lines, the simulator's
    hooks, messages and the UUIDs and stages the results carry for the record are left
    out. [withMySQLSafetyTimeout]: a read that times out is a failed read. *)
From S2P Require Import Prelude GoStd Intervals GtidSet SiteState Effects GoTime Failover FailoverRecord PlannedRun ClaimSlot EngineData EngineSteps FacadeData.

Local Open Scope Z_scope.

#[local] Arguments prog_bind {Op Ans A B} _ _ : simpl never.

Module Ops.

Import GTID Matrix PlannedRun FailoverRecords ClaimSlot Engine Steps Facade.

(** ** The manager and the claim *)

(** [p.manager], then [k]. *)
Definition with_manager {A} (k : TopologyManager -> fac (res facade_error A)) : fac (res facade_error A) :=
  let^ tm := fcall CurrentManager in
  match tm : option TopologyManager with
  | None => fret (Err errManagerAbsent)
  | Some tm => k tm
  end.

(** [requireRunClaim], then [k]. *)
Definition with_claim {A} (tm : TopologyManager) (ref : PlannedRunRef) (reprove : bool) (k : fac (res facade_error A)) : fac (res facade_error A) :=
  let^ e := fcall (RequireRunClaim (tm_id tm) ref reprove) in
  match e : option facade_error with
  | Some e => fret (Err e)
  | None => k
  end.

Definition leader_lost {A} (k : fac (res facade_error A)) : fac (res facade_error A) :=
  let^ lost := fcall LeaderLost in
  if lost : bool then fret (Err errLeaderLost) else k.

(** ** Probes *)

Record plannedProbe : Type := {
  probe_name : string;
  probe_role : SiteRole;
  probe_readOnly : option bool
}.

Definition probe_le (a b : plannedProbe) : Prop := String.le (probe_name a) (probe_name b).

#[export] Instance probe_le_dec : RelDecision probe_le.
Proof. intros a b. unfold probe_le. apply _. Defined.

Fixpoint probe_all (l : list siteTracker) : fac (list plannedProbe) :=
  match l with
  | [] => fret []
  | s :: l =>
      let^ ro := fcall (CheckReadOnly (Pooled (site_name s))) in
      let^ rest := probe_all l in
      fret ({| probe_name := site_name s; probe_role := site_role s; probe_readOnly := ro |} :: rest)
  end.

(** The reads are concurrent; the result is sorted by name. *)
Definition plannedProbeSites (tm : TopologyManager) (skip : list string) : fac (list plannedProbe) :=
  let^ l := probe_all (List.filter (fun s => negb (bool_decide (site_name s ∈ skip))) (sites tm)) in
  fret (merge_sort probe_le l).

Record plannedPeerVerdict : Type := {
  writable : list string;
  unreadable : list string;
  unreadableReaders : list string
}.

Definition classifyPlannedPeers (probes : list plannedProbe) : plannedPeerVerdict :=
  let names f := map probe_name (List.filter f probes) in
  {| writable := names (fun p => bool_decide (probe_readOnly p = Some false));
     unreadable := names (fun p => bool_decide (probe_readOnly p = None) && negb (bool_decide (probe_role p = SiteRoleReadOnly)));
     unreadableReaders := names (fun p => bool_decide (probe_readOnly p = None) && bool_decide (probe_role p = SiteRoleReadOnly)) |}.

Definition allUnreadable (v : plannedPeerVerdict) : list string := unreadable v ++ unreadableReaders v.

Definition probe_peers (tm : TopologyManager) (skip : list string) : fac plannedPeerVerdict :=
  let^ l := plannedProbeSites tm skip in fret (classifyPlannedPeers l).

Record sourceIdentity : Type := {
  id_readOnly : bool;
  id_superReadOnly : bool;
  id_uuid : string;
  id_gtid : string
}.

Definition readSourceIdentity (c : conn) : fac (res read_error sourceIdentity) :=
  let^ ro := fcall (CheckReadOnly c) in
  match ro : option bool with
  | None => fret (Err ReadFailed)
  | Some ro =>
      let^ sro := fcall (CheckSuperReadOnly c) in
      match sro : res read_error bool with
      | Err e => fret (Err e)
      | Ok sro =>
          let^ snap := fcall (ReadGTIDSnapshot c) in
          fret match snap : res read_error (string * string) with
               | Err e => Err e
               | Ok (uuid, gtid) => Ok {| id_readOnly := ro; id_superReadOnly := sro; id_uuid := uuid; id_gtid := gtid |}
               end
      end
  end.

(** ** Fencing *)

Definition proof_of (k : FenceResultKind) (reason : string) (sourceWritable : bool) : FenceProof :=
  {| FP_Kind := k; FP_Reason := reason; SourceWritable := sourceWritable; FP_GtidSet := ""; UnreadablePeers := []; Sent := false |}.

(** Whether a [super_read_only] source is the run's: [fenceAttribution] is not
    [FenceUnattributed]. *)
Definition attributable (p : facade) (runID intentUUID liveUUID : string) : bool :=
  bool_decide (fenceMemo p !! runID = Some liveUUID) || (bool_decide (intentUUID <> "") && bool_decide (intentUUID = liveUUID)).

Definition fenceAttribution (runID intentUUID liveUUID : string) : fac bool := sget (fun p => attributable p runID intentUUID liveUUID).

Definition fence_uuid (pf : Run) : string := match Engine.Fence pf with Some f => SourceServerUUID f | None => "" end.

Definition postFenceProof (tm : TopologyManager) (ref : PlannedRunRef) (i : sourceIdentity) : fac FenceProof :=
  let^ v := probe_peers tm [Ref_Source ref] in
  let foreign := nonempty (writable v) in
  fret {| FP_Kind := if foreign then FenceForeignWritable else FenceApplied; FP_Reason := if foreign then "ForeignWritable" else "";
          SourceWritable := false; FP_GtidSet := id_gtid i; UnreadablePeers := allUnreadable v; Sent := false |}.

(** The closure [attributed] of [fence]. *)
Definition attributed (tm : TopologyManager) (ref : PlannedRunRef) (intentUUID : string) (i : sourceIdentity) : fac (option FenceProof) :=
  if negb (id_readOnly i) || negb (id_superReadOnly i) then fret None
  else
    let^ ours := fenceAttribution (Ref_RunID ref) intentUUID (id_uuid i) in
    if negb ours then fret (Some (proof_of FenceNotAttributable "AuthorityChanged" false))
    else let^ proof := postFenceProof tm ref i in fret (Some proof).

Definition source_unreachable : FenceProof := proof_of FenceSourceUnreachable "SourceLost" false.

(** A source already read-only: decided by attribution, or [FenceNotSent]. *)
Definition fence_not_sent (tm : TopologyManager) (ref : PlannedRunRef) (intentUUID : string) (i : option sourceIdentity)
  : fac (res facade_error FenceProof) :=
  let^ a := match i with Some i => attributed tm ref intentUUID i | None => fret None end in
  fret (Ok (default (proof_of FenceNotSent "AuthorityChanged" false) a)).

(** From [requireRunClaim] before the statement on. *)
Definition fence_send (tm : TopologyManager) (ref : PlannedRunRef) (i : sourceIdentity) : fac (res facade_error FenceProof) :=
  let src := Pinned (Ref_Source ref) in
  with_claim tm ref false (
    noteFenceSent (Ref_RunID ref) (id_uuid i) ;;*
    let^ set := fcall (SetSuperReadOnly src true) in
    if negb set then fret (Ok (proof_of FenceRetry "FenceFailed" false))
    else
      let^ after := readSourceIdentity src in
      match after with
      | Ok after =>
          if negb (id_superReadOnly after) || negb (bool_decide (id_uuid after = id_uuid i)) then fret (Ok (proof_of FenceRetry "FenceFailed" false))
          else let^ proof := postFenceProof tm ref after in fret (Ok proof)
      | Err _ => fret (Ok (proof_of FenceRetry "FenceFailed" false))
      end).

(** On the pinned session. *)
Definition fence_pinned (tm : TopologyManager) (ref : PlannedRunRef) (sourceServerUUID : string) : fac (res facade_error FenceProof) :=
  let^ pinned := fcall (PinSession (Ref_Source ref)) in
  if negb (pinned : bool) then fret (Ok source_unreachable)
  else
    let^ i := readSourceIdentity (Pinned (Ref_Source ref)) in
    let^ r := (match i with
      | Err _ => fret (Ok source_unreachable)
      | Ok i =>
          if negb (bool_decide (id_uuid i = sourceServerUUID)) then fret (Ok (proof_of FenceNotSent "AuthorityChanged" (negb (id_readOnly i))))
          else if id_readOnly i then fence_not_sent tm ref sourceServerUUID (Some i)
          else fence_send tm ref i
      end) in
    fcall (CloseSession (Ref_Source ref)) ;;* fret r.

(** From the probe of every site on. *)
Definition fence_probed (tm : TopologyManager) (ref : PlannedRunRef) (sourceServerUUID : string) : fac (res facade_error FenceProof) :=
  let^ probes := plannedProbeSites tm [] in
  let others := List.filter (fun p => negb (bool_decide (probe_name p = Ref_Source ref))) probes in
  let src := match find (fun p => bool_decide (probe_name p = Ref_Source ref)) probes with Some p => probe_readOnly p | None => Some false end in
  let v := classifyPlannedPeers others in
  match src with
  | None => fret (Ok source_unreachable)
  | Some true =>
      let^ i := readSourceIdentity (Pooled (Ref_Source ref)) in
      match i with
      | Err ReadFailed => fret (Ok source_unreachable)
      | Err Unsupported => fence_not_sent tm ref sourceServerUUID None
      | Ok i => fence_not_sent tm ref sourceServerUUID (Some i)
      end
  | Some false =>
      if nonempty (writable v) then fret (Ok (proof_of FenceNotSent "AuthorityChanged" true))
      else if nonempty (unreadable v) then
        fret (Ok {| FP_Kind := FenceRetry; FP_Reason := "PeerUnreadable"; SourceWritable := false; FP_GtidSet := ""; UnreadablePeers := unreadable v;
                    Sent := false |})
      else fence_pinned tm ref sourceServerUUID
  end.

Definition fence (ref : PlannedRunRef) (sourceServerUUID : string) : fac (res facade_error FenceProof) :=
  with_manager (fun tm =>
    with_claim tm ref false (
      match getSite tm (Ref_Source ref) with
      | None => fret (Err errSiteNotFound)
      | Some _ =>
          let^ i := readSourceIdentity (Pooled (Ref_Source ref)) in
          let^ a := (match i with
                     | Err ReadFailed => fret (Some source_unreachable)
                     | Err Unsupported => fret None
                     | Ok i => attributed tm ref sourceServerUUID i
                     end) in
          match a with
          | Some proof => fret (Ok proof)
          | None => fence_probed tm ref sourceServerUUID
          end
      end)).

(** [proof.Sent]: the facade's memo records a fence sent for the run. The proof that goes
    with an error is left out. *)
Definition note_sent (runID : string) (m : fac (res facade_error FenceProof)) : fac (res facade_error FenceProof) :=
  let^ r := m in
  let^ p := sget id in
  fret match r with
       | Ok proof => Ok {| FP_Kind := FP_Kind proof; FP_Reason := FP_Reason proof; SourceWritable := SourceWritable proof; FP_GtidSet := FP_GtidSet proof;
                           UnreadablePeers := UnreadablePeers proof; Sent := Sent proof || bool_decide (is_Some (fenceMemo p !! runID)) |}
       | Err e => Err e
       end.

Definition Fence (ref : PlannedRunRef) (sourceServerUUID : string) : fac (res facade_error FenceProof) :=
  note_sent (Ref_RunID ref) (fence ref sourceServerUUID).

Definition proveFence (ref : PlannedRunRef) (f : FenceRecord) : fac (res facade_error FenceProof) :=
  leader_lost (with_manager (fun tm =>
    match getSite tm (Ref_Source ref) with
    | None => fret (Err errSiteNotFound)
    | Some _ =>
        let^ i := readSourceIdentity (Pooled (Ref_Source ref)) in
        match i with
        | Err _ => fret (Ok source_unreachable)
        | Ok i =>
            if negb (id_readOnly i) then fret (Ok (proof_of FenceRetry "" true))
            else if negb (id_superReadOnly i) then fret (Ok (proof_of FenceNotSent "SourceUnfenced" false))
            else
              let^ ours := fenceAttribution (Ref_RunID ref) (SourceServerUUID f) (id_uuid i) in
              if negb ours then fret (Ok (proof_of FenceNotAttributable "AuthorityChanged" false))
              else let^ proof := postFenceProof tm ref i in fret (Ok proof)
        end
    end)).

Definition ProveFence (ref : PlannedRunRef) (f : FenceRecord) : fac (res facade_error FenceProof) := note_sent (Ref_RunID ref) (proveFence ref f).

(** ** Draining, lag and the target's identity *)

(** [int32(n)] of an [int]. *)
Definition int32 (n : Z) : Z := (n + 2 ^ 31) mod 2 ^ 32 - 2 ^ 31.

(** The killed count that goes with an error is left out. *)
Definition KillAppConnections (ref : PlannedRunRef) : fac (res facade_error Z) :=
  with_manager (fun tm =>
    with_claim tm ref false (
      let^ killed := (match getSite tm (Ref_Source ref) with
        | None => fret (Err errSiteNotFound)
        | Some _ =>
            let^ n := fcall (KillSiteAppConnections (Pooled (Ref_Source ref))) in
            fret match n : option Z with Some n => Ok n | None => Err OtherError end
        end) in
      let^ now := fcall (Now (tm_id tm)) in
      noteSourceObserved (Ref_RunID ref) (match killed with Ok _ => true | Err _ => false end) now ;;*
      match killed with
      | Err e => fret (Err e)
      | Ok n =>
          let^ count := fcall (CountAppConnections (Pooled (Ref_Source ref))) in
          fret (Ok (int32 match count : option (option Z) with Some (Some left_) => left_ | _ => n end))
      end)).

Definition readGTIDSetRaw (c : conn) : fac (option GTIDSet) :=
  let^ raw := fcall (GetGtidExecuted c) in
  fret match raw : option string with
       | Some raw => match ParseGTIDSet raw with Ok set => Some set | Err _ => None end
       | None => None
       end.

Definition ProbeLag (ref : PlannedRunRef) (fenced : string) : fac (res facade_error LagProbe) :=
  with_manager (fun tm =>
    match ParseGTIDSet fenced with
    | Err _ => fret (Err OtherError)
    | Ok want =>
        match getSite tm (Ref_Source ref), getSite tm (Ref_Target ref) with
        | Some _, Some _ =>
            let^ ro := fcall (CheckReadOnly (Pooled (Ref_Source ref))) in
            let reachable := bool_decide (is_Some (ro : option bool)) in
            let^ now := fcall (Now (tm_id tm)) in
            noteSourceObserved (Ref_RunID ref) reachable now ;;*
            let^ have := readGTIDSetRaw (Pooled (Ref_Target ref)) in
            fret (Ok match have with
                     | None => {| SourceReachable := reachable; TargetReachable := false; CaughtUp := false; Divergent := false |}
                     | Some have => {| SourceReachable := reachable; TargetReachable := true; CaughtUp := Contains have want;
                                       Divergent := negb (IsEmpty (Subtract have want)) |}
                     end)
        | _, _ => fret (Err errSiteNotFound)
        end
    end).

Definition ReadTargetServerUUID (ref : PlannedRunRef) : fac (res facade_error string) :=
  with_manager (fun tm =>
    with_claim tm ref false (
      match getSite tm (Ref_Target ref) with
      | None => fret (Err errSiteNotFound)
      | Some _ =>
          let^ pinned := fcall (PinSession (Ref_Target ref)) in
          if negb (pinned : bool) then fret (Err OtherError)
          else
            let^ snap := fcall (ReadGTIDSnapshot (Pinned (Ref_Target ref))) in
            let^ r := (match snap : res read_error (string * string) with
                       | Err _ => fret (Err OtherError)
                       | Ok (uuid, _) =>
                           if bool_decide (uuid = "") then fret (Err OtherError)
                           else startPromoteMemo (Ref_RunID ref) ;;* fret (Ok uuid)
                       end) in
            fcall (CloseSession (Ref_Target ref)) ;;* fret r
      end)).

(** ** DNS *)

(** The attempts left after [attempted] of them failed. [Inl] ends with [DNSFailed]. *)
Fixpoint dns_attempts (n : nat) (first : bool) (tm : TopologyManager) (ref : PlannedRunRef) (ip : string) : fac (res facade_error DNSState) :=
  match n with
  | O => fret (Err OtherError)
  | S n =>
      let attempt :=
        (let^ ended := fcall DNSEnded in
         if ended : bool then fret (Err OtherError)
         else
           let^ applied := fcall (ApplySiteDNS (Ref_Target ref) ip) in
           if applied : bool then fret (Ok DNSApplied) else dns_attempts n false tm ref ip) in
      if first then attempt else with_claim tm ref false attempt
  end.

Definition plannedDNSAttempts : nat := 3.

(** [DNSFailed] goes with every error from the loop. *)
Definition ApplyDNS (ref : PlannedRunRef) : fac (res facade_error DNSState) :=
  with_manager (fun tm =>
    with_claim tm ref false (
      match getSite tm (Ref_Target ref) with
      | None => fret (Err errSiteNotFound)
      | Some tgt =>
          if negb (has_dns tm) || bool_decide (lbIP tgt = "") then fret (Ok DNSSkipped)
          else dns_attempts plannedDNSAttempts true tm ref (lbIP tgt)
      end)).

(** ** The claim's end *)

Definition ConvertToHold (runID : string) : fac bool :=
  let^ held := fcall (SlotToHold runID) in
  if negb (held : bool) then fret false else forgetRun runID ;;* fret true.

Definition ReleasePlannedFailoverClaim (runID : string) (why : ClaimReleaseReason) : fac bool :=
  if bool_decide (why = ReleaseToHold) then ConvertToHold runID
  else
    let^ released := fcall (SlotRelease runID why) in
    if negb (released : bool) then fret false
    else
      forgetRun runID ;;*
      let^ tm := fcall CurrentManager in
      match tm : option TopologyManager with
      | Some tm => fcall (ArmCrossSiteRetry (tm_id tm)) ;;* fret true
      | None => fret true
      end.

(** ** The grant's evidence *)

Section grant.

(** Unicode's lower-case mapping, used on text that is not ASCII. *)
Context (unicode_lower : string -> string).

Definition TrimSuffix (suffix s : string) : string :=
  let n := (String.length s - String.length suffix)%nat in
  if bool_decide (s = String.substring 0 n s +:+ suffix) then String.substring 0 n s else s.

Definition canonicalSourceHost (h : string) : string :=
  let h := TrimSpace h in
  let h := if str_forallb is_ascii_byte h then lower_ascii h else unicode_lower h in
  TrimSuffix "." (TrimSuffix ":3306" h).

(** What a probe says against the grant: the reason to wait. *)
Definition probe_blocks (source target : string) (p : plannedProbe) : option string :=
  if bool_decide (probe_name p = source) then
    match probe_readOnly p with None => Some "PeerUnreadable" | Some true => Some "AuthorityUnsettled" | Some false => None end
  else if bool_decide (probe_name p = target) then
    match probe_readOnly p with None => Some "TargetNotReady" | Some false => Some "AuthorityUnsettled" | Some true => None end
  else
    match probe_readOnly p with
    | Some false => Some "AuthorityUnsettled"
    | None => if bool_decide (probe_role p = SiteRoleReadOnly) then None else Some "PeerUnreadable"
    | Some true => None
    end.

Fixpoint first_block (source target : string) (l : list plannedProbe) : option string :=
  match l with
  | [] => None
  | p :: l => match probe_blocks source target p with Some r => Some r | None => first_block source target l end
  end.

Definition replica_blocks (src : siteTracker) (repl : option (option ReplicaStatus)) : option string :=
  match repl with
  | None | Some None => Some "TargetNotReady"
  | Some (Some r) =>
      if negb (IORunning r) || negb (SQLRunning r) || bool_decide (LastSQLError r <> "")
         || negb (bool_decide (canonicalSourceHost (SourceHost r) = canonicalSourceHost (host src)))
      then Some "TargetNotReady" else None
  end.

(** [Err]: the reason to wait. [Ok]: the source's UUID. The reads are concurrent. *)
Definition plannedGrantEvidence (tm : TopologyManager) (source target : string) : fac (res string string) :=
  match getSite tm source, getSite tm target with
  | Some src, Some _ =>
      let^ snap := fcall (ReadGTIDSnapshot (Pooled source)) in
      let^ repl := fcall (ShowReplicaStatus (Pooled target)) in
      let^ probes := plannedProbeSites tm [] in
      fret match first_block source target probes with
           | Some r => Err r
           | None =>
               match snap : res read_error (string * string) with
               | Err _ => Err "PeerUnreadable"
               | Ok (uuid, _) =>
                   if bool_decide (uuid = "") then Err "PeerUnreadable"
                   else match replica_blocks src repl with Some r => Err r | None => Ok uuid end
               end
           end
  | _, _ => fret (Err "AuthorityUnsettled")
  end.

End grant.

End Ops.
