(* ===== verification/FacadePromote.v ===== *)
(** * The planned-failover facade: promotion

    [internal/controller/planned_failover_ops.go] from [readPromotionLive] on: the stage a
    promotion resumes from, the pre-write gate, the promotion - [Failover]'s, on the
    pinned session - and the live confirmation. *)
From S2P Require Import Prelude GoStd Intervals GtidSet SiteState Effects GoTime Failover FailoverRecord PlannedRun ClaimSlot EngineData EngineSteps FacadeData FacadeSteps.

Local Open Scope Z_scope.

#[local] Arguments prog_bind {Op Ans A B} _ _ : simpl never.

Module Promotion.

Import GTID Matrix PlannedRun FailoverRecords ClaimSlot Engine Steps Facade Ops.

(** ** Live state *)

Record promotionLive : Type := {
  live_readOnly : bool;
  live_superReadOnly : bool;
  live_repl : option ReplicaStatus;
  live_uuid : string;
  live_gtid : GTIDSet;
  live_gtidRaw : string
}.

#[export] Instance promotionLive_eta : Eta promotionLive := fun l =>
  Build_promotionLive (live_readOnly l) (live_superReadOnly l) (live_repl l) (live_uuid l) (live_gtid l) (live_gtidRaw l).

(** [None]: a read failed, or the set did not parse. *)
Definition readPromotionLive (c : conn) : fac (option promotionLive) :=
  let^ ro := fcall (CheckReadOnly c) in
  match ro : option bool with
  | None => fret None
  | Some ro =>
      let^ sro := fcall (CheckSuperReadOnly c) in
      match sro : res read_error bool with
      | Err _ => fret None
      | Ok sro =>
          let^ repl := fcall (ShowReplicaStatus c) in
          match repl : option (option ReplicaStatus) with
          | None => fret None
          | Some repl =>
              let^ snap := fcall (ReadGTIDSnapshot c) in
              fret match snap : res read_error (string * string) with
                   | Err _ => None
                   | Ok (uuid, raw) =>
                       match ParseGTIDSet raw with
                       | Err _ => None
                       | Ok set => Some {| live_readOnly := ro; live_superReadOnly := sro; live_repl := repl; live_uuid := uuid;
                                           live_gtid := set; live_gtidRaw := raw |}
                       end
                   end
          end
      end
  end.

(** ** The run's record *)

Definition plannedPromotionUUID (pf : Run) : string := match Engine.Promotion pf with Some p => TargetServerUUID p | None => "" end.

(** [None]: none, or it does not parse. *)
Definition plannedFenceGTIDSet (pf : Run) : option GTIDSet :=
  match Engine.Fence pf with
  | Some f => match Fence_GtidSet f with
              | Some raw => match ParseGTIDSet raw with Ok set => Some set | Err _ => None end
              | None => None
              end
  | None => None
  end.

(** [pf.Fence != nil] and names [uuid]. *)
Definition fence_names (pf : Run) (uuid : string) : bool :=
  match Engine.Fence pf with Some f => bool_decide (uuid = SourceServerUUID f) | None => false end.

Section promotion.

(** [strings.EqualFold] when a text is not ASCII. *)
Context (unicode_fold : string -> string -> bool).

Definition EqualFold (s t : string) : bool :=
  if str_forallb is_ascii_byte s && str_forallb is_ascii_byte t then bool_decide (lower_ascii s = lower_ascii t)
  else unicode_fold s t.

Definition sids (g : GTIDSet) : list string := map fst (map_to_list g).

Definition ownExtras (extra : GTIDSet) (u : string) : bool := forallb (fun sid => EqualFold (GTID.sourceUUID sid) u) (sids extra).

Definition sourceAdvancedPast (i : sourceIdentity) (F : GTIDSet) (U : string) : bool :=
  match ParseGTIDSet (id_gtid i) with
  | Err _ => false
  | Ok have => existsb (fun sid => bool_decide (U = "") || negb (EqualFold (GTID.sourceUUID sid) U)) (sids (Subtract have F))
  end.

(** ** Outcomes *)

Definition promote_outcome (kind : PromoteOutcomeKind) (reason : string) (terminal : option Outcome) (sites : list string) (written : bool)
  : PromoteOutcome :=
  {| PO_Kind := kind; PO_Reason := reason; PO_Terminal := terminal; PO_Warnings := []; PO_TargetReachable := true;
     MayHaveWritten := written; RollbackIfUnrecorded := false; PO_Sites := sites |}.

#[export] Instance PromoteOutcome_eta : Eta PromoteOutcome := fun o =>
  Build_PromoteOutcome (PO_Kind o) (PO_Reason o) (PO_Terminal o) (PO_Warnings o) (PO_TargetReachable o) (MayHaveWritten o)
    (RollbackIfUnrecorded o) (PO_Sites o).

Abbreviation PromotionStage := Failover.PromotionStage.

(** [Err]: the verdict the promotion returns without sending anything. *)
Definition classifyPromotionStage (live : promotionLive) (F : GTIDSet) (U : string) (memoNoWrite : bool) : res PromoteOutcome PromotionStage :=
  let abort reason terminal := Err (promote_outcome PromoteAborted reason terminal [] false) in
  let inconsistent reason := Err (promote_outcome PromoteInconsistent reason None [] true) in
  let extra := Subtract (live_gtid live) F in
  let missing := negb (Contains (live_gtid live) F) in
  let own := ownExtras extra U in
  if negb (EqualFold (live_uuid live) U) then
    if memoNoWrite then abort "TargetChanged" None else inconsistent "ExecuteFailed"
  else if negb (live_readOnly live) && bool_decide (is_Some (live_repl live)) then
    if memoNoWrite then abort "ForeignWritable" (Some OutcomeSourceLeftFenced) else inconsistent "ForeignWritable"
  else if negb (live_readOnly live) && memoNoWrite then abort "ForeignWritable" (Some OutcomeSourceLeftFenced)
  else if negb (live_readOnly live) && negb missing && own then Ok Failover.PromotionStageWritable
  else if negb (live_readOnly live) && missing then inconsistent "ExecuteFailed"
  else if negb (live_readOnly live) then inconsistent "ForeignWritable"
  else
    match live_repl live with
    | Some r => Ok (if IORunning r || IOConnecting r || SQLRunning r then Failover.PromotionStageNotStarted else Failover.PromotionStageReplicaStopped)
    | None =>
        if negb missing && IsEmpty extra then Ok Failover.PromotionStageReplicaReset
        else if negb missing && own then
          if memoNoWrite then abort "AuthorityChanged" (Some OutcomeSourceLeftFenced) else Ok Failover.PromotionStageWasWritable
        else if missing && own then
          if memoNoWrite then abort "TargetChanged" None else inconsistent "ExecuteFailed"
        else inconsistent "ForeignWritable"
    end.

(** ** The gate *)

(** [None]: the manager is current and the target promotable. *)
Definition checkPlannedPromotionManager (tm : TopologyManager) (ref : PlannedRunRef) (mayHaveWritten : bool) : fac (option hook_error) :=
  let^ cur := fcall CurrentManager in
  let^ retired := fcall (Retired (tm_id tm)) in
  fret (if negb (bool_decide (tm_id <$> (cur : option TopologyManager) = Some (tm_id tm))) || retired then Some HookOther
        else if match getSite tm (Ref_Target ref) with Some tgt => isPromotable tgt | None => false end then None
        else Some (plannedGateRefusal (promote_outcome PromoteAborted "TargetNotPromotable" None [Ref_Target ref] mayHaveWritten))).

Definition gate_result : Type := res hook_error (list string * string).

Definition refuse (kind : PromoteOutcomeKind) (reason : string) (terminal : option Outcome) (sites : list string) (wasWritable : bool) : fac gate_result :=
  fret (Err (plannedGateRefusal (promote_outcome kind reason terminal sites wasWritable))).

(** 4: every other site. *)
Definition gate_peers (tm : TopologyManager) (ref : PlannedRunRef) (wasWritable : bool) (warnings : list string) (live : promotionLive) : fac gate_result :=
  let^ v := probe_peers tm [Ref_Source ref; Ref_Target ref] in
  if nonempty (writable v) then
    refuse (if wasWritable then PromoteInconsistent else PromoteAborted) "ForeignWritable" None (writable v) wasWritable
  else if nonempty (unreadable v) then
    refuse PromoteAborted "PeerUnreadable" (if wasWritable then Some OutcomePromotedUnconfirmed else None) (unreadable v) wasWritable
  else fret (Ok (warnings ++ (if nonempty (unreadableReaders v) then ["UnreachablePeers"] else []), live_gtidRaw live)).

(** 3: the source. *)
Definition gate_source (tm : TopologyManager) (ref : PlannedRunRef) (pf : Run) (F : GTIDSet) (U : string) (wasWritable : bool) (live : promotionLive)
  : fac gate_result :=
  let src := [Ref_Source ref] in
  match getSite tm (Ref_Source ref) with
  | None => fret (Err (HookFacade errSiteNotFound))
  | Some _ =>
      let^ i := readSourceIdentity (Pooled (Ref_Source ref)) in
      match i with
      | Err _ =>
          if wasWritable then refuse PromoteAborted "SourceLost" (Some OutcomePromotedUnconfirmed) src wasWritable
          else
            let^ now := fcall (Now (tm_id tm)) in
            let^ expired := sourceLossExpired (Ref_RunID ref) now 0 in
            if negb expired then fret (Err HookOther) else refuse PromoteAborted "SourceLost" None src wasWritable
      | Ok i =>
          sourceLossRecovered (Ref_RunID ref) ;;*
          if wasWritable then
            if negb (id_readOnly i) || sourceAdvancedPast i F U then refuse PromoteInconsistent "ForeignWritable" None src wasWritable
            else gate_peers tm ref wasWritable (if fence_names pf (id_uuid i) then [] else ["SourceReplaced"]) live
          else if negb (id_superReadOnly i) || negb (fence_names pf (id_uuid i)) then refuse PromoteAborted "SourceUnfenced" None src wasWritable
          else if sourceAdvancedPast i F U then refuse PromoteAborted "AuthorityChanged" None src wasWritable
          else gate_peers tm ref wasWritable [] live
      end
  end.

(** Whether the target may be made writable. *)
Definition gate_target_ok (live : promotionLive) (F : GTIDSet) (U : string) (wasWritable : bool) : bool :=
  let extra := Subtract (live_gtid live) F in
  live_readOnly live && negb (bool_decide (is_Some (live_repl live))) && EqualFold (live_uuid live) U && Contains (live_gtid live) F
  && (if wasWritable then ownExtras extra U else IsEmpty extra).

Definition plannedPreWriteGate (tm : TopologyManager) (ref : PlannedRunRef) (pf : Run) (F : GTIDSet) (U : string) (wasWritable : bool) : fac gate_result :=
  let tgt := [Ref_Target ref] in
  let^ e := fcall (RequireRunClaim (tm_id tm) ref false) in
  match e : option facade_error with
  | Some e => fret (Err (HookFacade e))
  | None =>
      let^ e := checkPlannedPromotionManager tm ref wasWritable in
      match e with
      | Some e => fret (Err e)
      | None =>
          let^ live := readPromotionLive (Pinned (Ref_Target ref)) in
          match live with
          | None => fret (Err HookOther)
          | Some live =>
              if negb (gate_target_ok live F U wasWritable) then
                if wasWritable then refuse PromoteInconsistent "ExecuteFailed" None tgt wasWritable
                else refuse PromoteAborted "TargetChanged" None tgt wasWritable
              else gate_source tm ref pf F U wasWritable live
          end
      end
  end.

(** ** The confirmation *)

Definition unconfirmed_outcome (warnings : list string) (reachable written : bool) : PromoteOutcome :=
  promote_outcome PromoteUnconfirmed "PromotionUnconfirmed" None [] written <| PO_Warnings := warnings |> <| PO_TargetReachable := reachable |>.

(** The source's part: the warnings, or [None] when it contradicts the promotion. *)
Definition confirm_source (tm : TopologyManager) (ref : PlannedRunRef) (pf : Run) (F : GTIDSet) (U : string) : fac (option (list string)) :=
  match getSite tm (Ref_Source ref) with
  | None => fret (Some [])
  | Some _ =>
      let^ i := readSourceIdentity (Pooled (Ref_Source ref)) in
      fret match i with
           | Err _ => Some ["UnreachablePeers"]
           | Ok i => if negb (id_readOnly i) || sourceAdvancedPast i F U then None
                     else Some (if fence_names pf (id_uuid i) then [] else ["SourceReplaced"])
           end
  end.

Definition confirmPlannedPromotion (tm : TopologyManager) (ref : PlannedRunRef) (pf : Run) (F : GTIDSet) (U : string) : fac PromoteOutcome :=
  let inconsistent reason := promote_outcome PromoteInconsistent reason None [] true in
  let^ live := readPromotionLive (Pinned (Ref_Target ref)) in
  match live with
  | None => fret (unconfirmed_outcome [] false true)
  | Some live =>
      if live_readOnly live then fret (unconfirmed_outcome [] true true)
      else if bool_decide (is_Some (live_repl live)) || negb (Contains (live_gtid live) F) || negb (ownExtras (Subtract (live_gtid live) F) U)
      then fret (inconsistent "ForeignWritable")
      else if negb (EqualFold (live_uuid live) U) then fret (inconsistent "ExecuteFailed")
      else
        let^ ws := confirm_source tm ref pf F U in
        match ws with
        | None => fret (inconsistent "ForeignWritable")
        | Some ws =>
            let^ v := probe_peers tm [Ref_Source ref; Ref_Target ref] in
            fret (if nonempty (writable v) then inconsistent "ForeignWritable" <| PO_Warnings := ws |>
                  else promote_outcome PromoteConfirmed "" None [] true
                         <| PO_Warnings := if nonempty (allUnreadable v) && bool_decide ("UnreachablePeers" ∉ ws) then ws ++ ["UnreachablePeers"] else ws |>)
        end
  end.

(** ** The promotion *)

(** [closeSess] when it is open. *)
Definition close_session (ref : PlannedRunRef) (open : bool) : fac unit :=
  if open then fcall (CloseSession (Ref_Target ref)) else fret tt.

(** The closure [unconfirmed]. The session is closed before the probe. *)
Definition unconfirmed (ref : PlannedRunRef) (open : bool) (warnings : list string) : fac PromoteOutcome :=
  close_session ref open ;;*
  let^ ro := fcall (CheckReadOnly (Pooled (Ref_Target ref))) in
  let^ no_write := memoProvesNoWrite (Ref_RunID ref) in
  fret (unconfirmed_outcome warnings (bool_decide (is_Some (ro : option bool))) (negb no_write)).

Definition mergeWarnings (a b : list string) : list string :=
  fold_left (fun out w => if bool_decide (w ∈ out) then out else out ++ [w]) b a.

Definition set_hook_error (e : hook_error) : fac unit := smodify (fun p => p <| hookErr := e |>).

(** The hooks a planned promotion passes to [promoteVerifiedFrom], and its statements on
    the pinned session. Its other calls do not occur ([promoteVerifiedFrom_only]). *)
Definition promote_hook (tm : TopologyManager) (ref : PlannedRunRef) (pf : Run) (F : GTIDSet) (U : string) (wasWritable : bool) (o : Failover.op)
  : fac (Failover.ans o) :=
  let sess := Pinned (Ref_Target ref) in
  match o with
  | Failover.HookGuard =>
      let^ e := fcall (RequireRunClaim (tm_id tm) ref false) in
      match e : option facade_error with
      | Some e => set_hook_error (HookFacade e) ;;* fret false
      | None =>
          let^ no_write := memoProvesNoWrite (Ref_RunID ref) in
          let^ e := checkPlannedPromotionManager tm ref (negb no_write) in
          match e with
          | Some e => set_hook_error e ;;* fret false
          | None => fret true
          end
      end
  | Failover.HookBefore s => notePromoteSent (Ref_RunID ref) s
  | Failover.HookAfter => fret tt
  | Failover.HookGate =>
      let^ r := plannedPreWriteGate tm ref pf F U wasWritable in
      match r with
      | Ok (w, gtid) => smodify (fun p => p <| gateWarnings := w |> <| gateGtid := gtid |>) ;;* fret true
      | Err e => set_hook_error e ;;* fret false
      end
  | Failover.StopReplica _ => fcall (StopReplica sess)
  | Failover.ResetReplicaAll _ => fcall (ResetReplicaAll sess)
  | Failover.GetGtidExecuted _ => fcall (GetGtidExecuted sess)
  | Failover.SetSuperReadOnly _ on => fcall (SetSuperReadOnly sess on)
  | Failover.SetReadOnly _ on => fcall (SetReadOnly sess on)
  | Failover.CheckReadOnly _ => fret None
  | Failover.ShowReplicaStatus _ => fret None
  | Failover.CloseSession => fret tt
  | Failover.Now => fret 0
  | _ => fret false
  end.

(** A [Failover] program with every call answered by [h]. *)
Fixpoint lower {A} (h : forall o, fac (Failover.ans o)) (p : prog Failover.ans A) : fac A :=
  match p with
  | Ret a => fret a
  | Vis o k => let^ x := h o in lower h (k x)
  end.

Definition plannedHooks : Failover.promoteHooks := {| Failover.before := true; Failover.after := true; Failover.gate := true; Failover.guard := true |}.

Definition promotion_locals : fac unit := smodify (fun p => p <| hookErr := HookOther |> <| gateWarnings := [] |> <| gateGtid := "" |>).

Definition replacedTargetRollbackSafe (tm : TopologyManager) (ref : PlannedRunRef) (pf : Run) (F : GTIDSet) : fac bool :=
  match getSite tm (Ref_Source ref) with
  | None => fret false
  | Some _ =>
      let^ i := readSourceIdentity (Pooled (Ref_Source ref)) in
      match i with
      | Err _ => fret false
      | Ok i =>
          let^ ours := fenceAttribution (Ref_RunID ref) (fence_uuid pf) (id_uuid i) in
          if negb (id_readOnly i) || negb (id_superReadOnly i) || negb ours then fret false
          else match ParseGTIDSet (id_gtid i) with
               | Err _ => fret false
               | Ok have =>
                   if negb (Contains have F) then fret false
                   else let^ v := probe_peers tm [Ref_Source ref; Ref_Target ref] in fret (negb (nonempty (writable v)) && negb (nonempty (unreadable v)))
               end
      end
  end.

(** From [deploymentPromotionExecuted] on. *)
Definition promote_confirm (tm : TopologyManager) (ref : PlannedRunRef) (pf : Run) (F : GTIDSet) (U : string) : fac PromoteOutcome :=
  fcall (PromotionExecuted (tm_id tm) (Ref_Target ref)) ;;* confirmPlannedPromotion tm ref pf F U.

(** What [promoteVerifiedFrom] returned: the outcome, and whether the session is still
    open. *)
Definition promote_finish (tm : TopologyManager) (ref : PlannedRunRef) (pf : Run) (F : GTIDSet) (U : string) (err : option Failover.promote_error)
  : fac (res facade_error PromoteOutcome * bool) :=
  let^ p := sget id in
  let unresolved := let^ out := unconfirmed ref true (gateWarnings p) in fret (Ok out, false) in
  match err with
  | Some (Failover.GuardRefused | Failover.GateRefused) =>
      match hookErr p with
      | plannedGateRefusal out => fret (Ok out, true)
      | HookFacade (errLeaderLost as e) | HookFacade (errClaimLost as e) | HookFacade (errSiteNotFound as e) => fret (Err e, true)
      | _ => unresolved
      end
  | Some (Failover.ProofMissing _ | Failover.ProofDivergent _) => fret (Ok (promote_outcome PromoteAborted "TargetChanged" None [] false), true)
  | Some _ => unresolved
  | None =>
      let^ out := promote_confirm tm ref pf F U in
      let out := out <| PO_Warnings := mergeWarnings (gateWarnings p) (PO_Warnings out) |> in
      match PO_Kind out with
      | PromoteUnconfirmed => let^ u := unconfirmed ref true [] in fret (Ok (out <| PO_TargetReachable := PO_TargetReachable u |>), false)
      | _ => fret (Ok out, true)
      end
  end.

(** From the stage's classification on. *)
Definition promote_stage (tm : TopologyManager) (ref : PlannedRunRef) (pf : Run) (F : GTIDSet) (U : string) (stage : PromotionStage)
  : fac (res facade_error PromoteOutcome * bool) :=
  match stage with
  | Failover.PromotionStageWritable => let^ out := promote_confirm tm ref pf F U in fret (Ok out, true)
  | _ =>
      (match stage with
       | Failover.PromotionStageNotStarted | Failover.PromotionStageReplicaStopped => startPromoteMemo (Ref_RunID ref)
       | _ => fret tt
       end) ;;*
      promotion_locals ;;*
      let was := match stage with Failover.PromotionStageWasWritable => true | _ => false end in
      let^ r := lower (promote_hook tm ref pf F U was) (Failover.promoteVerifiedFrom F stage plannedHooks) in
      promote_finish tm ref pf F U r.2
  end.

(** On the pinned session. *)
Definition promote_pinned (tm : TopologyManager) (ref : PlannedRunRef) (pf : Run) (F : GTIDSet) (U : string) : fac (res facade_error PromoteOutcome) :=
  let^ pinned := fcall (PinSession (Ref_Target ref)) in
  if negb (pinned : bool) then let^ out := unconfirmed ref false [] in fret (Ok out)
  else
    let^ live := readPromotionLive (Pinned (Ref_Target ref)) in
    let^ r := (match live with
      | None => let^ out := unconfirmed ref true [] in fret (Ok out, false)
      | Some live =>
          let^ haveMemo := sget (fun p => bool_decide (is_Some (promoteMemo p !! Ref_RunID ref))) in
          let^ no_write := memoProvesNoWrite (Ref_RunID ref) in
          match classifyPromotionStage live F U no_write with
          | Err verdict =>
              match PO_Kind verdict, negb haveMemo && live_readOnly live && negb (EqualFold (live_uuid live) U) with
              | PromoteInconsistent, true =>
                  let^ safe := replacedTargetRollbackSafe tm ref pf F in fret (Ok (verdict <| RollbackIfUnrecorded := safe |>), true)
              | _, _ => fret (Ok verdict, true)
              end
          | Ok stage => promote_stage tm ref pf F U stage
          end
      end) in
    let '(out, open) := r in
    close_session ref open ;;* fret out.

Definition promotePlannedRun (tm : TopologyManager) (ref : PlannedRunRef) (pf : Run) : fac (res facade_error PromoteOutcome) :=
  match getSite tm (Ref_Target ref), getSite tm (Ref_Source ref) with
  | Some tgt, Some _ =>
      let U := plannedPromotionUUID pf in
      if bool_decide (U = "") then fret (Err OtherError)
      else match plannedFenceGTIDSet pf with
           | None => fret (Ok (promote_outcome PromoteAborted "InvalidGTID" None [] false <| PO_TargetReachable := false |>))
           | Some F =>
               if negb (isPromotable tgt) then
                 let^ no_write := memoProvesNoWrite (Ref_RunID ref) in
                 fret (Ok (promote_outcome PromoteAborted "TargetNotPromotable" None [] (negb no_write)))
               else
                 fcall (BeginPromotion (tm_id tm)) ;;*
                 let^ out := promote_pinned tm ref pf F U in
                 fcall (FinishTopologyChange (tm_id tm)) ;;* fret out
           end
  | _, _ => fret (Err errSiteNotFound)
  end.

Definition Promote (ref : PlannedRunRef) (pf : Run) : fac (res facade_error PromoteOutcome) :=
  with_manager (fun tm => with_claim tm ref false (promotePlannedRun tm ref pf)).

(** ** The re-proof *)

Definition phaseAfterFencing (p : PlannedFailoverPhase) : bool :=
  match p with
  | PlannedFailoverPhaseDraining | PlannedFailoverPhaseWaitingForLag | PlannedFailoverPhaseWaitingForDragonflySync
  | PlannedFailoverPhasePromotingDragonfly | PlannedFailoverPhasePromoting => true
  | _ => false
  end.

(** What the checks found so far. *)
Record proof_checks : Type := {
  failed : option string;
  recordChanged : bool;
  lackOfEvidence : bool;
  sourceWrote : bool
}.

Definition checks_ok : proof_checks := {| failed := None; recordChanged := false; lackOfEvidence := false; sourceWrote := false |}.

Definition check_failed (reason : string) : proof_checks := {| failed := Some reason; recordChanged := false; lackOfEvidence := false; sourceWrote := false |}.

Definition promoting (pf : Run) : bool := bool_decide (Phase pf = PlannedFailoverPhasePromoting).

(** Check 2. [None]: the source did not answer before Promoting. *)
Definition reprove_source (ref : PlannedRunRef) (pf : Run) : fac (option proof_checks) :=
  if negb (phaseAfterFencing (Phase pf)) then fret (Some checks_ok)
  else
    let^ i := readSourceIdentity (Pooled (Ref_Source ref)) in
    let missing r := {| failed := Some r; recordChanged := false; lackOfEvidence := true; sourceWrote := false |} in
    fret match i with
         | Err _ => if promoting pf then Some (missing "SourceLost") else None
         | Ok i =>
             if negb (id_superReadOnly i) || negb (fence_names pf (id_uuid i)) then Some (missing "SourceUnfenced")
             else match plannedFenceGTIDSet pf with
                  | Some F => if sourceAdvancedPast i F (plannedPromotionUUID pf)
                              then Some {| failed := Some "AuthorityChanged"; recordChanged := false; lackOfEvidence := false; sourceWrote := true |}
                              else Some checks_ok
                  | None => Some checks_ok
                  end
         end.

Definition reproved (tm : TopologyManager) (ref : PlannedRunRef) : fac (res facade_error ReproveResult) :=
  fcall (ClearReprove (Ref_RunID ref)) ;;*
  fret (Ok {| RR_OK := true; RR_RollBack := None; RR_Hold := None; RR_HandOff := None; SourceUnreachable := false |}).

Definition roll_back (reason : string) : res facade_error ReproveResult :=
  Ok {| RR_OK := false; RR_RollBack := Some reason; RR_Hold := None; RR_HandOff := None; SourceUnreachable := false |}.

Definition hold (reason : string) : res facade_error ReproveResult :=
  Ok {| RR_OK := false; RR_RollBack := None; RR_Hold := Some reason; RR_HandOff := None; SourceUnreachable := false |}.

(** Whether the target proves that no transaction of the run committed; it is put back
    behind [super_read_only]. *)
Definition target_unwritten (tm : TopologyManager) (ref : PlannedRunRef) (pf : Run) : fac (res facade_error bool) :=
  match plannedFenceGTIDSet pf with
  | None => fret (Ok false)
  | Some F =>
      let^ live := readPromotionLive (Pooled (Ref_Target ref)) in
      match live with
      | None => fret (Ok false)
      | Some live =>
          if negb (live_readOnly live) || negb (IsEmpty (Subtract (live_gtid live) F)) then fret (Ok false)
          else if live_superReadOnly live then fret (Ok true)
          else with_claim tm ref true (fcall (SetSuperReadOnly (Pooled (Ref_Target ref)) true) ;;* fret (Ok true))
      end
  end.

(** Promoting, with a check failed or evidence missing. *)
Definition reprove_promoting (tm : TopologyManager) (ref : PlannedRunRef) (pf : Run) (c : proof_checks) (v : plannedPeerVerdict)
  : fac (res facade_error ReproveResult) :=
  let^ unwritten := target_unwritten tm ref pf in
  match unwritten with
  | Err e => fret (Err e)
  | Ok true => fret (roll_back (default "PeerUnreadable" (failed c)))
  | Ok false =>
      if recordChanged c then fret (hold "AuthorityChanged")
      else if nonempty (writable v) || sourceWrote c then fret (hold "ForeignWritable")
      else
        fcall (ClearReprove (Ref_RunID ref)) ;;*
        let^ out := promotePlannedRun tm ref pf in
        fret match out with
             | Err e => Err e
             | Ok out =>
                 let out := out <| PO_Warnings := mergeWarnings (PO_Warnings out) (if nonempty (allUnreadable v) then ["UnreachablePeers"] else []) |> in
                 Ok {| RR_OK := false; RR_RollBack := None; RR_Hold := None; RR_HandOff := Some out; SourceUnreachable := false |}
             end
  end.

(** Check 3 on. *)
Definition reprove_peers (tm : TopologyManager) (ref : PlannedRunRef) (pf : Run) (c : proof_checks) : fac (res facade_error ReproveResult) :=
  let^ v := probe_peers tm [Ref_Source ref; Ref_Target ref] in
  let c := {| failed := match failed c with None => if nonempty (writable v) then Some "ForeignWritable" else None | Some r => Some r end;
              recordChanged := recordChanged c; lackOfEvidence := lackOfEvidence c; sourceWrote := sourceWrote c |} in
  let lack := lackOfEvidence c || (nonempty (unreadable v) && promoting pf && bool_decide (failed c = None)) in
  if negb (promoting pf) then match failed c with Some r => fret (roll_back r) | None => reproved tm ref end
  else match failed c with
       | None => if lack then reprove_promoting tm ref pf c v else reproved tm ref
       | Some _ => reprove_promoting tm ref pf c v
       end.

Definition Reprove (ref : PlannedRunRef) (fg : Engine.Group) : fac (res facade_error ReproveResult) :=
  with_manager (fun tm =>
    with_claim tm ref true (
      match Steps.plannedFailoverRun fg with
      | (Some pf, false) =>
          if negb (bool_decide (RunID pf = Ref_RunID ref)) then fret (Err errClaimLost)
          else match getSite tm (Ref_Source ref), getSite tm (Ref_Target ref) with
               | Some _, Some _ =>
                   if bool_decide (Phase pf = PlannedFailoverPhaseRollingBack) then reproved tm ref
                   else
                     let^ now := fcall (Now (tm_id tm)) in
                     let^ c := (if negb (plannedRecordUnchanged fg pf now)
                                then fret (Some {| failed := Some "AuthorityChanged"; recordChanged := true; lackOfEvidence := false; sourceWrote := false |})
                                else reprove_source ref pf) in
                     match c with
                     | None => fret (Ok {| RR_OK := false; RR_RollBack := None; RR_Hold := None; RR_HandOff := None; SourceUnreachable := true |})
                     | Some c => reprove_peers tm ref pf c
                     end
               | _, _ => fret (Err errSiteNotFound)
               end
      | _ => fret (Err errClaimLost)
      end)).

End promotion.

End Promotion.
