(* ===== verification/FacadeRollback.v ===== *)
(** * The planned-failover facade: rollback

    [rollbackRun] of [internal/controller/planned_failover_ops.go]: one pass that decides
    live whether the fenced source may take writes again. *)
From S2P Require Import Prelude GoStd Intervals GtidSet SiteState Effects GoTime Failover FailoverRecord PlannedRun ClaimSlot EngineData EngineSteps FacadeData FacadeSteps FacadePromote.

Local Open Scope Z_scope.

#[local] Arguments prog_bind {Op Ans A B} _ _ : simpl never.

Module Rollbacks.

Import GTID Matrix PlannedRun FailoverRecords ClaimSlot Engine Steps Facade Ops Promotion.

(** ** The target *)

(** [RefenceClaim]: [plannedClaimError] of the claim check. *)
Inductive refence_error : Type := RefenceClaim (e : facade_error) | Unverified.

Definition plannedClaimError (e : facade_error) : bool :=
  match e with errClaimLost | errLeaderLost | errReproveRequired => true | _ => false end.

(** [live] is [None] when the target could not be read. *)
Definition refencePlannedTarget (tm : TopologyManager) (ref : PlannedRunRef) (live : option promotionLive)
  : fac (option promotionLive * option refence_error) :=
  match live with
  | None => fret (live, None)
  | Some l =>
      if negb (live_readOnly l) || live_superReadOnly l then fret (live, None)
      else
        let tgt := Pooled (Ref_Target ref) in
        let^ e := fcall (RequireRunClaim (tm_id tm) ref false) in
        match e : option facade_error with
        | Some e => fret (live, Some (if plannedClaimError e then RefenceClaim e else Unverified))
        | None =>
            let^ set := fcall (SetSuperReadOnly tgt true) in
            if negb (set : bool) then fret (live, Some Unverified)
            else
              let^ on := fcall (CheckSuperReadOnly tgt) in
              fret match on : res read_error bool with
                   | Ok true => (Some (l <| live_superReadOnly := true |>), None)
                   | _ => (live, Some Unverified)
                   end
        end
  end.

(** [withReplicaStartGate]: whether [op] ran and returned no error. *)
Definition withReplicaStartGate (site : string) (op : fac bool) : fac bool :=
  let^ held := fcall (RestorePeerHeld site) in
  if held : bool then fret false else op.

(** [requireRunClaim], then a gated statement: whether it succeeded. *)
Definition claimed_start (tm : TopologyManager) (ref : PlannedRunRef) (op : fac bool) : fac bool :=
  let^ e := fcall (RequireRunClaim (tm_id tm) ref false) in
  match e : option facade_error with
  | Some _ => fret false
  | None => withReplicaStartGate (Ref_Target ref) op
  end.

(** Whether the target has its replication. *)
Definition restore_channel (tm : TopologyManager) (ref : PlannedRunRef) (live : option promotionLive) (F : option GTIDSet) (sourceVerified : bool)
  : fac bool :=
  let tgt := Pooled (Ref_Target ref) in
  match live, F with
  | Some l, Some F =>
      if negb (live_readOnly l) then fret false
      else if match live_repl l with Some r => IORunning r && SQLRunning r | None => false end then fret true
      else if negb (live_superReadOnly l) then fret false
      else match live_repl l with
           | Some _ => claimed_start tm ref (fcall (StartReplica tgt))
           | None =>
               if negb sourceVerified || IsEmpty (live_gtid l) || negb (IsEmpty (Subtract (live_gtid l) F)) || bool_decide (ReplUser tm = "") then fret false
               else claimed_start tm ref (
                 let^ changed := fcall (ChangeReplicationSource tgt (default "" (host <$> getSite tm (Ref_Source ref))) (ReplUser tm)) in
                 let^ started := fcall (StartReplica tgt) in
                 fret (changed && started))
           end
  | _, _ => fret false
  end.

(** The warnings the restoration adds. *)
Definition restorePlannedTargetChannel (tm : TopologyManager) (ref : PlannedRunRef) (live : option promotionLive) (F : option GTIDSet)
  (sourceVerified : bool) : fac (list string) :=
  let^ ok := restore_channel tm ref live F sourceVerified in
  fret (if ok : bool then [] else ["TargetReplicationNotRestored"]).

(** ** The pass *)

Abbreviation rolled := (fac (res facade_error RollbackResult)).

Definition result (o : option Outcome) (reason : string) (ws : list string) : res facade_error RollbackResult :=
  Ok {| RB_Outcome := o; RB_Reason := reason; RB_Warnings := ws |}.

(** Retry until the deadline. *)
Definition unfinished (reason : string) : rolled := fret (result None reason []).

Definition rollback_reason (pf : Run) : string := match RunRollback pf with Some r => Rollback_Reason r | None => "InternalError" end.

(** 0 for none. *)
Definition rollback_deadline (pf : Run) : Z :=
  match RunRollback pf with Some r => Rollback_IntentTime r + plannedFailoverRollbackDeadline | None => 0 end.

(** The end with the source fenced; [ws] are the warnings so far. *)
Definition left_fenced (tm : TopologyManager) (ref : PlannedRunRef) (pf : Run) (live : option promotionLive) (ws : list string) : rolled :=
  let^ more := restorePlannedTargetChannel tm ref live (plannedFenceGTIDSet pf) false in
  fret (result (Some OutcomeSourceLeftFenced) (rollback_reason pf) (ws ++ more)).

(** Whether the run may have written to the target. *)
Definition may_have_written (ref : PlannedRunRef) (pf : Run) : fac bool :=
  match Engine.Promotion pf with
  | None => fret false
  | Some _ => let^ no_write := memoProvesNoWrite (Ref_RunID ref) in fret (negb no_write)
  end.

(** The source reads writable already. *)
Definition rollback_writable (tm : TopologyManager) (ref : PlannedRunRef) (pf : Run) (live : option promotionLive) (i : sourceIdentity) : rolled :=
  let reason := rollback_reason pf in
  let deadline := rollback_deadline pf in
  let^ v := probe_peers tm [Ref_Source ref] in
  let^ written := may_have_written ref pf in
  if bool_decide (Ref_Target ref ∈ writable v) && written then fret (result (Some OutcomeManualRecoveryRequired) "ForeignWritable" [])
  else
    let^ r := refencePlannedTarget tm ref live in
    let '(live, e) := r in
    match e, live with
    | Some (RefenceClaim e), _ => fret (Err e)
    | None, Some _ =>
        let^ verified := fenceAttribution (Ref_RunID ref) (fence_uuid pf) (id_uuid i) in
        let ws := if negb verified && bool_decide (fence_uuid pf <> "") then ["SourceReplaced"] else [] in
        let^ more := restorePlannedTargetChannel tm ref live (plannedFenceGTIDSet pf) verified in
        fret (result (Some OutcomeRolledBack) reason (ws ++ more))
    | _, _ =>
        let^ retry := (if isZeroTime deadline then fret true else let^ now := fcall (Now (tm_id tm)) in fret (now + plannedRequeuePoll <? deadline)) in
        if retry : bool then unfinished reason
        else fret (result (Some OutcomeRolledBack) reason ["TargetSuperReadOnlyNotRestored"; "TargetReplicationNotRestored"])
    end.

(** The statements, and their readback. *)
Definition unfence_source (tm : TopologyManager) (ref : PlannedRunRef) (reason : string) (ws : list string) : rolled :=
  let src := Pinned (Ref_Source ref) in
  with_claim tm ref false (
    let^ a := fcall (SetSuperReadOnly src false) in
    let^ b := fcall (SetReadOnly src false) in
    if negb (a && b) then fret (result None reason ws)
    else
      let^ ro := fcall (CheckReadOnly src) in
      fret (result (if bool_decide ((ro : option bool) = Some false) then Some OutcomeRolledBack else None) reason ws)).

(** On the pinned session. *)
Definition rollback_pinned (tm : TopologyManager) (ref : PlannedRunRef) (pf : Run) (live : option promotionLive) (i : sourceIdentity) : rolled :=
  let reason := rollback_reason pf in
  let^ pinned := fcall (PinSession (Ref_Source ref)) in
  if negb (pinned : bool) then unfinished reason
  else
    let^ p := readSourceIdentity (Pinned (Ref_Source ref)) in
    let^ r := (match p with
      | Err _ => unfinished reason
      | Ok p =>
          if negb (bool_decide (id_uuid p = id_uuid i)) then left_fenced tm ref pf live ["FenceNotAttributable"]
          else
            let^ ws := restorePlannedTargetChannel tm ref live (plannedFenceGTIDSet pf) true in
            if negb (id_readOnly p) then fret (result (Some OutcomeRolledBack) reason ws)
            else unfence_source tm ref reason ws
      end) in
    fcall (CloseSession (Ref_Source ref)) ;;* fret r.

(** The source is fenced, or did not answer. *)
Definition rollback_fenced (tm : TopologyManager) (ref : PlannedRunRef) (pf : Run) (live : option promotionLive) (i : option sourceIdentity) : rolled :=
  let reason := rollback_reason pf in
  let^ r := refencePlannedTarget tm ref live in
  let '(live, refenceErr) := r in
  let^ v := probe_peers tm [Ref_Source ref] in
  let^ ours := (match i with Some i => fenceAttribution (Ref_RunID ref) (fence_uuid pf) (id_uuid i) | None => fret true end) in
  let left_ := left_fenced tm ref pf live (if ours then [] else ["FenceNotAttributable"]) in
  if nonempty (writable v) then left_
  else if bool_decide (reason = "SourceLost") then left_
  else match i with
       | None => unfinished reason
       | Some i =>
           if negb ours then left_
           else match refenceErr with
                | Some _ => unfinished reason
                | None => rollback_pinned tm ref pf live i
                end
       end.

(** The precondition: the result that ends the pass, if it fails. *)
Definition rollback_precondition (tm : TopologyManager) (ref : PlannedRunRef) (pf : Run) (live : option promotionLive)
  : fac (option (res facade_error RollbackResult)) :=
  let reason := rollback_reason pf in
  (match live with Some _ => targetLossRecovered (Ref_RunID ref) | None => fret tt end) ;;*
  let^ written := may_have_written ref pf in
  if negb written then fret None
  else match live with
       | None =>
           let^ now := fcall (Now (tm_id tm)) in
           let^ expired := targetLossExpired (Ref_RunID ref) now (rollback_deadline pf) in
           fret (Some (result (if expired : bool then Some OutcomePromotedUnconfirmed else None) reason []))
       | Some l =>
           fret match plannedFenceGTIDSet pf with
                | Some F => if IsEmpty (Subtract (live_gtid l) F) then None else Some (result (Some OutcomeManualRecoveryRequired) "ExecuteFailed" [])
                | None => Some (result (Some OutcomeManualRecoveryRequired) "ExecuteFailed" [])
                end
       end.

Definition rollbackRun (tm : TopologyManager) (ref : PlannedRunRef) (pf : Run) : rolled :=
  match getSite tm (Ref_Source ref), getSite tm (Ref_Target ref) with
  | Some _, Some _ =>
      let^ live := readPromotionLive (Pooled (Ref_Target ref)) in
      let^ ended := rollback_precondition tm ref pf live in
      match ended with
      | Some r => fret r
      | None =>
          let^ i := readSourceIdentity (Pooled (Ref_Source ref)) in
          match i with
          | Ok i => if negb (id_readOnly i) then rollback_writable tm ref pf live i else rollback_fenced tm ref pf live (Some i)
          | Err _ => rollback_fenced tm ref pf live None
          end
      end
  | _, _ => fret (Err errSiteNotFound)
  end.

Definition Rollback (ref : PlannedRunRef) (pf : Run) : rolled :=
  with_manager (fun tm => with_claim tm ref false (rollbackRun tm ref pf)).

End Rollbacks.
