(* ===== verification/FacadeSafety.v ===== *)
(** * The planned-failover facade: what it proves before it writes *)
From S2P Require Import Prelude GoStd Intervals GtidSet SiteState Effects GoTime Failover FailoverRecord PlannedRun ClaimSlot EngineData EngineSteps Protocol FacadeData FacadeSteps FacadePromote FacadeRollback.

Local Open Scope Z_scope.

#[local] Arguments prog_bind {Op Ans A B} _ _ : simpl never.

Import GTID Matrix PlannedRun FailoverRecords ClaimSlot Engine Steps Facade Ops Promotion Rollbacks.

(** ** Vocabulary *)

(** A statement that clears a fence. *)
Definition clears (o : op) : bool :=
  match o with SetSuperReadOnly _ false | SetReadOnly _ false => true | _ => false end.

Definition quiet (o : op) : bool := negb (clears o).

Definition saw (tr : list (event ans)) (o : op) (x : ans o) : Prop := ev o x ∈ tr.

(** The identity was read on [c]. *)
Definition identity_read (tr : list (event ans)) (c : conn) (i : sourceIdentity) : Prop :=
  saw tr (CheckReadOnly c) (Some (id_readOnly i)) /\ saw tr (CheckSuperReadOnly c) (Ok (id_superReadOnly i))
  /\ saw tr (ReadGTIDSnapshot c) (Ok (id_uuid i, id_gtid i)).

(** The state was read on [c]. *)
Definition live_read (tr : list (event ans)) (c : conn) (l : promotionLive) : Prop :=
  saw tr (CheckReadOnly c) (Some (live_readOnly l)) /\ saw tr (CheckSuperReadOnly c) (Ok (live_superReadOnly l))
  /\ saw tr (ShowReplicaStatus c) (Some (live_repl l)) /\ saw tr (ReadGTIDSnapshot c) (Ok (live_uuid l, live_gtidRaw l))
  /\ ParseGTIDSet (live_gtidRaw l) = Ok (live_gtid l).

(** Every site but [skip] was probed, and [P] holds of its answer. *)
Definition probed (tr : list (event ans)) (tm : TopologyManager) (skip : list string) (P : siteTracker -> option bool -> Prop) : Prop :=
  forall s, s ∈ sites tm -> site_name s ∉ skip -> exists ro, saw tr (CheckReadOnly (Pooled (site_name s))) ro /\ P s ro.

(** No site writable; [strict]: every promotable and disaster-recovery site read-only. *)
Definition not_writable (_ : siteTracker) (ro : option bool) : Prop := ro <> Some false.

Definition fenced_or_reader (s : siteTracker) (ro : option bool) : Prop := ro = Some true \/ (ro = None /\ site_role s = SiteRoleReadOnly).

(** ** Reads *)

Lemma saw_app_l t1 t2 o x : saw t1 o x -> saw (t1 ++ t2) o x.
Proof. intros H. apply elem_of_app. by left. Qed.

Lemma saw_app_r t1 t2 o x : saw t2 o x -> saw (t1 ++ t2) o x.
Proof. intros H. apply elem_of_app. by right. Qed.

Lemma identity_read_r t1 t2 c i : identity_read t2 c i -> identity_read (t1 ++ t2) c i.
Proof. intros (H1 & H2 & H3). repeat split; by apply saw_app_r. Qed.

Lemma identity_read_l t1 t2 c i : identity_read t1 c i -> identity_read (t1 ++ t2) c i.
Proof. intros (H1 & H2 & H3). repeat split; by apply saw_app_l. Qed.

Lemma live_read_r t1 t2 c l : live_read t2 c l -> live_read (t1 ++ t2) c l.
Proof. intros (H1 & H2 & H3 & H4 & H5). repeat split; try by apply saw_app_r. done. Qed.

Lemma live_read_l t1 t2 c l : live_read t1 c l -> live_read (t1 ++ t2) c l.
Proof. intros (H1 & H2 & H3 & H4 & H5). repeat split; try by apply saw_app_l. done. Qed.

Lemma probed_r t1 t2 tm skip P : probed t2 tm skip P -> probed (t1 ++ t2) tm skip P.
Proof. intros H s Hs Hk. destruct (H s Hs Hk) as (ro & Hro & HP). exists ro. split; [by apply saw_app_r|done]. Qed.

Lemma probed_l t1 t2 tm skip P : probed t1 tm skip P -> probed (t1 ++ t2) tm skip P.
Proof. intros H s Hs Hk. destruct (H s Hs Hk) as (ro & Hro & HP). exists ro. split; [by apply saw_app_l|done]. Qed.

#[local] Hint Resolve saw_app_l saw_app_r identity_read_r identity_read_l live_read_l live_read_r probed_r probed_l : core.

Lemma readSourceIdentity_runs c p tr r p' : runs (readSourceIdentity c p) tr (r, p') ->
  p' = p /\ forall i, r = Ok i -> identity_read tr c i.
Proof.
  unfold readSourceIdentity. intros H. srun_all; split; try done; intros i Hi; try done.
  destruct a1 as [[uuid gtid]|]; [|done]. injection Hi as <-. unfold identity_read, saw. cbn. set_solver.
Qed.

Lemma readPromotionLive_runs c p tr r p' : runs (readPromotionLive c p) tr (r, p') ->
  p' = p /\ forall l, r = Some l -> live_read tr c l.
Proof.
  unfold readPromotionLive. intros H. srun_all; split; try done; intros l Hl; try done.
  repeat case_match; simplify_eq. unfold live_read, saw. cbn. set_solver.
Qed.

Lemma probe_all_runs l : forall p tr r p', runs (probe_all l p) tr (r, p') ->
  p' = p /\ Forall2 (fun s q => probe_name q = site_name s /\ probe_role q = site_role s /\ saw tr (CheckReadOnly (Pooled (site_name s))) (probe_readOnly q)) l r.
Proof.
  induction l as [|s l IH]; intros p tr r p' H; simpl in H; srun_all.
  - split; [done|constructor].
  - match goal with H : runs (probe_all _ _) _ _ |- _ => apply IH in H as [-> Hf] end. split; [done|]. constructor.
    + cbn. split; [done|]. split; [done|]. unfold saw. set_solver.
    + eapply Forall2_impl; [exact Hf|]. intros s1 q (H1 & H2 & H3). split; [done|]. split; [done|]. by right; apply saw_app_l.
Qed.

Lemma plannedProbeSites_runs tm skip p tr r p' : runs (plannedProbeSites tm skip p) tr (r, p') ->
  p' = p /\ (forall s, s ∈ sites tm -> site_name s ∉ skip -> exists q, q ∈ r /\ probe_name q = site_name s /\ probe_role q = site_role s
                    /\ saw tr (CheckReadOnly (Pooled (site_name s))) (probe_readOnly q))
  /\ (forall q, q ∈ r -> saw tr (CheckReadOnly (Pooled (probe_name q))) (probe_readOnly q)).
Proof.
  unfold plannedProbeSites. intros H. srun_all.
  match goal with H : runs (probe_all _ _) _ _ |- _ => apply probe_all_runs in H as [-> Hf] end. rewrite app_nil_r. split; [done|]. split.
  - intros s Hs Hk. assert (s ∈ List.filter (fun s => negb (bool_decide (site_name s ∈ skip))) (sites tm)) as Hin.
    { apply list_elem_of_In, filter_In. split; [by apply list_elem_of_In|]. by rewrite bool_decide_false. }
    apply list_elem_of_lookup in Hin as [n Hn]. destruct (Forall2_lookup_l _ _ _ _ _ Hf Hn) as (q & Hq & Hq').
    exists q. split; [|done]. rewrite merge_sort_Permutation. by eapply list_elem_of_lookup_2.
  - intros q Hq. rewrite merge_sort_Permutation in Hq. apply list_elem_of_lookup in Hq as [n Hn].
    destruct (Forall2_lookup_r _ _ _ _ _ Hf Hn) as (s & _ & E & _ & Hs). by rewrite E.
Qed.

Lemma names_filter f l q : q ∈ l -> f q = true -> probe_name q ∈ map probe_name (List.filter f l).
Proof. intros Hq Hf. apply list_elem_of_In, in_map, filter_In. split; [by apply list_elem_of_In|done]. Qed.

Lemma nonempty_nil {A} (l : list A) : nonempty l = false -> l = [].
Proof. by destruct l. Qed.

Lemma classify_writable l q : nonempty (writable (classifyPlannedPeers l)) = false -> q ∈ l -> probe_readOnly q <> Some false.
Proof.
  intros Hw%nonempty_nil Hq E. pose proof (names_filter (fun p => bool_decide (probe_readOnly p = Some false)) _ q Hq (bool_decide_true _ E)) as Hn.
  cbn in Hw. rewrite Hw in Hn. by apply not_elem_of_nil in Hn.
Qed.

Lemma classify_strict l q : nonempty (writable (classifyPlannedPeers l)) = false -> nonempty (unreadable (classifyPlannedPeers l)) = false -> q ∈ l ->
  probe_readOnly q = Some true \/ (probe_readOnly q = None /\ probe_role q = SiteRoleReadOnly).
Proof.
  intros Hw Hu%nonempty_nil Hq. destruct (probe_readOnly q) as [[]|] eqn:E; [by left|by destruct (classify_writable l q Hw Hq)|].
  right. split; [done|]. destruct (decide (probe_role q = SiteRoleReadOnly)) as [|Hr]; [done|]. exfalso.
  assert (probe_name q ∈ ([] : list string)) as Hn; [|by apply not_elem_of_nil in Hn]. rewrite <- Hu. apply names_filter; [done|].
  rewrite bool_decide_true, bool_decide_false by done. done.
Qed.

(** What a probe without writable sites, and then without unreadable promotable ones, saw. *)
Lemma probe_peers_runs tm skip p tr v p' : runs (probe_peers tm skip p) tr (v, p') ->
  p' = p /\ (nonempty (writable v) = false -> probed tr tm skip not_writable)
  /\ (nonempty (writable v) = false -> nonempty (unreadable v) = false -> probed tr tm skip fenced_or_reader).
Proof.
  unfold probe_peers. intros H. srun_all. rewrite app_nil_r.
  match goal with H : runs (plannedProbeSites _ _ _) _ _ |- _ => apply plannedProbeSites_runs in H as (-> & Hs & _) end. split; [done|]. split.
  - intros Hw s Hin Hk. destruct (Hs s Hin Hk) as (q & Hq & _ & _ & Hsaw). exists (probe_readOnly q). split; [done|]. by apply (classify_writable a).
  - intros Hw Hu s Hin Hk. destruct (Hs s Hin Hk) as (q & Hq & _ & Er & Hsaw). exists (probe_readOnly q). split; [done|].
    unfold fenced_or_reader. rewrite <- Er. by apply (classify_strict a).
Qed.

(** ** The gate *)

Section facade.

Context (unicode_fold : string -> string -> bool).

#[local] Abbreviation EqualFold := (EqualFold unicode_fold).
#[local] Abbreviation ownExtras := (ownExtras unicode_fold).
#[local] Abbreviation sourceAdvancedPast := (sourceAdvancedPast unicode_fold).

(** The run's claim, the manager and the target's role, checked last. *)
Definition guard_trace (tm : TopologyManager) (ref : PlannedRunRef) (tr : list (event ans)) : Prop :=
  exists cur, tm_id cur = tm_id tm
    /\ tr = [ev (RequireRunClaim (tm_id tm) ref false) None; ev CurrentManager (Some cur); ev (Retired (tm_id tm)) false].

Definition target_promotable (tm : TopologyManager) (ref : PlannedRunRef) : Prop :=
  exists tgt, getSite tm (Ref_Target ref) = Some tgt /\ isPromotable tgt = true.

(** The target, read on the session that is written: read-only, without a channel, the
    intended server, holding the fenced set and nothing else - or, resumed after its
    fences were cleared, nothing but its own writes. *)
Definition target_evidence (ref : PlannedRunRef) (F : GTIDSet) (U : string) (was : bool) (tr : list (event ans)) : Prop :=
  exists l, live_read tr (Pinned (Ref_Target ref)) l /\ live_readOnly l = true /\ live_repl l = None /\ EqualFold (live_uuid l) U = true
    /\ Contains (live_gtid l) F = true
    /\ if was then ownExtras (Subtract (live_gtid l) F) U = true else IsEmpty (Subtract (live_gtid l) F) = true.

(** The source: the fenced server, its history not past the fenced set; resumed, at
    least read-only. *)
Definition source_evidence (ref : PlannedRunRef) (pf : Run) (F : GTIDSet) (U : string) (was : bool) (tr : list (event ans)) : Prop :=
  exists i, identity_read tr (Pooled (Ref_Source ref)) i /\ sourceAdvancedPast i F U = false
    /\ if was then id_readOnly i = true else id_superReadOnly i = true /\ fence_names pf (id_uuid i) = true.

Definition gate_evidence (tm : TopologyManager) (ref : PlannedRunRef) (pf : Run) (F : GTIDSet) (was : bool) (tr : list (event ans)) : Prop :=
  let U := plannedPromotionUUID pf in
  plannedFenceGTIDSet pf = Some F /\ target_promotable tm ref
  /\ (exists t1 t2, tr = t1 ++ t2 /\ guard_trace tm ref t1)
  /\ target_evidence ref F U was tr /\ source_evidence ref pf F U was tr
  /\ probed tr tm [Ref_Source ref; Ref_Target ref] fenced_or_reader.

Lemma checkPlannedPromotionManager_runs tm ref w p tr r p' : runs (checkPlannedPromotionManager tm ref w p) tr (r, p') -> p' = p
  /\ (r = None -> target_promotable tm ref /\ exists cur, tm_id cur = tm_id tm /\ tr = [ev CurrentManager (Some cur); ev (Retired (tm_id tm)) false])
  /\ forall out, r = Some (plannedGateRefusal out) -> out = promote_outcome PromoteAborted "TargetNotPromotable" None [Ref_Target ref] w.
Proof.
  unfold checkPlannedPromotionManager. intros H. srun_all. split; [done|].
  destruct (decide (tm_id <$> (a : option TopologyManager) = Some (tm_id tm))) as [Hc|Hc].
  - rewrite bool_decide_true by done. destruct a as [cur|]; [|done]. injection Hc as Hc. cbn.
    destruct a0; cbn; [by split|]. unfold target_promotable. destruct (getSite tm (Ref_Target ref)) as [tgt|]; [|split; congruence].
    destruct (isPromotable tgt) eqn:Ep; [|split; congruence]. split; [|done]. split; [by exists tgt|]. by exists cur.
  - rewrite bool_decide_false by done. cbn. by split.
Qed.

Lemma sfrees_probe_all l : sfrees quiet (probe_all l).
Proof. induction l as [|s l IH]; simpl; solve_frees. Qed.

Lemma sfrees_readSourceIdentity c : sfrees quiet (readSourceIdentity c).
Proof. unfold readSourceIdentity. solve_frees. Qed.

Lemma sfrees_readPromotionLive c : sfrees quiet (readPromotionLive c).
Proof. unfold readPromotionLive. solve_frees. Qed.

#[local] Hint Resolve sfrees_probe_all sfrees_readSourceIdentity sfrees_readPromotionLive : frees.

Lemma sfrees_probe_peers tm skip : sfrees quiet (probe_peers tm skip).
Proof. unfold probe_peers, plannedProbeSites. solve_frees. Qed.

Lemma sfrees_manager tm ref w : sfrees quiet (checkPlannedPromotionManager tm ref w).
Proof. unfold checkPlannedPromotionManager. solve_frees. Qed.

#[local] Hint Resolve sfrees_probe_peers sfrees_manager : frees.

Lemma sfrees_gate tm ref pf F U was : sfrees quiet (plannedPreWriteGate unicode_fold tm ref pf F U was).
Proof.
  unfold plannedPreWriteGate, gate_source, gate_peers, refuse, sourceLossRecovered, sourceLossExpired. solve_frees.
Qed.

#[local] Hint Resolve sfrees_gate : frees.

(** Nothing else the promotion remembers changes. *)
Definition same_memo (p p' : facade) : Prop :=
  promoteMemo p' = promoteMemo p /\ hookErr p' = hookErr p /\ gateWarnings p' = gateWarnings p.

Lemma same_memo_refl p : same_memo p p.
Proof. done. Qed.

#[local] Hint Resolve same_memo_refl : core.

Definition not_confirmed (r : gate_result) : Prop := forall out, r = Err (plannedGateRefusal out) -> PO_Kind out <> PromoteConfirmed.

Lemma gate_peers_runs tm ref was ws live p tr r p' : runs (gate_peers tm ref was ws live p) tr (r, p') ->
  p' = p /\ not_confirmed r /\ ((exists x, r = Ok x) -> probed tr tm [Ref_Source ref; Ref_Target ref] fenced_or_reader).
Proof.
  unfold gate_peers, refuse, not_confirmed. intros H. srun H.
  match goal with H : runs (probe_peers _ _ _) _ _ |- _ => apply probe_peers_runs in H as (-> & _ & Hp) end.
  destruct (nonempty (writable _)), (nonempty (unreadable _)); srun_all; rewrite ?app_nil_r;
    (split; [done|]; split; [intros out [= <-]; by destruct was|intros [x Hx]; try done; by apply Hp]).
Qed.

Lemma gate_source_runs tm ref pf F U was live p tr r p' : runs (gate_source unicode_fold tm ref pf F U was live p) tr (r, p') ->
  same_memo p p' /\ not_confirmed r
  /\ ((exists x, r = Ok x) -> source_evidence ref pf F U was tr /\ probed tr tm [Ref_Source ref; Ref_Target ref] fenced_or_reader).
Proof.
  unfold gate_source, refuse, not_confirmed, sourceLossRecovered, sourceLossExpired, same_memo. intros H.
  destruct (getSite tm (Ref_Source ref)); [|srun_all; naive_solver]. srun H.
  match goal with H : runs (readSourceIdentity _ _) _ _ |- _ => apply readSourceIdentity_runs in H as (-> & Hi) end.
  destruct a as [i|e].
  - specialize (Hi i eq_refl). destruct was.
    + destruct (id_readOnly i) eqn:Er, (sourceAdvancedPast i F U) eqn:Ea; cbn [negb orb] in H; srun_all; try (naive_solver).
      match goal with H : runs (gate_peers _ _ _ _ _ _) _ _ |- _ => apply gate_peers_runs in H as (-> & Hn & Hp) end.
      split; [done|]. split; [done|]. intros Hx. specialize (Hp Hx). split; [|eauto]. exists i. split; [eauto|]. done.
    + destruct (id_superReadOnly i) eqn:Er, (fence_names pf (id_uuid i)) eqn:En, (sourceAdvancedPast i F U) eqn:Ea; cbn [negb orb] in H; srun_all;
        try (naive_solver).
      match goal with H : runs (gate_peers _ _ _ _ _ _) _ _ |- _ => apply gate_peers_runs in H as (-> & Hn & Hp) end.
      split; [done|]. split; [done|]. intros Hx. specialize (Hp Hx). split; [|eauto]. exists i. split; [eauto|]. done.
  - destruct was; srun_all; naive_solver.
Qed.

Lemma gate_target_evidence l F U ref was tr : gate_target_ok unicode_fold l F U was = true -> live_read tr (Pinned (Ref_Target ref)) l -> target_evidence ref F U was tr.
Proof.
  unfold gate_target_ok. rewrite !andb_true_iff, negb_true_iff, bool_decide_eq_false. intros ((((H1 & H2) & H3) & H4) & H5) Hl.
  exists l. split; [done|]. split; [done|]. split; [by destruct (live_repl l); [destruct H2|]|]. split; [done|]. split; [done|]. by destruct was.
Qed.

Lemma gate_refused p e (P : Prop) : (forall out, e = plannedGateRefusal out -> PO_Kind out <> PromoteConfirmed) ->
  same_memo p p /\ not_confirmed (Err e) /\ ((exists x, (Err e : gate_result) = Ok x) -> P).
Proof. intros He. split; [done|]. split; [intros out [= ->]; by apply He|]. by intros [x ?]. Qed.

(** A gate that passes has seen its evidence; a refusal is never a confirmation. *)
Lemma gate_runs tm ref pf F was p tr r p' : plannedFenceGTIDSet pf = Some F ->
  runs (plannedPreWriteGate unicode_fold tm ref pf F (plannedPromotionUUID pf) was p) tr (r, p') ->
  same_memo p p' /\ not_confirmed r /\ ((exists x, r = Ok x) -> gate_evidence tm ref pf F was tr).
Proof.
  intros HF. unfold plannedPreWriteGate, refuse. intros H. srun H.
  destruct a as [e|]; [srun_all; by apply gate_refused|].
  srun H. match goal with H : runs (checkPlannedPromotionManager _ _ _ _) _ _ |- _ => apply checkPlannedPromotionManager_runs in H as (-> & Hc & Hr) end.
  destruct a as [e|].
  - srun_all. apply gate_refused. intros out ->. by rewrite (Hr out eq_refl).
  - destruct (Hc eq_refl) as [Hp (cur & Hcur & ->)]. srun H.
    match goal with H : runs (readPromotionLive _ _) _ _ |- _ => apply readPromotionLive_runs in H as (-> & Hl) end.
    destruct a as [l|]; [|srun_all; by apply gate_refused].
    specialize (Hl l eq_refl).
    destruct (gate_target_ok _ l F _ was) eqn:Eg; cbn [negb] in H.
    2:{ destruct was; srun_all; apply gate_refused; by intros out [= <-]. }
    apply gate_source_runs in H as (Hm & Hn & He). split; [done|]. split; [done|]. intros Hx. destruct (He Hx) as [Hs Hpr]. split; [done|].
    split; [done|]. split; [|split; [|split]].
    + eexists [_; _; _], _. split; [reflexivity|]. exists cur. split; [done|]. reflexivity.
    + eapply gate_target_evidence; [done|]. eauto.
    + destruct Hs as (i & Hi & Hs). exists i. split; [|done]. eauto.
    + eauto.
Qed.

(** ** The promotion's statements *)

Section one_promotion.

Context (tm : TopologyManager) (ref : PlannedRunRef) (pf : Run) (F : GTIDSet) (was : bool) (HF : plannedFenceGTIDSet pf = Some F).

#[local] Abbreviation tgt := (Pinned (Ref_Target ref)).
#[local] Abbreviation hook := (promote_hook unicode_fold tm ref pf F (plannedPromotionUUID pf) was).

Definition cleared (h : list (event ans)) : Prop := exists e, e ∈ h /\ clears (projT1 e) = true.

(** The memo does not deny a clear this process sent. *)
Definition memo_ok (h : list (event ans)) (p : facade) : Prop := cleared h -> proves_no_write p (Ref_RunID ref) = false.

Definition refusal_ok (h : list (event ans)) (p : facade) : Prop := forall out, hookErr p = plannedGateRefusal out ->
  PO_Kind out <> PromoteConfirmed /\ (MayHaveWritten out = false -> ~ cleared h).

(** [super_read_only] was cleared, and the claim and the manager checked before. *)
Definition cleared_first (mid : list (event ans)) : Prop :=
  exists guard, guard_trace tm ref guard /\ mid = guard ++ [ev (SetSuperReadOnly tgt false) true].

(** The gate's evidence, then the checks before the statement; [read_only] after
    [super_read_only]. *)
Definition clear_evidence (h : list (event ans)) (o : op) : Prop :=
  saw h CurrentManager (Some tm) /\ exists t0 gate mid guard, h = t0 ++ gate ++ mid ++ guard /\ gate_evidence tm ref pf F was gate /\ guard_trace tm ref guard
    /\ ((mid = [] /\ o = SetSuperReadOnly tgt false) \/ (cleared_first mid /\ o = SetReadOnly tgt false)).

Lemma cleared_app h t : cleared (h ++ t) <-> cleared h \/ cleared t.
Proof. unfold cleared. setoid_rewrite elem_of_app. naive_solver. Qed.

Lemma quiet_not_cleared t : Forall (fun e => quiet (projT1 e) = true) t -> ~ cleared t.
Proof. intros H (e & He & Hc). rewrite Forall_forall in H. specialize (H e He). unfold quiet in H. by rewrite Hc in H. Qed.

Lemma quiet_cleared h t : Forall (fun e => quiet (projT1 e) = true) t -> cleared (h ++ t) -> cleared h.
Proof. intros Hq [H|H]%cleared_app; [done|]. by apply quiet_not_cleared in H. Qed.

Lemma guard_quiet t : guard_trace tm ref t -> Forall (fun e => quiet (projT1 e) = true) t.
Proof. intros (cur & _ & ->). by repeat constructor. Qed.


Lemma hook_guard_runs p t ok p' : runs (hook Failover.HookGuard p) t (ok, p') ->
  promoteMemo p' = promoteMemo p /\ Forall (fun e => quiet (projT1 e) = true) t /\ (ok = true -> guard_trace tm ref t /\ p' = p)
  /\ (ok = false -> forall out, hookErr p' = plannedGateRefusal out ->
        PO_Kind out <> PromoteConfirmed /\ (MayHaveWritten out = false -> proves_no_write p (Ref_RunID ref) = true)).
Proof using.
  intros H. split; [|split]. 2:{ eapply sfrees_runs; [|exact H]. unfold promote_hook, memoProvesNoWrite, set_hook_error. solve_frees. }
  all: unfold promote_hook, memoProvesNoWrite, set_hook_error in H; srun H; destruct a as [e|]; [by srun_all|]; srun H.
  all: srun H.
  all: match goal with H : runs (checkPlannedPromotionManager _ _ _ _) _ _ |- _ => apply checkPlannedPromotionManager_runs in H as (-> & Hc & Hr) end.
  all: destruct a as [e|]; srun_all; try done.
  - split; [done|]. intros _ out Ho. cbn in Ho. subst e. rewrite (Hr out eq_refl). split; [done|]. cbn. by rewrite negb_false_iff.
  - destruct (Hc eq_refl) as [_ (cur & Hcur & ->)]. split; [|done]. intros _. split; [|done]. by exists cur.
Qed.

Lemma hook_gate_runs p t ok p' : runs (hook Failover.HookGate p) t (ok, p') ->
  promoteMemo p' = promoteMemo p /\ Forall (fun e => quiet (projT1 e) = true) t /\ (ok = true -> gate_evidence tm ref pf F was t)
  /\ (ok = false -> forall out, hookErr p' = plannedGateRefusal out -> PO_Kind out <> PromoteConfirmed).
Proof using HF.
  intros H. split; [|split]. 2:{ eapply sfrees_runs; [|exact H]. unfold promote_hook, set_hook_error. solve_frees. }
  all: unfold promote_hook, set_hook_error in H; srun H.
  all: match goal with H : runs (plannedPreWriteGate _ _ _ _ _ _ _ _) _ _ |- _ => apply gate_runs in H as ((Hm & _) & Hn & He); [|done] end.
  all: destruct a as [[w g]|e]; srun_all; try done; rewrite ?app_nil_r.
  - split; [|done]. intros _. by apply He; eexists.
  - split; [done|]. intros _ out Ho. cbn in Ho. by apply (Hn out); rewrite Ho.
Qed.

Lemma note_promote_mono p s : proves_no_write (note_promote (Ref_RunID ref) s p) (Ref_RunID ref) = true -> proves_no_write p (Ref_RunID ref) = true.
Proof using.
  unfold proves_no_write, note_promote. destruct (promoteMemo p !! Ref_RunID ref) as [cur|] eqn:E; [|by rewrite E].
  destruct (Z.ltb_spec (stage_rank cur) (stage_rank s)); [|by rewrite E]. cbn. rewrite lookup_insert_eq. rewrite !Z.ltb_lt. lia.
Qed.

Lemma note_promote_clear p s : 3 <= stage_rank s -> proves_no_write (note_promote (Ref_RunID ref) s p) (Ref_RunID ref) = false.
Proof using.
  intros Hs. unfold proves_no_write, note_promote. destruct (promoteMemo p !! Ref_RunID ref) as [cur|] eqn:E; [|by rewrite E].
  destruct (Z.ltb_spec (stage_rank cur) (stage_rank s)); cbn; rewrite ?lookup_insert_eq, ?E; apply Z.ltb_ge; cbn; lia.
Qed.

Definition evidenced (h : list (event ans)) (o : op) : Prop := clears o = true -> clear_evidence h o.

#[local] Abbreviation cw := (scwp evidenced).

Lemma quiet_evidenced h o : quiet o = true -> evidenced h o.
Proof using. unfold quiet, evidenced. by destruct (clears o). Qed.

Lemma cw_quiet {A} (m : fac A) h p (Q : list (event ans) -> A -> facade -> Prop) : sfrees quiet m ->
  (forall t a p', Forall (fun e => quiet (projT1 e) = true) t -> runs (m p) t (a, p') -> Q (h ++ t) a p') -> cw m h p Q.
Proof using.
  intros Hm HQ. eapply scwp_runs; [exact quiet_evidenced|exact Hm|]. intros t a p' H. apply HQ; [|done]. by eapply sfrees_runs.
Qed.

Lemma cw_lower_bind {A B} (m : prog Failover.ans A) (k : A -> prog Failover.ans B) : forall h p (Q : list (event ans) -> B -> facade -> Prop),
  cw (lower hook m) h p (fun h a p => cw (lower hook (k a)) h p Q) -> cw (lower hook (prog_bind m k)) h p Q.
Proof using.
  induction m as [a|o k0 IH]; intros h p Q H; [exact H|].
  change (prog_bind (Vis o k0) k) with (Vis o (fun x => prog_bind (k0 x) k)). cbn [lower] in *. apply scwp_bind.
  eapply scwp_mono; [apply scwp_bind_inv, H|]. intros h' x p' Hx. by apply IH.
Qed.

Lemma cw_lower_call o h p (Q : list (event ans) -> Failover.ans o -> facade -> Prop) : cw (hook o) h p Q -> cw (lower hook (call o)) h p Q.
Proof using. intros H. cbn [lower call]. apply scwp_bind. eapply scwp_mono; [exact H|]. done. Qed.

(** What holds between two statements. *)
Record going (h : list (event ans)) (p : facade) : Prop := {
  going_manager : saw h CurrentManager (Some tm);
  going_memo : memo_ok h p
}.

(** A statement with its hooks: refused with nothing sent, or sent right after the checks. *)
Lemma cw_send s (o : Failover.op) (ok : Failover.ans o -> bool) h p (Q : list (event ans) -> option Failover.promote_error -> facade -> Prop) : going h p ->
  (forall t p', Forall (fun e => quiet (projT1 e) = true) t -> going (h ++ t) p' -> refusal_ok (h ++ t) p' -> Q (h ++ t) (Some Failover.GuardRefused) p') ->
  (forall t, guard_trace tm ref t -> cw (hook o) (h ++ t) (note_promote (Ref_RunID ref) s p)
     (fun h' x p' => Q h' (if ok x then None else Some (Failover.Statement o)) p')) ->
  cw (lower hook (Failover.send plannedHooks s o ok)) h p Q.
Proof using.
  intros [Hm Hk] Hr Hs. unfold Failover.send. cbn [Failover.guard Failover.before Failover.after plannedHooks]. apply cw_lower_bind, cw_lower_call.
  apply cw_quiet; [unfold promote_hook, memoProvesNoWrite, set_hook_error; solve_frees|]. intros t a p' Hq H.
  apply hook_guard_runs in H as (Em & _ & Ht & Hf). destruct a; cbn [negb].
  - destruct (Ht eq_refl) as [Hg ->]. apply cw_lower_bind, cw_lower_call. cbn [promote_hook]. apply scwp_modify.
    apply cw_lower_bind, cw_lower_call. eapply scwp_mono; [by apply Hs|]. intros h' x p' HQ.
    apply cw_lower_bind, cw_lower_call. cbn [promote_hook]. apply scwp_ret. exact HQ.
  - apply Hr; [done| |].
    + split; [by apply saw_app_l|]. intros Hc%quiet_cleared; [|done]. cbn. unfold proves_no_write. rewrite Em. by apply Hk.
    + intros out Ho. destruct (Hf eq_refl out Ho) as [Hc Hw]. split; [done|]. intros Hmw Hcl%quiet_cleared; [|done].
      specialize (Hw Hmw). by rewrite (Hk Hcl) in Hw.
Qed.

(** How the statements ended. *)
Definition ended (h : list (event ans)) (p : facade) (e : option Failover.promote_error) : Prop :=
  going h p /\ match e with
               | Some (Failover.GuardRefused | Failover.GateRefused) => refusal_ok h p
               | Some (Failover.ProofMissing _ | Failover.ProofDivergent _) => ~ cleared h
               | _ => True
               end.

Lemma going_quiet h t p p' : going h p -> promoteMemo p' = promoteMemo p -> Forall (fun e => quiet (projT1 e) = true) t -> going (h ++ t) p'.
Proof using.
  intros [Hm Hk] Em Hq. split; [by apply saw_app_l|]. intros Hc%quiet_cleared; [|done]. unfold proves_no_write. rewrite Em. by apply Hk.
Qed.

Lemma going_sent h t p s o (x : ans o) : going h p -> guard_trace tm ref t -> (clears o = true -> 3 <= stage_rank s) ->
  going ((h ++ t) ++ [ev o x]) (note_promote (Ref_RunID ref) s p).
Proof using.
  intros [Hm Hk] Hg Hs. split; [by apply saw_app_l, saw_app_l|]. intros [Hc|Hc]%cleared_app.
  - apply quiet_cleared in Hc; [|by apply guard_quiet]. specialize (Hk Hc). apply not_true_is_false. intros Hp%note_promote_mono. congruence.
  - destruct Hc as (e & ->%list_elem_of_singleton & Hc). by apply note_promote_clear, Hs.
Qed.

Lemma ended_refused h p : going h p -> refusal_ok h p -> ended h p (Some Failover.GuardRefused).
Proof using. done. Qed.

(** A statement that is not a clear. *)
Lemma cw_send_quiet s (o : Failover.op) (ok : Failover.ans o -> bool) h p (Q : list (event ans) -> option Failover.promote_error -> facade -> Prop) :
  (forall h p (R : list (event ans) -> Failover.ans o -> facade -> Prop), (forall t a, Forall (fun e => quiet (projT1 e) = true) t -> R (h ++ t) a p) -> cw (hook o) h p R) ->
  going h p -> ~ cleared h ->
  (forall t p' e, going (h ++ t) p' -> (e <> Some Failover.GuardRefused -> ~ cleared (h ++ t)) -> (e = Some Failover.GuardRefused -> refusal_ok (h ++ t) p') ->
     (e = None \/ e = Some Failover.GuardRefused \/ e = Some (Failover.Statement o)) -> Q (h ++ t) e p') ->
  cw (lower hook (Failover.send plannedHooks s o ok)) h p Q.
Proof using.
  intros Ho Hg Hn HQ. apply cw_send; [done| |].
  - intros t p' Hq Hg' Hr. apply HQ; [done| |done|by right; left]. by intros [].
  - intros t Ht. apply Ho. intros t2 a Hq2. rewrite <- (assoc_L (++)).
    assert (Forall (fun e => quiet (projT1 e) = true) (t ++ t2)) as Hq by (apply Forall_app; split; [by apply guard_quiet|done]).
    assert (~ cleared (h ++ (t ++ t2))) as Hn' by (intros Hc%quiet_cleared; done).
    apply HQ; [|done|by destruct (ok a)|destruct (ok a); auto]. split; [by apply saw_app_l; destruct Hg|]. by intros Hc.
Qed.

Lemma cw_writes gtid reached h p : going h p -> ~ cleared h ->
  cw (lower hook (Failover.promote_writes plannedHooks gtid reached)) h p (fun h r p => ended h p r.2).
Proof using HF.
  intros Hg Hn. unfold Failover.promote_writes. cbn [Failover.gate plannedHooks]. apply cw_lower_bind, cw_lower_call.
  apply cw_quiet; [unfold promote_hook, set_hook_error; solve_frees|]. intros gate a p1 Hq H.
  apply hook_gate_runs in H as (Em & _ & He & Hf). pose proof (going_quiet h gate p p1 Hg Em Hq) as Hg1.
  assert (~ cleared (h ++ gate)) as Hn1 by (by intros Hc%quiet_cleared).
  destruct a; cbn [negb].
  2:{ apply scwp_ret. split; [done|]. intros out Ho. split; [by apply (Hf eq_refl)|]. done. }
  specialize (He eq_refl). apply cw_lower_bind, cw_send; [done|by intros; apply scwp_ret, ended_refused|].
  intros g1 Hg2. apply (scwp_call evidenced (SetSuperReadOnly tgt false)).
  - intros _. split; [by apply saw_app_l; destruct Hg1|]. exists h, gate, [], g1. rewrite <- (assoc_L (++)). split; [done|]. split; [done|].
    split; [done|]. by left.
  - intros x. pose proof (going_sent (h ++ gate) g1 p1 Failover.promoteMemoSROClearSent (SetSuperReadOnly tgt false) x Hg1 Hg2 (fun _ => ltac:(cbn; lia))) as Hg3.
    destruct x; cbn [id]; [|by apply scwp_ret].
    apply cw_lower_bind, cw_send; [done|by intros; apply scwp_ret, ended_refused|]. intros g2 Hg4. apply (scwp_call evidenced (SetReadOnly tgt false)).
    + intros _. split; [by apply saw_app_l; destruct Hg3|]. exists h, gate, (g1 ++ [ev (SetSuperReadOnly tgt false) true]), g2.
      rewrite <- !(assoc_L (++)). split; [done|]. split; [done|]. split; [done|]. right. split; [|done]. by exists g1.
    + intros y. pose proof (going_sent _ g2 _ Failover.promoteMemoROClearSent (SetReadOnly tgt false) y Hg3 Hg4 (fun _ => ltac:(cbn; lia))) as Hg5.
      apply scwp_ret. destruct y; cbn [id]; done.
Qed.

Lemma cw_proof want h p (Q : list (event ans) -> res Failover.promote_error string -> facade -> Prop) : going h p -> ~ cleared h ->
  (forall t r, going (h ++ t) p -> ~ cleared (h ++ t) ->
     (forall e, r = Err e -> (exists x, e = Failover.ProofRead x) \/ (exists x, e = Failover.ProofMissing x) \/ (exists x, e = Failover.ProofDivergent x)) -> Q (h ++ t) r p) ->
  cw (lower hook (Failover.requireCandidateGTIDs Failover.Session want)) h p Q.
Proof using.
  intros Hg Hn HQ. unfold Failover.requireCandidateGTIDs, Failover.readGTIDSetRaw. do 2 apply cw_lower_bind. apply cw_lower_call.
  apply (scwp_call evidenced (GetGtidExecuted tgt)); [by apply quiet_evidenced|]. intros x. apply scwp_ret, scwp_ret.
  assert (Forall (fun e => quiet (projT1 e) = true) [ev (Ans := ans) (GetGtidExecuted tgt) x]) as Hq by (by repeat constructor).
  apply HQ; [by eapply going_quiet|by intros Hc%quiet_cleared|]. intros e He. repeat case_match; simplify_eq; eauto.
Qed.

Lemma cw_from_stopped h p : going h p -> ~ cleared h ->
  cw (lower hook (Failover.promote_from_stopped plannedHooks F)) h p (fun h r p => ended h p r.2).
Proof using HF.
  intros Hg Hn. unfold Failover.promote_from_stopped. apply cw_lower_bind, cw_proof; [done|done|]. intros t r Hg1 Hn1 He.
  destruct r as [raw|e].
  2:{ apply scwp_ret. split; [done|]. by destruct (He e eq_refl) as [[x ->]|[[x ->]|[x ->]]]. }
  apply cw_lower_bind, cw_send_quiet; [|done|done|].
  { intros h' p' R HR. apply (scwp_call evidenced (ResetReplicaAll tgt)); [by apply quiet_evidenced|]. intros x. apply HR. by repeat constructor. }
  intros t2 p2 e Hg2 Hn2 Hr2 He2. destruct e as [e|].
  { apply scwp_ret. split; [done|]. destruct He2 as [|[|]]; simplify_eq; [by apply Hr2|done]. }
  apply cw_lower_bind, cw_proof; [done|by apply Hn2|]. intros t3 r3 Hg3 Hn3 He3. destruct r3 as [raw3|e].
  - by apply cw_writes.
  - apply scwp_ret. split; [done|]. by destruct (He3 e eq_refl) as [[x ->]|[[x ->]|[x ->]]].
Qed.

(** From every stage the statements' conditions hold. *)
Lemma cw_promoteVerifiedFrom stage h p : going h p -> ~ cleared h ->
  cw (lower hook (Failover.promoteVerifiedFrom F stage plannedHooks)) h p (fun h r p => ended h p r.2).
Proof using HF.
  intros Hg Hn. unfold Failover.promoteVerifiedFrom. destruct stage; try by apply scwp_ret.
  - apply cw_lower_bind, cw_send_quiet; [|done|done|].
    { intros h' p' R HR. apply (scwp_call evidenced (StopReplica tgt)); [by apply quiet_evidenced|]. intros x. apply HR. by repeat constructor. }
    intros t p1 e Hg1 Hn1 Hr1 He. destruct e as [e|]; [|by apply cw_from_stopped; [|apply Hn1]].
    apply scwp_ret. split; [done|]. destruct He as [|[|]]; simplify_eq; [by apply Hr1|done].
  - by apply cw_from_stopped.
  - by apply cw_writes.
  - by apply cw_writes.
Qed.

(** ** The confirmation *)

(** Read after the statements: the target writable, without a channel, the intended
    server, holding the fenced set and only its own writes beyond it; the source
    read-only and its history not past the fenced set, or its silence reported; no other
    site writable. *)
Definition confirmed_evidence (ws : list string) (tr : list (event ans)) : Prop :=
  let U := plannedPromotionUUID pf in
  (exists l, live_read tr tgt l /\ live_readOnly l = false /\ live_repl l = None /\ EqualFold (live_uuid l) U = true
     /\ Contains (live_gtid l) F = true /\ ownExtras (Subtract (live_gtid l) F) U = true)
  /\ ((exists i, identity_read tr (Pooled (Ref_Source ref)) i /\ id_readOnly i = true /\ sourceAdvancedPast i F U = false) \/ "UnreachablePeers" ∈ ws)
  /\ probed tr tm [Ref_Source ref; Ref_Target ref] not_writable.

Lemma sfrees_confirm : sfrees quiet (confirmPlannedPromotion unicode_fold tm ref pf F (plannedPromotionUUID pf)).
Proof using. unfold confirmPlannedPromotion, confirm_source. solve_frees. Qed.

Lemma confirm_source_runs U p tr r p' : getSite tm (Ref_Source ref) <> None -> runs (confirm_source unicode_fold tm ref pf F U p) tr (r, p') ->
  p' = p /\ forall ws, r = Some ws ->
    (exists i, identity_read tr (Pooled (Ref_Source ref)) i /\ id_readOnly i = true /\ sourceAdvancedPast i F U = false) \/ "UnreachablePeers" ∈ ws.
Proof using.
  intros Hs. unfold confirm_source. destruct (getSite tm (Ref_Source ref)); [|done]. intros H. srun H.
  match goal with H : runs (readSourceIdentity _ _) _ _ |- _ => apply readSourceIdentity_runs in H as (-> & Hi) end.
  srun_all. rewrite app_nil_r. split; [done|]. intros ws Hw. destruct a as [i|]; [|injection Hw as <-; right; by left].
  destruct (id_readOnly i) eqn:Er, (sourceAdvancedPast i F U) eqn:Ea; try done. left. exists i. split; [by apply Hi|done].
Qed.

Lemma confirm_runs p tr out p' : getSite tm (Ref_Source ref) <> None ->
  runs (confirmPlannedPromotion unicode_fold tm ref pf F (plannedPromotionUUID pf) p) tr (out, p') ->
  p' = p /\ MayHaveWritten out = true /\ (PO_Kind out = PromoteConfirmed -> confirmed_evidence (PO_Warnings out) tr).
Proof using.
  intros Hs. unfold confirmPlannedPromotion. intros H. srun H.
  match goal with H : runs (readPromotionLive _ _) _ _ |- _ => apply readPromotionLive_runs in H as (-> & Hl) end.
  destruct a as [l|]; [|by srun_all]. specialize (Hl l eq_refl). destruct (live_readOnly l) eqn:Er; [by srun_all|].
  destruct (live_repl l) eqn:Ep; [by srun_all|]. destruct (Contains (live_gtid l) F) eqn:Ec; [|by srun_all].
  destruct (ownExtras (Subtract (live_gtid l) F) (plannedPromotionUUID pf)) eqn:Eo; [|by srun_all].
  destruct (EqualFold (live_uuid l) (plannedPromotionUUID pf)) eqn:Eu; cbn [negb orb is_Some] in H; [|by srun_all].
  rewrite bool_decide_false in H by (by intros []). cbn [orb] in H. srun H.
  match goal with H : runs (confirm_source _ _ _ _ _ _ _) _ _ |- _ => apply confirm_source_runs in H as (-> & Hw); [|done] end.
  destruct a as [ws|]; [|by srun_all]. srun H.
  match goal with H : runs (probe_peers _ _ _) _ _ |- _ => apply probe_peers_runs in H as (-> & Hp & _) end.
  srun_all. rewrite app_nil_r. split; [done|]. destruct (nonempty (writable a)) eqn:Ew; [done|]. split; [done|]. intros _.
  split; [|split]; [exists l; by split_and!; [apply live_read_l|..]| |by apply probed_r, probed_r, Hp].
  destruct (Hw ws eq_refl) as [(i & Hi & Hr)|Hin]; [left; exists i; split; [by apply identity_read_r, identity_read_l|done]|].
  right. cbn. case_match; [apply elem_of_app; by left|done].
Qed.

Lemma mergeWarnings_incl a b w : w ∈ b -> w ∈ mergeWarnings a b.
Proof using.
  unfold mergeWarnings. assert (forall b acc, w ∈ acc \/ w ∈ b -> w ∈ fold_left (fun out w => if bool_decide (w ∈ out) then out else out ++ [w]) b acc) as H.
  { clear. intros b. induction b as [|x b IH]; intros acc Hin; cbn; [by destruct Hin as [|?%not_elem_of_nil]|]. apply IH.
    case_bool_decide; [destruct Hin as [|[->|]%elem_of_cons]; auto|]. destruct Hin as [|[->|]%elem_of_cons]; rewrite ?elem_of_app; auto.
    left. right. by left. }
  intros Hb. apply H. by right.
Qed.

Lemma confirmed_merge a ws tr : confirmed_evidence ws tr -> confirmed_evidence (mergeWarnings a ws) tr.
Proof using. intros (H1 & [H2|H2] & H3); (split; [done|]; split; [|done]); [by left|right; by apply mergeWarnings_incl]. Qed.

(** ** The outcome *)

(** [t0] ends with the statements; what confirms the promotion comes after. *)
Definition outcome_ok (h : list (event ans)) (r : res facade_error PromoteOutcome) : Prop := forall out, r = Ok out ->
  (MayHaveWritten out = false -> ~ cleared h)
  /\ (PO_Kind out = PromoteConfirmed -> exists t0 t1, h = t0 ++ t1 /\ ~ cleared t1 /\ confirmed_evidence (PO_Warnings out) t1).

Definition done_ok (h : list (event ans)) (r : res facade_error PromoteOutcome) (p : facade) : Prop := going h p /\ outcome_ok h r.

Lemma outcome_ok_err h e : outcome_ok h (Err e).
Proof using. by intros out ?. Qed.

Lemma outcome_ok_quiet h t r : Forall (fun e => quiet (projT1 e) = true) t -> outcome_ok h r -> outcome_ok (h ++ t) r.
Proof using.
  intros Hq H out ->. destruct (H out eq_refl) as [H1 H2]. split; [by intros Hw Hc%quiet_cleared; [apply H1|]|].
  intros Hk. destruct (H2 Hk) as (t0 & t1 & -> & Hn & Hc). exists t0, (t1 ++ t). rewrite (assoc_L (++)). split; [done|].
  split; [by intros [|?%quiet_not_cleared]%cleared_app|]. destruct Hc as ((l & Hl & Hl') & Hs & Hp). split; [exists l; split; [by apply live_read_l|done]|].
  split; [|by apply probed_l]. destruct Hs as [(i & Hi & Hi')|]; [left; exists i; split; [by apply identity_read_l|done]|by right].
Qed.

Lemma outcome_ok_kind h out : (MayHaveWritten out = false -> ~ cleared h) -> PO_Kind out <> PromoteConfirmed -> outcome_ok h (Ok out).
Proof using. intros Hw Hk out' [= <-]. by split; [|intros Hc; destruct (Hk Hc)]. Qed.

(** Giving up: the memo says whether something was sent. *)
Lemma cw_unconfirmed open ws h p (Q : list (event ans) -> PromoteOutcome -> facade -> Prop) : going h p ->
  (forall t out, Forall (fun e => quiet (projT1 e) = true) t -> going (h ++ t) p -> outcome_ok (h ++ t) (Ok out) -> Q (h ++ t) out p) ->
  cw (unconfirmed ref open ws) h p Q.
Proof using.
  intros Hg HQ. apply cw_quiet; [unfold unconfirmed, close_session, memoProvesNoWrite; solve_frees|]. intros t out p' Hq H.
  assert (p' = p /\ MayHaveWritten out = negb (proves_no_write p (Ref_RunID ref)) /\ PO_Kind out <> PromoteConfirmed) as (-> & Hw & Hk).
  { unfold unconfirmed, close_session, memoProvesNoWrite in H. by destruct open; srun_all. }
  assert (going (h ++ t) p) as Hg' by (by eapply going_quiet). apply HQ; [done..|]. apply outcome_ok_kind; [|done].
  rewrite Hw, negb_false_iff. intros Hp Hc. destruct Hg' as [_ Hm]. by rewrite (Hm Hc) in Hp.
Qed.

Lemma cw_promote_confirm h p (Q : list (event ans) -> PromoteOutcome -> facade -> Prop) : getSite tm (Ref_Source ref) <> None -> going h p ->
  (forall t out, Forall (fun e => quiet (projT1 e) = true) t -> going (h ++ t) p -> MayHaveWritten out = true ->
     (PO_Kind out = PromoteConfirmed -> confirmed_evidence (PO_Warnings out) t) -> Q (h ++ t) out p) ->
  cw (promote_confirm unicode_fold tm ref pf F (plannedPromotionUUID pf)) h p Q.
Proof using.
  intros Hs Hg HQ. apply cw_quiet.
  { unfold promote_confirm. apply sfrees_bind; [by apply sfrees_call|intros _; apply sfrees_confirm]. }
  intros t out p' Hq H. unfold promote_confirm in H. srun H. apply confirm_runs in H as (-> & Hw & Hc); [|done].
  apply HQ; [done|by eapply going_quiet|done|]. intros Hk. specialize (Hc Hk). destruct Hc as ((l & Hl & Hl') & Hs' & Hp).
  split; [exists l; split; [by apply live_read_r|done]|]. split; [|by apply probed_r].
  destruct Hs' as [(i & Hi & Hi')|]; [left; exists i; split; [by apply identity_read_r|done]|by right].
Qed.

Lemma cw_finish err h p : getSite tm (Ref_Source ref) <> None -> ended h p err ->
  cw (promote_finish unicode_fold tm ref pf F (plannedPromotionUUID pf) err) h p (fun h r p => done_ok h r.1 p).
Proof using.
  intros Hs [Hg He]. unfold promote_finish. apply scwp_bind, scwp_get. cbn [id].
  assert (cw (let^ out := unconfirmed ref true (gateWarnings p) in fret (Ok out, false)) h p (fun h r p => done_ok h r.1 p)) as Hgive.
  { apply scwp_bind, cw_unconfirmed; [done|]. intros t out Hq Hg' Ho. by apply scwp_ret. }
  destruct err as [e|].
  - assert ((match e with Failover.GuardRefused | Failover.GateRefused => True | _ => False end) -> refusal_ok h p) as Hr by (by destruct e).
    destruct e; try exact Hgive; cycle 2.
    1,2: apply scwp_ret; split; [done|]; by apply outcome_ok_kind.
    all: specialize (Hr I); destruct (hookErr p) as [out|[]|] eqn:Eh; try exact Hgive; apply scwp_ret; (split; [done|]); try apply outcome_ok_err.
    all: destruct (Hr out Eh) as [Hk Hw]; by apply outcome_ok_kind.
  - apply scwp_bind, cw_promote_confirm; [done|done|]. intros t out Hq Hg' Hw Hc.
    assert (outcome_ok (h ++ t) (Ok (out <| PO_Warnings := mergeWarnings (gateWarnings p) (PO_Warnings out) |>))) as Ho.
    { intros out' [= <-]. cbn. rewrite Hw. split; [done|]. intros Hk. exists h, t. split; [done|]. split; [by apply quiet_not_cleared|]. by apply confirmed_merge, Hc. }
    set (out' := out <| PO_Warnings := _ |>) in Ho |- *. destruct (PO_Kind out') eqn:Ek; try exact (conj Hg' Ho).
    apply scwp_bind, cw_unconfirmed; [done|]. intros t' u Hq' Hg'' _. apply scwp_ret. split; [done|].
    apply outcome_ok_kind; cbn in Ek |- *; [by rewrite Hw|by rewrite Ek].
Qed.

End one_promotion.

(** ** The whole promotion *)

Section promotions.

Context (ref : PlannedRunRef) (pf : Run).

(** Some gate passed, for the record's fenced set. *)
Definition gated (h : list (event ans)) (o : op) : Prop := clears o = true -> exists tm F was, clear_evidence tm ref pf F was h o.

(** A confirmation, for the record's fenced set. *)
Definition promoted_ok (h : list (event ans)) (r : res facade_error PromoteOutcome) : Prop := forall out, r = Ok out ->
  (MayHaveWritten out = false -> ~ cleared h)
  /\ (PO_Kind out = PromoteConfirmed -> exists tm F t0 t1, h = t0 ++ t1 /\ saw h CurrentManager (Some tm) /\ plannedFenceGTIDSet pf = Some F
        /\ ~ cleared t1 /\ confirmed_evidence tm ref pf F (PO_Warnings out) t1).

#[local] Abbreviation gw := (scwp gated).

Lemma gated_of {A} tm F was (m : fac A) h p Q : scwp (evidenced tm ref pf F was) m h p Q -> gw m h p Q.
Proof using. apply cwp_weaken. intros h' o Ho Hc. exists tm, F, was. by apply Ho. Qed.

Lemma gw_quiet {A} (m : fac A) h p (Q : list (event ans) -> A -> facade -> Prop) : sfrees quiet m ->
  (forall t a p', Forall (fun e => quiet (projT1 e) = true) t -> runs (m p) t (a, p') -> Q (h ++ t) a p') -> gw m h p Q.
Proof using.
  intros Hm HQ. eapply (scwp_runs _ quiet); [|exact Hm|].
  - unfold quiet, gated. intros h' o. by destruct (clears o).
  - intros t a p' H. apply HQ; [|done]. by eapply sfrees_runs.
Qed.

Lemma promoted_of tm F h r p : plannedFenceGTIDSet pf = Some F -> done_ok tm ref pf F h r p -> promoted_ok h r.
Proof using.
  intros HF [[Hm _] H] out ->. destruct (H out eq_refl) as [Hw Hc]. split; [done|]. intros Hk. destruct (Hc Hk) as (t0 & t1 & -> & Hn & He).
  by exists tm, F, t0, t1.
Qed.

Lemma gw_stage tm F stage h p : getSite tm (Ref_Source ref) <> None -> plannedFenceGTIDSet pf = Some F -> going tm ref h p -> ~ cleared h ->
  gw (promote_stage unicode_fold tm ref pf F (plannedPromotionUUID pf) stage) h p (fun h r p => done_ok tm ref pf F h r.1 p).
Proof using.
  intros Hs HF Hg Hn.
  assert (forall m : fac unit, (forall Q : list (event ans) -> unit -> facade -> Prop, (forall p', Q h tt p') -> gw m h p Q) ->
    gw (m ;;* promotion_locals ;;*
        (let was := match stage with Failover.PromotionStageWasWritable => true | _ => false end in
         let^ r := lower (promote_hook unicode_fold tm ref pf F (plannedPromotionUUID pf) was) (Failover.promoteVerifiedFrom F stage plannedHooks) in
         promote_finish unicode_fold tm ref pf F (plannedPromotionUUID pf) r.2)) h p (fun h r p => done_ok tm ref pf F h r.1 p)) as Hrest.
  { intros m Hm. apply scwp_bind, Hm. intros p'. apply scwp_bind, scwp_modify. set (p2 := _ <| gateGtid := _ |>).
    assert (going tm ref h p2) as Hg2 by (split; [by destruct Hg|by intros Hc]).
    cbn zeta. eapply gated_of. apply scwp_bind. eapply scwp_mono; [by apply cw_promoteVerifiedFrom|]. intros h' r p3 He. by apply cw_finish. }
  unfold promote_stage. destruct stage; try (apply Hrest; intros Q HQ; first [apply scwp_modify|apply scwp_ret]; apply HQ).
  - apply (gated_of tm F false). apply scwp_bind, cw_promote_confirm; [done|done|]. intros t out Hq Hg' Hw Hc. apply scwp_ret. split; [done|].
    intros out' [= <-]. rewrite Hw. split; [done|]. intros Hk. exists h, t. split; [done|]. split; [by apply quiet_not_cleared|]. by apply Hc.
Qed.

Lemma classify_verdict live F U m out : classifyPromotionStage unicode_fold live F U m = Err out ->
  PO_Kind out <> PromoteConfirmed /\ (PO_Kind out = PromoteInconsistent -> MayHaveWritten out = true).
Proof using. unfold classifyPromotionStage. intros H. repeat case_match; by simplify_eq. Qed.

Lemma sfrees_replaced tm F : sfrees quiet (replacedTargetRollbackSafe tm ref pf F).
Proof using. unfold replacedTargetRollbackSafe, fenceAttribution. solve_frees. Qed.

Lemma replaced_runs tm F p t r p' : runs (replacedTargetRollbackSafe tm ref pf F p) t (r, p') -> p' = p.
Proof using.
  unfold replacedTargetRollbackSafe, fenceAttribution. destruct (getSite tm (Ref_Source ref)); [|by intros H; srun_all]. intros H. srun H.
  match goal with H : runs (readSourceIdentity _ _) _ _ |- _ => apply readSourceIdentity_runs in H as (-> & _) end.
  srun_all; try done; match goal with H : runs (probe_peers _ _ _) _ _ |- _ => by apply probe_peers_runs in H as (-> & _) end.
Qed.

Lemma gw_pinned tm F h p : getSite tm (Ref_Source ref) <> None -> plannedFenceGTIDSet pf = Some F -> going tm ref h p -> ~ cleared h ->
  gw (promote_pinned unicode_fold tm ref pf F (plannedPromotionUUID pf)) h p (fun h r p => done_ok tm ref pf F h r p).
Proof using.
  intros Hs HF Hg Hn. unfold promote_pinned. apply scwp_bind, scwp_call; [done|]. intros pinned.
  assert (going tm ref (h ++ [ev (PinSession (Ref_Target ref)) pinned]) p) as Hg1 by (eapply going_quiet; [done|done|by repeat constructor]).
  assert (~ cleared (h ++ [ev (PinSession (Ref_Target ref)) pinned])) as Hn1 by (intros Hc%quiet_cleared; [done|by repeat constructor]).
  revert Hg1 Hn1. generalize (h ++ [ev (PinSession (Ref_Target ref)) pinned]) as h1. intros h1 Hg1 Hn1.
  assert (forall open h p, going tm ref h p -> gw (unconfirmed ref open []) h p (fun h out p => done_ok tm ref pf F h (Ok out) p)) as Hun.
  { intros open h2 p2 Hg2. apply (gated_of tm F false), cw_unconfirmed; [done|]. by intros. }
  destruct pinned; cbn [negb]; [|by apply scwp_bind; eapply scwp_mono; [by apply Hun|]]. apply scwp_bind, gw_quiet; [apply sfrees_readPromotionLive|].
  intros t live p1 Hq Hl. apply readPromotionLive_runs in Hl as [-> _].
  assert (going tm ref (h1 ++ t) p) as Hg2 by (by eapply going_quiet). assert (~ cleared (h1 ++ t)) as Hn2 by (by intros Hc%quiet_cleared).
  apply scwp_bind. apply (scwp_mono _ _ _ _ (fun h r p => done_ok tm ref pf F h r.1 p)).
  2:{ intros h2 [out open] p2 [Hg3 Ho]. cbn in *. apply scwp_bind, gw_quiet; [unfold close_session; solve_frees|]. intros t2 u p3 Hq2 H2.
      assert (p3 = p2) as -> by (unfold close_session in H2; by destruct open; srun_all). apply scwp_ret. split; [by eapply going_quiet|by apply outcome_ok_quiet]. }
  destruct live as [live|]; [|by apply scwp_bind; eapply scwp_mono; [by apply Hun|]]. apply scwp_bind, scwp_get, scwp_bind, scwp_get.
  destruct (classifyPromotionStage _ live F _ _) as [stage|out] eqn:Ec; [by apply gw_stage|]. apply classify_verdict in Ec as [Hk Hw].
  assert (gw (fret (Ok out, true)) (h1 ++ t) p (fun h r p => done_ok tm ref pf F h r.1 p)) as Hsame by (apply scwp_ret; split; [done|by apply outcome_ok_kind]).
  destruct (PO_Kind out) eqn:Ek; try done. match goal with |- context [match ?b with true => _ | false => _ end] => destruct b end; [|done].
  apply scwp_bind, gw_quiet; [apply sfrees_replaced|]. intros t2 safe p2 Hq2 H2. apply replaced_runs in H2 as ->. apply scwp_ret.
  split; [by eapply going_quiet|]. apply outcome_ok_kind; [by cbn; rewrite Hw|by cbn; rewrite Ek].
Qed.

(** Every promotion: its statements are gated, its memo honest, its outcome true. *)
Lemma gw_promote tm h p : saw h CurrentManager (Some tm) -> ~ cleared h ->
  gw (promotePlannedRun unicode_fold tm ref pf) h p (fun h r p => memo_ok ref h p /\ promoted_ok h r).
Proof using.
  intros Hm Hn. unfold promotePlannedRun. assert (going tm ref h p) as Hg by (split; [done|by intros Hc]).
  destruct (getSite tm (Ref_Target ref)) as [tgt|]; [|apply scwp_ret; split; [apply Hg|by intros out ?]].
  destruct (getSite tm (Ref_Source ref)) as [src|] eqn:Es; [|apply scwp_ret; split; [apply Hg|by intros out ?]].
  case_bool_decide; [apply scwp_ret; split; [apply Hg|by intros out ?]|].
  destruct (plannedFenceGTIDSet pf) as [F|] eqn:HF; [|apply scwp_ret; split; [apply Hg|by intros out [= <-]]].
  destruct (isPromotable tgt); cbn [negb].
  2:{ apply scwp_bind, scwp_get, scwp_ret. split; [apply Hg|]. intros out [= <-]. by split. }
  apply scwp_bind, scwp_call; [done|]. intros u. apply scwp_bind. eapply scwp_mono.
  { apply gw_pinned; [by rewrite Es|done|eapply going_quiet; [done|done|by repeat constructor]|intros Hc%quiet_cleared; [done|by repeat constructor]]. }
  intros h1 r p1 Hd. apply scwp_bind, scwp_call; [done|]. intros u2. apply scwp_ret.
  assert (done_ok tm ref pf F (h1 ++ [ev (FinishTopologyChange (tm_id tm)) u2]) r p1) as Hd'.
  { destruct Hd as [Hg1 Ho]. split; [eapply going_quiet; [done|done|by repeat constructor]|]. apply outcome_ok_quiet; [by repeat constructor|done]. }
  split; [apply Hd'|by eapply promoted_of].
Qed.

(** [Promote] from the call on. *)
Lemma gw_Promote p : gw (Promote unicode_fold ref pf) [] p (fun h r p => memo_ok ref h p /\ promoted_ok h r).
Proof using.
  assert (forall h p e, ~ cleared h -> memo_ok ref h p /\ promoted_ok h (Err e)) as Herr by (intros h p0 e Hn; split; [by intros Hc|by intros out ?]).
  unfold Promote, with_manager, with_claim. apply scwp_bind, scwp_call; [done|]. intros [tm|]; [|apply scwp_ret, Herr; by apply quiet_not_cleared; repeat constructor].
  apply scwp_bind, scwp_call; [done|]. intros [e|]; [apply scwp_ret, Herr; by apply quiet_not_cleared; repeat constructor|].
  apply gw_promote; [by left|]. apply quiet_not_cleared. by repeat constructor.
Qed.

(** What a re-proof's result may be: without a handed-off promotion nothing was cleared. *)
Definition reproved_ok (h : list (event ans)) (r : res facade_error ReproveResult) : Prop :=
  match r with
  | Ok {| RR_HandOff := Some out |} => exists o', promoted_ok h (Ok o') /\ out = o' <| PO_Warnings := PO_Warnings out |> /\ (forall w, w ∈ PO_Warnings o' -> w ∈ PO_Warnings out)
  | Ok _ => ~ cleared h
  | Err _ => True
  end.

Lemma mergeWarnings_left a b w : w ∈ a -> w ∈ mergeWarnings a b.
Proof using.
  unfold mergeWarnings. revert a. induction b as [|x b IH]; intros a Ha; cbn; [done|]. apply IH. case_bool_decide; [done|]. apply elem_of_app. by left.
Qed.

Lemma sfrees_target_unwritten tm : sfrees quiet (target_unwritten tm ref pf).
Proof using. unfold target_unwritten, with_claim. solve_frees. Qed.

Lemma gw_reprove_peers tm c h p : saw h CurrentManager (Some tm) -> ~ cleared h ->
  gw (reprove_peers unicode_fold tm ref pf c) h p (fun h r p => memo_ok ref h p /\ reproved_ok h r).
Proof using.
  intros Hm Hn. unfold reprove_peers. apply scwp_bind, gw_quiet; [apply sfrees_probe_peers|]. intros t v p1 Hq _.
  assert (saw (h ++ t) CurrentManager (Some tm)) as Hm1 by (by apply saw_app_l). assert (~ cleared (h ++ t)) as Hn1 by (by intros Hc%quiet_cleared).
  assert (forall h p, ~ cleared h -> gw (reproved tm ref) h p (fun h r p => memo_ok ref h p /\ reproved_ok h r)) as Hre.
  { intros h2 p2 Hn2. apply scwp_bind, scwp_call; [done|]. intros u. apply scwp_ret. split; [|]; intros Hc%quiet_cleared; by try (repeat constructor). }
  set (c' := {| failed := _; recordChanged := _; lackOfEvidence := _; sourceWrote := _ |}).
  assert (gw (reprove_promoting unicode_fold tm ref pf c' v) (h ++ t) p1 (fun h r p => memo_ok ref h p /\ reproved_ok h r)) as Hprom.
  { unfold reprove_promoting. apply scwp_bind, gw_quiet; [apply sfrees_target_unwritten|]. intros t2 r p2 Hq2 _.
    assert (saw ((h ++ t) ++ t2) CurrentManager (Some tm)) as Hm2 by (by apply saw_app_l). assert (~ cleared ((h ++ t) ++ t2)) as Hn2 by (by intros Hc%quiet_cleared).
    destruct r as [[]|e]; [by apply scwp_ret; split; [by intros Hc|]| |by apply scwp_ret; split; [by intros Hc|]].
    destruct (recordChanged c'); [by apply scwp_ret; split; [by intros Hc|]|].
    destruct (nonempty (writable v) || sourceWrote c'); [by apply scwp_ret; split; [by intros Hc|]|].
    apply scwp_bind, scwp_call; [done|]. intros u. apply scwp_bind. eapply scwp_mono.
    { apply gw_promote; [by apply saw_app_l|]. intros Hc%quiet_cleared; by try (repeat constructor). }
    intros h3 out p3 [Hk Ho]. apply scwp_ret. split; [done|]. destruct out as [out|e]; [|done]. exists out. split; [done|]. split; [done|].
    intros w Hw. by apply mergeWarnings_left. }
  destruct (promoting pf); cbn [negb].
  - destruct (failed c'); [done|]. match goal with |- context [if ?b then reprove_promoting _ _ _ _ _ _ else _] => destruct b end; [done|by apply Hre].
  - destruct (failed c'); [by apply scwp_ret; split; [by intros Hc|]|by apply Hre].
Qed.

End promotions.

End facade.
