(* ===== verification/FacadeUnfence.v ===== *)
(** * The planned-failover facade: what it proves before it unfences the source

    [rollbackRun]'s statements and outcomes. *)
From S2P Require Import Prelude GoStd Intervals GtidSet SiteState Effects GoTime Failover FailoverRecord PlannedRun ClaimSlot EngineData EngineSteps Protocol FacadeData FacadeSteps FacadePromote FacadeRollback FacadeSafety.

Local Open Scope Z_scope.

#[local] Arguments prog_bind {Op Ans A B} _ _ : simpl never.

Import GTID Matrix PlannedRun FailoverRecords ClaimSlot Engine Steps Facade Ops Promotion Rollbacks.

(** ** Vocabulary *)

(** A read of the state on [c] failed. *)
Definition live_unread (tr : list (event ans)) (c : conn) : Prop :=
  saw tr (CheckReadOnly c) None \/ (exists e, saw tr (CheckSuperReadOnly c) (Err e)) \/ saw tr (ShowReplicaStatus c) None
  \/ (exists e, saw tr (ReadGTIDSnapshot c) (Err e)) \/ exists uuid raw e, saw tr (ReadGTIDSnapshot c) (Ok (uuid, raw)) /\ ParseGTIDSet raw = Err e.

Section rollback.

Context (tm : TopologyManager) (ref : PlannedRunRef) (pf : Run) (p0 : facade).

#[local] Abbreviation src := (Ref_Source ref).
#[local] Abbreviation tgt := (Pooled (Ref_Target ref)).

(** The run recorded a promotion, and this process cannot prove that it wrote nothing. *)
Definition maybe_written : bool := bool_decide (is_Some (Engine.Promotion pf)) && negb (proves_no_write p0 (Ref_RunID ref)).

(** The source is the server the run fenced, still read-only on the session that is
    written. *)
Definition source_attributed (h : list (event ans)) : Prop :=
  exists i j, identity_read h (Pooled src) i /\ attributable p0 (Ref_RunID ref) (fence_uuid pf) (id_uuid i) = true
    /\ identity_read h (Pinned src) j /\ id_uuid j = id_uuid i /\ id_readOnly j = true.

(** The target, if read-only, refuses even privileged writes, and holds nothing beyond the
    fenced set when the run may have written; unread only when it cannot have. *)
Definition target_settled (h : list (event ans)) : Prop :=
  (exists l, live_read h tgt l /\ (live_readOnly l = true -> live_superReadOnly l = true \/ saw h (CheckSuperReadOnly tgt) (Ok true))
     /\ (maybe_written = true -> exists F, plannedFenceGTIDSet pf = Some F /\ IsEmpty (Subtract (live_gtid l) F) = true))
  \/ (live_unread h tgt /\ maybe_written = false).

(** The claim was checked right before the statements. *)
Definition claimed_last (h : list (event ans)) (o : op) : Prop :=
  exists h0 : list (event ans), let claim := ev (Ans := ans) (RequireRunClaim (tm_id tm) ref false) None in
    (h = h0 ++ [claim] /\ o = SetSuperReadOnly (Pinned src) false)
    \/ exists x, h = h0 ++ [claim; ev (SetSuperReadOnly (Pinned src) false) x] /\ o = SetReadOnly (Pinned src) false.

Definition unfence_evidence (h : list (event ans)) (o : op) : Prop :=
  saw h CurrentManager (Some tm) /\ source_attributed h /\ probed h tm [src] not_writable /\ target_settled h
  /\ rollback_reason pf <> "SourceLost" /\ claimed_last h o.

Definition unfenced (h : list (event ans)) (o : op) : Prop := clears o = true -> unfence_evidence h o.

(** A rollback that reports the source serving writes read it writable. *)
Definition rolled_ok (h : list (event ans)) (r : res facade_error RollbackResult) : Prop := forall o, r = Ok o -> RB_Outcome o = Some OutcomeRolledBack ->
  saw h (CheckReadOnly (Pooled src)) (Some false) \/ saw h (CheckReadOnly (Pinned src)) (Some false).

#[local] Abbreviation uw := (scwp unfenced).

(** ** Steps without clears *)

#[local] Hint Resolve saw_app_l saw_app_r identity_read_r identity_read_l live_read_l live_read_r probed_r probed_l : core.
#[local] Hint Resolve sfrees_probe_all sfrees_readSourceIdentity sfrees_readPromotionLive sfrees_probe_peers : frees.

Lemma uw_quiet {A} (m : fac A) h p (Q : list (event ans) -> A -> facade -> Prop) : sfrees quiet m ->
  (forall t a p', runs (m p) t (a, p') -> Q (h ++ t) a p') -> uw m h p Q.
Proof using.
  intros Hm HQ. eapply (scwp_runs _ quiet); [|exact Hm|exact HQ]. unfold quiet, unfenced. intros h' o. by destruct (clears o).
Qed.

Lemma readPromotionLive_unread c p tr p' : runs (readPromotionLive c p) tr (None, p') -> live_unread tr c.
Proof using.
  unfold readPromotionLive, live_unread. intros H. srun H. destruct a as [ro|]; [|left; apply saw_app_l; left].
  right. srun H. destruct a as [sro|e]; [|left; exists e; apply saw_app_r, saw_app_l; left].
  right. srun H. destruct a as [repl|]; [|left; apply saw_app_r, saw_app_r, saw_app_l; left].
  right. srun H. srun H. destruct a as [[uuid raw]|e]; [|left; exists e; do 3 apply saw_app_r; apply saw_app_l; left].
  right. destruct (ParseGTIDSet raw) as [set|e] eqn:Ep; [done|]. exists uuid, raw, e. split; [|done]. do 3 apply saw_app_r. apply saw_app_l. left.
Qed.

(** A statement on the target that is not a clear, and what its failure means. *)
Lemma sfrees_refence live : sfrees quiet (refencePlannedTarget tm ref live).
Proof using. unfold refencePlannedTarget. solve_frees. Qed.

Lemma refence_runs live p t live' e p' : runs (refencePlannedTarget tm ref live p) t ((live', e), p') -> p' = p
  /\ (e = None -> match live with
                   | Some l => live_readOnly l = true -> live_superReadOnly l = true \/ saw t (CheckSuperReadOnly tgt) (Ok true)
                   | None => True
                   end).
Proof using.
  unfold refencePlannedTarget. destruct live as [l|]; [|by intros H; srun_all].
  destruct (live_readOnly l) eqn:Er, (live_superReadOnly l) eqn:Es; cbn [negb orb]; intros H; try (srun_all; split; [done|]; by try left).
  srun H. destruct a as [e1|]; [by srun_all|]. srun H. destruct a; cbn [negb] in H; [|by srun_all]. srun H. srun_all. split; [done|].
  intros He _. right. destruct a as [[]|]; simplify_eq. do 2 apply saw_app_r. apply saw_app_l. left.
Qed.

Lemma sfrees_restore live F v : sfrees quiet (restorePlannedTargetChannel tm ref live F v).
Proof using. unfold restorePlannedTargetChannel, restore_channel, claimed_start, withReplicaStartGate. solve_frees. Qed.

Lemma restore_runs live F v p t ws p' : runs (restorePlannedTargetChannel tm ref live F v p) t (ws, p') -> p' = p.
Proof using. unfold restorePlannedTargetChannel, restore_channel, claimed_start, withReplicaStartGate. intros H. by srun_all. Qed.

#[local] Hint Resolve sfrees_refence sfrees_restore : frees.

Lemma sfrees_left_fenced live ws : sfrees quiet (left_fenced tm ref pf live ws).
Proof using. unfold left_fenced. solve_frees. Qed.

Lemma sfrees_writable live i : sfrees quiet (rollback_writable tm ref pf live i).
Proof using. unfold rollback_writable, may_have_written, memoProvesNoWrite, fenceAttribution, unfinished. solve_frees. Qed.

Lemma left_fenced_runs live ws p t r p' : runs (left_fenced tm ref pf live ws p) t (r, p') -> exists o, r = Ok o /\ RB_Outcome o = Some OutcomeSourceLeftFenced.
Proof using. unfold left_fenced. intros H. srun H. srun_all. by eexists. Qed.

(** The memos the decision reads. *)
Definition same_memos (p : facade) : Prop := fenceMemo p = fenceMemo p0 /\ promoteMemo p = promoteMemo p0.

Lemma same_attributable p a b : same_memos p -> attributable p (Ref_RunID ref) a b = attributable p0 (Ref_RunID ref) a b.
Proof using. intros [Hf _]. unfold attributable. by rewrite Hf. Qed.

Lemma same_written p : same_memos p -> bool_decide (is_Some (Engine.Promotion pf)) && negb (proves_no_write p (Ref_RunID ref)) = maybe_written.
Proof using. intros [_ Hp]. unfold maybe_written, proves_no_write. by rewrite Hp. Qed.

Definition settled_set (l : promotionLive) : Prop :=
  maybe_written = true -> exists F, plannedFenceGTIDSet pf = Some F /\ IsEmpty (Subtract (live_gtid l) F) = true.

Lemma precondition_runs live p t r p' : same_memos p -> runs (rollback_precondition tm ref pf live p) t (r, p') -> same_memos p'
  /\ (r = None -> match live with Some l => settled_set l | None => maybe_written = false end)
  /\ (forall r' o, r = Some r' -> r' = Ok o -> RB_Outcome o <> Some OutcomeRolledBack).
Proof using.
  intros Hs H. unfold rollback_precondition in H. apply sbind_runs in H as (t1 & u & p1 & t2 & -> & H1 & H).
  assert (same_memos p1) as Hs1 by (destruct live; unfold targetLossRecovered in *; by srun_all). clear H1.
  apply sbind_runs in H as (t3 & w & p2 & t4 & -> & H1 & H).
  assert (p2 = p1 /\ w = maybe_written) as [-> ->].
  { rewrite <- (same_written p1 Hs1). unfold may_have_written, memoProvesNoWrite in *. destruct (Engine.Promotion pf); by srun_all. }
  clear H1. unfold settled_set. destruct maybe_written; cbn [negb] in H.
  2:{ srun_all. split; [done|]. split; [|done]. intros _. by destruct live. }
  destruct live as [l|].
  - srun_all. split; [done|]. destruct (plannedFenceGTIDSet pf) as [F|]; [|split; [done|by intros r' o [= <-] [= <-]]].
    destruct (IsEmpty _) eqn:Ee; split; try done; [intros _ _; by exists F|by intros r' o [= <-] [= <-]].
  - unfold targetLossExpired in H. srun_all. split; [done|]. split; [done|]. intros r' o [= <-] [= <-]. cbn. by case_match.
Qed.

Lemma uw_pinned live i h p : same_memos p -> saw h CurrentManager (Some tm) -> identity_read h (Pooled src) i ->
  attributable p0 (Ref_RunID ref) (fence_uuid pf) (id_uuid i) = true -> probed h tm [src] not_writable -> target_settled h -> rollback_reason pf <> "SourceLost" ->
  uw (rollback_pinned tm ref pf live i) h p (fun h r _ => rolled_ok h r).
Proof using.
  intros Hs Hm Hi Ha Hp Ht Hr.
  assert (forall h o, RB_Outcome o <> Some OutcomeRolledBack -> rolled_ok h (Ok o)) as Hnot by (by intros h' o Ho o' [= <-]).
  unfold rollback_pinned. apply scwp_bind, scwp_call; [done|]. intros pinned. destruct pinned; cbn [negb]; [|by apply scwp_ret, Hnot].
  apply scwp_bind, uw_quiet; [apply sfrees_readSourceIdentity|]. intros t r p1 H1. apply readSourceIdentity_runs in H1 as [-> Hj].
  apply scwp_bind. apply (scwp_mono _ _ _ _ (fun h r _ => rolled_ok h r)).
  2:{ intros h1 r1 p2 Ho. apply scwp_bind, scwp_call; [done|]. intros u. apply scwp_ret. intros o Hk Hout. destruct (Ho o Hk Hout); auto. }
  destruct r as [j|e]; [|by apply scwp_ret, Hnot]. specialize (Hj j eq_refl). case_bool_decide as Eu; cbn [negb].
  2:{ apply uw_quiet; [apply sfrees_left_fenced|]. intros t2 r p2 H2. apply left_fenced_runs in H2 as (o & -> & Ho). apply Hnot. by rewrite Ho. }
  apply scwp_bind, uw_quiet; [apply sfrees_restore|]. intros t2 ws p2 H2. apply restore_runs in H2 as ->.
  set (h2 := (_ ++ t) ++ t2). assert (identity_read h2 (Pinned src) j) as Hj2 by (by apply identity_read_l, identity_read_r).
  destruct (id_readOnly j) eqn:Er; cbn [negb].
  2:{ apply scwp_ret. intros o Hk Hout. right. destruct Hj2 as (Hro & _). by rewrite Er in Hro. }
  assert (forall t o, claimed_last (h2 ++ t) o -> unfence_evidence (h2 ++ t) o) as Hev.
  { intros t3 o Hc. assert (exists t', h2 ++ t3 = h ++ t') as [t' E] by (unfold h2; rewrite <- !(assoc_L (++)); by eexists).
    assert (identity_read (h2 ++ t3) (Pinned src) j) as Hj3 by (by apply identity_read_l). rewrite E in Hc, Hj3 |- *.
    split; [eauto|]. split; [exists i, j; by split_and!; eauto|]. split; [eauto|]. split; [|done]. destruct Ht as [(l & Hl & Hsro & Hw)|[Hu Hw]].
    - left. exists l. split; [eauto|]. split; [|done]. intros Hro. destruct (Hsro Hro); eauto.
    - right. split; [|done]. destruct Hu as [|[[e]|[|[[e]|(uuid & raw & e & Hsn & Hpe)]]]]; unfold live_unread; eauto 10. }
  unfold unfence_source, with_claim. apply scwp_bind, scwp_call; [done|]. intros [e|]; [by apply scwp_ret; intros o|].
  apply scwp_bind, scwp_call.
  { intros _. apply Hev. exists h2. by left. }
  intros x. apply scwp_bind, scwp_call.
  { intros _. rewrite <- (assoc_L (++)). apply Hev. exists h2. right. by exists x. }
  intros y. destruct (x && y); cbn [negb]; [|by apply scwp_ret, Hnot].
  apply scwp_bind, scwp_call; [done|]. intros ro. apply scwp_ret. intros o [= <-]. cbn. case_bool_decide as Ero; [|done]. intros _. right.
  apply saw_app_r. rewrite Ero. left.
Qed.

(** What the target's read established before the source is decided. *)
Definition target_known (h : list (event ans)) (live : option promotionLive) : Prop :=
  match live with Some l => live_read h tgt l /\ settled_set l | None => live_unread h tgt /\ maybe_written = false end.

Lemma rolled_ok_other h o : RB_Outcome o <> Some OutcomeRolledBack -> rolled_ok h (Ok o).
Proof using. by intros Ho o' [= <-]. Qed.

Lemma live_unread_l t1 t2 c : live_unread t1 c -> live_unread (t1 ++ t2) c.
Proof using. unfold live_unread. intros [|[[e]|[|[[e]|(uuid & raw & e & Hs & Hp)]]]]; eauto 10. Qed.

Lemma target_known_l t1 t2 live : target_known t1 live -> target_known (t1 ++ t2) live.
Proof using. destruct live; intros [H1 H2]; (split; [|done]); [by apply live_read_l|by apply live_unread_l]. Qed.

Lemma uw_fenced live i h p : same_memos p -> saw h CurrentManager (Some tm) -> (forall x, i = Some x -> identity_read h (Pooled src) x) -> target_known h live ->
  uw (rollback_fenced tm ref pf live i) h p (fun h r _ => rolled_ok h r).
Proof using.
  intros Hs Hm Hi Ht. unfold rollback_fenced. apply scwp_bind, uw_quiet; [apply sfrees_refence|]. intros t [live' e] p1 H1.
  assert (live' = None <-> live = None) as Hl'.
  { revert H1. unfold refencePlannedTarget. destruct live as [l|]; [|by intros H1; srun_all]. destruct (_ || _); intros H1; srun_all; simplify_eq; try done.
    all: repeat case_match; by simplify_eq. }
  pose proof (refence_runs _ _ _ _ _ _ H1) as [-> Href]. clear H1.
  apply scwp_bind, uw_quiet; [apply sfrees_probe_peers|]. intros t2 v p2 H2. apply probe_peers_runs in H2 as (-> & Hp & _).
  apply scwp_bind, uw_quiet; [destruct i; unfold fenceAttribution; solve_frees|]. intros t3 ours p3 H3.
  assert (p3 = p /\ t3 = [] /\ forall x, i = Some x -> ours = attributable p0 (Ref_RunID ref) (fence_uuid pf) (id_uuid x)) as (-> & -> & Ho).
  { unfold fenceAttribution in H3. destruct i as [x|]; srun_all; split_and!; try done. intros y [= <-]. by apply same_attributable. }
  rewrite app_nil_r.
  assert (forall ws, uw (left_fenced tm ref pf live' ws) ((h ++ t) ++ t2) p (fun h r _ => rolled_ok h r)) as Hleft.
  { intros ws. apply uw_quiet; [apply sfrees_left_fenced|]. intros t4 r p4 H4. apply left_fenced_runs in H4 as (o & -> & Hr). apply rolled_ok_other. by rewrite Hr. }
  destruct (nonempty (writable v)) eqn:Ew; [done|]. case_bool_decide as Er; [done|]. destruct i as [x|]; [|by apply scwp_ret, rolled_ok_other].
  rewrite (Ho x eq_refl). destruct (attributable _ _ _ _) eqn:Ea; cbn [negb]; [|done]. destruct e as [e|]; [by apply scwp_ret, rolled_ok_other|].
  specialize (Href eq_refl). apply uw_pinned; [done|eauto|eauto 6|done|eauto| |done].
  destruct live as [l|].
  - destruct Ht as [Hl Hset]. left. exists l. split; [eauto 6|]. split; [|done]. intros Hro. destruct (Href Hro); eauto.
  - destruct Ht as [Hl Hw]. right. split; [|done]. by apply live_unread_l, live_unread_l.
Qed.


Lemma uw_rollbackRun h p : same_memos p -> saw h CurrentManager (Some tm) -> uw (rollbackRun tm ref pf) h p (fun h r _ => rolled_ok h r).
Proof using.
  intros Hs Hm. unfold rollbackRun. destruct (getSite tm src); [|by apply scwp_ret; intros o]. destruct (getSite tm (Ref_Target ref)); [|by apply scwp_ret; intros o].
  apply scwp_bind, uw_quiet; [apply sfrees_readPromotionLive|]. intros t live p1 H1.
  assert (match live with Some l => live_read (h ++ t) tgt l | None => live_unread (h ++ t) tgt end) as Hl.
  { destruct live as [l|]; [destruct (readPromotionLive_runs _ _ _ _ _ H1) as [_ H]; by apply live_read_r, H|].
    apply readPromotionLive_unread in H1. destruct H1 as [|[[e]|[|[[e]|(uuid & raw & e & Hsn & Hp)]]]]; unfold live_unread; eauto 10. }
  apply readPromotionLive_runs in H1 as [-> _].
  apply scwp_bind, uw_quiet; [unfold rollback_precondition, targetLossRecovered, may_have_written, memoProvesNoWrite, targetLossExpired; solve_frees|].
  intros t2 ended p2 H2. apply precondition_runs in H2 as (Hs2 & Hn & He); [|done]. destruct ended as [r|].
  { apply scwp_ret. intros o -> Ho. by destruct (He (Ok o) o). }
  specialize (Hn eq_refl).
  apply scwp_bind, uw_quiet; [apply sfrees_readSourceIdentity|]. intros t3 i p3 H3. apply readSourceIdentity_runs in H3 as [-> Hi].
  assert (target_known (((h ++ t) ++ t2) ++ t3) live) as Ht.
  { apply target_known_l, target_known_l. by destruct live. }
  destruct i as [i|e].
  - specialize (Hi i eq_refl). destruct (id_readOnly i) eqn:Er; cbn [negb].
    + apply uw_fenced; [done|eauto|by intros x [= <-]; apply identity_read_r|done].
    + apply uw_quiet; [apply sfrees_writable|]. intros t4 r p4 _ o _ _. left. destruct Hi as [Hro _]. rewrite Er in Hro. apply saw_app_l. by apply saw_app_r.
  - apply uw_fenced; [done|eauto|done|done].
Qed.

End rollback.
