(* ===== verification/FacadeFence.v ===== *)
(** * The planned-failover facade: what it proves before it fences the source

    [Fence]'s one statement and its proofs. *)
From S2P Require Import Prelude GoStd Intervals GtidSet SiteState Effects GoTime Failover FailoverRecord PlannedRun ClaimSlot EngineData EngineSteps Protocol FacadeData FacadeSteps FacadePromote FacadeRollback FacadeSafety.

Local Open Scope Z_scope.

#[local] Arguments prog_bind {Op Ans A B} _ _ : simpl never.

Import GTID Matrix PlannedRun FailoverRecords ClaimSlot Engine Steps Facade Ops.

(** A statement that changes a server. *)
Definition statement (o : op) : bool :=
  match o with
  | SetSuperReadOnly _ _ | SetReadOnly _ _ | StopReplica _ | ResetReplicaAll _ | StartReplica _ | ChangeReplicationSource _ _ _ => true
  | _ => false
  end.

Definition reading (o : op) : bool := negb (statement o).

Section fence.

Context (tm : TopologyManager) (ref : PlannedRunRef) (uuid : string).

#[local] Abbreviation src := (Ref_Source ref).

(** The source is the unique writable site and the intended server, read writable on the
    session that is written, and the claim was checked last. *)
Definition fence_evidence (h : list (event ans)) (o : op) : Prop :=
  o = SetSuperReadOnly (Pinned src) true /\ saw h CurrentManager (Some tm) /\ saw h (CheckReadOnly (Pooled src)) (Some false)
  /\ probed h tm [src] fenced_or_reader
  /\ (exists i, identity_read h (Pinned src) i /\ id_uuid i = uuid /\ id_readOnly i = false)
  /\ exists h0, h = h0 ++ [ev (RequireRunClaim (tm_id tm) ref false) None].

Definition fenced_with (h : list (event ans)) (o : op) : Prop := statement o = true -> fence_evidence h o.

(** A fence reported applied: the source, attributable to the run, refused writes when
    the fenced set was read, and no other site was writable afterwards. *)
Definition applied_ok (h : list (event ans)) (p : facade) (proof : FenceProof) : Prop :=
  exists c i t0 t1, h = t0 ++ t1 /\ (c = Pooled src \/ c = Pinned src) /\ identity_read t0 c i /\ id_superReadOnly i = true
    /\ FP_GtidSet proof = id_gtid i /\ attributable p (Ref_RunID ref) uuid (id_uuid i) = true /\ probed t1 tm [src] not_writable.

Definition proof_ok (h : list (event ans)) (p : facade) (r : res facade_error FenceProof) : Prop := forall proof, r = Ok proof ->
  (FP_Kind proof = FenceApplied -> applied_ok h p proof)
  /\ (FP_Kind proof = FenceNotSent -> Forall (fun e => reading (projT1 e) = true) h).

#[local] Abbreviation fw := (scwp fenced_with).

#[local] Hint Resolve saw_app_l saw_app_r identity_read_r identity_read_l probed_r probed_l : core.

Lemma reading_probe_all l : sfrees reading (probe_all l).
Proof using. induction l as [|s l IH]; simpl; solve_frees. Qed.

Lemma reading_identity c : sfrees reading (readSourceIdentity c).
Proof using. unfold readSourceIdentity. solve_frees. Qed.

#[local] Hint Resolve reading_probe_all reading_identity : frees.

Lemma reading_peers t skip : sfrees reading (probe_peers t skip).
Proof using. unfold probe_peers, plannedProbeSites. solve_frees. Qed.

Lemma reading_postFence i : sfrees reading (postFenceProof tm ref i).
Proof using. unfold postFenceProof, probe_peers, plannedProbeSites. solve_frees. Qed.

#[local] Hint Resolve reading_postFence : frees.

Lemma reading_attributed i : sfrees reading (attributed tm ref uuid i).
Proof using. unfold attributed, fenceAttribution. solve_frees. Qed.

Lemma fw_reading {A} (m : fac A) h p (Q : list (event ans) -> A -> facade -> Prop) : sfrees reading m ->
  (forall t a p', Forall (fun e => reading (projT1 e) = true) t -> runs (m p) t (a, p') -> Q (h ++ t) a p') -> fw m h p Q.
Proof using.
  intros Hm HQ. eapply (scwp_runs _ reading); [|exact Hm|].
  - unfold reading, fenced_with. intros h' o. by destruct (statement o).
  - intros t a p' H. apply HQ; [|done]. by eapply sfrees_runs.
Qed.

Lemma postFence_runs i p t proof p' : runs (postFenceProof tm ref i p) t (proof, p') ->
  p' = p /\ FP_GtidSet proof = id_gtid i /\ FP_Kind proof <> FenceNotSent /\ (FP_Kind proof = FenceApplied -> probed t tm [src] not_writable).
Proof using.
  unfold postFenceProof. intros H. srun H.
  match goal with H : runs (probe_peers _ _ _) _ _ |- _ => apply probe_peers_runs in H as (-> & Hp & _) end.
  srun_all. rewrite app_nil_r. cbn. split; [done|]. split; [done|]. destruct (nonempty (writable a)); (split; [done|auto; done]).
Qed.

Lemma attributed_runs i p t a p' : runs (attributed tm ref uuid i p) t (a, p') -> p' = p /\ forall proof, a = Some proof ->
  FP_Kind proof <> FenceNotSent /\ (FP_Kind proof = FenceApplied -> id_superReadOnly i = true /\ FP_GtidSet proof = id_gtid i
    /\ attributable p (Ref_RunID ref) uuid (id_uuid i) = true /\ probed t tm [src] not_writable).
Proof using.
  unfold attributed, fenceAttribution. destruct (id_readOnly i), (id_superReadOnly i) eqn:Es; cbn [negb orb]; intros H; try (by srun_all).
  srun H. destruct (attributable _ _ _ _) eqn:Ea; cbn [negb] in H; [|srun_all; split; [done|]; by intros proof [= <-]].
  srun H. match goal with H : runs (postFenceProof _ _ _ _) _ _ |- _ => apply postFence_runs in H as (-> & Hg & Hk & Hp) end.
  srun_all. split; [done|]. intros proof [= <-]. split; [done|]. rewrite app_nil_r. auto.
Qed.

(** What was decided by attribution. *)
Lemma attributed_ok i c h t p proof : runs (attributed tm ref uuid i p) t (Some proof, p) -> identity_read h c i -> (c = Pooled src \/ c = Pinned src) ->
  proof_ok (h ++ t) p (Ok proof).
Proof using.
  intros H Hi Hc. apply attributed_runs in H as [_ H]. specialize (H proof eq_refl) as [Hk Ha]. intros proof' [= <-]. split; [|done].
  intros Hap. destruct (Ha Hap) as (H1 & H2 & H3 & H4). by exists c, i, h, t.
Qed.

Lemma proof_ok_other h p proof : FP_Kind proof <> FenceApplied -> (FP_Kind proof = FenceNotSent -> Forall (fun e => reading (projT1 e) = true) h) ->
  proof_ok h p (Ok proof).
Proof using. intros H1 H2 proof' [= <-]. done. Qed.

Lemma proof_ok_end h p r e : statement (projT1 e) = false -> proof_ok h p r -> proof_ok (h ++ [e]) p r.
Proof using.
  intros He H proof ->. destruct (H proof eq_refl) as [Ha Hn]. split.
  - intros Hk. destruct (Ha Hk) as (c & i & t0 & t1 & -> & Hc & Hi & Hs & Hg & Hat & Hp). exists c, i, t0, (t1 ++ [e]). rewrite (assoc_L (++)).
    split_and!; eauto.
  - intros Hk. apply Forall_app. split; [by apply Hn|]. constructor; [by unfold reading; rewrite He|constructor].
Qed.

Lemma fw_not_sent i c h p : (forall x, i = Some x -> identity_read h c x) -> (c = Pooled src \/ c = Pinned src) ->
  Forall (fun e => reading (projT1 e) = true) h -> fw (fence_not_sent tm ref uuid i) h p (fun h r p => proof_ok h p r).
Proof using.
  intros Hi Hc Hr. unfold fence_not_sent. apply scwp_bind, fw_reading; [destruct i; [apply reading_attributed|apply sfrees_ret]|]. intros t a p1 Ht H.
  apply scwp_ret. assert (Forall (fun e => reading (projT1 e) = true) (h ++ t)) as Hall by (by apply Forall_app).
  destruct i as [x|]; [|by srun_all; apply proof_ok_other]. pose proof (attributed_runs _ _ _ _ _ H) as [-> _].
  destruct a as [proof|]; [by eapply attributed_ok; eauto|by apply proof_ok_other].
Qed.

(** The statement: the memo first, then the readback. *)
Lemma fw_send i h p : saw h CurrentManager (Some tm) -> saw h (CheckReadOnly (Pooled src)) (Some false) -> probed h tm [src] fenced_or_reader ->
  identity_read h (Pinned src) i -> id_uuid i = uuid -> id_readOnly i = false -> fw (fence_send tm ref i) h p (fun h r p => proof_ok h p r).
Proof using.
  intros Hm Hw Hp Hi Hu Hr. unfold fence_send, with_claim. apply scwp_bind, scwp_call; [done|]. intros [e|]; [by apply scwp_ret; intros proof|].
  apply scwp_bind, scwp_modify. apply scwp_bind, scwp_call.
  { intros _. split; [done|]. split; [eauto|]. split; [eauto|]. split; [eauto|]. split; [exists i; eauto|]. by eexists. }
  intros set. destruct set; cbn [negb]; [|by apply scwp_ret, proof_ok_other]. apply scwp_bind, fw_reading; [apply reading_identity|].
  intros t after p1 Ht H. apply readSourceIdentity_runs in H as [-> Ha]. destruct after as [a|e]; [|by apply scwp_ret, proof_ok_other].
  specialize (Ha a eq_refl). destruct (id_superReadOnly a) eqn:Es; cbn [negb orb]; [|by apply scwp_ret, proof_ok_other].
  case_bool_decide as Eu; cbn [negb]; [|by apply scwp_ret, proof_ok_other]. apply scwp_bind, fw_reading; [apply reading_postFence|].
  intros t2 proof p2 Ht2 H2. apply postFence_runs in H2 as (-> & Hg & Hk & Hap). apply scwp_ret. intros proof' [= <-]. split; [|done].
  intros Hka. eexists (Pinned src), a, _, t2. split; [reflexivity|]. split; [by right|]. split; [eauto|]. split; [done|]. split; [done|].
  split; [|by apply Hap]. unfold attributable. cbn. rewrite lookup_insert_eq. rewrite bool_decide_true by congruence. done.
Qed.

Lemma fw_pinned h p : saw h CurrentManager (Some tm) -> saw h (CheckReadOnly (Pooled src)) (Some false) -> probed h tm [src] fenced_or_reader ->
  Forall (fun e => reading (projT1 e) = true) h -> fw (fence_pinned tm ref uuid) h p (fun h r p => proof_ok h p r).
Proof using.
  intros Hm Hw Hp Hq. unfold fence_pinned. apply scwp_bind, scwp_call; [done|]. intros pinned.
  destruct pinned; cbn [negb]; [|by apply scwp_ret, proof_ok_other]. apply scwp_bind, fw_reading; [apply reading_identity|].
  intros t i p1 Ht H. apply readSourceIdentity_runs in H as [-> Hi].
  assert (Forall (fun e => reading (projT1 e) = true) ((h ++ [ev (PinSession src) true]) ++ t)) as Hq1.
  { apply Forall_app. split; [|done]. apply Forall_app. split; [done|by repeat constructor]. }
  apply scwp_bind. apply (scwp_mono _ _ _ _ (fun h r p => proof_ok h p r)).
  2:{ intros h1 r p1 Ho. apply scwp_bind, scwp_call; [done|]. intros u. by apply scwp_ret, proof_ok_end. }
  destruct i as [i|e]; [|by apply scwp_ret, proof_ok_other]. specialize (Hi i eq_refl). case_bool_decide as Eu; cbn [negb].
  2:{ apply scwp_ret, proof_ok_other; [done|]. by intros _. }
  destruct (id_readOnly i) eqn:Er.
  - apply (fw_not_sent (Some i) (Pinned src)); [intros x [= <-]; eauto|by right|done].
  - apply fw_send; eauto.
Qed.

Lemma fw_probed h p : getSite tm src <> None -> saw h CurrentManager (Some tm) -> Forall (fun e => reading (projT1 e) = true) h ->
  fw (fence_probed tm ref uuid) h p (fun h r p => proof_ok h p r).
Proof using.
  intros Hs Hm Hq. unfold fence_probed. apply scwp_bind, fw_reading.
  { unfold plannedProbeSites. solve_frees. }
  intros t probes p1 Ht H. apply plannedProbeSites_runs in H as (-> & Hall & Hsaw).
  assert (Forall (fun e => reading (projT1 e) = true) (h ++ t)) as Hq1 by (by apply Forall_app).
  cbn zeta. destruct (find _ probes) as [q|] eqn:Eq.
  2:{ exfalso. destruct (getSite tm src) as [s|] eqn:Es; [|done]. apply find_some in Es as [Hin En]. apply bool_decide_eq_true in En.
      destruct (Hall s) as (q & Hin' & Hn & _); [by apply list_elem_of_In|by apply not_elem_of_nil|].
      pose proof (find_none _ _ Eq q (proj1 (list_elem_of_In _ _) Hin')) as Hb. apply bool_decide_eq_false in Hb. congruence. }
  apply find_some in Eq as [Hin En]. apply bool_decide_eq_true in En. apply list_elem_of_In in Hin. pose proof (Hsaw q Hin) as Hro. rewrite En in Hro.
  destruct (probe_readOnly q) as [[]|] eqn:Er; [| |by apply scwp_ret, proof_ok_other].
  - apply scwp_bind, fw_reading; [apply reading_identity|]. intros t2 i p2 Ht2 H2. apply readSourceIdentity_runs in H2 as [-> Hi].
    assert (Forall (fun e => reading (projT1 e) = true) ((h ++ t) ++ t2)) as Hq2 by (by apply Forall_app).
    destruct i as [i|[]]; [|by apply (fw_not_sent None (Pooled src)); [|left|]|by apply scwp_ret, proof_ok_other].
    apply (fw_not_sent (Some i) (Pooled src)); [intros x [= <-]; eauto|by left|done].
  - match goal with |- context [nonempty (writable ?w)] => set (v := w) end.
    destruct (nonempty (writable v)) eqn:Ew; [by apply scwp_ret, proof_ok_other|]. destruct (nonempty (unreadable v)) eqn:Eu; [by apply scwp_ret, proof_ok_other|].
    apply fw_pinned; [eauto|eauto| |done]. apply probed_r. intros s Hsin Hk. destruct (Hall s Hsin) as (q' & Hin' & Hn & Hr & Hs'); [by apply not_elem_of_nil|].
    exists (probe_readOnly q'). split; [done|].
    assert (q' ∈ List.filter (fun p => negb (bool_decide (probe_name p = src))) probes) as Hf.
    { apply list_elem_of_In, filter_In. split; [by apply list_elem_of_In|]. rewrite bool_decide_false; [done|]. intros E. apply Hk. rewrite <- Hn, E. left. }
    unfold fenced_or_reader. rewrite <- Hr. by apply (classify_strict _ q' Ew Eu).
Qed.

Lemma fw_body h p : getSite tm src <> None -> saw h CurrentManager (Some tm) -> Forall (fun e => reading (projT1 e) = true) h ->
  fw (let^ i := readSourceIdentity (Pooled src) in
      let^ a := (match i with
                 | Err ReadFailed => fret (Some source_unreachable)
                 | Err Unsupported => fret None
                 | Ok i => attributed tm ref uuid i
                 end) in
      match a with Some proof => fret (Ok proof) | None => fence_probed tm ref uuid end) h p (fun h r p => proof_ok h p r).
Proof using.
  intros Hs Hm Hq. apply scwp_bind, fw_reading; [apply reading_identity|]. intros t i p1 Ht H. apply readSourceIdentity_runs in H as [-> Hi].
  assert (Forall (fun e => reading (projT1 e) = true) (h ++ t)) as Hq1 by (by apply Forall_app).
  destruct i as [i|[]].
  - specialize (Hi i eq_refl). apply scwp_bind, fw_reading; [apply reading_attributed|]. intros t2 a p2 Ht2 H2.
    pose proof (attributed_runs _ _ _ _ _ H2) as [-> _].
    destruct a as [proof|]; [apply scwp_ret; eapply attributed_ok; eauto|]. apply fw_probed; [done|eauto|]. by apply Forall_app.
  - apply scwp_bind, scwp_ret, fw_probed; [done|eauto|done].
  - apply scwp_bind, scwp_ret, scwp_ret. by apply proof_ok_other.
Qed.

End fence.

(** ** The grant *)

Section grant.

Context (unicode_lower : string -> string) (tm : TopologyManager) (source target : string).

Lemma first_block_none l q : first_block source target l = None -> q ∈ l -> probe_blocks source target q = None.
Proof using.
  induction l as [|q' l IH]; intros H Hq; [by apply not_elem_of_nil in Hq|]. cbn in H. destruct (probe_blocks source target q') eqn:E; [done|].
  apply elem_of_cons in Hq as [->|Hq]; [done|by apply IH].
Qed.

(** The replica runs, without an error, from the source's host. *)
Definition replicates (src : siteTracker) (r : ReplicaStatus) : Prop :=
  IORunning r = true /\ SQLRunning r = true /\ LastSQLError r = ""
  /\ canonicalSourceHost unicode_lower (SourceHost r) = canonicalSourceHost unicode_lower (host src).

Lemma replica_unblocked src repl : replica_blocks unicode_lower src repl = None -> exists r, repl = Some (Some r) /\ replicates src r.
Proof using.
  unfold replica_blocks, replicates. destruct repl as [[r|]|]; try done. intros H. exists r. split; [done|].
  destruct (IORunning r); [|done]. destruct (SQLRunning r); [|done]. cbn [negb orb] in H.
  destruct (decide (LastSQLError r = "")) as [E|E]; [|by rewrite bool_decide_true in H]. split; [done|]. split; [done|]. split; [done|].
  rewrite bool_decide_false in H by (by intros []). cbn [orb] in H. by case_bool_decide.
Qed.
Lemma getSite_elem name s : getSite tm name = Some s -> s ∈ sites tm /\ site_name s = name.
Proof using. intros [Hin Hn]%find_some. split; [by apply list_elem_of_In|by apply bool_decide_eq_true in Hn]. Qed.

(** C27. A grant is given on evidence: the source writable, its identity known; the
    target a read-only replica of it, running and without an error; every other
    promotable or disaster-recovery site read-only, and no reader writable. *)
Theorem grant_evidenced p tr uuid p' : source <> target -> runs (plannedGrantEvidence unicode_lower tm source target p) tr (Ok uuid, p') ->
  uuid <> "" /\ (exists gtid, saw tr (ReadGTIDSnapshot (Pooled source)) (Ok (uuid, gtid)))
  /\ saw tr (CheckReadOnly (Pooled source)) (Some false) /\ saw tr (CheckReadOnly (Pooled target)) (Some true)
  /\ probed tr tm [source; target] fenced_or_reader
  /\ exists src r, getSite tm source = Some src /\ saw tr (ShowReplicaStatus (Pooled target)) (Some (Some r)) /\ replicates src r.
Proof using.
  intros Hne. unfold plannedGrantEvidence. destruct (getSite tm source) as [src|] eqn:Es; [|intros H; srun_all; done].
  destruct (getSite tm target) as [tgt|] eqn:Et; [|intros H; srun_all; done].
  intros H. srun H. srun H. apply sbind_runs in H as (t3 & probes & p1 & t4 & -> & H1 & H). apply plannedProbeSites_runs in H1 as (-> & Hall & _).
  apply sret_runs in H as (-> & H & ->). rewrite app_nil_r. pose proof (getSite_elem _ _ Es) as [Hs Hsn]. apply getSite_elem in Et as [Ht Htn].
  destruct (first_block source target probes) eqn:Eb; [done|]. destruct a as [[u g]|]; [|done]. case_bool_decide as Eu; [done|].
  destruct (replica_blocks _ src a0) eqn:Er; [done|]. injection H as ->. apply replica_unblocked in Er as (r & -> & Hr).
  assert (forall s, s ∈ sites tm -> exists q, saw t3 (CheckReadOnly (Pooled (site_name s))) (probe_readOnly q) /\ probe_role q = site_role s
    /\ probe_name q = site_name s /\ probe_blocks source target q = None) as Hq.
  { intros s Hin. destruct (Hall s Hin) as (q & Hq & En & Ero & Hsaw); [by apply not_elem_of_nil|]. exists q. by split_and!; [..|eapply first_block_none]. }
  split; [done|]. split; [eexists; left|]. split; [|split; [|split]].
  - destruct (Hq src Hs) as (q & Hsaw & _ & En & Hb). unfold probe_blocks in Hb. rewrite bool_decide_true in Hb by congruence. rewrite Hsn in Hsaw.
    destruct (probe_readOnly q) as [[]|]; try done. by do 2 apply saw_app_r.
  - destruct (Hq tgt Ht) as (q & Hsaw & _ & En & Hb). unfold probe_blocks in Hb. rewrite bool_decide_false, bool_decide_true in Hb by congruence. rewrite Htn in Hsaw.
    destruct (probe_readOnly q) as [[]|]; try done. by do 2 apply saw_app_r.
  - intros s Hin Hk. destruct (Hq s Hin) as (q & Hsaw & Ero & En & Hb). exists (probe_readOnly q). split; [by do 2 apply saw_app_r|].
    unfold probe_blocks in Hb. rewrite En in Hb. rewrite !bool_decide_false in Hb by (intros E; apply Hk; rewrite E; set_solver).
    destruct (probe_readOnly q) as [[]|]; [by left|done|]. right. split; [done|]. rewrite <- Ero. by case_bool_decide.
  - exists src, r. split; [done|]. split; [|done]. apply saw_app_r, saw_app_l. left.
Qed.

End grant.
