(* ===== verification/FacadeCalls.v ===== *)
(** * The planned-failover facade: its calls

    The facade's operations as calls of one object, and what they guarantee over a
    history of calls. *)
From S2P Require Import Prelude GoStd Intervals GtidSet SiteState Effects GoTime Failover FailoverRecord PlannedRun ClaimSlot EngineData EngineSteps Protocol FacadeData FacadeSteps FacadePromote FacadeRollback FacadeSafety FacadeUnfence FacadeFence.

Local Open Scope Z_scope.

#[local] Arguments prog_bind {Op Ans A B} _ _ : simpl never.

Import GTID Matrix PlannedRun FailoverRecords ClaimSlot Engine Steps Facade Ops Promotion Rollbacks.

(** ** Calls *)

Inductive facade_call : Type :=
| CallFence (ref : PlannedRunRef) (sourceServerUUID : string)
| CallProveFence (ref : PlannedRunRef) (f : FenceRecord)
| CallKillAppConnections (ref : PlannedRunRef)
| CallProbeLag (ref : PlannedRunRef) (fenced : string)
| CallReadTargetServerUUID (ref : PlannedRunRef)
| CallPromote (ref : PlannedRunRef) (pf : Run)
| CallReprove (ref : PlannedRunRef) (fg : Engine.Group)
| CallApplyDNS (ref : PlannedRunRef)
| CallRollback (ref : PlannedRunRef) (pf : Run)
| CallRelease (runID : string) (why : ClaimReleaseReason)
| CallHold (runID : string).

Section calls.

Context (unicode_fold : string -> string -> bool).

Definition ignoring {A} (m : fac A) : fac unit := let^ _ := m in fret tt.

Definition perform (c : facade_call) : fac unit :=
  match c with
  | CallFence ref uuid => ignoring (Ops.Fence ref uuid)
  | CallProveFence ref f => ignoring (Ops.ProveFence ref f)
  | CallKillAppConnections ref => ignoring (Ops.KillAppConnections ref)
  | CallProbeLag ref fenced => ignoring (Ops.ProbeLag ref fenced)
  | CallReadTargetServerUUID ref => ignoring (Ops.ReadTargetServerUUID ref)
  | CallPromote ref pf => ignoring (Promotion.Promote unicode_fold ref pf)
  | CallReprove ref fg => ignoring (Promotion.Reprove unicode_fold ref fg)
  | CallApplyDNS ref => ignoring (Ops.ApplyDNS ref)
  | CallRollback ref pf => ignoring (Rollbacks.Rollback ref pf)
  | CallRelease runID why => ignoring (Ops.ReleasePlannedFailoverClaim runID why)
  | CallHold runID => ignoring (Ops.ConvertToHold runID)
  end.

(** The call may promote the run's target, for the record [pf]. *)
Definition promotes (c : facade_call) (ref : PlannedRunRef) (pf : Run) : Prop :=
  c = CallPromote ref pf \/ exists fg, c = CallReprove ref fg /\ Steps.plannedFailoverRun fg = (Some pf, false).

(** The call drops what the facade remembers of the run. *)
Definition forgets (run : string) (c : facade_call) : Prop := (exists why, c = CallRelease run why) \/ c = CallHold run.

(** A history of calls by one process, each with its trace. *)
Inductive performs : facade -> list (facade_call * list (event ans)) -> facade -> Prop :=
| performs_nil p : performs p [] p
| performs_cons p c tr p1 items p' : runs (perform c p) tr (tt, p1) -> performs p1 items p' -> performs p ((c, tr) :: items) p'.

(** ** What the facade remembers only grows *)

Definition remembers (p p' : facade) (run : string) : Prop :=
  is_Some (promoteMemo p !! run) -> is_Some (promoteMemo p' !! run) /\ (proves_no_write p' run = true -> proves_no_write p run = true).

Lemma remembers_refl p run : remembers p p run.
Proof. by intros H. Qed.

Lemma remembers_trans p1 p2 p3 run : remembers p1 p2 run -> remembers p2 p3 run -> remembers p1 p3 run.
Proof. intros H1 H2 H. destruct (H1 H) as [H3 H4]. destruct (H2 H3) as [H5 H6]. auto. Qed.

Lemma remembers_same p p' run : promoteMemo p' = promoteMemo p -> remembers p p' run.
Proof. intros E H. unfold proves_no_write. by rewrite E. Qed.

Lemma remembers_note p run r s : remembers p (note_promote r s p) run.
Proof.
  intros [cur Hc]. unfold proves_no_write, note_promote. destruct (promoteMemo p !! r) as [cur'|] eqn:Er; [|by rewrite Hc].
  destruct (Z.ltb_spec (stage_rank cur') (stage_rank s)); [|by rewrite Hc]. cbn. destruct (decide (r = run)) as [->|Hn].
  - rewrite lookup_insert_eq, Er. split; [done|]. rewrite !Z.ltb_lt. lia.
  - rewrite lookup_insert_ne by done. by rewrite Hc.
Qed.

Lemma remembers_start p run r : remembers p (start_promote r p) run.
Proof.
  intros [cur Hc]. unfold start_promote, proves_no_write. destruct (promoteMemo p !! r) as [cur'|] eqn:Er; [by rewrite Hc|]. cbn.
  rewrite lookup_insert_ne by congruence. by rewrite Hc.
Qed.

(** Every run of the program keeps what is remembered of [run]. *)
Definition keeps {A} (run : string) (m : fac A) : Prop := forall p tr a p', runs (m p) tr (a, p') -> remembers p p' run.

Lemma leaves_ret {A} run (a : A) : keeps run (fret a).
Proof. intros p tr b p' H. srun H. apply remembers_refl. Qed.

Lemma leaves_bind {A B} run (m : fac A) (k : A -> fac B) : keeps run m -> (forall a, keeps run (k a)) -> keeps run (sbind m k).
Proof. intros Hm Hk p tr b p' (t1 & a & p1 & t2 & -> & H1 & H2)%sbind_runs. eapply remembers_trans; [by eapply Hm|by eapply Hk]. Qed.

Lemma leaves_call run o : keeps run (fcall o).
Proof. intros p tr a p' H. srun H. apply remembers_refl. Qed.

Lemma leaves_get {A} run (f : facade -> A) : keeps run (sget f).
Proof. intros p tr a p' H. srun H. apply remembers_refl. Qed.

Lemma leaves_modify run (f : facade -> facade) : (forall p, remembers p (f p) run) -> keeps run (smodify f).
Proof. intros Hf p tr a p' H. srun H. apply Hf. Qed.

Lemma leaves_same run (f : facade -> facade) : (forall p, promoteMemo (f p) = promoteMemo p) -> keeps run (smodify f).
Proof. intros Hf. apply leaves_modify. intros p. by apply remembers_same. Qed.

Lemma leaves_lower {A} run h (m : prog Failover.ans A) : (forall o, keeps run (h o)) -> keeps run (lower h m).
Proof. intros Hh. induction m as [a|o k IH]; [apply leaves_ret|]. apply leaves_bind; [apply Hh|apply IH]. Qed.

Lemma leaves_claim {A} run tm ref b (k : fac (res facade_error A)) : keeps run k -> keeps run (with_claim tm ref b k).
Proof. intros Hk. apply leaves_bind; [exact (leaves_call _ _)|]. intros [e|]; [apply leaves_ret|done]. Qed.

Lemma leaves_manager {A} run (k : TopologyManager -> fac (res facade_error A)) : (forall tm, keeps run (k tm)) -> keeps run (with_manager k).
Proof. intros Hk. apply leaves_bind; [exact (leaves_call _ _)|]. intros [tm|]; [apply Hk|apply leaves_ret]. Qed.

Lemma leaves_leader {A} run (k : fac (res facade_error A)) : keeps run k -> keeps run (leader_lost k).
Proof. intros Hk. apply leaves_bind; [exact (leaves_call _ _)|]. intros []; [apply leaves_ret|done]. Qed.

End calls.

Ltac solve_keeps :=
  repeat match goal with
  | |- keeps _ (sret _) => apply leaves_ret
  | |- keeps _ (scall ?o) => exact (leaves_call _ o)
  | |- keeps _ (sget _) => apply leaves_get
  | |- keeps _ (smodify _) => apply leaves_same; intros ?; reflexivity
  | |- keeps _ (with_claim _ _ _ _) => apply leaves_claim
  | |- keeps _ (with_manager _) => apply leaves_manager; intros ?
  | |- keeps _ (leader_lost _) => apply leaves_leader
  | |- keeps _ (sbind _ _) => apply leaves_bind; [|intros ?]
  | |- keeps _ (match ?x with _ => _ end) => destruct x
  | |- keeps _ _ => progress cbn zeta
  | |- keeps _ _ => solve [auto with keeps]
  end.

Section theorems.

Context (unicode_fold : string -> string -> bool).

Create HintDb keeps discriminated.

Lemma leaves_note run r s : keeps run (notePromoteSent r s).
Proof. apply leaves_modify. intros p. apply remembers_note. Qed.

Lemma leaves_start run r : keeps run (startPromoteMemo r).
Proof. apply leaves_modify. intros p. apply remembers_start. Qed.

Lemma leaves_forget run r : r <> run -> keeps run (forgetRun r).
Proof.
  intros Hn. apply leaves_modify. intros p [cur Hc]. unfold proves_no_write. cbn. rewrite lookup_delete_ne by done. by rewrite Hc.
Qed.

#[local] Hint Resolve leaves_note leaves_start : keeps.

Lemma leaves_probe_all run l : keeps run (probe_all l).
Proof. induction l as [|s l IH]; simpl; solve_keeps. Qed.

#[local] Hint Resolve leaves_probe_all : keeps.

Lemma leaves_source_expired run r now d : keeps run (sourceLossExpired r now d).
Proof. unfold sourceLossExpired. apply leaves_bind; [apply leaves_get|]. intros q. destruct (lossExpired _ _ _ _). solve_keeps. Qed.

Lemma leaves_target_expired run r now d : keeps run (targetLossExpired r now d).
Proof. unfold targetLossExpired. apply leaves_bind; [apply leaves_get|]. intros q. destruct (lossExpired _ _ _ _). solve_keeps. Qed.

#[local] Hint Resolve leaves_source_expired leaves_target_expired : keeps.

Lemma leaves_observed run r b now : keeps run (noteSourceObserved r b now).
Proof. unfold noteSourceObserved, sourceLossRecovered. solve_keeps. Qed.

Lemma leaves_identity run c : keeps run (readSourceIdentity c).
Proof. unfold readSourceIdentity. solve_keeps. Qed.

Lemma leaves_live run c : keeps run (readPromotionLive c).
Proof. unfold readPromotionLive. solve_keeps. Qed.

Lemma leaves_peers run tm skip : keeps run (probe_peers tm skip).
Proof. unfold probe_peers, plannedProbeSites. solve_keeps. Qed.

#[local] Hint Resolve leaves_observed leaves_identity leaves_live leaves_peers : keeps.

Lemma leaves_gate run tm ref pf F U was : keeps run (plannedPreWriteGate unicode_fold tm ref pf F U was).
Proof.
  unfold plannedPreWriteGate, checkPlannedPromotionManager, gate_source, gate_peers, refuse, sourceLossRecovered. solve_keeps.
Qed.

Lemma leaves_attributed run tm ref uuid i : keeps run (attributed tm ref uuid i).
Proof. unfold attributed, fenceAttribution, postFenceProof. solve_keeps. Qed.

#[local] Hint Resolve leaves_gate leaves_attributed : keeps.

Lemma leaves_fence run ref uuid : keeps run (Ops.Fence ref uuid).
Proof.
  unfold Ops.Fence, note_sent, fence, fence_probed, fence_pinned, fence_send, fence_not_sent, postFenceProof, plannedProbeSites, noteFenceSent.
  solve_keeps.
Qed.

Lemma leaves_hook run tm ref pf F U was o : keeps run (promote_hook unicode_fold tm ref pf F U was o).
Proof. unfold promote_hook, checkPlannedPromotionManager, set_hook_error, memoProvesNoWrite. destruct o; solve_keeps. Qed.

Lemma leaves_unconfirmed run ref open ws : keeps run (unconfirmed ref open ws).
Proof. unfold unconfirmed, close_session, memoProvesNoWrite. solve_keeps. Qed.

Lemma leaves_confirm run tm ref pf F U : keeps run (promote_confirm unicode_fold tm ref pf F U).
Proof. unfold promote_confirm, confirmPlannedPromotion, confirm_source. solve_keeps. Qed.

#[local] Hint Resolve leaves_unconfirmed leaves_confirm : keeps.

Lemma leaves_finish run tm ref pf F U e : keeps run (promote_finish unicode_fold tm ref pf F U e).
Proof. unfold promote_finish. solve_keeps. Qed.

#[local] Hint Resolve leaves_finish : keeps.

Lemma leaves_stage run tm ref pf F U stage : keeps run (promote_stage unicode_fold tm ref pf F U stage).
Proof.
  unfold promote_stage, promotion_locals. destruct stage; solve_keeps; apply leaves_lower; intros o; apply leaves_hook.
Qed.

#[local] Hint Resolve leaves_stage : keeps.

Lemma leaves_promote run tm ref pf : keeps run (promotePlannedRun unicode_fold tm ref pf).
Proof.
  unfold promotePlannedRun, promote_pinned, replacedTargetRollbackSafe, fenceAttribution, memoProvesNoWrite, close_session. solve_keeps.
Qed.

#[local] Hint Resolve leaves_promote : keeps.

Lemma leaves_reprove run ref fg : keeps run (Reprove unicode_fold ref fg).
Proof.
  unfold Reprove, reprove_source, reprove_peers, reprove_promoting, target_unwritten, reproved. solve_keeps.
Qed.

Lemma leaves_refence run tm ref live : keeps run (refencePlannedTarget tm ref live).
Proof. unfold refencePlannedTarget. solve_keeps. Qed.

Lemma leaves_restore run tm ref live F v : keeps run (restorePlannedTargetChannel tm ref live F v).
Proof. unfold restorePlannedTargetChannel, restore_channel, claimed_start, withReplicaStartGate. solve_keeps. Qed.

#[local] Hint Resolve leaves_refence leaves_restore : keeps.

Lemma leaves_rollback run ref pf : keeps run (Rollbacks.Rollback ref pf).
Proof.
  unfold Rollbacks.Rollback, rollbackRun, rollback_precondition, targetLossRecovered, may_have_written, memoProvesNoWrite,
    rollback_writable, rollback_fenced, rollback_pinned, unfence_source, may_have_written, memoProvesNoWrite, left_fenced, unfinished, fenceAttribution. solve_keeps.
Qed.

Lemma leaves_dns run n first tm ref ip : keeps run (dns_attempts n first tm ref ip).
Proof. revert first. induction n as [|n IH]; intros first; simpl; unfold with_claim; solve_keeps. Qed.

#[local] Hint Resolve leaves_fence leaves_promote leaves_reprove leaves_rollback leaves_dns : keeps.

(** A call that does not drop the run's memo keeps it. *)
Lemma leaves_perform run c : ~ forgets run c -> keeps run (perform unicode_fold c).
Proof.
  intros Hf. destruct c; unfold perform, ignoring, Promotion.Promote, Ops.ProveFence, note_sent, proveFence, Ops.KillAppConnections, Ops.ProbeLag,
    readGTIDSetRaw, Ops.ReadTargetServerUUID, Ops.ApplyDNS, Ops.ReleasePlannedFailoverClaim, Ops.ConvertToHold, fenceAttribution,
    postFenceProof; solve_keeps.
  all: apply leaves_forget; intros ->; apply Hf; unfold forgets; eauto.
Qed.


(** ** Conditions on every call *)

#[local] Hint Resolve sfrees_probe_all sfrees_readSourceIdentity sfrees_readPromotionLive sfrees_probe_peers : frees.

Lemma reprove_gated ref fg pf p : Steps.plannedFailoverRun fg = (Some pf, false) ->
  scwp (gated unicode_fold ref pf) (Reprove unicode_fold ref fg) [] p (fun h r p => memo_ok ref h p /\ reproved_ok unicode_fold ref pf h r).
Proof.
  intros Hf. unfold Reprove, with_manager, with_claim.
  assert (forall h p r, ~ cleared h -> match r with Ok o => RR_HandOff o = None | Err _ => True end -> memo_ok ref h p /\ reproved_ok unicode_fold ref pf h r) as Hplain.
  { intros h p0 r Hn Hr. split; [by intros Hc|]. destruct r as [[? ? ? [o|] ?]|e]; done. }
  apply scwp_bind, scwp_call; [done|]. intros [tm|]; [|by apply scwp_ret, Hplain; [by apply quiet_not_cleared; repeat constructor|]].
  assert (forall e, saw [ev CurrentManager (Some tm); ev (RequireRunClaim (tm_id tm) ref true) e] CurrentManager (Some tm)) as Hm by (left).
  apply scwp_bind, scwp_call; [done|]. intros e. cbn [app]. specialize (Hm e).
  assert (~ cleared [ev CurrentManager (Some tm); ev (RequireRunClaim (tm_id tm) ref true) e]) as Hn by (apply quiet_not_cleared; by repeat constructor).
  revert Hm Hn. generalize [ev CurrentManager (Some tm); ev (RequireRunClaim (tm_id tm) ref true) e] as h. intros h Hm Hn.
  destruct e as [e|]; [by apply scwp_ret, Hplain|]. rewrite Hf. case_bool_decide; cbn [negb]; [|by apply scwp_ret, Hplain].
  destruct (getSite tm (Ref_Source ref)); [|by apply scwp_ret, Hplain]. destruct (getSite tm (Ref_Target ref)); [|by apply scwp_ret, Hplain].
  case_bool_decide.
  { apply gw_quiet; [unfold reproved; solve_frees|]. intros t r p1 Hq H1. unfold reproved in H1. srun_all.
    apply Hplain; [by intros Hc%quiet_cleared|done]. }
  apply scwp_bind, scwp_call; [done|]. intros now. apply scwp_bind, gw_quiet.
  { destruct (negb _); [apply sfrees_ret|]. unfold reprove_source. solve_frees. }
  intros t c p1 Hq _. assert (Forall (fun e => quiet (projT1 e) = true) ([ev (Now (tm_id tm)) now] ++ t)) as Hq' by (by constructor).
  assert (~ cleared ((h ++ [ev (Now (tm_id tm)) now]) ++ t)) as Hn' by (rewrite <- (assoc_L (++)); by intros Hc%quiet_cleared).
  destruct c as [c|]; [|by apply scwp_ret, Hplain]. apply gw_reprove_peers; [by apply saw_app_l, saw_app_l|done].
Qed.


Lemma reprove_quiet ref fg : (forall pf, Steps.plannedFailoverRun fg <> (Some pf, false)) -> sfrees quiet (Reprove unicode_fold ref fg).
Proof.
  intros Hf. unfold Reprove, with_manager, with_claim. destruct (Steps.plannedFailoverRun fg) as [[pf|] []]; solve_frees.
  all: by destruct (Hf pf).
Qed.

Lemma rollback_unfenced ref pf p :
  scwp (fun h o => clears o = true -> exists tm, unfence_evidence tm ref pf p h o) (Rollbacks.Rollback ref pf) [] p (fun h r _ => rolled_ok ref h r).
Proof.
  unfold Rollbacks.Rollback, with_manager, with_claim. apply scwp_bind, scwp_call; [done|]. intros [tm|]; [|by apply scwp_ret].
  apply scwp_bind, scwp_call; [done|]. intros [e|]; [by apply scwp_ret|]. eapply (cwp_weaken (unfenced tm ref pf p)).
  - intros h o H Hc. exists tm. by apply H.
  - apply (uw_rollbackRun tm ref pf p); [done|]. left.
Qed.

(** The calls that clear nothing. *)
Lemma perform_quiet c : (forall ref pf, ~ promotes c ref pf) -> (forall ref pf, c <> CallRollback ref pf) -> sfrees quiet (perform unicode_fold c).
Proof.
  intros Hp Hr. destruct c; cbn [perform]; unfold ignoring; (apply sfrees_bind; [|intros ?; apply sfrees_ret]).
  - unfold Ops.Fence, note_sent, fence, with_manager, fence_probed, fence_pinned, fence_send, with_claim, fence_not_sent, attributed, fenceAttribution, postFenceProof,
      plannedProbeSites, noteFenceSent. solve_frees.
  - unfold Ops.ProveFence, note_sent, proveFence, leader_lost, with_manager, fenceAttribution, postFenceProof. solve_frees.
  - unfold Ops.KillAppConnections, with_manager, with_claim, noteSourceObserved, sourceLossRecovered, sourceLossExpired. solve_frees.
  - unfold Ops.ProbeLag, with_manager, noteSourceObserved, sourceLossRecovered, sourceLossExpired, readGTIDSetRaw. solve_frees.
  - unfold Ops.ReadTargetServerUUID, with_manager, with_claim, startPromoteMemo. solve_frees.
  - destruct (Hp ref pf). by left.
  - apply reprove_quiet. intros pf Hf. destruct (Hp ref pf). right. by exists fg.
  - unfold Ops.ApplyDNS, with_manager, with_claim, Ops.plannedDNSAttempts, dns_attempts, with_claim. solve_frees.
  - by destruct (Hr ref pf).
  - unfold Ops.ReleasePlannedFailoverClaim, Ops.ConvertToHold, forgetRun. solve_frees.
  - unfold Ops.ConvertToHold, forgetRun. solve_frees.
Qed.


Lemma ignoring_runs {A} (m : fac A) p tr p' : runs (ignoring m p) tr (tt, p') -> exists a, runs (m p) tr (a, p').
Proof. unfold ignoring. intros (t1 & a & p1 & t2 & -> & H1 & H2)%sbind_runs. srun H2. rewrite app_nil_r. by exists a. Qed.

Definition fence_result_ok (ref : PlannedRunRef) (uuid : string) (h : list (event ans)) (r : res facade_error FenceProof) (p : facade) : Prop :=
  forall proof, r = Ok proof ->
    (FP_Kind proof = FenceApplied -> exists tm, saw h CurrentManager (Some tm) /\ applied_ok tm ref uuid h p proof)
    /\ (FP_Kind proof = FenceNotSent -> Forall (fun e => statement (projT1 e) = false) h).

Lemma fence_conditions ref uuid p : scwp (fun h o => statement o = true -> exists tm, fence_evidence tm ref uuid h o) (Ops.Fence ref uuid) [] p (fence_result_ok ref uuid).
Proof.
  unfold Ops.Fence, note_sent. apply scwp_bind. eapply (scwp_mono _ _ _ _ (fence_result_ok ref uuid)).
  2:{ intros h r p1 H. apply scwp_bind, scwp_get, scwp_ret. intros proof E. destruct r as [proof'|]; [|done]. injection E as <-. by apply (H proof'). }
  unfold fence, with_manager, with_claim. apply scwp_bind, scwp_call; [done|]. intros [tm|]; [|by apply scwp_ret].
  apply scwp_bind, scwp_call; [done|]. intros [e|]; [by apply scwp_ret|]. destruct (getSite tm (Ref_Source ref)) eqn:Es; [|by apply scwp_ret].
  eapply (cwp_weaken (fenced_with tm ref uuid)); [intros h o H Hs; exists tm; by apply H|]. cbn [app].
  set (h := [_; _]). assert (saw h CurrentManager (Some tm)) as Hm by (left).
  eapply cwp_mono.
  { apply cwp_extends, (fw_body tm ref uuid h p); [by rewrite Es|done|by repeat constructor]. }
  intros h' [r p'] [Hr [t ->]] proof E. destruct (Hr proof E) as [Ha Hn]. split; [intros Hk; exists tm; split; [by apply saw_app_l|by apply Ha]|].
  intros Hk. eapply Forall_impl; [by apply Hn|]. intros e He. unfold reading in He. by apply negb_true_iff in He.
Qed.

(** ** Theorems *)

(** C16. No fence is cleared without proof. A call that clears [super_read_only] or
    [read_only] somewhere is a promotion, and then the statement goes to the target, right
    after the pre-write gate saw its evidence in this call - the claim, the current manager
    and the target's role, the target read-only with exactly the fenced set (or, resumed,
    its own writes beyond it), the fenced source not past that set, every other promotable
    site read-only and no site writable - and after the claim and the manager were checked
    once more; or it is a rollback, and then the statement goes to the fenced source, the
    server the run fenced, while no other site is writable and the target holds nothing
    beyond the fenced set if the run may have written to it. *)
Theorem clears_proved c p t1 e t2 p' : runs (perform unicode_fold c p) (t1 ++ e :: t2) (tt, p') -> clears (projT1 e) = true ->
  (exists ref pf tm F was, promotes c ref pf /\ clear_evidence unicode_fold tm ref pf F was t1 (projT1 e))
  \/ (exists ref pf tm, c = CallRollback ref pf /\ unfence_evidence tm ref pf p t1 (projT1 e)).
Proof.
  intros H Hc.
  assert (forall C A (m : fac A) Q, scwp C m [] p Q -> runs (ignoring m p) (t1 ++ e :: t2) (tt, p') -> C t1 (projT1 e)) as Hm.
  { intros C A m Q Hw H0. apply ignoring_runs in H0 as [a H0]. destruct (scwp_sound _ _ _ _ _ _ _ Hw H0) as [Hm _]. by apply (Hm t1 e t2). }
  assert (sfrees quiet (perform unicode_fold c) -> False) as Hq.
  { intros Hf. eapply sfrees_runs in H; [|exact Hf]. apply Forall_app in H as [_ H]. inversion H as [|? ? He]; subst. unfold quiet in He. by rewrite Hc in He. }
  destruct c; try (exfalso; apply Hq, perform_quiet; [by intros ? ? [|(? & ? & _)]|done]).
  - left. destruct (Hm _ _ _ _ (gw_Promote unicode_fold ref pf p) H Hc) as (tm & F & was & He). exists ref, pf, tm, F, was. split; [by left|done].
  - left. destruct (Steps.plannedFailoverRun fg) as [[pf|] []] eqn:Ef;
      try (exfalso; apply Hq; apply sfrees_bind; [apply reprove_quiet; intros pf'; by rewrite Ef|intros; apply sfrees_ret]).
    destruct (Hm _ _ _ _ (reprove_gated ref fg pf p Ef) H Hc) as (tm & F & was & He). exists ref, pf, tm, F, was. split; [right; by exists fg|done].
  - right. destruct (Hm _ _ _ _ (rollback_unfenced ref pf p) H Hc) as (tm & He). by exists ref, pf, tm.
Qed.

(** C18. A promotion's outcome is true: reported as not written, nothing was cleared in
    the call; reported confirmed, the target was read writable on the session that was
    written, with the fenced set and only its own writes beyond it, the source read-only
    or its silence reported, and no other site writable - all after the last statement. *)
Theorem promote_outcome_true ref pf p tr out p' : runs (Promotion.Promote unicode_fold ref pf p) tr (Ok out, p') ->
  (MayHaveWritten out = false -> ~ cleared tr)
  /\ (PO_Kind out = PromoteConfirmed -> exists tm F t0 t1, tr = t0 ++ t1 /\ saw tr CurrentManager (Some tm) /\ plannedFenceGTIDSet pf = Some F
        /\ ~ cleared t1 /\ confirmed_evidence unicode_fold tm ref pf F (PO_Warnings out) t1).
Proof.
  intros H. destruct (scwp_sound _ _ _ _ _ _ _ (gw_Promote unicode_fold ref pf p) H) as [_ [_ Ho]]. by apply Ho.
Qed.

Lemma promotes_memo c ref pf p tr p' : promotes c ref pf -> runs (perform unicode_fold c p) tr (tt, p') -> memo_ok ref tr p'.
Proof.
  intros [->|(fg & -> & Ef)] [r H]%ignoring_runs.
  - by destruct (scwp_sound _ _ _ _ _ _ _ (gw_Promote unicode_fold ref pf p) H) as [_ [Hm _]].
  - by destruct (scwp_sound _ _ _ _ _ _ _ (reprove_gated ref fg pf p Ef) H) as [_ [Hm _]].
Qed.

Lemma performs_remembers p items p' run : performs unicode_fold p items p' -> Forall (fun x => ~ forgets run x.1) items -> remembers p p' run.
Proof.
  induction 1 as [p|p c tr p1 items p' H1 _ IH]; intros Hf; [apply remembers_refl|]. apply Forall_cons in Hf as [Hc Hf].
  eapply remembers_trans; [|by apply IH]. by eapply (leaves_perform run c Hc).
Qed.

(** C17. The promotion memo is honest over every history of calls: once a run has a memo,
    and until the run is released, a memo that proves no write means that no promotion of
    the run - by [Promote] or handed off by a re-proof - sent a clear to its target. *)
Theorem memo_honest run p items p' : performs unicode_fold p items p' -> is_Some (promoteMemo p !! run) -> Forall (fun x => ~ forgets run x.1) items ->
  proves_no_write p' run = true -> forall c tr ref pf, (c, tr) ∈ items -> promotes c ref pf -> Ref_RunID ref = run -> ~ cleared tr.
Proof.
  intros H Hs Hf Hp c tr ref pf Hin Hpr Hrun Hc. revert Hs Hf Hp. induction H as [p|p c' tr' p1 items p' H1 H2 IH]; intros Hs Hf Hp; [by apply not_elem_of_nil in Hin|].
  apply Forall_cons in Hf as [Hc' Hf]. destruct (leaves_perform run c' Hc' _ _ _ _ H1 Hs) as [Hs1 _].
  apply elem_of_cons in Hin as [[= -> ->]|Hin]; [|by apply IH]. destruct (performs_remembers _ _ _ run H2 Hf Hs1) as [_ Hback].
  specialize (Hback Hp). pose proof (promotes_memo _ _ _ _ _ _ Hpr H1 Hc) as Hno. congruence.
Qed.

(** C19. [Fence] sends one statement at most, and proves its case. The source is fenced
    only as the intended server, read writable on the session that is written, while every
    other promotable site is read-only and no site writable, right after the claim was
    checked. A fence reported applied was read back on a server attributable to the run,
    with the set it reports, and no other site was writable afterwards. A fence reported
    not sent sent nothing. *)
Theorem fence_proved ref uuid p tr r p' : runs (Ops.Fence ref uuid p) tr (r, p') ->
  (forall t1 e t2, tr = t1 ++ e :: t2 -> statement (projT1 e) = true -> exists tm, fence_evidence tm ref uuid t1 (projT1 e))
  /\ forall proof, r = Ok proof ->
       (FP_Kind proof = FenceApplied -> exists tm, saw tr CurrentManager (Some tm) /\ applied_ok tm ref uuid tr p' proof)
       /\ (FP_Kind proof = FenceNotSent -> Forall (fun e => statement (projT1 e) = false) tr).
Proof.
  intros H. destruct (scwp_sound _ _ _ _ _ _ _ (fence_conditions ref uuid p) H) as [Hm Hr]. split; [|done].
  intros t1 e t2 E Hs. by apply (Hm t1 e t2 E).
Qed.

(** A rollback that reports the source serving writes again read it writable. *)
Theorem rolled_back_serves ref pf p tr o p' : runs (Rollbacks.Rollback ref pf p) tr (Ok o, p') -> RB_Outcome o = Some OutcomeRolledBack ->
  saw tr (CheckReadOnly (Pooled (Ref_Source ref))) (Some false) \/ saw tr (CheckReadOnly (Pinned (Ref_Source ref))) (Some false).
Proof. intros H. destruct (scwp_sound _ _ _ _ _ _ _ (rollback_unfenced ref pf p) H) as [_ Ho]. by apply Ho. Qed.

End theorems.

(** ** Concrete runs *)

(** A group of a source, a target and a reader whose servers answer from the statements
    sent so far, latest first. *)
Definition demo_site (name : string) (role : SiteRole) : siteTracker := {| site_name := name; site_role := role; host := name; lbIP := "" |}.

Definition demo_tm : TopologyManager :=
  {| tm_id := 1; sites := [demo_site "east" SiteRolePrimaryCandidate; demo_site "west" SiteRolePrimaryCandidate; demo_site "read" SiteRoleReadOnly];
     has_dns := false; ReplUser := "repl" |}.

Definition site_of (c : conn) : string := match c with Pooled s | Pinned s => s end.

(** [super_read_only] and [read_only] of a site. *)
Fixpoint demo_flags (site : string) (init : bool * bool) (h : list (event ans)) : bool * bool :=
  match h with
  | [] => init
  | e :: h =>
      let '(sro, ro) := demo_flags site init h in
      match projT1 e with
      | SetSuperReadOnly c on => if bool_decide (site_of c = site) then (on, on || ro) else (sro, ro)
      | SetReadOnly c on => if bool_decide (site_of c = site) then (sro && on, on) else (sro, ro)
      | _ => (sro, ro)
      end
  end.

Fixpoint demo_channel (h : list (event ans)) : bool :=
  match h with
  | [] => true
  | e :: h => match projT1 e with ResetReplicaAll _ => false | ChangeReplicationSource _ _ _ => true | _ => demo_channel h end
  end.

Definition demo_init (fenced : bool) (site : string) : bool * bool :=
  if bool_decide (site = "east") then (fenced, fenced) else (true, true).

(** [refuse]: the claim is lost. *)
Definition demo_oracle (fenced refuse : bool) (h : list (event ans)) (o : op) : ans o :=
  let flags c := demo_flags (site_of c) (demo_init fenced (site_of c)) h in
  match o with
  | CurrentManager => Some demo_tm
  | LeaderLost => false
  | RequireRunClaim _ _ _ => if refuse && (3 <? length h)%nat then Some errClaimLost else None
  | Retired _ => false
  | Facade.Now _ => 1
  | CheckReadOnly c => Some (flags c).2
  | CheckSuperReadOnly c => Ok (flags c).1
  | ReadGTIDSnapshot c => Ok (if bool_decide (site_of c = "west") then "a0b1" else "3e11", "3e11:1-5")
  | ShowReplicaStatus _ => Some (if demo_channel h then Some {| IORunning := true; IOConnecting := false; SQLRunning := true; LastSQLError := ""; SourceHost := "east" |}
                                 else None)
  | GetGtidExecuted _ => Some "3e11:1-5"
  | CountAppConnections _ => None
  | Facade.KillSiteAppConnections _ => Some 0
  | PinSession _ => true
  | CloseSession _ => tt
  | SetSuperReadOnly _ _ | SetReadOnly _ _ | StopReplica _ | ResetReplicaAll _ | StartReplica _ | ChangeReplicationSource _ _ _ => true
  | RestorePeerHeld _ => false
  | ApplySiteDNS _ _ => true
  | SlotRelease _ _ | SlotToHold _ => true
  | ArmCrossSiteRetry _ => tt
  | DNSEnded => false
  | ClearReprove _ | BeginPromotion _ | FinishTopologyChange _ | PromotionExecuted _ _ => tt
  end.

Definition demo_ref : PlannedRunRef := {| Ref_RunID := "run-1"; Ref_Source := "east"; Ref_Target := "west" |}.

Definition demo_pf (phase : PlannedFailoverPhase) : Run :=
  {| RunID := "run-1"; Revision := 5; Phase := phase; TargetSite := "west"; SourceSite := "east";
     RunSettings := {| MaxLagWait := 0; DrainTimeout := 0; Settings_Dragonfly := None |}; ClaimBaseline := None; RunAdmission := None;
     Engine.Fence := Some {| Fence_State := FenceStateApplied; Fence_IntentTime := 1; SourceServerUUID := "3e11"; ApplyTime := Some 1; Fence_GtidSet := Some "3e11:1-5" |};
     Drain := None; LagWait := None; RunDragonfly := None;
     Engine.Promotion := match phase with
                         | PlannedFailoverPhasePromoting => Some {| PromotionConfirmed := false; Promotion_IntentTime := 1; TargetServerUUID := "a0b1";
                                                                    ConfirmationTime := None; Promotion_Warnings := [] |}
                         | _ => None
                         end;
     DNS := None; RunRollback := None; RunResult := None |}.

Definition demo_facade : facade :=
  {| fenceMemo := ∅; promoteMemo := {["run-1" := Failover.promoteMemoNone]}; sourceLoss := ∅; rollbackTargetLoss := ∅; hookErr := HookOther;
     gateWarnings := []; gateGtid := "" |}.

Definition no_fold (s t : string) : bool := false.

Definition demo_exec {A} (fenced refuse : bool) (m : fac A) : list (event ans) * (A * facade) := exec (demo_oracle fenced refuse) (m demo_facade) [].

Lemma demo_runs {A} fenced refuse (m : fac A) tr a p : tr = (demo_exec fenced refuse m).1 -> (a, p) = (demo_exec fenced refuse m).2 -> runs (m demo_facade) tr (a, p).
Proof. intros -> ->. apply exec_run. Qed.

Definition demo_call : facade_call := CallPromote demo_ref (demo_pf PlannedFailoverPhasePromoting).

Definition demo_trace : list (event ans) := (demo_exec true false (perform no_fold demo_call)).1.

(** The clear of [read_only] in a promotion. *)
Lemma clears_proved_witness :
  (exists ref pf tm F was, promotes demo_call ref pf /\ clear_evidence no_fold tm ref pf F was (take 36 demo_trace) (SetReadOnly (Pinned "west") false))
  \/ (exists ref pf tm, demo_call = CallRollback ref pf /\ unfence_evidence tm ref pf demo_facade (take 36 demo_trace) (SetReadOnly (Pinned "west") false)).
Proof.
  refine (clears_proved no_fold demo_call demo_facade (take 36 demo_trace) (ev (SetReadOnly (Pinned "west") false) true) (drop 37 demo_trace)
    (demo_exec true false (perform no_fold demo_call)).2.2 _ _); [|reflexivity].
  apply (demo_runs true false); vm_compute; reflexivity.
Defined.

Definition demo_promote : list (event ans) * (res facade_error PromoteOutcome * facade) :=
  demo_exec true false (Promotion.Promote no_fold demo_ref (demo_pf PlannedFailoverPhasePromoting)).

Definition demo_confirmed : PromoteOutcome := promote_outcome PromoteConfirmed "" None [] true.

Lemma promote_outcome_true_witness :
  (MayHaveWritten demo_confirmed = false -> ~ cleared demo_promote.1)
  /\ (PO_Kind demo_confirmed = PromoteConfirmed -> exists tm F t0 t1, demo_promote.1 = t0 ++ t1 /\ saw demo_promote.1 CurrentManager (Some tm)
        /\ plannedFenceGTIDSet (demo_pf PlannedFailoverPhasePromoting) = Some F /\ ~ cleared t1
        /\ confirmed_evidence no_fold tm demo_ref (demo_pf PlannedFailoverPhasePromoting) F (PO_Warnings demo_confirmed) t1).
Proof.
  refine (promote_outcome_true no_fold demo_ref (demo_pf PlannedFailoverPhasePromoting) demo_facade demo_promote.1 demo_confirmed demo_promote.2.2 _).
  apply (demo_runs true false); vm_compute; reflexivity.
Defined.

Definition demo_refused : list (event ans) * (unit * facade) := demo_exec true true (perform no_fold demo_call).

(** A promotion that lost its claim. *)
Lemma memo_honest_witness : ~ cleared demo_refused.1.
Proof.
  refine (memo_honest no_fold "run-1" demo_facade [(demo_call, demo_refused.1)] demo_refused.2.2 _ _ _ _ demo_call demo_refused.1 demo_ref
    (demo_pf PlannedFailoverPhasePromoting) _ _ _).
  - eapply performs_cons; [|apply performs_nil]. apply (demo_runs true true); vm_compute; reflexivity.
  - exists Failover.promoteMemoNone. vm_compute. reflexivity.
  - apply Forall_cons. split; [|apply Forall_nil; exact I]. intros [[why H]|H]; discriminate H.
  - vm_compute. reflexivity.
  - left.
  - left. reflexivity.
  - reflexivity.
Defined.

Definition demo_fence : list (event ans) * (res facade_error FenceProof * facade) := demo_exec false false (Ops.Fence demo_ref "3e11").

Lemma fence_proved_witness :
  (forall t1 e t2, demo_fence.1 = t1 ++ e :: t2 -> statement (projT1 e) = true -> exists tm, fence_evidence tm demo_ref "3e11" t1 (projT1 e))
  /\ forall proof, demo_fence.2.1 = Ok proof ->
       (FP_Kind proof = FenceApplied -> exists tm, saw demo_fence.1 CurrentManager (Some tm) /\ applied_ok tm demo_ref "3e11" demo_fence.1 demo_fence.2.2 proof)
       /\ (FP_Kind proof = FenceNotSent -> Forall (fun e => statement (projT1 e) = false) demo_fence.1).
Proof.
  refine (fence_proved demo_ref "3e11" demo_facade demo_fence.1 demo_fence.2.1 demo_fence.2.2 _). apply (demo_runs false false); vm_compute; reflexivity.
Defined.

Definition demo_rollback : list (event ans) * (res facade_error RollbackResult * facade) :=
  demo_exec true false (Rollbacks.Rollback demo_ref (demo_pf PlannedFailoverPhaseRollingBack)).

Definition demo_rolled : RollbackResult := {| RB_Outcome := Some OutcomeRolledBack; RB_Reason := "InternalError"; RB_Warnings := [] |}.

Lemma rolled_back_serves_witness :
  saw demo_rollback.1 (CheckReadOnly (Pooled "east")) (Some false) \/ saw demo_rollback.1 (CheckReadOnly (Pinned "east")) (Some false).
Proof.
  refine (rolled_back_serves demo_ref (demo_pf PlannedFailoverPhaseRollingBack) demo_facade demo_rollback.1 demo_rolled demo_rollback.2.2 _ _); [|reflexivity].
  apply (demo_runs true false); vm_compute; reflexivity.
Defined.

(** A grant for the running group. *)
Definition demo_grant : list (event ans) * (res string string * facade) := demo_exec false false (plannedGrantEvidence (fun s => s) demo_tm "east" "west").

Lemma grant_evidenced_witness :
  "3e11" <> "" /\ (exists gtid, saw demo_grant.1 (ReadGTIDSnapshot (Pooled "east")) (Ok ("3e11", gtid)))
  /\ saw demo_grant.1 (CheckReadOnly (Pooled "east")) (Some false) /\ saw demo_grant.1 (CheckReadOnly (Pooled "west")) (Some true)
  /\ probed demo_grant.1 demo_tm ["east"; "west"] fenced_or_reader
  /\ exists src r, getSite demo_tm "east" = Some src /\ saw demo_grant.1 (ShowReplicaStatus (Pooled "west")) (Some (Some r)) /\ replicates (fun s => s) src r.
Proof.
  refine (grant_evidenced (fun s => s) demo_tm "east" "west" demo_facade demo_grant.1 "3e11" demo_grant.2.2 _ _); [discriminate|].
  apply (demo_runs false false); vm_compute; reflexivity.
Defined.
