(* ===== verification/PollData.v ===== *)
(** * The topology manager's poll: calls, trackers and shared fields

    What [internal/controller/topology.go]'s poll goroutine keeps for itself (its site
    trackers), what it shares with other goroutines under [tm.mu], and what it calls:
    MySQL, the clock, DNS, taints and the failover record's store. *)
From S2P Require Import Prelude GoStd Intervals GtidSet SiteState Effects GoTime Failover FailoverRecord ClaimSlot Claims.

Local Open Scope Z_scope.

#[local] Arguments prog_bind {Op Ans A B} _ _ : simpl never.

Module Poll.

Import GTID Matrix FailoverRecords ClaimSlot Claims.

(** ** Configuration *)

Definition Minute : Z := 60 * Second.

Definition pendingPromotionActiveSiteTTL : Z := 30 * Second.

Definition failoverRetryBackoff : Z := 10 * Second.

Definition maxPollBackoffExponent : Z := 4.

(** What the DNS updater implements beyond writing the record. *)
Inductive dns_updater : Type :=
| DNSUpdater
| DNSRecordReader
| DNSSpecController.

(** [TopologyConfig] and what the constructor was given: [bootstrap_wired] is
    [tm.bootstrap != nil && tm.bootstrapCfg.ReplUser != ""], [repl_user_set] its second half; [recorder_wired],
    [keyring_wired], [emergency_wired] and [reclone_wired] say which collaborators are not
    nil. *)
Record TopologyConfig : Type := {
  PollInterval : Z;
  FailureThreshold : Z;
  RecoveryThreshold : Z;
  FailoverCooldown : Z;
  SitePriorities : list string;
  bootstrap_wired : bool;
  recorder_wired : bool;
  keyring_wired : bool;
  emergency_wired : bool;
  dns : option dns_updater;
  repl_user_set : bool;
  reclone_wired : bool;
  ConnectionDrainTimeout : Z;
  ReadOnlyMaxLagSeconds : Z
}.

(** [tm.failoverCooldown]. *)
Definition failoverCooldown (cfg : TopologyConfig) : Z :=
  if FailoverCooldown cfg =? 0 then 5 * Minute else FailoverCooldown cfg.

(** ** Site trackers

    Only the poll goroutine writes them. [role] is never empty: the constructor reads ""
    as a primary-candidate. The convergence fields are in [Followers]. Counters are unbounded:
    an [int] holds 2^63 polls. *)
Record siteTracker : Type := {
  name : string;
  role : SiteRole;
  taintSelector : string;
  host : string;
  lbIP : string;
  tstate : SiteState;
  failCount : Z;
  recoveryCount : Z;
  lastAnswerWritable : bool;
  probes : Z;
  lastSeen : Z;
  nextProbe : Z;
  replicating : bool;
  replicatingStreak : Z;
  probeFailed : bool
}.

#[export] Instance siteTracker_eta : Eta siteTracker := fun t =>
  Build_siteTracker (name t) (role t) (taintSelector t) (host t) (lbIP t) (tstate t) (failCount t) (recoveryCount t)
    (lastAnswerWritable t) (probes t) (lastSeen t) (nextProbe t) (replicating t) (replicatingStreak t) (probeFailed t).

Definition isPromotable (t : siteTracker) : bool := bool_decide (role t = SiteRolePrimaryCandidate).

Definition isHealthyReplica (t : siteTracker) : bool := bool_decide (tstate t = StateReadOnly) && replicating t.

Definition pendingWritable (t : siteTracker) : bool := bool_decide (tstate t = StateUnknown) && lastAnswerWritable t.

Definition classificationOverdueLocked (cfg : TopologyConfig) (t : siteTracker) : bool :=
  bool_decide (tstate t = StateUnknown) && (probes t >=? FailureThreshold cfg + RecoveryThreshold cfg).

(** What the claims of [Claims] read of a tracker. *)
Definition view (t : siteTracker) : Claims.siteTracker :=
  {| Claims.site_name := name t; Claims.site_role := role t; Claims.site_state := tstate t |}.

Definition find_site (l : list siteTracker) (n : string) : option siteTracker := List.find (fun t => bool_decide (name t = n)) l.

(** ** Shared fields *)

(** [siteRecovery]; its state is "" once only a retry time is kept. *)
Record siteRecovery : Type := {
  recovery_state : string;
  retryAfter : Z;
  divergentGtid : string;
  divergentCount : Z;
  detectedBy : string;
  comparedTo : string;
  drainStartedAt : Z;
  drainComplete : bool
}.

#[export] Instance siteRecovery_eta : Eta siteRecovery := fun r =>
  Build_siteRecovery (recovery_state r) (retryAfter r) (divergentGtid r) (divergentCount r) (detectedBy r) (comparedTo r) (drainStartedAt r) (drainComplete r).

Definition recoveryStateBlocked : string := "RecoveryBlocked".

(** A follower's convergence fields, which a finished clone resets from its own
    goroutine; a state or reason not set is "". *)
Record sourceTracker : Type := {
  sourceHost : string;
  sourceConvergenceState : string;
  sourceConvergenceReason : string;
  servingHealthy : bool
}.

#[export] Instance sourceTracker_eta : Eta sourceTracker := fun t =>
  Build_sourceTracker (sourceHost t) (sourceConvergenceState t) (sourceConvergenceReason t) (servingHealthy t).

(** A divergent site became the primary. *)
Record DivergentPromotion : Type := {
  note_site : string;
  note_gtid : string;
  note_count : Z;
  note_comparedTo : string
}.

(** The fields that concern followers: convergence by site, the audit's schedule, reclones
    and the recovery's notes. *)
Record Followers : Type := {
  sources : gmap string sourceTracker;
  gtidAudit : gmap string Z;
  gtidAuditPrimary : string;
  gtidAuditPrimaryUUID : string;
  gtidAuditAuthority : Z;
  gtidAuditSourceUUID : gmap string string;
  pendingDivergentPromotion : option DivergentPromotion;
  recoveryDeferred : bool;
  reclonePendingSite : string;
  reclonePendingOwner : string;
  recloneCompletedSite : string;
  recloneCompletedOwner : string;
  cloneHoldReleaseSite : string
}.

#[export] Instance Followers_eta : Eta Followers := fun f =>
  Build_Followers (sources f) (gtidAudit f) (gtidAuditPrimary f) (gtidAuditPrimaryUUID f) (gtidAuditAuthority f) (gtidAuditSourceUUID f)
    (pendingDivergentPromotion f) (recoveryDeferred f) (reclonePendingSite f) (reclonePendingOwner f) (recloneCompletedSite f)
    (recloneCompletedOwner f) (cloneHoldReleaseSite f).

(** The fields under [tm.mu] that other goroutines may write too. [tmgr]: those the claims
    decide on; its [sites] are the trackers' views. *)
Record Shared : Type := {
  tmgr : Claims.TopologyManager;
  plannedSlot : PlannedClaimSlot;
  promotedAt : Z;
  autoBootstrapSuppressed : bool;
  initRestoreSeed : string;
  bootstrapAdmitting : string;
  bootstrapSource : string;
  recovery : gmap string siteRecovery;
  crossSiteRetryNotBefore : Z;
  authorityChanges : Z;
  dnsAppliedTarget : string;
  dnsWriteFailed : bool;
  dnsWithheld : bool;
  keyringPromotionSkipped : list string;
  keyringPromotionRefused : list string;
  restoreReclonePromotionRefused : list string;
  followers : Followers
}.

#[export] Instance Shared_eta : Eta Shared := fun s =>
  Build_Shared (tmgr s) (plannedSlot s) (promotedAt s) (autoBootstrapSuppressed s) (initRestoreSeed s) (bootstrapAdmitting s)
    (bootstrapSource s) (recovery s) (crossSiteRetryNotBefore s) (authorityChanges s) (dnsAppliedTarget s) (dnsWriteFailed s)
    (dnsWithheld s) (keyringPromotionSkipped s) (keyringPromotionRefused s) (restoreReclonePromotionRefused s) (followers s).

(** What the poll goroutine keeps between polls; the last two are under [tm.mu] but only
    it writes them. *)
Record poller : Type := {
  trackers : list siteTracker;
  lastReassert : Z;
  lastFenceRetryLog : Z
}.

#[export] Instance poller_eta : Eta poller := fun p => Build_poller (trackers p) (lastReassert p) (lastFenceRetryLog p).

Definition getSite (p : poller) (n : string) : option siteTracker := find_site (trackers p) n.

(** ** Calls *)

Record ReplicaStatus : Type := {
  IORunning : bool;
  SQLRunning : bool;
  SourceHost : string;
  ExecutedGtidSet : string;
  SourceUUID : string;
  SecondsBehindSource : option Z
}.

(** [Lock] opens a section under [tm.mu] and answers the fields found there; [Unlock]
    leaves the fields it is given (a section that only reads has none). [PredecessorMutating] and
    [UpdaterIsUpdating] ask the replaced manager and the updater. [GoBootstrap] starts the
    clone's goroutine. [FailoverStateLock] takes the record's write lock, waiting or not.
    [EnterGate] and [ExitGate] are the follower-mutation gate's, [StartGate] and [EndGate]
    the read side of the replica start gate. [ContextExpired]: the audit pass's context
    ended. [PersistStatus] is the status callback a recovery writes before its rewrite.
    The last two stand for steps of the poll this library does not model: the restore's
    guards and ordered updates. *)
Inductive op : Type :=
| Lock
| Unlock (s : Shared)
| Now
| CheckReadOnly (site : string)
| CheckSuperReadOnly (site : string)
| SetSuperReadOnly (site : string) (on : bool)
| SetReadOnly (site : string) (on : bool)
| KillAppConnections (site : string)
| WaitForRelayLogDrain (site : string) (timeout : Z)
| StopReplica (site : string)
| ResetReplicaAll (site : string)
| GetGtidExecuted (site : string)
| ShowReplicaStatus (site : string)
| HasUserSchemas (site : string)
| SetTaint (selector : string) (apply : bool)
| UpdateDNSRecord (target : string)
| RecordSpec
| SpecNeedsApply
| CurrentDNSEndpoint
| CurrentDNSRecord
| PredecessorMutating
| UpdaterIsUpdating
| RequestKeyringUnseal (site : string)
| GoBootstrap (donor recipient source : string)
| FailoverStateLock (wait : bool)
| FailoverStateUnlock
| RecordFailoverState (rec : FailoverRecord)
| EmergencyFailoverCallback (target oldPrimary : string)
| EnterGate
| ExitGate
| StartGate
| EndGate
| StartReplica (site : string)
| ChangeReplicationSource (site host : string)
| ReadGTIDSnapshot (site : string)
| ContextExpired
| Sleep (d : Z)
| PersistStatus
| NotifyCloneComplete (site : string)
| RecloneComplete (site owner : string)
| ReassertRestoreGuards
| CheckUpdate.

(** A read answers [None] on error, a statement or a write whether it returned no error,
    [KillAppConnections] how many it killed. [ReadGTIDSnapshot]: server UUID and set, the
    UUID "" when the checker reads only the set.
    [HasUserSchemas] and [CheckSuperReadOnly] answer [None] when the checker lacks the
    method. [RecordSpec]: host and TTL; [CurrentDNSEndpoint]: host, target and TTL, or
    none found. *)
Definition ans (o : op) : Type :=
  match o with
  | Lock => Shared
  | Now => Z
  | CheckReadOnly _ => option bool
  | CheckSuperReadOnly _ | HasUserSchemas _ => option (option bool)
  | GetGtidExecuted _ => option string
  | ShowReplicaStatus _ => option (option ReplicaStatus)
  | RecordSpec => string * Z
  | CurrentDNSEndpoint => option (option (string * string * Z))
  | CurrentDNSRecord => option (option string)
  | RequestKeyringUnseal _ => option bool
  | KillAppConnections _ => option Z
  | ReadGTIDSnapshot _ => option (string * string)
  | Unlock _ | GoBootstrap _ _ _ | FailoverStateUnlock | EmergencyFailoverCallback _ _ | ExitGate | StartGate | EndGate | Sleep _
  | PersistStatus | ReassertRestoreGuards | CheckUpdate => unit
  | _ => bool
  end.

Abbreviation poll := (st ans poller).
Abbreviation pret := (sret (Ans := ans) (St := poller)).
Abbreviation pcall := (scall (Ans := ans) (St := poller)).

(** ** Sections under [tm.mu] *)

(** The fields with the sites as the poll sees them. *)
Definition with_sites (l : list siteTracker) (s : Shared) : Shared := s <| tmgr := tmgr s <| Claims.sites := map view l |> |>.

Definition adopt (p : poller) (s : Shared) : Shared := with_sites (trackers p) s.

(** The fields as the section finds them. *)
Definition locked : poll Shared := let^ s := pcall Lock in sget (fun p => adopt p s).

(** A section that changes the fields. *)
Definition update (f : Shared -> Shared) : poll unit := let^ s := locked in pcall (Unlock (f s)).

Definition on_followers (f : Followers -> Followers) (s : Shared) : Shared := s <| followers := f (followers s) |>.

Definition on_tm (f : Claims.TopologyManager -> Claims.TopologyManager) (s : Shared) : Shared := s <| tmgr := f (tmgr s) |>.

Definition authority_of (s : Shared) : Authority := authority (tmgr s).

Definition active_site (s : Shared) : string := activeSiteLocked (tmgr s).

(** ** The pending promotion *)

(** [pendingPromotionFreshLocked]; the clock is read only when a promotion is pending. *)
Definition pendingPromotionFreshLocked (s : Shared) : poll bool :=
  if bool_decide (promotedSite (tmgr s) = "") then pret false
  else if promotedAt s =? 0 then pret false
  else let^ now := pcall Now in pret (time_sub now (promotedAt s) <=? pendingPromotionActiveSiteTTL).

Definition clearPendingPromotionLocked (s : Shared) : Shared :=
  on_tm (fun m => m <| promotedSite := "" |>) s <| promotedAt := 0 |>.

(** [reconcilePendingPromotionLocked] on a pending promotion. *)
Definition reconcilePendingPromotionLocked (s : Shared) : poll Shared :=
  if bool_decide (promotedSite (tmgr s) = "") then pret s
  else if bool_decide (active_site s = promotedSite (tmgr s)) then pret (clearPendingPromotionLocked s)
  else if negb (bool_decide (active_site s = "")) then pret (clearPendingPromotionLocked s)
  else let^ fresh := pendingPromotionFreshLocked s in pret (if fresh then s else clearPendingPromotionLocked s).

(** ** The cross-site retry *)

Definition armCrossSiteRetryAfter (notBefore : Z) : poll unit :=
  update (fun s => let s := on_tm (fun m => m <| crossSiteRetry := true |>) s in
                   if notBefore >? crossSiteRetryNotBefore s then s <| crossSiteRetryNotBefore := notBefore |> else s).

Definition armCrossSiteRetry : poll unit := armCrossSiteRetryAfter 0.

Definition clearCrossSiteRetry : poll unit :=
  update (fun s => on_tm (fun m => m <| crossSiteRetry := false |>) s <| crossSiteRetryNotBefore := 0 |>).

(** ** Rotation and reclone decisions *)

Definition clearKeyringRotationBlockedDirty : poll unit := update (on_tm (fun m => m <| keyringRotationBlockedDirty := false |>)).

Definition peekKeyringRotationBlockedDirty : poll bool := let^ s := locked in pret (keyringRotationBlockedDirty (tmgr s)).

Definition recordKeyringPromotionDecision (skipped refused : list string) : poll unit :=
  update (fun s => s <| keyringPromotionSkipped := skipped |> <| keyringPromotionRefused := refused |>).

Definition recordRestoreReclonePromotionRefused (l : list string) : poll unit :=
  update (fun s => s <| restoreReclonePromotionRefused := l |>).

Definition candidate_view (t : Claims.siteTracker) : bool :=
  bool_decide (Claims.site_state t = StateReadOnly) && Claims.isPromotable t.

Definition rotationBlockedCandidates : poll (list string) :=
  let^ s := locked in
  pret (map Claims.site_name (List.filter (fun t => candidate_view t && keyringRotationBlockedLocked (tmgr s) (Claims.site_name t)) (Claims.sites (tmgr s)))).

Definition restoreReclonePendingCandidates : poll (list string) :=
  let^ s := locked in
  pret (map Claims.site_name (List.filter (fun t => candidate_view t && restoreReclonePendingLocked (tmgr s) (Claims.site_name t)) (Claims.sites (tmgr s)))).

End Poll.
