(* ===== verification/PollSteps.v ===== *)
(** * The topology manager's poll: its steps

    [internal/controller/topology.go]: the guards of a cross-site action, fencing, the
    choice of the freshest candidate, the failover record and DNS. Log lines and metrics
    are left out; a probe that times out is a failed probe. *)
From S2P Require Import Prelude GoStd Intervals GtidSet SiteState Effects GoTime Failover FailoverRecord ClaimSlot Claims PollData.

Local Open Scope Z_scope.

#[local] Arguments prog_bind {Op Ans A B} _ _ : simpl never.

Module PollOps.

Import GTID Matrix FailoverRecords ClaimSlot Claims Poll.

(** [a || b]. *)
Definition or_else (a b : poll bool) : poll bool := let^ x := a in if x : bool then pret true else b.

(** [for i := range l { f(l[i]) }]. *)
Fixpoint each {A} (f : A -> poll unit) (l : list A) : poll unit :=
  match l with
  | [] => pret tt
  | x :: l => f x ;;* each f l
  end.

(** ** Guards *)

Definition isTopologyFrozen : poll bool := let^ s := locked in pret (topologyFrozen (tmgr s)).

Definition plannedClaimHeld : poll bool := let^ s := locked in pret (Held (plannedSlot s)).

Definition isBootstrapping : poll bool := let^ s := locked in pret (negb (bootstrapIdlePhase (bootstrapPhase (tmgr s)))).

Definition bootstrapBlocksCrossSite : poll bool :=
  let^ b := isBootstrapping in
  if negb b then pret false
  else
    let^ s := locked in
    let recipient := bootstrapRecipient (tmgr s) in
    if bool_decide (recipient = "") then pret true
    else
      let^ p := sget id in
      pret match getSite p recipient with
           | None => true
           | Some t => negb (bool_decide (role t = SiteRoleReadOnly))
           end.

(** The reader being cloned into, or "". *)
Definition cloningReaderSite : poll string :=
  let^ b := isBootstrapping in
  if negb b then pret ""
  else
    let^ s := locked in
    let recipient := bootstrapRecipient (tmgr s) in
    if bool_decide (recipient = "") then pret ""
    else
      let^ p := sget id in
      pret match getSite p recipient with
           | Some t => if bool_decide (role t = SiteRoleReadOnly) then recipient else ""
           | None => ""
           end.

Definition isUpdating : poll bool :=
  let^ s := locked in
  if deploymentUpdateRunning (tmgr s) || predecessorUpdateInFlight (tmgr s) then pret true
  else pcall UpdaterIsUpdating.

(** [tm.isTopologyFrozen() || tm.plannedClaimHeld() || tm.bootstrapBlocksCrossSite() || tm.isUpdating()]. *)
Definition crossSiteGuarded : poll bool :=
  or_else isTopologyFrozen (or_else plannedClaimHeld (or_else bootstrapBlocksCrossSite isUpdating)).

Definition crossSiteRetryReady : poll bool :=
  let^ s := locked in
  if negb (crossSiteRetry (tmgr s)) then pret false
  else
    let^ now := pcall Now in
    if now <? crossSiteRetryNotBefore s then pret false
    else let^ g := crossSiteGuarded in pret (negb g).

(** The locked section of [beginAutoPromotionOf], after the replaced manager was asked:
    (began, rotationBlocked). *)
Definition beginAutoPromotion (target : string) : poll (bool * bool) :=
  let^ busy := pcall PredecessorMutating in
  if busy : bool then pret (false, false)
  else
    let^ s := locked in
    let '(m, r) := beginAutoPromotionOf (plannedSlot s) (tmgr s) target in
    pcall (Unlock (s <| tmgr := m |>)) ;;* pret r.

Definition finishTopologyChange : poll unit := update (on_tm finishDeploymentTopologyChange).

Definition deploymentPromotionExecuted (site : string) : poll unit :=
  update (on_tm (fun m => m <| authority := deploymentAuthorityLocked (authority m) site |>)).

(** ** Confirming a writable site *)

Definition confirmWritable (site : string) : poll bool :=
  let^ ro := pcall (CheckReadOnly site) in
  pret (bool_decide (ro = Some false)).

Definition confirmedActivePrimary : poll (option siteTracker) :=
  let^ s := locked in
  let n := active_site s in
  if bool_decide (n = "") then pret None
  else
    let^ p := sget id in
    match getSite p n with
    | None => pret None
    | Some t =>
        if negb (isPromotable t) || bool_decide (host t = "") then pret None
        else if probeFailed t then pret None
        else let^ ok := confirmWritable (name t) in pret (if ok : bool then Some t else None)
    end.

(** ** Taints and fences *)

Definition applyPerSiteAction (t : siteTracker) (a : Action) : poll unit :=
  if bool_decide (role t = SiteRoleReadOnly) || bool_decide (taintSelector t = "") then pret tt
  else match Taint a with
       | Some b => pcall (SetTaint (taintSelector t) b) ;;* pret tt
       | None => pret tt
       end.

Definition fence_site (t : siteTracker) : poll unit := pcall (SetSuperReadOnly (name t) true) ;;* pret tt.

Definition is_anomaly (t : siteTracker) : bool := bool_decide (tstate t = StateWritable) && negb (isPromotable t).

Definition fenceWritableNonPromotableSites : poll bool :=
  let^ p := sget id in
  let l := List.filter is_anomaly (trackers p) in
  each fence_site l ;;* pret (nonempty l).

Definition fence_others (keep : string) (p : poller) : list siteTracker :=
  List.filter (fun t => negb (bool_decide (name t = keep)) && bool_decide (tstate t = StateWritable)) (trackers p).

Definition fenceSitesExcept (keep : string) : poll unit := let^ p := sget id in each fence_site (fence_others keep p).

(** ** Observations *)

Definition observation (t : siteTracker) : SiteObservation :=
  {| Name := name t; Role := role t; State := tstate t; PromotionBlocked := false; PromotionBlockedReason := "";
     PendingWritable := pendingWritable t; ClassificationOverdue := false |}.

Definition observe (cfg : TopologyConfig) (m : Claims.TopologyManager) (t : siteTracker) : SiteObservation :=
  let '(blocked, why) :=
    if keyringRotationBlockedLocked m (name t) then (true, PromotionBlockedRotation)
    else if restoreReclonePendingLocked m (name t) then (true, PromotionBlockedPendingReclone) else (false, "") in
  {| Name := name t; Role := role t; State := tstate t; PromotionBlocked := blocked; PromotionBlockedReason := why;
     PendingWritable := pendingWritable t; ClassificationOverdue := classificationOverdueLocked cfg t |}.

Definition observations (cfg : TopologyConfig) : poll (list SiteObservation) :=
  let^ s := locked in sget (fun p => map (observe cfg (tmgr s)) (trackers p)).

Definition writableObservations : poll (list SiteObservation) :=
  let^ _ := locked in
  sget (fun p => map observation (List.filter (fun t => bool_decide (tstate t = StateWritable)) (trackers p))).

Definition previousPrimary (newPrimary : string) : poll string :=
  let^ s := locked in
  let last := lastFailoverTarget (authority_of s) in
  if negb (bool_decide (last = "")) && negb (bool_decide (last = newPrimary)) then pret last
  else
    let^ p := sget id in
    pret match fence_others newPrimary p with
         | t :: _ => name t
         | [] => ""
         end.

(** ** The freshest candidate *)

(** The candidate's data was wiped, or lacks the set recorded at the last promotion. *)
Definition promotionDataRegression (candidate : GTIDSet) (lastPromotionRaw : string) (groupHasData : bool) : bool :=
  if IsEmpty candidate then groupHasData || negb (bool_decide (TrimSpace lastPromotionRaw = ""))
  else if bool_decide (lastPromotionRaw = "") then false
  else match ParseGTIDSet lastPromotionRaw with
       | Err _ => false
       | Ok last => if IsEmpty last then false else negb (Contains candidate last)
       end.

(** A candidate and the set read from it, [None] when it is not [ok]. *)
Definition candidateInfo : Type := string * option GTIDSet.

(** [GetGtidExecuted] and [ParseGTIDSet]. *)
Definition read_gtid (site : string) : poll (option GTIDSet) :=
  let^ raw := pcall (GetGtidExecuted site) in
  pret (match raw : option string with
        | None => None
        | Some raw => res_ok (ParseGTIDSet raw)
        end).

Definition query_candidate (n : string) : poll (option GTIDSet) :=
  let^ p := sget id in
  match getSite p n with
  | None => pret None
  | Some _ => read_gtid n
  end.

Fixpoint query_candidates (candidates : list string) : poll (list candidateInfo) :=
  match candidates with
  | [] => pret []
  | n :: l =>
      let^ g := query_candidate n in
      let^ rest := query_candidates l in
      pret ((n, g) :: rest)
  end.

Definition refuse_regressed (lastPromotionRaw : string) (groupHasData : bool) (i : candidateInfo) : candidateInfo :=
  match snd i with
  | Some g => if promotionDataRegression g lastPromotionRaw groupHasData then (fst i, None) else i
  | None => i
  end.

(** One iteration of [freshest]. *)
Definition fresher (divergent : string -> bool) (wantDivergent : bool) (best : option (string * GTIDSet)) (i : candidateInfo)
  : option (string * GTIDSet) :=
  match snd i with
  | None => best
  | Some g =>
      if negb (Bool.eqb (divergent (fst i)) wantDivergent) then best
      else match best with
           | None => Some (fst i, g)
           | Some (_, b) => if Contains g b && negb (Contains b g) then Some (fst i, g) else best
           end
  end.

Definition freshest (infos : list candidateInfo) (divergent : string -> bool) (wantDivergent : bool) : option (string * GTIDSet) :=
  fold_left (fresher divergent wantDivergent) infos None.

Definition is_divergent (s : Shared) (n : string) : bool :=
  match recovery s !! n with
  | Some r => bool_decide (recovery_state r = recoveryStateBlocked)
  | None => false
  end.

Definition pickFreshestCandidate (candidates : list string) : poll string :=
  let^ infos := query_candidates candidates in
  let^ s := locked in
  let infos := map (refuse_regressed (promotionGtidExecuted (authority_of s)) (groupHasData (authority_of s))) infos in
  let^ s := locked in
  pret match freshest infos (is_divergent s) false with
       | Some (n, _) => n
       | None => match freshest infos (is_divergent s) true with
                 | Some (n, _) => n
                 | None => ""
                 end
       end.

(** ** The failover record *)

(** The locked section of [recordFailover]. *)
Definition record_failover (now : Z) (target promotionGtid : string) (s : Shared) : Shared :=
  on_tm (fun m => m <| authorityEpoch := wrapu64 (authorityEpoch m + 1) |> <| promotedSite := target |>
                    <| authority := ClaimSlot.recordFailover (authority m) now target promotionGtid |>) s
    <| authorityChanges := wrapu64 (authorityChanges s + 1) |> <| promotedAt := now |>.

Definition flushFailoverState (cfg : TopologyConfig) (wait : bool) : poll unit :=
  if negb (recorder_wired cfg) then pret tt
  else
    let^ s := locked in
    if negb (failoverStateDirty (authority_of s)) then pret tt
    else
      let^ got := pcall (FailoverStateLock wait) in
      if negb wait && negb got then pret tt
      else
        let^ s := locked in
        match (if failoverStateDirty (authority_of s) then desired (authority_of s) else None) with
        | None => pcall FailoverStateUnlock
        | Some rec =>
            let^ ok := pcall (RecordFailoverState rec) in
            (if negb ok then pret tt
             else
               let^ s := locked in
               if bool_decide (desired (authority_of s) = Some rec)
               then pcall (Unlock (on_tm (fun m => m <| authority := authority m <| failoverStateDirty := false |> |>) s))
               else pret tt) ;;*
            pcall FailoverStateUnlock
        end.

Definition recordFailover (cfg : TopologyConfig) (now : Z) (target promotionGtid : string) : poll unit :=
  update (record_failover now target promotionGtid) ;;* flushFailoverState cfg true.

(** ** DNS *)

Definition withholdDNSForRestore : poll bool :=
  let^ s := locked in
  if negb (autoBootstrapSuppressed s) then pret false
  else pcall (Unlock (s <| dnsWithheld := true |>)) ;;* pret true.

(** Whether it returned no error. *)
Definition applyDNS (cfg : TopologyConfig) (target : string) : poll bool :=
  match dns cfg with
  | None => pret true
  | Some _ =>
      if bool_decide (target = "") then pret true
      else
        let^ withheld := withholdDNSForRestore in
        if withheld : bool then pret true
        else
          let^ ok := pcall (UpdateDNSRecord target) in
          if negb ok then update (fun s => s <| dnsWriteFailed := true |>) ;;* pret false
          else
            update (fun s => s <| dnsAppliedTarget := target |> <| dnsWriteFailed := false |> <| dnsWithheld := false |>) ;;* pret true
  end.

Definition desiredDNSSiteLocked (s : Shared) : poll string :=
  let^ fresh := pendingPromotionFreshLocked s in
  pret (if fresh : bool then promotedSite (tmgr s) else active_site s).

Definition dns_converged (target : string) : poll unit :=
  update (fun s => s <| dnsAppliedTarget := target |> <| dnsWriteFailed := false |>).

Definition dns_repair (cfg : TopologyConfig) (live target : string) : poll unit :=
  update (fun s => s <| dnsAppliedTarget := live |>) ;;* applyDNS cfg target ;;* pret tt.

(** The last switch of [reconcileDNS]; [live] is [None] when it is not known. *)
Definition reconcile_live (cfg : TopologyConfig) (s : Shared) (specNeedsApply : bool) (target : string) (live : option string) : poll unit :=
  match live with
  | Some l => if bool_decide (l = target) then dns_converged target else dns_repair cfg l target
  | None =>
      if dnsWriteFailed s || dnsWithheld s || specNeedsApply
         || (negb (bool_decide (dnsAppliedTarget s = "")) && negb (bool_decide (dnsAppliedTarget s = target)))
      then applyDNS cfg target ;;* pret tt
      else pret tt
  end.

(** [reconcileDNS] once the target is known. *)
Definition reconcile_target (cfg : TopologyConfig) (s : Shared) (kind : dns_updater) (target : string) : poll unit :=
  match kind with
  | DNSSpecController =>
      let^ needs := pcall SpecNeedsApply in
      let^ spec := pcall RecordSpec in
      let^ cur := pcall CurrentDNSEndpoint in
      match cur : option (option (string * string * Z)) with
      | None => reconcile_live cfg s needs target None
      | Some None => reconcile_live cfg s needs target (Some "")
      | Some (Some (liveHost, liveTarget, liveTTL)) =>
          if bool_decide (liveHost = fst spec) && (liveTTL =? snd spec) && bool_decide (liveTarget = target) then dns_converged target
          else dns_repair cfg liveTarget target
      end
  | DNSRecordReader =>
      let^ cur := pcall CurrentDNSRecord in
      match cur : option (option string) with
      | None => reconcile_live cfg s false target None
      | Some None => reconcile_live cfg s false target (Some "")
      | Some (Some live) => reconcile_live cfg s false target (Some live)
      end
  | DNSUpdater => reconcile_live cfg s false target None
  end.

Definition reconcileDNS (cfg : TopologyConfig) : poll unit :=
  match dns cfg with
  | None => pret tt
  | Some kind =>
      let^ held := plannedClaimHeld in
      if held : bool then pret tt
      else
        let^ s := locked in
        let^ site := desiredDNSSiteLocked s in
        if bool_decide (site = "") then pret tt
        else
          let^ withheld := withholdDNSForRestore in
          if withheld : bool then pret tt
          else
            let^ p := sget id in
            let target := match getSite p site with Some t => lbIP t | None => "" end in
            if bool_decide (target = "") then pret tt else reconcile_target cfg s kind target
  end.

End PollOps.
