(* ===== verification/PollBootstrap.v ===== *)
(** * The topology manager's poll: fresh deploys and empty sites

    [internal/controller/topology.go]: what makes a group a fresh deploy, which site is
    empty, how a seed is made the first primary, and how a clone is admitted. The clone
    itself runs on a goroutine of its own ([GoBootstrap]). *)
From S2P Require Import Prelude GoStd Intervals GtidSet SiteState Effects GoTime Failover FailoverRecord ClaimSlot Claims PollData PollSteps.

Local Open Scope Z_scope.

#[local] Arguments prog_bind {Op Ans A B} _ _ : simpl never.

Module PollBoot.

Import GTID Matrix FailoverRecords ClaimSlot Claims Poll PollOps.

(** ** Is a site empty *)

(** Whether the site holds data as [isFreshDeploy] reads it: user schemas, or else GTIDs. *)
Definition fresh_site (t : siteTracker) : poll bool :=
  let^ rs := pcall (ShowReplicaStatus (name t)) in
  match rs : option (option ReplicaStatus) with
  | None | Some (Some _) => pret false
  | Some None =>
      let^ g := read_gtid (name t) in
      match g with
      | None => pret false
      | Some g =>
          let^ hs := pcall (HasUserSchemas (name t)) in
          pret match hs : option (option bool) with
               | Some (Some b) => negb b
               | _ => IsEmpty g
               end
      end
  end.

Fixpoint all_fresh (l : list siteTracker) : poll bool :=
  match l with
  | [] => pret true
  | t :: l => let^ b := fresh_site t in if b then all_fresh l else pret false
  end.

Definition settled (t : siteTracker) : bool := bool_decide (tstate t = StateWritable) || bool_decide (tstate t = StateReadOnly).

Definition isFreshDeploy : poll bool :=
  let^ p := sget id in
  if negb (forallb settled (trackers p)) then pret false else all_fresh (trackers p).

(** Whether [gtid] has a server of the primary's set; a failed read answers that it has. *)
Definition sharesHistory (gtid : GTIDSet) (newPrimary : string) : poll bool :=
  let^ g := read_gtid newPrimary in
  pret match g with
       | None => true
       | Some g => HasCommonUUIDs gtid g
       end.

(** The probe of [detectEmptySite]: the replica status, the set and whether there are user
    schemas; [None] on an error. *)
Definition probe_empty (site : string) : poll (option (option ReplicaStatus * GTIDSet * bool)) :=
  let^ rs := pcall (ShowReplicaStatus site) in
  match rs : option (option ReplicaStatus) with
  | None => pret None
  | Some rs =>
      let^ g := read_gtid site in
      match g with
      | None => pret None
      | Some g =>
          let^ hs := pcall (HasUserSchemas site) in
          pret match hs : option (option bool) with
               | None => Some (rs, g, negb (IsEmpty g))
               | Some None => None
               | Some (Some b) => Some (rs, g, b)
               end
      end
  end.

Definition in_recovery (s : Shared) (n : string) : bool :=
  match recovery s !! n with
  | Some r => bool_decide (recovery_state r = recoveryStateBlocked) || bool_decide (recovery_state r = "RecoveryInProgress")
  | None => false
  end.

(** A site of [detectEmptySite]'s inner loop: the search ends with this pair, or goes on. *)
Inductive empty_probe : Type := Ends (found : string * string) | GoesOn.

Definition empty_candidate (active t : siteTracker) : poll empty_probe :=
  let^ s := locked in
  if in_recovery s (name t) || probeFailed t then pret GoesOn
  else
    let^ r := probe_empty (name t) in
    match r with
    | None => pret (if bool_decide (role t = SiteRoleReadOnly) then GoesOn else Ends ("", ""))
    | Some (rs, g, hasSchemas) =>
        let^ emptyDatadir :=
          (if IsEmpty g then pret true
           else if bool_decide (tstate t = StateReadOnly)
           then let^ shares := sharesHistory g (name active) in pret (if shares then false else negb hasSchemas)
           else pret false) in
        pret (match rs with
              | None => if emptyDatadir : bool then Ends (name active, name t) else GoesOn
              | Some _ => GoesOn
              end)
    end.

Fixpoint empty_search (active : siteTracker) (l : list siteTracker) : poll (string * string) :=
  match l with
  | [] => pret ("", "")
  | t :: l =>
      let^ e := empty_candidate active t in
      match e with
      | Ends found => pret found
      | GoesOn => empty_search active l
      end
  end.

(** The sites in the order of the two nested loops. *)
Definition empty_order (active : siteTracker) (l : list siteTracker) : list siteTracker :=
  flat_map (fun r => List.filter (fun t => negb (bool_decide (name t = name active)) && bool_decide (role t = r) && settled t) l)
    [SiteRolePrimaryCandidate; SiteRoleDROnly; SiteRoleReadOnly].

(** [detectAndFenceEmptyWritableSite]'s loop: the donor and the recipient so far, or none
    when the answer is no pair. *)
Definition writable_pair (acc : option (option siteTracker * option siteTracker)) (t : siteTracker)
  : poll (option (option siteTracker * option siteTracker)) :=
  match acc with
  | None => pret None
  | Some (donor, recipient) =>
      if negb (bool_decide (tstate t = StateWritable)) || bool_decide (role t = SiteRoleReadOnly) then pret acc
      else if probeFailed t then pret None
      else
        let^ rs := pcall (ShowReplicaStatus (name t)) in
        match rs : option (option ReplicaStatus) with
        | None | Some (Some _) => pret None
        | Some None =>
            let^ g := read_gtid (name t) in
            match g with
            | None => pret None
            | Some g =>
                let^ hs := pcall (HasUserSchemas (name t)) in
                pret match (match hs : option (option bool) with
                            | None => Some (negb (IsEmpty g))
                            | Some r => r
                            end) with
                     | None => None
                     | Some true =>
                         if bool_decide (is_Some donor) || negb (isPromotable t) then None else Some (Some t, recipient)
                     | Some false => if bool_decide (is_Some recipient) then None else Some (donor, Some t)
                     end
            end
        end
  end.

Fixpoint writable_pairs (acc : option (option siteTracker * option siteTracker)) (l : list siteTracker)
  : poll (option (option siteTracker * option siteTracker)) :=
  match l with
  | [] => pret acc
  | t :: l => let^ acc := writable_pair acc t in writable_pairs acc l
  end.

(** [SetSuperReadOnly], then [CheckReadOnly]: fenced and read back. *)
Definition fence_confirmed (site : string) : poll bool :=
  let^ ok := pcall (SetSuperReadOnly site true) in
  if negb ok then pret false
  else let^ ro := pcall (CheckReadOnly site) in pret (bool_decide (ro = Some true)).

Definition detectAndFenceEmptyWritableSite : poll (string * string) :=
  let^ p := sget id in
  let^ r := writable_pairs (Some (None, None)) (trackers p) in
  match r with
  | Some (Some donor, Some recipient) =>
      if bool_decide (host donor = "") then pret ("", "")
      else
        let^ fenced := fence_confirmed (name recipient) in
        if negb fenced then pret ("", "")
        else
          let^ w := confirmWritable (name donor) in
          pret (if w : bool then (name donor, name recipient) else ("", ""))
  | _ => pret ("", "")
  end.

Definition lost (t : siteTracker) : bool :=
  negb (bool_decide (role t = SiteRoleReadOnly)) && (bool_decide (tstate t = StateUnreachable) || bool_decide (tstate t = StateUnknown)).

Definition detectEmptySite : poll (string * string) :=
  let^ active := confirmedActivePrimary in
  match active with
  | None => detectAndFenceEmptyWritableSite
  | Some active =>
      let^ p := sget id in
      if existsb lost (trackers p) then pret ("", "")
      else empty_search active (empty_order active (trackers p))
  end.

Section config.

Context (cfg : TopologyConfig).

(** ** Seeding *)

Definition selectSeedSite (l : list siteTracker) : string :=
  match List.find (fun n => match find_site l n with Some t => isPromotable t | None => false end) (SitePriorities cfg) with
  | Some n => n
  | None => match List.find isPromotable l with Some t => name t | None => "" end
  end.

Fixpoint fence_non_seeds (l : list siteTracker) : poll bool :=
  match l with
  | [] => pret true
  | t :: l => let^ ok := fence_confirmed (name t) in if ok then fence_non_seeds l else pret false
  end.

(** The published seed; the clock is read inside the section. *)
Definition publish_seed (seed : string) : poll unit :=
  let^ s := locked in
  let s := on_tm (fun m => m <| authorityEpoch := wrapu64 (authorityEpoch m + 1) |> <| promotedSite := seed |>
                             <| authority := deploymentAuthorityLocked
                                  (authority m <| lastActiveSite := seed |> <| lastActiveSiteNamed := true |>) seed |>) s
             <| authorityChanges := wrapu64 (authorityChanges s + 1) |> in
  let s := if autoBootstrapSuppressed s then s <| initRestoreSeed := seed |> else s in
  let^ now := pcall Now in
  pcall (Unlock (s <| promotedAt := now |>)).

Definition bootstrap_failed : poll unit := update (on_tm (fun m => m <| bootstrapPhase := BootstrapPhaseFailed |>)).

Definition seedFreshDeploy : poll string :=
  let^ p := sget id in
  let seed := selectSeedSite (trackers p) in
  if bool_decide (seed = "") then bootstrap_failed ;;* pret ""
  else
    let^ fenced := fence_non_seeds (List.filter (fun t => negb (bool_decide (name t = seed))) (trackers p)) in
    if negb fenced then pret ""
    else match getSite p seed with
         | None => pret ""
         | Some t =>
             if negb (isPromotable t) || bool_decide (host t = "") then pret ""
             else
               let^ ok := pcall (SetSuperReadOnly seed false) in
               if negb ok then pret ""
               else
                 let^ ok := pcall (SetReadOnly seed false) in
                 if negb ok then pret ""
                 else
                   let^ w := confirmWritable seed in
                   if negb w then pret "" else publish_seed seed ;;* pret seed
         end.

(** ** Starting a clone *)

(** The locked section of [claimBootstrap], after the replaced manager was asked. *)
Definition claim_bootstrap (recipient source : string) : poll bool :=
  let^ busy := pcall PredecessorMutating in
  if busy : bool then pret false
  else
    let^ s := locked in
    let '(m, ok) := claimBootstrap (plannedSlot s) (tmgr s) recipient in
    if ok then pcall (Unlock (s <| tmgr := m |> <| bootstrapAdmitting := "" |> <| bootstrapSource := source |>)) ;;* pret true
    else pret false.

(** [startBootstrapByName] once the admission is reserved: whether the clone started. *)
Definition admitted_bootstrap (donor recipient : siteTracker) (source : string) : poll bool :=
  if bool_decide (host donor = "") then bootstrap_failed ;;* pret false
  else
    let^ s := locked in
    if bootstrapClaimRefusedLocked (plannedSlot s) (tmgr s) then pret false
    else
      let^ donor_ok :=
        (if bool_decide (source = "fresh-deploy") then pret true
         else
           let^ c := confirmedActivePrimary in
           pret match c with Some c => bool_decide (name c = name donor) | None => false end) in
      if negb donor_ok then pret false
      else
        let^ unsealed :=
          (if keyring_wired cfg
           then let^ r := pcall (RequestKeyringUnseal (name recipient)) in pret (bool_decide (r = Some true))
           else pret true) in
        if negb unsealed then pret false
        else
          let^ claimed := claim_bootstrap (name recipient) source in
          if claimed then pcall (GoBootstrap (name donor) (name recipient) source) ;;* pret true else pret false.

Definition startBootstrapByName (donor recipient source : string) : poll bool :=
  let^ p := sget id in
  match getSite p donor, getSite p recipient with
  | Some d, Some r =>
      let^ s := locked in
      if bootstrapAdmissionRefusedLocked (tmgr s) recipient || negb (bool_decide (bootstrapAdmitting s = "")) then pret false
      else
        pcall (Unlock (s <| bootstrapAdmitting := recipient |>)) ;;*
        let^ committed := admitted_bootstrap d r source in
        (if committed then pret tt else update (fun s => s <| bootstrapAdmitting := "" |>)) ;;*
        pret committed
  | _, _ => pret false
  end.

Definition first_recipient (seed : string) (l : list siteTracker) : option siteTracker :=
  let others := List.filter (fun t => negb (bool_decide (name t = seed))) l in
  match List.find isPromotable others with
  | Some t => Some t
  | None => head others
  end.

Definition startBootstrap : poll unit :=
  let^ seed := seedFreshDeploy in
  if bool_decide (seed = "") then pret tt
  else
    let^ p := sget id in
    match first_recipient seed (trackers p) with
    | None => bootstrap_failed
    | Some r => startBootstrapByName seed (name r) "fresh-deploy" ;;* pret tt
    end.

Definition maybeStartFreshDeployBootstrap (lastTarget : string) : poll bool :=
  if negb (bool_decide (lastTarget = "")) || negb (bootstrap_wired cfg) then pret false
  else
    let^ s := locked in
    if negb (bootstrapIdlePhase (bootstrapPhase (tmgr s))) then pret false
    else
      let^ fresh := isFreshDeploy in
      if negb fresh then pret false
      else if autoBootstrapSuppressed s
      then let^ seed := seedFreshDeploy in pret (negb (bool_decide (seed = "")))
      else startBootstrap ;;* pret true.

Definition retryFreshDeployBootstrap (action : CrossSiteAction) : poll unit :=
  if negb (bool_decide (Reason action = "NoPrimary")) then pret tt
  else
    let^ guarded := crossSiteGuarded in
    if guarded : bool then pret tt
    else
      let^ s := locked in
      maybeStartFreshDeployBootstrap (lastFailoverTarget (authority_of s)) ;;* pret tt.

End config.

End PollBoot.
