(* ===== verification/PollAct.v ===== *)
(** * The topology manager's poll: cross-site actions

    [internal/controller/topology.go]: [applyCrossSiteAction] (the emergency failover and
    the resolution of a split brain), [fenceReturningOldPrimary] and
    [checkPrimaryReassert]. The emergency failover is [Failover.Execute], its calls made
    on the candidate and on the old primary. *)
From S2P Require Import Prelude GoStd Intervals GtidSet SiteState Effects GoTime Failover FailoverRecord ClaimSlot Claims PollData PollSteps PollBootstrap.

Local Open Scope Z_scope.

#[local] Arguments prog_bind {Op Ans A B} _ _ : simpl never.

Module PollAct.

Import GTID Matrix FailoverRecords ClaimSlot Claims Poll PollOps PollBoot.

Section config.

Context (cfg : TopologyConfig).

(** ** Split brain *)

(** What is left to do: nothing, or promote a site ("": none chosen yet). *)
Inductive next_step : Type := Stops | Promotes (site : string).

Definition live_authority (t : siteTracker) : bool := bool_decide (tstate t = StateWritable) && isPromotable t.

(** [keepSite != nil && keepSite.state == StateWritable && keepSite.isPromotable()]. *)
Definition keep_usable (p : poller) (keep : string) : bool :=
  match getSite p keep with Some t => live_authority t | None => false end.

Definition fence_loser (n : string) : poll unit :=
  let^ p := sget id in
  match getSite p n with
  | Some t => if bool_decide (tstate t = StateWritable) then fence_site t else pret tt
  | None => pret tt
  end.

(** The policy's winner is refused, or the losers are fenced and it is promoted. *)
Definition resolve_split_brain : poll next_step :=
  let^ writable := writableObservations in
  let '(winner, losers) := ResolveSplitBrain writable (SitePriorities cfg) in
  if bool_decide (winner = "") then pret (Promotes "")
  else
    let^ s := locked in
    if keyringRotationBlockedLocked (tmgr s) winner then
      recordKeyringPromotionDecision [] [winner] ;;* clearKeyringRotationBlockedDirty ;;* pret Stops
    else if restoreReclonePendingLocked (tmgr s) winner then
      recordRestoreReclonePromotionRefused [winner] ;;* clearKeyringRotationBlockedDirty ;;* pret Stops
    else each fence_loser losers ;;* pret (Promotes winner).

(** The empty site of a split brain is cloned over; whether a clone was handed over. *)
Definition split_brain_bootstrap (lastTarget : string) : poll bool :=
  let^ s := locked in
  let^ cloned :=
    (if autoBootstrapSuppressed s then pret false
     else if negb (bootstrapIdlePhase (bootstrapPhase (tmgr s))) then pret false
     else
       let^ found := detectEmptySite in
       if negb (bool_decide (fst found = "")) && negb (bool_decide (snd found = ""))
       then startBootstrapByName cfg (fst found) (snd found) "auto-clone" ;;* pret true
       else pret false) in
  if cloned : bool then pret true else maybeStartFreshDeployBootstrap cfg lastTarget.

(** ** Promotion *)

(** [Execute]'s calls: [Source] is the old primary, [Candidate] the candidate. It makes no
    other call. *)
Definition on_conn (old candidate : string) (c : Failover.conn) : string :=
  match c with Failover.Source => old | _ => candidate end.

Definition execute_hook (old candidate : string) (o : Failover.op) : poll (Failover.ans o) :=
  let at_ := on_conn old candidate in
  match o as o return poll (Failover.ans o) with
  | Failover.SetSuperReadOnly c on => pcall (SetSuperReadOnly (at_ c) on)
  | Failover.SetReadOnly c on => pcall (SetReadOnly (at_ c) on)
  | Failover.KillAppConnections c => let^ killed := pcall (KillAppConnections (at_ c)) in pret (bool_decide (is_Some killed))
  | Failover.WaitForRelayLogDrain c t => pcall (WaitForRelayLogDrain (at_ c) t)
  | Failover.StopReplica c => pcall (StopReplica (at_ c))
  | Failover.ResetReplicaAll c => pcall (ResetReplicaAll (at_ c))
  | Failover.GetGtidExecuted c => pcall (GetGtidExecuted (at_ c))
  | Failover.CheckReadOnly _ => pret None
  | Failover.ShowReplicaStatus _ => pret None
  | Failover.Now => pret 0
  | Failover.CloseSession | Failover.HookBefore _ | Failover.HookAfter => pret tt
  | Failover.StartReplica _ | Failover.ChangeReplicationSource _ _ | Failover.PinSession _ | Failover.HookGuard
  | Failover.HookGate | Failover.WaitErr | Failover.PollTimer | Failover.Canceled => pret false
  end.

Fixpoint lower {A} (h : forall o, poll (Failover.ans o)) (p : prog Failover.ans A) : poll A :=
  match p with
  | Ret a => pret a
  | Vis o k => let^ x := h o in lower h (k x)
  end.

Definition execute_failover (old : option siteTracker) (candidate : string) : poll (res Failover.promote_error string) :=
  match old with
  | Some t => lower (execute_hook (name t) candidate) (Failover.Execute true)
  | None => lower (execute_hook "" candidate) (Failover.Execute false)
  end.

(** After the claim: execute, confirm, record, publish. *)
Definition promote_claimed (candidate : siteTracker) (oldPrimary : string) : poll unit :=
  let^ p := sget id in
  let old := if bool_decide (oldPrimary = "") then None else getSite p oldPrimary in
  let^ r := execute_failover old (name candidate) in
  match r with
  | Err _ => let^ now := pcall Now in armCrossSiteRetryAfter (now + failoverRetryBackoff)
  | Ok promotionGtid =>
      deploymentPromotionExecuted (name candidate) ;;*
      let^ w := confirmWritable (name candidate) in
      if negb w then pret tt
      else
        let^ now := pcall Now in
        recordFailover cfg now (name candidate) promotionGtid ;;*
        applyDNS cfg (lbIP candidate) ;;*
        (if emergency_wired cfg then pcall (EmergencyFailoverCallback (name candidate) oldPrimary) else pret tt)
  end.

(** From the eligible candidate on. *)
Definition promote_candidate (candidate : siteTracker) : poll unit :=
  let^ s := locked in
  let blocked := keyringRotationBlockedLocked (tmgr s) (name candidate) in
  let^ l := rotationBlockedCandidates in
  let skipped := List.filter (fun n => negb (bool_decide (n = name candidate))) l in
  if blocked then recordKeyringPromotionDecision [] [name candidate] ;;* clearKeyringRotationBlockedDirty
  else
    recordKeyringPromotionDecision skipped [] ;;*
    recordRestoreReclonePromotionRefused [] ;;*
    clearKeyringRotationBlockedDirty ;;*
    let^ old := previousPrimary (name candidate) in
    let^ r := beginAutoPromotion (name candidate) in
    match r with
    | (_, true) => recordKeyringPromotionDecision [] [name candidate]
    | (false, false) => armCrossSiteRetry
    | (true, false) => promote_claimed candidate old ;;* finishTopologyChange
    end.

Definition initRestoreSeedSite : poll string :=
  let^ s := locked in pret (if autoBootstrapSuppressed s then initRestoreSeed s else "").

Definition promote_site (site : string) : poll unit :=
  let^ s := locked in
  if negb (bool_decide (promotedSite (tmgr s) = "")) then clearKeyringRotationBlockedDirty ;;* armCrossSiteRetry
  else
    let last := lastFailover (authority_of s) in
    let^ cooling :=
      (if last =? 0 then pret false
       else let^ now := pcall Now in pret (time_sub now last <? failoverCooldown cfg)) in
    if cooling : bool then armCrossSiteRetryAfter (last + failoverCooldown cfg)
    else
      let^ p := sget id in
      match getSite p site with
      | None => pret tt
      | Some candidate =>
          let^ seed := initRestoreSeedSite in
          if negb (bool_decide (seed = "")) && negb (bool_decide (site = seed)) then pret tt
          else if negb (isPromotable candidate) then pret tt
          else promote_candidate candidate
      end.

(** ** The cross-site action *)

(** The site the action promotes once its split brain is resolved. *)
Definition choose_promotion (action : CrossSiteAction) (lastTarget : string) : poll next_step :=
  let^ step :=
    (if SplitBrain action && bool_decide (lastTarget = "")
     then
       let^ b := bootstrapBlocksCrossSite in
       if negb b && nonempty (SitePriorities cfg) then resolve_split_brain else pret (Promotes "")
     else pret (Promotes "")) in
  match step with
  | Promotes "" =>
      if nonempty (PromotionCandidates action) then
        let^ n := pickFreshestCandidate (PromotionCandidates action) in
        (if bool_decide (n = "")
         then let^ now := pcall Now in armCrossSiteRetryAfter (now + failoverRetryBackoff) else pret tt) ;;*
        pret (Promotes n)
      else pret (Promotes "")
  | step => pret step
  end.

(** No site is promoted: the blocked candidates are recorded. *)
Definition refuse_promotion (action : CrossSiteAction) : poll unit :=
  let noPrimary := bool_decide (Reason action = "NoPrimary") in
  (if noPrimary
   then let^ refused := restoreReclonePendingCandidates in
        if nonempty refused then recordRestoreReclonePromotionRefused refused else pret tt
   else pret tt) ;;*
  let^ rotating :=
    (if StrContains (Alert action) "UnsealReason=Rotation" then pret true
     else let^ l := rotationBlockedCandidates in pret (nonempty l && noPrimary)) in
  if rotating : bool then
    let^ refused := rotationBlockedCandidates in
    if nonempty refused then recordKeyringPromotionDecision [] refused ;;* clearKeyringRotationBlockedDirty else pret tt
  else clearKeyringRotationBlockedDirty.

(** Past the bootstraps: fence, choose, promote. *)
Definition resolve_action (action : CrossSiteAction) (lastTarget : string) : poll unit :=
  (if SplitBrain action && negb (bool_decide (lastTarget = ""))
   then
     let^ b := bootstrapBlocksCrossSite in
     let^ p := sget id in
     if negb b && keep_usable p lastTarget then fenceSitesExcept lastTarget else pret tt
   else pret tt) ;;*
  let^ step := choose_promotion action lastTarget in
  match step with
  | Stops => pret tt
  | Promotes site => if bool_decide (site = "") then refuse_promotion action else promote_site site
  end.

Definition applyCrossSiteAction (action : CrossSiteAction) : poll unit :=
  let^ s := locked in
  let lastTarget := lastFailoverTarget (authority_of s) in
  let^ frozen := isTopologyFrozen in
  if frozen : bool then armCrossSiteRetry
  else
    let^ held := plannedClaimHeld in
    if held : bool then armCrossSiteRetry
    else
      let^ busy := or_else bootstrapBlocksCrossSite isUpdating in
      if busy : bool then armCrossSiteRetry
      else
        let^ handed :=
          (if SplitBrain action && bootstrap_wired cfg then split_brain_bootstrap lastTarget else pret false) in
        if handed : bool then pret tt
        else
          let^ seeded :=
            (if bool_decide (Reason action = "NoPrimary") then maybeStartFreshDeployBootstrap cfg lastTarget else pret false) in
          if seeded : bool then pret tt else resolve_action action lastTarget.

(** ** The returning old primary *)

(** The rate limit of the retry's log lines. *)
Definition note_fence_retry : poll unit :=
  let^ p := sget id in
  let^ quiet :=
    (if lastFenceRetryLog p =? 0 then pret false
     else let^ now := pcall Now in pret (time_sub now (lastFenceRetryLog p) <? 30 * Second)) in
  if quiet : bool then pret tt else let^ now := pcall Now in smodify (fun p => p <| lastFenceRetryLog := now |>).

Definition writable_losers (p : poller) (losers : list string) : list siteTracker :=
  List.filter (fun t => bool_decide (tstate t = StateWritable)) (omap (getSite p) losers).

(** The policy's losers are fenced, between transitions. *)
Definition retry_by_policy : poll bool :=
  if negb (nonempty (SitePriorities cfg)) then pret false
  else
    let^ fresh := (if bootstrap_wired cfg then isFreshDeploy else pret false) in
    if fresh : bool then pret false
    else
      let^ writable := writableObservations in
      let '(winner, losers) := ResolveSplitBrain writable (SitePriorities cfg) in
      if bool_decide (winner = "") then pret false
      else
        let^ s := locked in
        if keyringRotationBlockedLocked (tmgr s) winner || restoreReclonePendingLocked (tmgr s) winner then pret false
        else
          note_fence_retry ;;*
          let^ p := sget id in
          let l := writable_losers p losers in
          each fence_site l ;;* pret (nonempty l).

Definition writable_candidates (p : poller) : list siteTracker := List.filter live_authority (trackers p).

Definition fenceReturningOldPrimary (action : CrossSiteAction) : poll bool :=
  let^ s := locked in
  let^ p := sget id in
  if negb (SplitBrain action) && (length (writable_candidates p) <? 2)%nat then pret false
  else
    let^ guarded := crossSiteGuarded in
    if guarded : bool then pret false
    else
      let keep := lastFailoverTarget (authority_of s) in
      if bool_decide (keep = "") || negb (keep_usable p keep) then retry_by_policy
      else
        let l := fence_others keep p in
        (if nonempty l then note_fence_retry ;;* fenceSitesExcept keep else pret tt) ;;*
        pret (nonempty l).

(** ** Restoring a fenced primary *)

(** Why the target may be re-asserted: recorded by the operator, the seed of a restore, or
    only observed. *)
Inductive reassert_authority : Type := Recorded | RestoreSeed | Observed.

Definition reassert_target (s : Shared) : string * reassert_authority :=
  let a := authority_of s in
  if negb (bool_decide (lastFailoverTarget a = "")) then (lastFailoverTarget a, Recorded)
  else if autoBootstrapSuppressed s && negb (bool_decide (initRestoreSeed s = "")) then (initRestoreSeed s, RestoreSeed)
  else (lastActiveSite a, if lastActiveSiteNamed a then Recorded else Observed).

Definition bootReadOnlyOnly (site : string) : poll bool :=
  let^ r := pcall (CheckSuperReadOnly site) in
  pret (bool_decide (r = Some (Some false))).

Definition restoreSeedPeerFresh (site : string) (requireNoSchemas : bool) : poll bool :=
  let^ rs := pcall (ShowReplicaStatus site) in
  match rs : option (option ReplicaStatus) with
  | Some None =>
      if negb requireNoSchemas then pret true
      else let^ hs := pcall (HasUserSchemas site) in pret (bool_decide (hs = Some (Some false)))
  | _ => pret false
  end.

(** What a peer's set must be within: its recorded divergence set aside. *)
Definition undisputed (s : Shared) (site : string) (g : GTIDSet) : GTIDSet :=
  match recovery s !! site with
  | Some r =>
      if bool_decide (recovery_state r = recoveryStateBlocked) && negb (bool_decide (divergentGtid r = ""))
      then match ParseGTIDSet (divergentGtid r) with Ok set => Subtract g set | Err _ => g end
      else g
  | None => g
  end.

(** A peer is read-only now and holds nothing the target lacks. *)
Definition reassert_peer (auth : reassert_authority) (targetGtid : GTIDSet) (t : siteTracker) : poll bool :=
  let^ ro := pcall (CheckReadOnly (name t)) in
  if negb (bool_decide (ro = Some true)) then pret false
  else
    let^ g := read_gtid (name t) in
    match g with
    | None => pret false
    | Some g =>
        let^ s := locked in
        if Contains targetGtid (undisputed s (name t) g) then pret true
        else match auth with
             | RestoreSeed => restoreSeedPeerFresh (name t) true
             | _ => pret false
             end
    end.

Fixpoint reassert_peers (auth : reassert_authority) (targetGtid : GTIDSet) (l : list siteTracker) : poll bool :=
  match l with
  | [] => pret true
  | t :: l => let^ ok := reassert_peer auth targetGtid t in if ok then reassert_peers auth targetGtid l else pret false
  end.

(** The target's own proofs; its set when they hold. *)
Definition reassert_proof (auth : reassert_authority) (target promotionGtid : string) : poll (option GTIDSet) :=
  let^ lifted := (match auth with Observed => bootReadOnlyOnly target | _ => pret true end) in
  if negb lifted then pret None
  else
    let^ source := (match auth with RestoreSeed => restoreSeedPeerFresh target false | _ => pret true end) in
    if negb source then pret None
    else
      let^ g := read_gtid target in
      pret match g with
           | None => None
           | Some g =>
               if bool_decide (promotionGtid = "") then Some g
               else match ParseGTIDSet promotionGtid with
                    | Err _ => None
                    | Ok want => if Contains g want then Some g else None
                    end
           end.

(** After the claim: the writes, and what they publish. *)
Definition reassert_claimed (t : siteTracker) : poll unit :=
  let^ now := pcall Now in
  smodify (fun p => p <| lastReassert := now |>) ;;*
  let^ ok := pcall (SetSuperReadOnly (name t) false) in
  if negb ok then pret tt
  else
    let^ ok := pcall (SetReadOnly (name t) false) in
    if negb ok then pret tt
    else
      deploymentPromotionExecuted (name t) ;;*
      let^ w := confirmWritable (name t) in
      if negb w then pret tt
      else update (fun s => s <| authorityChanges := wrapu64 (authorityChanges s + 1) |>) ;;* applyDNS cfg (lbIP t) ;;* pret tt.

(** The sites the peer checks consult. *)
Definition reassert_others (l : list siteTracker) (target skip : string) : list siteTracker :=
  List.filter (fun t => negb (bool_decide (name t = target)) && negb (bool_decide (name t = skip))) l.

(** The last tracker of that name. *)
Definition last_site (l : list siteTracker) (n : string) : option siteTracker := find_site (rev l) n.

Definition reassert_eligible (t : siteTracker) : poll bool :=
  if negb (bool_decide (tstate t = StateReadOnly)) || negb (isPromotable t) then pret false
  else
    let^ s := locked in
    if keyringRotationBlockedLocked (tmgr s) (name t) then pret false
    else if restoreReclonePendingLocked (tmgr s) (name t) then recordRestoreReclonePromotionRefused [name t] ;;* pret false
    else pret true.

Definition checkPrimaryReassert : poll bool :=
  let^ guarded := or_else bootstrapBlocksCrossSite (or_else isUpdating (or_else isTopologyFrozen plannedClaimHeld)) in
  if guarded : bool then pret false
  else
    let^ s := locked in
    let '(target, auth) := reassert_target s in
    let^ p := sget id in
    if bool_decide (target = "") || negb (bool_decide (promotedSite (tmgr s) = "")) then pret false
    else
      let^ cooling :=
        (if lastReassert p =? 0 then pret false
         else let^ now := pcall Now in pret (time_sub now (lastReassert p) <? failoverCooldown cfg)) in
      if cooling : bool then pret false
      else
        let^ skip := cloningReaderSite in
        if negb (forallb (fun t => bool_decide (tstate t = StateReadOnly)) (reassert_others (trackers p) target skip)) then pret false
        else match last_site (trackers p) target with
             | None => pret false
             | Some t =>
                 let^ ok := reassert_eligible t in
                 if negb ok then pret false
                 else
                   let^ g := reassert_proof auth target (promotionGtidExecuted (authority_of s)) in
                   match g with
                   | None => pret false
                   | Some g =>
                       let^ ok := reassert_peers auth g (reassert_others (trackers p) target skip) in
                       if negb ok then pret false
                       else
                         let^ r := beginAutoPromotion target in
                         match r with
                         | (true, false) => reassert_claimed t ;;* finishTopologyChange ;;* pret true
                         | _ => pret false
                         end
                   end
             end.

End config.

End PollAct.
