(* ===== verification/PollFollow.v ===== *)
(** * The topology manager's poll: followers

    [internal/controller/follower_mutation.go] (the admission of a follower mutation),
    [source_convergence.go] (followers are pointed at the confirmed primary) and
    [gtid_audit.go] (followers are searched for transactions the primary lacks). Errors of
    a convergence are the reasons the code reads off their messages; an error text of
    MySQL that spells one of them is left out. *)
From S2P Require Import Prelude GoStd Intervals GtidSet SiteState Effects GoTime Failover FailoverRecord ClaimSlot Claims FacadeSteps PollData PollSteps.

Local Open Scope Z_scope.

#[local] Arguments prog_bind {Op Ans A B} _ _ : simpl never.

Module PollFollow.

Import GTID Matrix FailoverRecords ClaimSlot Claims Poll PollOps.

(** ** Admission *)

Definition followerMutationSuppressed : poll bool := let^ s := locked in pret (followerMutationSuppressedLocked (plannedSlot s) (tmgr s)).

(** Whether it was admitted; [ExitGate] releases it. *)
Definition beginFollowerMutation : poll bool :=
  let^ busy := pcall PredecessorMutating in
  if busy : bool then pret false
  else
    let^ entered := pcall EnterGate in
    if negb entered then pret false
    else
      let^ suppressed := followerMutationSuppressed in
      if suppressed : bool then pcall ExitGate ;;* pret false else pret true.

Definition restorePeerHeldSite (site : string) : poll bool := let^ s := locked in pret (mem site (restorePeerHeld (tmgr s))).

(** ** Source convergence *)

Definition sourceConvergenceConverged : string := "Converged".
Definition sourceConvergencePending : string := "Pending".
Definition sourceConvergenceBlocked : string := "Blocked".
Definition sourceReasonDirectSource : string := "DirectSource".
Definition sourceReasonSourceMismatch : string := "SourceMismatch".
Definition sourceReasonProbeFailed : string := "ProbeFailed".
Definition sourceReasonMutationFailed : string := "MutationFailed".
Definition sourceReasonGTIDDiverged : string := "GTIDDiverged".
Definition sourceReasonRestoreHold : string := "RestorePeerHold".

(** Why a convergence stopped: [errRestorePeerHeld], a failed read, a divergence, or a
    failed statement. *)
Inductive converge_error : Type := PeerHeld | ProbeFailed | GTIDDiverged | StatementFailed.

(** [withReplicaStartGate]: [None] is success. *)
Definition withReplicaStartGate (site : string) (op : poll (option converge_error)) : poll (option converge_error) :=
  pcall StartGate ;;*
  let^ held := restorePeerHeldSite site in
  let^ r := (if held : bool then pret (Some PeerHeld) else op) in
  pcall EndGate ;;* pret r.

(** The active's set is read first; both are read before either is parsed. *)
Definition ensureGTIDContained (active follower : string) : poll (option converge_error) :=
  let^ araw := pcall (GetGtidExecuted active) in
  match araw : option string with
  | None => pret (Some ProbeFailed)
  | Some araw =>
      let^ fraw := pcall (GetGtidExecuted follower) in
      pret match fraw : option string with
           | None => Some ProbeFailed
           | Some fraw =>
               match ParseGTIDSet araw, ParseGTIDSet fraw with
               | Ok a, Ok f => if Contains a f then None else Some GTIDDiverged
               | _, _ => Some ProbeFailed
               end
           end
  end.

Definition restartDirectReplica (active follower : string) : poll (option converge_error) :=
  let^ e := ensureGTIDContained active follower in
  match e with
  | Some e => pret (Some e)
  | None => let^ ok := pcall (StartReplica follower) in pret (if ok : bool then None else Some StatementFailed)
  end.

(** [repointReplica] once the channel is stopped. *)
Definition repoint_stopped (active : siteTracker) (follower : string) : poll (option converge_error) :=
  let^ e := ensureGTIDContained (name active) follower in
  match e with
  | Some GTIDDiverged => pret (Some GTIDDiverged)
  | Some e => pcall (StartReplica follower) ;;* pret (Some e)
  | None =>
      let^ ok := pcall (ChangeReplicationSource follower (host active)) in
      if negb ok then pcall (StartReplica follower) ;;* pret (Some StatementFailed)
      else let^ ok := pcall (StartReplica follower) in pret (if ok : bool then None else Some StatementFailed)
  end.

Definition repointReplica (active : siteTracker) (follower : string) : poll (option converge_error) :=
  let^ e := ensureGTIDContained (name active) follower in
  match e with
  | Some e => pret (Some e)
  | None =>
      let^ ok := pcall (StopReplica follower) in
      if negb ok then pret (Some StatementFailed) else repoint_stopped active follower
  end.

Section lower.

Context (cfg : TopologyConfig).

(** Unicode's lower-case mapping, for host names that are not ASCII. *)
Context (unicode_lower : string -> string).

#[local] Abbreviation canonical := (FacadeSteps.Ops.canonicalSourceHost unicode_lower).

(** The status [verifyDirectReplica] accepts; [retries] more reads after this one. *)
Fixpoint verify_direct (retries : nat) (follower expectedHost : string) : poll (option ReplicaStatus) :=
  let^ rs := pcall (ShowReplicaStatus follower) in
  match match rs : option (option ReplicaStatus) with
        | Some (Some r) => if IORunning r && SQLRunning r && bool_decide (canonical (SourceHost r) = canonical expectedHost) then Some r else None
        | _ => None
        end with
  | Some r => pret (Some r)
  | None =>
      match retries with
      | O => pret None
      | S retries => pcall (Sleep (100 * 1000000)) ;;* verify_direct retries follower expectedHost
      end
  end.

Definition verifyDirectReplica : string -> string -> poll (option ReplicaStatus) := verify_direct 2.

(** The locked write of [setSourceConvergence]. *)
Definition setSourceConvergence (t : siteTracker) (repl : option ReplicaStatus) (convergence reason expectedHost : string) : poll unit :=
  let h := match repl with Some r => SourceHost r | None => "" end in
  let serving := bool_decide (role t = SiteRoleReadOnly) && bool_decide (tstate t = StateReadOnly) && replicating t
                 && bool_decide (convergence = sourceConvergenceConverged) && bool_decide (canonical h = canonical expectedHost)
                 && match repl with
                    | Some r => match SecondsBehindSource r with Some lag => lag <=? ReadOnlyMaxLagSeconds cfg | None => false end
                    | None => false
                    end in
  update (on_followers (fun f => f <| sources := <[name t := {| sourceHost := h; sourceConvergenceState := convergence;
                                                               sourceConvergenceReason := reason; servingHealthy := serving |}]> (sources f) |>)).

Definition sourceConvergenceSuppressed : poll bool :=
  let^ s := locked in
  if autoBootstrapSuppressed s || followerMutationSuppressedLocked (plannedSlot s) (tmgr s) then pret true else pcall UpdaterIsUpdating.

Definition converge_reason (e : converge_error) : string * string :=
  match e with
  | GTIDDiverged => (sourceConvergenceBlocked, sourceReasonGTIDDiverged)
  | ProbeFailed => (sourceConvergencePending, sourceReasonProbeFailed)
  | _ => (sourceConvergencePending, sourceReasonMutationFailed)
  end.

(** An admitted convergence: the status it verified. When the restore's hold is found at
    the start gate, the admission is not released. *)
Definition converge_admitted (active t : siteTracker) (repl : ReplicaStatus) (direct : bool) : poll (option ReplicaStatus) :=
  let^ e := withReplicaStartGate (name t) (if direct then restartDirectReplica (name active) (name t) else repointReplica active (name t)) in
  match e with
  | Some PeerHeld => setSourceConvergence t (Some repl) sourceConvergencePending sourceReasonRestoreHold (host active) ;;* pret None
  | Some e =>
      pcall ExitGate ;;*
      setSourceConvergence t (Some repl) (fst (converge_reason e)) (snd (converge_reason e)) (host active) ;;* pret None
  | None =>
      let^ verified := verifyDirectReplica (name t) (host active) in
      pcall ExitGate ;;*
      match verified with
      | None => setSourceConvergence t (Some repl) sourceConvergencePending sourceReasonMutationFailed (host active) ;;* pret None
      | Some r => setSourceConvergence t (Some r) sourceConvergenceConverged sourceReasonDirectSource (host active) ;;* pret (Some r)
      end
  end.

(** What a pass knows: the sites it handled, whether it stands down. *)
Record pass : Type := { handled : list string; suppressed : bool }.

(** The follower has a source: convergence handles it. *)
Definition has_source (repl : option ReplicaStatus) : bool :=
  match repl with Some r => negb (bool_decide (TrimSpace (SourceHost r) = "")) | None => false end.

(** One follower; its status afterwards and the pass. *)
Definition converge_site (active t : siteTracker) (repl : option ReplicaStatus) (c : pass) : poll (option ReplicaStatus * pass) :=
  match repl with
  | None => pret (repl, c)
  | Some r =>
      if bool_decide (name t = name active) || negb (bool_decide (tstate t = StateReadOnly)) || negb (has_source repl) then pret (repl, c)
      else
        let c := {| handled := name t :: handled c; suppressed := suppressed c |} in
        let direct := bool_decide (canonical (SourceHost r) = canonical (host active)) in
        if direct && IORunning r && SQLRunning r
        then setSourceConvergence t repl sourceConvergenceConverged sourceReasonDirectSource (host active) ;;* pret (repl, c)
        else
          let^ held := restorePeerHeldSite (name t) in
          if held : bool then setSourceConvergence t repl sourceConvergencePending sourceReasonRestoreHold (host active) ;;* pret (repl, c)
          else if suppressed c
          then setSourceConvergence t repl sourceConvergencePending sourceReasonSourceMismatch (host active) ;;* pret (repl, c)
          else
            let^ admitted := beginFollowerMutation in
            if negb admitted
            then setSourceConvergence t repl sourceConvergencePending sourceReasonSourceMismatch (host active) ;;*
                 pret (repl, {| handled := handled c; suppressed := true |})
            else
              let^ verified := converge_admitted active t r direct in
              pret (match verified with Some v => Some v | None => repl end, c)
  end.

Fixpoint converge_sites (active : siteTracker) (l : list siteTracker) (repls : list (option ReplicaStatus)) (c : pass)
  : poll (list (option ReplicaStatus) * pass) :=
  match l, repls with
  | t :: l, repl :: repls =>
      let^ r := converge_site active t repl c in
      let^ rest := converge_sites active l repls (snd r) in
      pret (fst r :: fst rest, snd rest)
  | _, _ => pret (repls, c)
  end.

(** The handled sites, and the statuses afterwards. *)
Definition checkSourceConvergence (repls : list (option ReplicaStatus)) : poll (list string * list (option ReplicaStatus)) :=
  let^ active := confirmedActivePrimary in
  match active with
  | None => pret ([], repls)
  | Some active =>
      let^ suppressed := sourceConvergenceSuppressed in
      let^ p := sget id in
      let^ r := converge_sites active (trackers p) repls {| handled := []; suppressed := suppressed |} in
      pret (handled (snd r), fst r)
  end.

(** ** The divergence audit *)

Definition divergenceDetectedByAudit : string := "ReplicaAudit".
Definition recoveryRetryDelay : Z := 30 * Second.
Definition gtidAuditInterval : Z := recoveryRetryDelay.

Definition gtidAuditSuppressedLocked (s : Shared) : bool := autoBootstrapSuppressed s || followerMutationSuppressedLocked (plannedSlot s) (tmgr s).

Definition stampGTIDAuditLocked (site : string) (now : Z) (f : Followers) : Followers :=
  f <| gtidAudit := <[site := now + gtidAuditInterval]> (gtidAudit f) |>.

Definition stampGTIDAudit (site : string) : poll unit :=
  let^ s := locked in let^ now := pcall Now in pcall (Unlock (on_followers (stampGTIDAuditLocked site now) s)).

(** A follower's channel on the active host reports its source's server UUID; a new one
    makes every follower due. *)
Definition note_source_uuid (activeHost : string) (f : Followers) (x : siteTracker * option ReplicaStatus) : Followers :=
  match snd x with
  | Some r =>
      if bool_decide (SourceUUID r = "") || negb (bool_decide (canonical (SourceHost r) = activeHost)) then f
      else
        let prev := default "" (gtidAuditSourceUUID f !! name (fst x)) in
        let f := if negb (bool_decide (prev = "")) && negb (bool_decide (prev = SourceUUID r))
                 then f <| gtidAudit := ∅ |> <| gtidAuditPrimaryUUID := "" |> else f in
        f <| gtidAuditSourceUUID := <[name (fst x) := SourceUUID r]> (gtidAuditSourceUUID f) |>
  | None => f
  end.

Definition audit_due (active : string) (skip : list string) (f : Followers) (now : Z) (x : siteTracker * option ReplicaStatus) : bool :=
  let t := fst x in
  negb (bool_decide (name t = active)) && bool_decide (tstate t = StateReadOnly) && negb (probeFailed t)
  && negb (bool_decide (name t ∈ skip)) && has_source (snd x)
  && match gtidAudit f !! name t with Some next => negb (now <? next) | None => true end.

(** The section's fields: a new primary, or a completed authority change, restarts the
    schedule. *)
Definition audit_schedule (active : siteTracker) (xs : list (siteTracker * option ReplicaStatus)) (s : Shared) : Followers :=
  let f := followers s in
  let f := if negb (bool_decide (gtidAuditPrimary f = name active)) || negb (gtidAuditAuthority f =? authorityChanges s)
           then f <| gtidAudit := ∅ |> <| gtidAuditPrimary := name active |> <| gtidAuditPrimaryUUID := "" |> <| gtidAuditAuthority := authorityChanges s |>
           else f in
  fold_left (note_source_uuid (canonical (host active))) xs f.

(** The four reads of [auditFollower]; [Err true]: a read of the primary failed. *)
Definition audit_reads (active follower : string) : poll (res bool ((string * string) * (string * string) * (string * string) * (string * string))) :=
  let^ p1 := pcall (ReadGTIDSnapshot active) in
  match p1 : option (string * string) with
  | None => pret (Err true)
  | Some p1 =>
      let^ f1 := pcall (ReadGTIDSnapshot follower) in
      match f1 : option (string * string) with
      | None => pret (Err false)
      | Some f1 =>
          let^ p2 := pcall (ReadGTIDSnapshot active) in
          match p2 : option (string * string) with
          | None => pret (Err true)
          | Some p2 =>
              let^ f2 := pcall (ReadGTIDSnapshot follower) in
              pret match f2 : option (string * string) with
                   | None => Err false
                   | Some f2 => Ok (p1, f1, p2, f2)
                   end
          end
      end
  end.

(** The report of an audit that found [extra]. *)
Definition audit_report (active : string) (extra : GTIDSet) (rec : option siteRecovery) : siteRecovery :=
  let blocked := match rec with Some r => bool_decide (recovery_state r = recoveryStateBlocked) | None => false end in
  let r := default {| recovery_state := ""; retryAfter := 0; divergentGtid := ""; divergentCount := 0; detectedBy := ""; comparedTo := "";
                      drainStartedAt := 0; drainComplete := false |} rec in
  let by_ := if blocked && negb (bool_decide (detectedBy r = divergenceDetectedByAudit)) then detectedBy r else divergenceDetectedByAudit in
  r <| recovery_state := recoveryStateBlocked |> <| divergentGtid := GTIDSet_String extra |> <| divergentCount := TransactionCount extra |>
    <| detectedBy := by_ |> <| comparedTo := active |>.

(** The fields after an audit of [follower]; the block stays unless nothing is extra. *)
Definition audit_publish (active follower uuid : string) (extra : GTIDSet) (now : Z) (s : Shared) : Shared :=
  let s := if bool_decide (uuid = "") then s
           else on_followers (fun f =>
                  let f := if negb (bool_decide (gtidAuditPrimaryUUID f = "")) && negb (bool_decide (gtidAuditPrimaryUUID f = uuid))
                           then f <| gtidAudit := ∅ |> else f in
                  f <| gtidAuditPrimaryUUID := uuid |>) s in
  let s := on_followers (stampGTIDAuditLocked follower now) s in
  if IsEmpty extra
  then if is_divergent s follower then s <| recovery := delete follower (recovery s) |> else s
  else s <| recovery := <[follower := audit_report active extra (recovery s !! follower)]> (recovery s) |>.

(** Whether a read of the primary failed. *)
Definition auditFollower (epoch : Z) (active follower : string) : poll bool :=
  let^ r := audit_reads active follower in
  match r with
  | Err primary => stampGTIDAudit follower ;;* pret primary
  | Ok ((puuid1, _), (fuuid1, fraw), (puuid2, praw), (fuuid2, _)) =>
      if negb (bool_decide (puuid1 = puuid2)) || negb (bool_decide (fuuid1 = fuuid2)) then pret false
      else match ParseGTIDSet fraw with
           | Err _ => stampGTIDAudit follower ;;* pret false
           | Ok fset =>
               match ParseGTIDSet praw with
               | Err _ => stampGTIDAudit follower ;;* pret true
               | Ok pset =>
                   let extra := Subtract fset pset in
                   let^ s := locked in
                   if negb (authorityEpoch (tmgr s) =? epoch) || negb (bool_decide (active_site s = active)) || gtidAuditSuppressedLocked s
                   then pret false
                   else let^ now := pcall Now in pcall (Unlock (audit_publish active follower puuid2 extra now s)) ;;* pret false
               end
           end
  end.

(** The due followers, one by one; the pass is abandoned when the primary cannot be read or
    its budget is spent. *)
Fixpoint audit_pass (epoch : Z) (active : string) (due : list string) : poll unit :=
  match due with
  | [] => pret tt
  | n :: due =>
      let^ primaryFailed := auditFollower epoch active n in
      let^ stop := (if primaryFailed : bool then pret true else pcall ContextExpired) in
      if stop : bool then each stampGTIDAudit due else audit_pass epoch active due
  end.

Definition auditFollowerDivergence (repls : list (option ReplicaStatus)) (skip : list string) : poll unit :=
  let^ p := sget id in
  let^ s := locked in
  match find_site (trackers p) (active_site s) with
  | None => pret tt
  | Some active =>
      if gtidAuditSuppressedLocked s || bool_decide (active_site s = "") then pret tt
      else
        let xs := zip (trackers p) repls in
        let f := audit_schedule active xs s in
        let^ now := pcall Now in
        pcall (Unlock (s <| followers := f |>)) ;;*
        let due := map (fun x => name (fst x)) (List.filter (audit_due (name active) skip f now) xs) in
        if negb (nonempty due) then pret tt
        else
          let^ confirmed := confirmedActivePrimary in
          match confirmed with
          | None => each stampGTIDAudit due
          | Some c => if bool_decide (name c = name active) then audit_pass (authorityEpoch (tmgr s)) (name active) due else each stampGTIDAudit due
          end
  end.

End lower.

End PollFollow.
