(* ===== verification/PollRecover.v ===== *)
(** * The topology manager's poll: old primaries and reclones

    [internal/controller/topology.go]: a returning old primary is fenced, drained, compared
    and pointed at the new one ([recovery.go], [follower_mutation.go]), recovery markers
    are cleared, and a requested reclone is started. The entries of [tm.recovery] are
    pointers: a write through one is a write of the site's entry, unless another goroutine
    removed it meanwhile. Sites have distinct names. *)
From S2P Require Import Prelude GoStd Intervals GtidSet SiteState Effects GoTime Failover FailoverRecord ClaimSlot Claims PollData PollSteps PollBootstrap PollFollow.

Local Open Scope Z_scope.

#[local] Arguments prog_bind {Op Ans A B} _ _ : simpl never.

Module PollRecover.

Import GTID Matrix FailoverRecords ClaimSlot Claims Poll PollOps PollBoot PollFollow.

Definition recoveryStateInProgress : string := "RecoveryInProgress".
Definition divergenceDetectedByRecovery : string := "OldPrimaryRecovery".
Definition defaultConnectionDrainTimeout : Z := 30 * Second.

(** [&siteRecovery{}]. *)
Definition no_recovery : siteRecovery :=
  {| recovery_state := ""; retryAfter := 0; divergentGtid := ""; divergentCount := 0; detectedBy := ""; comparedTo := "";
     drainStartedAt := 0; drainComplete := false |}.

(** ** Sections on a site's entry *)

Definition put_recovery (n : string) (r : siteRecovery) (s : Shared) : Shared := s <| recovery := <[n := r]> (recovery s) |>.

(** A write through the site's entry, if it has one. *)
Definition alter_recovery (f : siteRecovery -> siteRecovery) (n : string) (s : Shared) : Shared := s <| recovery := alter f n (recovery s) |>.

Definition drop_recovery (n : string) : poll unit := update (fun s => s <| recovery := delete n (recovery s) |>).

Definition completeSiteAppConnectionDrain (n : string) : poll unit := update (alter_recovery (fun r => r <| drainComplete := true |>) n).

(** The entry, or a new one. *)
Definition entry (s : Shared) (n : string) : siteRecovery := default no_recovery (recovery s !! n).

Definition stampRecoveryBackoff (n : string) : poll unit :=
  let^ s := locked in
  let^ now := pcall Now in
  pcall (Unlock (put_recovery n (entry s n <| retryAfter := now + recoveryRetryDelay |>) s)).

Definition pauseRecoveryDrains : poll unit :=
  update (fun s => s <| recovery := (fun r => if drainComplete r then r else r <| drainStartedAt := 0 |>) <$> recovery s |>).

Definition noteRecoveryDeferred (deferred : bool) : poll unit := update (on_followers (fun f => f <| recoveryDeferred := deferred |>)).

(** A recovery stands down for a handoff. *)
Definition defer_recovery : poll unit := pauseRecoveryDrains ;;* noteRecoveryDeferred true.

Section config.

Context (cfg : TopologyConfig).

(** ** The connection drain *)

Definition drain_timeout : Z := if ConnectionDrainTimeout cfg <=? 0 then defaultConnectionDrainTimeout else ConnectionDrainTimeout cfg.

(** One eviction pass before the deadline. *)
Definition drain_pass (site : string) (deadline : Z) : poll bool :=
  let^ killed := pcall (KillAppConnections site) in
  if bool_decide (killed = Some 0) then completeSiteAppConnectionDrain site ;;* pret true
  else
    let^ now := pcall Now in
    if negb (now <? deadline) then completeSiteAppConnectionDrain site ;;* pret true else pret false.

Definition advanceSiteAppConnectionDrain (site : string) : poll bool :=
  let^ now := pcall Now in
  let^ s := locked in
  let r := entry s site in
  if drainComplete r then pret true
  else
    let r := if drainStartedAt r =? 0 then r <| drainStartedAt := now |> else r in
    pcall (Unlock (put_recovery site r s)) ;;*
    let deadline := drainStartedAt r + drain_timeout in
    if time_sub deadline now <=? 0 then completeSiteAppConnectionDrain site ;;* pret true
    else drain_pass site deadline.

(** ** Clearing recovery markers *)

Definition replicaStatusHealthy (repl : option ReplicaStatus) : bool :=
  match repl with
  | Some r => IORunning r && SQLRunning r && negb (bool_decide (SourceHost r = ""))
  | None => false
  end.

(** The block of a promoted site becomes a note; the entry is read when it is written. *)
Definition note_promotion (n : string) (r : siteRecovery) (s : Shared) : Shared :=
  let r := default r (recovery s !! n) in
  on_followers (fun f => f <| pendingDivergentPromotion :=
    Some {| note_site := n; note_gtid := divergentGtid r; note_count := divergentCount r; note_comparedTo := comparedTo r |} |>) s.

(** A marked site that is writable: whether its marker was cleared. *)
Definition clear_writable (n : string) (recorded : bool) (r : siteRecovery) : poll bool :=
  if bool_decide (recovery_state r = recoveryStateBlocked) then
    let^ active := confirmedActivePrimary in
    if negb recorded || match active with Some a => negb (bool_decide (name a = n)) | None => true end
    then update (alter_recovery (fun r => r <| drainStartedAt := 0 |> <| drainComplete := false |>) n) ;;* pret false
    else update (note_promotion n r) ;;* drop_recovery n ;;* pret true
  else drop_recovery n ;;* pret true.

(** Whether the follower's sessions are drained; [r] is the entry found first. *)
Definition follower_drained (n : string) (r : siteRecovery) : poll bool :=
  let^ s := locked in
  if drainComplete (default r (recovery s !! n)) then pret true
  else
    let^ admitted := beginFollowerMutation in
    if negb admitted then defer_recovery ;;* pret false
    else let^ done_ := advanceSiteAppConnectionDrain n in pcall ExitGate ;;* pret done_.

(** A marked site that is read-only. *)
Definition clear_follower (n : string) (repl : option ReplicaStatus) (s : Shared) (r : siteRecovery) : poll bool :=
  if bool_decide (recovery_state r = recoveryStateBlocked) || negb (replicaStatusHealthy repl) then pret false
  else if negb (bool_decide ((sourceConvergenceState <$> sources (followers s) !! n) = Some sourceConvergenceConverged)) then pret false
  else
    let^ drained := follower_drained n r in
    if drained : bool then drop_recovery n ;;* pret true else pret false.

Definition clear_site (t : siteTracker) (repl : option ReplicaStatus) : poll bool :=
  let^ s := locked in
  match recovery s !! name t with
  | None => pret false
  | Some r =>
      if bool_decide (recovery_state r = "") then pret false
      else if bool_decide (tstate t = StateWritable)
      then clear_writable (name t) (bool_decide (name t = lastFailoverTarget (authority_of s))) r
      else if bool_decide (tstate t = StateReadOnly) then clear_follower (name t) repl s r
      else pret false
  end.

Fixpoint clear_sites (l : list (siteTracker * option ReplicaStatus)) : poll bool :=
  match l with
  | [] => pret false
  | (t, repl) :: l =>
      let^ c := clear_site t repl in
      let^ rest := clear_sites l in
      pret (c || rest)
  end.

Definition clearHealthyRecoverySites (repls : list (option ReplicaStatus)) : poll bool :=
  let^ p := sget id in clear_sites (zip (trackers p) repls).

(** ** Recovering an old primary *)

(** Whether the site is one a clone fills rather than an old primary. *)
Definition recovery_empty (old new : string) (raw : string) : poll bool :=
  match ParseGTIDSet raw with
  | Err _ => pret false
  | Ok g =>
      if IsEmpty g then pret true
      else
        let^ shares := sharesHistory g new in
        if shares : bool then pret false
        else
          let^ hs := pcall (HasUserSchemas old) in
          pret match hs : option (option bool) with
               | Some (Some b) => negb b
               | _ => false
               end
  end.

(** [initiateRecovery]'s results: (changed, acted, rewrite). *)
Definition outcome : Type := bool * bool * bool.

(** A failed attempt: the site is probed again after a delay. *)
Definition back_off (n : string) (acted : bool) : poll outcome := stampRecoveryBackoff n ;;* pret (false, acted, false).

(** The section that records a recovery without divergence. *)
Definition record_in_progress (n : string) : poll unit :=
  let^ s := locked in
  let^ now := pcall Now in
  pcall (Unlock (put_recovery n (entry s n <| recovery_state := recoveryStateInProgress |> <| retryAfter := now + recoveryRetryDelay |>
                                           <| divergentGtid := "" |> <| divergentCount := 0 |> <| detectedBy := "" |> <| comparedTo := "" |>) s)).

Definition record_blocked (n new : string) (extra : GTIDSet) : poll unit :=
  let^ s := locked in
  let^ now := pcall Now in
  pcall (Unlock (put_recovery n (entry s n <| recovery_state := recoveryStateBlocked |> <| retryAfter := now + recoveryRetryDelay |>
                                           <| divergentGtid := GTIDSet_String extra |> <| divergentCount := TransactionCount extra |>
                                           <| detectedBy := divergenceDetectedByRecovery |> <| comparedTo := new |>) s)).

(** The sets are compared. *)
Definition judge_recovery (old new : string) (oldGtid newGtid : GTIDSet) : poll outcome :=
  if IsEmpty oldGtid then back_off old false
  else if Contains newGtid oldGtid then
    let^ held := restorePeerHeldSite old in
    if held : bool then pret (false, false, false) else record_in_progress old ;;* pret (true, true, true)
  else
    let extra := Subtract oldGtid newGtid in
    let^ s := locked in
    let prev := recovery s !! old in
    let same := bool_decide (recovery_state <$> prev = Some recoveryStateBlocked) && bool_decide (divergentGtid <$> prev = Some (GTIDSet_String extra)) in
    record_blocked old new extra ;;* pret (negb same, true, false).

(** Both sets are read, then parsed, the old primary's first. *)
Definition compare_recovery (old new : string) : poll outcome :=
  let^ oldRaw := pcall (GetGtidExecuted old) in
  match oldRaw : option string with
  | None => back_off old true
  | Some oldRaw =>
      let^ newRaw := pcall (GetGtidExecuted new) in
      match newRaw : option string with
      | None => back_off old true
      | Some newRaw =>
          match ParseGTIDSet oldRaw, ParseGTIDSet newRaw with
          | Ok oldGtid, Ok newGtid => judge_recovery old new oldGtid newGtid
          | _, _ => back_off old true
          end
      end
  end.

(** The defensive fence, unless a drain already follows one; whether it holds. *)
Definition fence_old (old : string) : poll bool :=
  let^ s := locked in
  let r := entry s old in
  if negb (drainStartedAt r =? 0) || drainComplete r then pret true else pcall (SetSuperReadOnly old true).

Definition initiateRecovery (old new : string) : poll outcome :=
  let^ pre := pcall (GetGtidExecuted old) in
  match pre : option string with
  | None => back_off old false
  | Some pre =>
      let^ empty := recovery_empty old new pre in
      if empty : bool then pret (false, false, false)
      else
        let^ fenced := fence_old old in
        if negb fenced then back_off old true
        else
          let^ drained := advanceSiteAppConnectionDrain old in
          if negb drained then pret (false, true, false) else compare_recovery old new
  end.

(** [RecoverOldPrimary]: its statements, up to the first that fails. *)
Definition RecoverOldPrimary (old newHost : string) : poll (option converge_error) :=
  let^ ok := pcall (SetSuperReadOnly old true) in
  if negb ok then pret (Some StatementFailed)
  else
    let^ ok := pcall (StopReplica old) in
    if negb ok then pret (Some StatementFailed)
    else
      let^ ok := pcall (ResetReplicaAll old) in
      if negb ok then pret (Some StatementFailed)
      else
        let^ ok := pcall (ChangeReplicationSource old newHost) in
        if negb ok then pret (Some StatementFailed)
        else let^ ok := pcall (StartReplica old) in pret (if ok : bool then None else Some StatementFailed).

Definition executeRecovery (old newHost : string) : poll unit := withReplicaStartGate old (RecoverOldPrimary old newHost) ;;* pret tt.

(** The rewrite gives way to a handoff. *)
Definition rewrite_deferred (old : string) : poll unit := update (alter_recovery (fun r => r <| retryAfter := 0 |>) old) ;;* defer_recovery.

Definition rewriteOldPrimary (old newHost : string) (decidedEpoch : Z) : poll unit :=
  let^ admitted := beginFollowerMutation in
  if negb admitted then rewrite_deferred old
  else
    let^ s := locked in
    if authorityEpoch (tmgr s) =? decidedEpoch then executeRecovery old newHost ;;* pcall ExitGate
    else pcall ExitGate ;;* rewrite_deferred old.

(** An admitted attempt on one site: (changed, acted). *)
Definition attempt_recovery (active : siteTracker) (old : string) : poll (bool * bool) :=
  let^ s := locked in
  let^ r := initiateRecovery old (name active) in
  pcall ExitGate ;;*
  let '(changed, acted, rewrite) := r in
  (if rewrite : bool then pcall PersistStatus ;;* rewriteOldPrimary old (host active) (authorityEpoch (tmgr s)) else pret tt) ;;*
  pret (changed, acted).

(** The retry delay of the site's last attempt is not over. *)
Definition recovery_delayed (n : string) : poll bool :=
  let^ s := locked in
  let after := retryAfter (entry s n) in
  if after =? 0 then pret false else let^ now := pcall Now in pret (now <? after).

(** Whether the site, read-only without a healthy channel, is to be recovered now. *)
Definition recovery_due (t : siteTracker) (repl : option ReplicaStatus) (handled : list string) : poll bool :=
  if bool_decide (name t ∈ handled) || negb (bool_decide (tstate t = StateReadOnly)) then pret false
  else
    let^ held := restorePeerHeldSite (name t) in
    if held || replicaStatusHealthy repl then pret false
    else let^ delayed := recovery_delayed (name t) in pret (negb delayed).

Fixpoint recovery_scan (active : siteTracker) (l : list (siteTracker * option ReplicaStatus)) (handled : list string) : poll bool :=
  match l with
  | [] => pret false
  | (t, repl) :: l =>
      if bool_decide (name t = name active) then recovery_scan active l handled
      else
        let^ due := recovery_due t repl handled in
        if negb due then recovery_scan active l handled
        else
          let^ admitted := beginFollowerMutation in
          if negb admitted then defer_recovery ;;* pret false
          else
            let^ r := attempt_recovery active (name t) in
            if snd r : bool then pret (fst r) else recovery_scan active l handled
  end.

Definition checkRecoveryWithConvergence (repls : list (option ReplicaStatus)) (handled : list string) : poll bool :=
  let^ b := or_else isBootstrapping isTopologyFrozen in
  if b : bool then pret false
  else
    let^ cleared := clearHealthyRecoverySites repls in
    if cleared : bool then pret true
    else if negb (repl_user_set cfg) then pret false
    else
      let^ suppressed := followerMutationSuppressed in
      if suppressed : bool then defer_recovery ;;* pret false
      else
        noteRecoveryDeferred false ;;*
        let^ active := confirmedActivePrimary in
        match active with
        | None => pret false
        | Some active => let^ p := sget id in recovery_scan active (zip (trackers p) repls) handled
        end.

(** ** Reclones *)

Definition clear_hold_release (site : string) : poll unit :=
  update (on_followers (fun f => if bool_decide (cloneHoldReleaseSite f = site) then f <| cloneHoldReleaseSite := "" |> else f)).

Definition releaseCloneHold : poll unit :=
  let^ s := locked in
  let site := cloneHoldReleaseSite (followers s) in
  if bool_decide (site = "") then pret tt
  else
    let^ busy := isBootstrapping in
    let^ running := (if busy : bool then let^ s := locked in pret (bool_decide (bootstrapRecipient (tmgr s) = site)) else pret false) in
    if running : bool then pret tt
    else if negb (keyring_wired cfg) then clear_hold_release site
    else
      let^ ok := pcall (NotifyCloneComplete site) in
      if ok : bool then clear_hold_release site else pret tt.

(** The pending request is dropped. *)
Definition drop_reclone : poll unit := update (on_followers (fun f => f <| reclonePendingSite := "" |>)).

(** A completed reclone's callback. *)
Definition complete_reclone (site owner : string) : poll unit :=
  if negb (reclone_wired cfg) then pret tt
  else
    let^ ok := pcall (RecloneComplete site owner) in
    if negb ok then pret tt
    else update (on_followers (fun f => if bool_decide (recloneCompletedSite f = site)
                                        then f <| recloneCompletedSite := "" |> <| recloneCompletedOwner := "" |> else f)).

(** A request past its guards: whether a clone was started. *)
Definition start_reclone (site : string) : poll bool :=
  let^ p := sget id in
  match getSite p site with
  | None => drop_reclone ;;* pret false
  | Some recipient =>
      let^ donor := confirmedActivePrimary in
      match donor with
      | None => pret false
      | Some donor =>
          if bool_decide (name donor = name recipient) then drop_reclone ;;* pret false
          else startBootstrapByName cfg (name donor) (name recipient) "reclone"
      end
  end.

Definition restoreRecloneBlockedSite (site : string) : poll bool := let^ s := locked in pret (mem site (restoreRecloneBlocked (tmgr s))).

Definition checkReclone : poll bool :=
  let^ s := locked in
  let f := followers s in
  if negb (bool_decide (recloneCompletedSite f = "")) then complete_reclone (recloneCompletedSite f) (recloneCompletedOwner f) ;;* pret false
  else if bool_decide (reclonePendingSite f = "") then pret false
  else
    let site := reclonePendingSite f in
    let^ busy := or_else isBootstrapping isTopologyFrozen in
    if busy : bool then pret false
    else
      let^ blocked := restoreRecloneBlockedSite site in
      if blocked : bool then
        update (on_followers (fun f => if bool_decide (reclonePendingSite f = site)
                                       then f <| reclonePendingSite := "" |> <| reclonePendingOwner := "" |> else f)) ;;* pret false
      else if negb (bootstrap_wired cfg) then drop_reclone ;;* pret false
      else start_reclone site.

End config.

End PollRecover.
