(* ===== verification/PollCycle.v ===== *)
(** * The topology manager's poll: one cycle

    [internal/controller/topology.go]'s [poll]: probe, classify, fence, decide, act. Sites
    are probed in parallel; the order of the probes in a run does not matter, since each
    answer is unconstrained. Status writes, broadcasts and metrics are left out. *)
From S2P Require Import Prelude GoStd Intervals GtidSet SiteState Effects GoTime Failover FailoverRecord ClaimSlot Claims PollData PollSteps PollBootstrap PollAct PollFollow PollRecover.

Local Open Scope Z_scope.

#[local] Arguments prog_bind {Op Ans A B} _ _ : simpl never.

Module PollCycle.

Import GTID Matrix FailoverRecords ClaimSlot Claims Poll PollOps PollBoot PollAct PollFollow PollRecover.

Section config.

Context (cfg : TopologyConfig).

(** Unicode's lower-case mapping, as in [PollFollow]. *)
Context (unicode_lower : string -> string).

(** ** Debounce and probe backoff *)

(** The counters afterwards and the debounced state; [ro] is [None] on a failed probe. *)
Definition computeState (t : siteTracker) (ro : option bool) : siteTracker * SiteState :=
  match ro with
  | None =>
      let t := t <| recoveryCount := 0 |> <| failCount := failCount t + 1 |> in
      (t, if failCount t >=? FailureThreshold cfg then StateUnreachable else tstate t)
  | Some true => (t <| failCount := 0 |> <| recoveryCount := 0 |>, StateReadOnly)
  | Some false =>
      let t := t <| failCount := 0 |> in
      if bool_decide (tstate t = StateWritable) then (t, StateWritable)
      else
        let t := t <| recoveryCount := recoveryCount t + 1 |> in
        (t, if recoveryCount t >=? RecoveryThreshold cfg then StateWritable else tstate t)
  end.

Definition siteProbeInterval (base fails : Z) : Z :=
  let backoffFails := fails - FailureThreshold cfg in
  if backoffFails <=? 0 then base
  else
    let interval := wrap64 (base * Z.shiftl 1 (Z.min backoffFails maxPollBackoffExponent)) in
    if interval >? 30 * Second then 30 * Second else interval.

Definition scheduleNextProbe (t : siteTracker) (now base : Z) : siteTracker :=
  let interval := siteProbeInterval base (failCount t) in
  t <| nextProbe := if interval <=? base then 0 else now + (interval - Z.quot base 2) |>.

(** A probe's answer; [Deferred]: the site is in probe backoff. *)
Inductive pollResult : Type := Deferred | Probed (ro : option bool).

Definition probe_due (backoff : bool) (probeStart : Z) (t : siteTracker) : bool :=
  negb (backoff && negb (nextProbe t =? 0) && (probeStart <? nextProbe t)).

Fixpoint probe_sites (backoff : bool) (probeStart : Z) (l : list siteTracker) : poll (list pollResult) :=
  match l with
  | [] => pret []
  | t :: l =>
      let^ r := (if probe_due backoff probeStart t then let^ ro := pcall (CheckReadOnly (name t)) in pret (Probed ro) else pret Deferred) in
      let^ rest := probe_sites backoff probeStart l in
      pret (r :: rest)
  end.

(** The counters after the probe, and the new state. *)
Definition judge (probeStart base : Z) (t : siteTracker) (r : pollResult) : siteTracker * SiteState :=
  match r with
  | Deferred => (t, tstate t)
  | Probed ro =>
      let '(t, st) := computeState t ro in
      (scheduleNextProbe t probeStart base,
       if bool_decide (ro = Some false) && negb (isPromotable t) then StateWritable else st)
  end.

(** The locked update of one tracker. *)
Definition settle (now : Z) (t : siteTracker) (r : pollResult) (new : SiteState) : siteTracker :=
  let t := match r with Deferred => t | Probed _ => t <| probes := probes t + 1 |> end in
  let t := match r with Probed (Some ro) => t <| lastSeen := now |> <| lastAnswerWritable := negb ro |> | _ => t end in
  let t := t <| probeFailed := match r with Probed (Some _) => false | _ => true end |> in
  if bool_decide (new = tstate t) then t
  else
    let t := t <| tstate := new |> in
    if bool_decide (new = StateReadOnly) then t else t <| replicating := false |> <| replicatingStreak := 0 |>.

(** What a poll decided of one site: its tracker before and after its probe's counters, its
    result and its new state. *)
Record judged : Type := { before : siteTracker; result : pollResult; counted : siteTracker; new : SiteState }.

Definition judge_all (probeStart base : Z) (l : list siteTracker) (rs : list pollResult) : list judged :=
  zip_with (fun t r => let '(c, st) := judge probeStart base t r in {| before := t; result := r; counted := c; new := st |}) l rs.

Definition settled_tracker (now : Z) (j : judged) : siteTracker := settle now (counted j) (result j) (new j).

Definition transitioned (j : judged) : bool := negb (bool_decide (new j = tstate (before j))).

Definition lapsed (now : Z) (j : judged) : bool :=
  negb (classificationOverdueLocked cfg (before j)) && classificationOverdueLocked cfg (settled_tracker now j).

Definition taint_transition (j : judged) : poll unit :=
  if transitioned j then applyPerSiteAction (before j) (EvalPerSiteTransition (tstate (before j)) (new j)) else pret tt.

(** ** Observation *)

(** Probe and classify: [None] when a promotion finished meanwhile and the observations
    were dropped. *)
Definition observe_sites (backoff : bool) (epoch : Z) : poll (option (bool * bool)) :=
  let^ probeStart := pcall Now in
  let^ p := sget id in
  let^ rs := probe_sites backoff probeStart (trackers p) in
  let^ now := pcall Now in
  let js := judge_all probeStart (PollInterval cfg) (trackers p) rs in
  smodify (fun p => p <| trackers := map counted js |>) ;;*
  let^ s := locked in
  if negb (authorityEpoch (tmgr s) =? epoch) then pret None
  else
    let s := if deploymentChanging (tmgr s) =? 0 then on_tm (fun m => m <| deploymentAwaitingObservation := false |>) s else s in
    smodify (fun p => p <| trackers := map (settled_tracker now) js |>) ;;*
    (let^ p := sget id in pcall (Unlock (adopt p s))) ;;*
    each taint_transition js ;;*
    pret (Some (existsb transitioned js, existsb (lapsed now) js)).

(** The pending promotion is confirmed, superseded or expired; [false]: the epoch moved. *)
Definition confirm_pending (epoch : Z) : poll bool :=
  let^ s := locked in
  if negb (authorityEpoch (tmgr s) =? epoch) then pret false
  else
    let^ s := reconcilePendingPromotionLocked s in
    let active := active_site s in
    let s := if negb (bool_decide (active = "")) && negb (bool_decide (active = lastActiveSite (authority_of s)))
             then on_tm (fun m => m <| authority := authority m <| lastActiveSite := active |> <| lastActiveSiteNamed := false |> |>) s
             else s in
    pcall (Unlock s) ;;* pret true.

(** ** Decision *)

Definition decide_and_act (anyTransition classificationLapsed : bool) : poll unit :=
  let^ blockedSetChanged := peekKeyringRotationBlockedDirty in
  let^ retryDeferred := crossSiteRetryReady in
  let^ obs := observations cfg in
  let action := EvalCrossSite obs (SitePriorities cfg) in
  (if anyTransition || blockedSetChanged || retryDeferred || classificationLapsed
   then clearCrossSiteRetry ;;* applyCrossSiteAction cfg action
   else pret tt) ;;*
  if anyTransition then pret tt
  else fenceReturningOldPrimary cfg action ;;* retryFreshDeployBootstrap cfg action.

(** ** Replication health *)

Definition replicatingStreakThreshold : Z := 2.

Definition replication_lost (t : siteTracker) : siteTracker := t <| replicating := false |> <| replicatingStreak := 0 |>.

Definition note_replication (rs : option ReplicaStatus) (t : siteTracker) : siteTracker :=
  if replicaStatusHealthy rs then
    let t := t <| replicatingStreak := replicatingStreak t + 1 |> in
    if replicatingStreak t >=? replicatingStreakThreshold then t <| replicating := true |> else t
  else replication_lost t.

Definition has_executed (rs : option ReplicaStatus) : bool :=
  match rs with Some r => negb (bool_decide (TrimSpace (ExecutedGtidSet r) = "")) | None => false end.

Definition markSourceProbeFailed (t : siteTracker) : poll unit :=
  update (on_followers (fun f => f <| sources := <[name t := {| sourceHost := default "" (sourceHost <$> sources f !! name t);
                                                               sourceConvergenceState := sourceConvergencePending;
                                                               sourceConvergenceReason := sourceReasonProbeFailed; servingHealthy := false |}]> (sources f) |>)).

(** A site's replication check: its tracker, its status, whether it could not be read. *)
Record checked : Type := { tracker : siteTracker; status : option ReplicaStatus; unread : bool }.

Definition check_replica (t : siteTracker) : poll checked :=
  if negb (bool_decide (tstate t = StateReadOnly)) then pret {| tracker := t; status := None; unread := false |}
  else if probeFailed t then pret {| tracker := t; status := None; unread := true |}
  else
    let^ rs := pcall (ShowReplicaStatus (name t)) in
    match rs : option (option ReplicaStatus) with
    | None => markSourceProbeFailed t ;;* pret {| tracker := replication_lost t; status := None; unread := true |}
    | Some rs =>
        (if has_executed rs then update (on_tm (fun m => m <| authority := authority m <| groupHasData := true |> |>)) else pret tt) ;;*
        pret {| tracker := note_replication rs t; status := rs; unread := false |}
    end.

Fixpoint check_replicas (l : list siteTracker) : poll (list checked) :=
  match l with
  | [] => pret []
  | t :: l => let^ c := check_replica t in let^ l := check_replicas l in pret (c :: l)
  end.

(** The statuses, and the names of the sites that could not be read. *)
Definition check_replication : poll (list (option ReplicaStatus) * list string) :=
  let^ p := sget id in
  let^ l := check_replicas (trackers p) in
  smodify (fun p => p <| trackers := map tracker l |>) ;;*
  pret (map status l, map (fun c => name (tracker c)) (List.filter unread l)).

(** Followers: convergence, the audit, old primaries. *)
Definition check_followers (repls : list (option ReplicaStatus)) (unread : list string) : poll unit :=
  let^ conv := checkSourceConvergence cfg unicode_lower repls in
  auditFollowerDivergence unicode_lower (snd conv) unread ;;*
  checkRecoveryWithConvergence cfg (snd conv) (unread ++ fst conv) ;;* pret tt.

(** ** Auto-clone *)

(** [tm.isBootstrapping() || tm.isTopologyFrozen()] and the suppression fields. *)
Definition auto_clone (recloneStarted : bool) : poll unit :=
  if recloneStarted then pret tt
  else
    let^ busy := or_else isBootstrapping isTopologyFrozen in
    if busy || negb (bootstrap_wired cfg) then pret tt
    else
      let^ s := locked in
      if autoBootstrapSuppressed s || negb (bootstrapIdlePhase (bootstrapPhase (tmgr s))) then pret tt
      else
        let^ found := detectEmptySite in
        if negb (bool_decide (fst found = "")) && negb (bool_decide (snd found = ""))
        then startBootstrapByName cfg (fst found) (snd found) "auto-clone" ;;* pret tt
        else pret tt.

(** ** The cycle *)

(** From the decision on. *)
Definition act_cycle (anyTransition classificationLapsed : bool) : poll unit :=
  decide_and_act anyTransition classificationLapsed ;;*
  pcall ReassertRestoreGuards ;;*
  update (on_tm (fun m => m <| ready := true |>)) ;;*
  let^ repl := check_replication in
  check_followers (fst repl) (snd repl) ;;*
  checkPrimaryReassert cfg ;;*
  reconcileDNS cfg ;;*
  releaseCloneHold cfg ;;*
  let^ recloneStarted := checkReclone cfg in
  pcall CheckUpdate ;;*
  auto_clone recloneStarted ;;*
  flushFailoverState cfg false.

Definition poll_cycle (backoff : bool) : poll unit :=
  let^ s := locked in
  let epoch := authorityEpoch (tmgr s) in
  let^ observed := observe_sites backoff epoch in
  match observed with
  | None => pret tt
  | Some (anyTransition, classificationLapsed) =>
      fenceWritableNonPromotableSites ;;*
      let^ ok := confirm_pending epoch in
      if ok then act_cycle anyTransition classificationLapsed else pret tt
  end.

End config.

End PollCycle.
