(* ===== verification/PollSafety.v ===== *)
(** * The topology manager's poll: what it proves before it changes a site

    Vocabulary over the calls of one poll, and the conditions under which its steps clear
    [super_read_only] or [read_only], start a replica or point it at a source. *)
From S2P Require Import Prelude GoStd Intervals GtidSet SiteState Effects GoTime Failover FailoverRecord ClaimSlot Claims Protocol PollData PollSteps PollBootstrap PollAct PollFollow PollRecover PollCycle.

Local Open Scope Z_scope.

#[local] Arguments prog_bind {Op Ans A B} _ _ : simpl never.

Import GTID Matrix FailoverRecords ClaimSlot Claims Poll PollOps PollBoot PollAct PollFollow PollRecover PollCycle.

(** ** Vocabulary *)

Definition saw (h : list (event ans)) (o : op) (x : ans o) : Prop := ev o x ∈ h.

(** The site the call opens to writes. *)
Definition clears (o : op) : option string :=
  match o with
  | SetSuperReadOnly n false | SetReadOnly n false => Some n
  | _ => None
  end.

(** The site whose replication the call starts or repoints. *)
Definition starts (o : op) : option string :=
  match o with
  | StartReplica n | ChangeReplicationSource n _ => Some n
  | _ => None
  end.

Definition quiet (o : op) : bool := bool_decide (clears o = None) && bool_decide (starts o = None).

(** Calls of the follower-mutation gate, and of the start gate. *)
Definition mutation_gate (o : op) : bool := match o with EnterGate | ExitGate => true | _ => false end.
Definition start_gate (o : op) : bool := match o with StartGate | EndGate => true | _ => false end.

Definition without (f : op -> bool) (t : list (event ans)) : Prop := Forall (fun e => f (projT1 e) = false) t.

(** The site's executed set was read as [g]. *)
Definition gtid_read (h : list (event ans)) (n : string) (g : GTIDSet) : Prop :=
  exists raw, saw h (GetGtidExecuted n) (Some raw) /\ ParseGTIDSet raw = Ok g.

Definition stores (o : op) : bool := match o with Unlock _ => true | _ => false end.

Section evidence.

Context (cfg : TopologyConfig) (l : list siteTracker).

(** A section under [tm.mu] found the fields as [s], the sites being those of the poll. *)
Definition read (h : list (event ans)) (s : Shared) : Prop := exists s0, saw h Lock s0 /\ s = with_sites l s0.

(** The latest section that wrote the fields claimed an automatic promotion of [n]. *)
Definition claim_granted (h : list (event ans)) (n : string) : Prop := exists t1 s0 m t2,
  h = t1 ++ [ev (Ans := ans) PredecessorMutating false; ev (Ans := ans) Lock s0; ev (Ans := ans) (Unlock (with_sites l s0 <| tmgr := m |>)) tt] ++ t2
  /\ beginAutoPromotionOf (plannedSlot s0) (tmgr (with_sites l s0)) n = (m, (true, false))
  /\ Forall (fun e => stores (projT1 e) = false) t2.

(** What the matrix answers for the fields [s]. *)
Definition matrix_on (s : Shared) : CrossSiteAction := EvalCrossSite (map (observe cfg (tmgr s)) l) (SitePriorities cfg).

(** The set read from [n] was neither wiped nor behind the last recorded promotion. *)
Definition data_kept (h : list (event ans)) (n : string) : Prop := exists s g, read h s /\ gtid_read h n g
  /\ promotionDataRegression g (promotionGtidExecuted (authority_of s)) (groupHasData (authority_of s)) = false.

(** The matrix proposed [n], whose data is kept, or split the brain in favour of [n] by the
    configured priorities, no failover being recorded and every writable loser being sent
    its fence. *)
Definition decided (h : list (event ans)) (n : string) : Prop := exists s, read h s
  /\ ((n ∈ PromotionCandidates (matrix_on s) /\ data_kept h n)
      \/ (SplitBrain (matrix_on s) = true /\ (exists s', read h s' /\ lastFailoverTarget (authority_of s') = "")
          /\ exists losers, ResolveSplitBrain (map observation (List.filter (fun t => bool_decide (tstate t = StateWritable)) l)) (SitePriorities cfg) = (n, losers)
             /\ forall m t, m ∈ losers -> find_site l m = Some t -> tstate t = StateWritable -> exists ok, saw h (SetSuperReadOnly (name t) true) ok)).

(** No promotion was pending and the cooldown was over. *)
Definition steady (h : list (event ans)) : Prop := exists s, read h s /\ promotedSite (tmgr s) = ""
  /\ (lastFailover (authority_of s) = 0
      \/ exists now, saw h Now now /\ failoverCooldown cfg <= time_sub now (lastFailover (authority_of s))).

(** An unfinished restore allows only its seed. *)
Definition restore_allows (h : list (event ans)) (n : string) : Prop := exists s, read h s
  /\ (autoBootstrapSuppressed s = true -> initRestoreSeed s = "" \/ initRestoreSeed s = n).

Definition failover_evidence (h : list (event ans)) (n : string) : Prop :=
  decided h n /\ steady h /\ restore_allows h n /\ (exists t, find_site l n = Some t /\ isPromotable t = true) /\ claim_granted h n.

(** The site answered that it has no replication metadata and holds no data. *)
Definition seen_fresh (h : list (event ans)) (n : string) : Prop :=
  saw h (ShowReplicaStatus n) (Some None)
  /\ exists g, gtid_read h n g
     /\ (saw h (HasUserSchemas n) (Some (Some false)) \/ (IsEmpty g = true /\ exists x, saw h (HasUserSchemas n) x /\ forall b, x <> Some (Some b))).

(** Every site is settled and fresh, none is recorded as a failover target, and every site
    but the seed [n] was fenced and read back read-only. *)
Definition seed_evidence (h : list (event ans)) (n : string) : Prop :=
  selectSeedSite cfg l = n
  /\ (exists t, find_site l n = Some t /\ isPromotable t = true)
  /\ (exists s, read h s /\ lastFailoverTarget (authority_of s) = "")
  /\ (exists s, read h s /\ bootstrapIdlePhase (bootstrapPhase (tmgr s)) = true)
  /\ forall t, t ∈ l -> settled t = true /\ seen_fresh h (name t)
     /\ (name t <> n -> saw h (SetSuperReadOnly (name t) true) true /\ saw h (CheckReadOnly (name t)) (Some true)).

(** A reader whose clone is running. *)
Definition cloning (h : list (event ans)) (n : string) : Prop :=
  (exists s, read h s /\ bootstrapIdlePhase (bootstrapPhase (tmgr s)) = false)
  /\ (exists s, read h s /\ bootstrapRecipient (tmgr s) = n)
  /\ exists t, find_site l n = Some t /\ role t = SiteRoleReadOnly.

(** The peer was observed read-only, answered so now, and holds nothing that [g] lacks
    (its recorded divergence aside), unless it is the fresh peer of a restore's seed. *)
Definition peer_settled (h : list (event ans)) (auth : reassert_authority) (g : GTIDSet) (t : siteTracker) : Prop :=
  tstate t = StateReadOnly /\ saw h (CheckReadOnly (name t)) (Some true)
  /\ exists g' s, gtid_read h (name t) g' /\ read h s
     /\ (Contains g (undisputed s (name t) g') = true
         \/ (auth = RestoreSeed /\ saw h (ShowReplicaStatus (name t)) (Some None) /\ saw h (HasUserSchemas (name t)) (Some (Some false)))).

(** The fields name [n] as the primary, no promotion is pending, [n] is an observed
    read-only candidate whose set holds the last promotion's, every peer is settled, and
    the claim was granted. A site that was only observed as primary has no fence. *)
Definition reassert_evidence (h : list (event ans)) (n : string) : Prop := exists s auth g t skip,
  read h s /\ reassert_target s = (n, auth) /\ promotedSite (tmgr s) = ""
  /\ last_site l n = Some t /\ tstate t = StateReadOnly /\ isPromotable t = true
  /\ (auth = Observed -> saw h (CheckSuperReadOnly n) (Some (Some false)))
  /\ gtid_read h n g
  /\ (promotionGtidExecuted (authority_of s) <> "" -> exists want, ParseGTIDSet (promotionGtidExecuted (authority_of s)) = Ok want /\ Contains g want = true)
  /\ (skip <> "" -> cloning h skip)
  /\ (forall t', t' ∈ l -> name t' <> n -> name t' <> skip -> peer_settled h auth g t')
  /\ claim_granted h n.

(** Why a poll may open [n] to writes after the calls [h]. *)
Definition writable_evidence (h : list (event ans)) (n : string) : Prop :=
  failover_evidence h n \/ seed_evidence h n \/ reassert_evidence h n.

(** A follower mutation is admitted: the gate was entered, not left since, and no handoff
    owned the sites then. *)
Definition admitted (h : list (event ans)) : Prop := exists t1 s0 t2,
  h = t1 ++ [ev (Ans := ans) PredecessorMutating false; ev (Ans := ans) EnterGate true; ev (Ans := ans) Lock s0] ++ t2
  /\ followerMutationSuppressedLocked (plannedSlot (with_sites l s0)) (tmgr (with_sites l s0)) = false
  /\ without mutation_gate t2.

(** The start gate is held since, and no restore held the site stopped then. *)
Definition gated (h : list (event ans)) (n : string) : Prop := exists t1 s0 t2,
  h = t1 ++ [ev (Ans := ans) StartGate tt; ev (Ans := ans) Lock s0] ++ t2
  /\ mem n (restorePeerHeld (tmgr (with_sites l s0))) = false /\ without start_gate t2.

(** [a] is the one site observed writable that may be primary, and answered so now. *)
Definition confirmed_primary (h : list (event ans)) (a : siteTracker) : Prop :=
  (exists s, read h s /\ active_site s = name a) /\ find_site l (name a) = Some a
  /\ isPromotable a = true /\ host a <> "" /\ probeFailed a = false /\ saw h (CheckReadOnly (name a)) (Some false).

(** The set read of [a] contains the set read of [n]. *)
Definition contained (h : list (event ans)) (a n : string) : Prop := exists ga gn, gtid_read h a ga /\ gtid_read h n gn /\ Contains ga gn = true.

(** [n] is another observed read-only site, and holds nothing the confirmed primary at
    [hst] lacks: read once its channel was stopped, or of an old primary that is fenced. *)
Definition repoint_evidence (h : list (event ans)) (n hst : string) : Prop := exists a t,
  confirmed_primary h a /\ hst = host a /\ t ∈ l /\ name t = n /\ n <> name a /\ tstate t = StateReadOnly
  /\ ((exists t1 t2, h = t1 ++ t2 /\ saw t1 (StopReplica n) true /\ contained t2 (name a) n)
      \/ (contained h (name a) n /\ saw h (SetSuperReadOnly n true) true)).

(** Why a poll may start or repoint the replica [n]. *)
Definition follower_evidence (h : list (event ans)) (n : string) (o : op) : Prop :=
  admitted h /\ gated h n /\ forall hst, o = ChangeReplicationSource n hst -> repoint_evidence h n hst.

Definition opens (h : list (event ans)) (o : op) : Prop :=
  (forall n, clears o = Some n -> writable_evidence h n) /\ (forall n, starts o = Some n -> follower_evidence h n o).

(** ** Evidence stays *)

Lemma saw_l h t o x : saw h o x -> saw (h ++ t) o x.
Proof. intros H. apply elem_of_app. by left. Qed.

Lemma saw_r h t o x : saw t o x -> saw (h ++ t) o x.
Proof. intros H. apply elem_of_app. by right. Qed.

Lemma saw_last h o x : saw (h ++ [ev o x]) o x.
Proof. apply saw_r. left. Qed.

Lemma read_l h t s : read h s -> read (h ++ t) s.
Proof. intros (s0 & H & ->). exists s0. split; [by apply saw_l|done]. Qed.

Lemma read_r h t s : read t s -> read (h ++ t) s.
Proof. intros (s0 & H & ->). exists s0. split; [by apply saw_r|done]. Qed.

Lemma gtid_read_l h t n g : gtid_read h n g -> gtid_read (h ++ t) n g.
Proof. intros (raw & H & E). exists raw. split; [by apply saw_l|done]. Qed.

Lemma gtid_read_r h t n g : gtid_read t n g -> gtid_read (h ++ t) n g.
Proof. intros (raw & H & E). exists raw. split; [by apply saw_r|done]. Qed.

Lemma data_kept_l h t n : data_kept h n -> data_kept (h ++ t) n.
Proof. intros (s & g & Hs & Hg & H). exists s, g. split; [by apply read_l|]. split; [by apply gtid_read_l|done]. Qed.

Lemma decided_l h t n : decided h n -> decided (h ++ t) n.
Proof.
  intros (s & Hr & Hd). exists s. split; [by apply read_l|]. destruct Hd as [[Hd Hk]|(Hs & (s' & Hr' & E) & losers & Hl & Hf)]; [left; split; [done|by apply data_kept_l]|]. right.
  split; [done|]. split; [exists s'; split; [by apply read_l|done]|]. exists losers. split; [done|]. intros m x Hm Hx Hw.
  destruct (Hf m x Hm Hx Hw) as [ok Hok]. exists ok. by apply saw_l.
Qed.

Lemma steady_l h t : steady h -> steady (h ++ t).
Proof.
  intros (s & Hr & Hp & Hc). exists s. split; [by apply read_l|]. split; [done|]. destruct Hc as [|(now & Hn & Hc)]; [by left|]. right.
  exists now. split; [by apply saw_l|done].
Qed.

Lemma restore_allows_l h t n : restore_allows h n -> restore_allows (h ++ t) n.
Proof. intros (s & Hr & H). exists s. split; [by apply read_l|done]. Qed.

Lemma cloning_l h t n : cloning h n -> cloning (h ++ t) n.
Proof.
  intros ((s & Hs & E) & (s' & Hs' & E') & H). split; [exists s; split; [by apply read_l|done]|].
  split; [exists s'; split; [by apply read_l|done]|done].
Qed.

Lemma peer_settled_l h t auth g x : peer_settled h auth g x -> peer_settled (h ++ t) auth g x.
Proof.
  intros (Hx & Hr & g' & s & Hg & Hs & H). split; [done|]. split; [by apply saw_l|]. exists g', s.
  split; [by apply gtid_read_l|]. split; [by apply read_l|]. destruct H as [|(-> & H1 & H2)]; [by left|]. right.
  split; [done|]. split; by apply saw_l.
Qed.

Lemma seen_fresh_l h t n : seen_fresh h n -> seen_fresh (h ++ t) n.
Proof.
  intros (H & g & Hg & Hd). split; [by apply saw_l|]. exists g. split; [by apply gtid_read_l|].
  destruct Hd as [|(He & x & Hx & Hn)]; [left; by apply saw_l|]. right. split; [done|]. exists x. split; [by apply saw_l|done].
Qed.

(** The claim stands until a section writes the fields. *)
Lemma claim_stays h t n : claim_granted h n -> Forall (fun e => stores (projT1 e) = false) t -> claim_granted (h ++ t) n.
Proof.
  intros (t1 & s0 & m & t2 & -> & Hb & Ht2) Ht. exists t1, s0, m, (t2 ++ t). split; [by rewrite <- !(assoc_L (++))|].
  split; [done|]. by apply Forall_app.
Qed.

(** ** Steps without clears *)

#[local] Abbreviation gw := (scwp (opens)).

Lemma quiet_opens h o : quiet o = true -> opens h o.
Proof using. unfold quiet, opens. intros [H1%bool_decide_eq_true H2%bool_decide_eq_true]%andb_true_iff. by rewrite H1, H2. Qed.

Lemma opens_clear h o n : clears o = Some n -> starts o = None -> writable_evidence h n -> opens h o.
Proof using. unfold opens. intros -> -> H. split; [by intros m [= <-]|done]. Qed.

Lemma opens_start h o n : clears o = None -> starts o = Some n -> follower_evidence h n o -> opens h o.
Proof using. unfold opens. intros -> -> H. split; [done|by intros m [= <-]]. Qed.

Lemma gw_silent {A} (m : poll A) h p (Q : list (event ans) -> A -> poller -> Prop) : sfrees quiet m ->
  (forall t a p', runs (m p) t (a, p') -> Q (h ++ t) a p') -> gw m h p Q.
Proof using. intros Hm HQ. eapply (scwp_runs _ quiet); [intros; by apply quiet_opens|exact Hm|exact HQ]. Qed.

Lemma gw_locked h p (Q : list (event ans) -> Shared -> poller -> Prop) : (forall s0, Q (h ++ [ev (Ans := ans) Lock s0]) (adopt p s0) p) -> gw locked h p Q.
Proof using. intros HQ. apply scwp_bind. apply (scwp_call _ Lock); [by apply quiet_opens|]. intros x. apply scwp_get, HQ. Qed.

End evidence.

(** ** Programs that keep the sites *)

Definition same_sites (p p' : poller) : Prop := trackers p' = trackers p.

#[export] Instance same_sites_preorder : PreOrder same_sites.
Proof. split; [done|]. unfold same_sites. intros p1 p2 p3 H1 H2. congruence. Qed.

Abbreviation still m := (preserves same_sites m).

(** ** Steps that clear nothing and keep the sites *)

Section quiet.

Context (cfg : TopologyConfig).

(** Both at once. *)
Definition calm {A} (m : poll A) : Prop := sfrees quiet m /\ still m.

Lemma calm_ret {A} (a : A) : calm (pret a).
Proof. split; [apply sfrees_ret|apply preserves_ret, _]. Qed.

Lemma calm_bind {A B} (m : poll A) (k : A -> poll B) : calm m -> (forall a, calm (k a)) -> calm (sbind m k).
Proof. intros [H1 H2] Hk. split; [apply sfrees_bind|apply preserves_bind; [apply _|..]]; try done; intros a; apply Hk. Qed.

Lemma calm_call o : quiet o = true -> calm (pcall o).
Proof. intros Ho. split; [by apply sfrees_call|apply preserves_call, _]. Qed.

Lemma calm_get {A} (f : poller -> A) : calm (sget f).
Proof. split; [apply sfrees_get|apply preserves_get, _]. Qed.

Lemma calm_modify (f : poller -> poller) : (forall p, trackers (f p) = trackers p) -> calm (smodify f).
Proof. intros Hf. split; [apply sfrees_modify|apply preserves_modify]. exact Hf. Qed.

Lemma calm_each {A} (f : A -> poll unit) l : (forall x, calm (f x)) -> calm (each f l).
Proof. intros Hf. induction l as [|x l IH]; [apply calm_ret|]. apply calm_bind; [apply Hf|done]. Qed.

Lemma calm_or a b : calm a -> calm b -> calm (or_else a b).
Proof. intros Ha Hb. apply calm_bind; [done|]. intros []; [apply calm_ret|done]. Qed.

End quiet.

Create HintDb calm discriminated.

(** [calm] by the program's structure. *)
Ltac solve_calm :=
  repeat match goal with
  | |- calm (sret _) => apply calm_ret
  | |- calm (scall ?o) => exact (calm_call o eq_refl)
  | |- calm (sget _) => apply calm_get
  | |- calm (smodify _) => apply calm_modify; intros ?; reflexivity
  | |- calm (sbind _ _) => apply calm_bind; [|intros ?]
  | |- calm (each _ _) => apply calm_each; intros ?
  | |- calm (or_else _ _) => apply calm_or
  | |- calm (match ?x with _ => _ end) => destruct x
  | |- calm _ => progress cbn zeta
  | |- calm _ => solve [auto with calm]
  end.

Section quiet_steps.

Context (cfg : TopologyConfig) (unicode_lower : string -> string).

Lemma calm_locked : calm locked.
Proof. unfold locked. solve_calm. Qed.

#[local] Hint Resolve calm_locked : calm.

Lemma calm_update f : calm (update f).
Proof. unfold update. solve_calm. Qed.

#[local] Hint Resolve calm_update : calm.

Lemma calm_arm b : calm (armCrossSiteRetryAfter b).
Proof. apply calm_update. Qed.

Lemma calm_blocks : calm bootstrapBlocksCrossSite.
Proof. unfold bootstrapBlocksCrossSite, isBootstrapping. solve_calm. Qed.

Lemma calm_updating : calm isUpdating.
Proof. unfold isUpdating. solve_calm. Qed.

#[local] Hint Resolve calm_arm calm_blocks calm_updating : calm.

Lemma calm_guarded : calm crossSiteGuarded.
Proof. unfold crossSiteGuarded, isTopologyFrozen, plannedClaimHeld. solve_calm. Qed.

#[local] Hint Resolve calm_guarded : calm.

Lemma calm_ready : calm crossSiteRetryReady.
Proof. unfold crossSiteRetryReady. solve_calm. Qed.

Lemma calm_begin n : calm (beginAutoPromotion n).
Proof. unfold beginAutoPromotion. solve_calm. Qed.

Lemma calm_confirm n : calm (confirmWritable n).
Proof. unfold confirmWritable. solve_calm. Qed.

#[local] Hint Resolve calm_begin calm_confirm : calm.

Lemma calm_active : calm confirmedActivePrimary.
Proof. unfold confirmedActivePrimary. solve_calm. Qed.

Lemma calm_action t a : calm (applyPerSiteAction t a).
Proof. unfold applyPerSiteAction. solve_calm. Qed.

Lemma calm_fence t : calm (fence_site t).
Proof. unfold fence_site. solve_calm. Qed.

#[local] Hint Resolve calm_active calm_action calm_fence : calm.

Lemma calm_anomalies : calm fenceWritableNonPromotableSites.
Proof. unfold fenceWritableNonPromotableSites. solve_calm. Qed.

Lemma calm_others keep : calm (fenceSitesExcept keep).
Proof. unfold fenceSitesExcept. solve_calm. Qed.

Lemma calm_observations : calm (observations cfg).
Proof. unfold observations. solve_calm. Qed.

Lemma calm_writable : calm writableObservations.
Proof. unfold writableObservations. solve_calm. Qed.

Lemma calm_previous n : calm (previousPrimary n).
Proof. unfold previousPrimary. solve_calm. Qed.

Lemma calm_read_gtid n : calm (read_gtid n).
Proof. unfold read_gtid. solve_calm. Qed.

#[local] Hint Resolve calm_read_gtid : calm.

Lemma calm_query l : calm (query_candidates l).
Proof. induction l as [|n l IH]; simpl; unfold query_candidate; solve_calm. Qed.

#[local] Hint Resolve calm_query : calm.

Lemma calm_pick l : calm (pickFreshestCandidate l).
Proof. unfold pickFreshestCandidate. solve_calm. Qed.

Lemma calm_flush w : calm (flushFailoverState cfg w).
Proof. unfold flushFailoverState. solve_calm. Qed.

#[local] Hint Resolve calm_flush : calm.

Lemma calm_record now n g : calm (recordFailover cfg now n g).
Proof. unfold recordFailover. solve_calm. Qed.

Lemma calm_withhold : calm withholdDNSForRestore.
Proof. unfold withholdDNSForRestore. solve_calm. Qed.

#[local] Hint Resolve calm_withhold : calm.

Lemma calm_dns target : calm (applyDNS cfg target).
Proof. unfold applyDNS. solve_calm. Qed.

#[local] Hint Resolve calm_dns : calm.

Lemma calm_fresh_pending s : calm (pendingPromotionFreshLocked s).
Proof. unfold pendingPromotionFreshLocked. solve_calm. Qed.

#[local] Hint Resolve calm_fresh_pending : calm.

Lemma calm_reconcile_dns : calm (reconcileDNS cfg).
Proof.
  unfold reconcileDNS, plannedClaimHeld, desiredDNSSiteLocked, reconcile_target, reconcile_live, dns_repair, dns_converged. solve_calm.
Qed.

Lemma calm_fresh_site t : calm (fresh_site t).
Proof. unfold fresh_site. solve_calm. Qed.

#[local] Hint Resolve calm_fresh_site : calm.

Lemma calm_all_fresh l : calm (all_fresh l).
Proof. induction l as [|t l IH]; simpl; solve_calm. Qed.

#[local] Hint Resolve calm_all_fresh : calm.

Lemma calm_fresh_deploy : calm isFreshDeploy.
Proof. unfold isFreshDeploy. solve_calm. Qed.

Lemma calm_empty_candidate a t : calm (empty_candidate a t).
Proof. unfold empty_candidate, probe_empty, sharesHistory. solve_calm. Qed.

#[local] Hint Resolve calm_empty_candidate : calm.

Lemma calm_empty_search a l : calm (empty_search a l).
Proof. induction l as [|t l IH]; simpl; solve_calm. Qed.

Lemma calm_pairs acc l : calm (writable_pairs acc l).
Proof. revert acc. induction l as [|t l IH]; intros acc; simpl; unfold writable_pair; solve_calm. Qed.

Lemma calm_fence_confirmed n : calm (fence_confirmed n).
Proof. unfold fence_confirmed. solve_calm. Qed.

#[local] Hint Resolve calm_empty_search calm_pairs calm_fence_confirmed : calm.

Lemma calm_detect : calm detectEmptySite.
Proof. unfold detectEmptySite, detectAndFenceEmptyWritableSite. solve_calm. Qed.

Lemma calm_non_seeds l : calm (fence_non_seeds l).
Proof. induction l as [|t l IH]; simpl; solve_calm. Qed.

Lemma calm_publish n : calm (publish_seed n).
Proof. unfold publish_seed. solve_calm. Qed.

Lemma calm_claim_bootstrap r s : calm (claim_bootstrap r s).
Proof. unfold claim_bootstrap. solve_calm. Qed.

#[local] Hint Resolve calm_claim_bootstrap : calm.

Lemma calm_start d r s : calm (startBootstrapByName cfg d r s).
Proof. unfold startBootstrapByName, admitted_bootstrap, bootstrap_failed. solve_calm. Qed.

Lemma calm_refuse a : calm (refuse_promotion a).
Proof.
  unfold refuse_promotion, restoreReclonePendingCandidates, recordRestoreReclonePromotionRefused, rotationBlockedCandidates,
    recordKeyringPromotionDecision, clearKeyringRotationBlockedDirty. solve_calm.
Qed.

Lemma calm_note : calm note_fence_retry.
Proof. unfold note_fence_retry. solve_calm. Qed.

Lemma calm_loser n : calm (fence_loser n).
Proof. unfold fence_loser. solve_calm. Qed.

#[local] Hint Resolve calm_fresh_deploy calm_writable calm_note calm_others : calm.

Lemma calm_returning a : calm (fenceReturningOldPrimary cfg a).
Proof. unfold fenceReturningOldPrimary, retry_by_policy. solve_calm. Qed.

Lemma calm_auto b : calm (auto_clone cfg b).
Proof. pose proof calm_detect. pose proof calm_start. unfold auto_clone, isBootstrapping, isTopologyFrozen. solve_calm. Qed.

Lemma calm_replicas l : calm (check_replicas l).
Proof. induction l as [|t l IH]; simpl; unfold check_replica, markSourceProbeFailed; solve_calm. Qed.

Lemma calm_reconcile_pending s : calm (reconcilePendingPromotionLocked s).
Proof. unfold reconcilePendingPromotionLocked. solve_calm. Qed.

#[local] Hint Resolve calm_reconcile_pending : calm.

Lemma calm_pending e : calm (confirm_pending e).
Proof. unfold confirm_pending. solve_calm. Qed.

Lemma calm_probes b s l : calm (probe_sites b s l).
Proof. induction l as [|t l IH]; simpl; solve_calm. Qed.

(** Followers: all but the statements on their channels. *)

Lemma calm_begin_follower : calm beginFollowerMutation.
Proof. unfold beginFollowerMutation, followerMutationSuppressed. solve_calm. Qed.

Lemma calm_held n : calm (restorePeerHeldSite n).
Proof. unfold restorePeerHeldSite. solve_calm. Qed.

Lemma calm_ensure a n : calm (ensureGTIDContained a n).
Proof. unfold ensureGTIDContained. solve_calm. Qed.

Lemma calm_converge_state t r c w e : calm (setSourceConvergence cfg unicode_lower t r c w e).
Proof. apply calm_update. Qed.

Lemma calm_verify k n e : calm (verify_direct unicode_lower k n e).
Proof. induction k as [|k IH]; simpl; solve_calm. Qed.

Lemma calm_suppressed : calm sourceConvergenceSuppressed.
Proof. unfold sourceConvergenceSuppressed. solve_calm. Qed.

#[local] Hint Resolve calm_begin_follower calm_held : calm.

Lemma calm_stamp_audit n : calm (stampGTIDAudit n).
Proof. unfold stampGTIDAudit. solve_calm. Qed.

#[local] Hint Resolve calm_stamp_audit : calm.

Lemma calm_audit_follower e a n : calm (auditFollower e a n).
Proof. unfold auditFollower, audit_reads. solve_calm. Qed.

#[local] Hint Resolve calm_audit_follower : calm.

Lemma calm_audit_pass e a l : calm (audit_pass e a l).
Proof. induction l as [|n l IH]; simpl; solve_calm. Qed.

#[local] Hint Resolve calm_audit_pass : calm.

Lemma calm_audit r u : calm (auditFollowerDivergence unicode_lower r u).
Proof. unfold auditFollowerDivergence. solve_calm. Qed.

Lemma calm_stamp n : calm (stampRecoveryBackoff n).
Proof. unfold stampRecoveryBackoff. solve_calm. Qed.

Lemma calm_complete n : calm (completeSiteAppConnectionDrain n).
Proof. apply calm_update. Qed.

Lemma calm_defer : calm defer_recovery.
Proof. unfold defer_recovery, pauseRecoveryDrains, noteRecoveryDeferred. solve_calm. Qed.

Lemma calm_drop n : calm (drop_recovery n).
Proof. apply calm_update. Qed.

#[local] Hint Resolve calm_stamp calm_complete calm_defer calm_drop : calm.

Lemma calm_drain n : calm (advanceSiteAppConnectionDrain cfg n).
Proof. unfold advanceSiteAppConnectionDrain, drain_pass. solve_calm. Qed.

#[local] Hint Resolve calm_drain : calm.

Lemma calm_clear_site t r : calm (clear_site cfg t r).
Proof. unfold clear_site, clear_writable, clear_follower, follower_drained. solve_calm. Qed.

#[local] Hint Resolve calm_clear_site : calm.

Lemma calm_clear_sites l : calm (clear_sites cfg l).
Proof. induction l as [|[t r] l IH]; simpl; solve_calm. Qed.

#[local] Hint Resolve calm_clear_sites : calm.

Lemma calm_clear r : calm (clearHealthyRecoverySites cfg r).
Proof. unfold clearHealthyRecoverySites. solve_calm. Qed.

Lemma calm_shares g n : calm (sharesHistory g n).
Proof. unfold sharesHistory. solve_calm. Qed.

#[local] Hint Resolve calm_shares : calm.

Lemma calm_initiate old new : calm (initiateRecovery cfg old new).
Proof.
  unfold initiateRecovery, recovery_empty, fence_old, compare_recovery, judge_recovery, record_blocked, record_in_progress, back_off. solve_calm.
Qed.

Lemma calm_rewrite_deferred n : calm (rewrite_deferred n).
Proof. unfold rewrite_deferred. solve_calm. Qed.

Lemma calm_due t r h : calm (recovery_due t r h).
Proof. unfold recovery_due, recovery_delayed. solve_calm. Qed.

#[local] Hint Resolve calm_start : calm.

Lemma calm_release : calm (releaseCloneHold cfg).
Proof. unfold releaseCloneHold, clear_hold_release, isBootstrapping. solve_calm. Qed.

Lemma calm_reclone : calm (checkReclone cfg).
Proof. unfold checkReclone, complete_reclone, start_reclone, drop_reclone, restoreRecloneBlockedSite, isBootstrapping, isTopologyFrozen. solve_calm. Qed.

End quiet_steps.

#[export] Hint Resolve calm_locked calm_update calm_arm calm_blocks calm_updating calm_guarded calm_ready calm_begin calm_confirm calm_active calm_action
  calm_fence calm_anomalies calm_others calm_observations calm_writable calm_previous calm_pick calm_flush calm_record calm_withhold calm_dns
  calm_reconcile_dns calm_read_gtid calm_fresh_site calm_all_fresh calm_fresh_deploy calm_detect calm_fence_confirmed calm_non_seeds calm_publish calm_start
  calm_refuse calm_note calm_loser calm_returning calm_auto calm_replicas calm_reconcile_pending calm_pending calm_probes
  calm_begin_follower calm_held calm_ensure calm_converge_state calm_verify calm_suppressed calm_audit calm_defer calm_clear calm_initiate calm_rewrite_deferred
  calm_due calm_release calm_reclone : calm.

(** A calm step in a proof about the calls. *)
Lemma gw_calm cfg l {A} (m : poll A) h p (Q : list (event ans) -> A -> poller -> Prop) : calm m -> trackers p = l ->
  (forall t a p', runs (m p) t (a, p') -> trackers p' = l -> Q (h ++ t) a p') -> scwp (opens cfg l) m h p Q.
Proof.
  intros [Hf Hs] Hp HQ. apply gw_silent; [done|]. intros t a p' H. apply HQ; [done|]. specialize (Hs _ _ _ _ H). unfold same_sites in Hs. congruence.
Qed.
