(* ===== verification/PollProofs.v ===== *)
(** * The topology manager's poll: its steps hold their evidence

    For each step that clears [super_read_only] or [read_only]: every such call is made
    with its evidence among the calls before it. *)
From S2P Require Import Prelude GoStd Intervals GtidSet SiteState Effects GoTime Failover FailoverRecord ClaimSlot Claims Protocol PollData PollSteps PollBootstrap PollAct PollFollow PollRecover PollCycle PollSafety.

Local Open Scope Z_scope.

#[local] Arguments prog_bind {Op Ans A B} _ _ : simpl never.

Import GTID Matrix FailoverRecords ClaimSlot Claims Poll PollOps PollBoot PollAct PollFollow PollRecover PollCycle.

#[local] Hint Resolve saw_l saw_r saw_last read_l read_r gtid_read_l gtid_read_r : core.

(** ** What the probes return *)

Lemma locked_runs p t s p' : runs (locked p) t (s, p') -> exists s0, t = [ev (Ans := ans) Lock s0] /\ s = adopt p s0 /\ p' = p.
Proof. unfold locked. intros H. srun H. srun H. by eexists. Qed.

Lemma locked_read p t s p' : runs (locked p) t (s, p') -> read (trackers p) t s /\ p' = p.
Proof. intros (s0 & -> & -> & ->)%locked_runs. split; [|done]. exists s0. split; [left|done]. Qed.

Lemma confirm_writable_runs n p t b p' : runs (confirmWritable n p) t (b, p') -> exists ro, t = [ev (Ans := ans) (CheckReadOnly n) ro] /\ b = bool_decide (ro = Some false) /\ p' = p.
Proof. unfold confirmWritable. intros H. srun H. srun H. by eexists. Qed.

Lemma read_gtid_runs n p t g p' : runs (read_gtid n p) t (Some g, p') -> gtid_read t n g /\ p' = p.
Proof.
  unfold read_gtid. intros H. srun H. apply sret_runs in H as (-> & E & ->). destruct a as [raw|]; [|done].
  destruct (ParseGTIDSet raw) as [g'|] eqn:Ep; [|done]. injection E as ->. split; [|done]. exists raw. split; [left|done].
Qed.

Lemma fence_confirmed_runs n p t p' : runs (fence_confirmed n p) t (true, p') ->
  saw t (SetSuperReadOnly n true) true /\ saw t (CheckReadOnly n) (Some true) /\ p' = p.
Proof.
  unfold fence_confirmed. intros H. srun H. destruct a; cbn [negb] in H; [|by srun_all]. srun H. apply sret_runs in H as (-> & E & ->).
  symmetry in E. apply bool_decide_eq_true in E as ->. split; [left|]. split; [|done]. right. left.
Qed.

Lemma fence_non_seeds_runs l p t p' : runs (fence_non_seeds l p) t (true, p') ->
  p' = p /\ forall x, x ∈ l -> saw t (SetSuperReadOnly (name x) true) true /\ saw t (CheckReadOnly (name x)) (Some true).
Proof.
  revert p t. induction l as [|y l IH]; intros p t H; simpl in H.
  - srun H. split; [done|]. by intros x Hx%not_elem_of_nil.
  - srun H. destruct a; [|by srun_all]. match goal with H1 : runs (fence_confirmed _ _) _ _ |- _ => apply fence_confirmed_runs in H1 as (H1 & H2 & ->) end.
    apply IH in H as [-> H]. split; [done|]. intros x [->|Hx]%elem_of_cons; [auto|]. destruct (H x Hx). auto.
Qed.

Lemma fresh_site_runs x p t p' : runs (fresh_site x p) t (true, p') -> seen_fresh t (name x) /\ p' = p.
Proof.
  unfold fresh_site. intros H. srun H. destruct a as [[rs|]|]; [by srun_all| |by srun_all]. srun H. destruct a as [g|]; [|by srun_all].
  match goal with H1 : runs (read_gtid _ _) _ _ |- _ => apply read_gtid_runs in H1 as [Hg ->] end. srun H. apply sret_runs in H as (-> & E & ->).
  split; [|done]. split; [left|]. exists g. split; [by apply (gtid_read_r [_]), gtid_read_l|]. destruct a as [[b|]|].
  - left. destruct b; [done|]. apply (saw_r [_]), saw_r. left.
  - right. split; [done|]. exists (Some None). split; [|done]. apply (saw_r [_]), saw_r. left.
  - right. split; [done|]. exists None. split; [|done]. apply (saw_r [_]), saw_r. left.
Qed.

Lemma all_fresh_runs l p t p' : runs (all_fresh l p) t (true, p') -> p' = p /\ forall x, x ∈ l -> seen_fresh t (name x).
Proof.
  revert p t. induction l as [|y l IH]; intros p t H; simpl in H.
  - srun H. split; [done|]. by intros x Hx%not_elem_of_nil.
  - srun H. destruct a; [|by srun_all]. match goal with H1 : runs (fresh_site _ _) _ _ |- _ => apply fresh_site_runs in H1 as [H1 ->] end.
    apply IH in H as [-> H]. split; [done|]. intros x [->|Hx]%elem_of_cons; [by apply seen_fresh_l|].
    destruct (H x Hx) as (Hs & g & Hg & Hd). split; [auto|]. exists g. split; [auto|]. destruct Hd as [|(He & z & Hz & Hn)]; [auto|]. right. eauto.
Qed.

Lemma fresh_deploy_runs p t p' : runs (isFreshDeploy p) t (true, p') -> forall x, x ∈ trackers p -> settled x = true /\ seen_fresh t (name x).
Proof.
  unfold isFreshDeploy. intros H. srun H. destruct (forallb settled (trackers (id p))) eqn:Es; cbn [negb] in H; [|by srun_all].
  apply all_fresh_runs in H as [_ H]. intros x Hx. rewrite forallb_forall in Es. split; [|by apply H]. by apply Es, list_elem_of_In.
Qed.

Lemma seen_fresh_r h t n : seen_fresh t n -> seen_fresh (h ++ t) n.
Proof. intros (Hs & g & Hg & Hd). split; [auto|]. exists g. split; [auto|]. destruct Hd as [|(He & z & Hz & Hn)]; [auto|]. right. eauto. Qed.

Section seed.

Context (cfg : TopologyConfig) (l : list siteTracker).

#[local] Abbreviation gw := (scwp (opens cfg l)).

(** What a seed needs from the calls before [seedFreshDeploy]. *)
Definition seedable (h : list (event ans)) : Prop :=
  (exists s, read l h s /\ lastFailoverTarget (authority_of s) = "")
  /\ (exists s, read l h s /\ bootstrapIdlePhase (bootstrapPhase (tmgr s)) = true)
  /\ forall t, t ∈ l -> settled t = true /\ seen_fresh h (name t).

Lemma seed_ready h h' : seedable h -> (forall t, t ∈ l -> name t <> selectSeedSite cfg l ->
    saw h' (SetSuperReadOnly (name t) true) true /\ saw h' (CheckReadOnly (name t)) (Some true)) ->
  (exists t, find_site l (selectSeedSite cfg l) = Some t /\ isPromotable t = true) ->
  seed_evidence cfg l (h ++ h') (selectSeedSite cfg l).
Proof using.
  intros ((s & Hs & E) & (s' & Hs' & E') & Hf) Hn Ht. split; [done|]. split; [done|]. split; [eauto|]. split; [eauto|].
  intros t Hin. destruct (Hf t Hin) as [H1 H2]. split; [done|]. split; [by apply seen_fresh_l|]. intros Hne.
  destruct (Hn t Hin Hne). auto.
Qed.

Lemma seed_evidence_l h t n : seed_evidence cfg l h n -> seed_evidence cfg l (h ++ t) n.
Proof using.
  intros (E & Ht & (s & Hs & Es) & (s' & Hs' & Es') & Hf). split; [done|]. split; [done|]. split; [eauto|]. split; [eauto|].
  intros x Hx. destruct (Hf x Hx) as (H1 & H2 & H3). split; [done|]. split; [by apply seen_fresh_l|]. intros Hn. destruct (H3 Hn). auto.
Qed.

Lemma gw_seed h p : trackers p = l -> seedable h -> gw (seedFreshDeploy cfg) h p (fun _ _ p' => trackers p' = l).
Proof using.
  intros Hp Hs. unfold seedFreshDeploy. apply scwp_bind, scwp_get. unfold id. rewrite Hp. set (n := selectSeedSite cfg l).
  case_bool_decide as Hn; [apply gw_calm; [unfold bootstrap_failed; solve_calm|done|done]|].
  apply scwp_bind, gw_calm; [solve_calm|done|]. intros t ok p1 H1 Hp1. destruct ok; cbn [negb]; [|by apply scwp_ret].
  apply fence_non_seeds_runs in H1 as [-> Hf]. unfold getSite. rewrite Hp. destruct (find_site l n) as [x|] eqn:Ex; [|by apply scwp_ret].
  destruct (isPromotable x) eqn:Epr; cbn [negb orb]; [|by apply scwp_ret]. case_bool_decide; [by apply scwp_ret|].
  assert (seed_evidence cfg l (h ++ t) n) as Hev.
  { apply seed_ready; [done| |by exists x]. intros y Hy Hne. apply Hf. apply elem_of_filter_bool. split; [done|]. by rewrite bool_decide_false. }
  revert Hev. generalize (h ++ t) as h1. intros h1 Hev.
  apply scwp_bind, (scwp_call _ (SetSuperReadOnly n false)).
  { apply (opens_clear _ _ _ _ n); [done|done|]. right. by left. }
  intros ok. destruct ok; cbn [negb]; [|by apply scwp_ret]. apply scwp_bind, (scwp_call _ (SetReadOnly n false)).
  { apply (opens_clear _ _ _ _ n); [done|done|]. right. left. by apply seed_evidence_l. }
  intros ok. destruct ok; cbn [negb]; [|by apply scwp_ret]. apply gw_calm; [solve_calm|done|done].
Qed.

Lemma gw_fresh_deploy lastTarget h p : trackers p = l -> (exists s, read l h s /\ lastFailoverTarget (authority_of s) = lastTarget) ->
  gw (maybeStartFreshDeployBootstrap cfg lastTarget) h p (fun _ _ p' => trackers p' = l).
Proof using.
  intros Hp (s & Hs & Es). unfold maybeStartFreshDeployBootstrap. case_bool_decide as Hl; cbn [negb orb]; [|by apply scwp_ret].
  destruct (bootstrap_wired cfg); cbn [negb]; [|by apply scwp_ret]. apply scwp_bind, gw_calm; [solve_calm|done|].
  intros t1 s1 p1 [H1 ->]%locked_read _. destruct (bootstrapIdlePhase (bootstrapPhase (tmgr s1))) eqn:Ei; cbn [negb]; [|by apply scwp_ret].
  apply scwp_bind, gw_calm; [solve_calm|done|]. intros t2 b p2 H2 Hp2. destruct b; cbn [negb]; [|by apply scwp_ret].
  pose proof (fresh_deploy_runs _ _ _ H2) as Hf. rewrite Hp in Hf, H1.
  assert (seedable ((h ++ t1) ++ t2)) as Hsd.
  { split; [exists s; split; [auto|congruence]|]. split; [exists s1; split; [auto|done]|]. intros x Hx. destruct (Hf x Hx).
    split; [done|]. by apply seen_fresh_r. }
  destruct (autoBootstrapSuppressed s1).
  - apply scwp_bind. eapply scwp_mono; [by apply gw_seed|]. intros h' n p3 Hp3. by apply scwp_ret.
  - unfold startBootstrap. apply scwp_bind, scwp_bind. eapply scwp_mono; [by apply gw_seed|]. intros h' n p3 Hp3. case_bool_decide; [by do 2 apply scwp_ret|].
    apply gw_calm; [unfold bootstrap_failed; solve_calm|done|]. intros. by apply scwp_ret.
Qed.

End seed.

(** ** The emergency failover *)

(** The freshest candidate is one of those asked, and its set was read. *)
Lemma freshest_in infos divergent want n g : freshest infos divergent want = Some (n, g) -> (n, Some g) ∈ infos.
Proof.
  unfold freshest. rewrite <- (rev_involutive infos). induction (rev infos) as [|i infs IH]; [done|]. simpl. rewrite fold_left_app, elem_of_app. simpl.
  unfold fresher at 1. destruct i as [m [g'|]]; cbn [fst snd]; [|intros H; left; by apply IH]. destruct (negb (Bool.eqb _ _)); [intros H; left; by apply IH|].
  destruct (fold_left _ _ _) as [[m' b]|] eqn:Ef.
  - destruct (Contains g' b && negb (Contains b g')); intros [= -> ->]; [right; left|left; by apply IH].
  - intros [= -> ->]. right. left.
Qed.

Lemma query_candidate_runs n p t g p' : runs (query_candidate n p) t (g, p') -> p' = p /\ forall set, g = Some set -> gtid_read t n set.
Proof.
  unfold query_candidate. intros H. srun H. destruct (getSite (id p) n); [|by srun_all]. destruct g as [set|].
  - apply read_gtid_runs in H as [H ->]. split; [done|]. by intros ? [= <-].
  - split; [|done]. unfold read_gtid in H. by srun_all.
Qed.

Lemma query_runs cs p t infos p' : runs (query_candidates cs p) t (infos, p') -> p' = p /\ forall n g, (n, Some g) ∈ infos -> n ∈ cs /\ gtid_read t n g.
Proof.
  revert p t infos p'. induction cs as [|c cs IH]; intros p t infos p' H; simpl in H.
  - srun H. split; [done|]. by intros n g Hn%not_elem_of_nil.
  - apply sbind_runs in H as (t1 & g1 & p1 & t2 & -> & [-> H1]%query_candidate_runs & H).
    apply sbind_runs in H as (t3 & rest & p2 & t4 & -> & [-> H2]%IH & H). srun H. split; [done|].
    intros n g [[= -> Eg]|Hn]%elem_of_cons; [split; [left|]; auto|]. destruct (H2 n g Hn). split; [by right|]. auto.
Qed.

Lemma pick_runs l cs p t n p' : trackers p = l -> runs (pickFreshestCandidate cs p) t (n, p') -> n <> "" -> n ∈ cs /\ data_kept l t n.
Proof.
  intros <- H Hn. unfold pickFreshestCandidate in H. apply sbind_runs in H as (t1 & infos & p1 & t2 & -> & [-> Hq]%query_runs & H).
  apply sbind_runs in H as (t3 & s & p2 & t4 & -> & [Hs ->]%locked_read & H).
  apply sbind_runs in H as (t5 & s' & p3 & t6 & -> & [_ ->]%locked_read & H). apply sret_runs in H as (-> & E & _).
  assert (exists d b g, freshest (map (refuse_regressed (promotionGtidExecuted (authority_of s)) (groupHasData (authority_of s))) infos) d b = Some (n, g)) as (d & b & g & Hg).
  { destruct (freshest _ _ false) as [[m g]|] eqn:E1; [subst; by eexists _, _, _|]. destruct (freshest _ _ true) as [[m g]|] eqn:E2; [subst; by eexists _, _, _|done]. }
  apply freshest_in, list_elem_of_In, in_map_iff in Hg as ([m [g'|]] & E1 & Hin%list_elem_of_In); unfold refuse_regressed in E1; cbn [fst snd] in E1; [|done].
  destruct (promotionDataRegression g' _ _) eqn:Er; [done|]. injection E1 as -> ->. destruct (Hq n g Hin) as [Hc Hg']. split; [done|].
  exists s, g. split; [auto|]. split; [auto|done].
Qed.

(** Every call of [Execute] opens the candidate or nothing. *)
Definition execute_op (o : Failover.op) : bool :=
  match o with
  | Failover.SetSuperReadOnly Failover.Source on => on
  | Failover.SetReadOnly Failover.Source _ => false
  | _ => true
  end.

Lemma execute_frees old : frees execute_op (Failover.Execute old).
Proof. unfold Failover.Execute, Failover.promote. destruct old; cbn; repeat (split; [done|]; intros [] || intros ?); done. Qed.

Section failover.

Context (cfg : TopologyConfig) (l : list siteTracker).

#[local] Abbreviation gw := (scwp (opens cfg l)).

Definition kept_stores (t : list (event ans)) : Prop := Forall (fun e => stores (projT1 e) = false) t.

Lemma failover_evidence_l h t n : failover_evidence cfg l h n -> kept_stores t -> failover_evidence cfg l (h ++ t) n.
Proof using.
  intros (H1 & H2 & H3 & H4 & H5) Ht. split; [by apply decided_l|]. split; [by apply steady_l|]. split; [by apply restore_allows_l|].
  split; [done|]. by apply claim_stays.
Qed.

(** A statement of [Execute]: made on the candidate with the evidence standing. *)
Lemma gw_hook old n o h p (Q : list (event ans) -> Failover.ans o -> poller -> Prop) : execute_op o = true -> trackers p = l -> failover_evidence cfg l h n ->
  (forall t x, kept_stores t -> Q (h ++ t) x p) -> gw (execute_hook old n o) h p Q.
Proof using.
  intros Ho Hp He HQ.
  assert (forall x, Q h x p) as HQ0 by (intros x; rewrite <- (app_nil_r h); apply HQ; constructor).
  assert (forall o' (x : ans o'), stores o' = false -> kept_stores [ev o' x]) as H1 by (intros; by repeat constructor).
  destruct o; cbn [execute_hook]; try (apply scwp_ret, HQ0).
  all: try (apply scwp_bind).
  all: match goal with |- scwp _ (scall ?o) _ _ _ => apply (scwp_call _ o); [|intros x; try apply scwp_ret; by apply HQ, H1] end.
  all: destruct c; try destruct on; first [by apply quiet_opens | done | eapply opens_clear; [done|done|by left]].
Qed.

Lemma gw_execute old n {A} (m : prog Failover.ans A) : frees execute_op m -> forall h p, trackers p = l -> failover_evidence cfg l h n ->
  gw (lower (execute_hook old n) m) h p (fun _ _ p' => trackers p' = l).
Proof using.
  induction m as [a|o k IH]; intros Hf h p Hp He; simpl; [by apply scwp_ret|]. destruct Hf as [Ho Hk]. apply scwp_bind, gw_hook; [done|done|done|].
  intros t x Ht. apply IH; [done|done|]. by apply failover_evidence_l.
Qed.

Lemma gw_promote_claimed c old h p : trackers p = l -> failover_evidence cfg l h (name c) ->
  gw (promote_claimed cfg c old) h p (fun _ _ p' => trackers p' = l).
Proof using.
  intros Hp He. unfold promote_claimed. apply scwp_bind, scwp_get. apply scwp_bind.
  apply (scwp_mono _ _ _ _ (fun _ _ p' => trackers p' = l)).
  { unfold execute_failover. destruct (if bool_decide (old = "") then None else getSite (id p) old); by apply gw_execute; [apply execute_frees| |]. }
  intros h' r p' Hp'. apply gw_calm; [|done|done]. destruct r; [unfold deploymentPromotionExecuted|]; solve_calm.
Qed.

(** The claim's section, when it grants. *)
Lemma begin_runs n p t p' : trackers p = l -> runs (beginAutoPromotion n p) t ((true, false), p') -> p' = p /\ forall h, claim_granted l (h ++ t) n.
Proof using.
  unfold beginAutoPromotion. intros Hp (t0 & busy & p0 & t1 & -> & (-> & ->)%scall_runs & H)%sbind_runs. destruct busy; [by apply sret_runs in H as (_ & ? & _)|].
  apply sbind_runs in H as (t2 & s & p1 & t3 & -> & (s0 & -> & -> & ->)%locked_runs & H). unfold adopt in H. rewrite Hp in H.
  destruct (beginAutoPromotionOf _ _ _) as [m r] eqn:Eb. apply sbind_runs in H as (t4 & [] & p2 & t5 & -> & (-> & ->)%(scall_runs (Unlock _)) & H).
  apply sret_runs in H as (-> & <- & ->). split; [done|]. intros h. exists h, s0, m, []. split; [by rewrite app_nil_r|]. split; [exact Eb|constructor].
Qed.

Lemma gw_promote_candidate c h p : trackers p = l -> decided cfg l h (name c) -> steady cfg l h -> restore_allows l h (name c) ->
  (exists t, find_site l (name c) = Some t /\ isPromotable t = true) -> gw (promote_candidate cfg c) h p (fun _ _ p' => trackers p' = l).
Proof using.
  intros Hp Hd Hst Hr Hc. unfold promote_candidate. apply scwp_bind, gw_calm; [solve_calm|done|]. intros t1 s p1 _ Hp1.
  apply scwp_bind, gw_calm; [unfold rotationBlockedCandidates; solve_calm|done|]. intros t2 rot p2 _ Hp2. cbn zeta.
  assert (forall a b, calm (recordKeyringPromotionDecision a b)) as Hk by (intros; apply calm_update).
  assert (calm clearKeyringRotationBlockedDirty) as Hcl by apply calm_update.
  destruct (keyringRotationBlockedLocked _ _); [apply gw_calm; [solve_calm|done|done]|].
  apply scwp_bind, gw_calm; [done|done|]. intros t3 [] p3 _ Hp3. apply scwp_bind, gw_calm; [apply calm_update|done|]. intros t4 [] p4 _ Hp4.
  apply scwp_bind, gw_calm; [done|done|]. intros t5 [] p5 _ Hp5. apply scwp_bind, gw_calm; [solve_calm|done|]. intros t6 old p6 _ Hp6.
  apply scwp_bind, gw_calm; [solve_calm|done|]. intros t7 [[] []] p7 H7 Hp7; try (by apply gw_calm; [unfold armCrossSiteRetry; solve_calm|done|done]).
  apply begin_runs in H7 as [-> Hg]; [|done]. apply scwp_bind. eapply scwp_mono.
  - apply gw_promote_claimed; [done|]. split; [by do 7 apply decided_l|]. split; [by do 7 apply steady_l|]. split; [by do 7 apply restore_allows_l|].
    split; [done|]. apply Hg.
  - intros h' [] p8 Hp8. apply gw_calm; [apply calm_update|done|done].
Qed.

Lemma gw_promote_site n h p : trackers p = l -> decided cfg l h n -> gw (promote_site cfg n) h p (fun _ _ p' => trackers p' = l).
Proof using.
  intros Hp Hd. unfold promote_site. apply scwp_bind, gw_calm; [solve_calm|done|]. intros t1 s p1 [Hs ->]%locked_read _. rewrite Hp in Hs.
  case_bool_decide as Hps; cbn [negb]; [|apply gw_calm; [unfold clearKeyringRotationBlockedDirty, armCrossSiteRetry; solve_calm|done|done]].
  cbn zeta. apply scwp_bind, gw_calm; [solve_calm|done|]. intros t2 cooling p2 H2 Hp2. destruct cooling; [apply gw_calm; [solve_calm|done|done]|].
  assert (steady cfg l ((h ++ t1) ++ t2)) as Hst.
  { exists s. split; [auto|]. split; [done|]. destruct (Z.eqb_spec (lastFailover (authority_of s)) 0) as [|Hz]; [by left|]. right.
    srun H2. apply sret_runs in H2 as (-> & E & _). symmetry in E. apply Z.ltb_ge in E. eexists. split; [apply saw_r; left|done]. }
  apply scwp_bind, scwp_get. unfold id, getSite. rewrite Hp2. destruct (find_site l n) as [c|] eqn:Ec; [|by apply scwp_ret].
  assert (name c = n) as Hn. { unfold find_site in Ec. apply List.find_some in Ec as [_ Ec%bool_decide_eq_true]. done. }
  apply scwp_bind. unfold initRestoreSeedSite. apply gw_calm; [solve_calm|done|]. intros t3 seed p3 H3 Hp3.
  apply sbind_runs in H3 as (t4 & s' & p4 & t5 & -> & [Hs' ->]%locked_read & H3). apply sret_runs in H3 as (-> & -> & ->). rewrite Hp2 in Hs'.
  destruct (negb (bool_decide (_ = "")) && _) eqn:Eseed; [by apply scwp_ret|]. destruct (isPromotable c) eqn:Epr; [|by apply scwp_ret]. cbn [negb].
  subst n. apply gw_promote_candidate; [done|by do 3 apply decided_l|by apply steady_l| |by exists c].
  exists s'. split; [apply read_r, read_l, Hs'|]. intros Hsup. rewrite Hsup in Eseed. apply andb_false_iff in Eseed as [E|E]; apply negb_false_iff in E; apply bool_decide_eq_true in E; auto.
Qed.

(** The losers are sent their fences, one by one. *)
Lemma fence_losers_runs losers p t u p' : runs (each fence_loser losers p) t (u, p') ->
  p' = p /\ forall m x, m ∈ losers -> getSite p m = Some x -> tstate x = StateWritable -> exists ok, saw t (SetSuperReadOnly (name x) true) ok.
Proof using.
  revert p t u p'. induction losers as [|n losers IH]; intros p t u p' H; simpl in H.
  - apply sret_runs in H as (-> & _ & ->). split; [done|]. by intros m x Hm%not_elem_of_nil.
  - apply sbind_runs in H as (t1 & [] & p1 & t2 & -> & H1 & H).
    assert (p1 = p /\ forall x, getSite p n = Some x -> tstate x = StateWritable -> exists ok, saw t1 (SetSuperReadOnly (name x) true) ok) as [-> Hn].
    { unfold fence_loser in H1. apply sbind_runs in H1 as (t3 & q & p3 & t4 & -> & (-> & -> & ->)%sget_runs & H1). unfold id in H1.
      destruct (getSite p n) as [x|]; [|by apply sret_runs in H1 as (-> & _ & ->)]. case_bool_decide as Hw.
      - unfold fence_site in H1. apply sbind_runs in H1 as (t5 & ok & p4 & t6 & -> & (-> & ->)%scall_runs & (-> & _ & ->)%sret_runs). split; [done|].
        intros y [= <-] _. exists ok. left.
      - apply sret_runs in H1 as (-> & _ & ->). split; [done|]. by intros y [= <-]. }
    apply IH in H as [-> H]. split; [done|]. intros m x [->|Hm]%elem_of_cons Hx Hw.
    + destruct (Hn x Hx Hw). eauto.
    + destruct (H m x Hm Hx Hw). eauto.
Qed.

(** The action is the matrix's answer for the fields the poll read. *)
Definition acts_on (h : list (event ans)) (action : CrossSiteAction) : Prop := exists s, read l h s /\ action = matrix_on cfg l s.

Lemma acts_on_l h t action : acts_on h action -> acts_on (h ++ t) action.
Proof using. intros (s & Hs & E). exists s. auto. Qed.

Definition last_target (h : list (event ans)) (lastTarget : string) : Prop := exists s, read l h s /\ lastFailoverTarget (authority_of s) = lastTarget.

Lemma last_target_l h t n : last_target h n -> last_target (h ++ t) n.
Proof using. intros (s & Hs & E). exists s. auto. Qed.

Definition step_decided (h : list (event ans)) (step : next_step) : Prop := forall n, step = Promotes n -> n <> "" -> decided cfg l h n.

Lemma resolve_split_runs action h p t step p' : trackers p = l -> acts_on h action -> SplitBrain action = true -> last_target h "" ->
  runs (resolve_split_brain cfg p) t (step, p') -> step_decided (h ++ t) step.
Proof using.
  intros Hp Ha Hsb Hlast H n -> Hn. unfold resolve_split_brain in H. apply sbind_runs in H as (t1 & w & p1 & t2 & -> & H1 & H).
  unfold writableObservations in H1. apply sbind_runs in H1 as (t3 & s1 & p2 & t4 & -> & [_ ->]%locked_read & (-> & -> & ->)%sget_runs). rewrite Hp in H.
  destruct (ResolveSplitBrain _ _) as [winner losers] eqn:Er. case_bool_decide as Hw; [by apply sret_runs in H as (_ & [= ->] & _)|].
  apply sbind_runs in H as (t5 & s2 & p3 & t6 & -> & [_ ->]%locked_read & H).
  destruct (keyringRotationBlockedLocked _ _); [by srun_all|]. destruct (restoreReclonePendingLocked _ _); [by srun_all|].
  apply sbind_runs in H as (t7 & [] & p4 & t8 & -> & [-> Hf]%fence_losers_runs & H). apply sret_runs in H as (-> & [= ->] & _).
  destruct Ha as (s & Hs & ->). exists s. split; [auto|]. right. split; [done|]. destruct Hlast as (s' & Hs' & E). split; [exists s'; auto|].
  exists losers. split; [done|]. intros m x Hm Hx Hwx. unfold getSite in Hf. rewrite Hp in Hf. destruct (Hf m x Hm Hx Hwx) as [ok Hok]. exists ok. auto.
Qed.

Lemma calm_resolve_split : calm (resolve_split_brain cfg).
Proof using. unfold resolve_split_brain, recordKeyringPromotionDecision, clearKeyringRotationBlockedDirty, recordRestoreReclonePromotionRefused. solve_calm. Qed.

#[local] Hint Resolve calm_resolve_split : calm.

Lemma calm_choose action lastTarget : calm (choose_promotion cfg action lastTarget).
Proof using. unfold choose_promotion. solve_calm. Qed.

Lemma choose_runs action lastTarget h p t step p' : trackers p = l -> acts_on h action -> last_target h lastTarget ->
  runs (choose_promotion cfg action lastTarget p) t (step, p') -> step_decided (h ++ t) step.
Proof using.
  intros Hp Ha Hlast H. unfold choose_promotion in H. apply sbind_runs in H as (t1 & first & p1 & t2 & -> & H1 & H).
  assert (step_decided (h ++ t1) first /\ trackers p1 = l) as [Hf Hp1].
  { assert (forall tr, step_decided (h ++ tr) (Promotes "")) as H0 by (by intros tr n [= <-]).
    destruct (SplitBrain action) eqn:Es; cbn [andb] in H1; [|by apply sret_runs in H1 as (-> & -> & ->)].
    case_bool_decide as El; [|by apply sret_runs in H1 as (-> & -> & ->)]. subst lastTarget.
    apply sbind_runs in H1 as (t3 & b & p2 & t4 & -> & H2 & H1). pose proof (proj2 calm_blocks _ _ _ _ H2) as Hp2. unfold same_sites in Hp2. rewrite Hp in Hp2.
    destruct (negb b && _); [|by apply sret_runs in H1 as (-> & -> & ->)]. split; [|rewrite <- Hp2; by apply (proj2 calm_resolve_split) in H1].
    rewrite (assoc_L (++)). by eapply resolve_split_runs; [| |done| |exact H1]; [|apply acts_on_l|apply last_target_l]. }
  assert (step_decided ((h ++ t1) ++ t2) step) as Hs; [|by rewrite (assoc_L (++))].
  assert (forall tr n, decided cfg l (h ++ t1) n -> decided cfg l ((h ++ t1) ++ tr) n) as Hmono by (intros; by apply decided_l).
  destruct first as [|n]; [apply sret_runs in H as (-> & -> & _); by intros n|]. destruct (decide (n = "")) as [->|Hn].
  - destruct (nonempty (PromotionCandidates action)); [|apply sret_runs in H as (-> & -> & _); by intros n [= <-]].
    apply sbind_runs in H as (t3 & n & p2 & t4 & -> & H2 & H). apply sbind_runs in H as (t5 & [] & p3 & t6 & -> & _ & H).
    apply sret_runs in H as (-> & -> & _). intros m [= <-] Hn. destruct Ha as (s & Hs & ->). exists s. split; [auto|]. left.
    apply (pick_runs l) in H2 as [Hin Hk]; [|done|done]. split; [done|]. destruct Hk as (s' & g & Hs' & Hg & Hr). exists s', g. split; [auto|]. split; [auto|done].
  - assert (step = Promotes n) as ->.
    { destruct n as [|c n]; [done|]. by apply sret_runs in H as (_ & -> & _). }
    intros m [= <-] _. by apply Hmono, Hf.
Qed.

Lemma gw_resolve_action action lastTarget h p : trackers p = l -> acts_on h action -> last_target h lastTarget ->
  gw (resolve_action cfg action lastTarget) h p (fun _ _ p' => trackers p' = l).
Proof using.
  intros Hp Ha Hl. unfold resolve_action. apply scwp_bind, gw_calm; [solve_calm|done|]. intros t1 [] p1 _ Hp1.
  apply scwp_bind, gw_calm; [apply calm_choose|done|]. intros t2 step p2 H2 Hp2.
  apply (choose_runs action lastTarget (h ++ t1)) in H2; [|done|by apply acts_on_l|by apply last_target_l].
  destruct step as [|n]; [by apply scwp_ret|]. case_bool_decide as Hn; [apply gw_calm; [solve_calm|done|done]|]. by apply gw_promote_site, H2.
Qed.

Lemma gw_apply action h p : trackers p = l -> acts_on h action -> gw (applyCrossSiteAction cfg action) h p (fun _ _ p' => trackers p' = l).
Proof using.
  intros Hp Ha. unfold applyCrossSiteAction. apply scwp_bind, gw_calm; [solve_calm|done|]. intros t1 s p1 [Hs ->]%locked_read _. cbn zeta.
  rewrite Hp in Hs. set (lastTarget := lastFailoverTarget (authority_of s)). assert (last_target (h ++ t1) lastTarget) as Hl by (exists s; auto).
  apply (acts_on_l _ t1) in Ha. revert Ha Hl. generalize (h ++ t1) as h1. intros h1 Ha Hl.
  assert (calm armCrossSiteRetry) as Harm by apply calm_arm.
  apply scwp_bind, gw_calm; [unfold isTopologyFrozen; solve_calm|done|]. intros t2 [] p2 _ Hp2; [apply gw_calm; [done|done|done]|].
  apply scwp_bind, gw_calm; [unfold plannedClaimHeld; solve_calm|done|]. intros t3 [] p3 _ Hp3; [apply gw_calm; [done|done|done]|].
  apply scwp_bind, gw_calm; [solve_calm|done|]. intros t4 [] p4 _ Hp4; [apply gw_calm; [done|done|done]|].
  apply (acts_on_l _ t2), (acts_on_l _ t3), (acts_on_l _ t4) in Ha. apply (last_target_l _ t2), (last_target_l _ t3), (last_target_l _ t4) in Hl.
  revert Ha Hl. generalize (((h1 ++ t2) ++ t3) ++ t4) as h2. intros h2 Ha Hl.
  apply scwp_bind. apply (scwp_mono _ _ _ _ (fun h' _ p' => trackers p' = l /\ acts_on h' action /\ last_target h' lastTarget)).
  { destruct (SplitBrain action && bootstrap_wired cfg); [|by apply scwp_ret]. unfold split_brain_bootstrap.
    apply scwp_bind, gw_calm; [solve_calm|done|]. intros t5 s5 p5 _ Hp5. apply scwp_bind, gw_calm; [solve_calm|done|]. intros t6 [] p6 _ Hp6.
    - apply scwp_ret. split; [done|]. split; [by do 2 apply acts_on_l|by do 2 apply last_target_l].
    - eapply cwp_mono; [apply cwp_extends, (gw_fresh_deploy cfg l lastTarget); [done|by do 2 apply last_target_l]|].
      intros h' a (Hp' & t & ->). split; [exact Hp'|]. split; [by do 3 apply acts_on_l|by do 3 apply last_target_l]. }
  intros h3 [] p5 (Hp5 & Ha3 & Hl3); [by apply scwp_ret|]. apply scwp_bind.
  apply (scwp_mono _ _ _ _ (fun h' _ p' => trackers p' = l /\ acts_on h' action /\ last_target h' lastTarget)).
  { case_bool_decide; [|by apply scwp_ret]. eapply cwp_mono; [by apply cwp_extends, (gw_fresh_deploy cfg l lastTarget)|].
    intros h' a (Hp' & t & ->). split; [exact Hp'|]. split; [by apply acts_on_l|by apply last_target_l]. }
  intros h4 [] p6 (Hp6 & Ha4 & Hl4); [by apply scwp_ret|]. by apply gw_resolve_action.
Qed.

End failover.

(** ** Restoring a fenced primary *)

Section reassert.

Context (cfg : TopologyConfig) (l : list siteTracker).

#[local] Abbreviation gw := (scwp (opens cfg l)).

Lemma peer_fresh_runs n p t p' : runs (restoreSeedPeerFresh n true p) t (true, p') ->
  saw t (ShowReplicaStatus n) (Some None) /\ saw t (HasUserSchemas n) (Some (Some false)).
Proof using.
  unfold restoreSeedPeerFresh. intros H. srun H. destruct a as [[rs|]|]; [by srun_all| |by srun_all]. cbn [negb] in H. srun H. apply sret_runs in H as (-> & E & _).
  symmetry in E. apply bool_decide_eq_true in E as ->. split; [left|]. apply (saw_r [_]), saw_l. left.
Qed.

Lemma calm_peer_fresh n b : calm (restoreSeedPeerFresh n b).
Proof using. unfold restoreSeedPeerFresh. solve_calm. Qed.

#[local] Hint Resolve calm_peer_fresh : calm.

Lemma calm_peer auth g t : calm (reassert_peer auth g t).
Proof using. unfold reassert_peer. solve_calm. Qed.

#[local] Hint Resolve calm_peer : calm.

Lemma calm_peers auth g ts : calm (reassert_peers auth g ts).
Proof using. induction ts as [|t ts IH]; simpl; solve_calm. Qed.

Lemma calm_proof auth n want : calm (reassert_proof auth n want).
Proof using. unfold reassert_proof, bootReadOnlyOnly. solve_calm. Qed.

Lemma calm_eligible t : calm (reassert_eligible t).
Proof using. unfold reassert_eligible, recordRestoreReclonePromotionRefused. solve_calm. Qed.

Lemma calm_cloning : calm cloningReaderSite.
Proof using. unfold cloningReaderSite, isBootstrapping. solve_calm. Qed.

Lemma peer_runs auth g x p t p' : trackers p = l -> tstate x = StateReadOnly -> runs (reassert_peer auth g x p) t (true, p') -> peer_settled l t auth g x.
Proof using.
  intros Hp Hx H. unfold reassert_peer in H. apply sbind_runs in H as (t1 & ro & p1 & t2 & -> & (-> & ->)%scall_runs & H).
  case_bool_decide as Hro; cbn [negb] in H; [|by apply sret_runs in H as (_ & ? & _)]. subst ro.
  apply sbind_runs in H as (t3 & [g'|] & p2 & t4 & -> & H1 & H); [|by apply sret_runs in H as (_ & ? & _)]. apply read_gtid_runs in H1 as [Hg ->].
  apply sbind_runs in H as (t5 & s & p3 & t6 & -> & [Hs ->]%locked_read & H). rewrite Hp in Hs.
  split; [done|]. split; [left|]. exists g', s. split; [by apply (gtid_read_r [_]), gtid_read_l|]. split; [by apply (read_r _ [_]), read_r, read_l|].
  destruct (Contains g (undisputed s (name x) g')) eqn:Ec; [by left|]. right.
  destruct auth; [by apply sret_runs in H as (_ & ? & _)| |by apply sret_runs in H as (_ & ? & _)]. apply peer_fresh_runs in H as [H1 H2]. split; [done|]. auto.
Qed.

Lemma peers_runs auth g ts p t p' : trackers p = l -> (forall x, x ∈ ts -> tstate x = StateReadOnly) -> runs (reassert_peers auth g ts p) t (true, p') ->
  forall x, x ∈ ts -> peer_settled l t auth g x.
Proof using.
  revert p t. induction ts as [|y ts IH]; intros p t Hp Hts H; simpl in H; [by intros x Hx%not_elem_of_nil|].
  apply sbind_runs in H as (t1 & [] & p1 & t2 & -> & H1 & H); [|by apply sret_runs in H as (_ & ? & _)].
  pose proof (proj2 (calm_peer _ _ _) _ _ _ _ H1) as Hp1. unfold same_sites in Hp1.
  intros x [->|Hx]%elem_of_cons.
  - apply peer_settled_l. eapply peer_runs; [done| |exact H1]. apply Hts. left.
  - assert (peer_settled l t2 auth g x) as (Hr & Hro & g' & s & Hg & Hs & Hd).
    { eapply (IH p1 t2); [by rewrite Hp1| |exact H|done]. intros z Hz. apply Hts. by right. }
    split; [done|]. split; [auto|]. exists g', s. split; [auto|]. split; [auto|]. destruct Hd as [|(? & ? & ?)]; [by left|]. right. auto.
Qed.

Lemma proof_runs auth n want p t g p' : runs (reassert_proof auth n want p) t (Some g, p') ->
  (auth = Observed -> saw t (CheckSuperReadOnly n) (Some (Some false))) /\ gtid_read t n g
  /\ (want <> "" -> exists w, ParseGTIDSet want = Ok w /\ Contains g w = true).
Proof using.
  unfold reassert_proof. intros (t1 & lifted & p1 & t2 & -> & H1 & H)%sbind_runs. destruct lifted; cbn [negb] in H; [|by apply sret_runs in H as (_ & ? & _)].
  apply sbind_runs in H as (t3 & src & p2 & t4 & -> & _ & H). destruct src; cbn [negb] in H; [|by apply sret_runs in H as (_ & ? & _)].
  apply sbind_runs in H as (t5 & [g'|] & p3 & t6 & -> & H2 & H); [|by apply sret_runs in H as (_ & ? & _)]. apply read_gtid_runs in H2 as [Hg ->].
  apply sret_runs in H as (-> & E & _).
  assert (g' = g /\ (want <> "" -> exists w, ParseGTIDSet want = Ok w /\ Contains g w = true)) as [-> Hw].
  { case_bool_decide; [by injection E as <-|]. destruct (ParseGTIDSet want) as [w|]; [|done]. destruct (Contains g' w) eqn:Ec; [|done]. injection E as <-. eauto. }
  split; [|split; [auto 6|done]]. intros ->. apply saw_l. unfold bootReadOnlyOnly in H1.
  apply sbind_runs in H1 as (t7 & x & p4 & t8 & -> & (-> & ->)%scall_runs & H1). apply sret_runs in H1 as (-> & E1 & _). symmetry in E1. apply bool_decide_eq_true in E1 as ->. left.
Qed.

Lemma cloning_runs p t n p' : trackers p = l -> runs (cloningReaderSite p) t (n, p') -> n <> "" -> cloning l t n.
Proof using.
  intros Hp H Hn. unfold cloningReaderSite, isBootstrapping in H. apply sbind_runs in H as (t1 & b & p1 & t2 & -> & H1 & H).
  apply sbind_runs in H1 as (t3 & s & p2 & t4 & -> & [Hs ->]%locked_read & (-> & -> & ->)%sret_runs). rewrite Hp in Hs.
  destruct (bootstrapIdlePhase _) eqn:Ei; cbn [negb] in H; [by apply sret_runs in H as (_ & -> & _)|].
  apply sbind_runs in H as (t5 & s' & p3 & t6 & -> & [Hs' ->]%locked_read & H). rewrite Hp in Hs'. cbn zeta in H.
  case_bool_decide; [by apply sret_runs in H as (_ & -> & _)|]. apply sbind_runs in H as (t7 & q & p4 & t8 & -> & (-> & -> & ->)%sget_runs & H).
  apply sret_runs in H as (-> & E & _). unfold id, getSite in E. rewrite Hp in E.
  destruct (find_site l (bootstrapRecipient (tmgr s'))) as [x|] eqn:Ex; [|done]. case_bool_decide as Hr; [|done]. subst n.
  split; [exists s; auto|]. split; [exists s'; auto|]. by exists x.
Qed.

Lemma eligible_runs x p t p' : runs (reassert_eligible x p) t (true, p') -> tstate x = StateReadOnly /\ isPromotable x = true.
Proof using.
  unfold reassert_eligible. case_bool_decide; cbn [negb orb]; [|by intros (_ & ? & _)%sret_runs]. destruct (isPromotable x); [done|]. by intros (_ & ? & _)%sret_runs.
Qed.

(** The evidence before the claim: everything but the claim itself. *)
Definition reassert_checked (h : list (event ans)) (n : string) (x : siteTracker) : Prop := exists s auth g skip,
  read l h s /\ reassert_target s = (n, auth) /\ promotedSite (tmgr s) = ""
  /\ last_site l n = Some x /\ tstate x = StateReadOnly /\ isPromotable x = true
  /\ (auth = Observed -> saw h (CheckSuperReadOnly n) (Some (Some false)))
  /\ gtid_read h n g
  /\ (promotionGtidExecuted (authority_of s) <> "" -> exists want, ParseGTIDSet (promotionGtidExecuted (authority_of s)) = Ok want /\ Contains g want = true)
  /\ (skip <> "" -> cloning l h skip)
  /\ (forall t', t' ∈ l -> name t' <> n -> name t' <> skip -> peer_settled l h auth g t').

Lemma reassert_claims h t n x : reassert_checked h n x -> claim_granted l (h ++ t) n -> reassert_evidence l (h ++ t) n.
Proof using.
  intros (s & auth & g & skip & Hs & Ht & Hps & Hl & Hst & Hpr & Ho & Hg & Hw & Hc & Hpe) Hcl. exists s, auth, g, x, skip.
  split; [auto|]. split; [done|]. split; [done|]. split; [done|]. split; [done|]. split; [done|]. split; [auto|]. split; [auto|].
  split; [done|]. split; [by intros Hk; apply cloning_l, Hc|]. split; [|done]. intros t' Hin H1 H2. by apply peer_settled_l, Hpe.
Qed.

Lemma gw_reassert_claimed x h t p : trackers p = l -> reassert_checked h (name x) x -> claim_granted l (h ++ t) (name x) ->
  gw (reassert_claimed cfg x) (h ++ t) p (fun _ _ p' => trackers p' = l).
Proof using.
  intros Hp Hc Hcl. unfold reassert_claimed.
  assert (forall t', kept_stores t' -> writable_evidence cfg l ((h ++ t) ++ t') (name x)) as Hev.
  { intros t' Ht'. right. right. rewrite <- (assoc_L (++)). eapply reassert_claims; [done|]. rewrite (assoc_L (++)). by apply claim_stays. }
  apply scwp_bind, (scwp_call _ Now); [by apply quiet_opens|]. intros now. apply scwp_bind, scwp_modify.
  apply scwp_bind, (scwp_call _ (SetSuperReadOnly (name x) false)); [apply (opens_clear _ _ _ _ (name x)); [done|done|]; apply Hev; by repeat constructor|].
  intros ok. destruct ok; cbn [negb]; [|by apply scwp_ret].
  apply scwp_bind, (scwp_call _ (SetReadOnly (name x) false)).
  { apply (opens_clear _ _ _ _ (name x)); [done|done|]. rewrite <- (assoc_L (++)). apply Hev. by repeat constructor. }
  intros ok. destruct ok; cbn [negb]; [|by apply scwp_ret]. apply gw_calm; [|done|done].
  assert (calm (deploymentPromotionExecuted (name x))) by apply calm_update. solve_calm.
Qed.

Lemma last_site_name n x : last_site l n = Some x -> name x = n.
Proof using. unfold last_site, find_site. by intros [_ H%bool_decide_eq_true]%List.find_some. Qed.

Lemma gw_reassert h p : trackers p = l -> gw (checkPrimaryReassert cfg) h p (fun _ _ p' => trackers p' = l).
Proof using.
  intros Hp. unfold checkPrimaryReassert. apply scwp_bind, gw_calm; [unfold isTopologyFrozen, plannedClaimHeld; solve_calm|done|].
  intros t1 [] p1 _ Hp1; [by apply scwp_ret|]. apply scwp_bind, gw_calm; [solve_calm|done|]. intros t2 s p2 [Hs ->]%locked_read _. rewrite Hp1 in Hs.
  destruct (reassert_target s) as [n auth] eqn:Et. apply scwp_bind, scwp_get. unfold id. rewrite Hp1.
  destruct (bool_decide (n = "") || negb (bool_decide (promotedSite (tmgr s) = ""))) eqn:Eg; [by apply scwp_ret|].
  apply orb_false_iff in Eg as [_ Eps%negb_false_iff%bool_decide_eq_true].
  apply scwp_bind, gw_calm; [solve_calm|done|]. intros t3 [] p3 _ Hp3; [by apply scwp_ret|].
  apply scwp_bind, gw_calm; [apply calm_cloning|done|]. intros t4 skip p4 H4 Hp4.
  destruct (forallb _ _) eqn:Ero; cbn [negb]; [|by apply scwp_ret]. destruct (last_site l n) as [x|] eqn:Ex; [|by apply scwp_ret].
  apply scwp_bind, gw_calm; [apply calm_eligible|done|]. intros t5 ok p5 H5 Hp5. destruct ok; cbn [negb]; [|by apply scwp_ret].
  apply scwp_bind, gw_calm; [apply calm_proof|done|]. intros t6 [g|] p6 H6 Hp6; [|by apply scwp_ret].
  apply scwp_bind, gw_calm; [apply calm_peers|done|]. intros t7 ok p7 H7 Hp7. destruct ok; cbn [negb]; [|by apply scwp_ret].
  apply scwp_bind, gw_calm; [solve_calm|done|]. intros t8 [[] []] p8 H8 Hp8; try by apply scwp_ret.
  apply (begin_runs l) in H8 as [-> Hcl]; [|done]. apply proof_runs in H6 as (Ho & Hg & Hw). apply eligible_runs in H5 as [Hst Hpr].
  assert (forall y, y ∈ reassert_others l n skip -> peer_settled l t7 auth g y) as Hpeers.
  { eapply peers_runs; [exact Hp6| |exact H7]. intros y Hy. rewrite forallb_forall in Ero. by apply list_elem_of_In, Ero, bool_decide_eq_true in Hy. }
  pose proof (last_site_name _ _ Ex) as Hn. apply scwp_bind. apply (scwp_mono _ _ _ _ (fun _ _ p' => trackers p' = l)).
  - apply gw_reassert_claimed; [done| |by rewrite Hn]. rewrite Hn. exists s, auth, g, skip. split; [by apply read_l, read_l, read_l, read_l, read_l, read_r|].
    split; [done|]. split; [done|]. split; [done|]. split; [done|]. split; [done|]. split; [intros Ha; apply saw_l, saw_r, Ho, Ha|].
    split; [by apply gtid_read_l, gtid_read_r|]. split; [done|]. split.
    + intros Hk. do 3 apply cloning_l. eapply (cloning_runs p3) in H4 as ((s1 & ? & ?) & (s2 & ? & ?) & Hr); [|done|done].
      split; [exists s1; auto|]. split; [exists s2; auto|done].
    + intros y Hy Hyn Hys. destruct (Hpeers y) as (Hyr & Hro & g' & s' & Hg' & Hs' & Hd).
      { apply elem_of_filter_bool. split; [done|]. by rewrite !bool_decide_false. }
      split; [done|]. split; [auto|]. exists g', s'. split; [auto|]. split; [auto|]. destruct Hd as [|(? & ? & ?)]; [by left|right; auto].
  - intros h' [] p9 Hp9. apply gw_calm; [|done|done]. assert (calm finishTopologyChange) by apply calm_update. solve_calm.
Qed.

End reassert.
