(* ===== verification/PollRepoint.v ===== *)
(** * The topology manager's poll: how it starts and repoints replicas

    Source convergence and the recovery of an old primary send every statement on a
    replica's channel under an admission and the start gate, and repoint it only at the
    confirmed primary, once its set was read contained. *)
From S2P Require Import Prelude GoStd Intervals GtidSet SiteState Effects GoTime Failover FailoverRecord ClaimSlot Claims Protocol PollData PollSteps PollBootstrap PollAct PollFollow PollRecover PollCycle PollSafety PollProofs.

Local Open Scope Z_scope.

#[local] Arguments prog_bind {Op Ans A B} _ _ : simpl never.

Import GTID Matrix FailoverRecords ClaimSlot Claims Poll PollOps PollBoot PollAct PollFollow PollRecover PollCycle.

#[local] Hint Resolve saw_l saw_r saw_last read_l read_r gtid_read_l gtid_read_r : core.

Section repoint.

Context (cfg : TopologyConfig) (unicode_lower : string -> string) (l : list siteTracker).

#[local] Abbreviation gw := (scwp (opens cfg l)).

(** ** Evidence stays *)

Lemma admitted_l h t : admitted l h -> without mutation_gate t -> admitted l (h ++ t).
Proof using. intros (t1 & s0 & t2 & -> & Hs & Ht2) Ht. exists t1, s0, (t2 ++ t). split; [by rewrite <- !(assoc_L (++))|]. split; [done|]. by apply Forall_app. Qed.

Lemma gated_l h t n : gated l h n -> without start_gate t -> gated l (h ++ t) n.
Proof using. intros (t1 & s0 & t2 & -> & Hs & Ht2) Ht. exists t1, s0, (t2 ++ t). split; [by rewrite <- !(assoc_L (++))|]. split; [done|]. by apply Forall_app. Qed.

Lemma contained_stays h t a n : contained h a n -> contained (h ++ t) a n.
Proof using. intros (ga & gn & H1 & H2 & H). exists ga, gn. auto. Qed.

Lemma contained_later h t a n : contained t a n -> contained (h ++ t) a n.
Proof using. intros (ga & gn & H1 & H2 & H). exists ga, gn. auto. Qed.

Lemma confirmed_primary_l h t a : confirmed_primary l h a -> confirmed_primary l (h ++ t) a.
Proof using. intros ((s & Hs & E) & H1 & H2 & H3 & H4 & H5). split; [exists s; auto|]. auto 6. Qed.

Lemma confirmed_primary_r h t a : confirmed_primary l t a -> confirmed_primary l (h ++ t) a.
Proof using. intros ((s & Hs & E) & H1 & H2 & H3 & H4 & H5). split; [exists s; auto|]. auto 6. Qed.

(** A follower of [a] that may be changed. *)
Definition follows_primary (h : list (event ans)) (a t : siteTracker) : Prop :=
  confirmed_primary l h a /\ t ∈ l /\ name t <> name a /\ tstate t = StateReadOnly.

Lemma follows_primary_l h t a x : follows_primary h a x -> follows_primary (h ++ t) a x.
Proof using. intros (H1 & H). split; [by apply confirmed_primary_l|done]. Qed.

(** ** What the steps return *)

Lemma active_runs p t a p' : trackers p = l -> runs (confirmedActivePrimary p) t (Some a, p') -> confirmed_primary l t a.
Proof using.
  intros Hp (t1 & s & p1 & t2 & -> & [Hs ->]%locked_read & H)%sbind_runs. rewrite Hp in Hs. cbn zeta in H.
  case_bool_decide as Hn; [by apply sret_runs in H as (_ & ? & _)|]. apply sbind_runs in H as (t3 & q & p2 & t4 & -> & (-> & -> & ->)%sget_runs & H).
  unfold id, getSite in H. rewrite Hp in H. destruct (find_site l (active_site s)) as [x|] eqn:Ex; [|by apply sret_runs in H as (_ & ? & _)].
  destruct (isPromotable x) eqn:Epr; cbn [negb orb] in H; [|by apply sret_runs in H as (_ & ? & _)].
  case_bool_decide as Hh; [by apply sret_runs in H as (_ & ? & _)|]. destruct (probeFailed x) eqn:Epf; [by apply sret_runs in H as (_ & ? & _)|].
  apply sbind_runs in H as (t5 & b & p3 & t6 & -> & (ro & -> & -> & ->)%confirm_writable_runs & H). apply sret_runs in H as (-> & E & _).
  case_bool_decide; [|done]. injection E as ->. subst ro.
  assert (name x = active_site s) as En by (unfold find_site in Ex; by apply List.find_some in Ex as [_ ?%bool_decide_eq_true]).
  split; [exists s; split; [by apply read_l|done]|]. split; [by rewrite En|]. split; [done|]. split; [done|]. split; [done|].
  apply saw_r, saw_r, saw_l. left.
Qed.

Lemma begin_follower_runs p t p' : trackers p = l -> runs (beginFollowerMutation p) t (true, p') -> forall h, admitted l (h ++ t).
Proof using.
  intros Hp (t1 & busy & p1 & t2 & -> & (-> & ->)%scall_runs & H)%sbind_runs h. destruct busy; [by apply sret_runs in H as (_ & ? & _)|].
  apply sbind_runs in H as (t3 & ok & p2 & t4 & -> & (-> & ->)%(scall_runs (Ans := ans) EnterGate) & H). destruct ok; cbn [negb] in H; [|by apply sret_runs in H as (_ & ? & _)].
  apply sbind_runs in H as (t5 & b & p3 & t6 & -> & H1 & H). unfold followerMutationSuppressed in H1.
  apply sbind_runs in H1 as (t7 & s & p4 & t8 & -> & (s0 & -> & -> & ->)%locked_runs & (-> & -> & ->)%sret_runs). unfold adopt in H. rewrite Hp in H.
  destruct (followerMutationSuppressedLocked _ _) eqn:Es.
  - apply sbind_runs in H as (? & ? & ? & ? & -> & _ & H). by apply sret_runs in H as (_ & ? & _).
  - apply sret_runs in H as (-> & _ & _). exists h, s0, []. split; [by rewrite app_nil_r|]. split; [done|constructor].
Qed.

Lemma ensure_runs a n p t p' : runs (ensureGTIDContained a n p) t (None, p') -> contained t a n.
Proof using.
  intros (t1 & x & p1 & t2 & -> & (-> & ->)%(scall_runs (Ans := ans) (GetGtidExecuted a)) & H)%sbind_runs.
  destruct x as [araw|]; [|by apply sret_runs in H as (_ & ? & _)].
  apply sbind_runs in H as (t3 & y & p2 & t4 & -> & (-> & ->)%(scall_runs (Ans := ans) (GetGtidExecuted n)) & H). apply sret_runs in H as (-> & E & _).
  destruct y as [fraw|]; [|done]. destruct (ParseGTIDSet araw) as [ga|] eqn:Ea; [|done]. destruct (ParseGTIDSet fraw) as [gn|] eqn:En; [|done].
  destruct (Contains ga gn) eqn:Ec; [|done]. exists ga, gn. split; [exists araw; split; [left|done]|]. split; [|done].
  exists fraw. split; [right; left|done].
Qed.

(** ** Steps outside the gates *)

Definition gateless (o : op) : bool := negb (mutation_gate o || start_gate o).

Lemma gateless_without t : Forall (fun e => gateless (projT1 e) = true) t -> without mutation_gate t /\ without start_gate t.
Proof using. unfold without. intros H. split; (eapply Forall_impl; [exact H|]); intros [o x] [H1 H2]%negb_true_iff%orb_false_iff; done. Qed.

Lemma gw_plain {A} (m : poll A) h p (Q : list (event ans) -> A -> poller -> Prop) : calm m -> sfrees gateless m -> trackers p = l ->
  (forall t a p', runs (m p) t (a, p') -> trackers p' = l -> without mutation_gate t -> without start_gate t -> Q (h ++ t) a p') -> gw m h p Q.
Proof using.
  intros Hc Hf Hp HQ. apply gw_calm; [done|done|]. intros t a p' H Hp'. destruct (gateless_without t) as [H1 H2]; [by eapply sfrees_runs|]. by apply HQ.
Qed.

Lemma ensure_gateless a n : sfrees gateless (ensureGTIDContained a n).
Proof using. unfold ensureGTIDContained. solve_frees. Qed.

Lemma gw_start n h p (Q : list (event ans) -> bool -> poller -> Prop) : admitted l h -> gated l h n -> (forall t ok, Q (h ++ t) ok p) ->
  gw (pcall (StartReplica n)) h p Q.
Proof using.
  intros Ha Hg HQ. apply (scwp_call _ (StartReplica n)); [|intros ok; apply HQ]. apply (opens_start _ _ _ _ n); [done|done|]. split; [done|]. split; [done|]. by intros hst [=].
Qed.

(** ** Source convergence *)

#[local] Abbreviation keeps := (fun _ _ p' => trackers p' = l).

(** The start gate around an operation. *)
Lemma gw_gate n op h p : trackers p = l -> admitted l h -> (forall h', (exists t, h' = h ++ t) -> admitted l h' -> gated l h' n -> gw op h' p keeps) ->
  gw (withReplicaStartGate n op) h p keeps.
Proof using.
  intros Hp Ha Hop. unfold withReplicaStartGate, restorePeerHeldSite. apply scwp_bind, (scwp_call _ StartGate); [by apply quiet_opens|]. intros [].
  apply scwp_bind, scwp_bind, gw_locked. intros s0. apply scwp_ret. cbn beta.
  assert (tmgr (adopt p s0) = tmgr (with_sites l s0)) as -> by (unfold adopt; by rewrite Hp).
  apply scwp_bind. apply (scwp_mono _ _ _ _ keeps).
  - destruct (mem n _) eqn:Em; [by apply scwp_ret|]. apply Hop; [rewrite <- (assoc_L (++)); by eexists| |].
    + rewrite <- (assoc_L (++)). apply admitted_l; [done|]. by repeat constructor.
    + rewrite <- (assoc_L (++)). exists h, s0, []. split; [by rewrite app_nil_r|]. split; [done|constructor].
  - intros h' r p' Hp'. apply scwp_bind, (scwp_call _ EndGate); [by apply quiet_opens|]. intros []. by apply scwp_ret.
Qed.

Lemma gw_restart a n h p : trackers p = l -> admitted l h -> gated l h n -> gw (restartDirectReplica a n) h p keeps.
Proof using.
  intros Hp Ha Hg. unfold restartDirectReplica. apply scwp_bind, gw_plain; [solve_calm|apply ensure_gateless|done|].
  intros t e p' _ Hp' H1 H2. destruct e; [by apply scwp_ret|]. apply scwp_bind, gw_start; [by apply admitted_l|by apply gated_l|]. intros t' ok. by apply scwp_ret.
Qed.

Lemma gw_repoint_stopped a t h p : trackers p = l -> admitted l h -> gated l h (name t) -> follows_primary h a t -> saw h (StopReplica (name t)) true ->
  gw (repoint_stopped a (name t)) h p keeps.
Proof using.
  intros Hp Ha Hg (Hc & Hin & Hne & Hro) Hs. unfold repoint_stopped. apply scwp_bind, gw_plain; [solve_calm|apply ensure_gateless|done|].
  intros t1 e p1 H1 Hp1 Hm Hst. assert (admitted l (h ++ t1)) as Ha1 by (by apply admitted_l). assert (gated l (h ++ t1) (name t)) as Hg1 by (by apply gated_l).
  destruct e as [[]|]; try by apply scwp_ret.
  1-3: apply scwp_bind, gw_start; [done|done|]; intros; by apply scwp_ret.
  apply scwp_bind, (scwp_call _ (ChangeReplicationSource (name t) (host a))).
  { apply (opens_start _ _ _ _ (name t)); [done|done|]. split; [done|]. split; [done|]. intros hst [= <-]. exists a, t.
    split; [by apply confirmed_primary_l|]. split; [done|]. split; [done|]. split; [done|]. split; [done|]. split; [done|]. left.
    exists h, t1. split; [done|]. split; [done|]. by eapply ensure_runs. }
  intros ok. assert (without mutation_gate [ev (Ans := ans) (ChangeReplicationSource (name t) (host a)) ok] /\ without start_gate [ev (Ans := ans) (ChangeReplicationSource (name t) (host a)) ok]) as [Hw1 Hw2]
    by (split; by repeat constructor).
  destruct ok; cbn [negb]; apply scwp_bind, gw_start; try (by apply admitted_l); try (by apply gated_l); intros; by apply scwp_ret.
Qed.

Lemma gw_repoint a t h p : trackers p = l -> admitted l h -> gated l h (name t) -> follows_primary h a t -> gw (repointReplica a (name t)) h p keeps.
Proof using.
  intros Hp Ha Hg Hf. unfold repointReplica. apply scwp_bind, gw_plain; [solve_calm|apply ensure_gateless|done|].
  intros t1 e p1 _ Hp1 Hm Hst. destruct e; [by apply scwp_ret|]. apply scwp_bind, (scwp_call _ (StopReplica (name t))); [by apply quiet_opens|].
  intros ok. destruct ok; cbn [negb]; [|by apply scwp_ret]. apply gw_repoint_stopped; [done| | | |auto].
  - apply admitted_l; [by apply admitted_l|by repeat constructor].
  - apply gated_l; [by apply gated_l|by repeat constructor].
  - by do 2 apply follows_primary_l.
Qed.

Lemma gw_converge_admitted a t repl direct h p : trackers p = l -> admitted l h -> follows_primary h a t ->
  gw (converge_admitted cfg unicode_lower a t repl direct) h p keeps.
Proof using.
  intros Hp Ha Hf. unfold converge_admitted. apply scwp_bind. apply (scwp_mono _ _ _ _ keeps).
  - apply gw_gate; [done|done|]. intros h' [t' ->] Ha' Hg'. destruct direct; [by apply gw_restart|]. apply gw_repoint; [done|done|done|]. by apply follows_primary_l.
  - intros h' e p' Hp'. unfold verifyDirectReplica. apply gw_calm; [solve_calm|done|done].
Qed.

Lemma gw_converge_site a t repl c h p : trackers p = l -> confirmed_primary l h a -> t ∈ l -> gw (converge_site cfg unicode_lower a t repl c) h p keeps.
Proof using.
  intros Hp Hc Hin. unfold converge_site. destruct repl as [r|]; [|by apply scwp_ret]. case_bool_decide as Hn; cbn [orb]; [by apply scwp_ret|].
  case_bool_decide as Hro; cbn [negb orb]; [|by apply scwp_ret]. destruct (has_source _); cbn [negb]; [|by apply scwp_ret]. cbn zeta.
  destruct (_ && SQLRunning r); [apply gw_calm; [solve_calm|done|done]|]. apply scwp_bind, gw_calm; [solve_calm|done|]. intros t1 held p1 _ Hp1.
  destruct held; [apply gw_calm; [solve_calm|done|done]|]. cbn [suppressed handled]. destruct (suppressed c); [apply gw_calm; [solve_calm|done|done]|].
  apply scwp_bind, gw_calm; [solve_calm|done|]. intros t2 ok p2 H2 Hp2. destruct ok; cbn [negb]; [|apply gw_calm; [solve_calm|done|done]].
  apply scwp_bind. eapply scwp_mono; [apply gw_converge_admitted; [done|exact (begin_follower_runs _ _ _ Hp1 H2 _)|]|].
  - split; [by do 2 apply confirmed_primary_l|done].
  - intros h' v p' Hp'. by apply scwp_ret.
Qed.

Lemma gw_converge_sites a ts : (forall t, t ∈ ts -> t ∈ l) -> forall repls c h p, trackers p = l -> confirmed_primary l h a ->
  gw (converge_sites cfg unicode_lower a ts repls c) h p keeps.
Proof using.
  induction ts as [|t ts IH]; intros Hts repls c h p Hp Hc; [by apply scwp_ret|]. destruct repls as [|repl repls]; [by apply scwp_ret|]. cbn [converge_sites].
  apply scwp_bind. eapply cwp_mono; [apply cwp_extends, (gw_converge_site a t repl c h p Hp Hc); apply Hts; left|].
  intros h' [r p'] [Hp' [t' ->]]. apply scwp_bind. eapply scwp_mono; [apply IH; [|done|by apply confirmed_primary_l]|].
  - intros x Hx. apply Hts. by right.
  - intros h'' rest p'' Hp''. by apply scwp_ret.
Qed.

Lemma gw_convergence repls h p : trackers p = l -> gw (checkSourceConvergence cfg unicode_lower repls) h p keeps.
Proof using.
  intros Hp. unfold checkSourceConvergence. apply scwp_bind, gw_calm; [solve_calm|done|]. intros t1 [a|] p1 H1 Hp1; [|by apply scwp_ret].
  apply scwp_bind, gw_calm; [solve_calm|done|]. intros t2 s p2 _ Hp2. apply scwp_bind, scwp_get. unfold id. rewrite Hp2. apply scwp_bind.
  eapply scwp_mono; [apply gw_converge_sites; [done|done|]|].
  - apply confirmed_primary_l, confirmed_primary_r. exact (active_runs _ _ _ _ Hp H1).
  - intros h' r p' Hp'. by apply scwp_ret.
Qed.

(** ** Old primaries *)

(** A rewrite follows a read of both sets, the old primary's contained in the new one's. *)
Lemma initiate_runs old new p t c a p' : runs (initiateRecovery cfg old new p) t ((c, a, true), p') -> contained t new old.
Proof using.
  intros (t1 & pre & p1 & t2 & -> & _ & H)%sbind_runs. apply contained_later.
  assert (forall b p t p', runs (back_off old b p) t ((c, a, true), p') -> False) as Hb by (intros b q t q' (? & ? & ? & ? & -> & _ & (_ & ? & _)%sret_runs)%sbind_runs; done).
  destruct pre as [pre|]; [|by apply Hb in H].
  apply sbind_runs in H as (t3 & e & p2 & t4 & -> & _ & H). apply contained_later. destruct e; [by apply sret_runs in H as (_ & ? & _)|].
  apply sbind_runs in H as (t5 & f & p3 & t6 & -> & _ & H). apply contained_later. destruct f; cbn [negb] in H; [|by apply Hb in H].
  apply sbind_runs in H as (t7 & d & p4 & t8 & -> & _ & H). apply contained_later. destruct d; cbn [negb] in H; [|by apply sret_runs in H as (_ & ? & _)].
  apply sbind_runs in H as (t9 & oraw & p5 & t10 & -> & (-> & ->)%(scall_runs (Ans := ans) (GetGtidExecuted old)) & H).
  destruct oraw as [oraw|]; [|by apply Hb in H].
  apply sbind_runs in H as (t11 & nraw & p6 & t12 & -> & (-> & ->)%(scall_runs (Ans := ans) (GetGtidExecuted new)) & H).
  destruct nraw as [nraw|]; [|by apply Hb in H].
  destruct (ParseGTIDSet oraw) as [go|] eqn:Eo; [|by apply Hb in H]. destruct (ParseGTIDSet nraw) as [gn|] eqn:En; [|by apply Hb in H].
  unfold judge_recovery in H. destruct (IsEmpty go); [by apply Hb in H|]. destruct (Contains gn go) eqn:Ec.
  - exists gn, go. split; [exists nraw; split; [right; left|done]|]. split; [|done]. exists oraw. split; [left|done].
  - cbn zeta in H. apply sbind_runs in H as (? & ? & ? & ? & -> & _ & H). apply sbind_runs in H as (? & ? & ? & ? & -> & _ & H). by apply sret_runs in H as (_ & ? & _).
Qed.

Lemma gw_recover_old a t h p : trackers p = l -> admitted l h -> gated l h (name t) -> follows_primary h a t -> contained h (name a) (name t) ->
  gw (RecoverOldPrimary (name t) (host a)) h p keeps.
Proof using.
  intros Hp Ha Hg (Hc & Hin & Hne & Hro) Hk. unfold RecoverOldPrimary.
  assert (forall o (x : ans o), gateless o = true -> without mutation_gate [ev o x] /\ without start_gate [ev o x]) as Hw.
  { intros o x Ho. apply gateless_without. by repeat constructor. }
  apply scwp_bind, (scwp_call _ (SetSuperReadOnly (name t) true)); [by apply quiet_opens|]. intros ok. destruct ok; cbn [negb]; [|by apply scwp_ret].
  apply scwp_bind, (scwp_call _ (StopReplica (name t))); [by apply quiet_opens|]. intros ok. destruct ok; cbn [negb]; [|by apply scwp_ret].
  apply scwp_bind, (scwp_call _ (ResetReplicaAll (name t))); [by apply quiet_opens|]. intros ok. destruct ok; cbn [negb]; [|by apply scwp_ret].
  assert (admitted l (((h ++ [ev (Ans := ans) (SetSuperReadOnly (name t) true) true]) ++ [ev (Ans := ans) (StopReplica (name t)) true]) ++ [ev (Ans := ans) (ResetReplicaAll (name t)) true])) as Ha'.
  { apply admitted_l; [apply admitted_l; [apply admitted_l|]|]; [done|by apply Hw..]. }
  assert (gated l (((h ++ [ev (Ans := ans) (SetSuperReadOnly (name t) true) true]) ++ [ev (Ans := ans) (StopReplica (name t)) true]) ++ [ev (Ans := ans) (ResetReplicaAll (name t)) true]) (name t)) as Hg'.
  { apply gated_l; [apply gated_l; [apply gated_l|]|]; [done|by apply Hw..]. }
  apply scwp_bind, (scwp_call _ (ChangeReplicationSource (name t) (host a))).
  { apply (opens_start _ _ _ _ (name t)); [done|done|]. split; [done|]. split; [done|]. intros hst [= <-]. exists a, t.
    split; [by do 3 apply confirmed_primary_l|]. split; [done|]. split; [done|]. split; [done|]. split; [done|]. split; [done|]. right.
    split; [by do 3 apply contained_stays|]. do 2 apply saw_l. apply saw_last. }
  intros ok. destruct ok; cbn [negb]; [|by apply scwp_ret].
  apply scwp_bind, gw_start; [apply admitted_l; [done|by apply Hw]|apply gated_l; [done|by apply Hw]|]. intros. by apply scwp_ret.
Qed.

Lemma gw_rewrite a t e h p : trackers p = l -> follows_primary h a t -> contained h (name a) (name t) -> gw (rewriteOldPrimary (name t) (host a) e) h p keeps.
Proof using.
  intros Hp Hf Hk. unfold rewriteOldPrimary. apply scwp_bind, gw_calm; [solve_calm|done|]. intros t1 ok p1 H1 Hp1.
  destruct ok; cbn [negb]; [|apply gw_calm; [solve_calm|done|done]]. pose proof (begin_follower_runs _ _ _ Hp H1 h) as Ha.
  apply scwp_bind, gw_locked. intros s0. destruct (_ =? e); [|apply gw_calm; [solve_calm|done|done]]. unfold executeRecovery.
  apply scwp_bind, scwp_bind. apply (scwp_mono _ _ _ _ keeps).
  - apply gw_gate; [done|apply admitted_l; [done|by repeat constructor]|]. intros h' [t' ->] Ha' Hg'.
    apply gw_recover_old; [done|done|done|by do 3 apply follows_primary_l|by do 3 apply contained_stays].
  - intros h' e' p' Hp'. apply scwp_ret. apply (scwp_call _ ExitGate); [by apply quiet_opens|]. done.
Qed.

Lemma gw_attempt a t h p : trackers p = l -> follows_primary h a t -> gw (attempt_recovery cfg a (name t)) h p keeps.
Proof using.
  intros Hp Hf. unfold attempt_recovery. apply scwp_bind, gw_locked. intros s0. apply scwp_bind, gw_calm; [solve_calm|done|].
  intros t1 [[c b] rw] p1 H1 Hp1. apply scwp_bind, (scwp_call _ ExitGate); [by apply quiet_opens|]. intros [].
  apply scwp_bind. apply (scwp_mono _ _ _ _ keeps); [|intros h' [] p' Hp'; by apply scwp_ret]. destruct rw; [|by apply scwp_ret].
  apply scwp_bind, (scwp_call _ PersistStatus); [by apply quiet_opens|]. intros []. apply gw_rewrite; [done|by do 4 apply follows_primary_l|].
  do 2 apply contained_stays. apply contained_later. by eapply initiate_runs.
Qed.

Lemma due_runs t r hd p tr p' : runs (recovery_due t r hd p) tr (true, p') -> tstate t = StateReadOnly.
Proof using.
  unfold recovery_due. case_bool_decide; cbn [orb]; [by intros (_ & ? & _)%sret_runs|]. case_bool_decide; [done|]. by intros (_ & ? & _)%sret_runs.
Qed.

Lemma gw_scan a hd xs : (forall x, x ∈ xs -> fst x ∈ l) -> forall h p, trackers p = l -> confirmed_primary l h a -> gw (recovery_scan cfg a xs hd) h p keeps.
Proof using.
  induction xs as [|[t r] xs IH]; intros Hxs h p Hp Hc; [by apply scwp_ret|]. cbn [recovery_scan].
  assert (forall x, x ∈ xs -> fst x ∈ l) as Hxs' by (intros x Hx; apply Hxs; by right). specialize (IH Hxs').
  case_bool_decide as Hn; [by apply IH|]. apply scwp_bind, gw_calm; [solve_calm|done|]. intros t1 due p1 H1 Hp1.
  destruct due; cbn [negb]; [|apply IH; [done|by apply confirmed_primary_l]]. apply due_runs in H1.
  apply scwp_bind, gw_calm; [solve_calm|done|]. intros t2 ok p2 _ Hp2. destruct ok; cbn [negb]; [|apply gw_calm; [solve_calm|done|done]].
  apply scwp_bind. eapply cwp_mono; [apply cwp_extends, (gw_attempt a t ((h ++ t1) ++ t2) p2 Hp2)|].
  - split; [by do 2 apply confirmed_primary_l|]. split; [exact (Hxs (t, r) ltac:(left))|]. done.
  - intros h' [[c acted] p'] [Hp' [t' ->]]. cbn [fst snd] in *. destruct acted; [by apply scwp_ret|]. apply IH; [done|]. by do 3 apply confirmed_primary_l.
Qed.

Lemma gw_recovery repls hd h p : trackers p = l -> gw (checkRecoveryWithConvergence cfg repls hd) h p keeps.
Proof using.
  intros Hp. unfold checkRecoveryWithConvergence. apply scwp_bind, gw_calm; [unfold isBootstrapping, isTopologyFrozen; solve_calm|done|].
  intros t1 [] p1 _ Hp1; [by apply scwp_ret|]. apply scwp_bind, gw_calm; [solve_calm|done|]. intros t2 [] p2 _ Hp2; [by apply scwp_ret|].
  destruct (repl_user_set cfg); cbn [negb]; [|by apply scwp_ret]. apply scwp_bind, gw_calm; [unfold followerMutationSuppressed; solve_calm|done|].
  intros t3 [] p3 _ Hp3; [apply gw_calm; [solve_calm|done|done]|]. apply scwp_bind, gw_calm; [apply calm_update|done|]. intros t4 [] p4 _ Hp4.
  apply scwp_bind, gw_calm; [solve_calm|done|]. intros t5 [a|] p5 H5 Hp5; [|by apply scwp_ret]. apply scwp_bind, scwp_get. unfold id. rewrite Hp5.
  apply gw_scan; [|done|apply confirmed_primary_r; exact (active_runs _ _ _ _ Hp4 H5)]. intros [t r] Hx%elem_of_zip_l. done.
Qed.

(** Both, with the audit between them. *)
Lemma gw_followers repls unread h p : trackers p = l -> gw (check_followers cfg unicode_lower repls unread) h p keeps.
Proof using.
  intros Hp. unfold check_followers. apply scwp_bind. eapply scwp_mono; [by apply gw_convergence|]. intros h1 conv p1 Hp1.
  apply scwp_bind, gw_calm; [solve_calm|done|]. intros t2 [] p2 _ Hp2. apply scwp_bind. eapply scwp_mono; [by apply gw_recovery|].
  intros h3 b p3 Hp3. by apply scwp_ret.
Qed.

End repoint.
