(* ===== verification/PollHistory.v ===== *)
(** * The topology manager's poll: its guarantees

    Over one cycle: a site is opened to writes, and a replica started or repointed, only
    with its evidence. *)
From S2P Require Import Prelude GoStd Intervals GtidSet SiteState Effects GoTime Failover FailoverRecord ClaimSlot Claims Protocol PollData PollSteps PollBootstrap PollAct PollFollow PollRecover PollCycle PollSafety PollProofs PollRepoint.

Local Open Scope Z_scope.

#[local] Arguments prog_bind {Op Ans A B} _ _ : simpl never.

Import GTID Matrix FailoverRecords ClaimSlot Claims Poll PollOps PollBoot PollAct PollFollow PollRecover PollCycle.

#[local] Hint Resolve saw_l saw_r saw_last read_l read_r gtid_read_l gtid_read_r : core.

Section cycle.

Context (cfg : TopologyConfig) (unicode_lower : string -> string).

(** ** Observations *)

(** The result is the answer the site gave. *)
Definition answered (h : list (event ans)) (t : siteTracker) (r : pollResult) : Prop :=
  match r with
  | Probed ro => saw h (CheckReadOnly (name t)) ro
  | Deferred => True
  end.

(** The poll started from the trackers [l0] and classified the sites as in [l], by the
    debounced answers of its own probes. *)
Definition classified (l0 : list siteTracker) (h : list (event ans)) (l : list siteTracker) : Prop := exists rs probeStart now,
  Forall2 (answered h) l0 rs
  /\ map view l = map (fun j => view (settled_tracker now j)) (judge_all cfg probeStart (PollInterval cfg) l0 rs).

Lemma classified_l l0 h t l : classified l0 h l -> classified l0 (h ++ t) l.
Proof using.
  intros (rs & s & now & H & E). exists rs, s, now. split; [|done]. eapply Forall2_impl; [exact H|]. intros x [|ro]; simpl; auto.
Qed.

Lemma classified_r l0 h t l : classified l0 t l -> classified l0 (h ++ t) l.
Proof using.
  intros (rs & s & now & H & E). exists rs, s, now. split; [|done]. eapply Forall2_impl; [exact H|]. intros x [|ro]; simpl; auto.
Qed.

Lemma classified_same l0 h l l' : map view l' = map view l -> classified l0 h l -> classified l0 h l'.
Proof using. intros E (rs & s & now & H & El). exists rs, s, now. split; [done|]. congruence. Qed.

Lemma probes_runs b start l p t rs p' : runs (probe_sites b start l p) t (rs, p') -> p' = p /\ Forall2 (answered t) l rs.
Proof using.
  revert p t rs p'. induction l as [|x l IH]; intros p t rs p' H; simpl in H.
  - apply sret_runs in H as (-> & -> & ->). split; [done|constructor].
  - apply sbind_runs in H as (t1 & r & p1 & t2 & -> & H1 & H). apply sbind_runs in H as (t3 & rest & p2 & t4 & -> & H2 & H).
    apply sret_runs in H as (-> & -> & ->).
    assert (p1 = p /\ answered t1 x r) as [-> Hr].
    { destruct (probe_due b start x); [|by apply sret_runs in H1 as (-> & -> & ->)].
      apply sbind_runs in H1 as (t5 & ro & p3 & t6 & -> & (-> & ->)%(scall_runs (Ans := ans) (CheckReadOnly (name x))) & (-> & -> & ->)%sret_runs). split; [done|]. simpl. left. }
    apply IH in H2 as [-> Hrest]. split; [done|]. constructor.
    + destruct r; simpl in *; auto.
    + eapply Forall2_impl; [exact Hrest|]. intros y [|ro]; simpl; auto.
Qed.

Lemma observe_runs b e p t r p' : runs (observe_sites cfg b e p) t (Some r, p') -> classified (trackers p) t (trackers p').
Proof using.
  unfold observe_sites. intros (t1 & start & p1 & t2 & -> & (-> & ->)%scall_runs & H)%sbind_runs.
  apply sbind_runs in H as (t3 & q & p2 & t4 & -> & (-> & -> & ->)%sget_runs & H). unfold id in H.
  apply sbind_runs in H as (t5 & rs & p3 & t6 & -> & [-> Hrs]%probes_runs & H).
  apply sbind_runs in H as (t7 & now & p4 & t8 & -> & (-> & ->)%scall_runs & H). cbn zeta in H.
  apply sbind_runs in H as (t9 & [] & p5 & t10 & -> & (-> & ->)%smodify_runs & H).
  apply sbind_runs in H as (t11 & s & p6 & t12 & -> & (s0 & -> & -> & ->)%locked_runs & H).
  destruct (negb (_ =? e)); [by apply sret_runs in H as (_ & ? & _)|]. cbn zeta in H.
  apply sbind_runs in H as (t13 & [] & p7 & t14 & -> & (-> & ->)%smodify_runs & H).
  apply sbind_runs in H as (t15 & [] & p8 & t16 & -> & H1 & H).
  match type of H1 with runs (?m ?q) _ _ => assert (calm m) as [_ Hc1] by solve_calm end. apply Hc1 in H1. unfold same_sites in H1. cbn in H1.
  apply sbind_runs in H as (t19 & [] & p10 & t20 & -> & H2 & H). apply sret_runs in H as (-> & _ & ->).
  assert (calm (each taint_transition (judge_all cfg start (PollInterval cfg) (trackers p) rs))) as [_ Hc].
  { apply calm_each. intros j. unfold taint_transition. solve_calm. }
  apply Hc in H2. unfold same_sites in H2. rewrite H2, H1. exists rs, start, now. split; [|by rewrite map_map].
  eapply Forall2_impl; [exact Hrs|]. intros x [|ro]; simpl; [done|]. intros Hx. apply (saw_r [_]). by apply saw_l.
Qed.

Lemma observe_quiet b e : sfrees quiet (observe_sites cfg b e).
Proof using.
  pose proof (proj1 calm_locked). assert (forall s l, sfrees quiet (probe_sites b s l)) by (intros; apply calm_probes).
  assert (forall js, sfrees quiet (each taint_transition js)).
  { intros js. apply (calm_each taint_transition). intros j. unfold taint_transition. solve_calm. }
  unfold observe_sites. solve_frees.
Qed.

(** ** The cycle *)

(** A poll that started from [l0] may make the call after the calls [h]. *)
Definition poll_opens (l0 : list siteTracker) (h : list (event ans)) (o : op) : Prop :=
  quiet o = false -> exists l, classified l0 h l /\ opens cfg l h o.

Lemma quiet_poll_opens l0 h o : quiet o = true -> poll_opens l0 h o.
Proof using. intros Hq Hn. congruence. Qed.

#[local] Abbreviation pw l0 := (scwp (poll_opens l0)).

(** A step whose calls hold their evidence for the sites as classified. *)
Lemma pw_step l0 l {A} (m : poll A) h p (Q : list (event ans) -> A -> poller -> Prop) : classified l0 h l -> scwp (opens cfg l) m h p Q ->
  pw l0 m h p (fun h' a p' => Q h' a p' /\ classified l0 h' l).
Proof using.
  intros Hc H. eapply cwp_mono; [apply cwp_extends|].
  - eapply cwp_weaken_from; [|exact H]. intros t o Ho _. exists l. split; [by apply classified_l|exact Ho].
  - intros h' [a p'] [HQ [t ->]]. split; [exact HQ|]. by apply classified_l.
Qed.

Lemma pw_calm l0 l {A} (m : poll A) h p (Q : list (event ans) -> A -> poller -> Prop) : calm m -> trackers p = l -> classified l0 h l ->
  (forall t a p', runs (m p) t (a, p') -> trackers p' = l -> classified l0 (h ++ t) l -> Q (h ++ t) a p') -> pw l0 m h p Q.
Proof using.
  intros [Hf Hs] Hp Hc HQ. eapply (scwp_runs _ quiet); [|exact Hf|].
  - intros h' o. apply quiet_poll_opens.
  - intros t a p' H. apply HQ; [done| |by apply classified_l]. specialize (Hs _ _ _ _ H). unfold same_sites in Hs. congruence.
Qed.

Lemma pw_decide l0 tr la h p : classified l0 h (trackers p) ->
  pw l0 (decide_and_act cfg tr la) h p (fun h' _ p' => trackers p' = trackers p /\ classified l0 h' (trackers p)).
Proof using.
  intros Hc. remember (trackers p) as l eqn:Hp. symmetry in Hp. unfold decide_and_act. apply (pw_step l0 l); [done|].
  apply scwp_bind, gw_calm; [unfold peekKeyringRotationBlockedDirty; solve_calm|done|]. intros t1 blocked p1 _ Hp1.
  apply scwp_bind, gw_calm; [solve_calm|done|]. intros t2 retry p2 _ Hp2.
  apply scwp_bind, gw_calm; [solve_calm|done|]. intros t3 obs p3 H3 Hp3. cbn zeta.
  assert (acts_on cfg l (((h ++ t1) ++ t2) ++ t3) (EvalCrossSite obs (SitePriorities cfg))) as Ha.
  { unfold observations in H3. apply sbind_runs in H3 as (t4 & s & p4 & t5 & -> & [Hs ->]%locked_read & (-> & -> & ->)%sget_runs).
    rewrite Hp2 in Hs |- *. exists s. split; [auto|done]. }
  apply scwp_bind, (scwp_mono _ _ _ _ (fun _ _ p' => trackers p' = l)).
  { destruct (_ || _); [|by apply scwp_ret]. apply scwp_bind, gw_calm; [apply calm_update|done|]. intros t4 [] p4 _ Hp4.
    apply gw_apply; [done|by apply acts_on_l]. }
  intros h4 [] p4 Hp4. destruct tr; [by apply scwp_ret|]. apply scwp_bind, gw_calm; [solve_calm|done|]. intros t5 b p5 _ Hp5.
  unfold retryFreshDeployBootstrap. case_bool_decide; cbn [negb]; [|by apply scwp_ret]. apply scwp_bind, gw_calm; [solve_calm|done|].
  intros t6 [] p6 _ Hp6; [by apply scwp_ret|]. apply scwp_bind, gw_calm; [solve_calm|done|]. intros t7 s p7 [Hs ->]%locked_read _.
  apply scwp_bind, (scwp_mono _ _ _ _ (fun _ _ p' => trackers p' = l)).
  - apply gw_fresh_deploy; [done|]. exists s. rewrite Hp6 in Hs. split; [auto|done].
  - intros h8 a8 p8 Hp8. by apply scwp_ret.
Qed.

(** What a site's debounce reads of its tracker. *)
Definition counters (t : siteTracker) : Claims.siteTracker * Z * Z := (view t, failCount t, recoveryCount t).

Lemma counters_view l l' : map counters l' = map counters l -> map view l' = map view l.
Proof using. intros E. apply (f_equal (map (fun c => c.1.1))) in E. by rewrite !map_map in E. Qed.

(** The replication checks change no site's view or counters. *)
Lemma replica_view t p tr c p' : runs (check_replica t p) tr (c, p') -> counters (tracker c) = counters t.
Proof using.
  unfold check_replica. destruct (negb _); [by intros (_ & -> & _)%sret_runs|]. destruct (probeFailed t); [by intros (_ & -> & _)%sret_runs|].
  intros (t1 & rs & p1 & t2 & -> & _ & H)%sbind_runs. destruct rs as [rs|].
  - apply sbind_runs in H as (t3 & [] & p2 & t4 & -> & _ & H). apply sret_runs in H as (_ & -> & _).
    cbn. unfold note_replication, replication_lost. destruct (replicaStatusHealthy rs); [|done]. cbn zeta. by destruct (_ >=? _).
  - apply sbind_runs in H as (t3 & [] & p2 & t4 & -> & _ & H). by apply sret_runs in H as (_ & -> & _).
Qed.

Lemma replicas_view l p tr cs p' : runs (check_replicas l p) tr (cs, p') -> map counters (map tracker cs) = map counters l.
Proof using.
  revert p tr cs p'. induction l as [|t l IH]; intros p tr cs p' H; simpl in H; [by apply sret_runs in H as (_ & -> & _)|].
  apply sbind_runs in H as (t1 & x & p1 & t2 & -> & H1%replica_view & H). apply sbind_runs in H as (t3 & xs & p2 & t4 & -> & H2%IH & H).
  apply sret_runs in H as (_ & -> & _). simpl. by rewrite H1, H2.
Qed.

Lemma pw_replication l0 h p : classified l0 h (trackers p) -> 
  pw l0 check_replication h p (fun h' _ p' => classified l0 h' (trackers p') /\ map counters (trackers p') = map counters (trackers p)).
Proof using.
  intros Hc. unfold check_replication. apply scwp_bind, scwp_get, scwp_bind, (pw_calm l0 (trackers p)); [apply calm_replicas|done|done|].
  intros t cs p1 H1 _ Hc1. apply scwp_bind, scwp_modify, scwp_ret. apply replicas_view in H1. split; [|exact H1].
  by apply (classified_same _ _ (trackers p)); [apply counters_view|].
Qed.

Lemma pw_act l0 tr la h p : classified l0 h (trackers p) -> 
  pw l0 (act_cycle cfg unicode_lower tr la) h p (fun _ _ p' => map counters (trackers p') = map counters (trackers p)).
Proof using.
  intros Hc. unfold act_cycle. apply scwp_bind. eapply scwp_mono; [by apply pw_decide|]. intros h1 [] p1 [Hp1 Hc1].
  apply scwp_bind, (pw_calm l0 (trackers p)); [by apply calm_call|done|done|]. intros t2 [] p2 _ Hp2 Hc2.
  apply scwp_bind, (pw_calm l0 (trackers p)); [apply calm_update|done|done|]. intros t3 [] p3 _ Hp3 Hc3.
  apply scwp_bind. eapply scwp_mono; [apply pw_replication; by rewrite Hp3|]. intros h4 r p4 [Hc4 Hp4]. rewrite Hp3 in Hp4.
  apply scwp_bind. eapply scwp_mono; [apply (pw_step l0 (trackers p4)); [done|by apply gw_followers]|]. intros h5 [] p5 [Hp5 Hc5]. cbn in Hp5.
  apply scwp_bind. eapply scwp_mono; [apply (pw_step l0 (trackers p4)); [done|by apply gw_reassert]|]. intros h6 b p6 [Hp6 Hc6]. cbn in Hp6.
  eapply (pw_calm l0 (trackers p4)); [solve_calm|done|done|]. intros t7 [] p7 _ -> _. exact Hp4.
Qed.

Lemma pw_cycle b p : pw (trackers p) (poll_cycle cfg unicode_lower b) [] p (fun _ _ _ => True).
Proof using.
  unfold poll_cycle. apply scwp_bind. eapply (scwp_runs _ quiet); [intros h o; apply quiet_poll_opens|apply calm_locked|].
  intros t1 s p1 [_ ->]%locked_read. cbn zeta. apply scwp_bind.
  eapply (scwp_runs _ quiet); [intros h o; apply quiet_poll_opens|apply observe_quiet|].
  intros t2 [[tr la]|] p2 H2; [|by apply scwp_ret]. apply observe_runs in H2. apply (classified_r _ t1) in H2.
  apply scwp_bind, (pw_calm _ (trackers p2)); [solve_calm|done|done|]. intros t3 b3 p3 _ Hp3 Hc3.
  apply scwp_bind, (pw_calm _ (trackers p2)); [solve_calm|done|done|]. intros t4 [] p4 _ Hp4 Hc4; [|by apply scwp_ret].
  eapply scwp_mono; [apply pw_act; by rewrite Hp4|done].
Qed.

End cycle.

(** C1. Every statement of a poll that opens a site [n] to writes (clears super_read_only or
    read_only) is made after the poll classified the sites by its own debounced probes, and
    follows in the same poll the evidence of one of three decisions.
    An emergency failover: either the matrix proposed [n] and [n]'s set was read, neither
    wiped nor behind the last recorded promotion; or the matrix reported a split brain, no
    failover was recorded, the configured priorities resolve it to [n] and every writable
    loser was sent super_read_only=ON, in which case [n]'s set is not consulted. In both, no
    promotion was pending, the cooldown was over, an unfinished restore allows only its seed,
    [n] is promotable, and the topology claim was granted and is not yet released.
    The seed of a fresh deploy: [n] is the promotable site selected, no failover was recorded,
    no bootstrap runs, every site is settled and answered that it does not replicate and has
    no user schemas (where that could not be read, an empty executed set), and every other
    site was fenced and answered read-only.
    A re-assert: [n] is the recorded, restored or observed primary, observed read-only
    (answering super_read_only off when it was only observed) and promotable, no promotion pending, its set holding the last recorded promotion's; every
    other site, a reader whose clone is running aside, was observed read-only, answered so
    now, and holds nothing [n] lacks apart from its recorded divergence, unless [n]
    is a restore's seed and the site has no replication and no user schemas; and the claim was granted. *)
Theorem poll_opens_proved cfg unicode_lower backoff p tr r t1 o x t2 n : runs (poll_cycle cfg unicode_lower backoff p) tr r ->
  tr = t1 ++ ev o x :: t2 -> clears o = Some n ->
  exists l, classified cfg (trackers p) t1 l /\ writable_evidence cfg l t1 n.
Proof.
  intros H Htr Hn. destruct (scwp_sound _ _ _ _ _ _ _ (pw_cycle cfg unicode_lower backoff p) H) as [Hm _].
  destruct (Hm t1 (ev o x) t2 Htr) as (l & Hl & Ho & _); [|by exists l; auto]. unfold quiet. cbn. by rewrite Hn.
Qed.

(** C2. Every statement of a poll that starts a replica or points it at a source (source
    convergence, its rollbacks, the recovery of an old primary) is sent under an admitted
    follower mutation and the start gate, no restore holding the site stopped; and a
    replica is pointed only at the one site observed and confirmed writable, being another
    site observed read-only whose executed set was read contained in that primary's: read
    once its channel was stopped, or of an old primary that is fenced. *)
Theorem poll_repoints_proved cfg unicode_lower backoff p tr r t1 o x t2 n : runs (poll_cycle cfg unicode_lower backoff p) tr r ->
  tr = t1 ++ ev o x :: t2 -> starts o = Some n ->
  exists l, classified cfg (trackers p) t1 l /\ admitted l t1 /\ gated l t1 n
    /\ forall hst, o = ChangeReplicationSource n hst -> repoint_evidence l t1 n hst.
Proof.
  intros H Htr Hn. destruct (scwp_sound _ _ _ _ _ _ _ (pw_cycle cfg unicode_lower backoff p) H) as [Hm _].
  destruct (Hm t1 (ev o x) t2 Htr) as (l & Hl & _ & Ho).
  - change (quiet o = false). unfold quiet. rewrite Hn, (bool_decide_false (Some n = None)) by done. apply andb_false_r.
  - destruct (Ho n Hn) as (Ha & Hg & Hr). by exists l.
Qed.

(** ** Witness: a poll that fails over from an unreachable primary *)

Definition demo_site (n : string) (s : SiteState) : siteTracker :=
  {| name := n; role := SiteRolePrimaryCandidate; taintSelector := n; host := n; lbIP := n; tstate := s; failCount := if bool_decide (s = StateReadOnly) then 0 else 2;
     recoveryCount := 0; lastAnswerWritable := bool_decide (s = StateWritable); probes := 5; lastSeen := 1; nextProbe := 0; replicating := bool_decide (s = StateReadOnly);
     replicatingStreak := 2; probeFailed := false |}.

Definition demo_poller : poller := {| trackers := [demo_site "a" StateWritable; demo_site "b" StateReadOnly]; lastReassert := 0; lastFenceRetryLog := 0 |}.

Definition demo_config : TopologyConfig :=
  {| PollInterval := Second; FailureThreshold := 3; RecoveryThreshold := 2; FailoverCooldown := 0; SitePriorities := []; bootstrap_wired := true; recorder_wired := true;
     keyring_wired := false; emergency_wired := true; dns := Some DNSUpdater;
     repl_user_set := true; reclone_wired := true; ConnectionDrainTimeout := 0; ReadOnlyMaxLagSeconds := 30 |}.

Definition no_followers : Followers :=
  {| sources := ∅; gtidAudit := ∅; gtidAuditPrimary := ""; gtidAuditPrimaryUUID := ""; gtidAuditAuthority := 0; gtidAuditSourceUUID := ∅;
     pendingDivergentPromotion := None; recoveryDeferred := false; reclonePendingSite := ""; reclonePendingOwner := ""; recloneCompletedSite := "";
     recloneCompletedOwner := ""; cloneHoldReleaseSite := "" |}.

Definition demo_shared : Shared :=
  {| tmgr := {| Claims.sites := []; ready := true; retired := false; predecessorUpdateInFlight := false; deploymentChanging := 0; deploymentUpdatePending := false;
                deploymentUpdateRunning := false; deploymentAwaitingObservation := false; promotedSite := ""; topologyFrozen := false; bootstrapPhase := BootstrapPhaseNone;
                bootstrapRecipient := ""; restoreRecloneBlocked := []; restoreReclonePending := []; restorePeerHeld := []; keyringRotationBlocked := [];
                keyringRotationReserved := []; keyringRotationBlockedDirty := false; divergent := []; authorityEpoch := 7; crossSiteRetry := false; deploymentLeases := true;
                authority := {| lastFailover := 0; lastFailoverTarget := ""; lastFailoverLocal := false; promotionGtidExecuted := ""; groupHasData := true;
                                lastActiveSite := "a"; lastActiveSiteNamed := false; topologyGeneration := 0; deploymentActiveSite := ""; desired := None;
                                failoverStateDirty := false; statusWriteFailed := false |} |};
     plannedSlot := {| held := None; releaseGen := 0; recent := []; releases := [] |};
     promotedAt := 0; autoBootstrapSuppressed := false; initRestoreSeed := ""; bootstrapAdmitting := ""; bootstrapSource := ""; recovery := ∅;
     crossSiteRetryNotBefore := 0; authorityChanges := 0; dnsAppliedTarget := ""; dnsWriteFailed := false; dnsWithheld := false; keyringPromotionSkipped := [];
     keyringPromotionRefused := []; restoreReclonePromotionRefused := []; followers := no_followers |}.

Definition demo_answer (o : op) : ans o :=
  match o with
  | Lock => demo_shared
  | Now => UnixEpoch
  | CheckReadOnly n => if bool_decide (n = "b") then Some true else None
  | CheckSuperReadOnly _ => None
  | HasUserSchemas _ => None
  | GetGtidExecuted _ => Some "3e11fa47-71ca-11e1-9e33-c80aa9429562:1-5"
  | ShowReplicaStatus _ => Some (Some {| IORunning := true; SQLRunning := true; SourceHost := "a"; ExecutedGtidSet := "3e11fa47-71ca-11e1-9e33-c80aa9429562:1-5";
                                    SourceUUID := ""; SecondsBehindSource := Some 0 |})
  | RecordSpec => ("db", 60)
  | CurrentDNSEndpoint => None
  | CurrentDNSRecord => None
  | RequestKeyringUnseal _ => None
  | ReadGTIDSnapshot _ => Some ("", "3e11fa47-71ca-11e1-9e33-c80aa9429562:1-5")
  | KillAppConnections _ => Some 0
  | PredecessorMutating | UpdaterIsUpdating | ContextExpired => false
  | Unlock _ | GoBootstrap _ _ _ | FailoverStateUnlock | EmergencyFailoverCallback _ _ | ExitGate | StartGate | EndGate | Sleep _ | PersistStatus
  | ReassertRestoreGuards | CheckUpdate => tt
  | _ => true
  end.

Definition demo_poll : list (event ans) * (unit * poller) := exec (fun _ => demo_answer) (poll_cycle demo_config id true demo_poller) [].

Lemma demo_poll_runs : runs (poll_cycle demo_config id true demo_poller) demo_poll.1 demo_poll.2.
Proof. unfold demo_poll. apply exec_run. Qed.

Lemma demo_poll_clears : demo_poll.1 = take 43 demo_poll.1 ++ ev (Ans := ans) (SetReadOnly "b" false) true :: drop 44 demo_poll.1.
Proof. vm_compute. reflexivity. Qed.

(** The clear of [read_only] on "b". *)
Lemma poll_opens_proved_witness : exists l, classified demo_config (trackers demo_poller) (take 43 demo_poll.1) l
  /\ writable_evidence demo_config l (take 43 demo_poll.1) "b".
Proof. exact (poll_opens_proved _ _ _ _ _ _ _ _ _ _ _ demo_poll_runs demo_poll_clears eq_refl). Defined.

(** ** Witness: a poll that repoints a replica of a former primary *)

Definition follow_poller : poller :=
  {| trackers := [demo_site "a" StateWritable; demo_site "b" StateReadOnly]; lastReassert := 0; lastFenceRetryLog := 0 |}.

Definition follow_answer (o : op) : ans o :=
  match o with
  | CheckReadOnly n => Some (bool_decide (n = "b"))
  | GetGtidExecuted n => Some (if bool_decide (n = "a") then "3e11fa47-71ca-11e1-9e33-c80aa9429562:1-7" else "3e11fa47-71ca-11e1-9e33-c80aa9429562:1-5")
  | ShowReplicaStatus _ => Some (Some {| IORunning := true; SQLRunning := true; SourceHost := "old"; ExecutedGtidSet := "3e11fa47-71ca-11e1-9e33-c80aa9429562:1-5";
                                         SourceUUID := ""; SecondsBehindSource := None |})
  | o => demo_answer o
  end.

Definition follow_poll : list (event ans) * (unit * poller) := exec (fun _ => follow_answer) (poll_cycle demo_config id true follow_poller) [].

Lemma follow_poll_runs : runs (poll_cycle demo_config id true follow_poller) follow_poll.1 follow_poll.2.
Proof. unfold follow_poll. apply exec_run. Qed.

Lemma follow_poll_repoints : follow_poll.1 = take 34 follow_poll.1 ++ ev (Ans := ans) (ChangeReplicationSource "b" "a") true :: drop 35 follow_poll.1.
Proof. vm_compute. reflexivity. Qed.

Lemma poll_repoints_proved_witness : exists l, classified demo_config (trackers follow_poller) (take 34 follow_poll.1) l
  /\ admitted l (take 34 follow_poll.1) /\ gated l (take 34 follow_poll.1) "b"
  /\ forall hst, ChangeReplicationSource "b" "a" = ChangeReplicationSource "b" hst -> repoint_evidence l (take 34 follow_poll.1) "b" hst.
Proof. exact (poll_repoints_proved _ _ _ _ _ _ _ _ _ _ _ follow_poll_runs follow_poll_repoints eq_refl). Defined.
