(* ===== verification/PollGates.v ===== *)
(** * The topology manager's poll: its admissions to the follower-mutation gate

    A handoff waits for every admitted follower mutation to be released. One poll releases
    all of its admissions unless a restore holds a site; the convergence of a site held
    between its two checks keeps its admission for good. *)
From S2P Require Import Prelude GoStd Intervals GtidSet SiteState Effects GoTime Failover FailoverRecord ClaimSlot Claims Protocol PollData PollSteps PollBootstrap PollAct PollFollow PollRecover PollCycle PollSafety PollProofs PollRepoint PollHistory.

Local Open Scope Z_scope.

#[local] Arguments prog_bind {Op Ans A B} _ _ : simpl never.

Import GTID Matrix FailoverRecords ClaimSlot Claims Poll PollOps PollBoot PollAct PollFollow PollRecover PollCycle.

(** ** Admissions of a trace *)

Definition admission (e : event ans) : Z :=
  match projT1 e as o return ans o -> Z with
  | EnterGate => fun entered => if entered : bool then 1 else 0
  | ExitGate => fun _ => -1
  | _ => fun _ => 0
  end (projT2 e).

(** Admissions not yet released. *)
Definition outstanding (t : list (event ans)) : Z := foldr (fun e n => admission e + n) 0 t.

(** No section found a site held by a restore. *)
Definition no_hold (t : list (event ans)) : Prop := forall s, saw t Lock s -> restorePeerHeld (tmgr s) = [].

Lemma outstanding_app t1 t2 : outstanding (t1 ++ t2) = outstanding t1 + outstanding t2.
Proof. induction t1 as [|e t1 IH]; [done|]. cbn [app outstanding foldr] in *. fold (outstanding (t1 ++ t2)) (outstanding t1). lia. Qed.

Lemma no_hold_app t1 t2 : no_hold (t1 ++ t2) -> no_hold t1 /\ no_hold t2.
Proof. intros H. split; intros s Hs; apply H; [by apply saw_l|by apply saw_r]. Qed.

(** Every run of [m] moves the count by [n], or by more when a site is held. *)
Definition moves (n : Z) {A} (m : poll A) : Prop :=
  forall p t a p', runs (m p) t (a, p') -> n <= outstanding t /\ (no_hold t -> outstanding t = n).

Abbreviation releases m := (moves 0 m).

Lemma moves_ret {A} (a : A) : releases (pret a).
Proof. intros p t b p' (-> & _ & _)%sret_runs. done. Qed.

Lemma moves_get {A} (f : poller -> A) : releases (sget f).
Proof. intros p t b p' (-> & _ & _)%sget_runs. done. Qed.

Lemma moves_modify f : releases (smodify f).
Proof. intros p t b p' (-> & _)%smodify_runs. done. Qed.

Lemma moves_call o : mutation_gate o = false -> releases (pcall o).
Proof. intros Ho p t b p' (-> & _)%(scall_runs (Ans := ans) o). by destruct o. Qed.

Lemma moves_bind n1 n2 {A B} (m : poll A) (k : A -> poll B) : moves n1 m -> (forall a, moves n2 (k a)) -> moves (n1 + n2) (sbind m k).
Proof.
  intros Hm Hk p t b p' (t1 & a & p1 & t2 & -> & H1 & H2)%sbind_runs. apply Hm in H1 as [H1 E1]. apply Hk in H2 as [H2 E2].
  rewrite outstanding_app. split; [lia|]. intros [Hn1 Hn2]%no_hold_app. rewrite (E1 Hn1), (E2 Hn2). lia.
Qed.

(** The same count for the rest of the program. *)
Lemma moves_seq n {A B} (m : poll A) (k : A -> poll B) : releases m -> (forall a, moves n (k a)) -> moves n (sbind m k).
Proof. intros Hm Hk. by apply (moves_bind 0 n). Qed.

Lemma moves_each {A} (f : A -> poll unit) l : (forall x, releases (f x)) -> releases (each f l).
Proof. intros Hf. induction l as [|x l IH]; [apply moves_ret|]. apply moves_seq; [apply Hf|done]. Qed.

Lemma moves_or a b : releases a -> releases b -> releases (or_else a b).
Proof. intros Ha Hb. apply moves_seq; [done|]. intros []; [apply moves_ret|done]. Qed.

(** [ExitGate], then steps that release what they admit. *)
Lemma moves_exit {B} (k : unit -> poll B) : (forall a, releases (k a)) -> moves (-1) (sbind (pcall ExitGate) k).
Proof. intros Hk. apply (moves_bind (-1) 0); [|done]. intros p t b p' (-> & _)%(scall_runs (Ans := ans) ExitGate). done. Qed.

Create HintDb moves discriminated.

Ltac solve_moves :=
  repeat match goal with
  | |- moves _ (sret _) => apply moves_ret
  | |- moves _ (scall ?o) => exact (moves_call o eq_refl)
  | |- moves _ (sget _) => apply moves_get
  | |- moves _ (smodify _) => apply moves_modify
  | |- moves (-1) (sbind (scall ExitGate) _) => apply moves_exit; intros ?
  | |- moves _ (sbind _ _) => apply moves_seq; [|intros ?]
  | |- moves _ (each _ _) => apply moves_each; intros ?
  | |- moves _ (or_else _ _) => apply moves_or
  | |- moves _ (match ?x with _ => _ end) => destruct x
  | |- moves _ _ => progress cbn zeta
  | |- moves _ _ => solve [auto with moves]
  end.

(** A program that asks for an admission: refused, it goes on; admitted, it releases it. *)
Lemma moves_begin {B} (k : bool -> poll B) : releases (k false) -> moves (-1) (k true) -> releases (sbind beginFollowerMutation k).
Proof.
  intros Hf Ht p t b p' (t1 & ok & p1 & t2 & -> & H1 & H2)%sbind_runs.
  assert (outstanding t1 = if ok then 1 else 0) as E1.
  { unfold beginFollowerMutation, followerMutationSuppressed, locked in H1.
    apply sbind_runs in H1 as (t3 & busy & p2 & t4 & -> & (-> & ->)%(scall_runs (Ans := ans) PredecessorMutating) & H1).
    destruct busy; [by apply sret_runs in H1 as (-> & -> & _)|].
    apply sbind_runs in H1 as (t5 & e & p3 & t6 & -> & (-> & ->)%(scall_runs (Ans := ans) EnterGate) & H1). destruct e; cbn [negb] in H1; [|by apply sret_runs in H1 as (-> & -> & _)].
    apply sbind_runs in H1 as (t7 & s & p4 & t8 & -> & H3 & H1).
    apply sbind_runs in H3 as (t9 & s0 & p5 & t10 & -> & H3 & (-> & -> & ->)%sret_runs).
    apply sbind_runs in H3 as (t11 & s1 & p6 & t12 & -> & (-> & ->)%(scall_runs (Ans := ans) Lock) & (-> & _ & ->)%sget_runs).
    destruct (followerMutationSuppressedLocked _ _).
    - apply sbind_runs in H1 as (t13 & [] & p7 & t14 & -> & (-> & ->)%(scall_runs (Ans := ans) ExitGate) & (-> & -> & _)%sret_runs). done.
    - by apply sret_runs in H1 as (-> & -> & _). }
  rewrite outstanding_app, E1. destruct ok; [apply Ht in H2 as [H2 E2]|apply Hf in H2 as [H2 E2]]; (split; [lia|]; intros [_ Hn]%no_hold_app; rewrite (E2 Hn); lia).
Qed.

(** ** The steps on followers *)

Section steps.

Context (cfg : TopologyConfig) (unicode_lower : string -> string).

Lemma moves_locked : releases locked.
Proof. unfold locked. solve_moves. Qed.

#[local] Hint Resolve moves_locked : moves.

Lemma moves_update f : releases (update f).
Proof. unfold update. solve_moves. Qed.

#[local] Hint Resolve moves_update : moves.

Lemma moves_active : releases confirmedActivePrimary.
Proof. unfold confirmedActivePrimary, confirmWritable. solve_moves. Qed.

Lemma moves_suppressed : releases followerMutationSuppressed.
Proof. unfold followerMutationSuppressed. solve_moves. Qed.

Lemma moves_held n : releases (restorePeerHeldSite n).
Proof. unfold restorePeerHeldSite. solve_moves. Qed.

Lemma moves_ensure a n : releases (ensureGTIDContained a n).
Proof. unfold ensureGTIDContained. solve_moves. Qed.

#[local] Hint Resolve moves_active moves_suppressed moves_held moves_ensure : moves.

Lemma moves_restart a n : releases (restartDirectReplica a n).
Proof. unfold restartDirectReplica. solve_moves. Qed.

Lemma moves_repoint a n : releases (repointReplica a n).
Proof. unfold repointReplica, repoint_stopped. solve_moves. Qed.

Lemma moves_verify k n e : releases (verify_direct unicode_lower k n e).
Proof. induction k as [|k IH]; simpl; solve_moves. Qed.

Lemma moves_state t r c w e : releases (setSourceConvergence cfg unicode_lower t r c w e).
Proof. apply moves_update. Qed.

#[local] Hint Resolve moves_restart moves_repoint moves_verify moves_state : moves.

Lemma moves_gate n op : releases op -> releases (withReplicaStartGate n op).
Proof. intros Hop. unfold withReplicaStartGate. solve_moves. Qed.

(** An operation of a convergence never answers that the site is held. *)
Lemma mutation_not_held active n direct p t p' :
  ~ runs ((if direct : bool then restartDirectReplica (name active) n else repointReplica active n) p) t (Some PeerHeld, p').
Proof.
  assert (forall p t p', ~ runs (ensureGTIDContained (name active) n p) t (Some PeerHeld, p')) as He.
  { intros q u q' H. unfold ensureGTIDContained in H. srun_all; try done. repeat case_match; done. }
  intros H. destruct direct.
  - unfold restartDirectReplica in H. apply sbind_runs in H as (t1 & e & p1 & t2 & -> & H1 & H). destruct e as [e|]; [|by srun_all; case_match].
    apply sret_runs in H as (_ & [= <-] & _). by apply He in H1.
  - unfold repointReplica in H. apply sbind_runs in H as (t1 & e & p1 & t2 & -> & H1 & H). destruct e as [e|].
    + apply sret_runs in H as (_ & [= <-] & _). by apply He in H1.
    + apply sbind_runs in H as (t3 & ok & p2 & t4 & -> & _ & H). destruct ok; cbn [negb] in H; [|by apply sret_runs in H as (_ & ? & _)].
      unfold repoint_stopped in H. apply sbind_runs in H as (t5 & e & p3 & t6 & -> & H2 & H). destruct e as [[]|]; srun_all; try done; try (by apply He in H2); by case_match.
Qed.

(** The gate answers that the site is held only if a section found it so. *)
Lemma gate_held n op p t p' : (forall p t p', ~ runs (op p) t (Some PeerHeld, p')) -> runs (withReplicaStartGate n op p) t (Some PeerHeld, p') -> ~ no_hold t.
Proof.
  intros Hop H. unfold withReplicaStartGate, restorePeerHeldSite in H. apply sbind_runs in H as (t1 & [] & p1 & t2 & -> & _ & H).
  apply sbind_runs in H as (t3 & b & p2 & t4 & -> & H1 & H). apply sbind_runs in H1 as (t5 & s & p3 & t6 & -> & (s0 & -> & -> & ->)%locked_runs & (-> & -> & ->)%sret_runs).
  apply sbind_runs in H as (t7 & e & p4 & t8 & -> & H2 & H). apply sbind_runs in H as (t9 & [] & p5 & t10 & -> & _ & (_ & <- & _)%sret_runs).
  destruct (mem n _) eqn:Em; [|by apply Hop in H2]. intros Hn. specialize (Hn s0). cbn in Em. rewrite Hn in Em; [done|]. apply saw_r, saw_l. left.
Qed.

Lemma moves_admitted active t repl direct : moves (-1) (converge_admitted cfg unicode_lower active t repl direct).
Proof.
  intros p u v p' H. unfold converge_admitted in H. apply sbind_runs in H as (t1 & e & p1 & t2 & -> & H1 & H).
  assert (releases (withReplicaStartGate (name t) (if direct then restartDirectReplica (name active) (name t) else repointReplica active (name t)))) as Hg by (apply moves_gate; solve_moves).
  pose proof (Hg _ _ _ _ H1) as [Hle Heq]. rewrite outstanding_app.
  assert (forall m : poll (option ReplicaStatus), moves (-1) m -> runs (m p1) t2 (v, p') -> -1 <= outstanding t1 + outstanding t2 /\ (no_hold (t1 ++ t2) -> outstanding t1 + outstanding t2 = -1)) as Hrest.
  { intros m Hm [H2 E2]%Hm. split; [lia|]. intros [Hn1 Hn2]%no_hold_app. rewrite (Heq Hn1), (E2 Hn2). done. }
  destruct e as [[]|]; [|eapply Hrest; [|exact H]; unfold verifyDirectReplica; solve_moves..].
  assert (releases (setSourceConvergence cfg unicode_lower t (Some repl) sourceConvergencePending sourceReasonRestoreHold (host active) ;;* pret (@None ReplicaStatus))) as Hs by solve_moves.
  apply Hs in H as [H _]. split; [lia|]. intros [Hn _]%no_hold_app. exfalso. by apply (gate_held _ _ _ _ _ (mutation_not_held active (name t) direct) H1).
Qed.

#[local] Hint Resolve moves_admitted : moves.

Lemma moves_converge_site a t repl c : releases (converge_site cfg unicode_lower a t repl c).
Proof.
  unfold converge_site. destruct repl as [r|]; [|apply moves_ret]. destruct (_ || _); [apply moves_ret|]. cbn zeta. cbn [suppressed].
  destruct (_ && _); [solve_moves|]. apply moves_seq; [solve_moves|]. intros held. destruct held; [solve_moves|]. destruct (suppressed c); [solve_moves|].
  apply moves_begin; cbn [negb]; [solve_moves|]. apply (moves_bind (-1) 0); [solve_moves|]. intros v. apply moves_ret.
Qed.

#[local] Hint Resolve moves_converge_site : moves.

Lemma moves_converge_sites a l : forall repls c, releases (converge_sites cfg unicode_lower a l repls c).
Proof. induction l as [|t l IH]; intros [|repl repls] c; simpl; solve_moves. Qed.

#[local] Hint Resolve moves_converge_sites : moves.

Lemma moves_convergence repls : releases (checkSourceConvergence cfg unicode_lower repls).
Proof. unfold checkSourceConvergence, sourceConvergenceSuppressed. solve_moves. Qed.

Lemma moves_stamp_audit n : releases (stampGTIDAudit n).
Proof. unfold stampGTIDAudit. solve_moves. Qed.

#[local] Hint Resolve moves_stamp_audit : moves.

Lemma moves_audit_follower e a n : releases (auditFollower e a n).
Proof. unfold auditFollower, audit_reads. solve_moves. Qed.

#[local] Hint Resolve moves_audit_follower : moves.

Lemma moves_audit_pass e a l : releases (audit_pass e a l).
Proof. induction l as [|n l IH]; simpl; solve_moves. Qed.

#[local] Hint Resolve moves_audit_pass : moves.

Lemma moves_audit r u : releases (auditFollowerDivergence unicode_lower r u).
Proof. unfold auditFollowerDivergence. solve_moves. Qed.

Lemma moves_defer : releases defer_recovery.
Proof. unfold defer_recovery, pauseRecoveryDrains, noteRecoveryDeferred. solve_moves. Qed.

Lemma moves_stamp n : releases (stampRecoveryBackoff n).
Proof. unfold stampRecoveryBackoff. solve_moves. Qed.

Lemma moves_drain n : releases (advanceSiteAppConnectionDrain cfg n).
Proof. unfold advanceSiteAppConnectionDrain, drain_pass, completeSiteAppConnectionDrain. solve_moves. Qed.

#[local] Hint Resolve moves_defer moves_stamp moves_drain : moves.

Lemma moves_drained n r : releases (follower_drained cfg n r).
Proof.
  unfold follower_drained. apply moves_seq; [solve_moves|]. intros s. destruct (drainComplete _); [solve_moves|].
  apply moves_begin; cbn [negb]; solve_moves.
Qed.

#[local] Hint Resolve moves_drained : moves.

Lemma moves_clear_site t r : releases (clear_site cfg t r).
Proof. unfold clear_site, clear_writable, clear_follower, drop_recovery. solve_moves. Qed.

#[local] Hint Resolve moves_clear_site : moves.

Lemma moves_clear_sites l : releases (clear_sites cfg l).
Proof. induction l as [|[t r] l IH]; simpl; solve_moves. Qed.

Lemma moves_read_gtid n : releases (read_gtid n).
Proof. unfold read_gtid. solve_moves. Qed.

#[local] Hint Resolve moves_clear_sites moves_read_gtid : moves.

Lemma moves_initiate old new : releases (initiateRecovery cfg old new).
Proof.
  unfold initiateRecovery, recovery_empty, sharesHistory, fence_old, compare_recovery, judge_recovery, record_blocked, record_in_progress, back_off. solve_moves.
Qed.

Lemma moves_recover old h : releases (RecoverOldPrimary old h).
Proof. unfold RecoverOldPrimary. solve_moves. Qed.

#[local] Hint Resolve moves_initiate moves_recover moves_gate : moves.

Lemma moves_rewrite old h e : releases (rewriteOldPrimary old h e).
Proof.
  unfold rewriteOldPrimary, rewrite_deferred. apply moves_begin; cbn [negb]; [solve_moves|]. apply moves_seq; [solve_moves|]. intros s.
  destruct (_ =? e); [|solve_moves]. unfold executeRecovery. apply moves_seq; [solve_moves|]. intros _.
  intros p t b p' (-> & _)%(scall_runs (Ans := ans) ExitGate). done.
Qed.

#[local] Hint Resolve moves_rewrite : moves.

Lemma moves_attempt a n : moves (-1) (attempt_recovery cfg a n).
Proof. unfold attempt_recovery. solve_moves. Qed.

#[local] Hint Resolve moves_attempt : moves.

Lemma moves_due t r h : releases (recovery_due t r h).
Proof. unfold recovery_due, recovery_delayed. solve_moves. Qed.

#[local] Hint Resolve moves_due : moves.

Lemma moves_scan a h l : releases (recovery_scan cfg a l h).
Proof.
  induction l as [|[t r] l IH]; cbn [recovery_scan]; [apply moves_ret|]. case_bool_decide; [done|]. apply moves_seq; [solve_moves|]. intros due.
  destruct due; cbn [negb]; [|done]. apply moves_begin; cbn [negb]; [solve_moves|]. apply (moves_bind (-1) 0); [solve_moves|]. intros x. destruct (snd x); [apply moves_ret|done].
Qed.

#[local] Hint Resolve moves_scan : moves.

Lemma moves_recovery r h : releases (checkRecoveryWithConvergence cfg r h).
Proof. unfold checkRecoveryWithConvergence, clearHealthyRecoverySites, isBootstrapping, isTopologyFrozen, noteRecoveryDeferred. solve_moves. Qed.

#[local] Hint Resolve moves_convergence moves_audit moves_recovery : moves.

Lemma moves_followers r u : releases (check_followers cfg unicode_lower r u).
Proof. unfold check_followers. solve_moves. Qed.

End steps.

(** C4. Whatever a poll does to followers, it never releases an admission it does not hold,
    and it releases every admission it got unless a section found a site held by a
    restore: convergence, its failures and rollbacks, the drains and the recovery of old
    primaries. *)
Theorem admissions_released cfg unicode_lower repls unread p tr r : runs (check_followers cfg unicode_lower repls unread p) tr r ->
  0 <= outstanding tr /\ (no_hold tr -> outstanding tr = 0).
Proof. destruct r as [a p']. intros H. exact (moves_followers cfg unicode_lower repls unread p tr a p' H). Qed.

(** ** Witness: the repointing of a replica *)

Definition stray : ReplicaStatus :=
  {| IORunning := true; SQLRunning := true; SourceHost := "old"; ExecutedGtidSet := "3e11fa47-71ca-11e1-9e33-c80aa9429562:1-5"; SourceUUID := ""; SecondsBehindSource := None |}.

Definition repointing : list (event ans) * (unit * poller) :=
  exec (fun _ => follow_answer) (check_followers demo_config id [None; Some stray] [] follow_poller) [].

Lemma repointing_runs : runs (check_followers demo_config id [None; Some stray] [] follow_poller) repointing.1 repointing.2.
Proof. unfold repointing. apply exec_run. Qed.

Lemma repointing_free : no_hold repointing.1.
Proof. intros s H. apply (exec_const follow_answer) in H. by simpl in H; subst s. Qed.

Lemma admissions_released_witness : existsb (fun e => match projT1 e with ChangeReplicationSource "b" "a" => true | _ => false end) repointing.1 = true
  /\ outstanding repointing.1 = 0.
Proof.
  split; [vm_compute; reflexivity|]. exact (proj2 (admissions_released _ _ _ _ _ _ _ repointing_runs) repointing_free).
Defined.

(** ** A site held between the two checks of its convergence *)

(** The restore holds "b" from the start gate on. *)
Definition hold_answer (h : list (event ans)) (o : op) : ans o :=
  match o with
  | Lock => match h with
            | e :: _ => match projT1 e with StartGate => on_tm (fun m => m <| restorePeerHeld := ["b"] |>) demo_shared | _ => demo_shared end
            | [] => demo_shared
            end
  | o => follow_answer o
  end.

Definition held_poll : list (event ans) * (unit * poller) := exec hold_answer (poll_cycle demo_config id true follow_poller) [].

(** C5. A poll whose convergence finds, at the start gate, that a restore holds the site
    ends without having released its admission, although every handoff waits for it. *)
Theorem hold_leaks_admission : exists cfg unicode_lower p tr r,
  runs (poll_cycle cfg unicode_lower true p) tr r /\ outstanding tr = 1
  /\ exists t1 s0 t2, tr = t1 ++ [ev (Ans := ans) EnterGate true; ev (Ans := ans) Lock demo_shared; ev (Ans := ans) StartGate tt; ev (Ans := ans) Lock s0; ev (Ans := ans) EndGate tt] ++ t2
     /\ mem "b" (restorePeerHeld (tmgr s0)) = true /\ without mutation_gate t2.
Proof.
  exists demo_config, id, follow_poller, held_poll.1, held_poll.2. split; [unfold held_poll; apply exec_run|]. split; [vm_compute; reflexivity|].
  exists (take 25 held_poll.1), (on_tm (fun m => m <| restorePeerHeld := ["b"] |>) demo_shared), (drop 30 held_poll.1).
  split; [vm_compute; reflexivity|]. split; [reflexivity|]. apply Forall_forall.
  assert (forallb (fun e => negb (mutation_gate (projT1 e))) (drop 30 held_poll.1) = true) as H by (vm_compute; reflexivity).
  rewrite forallb_forall in H. intros e He%list_elem_of_In%H. by apply negb_true_iff in He.
Qed.
