(* ===== verification/PollBlocks.v ===== *)
(** * The topology manager's poll: divergence reports are kept

    A site recorded as divergent stays so across every section of a poll, unless the poll
    proved that the primary holds all it has, that it became the primary itself, or found
    its marker no longer a block. *)
From S2P Require Import Prelude GoStd Intervals GtidSet SiteState Effects GoTime Failover FailoverRecord ClaimSlot Claims Protocol PollData PollSteps PollBootstrap PollAct PollFollow PollRecover PollCycle PollSafety PollProofs PollRepoint PollHistory.

Local Open Scope Z_scope.

#[local] Arguments prog_bind {Op Ans A B} _ _ : simpl never.

Import GTID Matrix FailoverRecords ClaimSlot Claims Poll PollOps PollBoot PollAct PollFollow PollRecover PollCycle.

#[local] Hint Resolve saw_l saw_r saw_last gtid_read_l gtid_read_r : core.

(** ** Vocabulary *)

Definition note_lock (acc : option Shared) (e : event ans) : option Shared :=
  match projT1 e as o return ans o -> option Shared with
  | Lock => fun s => Some s
  | _ => fun _ => acc
  end (projT2 e).

(** The fields found by the latest section. *)
Definition found (h : list (event ans)) : option Shared := fold_left note_lock h None.

(** The primary holds all the follower [n] has: [n]'s set was read, then the set of the
    primary [a], which answered writable, and nothing is left of the first. *)
Definition audited (h : list (event ans)) (n : string) : Prop := exists a t1 t2 fu fraw pu praw f p,
  h = t1 ++ t2 /\ saw h (CheckReadOnly a) (Some false)
  /\ saw t1 (ReadGTIDSnapshot n) (Some (fu, fraw)) /\ saw t2 (ReadGTIDSnapshot a) (Some (pu, praw))
  /\ ParseGTIDSet fraw = Ok f /\ ParseGTIDSet praw = Ok p /\ IsEmpty (Subtract f p) = true.

(** The fenced old primary [n] holds nothing the confirmed one lacks. *)
Definition recovered (h : list (event ans)) (n : string) : Prop := exists a, saw h (CheckReadOnly a) (Some false) /\ contained h a n.

(** [n] is the recorded failover target, answered writable, and the promotion of a
    divergent site was noted. *)
Definition promoted (h : list (event ans)) (n : string) : Prop :=
  (exists s, saw h Lock s /\ lastFailoverTarget (authority_of s) = n) /\ saw h (CheckReadOnly n) (Some false)
  /\ exists s x note, saw h (Unlock s) x /\ pendingDivergentPromotion (followers s) = Some note /\ note_site note = n.

(** A section found the marker of [n] to be another one. *)
Definition found_unblocked (h : list (event ans)) (n : string) : Prop := exists s r, saw h Lock s /\ recovery s !! n = Some r /\ recovery_state r <> recoveryStateBlocked.

Definition resolved (h : list (event ans)) (n : string) : Prop := audited h n \/ recovered h n \/ promoted h n \/ found_unblocked h n.

Definition blocks_kept (h : list (event ans)) (o : op) : Prop := forall s', o = Unlock s' ->
  exists s, found h = Some s /\ forall n, is_divergent s n = true -> is_divergent s' n = true \/ resolved h n.

(** ** Programs that keep the blocks *)

Abbreviation kw := (scwp blocks_kept).

Definition guards {A} (m : poll A) : Prop := forall h p, kw m h p (fun _ _ _ => True).

(** [s] is the view of the section [h] is in. *)
Definition sees (s : Shared) (h : list (event ans)) : Prop := exists s0 l, found h = Some s0 /\ s = with_sites l s0.

Definition guards_in (s : Shared) {A} (m : poll A) : Prop := forall h p, sees s h -> kw m h p (fun _ _ _ => True).

Definition still_blocked (s s' : Shared) : Prop := forall n, is_divergent s n = true -> is_divergent s' n = true.

Lemma found_snoc h e : found (h ++ [e]) = note_lock (found h) e.
Proof. unfold found. by rewrite fold_left_app. Qed.

Lemma sees_snoc s h o x : sees s h -> (match o with Lock => false | _ => true end = true) -> sees s (h ++ [ev o x]).
Proof. intros (s0 & l & Hf & ->) Ho. exists s0, l. split; [|done]. rewrite found_snoc. unfold note_lock. cbn. by destruct o. Qed.

Lemma other_kept h o : stores o = false -> blocks_kept h o.
Proof. intros Ho s' ->. done. Qed.

Lemma unlock_kept h s s' : sees s h -> still_blocked s s' -> blocks_kept h (Unlock s').
Proof. intros (s0 & l & Hf & ->) Hb s1 [= <-]. exists s0. split; [done|]. intros n Hn. left. by apply Hb. Qed.

(** [h] had evidence for every block that goes. *)
Lemma unlock_resolved h s s' : sees s h -> (forall n, is_divergent s n = true -> is_divergent s' n = true \/ resolved h n) -> blocks_kept h (Unlock s').
Proof. intros (s0 & l & Hf & ->) Hb s1 [= <-]. exists s0. split; [done|]. intros n Hn. by apply Hb. Qed.

Lemma same_blocked s s' : recovery s' = recovery s -> still_blocked s s'.
Proof. intros E n. unfold is_divergent. by rewrite E. Qed.

Lemma guards_ret {A} (a : A) : guards (pret a).
Proof. by intros h p. Qed.

Lemma guards_get {A} (f : poller -> A) : guards (sget f).
Proof. by intros h p. Qed.

Lemma guards_modify f : guards (smodify f).
Proof. by intros h p. Qed.

Lemma guards_call o : stores o = false -> guards (pcall o).
Proof. intros Ho h p. apply (scwp_call _ o); [by apply other_kept|done]. Qed.

Lemma guards_bind {A B} (m : poll A) (k : A -> poll B) : guards m -> (forall a, guards (k a)) -> guards (sbind m k).
Proof. intros Hm Hk h p. apply scwp_bind. eapply scwp_mono; [apply Hm|]. intros h' a p' _. apply Hk. Qed.

Lemma guards_each {A} (f : A -> poll unit) l : (forall x, guards (f x)) -> guards (each f l).
Proof. intros Hf. induction l as [|x l IH]; [apply guards_ret|]. apply guards_bind; [apply Hf|done]. Qed.

Lemma guards_or a b : guards a -> guards b -> guards (or_else a b).
Proof. intros Ha Hb. apply guards_bind; [done|]. intros []; [apply guards_ret|done]. Qed.

Lemma kw_unlock s' h p (Q : list (event ans) -> unit -> poller -> Prop) : blocks_kept h (Unlock s') -> Q (h ++ [ev (Ans := ans) (Unlock s') tt]) tt p -> kw (pcall (Unlock s')) h p Q.
Proof. intros Hk HQ. apply (scwp_call _ (Unlock s')); [done|]. by intros []. Qed.

Lemma kw_locked h p (Q : list (event ans) -> Shared -> poller -> Prop) : (forall s0, sees (adopt p s0) (h ++ [ev (Ans := ans) Lock s0]) -> Q (h ++ [ev (Ans := ans) Lock s0]) (adopt p s0) p) -> kw locked h p Q.
Proof.
  intros HQ. apply scwp_bind. apply (scwp_call _ Lock); [by apply other_kept|]. intros s0. apply scwp_get, HQ. exists s0, (trackers p).
  split; [|done]. by rewrite found_snoc.
Qed.

Lemma guards_section {A} (k : Shared -> poll A) : (forall s, guards_in s (k s)) -> guards (sbind locked k).
Proof. intros Hk h p. apply scwp_bind, kw_locked. intros s0 Hs. by apply Hk. Qed.

Lemma guards_in_keeps s {A} (m : poll A) : guards m -> guards_in s m.
Proof. intros Hm h p _. apply Hm. Qed.

Lemma guards_in_ret s {A B} (a : A) (k : A -> poll B) : guards_in s (k a) -> guards_in s (sbind (pret a) k).
Proof. intros Hk h p Hs. apply scwp_bind, scwp_ret. by apply Hk. Qed.

Lemma guards_in_get s {A B} (f : poller -> A) (k : A -> poll B) : (forall a, guards_in s (k a)) -> guards_in s (sbind (sget f) k).
Proof. intros Hk h p Hs. apply scwp_bind, scwp_get. by apply Hk. Qed.

Lemma guards_in_modify s {B} f (k : unit -> poll B) : (forall a, guards_in s (k a)) -> guards_in s (sbind (smodify f) k).
Proof. intros Hk h p Hs. apply scwp_bind, scwp_modify. by apply Hk. Qed.

Lemma guards_in_call s {B} o (k : ans o -> poll B) : stores o = false -> (match o with Lock => false | _ => true end = true) -> (forall x, guards_in s (k x)) -> guards_in s (sbind (pcall o) k).
Proof. intros Ho Hl Hk h p Hs. apply scwp_bind, (scwp_call _ o); [by apply other_kept|]. intros x. apply Hk. by apply sees_snoc. Qed.

Lemma guards_in_assoc s {A B C} (m : poll A) (k : A -> poll B) (k' : B -> poll C) : guards_in s (sbind m (fun a => sbind (k a) k')) -> guards_in s (sbind (sbind m k) k').
Proof.
  intros Hk h p Hs. apply scwp_bind, scwp_bind. specialize (Hk h p Hs). apply scwp_bind_inv in Hk. eapply scwp_mono; [exact Hk|].
  intros h' a p' H. by apply scwp_bind_inv in H.
Qed.

Lemma guards_in_unlock s s' : still_blocked s s' -> guards_in s (pcall (Unlock s')).
Proof. intros Hb h p Hs. apply (scwp_call _ (Unlock s')); [by eapply unlock_kept|done]. Qed.

Lemma guards_in_unlocked s s' {B} (k : unit -> poll B) : still_blocked s s' -> (forall a, guards (k a)) -> guards_in s (sbind (pcall (Unlock s')) k).
Proof. intros Hb Hk h p Hs. apply scwp_bind, (scwp_call _ (Unlock s')); [by eapply unlock_kept|]. intros x. apply Hk. Qed.

Lemma guards_update f : (forall s, still_blocked s (f s)) -> guards (update f).
Proof. intros Hf. apply guards_section. intros s. by apply guards_in_unlock. Qed.

Create HintDb guards discriminated.

(** The fields keep their recovery markers. *)
Ltac same_blocks := first [solve [auto with guards] | apply same_blocked; repeat (case_match || reflexivity)].

Ltac solve_guards :=
  repeat match goal with
  | |- guards (sret _) => apply guards_ret
  | |- guards (scall ?o) => exact (guards_call o eq_refl)
  | |- guards (sget _) => apply guards_get
  | |- guards (smodify _) => apply guards_modify
  | |- guards (update _) => apply guards_update; intros ?; same_blocks
  | |- guards (sbind locked _) => apply guards_section; intros ?
  | |- guards (sbind _ _) => apply guards_bind; [|intros ?]
  | |- guards (each _ _) => apply guards_each; intros ?
  | |- guards (or_else _ _) => apply guards_or
  | |- guards (match ?x with _ => _ end) => destruct x
  | |- guards_in _ (sret _) => apply guards_in_keeps
  | |- guards_in _ (sbind (sret _) _) => apply guards_in_ret
  | |- guards_in _ (sbind (sbind _ _) _) => apply guards_in_assoc
  | |- guards_in _ (sbind (match ?x with _ => _ end) _) => destruct x
  | |- guards_in _ (sbind (scall (Unlock _)) _) => apply guards_in_unlocked; [same_blocks|intros ?]
  | |- guards_in _ (scall (Unlock _)) => apply guards_in_unlock; same_blocks
  | |- guards_in _ (sbind (scall ?o) _) => apply (guards_in_call _ o); [reflexivity|reflexivity|intros ?]
  | |- guards_in _ (sbind (sget _) _) => apply guards_in_get; intros ?
  | |- guards_in _ (sbind (smodify _) _) => apply guards_in_modify; intros ?
  | |- guards_in _ (match ?x with _ => _ end) => destruct x
  | |- guards _ => progress cbn zeta
  | |- guards_in _ _ => progress cbn zeta
  | |- guards_in _ _ => apply guards_in_keeps
  | |- guards _ => solve [auto with guards]
  end.

(** ** The poll's steps *)

Section steps.

Context (cfg : TopologyConfig) (unicode_lower : string -> string).

Lemma guards_locked : guards locked.
Proof. intros h p. by apply kw_locked. Qed.

#[local] Hint Resolve guards_locked : guards.

Lemma guards_booting : guards isBootstrapping.
Proof. unfold isBootstrapping. solve_guards. Qed.

Lemma guards_frozen : guards isTopologyFrozen.
Proof. unfold isTopologyFrozen. solve_guards. Qed.

Lemma guards_held : guards plannedClaimHeld.
Proof. unfold plannedClaimHeld. solve_guards. Qed.

#[local] Hint Resolve guards_booting guards_frozen guards_held : guards.

Lemma guards_blocks : guards bootstrapBlocksCrossSite.
Proof. unfold bootstrapBlocksCrossSite. solve_guards. Qed.

Lemma guards_cloning : guards cloningReaderSite.
Proof. unfold cloningReaderSite. solve_guards. Qed.

Lemma guards_updating : guards isUpdating.
Proof. unfold isUpdating. solve_guards. Qed.

#[local] Hint Resolve guards_blocks guards_updating : guards.

Lemma guards_guarded : guards crossSiteGuarded.
Proof. unfold crossSiteGuarded. solve_guards. Qed.

#[local] Hint Resolve guards_guarded guards_cloning : guards.

Lemma guards_arm b : guards (armCrossSiteRetryAfter b).
Proof. unfold armCrossSiteRetryAfter. solve_guards. Qed.

Lemma guards_ready : guards crossSiteRetryReady.
Proof. unfold crossSiteRetryReady. solve_guards. Qed.

Lemma guards_begin n : guards (beginAutoPromotion n).
Proof. unfold beginAutoPromotion. solve_guards. Qed.

Lemma guards_finish : guards finishTopologyChange.
Proof. unfold finishTopologyChange. solve_guards. Qed.

Lemma guards_executed n : guards (deploymentPromotionExecuted n).
Proof. unfold deploymentPromotionExecuted. solve_guards. Qed.

Lemma guards_confirm n : guards (confirmWritable n).
Proof. unfold confirmWritable. solve_guards. Qed.

#[local] Hint Resolve guards_arm guards_ready guards_begin guards_finish guards_executed guards_confirm : guards.

Lemma guards_active : guards confirmedActivePrimary.
Proof. unfold confirmedActivePrimary. solve_guards. Qed.

Lemma guards_fence t : guards (fence_site t).
Proof. unfold fence_site. solve_guards. Qed.

#[local] Hint Resolve guards_active guards_fence : guards.

Lemma guards_anomalies : guards fenceWritableNonPromotableSites.
Proof. unfold fenceWritableNonPromotableSites. solve_guards. Qed.

Lemma guards_others n : guards (fenceSitesExcept n).
Proof. unfold fenceSitesExcept. solve_guards. Qed.

Lemma guards_writable : guards writableObservations.
Proof. unfold writableObservations. solve_guards. Qed.

Lemma guards_read_gtid n : guards (read_gtid n).
Proof. unfold read_gtid. solve_guards. Qed.

#[local] Hint Resolve guards_others guards_writable guards_read_gtid : guards.

Lemma guards_query l : guards (query_candidates l).
Proof. induction l as [|n l IH]; simpl; unfold query_candidate; solve_guards. Qed.

#[local] Hint Resolve guards_query : guards.

Lemma guards_pick l : guards (pickFreshestCandidate l).
Proof. unfold pickFreshestCandidate. solve_guards. Qed.

Lemma guards_flush w : guards (flushFailoverState cfg w).
Proof. unfold flushFailoverState. solve_guards. Qed.

#[local] Hint Resolve guards_pick guards_flush : guards.

Lemma guards_record now n g : guards (recordFailover cfg now n g).
Proof. unfold recordFailover, record_failover. solve_guards. Qed.

Lemma guards_withhold : guards withholdDNSForRestore.
Proof. unfold withholdDNSForRestore. solve_guards. Qed.

#[local] Hint Resolve guards_record guards_withhold : guards.

Lemma guards_dns target : guards (applyDNS cfg target).
Proof. unfold applyDNS. solve_guards. Qed.

#[local] Hint Resolve guards_dns : guards.

Lemma guards_reconcile_dns : guards (reconcileDNS cfg).
Proof.
  unfold reconcileDNS, desiredDNSSiteLocked, pendingPromotionFreshLocked, reconcile_target, reconcile_live, dns_repair, dns_converged. solve_guards.
Qed.

Lemma guards_fresh_site t : guards (fresh_site t).
Proof. unfold fresh_site. solve_guards. Qed.

#[local] Hint Resolve guards_fresh_site : guards.

Lemma guards_all_fresh l : guards (all_fresh l).
Proof. induction l as [|t l IH]; simpl; solve_guards. Qed.

#[local] Hint Resolve guards_all_fresh : guards.

Lemma guards_fresh_deploy : guards isFreshDeploy.
Proof. unfold isFreshDeploy. solve_guards. Qed.

Lemma guards_empty_candidate a t : guards (empty_candidate a t).
Proof. unfold empty_candidate, probe_empty, sharesHistory. solve_guards. Qed.

#[local] Hint Resolve guards_fresh_deploy guards_empty_candidate : guards.

Lemma guards_empty_search a l : guards (empty_search a l).
Proof. induction l as [|t l IH]; simpl; solve_guards. Qed.

Lemma guards_pairs l : forall acc, guards (writable_pairs acc l).
Proof. induction l as [|t l IH]; intros acc; simpl; unfold writable_pair; solve_guards. Qed.

Lemma guards_fence_confirmed n : guards (fence_confirmed n).
Proof. unfold fence_confirmed. solve_guards. Qed.

#[local] Hint Resolve guards_empty_search guards_pairs guards_fence_confirmed : guards.

Lemma guards_detect : guards detectEmptySite.
Proof. unfold detectEmptySite, detectAndFenceEmptyWritableSite. solve_guards. Qed.

Lemma guards_non_seeds l : guards (fence_non_seeds l).
Proof. induction l as [|t l IH]; simpl; solve_guards. Qed.

Lemma guards_publish n : guards (publish_seed n).
Proof. unfold publish_seed. solve_guards. Qed.

Lemma guards_claim_bootstrap r s : guards (claim_bootstrap r s).
Proof. unfold claim_bootstrap. solve_guards. Qed.

#[local] Hint Resolve guards_detect guards_non_seeds guards_publish guards_claim_bootstrap : guards.

Lemma guards_start d r s : guards (startBootstrapByName cfg d r s).
Proof. unfold startBootstrapByName, admitted_bootstrap, bootstrap_failed. solve_guards. Qed.

Lemma guards_seed : guards (seedFreshDeploy cfg).
Proof. unfold seedFreshDeploy, bootstrap_failed. solve_guards. Qed.

#[local] Hint Resolve guards_start guards_seed : guards.

Lemma guards_fresh_bootstrap n : guards (maybeStartFreshDeployBootstrap cfg n).
Proof. unfold maybeStartFreshDeployBootstrap, startBootstrap, bootstrap_failed. solve_guards. Qed.

#[local] Hint Resolve guards_fresh_bootstrap : guards.

(** Cross-site actions. *)

Lemma guards_lower {A} old n (m : prog Failover.ans A) : guards (lower (execute_hook old n) m).
Proof.
  induction m as [a|o k IH]; simpl; [apply guards_ret|]. apply guards_bind; [|done]. destruct o; cbn [execute_hook]; solve_guards.
Qed.

#[local] Hint Resolve guards_lower : guards.

Lemma guards_promote_claimed c old : guards (promote_claimed cfg c old).
Proof. unfold promote_claimed, execute_failover. solve_guards. Qed.

Lemma guards_decision a b : guards (recordKeyringPromotionDecision a b).
Proof. unfold recordKeyringPromotionDecision. solve_guards. Qed.

Lemma guards_clean : guards clearKeyringRotationBlockedDirty.
Proof. unfold clearKeyringRotationBlockedDirty. solve_guards. Qed.

Lemma guards_refused l : guards (recordRestoreReclonePromotionRefused l).
Proof. unfold recordRestoreReclonePromotionRefused. solve_guards. Qed.

#[local] Hint Resolve guards_promote_claimed guards_decision guards_clean guards_refused : guards.

Lemma guards_promote_site n : guards (promote_site cfg n).
Proof.
  unfold promote_site, initRestoreSeedSite, promote_candidate, rotationBlockedCandidates, previousPrimary, armCrossSiteRetry. solve_guards.
Qed.

Lemma guards_refuse a : guards (refuse_promotion a).
Proof. unfold refuse_promotion, restoreReclonePendingCandidates, rotationBlockedCandidates. solve_guards. Qed.

Lemma guards_choose a n : guards (choose_promotion cfg a n).
Proof. unfold choose_promotion, resolve_split_brain, fence_loser. solve_guards. Qed.

#[local] Hint Resolve guards_promote_site guards_refuse guards_choose : guards.

Lemma guards_resolve a n : guards (resolve_action cfg a n).
Proof. unfold resolve_action. solve_guards. Qed.

#[local] Hint Resolve guards_resolve : guards.

Lemma guards_apply a : guards (applyCrossSiteAction cfg a).
Proof. unfold applyCrossSiteAction, split_brain_bootstrap, armCrossSiteRetry. solve_guards. Qed.

Lemma guards_returning a : guards (fenceReturningOldPrimary cfg a).
Proof. unfold fenceReturningOldPrimary, retry_by_policy, note_fence_retry. solve_guards. Qed.

#[local] Hint Resolve guards_apply guards_returning : guards.

Lemma guards_decide t l : guards (decide_and_act cfg t l).
Proof.
  unfold decide_and_act, peekKeyringRotationBlockedDirty, observations, clearCrossSiteRetry, retryFreshDeployBootstrap. solve_guards.
Qed.

Lemma guards_peers a g l : guards (reassert_peers a g l).
Proof. induction l as [|t l IH]; simpl; unfold reassert_peer, restoreSeedPeerFresh; solve_guards. Qed.

#[local] Hint Resolve guards_peers : guards.

Lemma guards_reassert : guards (checkPrimaryReassert cfg).
Proof. unfold checkPrimaryReassert, reassert_eligible, reassert_proof, bootReadOnlyOnly, restoreSeedPeerFresh, reassert_claimed. solve_guards. Qed.

(** Observation. *)

Lemma guards_probes b s l : guards (probe_sites b s l).
Proof. induction l as [|t l IH]; simpl; solve_guards. Qed.

#[local] Hint Resolve guards_probes : guards.

Lemma guards_observe b e : guards (observe_sites cfg b e).
Proof. unfold observe_sites, taint_transition, applyPerSiteAction. solve_guards. Qed.

Lemma guards_pending e : guards (confirm_pending e).
Proof. unfold confirm_pending, reconcilePendingPromotionLocked, pendingPromotionFreshLocked, clearPendingPromotionLocked. solve_guards. Qed.

Lemma guards_replicas l : guards (check_replicas l).
Proof. induction l as [|t l IH]; simpl; unfold check_replica, markSourceProbeFailed; solve_guards. Qed.

Lemma guards_auto b : guards (auto_clone cfg b).
Proof. unfold auto_clone. solve_guards. Qed.

End steps.

#[export] Hint Resolve guards_locked guards_booting guards_frozen guards_held guards_blocks guards_updating guards_guarded guards_cloning guards_arm guards_ready guards_begin
  guards_finish guards_executed guards_confirm guards_active guards_fence guards_anomalies guards_others guards_writable guards_read_gtid guards_pick guards_flush guards_record
  guards_withhold guards_dns guards_reconcile_dns guards_detect guards_start guards_decide guards_reassert guards_observe guards_pending guards_replicas guards_auto : guards.

(** ** Followers *)

Section followers.

Context (cfg : TopologyConfig) (unicode_lower : string -> string).

Lemma guards_peer_held n : guards (restorePeerHeldSite n).
Proof. unfold restorePeerHeldSite. solve_guards. Qed.

Lemma guards_admission : guards beginFollowerMutation.
Proof. unfold beginFollowerMutation, followerMutationSuppressed. solve_guards. Qed.

Lemma guards_ensure a n : guards (ensureGTIDContained a n).
Proof. unfold ensureGTIDContained. solve_guards. Qed.

Lemma guards_verify k n e : guards (verify_direct unicode_lower k n e).
Proof. induction k as [|k IH]; simpl; solve_guards. Qed.

Lemma guards_state t r c w e : guards (setSourceConvergence cfg unicode_lower t r c w e).
Proof. unfold setSourceConvergence. solve_guards. Qed.

#[local] Hint Resolve guards_peer_held guards_admission guards_ensure guards_verify guards_state : guards.

Lemma guards_gate n op : guards op -> guards (withReplicaStartGate n op).
Proof. intros Hop. unfold withReplicaStartGate. solve_guards. Qed.

Lemma guards_converge_site a t r c : guards (converge_site cfg unicode_lower a t r c).
Proof.
  assert (forall d, guards (withReplicaStartGate (name t) (if d : bool then restartDirectReplica (name a) (name t) else repointReplica a (name t)))) as Hg.
  { intros d. apply guards_gate. unfold restartDirectReplica, repointReplica, repoint_stopped. solve_guards. }
  unfold converge_site, converge_admitted, verifyDirectReplica. solve_guards.
Qed.

#[local] Hint Resolve guards_converge_site : guards.

Lemma guards_converge_sites a l : forall rs c, guards (converge_sites cfg unicode_lower a l rs c).
Proof. induction l as [|t l IH]; intros [|r rs] c; simpl; solve_guards. Qed.

#[local] Hint Resolve guards_converge_sites : guards.

Lemma guards_convergence r : guards (checkSourceConvergence cfg unicode_lower r).
Proof. unfold checkSourceConvergence, sourceConvergenceSuppressed. solve_guards. Qed.

(** *** The audit *)

Lemma guards_stamp_audit n : guards (stampGTIDAudit n).
Proof. unfold stampGTIDAudit. solve_guards. Qed.

#[local] Hint Resolve guards_stamp_audit : guards.

(** The four reads are made in order. *)
Lemma audit_reads_runs a n p t p1 fu fraw pu praw f2 p' : runs (audit_reads a n p) t (Ok (p1, (fu, fraw), (pu, praw), f2), p') ->
  exists t1 t2, t = t1 ++ t2 /\ saw t1 (ReadGTIDSnapshot n) (Some (fu, fraw)) /\ saw t2 (ReadGTIDSnapshot a) (Some (pu, praw)).
Proof using.
  unfold audit_reads. intros (t1 & x1 & q1 & t2 & -> & (-> & ->)%scall_runs & H)%sbind_runs. destruct x1 as [x1|]; [|by apply sret_runs in H as (_ & ? & _)].
  apply sbind_runs in H as (t3 & x2 & q2 & t4 & -> & (-> & ->)%(scall_runs (Ans := ans) (ReadGTIDSnapshot n)) & H). destruct x2 as [x2|]; [|by apply sret_runs in H as (_ & ? & _)].
  apply sbind_runs in H as (t5 & x3 & q3 & t6 & -> & (-> & ->)%(scall_runs (Ans := ans) (ReadGTIDSnapshot a)) & H). destruct x3 as [x3|]; [|by apply sret_runs in H as (_ & ? & _)].
  apply sbind_runs in H as (t7 & x4 & q4 & t8 & -> & (-> & ->)%(scall_runs (Ans := ans) (ReadGTIDSnapshot n)) & H). apply sret_runs in H as (-> & E & _).
  destruct x4 as [x4|]; [|done]. injection E as <- <- <- <-.
  exists [ev (Ans := ans) (ReadGTIDSnapshot a) (Some p1); ev (Ans := ans) (ReadGTIDSnapshot n) (Some (fu, fraw))], [ev (Ans := ans) (ReadGTIDSnapshot a) (Some (pu, praw)); ev (Ans := ans) (ReadGTIDSnapshot n) (Some f2)].
  split; [done|]. split; [right; left|left].
Qed.

(** What the audit publishes keeps every block but, on a proof, the follower's. *)
Lemma publish_blocked a n u extra now s m : is_divergent s m = true ->
  is_divergent (audit_publish a n u extra now s) m = true \/ (m = n /\ IsEmpty extra = true).
Proof using.
  intros Hm. unfold audit_publish.
  assert (forall f, recovery (on_followers f s) = recovery s) as Ef by done.
  match goal with |- context [if IsEmpty extra then (if is_divergent ?s2 n then _ else _) else _] => set (s1 := s2) end.
  assert (recovery s1 = recovery s) as E1 by (unfold s1; by case_bool_decide).
  assert (is_divergent s1 m = true) as Hm1 by (unfold is_divergent; by rewrite E1).
  destruct (IsEmpty extra).
  - destruct (is_divergent s1 n); [|by left]. destruct (decide (m = n)) as [->|Hne]; [by right|]. left. unfold is_divergent. cbn. rewrite lookup_delete_ne by done. exact Hm1.
  - left. destruct (decide (m = n)) as [->|Hne]; unfold is_divergent; cbn.
    + rewrite lookup_insert_eq. cbn. by apply bool_decide_true.
    + rewrite lookup_insert_ne by done. exact Hm1.
Qed.

Lemma kw_audit_follower e a n h p : saw h (CheckReadOnly a) (Some false) -> kw (auditFollower e a n) h p (fun _ _ _ => True).
Proof using.
  intros Ha. unfold auditFollower. apply scwp_bind. eapply (scwp_runs _ (fun o => negb (stores o))).
  { intros h' o Ho%negb_true_iff. by apply other_kept. }
  { unfold audit_reads. solve_frees. }
  intros t1 [[[[p1 [fu fraw]] [pu praw]] f2]|primary] p' H1; [|apply guards_bind; [apply guards_stamp_audit|intros; apply guards_ret]].
  apply audit_reads_runs in H1 as (ta & tb & -> & Hf & Hpr). destruct p1 as [pu1 praw1], f2 as [fu2 fraw2].
  destruct (_ || _); [by apply scwp_ret|]. destruct (ParseGTIDSet fraw) as [fset|] eqn:Ef; [|apply guards_bind; [apply guards_stamp_audit|intros; apply guards_ret]].
  destruct (ParseGTIDSet praw) as [pset|] eqn:Ep; [|apply guards_bind; [apply guards_stamp_audit|intros; apply guards_ret]]. cbn zeta.
  apply scwp_bind, kw_locked. intros s0 Hs. destruct (_ || _); [by apply scwp_ret|].
  apply scwp_bind, (scwp_call _ Now); [by apply other_kept|]. intros now. apply (sees_snoc _ _ Now now) in Hs; [|done].
  apply scwp_bind, (scwp_call _ (Unlock _)); [|intros []; by apply scwp_ret].
  apply (unlock_resolved _ _ _ Hs). intros m Hm. destruct (publish_blocked a n pu (Subtract fset pset) now _ m Hm) as [|[-> He]]; [by left|]. right. left.
  exists a, (h ++ ta), ((tb ++ [ev (Ans := ans) Lock s0]) ++ [ev (Ans := ans) Now now]), fu, fraw, pu, praw, fset, pset.
  split; [by rewrite <- !(assoc_L (++))|]. split; [auto|]. split; [auto|]. split; [auto|]. done.
Qed.

Lemma kw_audit_pass e a l : forall h p, saw h (CheckReadOnly a) (Some false) -> kw (audit_pass e a l) h p (fun _ _ _ => True).
Proof using.
  induction l as [|n l IH]; intros h p Ha; [by apply scwp_ret|]. cbn [audit_pass]. apply scwp_bind.
  eapply cwp_mono; [apply cwp_extends, (kw_audit_follower e a n h p Ha)|]. intros h1 [b p1] [_ [t1 ->]]. cbn [fst snd].
  apply scwp_bind. eapply cwp_mono; [apply cwp_extends|].
  { assert (guards (if b then pret true else pcall ContextExpired)) as Hk by solve_guards. apply Hk. }
  intros h2 [stop p2] [_ [t2 ->]]. cbn [fst snd]. destruct stop; [|apply IH; auto]. apply guards_each. intros x. apply guards_stamp_audit.
Qed.

Lemma guards_audit r u : guards (auditFollowerDivergence unicode_lower r u).
Proof using.
  intros h p. unfold auditFollowerDivergence. apply scwp_bind, scwp_get, scwp_bind, kw_locked. intros s0 Hs.
  destruct (find_site _ _) as [active|]; [|by apply scwp_ret]. destruct (_ || _); [by apply scwp_ret|]. cbn zeta.
  apply scwp_bind, (scwp_call _ Now); [by apply other_kept|]. intros now. apply (sees_snoc _ _ Now now) in Hs; [|done].
  apply scwp_bind, (scwp_call _ (Unlock _)); [apply (unlock_kept _ _ _ Hs); by apply same_blocked|]. intros [].
  destruct (negb _); [by apply scwp_ret|]. apply scwp_bind. eapply (scwp_runs _ (fun o => negb (stores o))).
  { intros h' o Ho%negb_true_iff. by apply other_kept. }
  { unfold confirmedActivePrimary, confirmWritable, locked. solve_frees. }
  assert (forall l, guards (each stampGTIDAudit l)) as Hst by (intros l; apply guards_each; intros x; apply guards_stamp_audit).
  intros t1 [c|] p1 H1; [|apply Hst]. case_bool_decide as Hn; [|apply Hst]. rewrite <- Hn. apply kw_audit_pass. apply saw_r.
  by eapply (active_runs (trackers p)) in H1 as (_ & _ & _ & _ & _ & Hro).
Qed.

(** *** Recovery markers *)

Lemma still_alter f n s : (forall r, recovery_state (f r) = recovery_state r) -> still_blocked s (alter_recovery f n s).
Proof using.
  intros Hf m. unfold is_divergent, alter_recovery. cbn. destruct (decide (m = n)) as [->|Hn]; [|by rewrite lookup_alter_ne].
  rewrite lookup_alter_eq. destruct (recovery s !! n) as [r|]; [|done]. cbn. by rewrite Hf.
Qed.

Lemma still_put n r s : recovery_state r = recovery_state (entry s n) \/ recovery_state r = recoveryStateBlocked -> still_blocked s (put_recovery n r s).
Proof using.
  intros Hr m Hm. unfold is_divergent, put_recovery in *. cbn. destruct (decide (m = n)) as [->|Hn]; [|by rewrite lookup_insert_ne].
  rewrite lookup_insert_eq. apply bool_decide_true. destruct Hr as [->|]; [|done]. unfold entry. destruct (recovery s !! n); [|done]. by apply bool_decide_eq_true in Hm.
Qed.

Lemma guards_pause : guards pauseRecoveryDrains.
Proof using.
  apply guards_update. intros s m. unfold is_divergent. cbn. rewrite lookup_fmap. destruct (recovery s !! m) as [r|]; [|done]. cbn. by destruct (drainComplete r).
Qed.

Lemma guards_defer : guards defer_recovery.
Proof using. unfold defer_recovery, noteRecoveryDeferred. apply guards_bind; [apply guards_pause|]. intros _. solve_guards. Qed.

Lemma guards_complete n : guards (completeSiteAppConnectionDrain n).
Proof using. apply guards_update. intros s. by apply still_alter. Qed.

#[local] Hint Resolve guards_defer guards_complete : guards.

Lemma guards_stamp n : guards (stampRecoveryBackoff n).
Proof using.
  unfold stampRecoveryBackoff. apply guards_section. intros s. apply (guards_in_call _ Now); [done|done|]. intros now. apply guards_in_unlock, still_put. by left.
Qed.

Lemma guards_drain n : guards (advanceSiteAppConnectionDrain cfg n).
Proof using.
  assert (forall d, guards (drain_pass n d)) as Hp by (intros d; unfold drain_pass; solve_guards).
  unfold advanceSiteAppConnectionDrain. apply guards_bind; [solve_guards|]. intros now. apply guards_section. intros s. cbn zeta.
  destruct (drainComplete _); [apply guards_in_keeps, guards_ret|]. apply guards_in_unlocked; [apply still_put; left; by destruct (_ =? 0)|]. intros _. solve_guards.
Qed.

#[local] Hint Resolve guards_stamp guards_drain : guards.

(** Evidence stays. *)
Lemma resolved_l h t n : resolved h n -> resolved (h ++ t) n.
Proof using.
  intros [(a & t1 & t2 & fu & fraw & pu & praw & f & q & -> & H1 & H2 & H3 & H)|[(a & H & Hc)|[((s & H1 & E1) & H2 & s' & x & note & H3 & H)|(s & r & H1 & H)]]].
  - left. exists a, t1, (t2 ++ t), fu, fraw, pu, praw, f, q. rewrite (assoc_L (++)). split; [done|]. auto.
  - right. left. exists a. split; [auto|]. by apply contained_stays.
  - right. right. left. split; [exists s; auto|]. split; [auto|]. exists s', x, note. auto.
  - right. right. right. exists s, r. auto.
Qed.

Lemma kw_drop n h p : resolved h n -> kw (drop_recovery n) h p (fun _ _ _ => True).
Proof using.
  intros Hr. unfold drop_recovery, update. apply scwp_bind, kw_locked. intros s0 Hs. apply kw_unlock; [|done].
  apply (unlock_resolved _ _ _ Hs). intros m Hm. destruct (decide (m = n)) as [->|Hn]; [right; by apply resolved_l|]. left.
  unfold is_divergent in *. cbn. by rewrite lookup_delete_ne.
Qed.

Lemma kw_guards {A B} (m : poll A) (k : A -> poll B) h p : guards m -> (forall t a p', kw (k a) (h ++ t) p' (fun _ _ _ => True)) -> kw (sbind m k) h p (fun _ _ _ => True).
Proof using.
  intros Hm Hk. apply scwp_bind. eapply cwp_mono; [apply cwp_extends, Hm|]. intros h' [a p'] [_ [t ->]]. apply Hk.
Qed.

Lemma kw_drop_then {B} n h p (k : unit -> poll B) : resolved h n -> (forall a, guards (k a)) -> kw (sbind (drop_recovery n) k) h p (fun _ _ _ => True).
Proof using. intros Hr Hk. apply scwp_bind. eapply scwp_mono; [by apply kw_drop|]. intros h' a p' _. apply Hk. Qed.

Lemma kw_clear_writable n recorded r h p : (recorded = true -> exists s, saw h Lock s /\ lastFailoverTarget (authority_of s) = n) ->
  (recovery_state r <> recoveryStateBlocked -> resolved h n) -> kw (clear_writable n recorded r) h p (fun _ _ _ => True).
Proof using.
  intros Hrec Hr. unfold clear_writable. case_bool_decide as Hb; [|apply kw_drop_then; [by apply Hr|intros; apply guards_ret]].
  apply scwp_bind. eapply (scwp_runs _ (fun o => negb (stores o))).
  { intros h' o Ho%negb_true_iff. by apply other_kept. }
  { unfold confirmedActivePrimary, confirmWritable, locked. solve_frees. }
  assert (guards (update (alter_recovery (fun r => r <| drainStartedAt := 0 |> <| drainComplete := false |>) n) ;;* pret false)) as Hreset.
  { apply guards_bind; [apply guards_update; intros s; by apply still_alter|]. intros _. apply guards_ret. }
  intros t active p1 H1. destruct recorded; cbn [negb orb]; [|apply Hreset]. destruct active as [a|]; [|apply Hreset].
  case_bool_decide as Hn; cbn [negb]; [|apply Hreset]. destruct (Hrec eq_refl) as (s & Hs & Es).
  eapply (active_runs (trackers p)) in H1 as (_ & _ & _ & _ & _ & Hro); [|done]. rewrite Hn in Hro.
  apply scwp_bind. unfold update at 1. apply scwp_bind, kw_locked. intros s0 Hs0.
  apply kw_unlock; [apply (unlock_kept _ _ _ Hs0); by apply same_blocked|].
  apply kw_drop_then; [|intros; apply guards_ret]. right. right. left. split; [exists s; auto|]. split; [auto|].
  eexists _, tt, _. split; [apply saw_last|]. split; [reflexivity|done].
Qed.

Lemma kw_clear_site t repl h p : kw (clear_site cfg t repl) h p (fun _ _ _ => True).
Proof using.
  unfold clear_site. apply scwp_bind, kw_locked. intros s0 _. destruct (recovery (adopt p s0) !! name t) as [r|] eqn:Er; [|by apply scwp_ret].
  case_bool_decide; [by apply scwp_ret|].
  assert (recovery_state r <> recoveryStateBlocked -> resolved (h ++ [ev (Ans := ans) Lock s0]) (name t)) as Hu.
  { intros Hne. right. right. right. exists s0, r. split; [apply saw_last|]. done. }
  case_bool_decide as Hw.
  - apply kw_clear_writable; [|done]. intros Ht%bool_decide_eq_true. exists s0. split; [apply saw_last|done].
  - case_bool_decide; [|by apply scwp_ret]. unfold clear_follower. case_bool_decide as Hb; cbn [orb]; [by apply scwp_ret|].
    destruct (negb (replicaStatusHealthy repl)); [by apply scwp_ret|]. destruct (negb _); [by apply scwp_ret|].
    assert (guards (follower_drained cfg (name t) r)) as Hd by (unfold follower_drained; solve_guards).
    apply kw_guards; [done|]. intros t1 d p1. destruct d; [|by apply scwp_ret]. apply kw_drop_then; [|intros; apply guards_ret]. by apply resolved_l, Hu.
Qed.

Lemma guards_clear r : guards (clearHealthyRecoverySites cfg r).
Proof using.
  assert (forall l, guards (clear_sites cfg l)) as Hl.
  { induction l as [|[t q] l IH]; [apply guards_ret|]. cbn [clear_sites]. apply guards_bind; [intros h p; apply kw_clear_site|]. intros c.
    apply guards_bind; [done|]. intros; apply guards_ret. }
  unfold clearHealthyRecoverySites. apply guards_bind; [apply guards_get|]. intros p. apply Hl.
Qed.

(** *** Old primaries *)

Lemma guards_back_off n b : guards (back_off n b).
Proof using. unfold back_off. solve_guards. Qed.

#[local] Hint Resolve guards_back_off : guards.

Lemma guards_record_blocked n m x : guards (record_blocked n m x).
Proof using.
  unfold record_blocked. apply guards_section. intros s. apply (guards_in_call _ Now); [done|done|]. intros now. apply guards_in_unlock, still_put. by right.
Qed.

#[local] Hint Resolve guards_record_blocked : guards.

Lemma kw_in_progress n h p : resolved h n -> kw (record_in_progress n) h p (fun _ _ _ => True).
Proof using.
  intros Hr. unfold record_in_progress. apply scwp_bind, kw_locked. intros s0 Hs.
  apply scwp_bind, (scwp_call _ Now); [by apply other_kept|]. intros now. apply (sees_snoc _ _ Now now) in Hs; [|done].
  apply kw_unlock; [|done]. apply (unlock_resolved _ _ _ Hs). intros m Hm. destruct (decide (m = n)) as [->|Hn]; [right; by do 2 apply resolved_l|].
  left. unfold is_divergent, put_recovery in *. cbn. by rewrite lookup_insert_ne.
Qed.

Lemma kw_compare old new h p : saw h (CheckReadOnly new) (Some false) -> kw (compare_recovery old new) h p (fun _ _ _ => True).
Proof using.
  intros Hw. unfold compare_recovery. apply scwp_bind, (scwp_call _ (GetGtidExecuted old)); [by apply other_kept|].
  intros [oraw|]; [|apply guards_back_off]. apply scwp_bind, (scwp_call _ (GetGtidExecuted new)); [by apply other_kept|].
  intros [nraw|]; [|apply guards_back_off]. destruct (ParseGTIDSet oraw) as [go|] eqn:Eo; [|apply guards_back_off].
  destruct (ParseGTIDSet nraw) as [gn|] eqn:En; [|apply guards_back_off]. unfold judge_recovery. destruct (IsEmpty go); [apply guards_back_off|].
  destruct (Contains gn go) eqn:Ec; [|cbn zeta; assert (guards (let^ s := locked in record_blocked old new (Subtract go gn) ;;*
    pret (negb (bool_decide (recovery_state <$> recovery s !! old = Some recoveryStateBlocked) && bool_decide (divergentGtid <$> recovery s !! old = Some (GTIDSet_String (Subtract go gn)))), true, false))) as Hk by solve_guards; apply Hk].
  apply kw_guards; [solve_guards|]. intros t held p1. destruct held; [by apply scwp_ret|]. apply scwp_bind.
  eapply scwp_mono; [apply kw_in_progress|intros h' a p' _; by apply scwp_ret]. apply resolved_l. right. left. exists new. split; [auto|].
  exists gn, go. split; [exists nraw; auto|]. split; [exists oraw; auto|done].
Qed.

Lemma kw_initiate old new h p : saw h (CheckReadOnly new) (Some false) -> kw (initiateRecovery cfg old new) h p (fun _ _ _ => True).
Proof using.
  intros Hw. unfold initiateRecovery. apply kw_guards; [solve_guards|]. intros t1 pre p1. destruct pre as [pre|]; [|apply guards_back_off].
  apply kw_guards; [unfold recovery_empty, sharesHistory; solve_guards|]. intros t2 e p2. destruct e; [by apply scwp_ret|].
  apply kw_guards; [unfold fence_old; solve_guards|]. intros t3 f p3. destruct f; cbn [negb]; [|apply guards_back_off].
  apply kw_guards; [solve_guards|]. intros t4 d p4. destruct d; cbn [negb]; [|by apply scwp_ret]. apply kw_compare. auto.
Qed.

Lemma guards_rewrite old host e : guards (rewriteOldPrimary old host e).
Proof using.
  assert (guards (rewrite_deferred old)) as Hd.
  { unfold rewrite_deferred. apply guards_bind; [apply guards_update; intros s; by apply still_alter|]. intros _. solve_guards. }
  assert (guards (executeRecovery old host)) as He.
  { unfold executeRecovery. apply guards_bind; [|intros; apply guards_ret]. apply guards_gate. unfold RecoverOldPrimary. solve_guards. }
  unfold rewriteOldPrimary. solve_guards.
Qed.

#[local] Hint Resolve guards_rewrite : guards.

Lemma kw_attempt a n h p : saw h (CheckReadOnly (name a)) (Some false) -> kw (attempt_recovery cfg a n) h p (fun _ _ _ => True).
Proof using.
  intros Hw. unfold attempt_recovery. apply kw_guards; [solve_guards|]. intros t1 s p1. apply scwp_bind.
  eapply scwp_mono; [apply kw_initiate; auto|]. intros h2 [[c b] rw] p2 _.
  assert (guards (pcall ExitGate ;;* (if rw : bool then pcall PersistStatus ;;* rewriteOldPrimary n (host a) (authorityEpoch (tmgr s)) else pret tt) ;;* pret (c, b))) as Hk by solve_guards.
  apply Hk.
Qed.

Lemma kw_scan a hd l : forall h p, saw h (CheckReadOnly (name a)) (Some false) -> kw (recovery_scan cfg a l hd) h p (fun _ _ _ => True).
Proof using.
  induction l as [|[t r] l IH]; intros h p Hw; [by apply scwp_ret|]. cbn [recovery_scan]. case_bool_decide; [by apply IH|].
  apply kw_guards; [unfold recovery_due, recovery_delayed; solve_guards|]. intros t1 due p1. destruct due; cbn [negb]; [|apply IH; auto].
  apply kw_guards; [solve_guards|]. intros t2 ok p2. destruct ok; cbn [negb]; [|assert (guards (defer_recovery ;;* pret false)) as Hk by solve_guards; apply Hk].
  apply scwp_bind. eapply cwp_mono; [apply cwp_extends, (kw_attempt a (name t)); auto|]. intros h3 [[c b] p3] [_ [t3 ->]]. cbn [fst snd].
  destruct b; [by apply scwp_ret|]. apply IH. auto.
Qed.

Lemma guards_recovery repls hd : guards (checkRecoveryWithConvergence cfg repls hd).
Proof using.
  pose proof guards_clear as Hclear. unfold checkRecoveryWithConvergence. apply guards_bind; [solve_guards|]. intros b. destruct b; [apply guards_ret|].
  apply guards_bind; [apply Hclear|]. intros c. destruct c; [apply guards_ret|]. destruct (negb _); [apply guards_ret|].
  apply guards_bind; [unfold followerMutationSuppressed; solve_guards|]. intros s. destruct s; [solve_guards|]. unfold noteRecoveryDeferred.
  apply guards_bind; [solve_guards|]. intros _ h p. apply scwp_bind. eapply (scwp_runs _ (fun o => negb (stores o))).
  { intros h' o Ho%negb_true_iff. by apply other_kept. }
  { unfold confirmedActivePrimary, confirmWritable, locked. solve_frees. }
  intros t [a|] p1 H1; [|by apply scwp_ret]. apply scwp_bind, scwp_get, kw_scan. apply saw_r.
  by eapply (active_runs (trackers p)) in H1 as (_ & _ & _ & _ & _ & Hro).
Qed.

(** *** The cycle *)

Lemma guards_release : guards (releaseCloneHold cfg).
Proof using. unfold releaseCloneHold, clear_hold_release. solve_guards. Qed.

Lemma guards_reclone : guards (checkReclone cfg).
Proof using. unfold checkReclone, complete_reclone, start_reclone, drop_reclone, restoreRecloneBlockedSite. solve_guards. Qed.

#[local] Hint Resolve guards_convergence guards_audit guards_recovery guards_release guards_reclone : guards.

Lemma guards_act t l : guards (act_cycle cfg unicode_lower t l).
Proof using. unfold act_cycle, check_replication, check_followers. solve_guards. Qed.

#[local] Hint Resolve guards_act : guards.

Lemma guards_cycle b : guards (poll_cycle cfg unicode_lower b).
Proof using. unfold poll_cycle. solve_guards. Qed.

End followers.

(** C3. A poll never forgets a divergence report without proof: when one of its sections
    ends with fields in which a site found recorded as divergent no longer is, then in
    this poll the site's executed set was read first and that of a primary confirmed
    writable later, with nothing left over (the audit); or the site's set was read
    contained in the confirmed primary's (its recovery); or the site is the recorded
    failover target, answered writable and its promotion was noted; or a section had
    found its marker to be no block any more. *)
Theorem divergence_kept cfg unicode_lower backoff p tr r t1 s' x t2 : runs (poll_cycle cfg unicode_lower backoff p) tr r ->
  tr = t1 ++ ev (Unlock s') x :: t2 ->
  exists s, found t1 = Some s /\ forall n, is_divergent s n = true -> is_divergent s' n = true \/ resolved t1 n.
Proof.
  intros H Htr. destruct (scwp_sound _ _ _ _ _ _ _ (guards_cycle cfg unicode_lower backoff [] p) H) as [Hm _].
  exact (Hm t1 _ t2 Htr s' eq_refl).
Qed.

(** ** Witness: a replica whose block the audit clears *)

Definition block : siteRecovery :=
  {| recovery_state := recoveryStateBlocked; retryAfter := 0; divergentGtid := "3e11fa47-71ca-11e1-9e33-c80aa9429562:5"; divergentCount := 1;
     detectedBy := divergenceDetectedByAudit; comparedTo := "a"; drainStartedAt := 0; drainComplete := false |}.

Definition clearing_answer (o : op) : ans o :=
  match o with
  | Lock => demo_shared <| recovery := {["b" := block]} |>
  | ShowReplicaStatus _ => Some (Some {| IORunning := true; SQLRunning := true; SourceHost := "a"; ExecutedGtidSet := "3e11fa47-71ca-11e1-9e33-c80aa9429562:1-5";
                                         SourceUUID := ""; SecondsBehindSource := Some 0 |})
  | o => follow_answer o
  end.

Definition clearing : list (event ans) * (unit * poller) := exec (fun _ => clearing_answer) (poll_cycle demo_config id true follow_poller) [].

Lemma clearing_runs : runs (poll_cycle demo_config id true follow_poller) clearing.1 clearing.2.
Proof. unfold clearing. apply exec_run. Qed.

Definition unlocked_at (k : nat) (t : list (event ans)) : Shared :=
  match nth_error t k with
  | Some e => match projT1 e with Unlock s => s | _ => demo_shared end
  | None => demo_shared
  end.

Lemma clearing_unlocks : clearing.1 = take 36 clearing.1 ++ ev (Ans := ans) (Unlock (unlocked_at 36 clearing.1)) tt :: drop 37 clearing.1.
Proof. vm_compute. reflexivity. Qed.

Lemma divergence_kept_witness : is_divergent (unlocked_at 36 clearing.1) "b" = false
  /\ exists s, found (take 36 clearing.1) = Some s
     /\ forall n, is_divergent s n = true -> is_divergent (unlocked_at 36 clearing.1) n = true \/ resolved (take 36 clearing.1) n.
Proof. split; [vm_compute; reflexivity|]. exact (divergence_kept _ _ _ _ _ _ _ _ _ _ clearing_runs clearing_unlocks). Defined.
