(* ===== verification/PollDebounce.v ===== *)
(** * The topology manager's poll: debounce

    What a site's debounced state means over its whole history of probes. *)
From S2P Require Import Prelude GoStd Intervals GtidSet SiteState Effects GoTime Failover FailoverRecord ClaimSlot Claims Protocol PollData PollSteps PollBootstrap PollAct PollFollow PollRecover PollCycle PollSafety PollProofs PollRepoint PollHistory.

Local Open Scope Z_scope.

#[local] Arguments prog_bind {Op Ans A B} _ _ : simpl never.

Import GTID Matrix FailoverRecords ClaimSlot Claims Poll PollOps PollBoot PollAct PollCycle.

(** ** Debounce *)

Section debounce.

Context (cfg : TopologyConfig).

(** One poll of one site: when its probe started, when it was settled, its result, and
    whether it was settled: a poll that finds the authority epoch moved keeps the counters
    of its probes and drops what they say of the states. *)
Record tick : Type := { at_probe : Z; at_settle : Z; got : pollResult; settled : bool }.

Definition after_tick (t : siteTracker) (k : tick) : siteTracker :=
  let '(c, st) := judge cfg (at_probe k) (PollInterval cfg) t (got k) in if settled k then settle (at_settle k) c (got k) st else c.

(** A site nothing is known of. *)
Definition unknown (t : siteTracker) : Prop := tstate t = StateUnknown /\ failCount t = 0 /\ recoveryCount t = 0.

(** How many of the answers, from the latest on, are [r]; an answer comes with whether the
    poll that got it was settled, and counts either way. *)
Fixpoint run_of (r : option bool) (l : list (option bool * bool)) : Z :=
  match l with
  | (x, _) :: l => if bool_decide (x = r) then 1 + run_of r l else 0
  | [] => 0
  end.

(** The state the answers justify, latest first: that of the latest decisive answer of a
    settled poll. A read-only answer is decisive; so is a failure that ends a run of at
    least [FailureThreshold], and a writable answer that ends a run of at least
    [RecoveryThreshold], or of a site that is never promoted. *)
Fixpoint verdict (promotable : bool) (l : list (option bool * bool)) : SiteState :=
  match l with
  | [] => StateUnknown
  | (r, kept) :: l' =>
      let old := verdict promotable l' in
      if negb kept then old
      else match r with
           | Some true => StateReadOnly
           | None => if run_of r l >=? FailureThreshold cfg then StateUnreachable else old
           | Some false => if negb promotable || (run_of r l >=? RecoveryThreshold cfg) then StateWritable else old
           end
  end.

(** The answers of a history, latest first; a deferred probe has none. *)
Definition answers (ks : list tick) : list (option bool * bool) :=
  omap (fun k => match got k with Probed ro => Some (ro, settled k) | Deferred => None end) (rev ks).

Definition debounced (t : siteTracker) (promotable : bool) (l : list (option bool * bool)) : Prop :=
  isPromotable t = promotable /\ tstate t = verdict promotable l /\ failCount t = run_of None l
  /\ (tstate t = StateWritable \/ recoveryCount t = run_of (Some false) l).

Lemma settle_state now c r st : tstate (settle now c r st) = st /\ failCount (settle now c r st) = failCount c
  /\ recoveryCount (settle now c r st) = recoveryCount c /\ isPromotable (settle now c r st) = isPromotable c.
Proof.
  unfold settle. cbn zeta. destruct r as [|[ro|]]; case_bool_decide as E; cbn in *; try done; repeat case_bool_decide; done.
Qed.

(** The counters and the state after one answer. *)
Lemma compute_counts t ro c st : computeState cfg t ro = (c, st) ->
  isPromotable c = isPromotable t
  /\ failCount c = (if ro then 0 else failCount t + 1)
  /\ recoveryCount c = match ro with
                       | Some false => if bool_decide (tstate t = StateWritable) then recoveryCount t else recoveryCount t + 1
                       | _ => 0
                       end
  /\ st = match ro with
          | Some true => StateReadOnly
          | Some false => if bool_decide (tstate t = StateWritable) || (recoveryCount t + 1 >=? RecoveryThreshold cfg) then StateWritable else tstate t
          | None => if failCount t + 1 >=? FailureThreshold cfg then StateUnreachable else tstate t
          end.
Proof.
  unfold computeState. destruct ro as [[]|]; [by intros [= <- <-]| |by intros [= <- <-]].
  cbn. case_bool_decide as E; intros [= <- <-]; cbn; done.
Qed.

(** Scheduling the next probe leaves the counters and the state alone. *)
Lemma schedule_counts c now base : tstate (scheduleNextProbe cfg c now base) = tstate c
  /\ failCount (scheduleNextProbe cfg c now base) = failCount c
  /\ recoveryCount (scheduleNextProbe cfg c now base) = recoveryCount c
  /\ isPromotable (scheduleNextProbe cfg c now base) = isPromotable c.
Proof. done. Qed.

Lemma tick_name t k : name (after_tick t k) = name t.
Proof. unfold after_tick, judge. destruct (got k) as [|ro]; [|unfold computeState; destruct ro as [[]|]]; repeat (case_match; simplify_eq/=); unfold settle; repeat case_match; done. Qed.

Lemma compute_state_kept t ro c st : computeState cfg t ro = (c, st) -> tstate c = tstate t.
Proof. unfold computeState. destruct ro as [[]|]; [by intros [= <- <-]| |by intros [= <- <-]]. cbn. case_bool_decide; by intros [= <- <-]. Qed.

Lemma tick_debounced t b l k : debounced t b l ->
  debounced (after_tick t k) b (match got k with Probed ro => (ro, settled k) :: l | Deferred => l end).
Proof.
  intros (Hp & Hs & Hf & Hr). unfold after_tick, judge. destruct (got k) as [|ro].
  { destruct (settle_state (at_settle k) t Deferred (tstate t)) as (E1 & E2 & E3 & E4).
    destruct (settled k); unfold debounced; rewrite ?E1, ?E2, ?E3, ?E4; done. }
  destruct (computeState cfg t ro) as [c st] eqn:E. cbv beta iota. pose proof (compute_state_kept _ _ _ _ E) as Ec.
  apply compute_counts in E as (Ep & Ef & Er & ->).
  destruct (schedule_counts c (at_probe k) (PollInterval cfg)) as (S1 & S2 & S3 & S4). destruct (settled k).
  - match goal with |- debounced (settle ?n ?c ?r ?s) _ _ => destruct (settle_state n c r s) as (E1 & E2 & E3 & E4) end.
    unfold debounced. rewrite E1, E2, E3, E4, S2, S3, S4, Ep, Ef, Er, Hp, Hf. clear E1 E2 E3 E4.
    split; [done|]. destruct ro as [[]|]; cbn -[Z.add].
    + split; [done|]. split; [done|]. by right.
    + destruct b; cbn; [|split; [done|split; [done|by left]]]. case_bool_decide as Ew; cbn.
      * rewrite Ew in Hs. rewrite <- Hs. split; [by destruct (_ >=? _)|]. split; [done|by left].
      * destruct Hr as [Hr|Hr]; [by rewrite Hr in Ew|]. rewrite Hr, Hs, Z.add_comm. split; [done|]. split; [done|]. by right.
    + rewrite Hs, Z.add_comm. split; [done|]. split; [done|]. by right.
  - unfold debounced. rewrite S1, S2, S3, S4, Ec, Ep, Ef, Er, Hp, Hf, Hs. split; [done|]. split; [done|]. cbn [run_of].
    destruct ro as [[]|].
    + split; [done|]. by right.
    + split; [done|]. destruct (decide (verdict b l = StateWritable)) as [Ew|Ew]; [by left|]. right.
      rewrite (bool_decide_true (Some false = Some false)), (bool_decide_false _ Ew) by done. destruct Hr as [Hr|Hr]; [congruence|]. by rewrite Hr, Z.add_comm.
    + split; [apply Z.add_comm|]. by right.
Qed.

Lemma ticks_debounced ks t b l : debounced t b l -> debounced (fold_left after_tick ks t) b (answers ks ++ l).
Proof.
  revert t l. induction ks as [|k ks IH]; intros t l H; [done|]. cbn [fold_left]. apply (tick_debounced _ _ _ k) in H. apply IH in H.
  unfold answers in *. cbn [rev]. rewrite omap_app. destruct (got k) eqn:E; cbn [omap list_omap]; rewrite E; [by rewrite app_nil_r|].
  by rewrite <- (assoc_L (++)).
Qed.

Lemma debounced_counters t t' b l : counters t' = counters t -> debounced t b l -> debounced t' b l.
Proof.
  unfold counters, view. intros E. injection E as _ Er Es Ef Ec. unfold debounced, isPromotable. by rewrite Er, Es, Ef, Ec.
Qed.

(** *** The ticks of a poll *)

Context (unicode_lower : string -> string).

(** The results of the probes at the head of the calls [tr], and the calls after them. *)
Fixpoint read_probes (backoff : bool) (start : Z) (l : list siteTracker) (tr : list (event ans)) : list pollResult * list (event ans) :=
  match l with
  | [] => ([], tr)
  | t :: l =>
      if probe_due backoff start t
      then match tr with
           | existT (CheckReadOnly _) ro :: tr => let '(rs, rest) := read_probes backoff start l tr in (Probed ro :: rs, rest)
           | _ => ([], tr)
           end
      else let '(rs, rest) := read_probes backoff start l tr in (Deferred :: rs, rest)
  end.

(** The ticks of the poll with the calls [tr]: the answers of its probes, settled if the
    authority epoch read under the lock is still the one the poll began with. *)
Definition ticks_of (backoff : bool) (p : poller) (tr : list (event ans)) : list tick :=
  match tr with
  | existT Lock s0 :: existT Now start :: tr =>
      match read_probes backoff start (trackers p) tr with
      | (rs, existT Now now :: existT Lock s1 :: _) =>
          map (fun r => {| at_probe := start; at_settle := now; got := r; settled := authorityEpoch (tmgr s1) =? authorityEpoch (tmgr s0) |}) rs
      | _ => []
      end
  | _ => []
  end.

Lemma ticks_read b p s0 start tr rs now s1 rest : read_probes b start (trackers p) tr = (rs, ev Now now :: ev Lock s1 :: rest) ->
  ticks_of b p (ev Lock s0 :: ev Now start :: tr)
  = map (fun r => {| at_probe := start; at_settle := now; got := r; settled := authorityEpoch (tmgr s1) =? authorityEpoch (tmgr s0) |}) rs.
Proof. intros E. cbn. by rewrite E. Qed.

Lemma judged_tick start now (kept : bool) l rs : length rs = length l ->
  map (if kept then settled_tracker now else counted) (judge_all cfg start (PollInterval cfg) l rs)
  = zip_with after_tick l (map (fun r => {| at_probe := start; at_settle := now; got := r; settled := kept |}) rs).
Proof.
  revert rs. induction l as [|t l IH]; intros [|r rs] H; try done. injection H as H. cbn. f_equal; [|by apply IH].
  unfold settled_tracker, after_tick. cbn. destruct (judge _ _ _ _ _) as [c st]. by destruct kept.
Qed.

Lemma probes_read b start l p tp rs p' u : runs (probe_sites b start l p) tp (rs, p') ->
  read_probes b start l (tp ++ u) = (rs, u) /\ p' = p /\ length rs = length l.
Proof.
  revert p tp rs p'. induction l as [|x l IH]; intros p tp rs p' H; simpl in H; [by apply sret_runs in H as (-> & -> & ->)|].
  apply sbind_runs in H as (t1 & r & p1 & t2 & -> & H1 & H). apply sbind_runs in H as (t3 & rest & p2 & t4 & -> & H2 & H).
  apply sret_runs in H as (-> & -> & ->). rewrite app_nil_r, <- (assoc_L (++)). cbn [read_probes].
  destruct (probe_due b start x).
  - apply sbind_runs in H1 as (t5 & ro & p3 & t6 & -> & (-> & ->)%(scall_runs (Ans := ans) (CheckReadOnly (name x))) & (-> & -> & ->)%sret_runs).
    apply IH in H2 as (E & -> & Hl). cbn. rewrite E. split; [done|]. split; [done|]. by f_equal.
  - apply sret_runs in H1 as (-> & -> & ->). apply IH in H2 as (E & -> & Hl). cbn. rewrite E. split; [done|]. split; [done|]. by f_equal.
Qed.

(** The observation leaves each tracker as its tick does. *)
Lemma observe_ticks b e p t r p' : runs (observe_sites cfg b e p) t (r, p') -> exists start tp rs now s1 rest,
  t = ev Now start :: tp ++ ev Now now :: ev Lock s1 :: rest
  /\ (forall u, read_probes b start (trackers p) (tp ++ u) = (rs, u)) /\ length rs = length (trackers p)
  /\ trackers p' = zip_with after_tick (trackers p)
       (map (fun r => {| at_probe := start; at_settle := now; got := r; settled := authorityEpoch (tmgr s1) =? e |}) rs).
Proof.
  unfold observe_sites. intros (t1 & start & p1 & t2 & -> & (-> & ->)%scall_runs & H)%sbind_runs.
  apply sbind_runs in H as (t3 & q & p2 & t4 & -> & (-> & -> & ->)%sget_runs & H). unfold id in H.
  apply sbind_runs in H as (t5 & rs & p3 & t6 & -> & Hp & H).
  destruct (probes_read _ _ _ _ _ _ _ [] Hp) as (_ & -> & Hl).
  apply sbind_runs in H as (t7 & now & p4 & t8 & -> & (-> & ->)%scall_runs & H). cbn zeta in H.
  apply sbind_runs in H as (t9 & [] & p5 & t10 & -> & (-> & ->)%smodify_runs & H).
  apply sbind_runs in H as (t11 & s & p6 & t12 & -> & (s0 & -> & -> & ->)%locked_runs & H).
  exists start, t5, rs, now, s0, t12. split; [done|]. split; [intros u; by eapply probes_read|]. split; [done|].
  rewrite <- judged_tick by done.
  change (authorityEpoch (tmgr (adopt _ s0))) with (authorityEpoch (tmgr s0)) in H.
  destruct (authorityEpoch (tmgr s0) =? e) eqn:Ee; cbn [negb] in H; cycle 1.
  { by apply sret_runs in H as (_ & _ & ->). }
  cbn zeta in H. apply sbind_runs in H as (t13 & [] & p7 & t14 & -> & (-> & ->)%smodify_runs & H).
  apply sbind_runs in H as (t15 & [] & p8 & t16 & -> & H1 & H).
  match type of H1 with runs (?m ?q) _ _ => assert (calm m) as [_ Hc1] by solve_calm end. apply Hc1 in H1. unfold same_sites in H1. cbn in H1.
  apply sbind_runs in H as (t19 & [] & p10 & t20 & -> & H2 & H). apply sret_runs in H as (-> & -> & ->).
  assert (calm (each taint_transition (judge_all cfg start (PollInterval cfg) (trackers p) rs))) as [_ Hc].
  { apply calm_each. intros j. unfold taint_transition. solve_calm. }
  apply Hc in H2. unfold same_sites in H2. by rewrite H2, H1.
Qed.

(** Every poll has its ticks, and the rest of the poll keeps what they left. *)
Lemma poll_ticks b p tr r p' : runs (poll_cycle cfg unicode_lower b p) tr (r, p') ->
  length (ticks_of b p tr) = length (trackers p)
  /\ map counters (trackers p') = zip_with (fun t k => counters (after_tick t k)) (trackers p) (ticks_of b p tr).
Proof.
  unfold poll_cycle. intros (t1 & s & p1 & t2 & -> & (s0 & -> & -> & ->)%locked_runs & H)%sbind_runs. cbn zeta in H.
  apply sbind_runs in H as (t3 & ob & p2 & t4 & -> & H1 & H).
  pose proof H1 as (start & tp & rs & now & s1 & rest & -> & Hp & Hl & Ht)%observe_ticks.
  assert (map counters (trackers p') = map counters (trackers p2)) as E.
  { destruct ob as [[tr' la]|]; [|by apply sret_runs in H as (_ & _ & ->)].
    apply observe_runs in H1. apply sbind_runs in H as (t5 & x & p3 & t6 & -> & H3 & H).
    assert (calm fenceWritableNonPromotableSites) as [_ Hc3] by solve_calm. apply Hc3 in H3. unfold same_sites in H3.
    apply sbind_runs in H as (t7 & ok & p4 & t8 & -> & H4 & H).
    assert (calm (confirm_pending (authorityEpoch (tmgr (adopt p s0))))) as [_ Hc4] by solve_calm. apply Hc4 in H4. unfold same_sites in H4.
    destruct ok; [|apply sret_runs in H as (_ & _ & ->); by rewrite H4, H3].
    assert (classified cfg (trackers p) (ev Now start :: tp ++ ev Now now :: ev Lock s1 :: rest) (trackers p4)) as Hc5 by (by rewrite H4, H3).
    destruct (scwp_sound _ _ _ _ _ _ _ (pw_act cfg unicode_lower _ tr' la _ p4 Hc5) H) as [_ E]. cbn in E. by rewrite E, H4, H3. }
  change ([ev Lock s0] ++ (ev Now start :: tp ++ ev Now now :: ev Lock s1 :: rest) ++ t4)
    with (ev Lock s0 :: ev Now start :: (tp ++ ev Now now :: ev Lock s1 :: rest) ++ t4).
  rewrite <- (assoc_L (++)). rewrite (ticks_read _ _ _ _ _ rs now s1 (rest ++ t4) (Hp _)), length_map. split; [done|]. rewrite E, Ht.
  change (authorityEpoch (tmgr (adopt p s0))) with (authorityEpoch (tmgr s0)).
  generalize (trackers p). clear. intros l. revert rs. induction l as [|t l IH]; intros [|r rs]; [done..|]. cbn. by rewrite IH.
Qed.

(** A history of polls, the ticks of each. *)
Inductive polls : poller -> list (list tick) -> poller -> Prop :=
| polls_nil p : polls p [] p
| polls_cons p b tr r p1 kss p2 :
    runs (poll_cycle cfg unicode_lower b p) tr (r, p1) -> polls p1 kss p2 -> polls p (ticks_of b p tr :: kss) p2.

Lemma polls_debounced p kss p' : polls p kss p' -> forall i t c l, trackers p !! i = Some t -> debounced t c l ->
  exists t', trackers p' !! i = Some t' /\ name t' = name t /\ debounced t' c (answers (omap (.!! i) kss) ++ l).
Proof.
  induction 1 as [p|p b tr r p1 kss p2 H1 _ IH]; intros i t c l Hi Hd; [by exists t|].
  destruct (poll_ticks _ _ _ _ _ H1) as [Hl E]. revert Hl E. generalize (ticks_of b p tr). intros ks Hl E.
  destruct (ks !! i) as [k|] eqn:Ek; [|apply lookup_ge_None in Ek; apply lookup_lt_Some in Hi; lia].
  pose proof (f_equal (.!! i) E) as Ei. cbn in Ei. rewrite list_lookup_fmap, lookup_zip_with, Hi in Ei. cbn in Ei. rewrite Ek in Ei.
  destruct (trackers p1 !! i) as [t1|] eqn:Et; [|done]. apply (inj Some) in Ei. pose proof (tick_debounced t c l k Hd) as Hk.
  apply (debounced_counters _ t1) in Hk; [|exact Ei]. destruct (IH i t1 c _ Et Hk) as (t' & Ht' & Hn & Hd'). exists t'. split; [done|].
  split; [rewrite Hn; apply (f_equal (fun x => Claims.site_name x.1.1)) in Ei; cbn in Ei; rewrite Ei; apply tick_name|].
  revert Hd'. cbn [omap list_omap]. rewrite Ek. unfold answers. cbn [rev]. rewrite omap_app. destruct (got k) eqn:Eg; cbn [omap list_omap]; rewrite Eg; [by rewrite app_nil_r|].
  by rewrite <- (assoc_L (++)).
Qed.

End debounce.

(** C8. Over any history of polls of the manager, deferred probes and polls that find the
    authority epoch moved included, a site's debounced state is the reference verdict on
    its probes' answers. Every answer counts towards its run, that of a poll whose states
    were dropped too, and only a settled poll's is decisive: a read-only one at once, a
    failure and a writable one when a full run of consecutive answers ends there, a
    writable one at once at a site that is never promoted. *)
Theorem debounce_is_verdict cfg unicode_lower p kss p' i t : polls cfg unicode_lower p kss p' -> trackers p !! i = Some t -> unknown t ->
  exists t', trackers p' !! i = Some t' /\ name t' = name t /\ tstate t' = verdict cfg (isPromotable t) (answers (omap (.!! i) kss)).
Proof.
  intros H Hi (Hs & Hf & Hr).
  assert (debounced cfg t (isPromotable t) []) as H0 by (repeat split; [done|done|by right]).
  destruct (polls_debounced _ _ _ _ _ H i t _ _ Hi H0) as (t' & Ht' & Hn & _ & E & _). exists t'. by rewrite app_nil_r in E.
Qed.

(** ** Witness: a primary that stops answering *)

Definition watched : siteTracker :=
  {| name := "a"; role := SiteRolePrimaryCandidate; taintSelector := ""; host := "a"; lbIP := ""; tstate := StateUnknown; failCount := 0; recoveryCount := 0;
     lastAnswerWritable := false; probes := 0; lastSeen := 0; nextProbe := 0; replicating := false; replicatingStreak := 0; probeFailed := false |}.

Definition watcher : TopologyConfig :=
  {| PollInterval := 2 * Second; FailureThreshold := 3; RecoveryThreshold := 2; FailoverCooldown := 0; SitePriorities := []; bootstrap_wired := true;
     recorder_wired := false; keyring_wired := false; emergency_wired := false; dns := None; repl_user_set := true; reclone_wired := false;
     ConnectionDrainTimeout := 0; ReadOnlyMaxLagSeconds := 0 |}.

Definition watch_start : poller := {| trackers := [watched]; lastReassert := 0; lastFenceRetryLog := 0 |}.

(** The site answers [ro]; [moved]: the authority epoch moves while it is probed. *)
Definition watch_answer (ro : option bool) (moved : bool) (h : list (event ans)) (o : op) : ans o :=
  match o with
  | CheckReadOnly _ => ro
  | Lock => if moved && nonempty h then demo_shared <| tmgr := tmgr demo_shared <| authorityEpoch := 8 |> |> else demo_shared
  | o => demo_answer o
  end.

Definition watch_poll (ro : option bool) (moved : bool) (p : poller) : list (event ans) * (unit * poller) :=
  exec (watch_answer ro moved) (poll_cycle watcher id true p) [].

Fixpoint watch (l : list (option bool * bool)) (p : poller) : list (list tick) * poller :=
  match l with
  | [] => ([], p)
  | (ro, moved) :: l =>
      let x := watch_poll ro moved p in
      let y := watch l x.2.2 in (ticks_of true p x.1 :: y.1, y.2)
  end.

Lemma watch_history l p : polls watcher id p (watch l p).1 (watch l p).2.
Proof.
  revert p. induction l as [|[ro moved] l IH]; intros p; [constructor|]. cbn [watch fst snd].
  apply (polls_cons watcher id p true (watch_poll ro moved p).1 (watch_poll ro moved p).2.1 (watch_poll ro moved p).2.2); [|apply IH].
  rewrite <- surjective_pairing. apply exec_run.
Qed.

Definition failing : list (option bool * bool) := [(Some false, false); (Some false, false); (None, false); (None, false); (None, true)].

(** Two writable answers, then failures. The third failure would make the site
    unreachable; its poll's states are dropped, and the next failure does. *)
Lemma debounce_is_verdict_witness :
  (exists t', trackers (watch failing watch_start).2 !! 0%nat = Some t' /\ name t' = "a" /\ tstate t' = StateWritable)
  /\ (exists t', trackers (watch (failing ++ [(None, false)]) watch_start).2 !! 0%nat = Some t' /\ name t' = "a" /\ tstate t' = StateUnreachable).
Proof.
  split; [pose proof (watch_history failing watch_start) as H|pose proof (watch_history (failing ++ [(None, false)]) watch_start) as H].
  - destruct (debounce_is_verdict watcher id _ _ _ 0%nat watched H) as (t' & Ht & Hn & E); [reflexivity|repeat split; reflexivity|].
    exists t'. split; [exact Ht|]. split; [exact Hn|]. rewrite E. vm_compute. reflexivity.
  - destruct (debounce_is_verdict watcher id _ _ _ 0%nat watched H) as (t' & Ht & Hn & E); [reflexivity|repeat split; reflexivity|].
    exists t'. split; [exact Ht|]. split; [exact Hn|]. rewrite E. vm_compute. reflexivity.
Defined.
