(* ===== verification/PollChoice.v ===== *)
(** * The topology manager's poll: the freshest candidate

    What [pickFreshestCandidate] guarantees of the candidate it names. *)
From S2P Require Import Prelude GoStd Intervals GtidSet SiteState Effects GoTime Failover FailoverRecord ClaimSlot Claims Protocol PollData PollSteps PollBootstrap PollAct PollFollow PollRecover PollCycle PollSafety PollProofs PollRepoint PollHistory.

Local Open Scope Z_scope.

#[local] Arguments prog_bind {Op Ans A B} _ _ : simpl never.

Import GTID Matrix FailoverRecords ClaimSlot Claims Poll PollOps PollBoot PollAct PollCycle.

#[local] Hint Resolve saw_l saw_r saw_last read_l read_r gtid_read_l gtid_read_r : core.

(** ** Inclusion of sets *)

Definition proper (g : GTIDSet) : Prop := bounded g /\ wf g.

Lemma contains_refl g : proper g -> Contains g g = true.
Proof. intros [Hb Hw]. by apply Contains_spec. Qed.

Lemma contains_trans a b c : proper a -> proper b -> proper c -> Contains a b = true -> Contains b c = true -> Contains a c = true.
Proof.
  intros [Ha _] [Hb Hb'] [_ Hc] H1 H2. apply Contains_spec; [done..|]. rewrite Contains_spec in H1, H2 by done. auto.
Qed.

(** ** The fold *)

Section fold.

Context (divergent : string -> bool) (want : bool).

(** A candidate [freshest] considers. *)
Definition considered (i : candidateInfo) (g : GTIDSet) : Prop := snd i = Some g /\ divergent (fst i) = want.

(** No candidate listed before the best contains its set, none after it is newer. *)
Definition best_of (infos : list candidateInfo) (n : string) (g : GTIDSet) : Prop := exists pre post,
  infos = pre ++ (n, Some g) :: post /\ divergent n = want
  /\ (forall i g', i ∈ pre -> considered i g' -> Contains g' g = false)
  /\ (forall i g', i ∈ post -> considered i g' -> Contains g' g = true -> Contains g g' = true).

(** What the fold knows after a prefix of the candidates. *)
Definition folded (infos : list candidateInfo) (best : option (string * GTIDSet)) : Prop :=
  match best with
  | None => forall i g, i ∈ infos -> ~ considered i g
  | Some (n, g) => best_of infos n g
  end.

Lemma best_skip infos n g i : (forall g', considered i g' -> Contains g' g = true -> Contains g g' = true) -> best_of infos n g -> best_of (infos ++ [i]) n g.
Proof using.
  intros Hi (pre & post & -> & Hn & H1 & H2). exists pre, (post ++ [i]). split; [by rewrite <- (assoc_L (++))|]. split; [done|]. split; [done|].
  intros j g' [Hj| ->%list_elem_of_singleton]%elem_of_app; [by apply H2|by apply Hi].
Qed.

Lemma folded_step infos best i : (forall j g, j ∈ infos ++ [i] -> snd j = Some g -> proper g) -> folded infos best ->
  folded (infos ++ [i]) (fresher divergent want best i).
Proof using.
  intros Hp H. unfold fresher. destruct i as [m [g|]]; cbn [fst snd].
  2:{ destruct best as [[n b]|]; cbn in *; [apply best_skip; [by intros g' [Hx _]|done]|]. intros i g [Hi| ->%list_elem_of_singleton]%elem_of_app; [by apply H|by intros [Hx _]]. }
  assert (proper g) as Hg by (apply (Hp (m, Some g)); [apply elem_of_app; right; left|done]).
  destruct (Bool.eqb (divergent m) want) eqn:Em; cbn [negb].
  - apply Bool.eqb_prop in Em. destruct best as [[n b]|]; cbn in H.
    + destruct (Contains g b) eqn:E1; cbn [andb]; [destruct (Contains b g) eqn:E2; cbn [negb]|].
      * apply best_skip; [|done]. intros g' [[= ->] _] _. done.
      * destruct H as (pre & post & -> & Hn & H1 & H2). assert (proper b) as Hb by (apply (Hp (n, Some b)); [apply elem_of_app; left; apply elem_of_app; right; left|done]).
        exists (pre ++ (n, Some b) :: post), []. split; [done|]. split; [done|]. split; [|by intros ? ? ?%not_elem_of_nil].
        intros j g' Hj Hc. destruct (Contains g' g) eqn:E; [exfalso|done].
        assert (proper g') as Hg' by (apply (Hp j); [apply elem_of_app; by left|apply Hc]).
        assert (Contains g' b = true) as E' by (by apply (contains_trans g' g b)).
        apply elem_of_app in Hj as [Hj|[->|Hj]%elem_of_cons].
        -- pose proof (H1 j g' Hj Hc) as E3. congruence.
        -- destruct Hc as [[= ->] _]. congruence.
        -- pose proof (contains_trans b g' g Hb Hg' Hg (H2 j g' Hj Hc E') E). congruence.
      * apply best_skip; [|done]. intros g' [[= ->] _] ?. congruence.
    + exists infos, []. split; [done|]. split; [done|]. split; [|by intros ? ? ?%not_elem_of_nil]. intros i g' Hi Hc. destruct (H i g' Hi Hc).
  - assert (divergent m <> want) as Hm by (intros <-; by rewrite Bool.eqb_reflx in Em).
    destruct best as [[n b]|]; cbn in *; [apply best_skip; [by intros g' [_ Hx]|done]|].
    intros i g' [Hi| ->%list_elem_of_singleton]%elem_of_app; [by apply H|by intros [_ Hx]].
Qed.

Lemma freshest_folded infos : (forall j g, j ∈ infos -> snd j = Some g -> proper g) -> folded infos (freshest infos divergent want).
Proof using.
  unfold freshest. induction infos as [|i infos IH] using rev_ind; intros Hp; [by intros ? ? ?%not_elem_of_nil|].
  rewrite fold_left_app. apply folded_step; [done|]. apply IH. intros j g Hj. apply Hp, elem_of_app. by left.
Qed.

End fold.

(** ** The reads *)

Definition gtid_answer (e : event ans) : option (string * option string) :=
  match e with
  | existT (GetGtidExecuted n) raw => Some (n, raw)
  | _ => None
  end.

Lemma gtid_read_here n raw m g : gtid_read [ev (Ans := ans) (GetGtidExecuted n) raw] m g -> n = m /\ exists s, raw = Some s /\ ParseGTIDSet s = Ok g.
Proof. intros (s & H%list_elem_of_singleton%(f_equal gtid_answer) & E). simpl in H. injection H as <- <-. eauto. Qed.

Lemma gtid_read_app t1 t2 m g : gtid_read (t1 ++ t2) m g -> gtid_read t1 m g \/ gtid_read t2 m g.
Proof. intros (s & [H|H]%elem_of_app & E); [left|right]; by exists s. Qed.

Lemma gtid_read_locks t m g : Forall (fun e => gtid_answer e = None) t -> ~ gtid_read t m g.
Proof. rewrite Forall_forall. intros Ht (s & H & _). by apply Ht in H. Qed.

(** What was read of a candidate is what the fold gets. *)
Lemma query_one n p t g p' : runs (query_candidate n p) t (g, p') -> p' = p /\ forall m g', gtid_read t m g' -> m = n /\ g = Some g'.
Proof.
  unfold query_candidate. intros H. srun H. destruct (getSite (id p) n) as [x|].
  2:{ apply sret_runs in H as (-> & _ & ->). split; [done|]. by intros m g' (s & Hs%not_elem_of_nil & _). }
  unfold read_gtid in H. apply sbind_runs in H as (t1 & raw & p1 & t2 & -> & (-> & ->)%(scall_runs (Ans := ans) (GetGtidExecuted n)) & H).
  apply sret_runs in H as (-> & -> & ->). split; [done|]. rewrite app_nil_r. intros m g' [-> (s & -> & E)]%gtid_read_here. by rewrite E.
Qed.

Lemma query_reads cs p t infos p' : runs (query_candidates cs p) t (infos, p') ->
  map fst infos = cs /\ forall m g, gtid_read t m g -> (m, Some g) ∈ infos.
Proof.
  revert p t infos p'. induction cs as [|c cs IH]; intros p t infos p' H; simpl in H.
  - apply sret_runs in H as (-> & -> & _). split; [done|]. by intros m g (s & Hs%not_elem_of_nil & _).
  - apply sbind_runs in H as (t1 & g1 & p1 & t2 & -> & [-> H1]%query_one & H).
    apply sbind_runs in H as (t3 & rest & p2 & t4 & -> & [<- H2]%IH & H). apply sret_runs in H as (-> & -> & _). split; [done|].
    rewrite app_nil_r. intros m g [[-> ->]%H1|Hr]%gtid_read_app; [left|right; auto].
Qed.

(** ** The pick *)

Definition regressed (s : Shared) (g : GTIDSet) : bool := promotionDataRegression g (promotionGtidExecuted (authority_of s)) (groupHasData (authority_of s)).

(** The candidate's set was read as [g], and its data is kept. *)
Definition eligible (h : list (event ans)) (s : Shared) (n : string) (g : GTIDSet) : Prop := gtid_read h n g /\ regressed s g = false.

Lemma refused_infos s infos m g : (m, Some g) ∈ infos -> regressed s g = false ->
  (m, Some g) ∈ map (refuse_regressed (promotionGtidExecuted (authority_of s)) (groupHasData (authority_of s))) infos.
Proof.
  intros Hin Hr. apply list_elem_of_In, in_map_iff. exists (m, Some g). split; [|by apply list_elem_of_In].
  unfold refuse_regressed. cbn [fst snd]. unfold regressed in Hr. by rewrite Hr.
Qed.

Lemma refused_fst s (infos : list candidateInfo) : map fst (map (refuse_regressed (promotionGtidExecuted (authority_of s)) (groupHasData (authority_of s))) infos) = map fst infos.
Proof.
  rewrite map_map. apply map_ext. intros [m [g|]]; [|done]. unfold refuse_regressed. cbn [fst snd]. by destruct (promotionDataRegression _ _ _).
Qed.

(** The names split as the entries do. *)
Lemma place_of (infos pre post : list candidateInfo) n g m g' : NoDup (map fst infos) -> infos = pre ++ (n, Some g) :: post -> (m, Some g') ∈ infos ->
  (m ∈ map fst pre -> (m, Some g') ∈ pre) /\ (m ∈ map fst post -> (m, Some g') ∈ post).
Proof.
  intros Hd -> Hin. rewrite map_app in Hd. cbn in Hd. apply NoDup_app in Hd as (Hd1 & Hx & Hd2). apply NoDup_cons in Hd2 as [Hn Hd2].
  assert (forall (l : list candidateInfo), (m, Some g') ∈ l -> m ∈ map fst l) as Hf.
  { intros l Hl. apply list_elem_of_In, in_map_iff. exists (m, Some g'). split; [done|]. by apply list_elem_of_In. }
  apply elem_of_app in Hin as [Hin|[[= -> ->]|Hin]%elem_of_cons]; split; intros Hm; try done.
  - exfalso. apply (Hx m (Hf _ Hin)). by right.
  - exfalso. apply (Hx n Hm). left.
  - exfalso. apply (Hx m Hm). right. by apply Hf.
Qed.

(** C7. The candidate the picker names was read with its data kept (neither wiped nor
    behind the last recorded promotion); a candidate recorded as divergent is named only
    when no other one is eligible; and of the candidates of its kind, none listed before
    it contains its set and none listed after it is newer. *)
Theorem freshest_wins cs p tr n p' : NoDup cs -> (forall m g, gtid_read tr m g -> bounded g) ->
  runs (pickFreshestCandidate cs p) tr (n, p') -> n <> "" ->
  exists s1 s2 g c1 c2, read (trackers p) tr s1 /\ read (trackers p) tr s2 /\ cs = c1 ++ n :: c2 /\ eligible tr s1 n g
  /\ (is_divergent s2 n = true -> forall m g', eligible tr s1 m g' -> is_divergent s2 m = true)
  /\ (forall m g', eligible tr s1 m g' -> is_divergent s2 m = is_divergent s2 n ->
        (m ∈ c1 -> Contains g' g = false) /\ (m ∈ c2 -> Contains g' g = true -> Contains g g' = true)).
Proof.
  intros Hd Hb H Hn. unfold pickFreshestCandidate in H. apply sbind_runs in H as (t1 & infos & p1 & t2 & -> & Hq & H).
  pose proof (query_reads _ _ _ _ _ Hq) as [Hf Hr]. apply query_runs in Hq as [-> Hq].
  apply sbind_runs in H as (t3 & s1 & p2 & t4 & -> & (s10 & -> & Es1 & ->)%locked_runs & H).
  apply sbind_runs in H as (t5 & s2 & p3 & t6 & -> & (s20 & -> & Es2 & ->)%locked_runs & H). apply sret_runs in H as (-> & E & _).
  set (kept := map (refuse_regressed (promotionGtidExecuted (authority_of s1)) (groupHasData (authority_of s1))) infos) in *.
  set (tr := t1 ++ _) in *.
  assert (forall m g, eligible tr s1 m g -> (m, Some g) ∈ kept) as Hel.
  { intros m g [[Hg|Hg]%gtid_read_app Hk]; [by apply refused_infos; [apply Hr|]|]. exfalso. revert Hg. apply gtid_read_locks. by repeat constructor. }
  assert (forall m g, (m, Some g) ∈ kept -> eligible tr s1 m g) as Hke.
  { intros m g ([m' [g'|]] & E1 & Hin%list_elem_of_In)%list_elem_of_In%in_map_iff; unfold refuse_regressed in E1; cbn [fst snd] in E1; [|done].
    destruct (promotionDataRegression g' _ _) eqn:Er; [done|]. injection E1 as -> ->. apply Hq in Hin as [_ Hg]. split; [by apply gtid_read_l|done]. }
  assert (forall (j : candidateInfo) g, j ∈ kept -> snd j = Some g -> proper g) as Hp.
  { intros [m o] g Hj [= ->]. destruct (Hke _ _ Hj) as [Hg _]. split; [by apply (Hb m)|]. destruct Hg as (raw & _ & Eg). by eapply Failover.parsed_wf. }
  assert (exists want g, freshest kept (is_divergent s2) want = Some (n, g) /\ (want = true -> freshest kept (is_divergent s2) false = None)) as (want & g & Ef & Hw).
  { destruct (freshest kept _ false) as [[m g]|] eqn:E1; [subst n; by exists false, g|]. destruct (freshest kept _ true) as [[m g]|] eqn:E2; [subst n; by exists true, g|done]. }
  pose proof (freshest_folded (is_divergent s2) want kept Hp) as Hb1. rewrite Ef in Hb1. destruct Hb1 as (pre & post & Ek & Hdv & H1 & H2).
  exists s1, s2, g, (map fst pre), (map fst post). split; [exists s10; split; [apply elem_of_app; right; left|done]|].
  split; [exists s20; split; [apply elem_of_app; right; right; left|done]|].
  split; [rewrite <- Hf, <- (refused_fst s1); fold kept; rewrite Ek, map_app; done|].
  split; [apply Hke; rewrite Ek; apply elem_of_app; right; left|]. split.
  - intros Ht m g' Hm. pose proof (freshest_folded (is_divergent s2) false kept Hp) as Hb2. rewrite Hdv in Ht. rewrite (Hw Ht) in Hb2.
    destruct (is_divergent s2 m) eqn:Em; [done|]. destruct (Hb2 (m, Some g') g' (Hel _ _ Hm)). by split.
  - intros m g' Hm Em. rewrite Hdv in Em. assert (NoDup (map fst kept)) as Hdk by (unfold kept; by rewrite refused_fst, Hf).
    destruct (place_of kept pre post n g m g' Hdk Ek (Hel _ _ Hm)) as [Hpre Hpost].
    split; [intros Hx%Hpre; by apply (H1 _ g' Hx)|intros Hx%Hpost; by apply (H2 _ g' Hx)].
Qed.

(** ** Witness: the newer of two replicas *)

#[local] Instance bounded_dec g : Decision (bounded g).
Proof. unfold bounded. apply _. Defined.

Definition picker : poller := {| trackers := [demo_site "b" StateReadOnly; demo_site "c" StateReadOnly]; lastReassert := 0; lastFenceRetryLog := 0 |}.

Definition pick_answer (o : op) : ans o :=
  match o with
  | GetGtidExecuted n => Some (if bool_decide (n = "c") then "3e11fa47-71ca-11e1-9e33-c80aa9429562:1-7" else "3e11fa47-71ca-11e1-9e33-c80aa9429562:1-5")
  | o => demo_answer o
  end.

Definition picked : list (event ans) * (string * poller) := exec (fun _ => pick_answer) (pickFreshestCandidate ["b"; "c"] picker) [].

Lemma picked_runs : runs (pickFreshestCandidate ["b"; "c"] picker) picked.1 ("c", picker).
Proof. replace ("c", picker) with picked.2 by (vm_compute; reflexivity). unfold picked. apply exec_run. Qed.

Lemma picked_bounded m g : gtid_read picked.1 m g -> bounded g.
Proof.
  intros (raw & H & E). apply (exec_const pick_answer) in H. simpl in H. injection H as ->. revert E. case_bool_decide;
    match goal with |- ParseGTIDSet ?s = _ -> _ => intros E; assert (match ParseGTIDSet s with Ok g => bounded g | Err _ => False end) as Hb by (vm_compute ParseGTIDSet; apply (bool_decide_unpack _); vm_compute; exact I); rewrite E in Hb; exact Hb end.
Qed.

Lemma freshest_wins_witness : exists s1 s2 g c1 c2, read (trackers picker) picked.1 s1 /\ read (trackers picker) picked.1 s2 /\ ["b"; "c"] = c1 ++ "c" :: c2
  /\ eligible picked.1 s1 "c" g
  /\ (is_divergent s2 "c" = true -> forall m g', eligible picked.1 s1 m g' -> is_divergent s2 m = true)
  /\ (forall m g', eligible picked.1 s1 m g' -> is_divergent s2 m = is_divergent s2 "c" ->
        (m ∈ c1 -> Contains g' g = false) /\ (m ∈ c2 -> Contains g' g = true -> Contains g g' = true)).
Proof.
  refine (freshest_wins ["b"; "c"] picker picked.1 "c" picker _ picked_bounded picked_runs _); [|discriminate].
  apply (bool_decide_unpack _). vm_compute. exact I.
Defined.
