(* ===== verification/Clone.v ===== *)
(** * Cloning a site

    The goroutine that [startBootstrapByName] starts ([internal/controller/topology.go]:
    [runBootstrap], [verifyCloneOutcome], [canSkipClone]) and the two procedures of
    [internal/controller/bootstrap.go] it runs. Errors are their messages where the code
    reads them ([isCloneConnectionDrop]). Log lines and status callbacks are left out. *)
From S2P Require Import Prelude GoStd Intervals GtidSet Effects Claims.

Local Open Scope Z_scope.

#[local] Arguments prog_bind {Op Ans A B} _ _ : simpl never.

Module Clone.

Import GTID.

(** ** Calls *)

Inductive party : Type := Donor | Recipient.

#[export] Instance party_dec : EqDecision party.
Proof. solve_decision. Defined.

(** The row of [performance_schema.clone_status]. *)
Record CloneRow : Type := { State : string; BeginTime : string }.

(** The fields under [tm.mu] the goroutine reads or writes. *)
Record Fields : Type := {
  phase : Claims.BootstrapPhase;
  cloneHoldReleaseSite : string;
  reclonePendingSite : string;
  recloneCompletedSite : string;
  recloneCompletedOwner : string;
  cloneTimeout : Z
}.

#[export] Instance Fields_eta : Eta Fields := fun f =>
  Build_Fields (phase f) (cloneHoldReleaseSite f) (reclonePendingSite f) (recloneCompletedSite f) (recloneCompletedOwner f) (cloneTimeout f).

(** Statements go to the donor or the recipient; those without a [party] to the
    recipient. [Lock] answers the fields found, [Unlock] leaves those given. [TimerFired]:
    of a timer and the end of the context, the timer came first. *)
Inductive op : Type :=
| CheckReadOnly (c : party)
| EnsureClonePlugin (c : party)
| SetSuperReadOnly (on : bool)
| SetCloneDonorList (donor : string)
| KillAppConnections
| CloneInstance (host : string) (timeoutSec : Z)
| CloneStatus
| GetGtidExecuted (c : party)
| StopReplica
| ResetReplicaAll
| ChangeReplicationSource (host : string)
| StartReplica
| Now
| TimerFired
| Canceled
| ConfirmedActivePrimary
| NotifyCloneComplete
| RecloneComplete (owner : string) (ok : bool)
| Lock
| Unlock (f : Fields).

(** A statement answers [None], or the message of its error. *)
Definition ans (o : op) : Type :=
  match o with
  | CheckReadOnly _ => res string bool
  | CloneStatus => option (option CloneRow)
  | GetGtidExecuted _ => option string
  | Now => Z
  | TimerFired | Canceled | NotifyCloneComplete | RecloneComplete _ _ => bool
  | ConfirmedActivePrimary => option string
  | Lock => Fields
  | Unlock _ => unit
  | _ => option string
  end.

Abbreviation P := (prog ans).

(** ** Errors *)

(** [fmt.Errorf(context + ": %w", err)]. *)
Definition wrap (context msg : string) : string := context +:+ ": " +:+ msg.

Definition drop_needles : list string :=
  ["invalid connection"; "connection reset"; "broken pipe"; "EOF"; "bad connection"; "Lost connection"; "Restart server failed"].

Definition isCloneConnectionDrop (msg : string) : bool := existsb (StrContains msg) drop_needles.

(** [BootstrapReplica]'s: the donor answered read-only, or a call failed. *)
Definition primary_read_only : string := "primary is read-only, cannot bootstrap from it".

(** A statement whose error ends the procedure. *)
Definition must (o : P (option string)) (context : string) (k : P (option string)) : P (option string) :=
  let! e := o in
  match e with
  | Some msg => Ret (Some (wrap context msg))
  | None => k
  end.

(** ** [BootstrapController] *)

(** The last two steps of [BootstrapReplica], [super_read_only] being cleared. *)
Definition clone_cleared (primaryHost : string) (timeout : Z) : P (option string) :=
  let! e := call (SetCloneDonorList (primaryHost +:+ ":3306")) in
  match e : option string with
  | Some msg => let! _ := call (SetSuperReadOnly true) in Ret (Some (wrap "set clone donor list" msg))
  | None =>
      let! _ := call KillAppConnections in
      let cloneTimeout := if timeout <=? 0 then 3600 * Second else timeout in
      let! e := call (CloneInstance primaryHost (Z.quot cloneTimeout Second)) in
      match e : option string with
      | Some msg =>
          let! _ := (if isCloneConnectionDrop msg then Ret None else call (SetSuperReadOnly true)) in
          Ret (Some (wrap "clone instance" msg))
      | None => Ret None
      end
  end.

Definition BootstrapReplica (primaryHost : string) (timeout : Z) : P (option string) :=
  let! ro := call (CheckReadOnly Donor) in
  match ro : res string bool with
  | Err msg => Ret (Some (wrap "check primary read_only" msg))
  | Ok true => Ret (Some primary_read_only)
  | Ok false =>
      must (call (EnsureClonePlugin Donor)) "ensure primary clone plugin"
        (must (call (EnsureClonePlugin Recipient)) "ensure replica clone plugin"
           (must (call (SetSuperReadOnly false)) "disable replica super_read_only for clone" (clone_cleared primaryHost timeout)))
  end.

Definition SetupReplication (host : string) : P (option string) :=
  must (call (SetSuperReadOnly true)) "set super_read_only"
    (let! _ := call StopReplica in
     let! _ := call ResetReplicaAll in
     must (call (ChangeReplicationSource host)) "change replication source"
       (must (call StartReplica) "start replica" (Ret None))).

(** ** The clone *)

(** [GetGtidExecuted] and [ParseGTIDSet]. *)
Definition read_set (c : party) : P (option GTIDSet) :=
  let! raw := call (GetGtidExecuted c) in
  Ret (match raw : option string with Some raw => res_ok (ParseGTIDSet raw) | None => None end).

(** Both sets are read before either is parsed. *)
Definition canSkipClone : P bool :=
  let! praw := call (GetGtidExecuted Donor) in
  match praw : option string with
  | None => Ret false
  | Some praw =>
      let! rraw := call (GetGtidExecuted Recipient) in
      Ret match rraw : option string with
          | None => false
          | Some rraw =>
              match ParseGTIDSet praw, ParseGTIDSet rraw with
              | Ok p, Ok r => negb (IsEmpty p) && negb (IsEmpty r) && Contains p r
              | _, _ => false
              end
          end
  end.

Definition set_phase (ph : Claims.BootstrapPhase) : P unit :=
  let! f := call (Ans := ans) Lock in call (Ans := ans) (Unlock (f <| phase := ph |>)).

(** [util.RetryWithBackoff]: [retries] more after this attempt; whether it succeeded. *)
Fixpoint RetryWithBackoff (retries : nat) (attempt : P bool) : P bool :=
  let! canceled := call Canceled in
  if canceled : bool then Ret false
  else
    let! ok := attempt in
    if ok : bool then Ret true
    else match retries with
         | O => Ret false
         | S retries =>
             let! fired := call TimerFired in
             if fired : bool then RetryWithBackoff retries attempt else Ret false
         end.

Definition came_back : P bool :=
  RetryWithBackoff 10 (let! ro := call (CheckReadOnly Recipient) in Ret (match ro : res string bool with Ok _ => true | Err _ => false end)).

Definition CloneStateCompleted : string := "Completed".
Definition CloneStateFailed : string := "Failed".
Definition cloneOutcomePollInterval : Z := 2 * Second.

Inductive boot_error : Type :=
| CloneError (msg : string)
| NotRestarted
| CloneFailed
| OutcomeUnconfirmed
| ContextEnded
| SetsUnread
| WipedRecipient
| SetupError (msg : string)
| DonorLost
| DonorMoved
| OutOfFuel.

(** The switch of [verifyCloneOutcome]: the outcome is settled ([Ok true]), to be read
    again, or the clone failed. [st] is [None] when the read failed. *)
Definition outcome (prev : option CloneRow) (st : option (option CloneRow)) : res boot_error bool :=
  match st with
  | None => Ok false
  | Some None => Ok true
  | Some (Some row) =>
      if match prev with Some prev => bool_decide (BeginTime row = BeginTime prev) | None => false end
      then Ok (bool_decide (State row = CloneStateCompleted))
      else if bool_decide (State row = CloneStateFailed) then Err CloneFailed
      else Ok (bool_decide (State row = CloneStateCompleted))
  end.

(** The loop of [verifyCloneOutcome]; [fuel] bounds its passes. *)
Fixpoint await_outcome (fuel : nat) (deadline : Z) (prev : option CloneRow) : P (option boot_error) :=
  match fuel with
  | O => Ret (Some OutOfFuel)
  | S fuel =>
      let! st := call CloneStatus in
      match outcome prev st with
      | Err e => Ret (Some e)
      | Ok true => Ret None
      | Ok false =>
          let! now := call Now in
          if deadline <? now then Ret (Some OutcomeUnconfirmed)
          else
            let! fired := call TimerFired in
            if fired : bool then await_outcome fuel deadline prev else Ret (Some ContextEnded)
      end
  end.

(** The sets after the clone: read both, then parse. *)
Definition sets_after : P (option boot_error) :=
  let! draw := call (GetGtidExecuted Donor) in
  match draw : option string with
  | None => Ret (Some SetsUnread)
  | Some draw =>
      let! rraw := call (GetGtidExecuted Recipient) in
      Ret match rraw : option string with
          | None => Some SetsUnread
          | Some rraw =>
              match ParseGTIDSet draw, ParseGTIDSet rraw with
              | Ok d, Ok r => if negb (IsEmpty d) && IsEmpty r then Some WipedRecipient else None
              | _, _ => Some SetsUnread
              end
          end
  end.

Definition verifyCloneOutcome (fuel : nat) (prev : option CloneRow) : P (option boot_error) :=
  let! now := call Now in
  let! f := call Lock in
  let! e := await_outcome fuel (now + cloneTimeout f) prev in
  match e with
  | Some e => Ret (Some e)
  | None => sets_after
  end.

Definition setupReplicationForBootstrap (host : string) : P (option boot_error) :=
  let! e := SetupReplication host in
  Ret (match e with Some msg => Some (SetupError msg) | None => None end).

(** [runBootstrap] from the clone on. *)
Definition run_clone (fuel : nat) (primaryHost : string) : P (option boot_error) :=
  let! prev := call CloneStatus in
  let prev := match prev : option (option CloneRow) with Some row => row | None => None end in
  let! f := call Lock in
  let! e := BootstrapReplica primaryHost (cloneTimeout f) in
  if match e with Some msg => negb (isCloneConnectionDrop msg) | None => false end
  then Ret (Some (CloneError (default "" e)))
  else
    let! _ := set_phase Claims.BootstrapPhaseRestarting in
    let! back := came_back in
    if negb back then Ret (Some NotRestarted)
    else
      let! e := verifyCloneOutcome fuel prev in
      match e with
      | Some e => let! _ := call (SetSuperReadOnly true) in Ret (Some e)
      | None => let! _ := set_phase Claims.BootstrapPhaseSetupRepl in setupReplicationForBootstrap primaryHost
      end.

Definition runBootstrap (fuel : nat) (primaryHost : string) (allowSkipClone : bool) : P (option boot_error) :=
  let! skip := (if allowSkipClone then canSkipClone else Ret false) in
  if skip : bool
  then let! _ := set_phase Claims.BootstrapPhaseSetupRepl in setupReplicationForBootstrap primaryHost
  else run_clone fuel primaryHost.

(** ** The goroutine *)

Section goroutine.

(** Who is cloned from whom and why; whether the keyring gate and the reclone callback
    are wired. *)
Context (fuel : nat) (donor recipient primaryHost source recloneOwner : string) (keyring_gate reclone_callback : bool).

Definition recloning : bool := bool_decide (source = "reclone").

Definition donor_error : P (option boot_error) :=
  if bool_decide (source = "fresh-deploy") then Ret None
  else
    let! c := call ConfirmedActivePrimary in
    Ret match c : option string with
        | None => Some DonorLost
        | Some c => if bool_decide (c = donor) then None else Some DonorMoved
        end.

(** The last locked section. *)
Definition conclude (err : option boot_error) (callbackFailed : bool) (f : Fields) : Fields :=
  let ok := bool_decide (err = None) in
  let f := if recloning && bool_decide (reclonePendingSite f = recipient) then f <| reclonePendingSite := "" |> else f in
  let f := if recloning && ok && callbackFailed
           then f <| recloneCompletedSite := recipient |> <| recloneCompletedOwner := recloneOwner |> else f in
  f <| phase := if ok then Claims.BootstrapPhaseDone else Claims.BootstrapPhaseFailed |>.

Definition release_hold : P unit :=
  if keyring_gate then
    let! ok := call NotifyCloneComplete in
    if ok : bool then Ret tt
    else let! f := call (Ans := ans) Lock in call (Ans := ans) (Unlock (f <| cloneHoldReleaseSite := recipient |>))
  else Ret tt.

Definition clone_goroutine : P (option boot_error) :=
  let! lost := donor_error in
  let! err := match lost with
              | Some e => Ret (Some e)
              | None => runBootstrap fuel primaryHost (negb recloning)
              end in
  let! _ := release_hold in
  let! callbackOk := (if recloning && reclone_callback then call (RecloneComplete recloneOwner (bool_decide (err = None))) else Ret true) in
  let! f := call (Ans := ans) Lock in
  let! _ := call (Unlock (conclude err (negb callbackOk) f)) in
  Ret err.

End goroutine.

End Clone.
