(* ===== verification/CloneProofs.v ===== *)
(** * Cloning a site: what is proved before the data is dropped, and afterwards *)
From S2P Require Import Prelude GoStd Intervals GtidSet Effects Claims Protocol Clone.

Local Open Scope Z_scope.

#[local] Arguments prog_bind {Op Ans A B} _ _ : simpl never.

Import GTID Clone.

(** ** Calls of a run *)

Definition made (h : list (event ans)) (o : op) (x : ans o) : Prop := ev o x ∈ h.

Lemma made_l h t o x : made h o x -> made (h ++ t) o x.
Proof. intros H. apply elem_of_app. by left. Qed.

Lemma made_r h t o x : made t o x -> made (h ++ t) o x.
Proof. intros H. apply elem_of_app. by right. Qed.

Lemma made_last h o x : made (h ++ [ev o x]) o x.
Proof. apply made_r. left. Qed.

#[local] Hint Resolve made_l made_r made_last : core.

Definition is_clone (o : op) : bool := match o with CloneInstance _ _ => true | _ => false end.

(** The site's executed set was read as [g]. *)
Definition set_read (h : list (event ans)) (c : party) (g : GTIDSet) : Prop := exists raw, made h (GetGtidExecuted c) (Some raw) /\ ParseGTIDSet raw = Ok g.

Lemma set_read_l h t c g : set_read h c g -> set_read (h ++ t) c g.
Proof. intros (raw & H & E). exists raw. auto. Qed.

Lemma set_read_r h t c g : set_read t c g -> set_read (h ++ t) c g.
Proof. intros (raw & H & E). exists raw. auto. Qed.

#[local] Hint Resolve set_read_l set_read_r : core.

Section goroutine.

Context (donor primaryHost source : string).

(** The donor was the confirmed primary when the goroutine started. *)
Definition named (h : list (event ans)) : Prop := source = "fresh-deploy" \/ made h ConfirmedActivePrimary (Some donor).

(** Nothing has to be cloned: the donor holds all the recipient has. *)
Definition contained (h : list (event ans)) : Prop := source <> "reclone"
  /\ exists p r, set_read h Donor p /\ set_read h Recipient r /\ IsEmpty p = false /\ IsEmpty r = false /\ Contains p r = true.

(** The recipient answers again, its clone status was accepted, and it is not left empty
    beside a donor with data. *)
Definition verified (h : list (event ans)) : Prop :=
  (exists b, made h (CheckReadOnly Recipient) (Ok b))
  /\ (exists prev st, made h CloneStatus st /\ outcome prev st = Ok true)
  /\ exists d r, set_read h Donor d /\ set_read h Recipient r /\ (IsEmpty r = true -> IsEmpty d = true).

(** When the goroutine may make the call. *)
Definition guarded (h : list (event ans)) (o : op) : Prop :=
  match o with
  | SetSuperReadOnly false => named h /\ made h (CheckReadOnly Donor) (Ok false) /\ Forall (fun e => is_clone (projT1 e) = false) h
  | CloneInstance host _ => host = primaryHost /\ named h /\ made h (CheckReadOnly Donor) (Ok false) /\ made h (SetSuperReadOnly false) None
                            /\ Forall (fun e => is_clone (projT1 e) = false) h
  | StopReplica | ResetReplicaAll => made h (SetSuperReadOnly true) None
  | ChangeReplicationSource host => host = primaryHost /\ named h /\ made h (SetSuperReadOnly true) None /\ (contained h \/ verified h)
  | StartReplica => made h (ChangeReplicationSource primaryHost) None
  | _ => True
  end.

#[local] Abbreviation gw := (cwp guarded).

Lemma named_l h t : named h -> named (h ++ t).
Proof using. intros [?|?]; [by left|right; auto]. Qed.

Lemma contained_l h t : contained h -> contained (h ++ t).
Proof using. intros (Hs & p & r & Hp & Hr & H). split; [done|]. exists p, r. auto. Qed.

Lemma verified_l h t : verified h -> verified (h ++ t).
Proof using.
  intros ((b & Hb) & (prev & st & Hs & E) & d & r & Hd & Hr & H). split; [exists b; auto|]. split; [exists prev, st; auto|]. exists d, r. auto.
Qed.

#[local] Hint Resolve named_l contained_l verified_l : core.

(** Calls that need no condition. *)
Definition harmless (o : op) : bool :=
  match o with
  | SetSuperReadOnly on => on
  | CloneInstance _ _ | StopReplica | ResetReplicaAll | ChangeReplicationSource _ | StartReplica => false
  | _ => true
  end.

Lemma harmless_ok h o : harmless o = true -> guarded h o.
Proof using. by destruct o as [| |[]| | | | | | | | | | | | | | | | |]. Qed.

Lemma gw_call o h (Q : list (event ans) -> ans o -> Prop) : guarded h o -> (forall x, Q (h ++ [ev o x]) x) -> gw (call o) h Q.
Proof using. intros Ho H. split; [done|]. exact H. Qed.

Lemma gw_frees {A} (p : prog ans A) h (Q : list (event ans) -> A -> Prop) : frees harmless p -> (forall tr a, runs p tr a -> Q (h ++ tr) a) -> gw p h Q.
Proof using. intros Hp HQ. eapply (cwp_runs _ harmless); [apply harmless_ok|done|done]. Qed.

#[local] Ltac harmless :=
  repeat match goal with
  | |- frees _ (Ret _) => exact I
  | |- frees _ (call _) => split; [reflexivity|intros ?; exact I]
  | |- frees _ (prog_bind _ _) => apply frees_bind; [|intros ?]
  | |- frees _ (match ?x with _ => _ end) => destruct x
  | |- frees _ _ => assumption
  end.

Lemma frees_phase ph : frees harmless (set_phase ph).
Proof using. unfold set_phase. harmless. Qed.

Lemma frees_retry n p : frees harmless p -> frees harmless (RetryWithBackoff n p).
Proof using.
  intros Hp. induction n as [|n IH]; cbn [RetryWithBackoff]; harmless.
Qed.

(** The recipient answered. *)
Lemma came_back_runs tr : runs came_back tr true -> exists b, made tr (CheckReadOnly Recipient) (Ok b).
Proof using.
  unfold came_back. generalize 10%nat. intros n. revert tr. induction n as [|n IH]; intros tr H; cbn [RetryWithBackoff] in H.
  all: apply runs_bind_iff in H as (t1 & c & t2 & -> & H1 & H); destruct c; [by apply runs_Ret_iff in H as [_ ?]|].
  all: apply runs_bind_iff in H as (t3 & ok & t4 & -> & H2 & H); destruct ok.
  1,3: apply runs_bind_iff in H2 as (t5 & ro & t6 & -> & ->%runs_call_iff & [_ E]%runs_Ret_iff);
    destruct ro as [b|]; [exists b; apply made_r, made_l, made_l; left|done].
  - by apply runs_Ret_iff in H as [_ ?].
  - apply runs_bind_iff in H as (t5 & fired & t6 & -> & H3 & H). destruct fired; [|by apply runs_Ret_iff in H as [_ ?]].
    apply IH in H as [b Hb]. exists b. auto.
Qed.

Lemma await_runs fuel deadline prev tr : runs (await_outcome fuel deadline prev) tr None -> exists st, made tr CloneStatus st /\ outcome prev st = Ok true.
Proof using.
  revert tr. induction fuel as [|fuel IH]; intros tr H; cbn [await_outcome] in H; [by apply runs_Ret_iff in H as [_ ?]|].
  apply runs_bind_iff in H as (t1 & st & t2 & -> & ->%runs_call_iff & H). destruct (outcome prev st) as [[]|e] eqn:E.
  - exists st. split; [apply made_l; left|done].
  - apply runs_bind_iff in H as (t3 & now & t4 & -> & _ & H). destruct (_ <? _); [by apply runs_Ret_iff in H as [_ ?]|].
    apply runs_bind_iff in H as (t5 & fired & t6 & -> & _ & H). destruct fired; [|by apply runs_Ret_iff in H as [_ ?]].
    apply IH in H as (st' & Hs & E'). exists st'. auto.
  - by apply runs_Ret_iff in H as [_ ?].
Qed.

Lemma frees_await fuel deadline prev : frees harmless (await_outcome fuel deadline prev).
Proof using.
  induction fuel as [|fuel IH]; cbn [await_outcome]; harmless.
Qed.

Lemma frees_verify fuel prev : frees harmless (verifyCloneOutcome fuel prev).
Proof using.
  pose proof frees_await. unfold verifyCloneOutcome, sets_after. harmless; auto.
Qed.

Lemma verify_runs fuel prev tr : runs (verifyCloneOutcome fuel prev) tr None ->
  (exists prev st, made tr CloneStatus st /\ outcome prev st = Ok true)
  /\ exists d r, set_read tr Donor d /\ set_read tr Recipient r /\ (IsEmpty r = true -> IsEmpty d = true).
Proof using.
  unfold verifyCloneOutcome. intros H. apply runs_bind_iff in H as (t1 & now & t2 & -> & _ & H). apply runs_bind_iff in H as (t3 & f & t4 & -> & _ & H).
  apply runs_bind_iff in H as (t5 & e & t6 & -> & H1 & H). destruct e as [e|]; [by apply runs_Ret_iff in H as [_ ?]|].
  apply await_runs in H1 as (st & Hs & E). split; [exists prev, st; auto|]. unfold sets_after in H.
  apply runs_bind_iff in H as (t7 & draw & t8 & -> & ->%runs_call_iff & H). destruct draw as [draw|]; [|by apply runs_Ret_iff in H as [_ ?]].
  apply runs_bind_iff in H as (t9 & rraw & t10 & -> & ->%runs_call_iff & H). apply runs_Ret_iff in H as [-> Er]. destruct rraw as [rraw|]; [|done].
  destruct (ParseGTIDSet draw) as [d|] eqn:Ed; [|done]. destruct (ParseGTIDSet rraw) as [r|] eqn:Err; [|done]. exists d, r.
  split; [exists draw; split; [|done]; do 3 apply made_r; apply made_l; left|].
  split; [exists rraw; split; [|done]; do 4 apply made_r; apply made_l; left|]. intros He. rewrite He in Er. by destruct (IsEmpty d).
Qed.

Lemma skip_runs tr : runs canSkipClone tr true -> exists p r, set_read tr Donor p /\ set_read tr Recipient r /\ IsEmpty p = false /\ IsEmpty r = false /\ Contains p r = true.
Proof using.
  unfold canSkipClone. intros H. apply runs_bind_iff in H as (t1 & praw & t2 & -> & ->%runs_call_iff & H). destruct praw as [praw|]; [|by apply runs_Ret_iff in H as [_ ?]].
  apply runs_bind_iff in H as (t3 & rraw & t4 & -> & ->%runs_call_iff & H). apply runs_Ret_iff in H as [-> E]. destruct rraw as [rraw|]; [|done].
  destruct (ParseGTIDSet praw) as [p|] eqn:Ep; [|done]. destruct (ParseGTIDSet rraw) as [r|] eqn:Er; [|done]. exists p, r.
  symmetry in E. apply andb_true_iff in E as [[E1%negb_true_iff E2%negb_true_iff]%andb_true_iff E3].
  split; [exists praw; split; [apply made_l; left|done]|]. split; [exists rraw; split; [apply made_r, made_l; left|done]|done].
Qed.

(** ** The steps *)

#[local] Abbreviation unissued h := (Forall (fun e => is_clone (projT1 e) = false) h).

Definition started (h : list (event ans)) (r : option boot_error) : Prop := r = None -> made h StartReplica None.

Lemma gw_setup h : named h -> contained h \/ verified h -> gw (setupReplicationForBootstrap primaryHost) h started.
Proof using.
  intros Hn Hc. unfold setupReplicationForBootstrap, SetupReplication, must. apply cwp_bind, cwp_bind, gw_call; [exact I|].
  intros [msg|]; [done|]. apply cwp_bind, gw_call; [apply made_last|]. intros s1. apply cwp_bind, gw_call; [apply made_l, made_last|]. intros s2.
  apply cwp_bind, gw_call.
  { split; [done|]. split; [auto|]. split; [do 2 apply made_l; apply made_last|]. destruct Hc; [left|right]; auto. }
  intros [msg|]; [done|]. apply cwp_bind, gw_call; [apply made_last|]. intros [msg|]; [done|]. intros _. apply made_last.
Qed.

Lemma gw_cleared h timeout : named h -> made h (CheckReadOnly Donor) (Ok false) -> made h (SetSuperReadOnly false) None -> unissued h ->
  gw (clone_cleared primaryHost timeout) h (fun _ _ => True).
Proof using.
  intros Hn Hw Hs Hi. unfold clone_cleared. apply cwp_bind, gw_call; [exact I|]. intros [msg|]; [by split|].
  apply cwp_bind, gw_call; [exact I|]. intros kills. cbn zeta. apply cwp_bind, gw_call.
  { split; [done|]. split; [auto|]. split; [auto|]. split; [auto|]. repeat apply Forall_app_2; [done|by repeat constructor..]. }
  intros [msg|]; [|done]. apply cwp_bind. destruct (isCloneConnectionDrop msg); [done|]. by split.
Qed.

Lemma gw_boot h timeout : named h -> unissued h -> gw (BootstrapReplica primaryHost timeout) h (fun _ _ => True).
Proof using.
  intros Hn Hi. unfold BootstrapReplica, must. apply cwp_bind, gw_call; [exact I|]. intros [[]|msg]; [done| |done].
  apply cwp_bind, gw_call; [exact I|]. intros [msg|]; [done|]. apply cwp_bind, gw_call; [exact I|]. intros [msg|]; [done|].
  apply cwp_bind, gw_call.
  { split; [auto|]. split; [auto|]. repeat apply Forall_app_2; [done|by repeat constructor..]. }
  intros [msg|]; [done|]. apply gw_cleared; auto. repeat apply Forall_app_2; [done|by repeat constructor..].
Qed.

Lemma gw_run_clone fuel h : named h -> unissued h -> gw (run_clone fuel primaryHost) h started.
Proof using.
  intros Hn Hi. unfold run_clone. apply cwp_bind, gw_call; [exact I|]. intros prev. cbn zeta. apply cwp_bind, gw_call; [exact I|]. intros f.
  apply cwp_bind. eapply cwp_mono; [apply cwp_extends, gw_boot; [auto|]|].
  { repeat apply Forall_app_2; [done|by repeat constructor..]. }
  intros h1 e [_ [t1 ->]]. destruct (match e with Some msg => _ | None => false end); [done|].
  apply cwp_bind, gw_frees; [apply frees_phase|]. intros t2 [] _. apply cwp_bind, gw_frees; [apply frees_retry; harmless|]. intros t3 back H3.
  destruct back; cbn [negb]; [|done]. apply came_back_runs in H3 as [b Hb]. apply cwp_bind, gw_frees; [apply frees_verify|]. intros t4 [err|] H4; [by split|].
  apply verify_runs in H4 as ((prev' & st & Hs & E) & d & r & Hd & Hr & He).
  apply cwp_bind, gw_frees; [apply frees_phase|]. intros t5 [] _. apply gw_setup; [auto 10|]. right. apply verified_l.
  split; [exists b; auto|]. split; [exists prev', st; auto|]. exists d, r. auto.
Qed.

Lemma gw_run_bootstrap fuel allow h : named h -> unissued h -> (allow = true -> source <> "reclone") -> gw (runBootstrap fuel primaryHost allow) h started.
Proof using.
  intros Hn Hi Ha. unfold runBootstrap. apply cwp_bind, gw_frees; [destruct allow; [unfold canSkipClone|]; harmless|]. intros t skip Hs.
  destruct skip.
  - destruct allow; [|by apply runs_Ret_iff in Hs as [_ ?]]. apply skip_runs in Hs as (p & r & Hp & Hr & E). apply cwp_bind, gw_frees; [apply frees_phase|].
    intros t2 [] _. apply gw_setup; [auto|]. left. apply contained_l. split; [auto|]. exists p, r. auto.
  - apply gw_run_clone; [auto|]. apply Forall_app_2; [done|]. destruct allow; [|by apply runs_Ret_iff in Hs as [-> _]].
    assert (frees (fun o => negb (is_clone o)) canSkipClone) as Hf by (unfold canSkipClone; harmless).
    pose proof (frees_runs _ _ _ _ Hf Hs) as H. eapply Forall_impl; [exact H|]. intros e. apply negb_true_iff.
Qed.

Lemma gw_goroutine fuel recipient owner gate callback :
  gw (clone_goroutine fuel donor recipient primaryHost source owner gate callback) [] started.
Proof using.
  unfold clone_goroutine. apply cwp_bind, (cwp_mono _ _ _ (fun h lost => (lost = None -> named h) /\ unissued h)).
  { unfold donor_error. case_bool_decide as E; [by split; [intros _; left|constructor]|]. apply cwp_bind, gw_call; [exact I|]. intros c.
    split; [|by repeat constructor]. destruct c as [c|]; [|done]. case_bool_decide; [subst|done]. intros _. right. apply made_last. }
  intros h lost [Hn Hi]. apply cwp_bind, (cwp_mono _ _ _ started).
  { destruct lost as [e|]; [done|]. apply gw_run_bootstrap; [by apply Hn|done|]. unfold recloning. intros E. by apply negb_true_iff, bool_decide_eq_false in E. }
  intros h1 err Hs. apply cwp_bind, gw_frees; [unfold release_hold; harmless|]. intros t2 [] _.
  apply cwp_bind, gw_frees; [harmless|]. intros t3 ok _. apply cwp_bind, gw_call; [exact I|]. intros f. apply cwp_bind, gw_call; [exact I|]. intros [] ->.
  do 4 apply made_l. by apply Hs.
Qed.

End goroutine.

(** C6. The clone of a site drops its data at most once, with a CLONE from the host it was
    given, after the donor was named the confirmed primary (not asked for the source
    fresh-deploy), the donor answered that it is writable, and the clear of the recipient's
    super_read_only was acknowledged. Replication is stopped and reset only after
    super_read_only=ON was acknowledged. It is repointed only, besides, at that host, the
    donor being so named, and when this is no reclone and the donor, with data, holds all
    the recipient's non-empty set, or when the recipient answered again, an accepted clone
    status was read, and it was not left empty beside a donor with data. It is started only
    after the repoint was acknowledged, and a clone that is reported successful started it. *)
Theorem clone_guarded fuel donor recipient primaryHost source owner gate callback tr r :
  runs (clone_goroutine fuel donor recipient primaryHost source owner gate callback) tr r ->
  (forall t1 o x t2, tr = t1 ++ ev o x :: t2 -> guarded donor primaryHost source t1 o)
  /\ (r = None -> made tr StartReplica None).
Proof.
  intros H. destruct (cwp_sound _ _ _ _ _ _ (gw_goroutine donor primaryHost source fuel recipient owner gate callback) H) as [Hm Hs].
  split; [|exact Hs]. intros t1 o x t2 E. apply (Hm t1 (ev o x) t2 E).
Qed.
