(* ===== verification/CloneOutcome.v ===== *)
(** * Cloning a site: failures, the wait for the outcome, and what its checks accept *)
From S2P Require Import Prelude GoStd Intervals GtidSet Effects Claims Protocol Clone CloneProofs.

Local Open Scope Z_scope.

#[local] Arguments prog_bind {Op Ans A B} _ _ : simpl never.

Import GTID Clone.

(** ** The recipient's fence *)

(** Whether [super_read_only] may be off, by the statements sent: a clear counts whether it
    was acknowledged or not, since one that returned an error may have applied. *)
Definition fence_step (b : bool) (e : event ans) : bool :=
  match projT1 e with
  | SetSuperReadOnly on => negb on
  | _ => b
  end.

Definition left_open (tr : list (event ans)) : bool := fold_left fence_step tr false.

(** A clear returned an error. *)
Definition clear_failed (tr : list (event ans)) : Prop := exists msg, made tr (SetSuperReadOnly false) (Some msg).

Definition shut (h : list (event ans)) : Prop := left_open h = false \/ clear_failed h.

Lemma left_open_app h t : left_open (h ++ t) = fold_left fence_step t (left_open h).
Proof. apply fold_left_app. Qed.

Definition unfencing (o : op) : bool := match o with SetSuperReadOnly _ => false | _ => true end.

Lemma left_open_same h t : Forall (fun e => unfencing (projT1 e) = true) t -> left_open (h ++ t) = left_open h.
Proof.
  rewrite left_open_app. generalize (left_open h). intros b H. revert b. induction H as [|[o x] t Ho _ IH]; intros b; [done|]. simpl. rewrite IH.
  unfold fence_step. by destruct o.
Qed.

Lemma shut_same h t : Forall (fun e => unfencing (projT1 e) = true) t -> shut h -> shut (h ++ t).
Proof. intros H [Hh|[msg Hh]]; [left; by rewrite left_open_same|right; exists msg; by apply made_l]. Qed.

#[local] Ltac unfencing :=
  repeat match goal with
  | |- frees _ (Ret _) => exact I
  | |- frees _ (call _) => split; [reflexivity|intros ?; exact I]
  | |- frees _ (prog_bind _ _) => apply frees_bind; [|intros ?]
  | |- frees _ (match ?x with _ => _ end) => destruct x
  | |- frees _ _ => assumption
  end.

#[local] Abbreviation gw := (cwp (fun _ _ => True)).

Lemma ow_call o h (Q : list (event ans) -> ans o -> Prop) : (forall x, Q (h ++ [ev o x]) x) -> gw (call o) h Q.
Proof. intros H. split; [done|]. exact H. Qed.

Lemma ow_keeps {A} (p : prog ans A) h (Q : list (event ans) -> A -> Prop) : frees unfencing p -> (forall h' a, (shut h -> shut h') -> Q h' a) -> gw p h Q.
Proof.
  intros Hp HQ. eapply (cwp_runs _ unfencing); [done|done|]. intros tr a H. apply HQ, shut_same. by eapply frees_runs.
Qed.

Definition shut_unless_lost (h : list (event ans)) (r : option boot_error) : Prop := r <> Some NotRestarted -> shut h.

(** After a fence, acknowledged or not, and after a clear that returned an error. *)
Lemma ow_fence {A} on h (Q : list (event ans) -> A -> Prop) (k : option string -> prog ans A) :
  (forall h' x, (on = true \/ x <> None -> shut h') -> gw (k x) h' Q) ->
  gw (prog_bind (call (Ans := ans) (SetSuperReadOnly on)) k) h Q.
Proof.
  intros H. apply cwp_bind, ow_call. intros x. apply H. intros Hx. unfold shut. rewrite left_open_app. destruct on; [by left|right].
  destruct Hx as [|Hx]; [done|]. destruct x as [msg|]; [|done]. exists msg. apply made_r. by left.
Qed.

Lemma ow_setup host h : gw (setupReplicationForBootstrap host) h (fun h' _ => shut h').
Proof.
  unfold setupReplicationForBootstrap, SetupReplication, must. apply cwp_bind, ow_fence. intros h1 x H1. specialize (H1 (or_introl eq_refl)).
  apply ow_keeps; [unfencing|]. intros h2 a H2. exact (H2 H1).
Qed.

Lemma contains_after (c s n : string) : StrContains s n = true -> StrContains (c +:+ s) n = true.
Proof. intros H. induction c as [|a c IH]; [done|]. change (String a c +:+ s) with (String a (c +:+ s)). cbn [StrContains]. by rewrite IH, orb_true_r. Qed.

(** Wrapping keeps a message's classification. *)
Lemma drop_wrap context msg : isCloneConnectionDrop msg = true -> isCloneConnectionDrop (wrap context msg) = true.
Proof. unfold isCloneConnectionDrop. intros (n & Hn & E)%existsb_exists. apply existsb_exists. exists n. split; [done|]. by do 2 apply contains_after. Qed.

(** A failure that is not a dropped connection leaves the recipient fenced, or unsure of its
    clear. *)
Lemma ow_boot host timeout h : shut h ->
  gw (BootstrapReplica host timeout) h (fun h' e => match e with Some msg => isCloneConnectionDrop msg = true \/ shut h' | None => True end).
Proof.
  intros Hh. unfold BootstrapReplica, must. apply cwp_bind, ow_keeps; [unfencing|]. intros h1 [[]|msg] H1; [right; auto| |right; auto].
  apply cwp_bind, ow_keeps; [unfencing|]. intros h2 [msg|] H2; [right; auto|].
  apply cwp_bind, ow_keeps; [unfencing|]. intros h3 [msg|] H3; [right; auto|].
  apply ow_fence. intros h4 x H4. destruct x as [msg|]; [right; by apply H4; right|]. clear H4.
  unfold clone_cleared. apply cwp_bind, ow_keeps; [unfencing|]. intros h5 [msg|] H5; [apply ow_fence; intros h6 x H6; right; by apply H6; left|].
  apply cwp_bind, ow_keeps; [unfencing|]. intros h6 kills H6. cbn zeta. apply cwp_bind, ow_call. intros [msg|]; [|exact I].
  destruct (isCloneConnectionDrop msg) eqn:E; [|apply ow_fence; intros h7 x H7; right; by apply H7; left].
  apply cwp_bind. left. by apply drop_wrap.
Qed.

Lemma ow_run_clone fuel host h : shut h -> gw (run_clone fuel host) h shut_unless_lost.
Proof.
  intros Hh. unfold run_clone. apply cwp_bind, ow_keeps; [unfencing|]. intros h1 prev H1. cbn zeta. apply cwp_bind, ow_keeps; [unfencing|]. intros h2 f H2.
  apply cwp_bind. eapply cwp_mono; [apply ow_boot; auto|]. intros h3 e He.
  destruct (match e with Some msg => _ | None => false end) eqn:Ed.
  { intros _. destruct e as [msg|]; [|done]. apply negb_true_iff in Ed. destruct He; [congruence|done]. }
  apply cwp_bind, ow_keeps; [unfold set_phase; unfencing|]. intros h4 [] H4. apply cwp_bind, ow_keeps.
  { unfold came_back. generalize 10%nat. intros n. induction n as [|n IH]; cbn [RetryWithBackoff]; unfencing. }
  intros h5 back H5. destruct back; cbn [negb]; [|intros []; done].
  apply cwp_bind, ow_keeps.
  { unfold verifyCloneOutcome, sets_after. assert (forall deadline prev, frees unfencing (await_outcome fuel deadline prev)) as Ha.
    { intros deadline prev'. induction fuel as [|fuel' IH]; cbn [await_outcome]; unfencing. }
    unfencing. apply Ha. }
  intros h6 [err|] H6; [apply ow_fence; intros h7 x H7 _; by apply H7; left|].
  apply cwp_bind, ow_keeps; [unfold set_phase; unfencing|]. intros h7 [] H7.
  eapply cwp_mono; [apply ow_setup|]. intros h8 r H8 _. exact H8.
Qed.

Lemma ow_goroutine fuel donor recipient host source owner gate callback :
  gw (clone_goroutine fuel donor recipient host source owner gate callback) [] shut_unless_lost.
Proof.
  assert (shut []) as H0 by by left.
  unfold clone_goroutine. apply cwp_bind, ow_keeps; [unfold donor_error; unfencing|]. intros h lost Hl. specialize (Hl H0).
  apply cwp_bind, (cwp_mono _ _ _ shut_unless_lost).
  { destruct lost as [e|]; [by intros _|]. unfold runBootstrap. apply cwp_bind, ow_keeps; [destruct (negb _); [unfold canSkipClone|]; unfencing|]. intros h1 skip H1.
    destruct skip; [|apply ow_run_clone; auto]. apply cwp_bind, ow_keeps; [unfold set_phase; unfencing|]. intros h2 [] _.
    eapply cwp_mono; [apply ow_setup|]. intros h3 r H3 _. exact H3. }
  intros h1 err Hs. apply cwp_bind, ow_keeps; [unfold release_hold; unfencing|]. intros h2 [] H2.
  apply cwp_bind, ow_keeps; [unfencing|]. intros h3 ok H3. apply cwp_bind, ow_keeps; [unfencing|]. intros h4 f H4.
  apply cwp_bind, ow_keeps; [unfencing|]. intros h5 [] H5 Hr. exact (H5 (H4 (H3 (H2 (Hs Hr))))).
Qed.

(** The recipient answered whether it is read-only, as the wait for its restart asks. *)
Definition heard (e : event ans) : bool :=
  match e with
  | existT (CheckReadOnly Recipient) (Ok _) => true
  | _ => false
  end.

Definition silent (tr : list (event ans)) : Prop := Forall (fun e => heard e = false) tr.

Definition asks (o : op) : bool := match o with CheckReadOnly Recipient => true | _ => false end.

Lemma silent_frees {A} (p : prog ans A) tr a : frees (fun o => negb (asks o)) p -> runs p tr a -> silent tr.
Proof. intros Hp H. eapply Forall_impl; [by eapply frees_runs|]. intros [[] x]; simpl; try done. by destruct c. Qed.

Lemma silent_back tr : runs came_back tr false -> silent tr.
Proof.
  unfold came_back. generalize 10%nat. intros n. revert tr. induction n as [|n IH]; intros tr H; cbn [RetryWithBackoff] in H.
  all: apply runs_bind_iff in H as (t1 & c & t2 & -> & H1 & H); apply Forall_app; split; [by refine (silent_frees _ _ _ _ H1); unfencing|].
  all: destruct c; [by apply runs_Ret_iff in H as [-> _]|].
  all: apply runs_bind_iff in H as (t3 & ok & t4 & -> & H2 & H); apply runs_bind_iff in H2 as (t5 & ro & t6 & -> & ->%runs_call_iff & [-> E]%runs_Ret_iff).
  all: destruct ok; [by apply runs_Ret_iff in H as [_ ?]|]; destruct ro as [|e]; [done|]; apply Forall_app; split; [by repeat constructor|].
  - by apply runs_Ret_iff in H as [-> _].
  - apply runs_bind_iff in H as (t7 & fired & t8 & -> & H3 & H). apply Forall_app. split; [by refine (silent_frees _ _ _ _ H3); unfencing|].
    destruct fired; [exact (IH _ H)|by apply runs_Ret_iff in H as [-> _]].
Qed.

(** Steps every result of which meets [R]. *)
Fixpoint ends {A} (R : A -> Prop) (p : prog ans A) : Prop :=
  match p with
  | Ret a => R a
  | Vis o k => forall x, ends R (k x)
  end.

Lemma ends_runs {A} (R : A -> Prop) (p : prog ans A) tr a : ends R p -> runs p tr a -> R a.
Proof. revert tr. induction p as [b|o k IH]; intros tr Hp; [by intros [_ ->]%runs_Ret_iff|]. intros (x & tr' & _ & H)%runs_Vis_iff. by eapply IH. Qed.

Lemma ends_bind {A B} (R : B -> Prop) (p : prog ans A) (f : A -> prog ans B) : (forall a, ends R (f a)) -> ends R (prog_bind p f).
Proof. intros H. induction p as [a|o k IH]; [apply H|]. intros x. apply IH. Qed.

(** No other step ends with the restart's error. *)
Definition other (r : option boot_error) : Prop := r <> Some NotRestarted.

#[local] Ltac others :=
  repeat match goal with
  | |- ends _ (Ret _) => cbn [ends]
  | |- ends _ (prog_bind _ _) => apply ends_bind; intros ?
  | |- ends _ (match ?x with _ => _ end) => destruct x
  | |- other (match ?x with _ => _ end) => destruct x
  | |- other _ => discriminate
  end.

Lemma await_other fuel deadline prev : ends other (await_outcome fuel deadline prev).
Proof.
  induction fuel as [|fuel IH]; cbn [await_outcome]; [done|]. apply ends_bind. intros st. destruct (outcome prev st) as [[]|e] eqn:E; [done| |].
  - others; exact IH.
  - cbn [ends]. unfold outcome in E. destruct st as [[row|]|]; [|done|done]. destruct (match prev with Some _ => _ | None => false end); [done|].
    case_bool_decide; [|done]. by injection E as <-.
Qed.

Lemma verify_other fuel prev tr r : runs (verifyCloneOutcome fuel prev) tr r -> other r.
Proof.
  intros H. unfold verifyCloneOutcome in H. apply runs_bind_iff in H as (t1 & now & t2 & _ & _ & H). apply runs_bind_iff in H as (t3 & f & t4 & _ & _ & H).
  apply runs_bind_iff in H as (t5 & e & t6 & _ & He & H). apply (ends_runs _ _ _ _ (await_other _ _ _)) in He.
  destruct e as [e|]; [by apply runs_Ret_iff in H as [_ ->]|]. apply ends_runs with (R := other) in H; [done|]. unfold sets_after. others.
Qed.

Lemma setup_other host tr r : runs (setupReplicationForBootstrap host) tr r -> other r.
Proof. intros H. apply ends_runs with (R := other) in H; [done|]. unfold setupReplicationForBootstrap. others. Qed.

#[local] Ltac quiet H := apply Forall_app; split; [by refine (silent_frees _ _ _ _ H); unfencing|].

Lemma silent_run_clone fuel host tr : runs (run_clone fuel host) tr (Some NotRestarted) -> silent tr.
Proof.
  intros H. unfold run_clone in H. apply runs_bind_iff in H as (t1 & prev & t2 & -> & H1 & H). quiet H1.
  apply runs_bind_iff in H as (t3 & f & t4 & -> & H2 & H). quiet H2.
  apply runs_bind_iff in H as (t5 & e & t6 & -> & H3 & H). apply Forall_app. split.
  { refine (silent_frees _ _ _ _ H3). unfold BootstrapReplica, clone_cleared, must. unfencing. }
  destruct (match e with Some msg => _ | None => false end); [by apply runs_Ret_iff in H as [_ ?]|].
  apply runs_bind_iff in H as (t7 & [] & t8 & -> & H4 & H). apply Forall_app. split; [refine (silent_frees _ _ _ _ H4); unfold set_phase; unfencing|].
  apply runs_bind_iff in H as (t9 & back & t10 & -> & H5 & H). destruct back; cbn [negb] in H.
  - exfalso. apply runs_bind_iff in H as (t11 & e' & t12 & _ & H6 & H). apply verify_other in H6. destruct e' as [e'|].
    + apply runs_bind_iff in H as (t13 & x & t14 & _ & _ & [_ E]%runs_Ret_iff). apply H6. by rewrite E.
    + apply runs_bind_iff in H as (t13 & x & t14 & _ & _ & H). by apply setup_other in H.
  - apply runs_Ret_iff in H as [-> _]. apply Forall_app. split; [by apply silent_back|constructor].
Qed.

Lemma silent_goroutine fuel donor recipient host source owner gate callback tr :
  runs (clone_goroutine fuel donor recipient host source owner gate callback) tr (Some NotRestarted) -> silent tr.
Proof.
  intros H. unfold clone_goroutine in H. apply runs_bind_iff in H as (t1 & lost & t2 & -> & H1 & H). apply Forall_app. split.
  { refine (silent_frees _ _ _ _ H1). unfold donor_error. unfencing. }
  apply runs_bind_iff in H as (t3 & err & t4 & -> & H2 & H).
  apply runs_bind_iff in H as (t5 & [] & t6 & -> & H3 & H). apply runs_bind_iff in H as (t7 & ok & t8 & -> & H4 & H).
  apply runs_bind_iff in H as (t9 & f & t10 & -> & H5 & H). apply runs_bind_iff in H as (t11 & [] & t12 & -> & H6 & H).
  apply runs_Ret_iff in H as [-> <-]. apply Forall_app. split.
  - destruct lost as [e|].
    + apply runs_Ret_iff in H2 as [-> _]. constructor.
    + unfold runBootstrap in H2. apply runs_bind_iff in H2 as (t13 & skip & t14 & -> & H7 & H2). apply Forall_app. split.
      { refine (silent_frees _ _ _ _ H7). destruct (negb _); [unfold canSkipClone|]; unfencing. }
      destruct skip; [|by eapply silent_run_clone]. apply runs_bind_iff in H2 as (t15 & [] & t16 & _ & _ & H2). by apply setup_other in H2.
  - apply Forall_app. split; [refine (silent_frees _ _ _ _ H3); unfold release_hold; unfencing|]. quiet H4. quiet H5. quiet H6. constructor.
Qed.

(** C40. A clone whose last statement on super_read_only clears it, acknowledged or not, ends
    for one of two reasons: the wait for the recipient's restart gave up without an answer
    from it, out of attempts or with its context ended; or a clear returned an error. Every
    other end, failed or not, sends super_read_only=ON last. *)
Theorem clone_ends_fenced fuel donor recipient host source owner gate callback tr r :
  runs (clone_goroutine fuel donor recipient host source owner gate callback) tr r ->
  left_open tr = true -> r = Some NotRestarted /\ silent tr \/ clear_failed tr.
Proof.
  intros H Ho. destruct (cwp_sound _ _ _ _ _ _ (ow_goroutine fuel donor recipient host source owner gate callback) H) as [_ Hs].
  cbn in Hs. unfold shut_unless_lost, shut in Hs.
  assert (r = Some NotRestarted \/ r <> Some NotRestarted) as [->|Hr] by (destruct r as [[]|]; auto); [left; split; [done|by eapply silent_goroutine]|].
  right. by destruct (Hs Hr) as [Hs'|Hs']; [congruence|].
Qed.

(** ** The wait for the outcome *)

Fixpoint times (tr : list (event ans)) : list Z :=
  match tr with
  | [] => []
  | existT Now t :: tr => t :: times tr
  | _ :: tr => times tr
  end.

(** The readings advance by the poll interval at least. *)
Definition paced (start : Z) (l : list Z) : Prop := forall i t, l !! i = Some t -> start + Z.of_nat i * cloneOutcomePollInterval <= t.

Lemma times_app t1 t2 : times (t1 ++ t2) = times t1 ++ times t2.
Proof. induction t1 as [|[o x] t1 IH]; [done|]. destruct o; simpl; rewrite ?IH; done. Qed.

Lemma paced_next start x l : paced start (x :: l) -> paced (start + cloneOutcomePollInterval) l.
Proof. intros H i t Hi. specialize (H (S i) t Hi). lia. Qed.

(** All the readings of an exhausted wait are within the deadline, one a pass. *)
Lemma await_exhausted fuel deadline prev tr : runs (await_outcome fuel deadline prev) tr (Some OutOfFuel) ->
  length (times tr) = fuel /\ forall t, t ∈ times tr -> t <= deadline.
Proof.
  revert tr. induction fuel as [|fuel IH]; intros tr H; cbn [await_outcome] in H.
  - apply runs_Ret_iff in H as [-> _]. split; [done|]. by intros t ?%not_elem_of_nil.
  - apply runs_bind_iff in H as (t1 & st & t2 & -> & ->%runs_call_iff & H). destruct (outcome prev st) as [[]|e] eqn:E.
    + by apply runs_Ret_iff in H as [_ ?].
    + apply runs_bind_iff in H as (t3 & now & t4 & -> & ->%runs_call_iff & H). destruct (deadline <? now) eqn:Ed; [by apply runs_Ret_iff in H as [_ ?]|].
      apply runs_bind_iff in H as (t5 & fired & t6 & -> & ->%runs_call_iff & H). destruct fired; [|by apply runs_Ret_iff in H as [_ ?]].
      apply IH in H as [Hl Ht]. simpl. split; [by rewrite Hl|]. apply Z.ltb_ge in Ed. intros t [->|H]%elem_of_cons; auto.
    + apply runs_Ret_iff in H as [_ [= <-]]. unfold outcome in E. destruct st as [[row|]|]; [|done|done].
      destruct (match prev with Some _ => _ | None => false end); [done|]. by case_bool_decide.
Qed.

(** Waiting for a clone's outcome ends: with the clock advancing by the poll interval
    between readings, as many passes as the clone's timeout holds intervals, and one more,
    are never used up. *)
Theorem outcome_wait_ends fuel prev tr r start l : runs (verifyCloneOutcome (S fuel) prev) tr r -> times tr = start :: l -> paced start l ->
  (forall f, made tr Lock f -> cloneTimeout f < Z.of_nat fuel * cloneOutcomePollInterval) -> r <> Some OutOfFuel.
Proof.
  intros H Ht Hp Hf ->. unfold verifyCloneOutcome in H. apply runs_bind_iff in H as (t1 & now & t2 & -> & ->%runs_call_iff & H).
  apply runs_bind_iff in H as (t3 & f & t4 & -> & ->%runs_call_iff & H). specialize (Hf f (list_elem_of_further _ _ _ (list_elem_of_here _ _))).
  simpl in Ht. injection Ht as -> Ht. apply runs_bind_iff in H as (t5 & e & t6 & -> & H1 & H).
  assert (e = Some OutOfFuel) as ->.
  { destruct e as [e|]; [by apply runs_Ret_iff in H as [_ [= ->]]|]. exfalso. unfold sets_after in H.
    apply runs_bind_iff in H as (t7 & d & t8 & -> & _ & H). destruct d; [|by apply runs_Ret_iff in H as [_ ?]].
    apply runs_bind_iff in H as (t9 & d' & t10 & -> & _ & H). apply runs_Ret_iff in H as [_ E]. destruct d'; [|done].
    destruct (ParseGTIDSet _); [|done]. destruct (ParseGTIDSet _); [|done]. by destruct (_ && _). }
  apply runs_Ret_iff in H as [-> _]. rewrite app_nil_r in Ht. apply await_exhausted in H1 as [Hl Hd]. rewrite Ht in Hl, Hd.
  destruct (lookup_lt_is_Some_2 l fuel) as [t Hi]; [lia|]. specialize (Hp fuel t Hi). apply list_elem_of_lookup_2, Hd in Hi.
  unfold cloneOutcomePollInterval, Second in *. lia.
Qed.

(** ** What the checks accept *)

Definition donor_set : string := "3e11fa47-71ca-11e1-9e33-c80aa9429562:1-5".
Definition divergent_set : string := "3e11fa47-71ca-11e1-9e33-c80aa9429562:1-5,a0b1c2d3-71ca-11e1-9e33-c80aa9429562:1-3".

Definition stale_row : CloneRow := {| State := CloneStateCompleted; BeginTime := "2024-01-01 00:00:00" |}.

Definition demo_fields : Fields :=
  {| phase := Claims.BootstrapPhaseCloning; cloneHoldReleaseSite := ""; reclonePendingSite := "b"; recloneCompletedSite := ""; recloneCompletedOwner := ""; cloneTimeout := 3600 * Second |}.

(** The recipient's connection drops at the plugin check, or at CLONE INSTANCE. *)
Definition demo_answer (before_clone : bool) (o : op) : ans o :=
  match o with
  | CheckReadOnly c => Ok (bool_decide (c = Recipient))
  | EnsureClonePlugin c => if before_clone && bool_decide (c = Recipient) then Some "invalid connection" else None
  | CloneInstance _ _ => Some "invalid connection"
  | CloneStatus => Some (if before_clone then None else Some stale_row)
  | GetGtidExecuted c => Some (if bool_decide (c = Donor) then donor_set else divergent_set)
  | Now => UnixEpoch
  | TimerFired | NotifyCloneComplete | RecloneComplete _ _ => true
  | Canceled => false
  | ConfirmedActivePrimary => Some "a"
  | Lock => demo_fields
  | Unlock _ => tt
  | _ => None
  end.

Definition demo_clone : prog ans (option boot_error) := clone_goroutine 3 "a" "b" "db-a" "reclone" "" true true.

Definition demo_trace (before_clone : bool) : list (event ans) := (exec (fun _ => demo_answer before_clone) demo_clone []).1.

Lemma clone_runs before_clone : runs demo_clone (demo_trace before_clone) None.
Proof.
  replace (@None boot_error) with (exec (fun _ => demo_answer before_clone) demo_clone []).2 by (destruct before_clone; vm_compute; reflexivity). apply exec_run.
Qed.

(** A status read in the run is the row the oracle holds. *)
Lemma demo_rows before_clone st : made (demo_trace before_clone) CloneStatus st -> st = Some (if before_clone then None else Some stale_row).
Proof. intros H. apply (exec_const (demo_answer before_clone)) in H. exact H. Qed.

#[local] Ltac at_index i := apply (list_elem_of_lookup_2 _ i); vm_compute; reflexivity.

Lemma demo_uncontained : match ParseGTIDSet donor_set, ParseGTIDSet divergent_set with Ok p, Ok r => Contains p r = false | _, _ => False end.
Proof. vm_compute. reflexivity. Qed.

Lemma demo_reads : exists p r, set_read (demo_trace true) Donor p /\ set_read (demo_trace true) Recipient r /\ Contains p r = false.
Proof.
  pose proof demo_uncontained as H. destruct (ParseGTIDSet donor_set) as [p|] eqn:Ep; [|done]. destruct (ParseGTIDSet divergent_set) as [r|] eqn:Er; [|done].
  exists p, r. split; [exists donor_set; split; [at_index 13%nat|exact Ep]|]. split; [exists divergent_set; split; [at_index 14%nat|exact Er]|exact H].
Qed.

(** C9. A reclone can be reported successful, replication set up, without the data having
    been cloned: when the connection drops before CLONE INSTANCE is ever sent, the
    recipient keeping a set the donor does not hold; and when CLONE INSTANCE is dropped
    and the only clone status ever read, before it and after it, is the completed row of
    an earlier clone. *)
Theorem clone_accepted_uncloned :
  (exists tr, runs demo_clone tr None /\ existsb (fun e => is_clone (projT1 e)) tr = false /\ made tr (ChangeReplicationSource "db-a") None
     /\ exists p r, set_read tr Donor p /\ set_read tr Recipient r /\ Contains p r = false)
  /\ (exists tr t1 t2 msg, runs demo_clone tr None /\ tr = t1 ++ ev (Ans := ans) (CloneInstance "db-a" 3600) (Some msg) :: t2
     /\ made t1 CloneStatus (Some (Some stale_row)) /\ made t2 CloneStatus (Some (Some stale_row)) /\ forall st, made tr CloneStatus st -> st = Some (Some stale_row)).
Proof.
  split.
  - exists (demo_trace true). split; [apply clone_runs|]. split; [vm_compute; reflexivity|]. split; [at_index 20%nat|apply demo_reads].
  - exists (demo_trace false), (take 9 (demo_trace false)), (drop 10 (demo_trace false)), "invalid connection". split; [apply clone_runs|].
    split; [vm_compute; reflexivity|]. split; [at_index 1%nat|]. split; [at_index 6%nat|apply (demo_rows false)].
Qed.

(** ** Witnesses *)

Lemma clone_guarded_witness :
  (forall t1 o x t2, demo_trace false = t1 ++ ev o x :: t2 -> guarded "a" "db-a" "reclone" t1 o) /\ made (demo_trace false) StartReplica None.
Proof.
  pose proof (clone_guarded 3 "a" "b" "db-a" "reclone" "" true true (demo_trace false) None (clone_runs false)) as [H1 H2]. split; [exact H1|exact (H2 eq_refl)].
Defined.

(** The recipient drops the connection at CLONE INSTANCE and does not answer again. *)
Definition lost_answer (o : op) : ans o :=
  match o return ans o with
  | CheckReadOnly Recipient => Err "connection refused"
  | o => demo_answer false o
  end.

Definition lost_trace : list (event ans) := (exec (fun _ => lost_answer) demo_clone []).1.

Lemma lost_runs : runs demo_clone lost_trace (Some NotRestarted).
Proof. replace (Some NotRestarted) with (exec (fun _ => lost_answer) demo_clone []).2 by (vm_compute; reflexivity). apply exec_run. Qed.

Lemma clone_ends_fenced_witness :
  left_open lost_trace = true /\ (Some NotRestarted = Some NotRestarted /\ silent lost_trace \/ clear_failed lost_trace).
Proof.
  split; [vm_compute; reflexivity|].
  refine (clone_ends_fenced 3 "a" "b" "db-a" "reclone" "" true true lost_trace (Some NotRestarted) lost_runs _). vm_compute. reflexivity.
Defined.

(** A wait that sees the new clone's row at its second reading. *)
Definition wait_trace : list (event ans) :=
  [ev (Ans := ans) Now UnixEpoch; ev (Ans := ans) Lock (demo_fields <| cloneTimeout := 1 |>); ev (Ans := ans) CloneStatus None; ev (Ans := ans) Now UnixEpoch;
   ev (Ans := ans) TimerFired false].

Lemma wait_trace_runs : runs (verifyCloneOutcome 3 None) wait_trace (Some ContextEnded).
Proof. unfold wait_trace. repeat constructor. Qed.

Lemma outcome_wait_ends_witness : Some ContextEnded <> Some OutOfFuel.
Proof.
  refine (outcome_wait_ends 2 None wait_trace (Some ContextEnded) UnixEpoch [UnixEpoch] wait_trace_runs eq_refl _ _).
  - intros [|i] t Hi; [injection Hi as <-; cbn; lia|discriminate].
  - intros f Hf. unfold made, wait_trace in Hf. apply elem_of_cons in Hf as [Hf|Hf]; [discriminate (f_equal (fun e => match projT1 e with Now => true | _ => false end) Hf)|].
    apply elem_of_cons in Hf as [Hf|Hf]; [|exfalso; repeat (apply elem_of_cons in Hf as [Hf|Hf]; [discriminate (f_equal (fun e => match projT1 e with Lock => true | _ => false end) Hf)|]); by apply not_elem_of_nil in Hf].
    apply (f_equal (fun e => match e with existT Lock f => cloneTimeout f | _ => 0 end)) in Hf. cbn in Hf. rewrite Hf. unfold cloneOutcomePollInterval, Second. lia.
Defined.
