(* ===== verification/PodReadiness.v ===== *)
(** * Pod readiness of a site

    [internal/controller/pod_readiness.go]: whether the pod of a Deployment's current
    template has been Ready long enough for an ordered update to count it, and why not.
    The API server's objects are records of the fields read here; numbers of pods stay
    far below 2^31, and the texts of its errors are the answers of the calls. *)
From S2P Require Import Prelude GoStd GoTime Effects.

Local Open Scope Z_scope.

#[local] Arguments prog_bind {Op Ans A B} _ _ : simpl never.

(** ** [time.Duration.String] *)

Module Durations.

(** [n] as [w] digits, without trailing zeros. *)
Fixpoint fraction_digits (w : nat) (n : Z) : string :=
  match w with
  | O => ""
  | S w => if n mod 10 =? 0 then fraction_digits w (n / 10) else appendInt (S w) n
  end.

(** [v / 10^w] with its fraction, if any. *)
Definition fmtFrac (w : nat) (v : Z) : string :=
  let scale := 10 ^ Z.of_nat w in
  FormatInt (v / scale) +:+ (if v mod scale =? 0 then "" else "." +:+ fraction_digits w (v mod scale)).

Definition magnitude (u : Z) : string :=
  if u =? 0 then "0s"
  else if u <? 1000 then FormatInt u +:+ "ns"
  else if u <? 1000000 then fmtFrac 3 u +:+ "µs"
  else if u <? Second then fmtFrac 6 u +:+ "ms"
  else
    let minutes := u / (60 * Second) in
    let hours := minutes / 60 in
    (if hours =? 0 then "" else FormatInt hours +:+ "h")
      +:+ (if minutes =? 0 then "" else FormatInt (minutes mod 60) +:+ "m")
      +:+ fmtFrac 9 (u mod (60 * Second)) +:+ "s".

Definition DurationString (d : Z) : string := if d <? 0 then String "-" (magnitude (- d)) else magnitude d.

Example duration_minutes : DurationString (300 * Second) = "5m0s".
Proof. reflexivity. Qed.

Example duration_fraction : DurationString (3661 * Second + 20500000) = "1h1m1.0205s".
Proof. reflexivity. Qed.

Example duration_small : DurationString (- 1500) = "-1.5µs".
Proof. reflexivity. Qed.

End Durations.

Module Pods.

Import Durations.

Record PodReadiness : Type := { Ready : bool; Pod : string; Reason : string }.

(** [PodReadiness{Pod: pod, Reason: reason}]. *)
Definition refuse (pod reason : string) : PodReadiness := {| Ready := false; Pod := pod; Reason := reason |}.

Definition podStableFor : Z := 30 * Second.

Definition maxPodReasonLen : Z := 512.

(** ** Objects *)

Record Terminated : Type := { ExitCode : Z; term_reason : string }.

Record Waiting : Type := { wait_reason : string; wait_message : string }.

(** [state_running]: when the current run started, the zero time when unset. *)
Record ContainerState : Type := {
  state_waiting : option Waiting;
  state_running : option Z;
  state_terminated : option Terminated
}.

(** [last_terminated]: [LastTerminationState.Terminated]. *)
Record ContainerStatus : Type := {
  cs_name : string;
  cs_state : ContainerState;
  last_terminated : option Terminated;
  cs_ready : bool;
  RestartCount : Z
}.

Record PodCondition : Type := {
  cond_type : string;
  cond_status : string;
  cond_reason : string;
  cond_message : string;
  LastTransitionTime : Z
}.

(** An init container of the spec, with its restart policy. *)
Record InitContainer : Type := { init_name : string; RestartPolicy : option string }.

(** [controller]: [metav1.GetControllerOf]'s kind and name. [template_hash]: the label
    [pod-template-hash], "" when it has none. *)
Record pod : Type := {
  pod_name : string;
  terminating : bool;
  Phase : string;
  controller : option (string * string);
  template_hash : string;
  Conditions : list PodCondition;
  InitContainers : list InitContainer;
  InitContainerStatuses : list ContainerStatus;
  ContainerStatuses : list ContainerStatus
}.

Record Deployment : Type := {
  dep_name : string;
  Replicas : option Z;
  Generation : Z;
  ObservedGeneration : Z;
  UpdatedReplicas : Z;
  status_replicas : Z
}.

(** ** Conditions and containers *)

Definition podConditionOf (p : pod) (t : string) : option PodCondition :=
  List.find (fun c => bool_decide (cond_type c = t)) (Conditions p).

(** [podReady] of [dragonfly_upgrade.go]. *)
Definition podReady (p : pod) : bool :=
  existsb (fun c => bool_decide (cond_type c = "Ready") && bool_decide (cond_status c = "True")) (Conditions p).

Definition restartableInitContainer (p : pod) (name : string) : bool :=
  match List.find (fun c => bool_decide (init_name c = name)) (InitContainers p) with
  | Some c => bool_decide (RestartPolicy c = Some "Always")
  | None => false
  end.

Definition deploymentReplicaSetOf (p : pod) (deployment : string) : option string :=
  match controller p with
  | None => None
  | Some (kind, name) =>
      if negb (bool_decide (kind = "ReplicaSet")) then None
      else if bool_decide (template_hash p = "") || negb (bool_decide (name = deployment +:+ "-" +:+ template_hash p)) then None
      else Some name
  end.

(** The container's current run, when it started after [since]. *)
Definition later (since : Z) (cs : ContainerStatus) : Z :=
  match state_running (cs_state cs) with
  | Some started => if started >? since then started else since
  | None => since
  end.

Definition podReadySince (p : pod) : Z :=
  let since := match podConditionOf p "Ready" with
               | Some c => if bool_decide (cond_status c = "True") then LastTransitionTime c else 0
               | None => 0
               end in
  let since := fold_left (fun since cs => if restartableInitContainer p (cs_name cs) then later since cs else since) (InitContainerStatuses p) since in
  fold_left later (ContainerStatuses p) since.

(** ** Reasons *)

Definition exitText (t : Terminated) : string :=
  if bool_decide (term_reason t = "") then "code " +:+ FormatInt (ExitCode t)
  else "code " +:+ FormatInt (ExitCode t) +:+ " (" +:+ term_reason t +:+ ")".

Definition conditionText (reason message : string) : string :=
  if bool_decide (reason = "") then message
  else if bool_decide (message = "") then reason
  else reason +:+ ": " +:+ message.

(** [utf8.RuneStart]: not a continuation byte. *)
Definition RuneStart (c : ascii) : bool := negb (Z.land (Z.of_N (N_of_ascii c)) 192 =? 128).

(** The cut: the last rune start at or before [cut]. *)
Fixpoint rune_cut (s : string) (cut : nat) : nat :=
  match cut with
  | O => O
  | S n => match String.get cut s with
           | Some c => if RuneStart c then cut else rune_cut s n
           | None => cut
           end
  end.

Definition truncateReason (s : string) : string :=
  if Z.of_nat (String.length s) <=? maxPodReasonLen then s
  else String.substring 0 (rune_cut s (Z.to_nat maxPodReasonLen)) s +:+ "…".

Definition crashLooping (cs : ContainerStatus) : bool :=
  match state_waiting (cs_state cs), state_running (cs_state cs), state_terminated (cs_state cs) with
  | Some w, _, _ => bool_decide (wait_reason w = "CrashLoopBackOff")
  | None, Some _, _ | None, None, Some _ => RestartCount cs >? 0
  | None, None, None => false
  end.

(** The most recent exit. *)
Definition last_exit (cs : ContainerStatus) : option Terminated :=
  match state_terminated (cs_state cs) with Some t => Some t | None => last_terminated cs end.

Definition crashLoopReason (cs : ContainerStatus) : string :=
  cs_name cs +:+ " not ready: crash looping"
    +:+ match last_exit cs with Some t => ", last exit " +:+ exitText t | None => "" end.

Definition containerNotReadyReason (cs : ContainerStatus) : string :=
  if crashLooping cs then crashLoopReason cs
  else
    let st := cs_state cs in
    let s :=
      match state_waiting st, state_terminated st, state_running st with
      | Some w, _, _ =>
          let reason := if bool_decide (wait_reason w = "") then "waiting" else wait_reason w in
          let msg := TrimSpace (wait_message w) in
          cs_name cs +:+ " not ready: " +:+ reason +:+ (if bool_decide (msg = "") then "" else ": " +:+ msg)
      | None, Some t, _ => cs_name cs +:+ " not ready: terminated, " +:+ exitText t
      | None, None, Some _ => cs_name cs +:+ " not ready: running, readiness probe failing"
      | None, None, None => cs_name cs +:+ " not ready"
      end in
    match last_terminated cs, state_terminated st with
    | Some t, None => s +:+ ", last exit " +:+ exitText t
    | _, _ => s
    end.

Definition restartedWithin (cs : ContainerStatus) (now : Z) : bool :=
  (RestartCount cs >? 0)
  && match state_running (cs_state cs) with Some started => time_sub now started <? podStableFor | None => false end.

Definition podUnsettledReason (p : pod) (now : Z) : string :=
  let parts :=
    map (fun cs => "init container " +:+ crashLoopReason cs)
      (List.filter (fun cs => restartableInitContainer p (cs_name cs) && restartedWithin cs now) (InitContainerStatuses p))
    ++ map crashLoopReason (List.filter (fun cs => restartedWithin cs now) (ContainerStatuses p)) in
  if nonempty parts then truncateReason (Join "; " parts) else "pod Ready for less than " +:+ DurationString podStableFor.

(** An init container that is done, or serves: the loop skips it. *)
Definition init_settled (p : pod) (cs : ContainerStatus) : bool :=
  if restartableInitContainer p (cs_name cs)
  then match state_running (cs_state cs) with Some _ => cs_ready cs | None => false end
  else match state_terminated (cs_state cs) with Some t => ExitCode t =? 0 | None => false end.

(** An ordinary init container on its first run. *)
Definition init_running (p : pod) (cs : ContainerStatus) : bool :=
  negb (restartableInitContainer p (cs_name cs))
  && match state_running (cs_state cs) with Some _ => RestartCount cs =? 0 | None => false end.

(** The first init container that has not completed. *)
Fixpoint init_reason (p : pod) (l : list ContainerStatus) : list string :=
  match l with
  | [] => []
  | cs :: l =>
      if init_settled p cs then init_reason p l
      else if init_running p cs then ["init container " +:+ cs_name cs +:+ " not ready: still running"]
      else ["init container " +:+ containerNotReadyReason cs]
  end.

Section lower.

(** Unicode's lower-case mapping, for a phase that is not ASCII. *)
Context (unicode_lower : string -> string).

Definition lower (s : string) : string := if str_forallb is_ascii_byte s then lower_ascii s else unicode_lower s.

Definition ready_reason (p : pod) : string :=
  match podConditionOf p "Ready" with
  | Some c =>
      if negb (bool_decide (cond_reason c = "")) || negb (bool_decide (cond_message c = ""))
      then "pod not ready: " +:+ conditionText (cond_reason c) (cond_message c)
      else "pod " +:+ lower (Phase p) +:+ ", not ready"
  | None => "pod " +:+ lower (Phase p) +:+ ", not ready"
  end.

(** Why a pod whose containers are all ready is not. *)
Definition pod_reason (p : pod) : string :=
  match podConditionOf p "PodScheduled" with
  | Some c =>
      if negb (bool_decide (cond_status c = "True")) then "pod not scheduled: " +:+ conditionText (cond_reason c) (cond_message c)
      else ready_reason p
  | None => ready_reason p
  end.

Definition podNotReadyReason (p : pod) : string :=
  let parts := init_reason p (InitContainerStatuses p) in
  let parts := if nonempty parts then parts else map containerNotReadyReason (List.filter (fun cs => negb (cs_ready cs)) (ContainerStatuses p)) in
  let parts := if nonempty parts then parts else [pod_reason p] in
  truncateReason (Join "; " parts).

(** ** The verdict *)



Definition desired_replicas (d : Deployment) : Z := default 1 (Replicas d).

(** Why the Deployment's status alone refuses. *)
Definition deployment_refusal (d : Deployment) : option string :=
  if desired_replicas d =? 0 then Some "deployment is scaled to 0 replicas"
  else if ObservedGeneration d <? Generation d then Some "deployment controller has not observed the current pod template yet"
  else if (UpdatedReplicas d <? desired_replicas d) || (status_replicas d >? UpdatedReplicas d)
  then Some "rollout of the current pod template in progress"
  else None.

Definition finished (p : pod) : bool := terminating p || bool_decide (Phase p = "Succeeded") || bool_decide (Phase p = "Failed").

(** A pod that counts, with its ReplicaSet. *)
Definition current_pod (d : Deployment) (p : pod) : option (pod * string) :=
  if finished p then None else (fun rs => (p, rs)) <$> deploymentReplicaSetOf p (dep_name d).

Definition current_pods (d : Deployment) (l : list pod) : list (pod * string) := omap (current_pod d) l.

Definition replica_sets (l : list (pod * string)) : gset string := list_to_set (map snd l).

(** Why the list of pods refuses. *)
Definition pods_refusal (d : Deployment) (l : list (pod * string)) : option string :=
  if (1 <? Z.of_nat (size (replica_sets l))) || (desired_replicas d <? Z.of_nat (length l))
  then Some "rollout of the current pod template in progress"
  else if Z.of_nat (length l) <? desired_replicas d then Some "no pod for the current pod template yet"
  else None.

(** The pods in order: the first that is not Ready or not yet stable decides. *)
Fixpoint judge_pods (now : Z) (verdict : PodReadiness) (l : list pod) : PodReadiness :=
  match l with
  | [] => verdict
  | p :: l =>
      if negb (podReady p) then refuse (pod_name p) (podNotReadyReason p)
      else if time_sub now (podReadySince p) <? podStableFor then refuse (pod_name p) (podUnsettledReason p now)
      else judge_pods now {| Ready := true; Pod := pod_name p; Reason := "" |} l
  end.

Definition pods_verdict (now : Z) (d : Deployment) (l : list pod) : PodReadiness :=
  let current := current_pods d l in
  match pods_refusal d current with
  | Some why => refuse "" why
  | None => judge_pods now {| Ready := true; Pod := ""; Reason := "" |} (map fst current)
  end.

(** ** Calls *)

(** Reads of the API server, past the cache; the selector's conversion is the library's. *)
Inductive op : Type :=
| GetDeployment
| LabelSelectorAsSelector
| ListPods
| Now.

Inductive get_answer : Type :=
| NotFound
| GetFailed (msg : string)
| Got (d : Deployment).

Definition ans (o : op) : Type :=
  match o with
  | GetDeployment => get_answer
  | LabelSelectorAsSelector => option string
  | ListPods => res string (list pod)
  | Now => Z
  end.

Abbreviation P := (prog ans).

(** [nn.String()] is [ns/name]. *)
Definition deploymentPodReadiness (ns name : string) (now : Z) : P (res string PodReadiness) :=
  let nn := ns +:+ "/" +:+ name in
  let! got := call GetDeployment in
  match got : get_answer with
  | NotFound => Ret (Ok (refuse "" ("deployment " +:+ name +:+ " not found")))
  | GetFailed msg => Ret (Err ("get deployment " +:+ nn +:+ ": " +:+ msg))
  | Got d =>
      match deployment_refusal d with
      | Some why => Ret (Ok (refuse "" why))
      | None =>
          let! bad := call LabelSelectorAsSelector in
          match bad : option string with
          | Some msg => Ret (Err ("deployment " +:+ nn +:+ " selector: " +:+ msg))
          | None =>
              let! listed := call ListPods in
              Ret match listed : res string (list pod) with
                  | Err msg => Err ("list pods of deployment " +:+ nn +:+ ": " +:+ msg)
                  | Ok l => Ok (pods_verdict now d l)
                  end
          end
      end
  end.

Definition resourceName (group site : string) : string := "mysql-" +:+ group +:+ "-" +:+ site.

Definition SitePodReadiness (ns group site : string) : P (res string PodReadiness) :=
  let! now := call Now in
  deploymentPodReadiness ns (resourceName group site) now.

End lower.

End Pods.

Import Durations Pods.

#[export] Instance pods_op_eq_dec : EqDecision Pods.op.
Proof. solve_decision. Defined.

(** ** Specification vocabulary *)

(** The pod runs, and the Deployment's ReplicaSet [rs] of its template owns it. *)
Definition belongs (d : Deployment) (p : pod) (rs : string) : Prop :=
  finished p = false /\ template_hash p <> ""
  /\ rs = dep_name d +:+ "-" +:+ template_hash p /\ controller p = Some ("ReplicaSet", rs).

(** When the pod became Ready, or a run of one of its lasting containers began. *)
Definition run_start (p : pod) (t : Z) : Prop :=
  (exists c, podConditionOf p "Ready" = Some c /\ cond_status c = "True" /\ t = LastTransitionTime c)
  \/ (exists cs, cs ∈ ContainerStatuses p /\ state_running (cs_state cs) = Some t)
  \/ (exists cs, cs ∈ InitContainerStatuses p /\ restartableInitContainer p (cs_name cs) = true /\ state_running (cs_state cs) = Some t).

Definition stable (now : Z) (p : pod) : Prop := podReady p = true /\ forall t, run_start p t -> podStableFor <= now - t.

(** The controller saw the current template and every replica runs it. *)
Definition rolled_out (d : Deployment) : Prop :=
  desired_replicas d <> 0 /\ Generation d <= ObservedGeneration d
  /\ desired_replicas d <= UpdatedReplicas d /\ status_replicas d <= UpdatedReplicas d.

Definition ready (r : res string PodReadiness) : Prop := exists v, r = Ok v /\ Ready v = true.

(** ** Lemmas *)

Lemma current_pods_iff d l p rs : (p, rs) ∈ current_pods d l <-> p ∈ l /\ belongs d p rs.
Proof.
  unfold current_pods. rewrite list_elem_of_omap. unfold current_pod, belongs, deploymentReplicaSetOf. split.
  - intros (q & Hq & H). destruct (finished q) eqn:Ef; [done|]. destruct (controller q) as [[kind name]|] eqn:Ec; [|done].
    simpl in H. case_bool_decide as Ek; [|done]. case_bool_decide as Eh; [done|]. case_bool_decide as En; [|done]. by simplify_eq/=.
  - intros (Hp & Hf & Hh & -> & Hc). exists p. split; [done|]. rewrite Hf, Hc.
    by rewrite (bool_decide_true ("ReplicaSet" = "ReplicaSet")), (bool_decide_false (template_hash p = "")), bool_decide_true.
Qed.

Lemma later_spec since cs : since <= later since cs
  /\ (forall t, state_running (cs_state cs) = Some t -> t <= later since cs)
  /\ (later since cs = since \/ state_running (cs_state cs) = Some (later since cs)).
Proof.
  unfold later. destruct (state_running (cs_state cs)) as [started|]; [|split; [lia|by split; [|left]]].
  destruct (started >? since) eqn:E; rewrite Z.gtb_ltb, ?Z.ltb_lt, ?Z.ltb_ge in E.
  - split; [lia|]. split; [intros t [= <-]; lia|by right].
  - split; [lia|]. split; [intros t [= <-]; lia|by left].
Qed.

(** The latest start among the containers that [keep] selects, and [since]. *)
Lemma latest_spec (keep : ContainerStatus -> bool) l since :
  let r := fold_left (fun since cs => if keep cs then later since cs else since) l since in
  since <= r
  /\ (forall cs t, cs ∈ l -> keep cs = true -> state_running (cs_state cs) = Some t -> t <= r)
  /\ (r = since \/ exists cs, cs ∈ l /\ keep cs = true /\ state_running (cs_state cs) = Some r).
Proof.
  revert since. induction l as [|x l IH]; intros since; cbn [fold_left].
  { split; [done|]. split; [by intros cs t ?%not_elem_of_nil|by left]. }
  set (s1 := if keep x then later since x else since). destruct (IH s1) as (H1 & H2 & H3). clear IH.
  destruct (later_spec since x) as (L1 & L2 & L3).
  assert (since <= s1) as Hs by (unfold s1; destruct (keep x); lia).
  split; [lia|]. split.
  - intros cs t [->|Hin]%elem_of_cons Hk Ht; [|by eapply H2]. unfold s1 in *. rewrite Hk in *. specialize (L2 t Ht). lia.
  - destruct H3 as [H3|(cs & Hin & Hk & Ht)]; [|right; exists cs; split; [by right|done]]. rewrite H3. unfold s1.
    destruct (keep x) eqn:Hk; [|by left]. destruct L3 as [L3|L3]; [by left|]. right. exists x. split; [left|]. by split.
Qed.

Lemma podReadySince_spec p : (forall t, run_start p t -> t <= podReadySince p) /\ (podReadySince p = 0 \/ run_start p (podReadySince p)).
Proof.
  unfold podReadySince.
  set (s0 := match podConditionOf p "Ready" with Some c => _ | None => 0 end).
  assert (s0 = 0 \/ exists c, podConditionOf p "Ready" = Some c /\ cond_status c = "True" /\ s0 = LastTransitionTime c) as H0.
  { unfold s0. destruct (podConditionOf p "Ready") as [c|]; [|by left]. case_bool_decide; [right; by exists c|by left]. }
  pose proof (latest_spec (fun cs => restartableInitContainer p (cs_name cs)) (InitContainerStatuses p) s0) as (I1 & I2 & I3).
  set (s1 := fold_left _ (InitContainerStatuses p) s0) in *.
  pose proof (latest_spec (fun _ => true) (ContainerStatuses p) s1) as (C1 & C2 & C3). cbn beta iota in C1, C2, C3.
  set (s2 := fold_left later (ContainerStatuses p) s1) in *.
  split.
  - intros t [(c & Hc & Hs & ->)|[(cs & Hin & Ht)|(cs & Hin & Hk & Ht)]].
    + destruct H0 as [H0|(c' & Hc' & _ & ->)]; [|simplify_eq; lia].
      unfold s0 in *. rewrite Hc in *. rewrite bool_decide_true in * by done. lia.
    + by eapply C2.
    + specialize (I2 cs t Hin Hk Ht). lia.
  - destruct C3 as [->|(cs & Hin & _ & Ht)]; [|right; right; left; by exists cs].
    destruct I3 as [->|(cs & Hin & Hk & Ht)]; [|right; right; right; by exists cs].
    destruct H0 as [H0|H0]; [by left|right; left]. destruct H0 as (c & ? & ? & ?). by exists c.
Qed.

Lemma time_sub_lt t u d : is_int64 d -> MinInt64 < d -> (time_sub t u <? d) = (t - u <? d).
Proof.
  intros Hd Hm. unfold time_sub, clamp64, is_int64, MinInt64, MaxInt64 in *.
  apply eq_true_iff_eq. rewrite !Z.ltb_lt. lia.
Qed.

Lemma settled_iff now p : podStableFor <= now ->
  stable now p <-> podReady p = true /\ (time_sub now (podReadySince p) <? podStableFor) = false.
Proof.
  intros Hnow. unfold stable. rewrite time_sub_lt, Z.ltb_ge by done.
  destruct (podReadySince_spec p) as (Hle & Hat). split; intros (Hr & H); (split; [done|]).
  - destruct Hat as [->|Hat]; [lia|auto].
  - intros t Ht%Hle. lia.
Qed.

Section verdicts.

Context (unicode_lower : string -> string) (now : Z).

Lemma judge_pods_ready v l : podStableFor <= now ->
  Ready (judge_pods unicode_lower now v l) = true <-> (l = [] -> Ready v = true) /\ forall p, p ∈ l -> stable now p.
Proof.
  intros Hnow. revert v. induction l as [|p l IH]; intros v; cbn [judge_pods].
  { split; [intros H; split; [done|by intros p ?%not_elem_of_nil]|intros [H _]; auto]. }
  setoid_rewrite elem_of_cons. pose proof (settled_iff now p Hnow) as Hp.
  destruct (podReady p) eqn:Er; cbn [negb]; cycle 1.
  { split; [done|]. intros [_ H]. destruct (proj1 Hp (H p (or_introl eq_refl))) as [? _]; congruence. }
  destruct (_ <? _) eqn:Es.
  { split; [done|]. intros [_ H]. destruct (proj1 Hp (H p (or_introl eq_refl))) as [_ ?]; congruence. }
  rewrite IH. split.
  - intros [_ H]. split; [done|]. intros q [->|Hq]; [by apply Hp|auto].
  - intros [_ H]. split; [done|auto].
Qed.

Lemma deployment_refusal_none d : deployment_refusal d = None <-> rolled_out d.
Proof.
  unfold deployment_refusal, rolled_out. destruct (desired_replicas d =? 0) eqn:E1; [split; [done|lia]|].
  destruct (ObservedGeneration d <? Generation d) eqn:E2; [split; [done|lia]|].
  destruct (_ || _) eqn:E3; [split; [done|]|split; [|done]].
  - apply orb_true_iff in E3. rewrite Z.gtb_ltb, !Z.ltb_lt in E3. lia.
  - apply orb_false_iff in E3. rewrite Z.gtb_ltb, !Z.ltb_ge in E3. lia.
Qed.

Lemma one_set (l : list (pod * string)) :
  (size (replica_sets l) <= 1)%nat <-> forall p q rs rs', (p, rs) ∈ l -> (q, rs') ∈ l -> rs = rs'.
Proof.
  assert (forall p rs, (p, rs) ∈ l -> rs ∈ replica_sets l) as Hin.
  { intros p rs H. unfold replica_sets. rewrite elem_of_list_to_set, elem_of_map. by exists (p, rs). }
  split.
  - intros Hs p q rs rs' Hp%Hin Hq%Hin. apply (size_singleton_inv (replica_sets l)); [|done..].
    destruct (size (replica_sets l)) as [|n] eqn:E; [|lia]. apply size_empty_inv in E. by apply E in Hp.
  - intros H. destruct l as [|[p rs] l]; [unfold replica_sets; cbn; rewrite size_empty; lia|]. rewrite <- (size_singleton (C := gset string) rs). apply subseteq_size. intros rs' Hrs.
    unfold replica_sets in Hrs. rewrite elem_of_list_to_set, elem_of_map in Hrs. destruct Hrs as ([q rs2] & -> & Hq).
    apply elem_of_singleton. eapply H; [exact Hq|left].
Qed.

Lemma pods_refusal_none d l : pods_refusal d l = None <->
  Z.of_nat (length l) = desired_replicas d /\ forall p q rs rs', (p, rs) ∈ l -> (q, rs') ∈ l -> rs = rs'.
Proof.
  unfold pods_refusal. rewrite <- one_set. destruct (1 <? _) eqn:E1; [apply Z.ltb_lt in E1; split; [done|lia]|].
  apply Z.ltb_ge in E1. destruct (desired_replicas d <? _) eqn:E2; [apply Z.ltb_lt in E2; split; [done|lia]|].
  apply Z.ltb_ge in E2. destruct (_ <? desired_replicas d) eqn:E3; cbn [orb]; [apply Z.ltb_lt in E3; split; [done|lia]|].
  apply Z.ltb_ge in E3. split; [lia|done].
Qed.

(** One replica at least is wanted, so a verdict of Ready names a pod. *)
Lemma pods_verdict_ready d l : podStableFor <= now ->
  Ready (pods_verdict unicode_lower now d l) = true <->
  Z.of_nat (length (current_pods d l)) = desired_replicas d
  /\ (forall p q rs rs', (p, rs) ∈ current_pods d l -> (q, rs') ∈ current_pods d l -> rs = rs')
  /\ forall p rs, (p, rs) ∈ current_pods d l -> stable now p.
Proof.
  intros Hnow. unfold pods_verdict. destruct (pods_refusal d (current_pods d l)) as [why|] eqn:E.
  { split; [done|]. intros (H1 & H2 & _). by rewrite (proj2 (pods_refusal_none _ _) (conj H1 H2)) in E. }
  apply pods_refusal_none in E as [E1 E2]. rewrite judge_pods_ready by done. split.
  - intros [_ H]. split; [done|]. split; [done|]. intros p rs Hp. apply H, elem_of_map. by exists (p, rs).
  - intros (_ & _ & H). split; [done|]. intros p ([q rs] & -> & Hq)%elem_of_map. by eapply H.
Qed.

End verdicts.

Section texts.

Context (unicode_lower : string -> string).

(** ** Crash loops *)

(** A phase of a crash loop: waiting out the back-off, running again but not ready,
    terminated again, or ready again for less than [podStableFor]. *)
Inductive loop_phase (now : Z) (e : Terminated) (cs : ContainerStatus) : Prop :=
| InBackOff w : cs_ready cs = false -> cs_state cs = {| state_waiting := Some w; state_running := None; state_terminated := None |} ->
    wait_reason w = "CrashLoopBackOff" -> last_terminated cs = Some e -> loop_phase now e cs
| RunningAgain t : cs_ready cs = false -> cs_state cs = {| state_waiting := None; state_running := Some t; state_terminated := None |} ->
    RestartCount cs > 0 -> last_terminated cs = Some e -> loop_phase now e cs
| TerminatedAgain : cs_ready cs = false -> cs_state cs = {| state_waiting := None; state_running := None; state_terminated := Some e |} ->
    RestartCount cs > 0 -> loop_phase now e cs
| ReadyAgain t : cs_ready cs = true -> cs_state cs = {| state_waiting := None; state_running := Some t; state_terminated := None |} ->
    now - t < podStableFor -> RestartCount cs > 0 -> last_terminated cs = Some e -> loop_phase now e cs.

(** One container crash loops; the others serve, and the pod's condition agrees with its
    containers. *)
Record crash_looping (now : Z) (name : string) (e : Terminated) (p : pod) : Prop := {
  loop_at : exists pre cs post, ContainerStatuses p = pre ++ cs :: post /\ cs_name cs = name /\ loop_phase now e cs
    /\ podReady p = cs_ready cs
    /\ forall c, c ∈ pre ++ post -> cs_ready c = true /\ restartedWithin c now = false;
  loop_inits : forall c, c ∈ InitContainerStatuses p -> init_settled p c = true /\ restartedWithin c now = false
}.

Definition crash_text (name : string) (e : Terminated) : string := name +:+ " not ready: crash looping, last exit " +:+ exitText e.

Lemma phase_text now e cs : loop_phase now e cs -> crashLoopReason cs = crash_text (cs_name cs) e.
Proof.
  unfold crashLoopReason, crash_text, last_exit. intros [w _ -> _ ->|t _ -> _ ->|_ -> _|t _ -> _ _ ->]; reflexivity.
Qed.

Lemma phase_unready now e cs : loop_phase now e cs -> cs_ready cs = false -> containerNotReadyReason cs = crash_text (cs_name cs) e.
Proof.
  intros H Hr. rewrite <- (phase_text now) by done. unfold containerNotReadyReason, crashLooping.
  destruct H as [w _ -> Hw _|t _ -> Hc _|_ -> Hc|t Hr' _ _ _ _]; cbn [state_waiting state_running state_terminated].
  - by rewrite bool_decide_true.
  - by rewrite (proj2 (Z.gtb_lt _ _)) by lia.
  - by rewrite (proj2 (Z.gtb_lt _ _)) by lia.
  - congruence.
Qed.

Lemma phase_ready now e cs : loop_phase now e cs -> cs_ready cs = true ->
  restartedWithin cs now = true /\ exists t, state_running (cs_state cs) = Some t /\ now - t < podStableFor.
Proof.
  intros [w Hr _ _ _|t Hr _ _ _|Hr _ _|t _ Es Ht Hc _]; [congruence..|]. intros _. unfold restartedWithin. rewrite Es. cbn [state_running].
  rewrite (proj2 (Z.gtb_lt _ _)) by lia. rewrite time_sub_lt by done. split; [by apply Z.ltb_lt|]. by exists t.
Qed.

Lemma init_reason_settled p l : (forall c, c ∈ l -> init_settled p c = true) -> init_reason p l = [].
Proof.
  induction l as [|c l IH]; [done|]. intros H. cbn [init_reason]. rewrite H by left. apply IH. intros x Hx. apply H. by right.
Qed.

(** Selecting the one container of a list. *)
Lemma filter_one {A} (f : A -> bool) pre x post : f x = true -> (forall y, y ∈ pre ++ post -> f y = false) ->
  List.filter f (pre ++ x :: post) = [x].
Proof.
  intros Hx H. setoid_rewrite elem_of_app in H. rewrite List.filter_app. cbn [List.filter]. rewrite Hx.
  rewrite !(proj2 (filter_nil_iff f _)); auto.
Qed.

Lemma crash_judged now name e p v : crash_looping now name e p ->
  judge_pods unicode_lower now v [p] = refuse (pod_name p) (truncateReason (crash_text name e)).
Proof.
  intros [(pre & cs & post & Es & <- & Hph & Hr & Hothers) Hinit]. cbn [judge_pods]. rewrite Hr. destruct (cs_ready cs) eqn:Ecs; cbn [negb].
  - destruct (phase_ready _ _ _ Hph Ecs) as (Hw & t & Ht & Hlt).
    assert (t <= podReadySince p) as Hle by (apply podReadySince_spec; right; left; exists cs; split; [rewrite Es, elem_of_app; right; left|done]).
    rewrite time_sub_lt by done. rewrite (proj2 (Z.ltb_lt _ _)) by lia. f_equal. unfold podUnsettledReason.
    rewrite (proj2 (filter_nil_iff _ (InitContainerStatuses p))) by (intros c Hc; rewrite (proj2 (Hinit c Hc)); apply andb_false_r).
    rewrite Es, (filter_one _ pre cs post) by (exact Hw || (intros c Hc; by apply Hothers)). cbn. by rewrite (phase_text now e cs).
  - f_equal. unfold podNotReadyReason. rewrite init_reason_settled by (intros c Hc; by apply Hinit). cbn [nonempty].
    rewrite Es, (filter_one _ pre cs post) by (by rewrite ?Ecs || (intros c Hc; by rewrite (proj1 (Hothers c Hc)))).
    cbn. by rewrite (phase_unready now e cs).
Qed.

End texts.

Lemma reads_inj d d' l l' : @eq (list (event Pods.ans)) [ev GetDeployment (Got d); ev LabelSelectorAsSelector None; ev ListPods l]
  [ev GetDeployment (Got d'); ev LabelSelectorAsSelector None; ev ListPods l'] -> d = d' /\ l = l'.
Proof.
  intros [Hd [_ [Hl _]%cons_eq_inj]%cons_eq_inj]%cons_eq_inj. apply (ev_inj GetDeployment) in Hd. apply (ev_inj ListPods) in Hl.
  injection Hd as Hd. done.
Qed.

(** ** Properties *)

(** C15. A site's pod is reported Ready exactly when its Deployment, scaled to at least one
    replica, has been observed at its current generation with every replica updated and none
    older, the pods of its ReplicaSet that are neither terminating nor finished are as many as
    wanted and of one ReplicaSet, and each is Ready, since at least [podStableFor], with every
    lasting container's current run begun at least that long ago; anything else, a failed
    read included, is not. The clock reads at least [podStableFor] past its zero. *)
Theorem pod_ready_iff unicode_lower ns name now tr r :
  runs (deploymentPodReadiness unicode_lower ns name now) tr r -> podStableFor <= now ->
  ready r <-> exists d l, tr = [ev GetDeployment (Got d); ev LabelSelectorAsSelector None; ev ListPods (Ok l)]
    /\ rolled_out d
    /\ Z.of_nat (length (current_pods d l)) = desired_replicas d
    /\ (forall p q rs rs', p ∈ l -> q ∈ l -> belongs d p rs -> belongs d q rs' -> rs = rs')
    /\ forall p rs, p ∈ l -> belongs d p rs -> stable now p.
Proof.
  unfold deploymentPodReadiness. intros H Hnow.
  assert (forall why, ready (Ok (refuse "" why)) -> False) as Hrefused by (by intros why (v & [= <-] & ?)).
  assert (forall msg, ready (Err msg) -> False) as Herr by (by intros msg (v & ? & _)).
  apply (runs_bind_iff (call GetDeployment)) in H as (t1 & got & t2 & -> & ->%runs_call_iff & H).
  destruct got as [|msg|d].
  1,2: apply runs_Ret_iff in H as [-> ->]; split; [by intros ?%Hrefused || by intros ?%Herr|intros (d & l & Htr & _); by apply (f_equal length) in Htr].
  destruct (deployment_refusal d) as [why|] eqn:Ed.
  { apply runs_Ret_iff in H as [-> ->]. split; [by intros ?%Hrefused|intros (d' & l & Htr & _); by apply (f_equal length) in Htr]. }
  apply deployment_refusal_none in Ed.
  apply (runs_bind_iff (call LabelSelectorAsSelector)) in H as (t3 & bad & t4 & -> & ->%runs_call_iff & H).
  destruct bad as [msg|].
  { apply runs_Ret_iff in H as [-> ->]. split; [by intros ?%Herr|intros (d' & l & Htr & _); by apply (f_equal length) in Htr]. }
  apply (runs_bind_iff (call ListPods)) in H as (t5 & listed & t6 & -> & ->%runs_call_iff & [-> ->]%runs_Ret_iff).
  destruct listed as [l|msg]; cycle 1.
  { split; [by intros ?%Herr|]. intros (d' & l & Htr & _). by apply reads_inj in Htr as [_ ?]. }
  assert (ready (Ok (pods_verdict unicode_lower now d l)) <-> Ready (pods_verdict unicode_lower now d l) = true) as ->.
  { split; [by intros (v & [= <-] & ?)|by eexists]. }
  rewrite pods_verdict_ready by done. setoid_rewrite current_pods_iff. split.
  - intros (H1 & H2 & H3). exists d, l. split; [done|]. split; [done|]. split; [done|]. split; [|by intros p rs Hp Hb; eapply H3; split].
    intros p q rs rs' Hp Hq Bp Bq. by apply (H2 p q rs rs').
  - intros (d' & l' & Htr & _ & H1 & H2 & H3). apply reads_inj in Htr as [<- [= <-]]. split; [done|]. split; [|by intros p rs [? ?]; eapply H3]. intros p q rs rs' [Hp Bp] [Hq Bq]. by eapply (H2 p q).
Qed.

(** While one container of a site's only pod crash loops, whichever phase of the loop a
    probe meets (the back-off, a run that is not ready yet, another exit, or a run that is
    ready for less than [podStableFor]), the pod is not Ready and the reason is the same text:
    the container, and how it last exited. *)
Theorem crash_loop_reason unicode_lower now d l p name e :
  desired_replicas d = 1 -> map fst (current_pods d l) = [p] -> crash_looping now name e p ->
  pods_verdict unicode_lower now d l = refuse (pod_name p) (truncateReason (crash_text name e)).
Proof.
  intros Hd Hc Hp. unfold pods_verdict. rewrite Hc. destruct (current_pods d l) as [|[q rs] [|]] eqn:E; [done| |done].
  rewrite (proj2 (pods_refusal_none d [(q, rs)])).
  - by apply (crash_judged unicode_lower now name e).
  - split; [by rewrite Hd|]. intros p1 p2 r1 r2 H1%list_elem_of_singleton H2%list_elem_of_singleton. by simplify_eq.
Qed.

(** ** Examples *)

Definition demo_deployment : Deployment :=
  {| dep_name := "mysql-fg-a"; Replicas := Some 1; Generation := 4; ObservedGeneration := 4; UpdatedReplicas := 1; status_replicas := 1 |}.

Definition demo_serving (name : string) (started : Z) : ContainerStatus :=
  {| cs_name := name; cs_state := {| state_waiting := None; state_running := Some started; state_terminated := None |};
     last_terminated := None; cs_ready := true; RestartCount := 0 |}.

Definition demo_pod (readyAt : Z) (sidecar : ContainerStatus) : pod :=
  {| pod_name := "mysql-fg-a-7d9"; terminating := false; Phase := "Running"; controller := Some ("ReplicaSet", "mysql-fg-a-7d9");
     template_hash := "7d9";
     Conditions := [{| cond_type := "Ready"; cond_status := if cs_ready sidecar then "True" else "False"; cond_reason := "";
                       cond_message := ""; LastTransitionTime := readyAt |}];
     InitContainers := []; InitContainerStatuses := []; ContainerStatuses := [demo_serving "mysql" (100 * Second); sidecar] |}.

Definition demo_exit : Terminated := {| ExitCode := 1; term_reason := "Error" |}.

(** The sidecar waits out its back-off. *)
Definition demo_crashing : ContainerStatus :=
  {| cs_name := "sidecar";
     cs_state := {| state_waiting := Some {| wait_reason := "CrashLoopBackOff"; wait_message := "back-off 20s" |};
                    state_running := None; state_terminated := None |};
     last_terminated := Some demo_exit; cs_ready := false; RestartCount := 3 |}.

Definition demo_settled : pod := demo_pod (120 * Second) (demo_serving "sidecar" (110 * Second)).

Definition demo_read (l : list pod) : list (event Pods.ans) :=
  [ev GetDeployment (Got demo_deployment); ev LabelSelectorAsSelector None; ev ListPods (Ok l)].

Lemma demo_read_runs now l : runs (deploymentPodReadiness lower_ascii "db" "mysql-fg-a" now) (demo_read l)
  (Ok (pods_verdict lower_ascii now demo_deployment l)).
Proof. unfold deploymentPodReadiness, demo_read. repeat first [apply runs_Ret | apply runs_Vis]. Qed.

Lemma pod_ready_iff_witness : stable (150 * Second) demo_settled.
Proof.
  destruct (proj1 (pod_ready_iff lower_ascii "db" "mysql-fg-a" (150 * Second) _ _ (demo_read_runs (150 * Second) [demo_settled]) ltac:(done)))
    as (d & l & Htr & _ & _ & _ & H).
  - eexists. split; [reflexivity|]. vm_compute. reflexivity.
  - apply reads_inj in Htr as [<- [= <-]].
    apply (H demo_settled "mysql-fg-a-7d9"); [left|by repeat split].
Defined.

Lemma crash_loop_reason_witness :
  pods_verdict lower_ascii (150 * Second) demo_deployment [demo_pod 0 demo_crashing]
  = refuse "mysql-fg-a-7d9" "sidecar not ready: crash looping, last exit code 1 (Error)".
Proof.
  apply (crash_loop_reason lower_ascii (150 * Second) demo_deployment [demo_pod 0 demo_crashing] (demo_pod 0 demo_crashing) "sidecar" demo_exit);
    [done|done|]. split.
  - exists [demo_serving "mysql" (100 * Second)], demo_crashing, []. split; [done|]. split; [done|]. split; [by eapply InBackOff|].
    split; [done|]. intros c [->|[]%elem_of_nil]%elem_of_cons. done.
  - by intros c []%elem_of_nil.
Defined.
