(* ===== verification/Updater.v ===== *)
(** * The ordered rolling update

    [internal/controller/updater.go]'s [ExecuteTargets]: followers first, one at a time,
    each seen replicating and its pod Ready before the next; then the active site, after a
    maintenance handoff ([Failover]) to a standby, and the old active back as a replica.
    Sites have distinct names and a target's checker is its name; a failed probe may be one
    that timed out. Log lines, and the two-site [Execute] only tests call, are left out. *)
From S2P Require Import Prelude GoStd Intervals GtidSet Effects Failover FacadeSteps PodReadiness.

Local Open Scope Z_scope.

#[local] Arguments prog_bind {Op Ans A B} _ _ : simpl never.

Module Updater.

Import GTID Pods.

(** ** State and configuration *)

Inductive UpdatePhase : Type :=
| UpdatePhaseNone
| UpdatePhaseUpdateReplica
| UpdatePhaseWaitReplica
| UpdatePhaseFailover
| UpdatePhaseUpdateOldPrimary
| UpdatePhaseWaitOldPrimary
| UpdatePhaseComplete.

#[export] Instance phase_eq_dec : EqDecision UpdatePhase.
Proof. solve_decision. Defined.

(** The fields under [u.mu]. *)
Record UpdateState : Type := { phase : UpdatePhase; updating : bool }.

#[export] Instance UpdateState_eta : Eta UpdateState := fun u => Build_UpdateState (phase u) (updating u).

#[export] Instance UpdateState_eq_dec : EqDecision UpdateState.
Proof. solve_decision. Defined.

(** The rest of [UpdateController]; [gate_installed] and [records_promotion]: the start gate
    and the promotion callback are not nil. *)
Record UpdateController : Type := {
  tickInterval : Z;
  primaryLossWindow : Z;
  rolledSiteTimeout : Z;
  handoff : Failover.HandoffOptions;
  gate_installed : bool;
  records_promotion : bool
}.

(** Credentials are left out. [probes_pod] and [asks_block]: [PodReady] and
    [HandoffBlocked] are not nil. *)
Record UpdateTarget : Type := {
  Name : string;
  Host : string;
  Promotable : bool;
  Drifted : bool;
  ExpectedSource : string;
  RotationBlocked : bool;
  ReclonePending : bool;
  DivergenceBlocked : bool;
  DivergentTransactions : Z;
  DivergentGtid : string;
  probes_pod : bool;
  asks_block : bool
}.

(** ** Calls *)

(** What the code reads of a replica's status. *)
Record ReplicaStatus : Type := { IORunning : bool; SQLRunning : bool; SourceHost : string }.

(** Whether the failure is a rollout that did not complete ([RolloutIncompleteError]). *)
Inductive apply_answer : Type :=
| Applied
| ApplyFailed (incomplete : bool).

(** [Lock] answers the fields under [u.mu], [Unlock] leaves those given. Statements and
    probes name the site they go to. [RestorePeerHeld] is the start gate's question.
    [TimerFired]: of the timer and the end of the context, the timer came first. *)
Inductive op : Type :=
| Lock
| Unlock (u : UpdateState)
| Now
| ContextErr
| TimerFired (d : Z)
| Sleep (d : Z)
| CheckReadOnly (site : string)
| ShowReplicaStatus (site : string)
| SetSuperReadOnly (site : string) (on : bool)
| SetReadOnly (site : string) (on : bool)
| StopReplica (site : string)
| ResetReplicaAll (site : string)
| ChangeReplicationSource (site host : string)
| StartReplica (site : string)
| GetGtidExecuted (site : string)
| RestorePeerHeld (site : string)
| PodReady (site : string)
| HandoffBlocked (site : string)
| ApplyUpdate (site : string)
| OnPromoted (site gtid : string)
| InHandoff (active candidate : string) (o : Failover.op).

(** Reads answer [None] on error, statements whether they returned none; [HandoffBlocked]
    the refusal's text, if it refuses. *)
Definition ans (o : op) : Type :=
  match o with
  | Lock => UpdateState
  | Now => Z
  | CheckReadOnly _ => option bool
  | ShowReplicaStatus _ => option (option ReplicaStatus)
  | GetGtidExecuted _ => option string
  | PodReady _ => res string PodReadiness
  | HandoffBlocked _ => option string
  | ApplyUpdate _ => apply_answer
  | InHandoff _ _ o => Failover.ans o
  | Unlock _ | Sleep _ | OnPromoted _ _ => unit
  | _ => bool
  end.

#[local] Existing Instance Failover.op_eq_dec.

#[export] Instance op_eq_dec : EqDecision op.
Proof. solve_decision. Defined.

Abbreviation P := (prog ans).

#[local] Abbreviation call := (Effects.call (Ans := ans)).

(** The handoff's program, its source the active site. *)
Fixpoint in_handoff {A} (active candidate : string) (p : prog Failover.ans A) : P A :=
  match p with
  | Ret a => Ret a
  | Vis o k => Vis (InHandoff active candidate o) (fun x => in_handoff active candidate (k x))
  end.

(** ** Errors *)

Record PodNotReadyError : Type := {
  stall_site : string;
  stall_pod : string;
  stall_reason : string;
  Rolled : bool;
  Waited : Z;
  Next : string
}.

Inductive wait_error : Type :=
| WaitCanceled
| PrimaryLost
| PodStalled (e : PodNotReadyError)
| WaitTimedOut
| WaitOutOfFuel.

(** Why the pods of the sites on the template refuse the next step. *)
Inductive pods_error : Type :=
| PodsCanceled
| PodsStalled (e : PodNotReadyError).

(** A rollout's failure, and the stall it is turned into. *)
Inductive rollout_error : Type :=
| RolloutFailed (incomplete : bool)
| RolloutStalled (e : PodNotReadyError).

(** Why the old active is not repointed. *)
Inductive contain_error : Type :=
| OldNotFenced
| OldUnreadable
| NewUnreadable
| OldDivergent (extra : GTIDSet).

Inductive update_error : Type :=
| InProgress
| PodsRefused (e : pods_error)
| FollowerNotUpdated (site : string) (e : rollout_error)
| FollowerNotReady (site : string) (e : wait_error)
| NoStandby (why : string)
| NoHost (site : string)
| HandoffFailed (e : Failover.handoff_error)
| NotWritable (site : string)
| ActiveNotUpdated (site : string) (e : rollout_error)
| OldRefused (e : contain_error)
| OldNotConfigured
| OldNotReady (e : wait_error).

(** [errors.As(err, &stall)]. *)
Definition stall_of (e : update_error) : option PodNotReadyError :=
  match e with
  | PodsRefused (PodsStalled s) | FollowerNotUpdated _ (RolloutStalled s) | ActiveNotUpdated _ (RolloutStalled s)
  | FollowerNotReady _ (PodStalled s) | OldNotReady (PodStalled s) => Some s
  | _ => None
  end.

Section controller.

Context (u : UpdateController).

(** Unicode's lower-case mapping, for host names that are not ASCII. *)
Context (unicode_lower : string -> string).

#[local] Abbreviation canonical := (FacadeSteps.Ops.canonicalSourceHost unicode_lower).

(** ** The fields under the mutex *)

Definition setPhase (p : UpdatePhase) : P unit :=
  let! s := call Lock in
  call (Unlock ((s : UpdateState) <| phase := p |>)).

(** The test and set of [updating]: whether this call owns the update. *)
Definition begin_update : P bool :=
  let! s := call Lock in
  if updating s then let! _ := call (Unlock s) in Ret false
  else let! _ := call (Unlock ((s : UpdateState) <| updating := true |>)) in Ret true.

Definition end_update : P unit :=
  let! _ := call Lock in
  call (Unlock {| phase := UpdatePhaseNone; updating := false |}).

(** ** Probes *)

(** [requireDirectReplica]: whether the site passes. *)
Definition requireDirectReplica (t : UpdateTarget) : P bool :=
  let! ro := call (CheckReadOnly (Name t)) in
  match ro : option bool with
  | Some true =>
      let! rs := call (ShowReplicaStatus (Name t)) in
      Ret match rs : option (option ReplicaStatus) with
          | Some (Some r) => IORunning r && SQLRunning r && bool_decide (canonical (SourceHost r) = canonical (ExpectedSource t))
          | _ => false
          end
  | _ => Ret false
  end.

(** [probePod], when the target has a probe. *)
Definition probePod (t : UpdateTarget) : P (option (res string PodReadiness)) :=
  if probes_pod t then let! r := call (PodReady (Name t)) in Ret (Some r) else Ret None.

Definition pod_ok (r : option (res string PodReadiness)) : bool :=
  match r with None => true | Some (Ok v) => Ready v | Some (Err _) => false end.

(** The verdict's pod and [podVerdictReason]. *)
Definition podVerdictReason (r : res string PodReadiness) : string :=
  match r with Ok v => Reason v | Err e => "pod readiness unknown: " +:+ e end.

Definition verdict_pod (r : res string PodReadiness) : string := match r with Ok v => Pod v | Err _ => "" end.

Definition sitesOnTemplate (active : UpdateTarget) (followers : list UpdateTarget) : list UpdateTarget :=
  (if Drifted active then [] else [active]) ++ List.filter (fun f => negb (Drifted f)) followers.

(** [requirePodsReady]; a probe that fails refuses too. *)
Fixpoint requirePodsReady (sites : list UpdateTarget) (next : string) : P (option pods_error) :=
  match sites with
  | [] => Ret None
  | s :: sites =>
      let! r := probePod s in
      match r with
      | None => requirePodsReady sites next
      | Some (Err e) =>
          let! canceled := call ContextErr in
          Ret (Some (if canceled : bool then PodsCanceled
                     else PodsStalled {| stall_site := Name s; stall_pod := ""; stall_reason := podVerdictReason (Err e);
                                         Rolled := false; Waited := 0; Next := next |}))
      | Some (Ok v) =>
          if Ready v then requirePodsReady sites next
          else Ret (Some (PodsStalled {| stall_site := Name s; stall_pod := Pod v; stall_reason := Reason v; Rolled := false;
                                         Waited := 0; Next := next |}))
      end
  end.

(** [rolloutError]. *)
Definition rolloutError (t : UpdateTarget) (incomplete : bool) : P rollout_error :=
  if negb (probes_pod t) then Ret (RolloutFailed incomplete)
  else
    let! canceled := call ContextErr in
    if (canceled : bool) || negb incomplete then Ret (RolloutFailed incomplete)
    else
      let! r := call (PodReady (Name t)) in
      Ret match r : res string PodReadiness with
          | Ok v =>
              if Ready v then RolloutFailed incomplete
              else RolloutStalled {| stall_site := Name t; stall_pod := Pod v; stall_reason := Reason v; Rolled := true; Waited := 0; Next := "" |}
          | Err _ => RolloutFailed incomplete
          end.

(** ** Waiting for a rolled site *)

(** [startReplica] through the gate; the error is dropped. *)
Definition startReplica (t : UpdateTarget) : P unit :=
  if gate_installed u then
    let! held := call (RestorePeerHeld (Name t)) in
    if held : bool then Ret tt else let! _ := call (StartReplica (Name t)) in Ret tt
  else let! _ := call (StartReplica (Name t)) in Ret tt.

(** The role's probe of [directReplicaReady], and the fence of a writable site: whether it
    is read-only now. *)
Definition read_only_now (site : string) : P bool :=
  let! ro := call (CheckReadOnly site) in
  match ro : option bool with
  | None => Ret false
  | Some true => Ret true
  | Some false =>
      let! ok := call (SetSuperReadOnly site true) in
      if ok : bool then call (SetReadOnly site true) else Ret false
  end.

Definition directReplicaReady (t : UpdateTarget) (expected : string) : P bool :=
  let! readOnly := read_only_now (Name t) in
  let! rs := call (ShowReplicaStatus (Name t)) in
  match rs : option (option ReplicaStatus) with
  | Some (Some r) =>
      if negb readOnly then Ret false
      else
        let here := bool_decide (canonical (SourceHost r) = canonical expected) in
        let running := IORunning r && SQLRunning r in
        let! _ := (if here && negb running then startReplica t else Ret tt) in
        Ret (running && here)
  | _ => Ret false
  end.

(** Consecutive failed probes, one per tick, that span the loss window. *)
Definition lossThreshold : Z :=
  if tickInterval u >? 0 then
    Z.max 2 (Z.quot (wrap64 (primaryLossWindow u + tickInterval u - 1)) (tickInterval u) + 1)
  else 2.

(** The primary's probe of one iteration: the new count of failures. *)
Definition watch_primary (primary : option string) (lost : Z) : P (res wait_error Z) :=
  match primary with
  | None => Ret (Ok lost)
  | Some p =>
      let! ro := call (CheckReadOnly p) in
      match ro : option bool with
      | Some _ => Ret (Ok 0)
      | None =>
          let! canceled := call ContextErr in
          Ret (if canceled : bool then Err WaitCanceled
               else if lost + 1 >=? lossThreshold then Err PrimaryLost else Ok (lost + 1))
      end
  end.

(** The wait's end at its deadline. *)
Definition wait_expired (t : UpdateTarget) (pod : option (res string PodReadiness)) (timeout : Z) : wait_error :=
  match pod with
  | Some r =>
      if pod_ok pod then WaitTimedOut
      else PodStalled {| stall_site := Name t; stall_pod := verdict_pod r; stall_reason := podVerdictReason r; Rolled := true;
                         Waited := timeout; Next := "" |}
  | None => WaitTimedOut
  end.

(** [waitForRolledSite]'s loop; [None] is success, [fuel] bounds the iterations. *)
Fixpoint wait_rolled (fuel : nat) (t : UpdateTarget) (expected : string) (primary : option string) (timeout deadline lost : Z)
  : P (option wait_error) :=
  match fuel with
  | O => Ret (Some WaitOutOfFuel)
  | S fuel =>
      let! replicating := directReplicaReady t expected in
      let! pod := probePod t in
      if replicating && pod_ok pod then Ret None
      else
        let! watched := watch_primary primary lost in
        match watched with
        | Err e => Ret (Some e)
        | Ok lost =>
            let! now := call Now in
            if now >? deadline then Ret (Some (wait_expired t pod timeout))
            else
              let! fired := call (TimerFired (tickInterval u)) in
              if fired : bool then wait_rolled fuel t expected primary timeout deadline lost else Ret (Some WaitCanceled)
        end
  end.

Definition waitForRolledSite (fuel : nat) (t : UpdateTarget) (expected : string) (primary : option string) (timeout : Z)
  : P (option wait_error) :=
  let! now := call Now in
  wait_rolled fuel t expected primary timeout (now + timeout) 0.

(** ** Followers *)

(** One drifted follower's turn: whether it was updated; [false], it keeps its drift. *)
Definition roll_follower (fuel : nat) (active : UpdateTarget) (f : UpdateTarget) (onTemplate : list UpdateTarget)
  : P (res update_error bool) :=
  let! direct := requireDirectReplica f in
  if negb direct then Ret (Ok false)
  else
    let! stalled := requirePodsReady onTemplate ("updating follower " +:+ Name f) in
    match stalled with
    | Some e => Ret (Err (PodsRefused e))
    | None =>
        let! _ := setPhase UpdatePhaseUpdateReplica in
        let! applied := call (ApplyUpdate (Name f)) in
        match applied : apply_answer with
        | ApplyFailed incomplete => let! e := rolloutError f incomplete in Ret (Err (FollowerNotUpdated (Name f) e))
        | Applied =>
            let! _ := setPhase UpdatePhaseWaitReplica in
            let! e := waitForRolledSite fuel f (ExpectedSource f) (Some (Name active)) (rolledSiteTimeout u) in
            Ret (match e with Some e => Err (FollowerNotReady (Name f) e) | None => Ok true end)
        end
    end.

(** The names processed so far, and the sites on the template or the error. *)
Fixpoint roll_followers (fuel : nat) (active : UpdateTarget) (l : list UpdateTarget) (processed : list string) (onTemplate : list UpdateTarget)
  : P (list string * res update_error (list UpdateTarget)) :=
  match l with
  | [] => Ret (processed, Ok onTemplate)
  | f :: l =>
      if negb (Drifted f) then roll_followers fuel active l processed onTemplate
      else
        let! r := roll_follower fuel active f onTemplate in
        match r with
        | Err e => Ret (processed, Err e)
        | Ok false => roll_followers fuel active l processed onTemplate
        | Ok true => roll_followers fuel active l (processed ++ [Name f]) (onTemplate ++ [f])
        end
  end.

(** ** The handoff's target *)

Definition divergentStandbyMessage (t : UpdateTarget) : string :=
  Name t +:+ " is divergent (" +:+ FormatInt (DivergentTransactions t)
    +:+ " transactions the primary lacks); reclone or reconcile before the active site can be updated".

(** Standbys passed over, by reason. *)
Record blocked : Type := {
  rotatingStandby : list string;
  pendingStandby : list string;
  divergentStandby : list string;
  liveBlocked : list string
}.

#[local] Instance blocked_eta : Eta blocked := fun b => Build_blocked (rotatingStandby b) (pendingStandby b) (divergentStandby b) (liveBlocked b).

(** The live question, when the target has one. *)
Definition live_refusal (t : UpdateTarget) : P (option string) := if asks_block t then call (HandoffBlocked (Name t)) else Ret None.

(** The first eligible standby. *)
Fixpoint choose_handoff (processed : list string) (b : blocked) (l : list UpdateTarget) : P (blocked * option UpdateTarget) :=
  match l with
  | [] => Ret (b, None)
  | f :: l =>
      if negb (Promotable f) then choose_handoff processed b l
      else if RotationBlocked f then choose_handoff processed (b <| rotatingStandby := rotatingStandby b ++ [Name f] |>) l
      else if ReclonePending f then choose_handoff processed (b <| pendingStandby := pendingStandby b ++ [Name f] |>) l
      else if DivergenceBlocked f then choose_handoff processed (b <| divergentStandby := divergentStandby b ++ [divergentStandbyMessage f] |>) l
      else
        let! refusal := live_refusal f in
        match refusal with
        | Some why => choose_handoff processed (b <| liveBlocked := liveBlocked b ++ [why] |>) l
        | None =>
            if Drifted f && negb (bool_decide (Name f ∈ processed)) then choose_handoff processed b l
            else
              let! direct := requireDirectReplica f in
              if direct : bool then Ret (b, Some f) else choose_handoff processed b l
        end
  end.

Definition no_standby (b : blocked) : string :=
  "no healthy promotable standby available for active-site update" +:+
  (if nonempty (rotatingStandby b) then
     ": " +:+ Join ", " (rotatingStandby b) +:+ " mid-keyring-rotation (UnsealReason=Rotation); finish the rotation before this site can be promoted"
   else if nonempty (pendingStandby b) then
     ": " +:+ Join ", " (pendingStandby b) +:+ " pending post-restore reclone; wait for status.restoreReclones to drain"
   else if nonempty (divergentStandby b) then ": " +:+ Join "; " (divergentStandby b)
   else if nonempty (liveBlocked b) then ": " +:+ Join "; " (liveBlocked b)
   else "").

(** ** The handoff *)

Definition handoffOptions : Failover.HandoffOptions :=
  let o := handoff u in
  {| Failover.PreFenceCatchUp := Failover.PreFenceCatchUp o; Failover.CatchUp := Failover.CatchUp o; Failover.PollInterval := Failover.PollInterval o;
     Failover.SourceLossWindow := if Failover.SourceLossWindow o <=? 0 then primaryLossWindow u else Failover.SourceLossWindow o;
     Failover.RestoreHost := Failover.RestoreHost o |}.

(** The options with the candidate's channel to restore. *)
Definition restoring (host : string) : Failover.HandoffOptions :=
  let o := handoffOptions in
  {| Failover.PreFenceCatchUp := Failover.PreFenceCatchUp o; Failover.CatchUp := Failover.CatchUp o; Failover.PollInterval := Failover.PollInterval o;
     Failover.SourceLossWindow := Failover.SourceLossWindow o; Failover.RestoreHost := host |}.

Definition handoffWritableProbeAttempts : nat := 3.

(** The probes of [handoffCandidateWritable]; [again]: not the first. *)
Fixpoint probe_writable (attempts : nat) (again : bool) (candidate : string) : P bool :=
  match attempts with
  | O => Ret false
  | S attempts =>
      let! _ := (if again then call (Sleep (Failover.PollInterval (Failover.withDefaults handoffOptions))) else Ret tt) in
      let! ro := call (CheckReadOnly candidate) in
      match ro : option bool with
      | Some ro => Ret (negb ro)
      | None => probe_writable attempts true candidate
      end
  end.

Definition handoffCandidateWritable (candidate : string) : P bool := probe_writable handoffWritableProbeAttempts false candidate.

Definition onPromoted (site gtid : string) : P unit := if records_promotion u then call (OnPromoted site gtid) else Ret tt.

(** The handoff and its record: [None], the standby is the confirmed primary. *)
Definition hand_off (fuel : nat) (active standby : UpdateTarget) : P (option update_error) :=
  let! _ := setPhase UpdatePhaseFailover in
  let! r := in_handoff (Name active) (Name standby) (Failover.ExecuteHandoff fuel (restoring (ExpectedSource standby))) in
  match r with
  | Err e =>
      let! _ :=
        match e with
        | Failover.HandoffWriteAttempted gtid _ =>
            if records_promotion u then
              let! writable := handoffCandidateWritable (Name standby) in
              if writable : bool then onPromoted (Name standby) gtid else Ret tt
            else Ret tt
        | _ => Ret tt
        end in
      Ret (Some (HandoffFailed e))
  | Ok gtid =>
      let! _ := onPromoted (Name standby) gtid in
      let! ro := call (CheckReadOnly (Name standby)) in
      Ret match ro : option bool with Some false => None | _ => Some (NotWritable (Name standby)) end
  end.

(** ** The old active *)

Definition readGTIDSet (site : string) : P (option GTIDSet) :=
  let! raw := call (GetGtidExecuted site) in
  Ret match raw : option string with
      | Some raw => match ParseGTIDSet raw with Ok set => Some set | Err _ => None end
      | None => None
      end.

Definition requireOldActiveContained (active standby : string) : P (option contain_error) :=
  let! ok := call (SetSuperReadOnly active true) in
  if negb ok then Ret (Some OldNotFenced)
  else
    let! old := readGTIDSet active in
    match old with
    | None => Ret (Some OldUnreadable)
    | Some old =>
        let! new := readGTIDSet standby in
        Ret match new with
            | None => Some NewUnreadable
            | Some new =>
                let extra := Subtract old new in
                if IsEmpty extra then None else Some (OldDivergent extra)
            end
    end.

(** [recovery.go]: its statements, up to the first that fails. *)
Definition RecoverOldPrimary (old newHost : string) : P bool :=
  let! ok := call (SetSuperReadOnly old true) in
  if negb ok then Ret false
  else
    let! ok := call (StopReplica old) in
    if negb ok then Ret false
    else
      let! ok := call (ResetReplicaAll old) in
      if negb ok then Ret false
      else
        let! ok := call (ChangeReplicationSource old newHost) in
        if negb ok then Ret false else call (StartReplica old).

(** The old active on the new template, a replica of the standby. *)
Definition update_old_active (fuel : nat) (active standby : UpdateTarget) : P (option update_error) :=
  let! _ := setPhase UpdatePhaseUpdateOldPrimary in
  let! applied := call (ApplyUpdate (Name active)) in
  match applied : apply_answer with
  | ApplyFailed incomplete => let! e := rolloutError active incomplete in Ret (Some (ActiveNotUpdated (Name active) e))
  | Applied =>
      let! refused := requireOldActiveContained (Name active) (Name standby) in
      match refused with
      | Some e => Ret (Some (OldRefused e))
      | None =>
          let! ok := RecoverOldPrimary (Name active) (Host standby) in
          if negb ok then Ret (Some OldNotConfigured)
          else
            let! _ := setPhase UpdatePhaseWaitOldPrimary in
            let! e := waitForRolledSite fuel active (Host standby) (Some (Name standby)) (rolledSiteTimeout u) in
            Ret (OldNotReady <$> e)
      end
  end.

(** ** The update *)

(** The active site's turn. *)
Definition update_active (fuel : nat) (active : UpdateTarget) (followers : list UpdateTarget) (processed : list string) (onTemplate : list UpdateTarget)
  : P (option update_error) :=
  let! stalled := requirePodsReady onTemplate ("handing off the active site " +:+ Name active) in
  match stalled with
  | Some e => Ret (Some (PodsRefused e))
  | None =>
      let! chosen := choose_handoff processed {| rotatingStandby := []; pendingStandby := []; divergentStandby := []; liveBlocked := [] |} followers in
      match chosen with
      | (b, None) => Ret (Some (NoStandby (no_standby b)))
      | (_, Some standby) =>
          if bool_decide (Host standby = "") then Ret (Some (NoHost (Name standby)))
          else
            let! e := hand_off fuel active standby in
            match e with
            | Some e => Ret (Some e)
            | None => update_old_active fuel active standby
            end
      end
  end.

(** The update past its test and set: the sites processed and the error. *)
Definition update_sites (fuel : nat) (active : UpdateTarget) (followers : list UpdateTarget) : P (list string * option update_error) :=
  let! rolled := roll_followers fuel active followers [] (sitesOnTemplate active followers) in
  match rolled with
  | (processed, Err e) => Ret (processed, Some e)
  | (processed, Ok onTemplate) =>
      if negb (Drifted active) then let! _ := setPhase UpdatePhaseComplete in Ret (processed, None)
      else
        let! e := update_active fuel active followers processed onTemplate in
        match e with
        | Some e => Ret (processed, Some e)
        | None => let! _ := setPhase UpdatePhaseComplete in Ret (processed ++ [Name active], None)
        end
  end.

Definition ExecuteTargets (fuel : nat) (active : UpdateTarget) (followers : list UpdateTarget) : P (list string * option update_error) :=
  let! mine := begin_update in
  if negb mine then Ret ([], Some InProgress)
  else
    let! r := update_sites fuel active followers in
    let! _ := end_update in
    Ret r.

(** [requireUpdatedPodsReady], before the update is claimed. *)
Definition requireUpdatedPodsReady (active : UpdateTarget) (followers : list UpdateTarget) : P (option pods_error) :=
  requirePodsReady (sitesOnTemplate active followers) "rolling another site".

End controller.

End Updater.
