(* ===== verification/UpdaterProofs.v ===== *)
(** * The ordered rolling update: what is seen before each step

    Conditions on the calls of one [ExecuteTargets], under which it rolls a site, hands the
    active site off, and repoints the old active. *)
From S2P Require Import Prelude GoStd Intervals GtidSet Effects Failover FacadeSteps PodReadiness Protocol Updater.

Local Open Scope Z_scope.

#[local] Arguments prog_bind {Op Ans A B} _ _ : simpl never.

Import GTID Pods Updater.

(** ** Calls of a run *)

Definition made (h : list (event ans)) (o : op) (x : ans o) : Prop := ev o x ∈ h.

Lemma made_before h t o x : made h o x -> made (h ++ t) o x.
Proof. intros H. apply elem_of_app. by left. Qed.

Lemma made_after h t o x : made t o x -> made (h ++ t) o x.
Proof. intros H. apply elem_of_app. by right. Qed.

Lemma made_now h o x : made (h ++ [ev o x]) o x.
Proof. apply made_after. left. Qed.

(** Calls that change a site's Deployment, or belong to a handoff. *)
Definition rolls (o : op) : bool := match o with ApplyUpdate _ => true | _ => false end.

Definition hands_off (o : op) : bool := match o with InHandoff _ _ _ => true | _ => false end.

Definition without (f : op -> bool) (t : list (event ans)) : Prop := Forall (fun e => f (projT1 e) = false) t.

(** The handoff's calls, as the update makes them. *)
Definition lifted (a c : string) (t : list (event Failover.ans)) : list (event ans) :=
  map (fun e => ev (Ans := ans) (InHandoff a c (projT1 e)) (projT2 e)) t.

Lemma in_handoff_runs {A} a c (p : prog Failover.ans A) tr r : runs (in_handoff a c p) tr r <-> exists t, tr = lifted a c t /\ runs p t r.
Proof.
  revert tr. induction p as [x|o k IH]; intros tr; cbn [in_handoff].
  - rewrite runs_Ret_iff. split; [intros [-> ->]; exists []; split; [done|constructor]|]. by intros (t & -> & [-> ->]%runs_Ret_iff).
  - rewrite runs_Vis_iff. setoid_rewrite IH. split.
    + intros (x & tr' & -> & t & -> & H). exists (ev o x :: t). split; [done|]. by constructor.
    + intros (t & -> & (x & t' & -> & H)%runs_Vis_iff). exists x, (lifted a c t'). split; [done|]. by exists t'.
Qed.

Lemma lifted_ops a c t : Forall (fun e => exists o, projT1 e = InHandoff a c o) (lifted a c t).
Proof. apply Forall_map, Forall_true. intros e. by eexists. Qed.

Section update.

Context (u : UpdateController) (unicode_lower : string -> string) (fuel : nat).
Context (active : UpdateTarget) (followers : list UpdateTarget).

#[local] Abbreviation canonical := (FacadeSteps.Ops.canonicalSourceHost unicode_lower).

(** ** Evidence *)

(** A read-only replica, its threads running against [source]. *)
Definition direct_status (source : string) (r : ReplicaStatus) : Prop :=
  IORunning r = true /\ SQLRunning r = true /\ canonical (SourceHost r) = canonical source.

Definition direct_seen (f : UpdateTarget) (h : list (event ans)) : Prop :=
  made h (CheckReadOnly (Name f)) (Some true)
  /\ exists r, made h (ShowReplicaStatus (Name f)) (Some (Some r)) /\ direct_status (ExpectedSource f) r.

(** Its probe, if it has one, reported the pod Ready. *)
Definition pod_seen (t : UpdateTarget) (h : list (event ans)) : Prop :=
  probes_pod t = true -> exists v, made h (PodReady (Name t)) (Ok v) /\ Ready v = true.

(** The site answered read-only, or was writable and fenced. *)
Definition fenced_or_read_only (s : string) (h : list (event ans)) : Prop :=
  made h (CheckReadOnly s) (Some true)
  \/ made h (CheckReadOnly s) (Some false) /\ made h (SetSuperReadOnly s true) true /\ made h (SetReadOnly s true) true.

(** A rolled site replicates from [source] again and its pod is Ready. *)
Definition caught_up (t : UpdateTarget) (source : string) (h : list (event ans)) : Prop :=
  fenced_or_read_only (Name t) h
  /\ (exists r, made h (ShowReplicaStatus (Name t)) (Some (Some r)) /\ direct_status source r)
  /\ pod_seen t h.

(** Each site rolled so far is a drifted follower that was applied and has caught up since. *)
Definition rolled_ok (h : list (event ans)) : Prop :=
  forall h1 s x h2, h = h1 ++ ev (ApplyUpdate s) x :: h2 ->
    x = Applied /\ exists f, f ∈ followers /\ Name f = s /\ Drifted f = true /\ caught_up f (ExpectedSource f) h2.

(** The sites that run the new template after [h]. *)
Definition on_template (h : list (event ans)) (t : UpdateTarget) : Prop :=
  t ∈ active :: followers /\ (Drifted t = false \/ made h (ApplyUpdate (Name t)) Applied).

(** Since the last rollout, which left every rolled site caught up, every site on the
    template was seen with a Ready pod. *)
Definition pods_checked (h1 h2 : list (event ans)) : Prop :=
  without rolls h2 /\ without hands_off h2 /\ rolled_ok (h1 ++ h2) /\ forall t, on_template h1 t -> pod_seen t h2.

(** A follower's rollout. *)
Definition follower_turn (h : list (event ans)) (s : string) : Prop :=
  exists f h1 h2, f ∈ followers /\ Name f = s /\ Drifted f = true
    /\ h = h1 ++ h2 /\ pods_checked h1 h2 /\ without hands_off h1 /\ direct_seen f h2.

(** A standby that may take the active site's role, as checked in [h2]. *)
Definition eligible (f : UpdateTarget) (h1 h2 : list (event ans)) : Prop :=
  f ∈ followers /\ Promotable f = true /\ RotationBlocked f = false /\ ReclonePending f = false /\ DivergenceBlocked f = false
  /\ Host f <> ""
  /\ (asks_block f = true -> made h2 (HandoffBlocked (Name f)) None)
  /\ (Drifted f = true -> made h1 (ApplyUpdate (Name f)) Applied)
  /\ direct_seen f h2.

(** The handoff may begin, [h1 ++ h2] made. *)
Definition handoff_ready (f : UpdateTarget) (h1 h2 : list (event ans)) : Prop :=
  Drifted active = true /\ pods_checked h1 h2 /\ without hands_off h1 /\ eligible f h1 h2.

Definition the_handoff (f : UpdateTarget) : prog Failover.ans (res Failover.handoff_error string) :=
  Failover.ExecuteHandoff fuel (restoring u (ExpectedSource f)).

(** [t] is the handoff's run, with its result. *)
Definition handed (f : UpdateTarget) (h : list (event ans)) (t : list (event Failover.ans)) (r : res Failover.handoff_error string) (h3 : list (event ans)) : Prop :=
  exists h1 h2, h = h1 ++ h2 ++ lifted (Name active) (Name f) t ++ h3 /\ handoff_ready f h1 h2 /\ runs (the_handoff f) t r /\ without hands_off h3.

(** The handoff succeeded, was recorded, and the standby answered that it is writable. *)
Definition standby_primary (f : UpdateTarget) (h : list (event ans)) : Prop :=
  exists t gtid h3, handed f h t (Ok gtid) h3
    /\ (records_promotion u = true -> made h3 (OnPromoted (Name f) gtid) tt)
    /\ made h3 (CheckReadOnly (Name f)) (Some false).

(** The old active, on the new template, was fenced, and the standby holds all it holds. *)
Definition old_contained (f : UpdateTarget) (h : list (event ans)) : Prop :=
  exists h1 x h2 rawA rawS old new, h = h1 ++ ev (ApplyUpdate (Name active)) x :: h2 /\ x = Applied
    /\ made h2 (SetSuperReadOnly (Name active) true) true
    /\ made h2 (GetGtidExecuted (Name active)) (Some rawA) /\ ParseGTIDSet rawA = Ok old
    /\ made h2 (GetGtidExecuted (Name f)) (Some rawS) /\ ParseGTIDSet rawS = Ok new
    /\ IsEmpty (Subtract old new) = true.

(** When the update may make the call. *)
Definition guarded (h : list (event ans)) (o : op) : Prop :=
  match o with
  | ApplyUpdate s => follower_turn h s \/ s = Name active /\ Drifted active = true /\ exists f, standby_primary f h
  | InHandoff a c _ => a = Name active /\ exists f h1 h2 t, Name f = c /\ h = h1 ++ h2 ++ lifted a c t /\ handoff_ready f h1 h2
  | OnPromoted c gtid => exists f t r h3, Name f = c /\ handed f h t r h3
      /\ (r = Ok gtid \/ (exists e, r = Err (Failover.HandoffWriteAttempted gtid e)) /\ made h3 (CheckReadOnly c) (Some false))
  | SetSuperReadOnly _ on | SetReadOnly _ on => on = true
  | StopReplica s | ResetReplicaAll s => s = Name active /\ exists f, standby_primary f h /\ old_contained f h
  | ChangeReplicationSource s host => s = Name active /\ exists f, host = Host f /\ standby_primary f h /\ old_contained f h
  | StartReplica s => made h (ApplyUpdate s) Applied
      /\ (made h (RestorePeerHeld s) false \/ gate_installed u = false \/ exists host, made h (ChangeReplicationSource s host) true)
  | _ => True
  end.

(** A name reported as processed: the site was applied, and caught up with its source. *)
Definition done_site (h : list (event ans)) (s : string) : Prop :=
  exists t source h1 h2, t ∈ active :: followers /\ Name t = s
    /\ h = h1 ++ ev (ApplyUpdate s) Applied :: h2 /\ caught_up t source h2
    /\ (source = ExpectedSource t \/ t = active /\ exists f, source = Host f /\ standby_primary f h1).

#[local] Abbreviation gw := (cwp guarded).

#[local] Hint Resolve made_before made_after made_now : core.

(** ** Evidence stays *)

Lemma without_app f h t : without f (h ++ t) <-> without f h /\ without f t.
Proof using. apply Forall_app. Qed.

Lemma direct_seen_l f h t : direct_seen f h -> direct_seen f (h ++ t).
Proof using. intros (H & r & Hr & Hd). split; [auto|]. exists r. auto. Qed.

Lemma direct_seen_r f h t : direct_seen f t -> direct_seen f (h ++ t).
Proof using. intros (H & r & Hr & Hd). split; [auto|]. exists r. auto. Qed.

Lemma pod_seen_l f h t : pod_seen f h -> pod_seen f (h ++ t).
Proof using. intros H Hp. destruct (H Hp) as (v & Hv & Hr). exists v. auto. Qed.

Lemma pod_seen_r f h t : pod_seen f t -> pod_seen f (h ++ t).
Proof using. intros H Hp. destruct (H Hp) as (v & Hv & Hr). exists v. auto. Qed.

#[local] Hint Resolve direct_seen_l direct_seen_r pod_seen_l pod_seen_r : core.

Lemma caught_up_l f src h t : caught_up f src h -> caught_up f src (h ++ t).
Proof using.
  intros (H1 & (r & Hr & Hd) & H3). split; [destruct H1 as [H1|(H1 & H2 & H4)]; [left|right]; auto|]. split; [|auto].
  exists r. auto.
Qed.

Lemma caught_up_r f src h t : caught_up f src t -> caught_up f src (h ++ t).
Proof using.
  intros (H1 & (r & Hr & Hd) & H3). split; [destruct H1 as [H1|(H1 & H2 & H4)]; [left|right]; auto|]. split; [|auto].
  exists r. auto.
Qed.

#[local] Hint Resolve caught_up_l caught_up_r : core.

(** Where an event of a concatenation is. *)
Lemma split_cases {A} (h1 h2 a b : list A) e : h1 ++ e :: h2 = a ++ b ->
  (exists c, a = h1 ++ e :: c /\ h2 = c ++ b) \/ (exists c, b = c ++ e :: h2 /\ h1 = a ++ c).
Proof using.
  intros H. apply app_eq_app in H as [k [[-> H]|[-> H]]].
  - right. exists k. done.
  - destruct k as [|x k]; [right; exists []; rewrite !app_nil_r; by split|]. left. injection H as -> ->. by exists k.
Qed.

Lemma rolled_ok_app h t : without rolls t -> rolled_ok h -> rolled_ok (h ++ t).
Proof using.
  intros Ht Hr h1 s x h2 E. symmetry in E. apply split_cases in E as [(c & -> & ->)|(c & -> & ->)].
  - destruct (Hr h1 s x c eq_refl) as (Hx & f & Hf & Hn & Hd & Hc). split; [done|]. exists f. auto.
  - apply Forall_app in Ht as [_ Ht]. by apply Forall_cons in Ht as [? _].
Qed.

Lemma rolled_ok_roll h f t : f ∈ followers -> Drifted f = true -> without rolls t -> caught_up f (ExpectedSource f) t ->
  rolled_ok h -> rolled_ok (h ++ ev (ApplyUpdate (Name f)) Applied :: t).
Proof using.
  intros Hf Hd Ht Hc Hr h1 s x h2 E. symmetry in E. apply split_cases in E as [(c & -> & ->)|(c & E & ->)].
  - destruct (Hr h1 s x c eq_refl) as (Hx & f' & Hf' & Hn & Hd' & Hc'). split; [done|]. exists f'. auto.
  - destruct c as [|e c].
    + apply cons_eq_inj in E as [Ee <-]. pose proof (ev_op _ _ _ _ Ee) as Eo. injection Eo as <-. apply (ev_inj (ApplyUpdate (Name f))) in Ee as <-.
      split; [done|]. by exists f.
    + apply cons_eq_inj in E as [_ ->]. apply Forall_app in Ht as [_ Ht]. by apply Forall_cons in Ht as [? _].
Qed.

Lemma handed_l f h t r h3 h' : without hands_off h' -> handed f h t r h3 -> handed f (h ++ h') t r (h3 ++ h').
Proof using.
  intros Hh (h1 & h2 & -> & Hr & Ht & H3). exists h1, h2. rewrite <- !(assoc_L (++)). split; [done|]. split; [done|]. split; [done|].
  by apply without_app.
Qed.

Lemma standby_primary_l f h h' : without hands_off h' -> standby_primary f h -> standby_primary f (h ++ h').
Proof using.
  intros Hh (t & gtid & h3 & H & Hp & Hw). exists t, gtid, (h3 ++ h'). split; [by apply handed_l|]. split; [|auto]. intros Hr. auto.
Qed.

Lemma old_contained_l f h h' : old_contained f h -> old_contained f (h ++ h').
Proof using.
  intros (h1 & x & h2 & rawA & rawS & old & new & -> & Hx & H1 & H2 & H3 & H4 & H5 & H6).
  exists h1, x, (h2 ++ h'), rawA, rawS, old, new. rewrite <- (assoc_L (++)). split; [done|]. auto 10.
Qed.

Lemma done_site_l h s t : done_site h s -> done_site (h ++ t) s.
Proof using.
  intros (f & src & h1 & h2 & Hf & Hn & -> & Hc & Hs). exists f, src, h1, (h2 ++ t). rewrite <- (assoc_L (++)). split; [done|]. split; [done|].
  split; [done|]. split; [auto|done].
Qed.

Lemma done_site_made h s : done_site h s -> made h (ApplyUpdate s) Applied.
Proof using. intros (f & src & h1 & h2 & _ & _ & -> & _). apply made_after. left. Qed.

(** ** Calls that need no condition *)

Definition harmless (o : op) : bool :=
  match o with
  | ApplyUpdate _ | InHandoff _ _ _ | OnPromoted _ _ | StopReplica _ | ResetReplicaAll _ | ChangeReplicationSource _ _ | StartReplica _ => false
  | SetSuperReadOnly _ on | SetReadOnly _ on => on
  | _ => true
  end.

Lemma harmless_guarded h o : harmless o = true -> guarded h o.
Proof using. by destruct o. Qed.

Lemma harmless_calm o : harmless o = true -> rolls o = false /\ hands_off o = false.
Proof using. by destruct o. Qed.

Lemma harmless_without t : Forall (fun e => harmless (projT1 e) = true) t -> without rolls t /\ without hands_off t.
Proof using. intros H. split; (eapply Forall_impl; [exact H|]; intros e He; by apply harmless_calm in He as []). Qed.

Lemma gw_step o h (Q : list (event ans) -> ans o -> Prop) : guarded h o -> (forall x, Q (h ++ [ev o x]) x) -> gw (call o) h Q.
Proof using. intros Ho H. split; [done|]. exact H. Qed.

(** A harmless program: what its runs establish. *)
Lemma gw_harmless {A} (p : P A) h (Q : list (event ans) -> A -> Prop) : frees harmless p ->
  (forall t a, runs p t a -> without rolls t -> without hands_off t -> Q (h ++ t) a) -> gw p h Q.
Proof using.
  intros Hp HQ. eapply (cwp_runs _ harmless); [apply harmless_guarded|done|]. intros t a H.
  destruct (harmless_without _ (frees_runs _ _ _ _ Hp H)) as [H1 H2]. by apply HQ.
Qed.

(** Guards, with what the runs establish. *)
Lemma gw_with {A} (p : P A) (R : list (event ans) -> A -> Prop) : forall h, gw p h (fun _ _ => True) ->
  (forall t a, runs p t a -> R t a) -> gw p h (fun h' a => exists t, h' = h ++ t /\ R t a).
Proof using.
  revert R. induction p as [x|o k IH]; intros R h Hp HR.
  - exists []. rewrite app_nil_r. split; [done|]. apply HR. constructor.
  - destruct Hp as [Ho Hk]. split; [done|]. intros x. eapply cwp_mono.
    + apply (IH x (fun t a => R (ev o x :: t) a)); [apply Hk|]. intros t a H. apply HR. by constructor.
    + cbn beta. intros h' a (t & -> & Ht). exists (ev o x :: t). by rewrite <- (assoc_L (++)).
Qed.

#[local] Ltac harmless :=
  repeat match goal with
  | |- frees _ (Ret _) => exact I
  | |- frees _ (call _) => split; [reflexivity|intros ?; exact I]
  | |- frees _ (prog_bind _ _) => apply frees_bind; [|intros ?]
  | |- frees _ (match ?x with _ => _ end) => destruct x
  | |- frees _ _ => assumption
  end.

Lemma frees_set_phase p : frees harmless (setPhase p).
Proof using. unfold setPhase. harmless. Qed.

Lemma frees_probe t : frees harmless (probePod t).
Proof using. unfold probePod. harmless. Qed.

Lemma frees_direct t : frees harmless (requireDirectReplica unicode_lower t).
Proof using. unfold requireDirectReplica. harmless. Qed.

Lemma frees_pods sites next : frees harmless (requirePodsReady sites next).
Proof using. pose proof frees_probe. induction sites as [|s sites IH]; cbn [requirePodsReady]; harmless; auto. Qed.

Lemma frees_rollout t b : frees harmless (rolloutError t b).
Proof using. unfold rolloutError. harmless. Qed.

Lemma frees_choose processed l : forall b, frees harmless (choose_handoff unicode_lower processed b l).
Proof using.
  pose proof frees_direct. induction l as [|f l IH]; intros b; cbn [choose_handoff]; unfold live_refusal; harmless; auto.
Qed.

Lemma frees_writable c : frees harmless (handoffCandidateWritable u c).
Proof using. unfold handoffCandidateWritable. generalize false. induction handoffWritableProbeAttempts as [|n IH]; intros b; cbn [probe_writable]; harmless; auto. Qed.

(** ** What the probes establish *)

Lemma direct_runs f t : runs (requireDirectReplica unicode_lower f) t true -> direct_seen f t.
Proof using.
  unfold requireDirectReplica. intros H. apply (runs_bind_iff (call (CheckReadOnly (Name f)))) in H as (t1 & ro & t2 & -> & ->%runs_call_iff & H).
  destruct ro as [[]|]; [|by apply runs_Ret_iff in H as [_ ?]..].
  apply (runs_bind_iff (call (ShowReplicaStatus (Name f)))) in H as (t3 & rs & t4 & -> & ->%runs_call_iff & [-> E]%runs_Ret_iff).
  destruct rs as [[r|]|]; [|done..]. symmetry in E. apply andb_true_iff in E as [[E1 E2]%andb_true_iff E3%bool_decide_eq_true].
  split; [left|]. exists r. split; [right; left|done].
Qed.

Lemma probe_runs f t r : runs (probePod f) t r -> (r = None /\ probes_pod f = false) \/ exists x, r = Some x /\ t = [ev (PodReady (Name f)) x] /\ probes_pod f = true.
Proof using.
  unfold probePod. intros H. destruct (probes_pod f).
  - right. apply (runs_bind_iff (call (PodReady (Name f)))) in H as (t1 & x & t2 & -> & ->%runs_call_iff & [-> ->]%runs_Ret_iff). by exists x.
  - left. by apply runs_Ret_iff in H as [_ ->].
Qed.

Lemma pods_runs sites next t : runs (requirePodsReady sites next) t None -> forall s, s ∈ sites -> pod_seen s t.
Proof using.
  revert t. induction sites as [|s sites IH]; intros t H; [by intros s ?%not_elem_of_nil|]. cbn [requirePodsReady] in H.
  apply runs_bind_iff in H as (t1 & r & t2 & -> & H1 & H).
  assert (runs (requirePodsReady sites next) t2 None /\ pod_seen s t1) as [H2 Hs].
  { apply probe_runs in H1 as [[-> Hp]|(x & -> & -> & Hp)]; [split; [done|]; intros ?; congruence|]. destruct x as [v|e].
    - destruct (Ready v) eqn:Ev; [|by apply runs_Ret_iff in H as [_ ?]]. split; [done|]. intros _. exists v. split; [left|done].
    - by apply (runs_bind_iff (call ContextErr)) in H as (t3 & c & t4 & -> & _ & [_ ?]%runs_Ret_iff). }
  intros x [->|Hx]%elem_of_cons; [auto|]. apply pod_seen_r. by eapply IH.
Qed.

(** The standby chosen. *)
Definition picked (processed : list string) (l : list UpdateTarget) (f : UpdateTarget) (t : list (event ans)) : Prop :=
  f ∈ l /\ Promotable f = true /\ RotationBlocked f = false /\ ReclonePending f = false /\ DivergenceBlocked f = false
  /\ (asks_block f = true -> made t (HandoffBlocked (Name f)) None) /\ (Drifted f = true -> Name f ∈ processed) /\ direct_seen f t.

Lemma picked_next processed g l f t0 t : picked processed l f t -> picked processed (g :: l) f (t0 ++ t).
Proof using.
  intros (H1 & H2 & H3 & H4 & H5 & H6 & H7 & H8). split; [by right|]. repeat (split; [done|]). split; [auto|]. split; [done|auto].
Qed.

Lemma choose_handoff_runs processed l b t b' f : runs (choose_handoff unicode_lower processed b l) t (b', Some f) -> picked processed l f t.
Proof using.
  revert b t. induction l as [|g l IH]; intros b t H; cbn [choose_handoff] in H; [by apply runs_Ret_iff in H as [_ ?]|].
  assert (forall b t0 t, runs (choose_handoff unicode_lower processed b l) t (b', Some f) -> picked processed (g :: l) f (t0 ++ t)) as Hnext
    by (intros b0 t0 t1 H0%IH; by apply picked_next).
  destruct (Promotable g) eqn:E1; [|by apply (Hnext _ [] _ H)]. destruct (RotationBlocked g) eqn:E2; [by apply (Hnext _ [] _ H)|].
  destruct (ReclonePending g) eqn:E3; [by apply (Hnext _ [] _ H)|]. destruct (DivergenceBlocked g) eqn:E4; [by apply (Hnext _ [] _ H)|]. cbn [negb] in H.
  apply runs_bind_iff in H as (t1 & refusal & t2 & -> & H1 & H). destruct refusal as [why|]; [by eapply Hnext|].
  destruct (Drifted g && negb (bool_decide (Name g ∈ processed))) eqn:E5; [by eapply Hnext|].
  apply runs_bind_iff in H as (t3 & direct & t4 & -> & H3 & H). destruct direct; [|rewrite (assoc_L (++)); by eapply Hnext].
  apply runs_Ret_iff in H as [-> [= -> ->]]. apply direct_runs in H3. split; [left|]. repeat (split; [done|]). split.
  - intros Ha. unfold live_refusal in H1. rewrite Ha in H1. apply (runs_call_iff (Ans := ans) (HandoffBlocked (Name g))) in H1 as ->. apply made_before. left.
  - split; [|auto]. intros Hd. rewrite Hd in E5. by apply negb_false_iff, bool_decide_eq_true in E5.
Qed.

(** ** Waiting *)

(** Calls a wait makes. *)
Definition waits (o : op) : bool := harmless o || match o with StartReplica _ => true | _ => false end.

Lemma waits_without t : Forall (fun e => waits (projT1 e) = true) t -> without rolls t /\ without hands_off t.
Proof using. intros H. split; (eapply Forall_impl; [exact H|]; intros [[] ?]; done). Qed.

Lemma frees_wait_start t : frees waits (startReplica u t).
Proof using. unfold startReplica. harmless. Qed.

Lemma frees_ready t expected : frees waits (directReplicaReady u unicode_lower t expected).
Proof using. pose proof frees_wait_start. unfold directReplicaReady, read_only_now. harmless. all: auto. Qed.

Lemma frees_loop n t expected primary timeout deadline : forall lost, frees waits (wait_rolled u unicode_lower n t expected primary timeout deadline lost).
Proof using.
  pose proof frees_ready. induction n as [|n IH]; intros lost; cbn [wait_rolled]; unfold probePod, watch_primary; harmless; auto.
Qed.

Lemma frees_wait n t expected primary timeout : frees waits (waitForRolledSite u unicode_lower n t expected primary timeout).
Proof using. pose proof frees_loop. unfold waitForRolledSite. harmless. auto. Qed.

Lemma read_only_runs s t : runs (read_only_now s) t true -> fenced_or_read_only s t.
Proof using.
  unfold read_only_now. intros H. apply (runs_bind_iff (call (CheckReadOnly s))) in H as (t1 & ro & t2 & -> & ->%runs_call_iff & H).
  destruct ro as [[]|]; [left; left| |by apply runs_Ret_iff in H as [_ ?]].
  apply (runs_bind_iff (call (SetSuperReadOnly s true))) in H as (t3 & ok & t4 & -> & ->%runs_call_iff & H).
  destruct ok; [|by apply runs_Ret_iff in H as [_ ?]]. apply (runs_call_iff (Ans := ans) (SetReadOnly s true)) in H as ->. right. split; [left|]. split; [right; left|]. right. right. left.
Qed.

Lemma ready_runs f expected t : runs (directReplicaReady u unicode_lower f expected) t true ->
  fenced_or_read_only (Name f) t /\ exists r, made t (ShowReplicaStatus (Name f)) (Some (Some r)) /\ direct_status expected r.
Proof using.
  unfold directReplicaReady. intros H. apply runs_bind_iff in H as (t1 & ro & t2 & -> & H1 & H).
  apply (runs_bind_iff (call (ShowReplicaStatus (Name f)))) in H as (t3 & rs & t4 & -> & ->%runs_call_iff & H).
  destruct rs as [[r|]|]; [|by apply runs_Ret_iff in H as [_ ?]..]. destruct ro; cbn [negb] in H; [|by apply runs_Ret_iff in H as [_ ?]].
  apply runs_bind_iff in H as (t5 & [] & t6 & -> & _ & [-> E]%runs_Ret_iff). symmetry in E.
  apply andb_true_iff in E as [[E1 E2]%andb_true_iff E3%bool_decide_eq_true]. apply read_only_runs in H1. split.
  - destruct H1 as [H1|(H1 & H2 & H3)]; [left|right]; auto.
  - exists r. split; [apply made_after, made_before; left|done].
Qed.

Lemma loop_runs n f expected primary timeout deadline lost t :
  runs (wait_rolled u unicode_lower n f expected primary timeout deadline lost) t None -> caught_up f expected t.
Proof using.
  revert lost t. induction n as [|n IH]; intros lost t H; cbn [wait_rolled] in H; [by apply runs_Ret_iff in H as [_ ?]|].
  apply runs_bind_iff in H as (t1 & replicating & t2 & -> & H1 & H). apply runs_bind_iff in H as (t3 & pod & t4 & -> & H3 & H).
  destruct (replicating && pod_ok pod) eqn:E.
  - apply runs_Ret_iff in H as [-> _]. apply andb_true_iff in E as [-> Ep]. apply ready_runs in H1 as [Hf (r & Hr & Hd)]. split; [|split].
    + destruct Hf as [Hf|(Hf & H2 & H4)]; [left|right]; auto.
    + exists r. auto.
    + apply pod_seen_r, pod_seen_l. apply probe_runs in H3 as [[_ Hp]|(x & -> & -> & _)]; [intros ?; congruence|].
      intros _. destruct x as [v|]; [|done]. exists v. split; [left|done].
  - apply runs_bind_iff in H as (t5 & watched & t6 & -> & _ & H). destruct watched as [lost'|]; [|by apply runs_Ret_iff in H as [_ ?]].
    apply (runs_bind_iff (call Now)) in H as (t7 & now & t8 & -> & _ & H). destruct (now >? deadline); [by apply runs_Ret_iff in H as [_ ?]|].
    apply (runs_bind_iff (call (TimerFired (tickInterval u)))) in H as (t9 & fired & t10 & -> & _ & H).
    destruct fired; [|by apply runs_Ret_iff in H as [_ ?]]. apply IH in H. auto 10.
Qed.

Lemma wait_runs n f expected primary timeout t :
  runs (waitForRolledSite u unicode_lower n f expected primary timeout) t None -> caught_up f expected t.
Proof using.
  unfold waitForRolledSite. intros H. apply (runs_bind_iff (call Now)) in H as (t1 & now & t2 & -> & _ & H).
  apply caught_up_r. by eapply loop_runs.
Qed.

(** A wait starts replication on its site only, through the gate. *)
Definition gated (f : UpdateTarget) (h : list (event ans)) (o : op) : Prop :=
  harmless o = true \/ o = StartReplica (Name f) /\ (made h (RestorePeerHeld (Name f)) false \/ gate_installed u = false).

Definition safe {A} (f : UpdateTarget) (p : P A) : Prop := forall h, cwp (gated f) p h (fun _ _ => True).

Lemma safe_bind {A B} f (p : P A) (k : A -> P B) : safe f p -> (forall a, safe f (k a)) -> safe f (prog_bind p k).
Proof using. intros Hp Hk h. apply cwp_bind. eapply cwp_mono; [apply Hp|]. intros h' a _. apply Hk. Qed.

Lemma safe_frees {A} f (p : P A) : frees harmless p -> safe f p.
Proof using. intros Hp h. eapply (cwp_runs _ harmless); [by left|done|done]. Qed.

Lemma safe_start f : safe f (startReplica u f).
Proof using.
  unfold startReplica. intros h. destruct (gate_installed u) eqn:Eg; cycle 1.
  { apply cwp_bind. split; [right; split; [done|by right]|]. done. }
  apply cwp_bind. split; [by left|]. intros held. destruct held; [done|]. apply cwp_bind. split; [|done].
  right. split; [done|]. left. apply made_now.
Qed.

Lemma safe_ready f expected : safe f (directReplicaReady u unicode_lower f expected).
Proof using.
  unfold directReplicaReady. apply safe_bind; [apply safe_frees; unfold read_only_now; harmless|]. intros ro. apply safe_bind; [apply safe_frees; harmless|].
  intros [[r|]|]; [|apply safe_frees; exact I..]. destruct ro; cbn [negb]; [|apply safe_frees; exact I].
  apply safe_bind; [|intros _; apply safe_frees; exact I]. destruct (_ && _); [apply safe_start|apply safe_frees; exact I].
Qed.

Lemma safe_loop n f expected primary timeout deadline : forall lost, safe f (wait_rolled u unicode_lower n f expected primary timeout deadline lost).
Proof using.
  induction n as [|n IH]; intros lost; cbn [wait_rolled]; [apply safe_frees; exact I|]. apply safe_bind; [apply safe_ready|]. intros replicating.
  apply safe_bind; [apply safe_frees, frees_probe|]. intros pod. destruct (_ && _); [apply safe_frees; exact I|].
  apply safe_bind; [apply safe_frees; unfold watch_primary; harmless|]. intros [lost'|e]; [|apply safe_frees; exact I].
  apply safe_bind; [apply safe_frees; harmless|]. intros now. destruct (_ >? _); [apply safe_frees; exact I|].
  apply safe_bind; [apply safe_frees; harmless|]. intros []; [apply IH|apply safe_frees; exact I].
Qed.

Lemma gw_wait n f expected primary timeout h : made h (ApplyUpdate (Name f)) Applied ->
  gw (waitForRolledSite u unicode_lower n f expected primary timeout) h
    (fun h' r => exists t, h' = h ++ t /\ without rolls t /\ without hands_off t /\ (r = None -> caught_up f expected t)).
Proof using.
  intros Ha. eapply cwp_mono.
  - apply (gw_with _ (fun t r => without rolls t /\ without hands_off t /\ (r = None -> caught_up f expected t))).
    + apply (cwp_weaken_from (gated f)).
      * intros t o [Ho|[-> Hg]]; [by apply harmless_guarded|]. split; [auto|]. destruct Hg; auto.
      * apply safe_bind; [apply safe_frees; harmless|]. intros now. apply safe_loop.
    + intros t r H. destruct (waits_without _ (frees_runs _ _ _ _ (frees_wait _ _ _ _ _) H)) as [H1 H2]. split; [done|]. split; [done|].
      intros ->. by eapply wait_runs.
  - intros h' r H. exact H.
Qed.

(** ** Followers *)

Context (names : NoDup (map Name (active :: followers))).

Lemma name_unique t t' : t ∈ active :: followers -> t' ∈ active :: followers -> Name t = Name t' -> t = t'.
Proof using names.
  intros H1 H2 E. apply list_elem_of_lookup in H1 as [i Hi]. apply list_elem_of_lookup in H2 as [j Hj].
  assert (i = j) as ->; [|congruence]. eapply (NoDup_lookup (map Name (active :: followers))); [done|..].
  - rewrite list_lookup_fmap, Hi. reflexivity.
  - rewrite list_lookup_fmap, Hj. cbn. by rewrite E.
Qed.

(** Between followers: what was rolled has caught up, and the lists name it. *)
Record rolling (h : list (event ans)) (processed : list string) (onTemplate : list UpdateTarget) : Prop := {
  rolling_ok : rolled_ok h;
  rolling_before : without hands_off h;
  rolling_sites : forall t, on_template h t -> t ∈ onTemplate;
  rolling_done : forall s, s ∈ processed -> done_site h s
}.

Lemma rolling_app h processed onTemplate t : without rolls t -> without hands_off t -> rolling h processed onTemplate -> rolling (h ++ t) processed onTemplate.
Proof using.
  intros H1 H2 [Hr Hb Hs Hd]. split; [by apply rolled_ok_app|by apply without_app| |].
  - intros x (Hx & Ht). apply Hs. split; [done|]. destruct Ht as [Ht|Ht]; [by left|right].
    unfold made in Ht. apply elem_of_app in Ht as [Ht|Ht]; [done|]. unfold without in H1. rewrite Forall_forall in H1. by apply H1 in Ht.
  - intros s Hp. apply done_site_l. auto.
Qed.

Lemma rolling_roll h processed onTemplate f t : f ∈ followers -> Drifted f = true -> without rolls t -> without hands_off t ->
  caught_up f (ExpectedSource f) t -> rolling h processed onTemplate ->
  rolling (h ++ ev (ApplyUpdate (Name f)) Applied :: t) (processed ++ [Name f]) (onTemplate ++ [f]).
Proof using names.
  intros Hf Hd H1 H2 Hc [Hr Hb Hs Hdone]. split; [by apply rolled_ok_roll|apply without_app; split; [done|by constructor]| |].
  - intros x (Hx & Ht). apply elem_of_app. destruct Ht as [Ht|Ht]; [left; apply Hs; split; [done|by left]|].
    unfold made in Ht. apply elem_of_app in Ht as [Ht|[Ht|Ht]%elem_of_cons]; [left; apply Hs; split; [done|by right]| |].
    + right. apply list_elem_of_singleton. apply ev_op in Ht. injection Ht as Ht. apply name_unique; [done|by right|done].
    + unfold without in H1. rewrite Forall_forall in H1. by apply H1 in Ht.
  - intros s [Hp|Hp]%elem_of_app; [apply done_site_l; auto|]. apply list_elem_of_singleton in Hp as ->.
    exists f, (ExpectedSource f), h, t. split; [by right|]. split; [done|]. split; [done|]. split; [done|by left].
Qed.

Lemma rolling_start h : without rolls h -> without hands_off h -> rolling h [] (sitesOnTemplate active followers).
Proof using.
  intros H1 H2. split; [|done| |by intros s ?%not_elem_of_nil].
  - intros h1 s x h2 ->. apply Forall_app in H1 as [_ H1]. by apply Forall_cons in H1 as [? _].
  - intros t (Ht & [Hd|Ha]); cycle 1.
    { unfold without in H1. rewrite Forall_forall in H1. by apply H1 in Ha. }
    unfold sitesOnTemplate. apply elem_of_app. apply elem_of_cons in Ht as [->|Ht]; [left; rewrite Hd; left|].
    right. apply elem_of_filter_bool. split; [done|by rewrite Hd].
Qed.

(** One follower. *)
Lemma gw_follower h processed onTemplate f : f ∈ followers -> Drifted f = true -> rolling h processed onTemplate ->
  gw (roll_follower u unicode_lower fuel active f onTemplate) h
    (fun h' r => match r with
                 | Ok true => rolling h' (processed ++ [Name f]) (onTemplate ++ [f])
                 | Ok false => rolling h' processed onTemplate
                 | Err _ => True
                 end).
Proof using names.
  intros Hf Hd Hr. unfold roll_follower. apply cwp_bind, gw_harmless; [apply frees_direct|]. intros t1 direct H1 R1 B1.
  destruct direct; cbn [negb]; [|by apply rolling_app]. apply direct_runs in H1.
  apply cwp_bind, gw_harmless; [apply frees_pods|]. intros t2 [e|] H2 R2 B2; [done|].
  apply cwp_bind, gw_harmless; [apply frees_set_phase|]. intros t3 [] _ R3 B3.
  pose proof (rolling_app _ _ _ _ R1 B1 Hr) as Hr1. pose proof (rolling_app _ _ _ _ R2 B2 Hr1) as Hr2. pose proof (rolling_app _ _ _ _ R3 B3 Hr2) as Hr3.
  apply cwp_bind, gw_step.
  { left. exists f, h, (t1 ++ t2 ++ t3). split; [done|]. split; [done|]. split; [done|]. split; [by rewrite !(assoc_L (++))|].
    split; [|split; [apply Hr|auto]]. split; [|split; [|split; [rewrite !(assoc_L (++)); apply Hr3|]]].
    - by rewrite !without_app.
    - by rewrite !without_app.
    - intros s Hs. apply (rolling_sites _ _ _ Hr) in Hs. pose proof (pods_runs _ _ _ H2 s Hs). auto. }
  intros applied. destruct applied as [|incomplete]; cycle 1.
  { by apply cwp_bind, gw_harmless; [apply frees_rollout|]. }
  apply cwp_bind, gw_harmless; [apply frees_set_phase|]. intros t4 [] _ R4 B4.
  apply cwp_bind. eapply cwp_mono; [apply gw_wait; auto|]. intros h' r (t5 & -> & R5 & B5 & H5).
  destruct r as [e|]; [done|]. cbn [cwp]. rewrite <- (assoc_L (++) _ t4 t5), <- (assoc_L (++) _ [_] (t4 ++ t5)).
  apply (rolling_roll _ _ _ f (t4 ++ t5)); [done|done|by apply without_app|by apply without_app| |done].
  apply caught_up_r. auto.
Qed.

Lemma gw_all_followers l : forall h processed onTemplate, (forall f, f ∈ l -> f ∈ followers) -> rolling h processed onTemplate ->
  gw (roll_followers u unicode_lower fuel active l processed onTemplate) h
    (fun h' r => match r.2 with
                 | Ok onTemplate => rolling h' r.1 onTemplate
                 | Err _ => forall s, s ∈ r.1 -> done_site h' s
                 end).
Proof using names.
  induction l as [|f l IH]; intros h processed onTemplate Hl Hr; cbn [roll_followers]; [done|].
  assert (forall g, g ∈ l -> g ∈ followers) as Hl' by (intros g Hg; apply Hl; by right).
  destruct (Drifted f) eqn:Hd; cbn [negb]; [|by apply IH].
  apply cwp_bind. eapply cwp_mono; [apply cwp_extends, (gw_follower _ processed onTemplate); [apply Hl; left|done|done]|].
  cbn beta. intros h' [[]|e] [H [t ->]]; [by apply IH|by apply IH|]. intros s Hs. apply done_site_l. by apply Hr.
Qed.

(** ** The handoff *)

Lemma gw_in_handoff {A} f h1 h2 (p : prog Failover.ans A) : forall t0, handoff_ready f h1 h2 ->
  gw (in_handoff (Name active) (Name f) p) (h1 ++ h2 ++ lifted (Name active) (Name f) t0)
    (fun h' r => exists t, h' = h1 ++ h2 ++ lifted (Name active) (Name f) (t0 ++ t) /\ runs p t r).
Proof using.
  induction p as [a|o k IH]; intros t0 Hr; cbn [in_handoff].
  { exists []. rewrite app_nil_r. split; [done|constructor]. }
  split; [split; [done|]; by exists f, h1, h2, t0|]. intros x.
  assert ((h1 ++ h2 ++ lifted (Name active) (Name f) t0) ++ [ev (Ans := ans) (InHandoff (Name active) (Name f) o) x]
          = h1 ++ h2 ++ lifted (Name active) (Name f) (t0 ++ [ev o x])) as ->.
  { unfold lifted. rewrite map_app, <- !(assoc_L (++)). done. }
  eapply cwp_mono; [by apply IH|]. cbn beta. intros h' r (t & -> & H). exists (ev o x :: t). rewrite <- (assoc_L (++)). split; [done|]. by constructor.
Qed.

Lemma gw_promoted f h t r h3 gtid : handed f h t r h3 ->
  (r = Ok gtid \/ (exists e, r = Err (Failover.HandoffWriteAttempted gtid e)) /\ made h3 (CheckReadOnly (Name f)) (Some false)) ->
  gw (onPromoted u (Name f) gtid) h (fun h' _ => exists t', h' = h ++ t' /\ without rolls t' /\ without hands_off t'
    /\ (records_promotion u = true -> made t' (OnPromoted (Name f) gtid) tt)).
Proof using.
  intros Hh Hr. unfold onPromoted. destruct (records_promotion u).
  - apply gw_step; [by exists f, t, r, h3|]. intros []. exists [ev (OnPromoted (Name f) gtid) tt]. split; [done|]. split; [by repeat constructor|].
    split; [by repeat constructor|]. intros _. left.
  - exists []. rewrite app_nil_r. split; [done|]. split; [constructor|]. by split; [constructor|].
Qed.

Lemma writable_runs n again c t : runs (probe_writable u n again c) t true -> made t (CheckReadOnly c) (Some false).
Proof using.
  revert again t. induction n as [|n IH]; intros b t H; cbn [probe_writable] in H.
  { by apply runs_Ret_iff in H as [_ ?]. }
  apply runs_bind_iff in H as (t1 & [] & t2 & -> & _ & H).
  apply (runs_bind_iff (call (CheckReadOnly c))) in H as (t3 & ro & t4 & -> & ->%runs_call_iff & H). destruct ro as [ro|]; [|apply IH in H; auto].
  apply runs_Ret_iff in H as [-> E]. destruct ro; [done|]. apply made_after, made_before. left.
Qed.

Lemma gw_hand_off f h1 h2 : handoff_ready f h1 h2 ->
  gw (hand_off u fuel active f) (h1 ++ h2) (fun h' r => r = None -> standby_primary f h').
Proof using.
  intros Hr. unfold hand_off. apply cwp_bind, gw_harmless; [apply frees_set_phase|]. intros t1 [] _ R1 B1. rewrite <- (assoc_L (++)).
  assert (handoff_ready f h1 (h2 ++ t1)) as Hr1.
  { destruct Hr as (Hd & (P1 & P2 & P3 & P4) & Hb & (E1 & E2 & E3 & E4 & E5 & E6 & E7 & E8 & E9)). split; [done|]. split; [|split; [done|]].
    - split; [by apply without_app|]. split; [by apply without_app|]. rewrite (assoc_L (++)). split; [by apply rolled_ok_app|]. auto.
    - repeat (split; [done|]). split; [auto|]. split; [done|auto]. }
  apply cwp_bind. pose proof (gw_in_handoff f h1 (h2 ++ t1) (the_handoff f) [] Hr1) as Hh. cbn [lifted map] in Hh. rewrite !app_nil_r in Hh.
  eapply cwp_mono; [exact Hh|]. clear Hh. cbn beta. intros h' r (t & -> & Ht). cbn [app].
  assert (forall h3, without hands_off h3 -> handed f ((h1 ++ (h2 ++ t1) ++ lifted (Name active) (Name f) t) ++ h3) t r h3) as Hhanded.
  { intros h3 H3. exists h1, (h2 ++ t1). by rewrite <- !(assoc_L (++)). }
  set (h := h1 ++ (h2 ++ t1) ++ lifted (Name active) (Name f) t) in *.
  destruct r as [gtid|e].
  - apply cwp_bind. pose proof (Hhanded [] ltac:(constructor)) as Hh0. rewrite app_nil_r in Hh0.
    eapply cwp_mono; [eapply gw_promoted; [exact Hh0|by left]|]. cbn beta. intros h' [] (t2 & -> & R2 & B2 & H2).
    apply cwp_bind, gw_step; [done|]. intros ro Hro. destruct ro as [[]|]; [done| |done].
    exists t, gtid, (t2 ++ [ev (CheckReadOnly (Name f)) (Some false)]). rewrite <- (assoc_L (++)). split.
    + apply Hhanded, without_app. split; [done|by repeat constructor].
    + split; [intros Hp; auto|auto].
  - apply cwp_bind. destruct e as [| |gtid e]; [done|done|]. destruct (records_promotion u); [|done].
    apply cwp_bind, gw_harmless; [apply frees_writable|]. intros t2 [] H2 R2 B2; [|done]. apply writable_runs in H2.
    eapply cwp_mono; [eapply gw_promoted; [by apply Hhanded|]|done]. right. split; [by eexists|done].
Qed.

(** ** The old active *)

Lemma set_runs s t g : runs (readGTIDSet s) t (Some g) -> exists raw, made t (GetGtidExecuted s) (Some raw) /\ ParseGTIDSet raw = Ok g.
Proof using.
  unfold readGTIDSet. intros H. apply (runs_bind_iff (call (GetGtidExecuted s))) in H as (t1 & raw & t2 & -> & ->%runs_call_iff & [-> E]%runs_Ret_iff).
  destruct raw as [raw|]; [|done]. destruct (ParseGTIDSet raw) as [g'|] eqn:Eg; [|done]. injection E as ->. exists raw. split; [left|done].
Qed.

Lemma contained_runs a c t : runs (requireOldActiveContained a c) t None ->
  exists rawA rawS old new, made t (SetSuperReadOnly a true) true
    /\ made t (GetGtidExecuted a) (Some rawA) /\ ParseGTIDSet rawA = Ok old
    /\ made t (GetGtidExecuted c) (Some rawS) /\ ParseGTIDSet rawS = Ok new /\ IsEmpty (Subtract old new) = true.
Proof using.
  unfold requireOldActiveContained. intros H. apply (runs_bind_iff (call (SetSuperReadOnly a true))) in H as (t1 & ok & t2 & -> & ->%runs_call_iff & H).
  destruct ok; cbn [negb] in H; [|by apply runs_Ret_iff in H as [_ ?]].
  apply runs_bind_iff in H as (t3 & old & t4 & -> & H3 & H). destruct old as [old|]; [|by apply runs_Ret_iff in H as [_ ?]].
  apply runs_bind_iff in H as (t5 & new & t6 & -> & H5 & [-> E]%runs_Ret_iff). destruct new as [new|]; [|done].
  apply set_runs in H3 as (rawA & HA & EA). apply set_runs in H5 as (rawS & HS & ES). exists rawA, rawS, old, new.
  split; [left|]. split; [auto|]. split; [done|]. split; [auto|]. split; [done|]. by destruct (IsEmpty _).
Qed.

Lemma frees_contained a c : frees harmless (requireOldActiveContained a c).
Proof using. unfold requireOldActiveContained, readGTIDSet. harmless. Qed.

(** The old active may be repointed. *)
Definition repointable (f : UpdateTarget) (h : list (event ans)) : Prop :=
  standby_primary f h /\ old_contained f h /\ made h (ApplyUpdate (Name active)) Applied.

Lemma repointable_l f h t : without hands_off t -> repointable f h -> repointable f (h ++ t).
Proof using. intros Ht (H1 & H2 & H3). split; [by apply standby_primary_l|]. split; [by apply old_contained_l|auto]. Qed.

Lemma gw_recover f h : repointable f h ->
  gw (RecoverOldPrimary (Name active) (Host f)) h (fun h' _ => exists t, h' = h ++ t /\ without rolls t /\ without hands_off t).
Proof using.
  intros Hr. unfold RecoverOldPrimary.
  assert (forall o x h0, rolls o = false -> hands_off o = false -> repointable f h0 -> repointable f (h0 ++ [ev (Ans := ans) o x])) as Hstep
    by (intros; apply repointable_l; [by repeat constructor|done]).
  apply (gw_with _ (fun t _ => without rolls t /\ without hands_off t)).
  - apply cwp_bind, gw_step; [done|]. intros x1. pose proof (Hstep (SetSuperReadOnly (Name active) true) x1 _ eq_refl eq_refl Hr) as Hr1. destruct x1; cbn [negb]; [|done].
    apply cwp_bind, gw_step; [split; [done|]; exists f; by destruct Hr1 as (? & ? & _)|]. intros x2.
    pose proof (Hstep (StopReplica (Name active)) x2 _ eq_refl eq_refl Hr1) as Hr2. destruct x2; cbn [negb]; [|done].
    apply cwp_bind, gw_step; [split; [done|]; exists f; by destruct Hr2 as (? & ? & _)|]. intros x3.
    pose proof (Hstep (ResetReplicaAll (Name active)) x3 _ eq_refl eq_refl Hr2) as Hr3. destruct x3; cbn [negb]; [|done].
    apply cwp_bind, gw_step; [split; [done|]; exists f; split; [done|]; by destruct Hr3 as (? & ? & _)|]. intros x4.
    pose proof (Hstep (ChangeReplicationSource (Name active) (Host f)) x4 _ eq_refl eq_refl Hr3) as Hr4. destruct x4; cbn [negb]; [|done].
    apply gw_step; [|done]. split; [apply Hr4|]. right. right. exists (Host f). apply made_now.
  - intros t r H. assert (Forall (fun e => negb (rolls (projT1 e)) && negb (hands_off (projT1 e)) = true) t) as Hf.
    { eapply (frees_runs (fun o => negb (rolls o) && negb (hands_off o))); [|exact H]. harmless. }
    split; (eapply Forall_impl; [exact Hf|]; cbn; intros e [E1%negb_true_iff E2%negb_true_iff]%andb_true_iff; done).
Qed.

Lemma gw_old_active f h (processed : list string) : Drifted active = true -> standby_primary f h -> (forall s, s ∈ processed -> done_site h s) ->
  gw (update_old_active u unicode_lower fuel active f) h
    (fun h' e => (forall s, s ∈ processed -> done_site h' s) /\ (e = None -> done_site h' (Name active))).
Proof using.
  intros Hd Hs Hp. unfold update_old_active.
  assert (forall t, forall s, s ∈ processed -> done_site (h ++ t) s) as Hp' by (intros t s ?; apply done_site_l; auto).
  apply cwp_bind, gw_harmless; [apply frees_set_phase|]. intros t1 [] _ R1 B1. apply cwp_bind.
  pose proof (standby_primary_l _ _ _ B1 Hs) as Hs1.
  apply gw_step; [right; split; [done|]; split; [done|]; by exists f|]. intros applied. rewrite <- (assoc_L (++)).
  destruct applied as [|incomplete]; cycle 1.
  { apply cwp_bind, gw_harmless; [apply frees_rollout|]. intros t2 e _ _ _. rewrite <- (assoc_L (++)). split; [apply Hp'|done]. }
  assert (without hands_off (t1 ++ [ev (ApplyUpdate (Name active)) Applied])) as Ba by (apply without_app; split; [done|by repeat constructor]).
  apply cwp_bind, gw_harmless; [apply frees_contained|]. intros t2 [e|] H2 R2 B2.
  { rewrite <- (assoc_L (++)). split; [apply Hp'|done]. }
  apply contained_runs in H2 as (rawA & rawS & old & new & H2).
  assert (repointable f ((h ++ t1 ++ [ev (ApplyUpdate (Name active)) Applied]) ++ t2)) as Hr.
  { split; [|split].
    - apply standby_primary_l; [done|]. by apply standby_primary_l.
    - exists (h ++ t1), Applied, t2, rawA, rawS, old, new. rewrite <- !(assoc_L (++)). split; [done|]. split; [done|exact H2].
    - apply made_before. rewrite (assoc_L (++)). apply made_now. }
  apply cwp_bind. eapply cwp_mono; [by apply gw_recover|]. cbn beta. intros h' ok (t3 & -> & R3 & B3).
  destruct ok; cbn [negb]; cycle 1.
  { rewrite <- !(assoc_L (++)). split; [apply Hp'|done]. }
  apply cwp_bind, gw_harmless; [apply frees_set_phase|]. intros t4 [] _ R4 B4.
  apply cwp_bind. eapply cwp_mono; [apply gw_wait; do 2 apply made_before; apply Hr|]. cbn beta. intros h' e (t5 & -> & R5 & B5 & H5).
  rewrite <- !(assoc_L (++)). split; [apply Hp'|]. intros He. destruct e as [e|]; [done|].
  exists active, (Host f), (h ++ t1), (t2 ++ t3 ++ t4 ++ t5). split; [left|]. split; [done|]. split; [by rewrite <- !(assoc_L (++))|].
  split; [|right; split; [done|by exists f]]. do 3 apply caught_up_r. auto.
Qed.

Lemma gw_active h processed onTemplate : Drifted active = true -> rolling h processed onTemplate ->
  gw (update_active u unicode_lower fuel active followers processed onTemplate) h
    (fun h' e => (forall s, s ∈ processed -> done_site h' s) /\ (e = None -> done_site h' (Name active))).
Proof using.
  intros Hd Hr. unfold update_active.
  assert (forall t, forall s, s ∈ processed -> done_site (h ++ t) s) as Hp by (intros t s ?; apply done_site_l; by apply Hr).
  apply cwp_bind, gw_harmless; [apply frees_pods|]. intros t1 [e|] H1 R1 B1; [split; [apply Hp|done]|].
  apply cwp_bind, gw_harmless; [apply frees_choose|]. intros t2 [b [f|]] H2 R2 B2; [|rewrite <- (assoc_L (++)); split; [apply Hp|done]].
  apply choose_handoff_runs in H2 as (F1 & F2 & F3 & F4 & F5 & F6 & F7 & F8). rewrite <- (assoc_L (++)).
  case_bool_decide as Eh; [split; [apply Hp|done]|].
  assert (handoff_ready f h (t1 ++ t2)) as Hh.
  { pose proof (rolling_app _ _ _ _ R1 B1 Hr) as Hr1. pose proof (rolling_app _ _ _ _ R2 B2 Hr1) as Hr2.
    split; [done|]. split; [|split; [apply Hr|]].
    - split; [by apply without_app|]. split; [by apply without_app|]. split; [rewrite (assoc_L (++)); apply Hr2|].
      intros t Ht. apply (rolling_sites _ _ _ Hr) in Ht. pose proof (pods_runs _ _ _ H1 t Ht). auto.
    - repeat (split; [done|]). split; [auto|]. split; [|auto]. intros Hdr. apply done_site_made, Hr. auto. }
  apply cwp_bind. eapply cwp_mono; [apply cwp_extends, (gw_hand_off f h (t1 ++ t2) Hh)|]. cbn beta. intros h' [e|] [Hs [t3 ->]].
  - rewrite <- (assoc_L (++)). split; [apply Hp|done].
  - apply gw_old_active; [done|by apply Hs|]. rewrite <- (assoc_L (++)). apply Hp.
Qed.

Lemma gw_sites h : without rolls h -> without hands_off h ->
  gw (update_sites u unicode_lower fuel active followers) h (fun h' r => forall s, s ∈ r.1 -> done_site h' s).
Proof using names.
  intros H1 H2. unfold update_sites. apply cwp_bind. eapply cwp_mono; [apply gw_all_followers; [done|by apply rolling_start]|].
  cbn beta. intros h1 [processed [onTemplate|e]] H; cbn [fst snd] in H; [|done].
  destruct (Drifted active) eqn:Hd; cbn [negb]; cycle 1.
  { apply cwp_bind, gw_harmless; [apply frees_set_phase|]. intros t [] _ _ _ s Hs. apply done_site_l. by apply H. }
  apply cwp_bind. eapply cwp_mono; [by apply gw_active|]. cbn beta. intros h2 [e|] [Hp Ha]; [done|].
  apply cwp_bind, gw_harmless; [apply frees_set_phase|]. intros t [] _ _ _ s [Hs|Hs]%elem_of_app; apply done_site_l; [auto|].
  apply list_elem_of_singleton in Hs as ->. auto.
Qed.

Lemma gw_update : gw (ExecuteTargets u unicode_lower fuel active followers) [] (fun h r => forall s, s ∈ r.1 -> done_site h s).
Proof using names.
  unfold ExecuteTargets. apply cwp_bind, gw_harmless; [unfold begin_update; harmless|]. intros t1 mine _ R1 B1.
  destruct mine; cbn [negb]; [|by intros s ?%not_elem_of_nil]. apply cwp_bind.
  eapply cwp_mono; [by apply gw_sites|]. cbn beta. intros h r H. apply cwp_bind, gw_harmless; [unfold end_update; harmless|].
  intros t2 [] _ _ _ s Hs. apply done_site_l. auto.
Qed.

(** ** The handoff inside the update *)

(** Calls of a handoff, or that record one. *)
Definition handing (o : op) : bool := match o with InHandoff _ _ _ | OnPromoted _ _ => true | _ => false end.

Definition quiet (o : op) : bool := negb (handing o).

Lemma frees_quiet {A} (p : P A) : frees harmless p -> frees quiet p.
Proof using. apply frees_weaken. by intros []. Qed.

Lemma quiet_without t : Forall (fun e => quiet (projT1 e) = true) t -> without handing t.
Proof using. intros H. eapply Forall_impl; [exact H|]. intros e He. by apply negb_true_iff in He. Qed.

Lemma quiet_phase p : frees quiet (setPhase p).
Proof using. apply frees_quiet, frees_set_phase. Qed.

Lemma quiet_wait n f expected primary timeout : frees quiet (waitForRolledSite u unicode_lower n f expected primary timeout).
Proof using. eapply frees_weaken; [|apply frees_wait]. by intros []. Qed.

Lemma quiet_follower f onTemplate : frees quiet (roll_follower u unicode_lower fuel active f onTemplate).
Proof using.
  unfold roll_follower. apply frees_bind; [apply frees_quiet, frees_direct|]. intros []; [|exact I]. apply frees_bind; [apply frees_quiet, frees_pods|].
  intros [e|]; [exact I|]. apply frees_bind; [apply quiet_phase|]. intros _. apply frees_bind; [harmless|]. intros [|b].
  - apply frees_bind; [apply quiet_phase|]. intros _. apply frees_bind; [apply quiet_wait|]. intros e. exact I.
  - apply frees_bind; [apply frees_quiet, frees_rollout|]. intros e. exact I.
Qed.

Lemma quiet_followers l : forall processed onTemplate, frees quiet (roll_followers u unicode_lower fuel active l processed onTemplate).
Proof using.
  induction l as [|f l IH]; intros processed onTemplate; cbn [roll_followers]; [exact I|]. destruct (Drifted f); cbn [negb]; [|apply IH].
  apply frees_bind; [apply quiet_follower|]. intros [[]|e]; [apply IH..|exact I].
Qed.

Lemma quiet_old_active f : frees quiet (update_old_active u unicode_lower fuel active f).
Proof using.
  unfold update_old_active. apply frees_bind; [apply quiet_phase|]. intros _. apply frees_bind; [harmless|]. intros [|b].
  - apply frees_bind; [apply frees_quiet, frees_contained|]. intros [e|]; [exact I|].
    apply frees_bind; [unfold RecoverOldPrimary; harmless|]. intros []; [|exact I].
    apply frees_bind; [apply quiet_phase|]. intros _. apply frees_bind; [apply quiet_wait|]. intros e. exact I.
  - apply frees_bind; [apply frees_quiet, frees_rollout|]. intros e. exact I.
Qed.

Lemma quiet_runs {A} (p : P A) t a : frees quiet p -> runs p t a -> without handing t.
Proof using. intros Hp H. apply quiet_without. by eapply frees_runs. Qed.

(** What may follow the handoff: the record of the promotion it reported. *)
Definition recorded (r : res Failover.handoff_error string) (gtid : string) : Prop :=
  r = Ok gtid \/ exists e, r = Err (Failover.HandoffWriteAttempted gtid e).

Definition follows (f : UpdateTarget) (r : res Failover.handoff_error string) (t : list (event ans)) : Prop :=
  Forall (fun e => match projT1 e with InHandoff _ _ _ => False | OnPromoted s gtid => s = Name f /\ recorded r gtid | _ => True end) t.

Lemma follows_quiet f r t : without handing t -> follows f r t.
Proof using. intros H. eapply Forall_impl; [exact H|]. intros [[] x]; done. Qed.

Lemma follows_both f r t1 t2 : follows f r (t1 ++ t2) <-> follows f r t1 /\ follows f r t2.
Proof using. apply Forall_app. Qed.

(** A program that may record the promotion reported. *)
Lemma follows_runs {A} f r gtid (p : P A) t a : recorded r gtid -> frees (fun o => quiet o || bool_decide (o = OnPromoted (Name f) gtid)) p -> runs p t a -> follows f r t.
Proof using.
  intros Hr Hp H. eapply Forall_impl; [by eapply frees_runs|]. intros [o x]. cbn [projT1]. destruct o; try done.
  intros Ho. cbn in Ho. apply bool_decide_eq_true in Ho as [= -> ->]. by split.
Qed.

(** The run of [t], with its result, inside [tr]; the update's error is [e]. Nothing is
    called after a handoff that refused or gave the writes back. *)
Definition handoff_in (f : UpdateTarget) (tr : list (event ans)) (e : option update_error) (t : list (event Failover.ans)) (r : res Failover.handoff_error string) : Prop :=
  exists t1 t2, tr = t1 ++ lifted (Name active) (Name f) t ++ t2 /\ without handing t1 /\ follows f r t2 /\ runs (the_handoff f) t r
    /\ match r with
       | Ok _ => forall err, e <> Some (HandoffFailed err)
       | Err err => e = Some (HandoffFailed err) /\ ((exists g x, err = Failover.HandoffWriteAttempted g x) \/ t2 = [])
       end.

Lemma hand_off_runs f t e : runs (hand_off u fuel active f) t e -> exists th r, handoff_in f t e th r.
Proof using.
  unfold hand_off. intros H. apply runs_bind_iff in H as (t1 & [] & t2 & -> & H1 & H). pose proof (quiet_runs _ _ _ (quiet_phase _) H1) as B1.
  apply runs_bind_iff in H as (t3 & r & t4 & -> & H3 & H). apply in_handoff_runs in H3 as (th & -> & H3). exists th, r.
  destruct r as [gtid|err].
  - exists t1, t4. split; [done|]. split; [done|]. split; [|split; [done|]].
    + eapply (follows_runs f _ gtid); [by left| |exact H]. unfold onPromoted. destruct (records_promotion u).
      * apply frees_bind; [split; [by rewrite bool_decide_true|done]|]. intros _. harmless.
      * harmless.
    + intros err ->. apply runs_bind_iff in H as (t5 & [] & t6 & -> & _ & H).
      apply (runs_bind_iff (call (CheckReadOnly (Name f)))) in H as (t7 & ro & t8 & -> & _ & [_ E]%runs_Ret_iff). by destruct ro as [[]|].
  - apply runs_bind_iff in H as (t5 & [] & t6 & -> & H5 & [-> ->]%runs_Ret_iff). exists t1, (t5 ++ []). split; [done|]. split; [done|]. rewrite app_nil_r.
    split; [|split; [done|split; [done|]]].
    + destruct err as [cause|cause ok|g x]; [by apply runs_Ret_iff in H5 as [-> _]; constructor..|].
      eapply (follows_runs f _ g); [right; by eexists| |exact H5]. destruct (records_promotion u) eqn:Er; [|exact I].
      apply frees_bind; [eapply frees_weaken; [|apply frees_quiet, frees_writable]; by intros o ->|]. intros []; [|exact I]. unfold onPromoted. rewrite Er.
      split; [by rewrite bool_decide_true|done].
    + destruct err as [cause|cause ok|g x]; [right|right|left; by exists g, x]; by apply runs_Ret_iff in H5 as [-> _].
Qed.

Lemma handoff_after f t0 tr e t r : without handing t0 -> handoff_in f tr e t r -> handoff_in f (t0 ++ tr) e t r.
Proof using.
  intros H0 (t1 & t2 & -> & H1 & H). exists (t0 ++ t1), t2. rewrite <- (assoc_L (++)). split; [done|]. split; [by apply without_app|done].
Qed.

Lemma update_active_runs processed onTemplate t e : runs (update_active u unicode_lower fuel active followers processed onTemplate) t e ->
  (without handing t /\ forall err, e <> Some (HandoffFailed err)) \/ exists f th r, f ∈ followers /\ handoff_in f t e th r.
Proof using.
  unfold update_active. intros H. apply runs_bind_iff in H as (t1 & stalled & t2 & -> & H1 & H).
  pose proof (quiet_runs _ _ _ (frees_quiet _ (frees_pods _ _)) H1) as B1.
  destruct stalled as [e1|]; [apply runs_Ret_iff in H as [-> ->]; left; by rewrite app_nil_r|].
  apply runs_bind_iff in H as (t3 & [b chosen] & t4 & -> & H3 & H). pose proof (quiet_runs _ _ _ (frees_quiet _ (frees_choose _ _ _)) H3) as B3.
  assert (without handing (t1 ++ t3)) as B13 by (by apply without_app). rewrite (assoc_L (++)).
  destruct chosen as [f|]; [|apply runs_Ret_iff in H as [-> ->]; left; by rewrite app_nil_r].
  apply choose_handoff_runs in H3 as [Hf _]. case_bool_decide; [apply runs_Ret_iff in H as [-> ->]; left; by rewrite app_nil_r|].
  right. apply runs_bind_iff in H as (t5 & e5 & t6 & -> & H5 & H). apply hand_off_runs in H5 as (th & r & H5). exists f, th, r. split; [done|].
  apply handoff_after; [done|]. destruct H5 as (u1 & u2 & -> & U1 & U2 & Hr & He). destruct e5 as [e5|].
  - apply runs_Ret_iff in H as [-> ->]. rewrite app_nil_r. by exists u1, u2.
  - pose proof (quiet_runs _ _ _ (quiet_old_active f) H) as B6. exists u1, (u2 ++ t6). rewrite <- !(assoc_L (++)). split; [done|]. split; [done|].
    split; [apply follows_both; split; [done|by apply follows_quiet]|]. split; [done|]. destruct r as [g|err]; [|by destruct He]. intros err ->. clear He.
    unfold update_old_active in H. apply runs_bind_iff in H as (? & [] & ? & -> & _ & H). apply runs_bind_iff in H as (? & applied & ? & -> & _ & H).
    destruct applied as [|b0]; [|by apply runs_bind_iff in H as (? & ? & ? & _ & _ & [_ ?]%runs_Ret_iff)].
    apply runs_bind_iff in H as (? & refused & ? & -> & _ & H). destruct refused; [by apply runs_Ret_iff in H as [_ ?]|].
    apply runs_bind_iff in H as (? & ok & ? & -> & _ & H). destruct ok; [|by apply runs_Ret_iff in H as [_ ?]].
    apply runs_bind_iff in H as (? & [] & ? & -> & _ & H). apply runs_bind_iff in H as (? & w & ? & -> & _ & [_ E]%runs_Ret_iff). by destruct w.
Qed.

Lemma followers_error l : forall t processed processed' onTemplate err,
  ~ runs (roll_followers u unicode_lower fuel active l processed onTemplate) t (processed', Err (HandoffFailed err)).
Proof using.
  induction l as [|f l IH]; intros t processed processed' onTemplate err H; cbn [roll_followers] in H; [by apply runs_Ret_iff in H as [_ ?]|].
  destruct (Drifted f); cbn [negb] in H; [|by apply IH in H]. apply runs_bind_iff in H as (? & res & ? & -> & H & H').
  destruct res as [[]|e']; [by apply IH in H'..|]. apply runs_Ret_iff in H' as [_ [= -> <-]]. unfold roll_follower in H.
  apply runs_bind_iff in H as (? & d & ? & -> & _ & H). destruct d; [|by apply runs_Ret_iff in H as [_ ?]].
  apply runs_bind_iff in H as (? & st & ? & -> & _ & H). destruct st; [by apply runs_Ret_iff in H as [_ ?]|].
  apply runs_bind_iff in H as (? & [] & ? & -> & _ & H). apply runs_bind_iff in H as (? & a & ? & -> & _ & H). destruct a.
  - apply runs_bind_iff in H as (? & [] & ? & -> & _ & H). apply runs_bind_iff in H as (? & w & ? & -> & _ & [_ E]%runs_Ret_iff). by destruct w.
  - by apply runs_bind_iff in H as (? & w & ? & -> & _ & [_ E]%runs_Ret_iff).
Qed.

(** The section that ends the update. *)
Definition ending (s : UpdateState) : list (event ans) :=
  [ev (Ans := ans) Lock s; ev (Ans := ans) (Unlock {| phase := UpdatePhaseNone; updating := false |}) tt].

Lemma execute_runs tr r : runs (ExecuteTargets u unicode_lower fuel active followers) tr r ->
  (without handing tr /\ forall err, r.2 <> Some (HandoffFailed err))
  \/ exists f th hr t s, f ∈ followers /\ tr = t ++ ending s /\ handoff_in f t r.2 th hr.
Proof using.
  unfold ExecuteTargets. intros H. apply runs_bind_iff in H as (t1 & mine & t2 & -> & H1 & H).
  assert (frees quiet begin_update) as Hb by (unfold begin_update; harmless). pose proof (quiet_runs _ _ _ Hb H1) as B1.
  destruct mine; cbn [negb] in H; [|apply runs_Ret_iff in H as [-> ->]; left; by rewrite app_nil_r].
  apply runs_bind_iff in H as (t3 & r3 & t4 & -> & H3 & H). apply runs_bind_iff in H as (t5 & [] & t6 & -> & H5 & [-> ->]%runs_Ret_iff).
  unfold end_update in H5. apply (runs_bind_iff (call Lock)) in H5 as (t7 & s & t8 & -> & ->%runs_call_iff & H5).
  apply (runs_call_iff (Ans := ans) (Unlock _)) in H5 as ->. rewrite app_nil_r. cbn [app]. fold (ending s).
  assert (without handing (ending s)) as Be by (by repeat constructor).
  unfold update_sites in H3. apply runs_bind_iff in H3 as (t5 & [processed rolled] & t6 & -> & H5 & H).
  pose proof (quiet_runs _ _ _ (quiet_followers _ _ _) H5) as B5.
  assert (without handing (t1 ++ t5)) as B15 by (by apply without_app).
  destruct rolled as [onTemplate|e]; cycle 1.
  { apply runs_Ret_iff in H as [-> ->]. left. rewrite app_nil_r. split; [rewrite (assoc_L (++)); by apply without_app|].
    cbn [snd]. intros err [= ->]. by apply followers_error in H5. }
  destruct (Drifted active) eqn:Ed; cbn [negb] in H; cycle 1.
  { apply runs_bind_iff in H as (t7 & [] & t8 & -> & H7 & [-> ->]%runs_Ret_iff). left. pose proof (quiet_runs _ _ _ (quiet_phase _) H7) as B7.
    split; [|done]. rewrite app_nil_r. by rewrite !without_app. }
  apply runs_bind_iff in H as (t7 & e & t8 & -> & H7 & H). apply update_active_runs in H7 as [[B7 He]|(f & th & hr & Hf & Hh)].
  - left. destruct e as [e|].
    + apply runs_Ret_iff in H as [-> ->]. rewrite app_nil_r. split; [by rewrite !without_app|]. cbn [snd]. exact He.
    + apply runs_bind_iff in H as (t9 & [] & t10 & -> & H9 & [-> ->]%runs_Ret_iff). pose proof (quiet_runs _ _ _ (quiet_phase _) H9) as B9.
      rewrite app_nil_r. split; [by rewrite !without_app|done].
  - right. exists f, th, hr. destruct e as [e|].
    + apply runs_Ret_iff in H as [-> ->]. exists ((t1 ++ t5) ++ t7), s. rewrite app_nil_r. split; [done|]. split; [by rewrite <- !(assoc_L (++))|].
      by apply handoff_after.
    + apply runs_bind_iff in H as (t9 & [] & t10 & -> & H9 & [-> ->]%runs_Ret_iff). pose proof (quiet_runs _ _ _ (quiet_phase _) H9) as B9.
      exists (((t1 ++ t5) ++ t7) ++ t9), s. rewrite app_nil_r. split; [done|]. split; [by rewrite <- !(assoc_L (++))|]. rewrite <- (assoc_L (++)).
      apply handoff_after; [done|]. destruct Hh as (u1 & u2 & -> & U1 & U2 & Hr & Hhr). exists u1, (u2 ++ t9). rewrite <- !(assoc_L (++)).
      do 2 (split; [done|]). split; [apply follows_both; split; [done|by apply follows_quiet]|]. split; [done|]. destruct hr as [g|err]; [done|by destruct Hhr].
Qed.

End update.
