(* ===== verification/UpdateWait.v ===== *)
(** * The ordered rolling update: its waits end

    [waitForRolledSite] of [internal/controller/updater.go]: with enough iterations it ends,
    by its deadline or soon after its primary stops answering, and what each end means. *)
From S2P Require Import Prelude GoStd Effects FacadeSteps PodReadiness Protocol Updater UpdaterProofs.

Local Open Scope Z_scope.

#[local] Arguments prog_bind {Op Ans A B} _ _ : simpl never.

Import Pods Updater.

Definition is_tick (o : op) : bool := match o with TimerFired _ => true | _ => false end.

Definition is_now (o : op) : bool := match o with Now => true | _ => false end.

Definition ticks (t : list (event ans)) : Z := Z.of_nat (count_ops is_tick t).

(** A probe of [p] as the primary. *)
Definition probes (p : string) (o : op) : bool := bool_decide (o = CheckReadOnly p).

(** Every probe of [p] failed. *)
Definition unanswered (p : string) (t : list (event ans)) : Prop := forall x, made t (CheckReadOnly p) x -> x = None.

(** A reading of the clock follows the timers fired since [start], each after its duration. *)
Definition paced (tick start : Z) (t : list (event ans)) : Prop :=
  forall t1 now t2, t = t1 ++ ev Now now :: t2 -> start + tick * ticks t1 <= now.

Lemma ticks_nil : ticks [] = 0.
Proof. done. Qed.

Lemma ticks_app t1 t2 : ticks (t1 ++ t2) = ticks t1 + ticks t2.
Proof. unfold ticks. rewrite count_ops_app. lia. Qed.

Lemma ticks_cons e t : ticks (e :: t) = (if is_tick (projT1 e) then 1 else 0) + ticks t.
Proof. unfold ticks. rewrite count_ops_cons. destruct (is_tick _); lia. Qed.

(** Arithmetic on the ticks of calls given one by one. *)
Ltac tick_lia := rewrite ?ticks_cons, ?ticks_nil; cbn [projT1 is_tick ev]; lia.

Lemma without_ticks t : without is_tick t -> ticks t = 0.
Proof.
  unfold ticks. intros H. induction H as [|e t He _ IH]; [done|]. rewrite count_ops_cons, He. exact IH.
Qed.

Lemma unanswered_app p t1 t2 : unanswered p (t1 ++ t2) <-> unanswered p t1 /\ unanswered p t2.
Proof. unfold unanswered, made. setoid_rewrite elem_of_app. naive_solver. Qed.

Lemma without_unanswered p t : without (probes p) t -> unanswered p t /\ count_ops (probes p) t = 0%nat.
Proof.
  intros H. split.
  - intros x Hx. unfold without in H. rewrite Forall_forall in H. apply H in Hx. cbn in Hx. by apply bool_decide_eq_false in Hx.
  - induction H as [|e t He _ IH]; [done|]. by rewrite count_ops_cons, He.
Qed.

Section wait.

Context (u : UpdateController) (unicode_lower : string -> string) (t : UpdateTarget) (expected : string) (timeout : Z).

#[local] Abbreviation loop fuel primary deadline lost := (wait_rolled u unicode_lower fuel t expected primary timeout deadline lost).

(** The probes of the rolled site, before the primary's. *)
Definition looks (o : op) : bool := match o with TimerFired _ | Now => false | CheckReadOnly s => bool_decide (s = Name t) | _ => true end.

#[local] Ltac looks :=
  repeat match goal with
  | |- frees _ (Ret _) => exact I
  | |- frees _ (call _) => split; [cbn; by rewrite ?bool_decide_true|intros ?; exact I]
  | |- frees _ (prog_bind _ _) => apply frees_bind; [|intros ?]
  | |- frees _ (match ?x with _ => _ end) => destruct x
  end.

Lemma looks_ready : frees looks (directReplicaReady u unicode_lower t expected).
Proof using. unfold directReplicaReady, read_only_now, startReplica. looks. Qed.

Lemma looks_pod : frees looks (probePod t).
Proof using. unfold probePod. looks. Qed.

(** One iteration: the two probes, then its end or the primary's probe. *)
Lemma loop_step fuel primary deadline lost tr r : runs (loop (S fuel) primary deadline lost) tr r ->
  exists t0 t1 replicating pod, tr = t0 ++ t1 /\ Forall (fun e => looks (projT1 e) = true) t0
    /\ (runs (directReplicaReady u unicode_lower t expected) t0 replicating \/ exists ta tb, t0 = ta ++ tb
         /\ runs (directReplicaReady u unicode_lower t expected) ta replicating /\ runs (probePod t) tb pod)
    /\ ((replicating && pod_ok pod = true /\ t1 = [] /\ r = None)
        \/ exists tw watched t2, t1 = tw ++ t2 /\ runs (watch_primary u primary lost) tw watched
           /\ match watched with
              | Err e => t2 = [] /\ r = Some e
              | Ok lost => exists now t3, t2 = ev Now now :: t3
                  /\ ((deadline < now /\ t3 = [] /\ r = Some (wait_expired t pod timeout))
                      \/ (now <= deadline /\ exists fired t4, t3 = ev (TimerFired (tickInterval u)) fired :: t4
                          /\ if fired : bool then runs (loop fuel primary deadline lost) t4 r else t4 = [] /\ r = Some WaitCanceled))
              end).
Proof using.
  cbn [wait_rolled]. intros H. apply runs_bind_iff in H as (ta & replicating & tb & -> & H1 & H). apply runs_bind_iff in H as (tc & pod & td & -> & H2 & H).
  exists (ta ++ tc), td, replicating, pod. split; [by rewrite (assoc_L (++))|]. split.
  { apply Forall_app. split; [eapply frees_runs; [apply looks_ready|exact H1]|eapply frees_runs; [apply looks_pod|exact H2]]. }
  split; [right; by exists ta, tc|]. destruct (replicating && pod_ok pod) eqn:E; [left; by apply runs_Ret_iff in H as [-> ->]|]. right.
  apply runs_bind_iff in H as (tw & watched & t2 & -> & H3 & H). exists tw, watched, t2. split; [done|]. split; [done|].
  destruct watched as [lost'|e]; [|by apply runs_Ret_iff in H as [-> ->]].
  apply (runs_bind_iff (call Now)) in H as (t5 & now & t6 & -> & ->%runs_call_iff & H). exists now, t6. split; [done|].
  rewrite Z.gtb_ltb in H. destruct (deadline <? now) eqn:En.
  { apply Z.ltb_lt in En. apply runs_Ret_iff in H as [-> ->]. by left. }
  apply Z.ltb_ge in En. right. split; [done|].
  apply (runs_bind_iff (call (TimerFired (tickInterval u)))) in H as (t7 & fired & t8 & -> & ->%runs_call_iff & H). exists fired, t8. split; [done|].
  destruct fired; [done|by apply runs_Ret_iff in H as [-> ->]].
Qed.

Lemma watch_runs primary lost tw watched : runs (watch_primary u primary lost) tw watched ->
  without is_tick tw /\ without is_now tw
  /\ match primary with
     | None => tw = [] /\ watched = Ok lost
     | Some p => (exists ro, tw = [ev (CheckReadOnly p) (Some ro)] /\ watched = Ok 0)
         \/ exists canceled, tw = [ev (CheckReadOnly p) None; ev ContextErr canceled]
             /\ watched = if canceled : bool then Err WaitCanceled else if lost + 1 >=? lossThreshold u then Err PrimaryLost else Ok (lost + 1)
     end.
Proof using.
  unfold watch_primary. intros H. destruct primary as [p|].
  - apply (runs_bind_iff (call (CheckReadOnly p))) in H as (t1 & ro & t2 & -> & ->%runs_call_iff & H). destruct ro as [ro|].
    + apply runs_Ret_iff in H as [-> ->]. split; [by repeat constructor|]. split; [by repeat constructor|]. left. by exists ro.
    + apply (runs_bind_iff (call ContextErr)) in H as (t3 & c & t4 & -> & ->%runs_call_iff & [-> ->]%runs_Ret_iff).
      split; [by repeat constructor|]. split; [by repeat constructor|]. right. by exists c.
  - apply runs_Ret_iff in H as [-> ->]. split; [constructor|]. by split; [constructor|].
Qed.

Lemma looks_without t0 : Forall (fun e => looks (projT1 e) = true) t0 ->
  without is_tick t0 /\ without is_now t0 /\ forall p, p <> Name t -> without (probes p) t0.
Proof using.
  intros H. split; [|split; [|intros p Hp]]; (eapply Forall_impl; [exact H|]); intros [[] ?] He; try done.
  cbn in *. apply bool_decide_eq_true in He as ->. by apply bool_decide_eq_false; intros [= ?].
Qed.

(** With the primary unreachable, fewer ticks than the threshold pass. *)
Lemma loop_loss fuel p deadline lost tr r : runs (loop fuel (Some p) deadline lost) tr r -> unanswered p tr ->
  lost < lossThreshold u <= lost + Z.of_nat fuel -> r <> Some WaitOutOfFuel /\ lost + ticks tr < lossThreshold u.
Proof using.
  revert lost tr. induction fuel as [|fuel IH]; intros lost tr H Hu Hl; [lia|].
  apply loop_step in H as (t0 & t1 & replicating & pod & -> & H0 & _ & H). apply looks_without in H0 as (T0 & _).
  rewrite ticks_app, (without_ticks t0) by done. apply unanswered_app in Hu as [_ Hu].
  destruct H as [(_ & -> & ->)|(tw & watched & t2 & -> & Hw & H)]; [split; [done|tick_lia]|].
  apply watch_runs in Hw as (Tw & _ & Hw). rewrite ticks_app, (without_ticks tw) by done. apply unanswered_app in Hu as [Huw Hu].
  destruct Hw as [(ro & -> & ->)|(c & -> & ->)]; [specialize (Huw _ (list_elem_of_here _ _)); done|].
  destruct c; [destruct H as [-> ->]; split; [done|tick_lia]|]. rewrite Z.geb_leb in H. destruct (lossThreshold u <=? lost + 1) eqn:E.
  { destruct H as [-> ->]. split; [done|tick_lia]. }
  apply Z.leb_gt in E. destruct H as (now & t3 & -> & [(_ & -> & ->)|(_ & fired & t4 & -> & H)]).
  { split; [unfold wait_expired; by destruct pod as [v|]; [destruct (pod_ok _)|]|tick_lia]. }
  assert (forall t, ticks (ev Now now :: ev (TimerFired (tickInterval u)) fired :: t) = 1 + ticks t) as Et.
  { intros x. tick_lia. }
  rewrite Et. destruct fired; [|destruct H as [-> ->]; split; [done|tick_lia]].
  apply IH in H; [split; [apply H|lia]| |lia]. intros x Hx. apply (Hu x). by do 2 right.
Qed.

(** With a clock that moves on, the deadline passes. *)
Lemma loop_paced fuel primary start deadline lost c tr r : runs (loop fuel primary deadline lost) tr r ->
  (forall t1 now t2, tr = t1 ++ ev Now now :: t2 -> start + tickInterval u * (c + ticks t1) <= now) ->
  0 < tickInterval u -> (1 <= fuel)%nat -> deadline < start + tickInterval u * (c + Z.of_nat fuel - 1) -> r <> Some WaitOutOfFuel.
Proof using.
  revert lost c tr. induction fuel as [|fuel IH]; intros lost c tr H Hp Ht Hf Hd; [lia|].
  apply loop_step in H as (t0 & t1 & replicating & pod & -> & H0 & _ & H). apply looks_without in H0 as (T0 & _).
  destruct H as [(_ & -> & ->)|(tw & watched & t2 & -> & Hw & H)]; [done|].
  apply watch_runs in Hw as (Tw & _ & Hw). destruct watched as [lost'|e]; cycle 1.
  { destruct H as [-> ->]. destruct primary as [p|]; [|by destruct Hw]. destruct Hw as [(ro & _ & ?)|(b & _ & E)]; [done|].
    destruct b; [by injection E as ->|]. destruct (_ >=? _); [by injection E as ->|done]. }
  destruct H as (now & t3 & -> & [(_ & -> & ->)|(Hn & fired & t4 & -> & H)]).
  { unfold wait_expired. by destruct pod as [v|]; [destruct (pod_ok _)|]. }
  destruct fired; [|by destruct H as [-> ->]].
  pose proof (Hp (t0 ++ tw) now (ev (TimerFired (tickInterval u)) true :: t4) ltac:(by rewrite <- (assoc_L (++)))) as Hnow.
  rewrite ticks_app, (without_ticks t0), (without_ticks tw) in Hnow by done.
  apply (IH _ (c + 1)) in H; [done| |done|nia|nia].
  intros t5 now' t6 ->. specialize (Hp (t0 ++ tw ++ ev Now now :: ev (TimerFired (tickInterval u)) true :: t5) now' t6).
  rewrite !ticks_app, (without_ticks t0), (without_ticks tw) in Hp by done.
  assert (ticks (ev Now now :: ev (TimerFired (tickInterval u)) true :: t5) = 1 + ticks t5) as Et.
  { tick_lia. }
  rewrite Et in Hp. etrans; [|apply Hp; by rewrite <- !(assoc_L (++))]. lia.
Qed.

(** The last probes of a primary reported lost. *)
Lemma loop_lost fuel p deadline lost tr : p <> Name t -> runs (loop fuel (Some p) deadline lost) tr (Some PrimaryLost) ->
  exists t1 t2, tr = t1 ++ t2 /\ unanswered p t2
    /\ (lossThreshold u <= Z.of_nat (count_ops (probes p) t2) \/ t1 = [] /\ lossThreshold u <= lost + Z.of_nat (count_ops (probes p) t2)).
Proof using.
  intros Hp. revert lost tr. induction fuel as [|fuel IH]; intros lost tr H; [by apply runs_Ret_iff in H as [_ ?]|].
  apply loop_step in H as (t0 & t1 & replicating & pod & -> & H0 & _ & H). apply looks_without in H0 as (_ & _ & P0). specialize (P0 p Hp).
  apply without_unanswered in P0 as [A0 C0].
  destruct H as [(_ & _ & ?)|(tw & watched & t2 & -> & Hw & H)]; [done|]. apply watch_runs in Hw as (_ & _ & Hw).
  assert (forall c, count_ops (probes p) [ev (CheckReadOnly p) None; ev (Ans := ans) ContextErr c] = 1%nat) as Cw.
  { intros c. rewrite !count_ops_cons. cbn [projT1 ev]. unfold probes. by rewrite bool_decide_true, bool_decide_false. }
  assert (forall c, unanswered p [ev (CheckReadOnly p) None; ev (Ans := ans) ContextErr c]) as Aw.
  { intros c x Hx. unfold made in Hx. in_trace Hx. done. }
  destruct Hw as [(ro & -> & ->)|(c & -> & ->)].
  - destruct H as (now & t3 & -> & [(_ & _ & E)|(_ & fired & t4 & -> & H)]); [unfold wait_expired in E; by destruct pod as [v|]; [destruct (pod_ok _)|]|].
    destruct fired; [|by destruct H]. apply IH in H as (t5 & t6 & -> & A6 & [H|[-> H]]).
    + exists (t0 ++ [ev (CheckReadOnly p) (Some ro)] ++ ev Now now :: ev (TimerFired (tickInterval u)) true :: t5), t6.
      rewrite <- !(assoc_L (++)). split; [done|]. split; [done|by left].
    + exists (t0 ++ [ev (CheckReadOnly p) (Some ro)] ++ [ev Now now; ev (TimerFired (tickInterval u)) true]), t6.
      rewrite <- !(assoc_L (++)). split; [done|]. split; [done|by left].
  - destruct c; [by destruct H as [_ ?]|]. rewrite Z.geb_leb in H. destruct (lossThreshold u <=? lost + 1) eqn:E.
    + destruct H as [-> _]. apply Z.leb_le in E. exists [], (t0 ++ [ev (CheckReadOnly p) None; ev ContextErr false]). split; [by rewrite app_nil_r|].
      split; [by apply unanswered_app|]. right. split; [done|]. rewrite count_ops_app, C0, Cw. lia.
    + destruct H as (now & t3 & -> & [(_ & _ & E')|(_ & fired & t4 & -> & H)]); [unfold wait_expired in E'; by destruct pod as [v|]; [destruct (pod_ok _)|]|].
      destruct fired; [|by destruct H]. apply IH in H as (t5 & t6 & -> & A6 & [H|[-> H]]).
      * exists (t0 ++ [ev (CheckReadOnly p) None; ev ContextErr false] ++ ev Now now :: ev (TimerFired (tickInterval u)) true :: t5), t6.
        rewrite <- !(assoc_L (++)). split; [done|]. split; [done|by left].
      * exists [], (t0 ++ [ev (CheckReadOnly p) None; ev ContextErr false] ++ [ev Now now; ev (TimerFired (tickInterval u)) true] ++ t6).
        split; [done|]. split.
        { rewrite !unanswered_app. split; [done|]. split; [done|]. split; [|done]. intros x Hx. unfold made in Hx. in_trace Hx. }
        right. split; [done|]. rewrite !count_ops_app, C0, Cw. unfold count_ops at 1. cbn [List.filter projT1 ev].
        unfold probes at 1 2. rewrite !bool_decide_false by done. cbn [length]. lia.
Qed.

End wait.

(** ** Properties *)

(** C13. A wait for a rolled site ends. If the clock moves on with its timers, a number of
    iterations beyond the timeout's ticks is enough; if the primary it watches answers no
    probe, [lossThreshold] iterations are, and fewer ticks than that pass. It succeeds only
    when the site was seen a read-only direct replica (fenced first if it was writable) with
    a Ready pod, and reports the primary lost only after that many probes in a row failed. *)
Theorem rolled_wait_ends u unicode_lower fuel t expected p timeout tr r :
  p <> Name t -> runs (waitForRolledSite u unicode_lower fuel t expected (Some p) timeout) tr r ->
  (forall start t0, tr = ev Now start :: t0 -> 0 < tickInterval u -> paced (tickInterval u) start t0 ->
     (1 <= fuel)%nat -> timeout < tickInterval u * (Z.of_nat fuel - 1) -> r <> Some WaitOutOfFuel)
  /\ (unanswered p tr -> lossThreshold u <= Z.of_nat fuel -> r <> Some WaitOutOfFuel /\ ticks tr < lossThreshold u)
  /\ (r = None -> caught_up unicode_lower t expected tr)
  /\ (r = Some PrimaryLost -> exists t1 t2, tr = t1 ++ t2 /\ unanswered p t2 /\ lossThreshold u <= Z.of_nat (count_ops (probes p) t2)).
Proof.
  intros Hp H. pose proof H as Hw. unfold waitForRolledSite in Hw.
  apply (runs_bind_iff (call Now)) in Hw as (tn & now & t1 & -> & ->%runs_call_iff & Hw).
  assert (2 <= lossThreshold u) as Hl by (unfold lossThreshold; destruct (_ >? _); lia).
  split; [|split; [|split]].
  - intros start t0 Htr Ht Hpace Hf Hd. apply cons_eq_inj in Htr as [E ->]. apply (ev_inj Now) in E as ->.
    eapply (loop_paced u unicode_lower t expected timeout fuel (Some p) start _ 0 0); [exact Hw| |done|done|lia]. intros ta n tb ->. rewrite Z.add_0_l. by eapply Hpace.
  - intros Hu Hf. apply unanswered_app in Hu as [_ Hu]. rewrite ticks_app. destruct (loop_loss u unicode_lower t expected timeout _ _ _ _ _ _ Hw Hu) as [Hr Ht]; [lia|].
    split; [done|]. rewrite ticks_cons, ticks_nil. exact Ht.
  - intros ->. by eapply wait_runs.
  - intros ->. apply loop_lost in Hw as (ta & tb & -> & Hu & Hc); [|done]. exists ([ev Now now] ++ ta), tb. rewrite (assoc_L (++)).
    split; [done|]. split; [done|]. destruct Hc as [Hc|[_ Hc]]; lia.
Qed.

(** ** Examples *)

(** The follower's channel never starts and the primary answers nothing. *)
Definition demo_dead (_ : list (event ans)) (o : op) : ans o :=
  match o with
  | Lock => {| phase := UpdatePhaseNone; updating := false |}
  | Now => UnixEpoch
  | CheckReadOnly s => if bool_decide (s = "a") then None else Some true
  | ShowReplicaStatus _ => Some (Some {| IORunning := false; SQLRunning := true; SourceHost := "mysql-a" |})
  | GetGtidExecuted _ => None
  | PodReady _ => Ok {| Ready := true; Pod := "p"; Reason := "" |}
  | HandoffBlocked _ => None
  | ApplyUpdate _ => Applied
  | InHandoff _ _ o => Failover.sound [] o
  | ContextErr => false
  | Unlock _ | Sleep _ | OnPromoted _ _ => tt
  | _ => true
  end.

Definition demo_controller : UpdateController :=
  {| tickInterval := 5 * Second; primaryLossWindow := 10 * Second; rolledSiteTimeout := 300 * Second; handoff := Failover.demo_opts;
     gate_installed := true; records_promotion := true |}.

Definition demo_follower : UpdateTarget :=
  {| Name := "b"; Host := "mysql-b"; Promotable := true; Drifted := true; ExpectedSource := "mysql-a"; RotationBlocked := false;
     ReclonePending := false; DivergenceBlocked := false; DivergentTransactions := 0; DivergentGtid := ""; probes_pod := true; asks_block := true |}.

Definition demo_wait : P (option wait_error) :=
  waitForRolledSite demo_controller lower_ascii 3 demo_follower "mysql-a" (Some "a") (300 * Second).

Lemma dead_unanswered : unanswered "a" (exec demo_dead demo_wait []).1.
Proof. intros x [h ->]%exec_answers. reflexivity. Qed.

Lemma rolled_wait_ends_witness : (exec demo_dead demo_wait []).2 = Some PrimaryLost /\ ticks (exec demo_dead demo_wait []).1 < 3.
Proof.
  split; [by vm_compute|].
  destruct (rolled_wait_ends demo_controller lower_ascii 3 demo_follower "mysql-a" "a" (300 * Second) _ _ ltac:(done) (exec_run demo_dead demo_wait))
    as (_ & H & _).
  apply H; [exact dead_unanswered|by vm_compute].
Defined.
