(* ===== verification/UpdateOrder.v ===== *)
(** * The ordered rolling update: order, one writer, nothing lost

    The properties of [ExecuteTargets] over every run: the order of its steps, and what its
    handoff, whose properties [Failover] proves, gives the whole update. *)
From S2P Require Import Prelude GoStd Intervals GtidSet Effects Failover FacadeSteps PodReadiness Protocol Updater UpdaterProofs UpdateWait.

Local Open Scope Z_scope.

#[local] Arguments prog_bind {Op Ans A B} _ _ : simpl never.

Import GTID Pods Updater.

(** ** Calls of the handoff *)

Lemma lifted_made a c t o x : made (lifted a c t) (InHandoff a c o) x <-> ev o x ∈ t.
Proof.
  unfold made, lifted. rewrite elem_of_map. split; [|intros H; by exists (ev o x)].
  intros ([o' x'] & E & H). pose proof (ev_op _ _ _ _ E) as Eo. injection Eo as <-.
  apply (ev_inj (Ans := ans) (InHandoff a c o)) in E. simpl in E. by subst.
Qed.

Lemma lifted_called a c t o : called (InHandoff a c o) (lifted a c t) <-> called o t.
Proof. unfold called. by setoid_rewrite lifted_made. Qed.

Lemma lifted_app a c t1 t2 : lifted a c (t1 ++ t2) = lifted a c t1 ++ lifted a c t2.
Proof. apply map_app. Qed.

Lemma lifted_cons a c o x t : lifted a c (ev o x :: t) = ev (Ans := ans) (InHandoff a c o) x :: lifted a c t.
Proof. done. Qed.

(** MySQL issues no transaction number above [MaxGNO] ([Failover.servers_issue]). *)
Definition handoff_issues (tr : list (event ans)) : Prop :=
  forall a c k raw set, made tr (InHandoff a c (Failover.GetGtidExecuted k)) (Some raw) -> ParseGTIDSet raw = Ok set -> bounded set.

(** A call of the handoff is in its run. *)
Lemma in_run a c t1 t t2 a' c' o : without handing t1 -> (forall f r, follows f r t2 -> ~ called (InHandoff a' c' o) t2) ->
  (exists f r, follows f r t2) -> called (InHandoff a' c' o) (t1 ++ lifted a c t ++ t2) -> a' = a /\ c' = c /\ called o t.
Proof.
  intros H1 H2 (f & r & Hf) Hc. rewrite !called_app in Hc. destruct Hc as [[x Hc]|[Hc|Hc]].
  - unfold without in H1. rewrite Forall_forall in H1. by apply H1 in Hc.
  - pose proof Hc as [x Hx]. pose proof (lifted_ops a c t) as Hops. rewrite Forall_forall in Hops. destruct (Hops _ Hx) as [o' Ho].
    cbn in Ho. injection Ho as -> -> ->. split; [done|]. split; [done|]. by apply (lifted_called a c).
  - by apply (H2 f r) in Hc.
Qed.

Lemma follows_no_handoff f r t a c o : follows f r t -> ~ called (InHandoff a c o) t.
Proof. intros H [x Hx]. unfold follows in H. rewrite Forall_forall in H. by apply H in Hx. Qed.

Section update.

Context (u : UpdateController) (unicode_lower : string -> string) (fuel : nat).
Context (active : UpdateTarget) (followers : list UpdateTarget).

#[local] Abbreviation update := (ExecuteTargets u unicode_lower fuel active followers).

(** The call of a handoff, in the one the update ran. *)
Lemma the_call tr r a c o : runs update tr r -> called (InHandoff a c o) tr ->
  exists f t1 th hr t2, f ∈ followers /\ a = Name active /\ c = Name f /\ tr = t1 ++ lifted a c th ++ t2
    /\ without handing t1 /\ follows f hr t2 /\ runs (the_handoff u fuel f) th hr /\ called o th.
Proof using.
  intros H Hc. apply execute_runs in H as [[H _]|(f & th & hr & t & s & Hf & -> & t1 & t2 & -> & H1 & H2 & Hr & _)].
  { destruct Hc as [x Hx]. unfold without in H. rewrite Forall_forall in H. by apply H in Hx. }
  assert (follows f hr (t2 ++ ending s)) as H2' by (apply follows_both; split; [done|by repeat constructor]).
  rewrite <- !(assoc_L (++)) in Hc. apply in_run in Hc as (-> & -> & Ho); [|done|intros; by eapply follows_no_handoff|by exists f, hr].
  exists f, t1, th, hr, (t2 ++ ending s). rewrite <- !(assoc_L (++)). done.
Qed.

(** ... and nowhere else. *)
Lemma only_there a c t1 th t2 f hr o : without handing t1 -> follows f hr t2 ->
  called (InHandoff a c o) (t1 ++ lifted a c th ++ t2) <-> called o th.
Proof using.
  intros H1 H2. split.
  - intros Hc. apply in_run in Hc as (_ & _ & ?); [done|done|intros; by eapply follows_no_handoff|by exists f, hr].
  - intros Hc. rewrite !called_app. right. left. by apply lifted_called.
Qed.

(** A handoff that failed: its run, and that the update ended. *)
Lemma failed_handoff tr r err : runs update tr r -> r.2 = Some (HandoffFailed err) -> (forall g x, err <> Failover.HandoffWriteAttempted g x) ->
  exists f t1 th s, tr = t1 ++ lifted (Name active) (Name f) th ++ ending s /\ without handing t1 /\ runs (the_handoff u fuel f) th (Err err).
Proof using.
  intros H E Hw. apply execute_runs in H as [[_ H]|(f & th & hr & t & s & Hf & -> & t1 & t2 & -> & H1 & H2 & Hr & He)]; [by apply H in E|].
  destruct hr as [g|err']; [by apply He in E|]. rewrite E in He. destruct He as [[= <-] [(g & x & ->)| ->]]; [by edestruct Hw|].
  exists f, t1, th, s. rewrite app_nil_r, <- (assoc_L (++)). done.
Qed.

(** No call outside the handoff opens a site to writes. *)
Definition opens (o : op) : bool := match o with SetSuperReadOnly _ on | SetReadOnly _ on => negb on | _ => false end.

Lemma never_opens tr r : NoDup (map Name (active :: followers)) -> runs update tr r -> without opens tr.
Proof using.
  intros Hn H. destruct (cwp_sound _ _ _ _ _ _ (gw_update u unicode_lower fuel active followers Hn) H) as [Hm _].
  apply Forall_forall. intros [o x] Hx. apply list_elem_of_split in Hx as (t1 & t2 & ->). specialize (Hm t1 (ev o x) t2 eq_refl).
  by destruct o; cbn in *; subst.
Qed.

End update.

(** ** Properties *)

(** C10. An ordered update goes one site at a time. It rolls a follower only if it drifted,
    answered just before that it is a read-only direct replica, every site on the new
    template, the followers this update rolled included, was seen with a Ready pod since
    the last rollout, and every follower rolled so far was applied and has caught up since
    (read-only, replicating directly, its pod Ready). It hands off only a drifted active
    site, under the same condition on pods, to a promotable follower that is not rotating,
    pending a reclone or divergent, that was not refused when asked, that runs the new
    template and was just seen a direct replica. It rolls the active site only after the
    handoff succeeded, was recorded and the standby answered that it is writable; it
    rewrites the old active's replication only once it was fenced again and the standby
    holds all it holds, and only to the standby; it starts replication only on a site it
    applied, through the start gate or on a channel it just set. Every name it returns is a
    site that was applied and has caught up. *)
Theorem updates_in_order u unicode_lower fuel active followers tr r :
  NoDup (map Name (active :: followers)) ->
  runs (ExecuteTargets u unicode_lower fuel active followers) tr r ->
  (forall t1 o x t2, tr = t1 ++ ev o x :: t2 -> guarded u unicode_lower fuel active followers t1 o)
  /\ forall s, s ∈ r.1 -> done_site u unicode_lower fuel active followers tr s.
Proof.
  intros Hn H. destruct (cwp_sound _ _ _ _ _ _ (gw_update u unicode_lower fuel active followers Hn) H) as [Hm Hd].
  split; [|exact Hd]. intros t1 o x t2 E. apply (Hm t1 (ev o x) t2 E).
Qed.

(** C11. An update never leaves two writers: if it sends a standby [read_only=OFF], the active
    site's fence was acknowledged and no call of the whole update, before or after, opens
    the active site, or, the handoff's own candidate aside, any site, to writes again. If
    its handoff gives the writes back instead, clearing both flags on the active site is the
    last thing the update does, and no standby was sent [read_only=OFF]; if the handoff
    refuses, no server was sent a statement by it. *)
Theorem update_one_writer u unicode_lower fuel active followers tr r :
  NoDup (map Name (active :: followers)) ->
  runs (ExecuteTargets u unicode_lower fuel active followers) tr r ->
  without opens tr
  /\ (forall a c, called (InHandoff a c (Failover.SetReadOnly Failover.Session false)) tr ->
        a = Name active /\ made tr (InHandoff a c (Failover.SetSuperReadOnly Failover.Source true)) true
        /\ ~ called (InHandoff a c (Failover.SetSuperReadOnly Failover.Source false)) tr
        /\ ~ called (InHandoff a c (Failover.SetReadOnly Failover.Source false)) tr)
  /\ (forall cause ok, r.2 = Some (HandoffFailed (Failover.Aborted cause ok)) ->
        exists t c ok1 ok2 s, ok = ok1 && ok2
          /\ tr = t ++ lifted (Name active) c [ev (Failover.SetSuperReadOnly Failover.Source false) ok1; ev (Failover.SetReadOnly Failover.Source false) ok2] ++ ending s
          /\ ~ called (InHandoff (Name active) c (Failover.SetReadOnly Failover.Session false)) tr)
  /\ (forall cause a c o, r.2 = Some (HandoffFailed (Failover.Refused cause)) -> Failover.is_statement o = true -> ~ called (InHandoff a c o) tr).
Proof.
  intros Hn H. split; [by eapply never_opens|]. split; [|split].
  - intros a c Hc. apply (the_call u unicode_lower fuel active followers _ r) in Hc as (f & t1 & th & hr & t2 & _ & -> & -> & -> & H1 & H2 & Hr & Ho); [|done]. split; [done|].
    rewrite !(only_there _ _ _ _ _ f hr) by done. apply Failover.handoff_one_writer in Hr.
    destruct hr as [g|[cause|cause ok|g e]]; cbn in Hr.
    + destruct Hr as (Hs & N1 & N2). split; [|done]. apply made_after, made_before. by apply lifted_made.
    + by apply Hr in Ho.
    + by destruct Hr as (_ & ? & _).
    + destruct Hr as (Hs & N1 & N2). split; [|done]. apply made_after, made_before. by apply lifted_made.
  - intros cause ok E. destruct (failed_handoff _ _ _ _ _ _ _ _ H E) as (f & t1 & th & s & -> & H1 & Hr); [done|].
    apply Failover.handoff_one_writer in Hr as (_ & N & t & ok1 & ok2 & -> & ->).
    exists (t1 ++ lifted (Name active) (Name f) t), (Name f), ok1, ok2, s. split; [done|]. split; [by rewrite lifted_app, <- !(assoc_L (++))|].
    rewrite (only_there _ _ _ _ _ f (Ok "")) by (done || by repeat constructor). done.
  - intros cause a c o E Ho Hc. destruct (failed_handoff _ _ _ _ _ _ _ _ H E) as (f & t1 & th & s & -> & H1 & Hr); [done|].
    apply Failover.handoff_one_writer in Hr. apply in_run in Hc as (_ & _ & Hc); [by apply Hr in Hc|done|intros; by eapply follows_no_handoff|].
    exists f, (Ok ""). by repeat constructor.
Qed.

(** C12. An update loses nothing and adds nothing: if it sends a standby [read_only=OFF], the
    active site had been fenced with an acknowledged statement, its set was read after the
    fence, and the set the standby reported after its channel was reset denotes exactly the
    transactions of that fenced set; and the promotion the update records, if any, is that
    standby's, with that set. *)
Theorem update_loses_nothing u unicode_lower fuel active followers tr r a c :
  runs (ExecuteTargets u unicode_lower fuel active followers) tr r -> handoff_issues tr ->
  called (InHandoff a c (Failover.SetReadOnly Failover.Session false)) tr ->
  exists t1 rawS fenced t2 gtid t3,
    tr = t1 ++ ev (InHandoff a c (Failover.GetGtidExecuted Failover.Source)) (Some rawS) :: t2
           ++ ev (InHandoff a c (Failover.GetGtidExecuted Failover.Session)) (Some gtid) :: t3
    /\ made t1 (InHandoff a c (Failover.SetSuperReadOnly Failover.Source true)) true
    /\ ParseGTIDSet rawS = Ok fenced /\ Failover.denotes gtid fenced
    /\ ~ called (InHandoff a c (Failover.SetReadOnly Failover.Session false)) (t1 ++ t2)
    /\ forall s g, called (OnPromoted s g) tr -> s = c /\ g = gtid.
Proof.
  intros H Hi Hc. apply (the_call u unicode_lower fuel active followers _ r) in Hc as (f & u1 & th & hr & u2 & _ & -> & -> & -> & H1 & H2 & Hr & Ho); [|done].
  assert (Failover.servers_issue th) as Hs.
  { intros k raw set Hm Hp. eapply (Hi (Name active) (Name f) k raw set); [|done]. apply made_after, made_before. by apply lifted_made. }
  destruct (Failover.handoff_loses_nothing _ _ _ _ Hr Hs Ho) as (t1 & rawS & fenced & t2 & gtid & t3 & -> & Hf & Hp & Hd & Hn & Hrec).
  exists (u1 ++ lifted (Name active) (Name f) t1), rawS, fenced, (lifted (Name active) (Name f) t2), gtid, (lifted (Name active) (Name f) t3 ++ u2).
  split.
  { rewrite lifted_app, lifted_cons, lifted_app, lifted_cons, <- !(assoc_L (++)). cbn [app]. by rewrite <- !(assoc_L (++)). }
  split; [apply made_after; by apply lifted_made|]. split; [done|]. split; [done|]. split.
  - rewrite <- (assoc_L (++)), <- lifted_app. rewrite called_app. intros [[x Hx]|Hx%lifted_called]; [|done].
    unfold without in H1. rewrite Forall_forall in H1. by apply H1 in Hx.
  - intros s g. rewrite !called_app. intros [[x Hx]|[[x Hx]|[x Hx]]].
    + unfold without in H1. rewrite Forall_forall in H1. by apply H1 in Hx.
    + pose proof (lifted_ops (Name active) (Name f)) as Hops. setoid_rewrite Forall_forall in Hops. by destruct (Hops _ _ Hx).
    + unfold follows in H2. rewrite Forall_forall in H2. apply H2 in Hx as [-> Hg]. split; [done|].
      destruct Hrec as [->|[e ->]], Hg as [Hg|[e' Hg]]; congruence.
Qed.

(** ** Examples *)

(** [b] drifted and so did the active [a]; both serve, and every set is the same. [b] is
    writable once its handoff cleared [read_only]; the handoff's statements fail where
    [fails] says. *)
Definition demo_site (n source : string) : UpdateTarget :=
  {| Name := n; Host := "mysql-" +:+ n; Promotable := true; Drifted := true; ExpectedSource := source; RotationBlocked := false;
     ReclonePending := false; DivergenceBlocked := false; DivergentTransactions := 0; DivergentGtid := ""; probes_pod := true; asks_block := true |}.

Definition opened (e : event ans) : bool :=
  bool_decide (projT1 e = InHandoff "a" "b" (Failover.SetReadOnly Failover.Session false)).

Definition demo_env (fails : Failover.op -> bool) (h : list (event ans)) (o : op) : ans o :=
  match o with
  | Lock => {| phase := UpdatePhaseNone; updating := false |}
  | Now => UnixEpoch
  | CheckReadOnly s => Some (negb (bool_decide (s = "b") && existsb opened h))
  | ShowReplicaStatus s => Some (Some {| IORunning := true; SQLRunning := true; SourceHost := if bool_decide (s = "a") then "mysql-b" else "mysql-a" |})
  | GetGtidExecuted _ => Some (Failover.sid +:+ ":1-7")
  | PodReady _ => Ok {| Ready := true; Pod := "p"; Reason := "" |}
  | HandoffBlocked _ => None
  | ApplyUpdate _ => Applied
  | InHandoff _ _ o => Failover.env false fails [] o
  | ContextErr | RestorePeerHeld _ => false
  | Unlock _ | Sleep _ | OnPromoted _ _ => tt
  | _ => true
  end.

Definition demo_update : P (list string * option update_error) :=
  ExecuteTargets demo_controller lower_ascii 3 (demo_site "a" "") [demo_site "b" "mysql-a"].

Definition demo_smooth := demo_env (fun _ => false).

#[local] Existing Instance Failover.op_eq_dec.

(** The candidate's [RESET REPLICA ALL] fails. *)
Definition demo_stuck := demo_env (fun o => bool_decide (o = Failover.ResetReplicaAll Failover.Session)).

Lemma demo_names : NoDup (map Name [demo_site "a" ""; demo_site "b" "mysql-a"]).
Proof. apply (bool_decide_unpack _). by vm_compute. Qed.

Lemma updates_in_order_witness :
  done_site demo_controller lower_ascii 3 (demo_site "a" "") [demo_site "b" "mysql-a"] (exec demo_smooth demo_update []).1 "a".
Proof.
  destruct (updates_in_order demo_controller lower_ascii 3 (demo_site "a" "") [demo_site "b" "mysql-a"] _ _ demo_names (exec_run demo_smooth demo_update))
    as [_ H].
  apply H. apply (bool_decide_unpack _). by vm_compute.
Defined.

(** Its error. *)
Lemma demo_stuck_error : (exec demo_stuck demo_update []).2.2
  = Some (HandoffFailed (Failover.Aborted (Failover.PromoteFailed (Failover.Statement (Failover.ResetReplicaAll Failover.Session)) false) true)).
Proof. by vm_compute. Qed.

Lemma update_one_writer_witness : exists c, ~ called (InHandoff "a" c (Failover.SetReadOnly Failover.Session false)) (exec demo_stuck demo_update []).1.
Proof.
  destruct (update_one_writer demo_controller lower_ascii 3 (demo_site "a" "") [demo_site "b" "mysql-a"] _ _ demo_names (exec_run demo_stuck demo_update))
    as (_ & _ & H & _).
  destruct (H _ _ demo_stuck_error) as (t & c & ok1 & ok2 & s & _ & _ & Hn). by exists c.
Defined.

Lemma demo_update_bounded {A} (p : P A) : handoff_issues (exec demo_smooth p []).1.
Proof.
  intros a c k raw set [h [= ->]]%exec_answers Hp.
  assert (set = Failover.seven) as -> by (unfold Failover.seven; by rewrite Hp). apply Failover.seven_bounded.
Qed.

Lemma demo_opened : called (InHandoff "a" "b" (Failover.SetReadOnly Failover.Session false)) (exec demo_smooth demo_update []).1.
Proof. exists true. apply list_elem_of_In. vm_compute. repeat (try (left; reflexivity); right). Qed.

Lemma update_loses_nothing_witness : exists gtid, Failover.denotes gtid Failover.seven.
Proof.
  destruct (update_loses_nothing demo_controller lower_ascii 3 (demo_site "a" "") [demo_site "b" "mysql-a"] _ _ "a" "b" (exec_run demo_smooth demo_update)
    (demo_update_bounded demo_update) demo_opened) as (t1 & rawS & fenced & t2 & gtid & t3 & E & _ & Hp & Hd & _).
  exists gtid.
  destruct (exec_answers demo_smooth demo_update [] (InHandoff "a" "b" (Failover.GetGtidExecuted Failover.Source)) (Some rawS)) as [h [= ->]].
  { rewrite E. apply elem_of_app. right. left. }
  assert (fenced = Failover.seven) as <- by (unfold Failover.seven; by rewrite Hp). exact Hd.
Defined.
